(* ===== verification/_CoqProject ===== *)
-Q . S2P
Prelude.v
SipHash.v
CHeap.v
ProbeTable.v
Renamer.v
OutBuf.v
BcfTree.v
CanonicalHash.v
RustHash.v
HashTool.v
Bundle.v
BpfInsn.v
ConvertTests.v
Json.v
ConvertJson.v
ConvertProgs.v
BpfSem.v
FillRuns.v
Tnum.v
TnumRun.v
Zone.v
ZoneClose.v
ZoneSound.v
ZoneOps.v
ZoneProps.v
ZoneRun.v
Interval.v
IntervalSound.v
IntervalOps.v
IntervalProps.v
Ast.v
Numeric.v
VState.v
IntervalPacket.v
PacketFamily.v
PacketSound.v
PacketPath.v
Pcc.v
PccSound.v
PccProps.v
HelperDefs.v
HelperProtos.v
Subprog.v
SubprogProps.v
Dataflow.v
Liveness.v
LivenessProps.v
LivenessSound.v
Cfg.v
CfgProps.v
Scc.v
Tarjan.v
SccProps.v
Lower.v
LowerProps.v
Reloc.v
LowerSem.v
LowerRefine.v
Loader.v
Ll2Loader.v
LegacyAlu.v
LegacyJmp.v
LegacyMem.v
LegacyPkt.v
LegacyXdp.v
LegacyMap.v
LegacyBounds.v
LegacyHelper.v
LegacyCtx.v
LegacyCall.v
LegacyBackport.v
LegacyMisc.v
LegacyTests.v
XdpTests.v
PccExamples.v
TestRunner.v
TestPipeline.v
