(* ===== verification/Prelude.v ===== *)
(** * Verification of the zovia eBPF verifier: C reference code, test converter and
      test suite, and the parts of the Rust core they mirror

    ** The program

    zovia checks eBPF programs ahead of the kernel.  Where its abstract domains are too
    weak it asks a solver, stores the resulting proof in a _bundle_ next to the object
    file and lets a patched kernel look it up by a hash of the proof goal.  The pieces
    that matter for this development are:

    - the _canonical hash_ of a goal, computed by the kernel side in C
      ([c-ref/canonical_hash.c], [siphash24.h]) and by the verifier in Rust
      ([src/refinement/canonical_hash.rs]); both must give the same digest for goals that
      differ only in variable names;
    - the _hash tool_ ([c-ref/canonical_hash_tool.c]), which the Rust tests run on serialized
      goals to compare the two implementations;
    - the _bundle_ ([c-ref/bcf_bundle.h], [bpf_attr_bcf_ext.h], [src/refinement/bundle.rs]):
      wire format, tolerant reader, merging writer;
    - the _test converter_ ([convert_tests.c]): it includes a kernel test file
      ([selftests/legacy/verifier/*.c]), generates the large programs with fill helpers, counts
      instructions and prints JSON; the _test runner_ ([src/testing/legacy_selftest.rs]) reads it,
      lowers each program, has it analysed and compares the verdicts;
    - the _test suite_ itself, arrays of [struct bpf_test] written with instruction macros;
    - the _tristate numbers_ ([src/domains/tnum.rs]), the bit-level domain of the verifier;
    - the _zone domain_ ([src/domains/zone/dbm.rs], [ops.rs]), difference bounds between registers and
      the ends of the packet, with shadow ranges and the origin of every bound;
    - the _interval domain_ ([src/domains/interval/]), which mirrors the kernel: eight bounds per
      register, pointer offsets with identities, proven packet sizes; [src/domains/numeric.rs]
      chooses between the two domains;
    - the _packet checks_ of the interval domain ([transfer/branch/interval_packet.rs],
      [transfer/memory/packet.rs]): what a comparison with the end of the packet proves, for which
      registers and stack slots, and which accesses follow;
    - the _certificate checker_ ([src/pcc/]): certificates with proofs found by the zone domain, their
      validation, their replay against the states of the interval domain, and the injection of what
      was verified;
    - the _decoder_ ([src/parsing/bpf_insn.rs], [bpf_to_ast.rs], the fixups of [elf/reloc.rs]): bytes
      become raw instructions, relocations are written into them, and they are lowered to the
      instructions all analyses read;
    - the _static passes_ over a program ([src/analysis/flow/subprog.rs], [liveness.rs], [cfg.rs], [scc.rs]): functions and
      their boundaries, stack depth of call chains, live registers and stack slots, the graph of control; the number of
      arguments of a helper comes from the prototypes of [transfer/call/helper_protos.rs];
    - the _loaders_ ([linux-deltas/test_loader.c], [ll2_loader.c]), which hand an object and its
      bundle to the kernel and report the verdict;
    - the _samples for proof-carrying code_ ([pcc-tests]), programs that only the zone domain
      proves safe.

    ** Files

    - [Prelude]: machine integers as [Z] with [uwrap]/[swrap], ranges [in_u]/[in_s], bitwise
      reasoning ([zbits]), little-endian words, shared list lemmas and tactics.
    - [SipHash]: [siphash24.h], as the loop over the buffer and as the definition on padded
      words; [siphash24_correct] relates them.
    - [CHeap]: an allocator that may refuse any request, with ownership of live blocks.
    - [ProbeTable]: linear probing with multiplicative hashing, as an abstract finite map.
    - [Renamer], [OutBuf]: [struct renamer] and [struct outbuf] of [canonical_hash.c] with growth
      and failure; the Rust [VarRenamer]; both renamers implement first-occurrence numbering.
    - [BcfTree]: the specification of the hash: expression trees, their canonical byte stream, its
      decoder, and alpha-equivalence.
    - [CanonicalHash]: slot table, [encode] and [zovia_canonical_hash] in C.
    - [RustHash]: [slot_index], [encode] and [hash_expr] in Rust, and the equivalence with C.
    - [HashTool]: the command line tool, its input parser and exit codes, and the Rust driver.
    - [Bundle]: reader, merge and writer, and the validation invariants of the kernel.
    - [BpfInsn]: constants, enumerations, [struct bpf_insn] with its field widths, instruction
      macros, context structures with their C layout, the helper table of the kernel header.
    - [ConvertTests]: [struct bpf_test], designated initialisers, fill helpers, [count_insns], the
      JSON printer and [main] of [convert_tests.c].
    - [Json]: JSON lexer and parser, the reference the printed text is judged by.
    - [ConvertJson], [ConvertProgs]: what the converter prints, which instructions it finds, which
      fill requests fit their buffer.
    - [BpfSem]: a reference semantics of eBPF programs (specification, it models no source file).
    - [FillRuns]: programs generated by fill helpers, executed by [BpfSem].
    - [Tnum]: the tristate domain, its meaning and soundness; [TnumRun]: abstract execution of
      straight-line programs with it, sound with respect to [BpfSem].
    - [Zone]: the zone domain: matrix, closure, queries, assignments, arithmetic, packet anchors,
      widening, narrowing, path reconstruction.  [ZoneClose]: the closure as shortest paths;
      [ZoneSound]: the well-formedness invariant [dbm_wf], the meaning [holds] and the soundness
      lemmas of the operations; [ZoneOps]: the operations as one type with their effect on
      valuations; [ZoneProps]: queries, region checks, widening, calls, defects.
    - [ZoneRun]: a proof method, not the transfer code of the verifier and no model of a source file:
      abstract execution of packet programs with the operations of [Zone], sound with respect to
      [BpfSem].  It serves to prove that given programs are safe for all packets.  [XdpTests],
      [PccExamples]: the packet tests and the samples it is used on.
    - [Interval]: the interval domain; [IntervalSound]: the invariant [ivl_wf], the meaning
      [ivl_holds] and the soundness of the bounds; [IntervalOps], [IntervalProps]: the operations,
      paths of operations, queries, defects.
    - [Ast]: the instruction type of the verifier with a 64-bit semantics; [Numeric]: the choice of
      the domain and what both promise (class [Domain] with an instance per domain); [VState]:
      register types, the stack frames, 8-byte stores and loads of registers.
    - [IntervalPacket]: refinement by comparisons, static resolution of repeated comparisons,
      access checks; [PacketFamily], [PacketSound]: the pointers that share an identity and the
      invariant of packet paths; [PacketPath]: the paths of the verifier as a step relation.
    - [Pcc]: certificates, validation, replay, injection; [PccSound], [PccProps]: what acceptance
      means.
    - [HelperDefs]: the helper declarations of the kernel header [bpf_helper_defs.h];
      [HelperProtos]: argument kinds and size pairs of the helper prototypes of the verifier.
    - [Subprog]: functions, stack depths and call chains; [SubprogProps]: what the checks guarantee.
    - [Dataflow]: the loops of the liveness passes, as least solutions of monotone equations;
      [Liveness]: aliases of the frame pointer, uses and definitions, the fixed point of a function
      and the propagation into called functions; [LivenessProps]: what is computed;
      [LivenessSound]: what it means for executions on a machine (class [Machine]).
    - [Cfg]: successors and marks of an instruction, loops, the depth-first search over a program;
      [CfgProps]: what the search decides and marks.
    - [Scc]: the iterative algorithm of Tarjan of [compute_scc]; [Tarjan]: its invariant and the steps
      that keep it, on numberings as functions; [SccProps]: the code follows it.
    - [Lower]: decoding and lowering with their errors; [LowerProps]: what they accept and return;
      [Reloc]: the fixups of calls, callbacks, maps and helpers, each a [Patch] of the slots it names;
      [LowerSem]: an execution of lowered programs on the states of [BpfSem], and the instruction set
      with its newer encodings (specification); [LowerRefine]: machine runs against [Ast].
    - [Loader], [Ll2Loader]: the two loaders over an environment that answers every call.
    - [LegacyAlu], [LegacyJmp], [LegacyMem], [LegacyPkt], [LegacyXdp], [LegacyMap], [LegacyBounds],
      [LegacyHelper], [LegacyCtx], [LegacyCall], [LegacyBackport], [LegacyMisc]: the tests of 89 source
      files, one definition per test; [LegacyTests]: which ones can be executed, which ones fault.
    - [TestRunner]: the runner: its records, the data model of the JSON library it uses (a parameter),
      the outcomes and counters; [TestPipeline]: the tests through converter, runner and lowering.

    ** Correspondence

    C state is passed explicitly: a function takes and returns the heap, and [None] is undefined
    behaviour (a store outside a buffer, a double release).  Integers are kept at their width: a
    conversion is [u8], [u16], [u32], [u64], [s16] or [s32] of an integer.  A macro that expands to
    initialisers is a list of instructions.  A test is a [TEST] with one function per designated
    initialiser.  The definitions of a module keep the names of the source; parts of a function
    that are loops have a name of their own.  The [siphasher] crate is a parameter of the Rust
    hash with the documented behaviour as hypothesis; [calloc] is an oracle.  libbpf and the system
    calls of the loaders are a function from the history of calls to the next answer, so a theorem
    covers every behaviour of theirs; an output line is an event with the printed values.  A
    [&mut Dbm] argument is a state passed and returned; [i64] entries stay in their range
    ([apply_wf]), and a negation that the release build would wrap is [wrapping_neg].

    ** Theorems

    - Hash: for every pattern of allocation failures the C hash returns the specified digest or 0
      ([canonical_hash_robust]); where all requests are granted it
      returns the digest of Rust, and 0 where Rust panics ([cross_impl_agrees]); the bytes hashed are
      equal exactly for alpha-equivalent goals ([hash_bytes_alpha_iff]); the tool reproduces the
      Rust digest and rejects truncated input ([tool_agrees], [tool_truncated]).
    - Bundle: what is written is read back, passes the kernel checks, and writing is idempotent
      ([bundle_round_trip], [written_bundle_valid], [write_bundle_idempotent]).
    - Converter: the text printed is a JSON document that denotes the tests ([main_output_json]);
      complete static tests are printed completely ([static_tests_converted]); the counter is
      exact exactly for complete programs ([count_insns_exact]); the fill helpers stay in their
      buffer exactly for the requests of [fits] ([fill_helper_fits]).
    - Generated programs and tests: generated programs return the value their test expects, for all
      generator states and random words ([rand_ld_dw_returns], [torturous_jumps_return]); the tests of
      [subreg.c] return what they declare ([subreg_tests_return]); rejected tests that misbehave
      fault ([rejected_tests_fault]).
    - Tool chain: the runner reads exactly the tests the converter was given ([runner_reads_converter]);
      on the 1242 static tests it meets no internal error, and the lowering refuses only tests that
      announce it ([suite_lowered]); accepted tests, lowered and run, return what they declare
      ([accepted_tests_run]); the packet tests and samples, lowered, are safe for every packet when
      declared accepted, and read outside of some packet when declared rejected, one excepted
      ([packet_tests_run]).
    - Tristate numbers: soundness of the transfer functions other than subtraction
      ([tnum_ops_sound]), [widen] as least
      upper bound, [intersect] exact, and a proof that [sub] is not sound.
    - Zone domain: every operation over-approximates its instruction where it does not wrap
      ([zone_ops_sound]); along paths of operations and widenings all answers are true and accepted
      packet accesses lie between their anchors ([zone_path_safe]); the closure computes the tightest
      bounds where nothing saturates ([zone_close_best]); widening covers both arguments, and changes
      the matrix a bounded number of times ([widen_narrow_spec], [widen_converges]).
    - Interval domain: a path of operations that neither saturates nor narrows wrongly describes every
      execution ([interval_path_sound]), the answers are true ([interval_queries_sound],
      [numeric_queries_sound]), pointers survive an 8-byte store and load
      ([spill_fill], in this domain).
    - Packet checks: along the paths of the verifier in the interval domain, under the conditions of
      [PacketPath.step] (no saturation, no wrapping pointer, 64-bit comparisons on one side of the sign,
      fresh identities), an accepted access lies inside the packet or its metadata, and a comparison
      resolved statically is resolved rightly ([packet_path_safe]); [packet_gaps] shows what goes wrong
      without them.
    - Certificates: a validated entry never makes the checker index outside the program
      ([validated_no_panic]); an accepted entry whose chain satisfies [chain_ok] is true
      on straight executions without wrapping, and the access it allows is safe
      ([certified_access_safe]); derivations whose writes the checker sees are right ([derive_sound]);
      [certificate_gaps] shows what goes wrong without the conditions.
    - Static passes: where no 16-bit sum wraps, a program passes the check of its call chains exactly
      when every chain has at most eight different frames and 512 bytes of stack, in total or per
      private stack ([stack_overflow_exact]); without private stacks the accesses relative to the frame
      pointer then fit ([stack_accesses_fit]); functions are closed under calls and jumps other than
      [may_goto] ([subprogs_closed]).  The liveness analysis ends with exactly the registers that some path
      uses ([liveness_exact]), registers that are not live do not influence an execution of
      closed functions of the instructions it reads fully ([liveness_sound]), and [liveness_uses] lists the instructions it misreads.
    - Control flow: the search ends and accepts exactly the programs described by reachability
      along the jumps, calls and fall-throughs of the instructions ([check_cfg_exact]); running past
      the last instruction is not noticed ([fall_off_accepted]); marks and loops are exact ([cfg_marks_exact], [loops_exact]); every infinite
      path keeps passing prune points, the points where the interpreter may stop
      ([prune_points_recur]); the identifiers of strongly connected components are exact
      ([compute_scc_exact]).
    - Decoder: decoding inverts the memory layout ([decode_round_trip]); the lowering decides slot by
      slot and reports the first error ([lower_exact]); relocated instructions refer to what their
      relocation names ([relocs_resolved]); lowered programs run as the instruction set runs the bytes,
      for every opcode, the encodings of [kept] ([lower_simulates]), so the register semantics of
      [Ast], on which the soundness of domains and certificates rests, covers every run of such a
      program inside a function, with any behaviour of the helpers ([machine_covered]).
    - Helpers: the prototypes against the kernel header, with the exceptions ([helper_protos_agree]).
    - Samples: the C sample for proof-carrying code reads inside every packet
      ([pcc_var_opts_header_safe]).
    - Loaders: what the exit codes mean, for every behaviour of the environment
      ([loader_exit_code], [per_prog_verdicts], [ll2_result]).
    - Defects: [canonical_hash_leak], [tnum_sub_unsound], [junk_insn_truncated],
      [helper_ids_agree] (four wrong helper numbers), the overflowing requests of
      [fill_helper_fits], [zone_wraparound_unsound], [forget_loses_path], [ll2_ignores_types],
      [interval_gaps], [map_value_fill_bounds], [packet_gaps], [certificate_gaps], [subprog_gaps],
      [helper_sizes_unchecked], [liveness_gaps], [loop_entries_missed],
      [fall_off_accepted], [lower_gaps].

    ** Fuel and bounds

    [encode] recurses on expression tables; its fuel has to exceed the number of slots of the table,
    which is enough because arguments point backwards ([hash_expr_panics] proves termination).  The
    renamer and slot table loops run at most as often as the table has slots, which the load
    invariant makes sufficient.  [BpfSem.run] counts steps; the theorems name a number of steps that
    suffices (the length of the generated program, 133 for the torturous jumps, 20000 for the
    tests, of which none takes more than a few hundred).  [ZoneRun] uses one step more than the
    program has instructions, enough because the programs jump forward, and proves that the
    concrete run ends within them.  Packets and metadata have at most 32 KiB each, far from the
    ends of the address space of [BpfSem].  [decompose] of the zone domain has fuel because the
    source recurses without a bound.  [check_call_chain] recurses at most one frame beyond the limit of
    eight.  The loops of the liveness passes have fuel for every fact there can be, and
    [Dataflow.solve_least] proves that they end within it.  The searches of the control-flow check have
    fuel for every instruction and edge, which [check_cfg_exact] and [loops_exact] prove enough.
    Lexing and parsing of JSON, decoding and lowering are structural; [LowerSem.steps] counts steps and
    [lower_simulates] holds for every number of them.

    ** Not modelled

    The rest of the abstract interpreter (worklist, pruning, the other transfer functions, call
    validators), flags and results of the call prototypes (of the kfunc prototypes, all but which
    ones return the next element of an iterator), the state of the verifier beyond types, numeric domain
    and stack slots, stores and loads of other sizes than 8 aligned bytes, the solver interface, the reading of object files and of BTF in the Rust core (the relocations and
    the places of functions are arguments); reading and printing of certificates; scripts, patches, kernel headers and the selftest programs that clang compiles; the tests of
    [direct_value_access.c], whose macro the converter does not define.  Of the environment of a test
    program [BpfSem] has registers, stack, packet, the packet fields of the context and the random
    helper, but no maps, other helpers or ancillary packet data. *)

From Stdlib Require Import ZArith Lia.
From stdpp Require Import base numbers strings gmap list.

#[export] Set Default Goal Selector "!".
Open Scope Z_scope.

(** * Machine integers

    A C or Rust integer of width [w] is a [Z]; the wrap-around of unsigned
    arithmetic is written out with [uwrap], the reinterpretation of a bit
    pattern as two's complement with [swrap]. *)

Definition uwrap (w x : Z) : Z := x mod 2 ^ w.
Definition swrap (w x : Z) : Z :=
  let y := x mod 2 ^ w in if y <? 2 ^ (w - 1) then y else y - 2 ^ w.

Abbreviation u8 := (uwrap 8).
Abbreviation u16 := (uwrap 16).
Abbreviation u32 := (uwrap 32).
Abbreviation u64 := (uwrap 64).
Abbreviation s8 := (swrap 8).
Abbreviation s16 := (swrap 16).
Abbreviation s32 := (swrap 32).
Abbreviation s64 := (swrap 64).

(** [in_u w x]: [x] is a value of the unsigned type of width [w]. *)
Definition in_u (w x : Z) : Prop := 0 <= x < 2 ^ w.
Definition in_s (w x : Z) : Prop := - 2 ^ (w - 1) <= x < 2 ^ (w - 1).

#[export] Instance in_u_dec w x : Decision (in_u w x).
Proof. unfold in_u. apply _. Defined.
#[export] Instance in_s_dec w x : Decision (in_s w x).
Proof. unfold in_s. apply _. Defined.

(** Bitwise complement at width [w] ([!x] in Rust, [~x] in C). *)
Definition unot (w x : Z) : Z := 2 ^ w - 1 - x.

Create HintDb zint.
Create Rewrite HintDb zbits.

Lemma pow2_pos w : 0 <= w -> 0 < 2 ^ w.
Proof. intros. apply Z.pow_pos_nonneg; lia. Qed.

Lemma uwrap_range w x : 0 <= w -> in_u w (uwrap w x).
Proof. intros. apply Z.mod_pos_bound, pow2_pos. lia. Qed.

Lemma uwrap_small w x : in_u w x -> uwrap w x = x.
Proof. intros. by apply Z.mod_small. Qed.

Lemma uwrap_idemp w x : 0 <= w -> uwrap w (uwrap w x) = uwrap w x.
Proof. intros. by apply uwrap_small, uwrap_range. Qed.

Lemma uwrap_add_l w x y : 0 <= w -> uwrap w (uwrap w x + y) = uwrap w (x + y).
Proof.
  intros. unfold uwrap. pose proof (pow2_pos w H). apply Zplus_mod_idemp_l.
Qed.

Lemma uwrap_add_r w x y : 0 <= w -> uwrap w (x + uwrap w y) = uwrap w (x + y).
Proof.
  intros. unfold uwrap. pose proof (pow2_pos w H). apply Zplus_mod_idemp_r.
Qed.

Lemma uwrap_sub_l w x y : 0 <= w -> uwrap w (uwrap w x - y) = uwrap w (x - y).
Proof.
  intros. unfold uwrap. pose proof (pow2_pos w H). apply Zminus_mod_idemp_l.
Qed.

Lemma uwrap_sub_r w x y : 0 <= w -> uwrap w (x - uwrap w y) = uwrap w (x - y).
Proof.
  intros. unfold uwrap. pose proof (pow2_pos w H). apply Zminus_mod_idemp_r.
Qed.

Lemma in_u_mono w w' x : 0 <= w <= w' -> in_u w x -> in_u w' x.
Proof.
  intros ? [? ?]. split; [done|].
  pose proof (Z.pow_le_mono_r 2 w w'). lia.
Qed.

Lemma swrap_range w x : 0 < w -> in_s w (swrap w x).
Proof.
  intros Hw. unfold in_s, swrap.
  pose proof (Z.mod_pos_bound x (2 ^ w) (pow2_pos w ltac:(lia))).
  assert (2 ^ w = 2 * 2 ^ (w - 1)) as E.
  { rewrite <- Z.pow_succ_r by lia. f_equal. lia. }
  destruct (Z.ltb_spec (x mod 2 ^ w) (2 ^ (w - 1))); lia.
Qed.

Lemma swrap_small w x : 0 < w -> in_s w x -> swrap w x = x.
Proof.
  intros Hw [Hl Hu]. unfold swrap.
  assert (2 ^ w = 2 * 2 ^ (w - 1)) as E.
  { rewrite <- Z.pow_succ_r by lia. f_equal. lia. }
  destruct (Z_lt_dec x 0).
  - replace (x mod 2 ^ w) with (x + 2 ^ w).
    + destruct (Z.ltb_spec (x + 2 ^ w) (2 ^ (w - 1))); lia.
    + rewrite <- (Z.mod_small (x + 2 ^ w) (2 ^ w)) by lia.
      rewrite <- (Z.mul_1_l (2 ^ w)) at 1. by rewrite Z_mod_plus_full.
  - rewrite Z.mod_small by lia.
    destruct (Z.ltb_spec x (2 ^ (w - 1))); lia.
Qed.

(** Reading a pattern as signed and wrapping it back is the identity on
    patterns. *)
Lemma uwrap_swrap w x : 0 < w -> uwrap w (swrap w x) = uwrap w x.
Proof.
  intros Hw. unfold uwrap, swrap.
  destruct (Z.ltb_spec (x mod 2 ^ w) (2 ^ (w - 1))).
  - rewrite Z.mod_mod; [done|]. pose proof (pow2_pos w). lia.
  - replace (x mod 2 ^ w - 2 ^ w) with (x mod 2 ^ w + (-1) * 2 ^ w) by lia.
    rewrite Z_mod_plus_full, Z.mod_mod; [done|]. pose proof (pow2_pos w). lia.
Qed.

Lemma swrap_uwrap w x : 0 < w -> swrap w (uwrap w x) = swrap w x.
Proof.
  intros Hw. unfold swrap, uwrap.
  rewrite Z.mod_mod; [done|]. pose proof (pow2_pos w). lia.
Qed.

(** * Bits *)

Lemma testbit_uwrap w x i :
  0 <= w -> 0 <= i -> Z.testbit (uwrap w x) i = (i <? w) && Z.testbit x i.
Proof.
  intros. unfold uwrap. destruct (Z.ltb_spec i w).
  - by rewrite Z.mod_pow2_bits_low by lia.
  - by rewrite Z.mod_pow2_bits_high by lia.
Qed.

Lemma in_u_testbit_high w x i : in_u w x -> 0 <= w <= i -> Z.testbit x i = false.
Proof.
  intros Hx Hi. rewrite <- (uwrap_small w x Hx), testbit_uwrap by lia.
  by destruct (Z.ltb_spec i w); [lia|].
Qed.

Lemma in_u_bits w x :
  0 <= w -> in_u w x <-> 0 <= x /\ (forall i, w <= i -> Z.testbit x i = false).
Proof.
  intros Hw. split.
  - intros Hx. split; [apply Hx|]. intros i Hi.
    apply (in_u_testbit_high w); [done|lia].
  - intros [Hx Hb]. assert (x = uwrap w x) as ->; [|by apply uwrap_range].
    apply Z.bits_inj'. intros i Hi. rewrite testbit_uwrap by lia.
    destruct (Z.ltb_spec i w); [done|]. simpl. apply Hb. lia.
Qed.

Lemma in_u_land w x y : 0 <= w -> in_u w x -> 0 <= y -> in_u w (Z.land x y).
Proof.
  intros Hw Hx Hy. apply in_u_bits; [done|]. split.
  - apply Z.land_nonneg. left. apply Hx.
  - intros i Hi. rewrite Z.land_spec, (in_u_testbit_high w x) by (done || lia).
    done.
Qed.

Lemma in_u_lor w x y : 0 <= w -> in_u w x -> in_u w y -> in_u w (Z.lor x y).
Proof.
  intros Hw Hx Hy. apply in_u_bits; [done|]. split.
  - apply Z.lor_nonneg. split; [apply Hx|apply Hy].
  - intros i Hi. by rewrite Z.lor_spec, (in_u_testbit_high w x),
      (in_u_testbit_high w y) by (done || lia).
Qed.

Lemma in_u_lxor w x y : 0 <= w -> in_u w x -> in_u w y -> in_u w (Z.lxor x y).
Proof.
  intros Hw Hx Hy. apply in_u_bits; [done|]. split.
  - apply Z.lxor_nonneg. destruct Hx, Hy. lia.
  - intros i Hi. by rewrite Z.lxor_spec, (in_u_testbit_high w x),
      (in_u_testbit_high w y) by (done || lia).
Qed.

Lemma in_u_shiftr w x n : 0 <= w -> 0 <= n -> in_u w x -> in_u w (Z.shiftr x n).
Proof.
  intros Hw Hn Hx. apply in_u_bits; [done|]. split.
  - apply Z.shiftr_nonneg. apply Hx.
  - intros i Hi. rewrite Z.shiftr_spec by lia.
    apply (in_u_testbit_high w); [done|lia].
Qed.

Lemma in_u_unot w x : 0 <= w -> in_u w x -> in_u w (unot w x).
Proof. unfold in_u, unot. lia. Qed.

Lemma testbit_unot w x i :
  0 <= w -> in_u w x -> 0 <= i ->
  Z.testbit (unot w x) i = (i <? w) && negb (Z.testbit x i).
Proof.
  intros Hw Hx Hi.
  assert (unot w x = uwrap w (Z.lnot x)) as ->.
  { unfold unot, uwrap.
    replace (Z.lnot x) with (2 ^ w - 1 - x + (-1) * 2 ^ w)
      by (unfold Z.lnot; lia).
    rewrite Z_mod_plus_full, Z.mod_small; unfold in_u in Hx; lia. }
  rewrite testbit_uwrap, Z.lnot_spec by lia. done.
Qed.

Lemma testbit_shiftl x n i :
  0 <= n -> 0 <= i -> Z.testbit (Z.shiftl x n) i = (n <=? i) && Z.testbit x (i - n).
Proof.
  intros. rewrite Z.shiftl_spec by lia. destruct (Z.leb_spec n i); [done|].
  by rewrite Z.testbit_neg_r by lia.
Qed.

#[export] Hint Resolve uwrap_range in_u_land in_u_lor in_u_lxor in_u_shiftr
  in_u_unot : zint.
#[export] Hint Rewrite Z.land_spec Z.lor_spec Z.lxor_spec Z.ldiff_spec Z.bits_0 : zbits.
#[export] Hint Rewrite testbit_uwrap testbit_unot testbit_shiftl Z.shiftr_spec
  using (auto with zint; lia) : zbits.

(** [zbits]: prove an equation of integers bit by bit.  Bits above the width
    of a variable known to be [in_u] are rewritten to [false]. *)
Ltac zbits_high :=
  repeat match goal with
  | H : in_u ?w ?x |- context [Z.testbit ?x ?i] =>
      rewrite (in_u_testbit_high w x i H) by lia
  end.

Ltac zbits_cases :=
  repeat match goal with
  | |- context [?a <? ?b] => destruct (Z.ltb_spec a b)
  | |- context [?a <=? ?b] => destruct (Z.leb_spec a b)
  end.

Ltac zbits :=
  apply Z.bits_inj'; let i := fresh "i" in let Hi := fresh "Hi" in
  intros i Hi; autorewrite with zbits; zbits_cases; zbits_high;
  repeat match goal with
  | |- context [Z.testbit ?x ?j] => destruct (Z.testbit x j) eqn:?
  end; simpl; try reflexivity; try congruence; try lia.

(** * Little-endian words *)

Definition is_byte (b : Z) : Prop := in_u 8 b.

Fixpoint le_bytes (n : nat) (v : Z) : list Z :=
  match n with
  | O => []
  | S n' => v mod 256 :: le_bytes n' (v / 256)
  end.

Fixpoint le_val (bs : list Z) : Z :=
  match bs with
  | [] => 0
  | b :: bs' => b + 256 * le_val bs'
  end.

Lemma length_le_bytes n v : length (le_bytes n v) = n.
Proof. revert v. induction n; intros; simpl; auto. Qed.

Lemma le_bytes_are_bytes n v : Forall is_byte (le_bytes n v).
Proof.
  revert v. induction n; intros; simpl; constructor; auto.
  apply (Z.mod_pos_bound v 256). lia.
Qed.

Lemma pow256_succ n : 2 ^ (8 * Z.of_nat (S n)) = 256 * 2 ^ (8 * Z.of_nat n).
Proof.
  replace (8 * Z.of_nat (S n)) with (8 + 8 * Z.of_nat n) by lia.
  rewrite Z.pow_add_r by lia. done.
Qed.

Lemma le_val_bytes n v : le_val (le_bytes n v) = uwrap (8 * Z.of_nat n) v.
Proof.
  revert v. induction n as [|n IH]; intros v; simpl le_bytes; simpl le_val.
  - unfold uwrap. simpl. by rewrite Z.mod_1_r.
  - rewrite IH. unfold uwrap. rewrite pow256_succ.
    rewrite Z.rem_mul_r by (pose proof (pow2_pos (8 * Z.of_nat n)); lia). lia.
Qed.

Lemma le_val_bytes_small n v :
  in_u (8 * Z.of_nat n) v -> le_val (le_bytes n v) = v.
Proof. intros. by rewrite le_val_bytes, uwrap_small. Qed.

Lemma le_bytes_val bs :
  Forall is_byte bs -> le_bytes (length bs) (le_val bs) = bs.
Proof.
  induction 1 as [|b bs Hb _ IH]; simpl; [done|].
  assert (b = (b + 256 * le_val bs) mod 256) as <-.
  { unfold is_byte, in_u in Hb. rewrite (Z.mul_comm 256), Z_mod_plus_full.
    rewrite Z.mod_small; lia. }
  assert ((b + 256 * le_val bs) / 256 = le_val bs) as ->.
  { unfold is_byte, in_u in Hb. rewrite (Z.mul_comm 256), Z.div_add by lia.
    rewrite Z.div_small; lia. }
  by rewrite IH.
Qed.

Lemma le_val_range bs : Forall is_byte bs -> in_u (8 * Z.of_nat (length bs)) (le_val bs).
Proof.
  induction 1 as [|b bs Hb _ IH]; unfold in_u in *; simpl le_val; [done|].
  simpl length. rewrite pow256_succ. unfold is_byte, in_u in Hb. lia.
Qed.

Lemma le_bytes_inj n v w :
  in_u (8 * Z.of_nat n) v -> in_u (8 * Z.of_nat n) w ->
  le_bytes n v = le_bytes n w -> v = w.
Proof.
  intros Hv Hw E. rewrite <- (le_val_bytes_small n v Hv), E.
  by apply le_val_bytes_small.
Qed.

(** The C idiom [(v >> 8*k) & 0xff] gives the bytes of the word. *)
Lemma land_255 v : Z.land v 255 = v mod 256.
Proof. change 255 with (Z.ones 8). by rewrite Z.land_ones by lia. Qed.

Lemma shiftr_8 v : Z.shiftr v 8 = v / 256.
Proof. by rewrite Z.shiftr_div_pow2 by lia. Qed.

(** * Lists and sequences of prefixes *)

Lemma take_app_len {A} (l1 l2 : list A) n : n = length l1 -> take n (l1 ++ l2) = l1.
Proof. intros ->. apply take_app_length. Qed.

Lemma drop_app_len {A} (l1 l2 : list A) n : n = length l1 -> drop n (l1 ++ l2) = l2.
Proof. intros ->. apply drop_app_length. Qed.

Lemma app_inj_len {A} (a b c d : list A) :
  length a = length c -> a ++ b = c ++ d -> a = c /\ b = d.
Proof. intros Hl H. by apply app_inj_1 in H. Qed.

(** Case analysis on the tests of the code. *)
Ltac case_bool :=
  match goal with
  | |- context [?a =? ?b] => destruct (Z.eqb_spec a b)
  | |- context [?a <? ?b] => destruct (Z.ltb_spec a b)
  | |- context [?a <=? ?b] => destruct (Z.leb_spec a b)
  | H : context [?a =? ?b] |- _ => destruct (Z.eqb_spec a b)
  | H : context [?a <? ?b] |- _ => destruct (Z.ltb_spec a b)
  | H : context [?a <=? ?b] |- _ => destruct (Z.leb_spec a b)
  end.
