(* ===== verification/SipHash.v ===== *)
(** SipHash-2-4 as written in [c-ref/siphash24.h].

    [siphash24] translates the C function: the four 64-bit lanes are a record,
    [SIPHASH24_ROUND] is the macro, the main loop walks the buffer eight bytes
    at a time up to [end], the switch on [left] with its fallthroughs collects
    the tail into the last word.  The theorems relate it to the padded-block
    definition of the algorithm, give its range and show that a round loses no
    information. *)

From S2P Require Import Prelude.
From Stdlib Require Import ZArith Lia.
From stdpp Require Import base numbers list.
Open Scope Z_scope.

Module SipHash.

Record sip := Sip { v0 : Z; v1 : Z; v2 : Z; v3 : Z }.

#[export] Instance sip_eq_dec : EqDecision sip.
Proof. solve_decision. Defined.

(** [static inline uint64_t siphash24_rotl(uint64_t x, int b)] *)
Definition siphash24_rotl (x b : Z) : Z :=
  Z.lor (u64 (Z.shiftl x b)) (Z.shiftr x (64 - b)).

Definition add64 (x y : Z) : Z := u64 (x + y).

(** [SIPHASH24_ROUND(v0, v1, v2, v3)], one assignment of the macro per [let]. *)
Definition SIPHASH24_ROUND (s : sip) : sip :=
  let '(Sip v0 v1 v2 v3) := s in
  let v0 := add64 v0 v1 in
  let v1 := siphash24_rotl v1 13 in
  let v1 := Z.lxor v1 v0 in
  let v0 := siphash24_rotl v0 32 in
  let v2 := add64 v2 v3 in
  let v3 := siphash24_rotl v3 16 in
  let v3 := Z.lxor v3 v2 in
  let v0 := add64 v0 v3 in
  let v3 := siphash24_rotl v3 21 in
  let v3 := Z.lxor v3 v0 in
  let v2 := add64 v2 v1 in
  let v1 := siphash24_rotl v1 17 in
  let v1 := Z.lxor v1 v2 in
  let v2 := siphash24_rotl v2 32 in
  Sip v0 v1 v2 v3.

Definition xor_v3 (m : Z) (s : sip) : sip := Sip (v0 s) (v1 s) (v2 s) (Z.lxor (v3 s) m).
Definition xor_v0 (m : Z) (s : sip) : sip := Sip (Z.lxor (v0 s) m) (v1 s) (v2 s) (v3 s).
Definition xor_v2 (m : Z) (s : sip) : sip := Sip (v0 s) (v1 s) (Z.lxor (v2 s) m) (v3 s).

(** [in[i]]: the buffer is read inside its bounds only. *)
Definition byte_at (buf : list Z) (i : nat) : Z := nth i buf 0.

(** The word the main loop reads at [in]. *)
Definition load64 (buf : list Z) : Z :=
  Z.lor (byte_at buf 0) (Z.lor (Z.shiftl (byte_at buf 1) 8)
  (Z.lor (Z.shiftl (byte_at buf 2) 16) (Z.lor (Z.shiftl (byte_at buf 3) 24)
  (Z.lor (Z.shiftl (byte_at buf 4) 32) (Z.lor (Z.shiftl (byte_at buf 5) 40)
  (Z.lor (Z.shiftl (byte_at buf 6) 48) (Z.shiftl (byte_at buf 7) 56))))))).

(** The body of [while (in != end)] for one word. *)
Definition compress (s : sip) (m : Z) : sip :=
  xor_v0 m (SIPHASH24_ROUND (SIPHASH24_ROUND (xor_v3 m s))).

(** The loop: [n] is the number of words between [in] and [end]; the returned
    buffer is what is left at [in] when the loop stops. *)
Fixpoint sip_loop (n : nat) (buf : list Z) (s : sip) : sip * list Z :=
  match n with
  | O => (s, buf)
  | S n' => sip_loop n' (drop 8 buf) (compress s (load64 buf))
  end.

(** The switch on [left]; each case falls through to the smaller ones. *)
Definition sip_tail (left : Z) (buf : list Z) (b : Z) : Z :=
  let case (k : Z) (sh : Z) (b : Z) :=
    if k <=? left then Z.lor b (Z.shiftl (byte_at buf (Z.to_nat (k - 1))) sh) else b in
  let b := case 7 48 b in
  let b := case 6 40 b in
  let b := case 5 32 b in
  let b := case 4 24 b in
  let b := case 3 16 b in
  let b := case 2 8 b in
  let b := case 1 0 b in
  b.

(** The part after the switch: the last word and the four final rounds. *)
Definition sip_finish (b : Z) (s : sip) : Z :=
  let s := compress s b in
  let s := xor_v2 255 s in
  let s := SIPHASH24_ROUND (SIPHASH24_ROUND (SIPHASH24_ROUND (SIPHASH24_ROUND s))) in
  Z.lxor (Z.lxor (v0 s) (v1 s)) (Z.lxor (v2 s) (v3 s)).

Definition sip_init (k0 k1 : Z) : sip :=
  Sip (Z.lxor 0x736f6d6570736575 k0) (Z.lxor 0x646f72616e646f6d k1)
      (Z.lxor 0x6c7967656e657261 k0) (Z.lxor 0x7465646279746573 k1).

(** [siphash24(in, inlen, k0, k1)] with [inlen = length buf]. *)
Definition siphash24 (buf : list Z) (k0 k1 : Z) : Z :=
  let inlen := Z.of_nat (length buf) in
  let left := Z.land inlen 7 in
  let b := u64 (Z.shiftl inlen 56) in
  let '(s, rest) := sip_loop (Z.to_nat (inlen / 8)) buf (sip_init k0 k1) in
  sip_finish (sip_tail left rest b) s.

(** * Reference definition

    SipHash as its definition states it: pad the message with zeros and a
    final byte [length mod 256] to a multiple of eight bytes, read it as
    little-endian words, absorb every word. *)

Definition sip_pad (buf : list Z) : list Z :=
  let r := (length buf mod 8)%nat in
  buf ++ replicate (7 - r) 0 ++ [Z.of_nat (length buf) mod 256].

Fixpoint words_of (n : nat) (buf : list Z) : list Z :=
  match n with
  | O => []
  | S n' => le_val (take 8 buf) :: words_of n' (drop 8 buf)
  end.

Definition siphash24_spec (buf : list Z) (k0 k1 : Z) : Z :=
  let p := sip_pad buf in
  let s := foldl compress (sip_init k0 k1) (words_of (length p / 8) p) in
  let s := xor_v2 255 s in
  let s := SIPHASH24_ROUND (SIPHASH24_ROUND (SIPHASH24_ROUND (SIPHASH24_ROUND s))) in
  Z.lxor (Z.lxor (v0 s) (v1 s)) (Z.lxor (v2 s) (v3 s)).

Definition sip_ok (s : sip) : Prop :=
  in_u 64 (v0 s) /\ in_u 64 (v1 s) /\ in_u 64 (v2 s) /\ in_u 64 (v3 s).

(** * The words the C code assembles *)

Fixpoint load_le (bs : list Z) : Z :=
  match bs with
  | [] => 0
  | b :: bs' => Z.lor b (Z.shiftl (load_le bs') 8)
  end.

Lemma lor_shiftl_add k b c :
  0 <= k -> in_u k b -> Z.lor b (Z.shiftl c k) = b + 2 ^ k * c.
Proof.
  intros Hk Hb. rewrite <- Z.lxor_lor.
  - rewrite <- Z.add_nocarry_lxor.
    + rewrite Z.shiftl_mul_pow2 by lia. lia.
    + zbits.
  - zbits.
Qed.

Lemma load_le_val bs : Forall is_byte bs -> load_le bs = le_val bs.
Proof.
  induction 1 as [|b bs Hb _ IH]; simpl; [done|].
  rewrite lor_shiftl_add by (done || lia). by rewrite IH.
Qed.

(** Flatten nested shifts, so that two ways of assembling the same bytes
    become the same disjunction of shifted bytes. *)
Ltac flatten_shifts :=
  simpl load_le; rewrite ?Z.shiftl_lor, ?Z.shiftl_shiftl, ?Z.shiftl_0_l, ?Z.lor_0_r by lia;
  repeat match goal with
  | |- context [Z.shiftl ?x (?a + ?b)] =>
      let c := eval vm_compute in (a + b) in change (Z.shiftl x (a + b)) with (Z.shiftl x c)
  end.

Lemma load64_val buf :
  Forall is_byte buf -> (8 <= length buf)%nat -> load64 buf = le_val (take 8 buf).
Proof.
  intros Hb Hl. rewrite <- load_le_val by by apply Forall_take.
  do 8 (destruct buf as [|? buf]; [simpl in Hl; lia|]).
  unfold load64, byte_at. simpl nth. simpl take. by flatten_shifts.
Qed.

Lemma len_byte n : u64 (Z.shiftl n 56) = Z.shiftl (n mod 256) 56.
Proof.
  unfold uwrap. rewrite !Z.shiftl_mul_pow2 by lia.
  change (2 ^ 64) with (256 * 2 ^ 56). by rewrite Z.mul_mod_distr_r by lia.
Qed.

Lemma sip_tail_val (n : Z) rest :
  Forall is_byte rest -> (length rest < 8)%nat ->
  sip_tail (Z.of_nat (length rest)) rest (u64 (Z.shiftl n 56))
  = le_val (rest ++ replicate (7 - length rest) 0 ++ [n mod 256]).
Proof.
  intros Hb Hl. rewrite len_byte.
  assert (is_byte (n mod 256)) as Hn by (apply (Z.mod_pos_bound n 256); lia).
  assert (Forall is_byte (rest ++ replicate (7 - length rest) 0 ++ [n mod 256])) as HF.
  { apply Forall_app; split; [done|]. apply Forall_app; split.
    - apply Forall_replicate. by vm_compute.
    - by constructor. }
  rewrite <- load_le_val by done. clear HF Hn. generalize (n mod 256). intros c.
  unfold sip_tail, byte_at.
  do 8 (destruct rest as [|? rest];
    [cbv -[load_le Z.shiftl Z.lor]; flatten_shifts;
     rewrite ?Z.lor_0_l, ?Z.lor_0_r, ?Z.shiftl_0_r;
     try reflexivity;
     apply Z.bits_inj'; intros i Hi; rewrite ?Z.lor_spec;
     repeat match goal with |- context [Z.testbit ?x i] => destruct (Z.testbit x i) end;
     reflexivity|]).
  simpl in Hl. lia.
Qed.

(** * The loop absorbs the whole words of the message *)

Lemma sip_loop_words n buf s :
  Forall is_byte buf -> (8 * n <= length buf)%nat ->
  sip_loop n buf s = (foldl compress s (words_of n buf), drop (8 * n) buf).
Proof.
  revert buf s. induction n as [|n IH]; intros buf s Hb Hl; [done|].
  cbn [sip_loop words_of foldl].
  rewrite load64_val by (done || lia).
  rewrite IH by (rewrite ?length_drop; first [by apply Forall_drop | lia]).
  rewrite drop_drop. do 2 f_equal. lia.
Qed.

Lemma words_of_app n buf l :
  (8 * n <= length buf)%nat -> words_of n (buf ++ l) = words_of n buf.
Proof.
  revert buf. induction n as [|n IH]; intros buf Hl; simpl; [done|].
  rewrite take_app_le, drop_app_le by lia.
  rewrite IH by (rewrite length_drop; lia). done.
Qed.

Lemma words_of_snoc n buf :
  words_of (S n) buf = words_of n buf ++ [le_val (take 8 (drop (8 * n) buf))].
Proof.
  revert buf. induction n as [|n IH]; intros buf; [done|].
  change (words_of (S (S n)) buf) with (le_val (take 8 buf) :: words_of (S n) (drop 8 buf)).
  rewrite IH, drop_drop. by replace (8 * S n)%nat with (8 + 8 * n)%nat by lia.
Qed.

Lemma sip_pad_words buf :
  let n := (length buf / 8)%nat in
  words_of (length (sip_pad buf) / 8) (sip_pad buf)
  = words_of n buf ++
    [le_val (drop (8 * n) buf ++ replicate (7 - length (drop (8 * n) buf)) 0
             ++ [Z.of_nat (length buf) mod 256])].
Proof.
  intros n. pose proof (Nat.div_mod_eq (length buf) 8) as E.
  pose proof (Nat.mod_upper_bound (length buf) 8 ltac:(lia)) as Hr.
  fold n in E. unfold sip_pad. set (r := (length buf mod 8)%nat) in *.
  assert (length (drop (8 * n) buf) = r) as Hd by (rewrite length_drop; lia).
  replace (length _ / 8)%nat with (S n).
  - rewrite words_of_snoc, words_of_app by lia. do 3 f_equal.
    rewrite drop_app_le by lia. rewrite Hd. apply take_ge.
    rewrite !length_app, Hd, length_replicate. simpl. lia.
  - rewrite !length_app, length_replicate. simpl length.
    apply Nat.div_unique with 0%nat; lia.
Qed.

Lemma siphash24_eq buf k0 k1 :
  Forall is_byte buf -> siphash24 buf k0 k1 = siphash24_spec buf k0 k1.
Proof.
  intros Hb. unfold siphash24, siphash24_spec.
  assert (Z.to_nat (Z.of_nat (length buf) / 8) = (length buf / 8)%nat) as ->.
  { change 8 with (Z.of_nat 8). by rewrite <- Nat2Z.inj_div, Nat2Z.id. }
  pose proof (Nat.div_mod_eq (length buf) 8) as E.
  pose proof (Nat.mod_upper_bound (length buf) 8 ltac:(lia)).
  rewrite sip_loop_words by (done || lia).
  rewrite sip_pad_words, foldl_app. simpl foldl. unfold sip_finish.
  set (rest := drop (8 * (length buf / 8)) buf).
  assert (Z.land (Z.of_nat (length buf)) 7 = Z.of_nat (length rest)) as ->.
  { change 7 with (Z.ones 3). rewrite Z.land_ones by lia.
    unfold rest. rewrite length_drop. change (2 ^ 3) with (Z.of_nat 8).
    rewrite <- Nat2Z.inj_mod. lia. }
  rewrite sip_tail_val; [done|by apply Forall_drop|].
  unfold rest. rewrite length_drop. lia.
Qed.

(** The C function computes SipHash-2-4 as defined on padded blocks: the
    pointer arithmetic for [end], the byte-wise loads and the fallthrough
    switch on the tail together absorb exactly the little-endian words of the
    zero-padded message with the length in its last byte. *)
Theorem siphash24_correct buf k0 k1 :
  Forall is_byte buf -> siphash24 buf k0 k1 = siphash24_spec buf k0 k1.
Proof.
  apply siphash24_eq.
Qed.

Lemma siphash24_correct_witness :
  siphash24 [0; 1; 2; 3; 4; 5; 6; 7; 8; 9] 1 2 = siphash24_spec [0; 1; 2; 3; 4; 5; 6; 7; 8; 9] 1 2.
Proof.
  apply (siphash24_correct [0; 1; 2; 3; 4; 5; 6; 7; 8; 9] 1 2).
  repeat apply Forall_cons_2; try apply Forall_nil_2; done.
Defined.

(** * Ranges and the inverse of a round *)

Lemma rotl_range x b : in_u 64 x -> 0 <= b <= 64 -> in_u 64 (siphash24_rotl x b).
Proof. intros. unfold siphash24_rotl. auto 6 with zint lia. Qed.

Lemma add64_range x y : in_u 64 (add64 x y).
Proof. apply uwrap_range. lia. Qed.

#[local] Hint Resolve rotl_range add64_range : zint.

Ltac sip_range :=
  repeat lazymatch goal with
  | |- in_u _ (Z.lxor _ _) => apply in_u_lxor
  | |- in_u _ (siphash24_rotl _ _) => apply rotl_range
  | |- in_u _ (add64 _ _) => apply add64_range
  | |- in_u _ _ => first [ assumption | by vm_compute ]
  | |- _ => lia
  end.

Lemma round_ok s : sip_ok s -> sip_ok (SIPHASH24_ROUND s).
Proof.
  destruct s as [a b c d]. intros (Ha & Hb & Hc & Hd). simpl in *.
  unfold sip_ok, SIPHASH24_ROUND; simpl. split_and!; sip_range.
Qed.

Lemma xor_v3_ok m s : in_u 64 m -> sip_ok s -> sip_ok (xor_v3 m s).
Proof.
  intros ? (? & ? & ? & ?). unfold sip_ok, xor_v3; cbn [v0 v1 v2 v3].
  split_and!; sip_range.
Qed.

Lemma xor_v2_ok m s : in_u 64 m -> sip_ok s -> sip_ok (xor_v2 m s).
Proof.
  intros ? (? & ? & ? & ?). unfold sip_ok, xor_v2; cbn [v0 v1 v2 v3].
  split_and!; sip_range.
Qed.

Lemma xor_v0_ok m s : in_u 64 m -> sip_ok s -> sip_ok (xor_v0 m s).
Proof.
  intros ? (? & ? & ? & ?). unfold sip_ok, xor_v0; cbn [v0 v1 v2 v3].
  split_and!; sip_range.
Qed.

Lemma compress_ok s m : sip_ok s -> in_u 64 m -> sip_ok (compress s m).
Proof. intros Hs Hm. by apply xor_v0_ok, round_ok, round_ok, xor_v3_ok. Qed.

Lemma lanes_xor_range s :
  sip_ok s -> in_u 64 (Z.lxor (Z.lxor (v0 s) (v1 s)) (Z.lxor (v2 s) (v3 s))).
Proof. intros (? & ? & ? & ?). sip_range. Qed.

Lemma init_ok k0 k1 : in_u 64 k0 -> in_u 64 k1 -> sip_ok (sip_init k0 k1).
Proof. intros. unfold sip_ok, sip_init; cbn [v0 v1 v2 v3]. split_and!; sip_range. Qed.

Lemma words_of_range n buf :
  Forall is_byte buf -> Forall (in_u 64) (words_of n buf).
Proof.
  revert buf. induction n as [|n IH]; intros buf Hb; simpl; constructor.
  - apply (in_u_mono (8 * Z.of_nat (length (take 8 buf)))).
    + rewrite length_take. lia.
    + apply le_val_range. by apply Forall_take.
  - apply IH. by apply Forall_drop.
Qed.

Lemma foldl_compress_ok ws s :
  Forall (in_u 64) ws -> sip_ok s -> sip_ok (foldl compress s ws).
Proof.
  intros Hw. revert s. induction Hw; intros; simpl; auto using compress_ok.
Qed.

Lemma sip_pad_bytes buf : Forall is_byte buf -> Forall is_byte (sip_pad buf).
Proof.
  intros. unfold sip_pad. apply Forall_app; split; [done|]. apply Forall_app; split.
  - apply Forall_replicate. by vm_compute.
  - constructor; [|done]. apply (Z.mod_pos_bound _ 256). lia.
Qed.

Lemma siphash24_in_u64 buf k0 k1 :
  Forall is_byte buf -> in_u 64 k0 -> in_u 64 k1 -> in_u 64 (siphash24 buf k0 k1).
Proof.
  intros Hb H0 H1. rewrite siphash24_eq by done. unfold siphash24_spec.
  apply lanes_xor_range, round_ok, round_ok, round_ok, round_ok, xor_v2_ok; [by vm_compute|].
  apply foldl_compress_ok; [|by apply init_ok].
  by apply words_of_range, sip_pad_bytes.
Qed.

(** The digest of a byte string under 64-bit keys is a 64-bit value: no
    intermediate sum, rotation or exclusive-or leaves the range of
    [uint64_t]. *)
Theorem siphash24_range buf k0 k1 :
  Forall is_byte buf -> in_u 64 k0 -> in_u 64 k1 -> in_u 64 (siphash24 buf k0 k1).
Proof. apply siphash24_in_u64. Qed.

Lemma siphash24_range_witness : in_u 64 (siphash24 [0xff; 0x80; 7] 3 5).
Proof.
  apply (siphash24_range [0xff; 0x80; 7] 3 5);
    [repeat apply Forall_cons_2; try apply Forall_nil_2; done|done|done].
Defined.

Definition sub64 (x y : Z) : Z := u64 (x - y).

Definition sip_unround (s : sip) : sip :=
  let '(Sip v0 v1 v2 v3) := s in
  let v2 := siphash24_rotl v2 32 in
  let v1 := siphash24_rotl (Z.lxor v1 v2) 47 in
  let v2 := sub64 v2 v1 in
  let v3 := siphash24_rotl (Z.lxor v3 v0) 43 in
  let v0 := sub64 v0 v3 in
  let v3 := siphash24_rotl (Z.lxor v3 v2) 48 in
  let v2 := sub64 v2 v3 in
  let v0 := siphash24_rotl v0 32 in
  let v1 := siphash24_rotl (Z.lxor v1 v0) 51 in
  let v0 := sub64 v0 v1 in
  Sip v0 v1 v2 v3.

Lemma testbit_rotl x b i :
  in_u 64 x -> 0 < b < 64 -> 0 <= i ->
  Z.testbit (siphash24_rotl x b) i
  = if i <? b then Z.testbit x (i + (64 - b)) else (i <? 64) && Z.testbit x (i - b).
Proof.
  intros Hx Hb Hi. unfold siphash24_rotl.
  rewrite Z.lor_spec, testbit_uwrap, testbit_shiftl, Z.shiftr_spec by lia.
  destruct (Z.ltb_spec i b).
  - rewrite (proj2 (Z.leb_gt b i)) by lia. simpl. by rewrite andb_false_r.
  - rewrite (proj2 (Z.leb_le b i)) by lia.
    rewrite (in_u_testbit_high 64 x (i + (64 - b))) by (done || lia).
    by rewrite orb_false_r.
Qed.

Lemma rotl_rotl x b c :
  in_u 64 x -> 0 < b < 64 -> c = 64 - b -> siphash24_rotl (siphash24_rotl x b) c = x.
Proof.
  intros Hx Hb ->. apply Z.bits_inj'; intros i Hi.
  rewrite testbit_rotl by first [lia | apply rotl_range; [done|lia]].
  destruct (Z.ltb_spec i (64 - b)).
  - rewrite testbit_rotl by (done || lia).
    rewrite (proj2 (Z.ltb_ge (i + (64 - (64 - b))) b)) by lia.
    rewrite (proj2 (Z.ltb_lt (i + (64 - (64 - b))) 64)) by lia.
    simpl. f_equal. lia.
  - rewrite testbit_rotl by (done || lia). destruct (Z.ltb_spec i 64).
    + rewrite (proj2 (Z.ltb_lt (i - (64 - b)) b)) by lia. simpl. f_equal. lia.
    + by rewrite (in_u_testbit_high 64 x i) by (done || lia).
Qed.

Lemma sub64_add64 x y : in_u 64 x -> sub64 (add64 x y) y = x.
Proof.
  intros. unfold sub64, add64. rewrite uwrap_sub_l by lia.
  replace (x + y - y) with x by lia. by apply uwrap_small.
Qed.

Lemma lxor_cancel x y : Z.lxor (Z.lxor x y) y = x.
Proof. by rewrite Z.lxor_assoc, Z.lxor_nilpotent, Z.lxor_0_r. Qed.

Lemma sip_unround_round s : sip_ok s -> sip_unround (SIPHASH24_ROUND s) = s.
Proof.
  destruct s as [a b c d]. intros (Ha & Hb & Hc & Hd). simpl in *.
  unfold SIPHASH24_ROUND, sip_unround.
  repeat first [ rewrite rotl_rotl by (lia || sip_range)
               | rewrite lxor_cancel
               | rewrite sub64_add64 by sip_range ]; done.
Qed.

Lemma xor_v3_inj m s s' : xor_v3 m s = xor_v3 m s' -> s = s'.
Proof.
  destruct s as [a b c d], s' as [a' b' c' d']. intros [= -> -> -> E]. f_equal.
  by rewrite <- (lxor_cancel d m), E, lxor_cancel.
Qed.

Lemma xor_v0_inj m s s' : xor_v0 m s = xor_v0 m s' -> s = s'.
Proof.
  destruct s as [a b c d], s' as [a' b' c' d']. intros [= E -> -> ->]. f_equal.
  by rewrite <- (lxor_cancel a m), E, lxor_cancel.
Qed.

Lemma round_inj s s' :
  sip_ok s -> sip_ok s' -> SIPHASH24_ROUND s = SIPHASH24_ROUND s' -> s = s'.
Proof.
  intros Hs Hs' E. by rewrite <- (sip_unround_round s), E, sip_unround_round.
Qed.

Lemma compress_inj m s s' :
  in_u 64 m -> sip_ok s -> sip_ok s' -> compress s m = compress s' m -> s = s'.
Proof.
  intros Hm Hs Hs' E. apply xor_v0_inj in E.
  apply round_inj in E; [|by apply round_ok, xor_v3_ok..].
  apply round_inj in E; [|by apply xor_v3_ok..].
  by apply xor_v3_inj in E.
Qed.

(** Absorbing message words is a bijection on the 256-bit state: two valid
    states that differ still differ after absorbing any common sequence of
    words, so two messages with a common tail can only collide in the
    finalisation. *)
Theorem absorb_injective ws s s' :
  Forall (in_u 64) ws -> sip_ok s -> sip_ok s' ->
  foldl compress s ws = foldl compress s' ws -> s = s'.
Proof.
  intros Hw. revert s s'. induction Hw as [|m ws Hm _ IH]; intros s s' Hs Hs' E; [done|].
  simpl in E. apply IH in E; [|by apply compress_ok..].
  by apply compress_inj in E.
Qed.

Lemma absorb_injective_witness : sip_init 1 2 = sip_init 1 2.
Proof.
  apply (absorb_injective [7; 9] (sip_init 1 2) (sip_init 1 2)); [|by vm_compute..].
  repeat apply Forall_cons_2; try apply Forall_nil_2; done.
Defined.

End SipHash.
