(* ===== verification/CHeap.v ===== *)
(** The C allocator as the reference hash uses it.

    [malloc], [realloc] and [free] are the calls of [c-ref/canonical_hash.c];
    whether the n-th request succeeds is decided by an oracle, so a theorem
    that quantifies over the oracle covers every pattern of allocation
    failures.  The heap records which blocks are live and whether a block was
    ever released that was not live. *)

From S2P Require Import Prelude.
From stdpp Require Import base gmap list.

Module CHeap.

Record heap := Heap { h_calls : nat; h_live : gset nat; h_badfree : bool }.

Definition ptr := option nat.

Section Alloc.
Context (alloc_ok : nat -> bool).

Definition malloc (h : heap) : ptr * heap :=
  let n := h_calls h in
  if alloc_ok n
  then (Some n, Heap (S n) ({[n]} ∪ h_live h) (h_badfree h))
  else (None, Heap (S n) (h_live h) (h_badfree h)).

(** [free(NULL)] does nothing. *)
Definition free (p : ptr) (h : heap) : heap :=
  match p with
  | None => h
  | Some n =>
      if decide (n ∈ h_live h)
      then Heap (h_calls h) (h_live h ∖ {[n]}) (h_badfree h)
      else Heap (h_calls h) (h_live h) true
  end.

(** A successful [realloc] releases the old block, a failed one keeps it. *)
Definition realloc (p : ptr) (h : heap) : ptr * heap :=
  let n := h_calls h in
  if alloc_ok n
  then
    let h' := free p h in
    (Some n, Heap (S n) ({[n]} ∪ h_live h') (h_badfree h'))
  else (None, Heap (S n) (h_live h) (h_badfree h)).

End Alloc.

(** Every block id handed out is below the call counter. *)
Definition heap_ok (h : heap) : Prop :=
  (forall n, n ∈ h_live h -> (n < h_calls h)%nat) /\ h_badfree h = false.

(** The block a pointer refers to, if any. *)
Definition blocks (p : ptr) : list nat := match p with Some n => [n] | None => [] end.

(** The blocks of [ps] are live, and releasing them leaves exactly [base]. *)
Definition owned (ps : list nat) (base : gset nat) (h : heap) : Prop :=
  heap_ok h /\ NoDup ps /\ (forall n, n ∈ ps -> n ∉ base) /\
  h_live h = base ∪ list_to_set ps /\ (forall n, n ∈ base -> (n < h_calls h)%nat).

Lemma owned_perm ps ps' base h : ps ≡ₚ ps' -> owned ps base h -> owned ps' base h.
Proof.
  intros Hp (? & Hnd & Hdisj & Hlive & ?). split_and!; try done.
  - by rewrite <- Hp.
  - intros k. rewrite <- Hp. apply Hdisj.
  - rewrite Hlive. apply set_eq. intros k.
    by rewrite !elem_of_union, !elem_of_list_to_set, Hp.
Qed.

Lemma owned_free ps p base h :
  owned (blocks p ++ ps) base h -> owned ps base (free p h).
Proof.
  destruct p as [n|]; [|done].
  intros ((Hlt & Hbad) & [Hn Hnd]%NoDup_cons & Hdisj & Hlive & Hb). simpl.
  rewrite decide_True by (rewrite Hlive; set_solver).
  unfold owned, heap_ok; simpl. split_and!; try done.
  - intros m [?%Hlt _]%elem_of_difference. done.
  - intros m ?. apply Hdisj. set_solver.
  - rewrite Hlive. assert (n ∉ base) by (apply Hdisj; set_solver). set_solver.
Qed.

Section AllocLaws.
Context (alloc_ok : nat -> bool).

Lemma owned_malloc ps base h p h' :
  owned ps base h -> malloc alloc_ok h = (p, h') ->
  owned (blocks p ++ ps) base h' /\ (p = None -> exists n, alloc_ok n = false).
Proof.
  intros ((Hlt & Hbad) & Hnd & Hdisj & Hlive & Hb). unfold malloc.
  destruct (alloc_ok (h_calls h)) eqn:Hok; intros [= <- <-]; simpl.
  - split; [|done].
    assert (h_calls h ∉ h_live h) as Hfresh by (intros ?%Hlt; lia). rewrite Hlive in Hfresh.
    unfold owned, heap_ok; simpl. split_and!; try done.
    + intros n [->%elem_of_singleton|?%Hlt]%elem_of_union; lia.
    + constructor; [|done]. intros ?. apply Hfresh. set_solver.
    + intros n [->|?]%elem_of_cons; [set_solver|auto].
    + rewrite Hlive. set_solver.
    + intros n ?%Hb. lia.
  - split; [|by exists (h_calls h)]. unfold owned, heap_ok; simpl. split_and!; try done.
    + intros n ?%Hlt. lia.
    + intros n ?%Hb. lia.
Qed.

Lemma owned_realloc ps p base h q h' :
  owned (blocks p ++ ps) base h -> realloc alloc_ok p h = (q, h') ->
  match q with
  | Some _ => owned (blocks q ++ ps) base h'
  | None => owned (blocks p ++ ps) base h' /\ exists n, alloc_ok n = false
  end.
Proof.
  intros Ho. unfold realloc. destruct (alloc_ok (h_calls h)) eqn:Hok; intros [= <- <-].
  - pose proof (owned_free _ _ _ _ Ho) as Hf.
    assert (h_calls (free p h) = h_calls h) as Hc
      by (destruct p; [simpl; case_decide|]; done).
    eapply owned_malloc; [exact Hf|]. unfold malloc. by rewrite Hc, Hok.
  - destruct (owned_malloc _ _ _ None (Heap (S (h_calls h)) (h_live h) (h_badfree h)) Ho)
      as [??]; [unfold malloc; by rewrite Hok|]. split; auto.
Qed.

End AllocLaws.

End CHeap.
