(* ===== verification/ProbeTable.v ===== *)
(** Linear probing as the C reference uses it twice: the variable renamer and
    the slot table of [c-ref/canonical_hash.c] are parallel arrays of keys and
    values of a power-of-two capacity, hashed with Knuth's multiplier, with
    [UINT32_MAX] marking an empty cell.

    [probe_until] is the loop [while (...) j = (j + 1) & (cap - 1)].  The
    invariant [table_rep] says that the arrays represent a finite map: the
    search for every key of the map stops at the cell that holds it, and every
    occupied cell is the stopping cell of its own key.  Lookup, insertion into
    an empty cell and termination of the search are proved from it. *)

From S2P Require Import Prelude.
From Stdlib Require Import ZArith Lia.
From stdpp Require Import base numbers gmap list.
Open Scope Z_scope.

Module ProbeTable.

Definition UINT32_MAX : Z := 4294967295.

(** [(size_t)(key * 2654435761u) & (cap - 1)]: the product is a [uint32_t]. *)
Definition mul_slot (key cap : Z) : Z := Z.land (u32 (key * 2654435761)) (cap - 1).

(** The probing loop: advance from [j] while [stop] fails on the cell.  [None]
    stands for a read outside the array or a loop that visits every cell
    without stopping. *)
Fixpoint probe_until (stop : Z -> bool) (fuel : nat) (keys : list Z) (cap j : Z) : option Z :=
  match fuel with
  | O => None
  | S fuel' =>
      match keys !! Z.to_nat j with
      | None => None
      | Some k =>
          if stop k then Some j
          else probe_until stop fuel' keys cap (Z.land (j + 1) (cap - 1))
      end
  end.

(** Stop at an empty cell ([while (nk[j] != EMPTY)]). *)
Definition stop_empty (k : Z) : bool := k =? UINT32_MAX.
(** Stop at an empty cell or at the key searched for. *)
Definition stop_key (key k : Z) : bool := (k =? UINT32_MAX) || (k =? key).

Definition search (keys : list Z) (key : Z) : option Z :=
  let cap := Z.of_nat (length keys) in
  probe_until (stop_key key) (length keys) keys cap (mul_slot key cap).

(** * Cyclic positions *)

Definition pow2 (cap : Z) : Prop := exists p, 0 <= p <= 62 /\ cap = 2 ^ p.

Lemma pow2_gt0 cap : pow2 cap -> 0 < cap.
Proof. intros (p & ? & ->). apply pow2_pos. lia. Qed.

Lemma land_mask cap x : pow2 cap -> Z.land x (cap - 1) = x mod cap.
Proof.
  intros (p & ? & ->). rewrite <- Z.land_ones by lia. f_equal.
  rewrite Z.ones_equiv. lia.
Qed.

Lemma mul_slot_range key cap : pow2 cap -> 0 <= mul_slot key cap < cap.
Proof.
  intros Hp. unfold mul_slot. rewrite land_mask by done.
  apply Z.mod_pos_bound. by apply pow2_gt0.
Qed.

(** The cells of one probe: [h], [h+1], ... modulo the capacity. *)
Definition cell (keys : list Z) (h : Z) (k : nat) : option Z :=
  keys !! Z.to_nat ((h + Z.of_nat k) mod Z.of_nat (length keys)).

Lemma probe_until_Some stop keys h n j :
  pow2 (Z.of_nat (length keys)) -> 0 <= h < Z.of_nat (length keys) ->
  probe_until stop n keys (Z.of_nat (length keys)) h = Some j <->
  exists k : nat, (k < n)%nat /\ j = (h + Z.of_nat k) mod Z.of_nat (length keys) /\
    (exists x, cell keys h k = Some x /\ stop x = true) /\
    (forall k', (k' < k)%nat -> exists x, cell keys h k' = Some x /\ stop x = false).
Proof.
  intros Hp. set (cap := Z.of_nat (length keys)) in *.
  pose proof (pow2_gt0 _ Hp) as Hc.
  assert (forall h, 0 <= h < cap -> cell keys h 0 = keys !! Z.to_nat h) as C0.
  { intros h' Hh'. unfold cell. fold cap. by rewrite Z.add_0_r, Z.mod_small. }
  assert (forall h k, cell keys ((h + 1) mod cap) k = cell keys h (S k)) as CS.
  { intros h' k. unfold cell. fold cap. do 2 f_equal.
    rewrite Zplus_mod_idemp_l. f_equal. lia. }
  revert h. induction n as [|n IH]; intros h Hh.
  { split; [done|]. intros (k & ? & _). lia. }
  cbn [probe_until]. rewrite land_mask by done.
  assert (0 <= (h + 1) mod cap < cap) as Hh' by (apply Z.mod_pos_bound; lia).
  specialize (IH ((h + 1) mod cap) Hh'). split.
  - destruct (keys !! Z.to_nat h) as [x|] eqn:Ex; [|done].
    destruct (stop x) eqn:Es.
    + intros [= <-]. exists 0%nat. rewrite Z.add_0_r, Z.mod_small by done.
      split_and!; [lia|done| |intros; lia]. exists x. by rewrite C0.
    + intros (k & Hk & -> & Hx & Hlt)%IH. exists (S k). split_and!; [lia| | |].
      * rewrite Zplus_mod_idemp_l. f_equal. lia.
      * destruct Hx as (y & Hy & ?). exists y. by rewrite <- CS.
      * intros [|k'] ?; [exists x; by rewrite C0|].
        destruct (Hlt k') as (y & Hy & ?); [lia|]. exists y. by rewrite <- CS.
  - intros (k & Hk & -> & (x & Hx & Hs) & Hlt). destruct k as [|k].
    + rewrite C0 in Hx by done. rewrite Hx, Hs, Z.add_0_r, Z.mod_small; done.
    + destruct (Hlt 0%nat) as (y & Hy & Hys); [lia|].
      rewrite C0 in Hy by done. rewrite Hy, Hys. apply IH. exists k.
      split_and!; [lia| | |].
      * rewrite Zplus_mod_idemp_l. f_equal. lia.
      * exists x. by rewrite CS.
      * intros k' ?. rewrite CS. apply Hlt. lia.
Qed.

(** A probe over a table with an empty cell stops: it visits every cell. *)
Lemma probe_until_total stop keys h :
  pow2 (Z.of_nat (length keys)) -> 0 <= h < Z.of_nat (length keys) ->
  (exists i x, keys !! i = Some x /\ stop x = true) ->
  is_Some (probe_until stop (length keys) keys (Z.of_nat (length keys)) h).
Proof.
  intros Hp Hh (i & x & Hi & Hs). set (cap := Z.of_nat (length keys)) in *.
  pose proof (pow2_gt0 _ Hp) as Hc. pose proof (lookup_lt_Some _ _ _ Hi) as Hil.
  assert (exists k, (k < length keys)%nat /\ cell keys h k = Some x) as (k & Hk & Ck).
  { exists (Z.to_nat ((Z.of_nat i - h) mod cap)).
    assert (0 <= (Z.of_nat i - h) mod cap < cap) as Hr by (apply Z.mod_pos_bound; lia).
    split; [lia|]. unfold cell. fold cap. rewrite Z2Nat.id by lia.
    rewrite Zplus_mod_idemp_r. replace (h + (Z.of_nat i - h)) with (Z.of_nat i) by lia.
    by rewrite Z.mod_small, Nat2Z.id by lia. }
  assert (forall m, (m <= k)%nat ->
    (exists k0, (k0 < m)%nat /\ (exists y, cell keys h k0 = Some y /\ stop y = true) /\
       forall k', (k' < k0)%nat -> exists y, cell keys h k' = Some y /\ stop y = false) \/
    (forall k', (k' < m)%nat -> exists y, cell keys h k' = Some y /\ stop y = false))
    as Hfirst.
  { intros m. induction m as [|m IHm]; intros Hm; [right; intros; lia|].
    destruct IHm as [(k0 & ? & ? & ?)|Hall]; [lia|left; exists k0; split_and!; [lia|done..]|].
    assert (is_Some (cell keys h m)) as [y Hy].
    { unfold cell. fold cap. apply lookup_lt_is_Some.
      assert (0 <= (h + Z.of_nat m) mod cap < cap) by (apply Z.mod_pos_bound; lia). lia. }
    destruct (stop y) eqn:E.
    - left. exists m. split_and!; [lia|by exists y|done].
    - right. intros k' Hk'. destruct (decide (k' = m)) as [->|]; [by exists y|].
      apply Hall. lia. }
  destruct (Hfirst k) as [(k0 & ? & ? & ?)|Hall]; [lia| |].
  - exists ((h + Z.of_nat k0) mod cap). apply probe_until_Some; [done..|].
    exists k0. split_and!; [lia|done..].
  - exists ((h + Z.of_nat k) mod cap). apply probe_until_Some; [done..|].
    exists k. split_and!; [lia|done|by exists x|done].
Qed.

(** * Arrays that represent a finite map *)

Definition occupied (keys : list Z) : nat := length (filter (fun k => k <> UINT32_MAX) keys).

Record table_rep (keys vals : list Z) (m : gmap Z Z) : Prop := {
  tr_cap : pow2 (Z.of_nat (length keys));
  tr_len : length vals = length keys;
  tr_find : forall k v, m !! k = Some v -> k <> UINT32_MAX /\
    exists j, search keys k = Some j /\ keys !! Z.to_nat j = Some k /\
      vals !! Z.to_nat j = Some v;
  tr_cell : forall i k, keys !! i = Some k -> k <> UINT32_MAX ->
    is_Some (m !! k) /\ search keys k = Some (Z.of_nat i);
  tr_count : occupied keys = size m }.

Lemma search_Some keys key j :
  pow2 (Z.of_nat (length keys)) ->
  search keys key = Some j <->
  exists k : nat, (k < length keys)%nat /\
    j = (mul_slot key (Z.of_nat (length keys)) + Z.of_nat k) mod Z.of_nat (length keys) /\
    (exists x, cell keys (mul_slot key (Z.of_nat (length keys))) k = Some x /\
       stop_key key x = true) /\
    (forall k', (k' < k)%nat -> exists x,
       cell keys (mul_slot key (Z.of_nat (length keys))) k' = Some x /\ stop_key key x = false).
Proof. intros. apply probe_until_Some; [done|by apply mul_slot_range]. Qed.

Lemma stop_key_true key x : stop_key key x = true <-> x = UINT32_MAX \/ x = key.
Proof. unfold stop_key. rewrite orb_true_iff, !Z.eqb_eq. done. Qed.

Lemma stop_key_false key x : stop_key key x = false <-> x <> UINT32_MAX /\ x <> key.
Proof. unfold stop_key. rewrite orb_false_iff, !Z.eqb_neq. done. Qed.

Lemma search_stop keys key j :
  pow2 (Z.of_nat (length keys)) -> search keys key = Some j ->
  0 <= j < Z.of_nat (length keys) /\
  (keys !! Z.to_nat j = Some UINT32_MAX \/ keys !! Z.to_nat j = Some key).
Proof.
  intros Hp Hs. apply search_Some in Hs as (k & Hk & -> & (x & Hx & Hstop) & _); [|done].
  split; [apply Z.mod_pos_bound; by apply pow2_gt0|].
  unfold cell in Hx. rewrite Hx. apply stop_key_true in Hstop as [->| ->]; auto.
Qed.

(** What a finished search says about the map. *)
Lemma search_lookup keys vals m key j :
  table_rep keys vals m -> key <> UINT32_MAX -> search keys key = Some j ->
  (keys !! Z.to_nat j = Some key /\ exists v, m !! key = Some v /\ vals !! Z.to_nat j = Some v) \/
  (keys !! Z.to_nat j = Some UINT32_MAX /\ m !! key = None).
Proof.
  intros Ht Hne Hs. destruct (search_stop _ _ _ (tr_cap _ _ _ Ht) Hs) as [Hj [He|Hk]].
  - right. split; [done|]. destruct (m !! key) as [v|] eqn:E; [|done].
    destruct (tr_find _ _ _ Ht _ _ E) as (_ & j' & Hs' & Hk' & _).
    rewrite Hs in Hs'. injection Hs' as <-. congruence.
  - left. split; [done|]. destruct (tr_cell _ _ _ Ht _ _ Hk Hne) as [[v Hv] _].
    exists v. split; [done|]. destruct (tr_find _ _ _ Ht _ _ Hv) as (_ & j' & Hs' & _ & Hv').
    rewrite Hs in Hs'. by injection Hs' as <-.
Qed.

Lemma occupied_lt_empty keys :
  (occupied keys < length keys)%nat -> exists i, keys !! i = Some UINT32_MAX.
Proof.
  unfold occupied. induction keys as [|k keys IH]; simpl; [lia|].
  rewrite filter_cons. case_decide as Hk; simpl.
  - intros ?. destruct IH as [i Hi]; [lia|]. by exists (S i).
  - intros _. exists 0%nat. simpl. f_equal. destruct (decide (k = UINT32_MAX)); tauto.
Qed.

(** Probing terminates while the table is not full. *)
Lemma search_total keys vals m key :
  table_rep keys vals m -> (size m < length keys)%nat -> is_Some (search keys key).
Proof.
  intros Ht Hl. rewrite <- (tr_count _ _ _ Ht) in Hl.
  destruct (occupied_lt_empty keys Hl) as [i Hi]. unfold search.
  apply probe_until_total; [apply Ht|apply mul_slot_range, Ht|].
  exists i, UINT32_MAX. split; [done|]. by apply stop_key_true; left.
Qed.

(** For a key that is not in the map, probing for an empty cell is the same
    search. *)
Lemma probe_empty_search keys vals m key n :
  table_rep keys vals m -> m !! key = None -> key <> UINT32_MAX ->
  let cap := Z.of_nat (length keys) in
  probe_until stop_empty n keys cap (mul_slot key cap)
  = probe_until (stop_key key) n keys cap (mul_slot key cap).
Proof.
  intros Ht Hm Hne cap. generalize (mul_slot key cap). induction n as [|n IH]; intros h; [done|].
  cbn [probe_until]. destruct (keys !! Z.to_nat h) as [k|] eqn:Ek; [|done].
  assert (stop_empty k = stop_key key k) as ->.
  { unfold stop_empty, stop_key. destruct (Z.eqb_spec k UINT32_MAX); [done|].
    destruct (Z.eqb_spec k key) as [->|]; [|done]. exfalso.
    destruct (tr_cell _ _ _ Ht _ _ Ek) as [[v Hv] _]; [done|]. congruence. }
  by rewrite IH.
Qed.

Lemma cell_insert keys h k i x :
  (i < length keys)%nat ->
  cell (<[i:=x]> keys) h k =
    if decide (Z.to_nat ((h + Z.of_nat k) mod Z.of_nat (length keys)) = i)
    then Some x else cell keys h k.
Proof.
  intros Hi. unfold cell. rewrite length_insert. case_decide as E.
  - rewrite E. by apply list_lookup_insert_eq.
  - by apply list_lookup_insert_ne.
Qed.

(** Writing a key into an empty cell does not disturb the search of a key
    whose own cell it is not. *)
Lemma search_insert keys (i : nat) key key' j :
  pow2 (Z.of_nat (length keys)) ->
  keys !! i = Some UINT32_MAX -> key <> UINT32_MAX -> key <> key' ->
  search keys key' = Some j -> keys !! Z.to_nat j = Some key' -> key' <> UINT32_MAX ->
  search (<[i:=key]> keys) key' = Some j.
Proof.
  intros Hp Hi Hne Hkk Hs Hj Hne'. pose proof (lookup_lt_Some _ _ _ Hi) as Hil.
  apply search_Some in Hs as (k & Hk & -> & _ & Hlt); [|done].
  apply search_Some; [by rewrite length_insert|]. rewrite length_insert.
  exists k. split_and!; [done|done| |].
  - exists key'. split; [|apply stop_key_true; by right].
    rewrite cell_insert by done. case_decide as E; [|done].
    rewrite E in Hj. congruence.
  - intros k' Hk'. destruct (Hlt k' Hk') as (x & Hx & Hstop).
    rewrite cell_insert by done. case_decide as E; [|by exists x].
    unfold cell in Hx. rewrite E, Hi in Hx. injection Hx as <-.
    by apply stop_key_false in Hstop as [? _].
Qed.

Lemma search_insert_self keys key j :
  pow2 (Z.of_nat (length keys)) ->
  search keys key = Some j -> search (<[Z.to_nat j:=key]> keys) key = Some j.
Proof.
  intros Hp Hs. destruct (search_stop _ _ _ Hp Hs) as [Hj _].
  apply search_Some in Hs as (k & Hk & -> & _ & Hlt); [|done].
  apply search_Some; [by rewrite length_insert|]. rewrite length_insert.
  exists k. split_and!; [done|done| |].
  - exists key. rewrite cell_insert by lia.
    rewrite decide_True by done. split; [done|]. apply stop_key_true. by right.
  - intros k' Hk'. rewrite cell_insert by lia. case_decide as E; [|by apply Hlt].
    destruct (Hlt k' Hk') as (x & Hx & Hstop). exfalso.
    revert E. rewrite Z2Nat.inj_iff; [|apply Z.mod_pos_bound; by apply pow2_gt0..].
    set (cap := Z.of_nat (length keys)) in *. set (h := mul_slot key cap).
    intros E. apply (f_equal (fun z => (z - h) mod cap)) in E.
    rewrite !Zminus_mod_idemp_l in E.
    replace (h + Z.of_nat k' - h) with (Z.of_nat k') in E by lia.
    replace (h + Z.of_nat k - h) with (Z.of_nat k) in E by lia.
    rewrite !Z.mod_small in E by lia. lia.
Qed.

Lemma occupied_insert keys i key :
  keys !! i = Some UINT32_MAX -> key <> UINT32_MAX ->
  occupied (<[i:=key]> keys) = S (occupied keys).
Proof.
  unfold occupied. intros Hi Hne.
  rewrite insert_take_drop by (by eapply lookup_lt_Some).
  rewrite <- (take_drop_middle keys i UINT32_MAX Hi) at 3.
  rewrite !filter_app, !filter_cons, !length_app. simpl.
  repeat case_decide; simpl; try lia; tauto.
Qed.

(** Storing a new key in the cell its search found extends the map. *)
Lemma table_insert keys vals m key v j :
  table_rep keys vals m -> key <> UINT32_MAX -> m !! key = None ->
  search keys key = Some j ->
  table_rep (<[Z.to_nat j:=key]> keys) (<[Z.to_nat j:=v]> vals) (<[key:=v]> m).
Proof.
  intros Ht Hne Hm Hs. pose proof (tr_cap _ _ _ Ht) as Hp.
  destruct (search_stop _ _ _ Hp Hs) as [Hj _].
  destruct (search_lookup _ _ _ _ _ Ht Hne Hs) as [(_ & w & ? & _)|[He _]]; [congruence|].
  pose proof (tr_len _ _ _ Ht) as Hlen.
  assert (forall k, is_Some (m !! k) -> search (<[Z.to_nat j:=key]> keys) k = search keys k) as Hold.
  { intros k [w Hw]. destruct (tr_find _ _ _ Ht _ _ Hw) as (Hk & j' & Hs' & Hkj & _).
    rewrite Hs'. apply search_insert; try done. congruence. }
  split.
  - by rewrite length_insert.
  - by rewrite !length_insert.
  - intros k w. destruct (decide (k = key)) as [->|Hk].
    + rewrite lookup_insert_eq. intros [= ->]. split; [done|]. exists j.
      split_and!; [by apply search_insert_self| |]; apply list_lookup_insert_eq; lia.
    + rewrite lookup_insert_ne by done. intros Hw.
      destruct (tr_find _ _ _ Ht _ _ Hw) as (Hk' & j' & Hs' & Hkj & Hvj).
      split; [done|]. exists j'. rewrite Hold by done.
      assert (Z.to_nat j <> Z.to_nat j') by congruence.
      by rewrite !list_lookup_insert_ne.
  - intros i k Hi Hk. destruct (decide (Z.to_nat j = i)) as [<-|Hij].
    + rewrite list_lookup_insert_eq in Hi by lia. injection Hi as <-.
      rewrite lookup_insert_eq, Z2Nat.id by lia.
      split; [done|]. by apply search_insert_self.
    + rewrite list_lookup_insert_ne in Hi by done.
      destruct (tr_cell _ _ _ Ht _ _ Hi Hk) as [Hm' Hs'].
      split; [|by rewrite Hold]. rewrite lookup_insert_ne by (intros ->; rewrite Hm in Hm'; by destruct Hm').
      done.
  - rewrite occupied_insert by done. rewrite map_size_insert_None by done.
    f_equal. apply Ht.
Qed.

Lemma table_empty n vals :
  pow2 (Z.of_nat n) -> length vals = n -> table_rep (replicate n UINT32_MAX) vals ∅.
Proof.
  intros Hp Hl. split.
  - by rewrite length_replicate.
  - by rewrite length_replicate.
  - intros k v. by rewrite lookup_empty.
  - intros i k Hi Hk. apply lookup_replicate in Hi as [-> _]. done.
  - unfold occupied. rewrite map_size_empty. clear. induction n; simpl; [done|].
    rewrite filter_cons, decide_False by tauto. done.
Qed.

Lemma table_size_le keys vals m : table_rep keys vals m -> (size m <= length keys)%nat.
Proof.
  intros Ht. rewrite <- (tr_count _ _ _ Ht). unfold occupied.
  apply length_filter.
Qed.

End ProbeTable.
