(* ===== verification/Renamer.v ===== *)
(** The first-occurrence renamer of variables.

    [VarRenamer] is the Rust structure of [src/refinement/canonical_hash.rs]
    (a hash map and a counter); [renamer] is the open-addressing table of
    [c-ref/canonical_hash.c], with its growth by doubling and its allocation
    failures.  [renamer_intern_spec]: whatever the allocator does, a call of
    the C function either behaves as the Rust one or reports
    [RENAMER_EMPTY] and leaves the table as it was. *)

From S2P Require Import Prelude CHeap ProbeTable.
From Stdlib Require Import ZArith Lia.
From stdpp Require Import base numbers gmap list.
Import CHeap ProbeTable.
Open Scope Z_scope.

Module Renamer.

(** * The Rust renamer *)

Record VarRenamer := MkVarRenamer { vr_map : gmap Z Z; vr_next : Z }.

Definition VarRenamer_new : VarRenamer := MkVarRenamer ∅ 0.

(** [VarRenamer::intern] *)
Definition intern (ren : VarRenamer) (expr_id : Z) : Z * VarRenamer :=
  match vr_map ren !! expr_id with
  | Some idx => (idx, ren)
  | None =>
      let idx := vr_next ren in
      (idx, MkVarRenamer (<[expr_id := idx]> (vr_map ren)) (u32 (vr_next ren + 1)))
  end.

(** * The C renamer *)

Definition RENAMER_EMPTY : Z := UINT32_MAX.

Record renamer := MkRenamer {
  r_keys : list Z; r_vals : list Z; r_cap : Z; r_used : Z; r_next : Z;
  r_kptr : ptr; r_vptr : ptr }.

Section Ops.
Context (alloc_ok : nat -> bool).
(** The content of a freshly allocated cell of [vals]. *)
Context (uninit : Z).

Definition fresh_keys (cap : Z) : list Z := replicate (Z.to_nat cap) RENAMER_EMPTY.
Definition fresh_vals (cap : Z) : list Z := replicate (Z.to_nat cap) uninit.

Definition renamer_init (h : heap) : Z * renamer * heap :=
  let cap := 16 in
  let '(k, h) := malloc alloc_ok h in
  let '(v, h) := malloc alloc_ok h in
  match k, v with
  | Some _, Some _ => (0, MkRenamer (fresh_keys cap) (fresh_vals cap) cap 0 0 k v, h)
  | _, _ => (-1, MkRenamer [] [] cap 0 0 k v, h)
  end.

Definition renamer_free (r : renamer) (h : heap) : renamer * heap :=
  let h := free (r_kptr r) h in
  let h := free (r_vptr r) h in
  (MkRenamer [] [] (r_cap r) (r_used r) (r_next r) None None, h).

Definition renamer_slot (key cap : Z) : Z := mul_slot key cap.

(** The loop of [renamer_grow] over the old cells. *)
Fixpoint renamer_rehash (old : list (Z * Z)) (nk nv : list Z) (new_cap : Z)
    : option (list Z * list Z) :=
  match old with
  | [] => Some (nk, nv)
  | (key, val) :: old' =>
      if key =? RENAMER_EMPTY then renamer_rehash old' nk nv new_cap
      else
        match probe_until stop_empty (length nk) nk new_cap (renamer_slot key new_cap) with
        | None => None
        | Some j =>
            renamer_rehash old' (<[Z.to_nat j := key]> nk) (<[Z.to_nat j := val]> nv) new_cap
        end
  end.

Definition renamer_grow (r : renamer) (h : heap) : option (Z * renamer * heap) :=
  let new_cap := u64 (r_cap r * 2) in
  let '(nkp, h) := malloc alloc_ok h in
  let '(nvp, h) := malloc alloc_ok h in
  match nkp, nvp with
  | Some _, Some _ =>
      match renamer_rehash (zip (r_keys r) (r_vals r)) (fresh_keys new_cap)
              (fresh_vals new_cap) new_cap with
      | None => None
      | Some (nk, nv) =>
          let h := free (r_kptr r) h in
          let h := free (r_vptr r) h in
          Some (0, MkRenamer nk nv new_cap (r_used r) (r_next r) nkp nvp, h)
      end
  | _, _ =>
      let h := free nkp h in
      let h := free nvp h in
      Some (-1, r, h)
  end.

(** [renamer_intern]; [None] is a read outside the table or a probe that does
    not stop. *)
Definition renamer_intern (r : renamer) (expr_id : Z) (h : heap) : option (Z * renamer * heap) :=
  let grown :=
    if r_cap r <=? u64 (r_used r * 2) then renamer_grow r h else Some (0, r, h) in
  match grown with
  | None => None
  | Some (rc, r, h) =>
      if negb (rc =? 0) then Some (RENAMER_EMPTY, r, h)
      else
        match probe_until (stop_key expr_id) (length (r_keys r)) (r_keys r) (r_cap r)
                (renamer_slot expr_id (r_cap r)) with
        | None => None
        | Some j =>
            match r_keys r !! Z.to_nat j, r_vals r !! Z.to_nat j with
            | Some k, Some v =>
                if k =? RENAMER_EMPTY
                then
                  Some (r_next r,
                    MkRenamer (<[Z.to_nat j := expr_id]> (r_keys r))
                      (<[Z.to_nat j := r_next r]> (r_vals r)) (r_cap r)
                      (u64 (r_used r + 1)) (u32 (r_next r + 1)) (r_kptr r) (r_vptr r), h)
                else Some (v, r, h)
            | _, _ => None
            end
        end
  end.

End Ops.

(** * Refinement *)

(** The Rust renamer hands out consecutive indices. *)
Definition vr_ok (ren : VarRenamer) : Prop :=
  vr_next ren = Z.of_nat (size (vr_map ren)) /\
  (forall k v, vr_map ren !! k = Some v -> 0 <= v < vr_next ren).

(** The C table represents the Rust renamer; [k] and [v] are its two blocks. *)
Record ren_rep (r : renamer) (ren : VarRenamer) (k v : nat) : Prop := {
  rr_table : table_rep (r_keys r) (r_vals r) (vr_map ren);
  rr_cap : r_cap r = Z.of_nat (length (r_keys r));
  rr_min : 16 <= r_cap r;
  rr_bound : r_cap r <= Z.max 16 (4 * r_used r);
  rr_load : r_used r * 2 <= r_cap r;
  rr_used : r_used r = Z.of_nat (size (vr_map ren));
  rr_next : r_next r = vr_next ren;
  rr_vr : vr_ok ren;
  rr_kptr : r_kptr r = Some k;
  rr_vptr : r_vptr r = Some v }.

Lemma vr_ok_new : vr_ok VarRenamer_new.
Proof. split; [done|]. intros k v. simpl. by rewrite lookup_empty. Qed.

Lemma intern_small ren id :
  vr_ok ren -> Z.of_nat (size (vr_map ren)) < 2 ^ 32 - 1 -> 0 <= fst (intern ren id) < 2 ^ 32 - 1.
Proof.
  intros [Hn Hb] Hs. unfold intern. destruct (vr_map ren !! id) eqn:E; simpl; [apply Hb in E|]; lia.
Qed.

Lemma intern_ok ren id :
  vr_ok ren -> Z.of_nat (size (vr_map ren)) < 2 ^ 32 - 1 -> vr_ok (snd (intern ren id)).
Proof.
  intros [Hn Hv] Hs. unfold intern. destruct (vr_map ren !! id) eqn:E; [done|].
  split; simpl.
  - rewrite map_size_insert_None by done. rewrite uwrap_small; [lia|].
    unfold in_u. lia.
  - intros k v. rewrite uwrap_small by (unfold in_u; lia).
    destruct (decide (k = id)) as [->|].
    + rewrite lookup_insert_eq. intros [= <-]. lia.
    + rewrite lookup_insert_ne by done. intros ?%Hv. lia.
Qed.

Section Laws.
Context (alloc_ok : nat -> bool) (uninit : Z).

Lemma pow2_double cap : pow2 cap -> cap < 2 ^ 40 -> pow2 (cap * 2).
Proof.
  intros (p & Hp & ->) Hlt. exists (p + 1). rewrite Z.pow_add_r by lia.
  assert (p < 40) by (apply (Z.pow_lt_mono_r_iff 2); lia). lia.
Qed.

(** Rehashing keeps the map: [todo] are the pairs not yet moved. *)
Lemma rehash_spec old nk nv m todo :
  table_rep nk nv m ->
  (forall k v, todo !! k = Some v <-> (k, v) ∈ old /\ k <> RENAMER_EMPTY) ->
  NoDup (filter (fun k => k <> RENAMER_EMPTY) old.*1) ->
  m ##ₘ todo -> (size m + length old < length nk)%nat ->
  exists nk' nv', renamer_rehash old nk nv (Z.of_nat (length nk)) = Some (nk', nv') /\
    table_rep nk' nv' (todo ∪ m) /\ length nk' = length nk.
Proof.
  revert nk nv m todo. induction old as [|[key val] old IH]; intros nk nv m todo Ht Htodo Hnd Hdisj Hsz.
  { exists nk, nv. split_and!; [done| |done]. replace todo with (∅ : gmap Z Z).
    - by rewrite (left_id_L ∅ (∪)).
    - symmetry. apply map_empty. intros k. apply eq_None_not_Some. intros [v Hv].
      apply Htodo in Hv as [Hv _]. by apply not_elem_of_nil in Hv. }
  cbn [renamer_rehash]. cbn [fmap list_fmap fst] in Hnd. rewrite filter_cons in Hnd.
  destruct (Z.eqb_spec key RENAMER_EMPTY) as [->|Hne].
  { rewrite decide_False in Hnd by tauto. apply IH; try done; [|simpl in Hsz; lia].
    intros k v. rewrite Htodo, elem_of_cons. naive_solver. }
  rewrite decide_True in Hnd by done. apply NoDup_cons in Hnd as [Hnin Hnd].
  assert (todo !! key = Some val) as Hkv by (apply Htodo; set_solver).
  assert (m !! key = None) as Hmk by (by eapply map_disjoint_Some_l; [symmetry|]).
  unfold renamer_slot. rewrite (probe_empty_search nk nv m) by done.
  destruct (search_total nk nv m key Ht) as [j Hj]; [simpl in Hsz; lia|].
  unfold search in Hj. rewrite Hj.
  pose proof (table_insert _ _ _ _ val _ Ht Hne Hmk Hj) as Ht'.
  destruct (IH _ _ _ (delete key todo) Ht') as (nk' & nv' & E & Hr & Hl).
  - intros k v. rewrite lookup_delete_Some, Htodo, elem_of_cons. split.
    + intros (? & [[= -> ->]|?] & ?); [done|]. done.
    + intros [Hin Hk]. split_and!; [|by right|done]. intros <-. apply Hnin.
      apply list_elem_of_filter. split; [done|]. apply list_elem_of_fmap. by exists (key, v).
  - done.
  - apply map_disjoint_insert_l. split; [by rewrite lookup_delete_eq|].
    by apply map_disjoint_delete_r.
  - rewrite map_size_insert_None, length_insert by done. simpl in Hsz. lia.
  - rewrite length_insert in E, Hl. exists nk', nv'. split_and!; [done| |done].
    replace (todo ∪ m) with (delete key todo ∪ <[key:=val]> m); [done|].
    rewrite <- insert_union_r by by rewrite lookup_delete_eq.
    rewrite insert_union_l. by rewrite insert_delete_id.
Qed.

Lemma NoDup_filter_unique {A} (P : A -> Prop) `{!forall x, Decision (P x)} (l : list A) :
  (forall i j x, l !! i = Some x -> l !! j = Some x -> P x -> i = j) -> NoDup (filter P l).
Proof.
  induction l as [|a l IH]; intros Hu; [constructor|].
  assert (NoDup (filter P l)) as Hnd.
  { apply IH. intros i j x Hi Hj Hx.
    assert (S i = S j) as [= ->]; [|done]. by apply (Hu (S i) (S j) x). }
  rewrite filter_cons. case_decide as Ha; [|done]. constructor; [|done].
  intros [_ [i Hi]%list_elem_of_lookup]%list_elem_of_filter.
  assert (0%nat = S i) by (by apply (Hu 0%nat (S i) a)). done.
Qed.

Lemma table_rep_zip keys vals m k v :
  table_rep keys vals m -> m !! k = Some v <-> (k, v) ∈ zip keys vals /\ k <> RENAMER_EMPTY.
Proof.
  intros Ht. split.
  - intros Hv. destruct (tr_find _ _ _ Ht _ _ Hv) as (? & j & _ & Hk & Hval). split; [|done].
    apply list_elem_of_lookup. exists (Z.to_nat j). apply lookup_zip_with_Some. naive_solver.
  - intros [[i Hi]%list_elem_of_lookup Hne].
    apply lookup_zip_with_Some in Hi as (? & ? & [= <- <-] & Hk & Hval).
    destruct (tr_cell _ _ _ Ht _ _ Hk Hne) as [[w Hw] Hs].
    destruct (tr_find _ _ _ Ht _ _ Hw) as (_ & j & Hs' & _ & Hval').
    rewrite Hs in Hs'. injection Hs' as <-. rewrite Nat2Z.id in Hval'. congruence.
Qed.

Lemma table_rep_nodup keys vals m :
  table_rep keys vals m -> NoDup (filter (fun k => k <> RENAMER_EMPTY) (zip keys vals).*1).
Proof.
  intros Ht. rewrite fst_zip by (rewrite (tr_len _ _ _ Ht); lia).
  apply NoDup_filter_unique. intros i j x Hi Hj Hx.
  destruct (tr_cell _ _ _ Ht _ _ Hi Hx) as [_ Hs].
  destruct (tr_cell _ _ _ Ht _ _ Hj Hx) as [_ Hs'].
  rewrite Hs in Hs'. injection Hs' as ?. lia.
Qed.

(** The rehashing loop moves every pair into the doubled arrays. *)
Lemma grow_rehash r ren :
  table_rep (r_keys r) (r_vals r) (vr_map ren) ->
  r_cap r = Z.of_nat (length (r_keys r)) -> pow2 (r_cap r) -> pow2 (r_cap r * 2) ->
  exists nk nv,
    renamer_rehash (zip (r_keys r) (r_vals r)) (fresh_keys (r_cap r * 2))
      (fresh_vals uninit (r_cap r * 2)) (r_cap r * 2) = Some (nk, nv) /\
    table_rep nk nv (vr_map ren) /\ Z.of_nat (length nk) = r_cap r * 2.
Proof.
  intros Ht Hcap Hp Hp2. pose proof (pow2_gt0 _ Hp).
  assert (table_rep (fresh_keys (r_cap r * 2)) (fresh_vals uninit (r_cap r * 2)) ∅) as Te.
  { apply table_empty; [by rewrite Z2Nat.id by lia|apply length_replicate]. }
  assert (length (fresh_keys (r_cap r * 2)) = Z.to_nat (r_cap r * 2)) as Hlf
    by apply length_replicate.
  destruct (rehash_spec (zip (r_keys r) (r_vals r)) _ _ _ (vr_map ren) Te)
    as (nk & nv & E & Hr & Hl).
  - intros ? ?. by apply table_rep_zip.
  - by eapply table_rep_nodup.
  - apply map_disjoint_empty_l.
  - rewrite map_size_empty, length_zip_with, Hlf, (tr_len _ _ _ Ht). lia.
  - rewrite Hlf, Z2Nat.id in E by lia. rewrite (right_id_L ∅ (∪)) in Hr.
    exists nk, nv. split_and!; [done|done|lia].
Qed.

(** Growing a full table: the same map in twice the cells, or, when one of the
    two allocations fails, the old table untouched and nothing leaked. *)
Lemma renamer_grow_spec r ren k v ps base h :
  ren_rep r ren k v -> r_cap r <= r_used r * 2 -> r_cap r < 2 ^ 40 ->
  owned ([k; v] ++ ps) base h ->
  exists rc r' h', renamer_grow alloc_ok uninit r h = Some (rc, r', h') /\
    ((rc = 0 /\ r_used r' * 2 < r_cap r' /\
      exists k' v', ren_rep r' ren k' v' /\ owned ([k'; v'] ++ ps) base h') \/
     (rc = -1 /\ r' = r /\ owned ([k; v] ++ ps) base h' /\ exists n, alloc_ok n = false)).
Proof.
  intros Hr Hfull Hc Ho. destruct Hr as [Ht Hcap Hmin Hbound Hload Hused Hnext Hvr Hk Hv].
  pose proof (tr_cap _ _ _ Ht) as Hp. rewrite <- Hcap in Hp.
  pose proof (pow2_double _ Hp Hc) as Hp2. unfold renamer_grow.
  assert (u64 (r_cap r * 2) = r_cap r * 2) as -> by (apply uwrap_small; unfold in_u; lia).
  destruct (malloc alloc_ok h) as [nk h1] eqn:E1.
  destruct (malloc alloc_ok h1) as [nv h2] eqn:E2.
  destruct (owned_malloc _ _ _ _ _ _ Ho E1) as [O1 F1].
  destruct (owned_malloc _ _ _ _ _ _ O1 E2) as [O2 F2].
  assert (owned ([k; v] ++ ps) base (free nv (free nk h2))) as Of.
  { apply (owned_free _ nv), (owned_free _ nk). eapply owned_perm; [|exact O2]. solve_Permutation. }
  destruct nk as [k'|]; [destruct nv as [v'|]|].
  - destruct (grow_rehash r ren Ht Hcap Hp Hp2) as (nk' & nv' & -> & Hr' & Hl).
    exists 0. do 2 eexists. split; [done|]. left. split_and!; [done|simpl; lia|].
    exists k', v'. split.
    + split; simpl; try done; lia.
    + rewrite Hk, Hv. apply (owned_free _ (Some v)), (owned_free _ (Some k)).
      eapply owned_perm; [|exact O2]. solve_Permutation.
  - exists (-1). do 2 eexists. split; [done|]. right. auto.
  - exists (-1). do 2 eexists. split; [done|]. right. auto.
Qed.

(** Initialisation gives the empty renamer, or fails and leaves behind
    whichever of the two blocks was obtained. *)
Lemma renamer_init_spec ps base h rc r h' :
  owned ps base h -> renamer_init alloc_ok uninit h = (rc, r, h') ->
  (rc = 0 /\ exists k v, ren_rep r VarRenamer_new k v /\ owned ([k; v] ++ ps) base h') \/
  (rc = -1 /\ owned (blocks (r_vptr r) ++ blocks (r_kptr r) ++ ps) base h' /\
   exists n, alloc_ok n = false).
Proof.
  intros Ho. unfold renamer_init.
  destruct (malloc alloc_ok h) as [nk h1] eqn:E1.
  destruct (malloc alloc_ok h1) as [nv h2] eqn:E2.
  destruct (owned_malloc _ _ _ _ _ _ Ho E1) as [O1 F1].
  destruct (owned_malloc _ _ _ _ _ _ O1 E2) as [O2 F2].
  destruct nk as [k|]; [destruct nv as [v|]|]; intros [= <- <- <-]; [left|right; by auto..].
  split; [done|]. exists k, v. split.
  - split; simpl; try done; try lia.
    apply table_empty; [exists 4; split; [lia|done]|apply length_replicate].
  - eapply owned_perm; [|exact O2]. solve_Permutation.
Qed.

Lemma renamer_free_spec r ren k v ps base h :
  ren_rep r ren k v -> owned ([k; v] ++ ps) base h -> owned ps base (snd (renamer_free r h)).
Proof.
  intros Hr Ho. unfold renamer_free. rewrite (rr_kptr _ _ _ _ Hr), (rr_vptr _ _ _ _ Hr).
  apply (owned_free _ (Some v)), (owned_free _ (Some k)). done.
Qed.

(** Probing and storing after the growth test. *)
Lemma intern_probe r ren k v id :
  ren_rep r ren k v -> r_used r * 2 < r_cap r -> id <> RENAMER_EMPTY ->
  Z.of_nat (size (vr_map ren)) < 2 ^ 32 - 1 ->
  exists j key val,
    probe_until (stop_key id) (length (r_keys r)) (r_keys r) (r_cap r)
      (renamer_slot id (r_cap r)) = Some j /\
    r_keys r !! Z.to_nat j = Some key /\ r_vals r !! Z.to_nat j = Some val /\
    (if key =? RENAMER_EMPTY
     then fst (intern ren id) = r_next r /\
       ren_rep (MkRenamer (<[Z.to_nat j := id]> (r_keys r)) (<[Z.to_nat j := r_next r]> (r_vals r))
         (r_cap r) (u64 (r_used r + 1)) (u32 (r_next r + 1)) (r_kptr r) (r_vptr r))
         (snd (intern ren id)) k v
     else intern ren id = (val, ren)).
Proof.
  intros [Ht Hcap Hmin Hbound Hload Hused Hnext Hvr Hk Hv] Hl Hid Hsz.
  destruct (search_total _ _ _ id Ht) as [j Hj]; [lia|].
  exists j. unfold search in Hj. rewrite Hcap. unfold renamer_slot. rewrite Hj.
  pose proof Hj as Hs. fold (search (r_keys r) id) in Hs.
  destruct (search_stop _ _ _ (tr_cap _ _ _ Ht) Hs) as [Hjr _].
  destruct (search_lookup _ _ _ _ _ Ht Hid Hs) as [(Hkj & val & Hm & Hvj)|(Hkj & Hm)].
  - exists id, val. split_and!; try done. destruct (Z.eqb_spec id RENAMER_EMPTY); [done|].
    unfold intern. by rewrite Hm.
  - destruct (lookup_lt_is_Some_2 (r_vals r) (Z.to_nat j)) as [val Hval].
    { rewrite (tr_len _ _ _ Ht). lia. }
    exists UINT32_MAX, val. split_and!; try done.
    rewrite Z.eqb_refl. pose proof (intern_ok ren id Hvr Hsz) as Hvr'.
    unfold intern in *. rewrite Hm in *. simpl in *. split; [done|].
    destruct (tr_cap _ _ _ Ht) as (p & Hp & Ep).
    assert (r_cap r = 2 * 2 ^ (p - 1)) as Heven.
    { rewrite Hcap, Ep, <- Z.pow_succ_r; [f_equal; lia|].
      destruct (decide (p = 0)) as [->|]; [|lia]. simpl in Ep. lia. }
    assert (u64 (r_used r + 1) = r_used r + 1) as Hu by (apply uwrap_small; unfold in_u; lia).
    split; simpl; rewrite ?length_insert, ?Hu; try done; try lia.
    + rewrite Hnext. by apply table_insert.
    + rewrite map_size_insert_None by done. lia.
    + by rewrite Hnext.
Qed.

(** The C function simulates the Rust one, or reports an allocation failure
    and leaves the renamer as it was. *)
Lemma renamer_intern_spec r ren k v id ps base h :
  ren_rep r ren k v -> id <> RENAMER_EMPTY ->
  Z.of_nat (size (vr_map ren)) < 2 ^ 32 - 1 -> owned ([k; v] ++ ps) base h ->
  exists idx r' h', renamer_intern alloc_ok uninit r id h = Some (idx, r', h') /\
    ((idx = fst (intern ren id) /\
      exists k' v', ren_rep r' (snd (intern ren id)) k' v' /\ owned ([k'; v'] ++ ps) base h') \/
     (idx = RENAMER_EMPTY /\ r' = r /\ owned ([k; v] ++ ps) base h' /\
      exists n, alloc_ok n = false)).
Proof.
  intros Hr Hid Hsz Ho. unfold renamer_intern.
  assert (u64 (r_used r * 2) = r_used r * 2) as ->.
  { apply uwrap_small. destruct Hr. unfold in_u. lia. }
  assert (exists rc r1 h1,
    (if r_cap r <=? r_used r * 2 then renamer_grow alloc_ok uninit r h else Some (0, r, h))
      = Some (rc, r1, h1) /\
    ((rc = 0 /\ r_used r1 * 2 < r_cap r1 /\
      exists k' v', ren_rep r1 ren k' v' /\ owned ([k'; v'] ++ ps) base h1) \/
     (rc = -1 /\ r1 = r /\ owned ([k; v] ++ ps) base h1 /\ exists n, alloc_ok n = false)))
    as (rc & r1 & h1 & -> & [(-> & Hl & k' & v' & Hr1 & Ho1)|(-> & -> & Ho1 & Hf)]).
  { destruct (Z.leb_spec (r_cap r) (r_used r * 2)).
    - apply renamer_grow_spec; try done. destruct Hr. lia.
    - exists 0, r, h. split; [done|]. left. eauto 7. }
  - simpl. destruct (intern_probe _ _ _ _ id Hr1 Hl Hid Hsz) as (j & key & val & -> & -> & -> & Hi).
    destruct (key =? RENAMER_EMPTY).
    + destruct Hi as [Hidx Hr']. do 3 eexists. split; [done|]. left. eauto 7.
    + do 3 eexists. split; [done|]. left. rewrite Hi. eauto 7.
  - simpl. do 3 eexists. split; [done|]. right. eauto 7.
Qed.

End Laws.

End Renamer.
