(* ===== verification/OutBuf.v ===== *)
(** The growable output buffer of [c-ref/canonical_hash.c].

    The block is a list of [cap] cells of which the first [len] are written;
    [outbuf_reserve] doubles the capacity until the request fits and
    reallocates, raising the sticky [oom] flag when that fails.  A store
    outside the block is [None], so [outbuf_push_*_spec] also say that every
    store is in bounds. *)

From S2P Require Import Prelude CHeap.
From Stdlib Require Import ZArith Lia.
From stdpp Require Import base numbers gmap list.
Import CHeap.
Open Scope Z_scope.

Module OutBuf.

Record outbuf := MkOutbuf {
  b_data : list Z; b_len : Z; b_cap : Z; b_oom : bool; b_ptr : ptr }.

Section Ops.
Context (alloc_ok : nat -> bool) (uninit : Z).

Definition outbuf_init (h : heap) : Z * outbuf * heap :=
  let '(p, h) := malloc alloc_ok h in
  match p with
  | Some _ => (0, MkOutbuf (replicate 64 uninit) 0 64 false p, h)
  | None => (-1, MkOutbuf [] 0 64 false p, h)
  end.

Definition outbuf_free (b : outbuf) (h : heap) : outbuf * heap :=
  (MkOutbuf [] (b_len b) (b_cap b) (b_oom b) None, free (b_ptr b) h).

(** [while (nc < b->len + extra) nc *= 2;] *)
Fixpoint grow_cap (fuel : nat) (nc need : Z) : option Z :=
  match fuel with
  | O => None
  | S fuel' => if nc <? need then grow_cap fuel' (u64 (nc * 2)) need else Some nc
  end.

Definition outbuf_reserve (b : outbuf) (extra : Z) (h : heap) : option (outbuf * heap) :=
  if b_oom b then Some (b, h)
  else
    let need := u64 (b_len b + extra) in
    if need <=? b_cap b then Some (b, h)
    else
      match grow_cap 64 (b_cap b) need with
      | None => None
      | Some nc =>
          let '(nd, h) := realloc alloc_ok (b_ptr b) h in
          match nd with
          | None => Some (MkOutbuf (b_data b) (b_len b) (b_cap b) true (b_ptr b), h)
          | Some _ =>
              Some (MkOutbuf (b_data b ++ replicate (Z.to_nat (nc - b_cap b)) uninit)
                      (b_len b) nc (b_oom b) nd, h)
          end
      end.

(** [b->data[b->len++] = x;] *)
Definition outbuf_store (b : outbuf) (x : Z) : option outbuf :=
  if b_len b <? Z.of_nat (length (b_data b))
  then Some (MkOutbuf (<[Z.to_nat (b_len b) := x]> (b_data b)) (u64 (b_len b + 1))
               (b_cap b) (b_oom b) (b_ptr b))
  else None.

Fixpoint outbuf_stores (b : outbuf) (xs : list Z) : option outbuf :=
  match xs with
  | [] => Some b
  | x :: xs' => match outbuf_store b x with Some b' => outbuf_stores b' xs' | None => None end
  end.

(** The common body of the three push functions: reserve, stop on [oom], store. *)
Definition outbuf_push (b : outbuf) (xs : list Z) (h : heap) : option (outbuf * heap) :=
  match outbuf_reserve b (Z.of_nat (length xs)) h with
  | None => None
  | Some (b, h) =>
      if b_oom b then Some (b, h)
      else match outbuf_stores b xs with Some b => Some (b, h) | None => None end
  end.

Definition outbuf_push_u8 (b : outbuf) (v : Z) (h : heap) : option (outbuf * heap) :=
  outbuf_push b [v] h.

Definition outbuf_push_u16_le (b : outbuf) (v : Z) (h : heap) : option (outbuf * heap) :=
  outbuf_push b [u8 (Z.land v 0xff); u8 (Z.land (Z.shiftr v 8) 0xff)] h.

Definition outbuf_push_u32_le (b : outbuf) (v : Z) (h : heap) : option (outbuf * heap) :=
  outbuf_push b [u8 (Z.land v 0xff); u8 (Z.land (Z.shiftr v 8) 0xff);
                 u8 (Z.land (Z.shiftr v 16) 0xff); u8 (Z.land (Z.shiftr v 24) 0xff)] h.

End Ops.

(** The buffer holds the bytes [bs]; [p] is its block. *)
Record out_rep (b : outbuf) (bs : list Z) (p : nat) : Prop := {
  or_len : b_len b = Z.of_nat (length bs);
  or_cap : b_cap b = Z.of_nat (length (b_data b));
  or_min : 64 <= b_cap b < 2 ^ 62;
  or_fit : b_len b <= b_cap b;
  or_data : take (length bs) (b_data b) = bs;
  or_oom : b_oom b = false;
  or_ptr : b_ptr b = Some p }.

(** The buffer gave up; its block is still [p]. *)
Definition out_oom (b : outbuf) (p : nat) : Prop := b_oom b = true /\ b_ptr b = Some p.

Lemma grow_cap_spec fuel nc need :
  0 < nc -> 0 <= need < 2 ^ 62 -> need <= nc * 2 ^ (Z.of_nat fuel - 1) -> (0 < fuel)%nat ->
  exists nc', grow_cap fuel nc need = Some nc' /\ need <= nc' /\ nc <= nc' <= Z.max nc (2 * need).
Proof.
  revert nc. induction fuel as [|fuel IH]; intros nc Hnc Hneed Hb Hf; [lia|].
  cbn [grow_cap]. destruct (Z.ltb_spec nc need); [|exists nc; split; [done|lia]].
  assert (u64 (nc * 2) = nc * 2) as -> by (apply uwrap_small; unfold in_u; lia).
  destruct fuel as [|fuel].
  { simpl in Hb. lia. }
  destruct (IH (nc * 2)) as (nc' & E & ? & ?); try lia.
  - replace (Z.of_nat (S (S fuel)) - 1) with (Z.succ (Z.of_nat (S fuel) - 1)) in Hb by lia.
    rewrite Z.pow_succ_r in Hb by lia. lia.
  - exists nc'. split; [done|]. lia.
Qed.

Section Laws.
Context (alloc_ok : nat -> bool) (uninit : Z).

Lemma outbuf_init_spec ps base h rc b h' :
  owned ps base h -> outbuf_init alloc_ok uninit h = (rc, b, h') ->
  (rc = 0 /\ exists p, out_rep b [] p /\ owned (p :: ps) base h') \/
  (rc = -1 /\ owned ps base h' /\ exists n, alloc_ok n = false).
Proof.
  intros Ho. unfold outbuf_init. destruct (malloc alloc_ok h) as [p h1] eqn:E.
  destruct (owned_malloc _ _ _ _ _ _ Ho E) as [O1 F1].
  destruct p as [p|]; intros [= <- <- <-]; [left|right; by auto].
  split; [done|]. exists p. split; [|done]. split; simpl; try done; lia.
Qed.

Lemma outbuf_reserve_spec b bs p extra ps base h :
  out_rep b bs p -> 0 <= extra -> Z.of_nat (length bs) + extra < 2 ^ 61 ->
  owned (p :: ps) base h ->
  exists b' h', outbuf_reserve alloc_ok uninit b extra h = Some (b', h') /\
    ((exists p', out_rep b' bs p' /\ b_len b' + extra <= b_cap b' /\ owned (p' :: ps) base h') \/
     (out_oom b' p /\ owned (p :: ps) base h' /\ exists n, alloc_ok n = false)).
Proof.
  intros [Hl Hc Hm Hf Hd Ho Hp] He Hb Hown. unfold outbuf_reserve. rewrite Ho.
  assert (u64 (b_len b + extra) = b_len b + extra) as -> by (apply uwrap_small; unfold in_u; lia).
  destruct (Z.leb_spec (b_len b + extra) (b_cap b)).
  { exists b, h. split; [done|]. left. exists p. done. }
  destruct (grow_cap_spec 64 (b_cap b) (b_len b + extra)) as (nc & -> & Hn1 & Hn2);
    [lia|lia| |lia|].
  { change (2 ^ (Z.of_nat 64 - 1)) with (2 ^ 63). lia. }
  destruct (realloc alloc_ok (b_ptr b) h) as [nd h1] eqn:E. rewrite Hp in E.
  pose proof (owned_realloc _ ps (Some p) _ _ _ _ Hown E) as Hr.
  destruct nd as [p'|].
  - do 2 eexists. split; [done|]. left. exists p'. split_and!; simpl; [|lia|done].
    split; simpl; try done; try lia.
    + rewrite length_app, length_replicate. lia.
    + rewrite take_app_le by (rewrite Hl, Hc in *; lia). done.
  - destruct Hr as [Hr Hfail]. do 2 eexists. split; [done|]. right. done.
Qed.

Lemma outbuf_stores_spec xs b bs p :
  b_len b = Z.of_nat (length bs) -> b_cap b = Z.of_nat (length (b_data b)) ->
  take (length bs) (b_data b) = bs -> b_len b + Z.of_nat (length xs) <= b_cap b ->
  b_cap b < 2 ^ 62 -> b_oom b = false -> b_ptr b = Some p ->
  exists b', outbuf_stores b xs = Some b' /\ b_len b' = Z.of_nat (length (bs ++ xs)) /\
    b_cap b' = b_cap b /\ length (b_data b') = length (b_data b) /\
    take (length (bs ++ xs)) (b_data b') = bs ++ xs /\ b_oom b' = false /\ b_ptr b' = Some p.
Proof.
  revert b bs. induction xs as [|x xs IH]; intros b bs Hl Hc Hd Hfit Hcap Ho Hp.
  { exists b. rewrite app_nil_r. done. }
  cbn [outbuf_stores length] in *. unfold outbuf_store.
  rewrite (proj2 (Z.ltb_lt _ _)) by lia.
  rewrite uwrap_small by (unfold in_u; lia).
  set (b1 := MkOutbuf _ _ _ _ _).
  assert (take (S (length bs)) (b_data b1) = bs ++ [x]) as Hd1.
  { unfold b1; simpl. rewrite Hl, Nat2Z.id.
    rewrite (take_S_r _ _ x) by (apply list_lookup_insert_eq; lia).
    rewrite take_insert_ge by lia. by rewrite Hd. }
  destruct (IH b1 (bs ++ [x])) as (b' & E & H1 & H2 & H3 & H4 & H5);
    unfold b1; simpl; rewrite ?length_insert, ?length_app; simpl; try done; try lia.
  - by rewrite Nat.add_1_r.
  - exists b'. rewrite <- !app_assoc in *. simpl in *. rewrite length_app in H1, H4. rewrite length_insert in H3. done.
Qed.

Lemma outbuf_push_spec b bs p xs ps base h :
  out_rep b bs p -> Z.of_nat (length (bs ++ xs)) < 2 ^ 61 ->
  owned (p :: ps) base h ->
  exists b' h', outbuf_push alloc_ok uninit b xs h = Some (b', h') /\
    ((exists p', out_rep b' (bs ++ xs) p' /\ owned (p' :: ps) base h') \/
     (out_oom b' p /\ owned (p :: ps) base h' /\ exists n, alloc_ok n = false)).
Proof.
  intros Hr Hb Ho. rewrite length_app in Hb. unfold outbuf_push.
  destruct (outbuf_reserve_spec b bs p (Z.of_nat (length xs)) ps base h Hr)
    as (b1 & h1 & -> & [(p' & Hr1 & Hfit & Ho1)|(Hoom & Ho1 & Hf)]); [lia|lia|done| |].
  - destruct Hr1 as [Hl Hc Hm Hf Hd Hoom Hp]. rewrite Hoom.
    destruct (outbuf_stores_spec xs b1 bs p' Hl Hc Hd)
      as (b2 & -> & H1 & H2 & H3 & H4 & H5 & H6); [lia|lia|done|done|].
    do 2 eexists. split; [done|]. left. exists p'. split; [|done].
    split; try done; rewrite ?H1, ?H2, ?length_app in *; lia.
  - rewrite (proj1 Hoom). do 2 eexists. split; [done|]. right. done.
Qed.

(** After [oom] the pushes do nothing. *)
Lemma outbuf_push_oom b xs h :
  b_oom b = true -> outbuf_push alloc_ok uninit b xs h = Some (b, h).
Proof. intros Ho. unfold outbuf_push, outbuf_reserve. by rewrite Ho, Ho. Qed.

End Laws.

Lemma u8_byte x k : 0 <= k -> u8 (Z.land (Z.shiftr x k) 0xff) = (x / 2 ^ k) mod 256.
Proof.
  intros. rewrite land_255, Z.shiftr_div_pow2 by lia. apply uwrap_small.
  apply (Z.mod_pos_bound _ 256). lia.
Qed.

Lemma push_u16_bytes alloc_ok uninit b v h :
  outbuf_push_u16_le alloc_ok uninit b v h = outbuf_push alloc_ok uninit b (le_bytes 2 v) h.
Proof.
  unfold outbuf_push_u16_le. rewrite <- (Z.shiftr_0_r v) at 1.
  rewrite !u8_byte by lia. simpl. by rewrite Z.div_1_r.
Qed.

Lemma push_u32_bytes alloc_ok uninit b v h :
  outbuf_push_u32_le alloc_ok uninit b v h = outbuf_push alloc_ok uninit b (le_bytes 4 v) h.
Proof.
  unfold outbuf_push_u32_le. rewrite <- (Z.shiftr_0_r v) at 1.
  rewrite !u8_byte by lia. simpl. rewrite Z.div_1_r, !Z.div_div by lia. done.
Qed.

End OutBuf.
