(* ===== verification/BcfTree.v ===== *)
(** Abstract specification of the canonical encoding.

    A BCF expression, walked as a tree, is a value of [tree]: variables carry
    their identity, constants their raw words, internal nodes their children.
    [canon] replaces variables by their first-occurrence index, [recs] lists
    the records of the tree in post-order and [ser_rec] gives the bytes of a
    record.  The encoding is exact: two trees have the same byte string iff
    they are equal up to an injective renaming of variables
    ([encode_alpha_sound], [encode_alpha_complete]), because the byte string
    can be decoded ([decode_encode]). *)

From S2P Require Import Prelude Renamer.
From Stdlib Require Import ZArith Lia.
From stdpp Require Import base numbers gmap list.
Import Renamer.
Open Scope Z_scope.

Module BcfTree.

Inductive tree : Type :=
| TVar (code params : Z) (x : Z)
| TConst (code params : Z) (words : list Z)
| TNode (code params : Z) (children : list tree).

Section TreeInd.
Context (P : tree -> Prop).
Context (HVar : forall c p x, P (TVar c p x)).
Context (HConst : forall c p ws, P (TConst c p ws)).
Context (HNode : forall c p ts, Forall P ts -> P (TNode c p ts)).

Fixpoint tree_ind' (t : tree) : P t :=
  match t with
  | TVar c p x => HVar c p x
  | TConst c p ws => HConst c p ws
  | TNode c p ts =>
      HNode c p ts ((fix go ts : Forall P ts :=
        match ts with
        | [] => Forall_nil_2 _
        | t :: ts => Forall_cons_2 _ _ _ (tree_ind' t) (go ts)
        end) ts)
  end.
End TreeInd.

Fixpoint map_vars (f : Z -> Z) (t : tree) : tree :=
  match t with
  | TVar c p x => TVar c p (f x)
  | TConst c p ws => TConst c p ws
  | TNode c p ts => TNode c p (map (map_vars f) ts)
  end.

Fixpoint vars (t : tree) : gset Z :=
  match t with
  | TVar _ _ x => {[x]}
  | TConst _ _ _ => ∅
  | TNode _ _ ts => ⋃ (map vars ts)
  end.

(** Equality up to a renaming that keeps distinct variables distinct. *)
Definition alpha_eq (t1 t2 : tree) : Prop :=
  exists f, (forall x y, x ∈ vars t1 -> y ∈ vars t1 -> f x = f y -> x = y) /\
    t2 = map_vars f t1.

(** * First-occurrence indices *)

Fixpoint canon (ren : VarRenamer) (t : tree) : tree * VarRenamer :=
  match t with
  | TVar c p x => let '(i, ren) := intern ren x in (TVar c p i, ren)
  | TConst c p ws => (TConst c p ws, ren)
  | TNode c p ts =>
      let '(ts', ren) :=
        (fix go ren ts :=
           match ts with
           | [] => ([], ren)
           | t :: ts => let '(t', ren) := canon ren t in
                        let '(ts', ren) := go ren ts in (t' :: ts', ren)
           end) ren ts in
      (TNode c p ts', ren)
  end.

Definition canon_list : VarRenamer -> list tree -> list tree * VarRenamer :=
  fix go ren ts :=
    match ts with
    | [] => ([], ren)
    | t :: ts => let '(t', ren) := canon ren t in
                 let '(ts', ren) := go ren ts in (t' :: ts', ren)
    end.

Lemma canon_node ren c p ts :
  canon ren (TNode c p ts)
  = (TNode c p (fst (canon_list ren ts)), snd (canon_list ren ts)).
Proof.
  cbn [canon]. fold canon_list. by destruct (canon_list ren ts).
Qed.

(** * Records and bytes *)

Definition TAG_VAR : Z := 0x01.
Definition TAG_LEAF_CONST : Z := 0x02.
Definition TAG_INTERNAL : Z := 0x03.

Inductive record : Type :=
| RVar (code params idx : Z)
| RConst (code params : Z) (words : list Z)
| RNode (code params : Z) (arity : nat).

Definition header (tag code vlen params : Z) : list Z :=
  [tag; code; vlen] ++ le_bytes 2 params.

Definition ser_rec (r : record) : list Z :=
  match r with
  | RVar c p i => header TAG_VAR c 0 p ++ le_bytes 4 i
  | RConst c p ws =>
      header TAG_LEAF_CONST c (Z.of_nat (length ws)) p ++ flat_map (le_bytes 4) ws
  | RNode c p n => header TAG_INTERNAL c (Z.of_nat n) p
  end.

Fixpoint recs (t : tree) : list record :=
  match t with
  | TVar c p i => [RVar c p i]
  | TConst c p ws => [RConst c p ws]
  | TNode c p ts => flat_map recs ts ++ [RNode c p (length ts)]
  end.

Definition ser (t : tree) : list Z := flat_map ser_rec (recs t).

(** The canonical byte string of a tree. *)
Definition encode_tree (t : tree) : list Z := ser (fst (canon VarRenamer_new t)).

(** * Decoding *)

Definition get_u16 (bs : list Z) : option (Z * list Z) :=
  match bs with
  | a :: b :: bs => Some (le_val [a; b], bs)
  | _ => None
  end.

Definition get_u32 (bs : list Z) : option (Z * list Z) :=
  match bs with
  | a :: b :: c :: d :: bs => Some (le_val [a; b; c; d], bs)
  | _ => None
  end.

Fixpoint get_words (n : nat) (bs : list Z) : option (list Z * list Z) :=
  match n with
  | O => Some ([], bs)
  | S n => '(w, bs) ← get_u32 bs; '(ws, bs) ← get_words n bs; Some (w :: ws, bs)
  end.

Definition parse_rec (bs : list Z) : option (record * list Z) :=
  match bs with
  | tag :: code :: vlen :: bs =>
      '(params, bs) ← get_u16 bs;
      if tag =? TAG_VAR then '(i, bs) ← get_u32 bs; Some (RVar code params i, bs)
      else if tag =? TAG_LEAF_CONST then
        '(ws, bs) ← get_words (Z.to_nat vlen) bs; Some (RConst code params ws, bs)
      else if tag =? TAG_INTERNAL then Some (RNode code params (Z.to_nat vlen), bs)
      else None
  | _ => None
  end.

Fixpoint parse_recs (fuel : nat) (bs : list Z) : option (list record) :=
  match bs with
  | [] => Some []
  | _ =>
      match fuel with
      | O => None
      | S fuel => '(r, bs) ← parse_rec bs; rs ← parse_recs fuel bs; Some (r :: rs)
      end
  end.

(** Rebuild the tree with a stack: an internal record takes its children. *)
Fixpoint build (rs : list record) (st : list tree) : option (list tree) :=
  match rs with
  | [] => Some st
  | RVar c p i :: rs => build rs (TVar c p i :: st)
  | RConst c p ws :: rs => build rs (TConst c p ws :: st)
  | RNode c p n :: rs =>
      if decide (n <= length st)%nat
      then build rs (TNode c p (reverse (take n st)) :: drop n st)
      else None
  end.

Definition decode (bs : list Z) : option tree :=
  rs ← parse_recs (length bs) bs;
  st ← build rs [];
  match st with [t] => Some t | _ => None end.

(** Fields in the ranges of their types, arities below 256. *)
Fixpoint tree_ok (t : tree) : Prop :=
  match t with
  | TVar c p i => in_u 8 c /\ in_u 16 p /\ in_u 32 i
  | TConst c p ws =>
      in_u 8 c /\ in_u 16 p /\ Forall (in_u 32) ws /\ (length ws < 256)%nat
  | TNode c p ts =>
      in_u 8 c /\ in_u 16 p /\ (length ts < 256)%nat /\
      (fix all ts := match ts with [] => True | t :: ts => tree_ok t /\ all ts end) ts
  end.

Lemma tree_ok_node c p ts :
  tree_ok (TNode c p ts) <->
  in_u 8 c /\ in_u 16 p /\ (length ts < 256)%nat /\ Forall tree_ok ts.
Proof.
  cbn [tree_ok].
  assert ((fix all ts := match ts with [] => True | t :: ts => tree_ok t /\ all ts end) ts
          <-> Forall tree_ok ts) as ->; [|done].
  induction ts as [|t ts IH]; [done|]. rewrite Forall_cons, IH. done.
Qed.

(** * The byte string determines the records *)

Definition rec_ok (r : record) : Prop :=
  match r with
  | RVar c p i => in_u 8 c /\ in_u 16 p /\ in_u 32 i
  | RConst c p ws => in_u 8 c /\ in_u 16 p /\ Forall (in_u 32) ws /\ (length ws < 256)%nat
  | RNode c p n => in_u 8 c /\ in_u 16 p /\ (n < 256)%nat
  end.

Lemma get_u16_le v rest : in_u 16 v -> get_u16 (le_bytes 2 v ++ rest) = Some (v, rest).
Proof.
  intros Hv. cbn [le_bytes app get_u16].
  change [v mod 256; v / 256 mod 256] with (le_bytes 2 v).
  by rewrite le_val_bytes_small.
Qed.

Lemma get_u32_le v rest : in_u 32 v -> get_u32 (le_bytes 4 v ++ rest) = Some (v, rest).
Proof.
  intros Hv. cbn [le_bytes app get_u32].
  change [v mod 256; v / 256 mod 256; v / 256 / 256 mod 256; v / 256 / 256 / 256 mod 256]
    with (le_bytes 4 v).
  by rewrite le_val_bytes_small.
Qed.

Lemma get_words_le ws rest :
  Forall (in_u 32) ws ->
  get_words (length ws) (flat_map (le_bytes 4) ws ++ rest) = Some (ws, rest).
Proof.
  induction 1 as [|w ws Hw _ IH]; [done|].
  cbn [length get_words flat_map]. rewrite <- app_assoc, get_u32_le by done.
  cbn [mbind option_bind]. by rewrite IH.
Qed.

Lemma parse_rec_ser r rest :
  rec_ok r -> parse_rec (ser_rec r ++ rest) = Some (r, rest).
Proof.
  destruct r as [c p i|c p ws|c p n]; cbn [rec_ok]; intros Hok;
    unfold ser_rec, header; cbn [app parse_rec]; rewrite <- ?app_assoc.
  - destruct Hok as (? & ? & ?). rewrite get_u16_le by done. cbn [mbind option_bind].
    by rewrite get_u32_le.
  - destruct Hok as (? & ? & ? & ?). rewrite get_u16_le by done. cbn [mbind option_bind].
    by rewrite Nat2Z.id, get_words_le.
  - destruct Hok as (? & ? & ?). rewrite get_u16_le by done. cbn [mbind option_bind].
    by rewrite Nat2Z.id.
Qed.

Lemma ser_rec_nonempty r : (0 < length (ser_rec r))%nat.
Proof. destruct r; simpl; lia. Qed.

Lemma parse_recs_ser rs fuel :
  Forall rec_ok rs -> (length (flat_map ser_rec rs) <= fuel)%nat ->
  parse_recs fuel (flat_map ser_rec rs) = Some rs.
Proof.
  intros Hok. revert fuel. induction Hok as [|r rs Hr _ IH]; intros fuel Hf.
  { by destruct fuel. }
  cbn [flat_map] in *. rewrite length_app in Hf.
  pose proof (ser_rec_nonempty r). destruct fuel as [|fuel]; [lia|].
  destruct (ser_rec r ++ flat_map ser_rec rs) as [|b bs] eqn:E.
  { apply (f_equal length) in E. rewrite length_app in E. simpl in E. lia. }
  cbn [parse_recs]. rewrite <- E, parse_rec_ser by done. cbn [mbind option_bind].
  by rewrite IH by lia.
Qed.

(** * The records determine the tree *)

Lemma build_recs t rs st : build (recs t ++ rs) st = build rs (t :: st).
Proof.
  revert rs st. induction t as [c p x|c p ws|c p ts IH] using tree_ind'; intros rs st;
    [done..|].
  cbn [recs]. rewrite <- app_assoc. cbn [app].
  assert (forall l rs st, Forall (fun t => t ∈ ts) l ->
    build (flat_map recs l ++ rs) st = build rs (reverse l ++ st)) as Hl.
  { clear rs st. intros l. induction l as [|t l IHl]; intros rs st Hin; [done|].
    apply Forall_cons in Hin as [Ht Hin]. cbn [flat_map].
    rewrite <- app_assoc. rewrite Forall_forall in IH. rewrite IH by done.
    rewrite IHl by done. by rewrite reverse_cons, <- app_assoc. }
  rewrite Hl by by apply Forall_forall. cbn [build].
  rewrite decide_True by (rewrite length_app, length_reverse; lia).
  rewrite take_app_len, drop_app_len by by rewrite length_reverse.
  by rewrite reverse_involutive.
Qed.

Lemma recs_ok t : tree_ok t -> Forall rec_ok (recs t).
Proof.
  induction t as [c p x|c p ws|c p ts IH] using tree_ind'; intros Hok.
  - by apply Forall_singleton.
  - by apply Forall_singleton.
  - apply tree_ok_node in Hok as (Hc & Hp & Hl & Hts). cbn [recs].
    apply Forall_app. split; [|by apply Forall_singleton].
    clear Hl. induction IH as [|t ts Ht _ IHts]; [done|].
    apply Forall_cons in Hts as [? ?]. cbn [flat_map].
    apply Forall_app. auto.
Qed.

Lemma decode_ser t : tree_ok t -> decode (ser t) = Some t.
Proof.
  intros Hok. unfold decode, ser. rewrite parse_recs_ser by (by apply recs_ok || lia).
  cbn [mbind option_bind]. rewrite <- (app_nil_r (recs t)), build_recs. done.
Qed.

Lemma ser_inj t1 t2 : tree_ok t1 -> tree_ok t2 -> ser t1 = ser t2 -> t1 = t2.
Proof.
  intros H1 H2 E. apply (f_equal decode) in E. rewrite !decode_ser in E by done. congruence.
Qed.

(** * First-occurrence indices are stable under renaming *)

Section Rename.
Context (f : Z -> Z) (S : gset Z).
Context (f_inj : forall x y, x ∈ S -> y ∈ S -> f x = f y -> x = y).

Definition ren_sim (r1 r2 : VarRenamer) : Prop :=
  vr_next r1 = vr_next r2 /\ forall x, x ∈ S -> vr_map r2 !! f x = vr_map r1 !! x.

Lemma intern_sim r1 r2 x :
  ren_sim r1 r2 -> x ∈ S ->
  fst (intern r2 (f x)) = fst (intern r1 x) /\
  ren_sim (snd (intern r1 x)) (snd (intern r2 (f x))).
Proof.
  intros [Hn Hm] Hx. unfold intern. rewrite (Hm x Hx).
  destruct (vr_map r1 !! x) eqn:E; simpl; [done|]. split; [done|].
  split; simpl; [by rewrite Hn|]. intros y Hy.
  destruct (decide (x = y)) as [->|Hxy].
  - rewrite !lookup_insert_eq. by rewrite Hn.
  - rewrite !lookup_insert_ne by (intros E'; auto). auto.
Qed.

Lemma canon_sim t r1 r2 :
  ren_sim r1 r2 -> vars t ⊆ S ->
  fst (canon r2 (map_vars f t)) = fst (canon r1 t) /\
  ren_sim (snd (canon r1 t)) (snd (canon r2 (map_vars f t))).
Proof.
  revert r1 r2. induction t as [c p x|c p ws|c p ts IH] using tree_ind'; intros r1 r2 Hr Hs.
  - cbn [canon map_vars]. destruct (intern_sim r1 r2 x Hr) as [E Hr']; [set_solver|].
    destruct (intern r1 x), (intern r2 (f x)). simpl in *. by subst.
  - done.
  - cbn [map_vars]. rewrite !canon_node. cbn [fst snd].
    cut (fst (canon_list r2 (map (map_vars f) ts)) = fst (canon_list r1 ts) /\
         ren_sim (snd (canon_list r1 ts)) (snd (canon_list r2 (map (map_vars f) ts)))).
    { intros [-> ?]. done. }
    cbn [vars] in Hs. revert r1 r2 Hr. induction IH as [|t ts Ht _ IHts]; intros r1 r2 Hr; [done|].
    cbn [map] in Hs. rewrite union_list_cons in Hs. cbn [map canon_list].
    destruct (Ht r1 r2 Hr) as [E1 Hr1]; [set_solver|].
    destruct (canon r1 t) as [t1 r1'], (canon r2 (map_vars f t)) as [t2 r2'].
    simpl in E1, Hr1. subst t2.
    destruct (IHts ltac:(set_solver) r1' r2' Hr1) as [E2 Hr2].
    fold canon_list. destruct (canon_list r1' ts), (canon_list r2' (map (map_vars f) ts)).
    simpl in *. by subst.
Qed.

End Rename.

(** * Serialisation and domains of composed trees *)

Definition ser_list (ts : list tree) : list Z := flat_map ser ts.

Lemma ser_node c p ts :
  ser (TNode c p ts) = ser_list ts ++ header TAG_INTERNAL c (Z.of_nat (length ts)) p.
Proof.
  unfold ser, ser_list. cbn [recs]. rewrite flat_map_app. f_equal.
  induction ts as [|t ts IH]; [done|]. cbn [flat_map]. by rewrite flat_map_app, IH.
Qed.

Lemma canon_list_cons ren t ts :
  canon_list ren (t :: ts) =
  (fst (canon ren t) :: fst (canon_list (snd (canon ren t)) ts),
   snd (canon_list (snd (canon ren t)) ts)).
Proof.
  cbn [canon_list]. fold canon_list. destruct (canon ren t) as [t' r']. simpl.
  by destruct (canon_list r' ts).
Qed.

Lemma canon_list_length ren ts : length (fst (canon_list ren ts)) = length ts.
Proof.
  revert ren. induction ts as [|t ts IH]; intros ren; [done|].
  rewrite canon_list_cons. simpl. by rewrite IH.
Qed.

(** The renamer only learns the variables of the tree. *)
Lemma canon_dom t ren :
  dom (vr_map (snd (canon ren t))) ⊆ dom (vr_map ren) ∪ vars t.
Proof.
  revert ren. induction t as [c p x|c p ws|c p ts IH] using tree_ind'; intros ren.
  - cbn [canon vars]. unfold intern. destruct (vr_map ren !! x); simpl; [set_solver|].
    rewrite dom_insert. set_solver.
  - simpl. set_solver.
  - rewrite canon_node. cbn [snd vars]. revert ren.
    induction IH as [|t ts Ht _ IHts]; intros ren; [simpl; set_solver|].
    rewrite canon_list_cons. cbn [snd map]. rewrite union_list_cons.
    specialize (IHts (snd (canon ren t))). specialize (Ht ren). set_solver.
Qed.

(** * Equal indices give a renaming *)

Definition idx_of (m : gmap Z Z) (x : Z) : Z := default 0 (m !! x).

Lemma map_vars_ext f g t : (forall x, x ∈ vars t -> f x = g x) -> map_vars f t = map_vars g t.
Proof.
  induction t as [c p x|c p ws|c p ts IH] using tree_ind'; intros Hfg; cbn [map_vars].
  - rewrite Hfg; [done|set_solver].
  - done.
  - f_equal. cbn [vars] in Hfg. induction IH as [|t ts Ht _ IHts]; [done|].
    cbn [map] in *. rewrite union_list_cons in Hfg. f_equal.
    + apply Ht. intros. apply Hfg. set_solver.
    + apply IHts. intros. apply Hfg. set_solver.
Qed.

Lemma idx_of_sub m m' x : m ⊆ m' -> is_Some (m !! x) -> idx_of m' x = idx_of m x.
Proof. intros Hs [v Hv]. unfold idx_of. by rewrite Hv, (lookup_weaken _ _ _ _ Hv Hs). Qed.

(** The variables of the tree lie in a set of fewer than [2^32] names, so the
    counter of the renamer does not wrap. *)
Section Indices.
Context (S : gset Z) (S_small : Z.of_nat (size S) < 2 ^ 32).

Definition vr_inj (ren : VarRenamer) : Prop :=
  vr_next ren = Z.of_nat (size (vr_map ren)) /\ dom (vr_map ren) ⊆ S /\
  (forall k v, vr_map ren !! k = Some v -> 0 <= v < vr_next ren) /\
  (forall k k' v, vr_map ren !! k = Some v -> vr_map ren !! k' = Some v -> k = k').

Lemma vr_inj_small ren : vr_inj ren -> 0 <= vr_next ren < 2 ^ 32.
Proof.
  intros (-> & Hd%subseteq_size & _). rewrite size_dom in Hd. lia.
Qed.

Lemma intern_spec ren x :
  vr_inj ren -> x ∈ S ->
  let '(i, ren') := intern ren x in
  vr_inj ren' /\ vr_map ren' !! x = Some i /\ vr_map ren ⊆ vr_map ren'.
Proof.
  intros Hv Hx. pose proof Hv as (Hn & Hd & Hb & Hi). unfold intern.
  destruct (vr_map ren !! x) as [i|] eqn:E; [done|].
  assert (vr_next ren + 1 < 2 ^ 32) as Hlt.
  { assert (size ({[x]} ∪ dom (vr_map ren)) <= size S)%nat as Hs by (apply subseteq_size; set_solver).
    rewrite size_union, size_singleton, size_dom in Hs by (apply not_elem_of_dom in E; set_solver). lia. }
  assert (u32 (vr_next ren + 1) = vr_next ren + 1) as Hn' by (apply uwrap_small; unfold in_u; lia).
  rewrite Hn'. split_and!; simpl; [|by rewrite lookup_insert_eq|by apply insert_subseteq].
  split_and!; simpl.
  - rewrite map_size_insert_None by done. lia.
  - rewrite dom_insert. set_solver.
  - intros k v. destruct (decide (k = x)) as [->|].
    + rewrite lookup_insert_eq. intros [= <-]. lia.
    + rewrite lookup_insert_ne by done. intros ?%Hb. lia.
  - intros k k' v. destruct (decide (k = x)) as [->|], (decide (k' = x)) as [->|]; [done|..].
    + rewrite lookup_insert_eq, lookup_insert_ne by done. intros [= <-] ?%Hb. lia.
    + rewrite lookup_insert_eq, lookup_insert_ne by done. intros ?%Hb [= <-]. lia.
    + rewrite !lookup_insert_ne by done. apply Hi.
Qed.

Definition canon_post (ren : VarRenamer) (ts ts' : list tree) (ren' : VarRenamer) : Prop :=
  vr_inj ren' /\ vr_map ren ⊆ vr_map ren' /\
  (forall x, x ∈ ⋃ (map vars ts) -> is_Some (vr_map ren' !! x)) /\
  ts' = map (map_vars (idx_of (vr_map ren'))) ts.

Lemma canon_map t ren :
  vr_inj ren -> vars t ⊆ S -> canon_post ren [t] [fst (canon ren t)] (snd (canon ren t)).
Proof.
  revert ren. induction t as [c p x|c p ws|c p ts IH] using tree_ind'; intros ren Hi Hs.
  - cbn [canon]. cbn [vars] in Hs. pose proof (intern_spec ren x Hi ltac:(set_solver)) as H.
    destruct (intern ren x) as [i ren']. destruct H as (? & Hx & ?). simpl.
    split_and!; try done.
    + cbn [map vars]. intros y Hy. assert (y = x) as -> by set_solver. by exists i.
    + cbn [map map_vars]. unfold idx_of. by rewrite Hx.
  - cbn [canon fst snd]. split_and!; try done.
  - rewrite canon_node. cbn [fst snd].
    cut (canon_post ren ts (fst (canon_list ren ts)) (snd (canon_list ren ts))).
    { intros (? & ? & Hv & Hts). split_and!; try done.
      - cbn [map vars]. rewrite union_list_cons. intros x Hx. apply Hv. set_solver.
      - cbn [map map_vars]. by rewrite Hts. }
    cbn [vars] in Hs. revert ren Hi. induction IH as [|t ts Ht _ IHts]; intros ren Hi.
    { split_and!; done. }
    cbn [map] in Hs. rewrite union_list_cons in Hs.
    destruct (Ht ren Hi ltac:(set_solver)) as (Hi1 & Hs1 & Hv1 & E1).
    cbn [canon_list]. fold canon_list. destruct (canon ren t) as [t' ren1]. cbn [fst snd] in *.
    destruct (IHts ltac:(set_solver) ren1 Hi1) as (Hi2 & Hs2 & Hv2 & E2).
    destruct (canon_list ren1 ts) as [ts' ren2]. cbn [fst snd] in *.
    split_and!; try done.
    + by etrans.
    + cbn [map]. rewrite union_list_cons. cbn [map] in Hv1.
      intros x [Hx|Hx]%elem_of_union; [|auto].
      destruct (Hv1 x) as [v Hv]; [set_solver|]. exists v. by eapply lookup_weaken.
    + cbn [map] in *. rewrite E2. f_equal. injection E1 as ->. apply map_vars_ext.
      intros x Hx. symmetry. apply idx_of_sub; [done|]. apply Hv1. cbn [map]. set_solver.
Qed.

Lemma vr_inj_new : vr_inj VarRenamer_new.
Proof.
  split_and!; simpl; [by rewrite map_size_empty|rewrite dom_empty; set_solver| |].
  - intros k v. by rewrite lookup_empty.
  - intros k k' v. by rewrite lookup_empty.
Qed.

End Indices.

(** Fewer than [2^32] distinct variables. *)
Definition few_vars (t : tree) : Prop := Z.of_nat (size (vars t)) < 2 ^ 32.

(** The canonical tree as a renaming by the final index map. *)
Lemma canon_new t :
  few_vars t ->
  exists m : gmap Z Z, fst (canon VarRenamer_new t) = map_vars (idx_of m) t /\
    (forall x, x ∈ vars t -> exists v, m !! x = Some v /\ in_u 32 v) /\
    (forall k k' v, m !! k = Some v -> m !! k' = Some v -> k = k').
Proof.
  intros Hn. destruct (canon_map (vars t) Hn t VarRenamer_new (vr_inj_new _ Hn)) as (Hi & _ & Hv & E); [done|].
  set (ren := snd (canon VarRenamer_new t)) in *.
  pose proof (vr_inj_small _ Hn ren Hi) as Hsm. destruct Hi as (H0 & _ & Hb & Hinj).
  exists (vr_map ren). split_and!.
  - by injection E.
  - intros x Hx. destruct (Hv x) as [v Hvx]; [cbn [map]; set_solver|].
    exists v. split; [done|]. apply Hb in Hvx. unfold in_u. lia.
  - done.
Qed.

Lemma map_vars_id f t : (forall x, x ∈ vars t -> f x = x) -> map_vars f t = t.
Proof.
  induction t as [c p x|c p ws|c p ts IH] using tree_ind'; intros Hf; cbn [map_vars].
  - rewrite Hf; [done|set_solver].
  - done.
  - f_equal. cbn [vars] in Hf. induction IH as [|t ts Ht _ IHts]; [done|].
    cbn [map] in *. rewrite union_list_cons in Hf. f_equal.
    + apply Ht. intros. apply Hf. set_solver.
    + apply IHts. intros. apply Hf. set_solver.
Qed.

Lemma map_vars_compose f g t : map_vars f (map_vars g t) = map_vars (fun x => f (g x)) t.
Proof.
  induction t as [c p x|c p ws|c p ts IH] using tree_ind'; cbn [map_vars]; [done..|].
  f_equal. rewrite map_map. induction IH; cbn [map]; [done|]. by f_equal.
Qed.

Lemma vars_map f t y : y ∈ vars (map_vars f t) <-> exists x, x ∈ vars t /\ y = f x.
Proof.
  induction t as [c p x|c p ws|c p ts IH] using tree_ind'; cbn [map_vars vars].
  - set_solver.
  - set_solver.
  - rewrite map_map. induction IH as [|t ts Ht _ IHts]; cbn [map].
    + set_solver.
    + rewrite !union_list_cons, elem_of_union, Ht, IHts. set_solver.
Qed.

Lemma tree_ok_map f t :
  tree_ok t -> (forall x, x ∈ vars t -> in_u 32 (f x)) -> tree_ok (map_vars f t).
Proof.
  induction t as [c p x|c p ws|c p ts IH] using tree_ind'; cbn [map_vars]; intros Hok Hf.
  - destruct Hok as (? & ? & ?). split_and!; try done. apply Hf. set_solver.
  - done.
  - apply tree_ok_node in Hok as (? & ? & ? & Hts). apply tree_ok_node.
    rewrite length_map. split_and!; try done. cbn [vars] in Hf.
    apply Forall_map. clear H1. induction IH as [|t ts Ht _ IHts]; [done|].
    apply Forall_cons in Hts as [? ?]. cbn [map] in Hf. rewrite union_list_cons in Hf.
    constructor; [apply Ht; set_solver|apply IHts; set_solver].
Qed.

(** A left inverse of the index map. *)
Definition unidx (m : gmap Z Z) (i : Z) : Z :=
  match filter (fun kv => snd kv = i) (map_to_list m) with
  | (k, _) :: _ => k
  | [] => 0
  end.

Lemma unidx_idx m x v :
  (forall k k' v, m !! k = Some v -> m !! k' = Some v -> k = k') ->
  m !! x = Some v -> unidx m v = x.
Proof.
  intros Hinj Hx. unfold unidx.
  destruct (filter (fun kv => snd kv = v) (map_to_list m)) as [|[k w] l] eqn:E.
  - assert ((x, v) ∈ filter (fun kv => snd kv = v) (map_to_list m)) as Hin
      by (apply list_elem_of_filter; split; [done|by apply elem_of_map_to_list]).
    rewrite E in Hin. by apply not_elem_of_nil in Hin.
  - assert ((k, w) ∈ filter (fun kv => snd kv = v) (map_to_list m)) as Hin by (rewrite E; set_solver).
    apply list_elem_of_filter in Hin as [Hw Hin%elem_of_map_to_list]. simpl in Hw. subst w.
    by eapply Hinj.
Qed.

Lemma encode_alpha_sound t1 t2 : alpha_eq t1 t2 -> encode_tree t1 = encode_tree t2.
Proof.
  intros (f & Hf & ->). unfold encode_tree. f_equal. symmetry.
  apply (canon_sim f (vars t1) Hf); [|done].
  split; [done|]. intros x _. simpl. by rewrite !lookup_empty.
Qed.

Lemma encode_alpha_complete t1 t2 :
  tree_ok t1 -> tree_ok t2 ->
  few_vars t1 -> few_vars t2 ->
  encode_tree t1 = encode_tree t2 -> alpha_eq t1 t2.
Proof.
  intros H1 H2 N1 N2 E.
  destruct (canon_new t1 N1) as (m1 & C1 & V1 & I1).
  destruct (canon_new t2 N2) as (m2 & C2 & V2 & I2).
  unfold encode_tree in E. rewrite C1, C2 in E.
  assert (forall m x, (exists v, m !! x = Some v /\ in_u 32 v) -> in_u 32 (idx_of m x)) as Hidx.
  { intros m x (v & Hv & ?). unfold idx_of. by rewrite Hv. }
  apply ser_inj in E; [|by apply tree_ok_map; auto..].
  assert (forall x, x ∈ vars t2 -> unidx m2 (idx_of m2 x) = x) as Hinv.
  { intros x (v & Hv & _)%V2. unfold idx_of. rewrite Hv. by apply unidx_idx. }
  exists (fun x => unidx m2 (idx_of m1 x)). split.
  - assert (forall x, x ∈ vars t1 -> exists x', x' ∈ vars t2 /\ idx_of m1 x = idx_of m2 x') as Himg.
    { intros x Hx. assert (idx_of m1 x ∈ vars (map_vars (idx_of m2) t2)) as Hin.
      { rewrite <- E. apply vars_map. by exists x. }
      by apply vars_map. }
    intros x y Hx Hy Exy.
    destruct (Himg x Hx) as (x' & Hx' & Ex). destruct (Himg y Hy) as (y' & Hy' & Ey).
    rewrite Ex, Ey, !Hinv in Exy by done. subst y'. rewrite <- Ex in Ey.
    destruct (V1 x Hx) as (v & Hv & _), (V1 y Hy) as (w & Hw & _).
    unfold idx_of in Ey. rewrite Hv, Hw in Ey. simpl in Ey. subst w. by eapply I1.
  - rewrite <- (map_vars_compose (unidx m2) (idx_of m1)), E, map_vars_compose.
    symmetry. by apply map_vars_id.
Qed.

(** Decoding the canonical bytes of a tree yields the tree with its variables
    replaced by their first-occurrence indices. *)
Lemma decode_encode t :
  tree_ok t -> few_vars t ->
  decode (encode_tree t) = Some (fst (canon VarRenamer_new t)).
Proof.
  intros Hok Hn. apply decode_ser. destruct (canon_new t Hn) as (m & -> & Hv & _).
  apply tree_ok_map; [done|]. intros x (v & Hvx & ?)%Hv. unfold idx_of. by rewrite Hvx.
Qed.

Lemma flat_map_bytes ws : Forall is_byte (flat_map (le_bytes 4) ws).
Proof.
  induction ws as [|w ws IH]; cbn [flat_map]; [done|].
  apply Forall_app. split; [apply le_bytes_are_bytes|done].
Qed.

Lemma header_bytes tag c n p :
  in_u 8 tag -> in_u 8 c -> in_u 8 n -> Forall is_byte (header tag c n p).
Proof.
  intros. unfold header. apply Forall_app. split; [|apply le_bytes_are_bytes].
  repeat apply Forall_cons_2; done.
Qed.

(** The canonical encoding is a byte string. *)
Lemma ser_canon_bytes t ren : tree_ok t -> Forall is_byte (ser (fst (canon ren t))).
Proof.
  revert ren. induction t as [c p x|c p ws|c p ts IH] using tree_ind'; intros ren Hok.
  - destruct Hok as (? & _). cbn [canon]. destruct (intern ren x). unfold ser.
    cbn [fst recs flat_map ser_rec]. rewrite app_nil_r.
    apply Forall_app. split; [by apply header_bytes|apply le_bytes_are_bytes].
  - destruct Hok as (? & _ & _ & ?). unfold ser. cbn [canon fst recs flat_map ser_rec].
    rewrite app_nil_r. apply Forall_app. split; [|apply flat_map_bytes].
    apply header_bytes; [done|done|unfold in_u; lia].
  - apply tree_ok_node in Hok as (? & _ & ? & Hts). rewrite canon_node. cbn [fst].
    rewrite ser_node, canon_list_length. apply Forall_app.
    split; [|apply header_bytes; [done|done|unfold in_u; lia]].
    clear H0. revert ren. induction IH as [|t ts Ht _ IHts]; intros ren; [by cbn|].
    apply Forall_cons in Hts as [? ?]. rewrite canon_list_cons. cbn [fst ser_list flat_map].
    apply Forall_app. split; [by apply Ht|by apply IHts].
Qed.

End BcfTree.
