(* ===== verification/CanonicalHash.v ===== *)
(** The C reference of the canonical hash, [c-ref/canonical_hash.c].

    [zovia_canonical_hash] and everything it calls, with the allocator made
    explicit: the renamer, the output buffer and the slot table are the
    structures of [Renamer], [OutBuf] and [SlotTable] below, [encode] is the
    recursive walk.  [None] stands for undefined behaviour (an access outside
    an array) or for a recursion deeper than the fuel. *)

From S2P Require Import Prelude CHeap ProbeTable Renamer OutBuf BcfTree SipHash.
From Stdlib Require Import ZArith Lia.
From stdpp Require Import base numbers gmap list.
Import CHeap ProbeTable Renamer OutBuf BcfTree.
Open Scope Z_scope.

Module CanonicalHash.

(** [struct zovia_bcf_expr]; [args] is the array the pointer refers to. *)
Record zovia_bcf_expr := MkExpr { code : Z; vlen : Z; params : Z; args : list Z }.

Definition BCF_TYPE_MASK : Z := 0x07.
Definition BCF_OP_MASK : Z := 0xf8.
Definition BCF_BV : Z := 0x00.
Definition BCF_VAL : Z := 0x08.
Definition BCF_VAR : Z := 0x18.

Definition expr_arg_is_id (code : Z) : bool := negb (code =? Z.lor BCF_BV BCF_VAL).

Definition is_leaf (e : zovia_bcf_expr) : bool :=
  (vlen e =? 0) || negb (expr_arg_is_id (code e)).

Definition is_var (code : Z) : bool := Z.land code BCF_OP_MASK =? BCF_VAR.

(** * The slot table *)

Definition SLOT_EMPTY : Z := UINT32_MAX.
Definition SIZE_MAX : Z := 2 ^ 64 - 1.

Record slot_table := MkSlotTable {
  t_keys : list Z; t_vals : list Z; t_cap : Z; t_kptr : ptr; t_vptr : ptr }.

Section Ops.
Context (alloc_ok : nat -> bool) (uninit : Z).

(** The insertion loop of [slot_table_build]. *)
Fixpoint slot_fill (exprs : list zovia_bcf_expr) (i slot cap : Z) (keys vals : list Z)
    : option (list Z * list Z) :=
  match exprs with
  | [] => Some (keys, vals)
  | e :: exprs' =>
      match probe_until stop_empty (length keys) keys cap (mul_slot slot cap) with
      | None => None
      | Some j =>
          slot_fill exprs' (i + 1) (u32 (slot + (1 + vlen e))) cap
            (<[Z.to_nat j := slot]> keys) (<[Z.to_nat j := u32 i]> vals)
      end
  end.

Definition slot_table_build (exprs : list zovia_bcf_expr) (exprs_len : Z) (h : heap)
    : option (Z * slot_table * heap) :=
  match grow_cap 64 16 (u64 (exprs_len * 2 + 1)) with
  | None => None
  | Some cap =>
      let '(k, h) := malloc alloc_ok h in
      let '(v, h) := malloc alloc_ok h in
      match k, v with
      | Some _, Some _ =>
          match slot_fill (take (Z.to_nat exprs_len) exprs) 0 0 cap
                  (replicate (Z.to_nat cap) SLOT_EMPTY) (replicate (Z.to_nat cap) uninit) with
          | None => None
          | Some (keys, vals) => Some (0, MkSlotTable keys vals cap k v, h)
          end
      | _, _ => Some (-1, MkSlotTable [] [] cap k v, h)
      end
  end.

Definition slot_table_free (t : slot_table) (h : heap) : slot_table * heap :=
  let h := free (t_kptr t) h in
  let h := free (t_vptr t) h in
  (MkSlotTable [] [] (t_cap t) None None, h).

Definition slot_table_get (t : slot_table) (slot : Z) : option Z :=
  match probe_until (stop_key slot) (length (t_keys t)) (t_keys t) (t_cap t)
          (mul_slot slot (t_cap t)) with
  | None => None
  | Some j =>
      match t_keys t !! Z.to_nat j, t_vals t !! Z.to_nat j with
      | Some k, Some v => Some (if k =? SLOT_EMPTY then SIZE_MAX else v)
      | _, _ => None
      end
  end.

(** * The encoder *)

Definition set_oom (b : outbuf) : outbuf :=
  MkOutbuf (b_data b) (b_len b) (b_cap b) true (b_ptr b).

(** The four pushes every record starts with. *)
Definition push_header (tag : Z) (e : zovia_bcf_expr) (b : outbuf) (h : heap)
    : option (outbuf * heap) :=
  '(b, h) ← outbuf_push_u8 alloc_ok uninit b tag h;
  '(b, h) ← outbuf_push_u8 alloc_ok uninit b (code e) h;
  '(b, h) ← outbuf_push_u8 alloc_ok uninit b (vlen e) h;
  outbuf_push_u16_le alloc_ok uninit b (params e) h.

Fixpoint push_args (ws : list Z) (b : outbuf) (h : heap) : option (outbuf * heap) :=
  match ws with
  | [] => Some (b, h)
  | w :: ws => '(b, h) ← outbuf_push_u32_le alloc_ok uninit b w h; push_args ws b h
  end.

Definition walk := renamer -> outbuf -> heap -> option (renamer * outbuf * heap).

(** [for (i = 0; i < vlen; i++) { encode(args[i], ...); if (b->oom) return; }] *)
Fixpoint encode_args (encode : Z -> walk) (ids : list Z) (r : renamer) (b : outbuf) (h : heap)
    : option (bool * renamer * outbuf * heap) :=
  match ids with
  | [] => Some (true, r, b, h)
  | id :: ids =>
      '(r, b, h) ← encode id r b h;
      if b_oom b then Some (false, r, b, h) else encode_args encode ids r b h
  end.

Fixpoint encode (fuel : nat) (exprs : list zovia_bcf_expr) (st : slot_table) (id : Z) : walk :=
  fun r b h =>
  match fuel with
  | O => None
  | S fuel =>
      array_idx ← slot_table_get st id;
      if array_idx =? SIZE_MAX then Some (r, set_oom b, h)
      else
        e ← exprs !! Z.to_nat array_idx;
        if is_leaf e then
          if is_var (code e) then
            '(idx, r, h) ← renamer_intern alloc_ok uninit r id h;
            if idx =? RENAMER_EMPTY then Some (r, set_oom b, h)
            else
              '(b, h) ← push_header TAG_VAR e b h;
              '(b, h) ← outbuf_push_u32_le alloc_ok uninit b idx h;
              Some (r, b, h)
          else
            '(b, h) ← push_header TAG_LEAF_CONST e b h;
            '(b, h) ← push_args (take (Z.to_nat (vlen e)) (args e)) b h;
            Some (r, b, h)
        else
          '(go, r, b, h) ← encode_args (encode fuel exprs st)
                             (take (Z.to_nat (vlen e)) (args e)) r b h;
          if go : bool then '(b, h) ← push_header TAG_INTERNAL e b h; Some (r, b, h)
          else Some (r, b, h)
  end.

Definition zovia_canonical_hash (fuel : nat) (root : Z) (exprs : list zovia_bcf_expr)
    (exprs_len : Z) (h : heap) : option (Z * heap) :=
  let '(rc, r, h) := renamer_init alloc_ok uninit h in
  if negb (rc =? 0) then Some (0, h)
  else
    let '(rc, b, h) := outbuf_init alloc_ok uninit h in
    if negb (rc =? 0) then Some (0, snd (renamer_free r h))
    else
      '(rc, st, h) ← slot_table_build exprs exprs_len h;
      if negb (rc =? 0) then
        let h := snd (outbuf_free b h) in
        Some (0, snd (renamer_free r h))
      else
        '(r, b, h) ← encode fuel exprs st root r b h;
        let hash :=
          if b_oom b then 0
          else SipHash.siphash24 (take (Z.to_nat (b_len b)) (b_data b)) 0 0 in
        let h := snd (slot_table_free st h) in
        let h := snd (outbuf_free b h) in
        let h := snd (renamer_free r h) in
        Some (hash, h).

End Ops.

(** * Well-formed tables *)

Definition expr_ok (e : zovia_bcf_expr) : Prop :=
  in_u 8 (code e) /\ in_u 8 (vlen e) /\ in_u 16 (params e) /\
  Forall (in_u 32) (args e) /\ Z.of_nat (length (args e)) = vlen e.

#[export] Instance expr_ok_dec e : Decision (expr_ok e).
Proof. unfold expr_ok. apply _. Defined.

(** An expression takes one slot for its head and one for each argument. *)
Definition total_slots (exprs : list zovia_bcf_expr) : Z :=
  foldr (fun e n => 1 + vlen e + n) 0 exprs.

Definition table_ok (exprs : list zovia_bcf_expr) : Prop :=
  Forall expr_ok exprs /\ total_slots exprs < 2 ^ 32 - 1.

(** Slot offset of every expression, as a map to its position. *)
Fixpoint slots_from (slot i : Z) (exprs : list zovia_bcf_expr) (m : gmap Z Z) : gmap Z Z :=
  match exprs with
  | [] => m
  | e :: exprs => slots_from (slot + (1 + vlen e)) (i + 1) exprs (<[slot := i]> m)
  end.

Definition slot_map (exprs : list zovia_bcf_expr) : gmap Z Z := slots_from 0 0 exprs ∅.

Lemma total_slots_nonneg exprs : Forall expr_ok exprs -> 0 <= total_slots exprs.
Proof.
  induction 1 as [|e es He _ IH]; [done|]. simpl. destruct He as (_ & [? _] & _). lia.
Qed.

Lemma total_slots_len exprs :
  Forall expr_ok exprs -> Z.of_nat (length exprs) <= total_slots exprs.
Proof.
  induction 1 as [|e es He _ IH]; [done|]. simpl length. simpl total_slots.
  destruct He as (_ & [? _] & _). lia.
Qed.

(** The keys of the map are the slots, in range of the table. *)
Definition slots_inv (m : gmap Z Z) (slot i : Z) : Prop :=
  forall k v, m !! k = Some v -> 0 <= k < slot /\ 0 <= v < i.

Lemma slots_from_inv exprs slot i m :
  Forall expr_ok exprs -> 0 <= slot -> 0 <= i -> slots_inv m slot i ->
  slots_inv (slots_from slot i exprs m) (slot + total_slots exprs) (i + Z.of_nat (length exprs)).
Proof.
  intros He. revert slot i m. induction He as [|e es [_ [[Hv _] _]] He IH]; intros slot i m Hs Hi Hm.
  { simpl. by rewrite !Z.add_0_r. }
  cbn [slots_from total_slots foldr length]. fold (total_slots es).
  replace (slot + (1 + vlen e + total_slots es)) with (slot + (1 + vlen e) + total_slots es) by lia.
  replace (i + Z.of_nat (S (length es))) with (i + 1 + Z.of_nat (length es)) by lia.
  apply IH; [lia|lia|]. intros k v. destruct (decide (k = slot)) as [->|].
  - rewrite lookup_insert_eq. intros [= <-]. lia.
  - rewrite lookup_insert_ne by done. intros ?%Hm. lia.
Qed.

Lemma slot_map_range exprs k v :
  table_ok exprs -> slot_map exprs !! k = Some v ->
  0 <= k < 2 ^ 32 - 1 /\ 0 <= v < Z.of_nat (length exprs).
Proof.
  intros [He Ht] Hk. apply (slots_from_inv exprs 0 0 ∅ He) in Hk; [|done|done|].
  - assert (k < 2 ^ 32 - 1 \/ k >= 2 ^ 32 - 1) as [?|?] by lia; lia.
  - intros ? ?. by rewrite lookup_empty.
Qed.

(** * The slot table represents the slot map *)

Record st_rep (t : slot_table) (m : gmap Z Z) (k v : nat) : Prop := {
  st_table : table_rep (t_keys t) (t_vals t) m;
  st_cap : t_cap t = Z.of_nat (length (t_keys t));
  st_room : (size m < length (t_keys t))%nat;
  st_kptr : t_kptr t = Some k;
  st_vptr : t_vptr t = Some v }.

Lemma slot_table_get_spec t m k v slot :
  st_rep t m k v -> (forall s i, m !! s = Some i -> s <> SLOT_EMPTY) ->
  slot_table_get t slot = Some (default SIZE_MAX (m !! slot)).
Proof.
  intros [Ht Hc Hr _ _] Hne. unfold slot_table_get. rewrite Hc.
  destruct (search_total _ _ _ slot Ht Hr) as [j Hj]. unfold search in Hj. rewrite Hj.
  fold (search (t_keys t) slot) in Hj.
  destruct (search_stop _ _ _ (tr_cap _ _ _ Ht) Hj) as [Hjr Hstop].
  destruct (lookup_lt_is_Some_2 (t_vals t) (Z.to_nat j)) as [val Hval].
  { rewrite (tr_len _ _ _ Ht). lia. }
  destruct (decide (slot = SLOT_EMPTY)) as [->|Hs].
  - assert (t_keys t !! Z.to_nat j = Some SLOT_EMPTY) as -> by (destruct Hstop; done).
    rewrite Hval. simpl. destruct (m !! SLOT_EMPTY) eqn:E; [|done].
    by apply Hne in E.
  - destruct (search_lookup _ _ _ _ _ Ht Hs Hj) as [(Hk & w & -> & Hw)|[Hk ->]].
    + rewrite Hk, Hw. by rewrite (proj2 (Z.eqb_neq _ _) Hs).
    + by rewrite Hk, Hval.
Qed.

Lemma slot_fill_spec exprs i slot cap keys vals m :
  table_rep keys vals m -> cap = Z.of_nat (length keys) ->
  Forall expr_ok exprs -> 0 <= slot -> slot + total_slots exprs < 2 ^ 32 ->
  0 <= i -> i + Z.of_nat (length exprs) < 2 ^ 32 -> slots_inv m slot i ->
  (size m + length exprs < length keys)%nat ->
  exists keys' vals', slot_fill exprs i slot cap keys vals = Some (keys', vals') /\
    table_rep keys' vals' (slots_from slot i exprs m) /\ length keys' = length keys /\
    size (slots_from slot i exprs m) = (size m + length exprs)%nat.
Proof.
  revert i slot keys vals m.
  induction exprs as [|e es IH]; intros i slot keys vals m Ht Hcap He Hs Htot Hi Hib Hinv Hsz.
  { exists keys, vals. simpl. split_and!; [done..|lia]. }
  apply Forall_cons in He as [He Hes]. pose proof (total_slots_nonneg es Hes).
  destruct He as (_ & [Hv Hv'] & _).
  cbn [total_slots foldr] in Htot. fold (total_slots es) in Htot.
  cbn [slot_fill slots_from length] in *.
  assert (m !! slot = None) as Hm.
  { destruct (m !! slot) eqn:E; [|done]. apply Hinv in E. lia. }
  assert (slot <> UINT32_MAX) as Hne by (unfold UINT32_MAX; lia).
  rewrite Hcap, (probe_empty_search keys vals m) by done.
  destruct (search_total keys vals m slot Ht) as [j Hj]; [lia|].
  unfold search in Hj. rewrite Hj. fold (search keys slot) in Hj.
  rewrite (uwrap_small 32 (slot + (1 + vlen e))) by (unfold in_u; lia).
  rewrite (uwrap_small 32 i) by (unfold in_u; lia).
  pose proof (table_insert _ _ _ _ i _ Ht Hne Hm Hj) as Ht'.
  destruct (IH (i + 1) (slot + (1 + vlen e)) _ _ _ Ht') as (keys' & vals' & E & H1 & H2 & H3);
    rewrite ?length_insert; try done; try lia.
  - intros k v. destruct (decide (k = slot)) as [->|].
    + rewrite lookup_insert_eq. intros [= <-]. lia.
    + rewrite lookup_insert_ne by done. intros ?%Hinv. lia.
  - rewrite map_size_insert_None by done. lia.
  - rewrite length_insert in H2. rewrite map_size_insert_None in H3 by done.
    rewrite <- Hcap. exists keys', vals'. split_and!; [done..|]. lia.
Qed.

Lemma grow_cap_pow2 fuel nc need nc' :
  (exists p, 0 <= p /\ nc = 2 ^ p) -> need < 2 ^ 61 -> grow_cap fuel nc need = Some nc' ->
  exists p, 0 <= p /\ nc' = 2 ^ p.
Proof.
  revert nc. induction fuel as [|fuel IH]; intros nc Hp Hneed; [done|].
  cbn [grow_cap]. destruct (Z.ltb_spec nc need); [|by intros [= <-]].
  destruct Hp as (p & Hp & ->). intros E. apply IH in E; [done| |done].
  exists (p + 1). split; [lia|]. rewrite uwrap_small; [by rewrite Z.pow_add_r by lia|].
  pose proof (pow2_pos p Hp). unfold in_u. lia.
Qed.

(** * The tree an identifier stands for *)

(** The expression whose head is at a slot. *)
Definition expr_at (exprs : list zovia_bcf_expr) (id : Z) : option zovia_bcf_expr :=
  i ← slot_map exprs !! id; exprs !! Z.to_nat i.

(** Walk the table from a slot; [None] for a dangling slot or a walk deeper
    than the fuel. *)
Fixpoint tree_of (fuel : nat) (exprs : list zovia_bcf_expr) (id : Z) : option tree :=
  match fuel with
  | O => None
  | S fuel =>
      e ← expr_at exprs id;
      if is_leaf e then
        Some (if is_var (code e) then TVar (code e) (params e) id
              else TConst (code e) (params e) (args e))
      else ts ← mapM (tree_of fuel exprs) (args e); Some (TNode (code e) (params e) ts)
  end.

(** The number of bytes a walk can append, dangling arguments or not. *)
Fixpoint walk_len (fuel : nat) (exprs : list zovia_bcf_expr) (id : Z) : Z :=
  match fuel with
  | O => 0
  | S fuel =>
      match expr_at exprs id with
      | None => 0
      | Some e =>
          if is_leaf e then (if is_var (code e) then 9 else 5 + 4 * vlen e)
          else 5 + foldr (fun a n => walk_len fuel exprs a + n) 0 (args e)
      end
  end.

(** Arguments of internal nodes are slots that come before the node. *)
Fixpoint acyclic_from (slot : Z) (exprs : list zovia_bcf_expr) : Prop :=
  match exprs with
  | [] => True
  | e :: es =>
      (is_leaf e = true \/ Forall (fun a => a < slot) (args e)) /\
      acyclic_from (slot + (1 + vlen e)) es
  end.

Definition acyclic (exprs : list zovia_bcf_expr) : Prop := acyclic_from 0 exprs.

#[export] Instance acyclic_from_dec slot exprs : Decision (acyclic_from slot exprs).
Proof. revert slot. induction exprs; intros; simpl; apply _. Defined.

Lemma slots_from_lookup es slot i m s j :
  slots_from slot i es m !! s = Some j ->
  m !! s = Some j \/
  exists n e, es !! n = Some e /\ j = i + Z.of_nat n /\ s = slot + total_slots (take n es).
Proof.
  revert slot i m. induction es as [|e es IH]; intros slot i m; cbn [slots_from]; [auto|].
  intros [E|(n & e' & Hn & -> & ->)]%IH.
  - destruct (decide (s = slot)) as [->|Hs].
    + rewrite lookup_insert_eq in E. injection E as <-. right. exists 0%nat, e.
      split_and!; [done|lia|]. cbn [take total_slots foldr]. lia.
    + rewrite lookup_insert_ne in E by done. auto.
  - right. exists (S n), e'. split_and!; [done|lia|].
    cbn [take total_slots foldr]. fold (total_slots (take n es)). lia.
Qed.

Lemma acyclic_lookup es slot n e :
  acyclic_from slot es -> es !! n = Some e -> is_leaf e = false ->
  Forall (fun a => a < slot + total_slots (take n es)) (args e).
Proof.
  revert slot n. induction es as [|e' es IH]; intros slot n; [done|].
  intros [Ha Hes] Hn Hl. destruct n as [|n]; cbn [take total_slots foldr].
  - injection Hn as ->. rewrite Z.add_0_r. destruct Ha as [Ha|Ha]; [congruence|done].
  - fold (total_slots (take n es)).
    replace (slot + (1 + vlen e' + total_slots (take n es)))
      with (slot + (1 + vlen e') + total_slots (take n es)) by lia.
    by apply IH.
Qed.

Lemma expr_at_acyclic exprs id e :
  acyclic exprs -> expr_at exprs id = Some e -> is_leaf e = false ->
  Forall (fun a => a < id) (args e).
Proof.
  unfold expr_at. intros Ha He Hl. destruct (slot_map exprs !! id) as [i|] eqn:Ei; [|done].
  apply slots_from_lookup in Ei as [Ei|(n & e' & Hn & -> & ->)]; [by rewrite lookup_empty in Ei|].
  simpl in He. rewrite Z.add_0_l, Nat2Z.id, Hn in He. injection He as ->.
  by apply acyclic_lookup.
Qed.

Lemma expr_at_ok exprs id e : table_ok exprs -> expr_at exprs id = Some e -> expr_ok e.
Proof.
  unfold expr_at. intros [Hok _] He. destruct (slot_map exprs !! id) as [i|]; [|done].
  by eapply Forall_lookup_1.
Qed.

Lemma expr_at_dom exprs id e : expr_at exprs id = Some e -> id ∈ dom (slot_map exprs).
Proof.
  unfold expr_at. destruct (slot_map exprs !! id) eqn:E; [|done].
  intros _. apply elem_of_dom. by exists z.
Qed.

(** A variable leaf has no arguments. *)
Lemma leaf_var_vlen e : is_leaf e = true -> is_var (code e) = true -> vlen e = 0.
Proof.
  unfold is_leaf, is_var, expr_arg_is_id. destruct (Z.eqb_spec (vlen e) 0); [done|].
  simpl. destruct (Z.eqb_spec (code e) (Z.lor BCF_BV BCF_VAL)) as [->|]; done.
Qed.

Lemma walk_len_nonneg fuel exprs id : table_ok exprs -> 0 <= walk_len fuel exprs id.
Proof.
  intros Ht. revert id. induction fuel as [|fuel IH]; intros id; [done|]. cbn [walk_len].
  destruct (expr_at exprs id) as [e|] eqn:E; [|done].
  apply expr_at_ok in E as (_ & [? _] & _); [|done].
  destruct (is_leaf e); [destruct (is_var (code e)); lia|].
  assert (0 <= foldr (fun a n => walk_len fuel exprs a + n) 0 (args e)); [|lia].
  induction (args e) as [|a l IHl]; simpl; [done|]. specialize (IH a). lia.
Qed.

Lemma tree_of_vars fuel exprs id t :
  tree_of fuel exprs id = Some t -> vars t ⊆ dom (slot_map exprs).
Proof.
  revert id t. induction fuel as [|fuel IH]; intros id t; [done|]. cbn [tree_of].
  destruct (expr_at exprs id) as [e|] eqn:E; [|done]. cbn [mbind option_bind].
  destruct (is_leaf e).
  { intros [= <-]. apply expr_at_dom in E. destruct (is_var (code e)); simpl; set_solver. }
  destruct (mapM (tree_of fuel exprs) (args e)) as [ts|] eqn:Em; [|done].
  intros [= <-]. cbn [vars]. apply mapM_Some in Em.
  induction Em as [|a t l ts Ht _ IHl]; cbn [map]; [set_solver|].
  rewrite union_list_cons. apply IH in Ht. set_solver.
Qed.

(** A walk over a well-formed table appends exactly [walk_len] bytes. *)
Lemma walk_len_ser fuel exprs id t ren :
  table_ok exprs -> tree_of fuel exprs id = Some t ->
  Z.of_nat (length (ser (fst (canon ren t)))) = walk_len fuel exprs id.
Proof.
  intros Ht. revert id t ren. induction fuel as [|fuel IH]; intros id t ren; [done|].
  cbn [tree_of walk_len]. destruct (expr_at exprs id) as [e|] eqn:E; [|done].
  apply expr_at_ok in E as (_ & _ & _ & _ & Hlen); [|done]. cbn [mbind option_bind].
  destruct (is_leaf e).
  { intros [= <-]. destruct (is_var (code e)).
    - cbn [canon]. by destruct (intern ren id).
    - unfold ser. cbn [canon fst recs flat_map ser_rec].
      rewrite app_nil_r, length_app, <- Hlen.
      assert (length (flat_map (le_bytes 4) (args e)) = 4 * length (args e))%nat as ->.
      { clear. induction (args e) as [|w ws IHw]; [done|].
        cbn [flat_map length]. rewrite length_app, length_le_bytes, IHw. lia. }
      cbn [header length app]. rewrite length_le_bytes. lia. }
  destruct (mapM (tree_of fuel exprs) (args e)) as [ts|] eqn:Em; [|done]. intros [= <-].
  rewrite canon_node. cbn [fst]. rewrite ser_node, length_app.
  apply mapM_Some in Em.
  cut (Z.of_nat (length (ser_list (fst (canon_list ren ts))))
       = foldr (fun a n => walk_len fuel exprs a + n) 0 (args e)).
  { intros <-. cbn [header length app]. rewrite length_le_bytes. lia. }
  clear Hlen. revert ren. induction Em as [|a t l ts Ha _ IHl]; intros ren; [done|].
  rewrite canon_list_cons. cbn [fst ser_list flat_map foldr]. rewrite length_app.
  rewrite <- (IHl (snd (canon ren t))), <- (IH a t ren Ha). unfold ser_list. lia.
Qed.

Section Laws.
Context (alloc_ok : nat -> bool) (uninit : Z).

Definition alloc_failed : Prop := exists n, alloc_ok n = false.

Lemma slot_table_build_spec exprs n ps base h :
  table_ok exprs -> n = Z.of_nat (length exprs) -> owned ps base h ->
  exists rc t h', slot_table_build alloc_ok uninit exprs n h = Some (rc, t, h') /\
    ((rc = 0 /\ exists k v, st_rep t (slot_map exprs) k v /\ owned ([k; v] ++ ps) base h') \/
     (rc = -1 /\ owned (blocks (t_vptr t) ++ blocks (t_kptr t) ++ ps) base h' /\ alloc_failed /\
      (t_vptr t = None \/ t_kptr t = None))).
Proof.
  intros [He Htot] -> Ho. pose proof (total_slots_len exprs He) as Hlen.
  unfold slot_table_build. rewrite uwrap_small by (unfold in_u; lia).
  destruct (grow_cap_spec 64 16 (Z.of_nat (length exprs) * 2 + 1))
    as (cap & Ecap & Hc1 & Hc2); [lia|lia|change (2 ^ (Z.of_nat 64 - 1)) with (2 ^ 63); lia|lia|].
  rewrite Ecap. apply grow_cap_pow2 in Ecap as (p & Hp & Ep); [|by exists 4|lia].
  assert (pow2 cap) as Hpow.
  { exists p. split; [|done]. split; [done|]. apply Z.lt_succ_r.
    apply (Z.pow_lt_mono_r_iff 2); lia. }
  destruct (malloc alloc_ok h) as [nk h1] eqn:E1.
  destruct (malloc alloc_ok h1) as [nv h2] eqn:E2.
  destruct (owned_malloc _ _ _ _ _ _ Ho E1) as [O1 F1].
  destruct (owned_malloc _ _ _ _ _ _ O1 E2) as [O2 F2].
  destruct nk as [k|]; [destruct nv as [v|]|];
    [|do 3 eexists; split; [done|]; right; unfold alloc_failed; by auto..].
  rewrite take_ge by lia.
  destruct (slot_fill_spec exprs 0 0 cap (replicate (Z.to_nat cap) SLOT_EMPTY)
    (replicate (Z.to_nat cap) uninit) ∅) as (keys & vals & -> & Hr & Hl & Hs);
    rewrite ?length_replicate, ?map_size_empty; try done; try lia.
  - apply table_empty; [by rewrite Z2Nat.id by lia|apply length_replicate].
  - do 3 eexists. split; [done|]. left. split; [done|]. exists k, v. split.
    + rewrite length_replicate in Hl. rewrite map_size_empty in Hs. unfold slot_map.
      split; simpl; rewrite ?Hl; try done; lia.
    + eapply owned_perm; [|exact O2]. solve_Permutation.
Qed.

Lemma slot_table_free_spec t m k v ps base h :
  st_rep t m k v -> owned ([k; v] ++ ps) base h -> owned ps base (snd (slot_table_free t h)).
Proof.
  intros Hr Ho. unfold slot_table_free. rewrite (st_kptr _ _ _ _ Hr), (st_vptr _ _ _ _ Hr).
  apply (owned_free _ (Some v)), (owned_free _ (Some k)). done.
Qed.

(** * Pushing records *)

(** The buffer holds [bs], or it gave up because an allocation failed. *)
Definition buf_st (b : outbuf) (h : heap) (bs : list Z) (ps : list nat) (base : gset nat) : Prop :=
  (exists p, out_rep b bs p /\ owned (p :: ps) base h) \/
  (exists p, out_oom b p /\ owned (p :: ps) base h /\ alloc_failed).

Lemma buf_push b h bs xs ps base :
  buf_st b h bs ps base -> Z.of_nat (length (bs ++ xs)) < 2 ^ 61 ->
  exists b' h', outbuf_push alloc_ok uninit b xs h = Some (b', h') /\
    buf_st b' h' (bs ++ xs) ps base.
Proof.
  intros [(p & Hr & Ho)|(p & Hoom & Ho & Hf)] Hb.
  - destruct (outbuf_push_spec alloc_ok uninit b bs p xs ps base h Hr Hb Ho)
      as (b' & h' & E & [(p' & ? & ?)|(? & ? & ?)]);
      exists b', h'; (split; [done|]); [left|right]; eauto.
  - exists b, h. rewrite outbuf_push_oom by apply Hoom. split; [done|]. right. eauto.
Qed.

Lemma push_header_st tag e b h bs ps base :
  buf_st b h bs ps base -> Z.of_nat (length bs) + 5 < 2 ^ 61 ->
  exists b' h', push_header alloc_ok uninit tag e b h = Some (b', h') /\
    buf_st b' h' (bs ++ header tag (code e) (vlen e) (params e)) ps base.
Proof.
  intros Hs Hb. unfold push_header, outbuf_push_u8, header.
  destruct (buf_push b h bs [tag] ps base Hs) as (b1 & h1 & -> & H1); [rewrite length_app; simpl; lia|].
  cbn [mbind option_bind].
  destruct (buf_push b1 h1 _ [code e] ps base H1) as (b2 & h2 & -> & H2);
    [rewrite !length_app; simpl; lia|]. cbn [mbind option_bind].
  destruct (buf_push b2 h2 _ [vlen e] ps base H2) as (b3 & h3 & -> & H3);
    [rewrite !length_app; simpl; lia|]. cbn [mbind option_bind].
  rewrite push_u16_bytes.
  destruct (buf_push b3 h3 _ (le_bytes 2 (params e)) ps base H3) as (b4 & h4 & -> & H4);
    [rewrite !length_app, length_le_bytes; simpl; lia|].
  exists b4, h4. split; [done|]. by rewrite <- !app_assoc in H4.
Qed.

Lemma push_args_st ws b h bs ps base :
  buf_st b h bs ps base -> Z.of_nat (length bs) + 4 * Z.of_nat (length ws) < 2 ^ 61 ->
  exists b' h', push_args alloc_ok uninit ws b h = Some (b', h') /\
    buf_st b' h' (bs ++ flat_map (le_bytes 4) ws) ps base.
Proof.
  revert b h bs. induction ws as [|w ws IH]; intros b h bs Hs Hb.
  { exists b, h. cbn [flat_map]. by rewrite app_nil_r. }
  cbn [push_args flat_map]. rewrite push_u32_bytes. cbn [length] in Hb.
  destruct (buf_push b h bs (le_bytes 4 w) ps base Hs) as (b1 & h1 & -> & H1).
  { rewrite length_app, length_le_bytes. lia. }
  cbn [mbind option_bind].
  destruct (IH b1 h1 _ H1) as (b2 & h2 & -> & H2).
  { rewrite length_app, length_le_bytes. lia. }
  exists b2, h2. split; [done|]. by rewrite <- app_assoc in H2.
Qed.

(** * The walk *)

Section Walk.
Context (exprs : list zovia_bcf_expr) (Hok : table_ok exprs) (Hac : acyclic exprs).
Context (st : slot_table) (stk stv : nat) (Hst : st_rep st (slot_map exprs) stk stv).
Context (ps : list nat) (base : gset nat).

(** Renamer and buffer in agreement with the abstract renamer and the bytes
    written so far. *)
Definition walk_rep (ren : VarRenamer) (bs : list Z) (r : renamer) (b : outbuf) (h : heap) : Prop :=
  exists k v p, ren_rep r ren k v /\ out_rep b bs p /\ owned (p :: [k; v] ++ ps) base h.

(** The walk gave up with [oom] set; everything is still released later. *)
Definition walk_stop (r : renamer) (b : outbuf) (h : heap) : Prop :=
  exists ren k v p, ren_rep r ren k v /\ out_oom b p /\ owned (p :: [k; v] ++ ps) base h.

Definition walk_post (o : option (VarRenamer * list Z)) (r : renamer) (b : outbuf) (h : heap) : Prop :=
  match o with
  | Some (ren, bs) => walk_rep ren bs r b h \/ (walk_stop r b h /\ alloc_failed)
  | None => walk_stop r b h
  end.

(** What appending the tree does to the renamer and the bytes. *)
Definition emit (ren : VarRenamer) (bs : list Z) (t : tree) : VarRenamer * list Z :=
  (snd (canon ren t), bs ++ ser (fst (canon ren t))).

Definition known (ren : VarRenamer) : Prop := dom (vr_map ren) ⊆ dom (slot_map exprs).

Definition walk_ok (w : walk) (ot : option tree) (len : Z) : Prop :=
  forall ren bs r b h, walk_rep ren bs r b h -> known ren -> Z.of_nat (length bs) + len < 2 ^ 61 ->
  exists r' b' h', w r b h = Some (r', b', h') /\ walk_post (emit ren bs <$> ot) r' b' h'.

Lemma known_size ren : known ren -> Z.of_nat (size (vr_map ren)) < 2 ^ 32 - 1.
Proof.
  intros Hk%subseteq_size. rewrite !size_dom in Hk.
  destruct Hok as [He Ht]. pose proof (total_slots_len exprs He).
  assert (size (slot_map exprs) <= length exprs)%nat; [|lia].
  unfold slot_map. cut (forall es s i m, size (slots_from s i es m) <= size m + length es)%nat.
  { intros H'. specialize (H' exprs 0 0 ∅). rewrite map_size_empty in H'. lia. }
  clear. induction es as [|e es IH]; intros s i m; cbn [slots_from length]; [lia|].
  specialize (IH (s + (1 + vlen e)) (i + 1) (<[s := i]> m)).
  assert (size (<[s := i]> m) <= S (size m))%nat; [|lia].
  rewrite map_size_insert. destruct (m !! s); simpl; lia.
Qed.

Lemma walk_rep_buf ren bs r b h :
  walk_rep ren bs r b h -> exists k v, ren_rep r ren k v /\ buf_st b h bs ([k; v] ++ ps) base.
Proof. intros (k & v & p & Hr & Hb & Ho). exists k, v. split; [done|]. left. eauto. Qed.

Lemma buf_walk_post ren bs r b h k v :
  ren_rep r ren k v -> buf_st b h bs ([k; v] ++ ps) base -> walk_post (Some (ren, bs)) r b h.
Proof.
  intros Hr [(p & Hb & Ho)|(p & Hb & Ho & Hf)]; [left|right; split; [|done]].
  - by exists k, v, p.
  - by exists ren, k, v, p.
Qed.

Lemma walk_post_rep o r b h :
  walk_post o r b h -> b_oom b = false -> exists ren bs, o = Some (ren, bs) /\ walk_rep ren bs r b h.
Proof.
  destruct o as [[ren bs]|]; intros Hp Hb.
  - exists ren, bs. split; [done|]. destruct Hp as [?|[(? & ? & ? & ? & ? & [? _] & _) _]]; [done|congruence].
  - destruct Hp as (? & ? & ? & ? & ? & [? _] & _). congruence.
Qed.

Lemma walk_post_stop o r b h :
  walk_post o r b h -> b_oom b = true -> walk_stop r b h /\ (o = None \/ alloc_failed).
Proof.
  destruct o as [[ren bs]|]; intros Hp Hb; [|by auto].
  destruct Hp as [(k & v & p & _ & Hr & _)|[? ?]]; [|by auto].
  pose proof (or_oom _ _ _ Hr). congruence.
Qed.

(** The whole list of arguments. *)
Definition emit_list (ren : VarRenamer) (bs : list Z) (ts : list tree) : VarRenamer * list Z :=
  (snd (canon_list ren ts), bs ++ ser_list (fst (canon_list ren ts))).

Lemma known_emit fuel id t ren :
  known ren -> tree_of fuel exprs id = Some t -> known (snd (canon ren t)).
Proof.
  intros Hk Ht%tree_of_vars. pose proof (canon_dom t ren). unfold known in *. set_solver.
Qed.

Lemma encode_args_ok fuel (enc : Z -> walk) ids ren bs r b h :
  Forall (fun id => walk_ok (enc id) (tree_of fuel exprs id) (walk_len fuel exprs id)) ids ->
  walk_rep ren bs r b h -> known ren ->
  Z.of_nat (length bs) + foldr (fun a n => walk_len fuel exprs a + n) 0 ids < 2 ^ 61 ->
  exists go r' b' h', encode_args enc ids r b h = Some (go, r', b', h') /\
    match mapM (tree_of fuel exprs) ids with
    | Some ts =>
        (go = true /\ walk_rep (snd (canon_list ren ts)) (bs ++ ser_list (fst (canon_list ren ts))) r' b' h')
        \/ (go = false /\ walk_stop r' b' h' /\ alloc_failed)
    | None => go = false /\ walk_stop r' b' h'
    end.
Proof.
  intros Hall. revert ren bs r b h.
  induction Hall as [|id ids Hid _ IH]; intros ren bs r b h Hw Hk Hlen.
  { exists true, r, b, h. split; [done|]. left. split; [done|]. cbn. by rewrite app_nil_r. }
  cbn [foldr] in Hlen. cbn [encode_args].
  assert (0 <= foldr (fun a n => walk_len fuel exprs a + n) 0 ids) as Hnn.
  { clear -Hok. induction ids as [|a l IHl]; [done|]. cbn [foldr].
    pose proof (walk_len_nonneg fuel exprs a Hok). lia. }
  destruct (Hid ren bs r b h Hw Hk) as (r1 & b1 & h1 & -> & Hpost); [lia|].
  cbn [mbind option_bind]. destruct (b_oom b1) eqn:Eo.
  - destruct (walk_post_stop _ _ _ _ Hpost Eo) as [Hs Hf].
    exists false, r1, b1, h1. split; [done|]. cbn [mapM].
    destruct (tree_of fuel exprs id) as [t|]; [|done].
    destruct Hf as [Hf|Hf]; [done|]. cbn [mbind option_bind].
    destruct (mapM (tree_of fuel exprs) ids); cbn; by auto.
  - destruct (walk_post_rep _ _ _ _ Hpost Eo) as (ren1 & bs1 & Et & Hw1).
    destruct (tree_of fuel exprs id) as [t|] eqn:Ht; [|done].
    injection Et as <- <-. pose proof (walk_len_ser fuel exprs id t ren Hok Ht) as Hl.
    destruct (IH _ _ _ _ _ Hw1) as (go & r2 & b2 & h2 & E2 & H2).
    + by eapply known_emit.
    + rewrite length_app. lia.
    + exists go, r2, b2, h2. split; [done|]. cbn [mapM]. rewrite Ht. cbn [mbind option_bind].
      destruct (mapM (tree_of fuel exprs) ids) as [ts|]; [|done].
      cbn. fold canon_list. change (mret (t :: ts)) with (Some (t :: ts)).
      destruct H2 as [[-> H2]|H2]; [left|by right]. split; [done|].
      destruct (canon ren t) as [t' ren1] eqn:Ec. simpl in H2.
      destruct (canon_list ren1 ts). cbn in *. by rewrite <- app_assoc in H2.
Qed.

(** A variable leaf. *)
Lemma encode_var_ok id e :
  expr_at exprs id = Some e -> is_leaf e = true -> is_var (code e) = true ->
  walk_ok (fun r b h =>
    '(idx, r, h) ← renamer_intern alloc_ok uninit r id h;
    if idx =? RENAMER_EMPTY then Some (r, set_oom b, h)
    else
      '(b, h) ← push_header alloc_ok uninit TAG_VAR e b h;
      '(b, h) ← outbuf_push_u32_le alloc_ok uninit b idx h;
      Some (r, b, h)) (Some (TVar (code e) (params e) id)) 9.
Proof.
  intros He Hl Hv ren bs r b h (k & v & p & Hr & Hb & Ho) Hk Hlen.
  assert (id <> RENAMER_EMPTY) as Hne.
  { apply expr_at_dom, elem_of_dom in He as [i Hi]. apply slot_map_range in Hi; [|done].
    unfold RENAMER_EMPTY, UINT32_MAX. lia. }
  pose proof (known_size ren Hk) as Hsz.
  destruct (renamer_intern_spec alloc_ok uninit r ren k v id (p :: ps) base h Hr Hne Hsz)
    as (idx & r1 & h1 & -> & Hi).
  { eapply owned_perm; [|exact Ho]. solve_Permutation. }
  cbn [mbind option_bind].
  destruct Hi as [(-> & k' & v' & Hr1 & Ho1)|(-> & -> & Ho1 & Hf)].
  - pose proof (intern_small ren id (rr_vr _ _ _ _ Hr) Hsz) as Hsm.
    rewrite (proj2 (Z.eqb_neq _ _)) by (unfold RENAMER_EMPTY, UINT32_MAX; lia).
    assert (buf_st b h1 bs ([k'; v'] ++ ps) base) as Hb1.
    { left. exists p. split; [done|]. eapply owned_perm; [|exact Ho1]. solve_Permutation. }
    destruct (push_header_st TAG_VAR e _ _ _ _ _ Hb1) as (b2 & h2 & -> & H2); [lia|].
    cbn [mbind option_bind]. rewrite push_u32_bytes.
    destruct (buf_push _ _ _ (le_bytes 4 (fst (intern ren id))) _ _ H2) as (b3 & h3 & -> & H3).
    { unfold header. rewrite !length_app, !length_le_bytes. simpl. lia. }
    do 3 eexists. split; [done|]. unfold emit. cbn [fmap option_fmap option_map canon].
    destruct (intern ren id) as [i ren1]. apply (buf_walk_post _ _ _ _ _ k' v'); [done|].
    rewrite (leaf_var_vlen e Hl Hv), <- app_assoc in H3. unfold ser.
    cbn [fst recs flat_map ser_rec]. by rewrite app_nil_r.
  - rewrite Z.eqb_refl. do 3 eexists. split; [done|]. right. split; [|done].
    exists ren, k, v, p. split; [done|]. split.
    + split; [done|]. apply Hb.
    + eapply owned_perm; [|exact Ho1]. solve_Permutation.
Qed.

(** A constant leaf. *)
Lemma encode_const_ok e :
  expr_ok e ->
  walk_ok (fun r b h =>
    '(b, h) ← push_header alloc_ok uninit TAG_LEAF_CONST e b h;
    '(b, h) ← push_args alloc_ok uninit (take (Z.to_nat (vlen e)) (args e)) b h;
    Some (r, b, h)) (Some (TConst (code e) (params e) (args e))) (5 + 4 * vlen e).
Proof.
  intros (_ & _ & _ & _ & Hv) ren bs r b h Hw Hk Hlen.
  destruct (walk_rep_buf _ _ _ _ _ Hw) as (k & v & Hr & Hb).
  destruct (push_header_st TAG_LEAF_CONST e _ _ _ _ _ Hb) as (b2 & h2 & -> & H2); [lia|].
  cbn [mbind option_bind]. rewrite take_ge by lia.
  destruct (push_args_st (args e) _ _ _ _ _ H2) as (b3 & h3 & -> & H3).
  { unfold header. rewrite !length_app, !length_le_bytes. simpl. lia. }
  do 3 eexists. split; [done|]. apply (buf_walk_post _ _ _ _ _ k v); [done|].
  unfold ser. cbn [canon fst recs flat_map ser_rec].
  by rewrite app_nil_r, Hv, app_assoc.
Qed.

(** The recursive walk: for every allocator the C function appends exactly the
    canonical bytes of the tree, or stops with [oom] because an allocation
    failed; a dangling argument always ends in [oom].  [id < fuel] bounds the
    recursion, because arguments are slots below their node. *)
Lemma encode_ok fuel id :
  0 <= id < Z.of_nat fuel \/ (expr_at exprs id = None /\ fuel <> O) ->
  walk_ok (encode alloc_ok uninit fuel exprs st id)
    (tree_of fuel exprs id) (walk_len fuel exprs id).
Proof.
  revert id. induction fuel as [|fuel IH]; intros id Hid; [lia|].
  intros ren bs r b h Hw Hk. cbn [encode tree_of walk_len].
  rewrite (slot_table_get_spec st _ _ _ id Hst)
    by (intros ? ? ?%slot_map_range; [unfold SLOT_EMPTY, UINT32_MAX; lia|done]).
  cbn [mbind option_bind]. unfold expr_at.
  destruct (slot_map exprs !! id) as [i|] eqn:Ei; cbn [mbind option_bind].
  2:{ intros _. rewrite Z.eqb_refl. do 3 eexists. split; [done|].
      destruct Hw as (k & v & p & Hr & Hb & Ho). exists ren, k, v, p.
      split_and!; [done| |done]. split; [done|apply Hb]. }
  destruct (slot_map_range exprs id i Hok Ei) as [_ Hi].
  destruct (lookup_lt_is_Some_2 exprs (Z.to_nat i)) as [e He]; [lia|].
  assert (expr_at exprs id = Some e) as Hat by (unfold expr_at; by rewrite Ei).
  change (default SIZE_MAX (Some i)) with i. rewrite (proj2 (Z.eqb_neq i SIZE_MAX)).
  2:{ destruct Hok as [Hall Ht]. pose proof (total_slots_len exprs Hall). unfold SIZE_MAX. lia. }
  rewrite He. cbn [mbind option_bind]. pose proof (expr_at_ok _ _ _ Hok Hat) as Heok.
  destruct (is_leaf e) eqn:El; [destruct (is_var (code e)) eqn:Ev|]; intros Hlen.
  - by apply (encode_var_ok id e Hat El Ev).
  - by apply (encode_const_ok e Heok).
  - destruct Heok as (_ & _ & _ & Hargs & Hv). rewrite take_ge by lia.
    pose proof (expr_at_acyclic _ _ _ Hac Hat El) as Hlt.
    destruct (encode_args_ok fuel (encode alloc_ok uninit fuel exprs st) (args e) ren bs r b h)
      as (go & r1 & b1 & h1 & -> & H1); [|done|done|lia|].
    { apply Forall_forall. intros a Ha. apply IH. left.
      rewrite Forall_forall in Hargs, Hlt. specialize (Hlt a Ha). specialize (Hargs a Ha).
      unfold in_u in Hargs. destruct Hid as [?|[? _]]; [lia|congruence]. }
    cbn [mbind option_bind]. destruct (mapM (tree_of fuel exprs) (args e)) as [ts|] eqn:Em.
    2:{ destruct H1 as [-> Hs]. by do 3 eexists. }
    destruct H1 as [[-> Hw1]|(-> & Hs & Hf)]; [|do 3 eexists; split; [done|right; done]].
    destruct (walk_rep_buf _ _ _ _ _ Hw1) as (k & v & Hr & Hb).
    assert (tree_of (S fuel) exprs id = Some (TNode (code e) (params e) ts)) as Hto
      by (cbn [tree_of]; rewrite Hat; cbn [mbind option_bind]; by rewrite El, Em).
    pose proof (walk_len_ser (S fuel) exprs id _ ren Hok Hto) as Hwl.
    cbn [walk_len] in Hwl. rewrite Hat, El, canon_node in Hwl. cbn [fst] in Hwl.
    rewrite ser_node, length_app in Hwl.
    unfold header in Hwl. rewrite length_app, length_le_bytes in Hwl. cbn [length] in Hwl.
    destruct (push_header_st TAG_INTERNAL e _ _ _ _ _ Hb) as (b2 & h2 & -> & H2).
    { rewrite length_app. lia. }
    do 3 eexists. split; [done|]. unfold emit. cbn [fmap option_fmap option_map mbind option_bind].
    rewrite canon_node. apply (buf_walk_post _ _ _ _ _ k v); [done|]. cbn [fst].
    rewrite ser_node, app_assoc, canon_list_length. apply length_mapM in Em.
    by rewrite <- Em, Hv.
Qed.

End Walk.

(** * The whole function *)

(** The value [zovia_canonical_hash] should return: the digest of the canonical
    bytes of the tree, 0 for a reference to no expression. *)
Definition table_hash (fuel : nat) (exprs : list zovia_bcf_expr) (root : Z) : Z :=
  match tree_of fuel exprs root with
  | Some t => SipHash.siphash24 (encode_tree t) 0 0
  | None => 0
  end.

(** What is left when the function returns: no bad free, and at most one
    leaked block, which only an allocation failure can cause. *)
Definition tidy (base : gset nat) (h : heap) : Prop :=
  exists ls, owned ls base h /\ (length ls <= 1)%nat /\ (ls <> [] -> alloc_failed).

Lemma blocks_one (p q : ptr) : p = None \/ q = None -> (length (blocks p ++ blocks q ++ []) <= 1)%nat.
Proof. intros [->| ->]; [destruct q|destruct p]; simpl; lia. Qed.

Lemma tidy_nil base h : owned [] base h -> tidy base h.
Proof. intros. exists []. split_and!; [done|simpl; lia|done]. Qed.

Lemma expr_at_fuel exprs fuel root :
  table_ok exprs -> total_slots exprs < Z.of_nat fuel ->
  0 <= root < Z.of_nat fuel \/ (expr_at exprs root = None /\ fuel <> O).
Proof.
  intros Hok Hf. pose proof (total_slots_nonneg exprs (proj1 Hok)).
  destruct (expr_at exprs root) as [e|] eqn:E; [left|right; split; [done|lia]].
  apply expr_at_dom, elem_of_dom in E as [i Hi].
  apply (slots_from_inv exprs 0 0 ∅ (proj1 Hok)) in Hi; [lia|done|done|].
  intros ? ?. by rewrite lookup_empty.
Qed.

(** Running the walk and releasing everything. *)
Lemma hash_finish exprs fuel root st stk stv r b h k v p base :
  table_ok exprs -> acyclic exprs -> total_slots exprs < Z.of_nat fuel ->
  walk_len fuel exprs root < 2 ^ 61 -> st_rep st (slot_map exprs) stk stv ->
  ren_rep r VarRenamer_new k v -> out_rep b [] p ->
  owned (p :: [k; v] ++ [stk; stv]) base h ->
  exists r' b' h', encode alloc_ok uninit fuel exprs st root r b h = Some (r', b', h') /\
    owned [] base (snd (renamer_free r' (snd (outbuf_free b' (snd (slot_table_free st h')))))) /\
    (if b_oom b' then tree_of fuel exprs root = None \/ alloc_failed
     else exists t, tree_of fuel exprs root = Some t /\
            take (Z.to_nat (b_len b')) (b_data b') = encode_tree t).
Proof.
  intros Hok Hac Hf Hlen Hst Hr Hb Ho.
  pose proof (expr_at_fuel exprs fuel root Hok Hf) as Hroot.
  destruct (encode_ok exprs Hok Hac st stk stv Hst [stk; stv] base fuel root Hroot
    VarRenamer_new [] r b h) as (r' & b' & h' & E & Hpost).
  { by exists k, v, p. }
  { unfold known. simpl. rewrite dom_empty. set_solver. }
  { simpl. lia. }
  exists r', b', h'. split; [done|].
  assert (forall ren k v p, ren_rep r' ren k v -> b_ptr b' = Some p ->
    owned (p :: [k; v] ++ [stk; stv]) base h' ->
    owned [] base (snd (renamer_free r' (snd (outbuf_free b' (snd (slot_table_free st h'))))))) as Hfree.
  { intros ren' k' v' p' Hr' Hp' Ho'. eapply renamer_free_spec; [exact Hr'|].
    unfold outbuf_free. cbn [snd]. rewrite Hp'. apply (owned_free _ (Some p')).
    eapply slot_table_free_spec; [exact Hst|]. eapply owned_perm; [|exact Ho'].
    cbn [blocks]. solve_Permutation. }
  destruct (b_oom b') eqn:Eo.
  - destruct (walk_post_stop _ _ _ _ _ _ Hpost Eo) as [(ren' & k' & v' & p' & Hr' & [_ Hp'] & Ho') Hfail].
    split; [by eapply Hfree|]. destruct Hfail as [Hn|?]; [left|by right].
    by destruct (tree_of fuel exprs root).
  - destruct (walk_post_rep _ _ _ _ _ _ Hpost Eo) as (ren' & bs & Et & k' & v' & p' & Hr' & Hb' & Ho').
    split; [eapply Hfree; [done|apply Hb'|done]|].
    destruct (tree_of fuel exprs root) as [t|]; [|done]. exists t. split; [done|].
    injection Et as _ Ebs. unfold encode_tree. rewrite Ebs, (or_len _ _ _ Hb'), Nat2Z.id.
    apply Hb'.
Qed.

Lemma hash_ok exprs fuel root h :
  table_ok exprs -> acyclic exprs -> total_slots exprs < Z.of_nat fuel ->
  walk_len fuel exprs root < 2 ^ 61 -> heap_ok h ->
  exists res h',
    zovia_canonical_hash alloc_ok uninit fuel root exprs (Z.of_nat (length exprs)) h = Some (res, h') /\
    (res = table_hash fuel exprs root \/ (res = 0 /\ alloc_failed)) /\ tidy (h_live h) h'.
Proof.
  intros Hok Hac Hf Hlen Hh. unfold zovia_canonical_hash.
  assert (owned [] (h_live h) h) as Ho.
  { split_and!; [done|constructor|set_solver|set_solver|apply Hh]. }
  destruct (renamer_init alloc_ok uninit h) as [[rc r] h1] eqn:E1.
  destruct (renamer_init_spec _ _ _ _ _ _ _ _ Ho E1) as [(-> & k & v & Hr & O1)|(-> & O1 & Hfl)]; cbn.
  2:{ exists 0, h1. split_and!; [done|by right|]. eexists. split_and!; [exact O1| |done].
      unfold renamer_init in E1. do 2 (destruct (malloc _ _) as [[?|] ?]); simplify_eq;
        apply blocks_one; simpl; auto. }
  destruct (outbuf_init alloc_ok uninit h1) as [[rc b] h2] eqn:E2.
  destruct (outbuf_init_spec _ _ _ _ _ _ _ _ O1 E2) as [(-> & p & Hb & O2)|(-> & O2 & Hfl)]; cbn.
  2:{ do 2 eexists. split_and!; [done|by right|]. apply tidy_nil. by eapply renamer_free_spec. }
  destruct (slot_table_build_spec exprs _ _ _ _ Hok eq_refl O2)
    as (rc & st & h3 & -> & [(-> & stk & stv & Hst & O3)|(-> & O3 & Hfl & Hnone)]); cbn.
  - destruct (hash_finish exprs fuel root st stk stv r b h3 k v p (h_live h))
      as (r' & b' & h4 & -> & O4 & Hres); try done.
    { eapply owned_perm; [|exact O3]. solve_Permutation. }
    cbn. do 2 eexists. split; [done|]. split; [|by apply tidy_nil].
    unfold table_hash. destruct (b_oom b').
    + destruct Hres as [->|?]; [by left|by right].
    + destruct Hres as (t & -> & ->). by left.
  - do 2 eexists. split; [done|]. split; [by right|].
    exists (blocks (t_vptr st) ++ blocks (t_kptr st) ++ []).
    split_and!; [|by apply blocks_one|done].
    eapply renamer_free_spec; [exact Hr|]. rewrite (or_ptr _ _ _ Hb).
    apply (owned_free _ (Some p)). eapply owned_perm; [|exact O3].
    cbn [blocks]. rewrite app_nil_r. solve_Permutation.
Qed.

End Laws.

(** A process that starts with no live block. *)
Definition heap0 : heap := Heap 0 ∅ false.

Lemma heap0_ok : heap_ok heap0.
Proof. split; [intros n Hn; set_solver|done]. Qed.

(** A table of [code, params, args] triples; [vlen] is the number of arguments. *)
Definition mk (c p : Z) (a : list Z) : zovia_bcf_expr := MkExpr c (Z.of_nat (length a)) p a.

(** The expression table of the regression test
    [shift_constraint_kernel_layout_hash]. *)
Definition shift_exprs : list zovia_bcf_expr :=
  [mk 0x18 0x40 []; mk 0x38 0x1f00 [0]; mk 0x58 0x2040 [1]; mk 0x08 0x40 [0xff; 0];
   mk 0x08 0x20 [0xff]; mk 0x50 0x20 [1; 8]; mk 0x58 0x2040 [10]; mk 0x08 0x40 [0; 0];
   mk 0x00 0x40 [15; 13]; mk 0x08 0x40 [1; 0]; mk 0x08 0x20 [1]; mk 0x70 0x20 [10; 24];
   mk 0x58 0x2040 [26]; mk 0x08 0x40 [4; 0]; mk 0xb1 0 [29; 31]; mk 0x38 0x1f00 [18];
   mk 0x08 0x20 [15]; mk 0x61 0 [37; 39]; mk 0x01 0 [34; 41]].

(** [v0 + v1] and, behind some unused expressions, [v3 + v4]. *)
Definition sum_a : list zovia_bcf_expr := [mk 0x18 0 []; mk 0x18 0 []; mk 0 0 [0; 1]].
Definition sum_b : list zovia_bcf_expr :=
  [mk 0x08 0 [99]; mk 0x08 0 [99]; mk 0x18 0 []; mk 0x18 0 []; mk 0 0 [5; 4]].

(** Evaluate the hypotheses on a concrete table. *)
Ltac table_facts :=
  first [ by apply heap0_ok
        | match goal with |- table_ok _ => split; [apply (bool_decide_unpack _); by vm_compute|done] end
        | apply (bool_decide_unpack _); by vm_compute
        | by vm_compute ].

(** C1. Whatever requests the allocator refuses, the C function terminates
    without undefined behaviour (every access of the renamer, of the slot
    table and of the buffer is in bounds, every probe stops), and returns
    either the SipHash of the canonical bytes of the tree at [root] (0 when a
    reachable reference names no expression) or 0 after an allocation failure:
    never a wrong digest.  It never frees a block twice, and when it returns
    at most one block is leaked, which only an allocation failure can cause. *)
Theorem canonical_hash_robust alloc_ok uninit exprs fuel root h :
  table_ok exprs -> acyclic exprs -> total_slots exprs < Z.of_nat fuel ->
  walk_len fuel exprs root < 2 ^ 61 -> heap_ok h ->
  exists res h',
    zovia_canonical_hash alloc_ok uninit fuel root exprs (Z.of_nat (length exprs)) h = Some (res, h') /\
    (res = table_hash fuel exprs root \/ (res = 0 /\ alloc_failed alloc_ok)) /\
    h_badfree h' = false /\
    (exists leaked, h_live h' = h_live h ∪ list_to_set leaked /\ (length leaked <= 1)%nat /\
       (leaked <> [] -> alloc_failed alloc_ok)).
Proof.
  intros Hok Hac Hf Hw Hh. destruct (hash_ok alloc_ok uninit exprs fuel root h Hok Hac Hf Hw Hh)
    as (res & h' & E & Hres & ls & ((_ & Hbad) & _ & _ & Hlive & _) & Hlen & Hfail).
  exists res, h'. split_and!; [done..|]. by exists ls.
Qed.

Lemma canonical_hash_robust_witness :
  exists res h',
    zovia_canonical_hash (fun n => negb (n =? 3)%nat) 7 64 44 shift_exprs 19 heap0 = Some (res, h') /\
    (res = table_hash 64 shift_exprs 44 \/ (res = 0 /\ alloc_failed (fun n => negb (n =? 3)%nat))) /\
    h_badfree h' = false /\
    (exists leaked, h_live h' = h_live heap0 ∪ list_to_set leaked /\ (length leaked <= 1)%nat /\
       (leaked <> [] -> alloc_failed (fun n => negb (n =? 3)%nat))).
Proof.
  apply (canonical_hash_robust (fun n => negb (n =? 3)%nat) 7 shift_exprs 64 44 heap0); table_facts.
Defined.

(** When every allocation succeeds the function returns exactly the
    specified hash, and releases every block it allocated. *)
Theorem canonical_hash_correct uninit exprs fuel root h :
  table_ok exprs -> acyclic exprs -> total_slots exprs < Z.of_nat fuel ->
  walk_len fuel exprs root < 2 ^ 61 -> heap_ok h ->
  exists h',
    zovia_canonical_hash (fun _ => true) uninit fuel root exprs (Z.of_nat (length exprs)) h
      = Some (table_hash fuel exprs root, h') /\
    h_live h' = h_live h /\ h_badfree h' = false.
Proof.
  intros Hok Hac Hf Hw Hh.
  destruct (hash_ok (fun _ => true) uninit exprs fuel root h Hok Hac Hf Hw Hh)
    as (res & h' & E & [->|[_ [n Hn]]] & ls & ((_ & Hbad) & _ & _ & Hlive & _) & _ & Hfail); [|done].
  exists h'. split_and!; [done| |done]. rewrite Hlive.
  destruct ls as [|l ls]; [set_solver|]. by destruct Hfail.
Qed.

Lemma canonical_hash_correct_witness :
  exists h', zovia_canonical_hash (fun _ => true) 7 64 44 shift_exprs 19 heap0
      = Some (table_hash 64 shift_exprs 44, h') /\
    h_live h' = h_live heap0 /\ h_badfree h' = false.
Proof. apply (canonical_hash_correct 7 shift_exprs 64 44 heap0); table_facts. Defined.

(** The property [canonical_hash.h] promises: expressions of two tables
    that are equal up to a renaming of variables that keeps distinct
    variables distinct get the same hash, wherever they lie in their tables. *)
Theorem canonical_hash_alpha uninit exprs1 exprs2 fuel root1 root2 t1 t2 :
  table_ok exprs1 -> acyclic exprs1 -> total_slots exprs1 < Z.of_nat fuel ->
  walk_len fuel exprs1 root1 < 2 ^ 61 ->
  table_ok exprs2 -> acyclic exprs2 -> total_slots exprs2 < Z.of_nat fuel ->
  walk_len fuel exprs2 root2 < 2 ^ 61 ->
  tree_of fuel exprs1 root1 = Some t1 -> tree_of fuel exprs2 root2 = Some t2 -> alpha_eq t1 t2 ->
  exists res h1 h2,
    zovia_canonical_hash (fun _ => true) uninit fuel root1 exprs1 (Z.of_nat (length exprs1)) heap0
      = Some (res, h1) /\
    zovia_canonical_hash (fun _ => true) uninit fuel root2 exprs2 (Z.of_nat (length exprs2)) heap0
      = Some (res, h2).
Proof.
  intros Ho1 Ha1 Hf1 Hw1 Ho2 Ha2 Hf2 Hw2 E1 E2 Hal.
  destruct (hash_ok (fun _ => true) uninit _ _ _ _ Ho1 Ha1 Hf1 Hw1 heap0_ok)
    as (res1 & h1 & R1 & [->|[_ [n Hn]]] & _); [|done].
  destruct (hash_ok (fun _ => true) uninit _ _ _ _ Ho2 Ha2 Hf2 Hw2 heap0_ok)
    as (res2 & h2 & R2 & [->|[_ [n Hn]]] & _); [|done].
  do 3 eexists. split; [exact R1|]. rewrite R2. unfold table_hash.
  by rewrite E1, E2, (encode_alpha_sound t1 t2 Hal).
Qed.

Lemma sums_alpha : alpha_eq (TNode 0 0 [TVar 0x18 0 0; TVar 0x18 0 1])
                            (TNode 0 0 [TVar 0x18 0 5; TVar 0x18 0 4]).
Proof.
  exists (fun x => 5 - x). split; [intros; lia|done].
Qed.

Lemma canonical_hash_alpha_witness :
  exists res h1 h2,
    zovia_canonical_hash (fun _ => true) 7 20 2 sum_a 3 heap0 = Some (res, h1) /\
    zovia_canonical_hash (fun _ => true) 7 20 6 sum_b 5 heap0 = Some (res, h2).
Proof.
  apply (canonical_hash_alpha 7 sum_a sum_b 20 2 6
    (TNode 0 0 [TVar 0x18 0 0; TVar 0x18 0 1]) (TNode 0 0 [TVar 0x18 0 5; TVar 0x18 0 4]));
    first [by apply sums_alpha | table_facts].
Defined.

(** The regression value of the repository: on the expression table dumped
    from the kernel the C function returns 0x53bad2296570f686. *)
Theorem canonical_hash_regression :
  exists h', zovia_canonical_hash (fun _ => true) 0 20 44 shift_exprs 19 heap0
    = Some (0x53bad2296570f686, h').
Proof. eexists. vm_compute. reflexivity. Qed.

(** The error path of [renamer_init] leaks: when the first request
    succeeds and the second is refused, the function returns 0 and the first
    block is still live. *)
Theorem canonical_hash_leak exprs exprs_len root fuel uninit :
  exists h', zovia_canonical_hash (fun n => (n =? 0)%nat) uninit fuel root exprs exprs_len heap0
    = Some (0, h') /\ h_live h' = {[0%nat]}.
Proof. eexists. split; [reflexivity|]. set_solver. Qed.

End CanonicalHash.
