(* ===== verification/RustHash.v ===== *)
(** The canonical hash of the Rust verifier, [src/refinement/canonical_hash.rs],
    and its agreement with the C reference.

    [encode] and [hash_expr] are the Rust functions over a [HashMap] of slots;
    a failed lookup is the [panic!] of the source.  The SipHash of the
    [siphasher] crate is a parameter.  [cross_impl_agrees] is the property the
    header [c-ref/canonical_hash.h] asks for: byte-for-byte the same input to
    SipHash, and the same digest, on every input. *)

From S2P Require Import Prelude CHeap Renamer OutBuf BcfTree SipHash CanonicalHash.
From Stdlib Require Import ZArith Lia.
From stdpp Require Import base numbers gmap list.
Import CHeap Renamer BcfTree.
Open Scope Z_scope.

Module RustHash.

(** [refinement::bcf::BcfExpr] *)
Record BcfExpr := MkBcfExpr { code : Z; params : Z; args : list Z }.

(** The result of a Rust function: a value, a panic, or a recursion deeper than
    the fuel. *)
Inductive outcome (A : Type) : Type :=
| Done (a : A)
| Panic
| OutOfFuel.
Arguments Done {A} a.
Arguments Panic {A}.
Arguments OutOfFuel {A}.

#[export] Instance outcome_ret : MRet outcome := fun A a => Done a.
#[export] Instance outcome_bind : MBind outcome := fun A B f o =>
  match o with Done a => f a | Panic => Panic | OutOfFuel => OutOfFuel end.

Definition expr_arg_is_id (code : Z) : bool :=
  negb (code =? Z.lor CanonicalHash.BCF_BV CanonicalHash.BCF_VAL).

Definition is_leaf (e : BcfExpr) : bool :=
  (length (args e) =? 0)%nat || negb (expr_arg_is_id (code e)).

Definition is_var (code : Z) : bool :=
  Z.land code CanonicalHash.BCF_OP_MASK =? CanonicalHash.BCF_VAR.

(** The loop of [slot_index]; the slot counter is a [u32]. *)
Fixpoint slot_index_from (exprs : list BcfExpr) (i slot : Z) (m : gmap Z Z) : gmap Z Z :=
  match exprs with
  | [] => m
  | e :: exprs =>
      slot_index_from exprs (i + 1) (u32 (slot + (1 + u32 (Z.of_nat (length (args e))))))
        (<[slot := i]> m)
  end.

Definition slot_index (exprs : list BcfExpr) : gmap Z Z := slot_index_from exprs 0 0 ∅.

(** [buf.push(tag); buf.push(e.code); buf.push(e.args.len() as u8);
    buf.extend_from_slice(&e.params.to_le_bytes())] *)
Definition push_head (buf : list Z) (tag : Z) (e : BcfExpr) : list Z :=
  buf ++ [tag] ++ [code e] ++ [u8 (Z.of_nat (length (args e)))] ++ le_bytes 2 (params e).

Fixpoint push_words (buf : list Z) (ws : list Z) : list Z :=
  match ws with
  | [] => buf
  | w :: ws => push_words (buf ++ le_bytes 4 w) ws
  end.

Fixpoint encode_children (encode : Z -> VarRenamer -> list Z -> outcome (VarRenamer * list Z))
    (ids : list Z) (ren : VarRenamer) (buf : list Z) : outcome (VarRenamer * list Z) :=
  match ids with
  | [] => Done (ren, buf)
  | id :: ids => '(ren, buf) ← encode id ren buf; encode_children encode ids ren buf
  end.

Fixpoint encode (fuel : nat) (exprs : list BcfExpr) (slot_to_idx : gmap Z Z) (id : Z)
    (ren : VarRenamer) (buf : list Z) : outcome (VarRenamer * list Z) :=
  match fuel with
  | O => OutOfFuel
  | S fuel =>
      match slot_to_idx !! id with
      | None => Panic
      | Some array_idx =>
          match exprs !! Z.to_nat array_idx with
          | None => Panic
          | Some e =>
              if is_leaf e then
                if is_var (code e) then
                  let '(idx, ren) := intern ren id in
                  Done (ren, push_head buf TAG_VAR e ++ le_bytes 4 idx)
                else Done (ren, push_words (push_head buf TAG_LEAF_CONST e) (args e))
              else
                '(ren, buf) ← encode_children (encode fuel exprs slot_to_idx) (args e) ren buf;
                Done (ren, push_head buf TAG_INTERNAL e)
          end
      end
  end.

(** The bytes [hash_expr] hands to SipHash. *)
Definition hash_bytes (fuel : nat) (root : Z) (exprs : list BcfExpr) : outcome (list Z) :=
  '(_, buf) ← encode fuel exprs (slot_index exprs) root VarRenamer_new []; Done buf.

Definition hash_expr (SipHasher24 : list Z -> Z) (fuel : nat) (root : Z) (exprs : list BcfExpr)
    : outcome Z :=
  buf ← hash_bytes fuel root exprs; Done (SipHasher24 buf).

(** The table handed to C: [vlen] is the length of [args]. *)
Definition to_c (e : BcfExpr) : CanonicalHash.zovia_bcf_expr :=
  CanonicalHash.MkExpr (code e) (Z.of_nat (length (args e))) (params e) (args e).

(** * The Rust encoder on well-formed tables *)

Section Table.
Context (exprs : list BcfExpr).
Let cexprs := map to_c exprs.
Context (Hok : CanonicalHash.table_ok cexprs) (Hac : CanonicalHash.acyclic cexprs).

Lemma is_leaf_to_c e : CanonicalHash.is_leaf (to_c e) = is_leaf e.
Proof.
  unfold CanonicalHash.is_leaf, is_leaf, to_c. simpl. f_equal.
  by destruct (args e).
Qed.

Lemma slot_index_eq : slot_index exprs = CanonicalHash.slot_map cexprs.
Proof.
  unfold slot_index, CanonicalHash.slot_map. destruct Hok as [He Ht]. revert He Ht.
  cut (forall es i slot m, Forall CanonicalHash.expr_ok (map to_c es) -> 0 <= slot ->
    slot + CanonicalHash.total_slots (map to_c es) < 2 ^ 32 - 1 ->
    slot_index_from es i slot m = CanonicalHash.slots_from slot i (map to_c es) m).
  { intros Hc He Ht. apply Hc; [done|lia|done]. }
  clear. induction es as [|e es IH]; intros i slot m He Hs Ht; [done|].
  cbn [map] in *. apply Forall_cons in He as [(_ & Hv & _) He]. cbn in Hv.
  pose proof (CanonicalHash.total_slots_nonneg _ He).
  cbn [CanonicalHash.total_slots foldr] in Ht. fold (CanonicalHash.total_slots (map to_c es)) in Ht.
  cbn [slot_index_from CanonicalHash.slots_from CanonicalHash.vlen to_c] in *.
  rewrite (uwrap_small 32 (Z.of_nat (length (args e)))) by (unfold in_u in *; lia).
  rewrite uwrap_small by (unfold in_u in *; lia). apply IH; [done|lia|lia].
Qed.

Lemma push_words_eq buf ws : push_words buf ws = buf ++ flat_map (le_bytes 4) ws.
Proof.
  revert buf. induction ws as [|w ws IH]; intros buf; cbn [push_words flat_map].
  - by rewrite app_nil_r.
  - by rewrite IH, <- app_assoc.
Qed.

Lemma push_head_eq buf tag e :
  CanonicalHash.expr_ok (to_c e) ->
  push_head buf tag e = buf ++ header tag (code e) (Z.of_nat (length (args e))) (params e).
Proof.
  intros (_ & Hv & _). cbn in Hv. unfold push_head. by rewrite uwrap_small.
Qed.

Lemma expr_at_eq id :
  CanonicalHash.expr_at cexprs id =
  i ← CanonicalHash.slot_map cexprs !! id; to_c <$> (exprs !! Z.to_nat i).
Proof.
  unfold CanonicalHash.expr_at. destruct (CanonicalHash.slot_map cexprs !! id); [|done].
  cbn. unfold cexprs. apply list_lookup_fmap.
Qed.

(** The bytes and indices the Rust walk produces are those of the tree. *)
Definition emitted (ren : VarRenamer) (buf : list Z) (ot : option tree) : outcome (VarRenamer * list Z) :=
  match ot with
  | Some t => Done (snd (canon ren t), buf ++ ser (fst (canon ren t)))
  | None => Panic
  end.

Lemma encode_children_ok fuel enc ids ren buf :
  Forall (fun id => forall ren buf, enc id ren buf
    = emitted ren buf (CanonicalHash.tree_of fuel cexprs id)) ids ->
  encode_children enc ids ren buf =
  match mapM (CanonicalHash.tree_of fuel cexprs) ids with
  | Some ts => Done (snd (canon_list ren ts), buf ++ ser_list (fst (canon_list ren ts)))
  | None => Panic
  end.
Proof.
  intros Hall. revert ren buf. induction Hall as [|id ids Hid _ IH]; intros ren buf.
  { cbn. by rewrite app_nil_r. }
  cbn [encode_children mapM]. rewrite Hid.
  destruct (CanonicalHash.tree_of fuel cexprs id) as [t|]; [|done]. cbn [emitted mbind outcome_bind option_bind].
  rewrite IH. destruct (mapM (CanonicalHash.tree_of fuel cexprs) ids) as [ts|]; [|done].
  cbn [mbind option_bind mret option_ret]. rewrite canon_list_cons. cbn [fst snd ser_list flat_map].
  by rewrite <- app_assoc.
Qed.

Lemma encode_eq fuel id ren buf :
  0 <= id < Z.of_nat fuel \/ (CanonicalHash.expr_at cexprs id = None /\ fuel <> O) ->
  encode fuel exprs (slot_index exprs) id ren buf
  = emitted ren buf (CanonicalHash.tree_of fuel cexprs id).
Proof.
  revert id ren buf. induction fuel as [|fuel IH]; intros id ren buf Hid; [lia|].
  cbn [encode CanonicalHash.tree_of]. rewrite slot_index_eq.
  pose proof (expr_at_eq id) as Hat. rewrite Hat in *.
  destruct (CanonicalHash.slot_map cexprs !! id) as [i|]; [|done]. cbn [mbind option_bind] in *.
  destruct (exprs !! Z.to_nat i) as [e|]; [|done]. cbn [fmap option_fmap option_map mbind option_bind] in *.
  pose proof (CanonicalHash.expr_at_ok _ _ _ Hok Hat) as He.
  rewrite is_leaf_to_c. change (CanonicalHash.is_var (CanonicalHash.code (to_c e))) with (is_var (code e)).
  destruct (is_leaf e) eqn:El; [destruct (is_var (code e)) eqn:Ev|].
  - pose proof (CanonicalHash.leaf_var_vlen (to_c e)) as Hv. rewrite is_leaf_to_c in Hv.
    specialize (Hv El Ev). cbn in Hv. rewrite push_head_eq, Hv by done.
    cbn [emitted canon]. destruct (intern ren id) as [idx ren'].
    unfold ser. cbn [fst snd recs flat_map ser_rec]. by rewrite app_nil_r, <- app_assoc.
  - rewrite push_words_eq, push_head_eq by done. cbn [emitted canon fst snd].
    unfold ser. cbn [recs flat_map ser_rec]. by rewrite app_nil_r, <- app_assoc.
  - pose proof (CanonicalHash.expr_at_acyclic cexprs id (to_c e) Hac Hat) as Hlt.
    rewrite is_leaf_to_c in Hlt. specialize (Hlt El). cbn [CanonicalHash.args to_c] in *.
    rewrite <- slot_index_eq, (encode_children_ok fuel).
    + destruct (mapM (CanonicalHash.tree_of fuel cexprs) (args e)) as [ts|] eqn:Em; [|done].
      cbn [mbind outcome_bind option_bind emitted]. rewrite push_head_eq by done.
      rewrite canon_node. cbn [fst snd]. rewrite ser_node, canon_list_length, app_assoc.
      apply length_mapM in Em. by rewrite Em.
    + apply Forall_forall. intros a Ha ren' buf'. apply IH. left.
      destruct He as (_ & _ & _ & Hr & _). cbn in Hr. rewrite Forall_forall in Hr, Hlt.
      specialize (Hr a Ha). specialize (Hlt a Ha). unfold in_u in Hr.
      destruct Hid as [?|[? _]]; [lia|done].
Qed.

Lemma hash_bytes_eq fuel root :
  CanonicalHash.total_slots cexprs < Z.of_nat fuel ->
  hash_bytes fuel root exprs =
  match CanonicalHash.tree_of fuel cexprs root with
  | Some t => Done (encode_tree t)
  | None => Panic
  end.
Proof.
  intros Hf. unfold hash_bytes. rewrite encode_eq by by apply CanonicalHash.expr_at_fuel.
  by destruct (CanonicalHash.tree_of fuel cexprs root).
Qed.

End Table.

(** * Trees of a well-formed table *)

Lemma tree_of_ok fuel cexprs id t :
  CanonicalHash.table_ok cexprs -> CanonicalHash.tree_of fuel cexprs id = Some t -> tree_ok t.
Proof.
  intros Hok. revert id t. induction fuel as [|fuel IH]; intros id t; [done|].
  cbn [CanonicalHash.tree_of]. destruct (CanonicalHash.expr_at cexprs id) as [e|] eqn:E; [|done].
  pose proof (CanonicalHash.expr_at_ok _ _ _ Hok E) as (Hc & Hv & Hp & Ha & Hl).
  cbn [mbind option_bind]. destruct (CanonicalHash.is_leaf e).
  { intros [= <-]. destruct (CanonicalHash.is_var _); simpl.
    - split_and!; [done..|]. apply CanonicalHash.expr_at_dom, elem_of_dom in E as [i Hi].
      apply CanonicalHash.slot_map_range in Hi; [|done]. unfold in_u. lia.
    - unfold in_u in Hv. split_and!; [done..|lia]. }
  destruct (mapM _ _) as [ts|] eqn:Em; [|done]. intros [= <-]. apply tree_ok_node.
  pose proof (length_mapM _ _ _ Em). unfold in_u in Hv. split_and!; [done|done|lia|].
  apply mapM_Some in Em. clear -Em IH. induction Em; constructor; eauto.
Qed.

Lemma tree_of_few_vars fuel cexprs id t :
  CanonicalHash.table_ok cexprs -> CanonicalHash.tree_of fuel cexprs id = Some t -> few_vars t.
Proof.
  intros Hok Ht%CanonicalHash.tree_of_vars%subseteq_size. unfold few_vars.
  pose proof (CanonicalHash.known_size cexprs Hok) as Hs.
  specialize (Hs (MkVarRenamer (CanonicalHash.slot_map cexprs) 0) (reflexivity _)).
  simpl in Hs. rewrite size_dom in Ht. lia.
Qed.

(** An identifier the walk from [root] reaches. *)
Inductive reaches (cexprs : list CanonicalHash.zovia_bcf_expr) : Z -> Z -> Prop :=
| reaches_here id : reaches cexprs id id
| reaches_arg id e a x :
    CanonicalHash.expr_at cexprs id = Some e -> CanonicalHash.is_leaf e = false ->
    a ∈ CanonicalHash.args e -> reaches cexprs a x -> reaches cexprs id x.

(** The walk from an identifier fails exactly when it meets a dangling one. *)
Lemma tree_of_None fuel cexprs id :
  CanonicalHash.table_ok cexprs -> CanonicalHash.acyclic cexprs ->
  0 <= id < Z.of_nat fuel \/ (CanonicalHash.expr_at cexprs id = None /\ fuel <> O) ->
  CanonicalHash.tree_of fuel cexprs id = None <->
  exists x, reaches cexprs id x /\ CanonicalHash.expr_at cexprs x = None.
Proof.
  intros Hok Hac. revert id. induction fuel as [|fuel IH]; intros id Hid; [lia|].
  cbn [CanonicalHash.tree_of]. destruct (CanonicalHash.expr_at cexprs id) as [e|] eqn:E.
  2:{ split; [intros _; exists id; by split; [constructor|]|done]. }
  cbn [mbind option_bind]. destruct (CanonicalHash.is_leaf e) eqn:El.
  { split; [done|]. intros (x & Hr & Hx). inversion Hr; subst; [congruence|]. congruence. }
  pose proof (CanonicalHash.expr_at_acyclic _ _ _ Hac E El) as Hlt.
  pose proof (CanonicalHash.expr_at_ok _ _ _ Hok E) as (_ & _ & _ & Ha & _).
  rewrite Forall_forall in Hlt, Ha.
  assert (forall a, a ∈ CanonicalHash.args e -> 0 <= a < Z.of_nat fuel) as Hrange.
  { intros a Hin. specialize (Hlt a Hin). specialize (Ha a Hin). unfold in_u in Ha.
    destruct Hid as [?|[? _]]; [lia|done]. }
  destruct (mapM (CanonicalHash.tree_of fuel cexprs) (CanonicalHash.args e)) as [ts|] eqn:Em.
  - split; [done|]. intros (x & Hr & Hx). exfalso.
    inversion Hr as [|? e' a ? E' _ Hin Hr']; subst; [congruence|].
    rewrite E in E'. injection E' as <-.
    apply mapM_Some in Em. apply list_elem_of_lookup in Hin as [n Hn].
    destruct (Forall2_lookup_l _ _ _ _ _ Em Hn) as (t & _ & Ht).
    assert (CanonicalHash.tree_of fuel cexprs a = None); [|congruence].
    apply IH; [left; by eapply Hrange, list_elem_of_lookup_2|by exists x].
  - split; [intros _|done].
    assert (exists a, a ∈ CanonicalHash.args e /\ CanonicalHash.tree_of fuel cexprs a = None)
      as (a & Hin & Hn).
    { apply mapM_None_1 in Em. by apply Exists_exists in Em. }
    apply IH in Hn as (x & Hr & Hx); [|left; by apply Hrange].
    exists x. split; [|done]. by eapply reaches_arg.
Qed.

(** * Theorems *)

(** Well-formed input of [hash_expr]: at most 255 arguments per expression,
    references that point backwards, fewer than [2^32 - 1] slots. *)
Definition table_wf (exprs : list BcfExpr) (fuel : nat) (root : Z) : Prop :=
  CanonicalHash.table_ok (map to_c exprs) /\ CanonicalHash.acyclic (map to_c exprs) /\
  CanonicalHash.total_slots (map to_c exprs) < Z.of_nat fuel /\
  CanonicalHash.walk_len fuel (map to_c exprs) root < 2 ^ 61.

Definition rexpr (c p : Z) (a : list Z) : BcfExpr := MkBcfExpr c p a.

(** The table of the test [worked_example_byte_stream]: [add(v1, mul(v2, v1))]. *)
Definition worked_example : list BcfExpr :=
  replicate 7 (rexpr 0x08 0 [0]) ++
  [rexpr 0x18 0 []; rexpr 0x08 0 [0]; rexpr 0x18 0 []; rexpr 0x20 0 [17; 14]; rexpr 0x00 0 [14; 18]].

(** [add(a, b)] with the variables in the other order of slots. *)
Definition add_ab : list BcfExpr := [rexpr 0x18 0 []; rexpr 0x18 0 []; rexpr 0 0 [0; 1]].
Definition add_ba : list BcfExpr := [rexpr 0x18 0 []; rexpr 0x18 0 []; rexpr 0 0 [1; 0]].

Ltac wf_facts :=
  match goal with
  | |- table_wf _ _ _ => split_and!; [split; [apply (bool_decide_unpack _); by vm_compute|done]
                                     |apply (bool_decide_unpack _); by vm_compute|done..]
  | |- _ => first [done | by vm_compute]
  end.

Section Siphasher.
(** The [siphasher] crate: SipHash-2-4 with both keys zero. *)
Context (SipHasher24 : list Z -> Z).
Context (SipHasher24_spec : forall bs, Forall is_byte bs ->
  SipHasher24 bs = SipHash.siphash24_spec bs 0 0).

(** C2. Cross-implementation agreement, the test [cross_impl_agrees] for every well-formed table: with
    every allocation granted, where the Rust [hash_expr] returns a digest the C reference returns the
    same digest, and where Rust panics, on a reference to no expression, the C reference returns 0.
    (Not conversely: a digest may itself be 0.) *)
Theorem cross_impl_agrees exprs fuel root uninit :
  table_wf exprs fuel root ->
  exists res h',
    CanonicalHash.zovia_canonical_hash (fun _ => true) uninit fuel root (map to_c exprs)
      (Z.of_nat (length exprs)) CanonicalHash.heap0 = Some (res, h') /\
    match hash_expr SipHasher24 fuel root exprs with
    | Done digest => res = digest
    | Panic => res = 0
    | OutOfFuel => False
    end.
Proof.
  intros (Hok & Hac & Hf & Hw).
  destruct (CanonicalHash.hash_ok (fun _ => true) uninit _ _ _ _ Hok Hac Hf Hw CanonicalHash.heap0_ok)
    as (res & h' & E & [->|[_ [n Hn]]] & _); [|done].
  rewrite length_map in E. do 2 eexists. split; [exact E|].
  unfold hash_expr. rewrite hash_bytes_eq by done. unfold CanonicalHash.table_hash.
  destruct (CanonicalHash.tree_of fuel (map to_c exprs) root) as [t|] eqn:Et; [|done].
  assert (Forall is_byte (encode_tree t)) as Hb by (apply ser_canon_bytes; by eapply tree_of_ok).
  cbn [mbind outcome_bind]. by rewrite SipHasher24_spec, SipHash.siphash24_eq.
Qed.

End Siphasher.

Lemma cross_impl_agrees_witness :
  exists res h',
    CanonicalHash.zovia_canonical_hash (fun _ => true) 7 64 21 (map to_c worked_example)
      12 CanonicalHash.heap0 = Some (res, h') /\
    match hash_expr (fun bs => SipHash.siphash24_spec bs 0 0) 64 21 worked_example with
    | Done digest => res = digest
    | Panic => res = 0
    | OutOfFuel => False
    end.
Proof.
  apply (cross_impl_agrees (fun bs => SipHash.siphash24_spec bs 0 0) (fun _ _ => eq_refl)
    worked_example 64 21 7). wf_facts.
Defined.

(** C17. The bytes fed to SipHash identify an expression exactly up to the names
    of its variables: two expressions, of one table or of two, are encoded
    alike if and only if one is the other under a renaming that keeps
    distinct variables distinct.  Two expressions of different shape can
    therefore only meet by a collision of SipHash. *)
Theorem hash_bytes_alpha_iff exprs1 exprs2 fuel root1 root2 t1 t2 :
  table_wf exprs1 fuel root1 -> table_wf exprs2 fuel root2 ->
  CanonicalHash.tree_of fuel (map to_c exprs1) root1 = Some t1 ->
  CanonicalHash.tree_of fuel (map to_c exprs2) root2 = Some t2 ->
  hash_bytes fuel root1 exprs1 = hash_bytes fuel root2 exprs2 <-> alpha_eq t1 t2.
Proof.
  intros (O1 & A1 & F1 & _) (O2 & A2 & F2 & _) E1 E2. rewrite !hash_bytes_eq, E1, E2 by done. split.
  - intros [= E]. apply encode_alpha_complete; eauto using tree_of_ok, tree_of_few_vars.
  - intros H. by rewrite (encode_alpha_sound t1 t2 H).
Qed.

Lemma hash_bytes_alpha_iff_witness :
  hash_bytes 10 2 add_ab = hash_bytes 10 2 add_ba <->
  alpha_eq (TNode 0 0 [TVar 0x18 0 0; TVar 0x18 0 1]) (TNode 0 0 [TVar 0x18 0 1; TVar 0x18 0 0]).
Proof. apply (hash_bytes_alpha_iff add_ab add_ba 10 2 2); wf_facts. Defined.

(** The canonical bytes can be decoded: reading them back gives the tree of
    the expression with its variables replaced by their first-occurrence
    indices. *)
Theorem hash_bytes_decode exprs fuel root t :
  table_wf exprs fuel root ->
  CanonicalHash.tree_of fuel (map to_c exprs) root = Some t ->
  exists bs, hash_bytes fuel root exprs = Done bs /\
    decode bs = Some (fst (canon VarRenamer_new t)).
Proof.
  intros (Hok & Hac & Hf & _) E. rewrite hash_bytes_eq, E by done. eexists. split; [done|].
  apply decode_encode; [by eapply tree_of_ok|by eapply tree_of_few_vars].
Qed.

Lemma hash_bytes_decode_witness :
  exists bs, hash_bytes 64 21 worked_example = Done bs /\
    decode bs = Some (TNode 0 0 [TVar 0x18 0 0; TNode 0x20 0 [TVar 0x18 0 1; TVar 0x18 0 0]]).
Proof.
  apply (hash_bytes_decode worked_example 64 21
    (TNode 0 0 [TVar 0x18 0 14; TNode 0x20 0 [TVar 0x18 0 17; TVar 0x18 0 14]])); wf_facts.
Defined.

(** [hash_expr] terminates on a table whose references point backwards, and
    panics exactly when the walk from the root reaches a reference to no
    expression. *)
Theorem hash_expr_panics SipHasher24 exprs fuel root :
  table_wf exprs fuel root ->
  hash_expr SipHasher24 fuel root exprs <> OutOfFuel /\
  (hash_expr SipHasher24 fuel root exprs = Panic <->
   exists x, reaches (map to_c exprs) root x /\ CanonicalHash.expr_at (map to_c exprs) x = None).
Proof.
  intros (Hok & Hac & Hf & _). unfold hash_expr. rewrite hash_bytes_eq by done.
  rewrite <- (tree_of_None fuel) by (done || by apply CanonicalHash.expr_at_fuel).
  by destruct (CanonicalHash.tree_of fuel (map to_c exprs) root).
Qed.

Lemma hash_expr_panics_witness :
  hash_expr (fun _ => 0) 64 20 worked_example <> OutOfFuel /\
  (hash_expr (fun _ => 0) 64 20 worked_example = Panic <->
   exists x, reaches (map to_c worked_example) 20 x /\
     CanonicalHash.expr_at (map to_c worked_example) x = None).
Proof. apply (hash_expr_panics (fun _ => 0) worked_example 64 20). wf_facts. Defined.

(** The worked example of the format specification (section 3.3): the
    encoder emits these 37 bytes. *)
Theorem worked_example_byte_stream :
  hash_bytes 64 21 worked_example = Done
    [0x01; 0x18; 0x00; 0x00; 0x00; 0x00; 0x00; 0x00; 0x00;
     0x01; 0x18; 0x00; 0x00; 0x00; 0x01; 0x00; 0x00; 0x00;
     0x01; 0x18; 0x00; 0x00; 0x00; 0x00; 0x00; 0x00; 0x00;
     0x03; 0x20; 0x02; 0x00; 0x00; 0x03; 0x00; 0x02; 0x00; 0x00].
Proof. vm_compute. reflexivity. Qed.

End RustHash.
