(* ===== verification/HashTool.v ===== *)
(** The command-line tool around the C hash, [c-ref/canonical_hash_tool.c],
    and the way the Rust test drives it.

    Standard input is the list of bytes still to be read, the process ends
    with an exit code and the two output streams, the allocator is the oracle
    of [CHeap].  [tool_agrees] composes the Rust serializer
    [serialize_for_c_tool], the tool and [u64::from_str_radix] into one
    round trip; [tool_truncated] says that no truncated input is accepted. *)

From S2P Require Import Prelude CHeap SipHash BcfTree CanonicalHash RustHash.
From Stdlib Require Import ZArith Lia Ascii String.
From stdpp Require Import base numbers gmap strings pretty list.
Import CHeap RustHash.
Open Scope Z_scope.

Module HashTool.

(** * Reading from standard input *)

(** [fread(buf, 1, n, f)]: a short read consumes what is left. *)
Definition read_exact (f : list Z) (n : nat) : Z * list Z * list Z :=
  let got := take n f in
  ((if (length got =? n)%nat then 0 else -1), got, drop n f).

Definition read_u8 (f : list Z) : Z * Z * list Z :=
  let '(rc, b, f) := read_exact f 1 in (rc, nth 0 b 0, f).

Definition read_u16_le (f : list Z) : Z * Z * list Z :=
  let '(rc, b, f) := read_exact f 2 in
  if negb (rc =? 0) then (-1, 0, f)
  else (0, u16 (Z.lor (nth 0 b 0) (Z.shiftl (nth 1 b 0) 8)), f).

Definition read_u32_le (f : list Z) : Z * Z * list Z :=
  let '(rc, b, f) := read_exact f 4 in
  if negb (rc =? 0) then (-1, 0, f)
  else (0, Z.lor (Z.lor (Z.lor (nth 0 b 0) (u32 (Z.shiftl (nth 1 b 0) 8)))
                        (u32 (Z.shiftl (nth 2 b 0) 16))) (u32 (Z.shiftl (nth 3 b 0) 24)), f).

(** * The process *)

Definition newline : string := String (ascii_of_nat 10) "".

Record process := Process { exit_code : Z; stdout : string; stderr : string }.

Definition die (code : Z) (msg : string) : process := Process code "" (msg +:+ newline).

(** [%016llx] *)
Definition hex_digit (d : Z) : ascii :=
  match String.get (Z.to_nat d) "0123456789abcdef" with Some c => c | None => "0"%char end.

Fixpoint hex (n : nat) (v : Z) : list ascii :=
  match n with
  | O => []
  | S n => hex n (v / 16) ++ [hex_digit (v mod 16)]
  end.

Definition format_016llx (v : Z) : string := string_of_list_ascii (hex 16 v).

Section Tool.
Context (alloc_ok : nat -> bool) (uninit : Z).

(** The inner loop over the arguments; [inl k] is a short read at index [k]. *)
Fixpoint read_args (n : nat) (k : Z) (f : list Z) : Z + list Z * list Z :=
  match n with
  | O => inr ([], f)
  | S n =>
      let '(rc, a, f) := read_u32_le f in
      if negb (rc =? 0) then inl k
      else match read_args n (k + 1) f with
           | inl k => inl k
           | inr (rest, f) => inr (a :: rest, f)
           end
  end.

(** The loop that fills [exprs] and [arg_bufs]; an early return of [main] is
    [inl]. *)
Fixpoint read_exprs (n : nat) (i : Z) (f : list Z) (h : heap)
    : process * heap + list CanonicalHash.zovia_bcf_expr * list ptr * list Z * heap :=
  match n with
  | O => inr ([], [], f, h)
  | S n =>
      let '(rc1, c, f) := read_u8 f in
      let '(rc2, vlen, f) := if rc1 =? 0 then read_u8 f else (-1, 0, f) in
      let '(rc3, params, f) := if rc2 =? 0 then read_u16_le f else (-1, 0, f) in
      if negb (rc1 =? 0) || negb (rc2 =? 0) || negb (rc3 =? 0)
      then inl (die 1 ("read expr " +:+ pretty i +:+ " header: short read"), h)
      else
        let rest (args : list Z) (p : ptr) f h :=
          match read_exprs n (i + 1) f h with
          | inl e => inl e
          | inr (es, ps, f, h) => inr (CanonicalHash.MkExpr c vlen params args :: es, p :: ps, f, h)
          end in
        if vlen =? 0 then rest [] None f h
        else
          let '(p, h) := malloc alloc_ok h in
          match p with
          | None => inl (die 2 "oom", h)
          | Some _ =>
              match read_args (Z.to_nat vlen) 0 f with
              | inl k => inl (die 1 ("read expr " +:+ pretty i +:+ " arg " +:+ pretty k +:+ ": short read"), h)
              | inr (args, f) => rest args p f h
              end
          end
  end.

Definition free_all (ps : list ptr) (h : heap) : heap := foldl (fun h p => free p h) h ps.

(** [main]; [None] is undefined behaviour inside the hash or a recursion deeper
    than the fuel. *)
Definition main (fuel : nat) (stdin : list Z) (h : heap) : option (process * heap) :=
  let '(rc, expr_count, f) := read_u32_le stdin in
  if negb (rc =? 0) then Some (die 1 "read expr_count: short read", h)
  else
    let '(exprs_p, arg_bufs_p, h) :=
      if 0 <? expr_count
      then let '(e, h) := malloc alloc_ok h in let '(a, h) := malloc alloc_ok h in (e, a, h)
      else (None, None, h) in
    if (0 <? expr_count) && negb (bool_decide (is_Some exprs_p /\ is_Some arg_bufs_p))
    then Some (die 2 "oom", h)
    else
      match read_exprs (Z.to_nat expr_count) 0 f h with
      | inl ph => Some ph
      | inr (exprs, arg_bufs, f, h) =>
          let '(rc, root, f) := read_u32_le f in
          if negb (rc =? 0) then Some (die 1 "read root: short read", h)
          else
            '(digest, h) ← CanonicalHash.zovia_canonical_hash alloc_ok uninit fuel root exprs
                             expr_count h;
            let h := free_all arg_bufs h in
            let h := free arg_bufs_p h in
            let h := free exprs_p h in
            Some (Process 0 (format_016llx digest +:+ newline) "", h)
      end.

End Tool.

(** * The Rust side of the test *)

(** [serialize_for_c_tool] *)
Fixpoint serialize_exprs (exprs : list BcfExpr) : list Z :=
  match exprs with
  | [] => []
  | e :: exprs =>
      [code e] ++ [u8 (Z.of_nat (length (args e)))] ++ le_bytes 2 (params e) ++
      flat_map (le_bytes 4) (args e) ++ serialize_exprs exprs
  end.

Definition serialize_for_c_tool (root : Z) (exprs : list BcfExpr) : list Z :=
  le_bytes 4 (u32 (Z.of_nat (length exprs))) ++ serialize_exprs exprs ++ le_bytes 4 root.

(** [str::trim] on ASCII text. *)
Definition is_space (c : ascii) : bool :=
  let n := nat_of_ascii c in ((9 <=? n) && (n <=? 13) || (n =? 32))%nat.

Fixpoint trim_start (s : list ascii) : list ascii :=
  match s with
  | c :: s' => if is_space c then trim_start s' else s
  | [] => []
  end.

Definition trim (s : list ascii) : list ascii := reverse (trim_start (reverse (trim_start s))).

(** [char::to_digit(16)] *)
Definition to_digit (c : ascii) : option Z :=
  let n := Z.of_nat (nat_of_ascii c) in
  if (48 <=? n) && (n <=? 57) then Some (n - 48)
  else if (97 <=? n) && (n <=? 102) then Some (n - 87)
  else if (65 <=? n) && (n <=? 70) then Some (n - 55)
  else None.

(** [u64::from_str_radix(s, 16)]: an optional sign, at least one digit, no
    overflow. *)
Fixpoint digits_val (s : list ascii) (acc : Z) : option Z :=
  match s with
  | [] => Some acc
  | c :: s => d ← to_digit c;
              let acc := acc * 16 + d in
              if acc <? 2 ^ 64 then digits_val s acc else None
  end.

Definition from_str_radix (s : list ascii) : option Z :=
  match s with
  | [] => None
  | "+"%char :: s' => if decide (s' = []) then None else digits_val s' 0
  | _ => digits_val s 0
  end.

(** [run_c_tool]: [None] is the failed assertion on the exit status. *)
Definition run_c_tool (alloc_ok : nat -> bool) (uninit : Z) (fuel : nat) (root : Z)
    (exprs : list BcfExpr) : option Z :=
  '(p, _) ← main alloc_ok uninit fuel (serialize_for_c_tool root exprs) (Heap 0 ∅ false);
  if exit_code p =? 0 then from_str_radix (trim (list_ascii_of_string (stdout p))) else None.

(** * Words *)

Lemma u32_shift b k : is_byte b -> 0 <= k <= 24 -> u32 (Z.shiftl b k) = Z.shiftl b k.
Proof.
  intros [Hb1 Hb2] Hk. apply uwrap_small. unfold in_u. rewrite Z.shiftl_mul_pow2 by lia.
  assert (2 ^ k <= 2 ^ 24) by (apply Z.pow_le_mono_r; lia).
  pose proof (pow2_pos k). nia.
Qed.

Lemma read_u8_cons b f : read_u8 (b :: f) = (0, b, f).
Proof. done. Qed.

Lemma read_u16_bytes a b f :
  is_byte a -> is_byte b -> read_u16_le (a :: b :: f) = (0, le_val [a; b], f).
Proof.
  intros Ha Hb. unfold read_u16_le. cbn [read_exact take drop length Nat.eqb negb Z.eqb nth].
  rewrite <- SipHash.load_le_val by (repeat apply Forall_cons_2; done).
  cbn [SipHash.load_le]. rewrite Z.shiftl_0_l, Z.lor_0_r. rewrite uwrap_small; [done|].
  apply in_u_lor; [lia|by apply (in_u_mono 8); [lia|]|].
  unfold is_byte, in_u in *. rewrite Z.shiftl_mul_pow2 by lia. lia.
Qed.

Lemma read_u32_bytes a b c d f :
  is_byte a -> is_byte b -> is_byte c -> is_byte d ->
  read_u32_le (a :: b :: c :: d :: f) = (0, le_val [a; b; c; d], f).
Proof.
  intros Ha Hb Hc Hd. unfold read_u32_le. cbn [read_exact take drop length Nat.eqb negb Z.eqb nth].
  rewrite !u32_shift by (done || lia).
  rewrite <- SipHash.load_le_val by (repeat apply Forall_cons_2; done).
  cbn [SipHash.load_le]. rewrite ?Z.shiftl_lor, ?Z.shiftl_shiftl, ?Z.shiftl_0_l, ?Z.lor_0_r by lia.
  by rewrite !Z.lor_assoc.
Qed.

Lemma le_bytes_4 v f :
  exists a b c d, le_bytes 4 v ++ f = a :: b :: c :: d :: f /\ le_bytes 4 v = [a; b; c; d] /\
    is_byte a /\ is_byte b /\ is_byte c /\ is_byte d.
Proof.
  pose proof (le_bytes_are_bytes 4 v) as H. cbn [le_bytes] in *.
  apply Forall_cons in H as [? H]. apply Forall_cons in H as [? H].
  apply Forall_cons in H as [? H]. apply Forall_cons in H as [? H].
  do 4 eexists. split; [done|]. split_and!; done.
Qed.

Lemma read_u32_le_le v f : in_u 32 v -> read_u32_le (le_bytes 4 v ++ f) = (0, v, f).
Proof.
  intros Hv. destruct (le_bytes_4 v f) as (a & b & c & d & -> & E & ? & ? & ? & ?).
  rewrite read_u32_bytes, <- E, le_val_bytes_small by done. done.
Qed.

Lemma read_u16_le_le v f : in_u 16 v -> read_u16_le (le_bytes 2 v ++ f) = (0, v, f).
Proof.
  intros Hv. pose proof (le_bytes_are_bytes 2 v) as H. cbn [le_bytes app] in *.
  apply Forall_cons in H as [? H]. apply Forall_cons in H as [? _].
  rewrite read_u16_bytes by done.
  change [v mod 256; v / 256 mod 256] with (le_bytes 2 v). by rewrite le_val_bytes_small.
Qed.

(** A read that succeeds consumed the bytes of the value it returns. *)
Lemma read_u32_inv f v f' :
  Forall is_byte f -> read_u32_le f = (0, v, f') ->
  f = le_bytes 4 v ++ f' /\ in_u 32 v /\ Forall is_byte f'.
Proof.
  intros Hf E. destruct f as [|a [|b [|c [|d f]]]]; try done.
  repeat (apply Forall_cons in Hf as [? Hf]). rewrite read_u32_bytes in E by done.
  injection E as <- <-.
  assert (Forall is_byte [a; b; c; d]) as Hb by (repeat apply Forall_cons_2; done).
  split_and!; [|apply (le_val_range _ Hb)|done].
  change 4%nat with (length [a; b; c; d]). by rewrite le_bytes_val.
Qed.

Lemma read_u16_inv f v f' :
  Forall is_byte f -> read_u16_le f = (0, v, f') ->
  f = le_bytes 2 v ++ f' /\ in_u 16 v /\ Forall is_byte f'.
Proof.
  intros Hf E. destruct f as [|a [|b f]]; try done.
  repeat (apply Forall_cons in Hf as [? Hf]). rewrite read_u16_bytes in E by done.
  injection E as <- <-.
  assert (Forall is_byte [a; b]) as Hb by (repeat apply Forall_cons_2; done).
  split_and!; [|apply (le_val_range _ Hb)|done].
  change 2%nat with (length [a; b]). by rewrite le_bytes_val.
Qed.

Lemma read_rc f : (read_u32_le f).1.1 = 0 \/ (read_u32_le f).1.1 = -1.
Proof.
  unfold read_u32_le, read_exact. destruct (_ =? 4)%nat; simpl; auto.
Qed.

Lemma read_args_le ws k f :
  Forall (in_u 32) ws -> read_args (length ws) k (flat_map (le_bytes 4) ws ++ f) = inr (ws, f).
Proof.
  intros Hw. revert k. induction Hw as [|w ws Hw _ IH]; intros k; [done|].
  cbn [length read_args flat_map]. rewrite <- app_assoc, read_u32_le_le by done.
  cbn [negb Z.eqb]. by rewrite IH.
Qed.

Lemma read_args_inv n k f ws f' :
  Forall is_byte f -> read_args n k f = inr (ws, f') ->
  f = flat_map (le_bytes 4) ws ++ f' /\ length ws = n /\ Forall (in_u 32) ws /\ Forall is_byte f'.
Proof.
  revert k f ws. induction n as [|n IH]; intros k f ws Hf; cbn [read_args].
  { by intros [= <- <-]. }
  destruct (read_u32_le f) as [[rc a] f1] eqn:E.
  destruct (Z.eqb_spec rc 0) as [->|]; cbn [negb]; [|done].
  apply read_u32_inv in E as (-> & Ha & Hf1); [|done].
  destruct (read_args n (k + 1) f1) as [|[rest f2]] eqn:E1; [done|]. intros [= <- <-].
  apply IH in E1 as (-> & <- & Hr & Hf2); [|done].
  cbn [flat_map]. rewrite <- app_assoc. split_and!; [done|done|by constructor|done].
Qed.

(** * Reading what the serializer wrote *)

Section Reader.
Context (alloc_ok : nat -> bool).

Lemma read_exprs_ok es i rest h qs base :
  Forall CanonicalHash.expr_ok (map to_c es) -> owned qs base h ->
  (exists ps h', read_exprs alloc_ok (length es) i (serialize_exprs es ++ rest) h
     = inr (map to_c es, ps, rest, h') /\ owned (flat_map blocks ps ++ qs) base h') \/
  (exists h', read_exprs alloc_ok (length es) i (serialize_exprs es ++ rest) h
     = inl (die 2 "oom", h') /\ exists n, alloc_ok n = false).
Proof.
  revert i h qs. induction es as [|e es IH]; intros i h qs He Ho.
  { left. by exists [], h. }
  cbn [map] in He. apply Forall_cons in He as [(Hc & Hv & Hp & Ha & _) He].
  cbn [CanonicalHash.code CanonicalHash.vlen CanonicalHash.params CanonicalHash.args to_c] in *.
  cbn [length serialize_exprs app read_exprs]. rewrite read_u8_cons. cbn [Z.eqb].
  rewrite read_u8_cons. cbn [Z.eqb]. rewrite <- !app_assoc, read_u16_le_le by done.
  cbn [negb Z.eqb orb]. rewrite uwrap_small by done.
  destruct (Z.eqb_spec (Z.of_nat (length (args e))) 0) as [E0|E0].
  - assert (args e = []) as Eargs by (destruct (args e); [done|simpl in E0; lia]).
    rewrite Eargs. cbn [flat_map app length].
    destruct (IH (i + 1) h qs He Ho) as [(ps & h' & -> & Ho')|(h' & -> & Hf)].
    + left. exists (None :: ps), h'. split; [|done]. cbn [map]. unfold to_c. by rewrite Eargs.
    + right. by exists h'.
  - destruct (malloc alloc_ok h) as [p h1] eqn:Em.
    destruct (owned_malloc _ _ _ _ _ _ Ho Em) as [O1 F1].
    destruct p as [p|]; [|right; exists h1; split; [done|by apply F1]].
    rewrite Nat2Z.id, read_args_le by done.
    destruct (IH (i + 1) h1 _ He O1) as [(ps & h' & -> & Ho')|(h' & -> & Hf)].
    + left. exists (Some p :: ps), h'. split; [done|].
      eapply owned_perm; [|exact Ho']. cbn [flat_map blocks]. solve_Permutation.
    + right. by exists h'.
Qed.

(** Whatever was read is the serialization of some table. *)
Lemma read_exprs_inv n i f h es ps f' h' :
  Forall is_byte f -> read_exprs alloc_ok n i f h = inr (es, ps, f', h') ->
  exists rs, es = map to_c rs /\ length rs = n /\ f = serialize_exprs rs ++ f' /\
    Forall CanonicalHash.expr_ok es /\ Forall is_byte f'.
Proof.
  revert i f h es ps. induction n as [|n IH]; intros i f h es ps Hf; cbn [read_exprs].
  { intros [= <- _ <- _]. by exists []. }
  destruct f as [|c [|v f]]; [done..|].
  apply Forall_cons in Hf as [Hc Hf]. apply Forall_cons in Hf as [Hv Hf].
  rewrite read_u8_cons. cbn [Z.eqb]. rewrite read_u8_cons. cbn [Z.eqb].
  destruct (read_u16_le f) as [[rc pr] f1] eqn:E3.
  destruct (Z.eqb_spec rc 0) as [->|]; cbn [negb orb Z.eqb]; [|done].
  apply read_u16_inv in E3 as (-> & Hp & Hf1); [|done].
  assert (forall args p f2 h2, in_u 8 (Z.of_nat (length args)) -> v = Z.of_nat (length args) ->
    f1 = flat_map (le_bytes 4) args ++ f2 -> Forall (in_u 32) args -> Forall is_byte f2 ->
    match read_exprs alloc_ok n (i + 1) f2 h2 with
    | inl e => inl e
    | inr (es0, ps0, f0, h0) => inr (CanonicalHash.MkExpr c v pr args :: es0, p :: ps0, f0, h0)
    end = inr (es, ps, f', h') ->
    exists rs, es = map to_c rs /\ length rs = S n /\
      c :: v :: le_bytes 2 pr ++ f1 = serialize_exprs rs ++ f' /\
      Forall CanonicalHash.expr_ok es /\ Forall is_byte f') as Hrest.
  { intros ags p f2 h2 Hl -> -> Hags Hf2 E.
    destruct (read_exprs alloc_ok n (i + 1) f2 h2) as [|[[[es0 ps0] f0] h0]] eqn:E2; [done|].
    injection E as <- <- -> ->. apply IH in E2 as (rs & -> & <- & -> & Hes & Hf'); [|done].
    exists (MkBcfExpr c pr ags :: rs). cbn [map length serialize_exprs].
    split_and!; [done|done| |by constructor|done].
    cbn [code params args app]. rewrite uwrap_small by done. by rewrite <- !app_assoc. }
  destruct (Z.eqb_spec v 0) as [->|Hv0].
  { intros E. by apply (Hrest [] _ _ _ Hv eq_refl eq_refl) in E. }
  destruct (malloc alloc_ok h) as [[p|] h2]; [|done].
  destruct (read_args (Z.to_nat v) 0 f1) as [|[ags f2]] eqn:Ea; [done|].
  apply read_args_inv in Ea as (-> & Hl & Hags & Hf2); [|done]. intros E.
  assert (v = Z.of_nat (length ags)) as Ev by (unfold is_byte, in_u in Hv; lia).
  eapply (Hrest ags); try done. by rewrite <- Ev.
Qed.

Lemma free_all_ok ps qs base h :
  owned (flat_map blocks ps ++ qs) base h -> owned qs base (free_all ps h).
Proof.
  revert h. induction ps as [|p ps IH]; intros h Ho; [done|]. cbn [free_all foldl].
  apply IH, owned_free. cbn [flat_map] in Ho. by rewrite <- app_assoc in Ho.
Qed.

End Reader.

(** * Hexadecimal digits *)

Lemma to_digit_hex d : 0 <= d < 16 -> to_digit (hex_digit d) = Some d.
Proof.
  intros Hd. assert (Z.of_nat (Z.to_nat d) = d) as <- by lia.
  assert (Z.to_nat d < 16)%nat as Hn by lia. clear Hd. set (n := Z.to_nat d) in *. clearbody n.
  do 16 (destruct n as [|n]; [vm_compute; reflexivity|]). lia.
Qed.

Lemma hex_length n v : length (hex n v) = n.
Proof. revert v. induction n as [|n IH]; intros v; [done|]. cbn [hex]. rewrite length_app, IH. simpl. lia. Qed.

(** Parsing the printed digits gives the value back, as long as it fits. *)
Lemma digits_val_hex n v acc s :
  0 <= v < 16 ^ Z.of_nat n -> 0 <= acc -> (acc + 1) * 16 ^ Z.of_nat n <= 2 ^ 64 ->
  digits_val (hex n v ++ s) acc = digits_val s (acc * 16 ^ Z.of_nat n + v).
Proof.
  revert v acc s. induction n as [|n IH]; intros v acc s Hv Hacc Hb.
  { cbn [hex app]. f_equal. change (16 ^ Z.of_nat 0) with 1 in *. lia. }
  rewrite Nat2Z.inj_succ, Z.pow_succ_r in * by lia.
  assert (0 < 16 ^ Z.of_nat n) by (apply Z.pow_pos_nonneg; lia).
  cbn [hex]. rewrite <- app_assoc. rewrite IH; [|split; [apply Z.div_pos|apply Z.div_lt_upper_bound]; lia|done|nia].
  cbn [app digits_val]. rewrite to_digit_hex by (apply Z.mod_pos_bound; lia).
  cbn [mbind option_bind].
  pose proof (Z.div_mod v 16 ltac:(lia)).
  replace ((acc * 16 ^ Z.of_nat n + v / 16) * 16 + v mod 16)
    with (acc * (16 * 16 ^ Z.of_nat n) + v) by lia.
  rewrite (proj2 (Z.ltb_lt _ _)) by lia. done.
Qed.

Lemma hex_digit_plain d :
  0 <= d < 16 -> is_space (hex_digit d) = false /\ hex_digit d <> "+"%char.
Proof.
  intros Hd. unfold hex_digit. assert (Z.to_nat d < 16)%nat as Hn by lia.
  set (m := Z.to_nat d) in *. clearbody m. clear Hd.
  do 16 (destruct m as [|m]; [by vm_compute|]). lia.
Qed.

Lemma hex_not_space n v c : c ∈ hex n v -> is_space c = false /\ c <> "+"%char.
Proof.
  revert v. induction n as [|n IH]; intros v; cbn [hex]; [by intros ?%not_elem_of_nil|].
  intros [Hc|Hc]%elem_of_app; [by eapply IH|]. apply list_elem_of_singleton in Hc as ->.
  apply hex_digit_plain, Z.mod_pos_bound. lia.
Qed.

Lemma trim_start_id s : (forall c, c ∈ s -> is_space c = false) -> trim_start s = s.
Proof. destruct s as [|c s]; [done|]. intros H. cbn. rewrite H; [done|set_solver]. Qed.

Lemma trim_line l :
  l <> [] -> (forall c, c ∈ l -> is_space c = false) -> trim (l ++ [ascii_of_nat 10]) = l.
Proof.
  intros Hne Hs. unfold trim.
  assert (trim_start (l ++ [ascii_of_nat 10]) = l ++ [ascii_of_nat 10]) as ->.
  { destruct l as [|c l]; [done|]. cbn [app trim_start]. rewrite Hs; [done|set_solver]. }
  rewrite reverse_snoc. cbn [trim_start]. change (is_space (ascii_of_nat 10)) with true. cbn iota.
  rewrite trim_start_id, reverse_involutive; [done|].
  intros c Hc. apply Hs. revert Hc. by rewrite elem_of_reverse.
Qed.

Lemma from_str_radix_digits s :
  s <> [] -> (forall c, c ∈ s -> c <> "+"%char) -> from_str_radix s = digits_val s 0.
Proof.
  destruct s as [|c s]; [done|]. intros _ H. assert (c <> "+"%char) by (apply H; set_solver).
  unfold from_str_radix. destruct c as [[] [] [] [] [] [] [] []]; done.
Qed.

(** [from_str_radix(stdout.trim(), 16)] undoes [printf("%016llx\n")]. *)
Lemma parse_digest v :
  in_u 64 v -> from_str_radix (trim (list_ascii_of_string (format_016llx v +:+ newline))) = Some v.
Proof.
  intros Hv. assert (list_ascii_of_string (format_016llx v +:+ newline)
    = hex 16 v ++ [ascii_of_nat 10]) as ->.
  { unfold format_016llx. generalize (hex 16 v). intros l. induction l as [|c l IH]; [done|].
    trans (c :: list_ascii_of_string (string_of_list_ascii l +:+ newline)); [done|by rewrite IH]. }
  assert (hex 16 v <> []) as Hne by (intros E; by pose proof (hex_length 16 v) as Hl; rewrite E in Hl).
  rewrite trim_line by (done || intros; by eapply hex_not_space).
  rewrite from_str_radix_digits by (done || intros; by eapply hex_not_space).
  rewrite <- (app_nil_r (hex 16 v)).
  rewrite digits_val_hex by (change (16 ^ Z.of_nat 16) with (2 ^ 64); unfold in_u in Hv; lia).
  done.
Qed.

(** * Serializations are self-delimiting *)

Lemma read_exprs_inl alloc_ok n i f h p h' :
  read_exprs alloc_ok n i f h = inl (p, h') -> exit_code p <> 0.
Proof.
  revert i f h. induction n as [|n IH]; intros i f h; cbn [read_exprs]; [done|].
  destruct (read_u8 f) as [[rc1 c] f1].
  destruct (if rc1 =? 0 then read_u8 f1 else _) as [[rc2 v] f2].
  destruct (if rc2 =? 0 then read_u16_le f2 else _) as [[rc3 pr] f3].
  destruct (_ || _); [by intros [= <- _]|].
  assert (forall args q f h,
    match read_exprs alloc_ok n (i + 1) f h with
    | inl e => inl e
    | inr (es, ps, f, h) => inr (CanonicalHash.MkExpr c v pr args :: es, q :: ps, f, h)
    end = inl (p, h') -> exit_code p <> 0) as Hrest.
  { intros ags q f' h0. destruct (read_exprs alloc_ok n (i + 1) f' h0) as [e|[[[? ?] ?] ?]] eqn:E; [|done].
    intros [= ->]. by eapply IH. }
  destruct (v =? 0); [by apply Hrest|].
  destruct (malloc alloc_ok h) as [[q|] h2]; [|by intros [= <- _]].
  destruct (read_args (Z.to_nat v) 0 f3) as [|[ags f4]]; [by intros [= <- _]|by apply Hrest].
Qed.

Lemma serialize_exprs_bytes es :
  Forall CanonicalHash.expr_ok (map to_c es) -> Forall is_byte (serialize_exprs es).
Proof.
  induction es as [|e es IH]; intros He; [by cbn|].
  cbn [map] in He. apply Forall_cons in He as [(Hc & _) He].
  cbn [serialize_exprs]. repeat (apply Forall_app_2);
    [by apply Forall_singleton| |apply le_bytes_are_bytes|apply BcfTree.flat_map_bytes|by apply IH].
  apply Forall_singleton. apply uwrap_range. lia.
Qed.

Lemma serialize_bytes root es :
  Forall CanonicalHash.expr_ok (map to_c es) -> Forall is_byte (serialize_for_c_tool root es).
Proof.
  intros He. unfold serialize_for_c_tool.
  repeat (apply Forall_app_2); [apply le_bytes_are_bytes|by apply serialize_exprs_bytes|apply le_bytes_are_bytes].
Qed.

(** A serialization is not a proper prefix of another one. *)
Lemma serialize_prefix root root' es es' rest :
  Forall CanonicalHash.expr_ok (map to_c es) -> Forall CanonicalHash.expr_ok (map to_c es') ->
  Z.of_nat (length es) < 2 ^ 32 -> Z.of_nat (length es') < 2 ^ 32 ->
  in_u 32 root -> in_u 32 root' ->
  serialize_for_c_tool root es = serialize_for_c_tool root' es' ++ rest ->
  map to_c es = map to_c es' /\ rest = [].
Proof.
  intros He He' Hn Hn' Hr Hr'. unfold serialize_for_c_tool.
  rewrite !(uwrap_small 32) by (unfold in_u; lia). rewrite <- !app_assoc. intros E.
  apply app_inj_len in E as [El E]; [|by rewrite !length_le_bytes].
  apply le_bytes_inj in El; [|unfold in_u; simpl; lia..]. apply Nat2Z.inj in El.
  assert (owned [] ∅ CanonicalHash.heap0) as O0.
  { split_and!; [apply CanonicalHash.heap0_ok|constructor|set_solver|done|set_solver]. }
  destruct (read_exprs_ok (fun _ => true) es 0 (le_bytes 4 root) _ _ _ He O0)
    as [(ps & h1 & E1 & _)|(? & _ & n & ?)]; [|done].
  destruct (read_exprs_ok (fun _ => true) es' 0 (le_bytes 4 root' ++ rest) _ _ _ He' O0)
    as [(ps' & h2 & E2 & _)|(? & _ & n & ?)]; [|done].
  rewrite E, El in E1. rewrite E1 in E2. clear E1 E.
  remember (le_bytes 4 root) as x eqn:Ex. remember (le_bytes 4 root' ++ rest) as y eqn:Ey.
  injection E2 as -> _ -> _. split; [done|]. apply (f_equal length) in Ex. subst y.
  rewrite length_app, !length_le_bytes in Ex.
  apply length_zero_iff_nil. lia.
Qed.

(** * The whole program *)

(** What the process leaves behind and prints, for a run that reached the hash. *)
Lemma main_ok alloc_ok uninit fuel root exprs rest :
  table_wf exprs fuel root -> in_u 32 root ->
  exists p h', main alloc_ok uninit fuel (serialize_for_c_tool root exprs ++ rest) CanonicalHash.heap0
      = Some (p, h') /\
    ((exit_code p = 0 /\ stderr p = "" /\ exists digest,
        stdout p = format_016llx digest +:+ newline /\
        (digest = CanonicalHash.table_hash fuel (map to_c exprs) root \/
         (digest = 0 /\ CanonicalHash.alloc_failed alloc_ok)) /\
        (~ CanonicalHash.alloc_failed alloc_ok -> h_live h' = ∅ /\ h_badfree h' = false)) \/
     (p = die 2 "oom" /\ CanonicalHash.alloc_failed alloc_ok)).
Proof.
  intros (Hok & Hac & Hf & Hw) Hroot. destruct Hok as [He Ht] eqn:Eok. clear Eok.
  pose proof (CanonicalHash.total_slots_len _ He) as Hlen. rewrite length_map in Hlen.
  unfold main, serialize_for_c_tool. rewrite <- !app_assoc.
  rewrite (uwrap_small 32) by (unfold in_u; lia). rewrite read_u32_le_le by (unfold in_u; lia).
  cbn [negb Z.eqb].
  assert (owned [] ∅ CanonicalHash.heap0) as O0.
  { split_and!; [apply CanonicalHash.heap0_ok|constructor|set_solver|done|set_solver]. }
  destruct (if 0 <? _ then _ else _) as [[ep ap] h1] eqn:Ealloc.
  assert (owned (blocks ap ++ blocks ep ++ []) ∅ h1 /\
    ((0 <? Z.of_nat (length exprs)) && negb (bool_decide (is_Some ep /\ is_Some ap)) = true ->
     exists n, alloc_ok n = false)) as [O1 F1].
  { destruct (0 <? Z.of_nat (length exprs)).
    - destruct (malloc alloc_ok CanonicalHash.heap0) as [e h2] eqn:E1.
      destruct (malloc alloc_ok h2) as [a h3] eqn:E2. injection Ealloc as <- <- <-.
      destruct (owned_malloc _ _ _ _ _ _ O0 E1) as [O1 F1].
      destruct (owned_malloc _ _ _ _ _ _ O1 E2) as [O2 F2].
      split; [done|]. destruct e; [|auto]. destruct a; [|auto].
      rewrite bool_decide_true by eauto. done.
    - injection Ealloc as <- <- <-. done. }
  destruct (_ && _) eqn:Eoom.
  { do 2 eexists. split; [done|]. right. split; [done|]. by apply F1. }
  clear F1 Eoom Ealloc. rewrite Nat2Z.id.
  destruct (read_exprs_ok alloc_ok exprs 0 (le_bytes 4 root ++ rest) h1 _ ∅ He O1)
    as [(ps & h2 & -> & O2)|(h2 & -> & Hfail)].
  2:{ do 2 eexists. split; [done|]. by right. }
  rewrite read_u32_le_le by done. cbn [negb Z.eqb].
  destruct (CanonicalHash.hash_ok alloc_ok uninit (map to_c exprs) fuel root h2 (conj He Ht) Hac Hf Hw (proj1 O2))
    as (digest & h3 & E & Hres & ls & Hown & _ & Hleak).
  rewrite length_map in E. rewrite E. cbn [mbind option_bind].
  do 2 eexists. split; [done|]. left. split_and!; [done|done|]. exists digest.
  split_and!; [done|done|]. intros Hnf.
  assert (owned (flat_map blocks ps ++ blocks ap ++ blocks ep ++ []) ∅ h3) as O3.
  { destruct ls as [|l ls]; [|by destruct Hnf; apply Hleak].
    destruct Hown as (Hh & _ & _ & Hl & _). destruct O2 as (_ & Hnd & Hdisj & Hl2 & _).
    split_and!; try done. rewrite Hl. simpl. rewrite Hl2. set_solver. }
  apply free_all_ok, owned_free, owned_free in O3.
  destruct O3 as ((_ & ?) & _ & _ & -> & _). split; [set_solver|done].
Qed.

(** C15. End-to-end agreement of the two programs: serializing a well-formed
    table in Rust, piping it through the C tool and parsing the line it prints
    yields the digest [hash_expr] computes in Rust. *)
Theorem tool_agrees SipHasher24 uninit fuel root exprs digest :
  (forall bs, Forall is_byte bs -> SipHasher24 bs = SipHash.siphash24_spec bs 0 0) ->
  table_wf exprs fuel root -> in_u 32 root ->
  hash_expr SipHasher24 fuel root exprs = Done digest ->
  run_c_tool (fun _ => true) uninit fuel root exprs = Some digest.
Proof.
  intros Hsip Hwf Hroot Hd. unfold run_c_tool.
  destruct (main_ok (fun _ => true) uninit fuel root exprs [] Hwf Hroot)
    as (p & h' & E & [(Hc & _ & v & Hout & [Hv|[_ [n Hn]]] & _)|(_ & n & Hn)]); [|done|done].
  rewrite app_nil_r in E. unfold CanonicalHash.heap0 in E. rewrite E.
  cbn [mbind option_bind]. rewrite Hc, Hout. cbn [Z.eqb].
  destruct Hwf as (Hok & Hac & Hf & _).
  unfold hash_expr in Hd. rewrite hash_bytes_eq in Hd by done. unfold CanonicalHash.table_hash in Hv.
  destruct (CanonicalHash.tree_of fuel (map to_c exprs) root) as [t|] eqn:Et; [|done].
  injection Hd as <-. assert (Forall is_byte (BcfTree.encode_tree t)) as Hb
    by (apply BcfTree.ser_canon_bytes; by eapply tree_of_ok).
  rewrite Hv, Hsip, <- SipHash.siphash24_eq by done. apply parse_digest.
  by apply SipHash.siphash24_in_u64.
Qed.

Lemma tool_agrees_witness :
  run_c_tool (fun _ => true) 7 64 21 worked_example = Some 5315554883576252720.
Proof.
  apply (tool_agrees (fun bs => SipHash.siphash24_spec bs 0 0) 7 64 21 worked_example
    5315554883576252720 (fun _ _ => eq_refl)); wf_facts.
Defined.

(** Whatever the allocator refuses, the tool on a well-formed input either
    reports out of memory with status 2 and prints nothing, or exits with
    status 0 having printed the digest of the table (or sixteen zeros, when
    an allocation inside the hash failed).  With every allocation granted it
    releases all of its blocks. *)
Theorem tool_robust alloc_ok uninit fuel root exprs rest :
  table_wf exprs fuel root -> in_u 32 root ->
  exists p h', main alloc_ok uninit fuel (serialize_for_c_tool root exprs ++ rest) CanonicalHash.heap0
      = Some (p, h') /\
    ((exit_code p = 0 /\ stderr p = "" /\ exists digest,
        stdout p = format_016llx digest +:+ newline /\
        (digest = CanonicalHash.table_hash fuel (map to_c exprs) root \/
         (digest = 0 /\ CanonicalHash.alloc_failed alloc_ok)) /\
        (~ CanonicalHash.alloc_failed alloc_ok -> h_live h' = ∅ /\ h_badfree h' = false)) \/
     (p = die 2 "oom" /\ CanonicalHash.alloc_failed alloc_ok)).
Proof. apply main_ok. Qed.

Lemma tool_robust_witness :
  exists p h', main (fun n => negb (n =? 1)%nat) 7 64 (serialize_for_c_tool 21 worked_example ++ [])
      CanonicalHash.heap0 = Some (p, h') /\
    ((exit_code p = 0 /\ stderr p = "" /\ exists digest,
        stdout p = format_016llx digest +:+ newline /\
        (digest = CanonicalHash.table_hash 64 (map to_c worked_example) 21 \/
         (digest = 0 /\ CanonicalHash.alloc_failed (fun n => negb (n =? 1)%nat))) /\
        (~ CanonicalHash.alloc_failed (fun n => negb (n =? 1)%nat) -> h_live h' = ∅ /\ h_badfree h' = false)) \/
     (p = die 2 "oom" /\ CanonicalHash.alloc_failed (fun n => negb (n =? 1)%nat))).
Proof.
  apply (tool_robust (fun n => negb (n =? 1)%nat) 7 64 21 worked_example []); wf_facts.
Defined.

(** Exit status 0 means that a complete serialization was read. *)
Lemma main_accepts alloc_ok uninit fuel stdin h p h' :
  Forall is_byte stdin -> main alloc_ok uninit fuel stdin h = Some (p, h') -> exit_code p = 0 ->
  exists root exprs rest, stdin = serialize_for_c_tool root exprs ++ rest /\ in_u 32 root /\
    Forall CanonicalHash.expr_ok (map to_c exprs) /\ Z.of_nat (length exprs) < 2 ^ 32.
Proof.
  intros Hb. unfold main. destruct (read_u32_le stdin) as [[rc count] f] eqn:E1.
  destruct (Z.eqb_spec rc 0) as [->|]; cbn [negb]; [|by intros [= <- _]].
  apply read_u32_inv in E1 as (-> & Hcount & Hf); [|done].
  destruct (if 0 <? count then _ else _) as [[ep ap] h1].
  destruct (_ && _); [by intros [= <- _]|].
  destruct (read_exprs alloc_ok (Z.to_nat count) 0 f h1) as [ph|[[[es ps] f1] h2]] eqn:E2.
  { intros [= ->] Hp. exfalso. by eapply read_exprs_inl in E2. }
  apply read_exprs_inv in E2 as (rs & -> & Hlen & -> & Hes & Hf1); [|done].
  destruct (read_u32_le f1) as [[rc root] f2] eqn:E3.
  destruct (Z.eqb_spec rc 0) as [->|]; cbn [negb]; [|by intros [= <- _]].
  apply read_u32_inv in E3 as (-> & Hroot & _); [|done]. intros _ _.
  unfold in_u in Hcount. exists root, rs, f2. split_and!; [|done|done|lia].
  unfold serialize_for_c_tool. rewrite Hlen, Z2Nat.id, uwrap_small by (unfold in_u; lia).
  by rewrite <- !app_assoc.
Qed.

(** The tool accepts no truncated input: on a proper prefix of a
    serialization it never exits with status 0, whatever the allocator does. *)
Theorem tool_truncated alloc_ok uninit fuel root exprs cut missing h p h' :
  Forall CanonicalHash.expr_ok (map to_c exprs) -> Z.of_nat (length exprs) < 2 ^ 32 -> in_u 32 root ->
  serialize_for_c_tool root exprs = cut ++ missing -> missing <> [] ->
  main alloc_ok uninit fuel cut h = Some (p, h') -> exit_code p <> 0.
Proof.
  intros He Hn Hroot Ecut Hm Hmain Hp.
  destruct (main_accepts alloc_ok uninit fuel cut h p h') as (root' & es & rest & -> & Hr' & He' & Hn');
    [|done|done|].
  { pose proof (serialize_bytes root exprs He) as Hb. rewrite Ecut, Forall_app in Hb. apply Hb. }
  apply Hm. rewrite <- app_assoc in Ecut.
  destruct (serialize_prefix root root' exprs es (rest ++ missing)) as [_ Hnil]; try done.
  apply app_eq_nil in Hnil. apply Hnil.
Qed.

Lemma tool_truncated_witness :
  exit_code (die 1 "read expr 3 header: short read") <> 0.
Proof.
  apply (tool_truncated (fun _ => true) 7 64 21 worked_example
    (take 30 (serialize_for_c_tool 21 worked_example))
    (drop 30 (serialize_for_c_tool 21 worked_example)) CanonicalHash.heap0
    (die 1 "read expr 3 header: short read") (Heap 5 {[0; 1; 2; 3; 4]}%nat false));
    first [done | by apply (bool_decide_unpack _); vm_compute | by vm_compute].
Defined.

End HashTool.
