(* ===== verification/Bundle.v ===== *)
(** The bundle sidecar: the wire format of [c-ref/bcf_bundle.h], the writer and
    the tolerant reader of [src/refinement/bundle.rs], and the checks
    [c-ref/bpf_attr_bcf_ext.h] asks the kernel to make.

    A file is a list of bytes.  [write_bundle] takes the previous content of
    the sidecar (or [None] when it cannot be read) and the new entries, and
    returns the bytes it writes. *)

From S2P Require Import Prelude BcfTree CanonicalHash RustHash HashTool.
From Stdlib Require Import ZArith Lia.
From stdpp Require Import base numbers gmap list.
Import RustHash HashTool.
Open Scope Z_scope.

Module Bundle.

Definition BCF_BUNDLE_MAGIC : Z := 0x42464342.
Definition BCF_BUNDLE_KIND_REFINE : Z := 1.
Definition BCF_BUNDLE_KIND_UNREACHABLE : Z := 2.
Definition BUNDLE_HEADER_SIZE : Z := 16.
Definition BUNDLE_ENTRY_SIZE : Z := 28.

(** [struct bcf_bundle_header] and [struct bcf_bundle_entry] as they lie in
    memory: the fields in order, little-endian, packed. *)
Record bcf_bundle_header := MkHeader { magic : Z; entry_cnt : Z; total_size : Z; reserved : Z }.

Definition header_bytes (x : bcf_bundle_header) : list Z :=
  le_bytes 4 (magic x) ++ le_bytes 4 (entry_cnt x) ++ le_bytes 4 (total_size x) ++
  le_bytes 4 (reserved x).

Record bcf_bundle_entry := MkEntry {
  cond_hash : Z; goal_off : Z; goal_size : Z; proof_off : Z; proof_size : Z; kind : Z }.

Definition entry_bytes (x : bcf_bundle_entry) : list Z :=
  le_bytes 8 (cond_hash x) ++ le_bytes 4 (goal_off x) ++ le_bytes 4 (goal_size x) ++
  le_bytes 4 (proof_off x) ++ le_bytes 4 (proof_size x) ++ le_bytes 4 (kind x).

(** * The writer *)

(** [struct RefineEntry] *)
Record RefineEntry := MkRefineEntry {
  re_hash : Z; re_root : Z; re_exprs : list BcfExpr; re_proof : list Z; re_kind : Z }.

(** [RefineEntry::new] *)
Definition RefineEntry_new (SipHasher24 : list Z -> Z) (fuel : nat) (goal_root : Z)
    (goal_exprs : list BcfExpr) (proof_bytes : list Z) (kind : Z) : outcome RefineEntry :=
  h ← hash_expr SipHasher24 fuel goal_root goal_exprs;
  Done (MkRefineEntry h goal_root goal_exprs proof_bytes kind).

Definition serialize_goal (root : Z) (exprs : list BcfExpr) : list Z :=
  le_bytes 4 root ++ le_bytes 4 (u32 (Z.of_nat (length exprs))) ++ serialize_exprs exprs.

(** [(n + 3) & !3] *)
Definition align4 (n : Z) : Z := Z.land (u64 (n + 3)) (unot 64 3).

(** [b.get(lo..hi)] *)
Definition get (b : list Z) (lo hi : Z) : option (list Z) :=
  if (lo <=? hi) && (hi <=? Z.of_nat (length b))
  then Some (take (Z.to_nat (hi - lo)) (drop (Z.to_nat lo) b)) else None.

Definition rd_u32 (b : list Z) (o : Z) : option Z := le_val <$> get b o (o + 4).

(** [struct Serialized] *)
Record Serialized := MkSerialized { s_hash : Z; s_kind : Z; s_goal : list Z; s_proof : list Z }.

(** The loop of [read_bundle_raw] over the entry indices. *)
Fixpoint read_entries (n : nat) (i : Z) (b : list Z) (out : list Serialized) : list Serialized :=
  match n with
  | O => out
  | S n =>
      let e := BUNDLE_HEADER_SIZE + i * BUNDLE_ENTRY_SIZE in
      if Z.of_nat (length b) <? e + BUNDLE_ENTRY_SIZE then out
      else
        let hash := le_val (take 8 (drop (Z.to_nat e) b)) in
        let goal_off := default 0 (rd_u32 b (e + 8)) in
        let goal_len := default 0 (rd_u32 b (e + 12)) in
        let proof_off := default 0 (rd_u32 b (e + 16)) in
        let proof_len := default 0 (rd_u32 b (e + 20)) in
        let kind := default 0 (rd_u32 b (e + 24)) in
        match get b goal_off (goal_off + goal_len), get b proof_off (proof_off + proof_len) with
        | Some goal, Some proof => read_entries n (i + 1) b (out ++ [MkSerialized hash kind goal proof])
        | _, _ => out
        end
  end.

Definition read_bundle_raw (file : option (list Z)) : list Serialized :=
  match file with
  | None => []
  | Some b =>
      if (Z.of_nat (length b) <? BUNDLE_HEADER_SIZE) ||
         negb (bool_decide (rd_u32 b 0 = Some BCF_BUNDLE_MAGIC)) then []
      else match rd_u32 b 4 with
           | None => []
           | Some cnt => read_entries (Z.to_nat cnt) 0 b []
           end
  end.

(** [parse_goal_var_count] *)
Fixpoint count_vars (n : nat) (off vars : Z) (goal : list Z) : option Z :=
  match n with
  | O => Some vars
  | S n =>
      code ← goal !! Z.to_nat off;
      vlen ← goal !! Z.to_nat (off + 1);
      count_vars n (off + (4 + 4 * vlen)) (if is_var code then vars + 1 else vars) goal
  end.

Definition parse_goal_var_count (goal : list Z) : option Z :=
  if Z.of_nat (length goal) <? 8 then None
  else n ← rd_u32 goal 4; count_vars (Z.to_nat n) 8 0 goal.

Definition MAX_GOAL_BYTES : Z := 24 * 1024.

(** The filter on entries that come from the file. *)
Definition checkable_raw (s : Serialized) : bool :=
  (Z.of_nat (length (s_goal s)) <=? 24 * 1024) &&
  match parse_goal_var_count (s_goal s) with Some n => n <=? 128 | None => false end.

Definition nvars (exprs : list BcfExpr) : Z :=
  Z.of_nat (length (List.filter (fun x => is_var (code x)) exprs)).

Definition serialize_entry (e : RefineEntry) : Serialized :=
  MkSerialized (re_hash e) (re_kind e) (serialize_goal (re_root e) (re_exprs e)) (re_proof e).

(** The filter on new entries. *)
Definition oversized (e : RefineEntry) : bool :=
  (MAX_GOAL_BYTES <? Z.of_nat (length (serialize_goal (re_root e) (re_exprs e)))) ||
  (128 <? nvars (re_exprs e)).

(** The loop over the new entries, with the set of hashes seen so far. *)
Fixpoint add_entries (entries : list RefineEntry) (seen : gset Z) (serialized : list Serialized)
    : list Serialized :=
  match entries with
  | [] => serialized
  | e :: entries =>
      if decide (re_hash e ∈ seen) then add_entries entries seen serialized
      else if oversized e then
        add_entries entries (({[re_hash e]} ∪ seen) ∖ {[re_hash e]}) serialized
      else add_entries entries ({[re_hash e]} ∪ seen) (serialized ++ [serialize_entry e])
  end.

Definition merge (file : option (list Z)) (entries : list RefineEntry) : list Serialized :=
  let serialized := List.filter checkable_raw (read_bundle_raw file) in
  add_entries entries (list_to_set (map s_hash serialized)) serialized.

Fixpoint payload_total (ss : list Serialized) : Z :=
  match ss with
  | [] => 0
  | s :: ss => align4 (Z.of_nat (length (s_goal s))) + align4 (Z.of_nat (length (s_proof s)))
               + payload_total ss
  end.

Definition bundle_size (ss : list Serialized) : Z :=
  BUNDLE_HEADER_SIZE + BUNDLE_ENTRY_SIZE * Z.of_nat (length ss) + payload_total ss.

(** The entry records, offsets precomputed from [cur]. *)
Fixpoint entries_region (ss : list Serialized) (cur : Z) : list Z :=
  match ss with
  | [] => []
  | s :: ss =>
      let goal_off := cur in
      let goal_padded := align4 (Z.of_nat (length (s_goal s))) in
      let proof_off := goal_off + goal_padded in
      let proof_padded := align4 (Z.of_nat (length (s_proof s))) in
      entry_bytes (MkEntry (s_hash s) (u32 goal_off) (u32 (Z.of_nat (length (s_goal s))))
        (u32 proof_off) (u32 (Z.of_nat (length (s_proof s)))) (s_kind s)) ++
      entries_region ss (proof_off + proof_padded)
  end.

(** [buf.extend_from_slice(&x); buf.resize(buf.len() + pad, 0)] *)
Definition padded (x : list Z) : list Z :=
  x ++ replicate (Z.to_nat (align4 (Z.of_nat (length x)) - Z.of_nat (length x))) 0.

Fixpoint payloads (ss : list Serialized) : list Z :=
  match ss with
  | [] => []
  | s :: ss => padded (s_goal s) ++ padded (s_proof s) ++ payloads ss
  end.

Definition build_bundle (ss : list Serialized) : list Z :=
  header_bytes (MkHeader BCF_BUNDLE_MAGIC (u32 (Z.of_nat (length ss))) (u32 (bundle_size ss)) 0) ++
  entries_region ss (BUNDLE_HEADER_SIZE + BUNDLE_ENTRY_SIZE * Z.of_nat (length ss)) ++
  payloads ss.

(** [write_bundle]: the bytes written and the size returned. *)
Definition write_bundle (file : option (list Z)) (entries : list RefineEntry) : list Z * Z :=
  let ss := merge file entries in (build_bundle ss, bundle_size ss).

(** * Alignment *)

Lemma align4_eq n : in_u 64 (n + 3) -> align4 n = 4 * ((n + 3) / 4).
Proof.
  intros Hn. unfold align4. rewrite uwrap_small by done. set (x := n + 3) in *.
  replace (4 * (x / 4)) with (Z.shiftl (Z.shiftr x 2) 2)
    by (rewrite Z.shiftl_mul_pow2, Z.shiftr_div_pow2 by lia; change (2 ^ 2) with 4; lia).
  apply Z.bits_inj'. intros i Hi. rewrite Z.land_spec, testbit_shiftl by lia.
  rewrite testbit_unot by (lia || by vm_compute). destruct (Z.leb_spec 2 i).
  - rewrite (in_u_testbit_high 2 3) by (by vm_compute || lia). rewrite Z.shiftr_spec by lia.
    replace (i - 2 + 2) with i by lia. simpl. destruct (Z.ltb_spec i 64); [by rewrite andb_true_r|].
    rewrite (in_u_testbit_high 64 x) by (done || lia). done.
  - assert (i = 0 \/ i = 1) as [->| ->] by lia; simpl; by rewrite andb_false_r.
Qed.

Lemma align4_spec n :
  0 <= n < 2 ^ 62 -> n <= align4 n < n + 4 /\ align4 n mod 4 = 0.
Proof.
  intros Hn. rewrite align4_eq by (unfold in_u; lia).
  pose proof (Z.div_mod (n + 3) 4 ltac:(lia)). pose proof (Z.mod_pos_bound (n + 3) 4 ltac:(lia)).
  split; [lia|]. rewrite Z.mul_comm. apply Z.mod_mul. lia.
Qed.

(** * Slices *)

Lemma get_app a m c :
  get (a ++ m ++ c) (Z.of_nat (length a)) (Z.of_nat (length a) + Z.of_nat (length m)) = Some m.
Proof.
  unfold get. rewrite (proj2 (Z.leb_le _ _)), (proj2 (Z.leb_le _ _)) by (rewrite ?length_app; lia).
  simpl. f_equal. rewrite Nat2Z.id, drop_app_length.
  rewrite take_app_len; [done|lia].
Qed.

Lemma get_slice b a m c lo hi :
  b = a ++ m ++ c -> lo = Z.of_nat (length a) -> hi = lo + Z.of_nat (length m) -> get b lo hi = Some m.
Proof. intros -> -> ->. apply get_app. Qed.

Lemma rd_u32_slice b a v c o :
  b = a ++ le_bytes 4 v ++ c -> o = Z.of_nat (length a) -> in_u 32 v -> rd_u32 b o = Some v.
Proof.
  intros -> -> Hv. unfold rd_u32.
  rewrite (get_slice _ a (le_bytes 4 v) c) by (done || by rewrite length_le_bytes).
  simpl. f_equal. by apply (le_val_bytes_small 4).
Qed.

Lemma length_entry_bytes x : length (entry_bytes x) = 28%nat.
Proof. unfold entry_bytes. by rewrite !length_app, !length_le_bytes. Qed.

Lemma length_header_bytes x : length (header_bytes x) = 16%nat.
Proof. unfold header_bytes. by rewrite !length_app, !length_le_bytes. Qed.

Lemma length_entries_region ss cur : length (entries_region ss cur) = (28 * length ss)%nat.
Proof.
  revert cur. induction ss as [|s ss IH]; intros cur; [done|]. cbn [entries_region length].
  rewrite length_app, length_entry_bytes, IH. lia.
Qed.

(** * Well-formed entries *)

Definition ser_ok (s : Serialized) : Prop :=
  in_u 64 (s_hash s) /\ in_u 32 (s_kind s) /\
  Forall is_byte (s_goal s) /\ Forall is_byte (s_proof s) /\
  Z.of_nat (length (s_goal s)) < 2 ^ 32 /\ Z.of_nat (length (s_proof s)) < 2 ^ 32.

#[export] Instance ser_ok_dec s : Decision (ser_ok s).
Proof. unfold ser_ok. apply _. Defined.

(** A bundle whose size fits the [u32] of its header. *)
Definition bundle_fits (ss : list Serialized) : Prop :=
  Forall ser_ok ss /\ bundle_size ss < 2 ^ 32.

Lemma length_padded x :
  Z.of_nat (length x) < 2 ^ 62 -> Z.of_nat (length (padded x)) = align4 (Z.of_nat (length x)).
Proof.
  intros Hx. unfold padded. rewrite length_app, length_replicate.
  pose proof (align4_spec (Z.of_nat (length x))). lia.
Qed.

Lemma length_payloads ss : Forall ser_ok ss -> Z.of_nat (length (payloads ss)) = payload_total ss.
Proof.
  induction 1 as [|s ss (_ & _ & _ & _ & Hg & Hp) _ IH]; [done|]. cbn [payloads payload_total].
  rewrite !length_app, !Nat2Z.inj_add, !length_padded by lia. lia.
Qed.

Lemma payload_total_nonneg ss : Forall ser_ok ss -> 0 <= payload_total ss.
Proof. intros H. rewrite <- length_payloads by done. lia. Qed.

Lemma length_build_bundle ss :
  Forall ser_ok ss -> Z.of_nat (length (build_bundle ss)) = bundle_size ss.
Proof.
  intros Hs. unfold build_bundle, bundle_size, BUNDLE_HEADER_SIZE, BUNDLE_ENTRY_SIZE.
  rewrite !length_app, !Nat2Z.inj_add, length_payloads, length_header_bytes, length_entries_region by done.
  lia.
Qed.

(** * Reading a bundle back *)

Definition entry_ok (x : bcf_bundle_entry) : Prop :=
  in_u 64 (cond_hash x) /\ in_u 32 (goal_off x) /\ in_u 32 (goal_size x) /\
  in_u 32 (proof_off x) /\ in_u 32 (proof_size x) /\ in_u 32 (kind x).

Lemma read_fields b pre x post :
  b = pre ++ entry_bytes x ++ post -> entry_ok x ->
  let e := Z.of_nat (length pre) in
  le_val (take 8 (drop (Z.to_nat e) b)) = cond_hash x /\
  rd_u32 b (e + 8) = Some (goal_off x) /\ rd_u32 b (e + 12) = Some (goal_size x) /\
  rd_u32 b (e + 16) = Some (proof_off x) /\ rd_u32 b (e + 20) = Some (proof_size x) /\
  rd_u32 b (e + 24) = Some (kind x).
Proof.
  intros Hb (H0 & H1 & H2 & H3 & H4 & H5) e.
  assert (forall l v r k, entry_bytes x = l ++ le_bytes 4 v ++ r -> k = Z.of_nat (length l) ->
    in_u 32 v -> rd_u32 b (e + k) = Some v) as Hrd.
  { intros l v r k E Ek Hv. apply (rd_u32_slice b (pre ++ l) v (r ++ post)); [|rewrite length_app; lia|done].
    by rewrite Hb, E, <- !app_assoc. }
  split.
  { rewrite Hb. unfold e. rewrite Nat2Z.id, drop_app_length. unfold entry_bytes.
    rewrite <- !app_assoc, take_app_len by by rewrite length_le_bytes. by apply (le_val_bytes_small 8). }
  unfold entry_bytes in Hrd. split_and!.
  - by eapply (Hrd (le_bytes 8 _)).
  - by eapply (Hrd (le_bytes 8 _ ++ le_bytes 4 _)); [rewrite <- !app_assoc| |].
  - by eapply (Hrd (le_bytes 8 _ ++ le_bytes 4 _ ++ le_bytes 4 _)); [rewrite <- !app_assoc| |].
  - by eapply (Hrd (le_bytes 8 _ ++ le_bytes 4 _ ++ le_bytes 4 _ ++ le_bytes 4 _)); [rewrite <- !app_assoc| |].
  - eapply (Hrd (le_bytes 8 _ ++ le_bytes 4 _ ++ le_bytes 4 _ ++ le_bytes 4 _ ++ le_bytes 4 _) _ []);
      [rewrite <- !app_assoc, app_nil_r| |]; done.
Qed.

(** The record the writer emits for an entry whose payloads start at [cur]. *)
Definition record_at (s : Serialized) (cur : Z) : bcf_bundle_entry :=
  MkEntry (s_hash s) cur (Z.of_nat (length (s_goal s)))
    (cur + align4 (Z.of_nat (length (s_goal s)))) (Z.of_nat (length (s_proof s))) (s_kind s).

(** Where the payloads of the next entry start. *)
Definition next_cur (s : Serialized) (cur : Z) : Z :=
  cur + align4 (Z.of_nat (length (s_goal s))) + align4 (Z.of_nat (length (s_proof s))).

Lemma next_cur_payload s ss cur :
  ser_ok s -> next_cur s cur + payload_total ss = cur + payload_total (s :: ss) /\ cur <= next_cur s cur /\
  cur + align4 (Z.of_nat (length (s_goal s))) + Z.of_nat (length (s_proof s)) <= next_cur s cur /\
  cur + Z.of_nat (length (s_goal s)) <= cur + align4 (Z.of_nat (length (s_goal s))).
Proof.
  intros (_ & _ & _ & _ & Hg & Hp). unfold next_cur. cbn [payload_total].
  pose proof (align4_spec (Z.of_nat (length (s_goal s)))).
  pose proof (align4_spec (Z.of_nat (length (s_proof s)))). lia.
Qed.

(** Below the [u32] limit no field of a record is truncated. *)
Lemma entries_region_cons s ss cur :
  ser_ok s -> Forall ser_ok ss -> 0 <= cur -> cur + payload_total (s :: ss) < 2 ^ 32 ->
  entries_region (s :: ss) cur = entry_bytes (record_at s cur) ++ entries_region ss (next_cur s cur) /\
  entry_ok (record_at s cur).
Proof.
  intros Hs Hss Hc Hb. pose proof (next_cur_payload s ss cur Hs) as (? & ? & ? & ?).
  pose proof (payload_total_nonneg ss Hss). destruct Hs as (Hh & Hk & _ & _ & Hg & Hp).
  cbn [entries_region]. rewrite !(uwrap_small 32) by (unfold in_u; lia).
  split; [done|]. unfold record_at, entry_ok; simpl. unfold in_u in *. lia.
Qed.

(** The reader, started at the record of [ss], returns [ss]. *)
Lemma read_entries_ok ss i b pre mid cur out :
  Forall ser_ok ss -> b = pre ++ entries_region ss cur ++ mid ++ payloads ss ->
  cur = Z.of_nat (length pre) + 28 * Z.of_nat (length ss) + Z.of_nat (length mid) ->
  Z.of_nat (length pre) = 16 + i * 28 -> cur + payload_total ss < 2 ^ 32 ->
  read_entries (length ss) i b out = out ++ ss.
Proof.
  intros Hs. revert i pre mid cur out.
  induction Hs as [|s ss Hs Hss IH]; intros i pre mid cur out Hb Hcur Hpre Hlen.
  { cbn. by rewrite app_nil_r. }
  cbn [length] in Hcur.
  destruct (entries_region_cons s ss cur Hs Hss ltac:(lia) Hlen) as [Er Hx]. rewrite Er in Hb.
  pose proof (next_cur_payload s ss cur Hs) as (Hnext & _).
  rewrite <- app_assoc in Hb.
  destruct (read_fields b pre _ _ Hb Hx) as (F0 & F1 & F2 & F3 & F4 & F5).
  cbn [length read_entries]. unfold BUNDLE_HEADER_SIZE, BUNDLE_ENTRY_SIZE. rewrite <- Hpre.
  rewrite (proj2 (Z.ltb_ge _ _)) by (rewrite Hb, !length_app, length_entry_bytes; lia).
  rewrite F0, F1, F2, F3, F4, F5. cbn [default from_option id record_at goal_off goal_size proof_off
    proof_size kind cond_hash].
  pose proof (length_padded (s_goal s)) as Lg. pose proof (length_padded (s_proof s)) as Lp.
  destruct Hs as (_ & _ & _ & _ & Hgs & Hps).
  assert (Z.of_nat (length (pre ++ entry_bytes (record_at s cur) ++
    entries_region ss (next_cur s cur) ++ mid)) = cur) as Lcur.
  { rewrite !length_app, length_entry_bytes, length_entries_region. lia. }
  rewrite (get_slice b (pre ++ entry_bytes (record_at s cur) ++ entries_region ss (next_cur s cur) ++ mid)
    (s_goal s) (replicate (Z.to_nat (align4 (Z.of_nat (length (s_goal s))) - Z.of_nat (length (s_goal s)))) 0
      ++ padded (s_proof s) ++ payloads ss));
    [|rewrite Hb; unfold padded; cbn [payloads]; unfold padded; by rewrite <- !app_assoc|done|done].
  rewrite (get_slice b ((pre ++ entry_bytes (record_at s cur) ++ entries_region ss (next_cur s cur) ++ mid)
    ++ padded (s_goal s)) (s_proof s)
    (replicate (Z.to_nat (align4 (Z.of_nat (length (s_proof s))) - Z.of_nat (length (s_proof s)))) 0
      ++ payloads ss));
    [|rewrite Hb; cbn [payloads]; unfold padded; by rewrite <- !app_assoc
     |rewrite length_app; lia|done].
  rewrite (IH _ (pre ++ entry_bytes (record_at s cur)) (mid ++ padded (s_goal s) ++ padded (s_proof s))
    (next_cur s cur)).
  - rewrite <- app_assoc. by destruct s.
  - rewrite Hb. cbn [payloads]. by rewrite <- !app_assoc.
  - rewrite !length_app, length_entry_bytes. unfold next_cur. lia.
  - rewrite length_app, length_entry_bytes. lia.
  - lia.
Qed.

Lemma read_build ss : bundle_fits ss -> read_bundle_raw (Some (build_bundle ss)) = ss.
Proof.
  intros [Hs Hb]. pose proof (length_build_bundle ss Hs) as Hl. pose proof (payload_total_nonneg ss Hs).
  unfold bundle_size, BUNDLE_HEADER_SIZE, BUNDLE_ENTRY_SIZE in *.
  unfold read_bundle_raw, BUNDLE_HEADER_SIZE. rewrite (proj2 (Z.ltb_ge _ _)) by lia.
  assert (rd_u32 (build_bundle ss) 0 = Some BCF_BUNDLE_MAGIC) as ->.
  { by apply (rd_u32_slice _ [] BCF_BUNDLE_MAGIC (drop 4 (build_bundle ss))). }
  rewrite bool_decide_true by done. cbn [orb negb].
  assert (rd_u32 (build_bundle ss) 4 = Some (Z.of_nat (length ss))) as ->.
  { eapply (rd_u32_slice _ (le_bytes 4 BCF_BUNDLE_MAGIC)); [|done|unfold in_u; lia].
    unfold build_bundle, header_bytes. cbn [entry_cnt magic]. rewrite (uwrap_small 32 (Z.of_nat (length ss)))
      by (unfold in_u; lia). by rewrite <- !app_assoc. }
  rewrite Nat2Z.id.
  eapply (read_entries_ok ss 0 _ (header_bytes _) [] (16 + 28 * Z.of_nat (length ss)) []);
    [done|unfold build_bundle; reflexivity|rewrite length_header_bytes; simpl; lia
    |by rewrite length_header_bytes|lia].
Qed.

(** * The checks of the kernel *)

(** The entry records, read at their fixed positions. *)
Fixpoint parse_records (n : nat) (i : Z) (b : list Z) : option (list bcf_bundle_entry) :=
  match n with
  | O => Some []
  | S n =>
      let e := BUNDLE_HEADER_SIZE + i * BUNDLE_ENTRY_SIZE in
      g ← rd_u32 b (e + 8); gs ← rd_u32 b (e + 12);
      p ← rd_u32 b (e + 16); ps ← rd_u32 b (e + 20); k ← rd_u32 b (e + 24);
      rs ← parse_records n (i + 1) b;
      Some (MkEntry (le_val (take 8 (drop (Z.to_nat e) b))) g gs p ps k :: rs)
  end.

Definition within (lo hi off size : Z) : bool := (lo <=? off) && (off + size <=? hi).

(** The validation invariants of [bpf_attr_bcf_ext.h] for a load with the
    attributes [bcf_bundle] and [bcf_bundle_size]; [b] is the buffer. *)
Definition kernel_checks (bcf_bundle bcf_bundle_size : Z) (b : list Z) : bool :=
  Bool.eqb (negb (bcf_bundle =? 0)) (negb (bcf_bundle_size =? 0)) &&
  (BUNDLE_HEADER_SIZE <=? bcf_bundle_size) &&
  bool_decide (rd_u32 b 0 = Some BCF_BUNDLE_MAGIC) &&
  match rd_u32 b 4, rd_u32 b 8 with
  | Some cnt, Some total =>
      (total <=? bcf_bundle_size) &&
      match parse_records (Z.to_nat cnt) 0 b with
      | Some rs =>
          let lo := BUNDLE_HEADER_SIZE + cnt * BUNDLE_ENTRY_SIZE in
          forallb (fun r => within lo total (goal_off r) (goal_size r) &&
                            within lo total (proof_off r) (proof_size r)) rs
      | None => false
      end
  | _, _ => false
  end.

(** Payloads in the order of the records, aligned, none overlapping the next. *)
Fixpoint laid_out (lo hi : Z) (rs : list bcf_bundle_entry) : bool :=
  match rs with
  | [] => lo <=? hi
  | r :: rs =>
      (lo <=? goal_off r) && (goal_off r mod 4 =? 0) &&
      (goal_off r + goal_size r <=? proof_off r) && (proof_off r mod 4 =? 0) &&
      (0 <=? goal_size r) && (0 <=? proof_size r) &&
      laid_out (proof_off r + proof_size r) hi rs
  end.

Fixpoint records (ss : list Serialized) (cur : Z) : list bcf_bundle_entry :=
  match ss with
  | [] => []
  | s :: ss => record_at s cur :: records ss (next_cur s cur)
  end.

Lemma parse_records_ok ss i b pre post cur :
  Forall ser_ok ss -> b = pre ++ entries_region ss cur ++ post ->
  Z.of_nat (length pre) = 16 + i * 28 -> 0 <= cur -> cur + payload_total ss < 2 ^ 32 ->
  parse_records (length ss) i b = Some (records ss cur).
Proof.
  intros Hs. revert i pre cur.
  induction Hs as [|s ss Hs Hss IH]; intros i pre cur Hb Hpre Hc Hlen; [done|].
  destruct (entries_region_cons s ss cur Hs Hss Hc Hlen) as [Er Hx]. rewrite Er, <- app_assoc in Hb.
  pose proof (next_cur_payload s ss cur Hs) as (Hnext & ? & _).
  destruct (read_fields b pre _ _ Hb Hx) as (F0 & F1 & F2 & F3 & F4 & F5).
  cbn [length parse_records records]. unfold BUNDLE_HEADER_SIZE, BUNDLE_ENTRY_SIZE. rewrite <- Hpre.
  rewrite F0, F1, F2, F3, F4, F5. cbn [mbind option_bind].
  rewrite (IH _ (pre ++ entry_bytes (record_at s cur)) (next_cur s cur)); [done|..].
  - by rewrite Hb, <- app_assoc.
  - rewrite length_app, length_entry_bytes. lia.
  - lia.
  - lia.
Qed.

Lemma records_laid_out ss lo cur :
  Forall ser_ok ss -> lo <= cur -> cur mod 4 = 0 ->
  laid_out lo (cur + payload_total ss) (records ss cur) = true.
Proof.
  intros Hs. revert lo cur. induction Hs as [|s ss Hs Hss IH]; intros lo cur Hlo Hc.
  { cbn. apply Z.leb_le. lia. }
  pose proof (next_cur_payload s ss cur Hs) as (Hn & _ & Hp & Hg).
  destruct Hs as (_ & _ & _ & _ & Hgs & Hps).
  destruct (align4_spec (Z.of_nat (length (s_goal s)))) as [_ A1]; [lia|].
  destruct (align4_spec (Z.of_nat (length (s_proof s)))) as [_ A2]; [lia|].
  cbn [records laid_out record_at goal_off goal_size proof_off proof_size]. rewrite <- Hn.
  assert (next_cur s cur mod 4 = 0) as Hnm.
  { unfold next_cur. by rewrite <- Z.add_mod_idemp_r, A2, Z.add_0_r, <- Z.add_mod_idemp_r, A1, Z.add_0_r by lia. }
  rewrite IH by (done || lia).
  assert ((cur + align4 (Z.of_nat (length (s_goal s)))) mod 4 = 0) as ->
    by (by rewrite <- Z.add_mod_idemp_r, A1, Z.add_0_r by lia).
  rewrite Hc, !andb_true_iff, !Z.leb_le. lia.
Qed.

Lemma laid_out_within lo lo' hi rs :
  laid_out lo' hi rs = true -> lo <= lo' ->
  lo' <= hi /\ forallb (fun r => within lo hi (goal_off r) (goal_size r) &&
                              within lo hi (proof_off r) (proof_size r)) rs = true.
Proof.
  revert lo'. induction rs as [|r rs IH]; intros lo' Hl Hle; cbn [laid_out forallb] in *.
  { apply Z.leb_le in Hl. done. }
  rewrite !andb_true_iff, !Z.leb_le in Hl. destruct Hl as [[[[[[? _] ?] _] ?] ?] Hl].
  destruct (IH _ Hl ltac:(lia)) as [? ->]. unfold within. rewrite !andb_true_iff, !Z.leb_le. lia.
Qed.

(** * Merging *)

(** A new entry whose goal is a table of well-formed expressions. *)
Definition refine_ok (e : RefineEntry) : Prop :=
  Forall CanonicalHash.expr_ok (map to_c (re_exprs e)) /\ Z.of_nat (length (re_exprs e)) < 2 ^ 32.

Lemma count_vars_ok es pre post off vars :
  Forall CanonicalHash.expr_ok (map to_c es) -> off = Z.of_nat (length pre) ->
  count_vars (length es) off vars (pre ++ serialize_exprs es ++ post) = Some (vars + nvars es).
Proof.
  intros He. revert pre off vars. induction es as [|e es IH]; intros pre off vars Hoff.
  { cbn. f_equal. unfold nvars. simpl. lia. }
  cbn [map] in He. apply Forall_cons in He as [(_ & Hv & _) He]. cbn in Hv.
  cbn [length count_vars serialize_exprs]. subst off.
  set (item := code e :: Z.of_nat (length (args e)) :: le_bytes 2 (params e) ++ flat_map (le_bytes 4) (args e)).
  set (goal := pre ++ _).
  assert (goal = (pre ++ item) ++ serialize_exprs es ++ post) as Eg.
  { unfold goal, item. rewrite uwrap_small by done. rewrite <- !app_assoc. cbn [app]. by rewrite <- !app_assoc. }
  assert (goal !! Z.to_nat (Z.of_nat (length pre)) = Some (code e)) as ->.
  { by rewrite Eg, <- app_assoc, Nat2Z.id, lookup_app_r, Nat.sub_diag by lia. }
  assert (goal !! Z.to_nat (Z.of_nat (length pre) + 1) = Some (Z.of_nat (length (args e)))) as ->.
  { rewrite Eg, <- app_assoc, lookup_app_r by lia.
    by replace (Z.to_nat (Z.of_nat (length pre) + 1) - length pre)%nat with 1%nat by lia. }
  cbn [mbind option_bind]. rewrite Eg.
  rewrite IH; [|done|].
  - f_equal. unfold nvars. cbn [List.filter]. destruct (is_var (code e)); cbn [length]; lia.
  - unfold item. rewrite length_app. cbn [length]. rewrite length_app, length_le_bytes.
    assert (length (flat_map (le_bytes 4) (args e)) = 4 * length (args e))%nat as ->; [|lia].
    clear. induction (args e) as [|w ws IHw]; [done|].
    cbn [flat_map length]. rewrite length_app, length_le_bytes, IHw. lia.
Qed.

(** The variable count of a written goal is the number of variables of its
    table, so both filters of [write_bundle] agree. *)
Lemma parse_goal_vars e :
  refine_ok e -> parse_goal_var_count (serialize_goal (re_root e) (re_exprs e)) = Some (nvars (re_exprs e)).
Proof.
  intros [He Hn]. unfold parse_goal_var_count.
  assert (8 <= Z.of_nat (length (serialize_goal (re_root e) (re_exprs e)))) as Hl.
  { unfold serialize_goal. rewrite !length_app, !length_le_bytes. lia. }
  rewrite (proj2 (Z.ltb_ge _ _)) by done.
  rewrite (rd_u32_slice _ (le_bytes 4 (re_root e)) (Z.of_nat (length (re_exprs e)))
    (serialize_exprs (re_exprs e)));
    [|unfold serialize_goal; by rewrite (uwrap_small 32) by (unfold in_u; lia)|done|unfold in_u; lia].
  cbn [mbind option_bind]. rewrite Nat2Z.id. unfold serialize_goal.
  rewrite app_assoc, <- (app_nil_r (serialize_exprs (re_exprs e))).
  rewrite count_vars_ok; [by rewrite Z.add_0_l|done|]. by rewrite length_app, !length_le_bytes.
Qed.

Lemma serialize_checkable e :
  refine_ok e -> oversized e = false -> checkable_raw (serialize_entry e) = true.
Proof.
  intros He Ho. unfold checkable_raw, serialize_entry. cbn [s_goal].
  rewrite parse_goal_vars by done. unfold oversized, MAX_GOAL_BYTES in Ho.
  apply orb_false_iff in Ho as [?%Z.ltb_ge ?%Z.ltb_ge]. rewrite andb_true_iff, !Z.leb_le. lia.
Qed.

Lemma add_entries_seen_irrel (seen : gset Z) h : h ∉ seen -> ({[h]} ∪ seen) ∖ {[h]} = seen.
Proof. set_solver. Qed.

(** The entries that are kept, in order: the first of each new hash. *)
Lemma add_entries_spec entries ss :
  exists new, add_entries entries (list_to_set (map s_hash ss)) ss = ss ++ new /\
    (NoDup (map s_hash ss) -> NoDup (map s_hash (ss ++ new))) /\
    (forall s, s ∈ new -> exists e, e ∈ entries /\ oversized e = false /\ s = serialize_entry e) /\
    (forall e, e ∈ entries -> oversized e = true \/ re_hash e ∈ map s_hash (ss ++ new)).
Proof.
  revert ss. induction entries as [|e es IH]; intros ss.
  { exists []. rewrite app_nil_r. split_and!; [done|done|set_solver|set_solver]. }
  cbn [add_entries]. case_decide as Hin.
  - destruct (IH ss) as (new & E & Hnd & Hnew & Hall). exists new. split_and!; [done|done| |].
    + intros s (e' & ? & ?)%Hnew. exists e'. set_solver.
    + intros e' [->|?]%elem_of_cons; [|auto]. right. rewrite map_app. set_solver.
  - destruct (oversized e) eqn:Eo.
    + rewrite add_entries_seen_irrel by done.
      destruct (IH ss) as (new & E & Hnd & Hnew & Hall). exists new. split_and!; [done|done| |].
      * intros s (e' & ? & ?)%Hnew. exists e'. set_solver.
      * intros e' [->|?]%elem_of_cons; auto.
    + replace ({[re_hash e]} ∪ list_to_set (map s_hash ss) : gset Z)
        with (list_to_set (map s_hash (ss ++ [serialize_entry e])) : gset Z)
        by (rewrite map_app, list_to_set_app_L; simpl; set_solver).
      destruct (IH (ss ++ [serialize_entry e])) as (new & E & Hnd & Hnew & Hall).
      exists (serialize_entry e :: new). rewrite <- app_assoc in *. split_and!; [done| | |].
      * intros Hss. apply Hnd. rewrite map_app. apply NoDup_app. split_and!; [done| |apply NoDup_singleton].
        intros x Hx. set_solver.
      * intros s [->|(e' & ? & ?)%Hnew]%elem_of_cons; [exists e|exists e']; set_solver.
      * intros e' [->|?]%elem_of_cons; [|auto]. right. rewrite !map_app. set_solver.
Qed.

Lemma add_entries_known entries ss :
  (forall e, e ∈ entries -> oversized e = true \/ re_hash e ∈ map s_hash ss) ->
  add_entries entries (list_to_set (map s_hash ss)) ss = ss.
Proof.
  induction entries as [|e es IH]; intros Hall; [done|]. cbn [add_entries].
  case_decide as Hin; [apply IH; set_solver|].
  destruct (Hall e) as [->|?]; [set_solver| |set_solver].
  rewrite add_entries_seen_irrel by done. apply IH. set_solver.
Qed.

Lemma filter_all {A} (f : A -> bool) l : (forall x, x ∈ l -> f x = true) -> List.filter f l = l.
Proof.
  induction l as [|x l IH]; intros H; [done|]. cbn. rewrite H by set_solver. f_equal. apply IH. set_solver.
Qed.

Lemma filter_sound {A} (f : A -> bool) l x : x ∈ List.filter f l -> f x = true.
Proof. rewrite !list_elem_of_In. by intros [_ ?]%filter_In. Qed.

Lemma merge_checkable file entries s :
  Forall refine_ok entries -> s ∈ merge file entries -> checkable_raw s = true.
Proof.
  intros He. unfold merge.
  destruct (add_entries_spec entries (List.filter checkable_raw (read_bundle_raw file)))
    as (new & -> & _ & Hnew & _).
  intros [Hs|(e & Hin & Ho & ->)%Hnew]%elem_of_app; [by eapply filter_sound|].
  rewrite Forall_forall in He. by apply serialize_checkable; [apply He|].
Qed.

(** * Theorems *)

(** Two entries of the unit tests: [add(v, 42)] with a six byte proof, and the
    same goal over another constant with a two byte proof. *)
Definition sample_goal (c : Z) : list BcfExpr :=
  [rexpr 0x18 64 []; rexpr 0x08 0 [c]; rexpr 0x00 0 [0; 1]].
Definition sample_entries : list RefineEntry :=
  [MkRefineEntry 0x1122334455667788 3 (sample_goal 42) [0xcf; 0x0b; 0; 0; 0xaa; 0xbb] 1;
   MkRefineEntry 0x99 3 (sample_goal 999) [0xde; 0xad] 1].

(** C16. Reading a bundle the writer produced returns exactly the entries that
    were written: hashes, kinds, goal and proof bytes, in order. *)
Theorem bundle_round_trip ss :
  bundle_fits ss -> read_bundle_raw (Some (build_bundle ss)) = ss.
Proof. apply read_build. Qed.

Lemma bundle_round_trip_witness :
  read_bundle_raw (Some (build_bundle (map serialize_entry sample_entries)))
  = map serialize_entry sample_entries.
Proof.
  apply (bundle_round_trip (map serialize_entry sample_entries)).
  split; [apply (bool_decide_unpack _); by vm_compute|done].
Defined.

(** C35. A written bundle passes every validation the kernel is to make on
    [bcf_bundle] and [bcf_bundle_size]; its payloads are u32-aligned, in
    bounds, in the order of the entries and pairwise disjoint; and the size
    returned, the size in the header and the length of the file agree. *)
Theorem written_bundle_valid file entries ptr :
  bundle_fits (merge file entries) -> ptr <> 0 ->
  let '(b, total) := write_bundle file entries in
  Z.of_nat (length b) = total /\ rd_u32 b 8 = Some total /\
  kernel_checks ptr total b = true /\
  exists rs, parse_records (length (merge file entries)) 0 b = Some rs /\
    laid_out (16 + 28 * Z.of_nat (length rs)) total rs = true.
Proof.
  unfold write_bundle. generalize (merge file entries). intros ss [Hs Hb] Hptr.
  pose proof (length_build_bundle ss Hs) as Hl. pose proof (payload_total_nonneg ss Hs).
  assert (bundle_size ss = 16 + 28 * Z.of_nat (length ss) + payload_total ss) as Hsz by done.
  set (base := 16 + 28 * Z.of_nat (length ss)) in *.
  assert (parse_records (length ss) 0 (build_bundle ss) = Some (records ss base)) as Hp.
  { eapply (parse_records_ok ss 0 _ (header_bytes _) (payloads ss) base);
      [done|reflexivity|by rewrite length_header_bytes|lia|lia]. }
  assert (length (records ss base) = length ss) as Hrl.
  { clear. generalize base. induction ss as [|s ss IH]; intros c; [done|]. cbn. by rewrite IH. }
  assert (laid_out base (bundle_size ss) (records ss base) = true) as Hlay.
  { rewrite Hsz. apply records_laid_out; [done|lia|]. unfold base.
    replace (16 + 28 * Z.of_nat (length ss)) with ((4 + 7 * Z.of_nat (length ss)) * 4) by lia.
    apply Z.mod_mul. lia. }
  assert (rd_u32 (build_bundle ss) 8 = Some (bundle_size ss)) as Htot.
  { eapply (rd_u32_slice _ (le_bytes 4 BCF_BUNDLE_MAGIC ++ le_bytes 4 (Z.of_nat (length ss))));
      [|by rewrite length_app, !length_le_bytes|unfold in_u; lia].
    unfold build_bundle, header_bytes. cbn [magic entry_cnt total_size].
    rewrite !(uwrap_small 32) by (unfold in_u; lia). by rewrite <- !app_assoc. }
  split_and!; [done|done| |exists (records ss base); split; [done|by rewrite Hrl]].
  unfold kernel_checks, BUNDLE_HEADER_SIZE, BUNDLE_ENTRY_SIZE.
  assert (rd_u32 (build_bundle ss) 0 = Some BCF_BUNDLE_MAGIC) as ->
    by (by apply (rd_u32_slice _ [] BCF_BUNDLE_MAGIC (drop 4 (build_bundle ss)))).
  assert (rd_u32 (build_bundle ss) 4 = Some (Z.of_nat (length ss))) as ->.
  { eapply (rd_u32_slice _ (le_bytes 4 BCF_BUNDLE_MAGIC)); [|done|unfold in_u; lia].
    unfold build_bundle, header_bytes. cbn [entry_cnt magic]. rewrite (uwrap_small 32 (Z.of_nat (length ss)))
      by (unfold in_u; lia). by rewrite <- !app_assoc. }
  rewrite Htot, Nat2Z.id, Hp, Z.leb_refl.
  rewrite (proj2 (Z.eqb_neq _ _) Hptr), (proj2 (Z.eqb_neq (bundle_size ss) 0)) by lia.
  rewrite (proj2 (Z.leb_le 16 _)), bool_decide_true by (done || lia). cbn [negb Bool.eqb andb].
  rewrite (Z.mul_comm _ 28). fold base. apply (laid_out_within base base) in Hlay as [_ ->]; [done|lia].
Qed.

Lemma written_bundle_valid_witness :
  let '(b, total) := write_bundle None sample_entries in
  Z.of_nat (length b) = total /\ rd_u32 b 8 = Some total /\
  kernel_checks 4096 total b = true /\
  exists rs, parse_records (length (merge None sample_entries)) 0 b = Some rs /\
    laid_out (16 + 28 * Z.of_nat (length rs)) total rs = true.
Proof.
  apply (written_bundle_valid None sample_entries 4096); [|done].
  split; [apply (bool_decide_unpack _); by vm_compute|done].
Defined.

(** Merging: the entries already in the sidecar that the kernel can check
    stay, in order and in front; every new entry is either too large for the
    kernel's checker or its hash is in the bundle; what is added comes from
    the new entries; and no hash occurs twice if none did before. *)
Theorem merge_spec file entries :
  let prior := List.filter checkable_raw (read_bundle_raw file) in
  exists new, merge file entries = prior ++ new /\
    (NoDup (map s_hash prior) -> NoDup (map s_hash (merge file entries))) /\
    (forall s, s ∈ new -> exists e, e ∈ entries /\ oversized e = false /\ s = serialize_entry e) /\
    (forall e, e ∈ entries -> oversized e = true \/ re_hash e ∈ map s_hash (merge file entries)).
Proof.
  intros prior. destruct (add_entries_spec entries prior) as (new & E & Hnd & Hnew & Hall).
  exists new. unfold merge. fold prior. rewrite E. split_and!; done.
Qed.

(** Writing is idempotent: writing the same entries again over the sidecar
    just written changes no byte of it. *)
Theorem write_bundle_idempotent file entries :
  Forall refine_ok entries -> bundle_fits (merge file entries) ->
  write_bundle (Some (fst (write_bundle file entries))) entries = write_bundle file entries.
Proof.
  intros He Hf. unfold write_bundle. cbn [fst].
  assert (merge (Some (build_bundle (merge file entries))) entries = merge file entries) as ->; [|done].
  unfold merge at 1. rewrite read_build by done.
  rewrite filter_all by (intros; by eapply merge_checkable). apply add_entries_known.
  destruct (add_entries_spec entries (List.filter checkable_raw (read_bundle_raw file)))
    as (new & E & _ & _ & Hall).
  unfold merge. rewrite E. done.
Qed.

Lemma write_bundle_idempotent_witness :
  write_bundle (Some (fst (write_bundle None sample_entries))) sample_entries
  = write_bundle None sample_entries.
Proof.
  apply (write_bundle_idempotent None sample_entries).
  - repeat apply Forall_cons_2; try apply Forall_nil_2; (split; [apply (bool_decide_unpack _); by vm_compute|done]).
  - split; [apply (bool_decide_unpack _); by vm_compute|done].
Defined.

(** Both kernel-checkability filters of the writer agree: the number of
    variables counted in a serialized goal is the number of variable
    expressions of its table, so an entry kept when it is new is also kept
    when it is merged from the file. *)
Theorem goal_var_count_agrees e :
  refine_ok e ->
  parse_goal_var_count (serialize_goal (re_root e) (re_exprs e)) = Some (nvars (re_exprs e)) /\
  checkable_raw (serialize_entry e) = negb (oversized e).
Proof.
  intros He. pose proof (parse_goal_vars e He) as Hv. split; [done|].
  unfold checkable_raw, oversized, serialize_entry, MAX_GOAL_BYTES. cbn [s_goal]. rewrite Hv.
  by rewrite negb_orb, <- !Z.leb_antisym.
Qed.

Lemma goal_var_count_agrees_witness :
  let e := MkRefineEntry 7 3 (sample_goal 42) [1] 1 in
  parse_goal_var_count (serialize_goal (re_root e) (re_exprs e)) = Some (nvars (re_exprs e)) /\
  checkable_raw (serialize_entry e) = negb (oversized e).
Proof.
  apply (goal_var_count_agrees (MkRefineEntry 7 3 (sample_goal 42) [1] 1)).
  split; [apply (bool_decide_unpack _); by vm_compute|done].
Defined.

End Bundle.
