(* ===== verification/BpfInsn.v ===== *)
(** BPF instructions as the test converter [convert_tests.c] builds them.

    The constants, the structure [bpf_insn], the instruction macros (each macro
    expands to one or more initialisers, so it is a list of instructions) and
    the layouts of the context structures whose [offsetof] the tests use.
    [uapi_helpers] are the helper identifiers of the kernel header shipped with
    the tests. *)

From S2P Require Import Prelude.
From Stdlib Require Import ZArith Lia String.
From stdpp Require Import base numbers strings gmap list.
Open Scope Z_scope.

Module BpfInsn.

(** * Constants *)

(** Instruction classes *)
Definition BPF_LD : Z := 0x00.
Definition BPF_LDX : Z := 0x01.
Definition BPF_ST : Z := 0x02.
Definition BPF_STX : Z := 0x03.
Definition BPF_ALU : Z := 0x04.
Definition BPF_JMP : Z := 0x05.
Definition BPF_JMP32 : Z := 0x06.
Definition BPF_ALU64 : Z := 0x07.

(** Sizes and modes of loads and stores *)
Definition BPF_DW : Z := 0x18.
Definition BPF_W : Z := 0x00.
Definition BPF_H : Z := 0x08.
Definition BPF_B : Z := 0x10.
Definition BPF_IMM : Z := 0x00.
Definition BPF_ABS : Z := 0x20.
Definition BPF_IND : Z := 0x40.
Definition BPF_MEM : Z := 0x60.
Definition BPF_ATOMIC : Z := 0xc0.

(** Arithmetic and jump operations *)
Definition BPF_ADD : Z := 0x00.
Definition BPF_SUB : Z := 0x10.
Definition BPF_MUL : Z := 0x20.
Definition BPF_DIV : Z := 0x30.
Definition BPF_OR : Z := 0x40.
Definition BPF_AND : Z := 0x50.
Definition BPF_LSH : Z := 0x60.
Definition BPF_RSH : Z := 0x70.
Definition BPF_NEG : Z := 0x80.
Definition BPF_MOD : Z := 0x90.
Definition BPF_XOR : Z := 0xa0.
Definition BPF_MOV : Z := 0xb0.
Definition BPF_ARSH : Z := 0xc0.
Definition BPF_END : Z := 0xd0.
Definition BPF_JA : Z := 0x00.
Definition BPF_JEQ : Z := 0x10.
Definition BPF_JGT : Z := 0x20.
Definition BPF_JGE : Z := 0x30.
Definition BPF_JSET : Z := 0x40.
Definition BPF_JNE : Z := 0x50.
Definition BPF_JLT : Z := 0xa0.
Definition BPF_JLE : Z := 0xb0.
Definition BPF_JSGT : Z := 0x60.
Definition BPF_JSGE : Z := 0x70.
Definition BPF_JSLT : Z := 0xc0.
Definition BPF_JSLE : Z := 0xd0.
Definition BPF_CALL : Z := 0x80.
Definition BPF_EXIT : Z := 0x90.
Definition BPF_K : Z := 0x00.
Definition BPF_X : Z := 0x08.
Definition BPF_FETCH : Z := 0x01.
Definition BPF_XCHG : Z := Z.lor 0xe0 BPF_FETCH.
Definition BPF_CMPXCHG : Z := Z.lor 0xf0 BPF_FETCH.

(** Pseudo sources and endianness *)
Definition BPF_PSEUDO_MAP_FD : Z := 1.
Definition BPF_PSEUDO_MAP_VALUE : Z := 2.
Definition BPF_TO_LE : Z := 0x00.
Definition BPF_TO_BE : Z := 0x08.
Definition BPF_FROM_LE : Z := BPF_TO_LE.
Definition BPF_FROM_BE : Z := BPF_TO_BE.

(** Flags *)
Definition BPF_F_TEST_STATE_FREQ : Z := Z.shiftl 1 3.

(** Limits of the fill helpers *)
Definition MAX_JMP_SEQ : Z := 8192.
Definition MAX_TEST_INSNS : Z := 1000000.
Definition FUNC_NEST : Z := 7.

(** Registers *)
Definition BPF_REG_0 : Z := 0.
Definition BPF_REG_1 : Z := 1.
Definition BPF_REG_2 : Z := 2.
Definition BPF_REG_3 : Z := 3.
Definition BPF_REG_4 : Z := 4.
Definition BPF_REG_5 : Z := 5.
Definition BPF_REG_6 : Z := 6.
Definition BPF_REG_7 : Z := 7.
Definition BPF_REG_8 : Z := 8.
Definition BPF_REG_9 : Z := 9.
Definition BPF_REG_10 : Z := 10.
Definition BPF_REG_FP : Z := BPF_REG_10.
Definition BPF_REG_ARG1 : Z := BPF_REG_1.
Definition BPF_REG_ARG2 : Z := BPF_REG_2.
Definition BPF_REG_ARG3 : Z := BPF_REG_3.
Definition BPF_REG_ARG4 : Z := BPF_REG_4.
Definition BPF_REG_ARG5 : Z := BPF_REG_5.
Definition BPF_REG_CTX : Z := BPF_REG_6.

(** Limits of the test framework *)
Definition MAX_INSNS : Z := 4096.
Definition MAX_FIXUPS : Z := 8.
Definition MAX_ENTRIES : Z := 11.
Definition MAX_DATA : Z := 128.
Definition TEST_DATA_LEN : Z := 64.
Definition POINTER_VALUE : Z := 0xcafe4a.
Definition ETH_HLEN : Z := 14.
Definition F_NEEDS_EFFICIENT_UNALIGNED_ACCESS : Z := Z.shiftl 1 0.
Definition F_LOAD_WITH_STRICT_ALIGNMENT : Z := Z.shiftl 1 1.
Definition BPF_PSEUDO_KFUNC_CALL : Z := 2.

(** Runs *)
Definition MAX_TEST_RUNS : Z := 8.

(** Helper identifiers *)
Definition BPF_FUNC_unspec : Z := 0.
Definition BPF_FUNC_map_lookup_elem : Z := 1.
Definition BPF_FUNC_map_update_elem : Z := 2.
Definition BPF_FUNC_map_delete_elem : Z := 3.
Definition BPF_FUNC_probe_read : Z := 4.
Definition BPF_FUNC_ktime_get_ns : Z := 5.
Definition BPF_FUNC_trace_printk : Z := 6.
Definition BPF_FUNC_get_prandom_u32 : Z := 7.
Definition BPF_FUNC_get_smp_processor_id : Z := 8.
Definition BPF_FUNC_skb_store_bytes : Z := 9.
Definition BPF_FUNC_l3_csum_replace : Z := 10.
Definition BPF_FUNC_l4_csum_replace : Z := 11.
Definition BPF_FUNC_tail_call : Z := 12.
Definition BPF_FUNC_clone_redirect : Z := 13.
Definition BPF_FUNC_get_current_pid_tgid : Z := 14.
Definition BPF_FUNC_get_current_uid_gid : Z := 15.
Definition BPF_FUNC_get_current_comm : Z := 16.
Definition BPF_FUNC_get_cgroup_classid : Z := 17.
Definition BPF_FUNC_skb_vlan_push : Z := 18.
Definition BPF_FUNC_skb_vlan_pop : Z := 19.
Definition BPF_FUNC_skb_get_tunnel_key : Z := 20.
Definition BPF_FUNC_skb_set_tunnel_key : Z := 21.
Definition BPF_FUNC_perf_event_read : Z := 22.
Definition BPF_FUNC_redirect : Z := 23.
Definition BPF_FUNC_get_route_realm : Z := 24.
Definition BPF_FUNC_perf_event_output : Z := 25.
Definition BPF_FUNC_skb_load_bytes : Z := 26.
Definition BPF_FUNC_get_stackid : Z := 27.
Definition BPF_FUNC_csum_diff : Z := 28.
Definition BPF_FUNC_skb_get_tunnel_opt : Z := 29.
Definition BPF_FUNC_skb_set_tunnel_opt : Z := 30.
Definition BPF_FUNC_skb_change_proto : Z := 31.
Definition BPF_FUNC_skb_change_type : Z := 32.
Definition BPF_FUNC_skb_under_cgroup : Z := 33.
Definition BPF_FUNC_get_hash_recalc : Z := 34.
Definition BPF_FUNC_get_current_task : Z := 35.
Definition BPF_FUNC_probe_write_user : Z := 36.
Definition BPF_FUNC_current_task_under_cgroup : Z := 37.
Definition BPF_FUNC_skb_change_tail : Z := 38.
Definition BPF_FUNC_skb_pull_data : Z := 39.
Definition BPF_FUNC_csum_update : Z := 40.
Definition BPF_FUNC_set_hash_invalid : Z := 41.
Definition BPF_FUNC_get_numa_node_id : Z := 42.
Definition BPF_FUNC_skb_change_head : Z := 43.
Definition BPF_FUNC_xdp_adjust_head : Z := 44.
Definition BPF_FUNC_probe_read_str : Z := 45.
Definition BPF_FUNC_get_socket_cookie : Z := 46.
Definition BPF_FUNC_get_socket_uid : Z := 47.
Definition BPF_FUNC_set_hash : Z := 48.
Definition BPF_FUNC_setsockopt : Z := 49.
Definition BPF_FUNC_skb_adjust_room : Z := 50.
Definition BPF_FUNC_redirect_map : Z := 51.
Definition BPF_FUNC_sk_redirect_map : Z := 52.
Definition BPF_FUNC_sock_map_update : Z := 53.
Definition BPF_FUNC_xdp_adjust_meta : Z := 54.
Definition BPF_FUNC_perf_event_read_value : Z := 55.
Definition BPF_FUNC_perf_prog_read_value : Z := 56.
Definition BPF_FUNC_getsockopt : Z := 57.
Definition BPF_FUNC_override_return : Z := 58.
Definition BPF_FUNC_sock_ops_cb_flags_set : Z := 59.
Definition BPF_FUNC_msg_redirect_map : Z := 60.
Definition BPF_FUNC_msg_apply_bytes : Z := 61.
Definition BPF_FUNC_msg_cork_bytes : Z := 62.
Definition BPF_FUNC_msg_pull_data : Z := 63.
Definition BPF_FUNC_bind : Z := 64.
Definition BPF_FUNC_xdp_adjust_tail : Z := 65.
Definition BPF_FUNC_skb_get_xfrm_state : Z := 66.
Definition BPF_FUNC_get_stack : Z := 67.
Definition BPF_FUNC_skb_load_bytes_relative : Z := 68.
Definition BPF_FUNC_fib_lookup : Z := 69.
Definition BPF_FUNC_sock_hash_update : Z := 70.
Definition BPF_FUNC_msg_redirect_hash : Z := 71.
Definition BPF_FUNC_sk_redirect_hash : Z := 72.
Definition BPF_FUNC_lwt_push_encap : Z := 73.
Definition BPF_FUNC_lwt_seg6_store_bytes : Z := 74.
Definition BPF_FUNC_lwt_seg6_adjust_srh : Z := 75.
Definition BPF_FUNC_lwt_seg6_action : Z := 76.
Definition BPF_FUNC_rc_repeat : Z := 77.
Definition BPF_FUNC_rc_keydown : Z := 78.
Definition BPF_FUNC_skb_cgroup_id : Z := 79.
Definition BPF_FUNC_get_current_cgroup_id : Z := 80.
Definition BPF_FUNC_get_local_storage : Z := 81.
Definition BPF_FUNC_sk_select_reuseport : Z := 82.
Definition BPF_FUNC_skb_ancestor_cgroup_id : Z := 83.
Definition BPF_FUNC_sk_lookup_tcp : Z := 84.
Definition BPF_FUNC_sk_lookup_udp : Z := 85.
Definition BPF_FUNC_sk_release : Z := 86.
Definition BPF_FUNC_map_push_elem : Z := 87.
Definition BPF_FUNC_map_pop_elem : Z := 88.
Definition BPF_FUNC_map_peek_elem : Z := 89.
Definition BPF_FUNC_msg_push_data : Z := 90.
Definition BPF_FUNC_msg_pop_data : Z := 91.
Definition BPF_FUNC_rc_pointer_rel : Z := 92.
Definition BPF_FUNC_spin_lock : Z := 93.
Definition BPF_FUNC_spin_unlock : Z := 94.
Definition BPF_FUNC_strtoul : Z := 106.
Definition BPF_FUNC_sk_storage_get : Z := 107.
Definition BPF_FUNC_probe_read_kernel : Z := 113.
Definition BPF_FUNC_seq_write : Z := 127.
Definition BPF_FUNC_ringbuf_output : Z := 130.
Definition BPF_FUNC_ringbuf_reserve : Z := 131.
Definition BPF_FUNC_ringbuf_submit : Z := 132.
Definition BPF_FUNC_ringbuf_discard : Z := 133.
Definition BPF_FUNC_ringbuf_query : Z := 134.
Definition BPF_FUNC_skc_to_tcp_request_sock : Z := 139.
Definition BPF_FUNC_get_task_stack : Z := 141.
Definition BPF_FUNC_d_path : Z := 147.
Definition BPF_FUNC_get_netns_cookie : Z := 97.
Definition BPF_FUNC_get_current_ancestor_cgroup_id : Z := 98.
Definition BPF_FUNC_check_mtu : Z := 99.
Definition BPF_FUNC_for_each_map_elem : Z := 164.
Definition BPF_FUNC_snprintf : Z := 165.
Definition BPF_FUNC_skc_lookup_tcp : Z := 99.
Definition BPF_FUNC_sk_fullsock : Z := 95.
Definition BPF_FUNC_tcp_sock : Z := 96.
Definition BPF_FUNC_get_listener_sock : Z := 98.
Definition BPF_FUNC_skc_to_tcp_sock : Z := 140.

(** [enum bpf_prog_type] *)
Definition BPF_PROG_TYPE_UNSPEC : Z := 0.
Definition BPF_PROG_TYPE_SOCKET_FILTER : Z := 1.
Definition BPF_PROG_TYPE_KPROBE : Z := 2.
Definition BPF_PROG_TYPE_SCHED_CLS : Z := 3.
Definition BPF_PROG_TYPE_SCHED_ACT : Z := 4.
Definition BPF_PROG_TYPE_TRACEPOINT : Z := 5.
Definition BPF_PROG_TYPE_XDP : Z := 6.
Definition BPF_PROG_TYPE_PERF_EVENT : Z := 7.
Definition BPF_PROG_TYPE_CGROUP_SKB : Z := 8.
Definition BPF_PROG_TYPE_CGROUP_SOCK : Z := 9.
Definition BPF_PROG_TYPE_LWT_IN : Z := 10.
Definition BPF_PROG_TYPE_LWT_OUT : Z := 11.
Definition BPF_PROG_TYPE_LWT_XMIT : Z := 12.
Definition BPF_PROG_TYPE_SOCK_OPS : Z := 13.
Definition BPF_PROG_TYPE_SK_SKB : Z := 14.
Definition BPF_PROG_TYPE_CGROUP_DEVICE : Z := 15.
Definition BPF_PROG_TYPE_SK_MSG : Z := 16.
Definition BPF_PROG_TYPE_RAW_TRACEPOINT : Z := 17.
Definition BPF_PROG_TYPE_CGROUP_SOCK_ADDR : Z := 18.
Definition BPF_PROG_TYPE_LWT_SEG6LOCAL : Z := 19.
Definition BPF_PROG_TYPE_LIRC_MODE2 : Z := 20.
Definition BPF_PROG_TYPE_SK_REUSEPORT : Z := 21.
Definition BPF_PROG_TYPE_FLOW_DISSECTOR : Z := 22.
Definition BPF_PROG_TYPE_CGROUP_SYSCTL : Z := 23.
Definition BPF_PROG_TYPE_RAW_TRACEPOINT_WRITABLE : Z := 24.
Definition BPF_PROG_TYPE_CGROUP_SOCKOPT : Z := 25.
Definition BPF_PROG_TYPE_TRACING : Z := 26.
Definition BPF_PROG_TYPE_STRUCT_OPS : Z := 27.
Definition BPF_PROG_TYPE_EXT : Z := 28.
Definition BPF_PROG_TYPE_LSM : Z := 29.
Definition BPF_PROG_TYPE_SK_LOOKUP : Z := 30.
Definition BPF_PROG_TYPE_SYSCALL : Z := 31.

(** [enum bpf_attach_type] *)
Definition BPF_CGROUP_INET_INGRESS : Z := 0.
Definition BPF_CGROUP_INET_EGRESS : Z := 1.
Definition BPF_CGROUP_INET_SOCK_CREATE : Z := 2.
Definition BPF_CGROUP_SOCK_OPS : Z := 3.
Definition BPF_SK_SKB_STREAM_PARSER : Z := 4.
Definition BPF_SK_SKB_STREAM_VERDICT : Z := 5.
Definition BPF_CGROUP_DEVICE : Z := 6.
Definition BPF_SK_MSG_VERDICT : Z := 7.
Definition BPF_CGROUP_INET4_BIND : Z := 8.
Definition BPF_CGROUP_INET6_BIND : Z := 9.
Definition BPF_CGROUP_INET4_CONNECT : Z := 10.
Definition BPF_CGROUP_INET6_CONNECT : Z := 11.
Definition BPF_CGROUP_INET4_POST_BIND : Z := 12.
Definition BPF_CGROUP_INET6_POST_BIND : Z := 13.
Definition BPF_CGROUP_UDP4_SENDMSG : Z := 14.
Definition BPF_CGROUP_UDP6_SENDMSG : Z := 15.
Definition BPF_LIRC_MODE2 : Z := 16.
Definition BPF_FLOW_DISSECTOR : Z := 17.
Definition BPF_CGROUP_SYSCTL : Z := 18.
Definition BPF_CGROUP_UDP4_RECVMSG : Z := 19.
Definition BPF_CGROUP_UDP6_RECVMSG : Z := 20.
Definition BPF_CGROUP_GETSOCKOPT : Z := 21.
Definition BPF_CGROUP_SETSOCKOPT : Z := 22.
Definition BPF_TRACE_RAW_TP : Z := 23.
Definition BPF_TRACE_FENTRY : Z := 24.
Definition BPF_TRACE_FEXIT : Z := 25.
Definition BPF_MODIFY_RETURN : Z := 26.
Definition BPF_LSM_MAC : Z := 27.
Definition BPF_TRACE_ITER : Z := 28.
Definition BPF_CGROUP_INET4_GETPEERNAME : Z := 29.
Definition BPF_CGROUP_INET6_GETPEERNAME : Z := 30.
Definition BPF_CGROUP_INET4_GETSOCKNAME : Z := 31.
Definition BPF_CGROUP_INET6_GETSOCKNAME : Z := 32.
Definition BPF_XDP_DEVMAP : Z := 33.
Definition BPF_CGROUP_INET_SOCK_RELEASE : Z := 34.
Definition BPF_XDP_CPUMAP : Z := 35.
Definition BPF_SK_LOOKUP : Z := 36.
Definition BPF_XDP : Z := 37.
Definition BPF_SK_SKB_VERDICT : Z := 38.
Definition BPF_SK_REUSEPORT_SELECT : Z := 39.
Definition BPF_SK_REUSEPORT_SELECT_OR_MIGRATE : Z := 40.
Definition BPF_PERF_EVENT : Z := 41.
Definition BPF_TRACE_KPROBE_MULTI : Z := 42.
Definition BPF_LSM_CGROUP : Z := 43.
Definition __MAX_BPF_ATTACH_TYPE : Z := 44.

(** Expected results of a test *)
Definition UNDEF : Z := 0.
Definition ACCEPT : Z := 1.
Definition REJECT : Z := 2.
Definition VERBOSE_ACCEPT : Z := 3.

(** * Instructions *)

(** [struct bpf_insn] *)
Record bpf_insn := MkInsn { code : Z; dst_reg : Z; src_reg : Z; off : Z; imm : Z }.

#[export] Instance bpf_insn_eq_dec : EqDecision bpf_insn.
Proof. solve_decision. Defined.

(** The conversions of an initialiser to the field types [__u8], [__u8:4],
    [__u8:4], [__s16], [__s32]. *)
Definition insn (code dst src off imm : Z) : bpf_insn :=
  MkInsn (u8 code) (uwrap 4 dst) (uwrap 4 src) (s16 off) (s32 imm).

Definition insn_ok (i : bpf_insn) : Prop :=
  in_u 8 (code i) /\ in_u 4 (dst_reg i) /\ in_u 4 (src_reg i) /\ in_s 16 (off i) /\ in_s 32 (imm i).

Definition BPF_OP (code : Z) : Z := Z.land code 0xf0.
Definition BPF_SIZE (code : Z) : Z := Z.land code 0x18.
Definition BPF_SRC (code : Z) : Z := Z.land code 0x08.

Infix ".|" := Z.lor (at level 50, left associativity).

Definition BPF_ALU64_REG (OP DST SRC : Z) := [insn (BPF_ALU64 .| BPF_OP OP .| BPF_X) DST SRC 0 0].
Definition BPF_ALU32_REG (OP DST SRC : Z) := [insn (BPF_ALU .| BPF_OP OP .| BPF_X) DST SRC 0 0].
Definition BPF_ALU64_IMM (OP DST IMM : Z) := [insn (BPF_ALU64 .| BPF_OP OP .| BPF_K) DST 0 0 IMM].
Definition BPF_ALU32_IMM (OP DST IMM : Z) := [insn (BPF_ALU .| BPF_OP OP .| BPF_K) DST 0 0 IMM].
Definition BPF_MOV64_REG (DST SRC : Z) := [insn (BPF_ALU64 .| BPF_MOV .| BPF_X) DST SRC 0 0].
Definition BPF_MOV32_REG (DST SRC : Z) := [insn (BPF_ALU .| BPF_MOV .| BPF_X) DST SRC 0 0].
Definition BPF_MOV64_IMM (DST IMM : Z) := [insn (BPF_ALU64 .| BPF_MOV .| BPF_K) DST 0 0 IMM].
Definition BPF_MOV32_IMM (DST IMM : Z) := [insn (BPF_ALU .| BPF_MOV .| BPF_K) DST 0 0 IMM].

Definition BPF_LD_IMM64_RAW (DST SRC IMM : Z) :=
  [insn (BPF_LD .| BPF_DW .| BPF_IMM) DST SRC 0 (u32 IMM);
   insn 0 0 0 0 (Z.shiftr (u64 IMM) 32)].
Definition BPF_LD_IMM64 (DST IMM : Z) := BPF_LD_IMM64_RAW DST 0 IMM.
Definition BPF_LD_MAP_FD (DST MAP_FD : Z) := BPF_LD_IMM64_RAW DST BPF_PSEUDO_MAP_FD MAP_FD.

Definition BPF_LD_ABS (SIZE IMM : Z) := [insn (BPF_LD .| BPF_SIZE SIZE .| BPF_ABS) 0 0 0 IMM].
Definition BPF_LD_IND (SIZE SRC IMM : Z) := [insn (BPF_LD .| BPF_SIZE SIZE .| BPF_IND) 0 SRC 0 IMM].
Definition BPF_LDX_MEM (SIZE DST SRC OFF : Z) :=
  [insn (BPF_LDX .| BPF_SIZE SIZE .| BPF_MEM) DST SRC OFF 0].
Definition BPF_STX_MEM (SIZE DST SRC OFF : Z) :=
  [insn (BPF_STX .| BPF_SIZE SIZE .| BPF_MEM) DST SRC OFF 0].
Definition BPF_ST_MEM (SIZE DST OFF IMM : Z) :=
  [insn (BPF_ST .| BPF_SIZE SIZE .| BPF_MEM) DST 0 OFF IMM].
Definition BPF_ATOMIC_OP (SIZE OP DST SRC OFF : Z) :=
  [insn (BPF_STX .| BPF_SIZE SIZE .| BPF_ATOMIC) DST SRC OFF OP].
Definition BPF_STX_XADD (SIZE DST SRC OFF : Z) := BPF_ATOMIC_OP SIZE BPF_ADD DST SRC OFF.

Definition BPF_JMP_REG (OP DST SRC OFF : Z) := [insn (BPF_JMP .| BPF_OP OP .| BPF_X) DST SRC OFF 0].
Definition BPF_JMP32_REG (OP DST SRC OFF : Z) :=
  [insn (BPF_JMP32 .| BPF_OP OP .| BPF_X) DST SRC OFF 0].
Definition BPF_JMP_IMM (OP DST IMM OFF : Z) := [insn (BPF_JMP .| BPF_OP OP .| BPF_K) DST 0 OFF IMM].
Definition BPF_JMP32_IMM (OP DST IMM OFF : Z) :=
  [insn (BPF_JMP32 .| BPF_OP OP .| BPF_K) DST 0 OFF IMM].
Definition BPF_JMP_A (OFF : Z) := [insn (BPF_JMP .| BPF_JA) 0 0 OFF 0].
Definition BPF_CALL_REL (TGT : Z) := [insn (BPF_JMP .| BPF_CALL) 0 1 0 TGT].
Definition BPF_RAW_INSN (CODE DST SRC OFF IMM : Z) := [insn CODE DST SRC OFF IMM].
Definition BPF_EXIT_INSN := [insn (BPF_JMP .| BPF_EXIT) 0 0 0 0].
Definition BPF_ENDIAN (TYPE DST LEN : Z) := [insn (BPF_ALU .| BPF_END .| BPF_SRC TYPE) DST 0 0 LEN].
Definition BPF_EMIT_CALL (FUNC : Z) := BPF_RAW_INSN (BPF_JMP .| BPF_CALL) 0 0 0 FUNC.

(** * Context structures *)

(** C types with the layout of the x86-64 ABI. *)
Inductive ctype : Type :=
| Scalar (size : Z)
| Array (t : ctype) (n : Z)
| Struct (fields : list (string * ctype))
| Union (fields : list (string * ctype)).

Definition align_up (n a : Z) : Z := (n + a - 1) / a * a.

Fixpoint alignof (t : ctype) : Z :=
  match t with
  | Scalar n => n
  | Array t _ => alignof t
  | Struct fs | Union fs =>
      (fix go fs := match fs with [] => 1 | (_, t) :: fs => Z.max (alignof t) (go fs) end) fs
  end.

Fixpoint sizeof (t : ctype) : Z :=
  match t with
  | Scalar n => n
  | Array t n => sizeof t * n
  | Struct fs =>
      align_up ((fix go o fs := match fs with
        | [] => o
        | (_, t) :: fs => go (align_up o (alignof t) + sizeof t) fs end) 0 fs) (alignof (Struct fs))
  | Union fs =>
      align_up ((fix go fs := match fs with
        | [] => 0
        | (_, t) :: fs => Z.max (sizeof t) (go fs) end) fs) (alignof (Union fs))
  end.

(** Offset and type of a member, looking into anonymous members. *)
Fixpoint member (t : ctype) (name : string) : option (Z * ctype) :=
  match t with
  | Struct fs =>
      (fix go o fs := match fs with
        | [] => None
        | (n, t) :: fs =>
            let o' := align_up o (alignof t) in
            if String.eqb n name then Some (o', t)
            else match (if String.eqb n "" then member t name else None) with
                 | Some (i, ti) => Some (o' + i, ti)
                 | None => go (o' + sizeof t) fs
                 end
        end) 0 fs
  | Union fs =>
      (fix go fs := match fs with
        | [] => None
        | (n, t) :: fs =>
            if String.eqb n name then Some (0, t)
            else match (if String.eqb n "" then member t name else None) with
                 | Some r => Some r
                 | None => go fs
                 end
        end) fs
  | _ => None
  end.

Definition offsetof (t : ctype) (name : string) : Z :=
  match member t name with Some (o, _) => o | None => 0 end.

(** [offsetof(struct s, a[i])] *)
Definition offsetof_idx (t : ctype) (name : string) (i : Z) : Z :=
  match member t name with
  | Some (o, Array u _) => o + i * sizeof u
  | _ => 0
  end.

Definition offsetofend (t : ctype) (name : string) : Z :=
  match member t name with Some (o, u) => o + sizeof u | None => 0 end.

Definition __sk_buff : ctype := Struct [("len", Scalar 4); ("pkt_type", Scalar 4);
   ("mark", Scalar 4); ("queue_mapping", Scalar 4); ("protocol", Scalar 4);
   ("vlan_present", Scalar 4); ("vlan_tci", Scalar 4); ("vlan_proto", Scalar 4);
   ("priority", Scalar 4); ("ingress_ifindex", Scalar 4); ("ifindex", Scalar 4);
   ("tc_index", Scalar 4); ("cb", Array (Scalar 4) 5); ("hash", Scalar 4);
   ("tc_classid", Scalar 4); ("data", Scalar 4); ("data_end", Scalar 4);
   ("napi_id", Scalar 4); ("family", Scalar 4); ("remote_ip4", Scalar 4);
   ("local_ip4", Scalar 4); ("remote_ip6", Array (Scalar 4) 4); ("local_ip6",
   Array (Scalar 4) 4); ("remote_port", Scalar 4); ("local_port", Scalar 4);
   ("data_meta", Scalar 4); ("flow_keys", Scalar 8); ("tstamp", Scalar 8);
   ("wire_len", Scalar 4); ("gso_segs", Scalar 4); ("sk", Scalar 8);
   ("gso_size", Scalar 4)].
Definition xdp_md : ctype := Struct [("data", Scalar 4); ("data_end", Scalar 4);
   ("data_meta", Scalar 4); ("ingress_ifindex", Scalar 4); ("rx_queue_index",
   Scalar 4); ("egress_ifindex", Scalar 4)].
Definition bpf_sk_lookup : ctype := Struct [("", Union [("sk", Scalar 8);
   ("cookie", Scalar 8)]); ("family", Scalar 4); ("protocol", Scalar 4);
   ("remote_ip4", Scalar 4); ("remote_ip6", Array (Scalar 4) 4); ("remote_port",
   Scalar 2); ("", Scalar 2); ("local_ip4", Scalar 4); ("local_ip6", Array (Scalar
   4) 4); ("local_port", Scalar 4)].
Definition sk_msg_md : ctype := Struct [("data", Scalar 8); ("data_end", Scalar 8);
   ("family", Scalar 4); ("remote_ip4", Scalar 4); ("local_ip4", Scalar 4);
   ("remote_ip6", Array (Scalar 4) 4); ("local_ip6", Array (Scalar 4) 4);
   ("remote_port", Scalar 4); ("local_port", Scalar 4); ("size", Scalar 4);
   ("sk", Scalar 8)].
Definition bpf_perf_event_data : ctype := Struct [("regs", Array (Scalar 8) 21);
   ("sample_period", Scalar 8); ("addr", Scalar 8)].
Definition bpf_sock_tuple : ctype := Struct [("", Union [("ipv4", Struct
   [("saddr", Scalar 4); ("daddr", Scalar 4); ("sport", Scalar 2);
   ("dport", Scalar 2)]); ("ipv6", Struct [("saddr", Array (Scalar 4) 4);
   ("daddr", Array (Scalar 4) 4); ("sport", Scalar 2); ("dport", Scalar 2)])])].
Definition bpf_sock : ctype := Struct [("bound_dev_if", Scalar 4); ("family", Scalar
   4); ("type", Scalar 4); ("protocol", Scalar 4); ("mark", Scalar 4);
   ("priority", Scalar 4); ("src_ip4", Scalar 4); ("src_ip6", Array (Scalar 4) 4);
   ("src_port", Scalar 4); ("dst_port", Scalar 4); ("dst_ip4", Scalar 4);
   ("dst_ip6", Array (Scalar 4) 4); ("state", Scalar 4); ("rx_queue_mapping",
   Scalar 4)].
Definition bpf_tcp_sock : ctype := Struct [("snd_cwnd", Scalar 4); ("srtt_us", Scalar
   4); ("rtt_min", Scalar 4); ("snd_ssthresh", Scalar 4); ("rcv_nxt", Scalar 4);
   ("snd_nxt", Scalar 4); ("snd_una", Scalar 4); ("mss_cache", Scalar 4);
   ("ecn_flags", Scalar 4); ("rate_delivered", Scalar 4); ("rate_interval_us",
   Scalar 4); ("packets_out", Scalar 4); ("retrans_out", Scalar 4);
   ("total_retrans", Scalar 4); ("segs_in", Scalar 4); ("data_segs_in", Scalar 4);
   ("segs_out", Scalar 4); ("data_segs_out", Scalar 4); ("lost_out", Scalar 4);
   ("sacked_out", Scalar 4); ("bytes_received", Scalar 8); ("bytes_acked", Scalar
   8)].
Definition bpf_xdp_sock : ctype := Struct [("queue_id", Scalar 4)].
Definition bpf_sock_ops : ctype := Struct [("op", Scalar 4); ("", Union
   [("args", Array (Scalar 4) 4); ("reply", Scalar 4); ("replylong", Array (Scalar
   4) 4)]); ("family", Scalar 4); ("remote_ip4", Scalar 4); ("local_ip4", Scalar
   4); ("remote_ip6", Array (Scalar 4) 4); ("local_ip6", Array (Scalar 4) 4);
   ("remote_port", Scalar 4); ("local_port", Scalar 4); ("is_fullsock", Scalar 4);
   ("snd_cwnd", Scalar 4); ("srtt_us", Scalar 4); ("bpf_sock_ops_cb_flags", Scalar
   4); ("state", Scalar 4); ("rtt_min", Scalar 4); ("snd_ssthresh", Scalar 4);
   ("rcv_nxt", Scalar 4); ("snd_nxt", Scalar 4); ("snd_una", Scalar 4);
   ("mss_cache", Scalar 4); ("ecn_flags", Scalar 4); ("rate_delivered", Scalar 4);
   ("rate_interval_us", Scalar 4); ("packets_out", Scalar 4); ("retrans_out",
   Scalar 4); ("total_retrans", Scalar 4); ("segs_in", Scalar 4); ("data_segs_in",
   Scalar 4); ("segs_out", Scalar 4); ("data_segs_out", Scalar 4); ("lost_out",
   Scalar 4); ("sacked_out", Scalar 4); ("sk_txhash", Scalar 4);
   ("bytes_received", Scalar 8); ("bytes_acked", Scalar 8); ("sk", Scalar 8);
   ("skb_data", Scalar 8); ("skb_data_end", Scalar 8); ("skb_len", Scalar 4);
   ("skb_tcp_flags", Scalar 4)].
Definition bpf_sock_addr : ctype := Struct [("user_family", Scalar 4); ("user_ip4",
   Scalar 4); ("user_ip6", Array (Scalar 4) 4); ("user_port", Scalar 4);
   ("family", Scalar 4); ("type", Scalar 4); ("protocol", Scalar 4);
   ("msg_src_ip4", Scalar 4); ("msg_src_ip6", Array (Scalar 4) 4); ("sk", Scalar
   8)].
Definition test_val : ctype := Struct [("index", Scalar 4); ("foo", Array (Scalar 4)
   MAX_ENTRIES)].
Definition other_val : ctype := Struct [("foo", Scalar 8); ("bar", Scalar 8)].


(** * Macros that expand to several instructions *)

Definition BPF_DIRECT_PKT_R2 : list bpf_insn :=
  BPF_MOV64_IMM BPF_REG_0 0 ++
  BPF_LDX_MEM BPF_W BPF_REG_2 BPF_REG_1 (offsetof __sk_buff "data") ++
  BPF_LDX_MEM BPF_W BPF_REG_3 BPF_REG_1 (offsetof __sk_buff "data_end") ++
  BPF_MOV64_REG BPF_REG_4 BPF_REG_2 ++
  BPF_ALU64_IMM BPF_ADD BPF_REG_4 8 ++
  BPF_JMP_REG BPF_JLE BPF_REG_4 BPF_REG_3 1 ++
  BPF_EXIT_INSN.

Definition BPF_RAND_UEXT_R7 : list bpf_insn :=
  BPF_RAW_INSN (BPF_JMP .| BPF_CALL) 0 0 0 BPF_FUNC_get_prandom_u32 ++
  BPF_MOV64_REG BPF_REG_7 BPF_REG_0 ++
  BPF_ALU64_IMM BPF_LSH BPF_REG_7 33 ++
  BPF_ALU64_IMM BPF_RSH BPF_REG_7 33.

Definition BPF_RAND_SEXT_R7 : list bpf_insn :=
  BPF_RAW_INSN (BPF_JMP .| BPF_CALL) 0 0 0 BPF_FUNC_get_prandom_u32 ++
  BPF_ALU64_IMM BPF_LSH BPF_REG_0 32 ++
  BPF_ALU64_IMM BPF_ARSH BPF_REG_0 32 ++
  BPF_MOV64_REG BPF_REG_7 BPF_REG_0.

Definition BPF_SK_LOOKUP_insns (func : Z) : list bpf_insn :=
  BPF_MOV64_IMM BPF_REG_2 0 ++
  BPF_STX_MEM BPF_W BPF_REG_10 BPF_REG_2 (-8) ++
  BPF_STX_MEM BPF_DW BPF_REG_10 BPF_REG_2 (-16) ++
  BPF_STX_MEM BPF_DW BPF_REG_10 BPF_REG_2 (-24) ++
  BPF_STX_MEM BPF_DW BPF_REG_10 BPF_REG_2 (-32) ++
  BPF_STX_MEM BPF_DW BPF_REG_10 BPF_REG_2 (-40) ++
  BPF_STX_MEM BPF_DW BPF_REG_10 BPF_REG_2 (-48) ++
  BPF_MOV64_REG BPF_REG_2 BPF_REG_10 ++
  BPF_ALU64_IMM BPF_ADD BPF_REG_2 (-48) ++
  BPF_MOV64_IMM BPF_REG_3 (sizeof bpf_sock_tuple) ++
  BPF_MOV64_IMM BPF_REG_4 0 ++
  BPF_MOV64_IMM BPF_REG_5 0 ++
  BPF_EMIT_CALL func.

(** * Helper identifiers of the kernel *)

Definition uapi_helpers_low : list (string * Z) := [("unspec", 0); ("map_lookup_elem", 1);
   ("map_update_elem", 2); ("map_delete_elem", 3); ("probe_read", 4); ("ktime_get_ns", 5);
   ("trace_printk", 6); ("get_prandom_u32", 7); ("get_smp_processor_id", 8); ("skb_store_bytes", 9);
   ("l3_csum_replace", 10); ("l4_csum_replace", 11); ("tail_call", 12); ("clone_redirect", 13);
   ("get_current_pid_tgid", 14); ("get_current_uid_gid", 15); ("get_current_comm", 16);
   ("get_cgroup_classid", 17); ("skb_vlan_push", 18); ("skb_vlan_pop", 19); ("skb_get_tunnel_key", 20);
   ("skb_set_tunnel_key", 21); ("perf_event_read", 22); ("redirect", 23); ("get_route_realm", 24);
   ("perf_event_output", 25); ("skb_load_bytes", 26); ("get_stackid", 27); ("csum_diff", 28);
   ("skb_get_tunnel_opt", 29); ("skb_set_tunnel_opt", 30); ("skb_change_proto", 31);
   ("skb_change_type", 32); ("skb_under_cgroup", 33); ("get_hash_recalc", 34); ("get_current_task",
   35); ("probe_write_user", 36); ("current_task_under_cgroup", 37); ("skb_change_tail", 38);
   ("skb_pull_data", 39); ("csum_update", 40); ("set_hash_invalid", 41); ("get_numa_node_id", 42);
   ("skb_change_head", 43); ("xdp_adjust_head", 44); ("probe_read_str", 45); ("get_socket_cookie", 46);
   ("get_socket_uid", 47); ("set_hash", 48); ("setsockopt", 49); ("skb_adjust_room", 50);
   ("redirect_map", 51); ("sk_redirect_map", 52); ("sock_map_update", 53); ("xdp_adjust_meta", 54);
   ("perf_event_read_value", 55); ("perf_prog_read_value", 56); ("getsockopt", 57); ("override_return",
   58); ("sock_ops_cb_flags_set", 59); ("msg_redirect_map", 60); ("msg_apply_bytes", 61);
   ("msg_cork_bytes", 62); ("msg_pull_data", 63); ("bind", 64); ("xdp_adjust_tail", 65);
   ("skb_get_xfrm_state", 66); ("get_stack", 67); ("skb_load_bytes_relative", 68); ("fib_lookup", 69);
   ("sock_hash_update", 70); ("msg_redirect_hash", 71); ("sk_redirect_hash", 72); ("lwt_push_encap",
   73); ("lwt_seg6_store_bytes", 74); ("lwt_seg6_adjust_srh", 75); ("lwt_seg6_action", 76);
   ("rc_repeat", 77); ("rc_keydown", 78); ("skb_cgroup_id", 79); ("get_current_cgroup_id", 80);
   ("get_local_storage", 81); ("sk_select_reuseport", 82); ("skb_ancestor_cgroup_id", 83);
   ("sk_lookup_tcp", 84); ("sk_lookup_udp", 85); ("sk_release", 86); ("map_push_elem", 87);
   ("map_pop_elem", 88); ("map_peek_elem", 89); ("msg_push_data", 90); ("msg_pop_data", 91);
   ("rc_pointer_rel", 92); ("spin_lock", 93); ("spin_unlock", 94); ("sk_fullsock", 95); ("tcp_sock",
   96); ("skb_ecn_set_ce", 97); ("get_listener_sock", 98); ("skc_lookup_tcp", 99);
   ("tcp_check_syncookie", 100); ("sysctl_get_name", 101); ("sysctl_get_current_value", 102);
   ("sysctl_get_new_value", 103); ("sysctl_set_new_value", 104); ("strtol", 105)].
Definition uapi_helpers_high : list (string * Z) := [("strtoul", 106); ("sk_storage_get", 107);
   ("sk_storage_delete", 108); ("send_signal", 109); ("tcp_gen_syncookie", 110); ("skb_output", 111);
   ("probe_read_user", 112); ("probe_read_kernel", 113); ("probe_read_user_str", 114);
   ("probe_read_kernel_str", 115); ("tcp_send_ack", 116); ("send_signal_thread", 117); ("jiffies64",
   118); ("read_branch_records", 119); ("get_ns_current_pid_tgid", 120); ("xdp_output", 121);
   ("get_netns_cookie", 122); ("get_current_ancestor_cgroup_id", 123); ("sk_assign", 124);
   ("ktime_get_boot_ns", 125); ("seq_printf", 126); ("seq_write", 127); ("sk_cgroup_id", 128);
   ("sk_ancestor_cgroup_id", 129); ("ringbuf_output", 130); ("ringbuf_reserve", 131);
   ("ringbuf_submit", 132); ("ringbuf_discard", 133); ("ringbuf_query", 134); ("csum_level", 135);
   ("skc_to_tcp6_sock", 136); ("skc_to_tcp_sock", 137); ("skc_to_tcp_timewait_sock", 138);
   ("skc_to_tcp_request_sock", 139); ("skc_to_udp6_sock", 140); ("get_task_stack", 141);
   ("load_hdr_opt", 142); ("store_hdr_opt", 143); ("reserve_hdr_opt", 144); ("inode_storage_get", 145);
   ("inode_storage_delete", 146); ("d_path", 147); ("copy_from_user", 148); ("snprintf_btf", 149);
   ("seq_printf_btf", 150); ("skb_cgroup_classid", 151); ("redirect_neigh", 152); ("per_cpu_ptr", 153);
   ("this_cpu_ptr", 154); ("redirect_peer", 155); ("task_storage_get", 156); ("task_storage_delete",
   157); ("get_current_task_btf", 158); ("bprm_opts_set", 159); ("ktime_get_coarse_ns", 160);
   ("ima_inode_hash", 161); ("sock_from_file", 162); ("check_mtu", 163); ("for_each_map_elem", 164);
   ("snprintf", 165); ("sys_bpf", 166); ("btf_find_by_name_kind", 167); ("sys_close", 168);
   ("timer_init", 169); ("timer_set_callback", 170); ("timer_start", 171); ("timer_cancel", 172);
   ("get_func_ip", 173); ("get_attach_cookie", 174); ("task_pt_regs", 175); ("get_branch_snapshot",
   176); ("trace_vprintk", 177); ("skc_to_unix_sock", 178); ("kallsyms_lookup_name", 179); ("find_vma",
   180); ("loop", 181); ("strncmp", 182); ("get_func_arg", 183); ("get_func_ret", 184);
   ("get_func_arg_cnt", 185); ("get_retval", 186); ("set_retval", 187); ("xdp_get_buff_len", 188);
   ("xdp_load_bytes", 189); ("xdp_store_bytes", 190); ("copy_from_user_task", 191); ("skb_set_tstamp",
   192); ("ima_file_hash", 193); ("kptr_xchg", 194); ("map_lookup_percpu_elem", 195);
   ("skc_to_mptcp_sock", 196); ("dynptr_from_mem", 197); ("ringbuf_reserve_dynptr", 198);
   ("ringbuf_submit_dynptr", 199); ("ringbuf_discard_dynptr", 200); ("dynptr_read", 201);
   ("dynptr_write", 202); ("dynptr_data", 203); ("tcp_raw_gen_syncookie_ipv4", 204);
   ("tcp_raw_gen_syncookie_ipv6", 205); ("tcp_raw_check_syncookie_ipv4", 206);
   ("tcp_raw_check_syncookie_ipv6", 207); ("ktime_get_tai_ns", 208); ("user_ringbuf_drain", 209);
   ("cgrp_storage_get", 210); ("cgrp_storage_delete", 211)].
Definition uapi_helpers : list (string * Z) := uapi_helpers_low ++ uapi_helpers_high.

(** The helper identifiers [convert_tests.c] defines. *)
Definition convert_helpers : list (string * Z) := [("unspec", BPF_FUNC_unspec);
   ("map_lookup_elem", BPF_FUNC_map_lookup_elem); ("map_update_elem",
   BPF_FUNC_map_update_elem); ("map_delete_elem", BPF_FUNC_map_delete_elem);
   ("probe_read", BPF_FUNC_probe_read); ("ktime_get_ns", BPF_FUNC_ktime_get_ns);
   ("trace_printk", BPF_FUNC_trace_printk); ("get_prandom_u32",
   BPF_FUNC_get_prandom_u32); ("get_smp_processor_id", BPF_FUNC_get_smp_processor_id);
   ("skb_store_bytes", BPF_FUNC_skb_store_bytes); ("l3_csum_replace",
   BPF_FUNC_l3_csum_replace); ("l4_csum_replace", BPF_FUNC_l4_csum_replace);
   ("tail_call", BPF_FUNC_tail_call); ("clone_redirect", BPF_FUNC_clone_redirect);
   ("get_current_pid_tgid", BPF_FUNC_get_current_pid_tgid); ("get_current_uid_gid",
   BPF_FUNC_get_current_uid_gid); ("get_current_comm", BPF_FUNC_get_current_comm);
   ("get_cgroup_classid", BPF_FUNC_get_cgroup_classid); ("skb_vlan_push",
   BPF_FUNC_skb_vlan_push); ("skb_vlan_pop", BPF_FUNC_skb_vlan_pop);
   ("skb_get_tunnel_key", BPF_FUNC_skb_get_tunnel_key); ("skb_set_tunnel_key",
   BPF_FUNC_skb_set_tunnel_key); ("perf_event_read", BPF_FUNC_perf_event_read);
   ("redirect", BPF_FUNC_redirect); ("get_route_realm", BPF_FUNC_get_route_realm);
   ("perf_event_output", BPF_FUNC_perf_event_output); ("skb_load_bytes",
   BPF_FUNC_skb_load_bytes); ("get_stackid", BPF_FUNC_get_stackid); ("csum_diff",
   BPF_FUNC_csum_diff); ("skb_get_tunnel_opt", BPF_FUNC_skb_get_tunnel_opt);
   ("skb_set_tunnel_opt", BPF_FUNC_skb_set_tunnel_opt); ("skb_change_proto",
   BPF_FUNC_skb_change_proto); ("skb_change_type", BPF_FUNC_skb_change_type);
   ("skb_under_cgroup", BPF_FUNC_skb_under_cgroup); ("get_hash_recalc",
   BPF_FUNC_get_hash_recalc); ("get_current_task", BPF_FUNC_get_current_task);
   ("probe_write_user", BPF_FUNC_probe_write_user); ("current_task_under_cgroup",
   BPF_FUNC_current_task_under_cgroup); ("skb_change_tail", BPF_FUNC_skb_change_tail);
   ("skb_pull_data", BPF_FUNC_skb_pull_data); ("csum_update", BPF_FUNC_csum_update);
   ("set_hash_invalid", BPF_FUNC_set_hash_invalid); ("get_numa_node_id",
   BPF_FUNC_get_numa_node_id); ("skb_change_head", BPF_FUNC_skb_change_head);
   ("xdp_adjust_head", BPF_FUNC_xdp_adjust_head); ("probe_read_str",
   BPF_FUNC_probe_read_str); ("get_socket_cookie", BPF_FUNC_get_socket_cookie);
   ("get_socket_uid", BPF_FUNC_get_socket_uid); ("set_hash", BPF_FUNC_set_hash);
   ("setsockopt", BPF_FUNC_setsockopt); ("skb_adjust_room", BPF_FUNC_skb_adjust_room);
   ("redirect_map", BPF_FUNC_redirect_map); ("sk_redirect_map",
   BPF_FUNC_sk_redirect_map); ("sock_map_update", BPF_FUNC_sock_map_update);
   ("xdp_adjust_meta", BPF_FUNC_xdp_adjust_meta); ("perf_event_read_value",
   BPF_FUNC_perf_event_read_value); ("perf_prog_read_value", BPF_FUNC_perf_prog_read_value);
   ("getsockopt", BPF_FUNC_getsockopt); ("override_return", BPF_FUNC_override_return);
   ("sock_ops_cb_flags_set", BPF_FUNC_sock_ops_cb_flags_set); ("msg_redirect_map",
   BPF_FUNC_msg_redirect_map); ("msg_apply_bytes", BPF_FUNC_msg_apply_bytes);
   ("msg_cork_bytes", BPF_FUNC_msg_cork_bytes); ("msg_pull_data",
   BPF_FUNC_msg_pull_data); ("bind", BPF_FUNC_bind); ("xdp_adjust_tail",
   BPF_FUNC_xdp_adjust_tail); ("skb_get_xfrm_state", BPF_FUNC_skb_get_xfrm_state);
   ("get_stack", BPF_FUNC_get_stack); ("skb_load_bytes_relative",
   BPF_FUNC_skb_load_bytes_relative); ("fib_lookup", BPF_FUNC_fib_lookup);
   ("sock_hash_update", BPF_FUNC_sock_hash_update); ("msg_redirect_hash",
   BPF_FUNC_msg_redirect_hash); ("sk_redirect_hash", BPF_FUNC_sk_redirect_hash);
   ("lwt_push_encap", BPF_FUNC_lwt_push_encap); ("lwt_seg6_store_bytes",
   BPF_FUNC_lwt_seg6_store_bytes); ("lwt_seg6_adjust_srh", BPF_FUNC_lwt_seg6_adjust_srh);
   ("lwt_seg6_action", BPF_FUNC_lwt_seg6_action); ("rc_repeat", BPF_FUNC_rc_repeat);
   ("rc_keydown", BPF_FUNC_rc_keydown); ("skb_cgroup_id", BPF_FUNC_skb_cgroup_id);
   ("get_current_cgroup_id", BPF_FUNC_get_current_cgroup_id); ("get_local_storage",
   BPF_FUNC_get_local_storage); ("sk_select_reuseport", BPF_FUNC_sk_select_reuseport);
   ("skb_ancestor_cgroup_id", BPF_FUNC_skb_ancestor_cgroup_id); ("sk_lookup_tcp",
   BPF_FUNC_sk_lookup_tcp); ("sk_lookup_udp", BPF_FUNC_sk_lookup_udp); ("sk_release",
   BPF_FUNC_sk_release); ("map_push_elem", BPF_FUNC_map_push_elem); ("map_pop_elem",
   BPF_FUNC_map_pop_elem); ("map_peek_elem", BPF_FUNC_map_peek_elem); ("msg_push_data",
   BPF_FUNC_msg_push_data); ("msg_pop_data", BPF_FUNC_msg_pop_data); ("rc_pointer_rel",
   BPF_FUNC_rc_pointer_rel); ("spin_lock", BPF_FUNC_spin_lock); ("spin_unlock",
   BPF_FUNC_spin_unlock); ("strtoul", BPF_FUNC_strtoul); ("sk_storage_get",
   BPF_FUNC_sk_storage_get); ("probe_read_kernel", BPF_FUNC_probe_read_kernel);
   ("seq_write", BPF_FUNC_seq_write); ("ringbuf_output", BPF_FUNC_ringbuf_output);
   ("ringbuf_reserve", BPF_FUNC_ringbuf_reserve); ("ringbuf_submit",
   BPF_FUNC_ringbuf_submit); ("ringbuf_discard", BPF_FUNC_ringbuf_discard);
   ("ringbuf_query", BPF_FUNC_ringbuf_query); ("skc_to_tcp_request_sock",
   BPF_FUNC_skc_to_tcp_request_sock); ("get_task_stack", BPF_FUNC_get_task_stack);
   ("d_path", BPF_FUNC_d_path); ("get_netns_cookie", BPF_FUNC_get_netns_cookie);
   ("get_current_ancestor_cgroup_id", BPF_FUNC_get_current_ancestor_cgroup_id);
   ("check_mtu", BPF_FUNC_check_mtu); ("for_each_map_elem", BPF_FUNC_for_each_map_elem);
   ("snprintf", BPF_FUNC_snprintf); ("skc_lookup_tcp", BPF_FUNC_skc_lookup_tcp);
   ("sk_fullsock", BPF_FUNC_sk_fullsock); ("tcp_sock", BPF_FUNC_tcp_sock);
   ("get_listener_sock", BPF_FUNC_get_listener_sock); ("skc_to_tcp_sock",
   BPF_FUNC_skc_to_tcp_sock)].
Definition lookup_helper (l : list (string * Z)) (name : string) : option Z :=
  snd <$> find (fun e => String.eqb (fst e) name) l.

End BpfInsn.
