(* ===== verification/ConvertTests.v ===== *)
(** The test converter [convert_tests.c]: the structure of a verifier test, the
    fill helpers that generate large programs, the instruction counter and the
    JSON printer.

    A test file of [selftests/legacy/verifier] is a list of [bpf_test]; the
    designated initialisers of the source are the [_field] functions below.
    The buffer of a fill helper is a [calloc] of [MAX_INSNS] instructions; a
    helper is the list of its stores, in order, and [run_stores] is [None] as
    soon as one of them lies outside that buffer. *)

From S2P Require Import Prelude BpfInsn.
From Stdlib Require Import ZArith Lia Ascii String.
From stdpp Require Import base numbers strings pretty gmap list.
Import BpfInsn.
Open Scope Z_scope.

Module ConvertTests.

(** * Tests *)

Inductive fixup : Type :=
| fixup_map_hash_8b | fixup_map_hash_48b | fixup_map_hash_16b | fixup_map_array_48b
| fixup_map_sockmap | fixup_map_sockhash | fixup_map_xskmap | fixup_map_stacktrace
| fixup_prog1 | fixup_prog2 | fixup_map_in_map | fixup_cgroup_storage
| fixup_percpu_cgroup_storage | fixup_map_spin_lock | fixup_map_array_ro | fixup_map_array_wo
| fixup_map_array_small | fixup_sk_storage_map | fixup_map_event_output
| fixup_map_reuseport_array | fixup_map_ringbuf.

#[export] Instance fixup_eq_dec : EqDecision fixup.
Proof. solve_decision. Defined.

(** [#name] of [PRINT_FIXUP]. *)
Definition fixup_name (f : fixup) : string :=
  match f with
  | fixup_map_hash_8b => "fixup_map_hash_8b" | fixup_map_hash_48b => "fixup_map_hash_48b"
  | fixup_map_hash_16b => "fixup_map_hash_16b" | fixup_map_array_48b => "fixup_map_array_48b"
  | fixup_map_sockmap => "fixup_map_sockmap" | fixup_map_sockhash => "fixup_map_sockhash"
  | fixup_map_xskmap => "fixup_map_xskmap" | fixup_map_stacktrace => "fixup_map_stacktrace"
  | fixup_prog1 => "fixup_prog1" | fixup_prog2 => "fixup_prog2"
  | fixup_map_in_map => "fixup_map_in_map" | fixup_cgroup_storage => "fixup_cgroup_storage"
  | fixup_percpu_cgroup_storage => "fixup_percpu_cgroup_storage"
  | fixup_map_spin_lock => "fixup_map_spin_lock" | fixup_map_array_ro => "fixup_map_array_ro"
  | fixup_map_array_wo => "fixup_map_array_wo" | fixup_map_array_small => "fixup_map_array_small"
  | fixup_sk_storage_map => "fixup_sk_storage_map"
  | fixup_map_event_output => "fixup_map_event_output"
  | fixup_map_reuseport_array => "fixup_map_reuseport_array"
  | fixup_map_ringbuf => "fixup_map_ringbuf"
  end.

(** The order of the [PRINT_FIXUP] lines of [main]. *)
Definition all_fixups : list fixup :=
  [fixup_map_hash_8b; fixup_map_hash_48b; fixup_map_hash_16b; fixup_map_array_48b;
   fixup_map_sockmap; fixup_map_sockhash; fixup_map_xskmap; fixup_map_stacktrace;
   fixup_prog1; fixup_prog2; fixup_map_in_map; fixup_cgroup_storage;
   fixup_percpu_cgroup_storage; fixup_map_spin_lock; fixup_map_array_ro; fixup_map_array_wo;
   fixup_map_array_small; fixup_sk_storage_map; fixup_map_event_output;
   fixup_map_reuseport_array; fixup_map_ringbuf].

(** The fill helpers the converter declares; the last constructor stands for
    those defined with [FILL_HELPER_IMPL_STUB], by name. *)
Inductive fill_helper_fn : Type :=
| bpf_fill_ld_abs_vlan_push_pop | bpf_fill_jump_around_ld_abs | bpf_fill_rand_ld_dw
| bpf_fill_ld_abs_get_processor_id | bpf_fill_torturous_jumps | bpf_fill_scale
| fill_stub (name : string).

(** [struct test_result]: the expected value and the 64 bytes of input. *)
Record test_result := MkResult { res_retval : Z; res_data : list Z }.

(** [struct bpf_test].  [insns] holds the initialised prefix of the array and
    [fixups] the fixup arrays that have an initialiser. *)
Record bpf_test := MkTest {
  descr : string; insns : list bpf_insn; fill_insns : option (list bpf_insn);
  fixups : list (fixup * list Z); fixup_kfunc_btf_id : list (string * Z);
  errstr : option string; errstr_unpriv : option string; kfunc : option string;
  insn_processed : Z; prog_len : Z; result : Z; result_unpriv : Z; prog_type : Z;
  expected_attach_type : Z; flags : Z; data : list Z; fill_helper : option fill_helper_fn;
  runs : Z; retvals : list test_result; retval : Z; retval_unpriv : Z }.

(** Fields without an initialiser are zero. *)
Definition zero_test (d : string) : bpf_test :=
  MkTest d [] None [] [] None None None 0 0 0 0 0 0 0 [] None 0 [] 0 0.

(** ** Designated initialisers *)

Definition _insns (l : list (list bpf_insn)) (t : bpf_test) : bpf_test :=
  MkTest (descr t) (List.concat l) (fill_insns t) (fixups t) (fixup_kfunc_btf_id t)
    (errstr t) (errstr_unpriv t) (kfunc t) (insn_processed t) (prog_len t) (result t)
    (result_unpriv t) (prog_type t) (expected_attach_type t) (flags t) (data t)
    (fill_helper t) (runs t) (retvals t) (retval t) (retval_unpriv t).
Definition _fixup (f : fixup) (l : list Z) (t : bpf_test) : bpf_test :=
  MkTest (descr t) (insns t) (fill_insns t) (fixups t ++ [(f, l)]) (fixup_kfunc_btf_id t)
    (errstr t) (errstr_unpriv t) (kfunc t) (insn_processed t) (prog_len t) (result t)
    (result_unpriv t) (prog_type t) (expected_attach_type t) (flags t) (data t)
    (fill_helper t) (runs t) (retvals t) (retval t) (retval_unpriv t).
Definition _fixup_kfunc_btf_id (l : list (string * Z)) (t : bpf_test) : bpf_test :=
  MkTest (descr t) (insns t) (fill_insns t) (fixups t) l (errstr t) (errstr_unpriv t)
    (kfunc t) (insn_processed t) (prog_len t) (result t) (result_unpriv t) (prog_type t)
    (expected_attach_type t) (flags t) (data t) (fill_helper t) (runs t) (retvals t)
    (retval t) (retval_unpriv t).
Definition _errstr (s : string) (t : bpf_test) : bpf_test :=
  MkTest (descr t) (insns t) (fill_insns t) (fixups t) (fixup_kfunc_btf_id t) (Some s)
    (errstr_unpriv t) (kfunc t) (insn_processed t) (prog_len t) (result t) (result_unpriv t)
    (prog_type t) (expected_attach_type t) (flags t) (data t) (fill_helper t) (runs t)
    (retvals t) (retval t) (retval_unpriv t).
Definition _errstr_unpriv (s : string) (t : bpf_test) : bpf_test :=
  MkTest (descr t) (insns t) (fill_insns t) (fixups t) (fixup_kfunc_btf_id t) (errstr t)
    (Some s) (kfunc t) (insn_processed t) (prog_len t) (result t) (result_unpriv t)
    (prog_type t) (expected_attach_type t) (flags t) (data t) (fill_helper t) (runs t)
    (retvals t) (retval t) (retval_unpriv t).
Definition _kfunc (s : string) (t : bpf_test) : bpf_test :=
  MkTest (descr t) (insns t) (fill_insns t) (fixups t) (fixup_kfunc_btf_id t) (errstr t)
    (errstr_unpriv t) (Some s) (insn_processed t) (prog_len t) (result t) (result_unpriv t)
    (prog_type t) (expected_attach_type t) (flags t) (data t) (fill_helper t) (runs t)
    (retvals t) (retval t) (retval_unpriv t).
Definition _insn_processed (n : Z) (t : bpf_test) : bpf_test :=
  MkTest (descr t) (insns t) (fill_insns t) (fixups t) (fixup_kfunc_btf_id t) (errstr t)
    (errstr_unpriv t) (kfunc t) n (prog_len t) (result t) (result_unpriv t) (prog_type t)
    (expected_attach_type t) (flags t) (data t) (fill_helper t) (runs t) (retvals t)
    (retval t) (retval_unpriv t).
Definition _prog_len (n : Z) (t : bpf_test) : bpf_test :=
  MkTest (descr t) (insns t) (fill_insns t) (fixups t) (fixup_kfunc_btf_id t) (errstr t)
    (errstr_unpriv t) (kfunc t) (insn_processed t) n (result t) (result_unpriv t)
    (prog_type t) (expected_attach_type t) (flags t) (data t) (fill_helper t) (runs t)
    (retvals t) (retval t) (retval_unpriv t).
Definition _result (n : Z) (t : bpf_test) : bpf_test :=
  MkTest (descr t) (insns t) (fill_insns t) (fixups t) (fixup_kfunc_btf_id t) (errstr t)
    (errstr_unpriv t) (kfunc t) (insn_processed t) (prog_len t) n (result_unpriv t)
    (prog_type t) (expected_attach_type t) (flags t) (data t) (fill_helper t) (runs t)
    (retvals t) (retval t) (retval_unpriv t).
Definition _result_unpriv (n : Z) (t : bpf_test) : bpf_test :=
  MkTest (descr t) (insns t) (fill_insns t) (fixups t) (fixup_kfunc_btf_id t) (errstr t)
    (errstr_unpriv t) (kfunc t) (insn_processed t) (prog_len t) (result t) n (prog_type t)
    (expected_attach_type t) (flags t) (data t) (fill_helper t) (runs t) (retvals t)
    (retval t) (retval_unpriv t).
Definition _prog_type (n : Z) (t : bpf_test) : bpf_test :=
  MkTest (descr t) (insns t) (fill_insns t) (fixups t) (fixup_kfunc_btf_id t) (errstr t)
    (errstr_unpriv t) (kfunc t) (insn_processed t) (prog_len t) (result t) (result_unpriv t)
    n (expected_attach_type t) (flags t) (data t) (fill_helper t) (runs t) (retvals t)
    (retval t) (retval_unpriv t).
Definition _expected_attach_type (n : Z) (t : bpf_test) : bpf_test :=
  MkTest (descr t) (insns t) (fill_insns t) (fixups t) (fixup_kfunc_btf_id t) (errstr t)
    (errstr_unpriv t) (kfunc t) (insn_processed t) (prog_len t) (result t) (result_unpriv t)
    (prog_type t) n (flags t) (data t) (fill_helper t) (runs t) (retvals t) (retval t)
    (retval_unpriv t).
Definition _flags (n : Z) (t : bpf_test) : bpf_test :=
  MkTest (descr t) (insns t) (fill_insns t) (fixups t) (fixup_kfunc_btf_id t) (errstr t)
    (errstr_unpriv t) (kfunc t) (insn_processed t) (prog_len t) (result t) (result_unpriv t)
    (prog_type t) (expected_attach_type t) (u8 n) (data t) (fill_helper t) (runs t)
    (retvals t) (retval t) (retval_unpriv t).
Definition _data (l : list Z) (t : bpf_test) : bpf_test :=
  MkTest (descr t) (insns t) (fill_insns t) (fixups t) (fixup_kfunc_btf_id t) (errstr t)
    (errstr_unpriv t) (kfunc t) (insn_processed t) (prog_len t) (result t) (result_unpriv t)
    (prog_type t) (expected_attach_type t) (flags t) (map u8 l) (fill_helper t) (runs t)
    (retvals t) (retval t) (retval_unpriv t).
Definition _fill_helper (f : fill_helper_fn) (t : bpf_test) : bpf_test :=
  MkTest (descr t) (insns t) (fill_insns t) (fixups t) (fixup_kfunc_btf_id t) (errstr t)
    (errstr_unpriv t) (kfunc t) (insn_processed t) (prog_len t) (result t) (result_unpriv t)
    (prog_type t) (expected_attach_type t) (flags t) (data t) (Some f) (runs t) (retvals t)
    (retval t) (retval_unpriv t).
Definition _runs (n : Z) (t : bpf_test) : bpf_test :=
  MkTest (descr t) (insns t) (fill_insns t) (fixups t) (fixup_kfunc_btf_id t) (errstr t)
    (errstr_unpriv t) (kfunc t) (insn_processed t) (prog_len t) (result t) (result_unpriv t)
    (prog_type t) (expected_attach_type t) (flags t) (data t) (fill_helper t) n (retvals t)
    (retval t) (retval_unpriv t).
Definition _retvals (l : list test_result) (t : bpf_test) : bpf_test :=
  MkTest (descr t) (insns t) (fill_insns t) (fixups t) (fixup_kfunc_btf_id t) (errstr t)
    (errstr_unpriv t) (kfunc t) (insn_processed t) (prog_len t) (result t) (result_unpriv t)
    (prog_type t) (expected_attach_type t) (flags t) (data t) (fill_helper t) (runs t) l
    (retval t) (retval_unpriv t).
Definition _retval (n : Z) (t : bpf_test) : bpf_test :=
  MkTest (descr t) (insns t) (fill_insns t) (fixups t) (fixup_kfunc_btf_id t) (errstr t)
    (errstr_unpriv t) (kfunc t) (insn_processed t) (prog_len t) (result t) (result_unpriv t)
    (prog_type t) (expected_attach_type t) (flags t) (data t) (fill_helper t) (runs t)
    (retvals t) (u32 n) (retval_unpriv t).
Definition _retval_unpriv (n : Z) (t : bpf_test) : bpf_test :=
  MkTest (descr t) (insns t) (fill_insns t) (fixups t) (fixup_kfunc_btf_id t) (errstr t)
    (errstr_unpriv t) (kfunc t) (insn_processed t) (prog_len t) (result t) (result_unpriv t)
    (prog_type t) (expected_attach_type t) (flags t) (data t) (fill_helper t) (runs t)
    (retvals t) (retval t) (u32 n).

(** [{ "descr", .a = x, .b = y, ... }] *)
Definition TEST (d : string) (inits : list (bpf_test -> bpf_test)) : bpf_test :=
  foldl (fun t f => f t) (zero_test d) inits.

(** [{ .retval = r, .data64 = { ... } }] and [{ .data = { ... }, .retval = r }] *)
Definition run64 (r : Z) (words : list Z) : test_result :=
  MkResult (u32 r) (take 64 (flat_map (fun w => le_bytes 8 (u64 w)) words ++ replicate 64 0)).
Definition run8 (r : Z) (bytes : list Z) : test_result :=
  MkResult (u32 r) (take 64 (map u8 bytes ++ replicate 64 0)).

(** * Fill helpers *)

(** [bpf_semi_rand_get]: an xorshift generator on a static [uint32_t]. *)
Definition bpf_rand_state0 : Z := 0x12345678.

Definition bpf_semi_rand_get (s : Z) : Z :=
  let s := Z.lxor s (u32 (Z.shiftl s 13)) in
  let s := Z.lxor s (Z.shiftr s 17) in
  Z.lxor s (u32 (Z.shiftl s 5)).

(** The stores of a helper ([insn[i] = x]), the length and the expected value
    it leaves in the test, the state of the generator, a warning if any. *)
Record filled := MkFilled {
  stores : list (Z * bpf_insn); f_prog_len : Z; f_retval : Z; f_rand : Z; f_warn : option string }.

Definition zero_insn : bpf_insn := MkInsn 0 0 0 0 0.

Fixpoint run_stores (ss : list (Z * bpf_insn)) (buf : list bpf_insn) : option (list bpf_insn) :=
  match ss with
  | [] => Some buf
  | (i, x) :: ss =>
      if (0 <=? i) && (i <? Z.of_nat (length buf))
      then run_stores ss (<[Z.to_nat i := x]> buf) else None
  end.

(** Consecutive stores [insn[i++] = x] from index [i]. *)
Definition seq_stores (i : Z) (xs : list bpf_insn) : list (Z * bpf_insn) :=
  imap (fun k x => (i + Z.of_nat k, x)) xs.

(** The macros that give one instruction. *)
Definition one (l : list bpf_insn) : bpf_insn := hd zero_insn l.

Definition CALL (func : Z) : bpf_insn := one (BPF_RAW_INSN (BPF_JMP .| BPF_CALL) 0 0 0 func).

Definition PUSH_CNT : nat := 51.
Definition vlan_len : Z := Z.shiftl 1 15 - 51 * 2 * 5 * 6.

(** One iteration of the push loop and of the pop loop of
    [bpf_fill_ld_abs_vlan_push_pop]; [len - i - 3] is unsigned. *)
Definition vlan_push (i : Z) : list bpf_insn :=
  [one (BPF_LD_ABS BPF_B 0);
   one (BPF_JMP32_IMM BPF_JNE BPF_REG_0 0x34 (u32 (vlan_len - (i + 1) - 3)));
   one (BPF_MOV64_REG BPF_REG_1 BPF_REG_6);
   one (BPF_MOV64_IMM BPF_REG_2 1);
   one (BPF_MOV64_IMM BPF_REG_3 2);
   CALL BPF_FUNC_skb_vlan_push;
   one (BPF_JMP_IMM BPF_JNE BPF_REG_0 0 (u32 (vlan_len - (i + 6) - 3)))].
Definition vlan_pop (i : Z) : list bpf_insn :=
  [one (BPF_LD_ABS BPF_B 0);
   one (BPF_JMP32_IMM BPF_JNE BPF_REG_0 0x34 (u32 (vlan_len - (i + 1) - 3)));
   one (BPF_MOV64_REG BPF_REG_1 BPF_REG_6);
   CALL BPF_FUNC_skb_vlan_pop;
   one (BPF_JMP_IMM BPF_JNE BPF_REG_0 0 (u32 (vlan_len - (i + 4) - 3)))].

Fixpoint repeat_at (n : nat) (width : Z) (body : Z -> list bpf_insn) (i : Z) : list bpf_insn :=
  match n with
  | O => []
  | S n => body i ++ repeat_at n width body (i + width)
  end.

Definition vlan_round (i : Z) : list bpf_insn :=
  repeat_at PUSH_CNT 7 vlan_push i ++ repeat_at PUSH_CNT 5 vlan_pop (i + 51 * 7).

Definition fill_ld_abs_vlan_push_pop (retval rand : Z) : filled :=
  let start := one (BPF_MOV64_REG BPF_REG_6 BPF_REG_1) :: repeat_at 5 612 vlan_round 1 in
  let i := Z.of_nat (length start) in
  let pad := replicate (Z.to_nat (vlan_len - 3 - i)) (one (BPF_ALU64_IMM BPF_MOV BPF_REG_0 0xbef)) in
  MkFilled (seq_stores 0 (start ++ pad) ++
      [(vlan_len - 3, one (BPF_JMP_A 1)); (vlan_len - 2, one (BPF_MOV32_IMM BPF_REG_0 0));
       (vlan_len - 1, one BPF_EXIT_INSN)])
    vlan_len retval rand None.

Definition fill_jump_around_ld_abs (retval rand : Z) : filled :=
  let len := Z.shiftl 1 15 / 7 in
  let start := [one (BPF_MOV64_REG BPF_REG_6 BPF_REG_1); one (BPF_LD_ABS BPF_B 0);
                one (BPF_JMP_IMM BPF_JEQ BPF_REG_0 10 (u32 (len - 2 - 2)))] in
  let body := replicate (Z.to_nat (len - 1 - 3)) (one (BPF_LD_ABS BPF_B 1)) in
  let prog := start ++ body ++ [one BPF_EXIT_INSN] in
  MkFilled (seq_stores 0 prog) (Z.of_nat (length prog)) retval rand None.

(** The loop [while (i < (int)self->retval)] of [bpf_fill_rand_ld_dw]: three
    instructions and one random word per iteration. *)
Fixpoint rand_ld_dw_loop (fuel : nat) (i limit rand res : Z) : list bpf_insn * Z * Z :=
  match fuel with
  | O => ([], rand, res)
  | S fuel =>
      if i <? limit then
        let val := bpf_semi_rand_get rand in
        let '(prog, rand, res) := rand_ld_dw_loop fuel (i + 3) limit val (Z.lxor res val) in
        (BPF_LD_IMM64 BPF_REG_1 val ++ BPF_ALU64_REG BPF_XOR BPF_REG_0 BPF_REG_1 ++ prog, rand, res)
      else ([], rand, res)
  end.

Definition fill_rand_ld_dw (retval rand : Z) : filled :=
  let limit := s32 retval in
  let '(body, rand, res) := rand_ld_dw_loop (Z.to_nat limit) 1 limit rand 0 in
  let prog := BPF_MOV32_IMM BPF_REG_0 0 ++ body ++ BPF_MOV64_REG BPF_REG_1 BPF_REG_0 ++
              BPF_ALU64_IMM BPF_RSH BPF_REG_1 32 ++ BPF_ALU64_REG BPF_XOR BPF_REG_0 BPF_REG_1 ++
              BPF_EXIT_INSN in
  let res := Z.lxor res (Z.shiftr res 32) in
  MkFilled (seq_stores 0 prog) (Z.of_nat (length prog)) (u32 res) rand None.

(** The loop [while (k++ < MAX_JMP_SEQ)] of the scale helpers. *)
Fixpoint scale_loop (n : nat) (k modulus rand : Z) : list bpf_insn * Z :=
  match n with
  | O => ([], rand)
  | S n =>
      let r := bpf_semi_rand_get rand in
      let '(prog, rand) := scale_loop n (k + 1) modulus r in
      ([CALL BPF_FUNC_get_prandom_u32; one (BPF_JMP_IMM BPF_JEQ BPF_REG_0 r 2);
        one (BPF_MOV64_REG BPF_REG_1 BPF_REG_10);
        one (BPF_STX_MEM BPF_DW BPF_REG_1 BPF_REG_6 (-8 * (k mod modulus + 1)))] ++ prog, rand)
  end.

Definition scale_pad (i : Z) : list bpf_insn :=
  replicate (Z.to_nat (MAX_TEST_INSNS - MAX_JMP_SEQ * 4 - i)) (one (BPF_ALU64_IMM BPF_MOV BPF_REG_0 42)).

Definition fill_scale1 (retval rand : Z) : filled :=
  let '(jumps, rand) := scale_loop (Z.to_nat MAX_JMP_SEQ) 1 64 rand in
  let start := BPF_MOV64_REG BPF_REG_6 BPF_REG_1 ++ jumps in
  let prog := start ++ scale_pad (Z.of_nat (length start)) ++ BPF_EXIT_INSN in
  MkFilled (seq_stores 0 prog) (Z.of_nat (length prog)) 42 rand None.

Definition fill_scale2 (retval rand : Z) : filled :=
  let calls := List.concat (replicate (Z.to_nat FUNC_NEST) (BPF_CALL_REL 1 ++ BPF_EXIT_INSN)) in
  let '(jumps, rand) := scale_loop (Z.to_nat MAX_JMP_SEQ) 1 (64 - 4 * FUNC_NEST) rand in
  let start := calls ++ BPF_MOV64_REG BPF_REG_6 BPF_REG_1 ++ jumps in
  let prog := start ++ scale_pad (Z.of_nat (length start)) ++ BPF_EXIT_INSN in
  MkFilled (seq_stores 0 prog) (Z.of_nat (length prog)) 42 rand None.

Definition fill_scale (retval rand : Z) : filled :=
  if retval =? 1 then fill_scale1 retval rand
  else if retval =? 2 then fill_scale2 retval rand
  else MkFilled [] 0 retval rand None.

(** [bpf_fill_torturous_jumps_insn_1]: stores relative to the pointer [insn]. *)
Definition torturous_1 : list (Z * bpf_insn) :=
  let hlen := 128 in
  (0, CALL BPF_FUNC_get_prandom_u32) ::
  flat_map (fun k => let i := Z.of_nat k in
    [(i, one (BPF_JMP_IMM BPF_JEQ BPF_REG_0 i hlen)); (i + hlen, one (BPF_JMP_A (u32 (hlen - i))))])
    (seq 1 128) ++
  [(257, one (BPF_MOV64_IMM BPF_REG_0 1)); (258, one BPF_EXIT_INSN)].

(** [bpf_fill_torturous_jumps_insn_2] *)
Definition torturous_2 : list (Z * bpf_insn) :=
  let jmp_off := 2048 in
  (0, CALL BPF_FUNC_get_prandom_u32) ::
  map (fun k => let i := Z.of_nat k in (i, one (BPF_JMP_IMM BPF_JEQ BPF_REG_0 i jmp_off))) (seq 1 2048) ++
  [(2049, one (BPF_JMP_A jmp_off))] ++
  flat_map (fun n => let i := 2050 + 16 * Z.of_nat n in
    map (fun k => let j := Z.of_nat k in (i + j, one (BPF_JMP_A (16 - j - 1)))) (seq 0 16)) (seq 0 128) ++
  [(4098, one (BPF_MOV64_IMM BPF_REG_0 2)); (4099, one BPF_EXIT_INSN)].

Definition shift_stores (d : Z) (ss : list (Z * bpf_insn)) : list (Z * bpf_insn) :=
  map (fun ix => (d + fst ix, snd ix)) ss.

Definition fill_torturous_jumps (retval rand : Z) : filled :=
  if retval =? 1 then MkFilled torturous_1 259 retval rand None
  else if retval =? 2 then MkFilled torturous_2 4100 retval rand None
  else if retval =? 3 then
    let start := BPF_RAW_INSN (BPF_JMP .| BPF_CALL) 0 1 0 4 ++ BPF_RAW_INSN (BPF_JMP .| BPF_CALL) 0 1 0 262 ++
                 BPF_ST_MEM BPF_B BPF_REG_10 (-32) 0 ++ BPF_MOV64_IMM BPF_REG_0 3 ++ BPF_EXIT_INSN in
    MkFilled (seq_stores 0 start ++ shift_stores 5 torturous_1 ++ shift_stores (5 + 259) torturous_2)
      (5 + 259 + 4100) retval rand None
  else MkFilled [] 0 retval rand None.

Definition fill_ld_abs_get_processor_id (retval rand : Z) : filled :=
  MkFilled (seq_stores 0 [CALL BPF_FUNC_get_smp_processor_id; one BPF_EXIT_INSN]) 2 retval rand None.

(** [FILL_HELPER_IMPL_STUB(name)] *)
Definition FILL_HELPER_IMPL_STUB (name : string) (retval rand : Z) : filled :=
  MkFilled (seq_stores 0 [one (BPF_MOV64_IMM BPF_REG_0 0); one BPF_EXIT_INSN]) 2 retval rand
    (Some ("  Warning: " +:+ name +:+ " uses stub implementation")).

Definition run_fill_helper (f : fill_helper_fn) (retval rand : Z) : filled :=
  match f with
  | bpf_fill_ld_abs_vlan_push_pop => fill_ld_abs_vlan_push_pop retval rand
  | bpf_fill_jump_around_ld_abs => fill_jump_around_ld_abs retval rand
  | bpf_fill_rand_ld_dw => fill_rand_ld_dw retval rand
  | bpf_fill_ld_abs_get_processor_id => fill_ld_abs_get_processor_id retval rand
  | bpf_fill_torturous_jumps => fill_torturous_jumps retval rand
  | bpf_fill_scale => fill_scale retval rand
  | fill_stub name => FILL_HELPER_IMPL_STUB name retval rand
  end.

(** [t->fill_insns = calloc(MAX_INSNS, ...); t->fill_helper(t);] *)
Definition fill_buffer (f : filled) : option (list bpf_insn) :=
  run_stores (stores f) (replicate (Z.to_nat MAX_INSNS) zero_insn).

(** * Counting instructions *)

(** [count_insns] over an array of [MAX_INSNS] entries of which [insns] is the
    initialised prefix. *)
Definition insn_at (insns : list bpf_insn) (i : nat) : bpf_insn := nth i insns zero_insn.

Fixpoint count_from (n i : nat) (insns : list bpf_insn) : Z :=
  match n with
  | O => MAX_INSNS
  | S n =>
      if code (insn_at insns i) =? 0 then
        if (0 <? i)%nat && (code (insn_at insns (i - 1)) =? (BPF_LD .| BPF_DW .| BPF_IMM))
        then count_from n (S i) insns
        else Z.of_nat i
      else count_from n (S i) insns
  end.

Definition count_insns (insns : list bpf_insn) : Z := count_from (Z.to_nat MAX_INSNS) 0 insns.

(** * JSON output *)

Definition quote : string := String (ascii_of_nat 34) "".
Definition bslash : string := String (ascii_of_nat 92) "".
Definition nl : string := String (ascii_of_nat 10) "".

(** [%04x] of a byte *)
Definition hex_digit (d : nat) : ascii :=
  match String.get d "0123456789abcdef" with Some c => c | None => "0"%char end.
Definition hex4 (n : nat) : string :=
  String "0" (String "0" (String (hex_digit (n / 16)) (String (hex_digit (n mod 16)) ""))).

(** One character of [print_json_string]. *)
Definition json_char (c : ascii) : string :=
  let n := nat_of_ascii c in
  if (n =? 34)%nat then bslash +:+ quote
  else if (n =? 92)%nat then bslash +:+ bslash
  else if (n =? 10)%nat then bslash +:+ "n"
  else if (n =? 13)%nat then bslash +:+ "r"
  else if (n =? 9)%nat then bslash +:+ "t"
  else if (n <? 32)%nat then bslash +:+ "u" +:+ hex4 n
  else String c "".

(** The loop [for (; *s; s++)]: it stops at a NUL byte. *)
Fixpoint json_chars (s : string) : string :=
  match s with
  | EmptyString => ""
  | String c s => if (nat_of_ascii c =? 0)%nat then "" else json_char c +:+ json_chars s
  end.

Definition print_json_string (s : option string) : string :=
  match s with
  | None => "null"
  | Some s => quote +:+ json_chars s +:+ quote
  end.

(** The array of a fixup: the initialised entries, zeros up to [MAX_FIXUPS]. *)
Definition fixup_array (t : bpf_test) (f : fixup) : list Z :=
  take 8 (default [] (snd <$> find (fun e => bool_decide (fst e = f)) (fixups t)) ++ replicate 8 0).

Definition has_fixup (arr : list Z) : bool := existsb (fun x => negb (x =? 0)) arr.

(** The elements [print_fixup] prints: it stops at the first zero. *)
Fixpoint fixup_elems (arr : list Z) : list Z :=
  match arr with
  | [] => []
  | x :: arr => if x =? 0 then [] else x :: fixup_elems arr
  end.

Fixpoint join (sep : string) (l : list string) : string :=
  match l with
  | [] => ""
  | [s] => s
  | s :: l => s +:+ sep +:+ join sep l
  end.

Definition print_fixup (f : fixup) (arr : list Z) : string :=
  nl +:+ "    " +:+ quote +:+ fixup_name f +:+ quote +:+ ": [" +:+
  join ", " (map pretty (fixup_elems arr)) +:+ "]".

Definition print_fixups (t : bpf_test) : string :=
  match List.filter (fun f => has_fixup (fixup_array t f)) all_fixups with
  | [] => ""
  | fs => "," +:+ nl +:+ "    " +:+ quote +:+ "fixups" +:+ quote +:+ ": {" +:+
          join "," (map (fun f => print_fixup f (fixup_array t f)) fs) +:+ nl +:+ "    }"
  end.

Definition result_str (r : Z) : string :=
  if r =? ACCEPT then "ACCEPT"
  else if r =? REJECT then "REJECT"
  else if r =? VERBOSE_ACCEPT then "VERBOSE_ACCEPT"
  else "UNDEF".

Definition json_key (k : string) : string := "," +:+ nl +:+ "    " +:+ quote +:+ k +:+ quote +:+ ": ".

Definition print_insn (x : bpf_insn) : string :=
  let field k v := quote +:+ k +:+ quote +:+ ": " +:+ pretty v in
  nl +:+ "      {" +:+ field "code" (code x) +:+ ", " +:+ field "dst" (dst_reg x) +:+ ", " +:+
  field "src" (src_reg x) +:+ ", " +:+ field "off" (off x) +:+ ", " +:+ field "imm" (imm x) +:+ "}".

(** The object printed for a test whose instructions are [prog]. *)
Definition print_test (t : bpf_test) (prog : list bpf_insn) : string :=
  "  {" +:+ nl +:+ "    " +:+ quote +:+ "name" +:+ quote +:+ ": " +:+ print_json_string (Some (descr t)) +:+
  json_key "result" +:+ quote +:+ result_str (result t) +:+ quote +:+
  (if result_unpriv t =? 0 then ""
   else json_key "result_unpriv" +:+ quote +:+ result_str (result_unpriv t) +:+ quote) +:+
  match errstr t with None => "" | s => json_key "errstr" +:+ print_json_string s end +:+
  match errstr_unpriv t with None => "" | s => json_key "errstr_unpriv" +:+ print_json_string s end +:+
  (if prog_type t =? 0 then "" else json_key "prog_type" +:+ pretty (prog_type t)) +:+
  (if expected_attach_type t =? 0 then ""
   else json_key "expected_attach_type" +:+ pretty (expected_attach_type t)) +:+
  match kfunc t with None => "" | s => json_key "kfunc" +:+ print_json_string s end +:+
  (if flags t =? 0 then "" else json_key "flags" +:+ pretty (flags t)) +:+
  print_fixups t +:+
  json_key "insns" +:+ "[" +:+ join "," (map print_insn prog) +:+ nl +:+ "    ]" +:+ nl +:+ "  }".

(** * The main loop *)

(** What the body of the loop does with a test: print an object, or skip. *)
Inductive converted : Type :=
| Printed (object : string) (log : list string)
| Skipped (log : list string).

(** The first [n] cells of the array, as the printing loop reads them. *)
Definition read_insns (insns : list bpf_insn) (n : Z) : list bpf_insn :=
  map (insn_at insns) (seq 0 (Z.to_nat n)).

Section Main.
(** Whether the [n]-th [calloc] succeeds. *)
Context (calloc_ok : nat -> bool).

(** The body for test number [i]; [None] when a fill helper writes outside its
    buffer.  The state is the random generator. *)
Definition convert_test (i : nat) (t : bpf_test) (rand : Z) : option (converted * Z) :=
  match fill_helper t with
  | Some f =>
      if calloc_ok i then
        let r := run_fill_helper f (retval t) rand in
        buf ← fill_buffer r;
        let warn := match f_warn r with Some w => [w] | None => [] end in
        if 0 <? f_prog_len r then
          Some (Printed (print_test t (read_insns buf (f_prog_len r)))
            (warn ++ ["Generated " +:+ pretty (f_prog_len r) +:+ " insns for '" +:+ descr t +:+ "'"]), f_rand r)
        else
          let n := count_insns buf in
          if n =? 0 then
            Some (Skipped (warn ++ ["Skipping test '" +:+ descr t +:+ "': fill_helper produced no instructions"]),
                  f_rand r)
          else
            Some (Printed (print_test t (read_insns buf n))
              (warn ++ ["Generated " +:+ pretty n +:+ " insns for '" +:+ descr t +:+ "' (counted)"]), f_rand r)
      else Some (Skipped ["Skipping test '" +:+ descr t +:+ "': allocation failed"], rand)
  | None =>
      match fill_insns t with
      | Some pre =>
          let n := if 0 <? prog_len t then prog_len t else count_insns pre in
          Some (Printed (print_test t (read_insns pre n)) [], rand)
      | None =>
          let n := count_insns (insns t) in
          Some (Printed (print_test t (read_insns (insns t) n)) [], rand)
      end
  end.

Fixpoint convert_all (i : nat) (tests : list bpf_test) (rand : Z) : option (list converted) :=
  match tests with
  | [] => Some []
  | t :: tests =>
      '(c, rand) ← convert_test i t rand;
      cs ← convert_all (S i) tests rand;
      Some (c :: cs)
  end.

Definition objects (cs : list converted) : list string :=
  flat_map (fun c => match c with Printed o _ => [o] | Skipped _ => [] end) cs.

(** [main]: standard output. *)
Definition main (tests : list bpf_test) : option string :=
  cs ← convert_all 0 tests bpf_rand_state0;
  Some ("[" +:+ nl +:+ join ("," +:+ nl) (objects cs) +:+ nl +:+ "]" +:+ nl).

End Main.

End ConvertTests.
