(* ===== verification/Json.v ===== *)
(** JSON documents: the grammar the output of the converter is judged by.

    [lex] is a character automaton and [parse] a stack automaton on tokens, both
    structural on their input.  The lemmas say how they behave on the pieces a
    printer emits: numbers in decimal, and the tokens of a value.  Strings are
    byte strings; of the number grammar only integers are accepted. *)

From S2P Require Import Prelude.
From Stdlib Require Import ZArith Lia Ascii String.
From stdpp Require Import base numbers strings pretty list.
Open Scope Z_scope.

Module Json.

Inductive json : Type :=
| JNull
| JNum (z : Z)
| JStr (s : string)
| JArr (l : list json)
| JObj (l : list (string * json)).

Inductive token : Type :=
| TLBrace | TRBrace | TLBrack | TRBrack | TComma | TColon | TNull
| TStr (s : string) | TNum (z : Z).

(** * Characters to tokens *)

(** Inside a string, after a backslash, inside [\uXXXX] (digits left, value),
    after a minus sign, inside a number, inside the keyword [null]. *)
Inductive lexing : Type :=
| Start
| InStr (acc : string)
| Escape (acc : string)
| Unicode (acc : string) (todo : nat) (v : nat)
| Minus
| InNum (neg : bool) (v : N)
| Keyword (rest : string).

#[export] Instance token_eq_dec : EqDecision token.
Proof. solve_decision. Defined.
#[export] Instance lexing_eq_dec : EqDecision lexing.
Proof. solve_decision. Defined.

Definition digit (c : ascii) : option N :=
  let n := nat_of_ascii c in
  if (48 <=? n)%nat && (n <=? 57)%nat then Some (N.of_nat (n - 48)) else None.

Definition hex_value (c : ascii) : option nat :=
  let n := nat_of_ascii c in
  if (48 <=? n)%nat && (n <=? 57)%nat then Some (n - 48)%nat
  else if (97 <=? n)%nat && (n <=? 102)%nat then Some (n - 87)%nat
  else if (65 <=? n)%nat && (n <=? 70)%nat then Some (n - 55)%nat
  else None.

Definition snoc (s : string) (c : ascii) : string := s +:+ String c "".

Definition lex_start (c : ascii) : option (lexing * list token) :=
  let n := nat_of_ascii c in
  if (n =? 32)%nat || (n =? 10)%nat || (n =? 13)%nat || (n =? 9)%nat then Some (Start, [])
  else if (n =? 34)%nat then Some (InStr "", [])
  else if (n =? 45)%nat then Some (Minus, [])
  else if (n =? 44)%nat then Some (Start, [TComma])
  else if (n =? 58)%nat then Some (Start, [TColon])
  else if (n =? 91)%nat then Some (Start, [TLBrack])
  else if (n =? 93)%nat then Some (Start, [TRBrack])
  else if (n =? 123)%nat then Some (Start, [TLBrace])
  else if (n =? 125)%nat then Some (Start, [TRBrace])
  else if (n =? 110)%nat then Some (Keyword "ull", [])
  else match digit c with Some d => Some (InNum false d, []) | None => None end.

Definition lex_escape (acc : string) (c : ascii) : option (lexing * list token) :=
  let n := nat_of_ascii c in
  let ret k := Some (InStr (snoc acc (ascii_of_nat k)), []) in
  if (n =? 34)%nat || (n =? 92)%nat || (n =? 47)%nat then ret n
  else if (n =? 98)%nat then ret 8%nat
  else if (n =? 102)%nat then ret 12%nat
  else if (n =? 110)%nat then ret 10%nat
  else if (n =? 114)%nat then ret 13%nat
  else if (n =? 116)%nat then ret 9%nat
  else if (n =? 117)%nat then Some (Unicode acc 4 0, [])
  else None.

Definition number (neg : bool) (v : N) : Z := if neg then - Z.of_N v else Z.of_N v.

Definition lex_char (st : lexing) (c : ascii) : option (lexing * list token) :=
  match st with
  | Start => lex_start c
  | InStr acc =>
      let n := nat_of_ascii c in
      if (n =? 34)%nat then Some (Start, [TStr acc])
      else if (n =? 92)%nat then Some (Escape acc, [])
      else if (n <? 32)%nat then None
      else Some (InStr (snoc acc c), [])
  | Escape acc => lex_escape acc c
  | Unicode acc todo v =>
      h ← hex_value c;
      let v := (16 * v + h)%nat in
      match todo with
      | O => None
      | 1%nat => if (v <? 256)%nat then Some (InStr (snoc acc (ascii_of_nat v)), []) else None
      | S todo => Some (Unicode acc todo v, [])
      end
  | Minus => d ← digit c; Some (InNum true d, [])
  | InNum neg v =>
      match digit c with
      | Some d => Some (InNum neg (10 * v + d)%N, [])
      | None => '(st, ts) ← lex_start c; Some (st, TNum (number neg v) :: ts)
      end
  | Keyword rest =>
      match rest with
      | String c' rest =>
          if ascii_dec c c' then
            match rest with EmptyString => Some (Start, [TNull]) | _ => Some (Keyword rest, []) end
          else None
      | EmptyString => None
      end
  end.

Fixpoint lex_run (st : lexing) (s : string) : option (lexing * list token) :=
  match s with
  | EmptyString => Some (st, [])
  | String c s =>
      '(st, ts) ← lex_char st c;
      '(st, ts') ← lex_run st s;
      Some (st, ts ++ ts')
  end.

(** A whole text: nothing may be left open at its end. *)
Definition lex (s : string) : option (list token) :=
  '(st, ts) ← lex_run Start s;
  match st with
  | Start => Some ts
  | InNum neg v => Some (ts ++ [TNum (number neg v)])
  | _ => None
  end.

(** * Tokens to values *)

(** Enclosing containers, innermost first; their elements in reverse. *)
Inductive frame : Type :=
| FArr (before : list json)
| FObj (before : list (string * json)) (key : string).

Inductive parsing : Type :=
| Value (stk : list frame)
| ArrFirst (stk : list frame)
| ArrAfter (before : list json) (stk : list frame)
| ObjFirst (stk : list frame)
| ObjKey (before : list (string * json)) (stk : list frame)
| ObjColon (before : list (string * json)) (key : string) (stk : list frame)
| ObjAfter (before : list (string * json)) (stk : list frame)
| Whole (j : json).

Definition deliver (j : json) (stk : list frame) : parsing :=
  match stk with
  | [] => Whole j
  | FArr before :: stk => ArrAfter (j :: before) stk
  | FObj before key :: stk => ObjAfter ((key, j) :: before) stk
  end.

Definition parse_value (stk : list frame) (t : token) : option parsing :=
  match t with
  | TNull => Some (deliver JNull stk)
  | TNum z => Some (deliver (JNum z) stk)
  | TStr s => Some (deliver (JStr s) stk)
  | TLBrack => Some (ArrFirst stk)
  | TLBrace => Some (ObjFirst stk)
  | _ => None
  end.

Definition parse_token (st : parsing) (t : token) : option parsing :=
  match st with
  | Value stk => parse_value stk t
  | ArrFirst stk =>
      match t with TRBrack => Some (deliver (JArr []) stk) | _ => parse_value (FArr [] :: stk) t end
  | ArrAfter before stk =>
      match t with
      | TComma => Some (Value (FArr before :: stk))
      | TRBrack => Some (deliver (JArr (reverse before)) stk)
      | _ => None
      end
  | ObjFirst stk =>
      match t with
      | TRBrace => Some (deliver (JObj []) stk)
      | TStr k => Some (ObjColon [] k stk)
      | _ => None
      end
  | ObjKey before stk => match t with TStr k => Some (ObjColon before k stk) | _ => None end
  | ObjColon before key stk => match t with TColon => Some (Value (FObj before key :: stk)) | _ => None end
  | ObjAfter before stk =>
      match t with
      | TComma => Some (ObjKey before stk)
      | TRBrace => Some (deliver (JObj (reverse before)) stk)
      | _ => None
      end
  | Whole _ => None
  end.

Fixpoint parse_run (st : parsing) (ts : list token) : option parsing :=
  match ts with
  | [] => Some st
  | t :: ts => st ← parse_token st t; parse_run st ts
  end.

(** The document a text denotes. *)
Definition parse (s : string) : option json :=
  ts ← lex s;
  st ← parse_run (Value []) ts;
  match st with Whole j => Some j | _ => None end.

(** ** The tokens of a value *)

Fixpoint sep_tokens (l : list (list token)) : list token :=
  match l with
  | [] => []
  | [ts] => ts
  | ts :: l => ts ++ TComma :: sep_tokens l
  end.

Fixpoint tokens (j : json) : list token :=
  match j with
  | JNull => [TNull]
  | JNum z => [TNum z]
  | JStr s => [TStr s]
  | JArr l => TLBrack :: sep_tokens (map tokens l) ++ [TRBrack]
  | JObj l =>
      TLBrace :: sep_tokens (map (fun kj => match kj with (k, j) => TStr k :: TColon :: tokens j end) l)
        ++ [TRBrace]
  end.

(** * Lexing what a printer emits *)

Lemma lex_run_app st a b :
  lex_run st (a +:+ b) =
  '(st, ts) ← lex_run st a; '(st, ts') ← lex_run st b; Some (st, ts ++ ts').
Proof.
  revert st. induction a as [|c a IH]; intros st.
  - cbn. change ("" +:+ b) with b. destruct (lex_run st b) as [[]|]; done.
  - change (String c a +:+ b) with (String c (a +:+ b)). cbn.
    destruct (lex_char st c) as [[st1 ts1]|]; cbn; [|done].
    rewrite IH. destruct (lex_run st1 a) as [[st2 ts2]|]; cbn; [|done].
    destruct (lex_run st2 b) as [[st3 ts3]|]; cbn; [|done]. by rewrite app_assoc.
Qed.

Lemma lex_run_seq st a b st1 ts1 st2 ts2 :
  lex_run st a = Some (st1, ts1) -> lex_run st1 b = Some (st2, ts2) ->
  lex_run st (a +:+ b) = Some (st2, ts1 ++ ts2).
Proof. intros Ha Hb. rewrite lex_run_app, Ha. cbn. by rewrite Hb. Qed.

(** ** Numbers *)

(** A state that reads a first digit. *)
Definition opens (st : lexing) (neg : bool) : Prop :=
  forall x, (x < 10)%N -> lex_char st (pretty_N_char x) = Some (InNum neg x, []).

Lemma below_ten (P : N -> Prop) `{forall x, Decision (P x)} :
  forallb (fun k => bool_decide (P (N.of_nat k))) (seq 0 10) = true ->
  forall x, (x < 10)%N -> P x.
Proof.
  rewrite forallb_forall. intros Hall x Hx.
  specialize (Hall (N.to_nat x)). rewrite N2Nat.id in Hall.
  apply (bool_decide_unpack _). rewrite Hall; [done|]. apply in_seq. lia.
Qed.

Lemma start_opens : opens Start false.
Proof. refine (below_ten _ _). by vm_compute. Qed.

Lemma minus_opens : opens Minus true.
Proof. refine (below_ten _ _). by vm_compute. Qed.

Lemma digit_pretty x : (x < 10)%N -> digit (pretty_N_char x) = Some x.
Proof. revert x. refine (below_ten _ _). by vm_compute. Qed.

Lemma lex_pretty_go st neg x s :
  opens st neg -> (0 < x)%N -> lex_run st (pretty_N_go x s) = lex_run (InNum neg x) s.
Proof.
  intros Hst. revert s. induction (N.lt_wf_0 x) as [x _ IH]. intros s Hx.
  rewrite pretty_N_go_step by lia.
  pose proof (N.mod_lt x 10). pose proof (N.div_mod x 10).
  destruct (decide (x / 10 = 0)%N) as [E|E].
  - rewrite E, pretty_N_go_0. cbn [lex_run]. rewrite Hst by lia. cbn [mbind option_bind].
    assert (x mod 10 = x)%N as -> by lia. destruct (lex_run (InNum neg x) s) as [[]|]; done.
  - rewrite IH by (try apply N.div_lt; lia). cbn [lex_run lex_char].
    rewrite digit_pretty by lia. cbn [mbind option_bind].
    replace (10 * (x / 10) + x mod 10)%N with x by lia.
    destruct (lex_run (InNum neg x) s) as [[]|]; done.
Qed.

(** A character that ends a number. *)
Definition closes (c : ascii) : bool := match digit c with None => true | Some _ => false end.

Lemma lex_run_num neg v c s :
  closes c = true ->
  lex_run (InNum neg v) (String c s) =
  '(st, ts) ← lex_run Start (String c s); Some (st, TNum (number neg v) :: ts).
Proof.
  unfold closes. intros Hc. cbn [lex_run lex_char].
  destruct (digit c); [done|]. destruct (lex_start c) as [[st ts]|]; cbn; [|done].
  destruct (lex_run st s) as [[]|]; done.
Qed.

(** Lexing a printed integer followed by [String c s]. *)
Lemma lex_pretty (z : Z) c s :
  closes c = true ->
  lex_run Start (pretty z +:+ String c s) =
  '(st, ts) ← lex_run Start (String c s); Some (st, TNum z :: ts).
Proof.
  intros Hc. rewrite lex_run_app.
  assert (Hz : exists neg v, lex_run Start (pretty z) = Some (InNum neg v, []) /\ number neg v = z).
  { destruct z as [|p|p]; unfold pretty, pretty_Z.
    - by exists false, 0%N.
    - exists false, (N.pos p). split; [|done].
      change (pretty p) with (pretty_N_go (N.pos p) "").
      by rewrite (lex_pretty_go _ _ _ _ start_opens) by lia.
    - exists true, (N.pos p). split; [|done]. rewrite lex_run_app.
      change (lex_run Start "-") with (Some (Minus, @nil token)). cbn [mbind option_bind].
      change (pretty p) with (pretty_N_go (N.pos p) "").
      by rewrite (lex_pretty_go _ _ _ _ minus_opens) by lia. }
  destruct Hz as (neg & v & -> & <-). cbn [mbind option_bind].
  rewrite lex_run_num by done. by destruct (lex_run Start (String c s)) as [[]|].
Qed.

(** * Parsing the tokens of a value *)

Lemma parse_run_app st a b : parse_run st (a ++ b) = st ← parse_run st a; parse_run st b.
Proof.
  revert st. induction a as [|t a IH]; intros st; [done|]. cbn.
  destruct (parse_token st t); cbn; [apply IH|done].
Qed.

Lemma json_ind' (P : json -> Prop) :
  P JNull -> (forall z, P (JNum z)) -> (forall s, P (JStr s)) ->
  (forall l, Forall P l -> P (JArr l)) ->
  (forall l, Forall (fun kj => P (snd kj)) l -> P (JObj l)) ->
  forall j, P j.
Proof.
  intros Hnull Hnum Hstr Harr Hobj. fix IH 1. intros [|z|s|l|l].
  - exact Hnull.
  - apply Hnum.
  - apply Hstr.
  - apply Harr. induction l; constructor; [apply IH|assumption].
  - apply Hobj. induction l as [|[k j] l IHl]; constructor; [apply IH|assumption].
Qed.

(** A value is read the same way where it may also be the first of an array. *)
Definition accepts (j : json) : Prop :=
  forall stk, parse_run (Value stk) (tokens j) = Some (deliver j stk).

Lemma tokens_cons j : exists t ts, tokens j = t :: ts /\ t <> TRBrack.
Proof. destruct j; cbn; eauto. Qed.

Lemma parse_first j stk :
  accepts j -> parse_run (ArrFirst stk) (tokens j) = Some (deliver j (FArr [] :: stk)).
Proof.
  intros Hj. rewrite <-(Hj (FArr [] :: stk)).
  destruct (tokens_cons j) as (t & ts & -> & Ht). cbn. by destruct t.
Qed.

Lemma parse_elems l before stk :
  Forall accepts l -> l <> [] ->
  parse_run (Value (FArr before :: stk)) (sep_tokens (map tokens l) ++ [TRBrack]) =
  Some (deliver (JArr (reverse before ++ l)) stk).
Proof.
  intros Hl _Hne. revert before. induction Hl as [|j l Hj Hl IH]; intros before; [done|].
  destruct l as [|j' l'].
  - cbn [map sep_tokens]. rewrite parse_run_app, Hj.
    cbn [mbind option_bind deliver parse_run parse_token]. by rewrite reverse_cons.
  - change (sep_tokens (map tokens (j :: j' :: l')))
      with (tokens j ++ TComma :: sep_tokens (map tokens (j' :: l'))).
    rewrite <-app_assoc, parse_run_app, Hj. cbn [mbind option_bind deliver].
    rewrite <-app_comm_cons. cbn [parse_run parse_token mbind option_bind].
    rewrite (IH ltac:(done)), reverse_cons, <-app_assoc. done.
Qed.

Lemma parse_array_first l stk :
  Forall accepts l -> l <> [] ->
  parse_run (ArrFirst stk) (sep_tokens (map tokens l) ++ [TRBrack]) = Some (deliver (JArr l) stk).
Proof.
  intros Hl Hne. destruct Hl as [|j l Hj Hl]; [done|].
  destruct l as [|j' l'].
  - cbn [map sep_tokens]. rewrite parse_run_app, parse_first by done. done.
  - change (sep_tokens (map tokens (j :: j' :: l')))
      with (tokens j ++ TComma :: sep_tokens (map tokens (j' :: l'))).
    rewrite <-app_assoc, parse_run_app, parse_first by done. cbn [mbind option_bind deliver].
    rewrite <-app_comm_cons. cbn [parse_run parse_token mbind option_bind].
    by rewrite parse_elems.
Qed.

Definition member_tokens (kj : string * json) : list token :=
  match kj with (k, j) => TStr k :: TColon :: tokens j end.

Lemma parse_members l before stk :
  Forall (fun kj => accepts (snd kj)) l -> l <> [] ->
  parse_run (ObjKey before stk) (sep_tokens (map member_tokens l) ++ [TRBrace]) =
  Some (deliver (JObj (reverse before ++ l)) stk).
Proof.
  intros Hl _Hne. revert before. induction Hl as [|[k j] l Hj Hl IH]; intros before; [done|].
  cbn [snd] in Hj. destruct l as [|kj' l'].
  - cbn [map sep_tokens member_tokens]. rewrite <-!app_comm_cons.
    cbn [parse_run parse_token mbind option_bind]. rewrite parse_run_app, Hj.
    cbn [mbind option_bind deliver parse_run parse_token]. by rewrite reverse_cons.
  - change (sep_tokens (map member_tokens ((k, j) :: kj' :: l')))
      with ((TStr k :: TColon :: tokens j) ++ TComma :: sep_tokens (map member_tokens (kj' :: l'))).
    rewrite <-app_assoc, <-!app_comm_cons. cbn [parse_run parse_token mbind option_bind].
    rewrite parse_run_app, Hj. cbn [mbind option_bind deliver].
    cbn [parse_run parse_token mbind option_bind].
    rewrite (IH ltac:(done)), reverse_cons, <-app_assoc. done.
Qed.

Lemma parse_tokens j : accepts j.
Proof.
  induction j as [| | |l IH|l IH] using json_ind'; intros stk; try done.
  - destruct (decide (l = [])) as [->|Hne]; [done|].
    change (tokens (JArr l)) with (TLBrack :: sep_tokens (map tokens l) ++ [TRBrack]).
    cbn [parse_run parse_token parse_value mbind option_bind]. by apply parse_array_first.
  - destruct l as [|kj l]; [done|].
    change (tokens (JObj (kj :: l)))
      with (TLBrace :: sep_tokens (map member_tokens (kj :: l)) ++ [TRBrace]).
    etransitivity; [|exact (parse_members (kj :: l) [] stk IH ltac:(done))].
    destruct kj as [k j], l; done.
Qed.

(** A text whose tokens are those of [j] denotes [j]. *)
Lemma parse_of_tokens s j : lex_run Start s = Some (Start, tokens j) -> parse s = Some j.
Proof.
  intros Hs. unfold parse, lex. rewrite Hs. cbn. by rewrite parse_tokens.
Qed.

End Json.
