(* ===== verification/ConvertJson.v ===== *)
(** The output of [convert_tests.c] is a JSON document that denotes its tests.

    [json_of_test] is the value a test stands for; [main_output_json] says that
    the text printed by [main] parses to the array of these values. *)

From S2P Require Import Prelude Json BpfInsn ConvertTests.
From Stdlib Require Import ZArith Lia Ascii String.
From stdpp Require Import base numbers strings pretty gmap list.
Import Json BpfInsn ConvertTests.
Open Scope Z_scope.

Module ConvertJson.

(** * What a test denotes *)

Definition json_of_insn (x : bpf_insn) : json :=
  JObj [("code", JNum (code x)); ("dst", JNum (dst_reg x)); ("src", JNum (src_reg x));
        ("off", JNum (off x)); ("imm", JNum (imm x))].

Definition opt_str (k : string) (s : option string) : list (string * json) :=
  match s with Some s => [(k, JStr s)] | None => [] end.
Definition opt_num (k : string) (z : Z) : list (string * json) :=
  if z =? 0 then [] else [(k, JNum z)].

(** The fixups that have an instruction, each with its instructions. *)
Definition used_fixups (t : bpf_test) : list fixup :=
  List.filter (fun f => has_fixup (fixup_array t f)) all_fixups.
Definition json_of_fixup (t : bpf_test) (f : fixup) : string * json :=
  (fixup_name f, JArr (map JNum (fixup_elems (fixup_array t f)))).
Definition json_of_fixups (t : bpf_test) : list (string * json) :=
  match used_fixups t with [] => [] | fs => [("fixups", JObj (map (json_of_fixup t) fs))] end.

Definition json_of_test (t : bpf_test) (prog : list bpf_insn) : json :=
  JObj ([("name", JStr (descr t)); ("result", JStr (result_str (result t)))] ++
    (if result_unpriv t =? 0 then [] else [("result_unpriv", JStr (result_str (result_unpriv t)))]) ++
    opt_str "errstr" (errstr t) ++ opt_str "errstr_unpriv" (errstr_unpriv t) ++
    opt_num "prog_type" (prog_type t) ++ opt_num "expected_attach_type" (expected_attach_type t) ++
    opt_str "kfunc" (kfunc t) ++ opt_num "flags" (flags t) ++ json_of_fixups t ++
    [("insns", JArr (map json_of_insn prog))]).

(** C strings hold no NUL byte. *)
Fixpoint c_string (s : string) : bool :=
  match s with
  | EmptyString => true
  | String c s => negb (nat_of_ascii c =? 0)%nat && c_string s
  end.
Definition c_string_opt (s : option string) : bool := match s with Some s => c_string s | None => true end.
Definition c_strings (t : bpf_test) : bool :=
  c_string (descr t) && c_string_opt (errstr t) && c_string_opt (errstr_unpriv t) && c_string_opt (kfunc t).

(** * Pieces of text *)

(** [s] can follow a number. *)
Definition starts (s : string) : bool := match s with EmptyString => true | String c _ => closes c end.

(** Reading [s] in front of a text that can follow a number gives [ts]. *)
Definition emits (s : string) (ts : list token) : Prop :=
  forall r, starts r = true -> r <> "" ->
  lex_run Start (s +:+ r) = '(st, ts') ← lex_run Start r; Some (st, ts ++ ts').

Definition piece (s : string) (ts : list token) : Prop := starts s = true /\ emits s ts.

Lemma append_assoc a b c : (a +:+ b) +:+ c = a +:+ b +:+ c.
Proof. induction a as [|x a IH]; [done|]. cbn. change (String x ((a +:+ b) +:+ c) = String x (a +:+ b +:+ c)). by rewrite IH. Qed.

Lemma append_nil_r a : a +:+ "" = a.
Proof. induction a as [|x a IH]; [done|]. change (String x (a +:+ "") = String x a). by rewrite IH. Qed.

Lemma starts_app a b : starts a = true -> starts b = true -> starts (a +:+ b) = true.
Proof. by destruct a. Qed.

Lemma emits_literal s ts : lex_run Start s = Some (Start, ts) -> emits s ts.
Proof.
  intros Hs r _ _. rewrite lex_run_app, Hs. cbn. by destruct (lex_run Start r) as [[]|].
Qed.

Lemma emits_number z : emits (pretty z) [TNum z].
Proof. intros [|c r] Hr Hne; [done|]. by rewrite lex_pretty. Qed.

Lemma emits_app a ta b tb : emits a ta -> emits b tb -> starts b = true -> emits (a +:+ b) (ta ++ tb).
Proof.
  intros Ha Hb Hs r Hr Hne. rewrite append_assoc, Ha.
  - rewrite Hb by done. destruct (lex_run Start r) as [[]|]; cbn; [|done]. by rewrite app_assoc.
  - by apply starts_app.
  - by destruct b, r.
Qed.

(** After a literal anything may follow. *)
Lemma emits_literal_app a ta b tb :
  lex_run Start a = Some (Start, ta) -> emits b tb -> emits (a +:+ b) (ta ++ tb).
Proof.
  intros Ha Hb r Hr Hne. rewrite append_assoc, lex_run_app, Ha. cbn. rewrite Hb by done.
  destruct (lex_run Start r) as [[]|]; cbn; [|done]. by rewrite app_assoc.
Qed.

Lemma piece_literal s ts : starts s = true -> lex_run Start s = Some (Start, ts) -> piece s ts.
Proof. split; [done|]. by apply emits_literal. Qed.

Lemma piece_app a ta b tb : piece a ta -> piece b tb -> piece (a +:+ b) (ta ++ tb).
Proof. intros [Ha Ea] [Hb Eb]. split; [by apply starts_app|by apply emits_app]. Qed.

Lemma piece_literal_app a ta b tb :
  starts a = true -> a <> "" -> lex_run Start a = Some (Start, ta) -> emits b tb -> piece (a +:+ b) (ta ++ tb).
Proof.
  intros Hs Hne Ha Hb. split; [by destruct a|]. by apply emits_literal_app.
Qed.

Lemma piece_nil : piece "" [].
Proof. by apply piece_literal. Qed.

(** * Strings *)

Lemma json_char_lex acc c :
  nat_of_ascii c <> 0%nat -> lex_run (InStr acc) (json_char c) = Some (InStr (snoc acc c), []).
Proof. destruct c as [[] [] [] [] [] [] [] []]; intros Hc; first [by exfalso | reflexivity]. Qed.

Lemma json_chars_lex acc s :
  c_string s = true -> lex_run (InStr acc) (json_chars s) = Some (InStr (acc +:+ s), []).
Proof.
  revert acc. induction s as [|c s IH]; intros acc Hs; cbn [c_string json_chars] in *.
  - by rewrite append_nil_r.
  - apply andb_prop in Hs as [Hc Hs]. apply negb_true_iff, Nat.eqb_neq in Hc as Hne.
    rewrite (proj2 (Nat.eqb_neq _ _) Hne), lex_run_app, json_char_lex by done. cbn [mbind option_bind].
    rewrite IH by done. unfold snoc. by rewrite append_assoc.
Qed.

Lemma lex_json_string s :
  c_string s = true -> lex_run Start (print_json_string (Some s)) = Some (Start, [TStr s]).
Proof.
  intros Hs. unfold print_json_string. rewrite lex_run_app.
  change (lex_run Start quote) with (Some (InStr "", @nil token)). cbn [mbind option_bind].
  rewrite lex_run_app, json_chars_lex by done. done.
Qed.

(** [print_json_string] writes a JSON string literal that denotes exactly the
    C string it is given, whatever characters the string holds. *)
Theorem json_string_round_trip s :
  c_string s = true -> parse (print_json_string (Some s)) = Some (JStr s).
Proof. intros Hs. by apply parse_of_tokens, lex_json_string. Qed.

Lemma json_string_round_trip_witness :
  parse (print_json_string (Some (String (ascii_of_nat 7) (quote +:+ bslash +:+ "R1 !read_ok" +:+ nl)))) =
  Some (JStr (String (ascii_of_nat 7) (quote +:+ bslash +:+ "R1 !read_ok" +:+ nl))).
Proof. apply json_string_round_trip. by vm_compute. Defined.

(** * Lists *)

Lemma sep_tokens_cons x l : sep_tokens (x :: l) = x ++ flat_map (fun y => TComma :: y) l.
Proof.
  revert x. induction l as [|y l IH]; intros x; [by rewrite app_nil_r|].
  change (sep_tokens (x :: y :: l)) with (x ++ TComma :: sep_tokens (y :: l)). by rewrite IH.
Qed.

Lemma emits_join {A} (sep : string) (f : A -> string) (g : A -> list token) (l : list A) :
  starts sep = true -> sep <> "" -> lex_run Start sep = Some (Start, [TComma]) ->
  Forall (fun x => emits (f x) (g x)) l -> emits (join sep (map f l)) (sep_tokens (map g l)).
Proof.
  intros Hs Hne Hsep Hl. induction Hl as [|x l Hx Hl IH]; [apply piece_nil|].
  destruct l as [|y l]; [done|].
  change (join sep (map f (x :: y :: l))) with (f x +:+ sep +:+ join sep (map f (y :: l))).
  change (sep_tokens (map g (x :: y :: l))) with (g x ++ [TComma] ++ sep_tokens (map g (y :: l))).
  apply emits_app; [done| |by destruct sep]. by apply emits_literal_app.
Qed.

(** The members of an object that follow its first one. *)
Definition tails (ms : list (string * json)) : list token :=
  flat_map (fun m => TComma :: member_tokens m) ms.

Lemma tails_app a b : tails (a ++ b) = tails a ++ tails b.
Proof. apply flat_map_app. Qed.

Lemma tails_one k j : tails [(k, j)] = TComma :: TStr k :: TColon :: tokens j.
Proof. cbn. by rewrite app_nil_r. Qed.

Lemma tokens_obj m ms : tokens (JObj (m :: ms)) = TLBrace :: member_tokens m ++ tails ms ++ [TRBrace].
Proof.
  change (tokens (JObj (m :: ms))) with (TLBrace :: sep_tokens (map member_tokens (m :: ms)) ++ [TRBrace]).
  rewrite map_cons, sep_tokens_cons, <-app_assoc. unfold tails. do 3 f_equal.
  by rewrite !flat_map_concat_map, map_map.
Qed.

Lemma tokens_arr {A} (f : A -> json) l :
  tokens (JArr (map f l)) = [TLBrack] ++ sep_tokens (map (fun x => tokens (f x)) l) ++ [TRBrack].
Proof. cbn. by rewrite map_map. Qed.

(** * The parts of a test *)

Definition key_ok (k : string) : Prop := lex_run Start (json_key k) = Some (Start, [TComma; TStr k; TColon]).

Lemma piece_key k b tb : key_ok k -> emits b tb -> piece (json_key k +:+ b) (TComma :: TStr k :: TColon :: tb).
Proof. intros Hk Hb. by apply (piece_literal_app _ [TComma; TStr k; TColon]). Qed.

Lemma piece_opt_str k s :
  key_ok k -> c_string_opt s = true ->
  piece (match s with None => "" | Some s => json_key k +:+ print_json_string (Some s) end)
    (tails (opt_str k s)).
Proof.
  intros Hk Hs. destruct s as [s|]; [|apply piece_nil].
  apply piece_key; [done|]. by apply emits_literal, lex_json_string.
Qed.

Lemma piece_opt_num k z :
  key_ok k -> piece (if z =? 0 then "" else json_key k +:+ pretty z) (tails (opt_num k z)).
Proof.
  intros Hk. unfold opt_num. destruct (z =? 0); [apply piece_nil|].
  apply piece_key; [done|]. apply emits_number.
Qed.

Lemma lex_result r :
  lex_run Start (quote +:+ result_str r +:+ quote) = Some (Start, [TStr (result_str r)]).
Proof. unfold result_str. by repeat destruct (_ =? _). Qed.

Lemma piece_result k r :
  key_ok k -> piece (json_key k +:+ quote +:+ result_str r +:+ quote) (tails [(k, JStr (result_str r))]).
Proof. intros Hk. apply piece_key; [done|]. apply emits_literal, lex_result. Qed.

Lemma piece_opt_result k r :
  key_ok k ->
  piece (if r =? 0 then "" else json_key k +:+ quote +:+ result_str r +:+ quote)
    (tails (if r =? 0 then [] else [(k, JStr (result_str r))])).
Proof. intros Hk. destruct (r =? 0); [apply piece_nil|by apply piece_result]. Qed.

Lemma piece_fixup f arr :
  emits (print_fixup f arr) (member_tokens (fixup_name f, JArr (map JNum (fixup_elems arr)))).
Proof.
  unfold print_fixup, member_tokens. rewrite tokens_arr.
  replace (nl +:+ "    " +:+ quote +:+ fixup_name f +:+ quote +:+ ": [" +:+
    join ", " (map pretty (fixup_elems arr)) +:+ "]")
    with ((nl +:+ "    " +:+ quote +:+ fixup_name f +:+ quote +:+ ": [") +:+
      join ", " (map pretty (fixup_elems arr)) +:+ "]") by by rewrite !append_assoc.
  apply (emits_literal_app _ [TStr (fixup_name f); TColon; TLBrack]); [by destruct f|].
  apply emits_app; [|by apply emits_literal|done].
  apply emits_join; [done..|]. apply Forall_forall. intros z _. apply emits_number.
Qed.

Lemma piece_fixups t : piece (print_fixups t) (tails (json_of_fixups t)).
Proof.
  unfold print_fixups, json_of_fixups, used_fixups.
  destruct (List.filter _ all_fixups) as [|f fs]; [apply piece_nil|].
  set (l := f :: fs).
  replace ("," +:+ nl +:+ "    " +:+ quote +:+ "fixups" +:+ quote +:+ ": {" +:+
      join "," (map (fun f => print_fixup f (fixup_array t f)) l) +:+ nl +:+ "    }")
    with ((json_key "fixups" +:+ "{") +:+ join "," (map (fun f => print_fixup f (fixup_array t f)) l) +:+
      (nl +:+ "    }")) by by rewrite !append_assoc.
  assert (tails [("fixups", JObj (map (json_of_fixup t) l))] =
    [TComma; TStr "fixups"; TColon; TLBrace] ++
    sep_tokens (map (fun f => member_tokens (json_of_fixup t f)) l) ++ [TRBrace]) as ->.
  { rewrite tails_one. cbn [tokens app]. do 4 f_equal. by rewrite map_map. }
  apply piece_literal_app; [done..|]. apply emits_app; [|by apply emits_literal|done].
  apply emits_join; [done..|]. apply Forall_forall. intros g _. apply piece_fixup.
Qed.

Lemma emits_insn x : emits (print_insn x) (tokens (json_of_insn x)).
Proof.
  unfold print_insn. set (v1 := code x). set (v2 := dst_reg x). set (v3 := src_reg x).
  set (v4 := off x). set (v5 := imm x).
  change (tokens (json_of_insn x)) with
    ([TLBrace; TStr "code"; TColon] ++ [TNum v1] ++ [TComma; TStr "dst"; TColon] ++ [TNum v2] ++
     [TComma; TStr "src"; TColon] ++ [TNum v3] ++ [TComma; TStr "off"; TColon] ++ [TNum v4] ++
     [TComma; TStr "imm"; TColon] ++ [TNum v5] ++ [TRBrace]).
  set (k1 := nl +:+ "      {" +:+ quote +:+ "code" +:+ quote +:+ ": ").
  set (key k := ", " +:+ quote +:+ k +:+ quote +:+ ": ").
  match goal with |- emits ?s _ =>
    replace s with (k1 +:+ pretty v1 +:+ key "dst" +:+ pretty v2 +:+ key "src" +:+ pretty v3 +:+
      key "off" +:+ pretty v4 +:+ key "imm" +:+ pretty v5 +:+ "}") end.
  2:{ subst k1 key. cbv beta. by rewrite !append_assoc. }
  repeat first
    [ apply emits_literal_app; [by vm_compute|]
    | apply emits_app; [apply emits_number| |done] | by apply emits_literal ].
Qed.

Lemma piece_insns prog :
  piece (json_key "insns" +:+ "[" +:+ join "," (map print_insn prog) +:+ nl +:+ "    ]")
    (tails [("insns", JArr (map json_of_insn prog))]).
Proof.
  rewrite tails_one. apply piece_key; [done|]. rewrite tokens_arr.
  apply emits_literal_app; [done|]. apply emits_app; [|by apply emits_literal|done].
  apply emits_join; [done..|]. apply Forall_forall. intros x _. apply emits_insn.
Qed.

Lemma print_test_piece t prog :
  c_strings t = true -> piece (print_test t prog) (tokens (json_of_test t prog)).
Proof.
  intros Hs. unfold c_strings in Hs.
  apply andb_prop in Hs as [[[Hd He]%andb_prop Hu]%andb_prop Hk].
  set (open := "  {" +:+ nl +:+ "    " +:+ quote +:+ "name" +:+ quote +:+ ": ").
  set (close := nl +:+ "  }").
  unfold json_of_test. rewrite <-app_comm_cons, tokens_obj, !tails_app.
  change (TLBrace :: member_tokens ("name", JStr (descr t)) ++ ?ts)
    with ([TLBrace; TStr "name"; TColon] ++ [TStr (descr t)] ++ ts).
  unfold print_test.
  match goal with |- piece ?txt _ => replace txt with (open +:+ print_json_string (Some (descr t)) +:+
    (json_key "result" +:+ quote +:+ result_str (result t) +:+ quote) +:+
    (if result_unpriv t =? 0 then ""
     else json_key "result_unpriv" +:+ quote +:+ result_str (result_unpriv t) +:+ quote) +:+
    match errstr t with None => "" | s => json_key "errstr" +:+ print_json_string s end +:+
    match errstr_unpriv t with None => "" | s => json_key "errstr_unpriv" +:+ print_json_string s end +:+
    (if prog_type t =? 0 then "" else json_key "prog_type" +:+ pretty (prog_type t)) +:+
    (if expected_attach_type t =? 0 then ""
     else json_key "expected_attach_type" +:+ pretty (expected_attach_type t)) +:+
    match kfunc t with None => "" | s => json_key "kfunc" +:+ print_json_string s end +:+
    (if flags t =? 0 then "" else json_key "flags" +:+ pretty (flags t)) +:+
    print_fixups t +:+
    (json_key "insns" +:+ "[" +:+ join "," (map print_insn prog) +:+ nl +:+ "    ]") +:+ close) end.
  2:{ subst open close. by rewrite !append_assoc. }
  apply piece_app; [by apply piece_literal|].
  apply piece_app; [by apply piece_literal; [|apply lex_json_string]|].
  rewrite <-!app_assoc.
  apply piece_app; [by apply piece_result|].
  apply piece_app; [by apply piece_opt_result|].
  apply piece_app; [by apply piece_opt_str|].
  apply piece_app; [by apply piece_opt_str|].
  apply piece_app; [by apply piece_opt_num|].
  apply piece_app; [by apply piece_opt_num|].
  apply piece_app; [by apply piece_opt_str|].
  apply piece_app; [by apply piece_opt_num|].
  apply piece_app; [apply piece_fixups|].
  apply piece_app; [apply piece_insns|].
  by apply piece_literal.
Qed.

(** * The whole output *)

Section Main.
Context (calloc_ok : nat -> bool).

(** The tests that are printed, each with the instructions printed for it. *)
Fixpoint printed (i : nat) (tests : list bpf_test) (rand : Z) : list (bpf_test * list bpf_insn) :=
  match tests with
  | [] => []
  | t :: tests =>
      match fill_helper t with
      | Some f =>
          let r := run_fill_helper f (retval t) rand in
          let buf := default [] (fill_buffer r) in
          let n := if 0 <? f_prog_len r then f_prog_len r else count_insns buf in
          if calloc_ok i
          then (if n =? 0 then [] else [(t, read_insns buf n)]) ++ printed (S i) tests (f_rand r)
          else printed (S i) tests rand
      | None =>
          let prog :=
            match fill_insns t with
            | Some pre => read_insns pre (if 0 <? prog_len t then prog_len t else count_insns pre)
            | None => read_insns (insns t) (count_insns (insns t))
            end in
          (t, prog) :: printed (S i) tests rand
      end
  end.

Ltac settle H IH :=
  cbn in H;
  lazymatch type of H with
  | context [convert_all ?o (S ?i) ?ts ?r] =>
      destruct (convert_all o (S i) ts r) eqn:?E; cbn in H; [|done]; injection H as <-; cbn;
      erewrite IH by eassumption; done
  end.

Lemma convert_all_objects i tests rand cs :
  convert_all calloc_ok i tests rand = Some cs ->
  objects cs = map (fun tp => print_test (fst tp) (snd tp)) (printed i tests rand).
Proof.
  revert i rand cs. induction tests as [|t tests IH]; intros i rand cs Hcs; cbn in Hcs |- *.
  - by injection Hcs as <-.
  - unfold convert_test in Hcs.
    destruct (fill_helper t) as [f|].
    + destruct (calloc_ok i); [|by settle Hcs IH].
      destruct (fill_buffer (run_fill_helper f (retval t) rand)) as [buf|]; cbn in Hcs |- *; [|done].
      destruct (Z.ltb_spec 0 (f_prog_len (run_fill_helper f (retval t) rand))).
      * rewrite (proj2 (Z.eqb_neq _ 0)) by lia. by settle Hcs IH.
      * destruct (count_insns buf =? 0); by settle Hcs IH.
    + destruct (fill_insns t) as [pre|]; by settle Hcs IH.
Qed.

Lemma printed_tests i tests rand tp : In tp (printed i tests rand) -> In (fst tp) tests.
Proof.
  revert i rand. induction tests as [|t tests IH]; intros i rand; cbn; [done|].
  destruct (fill_helper t) as [f|].
  - destruct (calloc_ok i); [|by right; eauto].
    rewrite in_app_iff. intros [H|H]; [|by right; eauto].
    destruct (_ =? 0); [done|]. destruct H as [<-|[]]. by left.
  - intros [<-|H]; [by left|by right; eauto].
Qed.

Lemma main_json tests out :
  forallb c_strings tests = true ->
  main calloc_ok tests = Some out ->
  parse out =
  Some (JArr (map (fun tp => json_of_test (fst tp) (snd tp)) (printed 0 tests bpf_rand_state0))).
Proof.
  intros Hc Hout. unfold main in Hout.
  destruct (convert_all calloc_ok 0 tests bpf_rand_state0) as [cs|] eqn:E; cbn in Hout; [|done].
  injection Hout as <-. apply parse_of_tokens.
  rewrite (convert_all_objects _ _ _ _ E), tokens_arr.
  set (body := join ("," +:+ nl) _).
  replace ("[" +:+ nl +:+ body +:+ nl +:+ "]" +:+ nl) with (("[" +:+ nl) +:+ body +:+ (nl +:+ "]" +:+ nl))
    by by rewrite !append_assoc.
  apply (lex_run_seq _ _ _ Start [TLBrack]); [done|]. subst body.
  rewrite (emits_join ("," +:+ nl) _ (fun tp => tokens (json_of_test (fst tp) (snd tp)))); [done..| |done|done].
  apply Forall_forall. intros tp Htp%list_elem_of_In%printed_tests.
  apply print_test_piece. by eapply forallb_forall.
Qed.

(** C12. Whenever no fill helper writes outside its buffer, the text [main] prints is
    a JSON document: the array of the converted tests, in order, each with the
    instructions the converter found for it. *)
Theorem main_output_json tests out :
  forallb c_strings tests = true ->
  main calloc_ok tests = Some out ->
  parse out =
  Some (JArr (map (fun tp => json_of_test (fst tp) (snd tp)) (printed 0 tests bpf_rand_state0))).
Proof. apply main_json. Qed.

End Main.

Definition sample : bpf_test :=
  TEST "sample" [_insns [BPF_LD_IMM64 BPF_REG_0 (2 ^ 40); BPF_EXIT_INSN]; _fixup fixup_map_hash_8b [3];
    _errstr "R0 !read_ok"; _result REJECT].

Lemma main_output_json_witness :
  exists out, main (fun _ => true) [sample] = Some out /\
  parse out = Some (JArr [json_of_test sample (insns sample)]).
Proof.
  eexists. split; [by vm_compute|].
  etransitivity; [apply (main_output_json (fun _ => true) [sample]); by vm_compute|by vm_compute].
Defined.

End ConvertJson.
