(* ===== verification/ConvertProgs.v ===== *)
(** Which instructions the converter prints: the instruction counter on static
    tests, the stores of the fill helpers against the buffer they are given, and
    the helper identifiers against the kernel header. *)

From S2P Require Import Prelude Json BpfInsn ConvertTests ConvertJson.
From Stdlib Require Import ZArith Lia Ascii String.
From stdpp Require Import base numbers strings gmap list.
Import Json BpfInsn ConvertTests ConvertJson.
Open Scope Z_scope.

Module ConvertProgs.

(** * Counting *)

Definition lddw : Z := BPF_LD .| BPF_DW .| BPF_IMM.

(** Entry [i] follows the first half of a two-slot load. *)
Definition second_half (insns : list bpf_insn) (i : nat) : bool :=
  (0 <? i)%nat && (code (insn_at insns (i - 1)) =? lddw).

(** The counter stops at entry [i]. *)
Definition stops (insns : list bpf_insn) (i : nat) : bool :=
  (code (insn_at insns i) =? 0) && negb (second_half insns i).

Lemma count_from_step n i insns :
  count_from (S n) i insns = if stops insns i then Z.of_nat i else count_from n (S i) insns.
Proof.
  cbn [count_from]. unfold stops, second_half, lddw.
  destruct (code (insn_at insns i) =? 0); [|done]. by destruct (_ && _).
Qed.

Lemma count_from_spec n i insns :
  Z.of_nat (i + n) = MAX_INSNS ->
  exists r, count_from n i insns = Z.of_nat r /\ (i <= r <= i + n)%nat /\
    (forall j, (i <= j < r)%nat -> stops insns j = false) /\
    ((r < i + n)%nat -> stops insns r = true).
Proof.
  revert i. induction n as [|n IH]; intros i Hn.
  - exists i. rewrite Nat.add_0_r in Hn. split_and!; [done|lia|lia|intros; lia|lia].
  - rewrite count_from_step. destruct (stops insns i) eqn:E.
    + exists i. split_and!; [done|lia|lia|intros; lia|done].
    + destruct (IH (S i)) as (r & Hr & Hle & Hno & Hst); [lia|].
      exists r. split_and!; [done|lia|lia| |intros; apply Hst; lia].
      intros j Hj. destruct (decide (j = i)) as [->|]; [done|]. apply Hno. lia.
Qed.

Lemma insn_at_beyond insns i : (length insns <= i)%nat -> insn_at insns i = zero_insn.
Proof. intros H. by apply nth_overflow. Qed.

(** The program is complete: a zero opcode only as the second half of a
    two-slot load, and no two-slot load cut at the end. *)
Definition complete (insns : list bpf_insn) : bool :=
  forallb (fun i => negb (stops insns i)) (seq 0 (length insns)) &&
  ((Z.of_nat (length insns) =? MAX_INSNS) || negb (second_half insns (length insns))).

Lemma count_insns_complete insns :
  Z.of_nat (length insns) <= MAX_INSNS ->
  count_insns insns = Z.of_nat (length insns) <-> complete insns = true.
Proof.
  intros Hlen. unfold count_insns.
  destruct (count_from_spec (Z.to_nat MAX_INSNS) 0 insns) as (r & -> & Hle & Hno & Hst); [done|].
  assert (Hb : stops insns (length insns) = negb (second_half insns (length insns))).
  { unfold stops. by rewrite insn_at_beyond. }
  unfold complete. rewrite andb_true_iff, orb_true_iff, forallb_forall, Z.eqb_eq, <-Hb.
  unfold MAX_INSNS in *. split.
  - intros Hr. assert (r = length insns) as -> by lia. split.
    + intros i Hi%in_seq. rewrite Hno by lia. done.
    + destruct (decide (Z.of_nat (length insns) = 4096)); [by left|right; apply Hst; lia].
  - intros [Hall Hend]. f_equal.
    destruct (lt_eq_lt_dec r (length insns)) as [[Hr|Hr]|Hr]; [|done|].
    + assert (stops insns r = true) by (apply Hst; lia).
      assert (negb (stops insns r) = true) by (apply Hall, in_seq; lia).
      by destruct (stops insns r).
    + destruct Hend as [Hend|Hend]; [lia|]. rewrite Hno in Hend by lia. done.
Qed.

(** The instruction counter of a static test returns the length of the program
    exactly when every zero opcode of it is the second half of a two-slot load and
    the last instruction is not a cut two-slot load. *)
Theorem count_insns_exact insns :
  Z.of_nat (length insns) <= MAX_INSNS ->
  count_insns insns = Z.of_nat (length insns) <->
  (forall i, (i < length insns)%nat -> code (insn_at insns i) = 0 -> second_half insns i = true) /\
  (Z.of_nat (length insns) = MAX_INSNS \/ second_half insns (length insns) = false).
Proof.
  intros Hlen. rewrite count_insns_complete by done. unfold complete.
  rewrite andb_true_iff, orb_true_iff, forallb_forall, Z.eqb_eq, negb_true_iff. unfold stops.
  apply and_iff_compat_r. split.
  - intros Hall i Hi H0. specialize (Hall i). rewrite H0 in Hall. cbn in Hall.
    rewrite negb_involutive in Hall. apply Hall, in_seq. lia.
  - intros Hall i [_ Hi]%in_seq. destruct (Z.eqb_spec (code (insn_at insns i)) 0) as [H0|]; [|done].
    cbn. by rewrite Hall.
Qed.

Lemma count_insns_exact_witness : count_insns (insns sample) = 3.
Proof.
  apply (count_insns_exact (insns sample)); [done|]. split; [|right; by vm_compute].
  intros [|[|[|i]]] Hi; cbn in Hi; try lia; by vm_compute.
Defined.

Lemma read_insns_all insns : read_insns insns (Z.of_nat (length insns)) = insns.
Proof.
  unfold read_insns. rewrite Nat2Z.id. unfold insn_at.
  apply list_eq. intros i. rewrite list_lookup_fmap.
  destruct (decide (i < length insns)%nat) as [Hi|Hi].
  - rewrite lookup_seq_lt by done. cbn. destruct (lookup_lt_is_Some_2 insns i Hi) as [x Hx].
    rewrite Hx. f_equal. by apply nth_lookup_Some.
  - rewrite lookup_seq_ge by lia. cbn. symmetry. apply lookup_ge_None. lia.
Qed.

(** A test of the array [tests] that has static instructions. *)
Definition static (t : bpf_test) : bool :=
  match fill_helper t, fill_insns t with
  | None, None => (Z.of_nat (length (insns t)) <=? MAX_INSNS) && complete (insns t)
  | _, _ => false
  end.

Lemma printed_static calloc_ok i tests rand :
  forallb static tests = true -> printed calloc_ok i tests rand = map (fun t => (t, insns t)) tests.
Proof.
  revert i. induction tests as [|t tests IH]; intros i Ht; [done|].
  cbn [forallb] in Ht. apply andb_prop in Ht as [Ht Hts]. cbn [printed map]. unfold static in Ht.
  destruct (fill_helper t), (fill_insns t); try done.
  apply andb_prop in Ht as [Hl%Z.leb_le Hc]. rewrite (proj2 (count_insns_complete _ Hl) Hc), read_insns_all.
  by rewrite IH.
Qed.

Lemma convert_all_static calloc_ok i tests rand :
  forallb static tests = true -> is_Some (convert_all calloc_ok i tests rand).
Proof.
  revert i. induction tests as [|t tests IH]; intros i Ht; [by eexists|].
  cbn [forallb] in Ht. apply andb_prop in Ht as [Ht Hts]. cbn [convert_all]. unfold static in Ht.
  unfold convert_test. destruct (fill_helper t), (fill_insns t); try done.
  cbn. destruct (IH (S i) Hts) as [cs ->]. by eexists.
Qed.

Lemma static_json calloc_ok tests :
  forallb static tests = true -> forallb c_strings tests = true ->
  exists out, main calloc_ok tests = Some out /\
  parse out = Some (JArr (map (fun t => json_of_test t (insns t)) tests)).
Proof.
  intros Hs Hc. unfold main. destruct (convert_all_static calloc_ok 0 tests bpf_rand_state0 Hs) as [cs Hcs].
  rewrite Hcs. cbn. eexists. split; [done|].
  rewrite (main_json calloc_ok tests); [|done|by unfold main; rewrite Hcs].
  by rewrite printed_static, map_map.
Qed.

(** C36. On a test file with complete static tests the converter prints a JSON array
    that holds every test, in order, with all of its instructions. *)
Theorem static_tests_converted calloc_ok tests :
  forallb static tests = true -> forallb c_strings tests = true ->
  exists out, main calloc_ok tests = Some out /\
  parse out = Some (JArr (map (fun t => json_of_test t (insns t)) tests)).
Proof. apply static_json. Qed.

Lemma static_tests_converted_witness :
  exists out, main (fun _ => false) [sample; sample] = Some out /\
  parse out = Some (JArr [json_of_test sample (insns sample); json_of_test sample (insns sample)]).
Proof. apply (static_tests_converted _ [sample; sample]); by vm_compute. Defined.

(** * Fill helpers *)

Definition in_buffer (n : nat) (ss : list (Z * bpf_insn)) : Prop :=
  Forall (fun ix => 0 <= fst ix < Z.of_nat n) ss.

Lemma run_stores_some ss buf : is_Some (run_stores ss buf) <-> in_buffer (length buf) ss.
Proof.
  revert buf. induction ss as [|[i x] ss IH]; intros buf; cbn [run_stores].
  - split; [constructor|by eexists].
  - unfold in_buffer. rewrite Forall_cons. cbn [fst].
    destruct (Z.leb_spec 0 i), (Z.ltb_spec i (Z.of_nat (length buf))); cbn [andb];
      try (split; [intros [? [=]]|intros [? _]; lia]).
    rewrite IH, length_insert. unfold in_buffer. naive_solver lia.
Qed.

Lemma in_buffer_app n a b : in_buffer n (a ++ b) <-> in_buffer n a /\ in_buffer n b.
Proof. apply Forall_app. Qed.

Lemma seq_stores_cons i x xs : seq_stores i (x :: xs) = (i, x) :: seq_stores (i + 1) xs.
Proof.
  unfold seq_stores. cbn [imap]. rewrite Z.add_0_r. f_equal.
  apply imap_ext. intros k y _. cbn. f_equal. lia.
Qed.

Lemma in_buffer_seq n i xs :
  0 <= i -> in_buffer n (seq_stores i xs) <-> xs = [] \/ i + Z.of_nat (length xs) <= Z.of_nat n.
Proof.
  revert i. induction xs as [|x xs IH]; intros i Hi; [split; [by left|constructor]|].
  rewrite seq_stores_cons. unfold in_buffer in *. rewrite Forall_cons, IH by lia. cbn [fst length].
  split; [|intros [?|?]; [done|]; destruct xs; cbn in *; (split; [lia|]); [by left|right; lia]].
  intros [? [->|?]]; right; cbn; lia.
Qed.

Lemma run_stores_seq pre xs rest :
  (length xs <= length rest)%nat ->
  run_stores (seq_stores (Z.of_nat (length pre)) xs) (pre ++ rest) = Some (pre ++ xs ++ drop (length xs) rest).
Proof.
  revert pre rest. induction xs as [|x xs IH]; intros pre rest Hl; [done|].
  destruct rest as [|y rest]; cbn [length] in Hl; [lia|].
  rewrite seq_stores_cons. cbn [run_stores].
  rewrite (proj2 (Z.leb_le _ _)) by lia.
  rewrite (proj2 (Z.ltb_lt _ _)) by (rewrite length_app; cbn [length]; lia). cbn [andb].
  rewrite Nat2Z.id, insert_app_r_alt, Nat.sub_diag by lia. cbn [list_insert insert].
  specialize (IH (pre ++ [x]) rest ltac:(lia)).
  rewrite length_app, Nat2Z.inj_add, <-!app_assoc in IH. apply IH.
Qed.

(** What a helper with consecutive stores leaves for the printing loop. *)
Lemma fill_seq_read xs n rv r w buf :
  fill_buffer (MkFilled (seq_stores 0 xs) n rv r w) = Some buf ->
  read_insns buf (Z.of_nat (length xs)) = xs.
Proof.
  intros Hb. destruct (decide (xs = [])) as [->|Hne]; [done|].
  assert (Hl : (length xs <= length (replicate (Z.to_nat MAX_INSNS) zero_insn))%nat).
  { assert (Hs : is_Some (fill_buffer (MkFilled (seq_stores 0 xs) n rv r w))) by by eexists.
    unfold fill_buffer in Hs. cbn [stores] in Hs. apply run_stores_some, in_buffer_seq in Hs; [|lia].
    destruct Hs as [|Hs]; [done|lia]. }
  unfold fill_buffer in Hb. cbn [stores] in Hb.
  pose proof (run_stores_seq [] xs _ Hl) as Hr. cbn [length app] in Hr. change (Z.of_nat 0) with 0 in Hr.
  rewrite Hr in Hb. apply Some_inj in Hb as <-.
  etransitivity; [|apply read_insns_all]. unfold read_insns. apply map_ext_in.
  intros j Hj%in_seq. unfold insn_at. rewrite Nat2Z.id in Hj. by rewrite app_nth1 by lia.
Qed.

Lemma fill_buffer_some f : is_Some (fill_buffer f) <-> in_buffer 4096 (stores f).
Proof. unfold fill_buffer. rewrite run_stores_some, length_replicate. done. Qed.

Lemma repeat_at_length n w body i k :
  (forall j, length (body j) = k) -> length (repeat_at n w body i) = (n * k)%nat.
Proof.
  intros Hb. revert i. induction n as [|n IH]; intros i; [done|].
  cbn [repeat_at]. rewrite length_app, Hb, IH. lia.
Qed.

Lemma vlan_round_length i : length (vlan_round i) = 612%nat.
Proof.
  unfold vlan_round. by rewrite length_app, (repeat_at_length _ _ _ _ 7), (repeat_at_length _ _ _ _ 5).
Qed.

Lemma scale_loop_length n k m rand : length (fst (scale_loop n k m rand)) = (4 * n)%nat.
Proof.
  revert k rand. induction n as [|n IH]; intros k rand; [done|].
  cbn [scale_loop]. specialize (IH (k + 1) (bpf_semi_rand_get rand)).
  destruct (scale_loop n (k + 1) m (bpf_semi_rand_get rand)) as [p r]. cbn [fst length app] in *. lia.
Qed.

(** Rounds of the loop of [bpf_fill_rand_ld_dw] that starts at index [i]. *)
Definition rounds (i limit : Z) : Z := if i <? limit then (limit - i + 2) / 3 else 0.

Lemma rand_ld_dw_length fuel i limit rand res :
  limit - i <= Z.of_nat fuel ->
  Z.of_nat (length (fst (fst (rand_ld_dw_loop fuel i limit rand res)))) = 3 * rounds i limit.
Proof.
  revert i rand res. induction fuel as [|fuel IH]; intros i rand res Hf; cbn [rand_ld_dw_loop].
  - unfold rounds. destruct (Z.ltb_spec i limit); [lia|done].
  - unfold rounds at 1. destruct (Z.ltb_spec i limit) as [Hi|]; [|done].
    specialize (IH (i + 3) (bpf_semi_rand_get rand) (Z.lxor res (bpf_semi_rand_get rand)) ltac:(lia)).
    destruct (rand_ld_dw_loop fuel _ _ _ _) as [[p r] q]. cbn [fst] in *.
    rewrite !length_app. cbn [length BPF_LD_IMM64 BPF_LD_IMM64_RAW BPF_ALU64_REG app].
    rewrite !Nat2Z.inj_add, IH. unfold rounds.
    destruct (Z.ltb_spec (i + 3) limit); change (Z.of_nat 2) with 2; change (Z.of_nat 1) with 1.
    + replace (limit - i + 2) with (limit - (i + 3) + 2 + 1 * 3) by lia. rewrite Z.div_add; lia.
    + assert ((limit - i + 2) / 3 = 1); [|lia]. symmetry.
      apply (Z.div_unique _ _ _ (limit - i - 1)); lia.
Qed.

(** The requests the buffer of [MAX_INSNS] instructions is large enough for. *)
Definition fits (f : fill_helper_fn) (retval : Z) : bool :=
  match f with
  | bpf_fill_ld_abs_vlan_push_pop | bpf_fill_jump_around_ld_abs => false
  | bpf_fill_rand_ld_dw => s32 retval <=? 4090
  | bpf_fill_torturous_jumps => negb ((retval =? 2) || (retval =? 3))
  | bpf_fill_scale => negb ((retval =? 1) || (retval =? 2))
  | bpf_fill_ld_abs_get_processor_id | fill_stub _ => true
  end.

Lemma fill_seq xs n rv r w :
  xs <> [] ->
  is_Some (fill_buffer (MkFilled (seq_stores 0 xs) n rv r w)) <-> Z.of_nat (length xs) <= 4096.
Proof.
  intros Hne. rewrite fill_buffer_some. cbn [stores]. rewrite in_buffer_seq by lia. naive_solver lia.
Qed.

Lemma vlan_overflows retval rand : ~ is_Some (fill_buffer (fill_ld_abs_vlan_push_pop retval rand)).
Proof.
  rewrite fill_buffer_some. unfold fill_ld_abs_vlan_push_pop. cbn [stores].
  rewrite in_buffer_app. intros [_ H]. apply Forall_cons_1 in H as [H _]. vm_compute in H. by destruct H.
Qed.

Lemma jump_around_overflows retval rand : ~ is_Some (fill_buffer (fill_jump_around_ld_abs retval rand)).
Proof.
  unfold fill_jump_around_ld_abs. rewrite fill_seq by done. rewrite !length_app, length_replicate.
  vm_compute. intros H. by apply H.
Qed.

Lemma scale_overflows (start : list bpf_insn) n rv r w :
  ~ is_Some (fill_buffer (MkFilled (seq_stores 0 (start ++ scale_pad (Z.of_nat (length start)) ++
     BPF_EXIT_INSN)) n rv r w)).
Proof.
  rewrite fill_seq by by destruct start. rewrite !length_app. unfold scale_pad. rewrite length_replicate.
  unfold MAX_TEST_INSNS, MAX_JMP_SEQ. lia.
Qed.

Lemma scale1_overflows retval rand : ~ is_Some (fill_buffer (fill_scale1 retval rand)).
Proof.
  unfold fill_scale1. generalize (Z.to_nat MAX_JMP_SEQ). intros n.
  destruct (scale_loop n 1 64 rand) as [p r]. cbv zeta. apply scale_overflows.
Qed.

Lemma scale2_overflows retval rand : ~ is_Some (fill_buffer (fill_scale2 retval rand)).
Proof.
  unfold fill_scale2. generalize (Z.to_nat MAX_JMP_SEQ). intros n.
  destruct (scale_loop n 1 _ rand) as [p r]. cbv zeta. apply scale_overflows.
Qed.

Lemma scale_fits retval rand :
  is_Some (fill_buffer (fill_scale retval rand)) <-> negb ((retval =? 1) || (retval =? 2)) = true.
Proof.
  unfold fill_scale. destruct (Z.eqb_spec retval 1); [|destruct (Z.eqb_spec retval 2)].
  - split; [|discriminate]. intros H. by apply scale1_overflows in H.
  - split; [|discriminate]. intros H. by apply scale2_overflows in H.
  - split; [done|]. intros _. rewrite fill_buffer_some. constructor.
Qed.

Lemma rand_ld_dw_fits retval rand :
  is_Some (fill_buffer (fill_rand_ld_dw retval rand)) <-> s32 retval <= 4090.
Proof.
  unfold fill_rand_ld_dw. set (limit := s32 retval).
  pose proof (rand_ld_dw_length (Z.to_nat limit) 1 limit rand 0 ltac:(lia)) as Hl.
  destruct (rand_ld_dw_loop _ _ _ _ _) as [[body r] res]. cbn [fst] in Hl.
  rewrite fill_seq by done. rewrite !length_app, !Nat2Z.inj_add, Hl. unfold rounds.
  change (Z.of_nat (length _)) with 1.
  destruct (Z.ltb_spec 1 limit) as [H|H]; [|lia].
  pose proof (Z.div_mod (limit - 1 + 2) 3). pose proof (Z.mod_pos_bound (limit - 1 + 2) 3). lia.
Qed.

Lemma torturous_fits retval rand :
  is_Some (fill_buffer (fill_torturous_jumps retval rand)) <->
  negb ((retval =? 2) || (retval =? 3)) = true.
Proof.
  rewrite fill_buffer_some, <-(bool_decide_spec (in_buffer _ _)). unfold fill_torturous_jumps.
  destruct (Z.eqb_spec retval 1) as [->|]; [by vm_compute|].
  destruct (Z.eqb_spec retval 2) as [->|]; [by vm_compute|].
  destruct (Z.eqb_spec retval 3) as [->|]; by vm_compute.
Qed.

(** A fill helper stays inside the buffer of [MAX_INSNS] instructions the
    converter allocates exactly for the requests listed in [fits]; the others write
    beyond the allocation. *)
Theorem fill_helper_fits f retval rand :
  is_Some (fill_buffer (run_fill_helper f retval rand)) <-> fits f retval = true.
Proof.
  destruct f; cbn [run_fill_helper fits].
  - split; [|discriminate]. intros H. by apply vlan_overflows in H.
  - split; [|discriminate]. intros H. by apply jump_around_overflows in H.
  - by rewrite rand_ld_dw_fits, Z.leb_le.
  - unfold fill_ld_abs_get_processor_id. by rewrite fill_seq.
  - apply torturous_fits.
  - apply scale_fits.
  - unfold FILL_HELPER_IMPL_STUB. by rewrite fill_seq.
Qed.

(** * Helper identifiers *)

(** The helper numbers the converter defines are those of the kernel header the
    tests are shipped with, except for the four listed ones. *)
Theorem helper_ids_agree :
  List.filter (fun h => negb (bool_decide (lookup_helper uapi_helpers (fst h) = Some (snd h)))) convert_helpers =
  [("get_netns_cookie", 97); ("get_current_ancestor_cgroup_id", 98); ("check_mtu", 99);
   ("skc_to_tcp_sock", 140)] /\
  map (fun n => lookup_helper uapi_helpers n)
    ["get_netns_cookie"; "get_current_ancestor_cgroup_id"; "check_mtu"; "skc_to_tcp_sock"] =
  [Some 122; Some 123; Some 163; Some 137].
Proof. by vm_compute. Qed.

End ConvertProgs.
