(* ===== verification/BpfSem.v ===== *)
(** Reference semantics of BPF programs, against which the test data and the
    abstract domains are judged.

    A machine state has eleven registers (an uninitialised register is [None]),
    a byte memory (uninitialised bytes are absent), the frames of the callers,
    and the number of random words drawn so far.  [step] executes one
    instruction of the encoding of [BpfInsn]; anything the instruction set
    does not allow (an uninitialised register, an access outside the context,
    the packet or the stack, an unknown opcode or helper) is [Fault].
    [check_test] runs a test of [ConvertTests] the way the selftest runner
    does: packet from the test, result compared on 32 bits. *)

From S2P Require Import Prelude BpfInsn ConvertTests.
From Stdlib Require Import ZArith Lia String.
From stdpp Require Import base numbers strings gmap list.
Import BpfInsn ConvertTests.
Open Scope Z_scope.

Module BpfSem.

(** * Arithmetic *)

(** Operation [op] on values of width [w]; operands are in range.  Division by
    zero gives 0, remainder by zero the dividend, shifts are taken modulo the
    width. *)
Definition alu (w op x y : Z) : option Z :=
  if op =? BPF_ADD then Some (uwrap w (x + y))
  else if op =? BPF_SUB then Some (uwrap w (x - y))
  else if op =? BPF_MUL then Some (uwrap w (x * y))
  else if op =? BPF_DIV then Some (if y =? 0 then 0 else x / y)
  else if op =? BPF_OR then Some (Z.lor x y)
  else if op =? BPF_AND then Some (Z.land x y)
  else if op =? BPF_LSH then Some (uwrap w (Z.shiftl x (Z.land y (w - 1))))
  else if op =? BPF_RSH then Some (Z.shiftr x (Z.land y (w - 1)))
  else if op =? BPF_NEG then Some (uwrap w (- x))
  else if op =? BPF_MOD then Some (if y =? 0 then x else x mod y)
  else if op =? BPF_XOR then Some (Z.lxor x y)
  else if op =? BPF_MOV then Some y
  else if op =? BPF_ARSH then Some (uwrap w (Z.shiftr (swrap w x) (Z.land y (w - 1))))
  else None.

(** Condition of a jump on operands of width [w]. *)
Definition cond (w op x y : Z) : option bool :=
  if op =? BPF_JEQ then Some (x =? y)
  else if op =? BPF_JNE then Some (negb (x =? y))
  else if op =? BPF_JGT then Some (y <? x)
  else if op =? BPF_JGE then Some (y <=? x)
  else if op =? BPF_JLT then Some (x <? y)
  else if op =? BPF_JLE then Some (x <=? y)
  else if op =? BPF_JSET then Some (negb (Z.land x y =? 0))
  else if op =? BPF_JSGT then Some (swrap w y <? swrap w x)
  else if op =? BPF_JSGE then Some (swrap w y <=? swrap w x)
  else if op =? BPF_JSLT then Some (swrap w x <? swrap w y)
  else if op =? BPF_JSLE then Some (swrap w x <=? swrap w y)
  else None.

(** [BPF_END]: keep the low [n] bits, reversed bytewise for big endian. *)
Definition endian (to_be : bool) (n x : Z) : option Z :=
  if (n =? 16) || (n =? 32) || (n =? 64) then
    let bytes := le_bytes (Z.to_nat (n / 8)) x in
    Some (le_val (if to_be then reverse bytes else bytes))
  else None.

(** * Machine states *)

Record frame := MkFrame { fr_pc : Z; fr_regs : list (option Z); fr_fp : Z }.

Record state := MkState {
  pc : Z; regs : list (option Z); mem : gmap Z Z; frames : list frame; draws : nat }.

(** Where the environment places the context, the packet and the stack frames. *)
Definition CTX : Z := 0x100000.
Definition PACKET : Z := 0x200000.
Definition STACK_TOP : Z := 0x1000000.
Definition FRAME : Z := 512.

Definition get_reg (s : state) (r : Z) : option Z := mjoin (regs s !! Z.to_nat r).
Definition set_reg (s : state) (r : Z) (v : Z) : state :=
  MkState (pc s) (<[Z.to_nat r := Some v]> (regs s)) (mem s) (frames s) (draws s).
Definition set_pc (s : state) (p : Z) : state := MkState p (regs s) (mem s) (frames s) (draws s).
Definition set_mem (s : state) (m : gmap Z Z) : state := MkState (pc s) (regs s) m (frames s) (draws s).

Definition size_bytes (code : Z) : nat :=
  let sz := BPF_SIZE code in
  if sz =? BPF_DW then 8 else if sz =? BPF_W then 4 else if sz =? BPF_H then 2 else 1.

Fixpoint load (n : nat) (m : gmap Z Z) (a : Z) : option Z :=
  match n with
  | O => Some 0
  | S n => b ← m !! a; v ← load n m (a + 1); Some (b + 256 * v)
  end.

(** Bytes a store may write: any byte of the stack frames and of the packet. *)
Definition writable (a : Z) (m : gmap Z Z) : bool :=
  ((STACK_TOP - 8 * FRAME <=? a) && (a <? STACK_TOP)) ||
  ((PACKET <=? a) && (a <? PACKET + 0x10000) && bool_decide (is_Some (m !! a))).

Fixpoint store (n : nat) (m : gmap Z Z) (a v : Z) : option (gmap Z Z) :=
  match n with
  | O => Some m
  | S n => if writable a m then store n (<[a := v mod 256]> m) (a + 1) (v / 256) else None
  end.

Inductive event : Type :=
| Next (s : state)
| Exited (v : Z)
| Fault.

Definition of_option (o : option state) : event := match o with Some s => Next s | None => Fault end.

Section Step.
Context (prog : list bpf_insn).
(** The values [get_prandom_u32] returns. *)
Context (rand : nat -> Z).

Definition advance (s : state) : state := set_pc s (pc s + 1).

(** Second operand: a register or the sign-extended immediate. *)
Definition operand (s : state) (x : bpf_insn) : option Z :=
  if BPF_SRC (code x) =? BPF_X then get_reg s (src_reg x) else Some (u64 (imm x)).

Definition step_alu (w : Z) (s : state) (x : bpf_insn) : option state :=
  let op := BPF_OP (code x) in
  if (op =? BPF_END) && (w =? 32) then
    d ← get_reg s (dst_reg x);
    v ← endian (BPF_SRC (code x) =? BPF_TO_BE) (imm x) d;
    Some (advance (set_reg s (dst_reg x) v))
  else
    y ← (if op =? BPF_NEG then Some 0 else operand s x);
    d ← (if op =? BPF_MOV then Some 0 else get_reg s (dst_reg x));
    v ← alu w op (uwrap w d) (uwrap w y);
    if dst_reg x =? 10 then None else Some (advance (set_reg s (dst_reg x) v)).

(** Registers after a call: the arguments are gone. *)
Definition clobber (rs : list (option Z)) (r0 : option Z) : list (option Z) :=
  r0 :: replicate 5 None ++ drop 6 rs.

Definition step_call (s : state) (x : bpf_insn) : option state :=
  if src_reg x =? 1 then
    fp ← get_reg s 10;
    if (8 <=? Z.of_nat (length (frames s)) + 1) then None
    else Some (MkState (pc s + imm x + 1)
           (None :: take 5 (drop 1 (regs s)) ++ replicate 4 None ++ [Some (fp - FRAME)])
           (mem s) (MkFrame (pc s + 1) (regs s) fp :: frames s) (draws s))
  else if (src_reg x =? 0) && (imm x =? BPF_FUNC_get_prandom_u32) then
    Some (MkState (pc s + 1) (clobber (regs s) (Some (u32 (rand (draws s))))) (mem s) (frames s) (S (draws s)))
  else None.

Definition step_exit (s : state) : event :=
  match frames s with
  | [] => match get_reg s 0 with Some v => Exited v | None => Fault end
  | f :: fs => Next (MkState (fr_pc f) (clobber (fr_regs f) (get_reg s 0)) (mem s) fs (draws s))
  end.

Definition step_jmp (w : Z) (s : state) (x : bpf_insn) : event :=
  let op := BPF_OP (code x) in
  if (op =? BPF_JA) && (w =? 64) then Next (set_pc s (pc s + off x + 1))
  else if (op =? BPF_CALL) && (w =? 64) then of_option (step_call s x)
  else if (op =? BPF_EXIT) && (w =? 64) then step_exit s
  else of_option (
    d ← get_reg s (dst_reg x);
    y ← operand s x;
    b ← cond w op (uwrap w d) (uwrap w y);
    Some (set_pc s (if b : bool then pc s + off x + 1 else pc s + 1))).

Definition step_ldx (s : state) (x : bpf_insn) : option state :=
  a ← get_reg s (src_reg x);
  v ← load (size_bytes (code x)) (mem s) (u64 (a + off x));
  if (Z.land (code x) 0xe0 =? BPF_MEM) && negb (dst_reg x =? 10)
  then Some (advance (set_reg s (dst_reg x) v)) else None.

(** The atomic operations: the new value of the cell and what is fetched. *)
Definition atomic (w op old src r0 : Z) : option (Z * option (bool * Z)) :=
  if op =? BPF_XCHG then Some (src, Some (false, old))
  else if op =? BPF_CMPXCHG then Some ((if old =? r0 then src else old), Some (true, old))
  else
    let fetch := if Z.land op BPF_FETCH =? BPF_FETCH then Some (false, old) else None in
    let o := Z.land op (Z.lnot BPF_FETCH) in
    if (o =? BPF_ADD) || (o =? BPF_OR) || (o =? BPF_AND) || (o =? BPF_XOR)
    then v ← alu w o old src; Some (v, fetch) else None.

Definition step_atomic (s : state) (x : bpf_insn) : option state :=
  let n := size_bytes (code x) in
  let w := 8 * Z.of_nat n in
  if negb ((n =? 4)%nat || (n =? 8)%nat) then None
  else
    d ← get_reg s (dst_reg x);
    src ← get_reg s (src_reg x);
    let a := u64 (d + off x) in
    old ← load n (mem s) a;
    r0 ← (if imm x =? BPF_CMPXCHG then get_reg s 0 else Some 0);
    '(v, fetch) ← atomic w (imm x) old (uwrap w src) (uwrap w r0);
    m ← store n (mem s) a v;
    let s := advance (set_mem s m) in
    match fetch with
    | None => Some s
    | Some (to_r0, o) => Some (set_reg s (if to_r0 : bool then 0 else src_reg x) o)
    end.

Definition step_st (s : state) (x : bpf_insn) (v : option Z) : option state :=
  d ← get_reg s (dst_reg x);
  v ← v;
  m ← store (size_bytes (code x)) (mem s) (u64 (d + off x)) (u64 v);
  Some (advance (set_mem s m)).

(** [BPF_LD]: the two-slot immediate, and loads from the packet that end the
    program with 0 when they are out of range; negative offsets (ancillary data)
    are not given a meaning. *)
Definition step_ld (s : state) (x : bpf_insn) : event :=
  let mode := Z.land (code x) 0xe0 in
  if (BPF_SIZE (code x) =? BPF_DW) && (mode =? BPF_IMM) && (src_reg x =? 0) then
    match prog !! Z.to_nat (pc s + 1) with
    | Some y =>
        if code y =? 0
        then Next (set_pc (set_reg s (dst_reg x) (Z.lor (u32 (imm x)) (Z.shiftl (u32 (imm y)) 32))) (pc s + 2))
        else Fault
    | None => Fault
    end
  else if (mode =? BPF_ABS) || (mode =? BPF_IND) then
    match get_reg s 6, (if mode =? BPF_IND then get_reg s (src_reg x) else Some 0) with
    | Some c, Some i =>
        if (c =? CTX) && (0 <=? s32 (i + imm x)) then
          let n := size_bytes (code x) in
          match load n (mem s) (PACKET + s32 (i + imm x)) with
          | Some v =>
              if (n =? 8)%nat then Fault
              else Next (advance (MkState (pc s)
                     (clobber (regs s) (Some (le_val (reverse (le_bytes n v))))) (mem s) (frames s) (draws s)))
          | None => Exited 0
          end
        else Fault
    | _, _ => Fault
    end
  else Fault.

Definition step (s : state) : event :=
  if pc s <? 0 then Fault
  else
  match prog !! Z.to_nat (pc s) with
  | None => Fault
  | Some x =>
      let class := Z.land (code x) 0x07 in
      if class =? BPF_ALU64 then of_option (step_alu 64 s x)
      else if class =? BPF_ALU then of_option (step_alu 32 s x)
      else if class =? BPF_JMP then step_jmp 64 s x
      else if class =? BPF_JMP32 then step_jmp 32 s x
      else if class =? BPF_LDX then of_option (step_ldx s x)
      else if class =? BPF_STX then
        if Z.land (code x) 0xe0 =? BPF_ATOMIC then of_option (step_atomic s x)
        else of_option (step_st s x (get_reg s (src_reg x)))
      else if class =? BPF_ST then of_option (step_st s x (Some (imm x)))
      else step_ld s x
  end.

(** Run for at most [fuel] steps; [None] when the fuel is used up. *)
Fixpoint run (fuel : nat) (s : state) : option event :=
  match fuel with
  | O => None
  | S fuel =>
      match step s with
      | Next s => run fuel s
      | e => Some e
      end
  end.

End Step.

(** * Running a test *)

Fixpoint put_bytes (a : Z) (bs : list Z) (m : gmap Z Z) : gmap Z Z :=
  match bs with
  | [] => m
  | b :: bs => put_bytes (a + 1) bs (<[a := b]> m)
  end.

(** Programs that see the packet with its Ethernet header. *)
Definition is_l2 (ty : Z) : bool := (ty =? BPF_PROG_TYPE_SCHED_CLS) || (ty =? BPF_PROG_TYPE_SCHED_ACT).

(** The fields of the context of a packet program that are defined: [data],
    [data_end], [len] and [mark]. *)
Definition init_mem (ty : Z) (packet : list Z) : gmap Z Z :=
  let base := if is_l2 ty then PACKET else PACKET - ETH_HLEN in
  let m := put_bytes base packet ∅ in
  let m := put_bytes (CTX + offsetof __sk_buff "data") (le_bytes 4 PACKET) m in
  let m := put_bytes (CTX + offsetof __sk_buff "data_end") (le_bytes 4 (base + Z.of_nat (length packet))) m in
  let m := put_bytes (CTX + offsetof __sk_buff "len") (le_bytes 4 (base + Z.of_nat (length packet) - PACKET)) m in
  put_bytes (CTX + offsetof __sk_buff "mark") (le_bytes 4 0) m.

Definition init_state (ty : Z) (packet : list Z) : state :=
  MkState 0 (None :: Some CTX :: replicate 8 None ++ [Some STACK_TOP]) (init_mem ty packet) [] 0.

Definition run_program (rand : nat -> Z) (prog : list bpf_insn) (ty : Z) (packet : list Z) : option event :=
  run prog rand (Z.to_nat 20000) (init_state ty packet).

Definition returns (e : option event) (v : Z) : bool :=
  match e with Some (Exited r) => u32 r =? v | _ => false end.

(** The runs of a test: its list of inputs, or its only input. *)
Definition test_runs (t : bpf_test) : list test_result :=
  if runs t =? 0 then [MkResult (retval t) (take 64 (data t ++ replicate 64 0))]
  else take (Z.to_nat (runs t)) (retvals t).

Definition check_test (rand : nat -> Z) (t : bpf_test) : bool :=
  forallb (fun r => returns (run_program rand (insns t) (prog_type t) (res_data r)) (res_retval r))
    (test_runs t).

End BpfSem.
