(* ===== verification/FillRuns.v ===== *)
(** Generated programs do what their tests expect: the programs of two fill
    helpers of [convert_tests.c] executed by the reference semantics. *)

From S2P Require Import Prelude BpfInsn ConvertTests BpfSem ConvertJson ConvertProgs.
From Stdlib Require Import ZArith Lia String.
From stdpp Require Import base numbers strings gmap list.
Import BpfInsn ConvertTests BpfSem ConvertProgs.
Open Scope Z_scope.

Module FillRuns.

Section Runs.
Context (prog : list bpf_insn) (rnd : nat -> Z).

(** [s] reaches [s'] in [n] steps. *)
Definition reaches (n : nat) (s s' : state) : Prop :=
  forall fuel, run prog rnd (n + fuel) s = run prog rnd fuel s'.

Lemma reaches_refl s : reaches 0 s s.
Proof. by intros fuel. Qed.

Lemma reaches_step n s s' s'' : step prog rnd s = Next s' -> reaches n s' s'' -> reaches (S n) s s''.
Proof. intros Hs Hr fuel. cbn. by rewrite Hs, Hr. Qed.

Lemma reaches_trans n m s s' s'' : reaches n s s' -> reaches m s' s'' -> reaches (n + m) s s''.
Proof. intros H1 H2 fuel. by rewrite <-Nat.add_assoc, H1, H2. Qed.

Lemma reaches_exit n s s' v fuel :
  reaches n s s' -> step prog rnd s' = Exited v -> (n < fuel)%nat -> run prog rnd fuel s = Some (Exited v).
Proof.
  intros Hr He Hf. replace fuel with (n + S (fuel - S n))%nat by lia. rewrite Hr. cbn. by rewrite He.
Qed.

(** The state at index [i] with the values of the first two registers. *)
Definition at_pc (i : nat) (r0 r1 : option Z) (rs : list (option Z)) (m : gmap Z Z) (fs : list BpfSem.frame)
    (k : nat) : state :=
  MkState (Z.of_nat i) (r0 :: r1 :: rs) m fs k.

Lemma at_next i r0 r1 rs m fs k :
  MkState (Z.of_nat i + 1) (r0 :: r1 :: rs) m fs k = at_pc (S i) r0 r1 rs m fs k.
Proof. unfold at_pc. f_equal. lia. Qed.

(** Fetching instruction [i]. *)
Lemma fetch i : (Z.of_nat i <? 0) = false /\ prog !! Z.to_nat (Z.of_nat i) = prog !! i.
Proof. rewrite Nat2Z.id. split; [apply Z.ltb_ge; lia|done]. Qed.

Ltac compute_step :=
  lazy -[uwrap swrap Z.of_nat Z.add Z.lxor Z.shiftr Z.shiftl Z.lor in_u rnd].
Ltac exec Hx :=
  unfold step, at_pc; cbn [pc]; rewrite (proj1 (fetch _)), (proj2 (fetch _)), Hx; compute_step.

Section Alu.
Context (i : nat) (r0 r1 : Z) (rs : list (option Z)) (m : gmap Z Z) (fs : list BpfSem.frame) (k : nat).
Context (H0 : in_u 64 r0) (H1 : in_u 64 r1).

Lemma step_xor :
  prog !! i = Some (one (BPF_ALU64_REG BPF_XOR BPF_REG_0 BPF_REG_1)) ->
  step prog rnd (at_pc i (Some r0) (Some r1) rs m fs k) =
  Next (at_pc (S i) (Some (Z.lxor r0 r1)) (Some r1) rs m fs k).
Proof.
  intros Hx. change (one _) with (MkInsn 175 0 1 0 0) in Hx.
  rewrite <-at_next. exec Hx. by rewrite !uwrap_small.
Qed.

Lemma step_mov_reg r :
  prog !! i = Some (one (BPF_MOV64_REG BPF_REG_1 BPF_REG_0)) ->
  step prog rnd (at_pc i (Some r0) r rs m fs k) = Next (at_pc (S i) (Some r0) (Some r0) rs m fs k).
Proof.
  intros Hx. change (one _) with (MkInsn 191 1 0 0 0) in Hx.
  rewrite <-at_next. exec Hx. by rewrite !uwrap_small.
Qed.

Lemma step_rsh32 :
  prog !! i = Some (one (BPF_ALU64_IMM BPF_RSH BPF_REG_1 32)) ->
  step prog rnd (at_pc i (Some r0) (Some r1) rs m fs k) =
  Next (at_pc (S i) (Some r0) (Some (Z.shiftr r1 32)) rs m fs k).
Proof.
  intros Hx. change (one _) with (MkInsn 119 1 0 0 32) in Hx.
  rewrite <-at_next. exec Hx. by rewrite (uwrap_small _ r1).
Qed.

Lemma step_exit0 r :
  prog !! i = Some (one BPF_EXIT_INSN) ->
  step prog rnd (at_pc i (Some r0) r rs m [] k) = Exited r0.
Proof. intros Hx. change (one _) with (MkInsn 149 0 0 0 0) in Hx. by exec Hx. Qed.

Lemma step_mov32_0 a b :
  prog !! i = Some (one (BPF_MOV32_IMM BPF_REG_0 0)) ->
  step prog rnd (at_pc i a b rs m fs k) = Next (at_pc (S i) (Some 0) b rs m fs k).
Proof.
  intros Hx. change (one _) with (MkInsn 180 0 0 0 0) in Hx. rewrite <-at_next. by exec Hx.
Qed.

Lemma step_lddw val r :
  in_u 32 val ->
  prog !! i = Some (one (BPF_LD_IMM64 BPF_REG_1 val)) ->
  prog !! S i = Some (hd zero_insn (tl (BPF_LD_IMM64 BPF_REG_1 val))) ->
  step prog rnd (at_pc i (Some r0) r rs m fs k) = Next (at_pc (S (S i)) (Some r0) (Some val) rs m fs k).
Proof.
  intros Hval Hx Hy. cbn [BPF_LD_IMM64 BPF_LD_IMM64_RAW one hd tl] in Hx, Hy.
  assert (Z.shiftr (u64 val) 32 = 0) as Hhi.
  { rewrite (uwrap_small 64) by (eapply in_u_mono; [|done]; lia). rewrite Z.shiftr_div_pow2 by lia.
    apply Z.div_small. exact Hval. }
  rewrite Hhi in Hy. rewrite uwrap_small in Hx by done.
  unfold step, at_pc. cbn [pc]. rewrite (proj1 (fetch _)), (proj2 (fetch _)), Hx.
  unfold insn. cbn [code]. change (u8 (BPF_LD .| BPF_DW .| BPF_IMM)) with 24.
  change (Z.land 24 7) with 0. unfold step_ld. cbn [pc imm src_reg dst_reg].
  replace (Z.to_nat (Z.of_nat i + 1)) with (S i) by lia. rewrite Hy. unfold insn. cbn [imm code].
  change (uwrap 4 BPF_REG_1) with 1. change (uwrap 4 0) with 0. change (u8 0) with 0.
  change (s32 0) with 0. change (u32 0) with 0. rewrite uwrap_swrap, (uwrap_small 32) by done.
  change (Z.shiftl 0 32) with 0. rewrite Z.lor_0_r. compute_step. do 2 f_equal. lia.
Qed.
End Alu.

(** * The xor of random words *)

Lemma semi_rand_range s : in_u 32 s -> in_u 32 (bpf_semi_rand_get s).
Proof.
  intros Hs. unfold bpf_semi_rand_get.
  repeat first [apply in_u_lxor; [lia| |] | apply in_u_shiftr; [lia|lia|] | apply uwrap_range; lia | done].
Qed.

(** The loop body runs to its end and leaves the xor of the words in register 0. *)
Lemma rand_loop_runs n j limit rand res body rand' res' pre post r1 rs m fs k :
  rand_ld_dw_loop n j limit rand res = (body, rand', res') ->
  prog = pre ++ body ++ post -> in_u 32 rand -> in_u 32 res ->
  exists steps r1', (steps <= length body)%nat /\ in_u 32 res' /\
    reaches steps (at_pc (length pre) (Some res) r1 rs m fs k)
      (at_pc (length pre + length body) (Some res') r1' rs m fs k).
Proof.
  revert j rand res body pre r1. induction n as [|n IH]; intros j rand res body pre r1 Hl Hp Hrand Hres.
  - injection Hl as <- <- <-. exists 0%nat, r1. rewrite Nat.add_0_r.
    split; [done|]. split; [done|apply reaches_refl].
  - cbn [rand_ld_dw_loop] in Hl. destruct (j <? limit).
    2:{ injection Hl as <- <- <-. exists 0%nat, r1. rewrite Nat.add_0_r.
        split; [done|]. split; [done|apply reaches_refl]. }
    pose proof (semi_rand_range rand Hrand) as Hval. set (val := bpf_semi_rand_get rand) in *.
    destruct (rand_ld_dw_loop n (j + 3) limit val (Z.lxor res val)) as [[body1 rand1] res1] eqn:E.
    injection Hl as <- <- <-.
    set (head := BPF_LD_IMM64 BPF_REG_1 val ++ BPF_ALU64_REG BPF_XOR BPF_REG_0 BPF_REG_1).
    assert (Hp' : prog = (pre ++ head) ++ body1 ++ post).
    { rewrite Hp. subst head. by rewrite <-!app_assoc. }
    assert (Hres1 : in_u 32 (Z.lxor res val)) by (apply in_u_lxor; [lia|done..]).
    destruct (IH _ _ _ _ _ (Some val) E Hp' Hval Hres1) as (steps & r1' & Hs & Hr & Hreach).
    rewrite length_app in Hreach. change (length head) with 3%nat in Hreach.
    exists (2 + steps)%nat, r1'. split; [cbn [length]; lia|]. split; [done|].
    assert (Hlk : forall d, (d < 3)%nat -> prog !! (length pre + d)%nat = head !! d).
    { intros d Hd. rewrite Hp', <-app_assoc, lookup_app_r by lia.
      rewrite lookup_app_l by (change (length head) with 3%nat; lia). f_equal. lia. }
    assert (H64 : forall v, in_u 32 v -> in_u 64 v) by (intros v; apply in_u_mono; lia).
    eapply reaches_step.
    { apply (step_lddw _ _ _ _ _ _ val); [done| |].
      - rewrite <-(Nat.add_0_r (length pre)), Hlk by lia. done.
      - rewrite <-(Nat.add_1_r (length pre)), Hlk by lia. done. }
    eapply reaches_step.
    { apply step_xor; [by apply H64..|]. replace (S (S (length pre))) with (length pre + 2)%nat by lia.
      by rewrite Hlk by lia. }
    cbn [length]. replace (length pre + S (S (S (length body1))))%nat
      with (length pre + 3 + length body1)%nat by lia.
    by replace (S (S (S (length pre)))) with (length pre + 3)%nat by lia.
Qed.

End Runs.

Lemma init_at ty packet : exists rs m,
  init_state ty packet = at_pc 0 None (Some CTX) rs m [] 0 /\ length rs = 9%nat.
Proof. by eexists _, _. Qed.

(** The program [bpf_fill_rand_ld_dw] generates returns the value the helper
    stores in the test, for every state of the generator and every size that fits:
    it ends within as many steps as it has instructions. *)
Theorem rand_ld_dw_returns retval rand rnd ty packet buf :
  in_u 32 rand ->
  fill_buffer (fill_rand_ld_dw retval rand) = Some buf ->
  let r := fill_rand_ld_dw retval rand in
  returns (run (read_insns buf (f_prog_len r)) rnd (Z.to_nat (f_prog_len r)) (init_state ty packet))
    (f_retval r) = true.
Proof.
  intros Hrand Hbuf r. subst r. unfold fill_rand_ld_dw in *.
  destruct (rand_ld_dw_loop _ _ _ _ _) as [[body rand'] res] eqn:E.
  cbn [f_prog_len f_retval]. set (prog := BPF_MOV32_IMM _ _ ++ _) in *.
  rewrite (fill_seq_read _ _ _ _ _ _ Hbuf), Nat2Z.id.
  destruct (init_at ty packet) as (rs & m & -> & _).
  set (tail := BPF_MOV64_REG BPF_REG_1 BPF_REG_0 ++ BPF_ALU64_IMM BPF_RSH BPF_REG_1 32 ++
    BPF_ALU64_REG BPF_XOR BPF_REG_0 BPF_REG_1 ++ BPF_EXIT_INSN).
  assert (Hp : prog = BPF_MOV32_IMM BPF_REG_0 0 ++ body ++ tail) by done.
  destruct (rand_loop_runs prog rnd _ _ _ _ _ _ _ _ _ _ (Some CTX) rs m [] 0 E Hp Hrand ltac:(done))
    as (steps & r1 & Hs & Hres & Hreach).
  set (e := (1 + length body)%nat).
  assert (Hlk : forall d, prog !! (e + d)%nat = tail !! d).
  { intros d. rewrite Hp, app_assoc, lookup_app_r
      by (rewrite length_app; subst e; cbn [length BPF_MOV32_IMM]; lia).
    f_equal. rewrite length_app. subst e. cbn [length BPF_MOV32_IMM]. lia. }
  assert (Hlen : length prog = (e + 4)%nat).
  { rewrite Hp, !length_app. change (length tail) with 4%nat. subst e. cbn [length BPF_MOV32_IMM]. lia. }
  assert (H64 : in_u 64 res) by (eapply in_u_mono; [|done]; lia).
  erewrite (reaches_exit prog rnd (1 + (steps + 3)) _ _ (Z.lxor res (Z.shiftr res 32))).
  - cbn [returns]. apply Z.eqb_refl.
  - eapply reaches_step; [by apply step_mov32_0|]. eapply reaches_trans; [exact Hreach|].
    eapply reaches_step; [apply step_mov_reg; [done|]; by rewrite <-(Nat.add_0_r (_ + _)), Hlk|].
    eapply reaches_step; [apply step_rsh32; [done|]; by rewrite <-(Nat.add_1_r (_ + _)), Hlk|].
    eapply reaches_step; [apply step_xor; [done|apply in_u_shiftr; [lia|lia|done]|]|apply reaches_refl].
    etransitivity; [|exact (Hlk 2%nat)]. f_equal. subst e. cbn. lia.
  - apply step_exit0. etransitivity; [|exact (Hlk 3%nat)]. f_equal. subst e. cbn. lia.
  - rewrite Hlen. subst e. lia.
Qed.

Lemma rand_ld_dw_returns_witness :
  exists buf, fill_buffer (fill_rand_ld_dw 5 bpf_rand_state0) = Some buf /\
  returns (run (read_insns buf (f_prog_len (fill_rand_ld_dw 5 bpf_rand_state0))) (fun _ => 0)
    (Z.to_nat (f_prog_len (fill_rand_ld_dw 5 bpf_rand_state0))) (init_state 0 []))
    (f_retval (fill_rand_ld_dw 5 bpf_rand_state0)) = true.
Proof.
  destruct (fill_buffer (fill_rand_ld_dw 5 bpf_rand_state0)) as [buf|] eqn:E; [|by vm_compute in E].
  exists buf. split; [reflexivity|].
  refine (rand_ld_dw_returns 5 bpf_rand_state0 (fun _ => 0) 0 [] buf _ E). by split; vm_compute.
Defined.

(** * The torturous jumps *)

Section Jumps.
Context (prog : list bpf_insn) (rnd : nat -> Z).

(** Conditional and unconditional jumps, a move and the call that draws a word. *)
Lemma step_is_jmp i x r0 r1 rs m fs k :
  prog !! i = Some x -> Z.land (code x) 7 = BPF_JMP ->
  step prog rnd (at_pc i r0 r1 rs m fs k) = step_jmp rnd 64 (at_pc i r0 r1 rs m fs k) x.
Proof.
  intros Hx Hc. unfold step, at_pc at 1 2. cbn [pc].
  by rewrite (proj1 (fetch prog _)), (proj2 (fetch prog _)), Hx, Hc.
Qed.

Lemma step_jeq i v r1 rs m fs k (d : nat) (c : Z) :
  in_u 64 v -> in_u 31 c -> prog !! i = Some (MkInsn 21 0 0 (Z.of_nat d) c) ->
  step prog rnd (at_pc i (Some v) r1 rs m fs k) =
  Next (at_pc (if v =? c then i + d + 1 else S i) (Some v) r1 rs m fs k).
Proof.
  intros Hv Hc Hx. rewrite (step_is_jmp _ _ _ _ _ _ _ _ Hx) by done.
  assert (Hc' : in_u 64 c) by (eapply in_u_mono; [|exact Hc]; lia).
  transitivity (Next (MkState (if uwrap 64 v =? uwrap 64 (uwrap 64 c) then Z.of_nat i + Z.of_nat d + 1
    else Z.of_nat i + 1) (Some v :: r1 :: rs) m fs k)); [reflexivity|].
  rewrite !(uwrap_small 64 c Hc'), (uwrap_small 64 v Hv). unfold at_pc. do 2 f_equal. destruct (v =? c); lia.
Qed.

Lemma step_ja i r0 r1 rs m fs k (d : nat) :
  prog !! i = Some (MkInsn 5 0 0 (Z.of_nat d) 0) ->
  step prog rnd (at_pc i r0 r1 rs m fs k) = Next (at_pc (i + d + 1) r0 r1 rs m fs k).
Proof.
  intros Hx. rewrite (step_is_jmp _ _ _ _ _ _ _ _ Hx) by done.
  transitivity (Next (MkState (Z.of_nat i + Z.of_nat d + 1) (r0 :: r1 :: rs) m fs k)); [reflexivity|].
  unfold at_pc. do 2 f_equal. lia.
Qed.

(** The part of the program the argument needs. *)
Definition torturous_shape : Prop :=
  prog !! 0%nat = Some (CALL BPF_FUNC_get_prandom_u32) /\
  (forall i, (1 <= i <= 128)%nat ->
     prog !! i = Some (MkInsn 21 0 0 (Z.of_nat 128) (Z.of_nat i)) /\
     prog !! (128 + i)%nat = Some (MkInsn 5 0 0 (Z.of_nat (128 - i)) 0)) /\
  prog !! 257%nat = Some (one (BPF_MOV64_IMM BPF_REG_0 1)) /\
  prog !! 258%nat = Some (one BPF_EXIT_INSN).

Lemma torturous_lands v r1 rs m fs k n :
  torturous_shape -> in_u 64 v -> (n <= 128)%nat ->
  exists steps, (steps <= n + 2)%nat /\
    reaches prog rnd steps (at_pc (129 - n) (Some v) r1 rs m fs k) (at_pc 257 (Some v) r1 rs m fs k).
Proof.
  intros (_ & Hp & _) Hv. induction n as [|n IH]; intros Hn.
  - exists 1%nat. split; [lia|]. eapply reaches_step; [|apply reaches_refl].
    destruct (Hp 1%nat ltac:(lia)) as [_ H]. by rewrite (step_ja _ _ _ _ _ _ _ (128 - 1)).
  - destruct (Hp (128 - n)%nat ltac:(lia)) as [H _].
    replace (129 - S n)%nat with (128 - n)%nat by lia.
    pose proof (step_jeq (128 - n) v r1 rs m fs k 128 (Z.of_nat (128 - n)) Hv ltac:(split; lia) H) as Hs.
    destruct (v =? Z.of_nat (128 - n)).
    + destruct n as [|n].
      * exists 1%nat. split; [lia|]. eapply reaches_step; [exact Hs|]. apply reaches_refl.
      * exists 2%nat. split; [lia|]. eapply reaches_step; [exact Hs|].
        destruct (Hp (128 - n)%nat ltac:(lia)) as [_ H'].
        eapply reaches_step; [|apply reaches_refl].
        replace (128 - S n + 128 + 1)%nat with (128 + (128 - n))%nat by lia.
        rewrite (step_ja _ _ _ _ _ _ _ (128 - (128 - n))) by done. do 2 f_equal. lia.
    + destruct (IH ltac:(lia)) as (steps & Hle & Hr). exists (S steps). split; [lia|].
      eapply reaches_step; [exact Hs|]. by replace (S (128 - n)) with (129 - n)%nat by lia.
Qed.

Lemma torturous_returns ty packet fuel :
  torturous_shape -> (133 <= fuel)%nat -> run prog rnd fuel (init_state ty packet) = Some (Exited 1).
Proof.
  intros Hshape Hf. destruct (init_at ty packet) as (rs & m & -> & Hrs).
  set (v := u32 (rnd 0%nat)).
  assert (Hv : in_u 64 v) by (eapply in_u_mono; [|apply uwrap_range]; lia).
  assert (H0 : exists rs', step prog rnd (at_pc 0 None (Some CTX) rs m [] 0) =
    Next (at_pc 1 (Some v) None rs' m [] 1)).
  { destruct Hshape as (Hx & _). eexists. rewrite (step_is_jmp _ _ _ _ _ _ _ _ Hx) by done. reflexivity. }
  destruct H0 as [rs' H0].
  destruct (torturous_lands v None rs' m [] 1 128 Hshape Hv ltac:(lia)) as (steps & Hle & Hr).
  destruct Hshape as (_ & _ & H257 & H258).
  apply (reaches_exit prog rnd (1 + (steps + 1)) _ (at_pc 258 (Some 1) None rs' m [] 1)); [| |lia].
  - eapply reaches_step; [exact H0|]. eapply reaches_trans; [exact Hr|].
    eapply reaches_step; [|apply reaches_refl]. unfold step, at_pc. cbn [pc].
    rewrite (proj1 (fetch prog 257)), (proj2 (fetch prog 257)), H257. reflexivity.
  - by apply step_exit0.
Qed.

End Jumps.

Definition torturous_shape_ok (prog : list bpf_insn) : bool :=
  bool_decide (prog !! 0%nat = Some (CALL BPF_FUNC_get_prandom_u32)) &&
  forallb (fun i =>
    bool_decide (prog !! i = Some (MkInsn 21 0 0 (Z.of_nat 128) (Z.of_nat i))) &&
    bool_decide (prog !! (128 + i)%nat = Some (MkInsn 5 0 0 (Z.of_nat (128 - i)) 0))) (seq 1 128) &&
  bool_decide (prog !! 257%nat = Some (one (BPF_MOV64_IMM BPF_REG_0 1))) &&
  bool_decide (prog !! 258%nat = Some (one BPF_EXIT_INSN)).

Lemma torturous_shape_of prog : torturous_shape_ok prog = true -> torturous_shape prog.
Proof.
  unfold torturous_shape_ok. rewrite !andb_true_iff, forallb_forall, !bool_decide_eq_true.
  intros [[[H0 Hi] H1] H2]. split; [done|]. split; [|done].
  intros i Hb. specialize (Hi i ltac:(apply in_seq; lia)).
  by rewrite andb_true_iff, !bool_decide_eq_true in Hi.
Qed.

(** The program of [bpf_fill_torturous_jumps] with request 1 (128 conditional
    jumps into a ladder of jumps) fits the buffer and returns 1, the value its test
    expects, whatever random word the helper draws. *)
Theorem torturous_jumps_return rand rnd ty packet :
  exists buf, fill_buffer (fill_torturous_jumps 1 rand) = Some buf /\
  run (read_insns buf (f_prog_len (fill_torturous_jumps 1 rand))) rnd 133 (init_state ty packet) = Some (Exited 1).
Proof.
  assert (fill_torturous_jumps 1 rand = MkFilled torturous_1 259 1 rand None) as -> by reflexivity.
  unfold fill_buffer. cbn [stores f_prog_len].
  destruct (run_stores torturous_1 (replicate (Z.to_nat MAX_INSNS) zero_insn)) as [buf|] eqn:E;
    [|by vm_compute in E].
  exists buf. split; [done|]. apply torturous_returns; [|lia]. apply torturous_shape_of.
  change (torturous_shape_ok (read_insns (default [] (Some buf)) 259) = true). rewrite <-E.
  vm_compute. reflexivity.
Qed.

End FillRuns.
