(* ===== verification/Tnum.v ===== *)
(** Tristate numbers, [src/domains/tnum.rs]: bit-level knowledge about a 64-bit
    value.

    [contains t x] is the meaning of a tristate number; an operation is sound when
    it maps members to members.  [sub] is transcribed as written, and it is not
    sound. *)

From S2P Require Import Prelude.
From Stdlib Require Import ZArith Lia.
From stdpp Require Import base numbers list.
Open Scope Z_scope.

Module Tnum.

Record Tnum := MkTnum { value : Z; mask : Z }.

Definition U64_MAX : Z := 2 ^ 64 - 1.
Definition not64 (x : Z) : Z := unot 64 x.

Definition UNKNOWN : Tnum := MkTnum 0 U64_MAX.
Definition is_unknown (t : Tnum) : bool := mask t =? U64_MAX.
Definition constant (c : Z) : Tnum := MkTnum c 0.
Definition unknown_bits (bits : Z) : Tnum :=
  if 64 <=? bits then UNKNOWN else MkTnum 0 (Z.shiftl 1 bits - 1).
Definition is_const (t : Tnum) : bool := mask t =? 0.
Definition const_value (t : Tnum) : option Z := if is_const t then Some (value t) else None.
Definition min_value (t : Tnum) : Z := value t.
Definition max_value (t : Tnum) : Z := Z.lor (value t) (mask t).
Definition could_be_zero (t : Tnum) : bool := value t =? 0.
Definition is_definitely_nonzero (t : Tnum) : bool := negb (value t =? 0).

Definition and (a b : Tnum) : Tnum :=
  let v := Z.land (value a) (value b) in
  let alpha := Z.lor (value a) (mask a) in
  let beta := Z.lor (value b) (mask b) in
  MkTnum v (Z.land (Z.land alpha beta) (not64 v)).
Definition and_imm (a : Tnum) (imm : Z) : Tnum := and a (constant imm).

Definition or (a b : Tnum) : Tnum :=
  let v := Z.lor (value a) (value b) in
  let self_known_0 := not64 (Z.lor (value a) (mask a)) in
  let other_known_0 := not64 (Z.lor (value b) (mask b)) in
  let result_known_0 := Z.land self_known_0 other_known_0 in
  MkTnum v (Z.land (not64 v) (not64 result_known_0)).
Definition or_imm (a : Tnum) (imm : Z) : Tnum := or a (constant imm).

Definition xor (a b : Tnum) : Tnum :=
  let v := Z.lxor (value a) (value b) in
  let m := Z.lor (mask a) (mask b) in
  MkTnum (Z.land v (not64 m)) m.
Definition xor_imm (a : Tnum) (imm : Z) : Tnum := xor a (constant imm).

Definition add (a b : Tnum) : Tnum :=
  let sm := u64 (mask a + mask b) in
  let sv := u64 (value a + value b) in
  let sigma := u64 (sm + sv) in
  let chi := Z.lxor sigma sv in
  let mu := Z.lor (Z.lor chi (mask a)) (mask b) in
  MkTnum (Z.land sv (not64 mu)) mu.
Definition add_imm (a : Tnum) (imm : Z) : Tnum := add a (constant (u64 imm)).

Definition sub (a b : Tnum) : Tnum :=
  let sm := u64 (mask a - mask b) in
  let sv := u64 (value a - value b) in
  let sigma := u64 (sm - sv) in
  let chi := Z.lxor sigma sv in
  let mu := Z.lor (Z.lor chi (mask a)) (mask b) in
  MkTnum (Z.land sv (not64 mu)) mu.
Definition sub_imm (a : Tnum) (imm : Z) : Tnum := sub a (constant (u64 imm)).

Definition shl (a : Tnum) (shift : Z) : Tnum :=
  if 64 <=? shift then constant 0
  else MkTnum (u64 (Z.shiftl (value a) shift)) (u64 (Z.shiftl (mask a) shift)).
Definition shr (a : Tnum) (shift : Z) : Tnum :=
  if 64 <=? shift then constant 0 else MkTnum (Z.shiftr (value a) shift) (Z.shiftr (mask a) shift).

(** [<<] and [>>] of a [u64] by 64 or more overflow: [None]. *)
Definition shl_imm (a : Tnum) (shift : Z) : option Tnum :=
  if 64 <=? shift then None
  else Some (MkTnum (u64 (Z.shiftl (value a) shift)) (u64 (Z.shiftl (mask a) shift))).
Definition shr_imm (a : Tnum) (shift : Z) : option Tnum :=
  if 64 <=? shift then None else Some (MkTnum (Z.shiftr (value a) shift) (Z.shiftr (mask a) shift)).
Definition rsh_imm (a : Tnum) (shift : Z) : option Tnum := shr_imm a shift.

Definition SIGN : Z := 0x8000000000000000.

Definition arsh_imm (a : Tnum) (shift : Z) : Tnum :=
  if shift =? 0 then a
  else if 64 <=? shift then
    if negb (Z.land (mask a) SIGN =? 0) then UNKNOWN
    else if negb (Z.land (value a) SIGN =? 0) then constant U64_MAX
    else constant 0
  else
    let sign_bit := Z.land (Z.shiftr (value a) 63) 1 in
    let sign_unknown := Z.land (Z.shiftr (mask a) 63) 1 in
    let shifted_value := Z.lor (Z.shiftr (value a) shift)
      (if negb (sign_bit =? 0) then u64 (Z.shiftl U64_MAX (64 - shift)) else 0) in
    let shifted_mask := Z.shiftr (mask a) shift in
    let shifted_mask :=
      if negb (sign_unknown =? 0) then Z.lor shifted_mask (not64 (Z.shiftr U64_MAX shift)) else shifted_mask in
    MkTnum (Z.land shifted_value (not64 shifted_mask)) shifted_mask.

Definition u32_unknown : Tnum := MkTnum 0 0xFFFFFFFF.
Definition trunc32 (a : Tnum) : Tnum := MkTnum (Z.land (value a) 0xFFFFFFFF) (Z.land (mask a) 0xFFFFFFFF).

Definition widen (a b : Tnum) : Tnum :=
  let m := Z.lor (Z.lor (mask a) (mask b)) (Z.lxor (value a) (value b)) in
  MkTnum (Z.land (Z.land (value a) (value b)) (not64 m)) m.

(** [64 - chi.leading_zeros()] *)
Definition bit_length (chi : Z) : Z := if chi =? 0 then 0 else Z.log2 chi + 1.

Definition from_range (min max : Z) : Tnum :=
  if max <? min then UNKNOWN
  else
    let chi := Z.lxor min max in
    if chi =? 0 then constant min
    else
      let bits := bit_length chi in
      let delta := if 64 <=? bits then U64_MAX else Z.shiftl 1 bits - 1 in
      MkTnum (Z.land min (not64 delta)) delta.

Definition intersect (a b : Tnum) : option Tnum :=
  let self_known := not64 (mask a) in
  let other_known := not64 (mask b) in
  let both_known := Z.land self_known other_known in
  if negb (Z.land (Z.lxor (value a) (value b)) both_known =? 0) then None
  else Some (MkTnum (Z.lor (Z.land (value a) self_known) (Z.land (value b) other_known))
                    (Z.land (mask a) (mask b))).

Definition could_equal (t : Tnum) (val : Z) : bool := Z.land val (not64 (mask t)) =? value t.

Definition mask_lower (t : Tnum) (bits : Z) : Tnum :=
  if 64 <=? bits then t
  else let m := Z.shiftl 1 bits - 1 in MkTnum (Z.land (value t) m) (Z.land (mask t) m).

(** * Meaning *)

(** The invariant of the header comment, on 64-bit fields. *)
Definition wf (t : Tnum) : Prop := in_u 64 (value t) /\ in_u 64 (mask t) /\ Z.land (value t) (mask t) = 0.

(** The values a tristate number stands for. *)
Definition contains (t : Tnum) (x : Z) : Prop := in_u 64 x /\ could_equal t x = true.

Lemma wf_bits t i : wf t -> Z.testbit (value t) i = true -> Z.testbit (mask t) i = false.
Proof.
  intros (_ & _ & H) Hv. apply (f_equal (fun z => Z.testbit z i)) in H.
  rewrite Z.land_spec, Hv, Z.bits_0 in H. done.
Qed.

(** Membership, bit by bit: known bits agree. *)
Lemma contains_bits t x :
  wf t -> contains t x <->
  in_u 64 x /\ (forall i, 0 <= i < 64 -> Z.testbit (mask t) i = false -> Z.testbit x i = Z.testbit (value t) i).
Proof.
  intros Hwf. unfold contains, could_equal, not64. split; intros [Hx H]; split; try done.
  - intros i Hi Hm. apply Z.eqb_eq in H. rewrite <-H. destruct Hwf as (_ & Hmr & _).
    rewrite Z.land_spec, testbit_unot, Hm by (done || lia).
    destruct (Z.ltb_spec i 64); [|lia]. by rewrite andb_true_r.
  - apply Z.eqb_eq, Z.bits_inj'. intros i Hi. pose proof (wf_bits t i Hwf) as Hd.
    destruct Hwf as (Hvr & Hmr & _). rewrite Z.land_spec, testbit_unot by (done || lia).
    destruct (Z.ltb_spec i 64) as [Hl|Hl].
    + destruct (Z.testbit (mask t) i) eqn:E; cbn [negb andb].
      * rewrite andb_false_r. destruct (Z.testbit (value t) i); [|done]. by discriminate Hd.
      * rewrite andb_true_r. by apply H.
    + rewrite andb_false_r. by rewrite (in_u_testbit_high 64 (value t) i) by (done || lia).
Qed.

Lemma in_u_nonneg w x : in_u w x -> 0 <= x.
Proof. by intros [? _]. Qed.

#[local] Hint Extern 0 (0 <= 64) => lia : zint.
#[local] Hint Extern 1 (0 <= _) => apply (in_u_nonneg 64) : zint.

(** Split well-formedness into the ranges of the fields and the disjointness of
    their bits. *)
Ltac split_wf :=
  repeat match goal with
  | H : wf ?t |- _ =>
      lazymatch goal with
      | _ : in_u 64 (value t) |- _ => fail
      | _ => destruct (H) as (? & ? & _); pose proof (fun i => wf_bits t i H)
      end
  end.

Ltac at_bit i :=
  repeat match goal with
  | H : forall j, Z.testbit (value _) j = true -> _ |- _ => specialize (H i)
  | H : forall j, 0 <= j < 64 -> _ |- _ => specialize (H i ltac:(lia))
  end.

Ltac all_bits :=
  repeat match goal with
  | |- context [Z.testbit ?x ?j] => let b := fresh "b" in set (b := Z.testbit x j) in *; clearbody b
  | H : context [Z.testbit ?x ?j] |- _ => let b := fresh "b" in set (b := Z.testbit x j) in *; clearbody b
  end;
  repeat match goal with b : bool |- _ => destruct b end; cbn in *; try done; naive_solver.

Ltac open_ops := unfold and, or, xor, widen, not64; cbn [value mask].

Ltac in_range :=
  repeat first
    [ assumption | apply uwrap_range; lia | done
    | apply in_u_land; [lia| |apply (in_u_nonneg 64)] | apply in_u_lor; [lia| |]
    | apply in_u_lxor; [lia| |] | apply in_u_unot; [lia|] | apply in_u_shiftr; [lia|lia|] ].

Ltac range := open_ops; solve [in_range].

(** Disjointness of value and mask of a result. *)
Ltac disjoint :=
  apply Z.bits_inj'; let i := fresh "i" in intros i ?; open_ops; autorewrite with zbits;
  zbits_cases; try lia; at_bit i; all_bits.

Lemma wf_constant c : in_u 64 c -> wf (constant c).
Proof. intros H. split; [done|]. split; [done|]. apply Z.land_0_r. Qed.

Lemma wf_unknown : wf UNKNOWN.
Proof. by split; [|split]. Qed.

Lemma wf_and a b : wf a -> wf b -> wf (and a b).
Proof. intros Ha Hb. split_wf. split; [range|]. split; [range|]. disjoint. Qed.

Lemma wf_or a b : wf a -> wf b -> wf (or a b).
Proof. intros Ha Hb. split_wf. split; [range|]. split; [range|]. disjoint. Qed.

Lemma wf_xor a b : wf a -> wf b -> wf (xor a b).
Proof. intros Ha Hb. split_wf. split; [range|]. split; [range|]. disjoint. Qed.

Lemma wf_widen a b : wf a -> wf b -> wf (widen a b).
Proof. intros Ha Hb. split_wf. split; [range|]. split; [range|]. disjoint. Qed.

Lemma wf_add a b : wf a -> wf b -> wf (add a b).
Proof.
  intros Ha Hb. split_wf. unfold add.
  set (sv := u64 (value a + value b)). set (sg := u64 _).
  assert (in_u 64 sv) by (apply uwrap_range; lia). assert (in_u 64 sg) by (apply uwrap_range; lia).
  split; [range|]. split; [range|]. disjoint.
Qed.

(** * Soundness of the bitwise operations *)

Ltac sound :=
  repeat match goal with
  | H : contains ?t ?x |- _ => rewrite contains_bits in H by assumption; destruct H
  end;
  split_wf; split; [range|];
  let i := fresh "i" in intros i ?; open_ops; autorewrite with zbits;
  zbits_cases; try lia; at_bit i; all_bits.

Lemma and_sound a b x y : wf a -> wf b -> contains a x -> contains b y -> contains (and a b) (Z.land x y).
Proof. intros Ha Hb Hx Hy. apply contains_bits; [by apply wf_and|]. sound. Qed.

Lemma or_sound a b x y : wf a -> wf b -> contains a x -> contains b y -> contains (or a b) (Z.lor x y).
Proof. intros Ha Hb Hx Hy. apply contains_bits; [by apply wf_or|]. sound. Qed.

Lemma xor_sound a b x y : wf a -> wf b -> contains a x -> contains b y -> contains (xor a b) (Z.lxor x y).
Proof. intros Ha Hb Hx Hy. apply contains_bits; [by apply wf_xor|]. sound. Qed.

Lemma widen_sound_l a b x : wf a -> wf b -> contains a x -> contains (widen a b) x.
Proof. intros Ha Hb Hx. apply contains_bits; [by apply wf_widen|]. sound. Qed.

Lemma widen_sound_r a b x : wf a -> wf b -> contains b x -> contains (widen a b) x.
Proof. intros Ha Hb Hx. apply contains_bits; [by apply wf_widen|]. sound. Qed.

(** * Addition *)

(** Whether adding the low [k] bits of [a] and [b] carries. *)
Definition carry (a b k : Z) : bool := 2 ^ k <=? a mod 2 ^ k + b mod 2 ^ k.

Lemma testbit_add a b k :
  0 <= k -> Z.testbit (a + b) k = xorb (xorb (Z.testbit a k) (Z.testbit b k)) (carry a b k).
Proof.
  intros Hk. pose proof (pow2_pos k Hk) as Hp. rewrite !Z.testbit_odd, !Z.shiftr_div_pow2 by lia.
  assert (Hs : (a + b) / 2 ^ k = a / 2 ^ k + b / 2 ^ k + Z.b2z (carry a b k)).
  { pose proof (Z.div_mod a (2 ^ k)). pose proof (Z.div_mod b (2 ^ k)).
    pose proof (Z.mod_pos_bound a (2 ^ k) Hp). pose proof (Z.mod_pos_bound b (2 ^ k) Hp).
    symmetry. apply (Z.div_unique _ _ _ (a mod 2 ^ k + b mod 2 ^ k - Z.b2z (carry a b k) * 2 ^ k)).
    - left. unfold carry. destruct (Z.leb_spec (2 ^ k) (a mod 2 ^ k + b mod 2 ^ k)); cbn [Z.b2z]; lia.
    - lia. }
  rewrite Hs, !Z.odd_add. f_equal. by destruct (carry a b k).
Qed.

(** Every bit of [a] is a bit of [b], below [k]. *)
Definition subbits (a b : Z) : Prop := forall i, 0 <= i -> Z.testbit a i = true -> Z.testbit b i = true.

Lemma subbits_mod a b k : 0 <= k -> subbits a b -> a mod 2 ^ k <= b mod 2 ^ k.
Proof.
  intros Hk Hab. pose proof (Z.mod_pos_bound b (2 ^ k) (pow2_pos k Hk)).
  apply Z.ldiff_le; [lia|]. apply Z.bits_inj'. intros i Hi. rewrite Z.ldiff_spec, Z.bits_0.
  destruct (Z.ltb_spec i k).
  - rewrite !Z.mod_pow2_bits_low by lia. specialize (Hab i Hi).
    destruct (Z.testbit a i); [by rewrite Hab|done].
  - by rewrite !Z.mod_pow2_bits_high by lia.
Qed.

Lemma carry_mono a b a' b' k :
  0 <= k -> subbits a a' -> subbits b b' -> carry a b k = true -> carry a' b' k = true.
Proof.
  intros Hk Ha Hb. unfold carry. rewrite !Z.leb_le.
  pose proof (subbits_mod a a' k Hk Ha). pose proof (subbits_mod b b' k Hk Hb). lia.
Qed.

(** A member lies between the value and the value with every unknown bit set. *)
Lemma contains_subbits t x :
  wf t -> contains t x -> subbits (value t) x /\ subbits x (max_value t).
Proof.
  intros Hwf Hx. apply contains_bits in Hx as [Hr Hb]; [|done]. unfold max_value.
  pose proof (fun i => wf_bits t i Hwf) as Hd. destruct Hwf as (Hv & Hm & _).
  assert (Hlow : forall z i, in_u 64 z -> Z.testbit z i = true -> 0 <= i -> i < 64).
  { intros z i Hz Hi ?. destruct (Z.ltb_spec i 64); [done|].
    by rewrite (in_u_testbit_high 64) in Hi by (done || lia). }
  split; intros i Hi Hbit.
  - by rewrite Hb; [|eauto|apply Hd].
  - rewrite Z.lor_spec. destruct (Z.testbit (mask t) i) eqn:E; [by rewrite orb_true_r|].
    by rewrite <-Hb, Hbit by eauto.
Qed.

Lemma max_value_add t : wf t -> max_value t = value t + mask t.
Proof. intros (_ & _ & H). unfold max_value. symmetry. by apply Z.add_nocarry_lor. Qed.

Lemma testbit_u64 z i : 0 <= i < 64 -> Z.testbit (u64 z) i = Z.testbit z i.
Proof. intros Hi. rewrite testbit_uwrap by lia. by destruct (Z.ltb_spec i 64); [|lia]. Qed.

Lemma add_sound a b x y :
  wf a -> wf b -> contains a x -> contains b y -> contains (add a b) (u64 (x + y)).
Proof.
  intros Ha Hb Hx Hy. apply contains_bits; [by apply wf_add|]. split; [apply uwrap_range; lia|].
  destruct (contains_subbits a x Ha Hx) as [Hax1 Hax2].
  destruct (contains_subbits b y Hb Hy) as [Hby1 Hby2].
  apply contains_bits in Hx as [_ Hx]; [|done]. apply contains_bits in Hy as [_ Hy]; [|done].
  intros i Hi Hm.
  assert (Hv : Z.testbit (value (add a b)) i = Z.testbit (value a + value b) i).
  { change (value (add a b)) with (Z.land (u64 (value a + value b)) (not64 (mask (add a b)))).
    unfold not64. rewrite Z.land_spec, testbit_unot, Hm, testbit_u64 by (try apply (wf_add a b Ha Hb); lia).
    destruct (Z.ltb_spec i 64); [|lia]. by rewrite andb_true_r. }
  rewrite Hv, testbit_u64, !testbit_add by lia. clear Hv. cbn [add mask] in Hm.
  rewrite uwrap_add_l, uwrap_add_r in Hm by lia.
  replace (mask a + mask b + (value a + value b)) with (max_value a + max_value b) in Hm
    by (rewrite !max_value_add by done; lia).
  rewrite !Z.lor_spec in Hm. apply orb_false_iff in Hm as [[Hchi Hma]%orb_false_iff Hmb].
  rewrite Z.lxor_spec, !testbit_u64, !testbit_add in Hchi by lia.
  unfold max_value in Hchi at 1 2. rewrite !Z.lor_spec, Hma, Hmb, !orb_false_r in Hchi.
  rewrite Hx, Hy by (done || lia). f_equal.
  pose proof (carry_mono _ _ _ _ i ltac:(lia) Hax1 Hby1) as Hlo.
  pose proof (carry_mono _ _ _ _ i ltac:(lia) Hax2 Hby2) as Hhi.
  destruct (carry (value a) (value b) i), (carry x y i), (carry (max_value a) (max_value b) i);
    try done; try (by specialize (Hlo eq_refl)); try (by specialize (Hhi eq_refl));
    by destruct (Z.testbit (value a) i), (Z.testbit (value b) i).
Qed.


(** * Shifts and truncations *)

Lemma wf_shl a n : wf a -> 0 <= n -> wf (shl a n).
Proof.
  intros Ha Hn. unfold shl. destruct (Z.leb_spec 64 n); [by apply wf_constant|].
  split_wf. split; [apply uwrap_range; lia|]. split; [apply uwrap_range; lia|]. cbn [value mask].
  apply Z.bits_inj'. intros i Hi. autorewrite with zbits. zbits_cases; try done; try lia.
  at_bit (i - n). all_bits.
Qed.

Lemma shl_sound a x n : wf a -> 0 <= n < 64 -> contains a x -> contains (shl a n) (u64 (Z.shiftl x n)).
Proof.
  intros Ha Hn Hx. apply contains_bits; [apply wf_shl; [done|lia]|]. split; [apply uwrap_range; lia|].
  apply contains_bits in Hx as [_ Hx]; [|done]. unfold shl. destruct (Z.leb_spec 64 n); [lia|].
  cbn [value mask]. intros i Hi. rewrite !testbit_u64, !testbit_shiftl by lia.
  destruct (Z.leb_spec n i); [|done]. cbn [andb]. apply Hx. lia.
Qed.

Lemma wf_shr a n : wf a -> 0 <= n -> wf (shr a n).
Proof.
  intros Ha Hn. unfold shr. destruct (Z.leb_spec 64 n); [by apply wf_constant|].
  split_wf. split; [range|]. split; [range|]. cbn [value mask].
  apply Z.bits_inj'. intros i Hi. autorewrite with zbits. at_bit (i + n). all_bits.
Qed.

Lemma shr_sound a x n : wf a -> 0 <= n < 64 -> contains a x -> contains (shr a n) (Z.shiftr x n).
Proof.
  intros Ha Hn Hx. apply contains_bits; [apply wf_shr; [done|lia]|].
  apply contains_bits in Hx as [Hr Hx]; [|done]. split; [apply in_u_shiftr; [lia|lia|done]|].
  unfold shr. destruct (Z.leb_spec 64 n); [lia|]. cbn [value mask]. split_wf.
  intros i Hi. rewrite !Z.shiftr_spec by lia.
  destruct (Z.ltb_spec (i + n) 64); [apply Hx; lia|].
  by rewrite !(in_u_testbit_high 64) by (done || lia).
Qed.

Lemma low_ones n i : 0 <= n -> 0 <= i -> Z.testbit (Z.shiftl 1 n - 1) i = (i <? n).
Proof.
  intros Hn Hi. rewrite Z.shiftl_mul_pow2, Z.mul_1_l, Z.sub_1_r, <-Z.ones_equiv by lia.
  destruct (Z.ltb_spec i n); [by apply Z.ones_spec_low|by apply Z.ones_spec_high].
Qed.

Lemma low_ones_range n : 0 <= n <= 64 -> in_u 64 (Z.shiftl 1 n - 1).
Proof.
  intros Hn. rewrite Z.shiftl_mul_pow2, Z.mul_1_l by lia. pose proof (pow2_pos n ltac:(lia)).
  split; [lia|]. pose proof (Z.pow_le_mono_r 2 n 64). lia.
Qed.

Lemma wf_mask_lower a n : wf a -> 0 <= n -> wf (mask_lower a n).
Proof.
  intros Ha Hn. unfold mask_lower. destruct (Z.leb_spec 64 n); [done|].
  pose proof (low_ones_range n ltac:(lia)). split_wf. split; [range|]. split; [range|]. cbn [value mask].
  apply Z.bits_inj'. intros i Hi. autorewrite with zbits. at_bit i. all_bits.
Qed.

Lemma mask_lower_sound a x n : wf a -> 0 <= n <= 64 -> contains a x -> contains (mask_lower a n) (uwrap n x).
Proof.
  intros Ha Hn Hx. apply contains_bits; [apply wf_mask_lower; [done|lia]|].
  apply contains_bits in Hx as [Hr Hx]; [|done].
  split; [eapply in_u_mono; [|apply uwrap_range]; lia|].
  unfold mask_lower. destruct (Z.leb_spec 64 n); cbn [value mask]; intros i Hi.
  - replace n with 64 by lia. rewrite testbit_u64 by lia. by apply Hx.
  - rewrite !Z.land_spec, testbit_uwrap, !low_ones by lia. destruct (Z.ltb_spec i n); [|by rewrite !andb_false_r].
    rewrite !andb_true_r. by apply Hx.
Qed.

Lemma trunc32_lower a : trunc32 a = mask_lower a 32.
Proof. done. Qed.

(** * Arithmetic shift *)

Lemma testbit_sign x : in_u 64 x -> (Z.land (Z.shiftr x 63) 1 =? 0) = negb (Z.testbit x 63).
Proof.
  intros Hx. rewrite Z.testbit_odd. change 1 with (Z.ones 1). rewrite Z.land_ones by lia.
  change (2 ^ 1) with 2. rewrite Zmod_odd. by destruct (Z.odd _).
Qed.

Lemma testbit_u64_max i : 0 <= i -> Z.testbit U64_MAX i = (i <? 64).
Proof. intros Hi. change U64_MAX with (Z.shiftl 1 64 - 1). by apply low_ones. Qed.

Lemma sign_high z i : - 2 ^ 63 <= z < 2 ^ 63 -> 63 <= i -> Z.testbit z i = (z <? 0).
Proof.
  intros Hz Hi. rewrite Z.testbit_odd, Z.shiftr_div_pow2 by lia.
  pose proof (Z.pow_le_mono_r 2 63 i ltac:(lia) Hi).
  destruct (Z.ltb_spec z 0).
  - replace (z / 2 ^ i) with (-1); [done|]. apply (Z.div_unique _ _ _ (z + 2 ^ i)); lia.
  - by rewrite Z.div_small by lia.
Qed.

Lemma testbit_signed x i : in_u 64 x -> 0 <= i -> Z.testbit (swrap 64 x) i = Z.testbit x (Z.min i 63).
Proof.
  intros Hx Hi. pose proof (swrap_range 64 x ltac:(lia)) as Hs. unfold in_s in Hs. change (64 - 1) with 63 in Hs.
  assert (Hlow : forall j, 0 <= j < 64 -> Z.testbit (swrap 64 x) j = Z.testbit x j).
  { intros j Hj. rewrite <-(testbit_u64 (swrap 64 x) j Hj), uwrap_swrap, uwrap_small by (done || lia). done. }
  destruct (Z.leb_spec i 63).
  - rewrite Z.min_l by lia. apply Hlow. lia.
  - rewrite Z.min_r, <-Hlow by lia. by rewrite !sign_high by (done || lia).
Qed.

(** Bit [i] of the result of a shift by less than the width. *)
Lemma arsh_bits a n i :
  wf a -> 0 < n < 64 -> 0 <= i < 64 ->
  Z.testbit (mask (arsh_imm a n)) i = Z.testbit (mask a) (Z.min (i + n) 63) /\
  Z.testbit (value (arsh_imm a n)) i = Z.testbit (value a) (Z.min (i + n) 63).
Proof.
  intros Ha Hn Hi. pose proof (wf_bits a 63 Ha) as H63. pose proof (wf_bits a (i + n) Ha) as Hin. split_wf.
  unfold arsh_imm. destruct (Z.eqb_spec n 0); [lia|]. destruct (Z.leb_spec 64 n); [lia|].
  rewrite !testbit_sign, !negb_involutive by done. cbn [value mask].
  set (m := if Z.testbit (mask a) 63 then _ else _).
  assert (Hmr : in_u 64 m).
  { subst m. destruct (Z.testbit (mask a) 63); [apply in_u_lor; [lia| |]|]; by range. }
  assert (Hmi : Z.testbit m i = Z.testbit (mask a) (Z.min (i + n) 63)).
  { subst m. destruct (Z.leb_spec (i + n) 63) as [Hle|Hle].
    - rewrite (Z.min_l (i + n)) by lia. destruct (Z.testbit (mask a) 63).
      + unfold not64. rewrite Z.lor_spec, testbit_unot by (done || lia || (apply in_u_shiftr; [lia|lia|done])).
        rewrite !Z.shiftr_spec, testbit_u64_max by lia. zbits_cases; try lia; by rewrite ?orb_false_r, ?andb_true_r.
      + by rewrite Z.shiftr_spec by lia.
    - rewrite (Z.min_r (i + n)) by lia. destruct (Z.testbit (mask a) 63) eqn:E.
      + unfold not64. rewrite Z.lor_spec, testbit_unot by (done || lia || (apply in_u_shiftr; [lia|lia|done])).
        rewrite !Z.shiftr_spec, testbit_u64_max by lia. zbits_cases; try lia; by rewrite ?orb_true_r.
      + rewrite Z.shiftr_spec by lia. by rewrite (in_u_testbit_high 64) by (done || lia). }
  split; [done|]. unfold not64. rewrite Z.land_spec, testbit_unot, Hmi by (done || lia).
  destruct (Z.ltb_spec i 64); [|lia]. cbn [andb].
  assert (Hv : Z.testbit (Z.lor (Z.shiftr (value a) n)
      (if Z.testbit (value a) 63 then u64 (Z.shiftl U64_MAX (64 - n)) else 0)) i =
    Z.testbit (value a) (Z.min (i + n) 63)).
  { rewrite Z.lor_spec, Z.shiftr_spec by lia. destruct (Z.testbit (value a) 63) eqn:E.
    - rewrite testbit_u64, testbit_shiftl by lia. destruct (Z.leb_spec (i + n) 63).
      + rewrite (Z.min_l (i + n)) by lia. destruct (Z.leb_spec (64 - n) i); [lia|]. apply orb_false_r.
      + rewrite (Z.min_r (i + n)), testbit_u64_max, E by lia. zbits_cases; try lia; by rewrite ?orb_true_r.
    - rewrite Z.bits_0, orb_false_r. destruct (Z.leb_spec (i + n) 63); [by rewrite Z.min_l by lia|].
      rewrite (Z.min_r (i + n)), E by lia. by rewrite (in_u_testbit_high 64) by (done || lia). }
  rewrite Hv. destruct (Z.leb_spec (i + n) 63); [rewrite Z.min_l by lia|rewrite Z.min_r by lia].
  - destruct (Z.testbit (value a) (i + n)); [by rewrite Hin|done].
  - destruct (Z.testbit (value a) 63); [by rewrite H63|done].
Qed.

Lemma wf_of_bits v m :
  in_u 64 v -> in_u 64 m ->
  (forall i, 0 <= i < 64 -> Z.testbit v i = true -> Z.testbit m i = false) -> wf (MkTnum v m).
Proof.
  intros Hv Hm Hd. split; [done|]. split; [done|]. cbn [value mask]. apply Z.bits_inj'. intros i Hi.
  rewrite Z.land_spec, Z.bits_0. destruct (Z.ltb_spec i 64).
  - specialize (Hd i ltac:(lia)). destruct (Z.testbit v i); [|done]. by rewrite Hd.
  - by rewrite (in_u_testbit_high 64 v) by (done || lia).
Qed.

Lemma wf_arsh a n : wf a -> 0 <= n < 64 -> wf (arsh_imm a n).
Proof.
  intros Ha Hn. destruct (decide (n = 0)) as [->|Hn0]; [done|].
  pose proof (fun i Hi => arsh_bits a n i Ha ltac:(lia) Hi) as Hb.
  pose proof (fun i => wf_bits a i Ha) as Hd.
  assert (Hr : in_u 64 (value (arsh_imm a n)) /\ in_u 64 (mask (arsh_imm a n))).
  { destruct Ha as (Hv & Hm & _). unfold arsh_imm in *.
    destruct (Z.eqb_spec n 0); [lia|]. destruct (Z.leb_spec 64 n); [lia|]. cbn [value mask].
    assert (Hmr : in_u 64 (Z.shiftr (mask a) n)) by (apply in_u_shiftr; [lia|lia|done]).
    assert (Hur : in_u 64 (not64 (Z.shiftr U64_MAX n))).
    { apply in_u_unot; [lia|]. apply in_u_shiftr; [lia|lia|done]. }
    destruct (negb (Z.land (Z.shiftr (mask a) 63) 1 =? 0)); (split; [|by range]);
      destruct (negb _); by range. }
  destruct (arsh_imm a n) as [v m]. cbn [value mask] in *. apply wf_of_bits; [apply Hr..|].
  intros i Hi. destruct (Hb i Hi) as [-> ->]. apply Hd.
Qed.

Lemma arsh_sound a x n :
  wf a -> 0 <= n < 64 -> contains a x -> contains (arsh_imm a n) (u64 (Z.shiftr (swrap 64 x) n)).
Proof.
  intros Ha Hn Hx. apply contains_bits; [by apply wf_arsh|]. split; [apply uwrap_range; lia|].
  apply contains_bits in Hx as [Hr Hx]; [|done]. intros i Hi.
  rewrite testbit_u64, Z.shiftr_spec, testbit_signed by (done || lia).
  destruct (decide (n = 0)) as [->|Hn0].
  - cbn [arsh_imm Z.eqb]. rewrite Z.add_0_r, Z.min_l by lia. by apply Hx.
  - destruct (arsh_bits a n i Ha ltac:(lia) Hi) as [-> ->]. apply Hx. lia.
Qed.

(** * Ranges *)

Lemma same_high x y lo hi n :
  0 <= n -> lo / 2 ^ n = hi / 2 ^ n -> lo <= x <= hi -> lo <= y <= hi ->
  forall i, n <= i -> Z.testbit x i = Z.testbit y i.
Proof.
  intros Hn He Hx Hy i Hi. pose proof (pow2_pos n Hn).
  assert (Hd : forall z, lo <= z <= hi -> z / 2 ^ n = lo / 2 ^ n).
  { intros z Hz. pose proof (Z.div_le_mono lo z (2 ^ n)). pose proof (Z.div_le_mono z hi (2 ^ n)). lia. }
  replace i with (i - n + n) by lia. rewrite <-!Z.shiftr_spec, !Z.shiftr_div_pow2 by lia.
  by rewrite (Hd x), (Hd y) by lia.
Qed.

Lemma from_range_sound lo hi x : 0 <= lo -> hi < 2 ^ 64 -> lo <= x <= hi -> contains (from_range lo hi) x.
Proof.
  intros Hlo Hhi Hx. assert (Hr : in_u 64 x) by (split; lia).
  assert (Hrl : in_u 64 lo) by (split; lia). assert (Hrh : in_u 64 hi) by (split; lia).
  unfold from_range. destruct (Z.ltb_spec hi lo); [lia|].
  destruct (Z.eqb_spec (Z.lxor lo hi) 0) as [He|He].
  { apply Z.lxor_eq in He. subst hi. assert (x = lo) as -> by lia.
    apply contains_bits; [by apply wf_constant|]. by split. }
  unfold bit_length. rewrite (proj2 (Z.eqb_neq _ _) He).
  set (n := Z.log2 (Z.lxor lo hi) + 1).
  assert (Hpos : 0 < Z.lxor lo hi).
  { assert (0 <= Z.lxor lo hi) by (apply Z.lxor_nonneg; lia). lia. }
  assert (Hn : 0 < n) by (pose proof (Z.log2_nonneg (Z.lxor lo hi)); lia).
  assert (Hdiv : lo / 2 ^ n = hi / 2 ^ n).
  { rewrite <-!Z.shiftr_div_pow2 by lia. apply Z.bits_inj'. intros i Hi. rewrite !Z.shiftr_spec by lia.
    pose proof (Z.bits_above_log2 (Z.lxor lo hi) (i + n) ltac:(lia) ltac:(lia)) as Hb.
    rewrite Z.lxor_spec in Hb. by destruct (Z.testbit lo (i + n)), (Z.testbit hi (i + n)). }
  set (delta := if 64 <=? n then U64_MAX else Z.shiftl 1 n - 1).
  assert (Hdr : in_u 64 delta).
  { subst delta. destruct (Z.leb_spec 64 n); [done|]. apply low_ones_range. lia. }
  assert (Hdb : forall i, 0 <= i < 64 -> Z.testbit delta i = (i <? n)).
  { intros i Hi. subst delta. destruct (Z.leb_spec 64 n).
    - rewrite testbit_u64_max by lia. zbits_cases; try done; lia.
    - apply low_ones; lia. }
  apply contains_bits.
  - apply wf_of_bits; [by range|done|]. intros i Hi. unfold not64.
    rewrite Z.land_spec, testbit_unot by (done || lia). by destruct (Z.testbit lo i), (i <? 64), (Z.testbit delta i).
  - split; [done|]. cbn [value mask]. intros i Hi Hm. unfold not64.
    rewrite Z.land_spec, testbit_unot, Hm by (done || lia). destruct (Z.ltb_spec i 64); [|lia].
    rewrite andb_true_r. rewrite Hdb in Hm by lia. apply Z.ltb_ge in Hm.
    apply (same_high x lo lo hi n); (done || lia).
Qed.

(** * Claims *)

(** C18. The transfer functions of the tristate domain for addition, the bitwise operations, the three
    shifts by less than 64 and the truncation to 32 bits are sound: for members of well-formed
    operands the result of the machine operation is a member of the result, and a member lies between
    the least and the greatest value.  (Subtraction is left out: it is unsound, see
    [tnum_sub_unsound].) *)
Theorem tnum_ops_sound a b x y n :
  wf a -> wf b -> contains a x -> contains b y -> 0 <= n < 64 ->
  contains (add a b) (u64 (x + y)) /\ contains (and a b) (Z.land x y) /\
  contains (or a b) (Z.lor x y) /\ contains (xor a b) (Z.lxor x y) /\
  contains (shl a n) (u64 (Z.shiftl x n)) /\ contains (shr a n) (Z.shiftr x n) /\
  contains (arsh_imm a n) (u64 (Z.shiftr (swrap 64 x) n)) /\ contains (trunc32 a) (u32 x) /\
  min_value a <= x <= max_value a.
Proof.
  intros Ha Hb Hx Hy Hn.
  assert (Hm : min_value a <= x <= max_value a).
  { destruct (contains_subbits a x Ha Hx) as [H1 H2]. destruct Hx as [Hr _].
    destruct Ha as (Hv & Hmk & _). assert (in_u 64 (max_value a)) by (apply in_u_lor; [lia|done..]).
    apply (subbits_mod _ _ 64) in H1, H2; [|lia..]. unfold in_u, min_value in *.
    rewrite !Z.mod_small in H1, H2 by done. lia. }
  repeat (split; [first [by apply add_sound | by apply and_sound | by apply or_sound | by apply xor_sound
    | by apply shl_sound | by apply shr_sound | by apply arsh_sound
    | rewrite trunc32_lower; apply mask_lower_sound; (done || lia)]|]). done.
Qed.

Lemma tnum_ops_sound_witness :
  contains (add (MkTnum 4 3) (constant 1)) (u64 (6 + 1)) /\ contains (arsh_imm (MkTnum 4 3) 1) 3.
Proof.
  assert (H : wf (MkTnum 4 3) /\ wf (constant 1)) by (split; split; try split; by vm_compute).
  destruct (tnum_ops_sound (MkTnum 4 3) (constant 1) 6 1 1 (proj1 H) (proj2 H))
    as (H1 & _ & _ & _ & _ & _ & H2 & _); [split; by vm_compute..|lia|]. split; [exact H1|exact H2].
Defined.

(** [from_range] covers every value of its range. *)
Theorem tnum_from_range lo hi x :
  0 <= lo -> hi < 2 ^ 64 -> lo <= x <= hi -> contains (from_range lo hi) x.
Proof. apply from_range_sound. Qed.

Lemma tnum_from_range_witness : contains (from_range 5 12) 9.
Proof. apply (tnum_from_range 5 12 9); lia. Defined.

(** [widen] is the least upper bound: it covers both arguments, and every
    tristate number that covers both covers it. *)
Theorem tnum_widen_lub a b :
  wf a -> wf b ->
  wf (widen a b) /\
  (forall x, contains a x \/ contains b x -> contains (widen a b) x) /\
  (forall t, wf t -> (forall x, contains a x \/ contains b x -> contains t x) ->
     forall x, contains (widen a b) x -> contains t x).
Proof.
  intros Ha Hb. split; [by apply wf_widen|]. split.
  - intros x [Hx|Hx]; [by apply widen_sound_l|by apply widen_sound_r].
  - intros t Ht Hcov x Hx. pose proof (wf_widen a b Ha Hb) as Hw.
    assert (Hkn : forall c, wf c -> (forall x, contains c x -> contains t x) -> forall i, 0 <= i < 64 ->
      Z.testbit (mask t) i = false -> Z.testbit (mask c) i = false /\ Z.testbit (value c) i = Z.testbit (value t) i).
    { intros c Hc Hct i Hi Hm.
      assert (Hlo : contains c (value c)) by (apply contains_bits; [done|]; split; [apply Hc|done]).
      assert (Hhi : contains c (max_value c)).
      { apply contains_bits; [done|]. split; [apply in_u_lor; [lia|apply Hc..]|].
        intros j Hj Hmj. unfold max_value. by rewrite Z.lor_spec, Hmj, orb_false_r. }
      apply Hct, contains_bits in Hlo as [_ Hlo]; [|done]. apply Hct, contains_bits in Hhi as [_ Hhi]; [|done].
      specialize (Hlo i Hi Hm). specialize (Hhi i Hi Hm). unfold max_value in Hhi. rewrite Z.lor_spec in Hhi.
      split; [|done]. pose proof (wf_bits c i Hc) as Hd.
      destruct (Z.testbit (value c) i), (Z.testbit (mask c) i), (Z.testbit (value t) i); naive_solver. }
    apply contains_bits in Hx as [Hr Hx]; [|done]. apply contains_bits; [done|]. split; [done|].
    intros i Hi Hm. destruct (Hkn a Ha ltac:(naive_solver) i Hi Hm) as [Hma Hva].
    destruct (Hkn b Hb ltac:(naive_solver) i Hi Hm) as [Hmb Hvb].
    assert (Hmw : Z.testbit (mask (widen a b)) i = false).
    { cbn [widen mask]. by rewrite !Z.lor_spec, Z.lxor_spec, Hma, Hmb, Hva, Hvb, xorb_nilpotent. }
    rewrite (Hx i Hi Hmw).
    change (value (widen a b)) with (Z.land (Z.land (value a) (value b)) (not64 (mask (widen a b)))).
    unfold not64. rewrite !Z.land_spec, testbit_unot, Hmw, Hva, Hvb by (try apply Hw; lia).
    destruct (Z.ltb_spec i 64); [|lia]. rewrite andb_true_r. apply andb_diag.
Qed.

Lemma tnum_widen_lub_witness : contains (widen (constant 4) (constant 6)) 6.
Proof.
  destruct (tnum_widen_lub (constant 4) (constant 6)) as (_ & H & _).
  - apply wf_constant. by split.
  - apply wf_constant. by split.
  - apply H. right. by split.
Defined.

(** [intersect] is exact: its result stands for the common members, and [None]
    for no common member. *)
Theorem tnum_intersect_exact a b x :
  wf a -> wf b ->
  (contains a x /\ contains b x) <->
  match intersect a b with Some t => contains t x | None => False end.
Proof.
  intros Ha Hb. unfold intersect.
  set (known := Z.land (not64 (mask a)) (not64 (mask b))).
  assert (Hna : in_u 64 (not64 (mask a)) /\ in_u 64 (not64 (mask b))).
  { split; apply in_u_unot; (lia || apply Ha || apply Hb). }
  assert (Hkb : forall i, 0 <= i < 64 ->
    Z.testbit known i = negb (Z.testbit (mask a) i) && negb (Z.testbit (mask b) i)).
  { intros i Hi. subst known. unfold not64. rewrite Z.land_spec, !testbit_unot by (lia || apply Ha || apply Hb).
    by destruct (Z.ltb_spec i 64); [|lia]. }
  destruct (Z.eqb_spec (Z.land (Z.lxor (value a) (value b)) known) 0) as [He|He]; cbn [negb].
  - assert (Hwt : wf (MkTnum (Z.lor (Z.land (value a) (not64 (mask a))) (Z.land (value b) (not64 (mask b))))
      (Z.land (mask a) (mask b)))).
    { pose proof (fun i => wf_bits a i Ha). pose proof (fun i => wf_bits b i Hb). split_wf.
      apply wf_of_bits; [by range|by range|]. intros i Hi. unfold not64.
      rewrite Z.lor_spec, !Z.land_spec, !testbit_unot by (done || lia). at_bit i. all_bits. }
    rewrite !contains_bits by done. cbn [value mask]. split.
    + intros [[Hr Hax] [_ Hbx]]. split; [done|]. intros i Hi. specialize (Hax i Hi). specialize (Hbx i Hi).
      unfold not64. rewrite Z.lor_spec, !Z.land_spec, !testbit_unot by (lia || apply Ha || apply Hb).
      apply (f_equal (fun z => Z.testbit z i)) in He. rewrite Z.land_spec, Z.lxor_spec, Hkb, Z.bits_0 in He by lia.
      destruct (Z.ltb_spec i 64); [|lia]. clear Hkb. all_bits.
    + intros [Hr Hx]. assert (Hbit : forall i, 0 <= i < 64 ->
        (Z.testbit (mask a) i = false -> Z.testbit x i = Z.testbit (value a) i) /\
        (Z.testbit (mask b) i = false -> Z.testbit x i = Z.testbit (value b) i)).
      { intros i Hi. specialize (Hx i Hi). unfold not64 in Hx.
        rewrite Z.lor_spec, !Z.land_spec, !testbit_unot in Hx by (lia || apply Ha || apply Hb).
        apply (f_equal (fun z => Z.testbit z i)) in He.
        rewrite Z.land_spec, Z.lxor_spec, Hkb, Z.bits_0 in He by lia.
        destruct (Z.ltb_spec i 64); [|lia]. pose proof (wf_bits a i Ha). pose proof (wf_bits b i Hb).
        clear Hkb. all_bits. }
      split; (split; [done|]); intros i Hi; by apply Hbit.
  - split; [|done]. intros [Hax Hbx]. apply contains_bits in Hax as [_ Hax]; [|done].
    apply contains_bits in Hbx as [_ Hbx]; [|done]. apply He, Z.bits_inj'. intros i Hi.
    rewrite Z.land_spec, Z.lxor_spec, Z.bits_0. destruct (Z.ltb_spec i 64).
    + rewrite Hkb by lia. specialize (Hax i ltac:(lia)). specialize (Hbx i ltac:(lia)). clear Hkb He. all_bits.
    + destruct Ha as (Hva & _), Hb as (Hvb & _).
      by rewrite (in_u_testbit_high 64 (value a)), (in_u_testbit_high 64 (value b)) by (done || lia).
Qed.

Lemma tnum_intersect_exact_witness : contains (MkTnum 0 6) 4 /\ contains (MkTnum 4 3) 4.
Proof.
  apply (tnum_intersect_exact (MkTnum 0 6) (MkTnum 4 3) 4); [split; [|split]; by vm_compute..|].
  split; by vm_compute.
Defined.

(** [sub] is not sound: with one unknown bit in each operand, or in the first one
    and the constant 1, a difference of members is not a member of the result. *)
Theorem tnum_sub_unsound :
  let t := MkTnum 0 1 in
  wf t /\ contains t 0 /\ contains t 1 /\
  ~ contains (sub t t) (u64 (0 - 1)) /\ ~ contains (sub_imm t 1) (u64 (1 - 1)).
Proof.
  cbv zeta. split; [split; [|split]; by vm_compute|]. split; [split; by vm_compute|].
  split; [split; by vm_compute|]. split; intros [_ H]; by vm_compute in H.
Qed.

End Tnum.
