(* ===== verification/TnumRun.v ===== *)
(** Straight-line programs over tristate numbers.

    [arun] executes a program without jumps and memory accesses on abstract
    registers, using the transfer functions of [Tnum]; [arun_sound] says that the
    reference semantics then returns a member of the abstract result, whatever
    random words the program draws.  Subtraction, for which the domain has no sound
    transfer function, and the operations it has none for give an unknown value of
    the width of the operation. *)

From S2P Require Import Prelude BpfInsn ConvertTests BpfSem Tnum.
From Stdlib Require Import ZArith Lia String.
From stdpp Require Import base numbers strings gmap list.
Import BpfInsn ConvertTests BpfSem.
Open Scope Z_scope.

Module TnumRun.

Abbreviation tnum := Tnum.Tnum.
Abbreviation aregs := (list (option tnum)).

Definition aget (rs : aregs) (r : Z) : option tnum := mjoin (rs !! Z.to_nat r).
Definition aset (rs : aregs) (r : Z) (t : tnum) : aregs := <[Z.to_nat r := Some t]> rs.

Definition aoperand (rs : aregs) (x : bpf_insn) : option tnum :=
  if BPF_SRC (code x) =? BPF_X then aget rs (src_reg x) else Some (Tnum.constant (u64 (imm x))).

Definition aalu (w op : Z) (d y : tnum) : tnum :=
  if op =? BPF_ADD then Tnum.mask_lower (Tnum.add d y) w
  else if op =? BPF_OR then Tnum.or d y
  else if op =? BPF_AND then Tnum.and d y
  else if op =? BPF_XOR then Tnum.xor d y
  else if op =? BPF_MOV then y
  else match Tnum.const_value y with
  | Some c =>
      if op =? BPF_RSH then Tnum.shr d (Z.land c (w - 1))
      else if op =? BPF_LSH then Tnum.mask_lower (Tnum.shl d (Z.land c (w - 1))) w
      else Tnum.unknown_bits w
  | None => Tnum.unknown_bits w
  end.

Definition astep_alu (w : Z) (rs : aregs) (x : bpf_insn) : option aregs :=
  let op := BPF_OP (code x) in
  if (op =? BPF_END) && (w =? 32) then
    _ ← aget rs (dst_reg x);
    if (imm x =? 16) || (imm x =? 32) || (imm x =? 64)
    then Some (aset rs (dst_reg x) (Tnum.unknown_bits (imm x))) else None
  else
    y ← (if op =? BPF_NEG then Some (Tnum.constant 0) else aoperand rs x);
    d ← (if op =? BPF_MOV then Some (Tnum.constant 0) else aget rs (dst_reg x));
    _ ← alu w op 0 0;
    if dst_reg x =? 10 then None
    else Some (aset rs (dst_reg x) (aalu w op (Tnum.mask_lower d w) (Tnum.mask_lower y w))).

Definition aclobber (rs : aregs) (r0 : option tnum) : aregs := r0 :: replicate 5 None ++ drop 6 rs.

Inductive aevent : Type :=
| ANext (pc : nat) (rs : aregs)
| AExit (t : tnum)
| AStuck.

Definition of_regs (i : nat) (o : option aregs) : aevent := match o with Some rs => ANext (S i) rs | None => AStuck end.

(** The value of a two-slot immediate. *)
Definition wide_imm (x y : bpf_insn) : Z := Z.lor (u32 (imm x)) (Z.shiftl (u32 (imm y)) 32).

Definition astep (prog : list bpf_insn) (i : nat) (rs : aregs) : aevent :=
  match prog !! i with
  | None => AStuck
  | Some x =>
      if Z.land (code x) 7 =? BPF_ALU64 then of_regs i (astep_alu 64 rs x)
      else if Z.land (code x) 7 =? BPF_ALU then of_regs i (astep_alu 32 rs x)
      else if (code x =? BPF_JMP .| BPF_CALL) && (src_reg x =? 0) && (imm x =? BPF_FUNC_get_prandom_u32)
      then ANext (S i) (aclobber rs (Some (Tnum.unknown_bits 32)))
      else if code x =? BPF_JMP .| BPF_EXIT
      then match aget rs 0 with Some t => AExit t | None => AStuck end
      else if (code x =? BPF_LD .| BPF_DW .| BPF_IMM) && (src_reg x =? 0) then
        match prog !! S i with
        | Some y =>
            if (code y =? 0) && (0 <=? wide_imm x y) && (wide_imm x y <? 2 ^ 64)
            then ANext (S (S i)) (aset rs (dst_reg x) (Tnum.constant (wide_imm x y))) else AStuck
        | None => AStuck
        end
      else AStuck
  end.

Fixpoint arun (prog : list bpf_insn) (fuel : nat) (i : nat) (rs : aregs) : option tnum :=
  match fuel with
  | O => None
  | S fuel =>
      match astep prog i rs with
      | ANext i rs => arun prog fuel i rs
      | AExit t => Some t
      | AStuck => None
      end
  end.

(** * Concretisation *)

Definition member (t : tnum) (v : Z) : Prop := Tnum.wf t /\ Tnum.contains t v.

Definition reg_rel (a : option tnum) (r : option Z) : Prop :=
  match a with None => True | Some t => exists v, r = Some v /\ member t v end.

Definition regs_rel (rs : aregs) (s : list (option Z)) : Prop := Forall2 reg_rel rs s.

Lemma member_constant c : in_u 64 c -> member (Tnum.constant c) c.
Proof.
  intros Hc. pose proof (Tnum.wf_constant c Hc) as Hw. split; [done|]. by apply Tnum.contains_bits.
Qed.

Lemma wf_unknown_bits n : 0 <= n -> Tnum.wf (Tnum.unknown_bits n).
Proof.
  intros Hn. unfold Tnum.unknown_bits. destruct (Z.leb_spec 64 n); [apply Tnum.wf_unknown|].
  apply Tnum.wf_of_bits; [done|apply Tnum.low_ones_range; lia|]. intros i _. by rewrite Z.bits_0.
Qed.

Lemma member_unknown n v : 0 <= n <= 64 -> in_u n v -> member (Tnum.unknown_bits n) v.
Proof.
  intros Hn Hv. pose proof (wf_unknown_bits n ltac:(lia)) as Hw. split; [done|].
  apply Tnum.contains_bits; [done|]. split; [eapply in_u_mono; [|done]; lia|].
  unfold Tnum.unknown_bits in *. intros i Hi. destruct (Z.leb_spec 64 n); cbn [Tnum.mask Tnum.value Tnum.UNKNOWN].
  - rewrite Tnum.testbit_u64_max by lia. by destruct (Z.ltb_spec i 64); [|lia].
  - rewrite Tnum.low_ones, Z.bits_0 by lia. intros Hlt%Z.ltb_ge. apply (in_u_testbit_high n); [done|lia].
Qed.

Lemma member_lower t v w : 0 <= w <= 64 -> member t v -> member (Tnum.mask_lower t w) (uwrap w v).
Proof.
  intros Hw [Ht Hv]. split; [apply Tnum.wf_mask_lower; [done|lia]|]. by apply Tnum.mask_lower_sound.
Qed.

Lemma member_const t v c : member t v -> Tnum.const_value t = Some c -> v = c.
Proof.
  intros [Hw Hv] Hc. unfold Tnum.const_value, Tnum.is_const in Hc.
  destruct (Z.eqb_spec (Tnum.mask t) 0) as [Hm|]; [|done]. injection Hc as <-.
  apply Tnum.contains_bits in Hv as [Hr Hb]; [|done]. destruct Hw as (Hvr & _ & _).
  apply Z.bits_inj'. intros i Hi. destruct (Z.ltb_spec i 64).
  - apply Hb; [lia|]. by rewrite Hm, Z.bits_0.
  - by rewrite !(in_u_testbit_high 64) by (done || lia).
Qed.

Lemma uwrap_uwrap_le w v : 0 <= w <= 64 -> uwrap w (u64 v) = uwrap w v.
Proof.
  intros Hw. apply Z.bits_inj'. intros i Hi. rewrite !testbit_uwrap by lia.
  destruct (Z.ltb_spec i w), (Z.ltb_spec i 64); try done; lia.
Qed.

Lemma alu_range w op x y v :
  0 < w -> in_u w x -> in_u w y -> alu w op x y = Some v -> in_u w v.
Proof.
  intros Hw Hx Hy. assert (Hw' : 0 <= w) by lia. unfold alu. intros Hv.
  repeat match type of Hv with
  | (if ?c then _ else _) = _ => destruct c
  end; try discriminate; injection Hv as <-;
  first [apply uwrap_range; lia | done | apply in_u_lor; done | apply in_u_lxor; done
    | apply in_u_land; [done|done|apply Hy] | apply in_u_shiftr; [lia|apply Z.land_nonneg; left; apply Hy|done] | idtac].
  - destruct (Z.eqb_spec y 0); [split; [lia|by apply pow2_pos]|]. destruct Hx, Hy.
    split; [apply Z.div_pos; lia|]. apply Z.le_lt_trans with x; [|done]. apply Z.div_le_upper_bound; nia.
  - destruct (Z.eqb_spec y 0); [done|]. destruct Hx, Hy. pose proof (Z.mod_pos_bound x y ltac:(lia)). split; lia.
Qed.

Lemma alu_total w op x y v : alu w op 0 0 = Some v -> exists v', alu w op x y = Some v'.
Proof.
  unfold alu. intros Hv.
  repeat match type of Hv with
  | (if ?c then _ else _) = _ => destruct c; [by eexists|]
  end. discriminate.
Qed.

Lemma aalu_sound w op d y x b v :
  (w = 32 \/ w = 64) -> member d x -> member y b -> in_u w x -> in_u w b ->
  alu w op x b = Some v -> member (aalu w op d y) v.
Proof.
  intros Hw Hd Hy Hx Hb Hv. assert (Hw' : 0 <= w <= 64) by lia.
  assert (Hrange : in_u w v) by (eapply alu_range; [|exact Hx|exact Hb|exact Hv]; lia).
  assert (Hshift : 0 <= Z.land b (w - 1) < 64).
  { destruct Hw as [-> | ->]; [change (32 - 1) with (Z.ones 5)|change (64 - 1) with (Z.ones 6)];
      rewrite Z.land_ones by lia; [pose proof (Z.mod_pos_bound b (2 ^ 5))|pose proof (Z.mod_pos_bound b (2 ^ 6))]; lia. }
  pose proof (fun c => member_const y b c Hy) as Hconst.
  destruct Hd as [Hdw Hd], Hy as [Hyw Hy]. unfold alu in Hv. unfold aalu.
  destruct (Z.eqb_spec op BPF_ADD) as [->|].
  { injection Hv as <-. rewrite <-(uwrap_uwrap_le w) by lia.
    apply member_lower; [lia|]. split; [by apply Tnum.wf_add|by apply Tnum.add_sound]. }
  destruct (Z.eqb_spec op BPF_OR) as [->|].
  { injection Hv as <-. split; [by apply Tnum.wf_or|by apply Tnum.or_sound]. }
  destruct (Z.eqb_spec op BPF_AND) as [->|].
  { injection Hv as <-. split; [by apply Tnum.wf_and|by apply Tnum.and_sound]. }
  destruct (Z.eqb_spec op BPF_XOR) as [->|].
  { injection Hv as <-. split; [by apply Tnum.wf_xor|by apply Tnum.xor_sound]. }
  destruct (Z.eqb_spec op BPF_MOV) as [->|]; [by injection Hv as <-|].
  destruct (Tnum.const_value y) as [c|]; [|by apply member_unknown].
  rewrite <-(Hconst c eq_refl).
  destruct (Z.eqb_spec op BPF_RSH) as [->|].
  { injection Hv as <-. split; [apply Tnum.wf_shr; [done|lia]|by apply Tnum.shr_sound]. }
  destruct (Z.eqb_spec op BPF_LSH) as [->|]; [|by apply member_unknown].
  injection Hv as <-. rewrite <-(uwrap_uwrap_le w) by lia.
  apply member_lower; [lia|]. split; [apply Tnum.wf_shl; [done|lia]|by apply Tnum.shl_sound].
Qed.

(** * Registers *)

Lemma aget_rel rs s r t :
  regs_rel rs (regs s) -> aget rs r = Some t -> exists v, get_reg s r = Some v /\ member t v.
Proof.
  unfold aget, get_reg. intros Hrel Ht.
  destruct (rs !! Z.to_nat r) as [a|] eqn:E; cbn in Ht; [|done]. subst a.
  destruct (Forall2_lookup_l _ _ _ _ _ Hrel E) as (o & Ho & v & -> & Hv). exists v. by rewrite Ho.
Qed.

Lemma aset_rel rs s r t v :
  regs_rel rs (regs s) -> member t v -> regs_rel (aset rs r t) (regs (set_reg s r v)).
Proof. intros Hrel Hv. apply Forall2_insert; [done|]. by exists v. Qed.

Lemma aoperand_rel rs s x t :
  regs_rel rs (regs s) -> aoperand rs x = Some t -> exists v, operand s x = Some v /\ member t v.
Proof.
  unfold aoperand, operand. intros Hrel Ht. destruct (BPF_SRC (code x) =? BPF_X); [by eapply aget_rel|].
  injection Ht as <-. eexists. split; [done|]. apply member_constant, uwrap_range. lia.
Qed.

Lemma clobber_rel rs s a r :
  regs_rel rs s -> reg_rel a r -> regs_rel (aclobber rs a) (clobber s r).
Proof.
  intros Hrel Ha. constructor; [done|]. apply Forall2_app; [by repeat constructor|]. by apply Forall2_drop.
Qed.

Lemma endian_range b n x : (n =? 16) || (n =? 32) || (n =? 64) = true ->
  exists v, endian b n x = Some v /\ 0 <= n <= 64 /\ in_u n v.
Proof.
  intros Hn. unfold endian. rewrite Hn. eexists. split; [done|].
  rewrite !orb_true_iff, !Z.eqb_eq in Hn. split; [lia|].
  set (bs := if b then _ else _).
  assert (Hbs : Forall is_byte bs /\ 8 * Z.of_nat (length bs) = n).
  { subst bs. pose proof (le_bytes_are_bytes (Z.to_nat (n / 8)) x).
    assert (8 * (n / 8) = n) by (destruct Hn as [[-> | ->]| ->]; done).
    destruct b; [split; [by apply Forall_reverse|rewrite length_reverse]|split; [done|]];
      rewrite length_le_bytes; lia. }
  destruct Hbs as [Hb Hl]. rewrite <-Hl. by apply le_val_range.
Qed.

(** * Steps *)

Lemma astep_alu_sound w rs s x rs' :
  (w = 32 \/ w = 64) -> regs_rel rs (regs s) -> astep_alu w rs x = Some rs' ->
  exists v, step_alu w s x = Some (advance (set_reg s (dst_reg x) v)) /\
    regs_rel rs' (regs (set_reg s (dst_reg x) v)).
Proof.
  intros Hw Hrel Hs. unfold astep_alu in Hs. unfold step_alu.
  destruct ((BPF_OP (code x) =? BPF_END) && (w =? 32)).
  - destruct (aget rs (dst_reg x)) as [t|] eqn:Ed; cbn [mbind option_bind] in Hs; [|done].
    destruct (aget_rel _ _ _ _ Hrel Ed) as (d & -> & _).
    destruct ((imm x =? 16) || (imm x =? 32) || (imm x =? 64)) eqn:En; [|done]. injection Hs as <-.
    cbn [mbind option_bind]. destruct (endian_range (BPF_SRC (code x) =? BPF_TO_BE) _ d En) as (v & -> & Hn & Hv).
    exists v. split; [done|]. by apply aset_rel; [|apply member_unknown].
  - destruct (if BPF_OP (code x) =? BPF_NEG then Some (Tnum.constant 0) else aoperand rs x) as [ty|] eqn:Ey;
      cbn [mbind option_bind] in Hs; [|done].
    destruct (if BPF_OP (code x) =? BPF_MOV then Some (Tnum.constant 0) else aget rs (dst_reg x)) as [td|] eqn:Ed;
      cbn [mbind option_bind] in Hs; [|done].
    destruct (alu w (BPF_OP (code x)) 0 0) as [v0|] eqn:E0; cbn [mbind option_bind] in Hs; [|done].
    destruct (dst_reg x =? 10) eqn:E10; [done|]. injection Hs as <-.
    assert (Hy : exists y, (if BPF_OP (code x) =? BPF_NEG then Some 0 else operand s x) = Some y /\ member ty y).
    { destruct (BPF_OP (code x) =? BPF_NEG); [|by eapply aoperand_rel].
      injection Ey as <-. exists 0. split; [done|]. by apply member_constant. }
    assert (Hd : exists d, (if BPF_OP (code x) =? BPF_MOV then Some 0 else get_reg s (dst_reg x)) = Some d /\ member td d).
    { destruct (BPF_OP (code x) =? BPF_MOV); [|by eapply aget_rel].
      injection Ed as <-. exists 0. split; [done|]. by apply member_constant. }
    destruct Hy as (y & -> & Hy), Hd as (d & -> & Hd). cbn [mbind option_bind].
    destruct (alu_total w _ (uwrap w d) (uwrap w y) _ E0) as [v Hv]. rewrite Hv. cbn [mbind option_bind].
    exists v. split; [done|]. apply aset_rel; [done|].
    eapply aalu_sound; [done|apply member_lower; [lia|done]|apply member_lower; [lia|done]| | |exact Hv];
      apply uwrap_range; lia.
Qed.

Section Sound.
Context (prog : list bpf_insn) (rnd : nat -> Z).

(** A state of the outermost frame at instruction [i]. *)
Definition state_rel (i : nat) (rs : aregs) (s : state) : Prop :=
  pc s = Z.of_nat i /\ frames s = [] /\ regs_rel rs (regs s).

Lemma step_fetch i s x : pc s = Z.of_nat i -> prog !! i = Some x ->
  (pc s <? 0) = false /\ prog !! Z.to_nat (pc s) = Some x.
Proof. intros -> Hx. rewrite Nat2Z.id. split; [apply Z.ltb_ge; lia|done]. Qed.

Lemma alu_case i rs s x w o i' rs' :
  (w = 32 \/ w = 64) -> state_rel i rs s -> o = of_option (step_alu w s x) ->
  of_regs i (astep_alu w rs x) = ANext i' rs' ->
  exists s', o = Next s' /\ state_rel i' rs' s'.
Proof.
  intros Hw (Hpc & Hf & Hrel) -> Hs. unfold of_regs in Hs.
  destruct (astep_alu w rs x) as [rs1|] eqn:E; [|done]. injection Hs as <- <-.
  destruct (astep_alu_sound w rs s x rs1 Hw Hrel E) as (v & -> & Hr).
  eexists. split; [done|]. split; [cbn; lia|]. by split.
Qed.

Lemma astep_sound i rs s :
  state_rel i rs s ->
  match astep prog i rs with
  | ANext i' rs' => exists s', step prog rnd s = Next s' /\ state_rel i' rs' s'
  | AExit t => exists v, step prog rnd s = Exited v /\ member t v
  | AStuck => True
  end.
Proof.
  intros Hst. unfold astep. destruct (prog !! i) as [x|] eqn:Hx; [|done].
  destruct Hst as (Hpc & Hf & Hrel). destruct (step_fetch i s x Hpc Hx) as [Hp0 Hp1].
  assert (Hst : state_rel i rs s) by done.
  unfold step. rewrite Hp0, Hp1.
  destruct (Z.land (code x) 7 =? BPF_ALU64).
  { destruct (of_regs i (astep_alu 64 rs x)) eqn:E; [|by unfold of_regs in E; case_match|done].
    eapply (alu_case i rs s x 64); [by right|done|reflexivity|exact E]. }
  destruct (Z.land (code x) 7 =? BPF_ALU).
  { destruct (of_regs i (astep_alu 32 rs x)) eqn:E; [|by unfold of_regs in E; case_match|done].
    eapply (alu_case i rs s x 32); [by left|done|reflexivity|exact E]. }
  destruct (Z.eqb_spec (code x) (BPF_JMP .| BPF_CALL)) as [Hc|_]; cbn [andb].
  { rewrite Hc. change (Z.land (BPF_JMP .| BPF_CALL) 7) with BPF_JMP.
    destruct (Z.eqb_spec (src_reg x) 0) as [Hsr|]; [|done]. destruct (Z.eqb_spec (imm x) BPF_FUNC_get_prandom_u32) as [Hi|]; [|done].
    cbn [andb]. unfold step_jmp, step_call. rewrite Hc, Hsr, Hi. cbn -[u32 clobber regs_rel reg_rel].
    eexists. split; [reflexivity|]. split; [cbn; lia|]. split; [done|].
    apply clobber_rel; [done|]. eexists. split; [done|].
    apply (member_unknown 32); [lia|apply uwrap_range; lia]. }
  destruct (Z.eqb_spec (code x) (BPF_JMP .| BPF_EXIT)) as [Hc|_].
  { rewrite Hc. destruct (aget rs 0) as [t|] eqn:E; [|done].
    destruct (aget_rel _ _ _ _ Hrel E) as (v & Hv & Hm). exists v. split; [|done].
    change (Z.land (BPF_JMP .| BPF_EXIT) 7) with BPF_JMP. unfold step_jmp, step_exit.
    rewrite Hc, Hf, Hv. done. }
  destruct (Z.eqb_spec (code x) (BPF_LD .| BPF_DW .| BPF_IMM)) as [Hc|_]; [|done]. cbn [andb].
  destruct (Z.eqb_spec (src_reg x) 0) as [Hsr|]; [|done].
  destruct (prog !! S i) as [y|] eqn:Hy; [|done].
  destruct (Z.eqb_spec (code y) 0) as [Hcy|]; [|done]. cbn [andb].
  destruct (Z.leb_spec 0 (wide_imm x y)); [|done]. destruct (Z.ltb_spec (wide_imm x y) (2 ^ 64)); [|done].
  rewrite Hc. change (Z.land (BPF_LD .| BPF_DW .| BPF_IMM) 7) with BPF_LD. unfold step_ld. rewrite Hc, Hsr, Hpc.
  replace (Z.to_nat (Z.of_nat i + 1)) with (S i) by lia. rewrite Hy, Hcy.
  eexists. split; [reflexivity|]. split; [cbn [pc set_pc]; lia|]. split; [done|].
  apply aset_rel; [done|]. apply member_constant. by split.
Qed.

Lemma arun_sound fuel i rs s t :
  state_rel i rs s -> arun prog fuel i rs = Some t ->
  exists v, run prog rnd fuel s = Some (Exited v) /\ member t v.
Proof.
  revert i rs s. induction fuel as [|fuel IH]; intros i rs s Hst Hr; [done|]. cbn [arun run] in *.
  pose proof (astep_sound i rs s Hst) as Hs.
  destruct (astep prog i rs) as [i' rs'|t'|]; [| |done].
  - destruct Hs as (s' & -> & Hst'). by eapply IH.
  - injection Hr as <-. destruct Hs as (v & -> & Hv). by exists v.
Qed.

End Sound.

Definition entry_regs : aregs := replicate 11 None.

Lemma entry_rel ty packet : state_rel 0 entry_regs (init_state ty packet).
Proof. split; [done|]. split; [done|]. by repeat constructor. Qed.

End TnumRun.
