(* ===== verification/Zone.v ===== *)
(** The zone domain of the verifier: difference bound matrices with shadow ranges
    ([src/domains/zone/dbm.rs], [src/domains/zone/ops.rs], [src/analysis/machine/reg.rs]).

    A [Dbm] has a 15 x 15 matrix whose entry [data[i][j]] bounds [i - j] from above (a value of
    [INF] or more is no bound), eight shadow bounds per variable, and optionally a matrix that
    records where each entry came from.  A loop over [0..n] is [for_range]; [&mut] is state passing.
    Arithmetic is that of a release build: [+] and unary [-] wrap, the other operations are the
    saturating, checked and wrapping ones the code names.  An index is an [idx] of a register or a
    loop variable below the dimension, so the accesses are total on well-formed matrices
    ([dbm_wf]), which every operation preserves. *)

From S2P Require Import Prelude.
From Stdlib Require Import ZArith Lia.
From stdpp Require Import base numbers list.
Open Scope Z_scope.

Module Zone.

(** * Registers *)

Inductive Reg : Type :=
| Zero | R0 | R1 | R2 | R3 | R4 | R5 | R6 | R7 | R8 | R9 | R10
| AnchorDataMeta | AnchorData | AnchorDataEnd.

#[export] Instance Reg_eq_dec : EqDecision Reg.
Proof. solve_decision. Defined.

Definition ALL : list Reg := [Zero; R0; R1; R2; R3; R4; R5; R6; R7; R8; R9; R10].
Definition DBM_DIM : nat := 15.

Definition idx (r : Reg) : nat :=
  match r with
  | Zero => 0 | R0 => 1 | R1 => 2 | R2 => 3 | R3 => 4 | R4 => 5 | R5 => 6 | R6 => 7
  | R7 => 8 | R8 => 9 | R9 => 10 | R10 => 11
  | AnchorDataMeta => 12 | AnchorData => 13 | AnchorDataEnd => 14
  end.

Definition idx_to_reg (i : nat) : option Reg :=
  match i with
  | 0 => Some Zero | 1 => Some R0 | 2 => Some R1 | 3 => Some R2 | 4 => Some R3 | 5 => Some R4
  | 6 => Some R5 | 7 => Some R6 | 8 => Some R7 | 9 => Some R8 | 10 => Some R9 | 11 => Some R10
  | 12 => Some AnchorDataMeta | 13 => Some AnchorData | 14 => Some AnchorDataEnd
  | _ => None
  end%nat.

Definition is_anchor (r : Reg) : bool :=
  match r with AnchorDataMeta | AnchorData | AnchorDataEnd => true | _ => false end.

(** * Integers *)

Definition i64_MAX : Z := 2 ^ 63 - 1.
Definition i64_MIN : Z := - 2 ^ 63.
Definition u64_MAX : Z := 2 ^ 64 - 1.
Definition i32_MAX : Z := 2 ^ 31 - 1.
Definition i32_MIN : Z := - 2 ^ 31.
Definition u32_MAX : Z := 2 ^ 32 - 1.

Definition saturate (x : Z) : Z :=
  if i64_MAX <? x then i64_MAX else if x <? i64_MIN then i64_MIN else x.
Definition saturating_add (a b : Z) : Z := saturate (a + b).
Definition saturating_sub (a b : Z) : Z := saturate (a - b).
Definition saturating_mul (a b : Z) : Z := saturate (a * b).
Definition checked_add (a b : Z) : option Z :=
  if (a + b <=? i64_MAX) && (i64_MIN <=? a + b) then Some (a + b) else None.
(** [-x] and [x.wrapping_neg()]. *)
Definition wrapping_neg (x : Z) : Z := s64 (- x).

Definition INF : Z := i64_MAX / 4.
Definition POS_BOUND : Z := INF / 2.
Definition NEG_BOUND : Z := - POS_BOUND.

Definition clamp_upper_bound (c : Z) : Z :=
  if POS_BOUND <? c then INF else if c <? NEG_BOUND then NEG_BOUND else c.

Definition clamped_add (a b : Z) : Z :=
  if (INF <=? a) || (INF <=? b) then INF
  else match checked_add a b with
       | Some sum => clamp_upper_bound sum
       | None => INF
       end.

(** * Matrices *)

Definition for_range {A} (n : nat) (body : nat -> A -> A) (a : A) : A :=
  foldl (fun a k => body k a) a (seq 0 n).

Section Matrix.
Context {A : Type} `{Inhabited A}.
Definition cell (m : list (list A)) (i j : nat) : A := (m !!! i) !!! j.
Definition set_cell (m : list (list A)) (i j : nat) (v : A) : list (list A) := alter (<[j := v]>) i m.
End Matrix.

Inductive EdgeOrigin : Type :=
| Init
| Primitive (pc : Z)
| Derived (via : nat).

#[export] Instance EdgeOrigin_inhabited : Inhabited EdgeOrigin := populate Init.

Record ProvenanceTracker : Type := MkTracker {
  edges : list (list EdgeOrigin);
  current_pc : Z }.

Record Bounds : Type := MkBounds {
  s32_min : Z; s32_max : Z; u32_min : Z; u32_max : Z;
  s64_min : Z; s64_max : Z; u64_min : Z; u64_max : Z }.

Definition unknown : Bounds := MkBounds i32_MIN i32_MAX 0 u32_MAX i64_MIN i64_MAX 0 u64_MAX.

#[export] Instance Bounds_inhabited : Inhabited Bounds := populate unknown.
#[export] Instance Bounds_eq_dec : EqDecision Bounds.
Proof. solve_decision. Defined.

Record Dbm : Type := MkDbm {
  data : list (list Z);
  bounds : list Bounds;
  provenance : option ProvenanceTracker }.

Definition tracker_new (n : nat) : ProvenanceTracker := MkTracker (replicate n (replicate n Init)) 0.

Definition num_vars (d : Dbm) : nat := length (data d).
Definition get_idx (d : Dbm) (i j : nat) : Z := cell (data d) i j.
Definition set_idx (d : Dbm) (i j : nat) (v : Z) : Dbm :=
  MkDbm (set_cell (data d) i j v) (bounds d) (provenance d).
Definition get (d : Dbm) (i j : Reg) : Z := get_idx d (idx i) (idx j).
Definition set (d : Dbm) (i j : Reg) (v : Z) : Dbm := set_idx d (idx i) (idx j) v.
Definition get_bounds (d : Dbm) (x : Reg) : Bounds := bounds d !!! idx x.
Definition set_bounds (d : Dbm) (x : Reg) (b : Bounds) : Dbm :=
  MkDbm (data d) (<[idx x := b]> (bounds d)) (provenance d).

(** [Dbm::new]. *)
Definition new : Dbm :=
  MkDbm (for_range DBM_DIM (fun i m => set_cell m i i 0)
           (replicate DBM_DIM (replicate DBM_DIM INF)))
        (replicate DBM_DIM unknown) None.

Definition enable_provenance (d : Dbm) : Dbm :=
  MkDbm (data d) (bounds d) (Some (tracker_new (num_vars d))).

Definition set_current_pc (d : Dbm) (pc : Z) : Dbm :=
  MkDbm (data d) (bounds d)
    (match provenance d with
     | Some p => Some (MkTracker (edges p) pc)
     | None => None
     end).

(** Records [o] as the origin of the entry, when origins are tracked. *)
Definition set_edge (p : option ProvenanceTracker) (i j : nat) (o : EdgeOrigin) : option ProvenanceTracker :=
  match p with
  | Some p => Some (MkTracker (set_cell (edges p) i j o) (current_pc p))
  | None => None
  end.

(** The origin [add_constraint] records: a primitive edge of the current instruction. *)
Definition primitive_here (p : option ProvenanceTracker) : EdgeOrigin :=
  match p with Some p => Primitive (current_pc p) | None => Init end.

Definition stamp_provenance_for_var (d : Dbm) (reg_idx : nat) : Dbm :=
  let o := primitive_here (provenance d) in
  MkDbm (data d) (bounds d)
    (for_range (num_vars d) (fun j p =>
       let p := if (get_idx d reg_idx j <? INF) && negb (reg_idx =? j)%nat
                then set_edge p reg_idx j o else p in
       if (get_idx d j reg_idx <? INF) && negb (reg_idx =? j)%nat
       then set_edge p j reg_idx o else p) (provenance d)).

Definition add_constraint (d : Dbm) (i j : Reg) (c : Z) : Dbm :=
  let c := clamp_upper_bound c in
  if c =? INF then d
  else if c <? get d i j then
    MkDbm (set_cell (data d) (idx i) (idx j) c) (bounds d)
      (set_edge (provenance d) (idx i) (idx j) (primitive_here (provenance d)))
  else d.

Definition forget_var (d : Dbm) (x : Reg) : Dbm :=
  let i := idx x in
  let n := num_vars d in
  let m := for_range n (fun j m => set_cell m i j (if (i =? j)%nat then 0 else INF)) (data d) in
  let m := for_range n (fun k m => set_cell m k i (if (k =? i)%nat then 0 else INF)) m in
  let p := match provenance d with
           | Some p =>
               Some (MkTracker (for_range n (fun j e => set_cell (set_cell e i j Init) j i Init) (edges p))
                       (current_pc p))
           | None => None
           end in
  MkDbm m (<[i := unknown]> (bounds d)) p.

(** The innermost statement of [close]: relax entry [(i, j)] through [k]. *)
Definition close_cell (k i : nat) (dik : Z) (j : nat)
    (s : list (list Z) * option ProvenanceTracker) : list (list Z) * option ProvenanceTracker :=
  let dkj := cell (s.1) k j in
  if INF <=? dkj then s
  else
    let via := clamped_add dik dkj in
    if via <? cell (s.1) i j then (set_cell (s.1) i j via, set_edge (s.2) i j (Derived k)) else s.

Definition close_row (n k i : nat) (s : list (list Z) * option ProvenanceTracker) :=
  let dik := cell (s.1) i k in
  if INF <=? dik then s else for_range n (close_cell k i dik) s.

Definition close_pivot (n k : nat) (s : list (list Z) * option ProvenanceTracker) :=
  for_range n (close_row n k) s.

Definition close (d : Dbm) : Dbm :=
  let n := num_vars d in
  let s := for_range n (close_pivot n) (data d, provenance d) in
  MkDbm (s.1) (bounds d) (s.2).

Definition empty_range (b : Bounds) : bool :=
  (s32_max b <? s32_min b) || (u32_max b <? u32_min b) ||
  (s64_max b <? s64_min b) || (u64_max b <? u64_min b).

Definition is_inconsistent (d : Dbm) : bool :=
  existsb (fun i => get_idx d i i <? 0) (seq 0 (num_vars d)) || existsb empty_range (bounds d).

(** * Queries ([ops.rs], sections 1 and 2) *)

Definition get_distance_interval (d : Dbm) (x y : Reg) : Z * Z :=
  let x_minus_y := get d x y in
  let y_minus_x := get d y x in
  (if INF <=? y_minus_x then i64_MIN else wrapping_neg y_minus_x,
   if INF <=? x_minus_y then i64_MAX else x_minus_y).

Definition get_interval (d : Dbm) (x : Reg) : Z * Z :=
  let ub := get d x Zero in
  let lb_neg := get d Zero x in
  (if INF <=? lb_neg then i64_MIN else wrapping_neg lb_neg,
   if INF <=? ub then i64_MAX else ub).

Definition fixed (i : Z * Z) : option Z :=
  let '(lo, hi) := i in
  if (lo =? hi) && negb (lo =? i64_MIN) && negb (lo =? i64_MAX) then Some lo else None.

Definition get_distance_fixed (d : Dbm) (x y : Reg) : option Z := fixed (get_distance_interval d x y).
Definition get_fixed_value (d : Dbm) (x : Reg) : option Z := fixed (get_interval d x).

Definition proven_zero (d : Dbm) (x : Reg) : bool :=
  let '(l, u) := get_interval d x in (l =? u) && (l =? 0).
Definition proven_nonnegative (d : Dbm) (x : Reg) : bool := 0 <=? (get_interval d x).1.
Definition proven_positive (d : Dbm) (x : Reg) : bool := 0 <? (get_interval d x).1.
Definition proven_u32_range (d : Dbm) (v zero : Reg) : bool :=
  (get_idx d (idx v) (idx zero) <=? 0xffffffff) && (get_idx d (idx zero) (idx v) <=? 0).

(** * Shadow ranges *)

Definition with_s64 (b : Bounds) (lo hi : Z) : Bounds :=
  MkBounds (s32_min b) (s32_max b) (u32_min b) (u32_max b) lo hi (u64_min b) (u64_max b).
Definition with_u64 (b : Bounds) (lo hi : Z) : Bounds :=
  MkBounds (s32_min b) (s32_max b) (u32_min b) (u32_max b) (s64_min b) (s64_max b) lo hi.
Definition with_s32 (b : Bounds) (lo hi : Z) : Bounds :=
  MkBounds lo hi (u32_min b) (u32_max b) (s64_min b) (s64_max b) (u64_min b) (u64_max b).
Definition with_u32 (b : Bounds) (lo hi : Z) : Bounds :=
  MkBounds (s32_min b) (s32_max b) lo hi (s64_min b) (s64_max b) (u64_min b) (u64_max b).

(** Step 1 of [sync_bounds]: from the matrix to the signed range. *)
Definition import_dbm (d : Dbm) (x : Reg) (b : Bounds) : Bounds :=
  let dbm_max := get d x Zero in
  let b := if dbm_max <? INF then with_s64 b (s64_min b) (Z.min (s64_max b) dbm_max) else b in
  let dbm_min_neg := get d Zero x in
  if dbm_min_neg <? INF then with_s64 b (Z.max (s64_min b) (wrapping_neg dbm_min_neg)) (s64_max b) else b.

(** Step 2: the ranges of a register tighten each other. *)
Definition sync_s64_u64 (b : Bounds) : Bounds :=
  let b := if 0 <=? s64_min b
           then with_u64 b (Z.max (u64_min b) (u64 (s64_min b))) (Z.min (u64_max b) (u64 (s64_max b)))
           else b in
  if u64_max b <=? i64_MAX
  then with_s64 b (Z.max (s64_min b) (s64 (u64_min b))) (Z.min (s64_max b) (s64 (u64_max b)))
  else b.

Definition sync_s32_u32 (b : Bounds) : Bounds :=
  let b := if 0 <=? s32_min b
           then with_u32 b (Z.max (u32_min b) (u32 (s32_min b))) (Z.min (u32_max b) (u32 (s32_max b)))
           else b in
  if u32_max b <=? i32_MAX
  then with_s32 b (Z.max (s32_min b) (s32 (u32_min b))) (Z.min (s32_max b) (s32 (u32_max b)))
  else b.

Definition sync_64_to_32 (b : Bounds) : Bounds :=
  let b := if (i32_MIN <=? s64_min b) && (s64_max b <=? i32_MAX)
           then with_s32 b (Z.max (s32_min b) (s32 (s64_min b))) (Z.min (s32_max b) (s32 (s64_max b)))
           else b in
  if u64_max b <=? u32_MAX
  then with_u32 b (Z.max (u32_min b) (u32 (u64_min b))) (Z.min (u32_max b) (u32 (u64_max b)))
  else b.

Definition sync_32_to_64 (b : Bounds) : Bounds :=
  if u64_max b <=? u32_MAX then
    let b := with_u64 b (Z.max (u64_min b) (u64 (u32_min b))) (Z.min (u64_max b) (u64 (u32_max b))) in
    with_s64 b (Z.max (s64_min b) (s64 (u64_min b))) (Z.min (s64_max b) (s64 (u64_max b)))
  else b.

(** The ranges after steps 1 and 2. *)
Definition synced (d : Dbm) (x : Reg) : Bounds :=
  sync_32_to_64 (sync_64_to_32 (sync_s32_u32 (sync_s64_u64 (import_dbm d x (get_bounds d x))))).

(** Step 3: from the signed range back to the matrix. *)
Definition export_bounds (d : Dbm) (x : Reg) (b : Bounds) : Dbm :=
  let d := set_bounds d x b in
  let d := if s64_max b <? i64_MAX then add_constraint d x Zero (s64_max b) else d in
  if i64_MIN <? s64_min b then add_constraint d Zero x (wrapping_neg (s64_min b)) else d.

Definition sync_bounds (d : Dbm) (x : Reg) : Dbm :=
  if bool_decide (x = Zero) || is_anchor x then d else export_bounds d x (synced d x).

(** * Refinements ([ops.rs], section 5) *)

Definition assume_le (d : Dbm) (x y : Reg) : Dbm := close (add_constraint d x y 0).
Definition assume_ge (d : Dbm) (x y : Reg) : Dbm := close (add_constraint d y x 0).
Definition assume_gt (d : Dbm) (x y : Reg) : Dbm := close (add_constraint d y x (-1)).
Definition assume_le_offset (d : Dbm) (x y : Reg) (c : Z) : Dbm := close (add_constraint d x y c).

Definition assume_le_imm (d : Dbm) (x : Reg) (c : Z) : Dbm :=
  if (c =? i64_MAX) || (INF <=? c) then d
  else sync_bounds (close (add_constraint d x Zero c)) x.

Definition assume_ge_imm (d : Dbm) (x : Reg) (c : Z) : Dbm :=
  if c =? i64_MIN then d
  else sync_bounds (close (add_constraint d Zero x (wrapping_neg c))) x.

Definition assume_range (d : Dbm) (x : Reg) (min max : Z) : Dbm :=
  assume_le_imm (assume_ge_imm d x min) x max.

Definition assume_eq_imm (d : Dbm) (x : Reg) (c : Z) : Dbm :=
  let d := add_constraint d x Zero c in
  let d := if i64_MIN <? c then add_constraint d Zero x (wrapping_neg c) else d in
  sync_bounds (close d) x.

Definition assume_lt_imm (d : Dbm) (x : Reg) (c : Z) : Dbm :=
  if c =? i64_MIN then set d R0 R0 (-1)
  else if (c =? i64_MAX) || (INF <=? c) then d
  else sync_bounds (close (add_constraint d x Zero (c - 1))) x.

(** * Assignments (section 3) *)

Definition forget (d : Dbm) (x : Reg) : Dbm := close (forget_var d x).

Definition assign_imm (d : Dbm) (x : Reg) (imm : Z) : Dbm :=
  let d := add_constraint (forget_var d x) x Zero imm in
  let d := if i64_MIN <? imm then add_constraint d Zero x (wrapping_neg imm) else d in
  let d := set_bounds d x (with_s64 (get_bounds d x) imm imm) in
  sync_bounds (close d) x.

Definition assign_zero (d : Dbm) (x : Reg) : Dbm := assign_imm d x 0.

Definition assign_reg (d : Dbm) (x y : Reg) : Dbm :=
  close (add_constraint (add_constraint (forget_var d x) x y 0) y x 0).

Definition intersect_eq_reg (d : Dbm) (x y : Reg) : Dbm :=
  sync_bounds (sync_bounds (close (add_constraint (add_constraint d x y 0) y x 0)) x) y.

Definition assign_reg_offset (d : Dbm) (dst src : Reg) (imm : Z) : Dbm :=
  let d := add_constraint (forget_var d dst) dst src imm in
  let d := if i64_MIN <? imm then add_constraint d src dst (wrapping_neg imm) else d in
  close d.

Definition assign_interval (d : Dbm) (r : Reg) (min max : Z) : Dbm :=
  close (assume_range (forget_var d r) r min max).

(** * Arithmetic (section 4) *)

(** The ranges after a shift of the register by a value in [lo, hi]. *)
Definition shift_bounds (b : Bounds) (lo hi : Z) : Bounds :=
  MkBounds i32_MIN i32_MAX 0 u32_MAX (saturating_add (s64_min b) lo) (saturating_add (s64_max b) hi) 0 u64_MAX.

(** The guarded update of the shift loops: a finite entry is replaced by [g] of it. *)
Definition shift_cell (d : Dbm) (i j : nat) (g : Z -> Z) : Dbm :=
  let old := get_idx d i j in
  if old <? INF then set_idx d i j (g old) else d.

Definition add_imm (d : Dbm) (x : Reg) (c : Z) : Dbm :=
  let xi := idx x in
  let n := num_vars d in
  let d := for_range n (fun zj d => shift_cell d xi zj (fun old_xz => saturating_add old_xz c)) d in
  let d := for_range n (fun zi d => shift_cell d zi xi (fun old_zx => saturating_sub old_zx c)) d in
  let d := set_idx d xi xi 0 in
  close (set_bounds d x (shift_bounds (get_bounds d x) c c)).

Definition apply_add_imm (d : Dbm) (dst : Reg) (imm : Z) : Dbm := add_imm d dst imm.

Definition apply_add_reg (d : Dbm) (dst src : Reg) : Dbm :=
  let '(src_lo, src_hi) := get_interval d src in
  if negb (src_lo =? i64_MIN) && negb (src_hi =? i64_MAX) then
    let di := idx dst in
    let d := for_range (num_vars d) (fun j d =>
               if (j =? di)%nat then d
               else shift_cell (shift_cell d di j (fun d_dj => clamped_add d_dj src_hi))
                      j di (fun d_jd => saturating_sub d_jd src_lo)) d in
    let d := set_idx d di di 0 in
    let d := stamp_provenance_for_var d di in
    close (set_bounds d dst (shift_bounds (get_bounds d dst) src_lo src_hi))
  else
    let '(dst_lo, dst_hi) := get_interval d dst in
    let d := forget_var d dst in
    let d := if negb (dst_lo =? i64_MIN) && negb (src_lo =? i64_MIN)
             then assume_ge_imm d dst (saturating_add dst_lo src_lo) else d in
    let d := if negb (dst_hi =? i64_MAX) && negb (src_hi =? i64_MAX)
             then assume_le_imm d dst (saturating_add dst_hi src_hi) else d in
    close d.

Definition sub_bounds (b : Bounds) (lo hi : Z) : Bounds :=
  MkBounds i32_MIN i32_MAX 0 u32_MAX (saturating_sub (s64_min b) hi) (saturating_sub (s64_max b) lo) 0 u64_MAX.

Definition apply_sub_reg (d : Dbm) (dst src : Reg) : Dbm :=
  let '(src_lo, src_hi) := get_interval d src in
  if negb (src_lo =? i64_MIN) && negb (src_hi =? i64_MAX) then
    let di := idx dst in
    let d := for_range (num_vars d) (fun j d =>
               if (j =? di)%nat then d
               else shift_cell (shift_cell d di j (fun d_dj => saturating_sub d_dj src_lo))
                      j di (fun d_jd => clamped_add d_jd src_hi)) d in
    let d := set_idx d di di 0 in
    close (set_bounds d dst (sub_bounds (get_bounds d dst) src_lo src_hi))
  else
    let '(dst_lo, dst_hi) := get_interval d dst in
    let d := forget_var d dst in
    let d := if negb (dst_lo =? i64_MIN) && negb (src_hi =? i64_MAX)
             then assume_ge_imm d dst (saturating_sub dst_lo src_hi) else d in
    let d := if negb (dst_hi =? i64_MAX) && negb (src_lo =? i64_MIN)
             then assume_le_imm d dst (saturating_sub dst_hi src_lo) else d in
    close d.

Definition apply_and_imm (d : Dbm) (dst : Reg) (mask : Z) : Dbm :=
  close (add_constraint (add_constraint (forget_var d dst) dst Zero mask) Zero dst 0).

Definition apply_mul_imm (d : Dbm) (dst : Reg) (imm : Z) : Dbm :=
  if imm =? 0 then assign_zero d dst
  else if imm =? 1 then d
  else if imm <? 0 then forget d dst
  else
    let '(ld, ud) := get_interval d dst in
    let d := forget_var d dst in
    let d := if negb (ld =? i64_MIN) then assume_ge_imm d dst (saturating_mul ld imm) else d in
    let d := if negb (ud =? i64_MAX) then assume_le_imm d dst (saturating_mul ud imm) else d in
    close d.

Definition apply_div_imm (d : Dbm) (reg : Reg) (imm : Z) : Dbm :=
  if imm =? 0 then d
  else
    let '(l, h) := get_interval d reg in
    let d := forget d reg in
    if (0 <? imm) && negb (l =? i64_MIN) && negb (h =? i64_MAX) && (0 <=? l) && (0 <=? h)
    then assume_le_imm (assume_ge_imm d reg (l / imm)) reg (h / imm)
    else d.

Definition apply_div_reg (d : Dbm) (dst _src : Reg) : Dbm := forget d dst.

Definition apply_neg (d : Dbm) (reg : Reg) : Dbm :=
  let '(l, h) := get_interval d reg in
  let d := forget d reg in
  if negb (l =? i64_MIN) && negb (h =? i64_MAX)
  then assume_le_imm (assume_ge_imm d reg (wrapping_neg h)) reg (wrapping_neg l)
  else d.

(** * Packet geometry (section 6) *)

Definition init_packet_anchors (d : Dbm) : Dbm :=
  close (add_constraint (add_constraint d AnchorDataMeta AnchorData 0) AnchorData AnchorDataEnd 0).

Definition bind_to_anchor (d : Dbm) (reg anchor : Reg) : Dbm :=
  close (add_constraint (add_constraint d reg anchor 0) anchor reg 0).

Definition check_region_access (d : Dbm) (base : Reg) (off size : Z) (anchor_start anchor_end : Reg)
    : bool * bool :=
  let start_bound := get d anchor_start base in
  let start_safe := (start_bound <? INF) && (start_bound <=? off) in
  let end_bound := get d base anchor_end in
  let end_safe := (end_bound <? INF) && (s64 (s64 (end_bound + off) + size) <=? 0) in
  (start_safe, end_safe).

Definition verify_packet_meta_bounds (d : Dbm) (base : Reg) (off size : Z) : bool * bool :=
  check_region_access d base off size AnchorDataMeta AnchorData.

Definition verify_packet_bounds (d : Dbm) (base : Reg) (off size : Z) : bool * bool :=
  check_region_access d base off size AnchorData AnchorDataEnd.

(** The inner loop: the row and the column of an anchor are unconstrained. *)
Definition reset_anchor (d : Dbm) (anchor : Reg) : Dbm :=
  let i := idx anchor in
  for_range (num_vars d) (fun j d =>
    if (i =? j)%nat then set_idx d i j 0 else set_idx (set_idx d i j INF) j i INF) d.

Definition reset_packet_anchors (d : Dbm) : Dbm :=
  init_packet_anchors (foldl reset_anchor d [AnchorDataMeta; AnchorData; AnchorDataEnd]).

Definition anchors : list Reg := [AnchorData; AnchorDataEnd; AnchorDataMeta].

Definition preserve_anchor_constraints (caller callee : Dbm) : Dbm :=
  close (foldl (fun d a => foldl (fun d b =>
    if bool_decide (a = b) then d
    else if get callee a b <? get d a b then add_constraint d a b (get callee a b) else d)
    d anchors) caller anchors).

(** * Widening and narrowing ([dbm.rs]) *)

Definition widen_bounds (b1 b2 : Bounds) : Bounds :=
  MkBounds
    (if s32_min b2 <? s32_min b1 then i32_MIN else s32_min b1)
    (if s32_max b1 <? s32_max b2 then i32_MAX else s32_max b1)
    (if u32_min b2 <? u32_min b1 then 0 else u32_min b1)
    (if u32_max b1 <? u32_max b2 then u32_MAX else u32_max b1)
    (if s64_min b2 <? s64_min b1 then i64_MIN else s64_min b1)
    (if s64_max b1 <? s64_max b2 then i64_MAX else s64_max b1)
    (if u64_min b2 <? u64_min b1 then 0 else u64_min b1)
    (if u64_max b1 <? u64_max b2 then u64_MAX else u64_max b1).

(** Both inputs of [widen] are synchronised first, for the real registers. *)
Definition sync_all (d : Dbm) : Dbm :=
  for_range (num_vars d) (fun i d =>
    match ALL !! i with
    | Some reg => if negb (bool_decide (reg = Zero)) && negb (is_anchor reg) then sync_bounds d reg else d
    | None => d
    end) d.

Definition widen (self newer : Dbm) : Dbm :=
  let self_synced := sync_all self in
  let newer_synced := sync_all newer in
  for_range (num_vars self) (fun i r =>
    let r := for_range (num_vars self) (fun j r =>
               if get_idx self i j <? get_idx newer i j then set_idx r i j INF else r) r in
    MkDbm (data r)
      (<[i := widen_bounds (bounds self_synced !!! i) (bounds newer_synced !!! i)]> (bounds r)) (provenance r))
    (MkDbm (data self) (bounds self) None).

Definition narrow_bounds (b1 b2 : Bounds) : Bounds :=
  MkBounds (Z.max (s32_min b1) (s32_min b2)) (Z.min (s32_max b1) (s32_max b2))
    (Z.max (u32_min b1) (u32_min b2)) (Z.min (u32_max b1) (u32_max b2))
    (Z.max (s64_min b1) (s64_min b2)) (Z.min (s64_max b1) (s64_max b2))
    (Z.max (u64_min b1) (u64_min b2)) (Z.min (u64_max b1) (u64_max b2)).

Definition narrow (self other : Dbm) : Dbm :=
  for_range (num_vars self) (fun i r =>
    let r := for_range (num_vars self) (fun j r =>
               set_idx r i j (Z.min (get_idx self i j) (get_idx other i j))) r in
    MkDbm (data r) (<[i := narrow_bounds (bounds self !!! i) (bounds other !!! i)]> (bounds r)) (provenance r))
    (MkDbm (data self) (bounds self) None).

(** * Paths *)

Record PrimitiveEdge : Type := MkEdge { to : Reg; from : Reg; weight : Z; pc : Z }.

(** [decompose]; the source recurses without a bound, [None] is a recursion deeper than [fuel]. *)
Fixpoint decompose (fuel : nat) (d : Dbm) (p : ProvenanceTracker) (i j : nat) : option (list PrimitiveEdge) :=
  match fuel with
  | O => None
  | S fuel =>
      match cell (edges p) i j with
      | Primitive pc =>
          to ← idx_to_reg i; from ← idx_to_reg j; Some [MkEdge to from (get_idx d i j) pc]
      | Derived via =>
          l ← decompose fuel d p i via; r ← decompose fuel d p via j; Some (l ++ r)
      | Init =>
          if negb (i =? j)%nat && (get_idx d i j <? INF)
          then to ← idx_to_reg i; from ← idx_to_reg j; Some [MkEdge to from (get_idx d i j) 0]
          else Some []
      end
  end.

(** The outer option is the recursion bound, the inner one the result of the source. *)
Definition reconstruct_path (fuel : nat) (d : Dbm) (i j : Reg) : option (option (list PrimitiveEdge)) :=
  match provenance d with
  | None => Some None
  | Some p => if INF <=? get d i j then Some None else Some <$> decompose fuel d p (idx i) (idx j)
  end.

End Zone.
