(* ===== verification/ZoneClose.v ===== *)
(** Closure of difference bound matrices.

    The meaning of a matrix is a set of valuations; [close] keeps it for every matrix
    ([close_rel_exact]), and on matrices whose finite entries are small enough not to be
    clamped the result satisfies the triangle inequality and is the tightest one
    ([close_closed], [closed_tight]); the small range is [small], with room for the doubling of the entries in
    each of the fifteen rounds. *)

From S2P Require Import Prelude Zone.
From Stdlib Require Import ZArith Lia.
From stdpp Require Import base numbers list.
Import Zone.
Open Scope Z_scope.

Module ZoneClose.

(** [lia] with the constants of the domain in sight. *)
Ltac zconst :=
  change INF with 2305843009213693951 in *; change POS_BOUND with 1152921504606846975 in *;
  change NEG_BOUND with (-1152921504606846975) in *; change i64_MAX with 9223372036854775807 in *;
  change i64_MIN with (-9223372036854775808) in *; change u64_MAX with 18446744073709551615 in *;
  change i32_MAX with 2147483647 in *; change i32_MIN with (-2147483648) in *;
  change u32_MAX with 4294967295 in *.
Ltac zlia := zconst; lia.

(** Case analysis on the comparisons of the code. *)
Ltac zcases :=
  repeat match goal with
  | |- context [?a <? ?b] => destruct (Z.ltb_spec a b)
  | |- context [?a <=? ?b] => destruct (Z.leb_spec a b)
  | |- context [?a =? ?b] => destruct (Z.eqb_spec a b)
  | |- context [(?a =? ?b)%nat] => destruct (Nat.eqb_spec a b)
  end.

(** * Loops and cells *)

Lemma for_range_S {A} n body (a : A) : for_range (S n) body a = body n (for_range n body a).
Proof. unfold for_range. by rewrite seq_S, foldl_app. Qed.

Lemma for_range_ind {A} (P : nat -> A -> Prop) n body a :
  P O a -> (forall k a, (k < n)%nat -> P k a -> P (S k) (body k a)) -> P n (for_range n body a).
Proof.
  intros H0 HS. assert (forall m, (m <= n)%nat -> P m (for_range m body a)) as H; [|by apply H].
  induction m as [|m IH]; intros Hm; [done|]. rewrite for_range_S. apply HS; [lia|]. apply IH. lia.
Qed.

(** Invariants that do not mention the counter. *)
Lemma for_range_inv {A} (P : A -> Prop) n body a :
  P a -> (forall k a, (k < n)%nat -> P a -> P (body k a)) -> P (for_range n body a).
Proof. intros H0 HS. by apply (for_range_ind (fun _ => P)). Qed.

Definition square {A} (n : nat) (m : list (list A)) : Prop :=
  length m = n /\ Forall (fun r => length r = n) m.

Section Cells.
Context {A : Type} `{Inhabited A}.
Implicit Types m : list (list A).

Lemma square_row n m i r : square n m -> m !! i = Some r -> length r = n.
Proof. intros [_ HF] Hi. eapply Forall_lookup_1 in HF; eauto. Qed.

Lemma square_set n m i j v : square n m -> square n (set_cell m i j v).
Proof.
  intros [Hl HF]. split; [by unfold set_cell; rewrite length_alter|].
  apply Forall_alter; [done|]. intros r Hr Hlen. by rewrite length_insert.
Qed.

Lemma cell_set n m i j v i' j' :
  square n m -> (i < n)%nat -> (j < n)%nat ->
  cell (set_cell m i j v) i' j' = if ((i' =? i) && (j' =? j))%nat then v else cell m i' j'.
Proof.
  intros Hsq Hi Hj. destruct (lookup_lt_is_Some_2 m i) as [r Hr]; [by destruct Hsq; lia|].
  pose proof (square_row _ _ _ _ Hsq Hr) as Hlen.
  unfold cell, set_cell. rewrite !list_lookup_total_alt.
  destruct (Nat.eqb_spec i' i) as [->|Hne].
  - rewrite list_lookup_alter, decide_True, Hr by done. simpl. destruct (Nat.eqb_spec j' j) as [->|?]; simpl.
    + by rewrite list_lookup_insert, decide_True by lia.
    + by rewrite list_lookup_insert_ne by done.
  - by rewrite list_lookup_alter_ne.
Qed.

Lemma cell_set_eq n m i j v :
  square n m -> (i < n)%nat -> (j < n)%nat -> cell (set_cell m i j v) i j = v.
Proof. intros. erewrite cell_set by done. by rewrite !Nat.eqb_refl. Qed.

Lemma cell_set_ne n m i j v i' j' :
  square n m -> (i < n)%nat -> (j < n)%nat -> (i', j') <> (i, j) ->
  cell (set_cell m i j v) i' j' = cell m i' j'.
Proof.
  intros ???? . erewrite cell_set by done.
  destruct (Nat.eqb_spec i' i), (Nat.eqb_spec j' j); simpl; congruence.
Qed.

Lemma square_replicate n (v : A) : square n (replicate n (replicate n v)).
Proof.
  split; [apply length_replicate|]. apply Forall_replicate. apply length_replicate.
Qed.

End Cells.

(** * Meaning of a matrix *)

(** [rel n m v]: the valuation satisfies every finite bound. *)
Definition rel (n : nat) (m : list (list Z)) (v : nat -> Z) : Prop :=
  forall i j, (i < n)%nat -> (j < n)%nat -> cell m i j < INF -> v i - v j <= cell m i j.

(** [tighter n m m']: every entry of [m] is at most that of [m']. *)
Definition tighter (n : nat) (m m' : list (list Z)) : Prop :=
  forall i j, (i < n)%nat -> (j < n)%nat -> cell m i j <= cell m' i j.

Lemma clamp_upper_sound c x : x <= c -> clamp_upper_bound c < INF -> x <= clamp_upper_bound c.
Proof. unfold clamp_upper_bound. zcases; zlia. Qed.

Lemma clamped_add_sound a b x y :
  x <= a -> y <= b -> clamped_add a b < INF -> x + y <= clamped_add a b.
Proof.
  unfold clamped_add, checked_add. zcases; simpl; try zlia. intros. apply clamp_upper_sound; lia.
Qed.

Lemma clamped_add_exact a b :
  a < INF -> b < INF -> NEG_BOUND <= a + b <= POS_BOUND -> clamped_add a b = a + b.
Proof.
  unfold clamped_add, checked_add, clamp_upper_bound. zcases; simpl; zcases; zlia.
Qed.

Lemma rel_set n m i j c v :
  square n m -> (i < n)%nat -> (j < n)%nat ->
  (c < INF -> v i - v j <= c) -> rel n m v -> rel n (set_cell m i j c) v.
Proof.
  intros Hsq Hi Hj Hc Hrel i' j' Hi' Hj'. erewrite cell_set by done.
  destruct (Nat.eqb_spec i' i) as [->|], (Nat.eqb_spec j' j) as [->|]; simpl; auto.
Qed.

Lemma tighter_set n m i j c :
  square n m -> (i < n)%nat -> (j < n)%nat -> c <= cell m i j -> tighter n (set_cell m i j c) m.
Proof.
  intros Hsq Hi Hj Hc i' j' Hi' Hj'. erewrite cell_set by done.
  destruct (Nat.eqb_spec i' i) as [->|], (Nat.eqb_spec j' j) as [->|]; simpl; lia.
Qed.

Lemma tighter_refl n m : tighter n m m.
Proof. intros i j ??. lia. Qed.

Lemma tighter_trans n m1 m2 m3 : tighter n m1 m2 -> tighter n m2 m3 -> tighter n m1 m3.
Proof. intros H1 H2 i j Hi Hj. specialize (H1 i j Hi Hj). specialize (H2 i j Hi Hj). lia. Qed.

Lemma rel_tighter n m m' v : tighter n m m' -> rel n m v -> rel n m' v.
Proof.
  intros Ht Hr i j Hi Hj Hlt. specialize (Ht i j Hi Hj). specialize (Hr i j Hi Hj). lia.
Qed.

(** * The closure keeps the meaning *)

(** What every statement of [close] maintains, from the matrix [m0] on. *)
Definition close_inv (n : nat) (m0 : list (list Z)) (s : list (list Z) * option ProvenanceTracker) : Prop :=
  square n (s.1) /\ tighter n (s.1) m0 /\ forall v, rel n m0 v -> rel n (s.1) v.

Lemma close_cell_inv n m0 k i dik j s :
  (k < n)%nat -> (i < n)%nat -> (j < n)%nat ->
  (forall v, rel n m0 v -> v i - v k <= dik) ->
  close_inv n m0 s -> close_inv n m0 (close_cell k i dik j s).
Proof.
  intros Hk Hi Hj Hdik (Hsq & Ht & Hr). unfold close_cell.
  destruct (Z.leb_spec INF (cell s.1 k j)) as [|Hkj]; [done|].
  destruct (Z.ltb_spec (clamped_add dik (cell s.1 k j)) (cell s.1 i j)) as [Hlt|]; [|done].
  split_and!; simpl.
  - by apply square_set.
  - eapply tighter_trans, Ht. apply tighter_set; try done. lia.
  - intros v Hv. apply rel_set; try done; [|by apply Hr].
    intros Hlt'. specialize (Hdik v Hv). specialize (Hr v Hv k j Hk Hj Hkj).
    replace (v i - v j) with ((v i - v k) + (v k - v j)) by lia.
    by apply clamped_add_sound.
Qed.

Lemma close_row_inv n m0 k i s :
  (k < n)%nat -> (i < n)%nat -> close_inv n m0 s -> close_inv n m0 (close_row n k i s).
Proof.
  intros Hk Hi Hs. unfold close_row. destruct (Z.leb_spec INF (cell s.1 i k)) as [|Hik]; [done|].
  apply for_range_inv; [done|]. intros j s' Hj Hs'. apply close_cell_inv; try done.
  intros v Hv. by apply (proj2 (proj2 Hs)).
Qed.

Lemma close_inv_all n m0 s :
  close_inv n m0 s -> close_inv n m0 (for_range n (close_pivot n) s).
Proof.
  intros Hs. apply for_range_inv; [done|]. intros k s' Hk Hs'. unfold close_pivot.
  apply for_range_inv; [done|]. intros i s'' Hi. by apply close_row_inv.
Qed.

Lemma close_data_inv d :
  square (num_vars d) (data d) -> close_inv (num_vars d) (data d) (data (close d), provenance (close d)).
Proof.
  intros Hsq. unfold close. simpl. pose proof (close_inv_all (num_vars d) (data d) (data d, provenance d)) as H.
  destruct H as (? & ? & ?); [|done]. split_and!; simpl; [done|apply tighter_refl|done].
Qed.

Lemma close_square d : square (num_vars d) (data d) -> square (num_vars d) (data (close d)).
Proof. intros Hsq. by destruct (close_data_inv d Hsq). Qed.

Lemma close_rel_exact d v :
  square (num_vars d) (data d) -> rel (num_vars d) (data (close d)) v <-> rel (num_vars d) (data d) v.
Proof.
  intros Hsq. destruct (close_data_inv d Hsq) as (_ & Ht & Hr). split; [by apply rel_tighter|by apply Hr].
Qed.

(** * The closure is closed *)

(** Entries are [INF] or at most [b] in absolute value. *)
Definition bounded (n : nat) (b : Z) (m : list (list Z)) : Prop :=
  forall i j, (i < n)%nat -> (j < n)%nat -> cell m i j = INF \/ - b <= cell m i j <= b.

(** The matrices on which no sum of the fifteen rounds is clamped. *)
Definition small (n : nat) (m : list (list Z)) : Prop :=
  exists b, 0 <= b /\ b * 2 ^ Z.of_nat n <= POS_BOUND /\ bounded n b m.

(** Diagonal entries: zero in a matrix that has not been found empty. *)
Definition zero_diag (n : nat) (m : list (list Z)) : Prop := forall i, (i < n)%nat -> cell m i i = 0.
Definition nonneg_diag (n : nat) (m : list (list Z)) : Prop := forall i, (i < n)%nat -> 0 <= cell m i i.

(** The triangle inequality for the pivots below [k]. *)
Definition closed_below (k n : nat) (m : list (list Z)) : Prop :=
  forall p i j, (p < k)%nat -> (i < n)%nat -> (j < n)%nat ->
    cell m i p < INF -> cell m p j < INF -> cell m i j <= cell m i p + cell m p j.
Abbreviation closed n := (closed_below n n).

(** No entry between [POS_BOUND] and [INF], so that a sum of two finite ones is below [INF]. *)
Definition capped (n : nat) (m : list (list Z)) : Prop :=
  forall i j, (i < n)%nat -> (j < n)%nat -> cell m i j = INF \/ cell m i j <= POS_BOUND.

(** The value entry [(i, j)] has after pivot [k]. *)
Definition relax (m : list (list Z)) (k i j : nat) : Z :=
  if (INF <=? cell m i k) || (INF <=? cell m k j) then cell m i j
  else Z.min (cell m i j) (cell m i k + cell m k j).

Section Pivot.
Context (n k : nat) (b : Z) (m : list (list Z)).
Context (Hk : (k < n)%nat) (Hb : 0 <= b) (Hb2 : 2 * b <= POS_BOUND).
Context (Hbd : bounded n b m) (Hkk : 0 <= cell m k k).

Lemma finite_bounded i j : (i < n)%nat -> (j < n)%nat -> cell m i j < INF -> - b <= cell m i j <= b.
Proof. intros Hi Hj Hlt. destruct (Hbd i j Hi Hj); lia. Qed.

Lemma relax_row j : (j < n)%nat -> relax m k k j = cell m k j.
Proof. intros Hj. unfold relax. zcases; simpl; lia. Qed.

Lemma relax_col i : (i < n)%nat -> relax m k i k = cell m i k.
Proof. intros Hi. unfold relax. zcases; simpl; lia. Qed.

(** Rows are replaced one by one, entries of a row from left to right. *)
Definition partly (i0 j0 : nat) (m' : list (list Z)) : Prop :=
  square n m' /\
  forall i j, (i < n)%nat -> (j < n)%nat ->
    cell m' i j = if ((i <? i0) || (i =? i0) && (j <? j0))%nat then relax m k i j else cell m i j.

Ltac natcases :=
  repeat match goal with
  | |- context [(?a <? ?b)%nat] => destruct (Nat.ltb_spec a b)
  | |- context [(?a =? ?b)%nat] => destruct (Nat.eqb_spec a b)
  end; simpl.

Lemma partly_row i0 j0 m' j : partly i0 j0 m' -> (j < n)%nat -> cell m' k j = cell m k j.
Proof. intros [_ H] Hj. rewrite H by done. natcases; auto using relax_row. Qed.

Lemma partly_col i0 m' i : partly i0 0 m' -> (i < n)%nat -> cell m' i k = cell m i k.
Proof. intros [_ H] Hi. rewrite H by done. natcases; auto using relax_col. Qed.

Lemma partly_next i0 m' : partly i0 n m' <-> partly (S i0) 0 m'.
Proof.
  unfold partly. apply and_iff_compat_l. split; intros H i j Hi Hj; rewrite H by done; natcases; try lia; done.
Qed.

Lemma close_cell_pivot i j s :
  (i < n)%nat -> (j < n)%nat -> cell m i k < INF ->
  partly i j (s.1) -> partly i (S j) (close_cell k i (cell m i k) j s).1.
Proof.
  intros Hi Hj Hik Hp. destruct (Hp) as [Hsq Hc]. unfold close_cell.
  rewrite (partly_row i j (s.1) j Hp Hj).
  assert (cell (s.1) i j = cell m i j) as ->.
  { rewrite Hc by done. natcases; try lia; done. }
  pose proof (finite_bounded i k Hi Hk Hik) as Bik.
  assert (forall m', square n m' -> (forall i' j', (i' < n)%nat -> (j' < n)%nat ->
    cell m' i' j' = if ((i' =? i) && (j' =? j))%nat then relax m k i j else cell (s.1) i' j') ->
    partly i (S j) m') as Hgoal.
  { intros m' Hsq' Hm'. split; [done|]. intros i' j' Hi' Hj'. rewrite Hm', Hc by done.
    natcases; subst; try lia; done. }
  assert (forall i' j', (i' < n)%nat -> (j' < n)%nat -> relax m k i j = cell m i j ->
    cell (s.1) i' j' = if ((i' =? i) && (j' =? j))%nat then relax m k i j else cell (s.1) i' j') as Hsame.
  { intros i' j' Hi' Hj' E. natcases; subst; try done. rewrite Hc by done. natcases; try lia; done. }
  destruct (Z.leb_spec INF (cell m k j)) as [Hinf|Hkj].
  { apply Hgoal; [done|]. intros. apply Hsame; try done. unfold relax. zcases; simpl; lia. }
  pose proof (finite_bounded k j Hk Hj Hkj) as Bkj.
  rewrite clamped_add_exact by zlia.
  assert (relax m k i j = Z.min (cell m i j) (cell m i k + cell m k j)) as Hrel.
  { unfold relax. zcases; simpl; lia. }
  destruct (Z.ltb_spec (cell m i k + cell m k j) (cell m i j)); simpl.
  - apply Hgoal; [by apply square_set|]. intros i' j' Hi' Hj'. erewrite cell_set by done.
    natcases; lia.
  - apply Hgoal; [done|]. intros. apply Hsame; try done. lia.
Qed.

Lemma close_row_pivot i s :
  (i < n)%nat -> partly i 0 (s.1) -> partly (S i) 0 (close_row n k i s).1.
Proof.
  intros Hi Hp. apply partly_next. unfold close_row. rewrite (partly_col i (s.1) i Hp Hi).
  destruct (Z.leb_spec INF (cell m i k)) as [Hinf|Hik].
  - destruct Hp as [Hsq Hc]. split; [done|]. intros i' j' Hi' Hj'. rewrite Hc by done.
    natcases; subst; try lia; try done. unfold relax. zcases; simpl; lia.
  - apply (for_range_ind (fun j s => partly i j (s.1))); [done|].
    intros j s' Hj. by apply close_cell_pivot.
Qed.

(** A pivot is the textbook step: every entry is relaxed through [k] at once. *)
Lemma close_pivot_relax p i j :
  square n m -> (i < n)%nat -> (j < n)%nat -> cell (close_pivot n k (m, p)).1 i j = relax m k i j.
Proof.
  intros Hsq Hi Hj.
  assert (partly n 0 (close_pivot n k (m, p)).1) as [_ H].
  { apply (for_range_ind (fun i s => partly i 0 (s.1))).
    - split; [done|]. intros ????. natcases; try lia; done.
    - intros i' s' Hi'. by apply close_row_pivot. }
  rewrite H by done. natcases; try lia; done.
Qed.

End Pivot.

Lemma relax_bounded n k b m :
  (k < n)%nat -> 0 <= b -> 2 * b <= POS_BOUND -> bounded n b m ->
  forall i j, (i < n)%nat -> (j < n)%nat -> relax m k i j = INF \/ - (2 * b) <= relax m k i j <= 2 * b.
Proof.
  intros Hk Hb Hb2 Hbd i j Hi Hj.
  pose proof (Hbd i j Hi Hj). pose proof (Hbd i k Hi Hk). pose proof (Hbd k j Hk Hj).
  unfold relax. zcases; simpl; zlia.
Qed.

(** The step of the induction over the pivots. *)
Lemma relax_closed_below n k m m' :
  (k < n)%nat -> 0 <= cell m k k -> closed_below k n m ->
  (forall i j, (i < n)%nat -> (j < n)%nat -> cell m' i j = relax m k i j) ->
  capped n m -> closed_below (S k) n m'.
Proof.
  intros Hk Hkk Hcl Hm' Hinf p i j Hp Hi Hj. assert (p < n)%nat as Hpn by lia.
  rewrite !Hm' by done. destruct (decide (p = k)) as [->|Hne].
  - unfold relax. pose proof (Hinf i j Hi Hj).
    zcases; simpl; try lia; intros; zlia.
  - assert (p < k)%nat as Hpk by lia.
    pose proof (Hcl p i j Hpk Hi Hj). pose proof (Hcl p k j Hpk Hk Hj).
    pose proof (Hcl p i k Hpk Hi Hk). pose proof (Hcl p k k Hpk Hk Hk).
    pose proof (Hinf i j Hi Hj). pose proof (Hinf k j Hk Hj). pose proof (Hinf i k Hi Hk).
    pose proof (Hinf i p Hi Hpn). pose proof (Hinf p j Hpn Hj). pose proof (Hinf k p Hk Hpn).
    pose proof (Hinf p k Hpn Hk).
    unfold relax. destruct (Z.leb_spec INF (cell m i k)), (Z.leb_spec INF (cell m k p)),
      (Z.leb_spec INF (cell m p k)), (Z.leb_spec INF (cell m k j)); simpl; intros; zlia.
Qed.

(** After [k] pivots: at most [b * 2^k] in size, closed for the pivots below [k], unless a
    diagonal entry has become negative. *)
Definition pivoted (n k : nat) (b : Z) (m : list (list Z)) : Prop :=
  square n m /\ (nonneg_diag n m -> bounded n (b * 2 ^ Z.of_nat k) m /\ closed_below k n m).

Lemma close_pivot_pivoted n k b m0 s :
  (k < n)%nat -> 0 <= b -> b * 2 ^ Z.of_nat n <= POS_BOUND ->
  close_inv n m0 s -> pivoted n k b (s.1) -> pivoted n (S k) b (close_pivot n k s).1.
Proof.
  intros Hk Hb Hbn Hinv [Hsq Hp]. destruct s as [m p]. simpl in *.
  assert (close_inv n m (close_pivot n k (m, p))) as (Hsq' & Ht & _).
  { unfold close_pivot. apply for_range_inv.
    - split_and!; simpl; [done|apply tighter_refl|done].
    - intros i s' Hi. by apply close_row_inv. }
  split; [done|]. intros Hdiag.
  assert (nonneg_diag n m) as Hd.
  { intros i Hi. specialize (Ht i i Hi Hi). specialize (Hdiag i Hi). lia. }
  destruct (Hp Hd) as [Hbd Hcl].
  set (c := b * 2 ^ Z.of_nat k) in *.
  assert (b * 2 ^ Z.of_nat (S k) = 2 * c) as Hc2.
  { unfold c. rewrite Nat2Z.inj_succ, Z.pow_succ_r by lia. lia. }
  assert (0 <= c) as Hc by (unfold c; apply Z.mul_nonneg_nonneg; [lia|apply Z.pow_nonneg; lia]).
  assert (2 * c <= POS_BOUND) as Hcp.
  { rewrite <- Hc2. transitivity (b * 2 ^ Z.of_nat n); [|done].
    apply Z.mul_le_mono_nonneg_l; [done|]. apply Z.pow_le_mono_r; lia. }
  pose proof (fun i j => close_pivot_relax n k c m Hk Hcp Hbd (Hd k Hk) p i j Hsq) as Hrx.
  split.
  - rewrite Hc2. intros i j Hi Hj. rewrite Hrx by done. by eapply relax_bounded.
  - eapply (relax_closed_below n k m); [done|by apply Hd|done|done|].
    intros i j Hi Hj. destruct (Hbd i j Hi Hj); zlia.
Qed.

Lemma close_closed d :
  square (num_vars d) (data d) -> small (num_vars d) (data d) ->
  nonneg_diag (num_vars d) (data (close d)) ->
  closed (num_vars d) (data (close d)) /\ capped (num_vars d) (data (close d)).
Proof.
  intros Hsq (b & Hb & Hbn & Hbd). set (n := num_vars d) in *.
  assert (pivoted n n b (data (close d))) as [_ H].
  2:{ intros Hd. destruct (H Hd) as [Hbd' Hcl]. split; [done|].
      intros i j Hi Hj. destruct (Hbd' i j Hi Hj); [auto|right; lia]. }
  unfold close. simpl. fold n.
  apply (for_range_ind (fun k s => close_inv n (data d) s /\ pivoted n k b (s.1))
           n (close_pivot n) (data d, provenance d)).
  - split; [split_and!; simpl; [done|apply tighter_refl|done]|].
    split; [done|]. intros _. split; [simpl; by rewrite Z.mul_1_r|]. intros p i j Hp. lia.
  - intros k s Hk [Hi Hp]. split; [|by apply (close_pivot_pivoted n k b (data d))].
    unfold close_pivot. apply for_range_inv; [done|]. intros i s' Hi'. by apply close_row_inv.
Qed.

(** * A closed matrix is tight *)

(** The least entry of row [i] among the first [n] columns. *)
Definition row_min (n : nat) (m : list (list Z)) (i : nat) : Z :=
  foldr (fun j a => Z.min (cell m i j) a) 0 (seq 0 n).

Lemma row_min_spec n m i : row_min n m i <= 0 /\
  (forall j, (j < n)%nat -> row_min n m i <= cell m i j) /\
  (row_min n m i = 0 \/ exists j, (j < n)%nat /\ row_min n m i = cell m i j).
Proof.
  unfold row_min. assert (forall j, In j (seq 0 n) <-> (j < n)%nat) as Hin by (intros; rewrite in_seq; lia).
  assert (forall l, let a := foldr (fun j a => Z.min (cell m i j) a) 0 l in
    a <= 0 /\ (forall j, In j l -> a <= cell m i j) /\ (a = 0 \/ exists j, In j l /\ a = cell m i j)) as H.
  { induction l as [|x l (IH0 & IH1 & IH2)]; simpl in *; [split_and!; auto; lia|]. split_and!; [lia| |].
    - intros j [->|Hj]; [lia|]. specialize (IH1 j Hj). lia.
    - destruct (Z.min_spec (cell m i x) (foldr (fun j a => Z.min (cell m i j) a) 0 l)) as [[_ ->]|[_ ->]]; eauto.
      destruct IH2 as [?|(j & ? & ?)]; eauto. }
  destruct (H (seq 0 n)) as (H0 & H1 & H2). split_and!; [done| |].
  - intros j Hj. apply H1, Hin, Hj.
  - destruct H2 as [?|(j & Hj & ?)]; [auto|]. right. exists j. split; [by apply Hin|done].
Qed.

(** The valuation that realises column [j]; [l] stands for infinity. *)
Definition column (n : nat) (m : list (list Z)) (j : nat) (l : Z) (x : nat) : Z :=
  if cell m x j <? INF then Z.min (cell m x j) (l + row_min n m x) else l + row_min n m x.

Lemma row_min_step n m x y :
  (x < n)%nat -> (y < n)%nat -> closed n m -> capped n m -> cell m x y < INF ->
  row_min n m x <= cell m x y + row_min n m y.
Proof.
  intros Hx Hy Hcl Hcap Hxy. destruct (row_min_spec n m x) as (_ & Hmin & _).
  destruct (row_min_spec n m y) as (H0 & _ & [->|(z & Hz & E)]); [by specialize (Hmin y Hy); lia|].
  specialize (Hcl y x z Hy Hx Hz Hxy). specialize (Hmin z Hz). rewrite E in *. zlia.
Qed.

Lemma column_rel n m j l :
  (j < n)%nat -> closed n m -> capped n m -> rel n m (column n m j l).
Proof.
  intros Hj Hcl Hcap x y Hx Hy Hxy. pose proof (row_min_step n m x y Hx Hy Hcl Hcap Hxy) as Hstep.
  pose proof (Hcap x y Hx Hy). pose proof (Hcap y j Hy Hj).
  specialize (Hcl y x j Hy Hx Hj Hxy). unfold column. zcases; zlia.
Qed.

(** Every entry of a closed matrix is attained, and absent bounds are really absent. *)
Lemma closed_tight n m i j c :
  (i < n)%nat -> (j < n)%nat -> closed n m -> capped n m -> zero_diag n m ->
  (forall v, rel n m v -> v i - v j <= c) -> cell m i j < INF /\ cell m i j <= c.
Proof.
  intros Hi Hj Hcl Hcap Hd Hall.
  set (l := Z.max (Z.max (- row_min n m j) (cell m i j - row_min n m i)) (c + 1 - row_min n m i)).
  pose proof (Hall _ (column_rel n m j l Hj Hcl Hcap)) as H. unfold column in H.
  rewrite (Hd j Hj) in H. revert H. zcases; zlia.
Qed.

End ZoneClose.
