(* ===== verification/ZoneSound.v ===== *)
(** Soundness of the zone domain.

    [dbm_wf] is the type invariant of a matrix with its ranges, [holds d v] says that a
    valuation of the registers and anchors (as signed 64-bit values) is described by [d].  Every
    operation preserves the invariant and maps described valuations to described valuations of
    the concrete effect ([zone_op], [apply], [effect]). *)

From S2P Require Import Prelude Zone ZoneClose.
From Stdlib Require Import ZArith Lia.
From stdpp Require Import base numbers list.
Import Zone ZoneClose.
Open Scope Z_scope.

Module ZoneSound.

(** * Well-formed states *)

Definition bounds_wf (b : Bounds) : Prop :=
  in_s 32 (s32_min b) /\ in_s 32 (s32_max b) /\ in_u 32 (u32_min b) /\ in_u 32 (u32_max b) /\
  in_s 64 (s64_min b) /\ in_s 64 (s64_max b) /\ in_u 64 (u64_min b) /\ in_u 64 (u64_max b).

Definition real (x : Reg) : bool := negb (bool_decide (x = Zero)) && negb (is_anchor x).

Definition data_wf (m : list (list Z)) : Prop :=
  square DBM_DIM m /\ forall i j, (i < DBM_DIM)%nat -> (j < DBM_DIM)%nat -> in_s 64 (cell m i j).

Definition tracker_wf (p : option ProvenanceTracker) : Prop :=
  match p with Some p => square DBM_DIM (edges p) | None => True end.

(** Dimensions, ranges of the machine types; the variables that are no registers have no
    shadow ranges. *)
Record dbm_wf (d : Dbm) : Prop := {
  wf_data : data_wf (data d);
  wf_len : length (bounds d) = DBM_DIM;
  wf_bounds : forall x, bounds_wf (get_bounds d x);
  wf_anchor : forall x, real x = false -> get_bounds d x = unknown;
  wf_tracker : tracker_wf (provenance d) }.

Lemma idx_lt x : (idx x < DBM_DIM)%nat.
Proof. destruct x; unfold DBM_DIM; simpl; lia. Qed.

Lemma idx_to_reg_idx x : idx_to_reg (idx x) = Some x.
Proof. by destruct x. Qed.

Lemma idx_of_lt i : (i < DBM_DIM)%nat -> exists x, i = idx x.
Proof.
  intros Hi. destruct (idx_to_reg i) as [x|] eqn:E.
  - exists x. unfold DBM_DIM in Hi. do 15 (destruct i as [|i]; [by injection E as <-|]). lia.
  - unfold DBM_DIM in Hi. do 15 (destruct i as [|i]; [done|]). lia.
Qed.

Lemma idx_inj x y : idx x = idx y -> x = y.
Proof. intros H. apply (f_equal idx_to_reg) in H. rewrite !idx_to_reg_idx in H. by injection H. Qed.

Lemma wf_num_vars d : dbm_wf d -> num_vars d = DBM_DIM.
Proof. intros H. apply (wf_data d H). Qed.

Lemma wf_square d : dbm_wf d -> square DBM_DIM (data d).
Proof. intros H. apply (wf_data d H). Qed.

Lemma wf_get d x y : dbm_wf d -> in_s 64 (get d x y).
Proof. intros H. apply (wf_data d H); apply idx_lt. Qed.

#[local] Hint Resolve idx_lt wf_square wf_get : core.

Lemma get_bounds_set d x y b : dbm_wf d ->
  get_bounds (set_bounds d x b) y = if decide (x = y) then b else get_bounds d y.
Proof.
  intros H. unfold get_bounds, set_bounds. simpl. destruct (decide (x = y)) as [->|Hne].
  - rewrite list_lookup_total_insert, decide_True; [done|]. split; [done|]. rewrite (wf_len d H). apply idx_lt.
  - apply list_lookup_total_insert_ne. intros E. by apply Hne, idx_inj.
Qed.

Lemma data_wf_set m i j v :
  data_wf m -> (i < DBM_DIM)%nat -> (j < DBM_DIM)%nat -> in_s 64 v -> data_wf (set_cell m i j v).
Proof.
  intros [Hsq Hm] Hi Hj Hv. split; [by apply square_set|]. intros i' j' Hi' Hj'.
  erewrite cell_set by done. case_match; auto.
Qed.

Lemma tracker_wf_set p i j o : tracker_wf p -> tracker_wf (set_edge p i j o).
Proof. destruct p as [p|]; simpl; [|done]. apply square_set. Qed.

(** Operations that touch one component of the state. *)
Lemma wf_update_data d m p : dbm_wf d -> data_wf m -> tracker_wf p -> dbm_wf (MkDbm m (bounds d) p).
Proof. intros [? ? ? ? ?] Hm Hp. by constructor. Qed.

Lemma wf_set_idx d i j v :
  dbm_wf d -> (i < DBM_DIM)%nat -> (j < DBM_DIM)%nat -> in_s 64 v -> dbm_wf (set_idx d i j v).
Proof. intros H Hi Hj Hv. apply wf_update_data; [done| |apply H]. apply data_wf_set; auto. apply H. Qed.

Lemma wf_set_bounds d x b : dbm_wf d -> real x = true -> bounds_wf b -> dbm_wf (set_bounds d x b).
Proof.
  intros H Hx Hb. constructor; try apply H.
  - simpl. rewrite length_insert. apply H.
  - intros y. rewrite get_bounds_set by done. case_decide; [done|]. apply H.
  - intros y Hy. rewrite get_bounds_set by done. case_decide; [congruence|]. by apply H.
Qed.

Lemma clamp_range c : in_s 64 (clamp_upper_bound c).
Proof. unfold clamp_upper_bound, in_s. change (2 ^ (64 - 1)) with 9223372036854775808. zcases; zlia. Qed.

Lemma clamped_add_range a b : in_s 64 (clamped_add a b).
Proof.
  unfold clamped_add. destruct (_ || _); [done|]. destruct (checked_add a b); [apply clamp_range|done].
Qed.

Lemma saturate_range x : in_s 64 (saturate x).
Proof. unfold saturate, in_s. change (2 ^ (64 - 1)) with 9223372036854775808. zcases; zlia. Qed.

Lemma wrapping_neg_range x : in_s 64 (wrapping_neg x).
Proof. by apply swrap_range. Qed.

#[local] Hint Resolve clamp_range clamped_add_range saturate_range wrapping_neg_range : core.

Lemma wf_add_constraint d x y c : dbm_wf d -> dbm_wf (add_constraint d x y c).
Proof.
  intros H. unfold add_constraint. destruct (_ =? _); [done|]. destruct (_ <? _); [|done].
  apply wf_update_data; [done|apply data_wf_set; auto; apply H|apply tracker_wf_set, H].
Qed.

Lemma wf_close d : dbm_wf d -> dbm_wf (close d).
Proof.
  intros H. unfold close. rewrite wf_num_vars by done.
  assert (data_wf (for_range DBM_DIM (close_pivot DBM_DIM) (data d, provenance d)).1 /\
          tracker_wf (for_range DBM_DIM (close_pivot DBM_DIM) (data d, provenance d)).2) as [Hm Hp].
  { apply (for_range_inv (fun s => data_wf (s.1) /\ tracker_wf (s.2))); [split; apply H|].
    intros k s Hk Hs. apply (for_range_inv (fun s => data_wf (s.1) /\ tracker_wf (s.2))); [done|].
    intros i s' Hi Hs'. unfold close_row. destruct (_ <=? _); [done|].
    apply (for_range_inv (fun s => data_wf (s.1) /\ tracker_wf (s.2))); [done|].
    intros j s'' Hj [Hm Hp]. unfold close_cell. destruct (_ <=? _); [done|]. destruct (_ <? _); [|done].
    split; simpl; [by apply data_wf_set|by apply tracker_wf_set]. }
  by apply wf_update_data.
Qed.

Lemma wf_forget_var d x : dbm_wf d -> dbm_wf (forget_var d x).
Proof.
  intros H. assert (data_wf (data (forget_var d x))) as Hm.
  { simpl. rewrite wf_num_vars by done.
    apply for_range_inv; [apply for_range_inv; [apply H|]|]; intros k m Hk Hm;
      apply data_wf_set; auto; case_match; done. }
  assert (tracker_wf (provenance (forget_var d x))) as Hp.
  { simpl. pose proof (wf_tracker d H) as Hp. destruct (provenance d) as [p|]; [|done]. simpl in *.
    apply for_range_inv; [done|]. intros j e Hj He. by do 2 apply square_set. }
  assert (forall y, get_bounds (forget_var d x) y = get_bounds (set_bounds d x unknown) y) as Hb by done.
  constructor; try done.
  - simpl. rewrite length_insert. apply H.
  - intros y. rewrite Hb, get_bounds_set by done. case_decide; [done|apply H].
  - intros y Hy. rewrite Hb, get_bounds_set by done. case_decide; [done|by apply H].
Qed.

Lemma wf_new : dbm_wf new.
Proof.
  constructor; [split| | | |]; try done.
  - split; [done|]. repeat (constructor; [done|]). constructor.
  - intros i j Hi Hj. destruct (idx_of_lt i Hi) as [x ->], (idx_of_lt j Hj) as [y ->]. by destruct x, y.
  - intros x. by destruct x.
  - intros x _. by destruct x.
Qed.

(** * Views of a 64-bit value *)

Definition in_bounds (b : Bounds) (x : Z) : Prop :=
  s64_min b <= x <= s64_max b /\ u64_min b <= u64 x <= u64_max b /\
  s32_min b <= s32 x <= s32_max b /\ u32_min b <= u32 x <= u32_max b.

Lemma u_of_s w x : 0 < w -> in_s w x -> uwrap w x = if x <? 0 then x + 2 ^ w else x.
Proof.
  intros Hw Hx. assert (2 ^ w = 2 * 2 ^ (w - 1)) as E.
  { rewrite <- Z.pow_succ_r by lia. f_equal. lia. }
  unfold in_s in Hx. destruct (Z.ltb_spec x 0).
  - unfold uwrap. rewrite <- (Z.mod_add x 1), Z.mul_1_l by lia. apply Z.mod_small. lia.
  - apply uwrap_small. unfold in_u. lia.
Qed.

Lemma s_of_u w x : 0 < w -> in_u w x -> swrap w x = if x <? 2 ^ (w - 1) then x else x - 2 ^ w.
Proof. intros Hw Hx. unfold swrap. by rewrite Z.mod_small by apply Hx. Qed.

Lemma u64_s64 x : in_s 64 x -> u64 x = if x <? 0 then x + 18446744073709551616 else x.
Proof. by apply u_of_s. Qed.
Lemma s64_u64 x : in_u 64 x -> s64 x = if x <? 9223372036854775808 then x else x - 18446744073709551616.
Proof. by apply s_of_u. Qed.
Lemma u32_s32 x : in_s 32 x -> u32 x = if x <? 0 then x + 4294967296 else x.
Proof. by apply u_of_s. Qed.
Lemma s32_u32 x : in_u 32 x -> s32 x = if x <? 2147483648 then x else x - 4294967296.
Proof. by apply s_of_u. Qed.

Lemma u32_small x : 0 <= x <= u32_MAX -> u32 x = x.
Proof. intros. apply uwrap_small. unfold in_u. change (2 ^ 32) with 4294967296. zlia. Qed.
Lemma u64_small x : 0 <= x <= u64_MAX -> u64 x = x.
Proof. intros. apply uwrap_small. unfold in_u. change (2 ^ 64) with 18446744073709551616. zlia. Qed.
Lemma s32_small x : i32_MIN <= x <= i32_MAX -> s32 x = x.
Proof. intros. apply swrap_small; [done|]. unfold in_s. change (2 ^ (32 - 1)) with 2147483648. zlia. Qed.
Lemma s64_small x : i64_MIN <= x <= i64_MAX -> s64 x = x.
Proof. intros. apply swrap_small; [done|]. unfold in_s. change (2 ^ (64 - 1)) with 9223372036854775808. zlia. Qed.

Lemma in_s64_iff x : in_s 64 x <-> i64_MIN <= x <= i64_MAX.
Proof. unfold in_s. change (2 ^ (64 - 1)) with 9223372036854775808. zlia. Qed.

Lemma s32_of_u32 x : s32 x = s32 (u32 x).
Proof. by rewrite swrap_uwrap. Qed.

Lemma u32_of_u64 x : u32 x = u32 (u64 x).
Proof.
  unfold uwrap. change (2 ^ 64) with (2 ^ 32 * 2 ^ 32). rewrite Z.rem_mul_r by lia.
  rewrite (Z.mul_comm (2 ^ 32)), Z_mod_plus_full. by rewrite Zmod_mod.
Qed.

(** The range facts of [bounds_wf] as inequalities with literals. *)
Lemma bounds_wf_lits b : bounds_wf b ->
  (i32_MIN <= s32_min b <= i32_MAX /\ i32_MIN <= s32_max b <= i32_MAX) /\
  (0 <= u32_min b <= u32_MAX /\ 0 <= u32_max b <= u32_MAX) /\
  (i64_MIN <= s64_min b <= i64_MAX /\ i64_MIN <= s64_max b <= i64_MAX) /\
  (0 <= u64_min b <= u64_MAX /\ 0 <= u64_max b <= u64_MAX).
Proof.
  unfold bounds_wf, in_s, in_u. change (2 ^ (64 - 1)) with 9223372036854775808.
  change (2 ^ (32 - 1)) with 2147483648. change (2 ^ 64) with 18446744073709551616.
  change (2 ^ 32) with 4294967296. zlia.
Qed.

Lemma in_bounds_s64 b x : bounds_wf b -> in_bounds b x -> in_s 64 x.
Proof. intros Hb (Hx & _). apply bounds_wf_lits in Hb. apply in_s64_iff. lia. Qed.

Ltac stage Hb Hx :=
  let W := fresh in let S := fresh in
  pose proof (bounds_wf_lits _ Hb) as W; pose proof (proj1 (in_s64_iff _) (in_bounds_s64 _ _ Hb Hx)) as S;
  destruct Hx as (? & ? & ? & ?).

Lemma sync_s64_u64_sound b x : bounds_wf b -> in_bounds b x -> in_bounds (sync_s64_u64 b) x.
Proof.
  intros Hb Hx. pose proof (in_bounds_s64 b x Hb Hx) as Hs. pose proof (u64_s64 x Hs) as Hu.
  stage Hb Hx. assert (0 <= s64_min b -> u64 (s64_min b) = s64_min b /\ u64 (s64_max b) = s64_max b) as Hm.
  { intros. rewrite !u64_small by zlia. split; reflexivity. }
  unfold sync_s64_u64. destruct (Z.leb_spec 0 (s64_min b)).
  - destruct Hm as [-> ->]; [done|]. simpl. destruct (Z.ltb_spec x 0); [lia|]. rewrite Hu in *.
    destruct (Z.leb_spec (Z.min (u64_max b) (s64_max b)) i64_MAX); unfold in_bounds; simpl;
      rewrite ?Hu, ?s64_small by zlia; zlia.
  - destruct (Z.leb_spec (u64_max b) i64_MAX); unfold in_bounds; simpl; [|zlia].
    rewrite !s64_small by zlia. destruct (Z.ltb_spec x 0); zlia.
Qed.

Lemma sync_s32_u32_sound b x : bounds_wf b -> in_bounds b x -> in_bounds (sync_s32_u32 b) x.
Proof.
  intros Hb Hx. pose proof (s32_of_u32 x) as Hu. rewrite (s32_u32 (u32 x)) in Hu by by apply uwrap_range.
  stage Hb Hx. assert (0 <= s32_min b -> u32 (s32_min b) = s32_min b /\ u32 (s32_max b) = s32_max b) as Hm.
  { intros. rewrite !u32_small by zlia. split; reflexivity. }
  unfold sync_s32_u32. destruct (Z.leb_spec 0 (s32_min b)).
  - destruct Hm as [-> ->]; [done|]. simpl. destruct (Z.ltb_spec (u32 x) 2147483648); [|zlia].
    destruct (Z.leb_spec (Z.min (u32_max b) (s32_max b)) i32_MAX); unfold in_bounds; simpl;
      rewrite ?(s32_small (Z.max _ _)), ?(s32_small (Z.min _ _)) by zlia; zlia.
  - destruct (Z.leb_spec (u32_max b) i32_MAX); unfold in_bounds; simpl; [|zlia].
    rewrite (s32_small (u32_min b)), (s32_small (u32_max b)) by zlia. destruct (Z.ltb_spec (u32 x) 2147483648); zlia.
Qed.

Lemma sync_64_to_32_sound b x : bounds_wf b -> in_bounds b x -> in_bounds (sync_64_to_32 b) x.
Proof.
  intros Hb Hx. pose proof (u32_of_u64 x) as Hu. stage Hb Hx. unfold sync_64_to_32.
  set (b' := if (i32_MIN <=? s64_min b) && (s64_max b <=? i32_MAX) then _ else b).
  assert (in_bounds b' x /\ u64_min b' = u64_min b /\ u64_max b' = u64_max b) as (Hx' & E1 & E2).
  { unfold b'. destruct (Z.leb_spec i32_MIN (s64_min b)), (Z.leb_spec (s64_max b) i32_MAX); simpl; try done.
    unfold in_bounds; simpl. pose proof (s32_small x ltac:(zlia)).
    rewrite (s32_small (s64_min b)), (s32_small (s64_max b)) by zlia. zlia. }
  destruct Hx' as (? & ? & ? & ?). rewrite E2. destruct (Z.leb_spec (u64_max b) u32_MAX); [|done].
  unfold in_bounds; simpl. rewrite (u32_small (u64 x)) in Hu by zlia.
  rewrite E1, (u32_small (u64_min b)), (u32_small (u64_max b)) by zlia. zlia.
Qed.

Lemma sync_32_to_64_sound b x : bounds_wf b -> in_bounds b x -> in_bounds (sync_32_to_64 b) x.
Proof.
  intros Hb Hx. pose proof (in_bounds_s64 b x Hb Hx) as Hs. pose proof (u64_s64 x Hs) as Hu.
  pose proof (u32_of_u64 x) as Hu2. stage Hb Hx. unfold sync_32_to_64.
  destruct (Z.leb_spec (u64_max b) u32_MAX); [|done].
  rewrite (u32_small (u64 x)) in Hu2 by zlia. destruct (Z.ltb_spec x 0); [zlia|].
  unfold in_bounds; simpl. rewrite (u64_small (u32_min b)), (u64_small (u32_max b)) by zlia.
  rewrite (s64_small (Z.max _ _)), (s64_small (Z.min _ _)) by zlia. zlia.
Qed.

Lemma in_s_max w a b : in_s w a -> in_s w b -> in_s w (Z.max a b).
Proof. unfold in_s. lia. Qed.
Lemma in_s_min w a b : in_s w a -> in_s w b -> in_s w (Z.min a b).
Proof. unfold in_s. lia. Qed.
Lemma in_u_max w a b : in_u w a -> in_u w b -> in_u w (Z.max a b).
Proof. unfold in_u. lia. Qed.
Lemma in_u_min w a b : in_u w a -> in_u w b -> in_u w (Z.min a b).
Proof. unfold in_u. lia. Qed.

#[local] Hint Resolve in_s_max in_s_min in_u_max in_u_min swrap_range : core.
#[local] Hint Extern 1 (in_u _ (uwrap _ _)) => apply uwrap_range; done : core.
#[local] Hint Extern 1 (in_s _ (swrap _ _)) => apply swrap_range; done : core.

Ltac bounds_wf_auto :=
  unfold bounds_wf in *; destruct_and?; repeat case_match; simpl in *; split_and!; auto.

Lemma sync_s64_u64_wf b : bounds_wf b -> bounds_wf (sync_s64_u64 b).
Proof. intros. unfold sync_s64_u64. bounds_wf_auto. Qed.
Lemma sync_s32_u32_wf b : bounds_wf b -> bounds_wf (sync_s32_u32 b).
Proof. intros. unfold sync_s32_u32. bounds_wf_auto. Qed.
Lemma sync_64_to_32_wf b : bounds_wf b -> bounds_wf (sync_64_to_32 b).
Proof. intros. unfold sync_64_to_32. bounds_wf_auto. Qed.
Lemma sync_32_to_64_wf b : bounds_wf b -> bounds_wf (sync_32_to_64 b).
Proof. intros. unfold sync_32_to_64. bounds_wf_auto. Qed.
Lemma import_dbm_wf d x b : dbm_wf d -> bounds_wf b -> bounds_wf (import_dbm d x b).
Proof.
  intros Hd. pose proof (wf_get d x Zero Hd). pose proof (wrapping_neg_range (get d Zero x)).
  unfold import_dbm. intros. bounds_wf_auto.
Qed.

(** [narrower b b']: [b] only has tighter ranges than [b']. *)
Definition narrower (b b' : Bounds) : Prop := forall x, in_bounds b x -> in_bounds b' x.

Ltac narrower_auto := let z := fresh in intros z; repeat case_match; unfold in_bounds; simpl; lia.

Lemma sync_narrower b :
  narrower (sync_32_to_64 (sync_64_to_32 (sync_s32_u32 (sync_s64_u64 b)))) b.
Proof.
  assert (forall b, narrower (sync_s64_u64 b) b) by (intros ?; unfold sync_s64_u64; narrower_auto).
  assert (forall b, narrower (sync_s32_u32 b) b) by (intros ?; unfold sync_s32_u32; narrower_auto).
  assert (forall b, narrower (sync_64_to_32 b) b) by (intros ?; unfold sync_64_to_32; narrower_auto).
  assert (forall b, narrower (sync_32_to_64 b) b) by (intros ?; unfold sync_32_to_64; narrower_auto).
  unfold narrower in *. eauto 10.
Qed.

Lemma import_dbm_narrower d x b : narrower (import_dbm d x b) b.
Proof. unfold import_dbm. narrower_auto. Qed.

Lemma synced_wf d x : dbm_wf d -> bounds_wf (synced d x).
Proof.
  intros H. apply sync_32_to_64_wf, sync_64_to_32_wf, sync_s32_u32_wf, sync_s64_u64_wf, import_dbm_wf; [done|].
  apply H.
Qed.

(** Conversion unfolds the composition before its stages. *)
#[local] Strategy expand [synced].

Lemma synced_narrower d x : narrower (synced d x) (get_bounds d x).
Proof.
  intros z Hz. unfold synced in Hz. apply sync_narrower in Hz. apply import_dbm_narrower in Hz. exact Hz.
Qed.

Lemma sync_bounds_unfold d x : real x = true -> sync_bounds d x = export_bounds d x (synced d x).
Proof.
  intros Hx. unfold sync_bounds. assert (bool_decide (x = Zero) || is_anchor x = false) as ->; [|reflexivity].
  unfold real in Hx. destruct (bool_decide _), (is_anchor x); simpl in *; congruence.
Qed.

Lemma sync_bounds_skip d x : real x = false -> sync_bounds d x = d.
Proof.
  intros Hx. unfold sync_bounds. assert (bool_decide (x = Zero) || is_anchor x = true) as ->; [|reflexivity].
  unfold real in Hx. destruct (bool_decide _), (is_anchor x); simpl in *; congruence.
Qed.

Lemma wf_export_bounds d x b : dbm_wf d -> real x = true -> bounds_wf b -> dbm_wf (export_bounds d x b).
Proof. intros. unfold export_bounds. repeat case_match; auto using wf_add_constraint, wf_set_bounds. Qed.

Lemma wf_sync_bounds d x : dbm_wf d -> dbm_wf (sync_bounds d x).
Proof.
  intros H. destruct (real x) eqn:Hx; [|by rewrite sync_bounds_skip].
  rewrite sync_bounds_unfold by done. apply wf_export_bounds; auto using synced_wf.
Qed.

(** * Valuations *)

(** [holds d v]: the state describes the valuation. *)
Record holds (d : Dbm) (v : Reg -> Z) : Prop := {
  holds_zero : v Zero = 0;
  holds_rel : forall x y, get d x y < INF -> v x - v y <= get d x y;
  holds_bounds : forall x, in_bounds (get_bounds d x) (v x) }.

Definition val_of (v : Reg -> Z) (i : nat) : Z :=
  match idx_to_reg i with Some r => v r | None => 0 end.

Lemma val_of_idx v x : val_of v (idx x) = v x.
Proof. unfold val_of. by rewrite idx_to_reg_idx. Qed.

Lemma rel_holds d v :
  rel DBM_DIM (data d) (val_of v) <-> forall x y, get d x y < INF -> v x - v y <= get d x y.
Proof.
  split.
  - intros H x y Hlt. rewrite <- (val_of_idx v x), <- (val_of_idx v y). apply H; auto.
  - intros H i j Hi Hj. destruct (idx_of_lt i Hi) as [x ->], (idx_of_lt j Hj) as [y ->].
    rewrite !val_of_idx. apply H.
Qed.

Lemma holds_s64 d v x : dbm_wf d -> holds d v -> in_s 64 (v x).
Proof. intros Hd Hv. eapply in_bounds_s64; [apply Hd|apply Hv]. Qed.

Lemma holds_close d v : dbm_wf d -> holds (close d) v <-> holds d v.
Proof.
  intros Hd. pose proof (close_rel_exact d (val_of v)) as H. rewrite wf_num_vars in H by done.
  specialize (H (wf_square d Hd)).
  assert (forall x, get_bounds (close d) x = get_bounds d x) as Hb by done.
  split; intros [H0 Hr Hbs]; (constructor; [done| |done]); by apply rel_holds, H, rel_holds.
Qed.

Lemma get_add_constraint d x y c x' y' : dbm_wf d ->
  get (add_constraint d x y c) x' y' =
    if decide (x' = x /\ y' = y /\ clamp_upper_bound c <> INF)
    then Z.min (clamp_upper_bound c) (get d x y) else get d x' y'.
Proof.
  intros Hd. unfold add_constraint. destruct (Z.eqb_spec (clamp_upper_bound c) INF) as [E|E].
  { rewrite decide_False; [done|]. tauto. }
  destruct (Z.ltb_spec (clamp_upper_bound c) (get d x y)) as [Hlt|Hge].
  - unfold get, get_idx. simpl. erewrite cell_set by eauto.
    destruct (Nat.eqb_spec (idx x') (idx x)) as [Ex|Ex], (Nat.eqb_spec (idx y') (idx y)) as [Ey|Ey]; simpl;
      try (apply idx_inj in Ex as ->); try (apply idx_inj in Ey as ->).
    + rewrite decide_True by done. fold (get_idx d (idx x) (idx y)) (get d x y). lia.
    + rewrite decide_False; [done|]. intros (_ & -> & _). done.
    + rewrite decide_False; [done|]. intros (-> & _). done.
    + rewrite decide_False; [done|]. intros (-> & _). done.
  - case_decide as Hc; [|done]. destruct Hc as (-> & -> & _). lia.
Qed.

Lemma holds_add_constraint d x y c v : dbm_wf d ->
  v x - v y <= c -> holds d v -> holds (add_constraint d x y c) v.
Proof.
  intros Hd Hc [H0 Hr Hb]. constructor; [done| |].
  - intros x' y'. rewrite get_add_constraint by done. case_decide as Hd'; [|apply Hr].
    destruct Hd' as (-> & -> & Hne). specialize (Hr x y). pose proof (clamp_upper_sound c (v x - v y) Hc).
    intros. unfold clamp_upper_bound in *. revert H Hne H1. zcases; zlia.
  - intros x'. unfold add_constraint. repeat case_match; apply Hb.
Qed.

(** Adding a constraint never adds valuations. *)
Lemma add_constraint_holds d x y c v : dbm_wf d -> holds (add_constraint d x y c) v -> holds d v.
Proof.
  intros Hd [H0 Hr Hb]. constructor; [done| |].
  - intros x' y' Hlt. specialize (Hr x' y'). rewrite get_add_constraint in Hr by done.
    case_decide as Hd'; [|by apply Hr]. destruct Hd' as (-> & -> & Hne). lia.
  - intros x'. specialize (Hb x'). unfold add_constraint in Hb. revert Hb. repeat case_match; done.
Qed.

Lemma holds_set_bounds d x b v : dbm_wf d ->
  in_bounds b (v x) -> holds d v -> holds (set_bounds d x b) v.
Proof.
  intros Hd Hx [H0 Hr Hb]. constructor; [done|done|]. intros y. rewrite get_bounds_set by done.
  case_decide; subst; auto.
Qed.

Lemma set_bounds_holds d x b v : dbm_wf d ->
  narrower b (get_bounds d x) -> holds (set_bounds d x b) v -> holds d v.
Proof.
  intros Hd Hn [H0 Hr Hb]. constructor; [done|done|]. intros y. specialize (Hb y).
  rewrite get_bounds_set in Hb by done. case_decide; subst; auto.
Qed.

Lemma wrapping_neg_le x e : in_s 64 e -> in_s 64 x -> - x <= e -> wrapping_neg e <= x.
Proof.
  rewrite !in_s64_iff. intros He Hx Hle. unfold wrapping_neg.
  destruct (decide (e = i64_MIN)) as [->|]; [|rewrite s64_small; zlia].
  change (s64 (- i64_MIN)) with i64_MIN. zlia.
Qed.

Lemma wrapping_neg_exact c : i64_MIN < c <= i64_MAX -> wrapping_neg c = - c.
Proof. intros. unfold wrapping_neg. apply s64_small. zlia. Qed.

Lemma synced_sound d x v : dbm_wf d -> holds d v -> in_bounds (synced d x) (v x).
Proof.
  intros Hd Hv. pose proof (wf_bounds d Hd x) as Hw. pose proof (import_dbm_wf d x _ Hd Hw).
  apply sync_32_to_64_sound; [by apply sync_64_to_32_wf, sync_s32_u32_wf, sync_s64_u64_wf|].
  apply sync_64_to_32_sound; [by apply sync_s32_u32_wf, sync_s64_u64_wf|].
  apply sync_s32_u32_sound; [by apply sync_s64_u64_wf|]. apply sync_s64_u64_sound; [done|].
  pose proof (holds_bounds d v Hv x) as Hx. pose proof (holds_zero d v Hv) as H0.
  pose proof (holds_rel d v Hv x Zero) as Hub. pose proof (holds_rel d v Hv Zero x) as Hlb.
  rewrite H0 in Hub, Hlb. pose proof (wrapping_neg_le (v x) (get d Zero x)) as Hn.
  specialize (Hn (wf_get d Zero x Hd) (holds_s64 d v x Hd Hv)).
  unfold import_dbm, in_bounds in *.
  destruct (Z.ltb_spec (get d x Zero) INF), (Z.ltb_spec (get d Zero x) INF); simpl; split_and!; lia.
Qed.

Lemma holds_export_bounds d x b v :
  dbm_wf d -> real x = true -> bounds_wf b -> narrower b (get_bounds d x) -> (holds d v -> in_bounds b (v x)) ->
  holds (export_bounds d x b) v <-> holds d v.
Proof.
  intros Hd Hx Hw Hnar Hin. pose proof (bounds_wf_lits _ Hw) as Hl.
  assert (dbm_wf (set_bounds d x b)) as Hsd by auto using wf_set_bounds.
  unfold export_bounds. split.
  - intros Hv. apply (set_bounds_holds d x b); [done|done|].
    revert Hv. repeat case_match; intros; eauto 10 using add_constraint_holds, wf_add_constraint.
  - intros Hv. specialize (Hin Hv). pose proof (holds_zero d v Hv) as H0. destruct (Hin) as [Hs _].
    assert (holds (set_bounds d x b) v) as Hv1 by by apply holds_set_bounds.
    assert (holds (if s64_max b <? i64_MAX then add_constraint (set_bounds d x b) x Zero (s64_max b)
                   else set_bounds d x b) v) as Hv2.
    { case_match; [|done]. apply holds_add_constraint; [done|lia|done]. }
    destruct (Z.ltb_spec i64_MIN (s64_min b)); [|done].
    apply holds_add_constraint; [|rewrite wrapping_neg_exact; lia|done].
    case_match; auto using wf_add_constraint.
Qed.

Lemma holds_sync_bounds d x v : dbm_wf d -> holds (sync_bounds d x) v <-> holds d v.
Proof.
  intros Hd. destruct (real x) eqn:Hx; [|by rewrite sync_bounds_skip].
  rewrite sync_bounds_unfold by done. apply holds_export_bounds.
  - exact Hd.
  - exact Hx.
  - exact (synced_wf d x Hd).
  - exact (synced_narrower d x).
  - exact (synced_sound d x v Hd).
Qed.

(** * Forgetting *)

Definition upd (v : Reg -> Z) (x : Reg) (z : Z) (y : Reg) : Z := if decide (y = x) then z else v y.

Lemma upd_eq v x z : upd v x z x = z.
Proof. unfold upd. by rewrite decide_True. Qed.
Lemma upd_ne v x z y : y <> x -> upd v x z y = v y.
Proof. intros. unfold upd. by rewrite decide_False. Qed.

(** A loop that writes one cell of a row or column per round. *)
Lemma write_row n m i (f : nat -> Z) :
  square n m -> (i < n)%nat ->
  let m' := for_range n (fun j m => set_cell m i j (f j)) m in
  square n m' /\ forall i' j', (i' < n)%nat -> (j' < n)%nat ->
    cell m' i' j' = if (i' =? i)%nat then f j' else cell m i' j'.
Proof.
  intros Hsq Hi. simpl.
  assert (forall k, (k <= n)%nat ->
    let m' := for_range k (fun j m => set_cell m i j (f j)) m in
    square n m' /\ forall i' j', (i' < n)%nat -> (j' < n)%nat ->
    cell m' i' j' = if ((i' =? i) && (j' <? k))%nat then f j' else cell m i' j') as H.
  { intros k Hk. simpl. apply (for_range_ind (fun k m' => square n m' /\ forall i' j', (i' < n)%nat -> (j' < n)%nat ->
      cell m' i' j' = if ((i' =? i) && (j' <? k))%nat then f j' else cell m i' j')).
    - split; [done|]. intros. by destruct (i' =? i)%nat.
    - intros j m' Hj [Hsq' Hc]. split; [by apply square_set|]. intros i' j' Hi' Hj'.
      erewrite cell_set by (done || lia). rewrite Hc by done.
      destruct (Nat.eqb_spec i' i), (Nat.eqb_spec j' j), (Nat.ltb_spec j' j), (Nat.ltb_spec j' (S j));
        simpl; subst; try lia; done. }
  destruct (H n) as [Hsq' Hc]; [lia|]. split; [done|]. intros i' j' Hi' Hj'. rewrite Hc by done.
  destruct (Nat.eqb_spec i' i), (Nat.ltb_spec j' n); simpl; try lia; done.
Qed.

Lemma write_col n m j (f : nat -> Z) :
  square n m -> (j < n)%nat ->
  let m' := for_range n (fun i m => set_cell m i j (f i)) m in
  square n m' /\ forall i' j', (i' < n)%nat -> (j' < n)%nat ->
    cell m' i' j' = if (j' =? j)%nat then f i' else cell m i' j'.
Proof.
  intros Hsq Hj. simpl.
  assert (forall k, (k <= n)%nat ->
    let m' := for_range k (fun i m => set_cell m i j (f i)) m in
    square n m' /\ forall i' j', (i' < n)%nat -> (j' < n)%nat ->
    cell m' i' j' = if ((j' =? j) && (i' <? k))%nat then f i' else cell m i' j') as H.
  { intros k Hk. simpl. apply (for_range_ind (fun k m' => square n m' /\ forall i' j', (i' < n)%nat -> (j' < n)%nat ->
      cell m' i' j' = if ((j' =? j) && (i' <? k))%nat then f i' else cell m i' j')).
    - split; [done|]. intros. by destruct (j' =? j)%nat.
    - intros i m' Hi [Hsq' Hc]. split; [by apply square_set|]. intros i' j' Hi' Hj'.
      erewrite cell_set by (done || lia). rewrite Hc by done.
      destruct (Nat.eqb_spec i' i), (Nat.eqb_spec j' j), (Nat.ltb_spec i' i), (Nat.ltb_spec i' (S i));
        simpl; subst; try lia; done. }
  destruct (H n) as [Hsq' Hc]; [lia|]. split; [done|]. intros i' j' Hi' Hj'. rewrite Hc by done.
  destruct (Nat.eqb_spec j' j), (Nat.ltb_spec i' n); simpl; try lia; done.
Qed.

Lemma get_forget_var d x y z : dbm_wf d ->
  get (forget_var d x) y z =
    if decide (y = x \/ z = x) then (if decide (y = z) then 0 else INF) else get d y z.
Proof.
  intros Hd. unfold get, get_idx, forget_var. simpl. rewrite wf_num_vars by done.
  destruct (write_row DBM_DIM (data d) (idx x) (fun j => if (idx x =? j)%nat then 0 else INF)) as [Hsq Hrow]; auto.
  destruct (write_col DBM_DIM _ (idx x) (fun k => if (k =? idx x)%nat then 0 else INF) Hsq) as [_ Hcol]; auto.
  rewrite Hcol, Hrow by auto.
  destruct (Nat.eqb_spec (idx z) (idx x)) as [Ez|Ez], (Nat.eqb_spec (idx y) (idx x)) as [Ey|Ey];
    try (apply idx_inj in Ez as ->); try (apply idx_inj in Ey as ->).
  - by rewrite decide_True, decide_True by auto.
  - rewrite decide_True, decide_False; [done| |auto]. by intros ->.
  - rewrite decide_True, decide_False; [| |auto]; [|by intros ->].
    destruct (Nat.eqb_spec (idx x) (idx z)); [congruence|done].
  - rewrite decide_False; [done|]. intros [-> | ->]; done.
Qed.

Lemma in_bounds_unknown x : in_s 64 x -> in_bounds unknown x.
Proof.
  rewrite in_s64_iff. intros Hx. pose proof (uwrap_range 64 x ltac:(done)). pose proof (uwrap_range 32 x ltac:(done)).
  pose proof (swrap_range 32 x ltac:(done)). unfold in_bounds, in_u, in_s in *. simpl.
  change (2 ^ (32 - 1)) with 2147483648 in *. change (2 ^ 64) with 18446744073709551616 in *.
  change (2 ^ 32) with 4294967296 in *. zlia.
Qed.

Lemma get_bounds_forget_var d x y : dbm_wf d ->
  get_bounds (forget_var d x) y = if decide (x = y) then unknown else get_bounds d y.
Proof. intros Hd. apply (get_bounds_set d x y unknown Hd). Qed.

(** Forgetting a variable frees exactly its value. *)
Lemma holds_forget_var d x v z : dbm_wf d -> x <> Zero -> in_s 64 z -> holds d v -> holds (forget_var d x) (upd v x z).
Proof.
  intros Hd Hx Hz [H0 Hr Hb]. constructor.
  - by rewrite upd_ne.
  - intros y w. rewrite get_forget_var by done. case_decide as Hc.
    + case_decide; [subst; lia|zlia].
    + rewrite !upd_ne by naive_solver. apply Hr.
  - intros y. rewrite get_bounds_forget_var by done. unfold upd. repeat case_decide; subst; try done.
    by apply in_bounds_unknown.
Qed.

Lemma forget_var_holds d x v : dbm_wf d -> x <> Zero -> holds (forget_var d x) v ->
  (forall y z, y <> x -> z <> x -> get d y z < INF -> v y - v z <= get d y z) /\
  (forall y, y <> x -> in_bounds (get_bounds d y) (v y)).
Proof.
  intros Hd Hx [H0 Hr Hb]. split.
  - intros y z Hy Hz. specialize (Hr y z). rewrite get_forget_var, decide_False in Hr by naive_solver. done.
  - intros y Hy. specialize (Hb y). by rewrite get_bounds_forget_var, decide_False in Hb by naive_solver.
Qed.

(** * Shifts

    [add_imm], [apply_add_reg] and [apply_sub_reg] rewrite the row and the column of the
    destination cell by cell.  While they run, the cells in [moved] bound differences of the new
    valuation [w] and the others differences of the old one [v]; the diagonal is rewritten last. *)

Definition between (t : Reg) (v w : Reg -> Z) (moved : nat -> nat -> bool) (d : Dbm) : Prop :=
  forall x y, ~ (x = t /\ y = t) -> get d x y < INF ->
    (if moved (idx x) (idx y) then w x - w y else v x - v y) <= get d x y.

Lemma get_set_idx d i j c x y : dbm_wf d -> (i < DBM_DIM)%nat -> (j < DBM_DIM)%nat ->
  get (set_idx d i j c) x y = if ((idx x =? i) && (idx y =? j))%nat then c else get d x y.
Proof. intros Hd Hi Hj. unfold get, get_idx, set_idx. simpl. by erewrite cell_set by eauto. Qed.

Lemma shift_cell_between t v w moved moved' d a b g :
  dbm_wf d -> (forall e, in_s 64 (g e)) -> (~ (a = t /\ b = t) -> moved (idx a) (idx b) = false) ->
  (forall e, v a - v b <= e -> e < INF -> g e < INF -> ~ (a = t /\ b = t) -> w a - w b <= g e) ->
  (forall i j, moved' i j = moved i j || ((i =? idx a) && (j =? idx b))%nat) ->
  between t v w moved d ->
  let d' := shift_cell d (idx a) (idx b) g in
  dbm_wf d' /\ bounds d' = bounds d /\ between t v w moved' d'.
Proof.
  intros Hd Hg Hm Hab Hm' Hbt. simpl. unfold shift_cell.
  destruct (Z.ltb_spec (get_idx d (idx a) (idx b)) INF) as [Hlt|Hge].
  - split_and!; [by apply wf_set_idx|done|]. intros x y Hxy. rewrite get_set_idx, Hm' by auto.
    specialize (Hbt x y Hxy).
    destruct (Nat.eqb_spec (idx x) (idx a)) as [Ex|], (Nat.eqb_spec (idx y) (idx b)) as [Ey|]; simpl;
      rewrite ?orb_false_r; try done.
    apply idx_inj in Ex as ->. apply idx_inj in Ey as ->. rewrite orb_true_r.
    rewrite Hm in Hbt by done. intros. apply Hab; auto.
  - split_and!; [done|done|]. intros x y Hxy Hlt. rewrite Hm'. specialize (Hbt x y Hxy Hlt).
    destruct (Nat.eqb_spec (idx x) (idx a)) as [Ex|], (Nat.eqb_spec (idx y) (idx b)) as [Ey|]; simpl;
      rewrite ?orb_false_r; try done.
    apply idx_inj in Ex as ->. apply idx_inj in Ey as ->. unfold get in Hlt. lia.
Qed.

(** A pass over a row: after it the whole row has moved. *)
Lemma shift_pass t v w moved d body :
  dbm_wf d -> between t v w (moved O) d ->
  (forall k d', (k < DBM_DIM)%nat -> dbm_wf d' -> between t v w (moved k) d' ->
     let d'' := body k d' in dbm_wf d'' /\ bounds d'' = bounds d' /\ between t v w (moved (S k)) d'') ->
  let d' := for_range DBM_DIM body d in
  dbm_wf d' /\ bounds d' = bounds d /\ between t v w (moved DBM_DIM) d'.
Proof.
  intros Hd H0 HS. simpl.
  apply (for_range_ind (fun k d' => dbm_wf d' /\ bounds d' = bounds d /\ between t v w (moved k) d')); [done|].
  intros k d' Hk (Hd' & Hb & Hbt). destruct (HS k d' Hk Hd' Hbt) as (? & E & ?). split_and!; [done|congruence|done].
Qed.

(** Resetting the diagonal of the shifted variable ends the shift. *)
Lemma shift_end v x z moved d b :
  dbm_wf d -> x <> Zero -> v Zero = 0 -> real x = true -> bounds_wf b ->
  (forall y, y <> x -> in_bounds (get_bounds d y) (v y)) -> in_bounds b z ->
  get d x x = 0 ->
  (forall y, moved (idx x) (idx y) = true /\ moved (idx y) (idx x) = true) ->
  between x v (upd v x z) moved d -> holds (set_bounds d x b) (upd v x z).
Proof.
  intros Hd Hx H0 Hreal Hbw Hbs Hz Hxx Hm Hbt. constructor.
  - by rewrite upd_ne.
  - intros y w Hlt. change (get (set_bounds d x b) y w) with (get d y w) in *.
    destruct (decide (y = x /\ w = x)) as [[-> ->]|Hne]; [lia|]. specialize (Hbt y w Hne Hlt).
    destruct (moved (idx y) (idx w)) eqn:E; [done|].
    assert (y <> x) by (intros ->; destruct (Hm w); congruence).
    assert (w <> x) by (intros ->; destruct (Hm y); congruence). by rewrite !upd_ne.
  - intros y. rewrite get_bounds_set by done. case_decide; subst; [by rewrite upd_eq|].
    rewrite upd_ne by congruence. apply Hbs. congruence.
Qed.

Lemma saturate_add_sound q e c : q <= e -> saturating_add e c < INF -> q + c <= saturating_add e c.
Proof. unfold saturating_add, saturate. zcases; zlia. Qed.

Lemma saturate_sub_sound q e c : q <= e -> saturating_sub e c < INF -> q - c <= saturating_sub e c.
Proof. unfold saturating_sub, saturate. zcases; zlia. Qed.

Lemma between_start t v w d : holds d v -> between t v w (fun _ _ => false) d.
Proof. intros Hv x y _. apply Hv. Qed.

Lemma between_ext t v w moved moved' d :
  (forall x y, ~ (x = t /\ y = t) -> moved' (idx x) (idx y) = moved (idx x) (idx y)) ->
  between t v w moved d -> between t v w moved' d.
Proof. intros H Hb x y Hxy. rewrite H by done. by apply Hb. Qed.

Ltac natcases :=
  repeat match goal with
  | |- context [(?a <? ?b)%nat] => destruct (Nat.ltb_spec a b)
  | |- context [(?a =? ?b)%nat] => destruct (Nat.eqb_spec a b)
  end; simpl; try lia; try reflexivity.

Section Shift.
Context (t : Reg) (v w : Reg -> Z) (g1 g2 : Z -> Z).
Context (Hg1 : forall e, in_s 64 (g1 e)) (Hg2 : forall e, in_s 64 (g2 e)).
(** The updates of the row and of the column of [t] follow the move from [v] to [w]. *)
Context (Hrow : forall y e, y <> t -> v t - v y <= e -> e < INF -> g1 e < INF -> w t - w y <= g1 e).
Context (Hcol : forall y e, y <> t -> v y - v t <= e -> e < INF -> g2 e < INF -> w y - w t <= g2 e).

Definition row_moved (k i j : nat) : bool := ((i =? idx t) && (j <? k))%nat.
Definition col_moved (k i j : nat) : bool := row_moved DBM_DIM i j || ((j =? idx t) && (i <? k))%nat.
Definition both_moved (k i j : nat) : bool := row_moved k i j || ((j =? idx t) && (i <? k))%nat.

(** Row first, then column ([add_imm]). *)
Lemma shift_row_col d :
  dbm_wf d -> holds d v ->
  let d1 := for_range DBM_DIM (fun k d => shift_cell d (idx t) k g1) d in
  let d2 := for_range DBM_DIM (fun k d => shift_cell d k (idx t) g2) d1 in
  dbm_wf d2 /\ bounds d2 = bounds d /\ between t v w (col_moved DBM_DIM) d2.
Proof.
  intros Hd Hv d1 d2.
  assert (dbm_wf d1 /\ bounds d1 = bounds d /\ between t v w (row_moved DBM_DIM) d1) as (Hd1 & Hb1 & Hbt1).
  { apply shift_pass; [done| |].
    - eapply between_ext, between_start, Hv. intros. unfold row_moved. natcases.
    - intros k d' Hk Hd' Hbt. destruct (idx_of_lt k Hk) as [y ->].
      apply (shift_cell_between t v w (row_moved (idx y))); try done.
      + intros _. unfold row_moved. natcases.
      + intros e ????. apply Hrow; try done. intros ->; tauto.
      + intros i j. unfold row_moved. natcases. }
  assert (dbm_wf d2 /\ bounds d2 = bounds d1 /\ between t v w (col_moved DBM_DIM) d2) as (Hd2 & Hb2 & Hbt2).
  { apply shift_pass; [done| |].
    - eapply between_ext, Hbt1. intros. unfold col_moved, row_moved. natcases.
    - intros k d' Hk Hd' Hbt. destruct (idx_of_lt k Hk) as [y ->].
      apply (shift_cell_between t v w (col_moved (idx y))); try done.
      + intros Hne. assert (idx y <> idx t) by (intros E; apply idx_inj in E; subst; tauto).
        unfold col_moved, row_moved. natcases.
      + intros e ????. apply Hcol; try done. intros ->; tauto.
      + intros i j. unfold col_moved, row_moved. natcases. }
  split_and!; [done|congruence|done].
Qed.

(** Row and column in one pass ([apply_add_reg], [apply_sub_reg]). *)
Lemma shift_both d :
  dbm_wf d -> holds d v ->
  let d1 := for_range DBM_DIM (fun k d =>
              if (k =? idx t)%nat then d else shift_cell (shift_cell d (idx t) k g1) k (idx t) g2) d in
  dbm_wf d1 /\ bounds d1 = bounds d /\ between t v w (both_moved DBM_DIM) d1.
Proof.
  intros Hd Hv d1. apply shift_pass; [done| |].
  - eapply between_ext, between_start, Hv. intros. unfold both_moved, row_moved. natcases.
  - intros k d' Hk Hd' Hbt. destruct (idx_of_lt k Hk) as [y ->].
    destruct (Nat.eqb_spec (idx y) (idx t)) as [E|Hne].
    { split_and!; try done. eapply between_ext, Hbt. intros a b Hab. apply idx_inj in E as ->.
      assert (idx a <> idx t \/ idx b <> idx t).
      { destruct (decide (idx a = idx t)) as [E|]; [|auto]. right. intros E'.
        apply idx_inj in E, E'. tauto. }
      unfold both_moved, row_moved. natcases. }
    assert (y <> t) as Hyt by (intros ->; done).
    destruct (shift_cell_between t v w (both_moved (idx y))
      (fun i j => both_moved (idx y) i j || ((i =? idx t) && (j =? idx y))%nat) d' t y g1) as (Hd1 & Hb1 & Hbt1); try done.
    { intros _. unfold both_moved, row_moved. natcases. }
    { intros e ????. by apply Hrow. }
    destruct (shift_cell_between t v w
      (fun i j => both_moved (idx y) i j || ((i =? idx t) && (j =? idx y))%nat) (both_moved (S (idx y)))
      (shift_cell d' (idx t) (idx y) g1) y t g2) as (Hd2 & Hb2 & Hbt2); try done.
    { intros _. unfold both_moved, row_moved. natcases. }
    { intros e ????. by apply Hcol. }
    { intros i j. unfold both_moved, row_moved. natcases. }
    split_and!; [done|congruence|done].
Qed.

Lemma col_moved_all y : col_moved DBM_DIM (idx t) (idx y) = true /\ col_moved DBM_DIM (idx y) (idx t) = true.
Proof. pose proof (idx_lt y). pose proof (idx_lt t). unfold col_moved, row_moved. split; natcases. Qed.

Lemma both_moved_all y : both_moved DBM_DIM (idx t) (idx y) = true /\ both_moved DBM_DIM (idx y) (idx t) = true.
Proof. pose proof (idx_lt y). pose proof (idx_lt t). unfold both_moved, row_moved. split; natcases. Qed.

End Shift.

Lemma real_not_zero x : real x = true -> x <> Zero.
Proof. by destruct x. Qed.

#[local] Hint Resolve real_not_zero : core.

Lemma shift_bounds_wf b lo hi : bounds_wf (shift_bounds b lo hi).
Proof. unfold bounds_wf, shift_bounds. simpl. split_and!; try done; apply saturate_range. Qed.
Lemma sub_bounds_wf b lo hi : bounds_wf (sub_bounds b lo hi).
Proof. unfold bounds_wf, sub_bounds. simpl. split_and!; try done; apply saturate_range. Qed.

Lemma shift_bounds_sound b lo hi z s :
  in_bounds b z -> lo <= s <= hi -> in_s 64 (z + s) -> in_bounds (shift_bounds b lo hi) (z + s).
Proof.
  intros ([? ?] & _) Hs Hz. destruct (in_bounds_unknown (z + s) Hz) as (? & ? & ? & ?).
  apply in_s64_iff in Hz. split_and!; simpl in *; try lia; unfold saturating_add, saturate; zcases; zlia.
Qed.

Lemma sub_bounds_sound b lo hi z s :
  in_bounds b z -> lo <= s <= hi -> in_s 64 (z - s) -> in_bounds (sub_bounds b lo hi) (z - s).
Proof.
  intros ([? ?] & _) Hs Hz. destruct (in_bounds_unknown (z - s) Hz) as (? & ? & ? & ?).
  apply in_s64_iff in Hz. split_and!; simpl in *; try lia; unfold saturating_sub, saturate; zcases; zlia.
Qed.

Lemma get_interval_sound d x v : dbm_wf d -> holds d v ->
  (get_interval d x).1 <= v x <= (get_interval d x).2.
Proof.
  intros Hd Hv. pose proof (holds_s64 d v x Hd Hv) as Hs. pose proof (wf_get d Zero x Hd) as He.
  pose proof (holds_rel d v Hv x Zero) as Hub. pose proof (holds_rel d v Hv Zero x) as Hlb.
  rewrite (holds_zero d v Hv) in Hub, Hlb. pose proof (wrapping_neg_le (v x) _ He Hs) as Hn.
  apply in_s64_iff in Hs. unfold get_interval. simpl. zcases; lia.
Qed.

Lemma wf_for_range d body n :
  dbm_wf d -> (forall k d, (k < n)%nat -> dbm_wf d -> dbm_wf (body k d)) -> dbm_wf (for_range n body d).
Proof. intros. by apply for_range_inv. Qed.

Lemma wf_shift_cell d i j g :
  dbm_wf d -> (i < DBM_DIM)%nat -> (j < DBM_DIM)%nat -> (forall e, in_s 64 (g e)) -> dbm_wf (shift_cell d i j g).
Proof. intros. unfold shift_cell. case_match; [by apply wf_set_idx|done]. Qed.

Lemma wf_add_imm d x c : dbm_wf d -> real x = true -> dbm_wf (add_imm d x c).
Proof.
  intros Hd Hx. unfold add_imm. rewrite wf_num_vars by done.
  apply wf_close, wf_set_bounds; [|done|apply shift_bounds_wf].
  apply wf_set_idx; auto; [|done]. apply wf_for_range; [apply wf_for_range; [done|]|]; intros k d' Hk Hd';
    apply wf_shift_cell; auto; intros; apply saturate_range.
Qed.

Lemma set_idx_diag d x : dbm_wf d -> get (set_idx d (idx x) (idx x) 0) x x = 0.
Proof. intros Hd. rewrite get_set_idx by auto. by rewrite !Nat.eqb_refl. Qed.

Lemma between_diag t v w moved d : dbm_wf d ->
  between t v w moved d -> between t v w moved (set_idx d (idx t) (idx t) 0).
Proof.
  intros Hd H x y Hxy. rewrite get_set_idx by auto.
  destruct (Nat.eqb_spec (idx x) (idx t)) as [Ex|], (Nat.eqb_spec (idx y) (idx t)) as [Ey|]; simpl;
    try (by apply H). apply idx_inj in Ex, Ey. tauto.
Qed.

(** The end of the three shifts: zero diagonal, new ranges. *)
Lemma shift_finish d d0 x v z moved b :
  dbm_wf d -> real x = true -> bounds_wf b -> in_bounds b z -> holds d v ->
  (forall y, moved (idx x) (idx y) = true /\ moved (idx y) (idx x) = true) ->
  dbm_wf d0 /\ bounds d0 = bounds d /\ between x v (upd v x z) moved d0 ->
  holds (set_bounds (set_idx d0 (idx x) (idx x) 0) x b) (upd v x z).
Proof.
  intros Hd Hx Hbw Hb Hv Hm (Hd0 & Hbs & Hbt). eapply shift_end; try done; auto.
  - apply wf_set_idx; auto; done.
  - apply Hv.
  - intros y Hy. change (get_bounds (set_idx d0 (idx x) (idx x) 0) y) with (get_bounds d0 y).
    unfold get_bounds. rewrite Hbs. apply Hv.
  - by apply set_idx_diag.
  - by apply between_diag.
Qed.

Lemma bounds_same d d0 x v : bounds d0 = bounds d -> holds d v -> in_bounds (bounds d0 !!! idx x) (v x).
Proof. intros -> Hv. apply (holds_bounds d v Hv). Qed.

Lemma holds_add_imm d x c v :
  dbm_wf d -> real x = true -> in_s 64 (v x + c) -> holds d v -> holds (add_imm d x c) (upd v x (v x + c)).
Proof.
  intros Hd Hx Hs Hv. unfold add_imm. rewrite wf_num_vars by done.
  pose proof (shift_row_col x v (upd v x (v x + c)) (fun e => saturating_add e c) (fun e => saturating_sub e c)) as H.
  destruct (H (fun _ => saturate_range _) (fun _ => saturate_range _)) with (d := d) as (Hd2 & Hb2 & Hbt2); try done.
  { intros y e Hy ???. rewrite upd_eq, upd_ne by done.
    replace (v x + c - v y) with (v x - v y + c) by lia. by apply saturate_add_sound. }
  { intros y e Hy ???. rewrite upd_eq, upd_ne by done.
    replace (v y - (v x + c)) with (v y - v x - c) by lia. by apply saturate_sub_sound. }
  match type of Hd2 with dbm_wf ?d0 => set (d2 := d0) in * end.
  apply holds_close.
  { apply wf_set_bounds; [|done|apply shift_bounds_wf]. apply wf_set_idx; auto; done. }
  apply (shift_finish d d2 x v (v x + c) (col_moved x DBM_DIM)); auto using shift_bounds_wf, col_moved_all.
  apply shift_bounds_sound; [|lia|done]. exact (bounds_same d d2 x v Hb2 Hv).
Qed.

Lemma wf_stamp d i : dbm_wf d -> dbm_wf (stamp_provenance_for_var d i).
Proof.
  intros Hd. apply wf_update_data; [done|apply Hd|].
  apply for_range_inv; [apply Hd|]. intros j p Hj Hp. repeat case_match; auto using tracker_wf_set.
Qed.

(** The origins of the entries do not matter. *)
Lemma holds_ext d d' v : data d = data d' -> bounds d = bounds d' -> holds d v -> holds d' v.
Proof.
  destruct d as [m b p], d' as [m' b' p']. simpl. intros -> -> [? ? ?]. by constructor.
Qed.

(** * Refinements and assignments *)

Lemma holds_assume_le_imm d x c v : dbm_wf d -> holds d v -> v x <= c -> holds (assume_le_imm d x c) v.
Proof.
  intros Hd Hv Hc. unfold assume_le_imm. destruct (_ || _); [done|].
  apply holds_sync_bounds; [by apply wf_close, wf_add_constraint|].
  apply holds_close; [by apply wf_add_constraint|]. apply holds_add_constraint; [done| |done].
  rewrite (holds_zero d v Hv). lia.
Qed.

Lemma holds_assume_ge_imm d x c v :
  dbm_wf d -> in_s 64 c -> holds d v -> c <= v x -> holds (assume_ge_imm d x c) v.
Proof.
  rewrite in_s64_iff. intros Hd Hs Hv Hc. unfold assume_ge_imm. destruct (Z.eqb_spec c i64_MIN); [done|].
  apply holds_sync_bounds; [by apply wf_close, wf_add_constraint|].
  apply holds_close; [by apply wf_add_constraint|]. apply holds_add_constraint; [done| |done].
  rewrite (holds_zero d v Hv), wrapping_neg_exact; lia.
Qed.

Lemma wf_assume_le_imm d x c : dbm_wf d -> dbm_wf (assume_le_imm d x c).
Proof. intros. unfold assume_le_imm. case_match; auto using wf_sync_bounds, wf_close, wf_add_constraint. Qed.
Lemma wf_assume_ge_imm d x c : dbm_wf d -> dbm_wf (assume_ge_imm d x c).
Proof. intros. unfold assume_ge_imm. case_match; auto using wf_sync_bounds, wf_close, wf_add_constraint. Qed.

Create HintDb zone_wf.
#[export] Hint Resolve wf_close wf_add_constraint wf_forget_var wf_sync_bounds wf_assume_le_imm
  wf_assume_ge_imm wf_add_imm wf_new : zone_wf.

Ltac zone_wf := repeat case_match; auto 12 with zone_wf.

(** The state is narrowed by an optional bound on each side, as after a multiplication. *)
Lemma holds_assume_opt d x (p q : bool) lo hi v :
  dbm_wf d -> holds d v -> in_s 64 lo ->
  (p = true -> lo <= v x) -> (q = true -> v x <= hi) ->
  let d1 := if p then assume_ge_imm d x lo else d in
  holds (close (if q then assume_le_imm d1 x hi else d1)) v.
Proof.
  intros Hd Hv Hlo Hp Hq. simpl. set (d1 := if p then _ else d).
  assert (dbm_wf d1 /\ holds d1 v) as [Hd1 Hv1].
  { unfold d1. destruct p; [|done]. split; [zone_wf|]. apply holds_assume_ge_imm; auto. }
  apply holds_close; [destruct q; zone_wf|]. destruct q; [|done]. apply holds_assume_le_imm; auto.
Qed.

Lemma saturate_le a z : a <= z -> z <= i64_MAX -> saturate a <= z \/ i64_MIN = saturate a.
Proof. unfold saturate. zcases; zlia. Qed.

(** A saturated bound still bounds a value of the type. *)
Lemma saturate_lower a z : a <= z -> in_s 64 z -> saturate a <= z.
Proof. rewrite in_s64_iff. unfold saturate. zcases; zlia. Qed.
Lemma saturate_upper a z : z <= a -> in_s 64 z -> z <= saturate a.
Proof. rewrite in_s64_iff. unfold saturate. zcases; zlia. Qed.

Lemma holds_apply_add_reg d x y v :
  dbm_wf d -> real x = true -> in_s 64 (v x + v y) -> holds d v ->
  holds (apply_add_reg d x y) (upd v x (v x + v y)).
Proof.
  intros Hd Hx Hs Hv. unfold apply_add_reg. pose proof (get_interval_sound d y v Hd Hv) as Hy.
  destruct (get_interval d y) as [lo hi]. simpl in Hy. destruct (_ && _) eqn:Hfin.
  - rewrite wf_num_vars by done.
    pose proof (shift_both x v (upd v x (v x + v y)) (fun e => clamped_add e hi) (fun e => saturating_sub e lo)
      (fun _ => clamped_add_range _ _) (fun _ => saturate_range _)) as H.
    destruct H with (d := d) as (Hd2 & Hb2 & Hbt2); try done.
    { intros z e Hz ???. rewrite upd_eq, upd_ne by done.
      replace (v x + v y - v z) with ((v x - v z) + v y) by lia. apply clamped_add_sound; (lia || done). }
    { intros z e Hz ???. rewrite upd_eq, upd_ne by done.
      transitivity (v z - v x - lo); [lia|]. by apply saturate_sub_sound. }
    match type of Hd2 with dbm_wf ?d0 => set (d2 := d0) in * end.
    assert (dbm_wf (set_idx d2 (idx x) (idx x) 0)) by (apply wf_set_idx; auto; done).
    apply holds_close.
    { apply wf_set_bounds; [by apply wf_stamp|done|apply shift_bounds_wf]. }
    set (b := shift_bounds _ lo hi). apply (holds_ext (set_bounds (set_idx d2 (idx x) (idx x) 0) x b)); [done|done|].
    apply (shift_finish d d2 x v (v x + v y) (both_moved x DBM_DIM));
      [done|done|apply shift_bounds_wf| |done|apply both_moved_all|done].
    apply shift_bounds_sound; [|lia|done]. exact (bounds_same d d2 x v Hb2 Hv).
  - pose proof (get_interval_sound d x v Hd Hv) as Hxi. destruct (get_interval d x) as [xlo xhi]. simpl in Hxi.
    apply holds_assume_opt; [by apply wf_forget_var|by apply holds_forget_var; auto|apply saturate_range| |];
      intros; rewrite upd_eq; [apply saturate_lower|apply saturate_upper]; (lia || done).
Qed.

Lemma holds_apply_sub_reg d x y v :
  dbm_wf d -> real x = true -> in_s 64 (v x - v y) -> holds d v ->
  holds (apply_sub_reg d x y) (upd v x (v x - v y)).
Proof.
  intros Hd Hx Hs Hv. unfold apply_sub_reg. pose proof (get_interval_sound d y v Hd Hv) as Hy.
  destruct (get_interval d y) as [lo hi]. simpl in Hy. destruct (_ && _) eqn:Hfin.
  - rewrite wf_num_vars by done.
    pose proof (shift_both x v (upd v x (v x - v y)) (fun e => saturating_sub e lo) (fun e => clamped_add e hi)
      (fun _ => saturate_range _) (fun _ => clamped_add_range _ _)) as H.
    destruct H with (d := d) as (Hd2 & Hb2 & Hbt2); try done.
    { intros z e Hz ???. rewrite upd_eq, upd_ne by done.
      transitivity (v x - v z - lo); [lia|]. by apply saturate_sub_sound. }
    { intros z e Hz ???. rewrite upd_eq, upd_ne by done.
      replace (v z - (v x - v y)) with ((v z - v x) + v y) by lia. apply clamped_add_sound; (lia || done). }
    match type of Hd2 with dbm_wf ?d0 => set (d2 := d0) in * end.
    assert (dbm_wf (set_idx d2 (idx x) (idx x) 0)) by (apply wf_set_idx; auto; done).
    apply holds_close; [by apply wf_set_bounds; [|done|apply sub_bounds_wf]|].
    apply (shift_finish d d2 x v (v x - v y) (both_moved x DBM_DIM)); auto using sub_bounds_wf, both_moved_all.
    apply sub_bounds_sound; [|lia|done]. exact (bounds_same d d2 x v Hb2 Hv).
  - pose proof (get_interval_sound d x v Hd Hv) as Hxi. destruct (get_interval d x) as [xlo xhi]. simpl in Hxi.
    apply holds_assume_opt; [by apply wf_forget_var|by apply holds_forget_var; auto|apply saturate_range| |];
      intros; rewrite upd_eq; [apply saturate_lower|apply saturate_upper]; (lia || done).
Qed.
End ZoneSound.
