(* ===== verification/ZoneOps.v ===== *)
(** The operations of the zone domain as transfer functions: every operation of
    [src/domains/zone/ops.rs] that changes a state keeps the type invariant, and describes
    the effect of the instruction it stands for as long as the 64-bit operation does not wrap.  The
    other results are about the queries, the closure and the join-like operations. *)

From S2P Require Import Prelude Zone ZoneClose ZoneSound.
From Stdlib Require Import ZArith Lia.
From stdpp Require Import base numbers list.
Import Zone ZoneClose ZoneSound.
Open Scope Z_scope.

Module ZoneOps.

(** The calls the analysis makes. *)
Inductive zone_op : Type :=
| Forget (x : Reg) | AssignImm (x : Reg) (imm : Z) | AssignReg (x y : Reg)
| AssignRegOffset (dst src : Reg) (imm : Z) | AssignInterval (r : Reg) (min max : Z)
| IntersectEqReg (x y : Reg)
| AddImm (x : Reg) (imm : Z) | AddReg (dst src : Reg) | SubReg (dst src : Reg)
| AndImm (dst : Reg) (mask : Z) | MulImm (dst : Reg) (imm : Z) | DivImm (dst : Reg) (imm : Z)
| DivReg (dst src : Reg) | Neg (r : Reg)
| AssumeLe (x y : Reg) | AssumeGe (x y : Reg) | AssumeGt (x y : Reg) | AssumeLeOffset (x y : Reg) (c : Z)
| AssumeLeImm (x : Reg) (c : Z) | AssumeGeImm (x : Reg) (c : Z) | AssumeRange (x : Reg) (min max : Z)
| AssumeEqImm (x : Reg) (c : Z) | AssumeLtImm (x : Reg) (c : Z)
| InitAnchors | BindToAnchor (r anchor : Reg) | ResetAnchors | Close | SyncBounds (x : Reg).

Definition apply (op : zone_op) (d : Dbm) : Dbm :=
  match op with
  | Forget x => forget d x | AssignImm x imm => assign_imm d x imm | AssignReg x y => assign_reg d x y
  | AssignRegOffset dst src imm => assign_reg_offset d dst src imm
  | AssignInterval r min max => assign_interval d r min max | IntersectEqReg x y => intersect_eq_reg d x y
  | AddImm x imm => apply_add_imm d x imm | AddReg dst src => apply_add_reg d dst src
  | SubReg dst src => apply_sub_reg d dst src | AndImm dst mask => apply_and_imm d dst mask
  | MulImm dst imm => apply_mul_imm d dst imm | DivImm dst imm => apply_div_imm d dst imm
  | DivReg dst src => apply_div_reg d dst src | Neg r => apply_neg d r
  | AssumeLe x y => assume_le d x y | AssumeGe x y => assume_ge d x y | AssumeGt x y => assume_gt d x y
  | AssumeLeOffset x y c => assume_le_offset d x y c
  | AssumeLeImm x c => assume_le_imm d x c | AssumeGeImm x c => assume_ge_imm d x c
  | AssumeRange x min max => assume_range d x min max
  | AssumeEqImm x c => assume_eq_imm d x c | AssumeLtImm x c => assume_lt_imm d x c
  | InitAnchors => init_packet_anchors d | BindToAnchor r anchor => bind_to_anchor d r anchor
  | ResetAnchors => reset_packet_anchors d | Close => close d | SyncBounds x => sync_bounds d x
  end.

(** The variable an operation overwrites. *)
Definition dest (op : zone_op) : option Reg :=
  match op with
  | Forget x | AssignImm x _ | AssignReg x _ | AssignRegOffset x _ _ | AssignInterval x _ _
  | AddImm x _ | AddReg x _ | SubReg x _ | AndImm x _ | MulImm x _ | DivImm x _ | DivReg x _ | Neg x => Some x
  | _ => None
  end.

(** Arguments have their type, and only registers are overwritten (the debug assertion of
    [forget_var]). *)
Definition args_ok (op : zone_op) : bool :=
  match dest op with Some x => real x | None => true end &&
  match op with
  | AssignImm _ c | AssignRegOffset _ _ c | AddImm _ c | AndImm _ c | MulImm _ c | DivImm _ c
  | AssumeLeOffset _ _ c | AssumeLeImm _ c | AssumeGeImm _ c | AssumeEqImm _ c | AssumeLtImm _ c =>
      bool_decide (in_s 64 c)
  | AssignInterval _ a b | AssumeRange _ a b => bool_decide (in_s 64 a) && bool_decide (in_s 64 b)
  | _ => true
  end.

(** What the operation stands for: the valuations after it, from a valuation before it. *)
Definition is_value (x : Reg) (v w : Reg -> Z) (z : Z) : Prop := forall r, w r = upd v x z r.
Definition same (v w : Reg -> Z) : Prop := forall r, w r = v r.
Definition anchor_order (w : Reg -> Z) : Prop := w AnchorDataMeta <= w AnchorData <= w AnchorDataEnd.

Definition effect (op : zone_op) (v w : Reg -> Z) : Prop :=
  match op with
  | Forget x | DivReg x _ => exists z, in_s 64 z /\ is_value x v w z
  | AssignImm x imm => is_value x v w imm
  | AssignReg x y => is_value x v w (v y)
  | AssignRegOffset dst src imm => is_value dst v w (s64 (v src + imm))
  | AssignInterval r min max => exists z, min <= z <= max /\ is_value r v w z
  | AddImm x imm => is_value x v w (s64 (v x + imm))
  | AddReg dst src => is_value dst v w (s64 (v dst + v src))
  | SubReg dst src => is_value dst v w (s64 (v dst - v src))
  | AndImm dst mask => is_value dst v w (Z.land (v dst) mask)
  | MulImm dst imm => is_value dst v w (s64 (v dst * imm))
  | DivImm dst imm => is_value dst v w (s64 (u64 (v dst) / u64 imm))
  | Neg r => is_value r v w (s64 (- v r))
  | AssumeLe x y => same v w /\ v x <= v y
  | AssumeGe x y => same v w /\ v y <= v x
  | AssumeGt x y => same v w /\ v y < v x
  | AssumeLeOffset x y c => same v w /\ v x <= v y + c
  | AssumeLeImm x c => same v w /\ v x <= c
  | AssumeGeImm x c => same v w /\ c <= v x
  | AssumeRange x min max => same v w /\ min <= v x <= max
  | AssumeEqImm x c => same v w /\ v x = c
  | AssumeLtImm x c => same v w /\ v x < c
  | IntersectEqReg x y | BindToAnchor x y => same v w /\ v x = v y
  | InitAnchors => same v w /\ anchor_order v
  | ResetAnchors => (forall r, is_anchor r = false -> w r = v r) /\ (forall r, in_s 64 (w r)) /\ anchor_order w
  | Close | SyncBounds _ => same v w
  end.

(** Where the operation is meant to apply: the 64-bit result does not wrap, a mask is not negative,
    a divisor not zero, an offset relates two registers. *)
Definition in_range (op : zone_op) (v : Reg -> Z) : bool :=
  match op with
  | AssignRegOffset dst src imm => negb (bool_decide (dst = src)) && bool_decide (in_s 64 (v src + imm))
  | AddImm x imm => bool_decide (in_s 64 (v x + imm))
  | AddReg dst src => bool_decide (in_s 64 (v dst + v src))
  | SubReg dst src => bool_decide (in_s 64 (v dst - v src))
  | AndImm _ mask => 0 <=? mask
  | MulImm dst imm => (imm <? 0) || bool_decide (in_s 64 (v dst * imm))
  | DivImm _ imm => negb (imm =? 0)
  | _ => true
  end.

(** * Type invariant *)

Lemma wf_reset_anchor d a : dbm_wf d -> dbm_wf (reset_anchor d a).
Proof.
  intros Hd. unfold reset_anchor. rewrite wf_num_vars by done. apply wf_for_range; [done|]. intros k d' Hk Hd'.
  pose proof (idx_lt a). case_match; repeat apply wf_set_idx; done.
Qed.

Lemma wf_reset d : dbm_wf d -> dbm_wf (reset_packet_anchors d).
Proof.
  intros Hd. unfold reset_packet_anchors, init_packet_anchors. cbn [foldl].
  apply wf_close. do 2 apply wf_add_constraint. by do 3 apply wf_reset_anchor.
Qed.

Lemma wf_set_diag d : dbm_wf d -> dbm_wf (set d R0 R0 (-1)).
Proof. intros. by apply wf_set_idx; try apply idx_lt. Qed.

Lemma wf_apply_add_reg d x y : dbm_wf d -> real x = true -> dbm_wf (apply_add_reg d x y).
Proof.
  intros Hd Hx. unfold apply_add_reg. destruct (get_interval d y) as [lo hi]. destruct (_ && _).
  - rewrite wf_num_vars by done. apply wf_close, wf_set_bounds; [|done|apply shift_bounds_wf].
    apply wf_stamp, wf_set_idx; try apply idx_lt; [|done]. apply wf_for_range; [done|]. intros k d' Hk Hd'.
    case_match; [done|]. repeat apply wf_shift_cell; try apply idx_lt; try done; intros;
      [apply clamped_add_range|apply saturate_range].
  - destruct (get_interval d x) as [xlo xhi]. zone_wf.
Qed.

Lemma wf_apply_sub_reg d x y : dbm_wf d -> real x = true -> dbm_wf (apply_sub_reg d x y).
Proof.
  intros Hd Hx. unfold apply_sub_reg. destruct (get_interval d y) as [lo hi]. destruct (_ && _).
  - rewrite wf_num_vars by done. apply wf_close, wf_set_bounds; [|done|apply sub_bounds_wf].
    apply wf_set_idx; try apply idx_lt; [|done]. apply wf_for_range; [done|]. intros k d' Hk Hd'.
    case_match; [done|]. repeat apply wf_shift_cell; try apply idx_lt; try done; intros;
      [apply saturate_range|apply clamped_add_range].
  - destruct (get_interval d x) as [xlo xhi]. zone_wf.
Qed.

Lemma with_s64_wf b lo hi : bounds_wf b -> in_s 64 lo -> in_s 64 hi -> bounds_wf (with_s64 b lo hi).
Proof. unfold bounds_wf, with_s64. naive_solver. Qed.

Lemma wf_assign_imm d x imm : dbm_wf d -> real x = true -> in_s 64 imm -> dbm_wf (assign_imm d x imm).
Proof.
  intros Hd Hx Hi. unfold assign_imm. apply wf_sync_bounds, wf_close.
  assert (dbm_wf (if i64_MIN <? imm
    then add_constraint (add_constraint (forget_var d x) x Zero imm) Zero x (wrapping_neg imm)
    else add_constraint (forget_var d x) x Zero imm)) as H by zone_wf.
  apply wf_set_bounds; [done|done|]. apply with_s64_wf; [apply H|done|done].
Qed.

#[local] Hint Resolve wf_reset wf_set_diag wf_apply_add_reg wf_apply_sub_reg wf_assign_imm : zone_wf.
#[local] Hint Extern 1 (in_s 64 0) => done : zone_wf.

(** Every operation that changes a state keeps its type: fifteen rows of fifteen 64-bit entries, eight
    ranges per variable within their machine types, none on variables that are no registers, and a
    tracker of the same shape. *)
Lemma apply_wf op d : args_ok op = true -> dbm_wf d -> dbm_wf (apply op d).
Proof.
  intros Hok Hd. unfold args_ok in Hok.
  destruct op; simpl in *; rewrite ?andb_true_iff, ?bool_decide_eq_true in Hok; destruct_and?;
    unfold forget, assign_zero, assign_reg, assign_reg_offset, assign_interval, assume_range, intersect_eq_reg,
      apply_add_imm, apply_and_imm, apply_mul_imm, apply_div_imm, apply_div_reg, apply_neg, assign_zero, forget,
      assume_le, assume_ge, assume_gt, assume_le_offset, assume_eq_imm, assume_lt_imm, init_packet_anchors,
      bind_to_anchor; zone_wf.
Qed.

(** * Soundness of the operations *)

Lemma holds_eq d v w : same v w -> holds d v -> holds d w.
Proof. intros E [H0 Hr Hb]. unfold same in E. constructor; intros; rewrite ?E; auto. Qed.

Lemma holds_assume d x y c v : dbm_wf d -> holds d v -> v x - v y <= c -> holds (close (add_constraint d x y c)) v.
Proof. intros. apply holds_close; [zone_wf|]. by apply holds_add_constraint. Qed.

(** Both directions of an equation [x - y = c]. *)
Lemma holds_assume_eq d x y a b v :
  dbm_wf d -> holds d v -> v x - v y <= a -> v y - v x <= b ->
  holds (add_constraint (add_constraint d x y a) y x b) v.
Proof. intros. apply holds_add_constraint; [zone_wf|done|]. by apply holds_add_constraint. Qed.

Lemma holds_assign_eq d x y imm v :
  dbm_wf d -> holds d v -> in_s 64 imm -> v x - v y = imm ->
  let d1 := add_constraint d x y imm in
  holds (if i64_MIN <? imm then add_constraint d1 y x (wrapping_neg imm) else d1) v.
Proof.
  rewrite in_s64_iff. intros Hd Hv Hi E. simpl. destruct (Z.ltb_spec i64_MIN imm).
  - apply holds_assume_eq; [done|done|lia|]. rewrite wrapping_neg_exact; lia.
  - apply holds_add_constraint; [done|lia|done].
Qed.

Lemma wf_assign_eq d x y imm : dbm_wf d ->
  let d1 := add_constraint d x y imm in
  dbm_wf (if i64_MIN <? imm then add_constraint d1 y x (wrapping_neg imm) else d1).
Proof. intros. subst d1. zone_wf. Qed.

Lemma in_bounds_with_s64 b x : in_bounds b x -> in_bounds (with_s64 b x x) x.
Proof. unfold in_bounds. simpl. lia. Qed.

Lemma holds_assign_imm d x imm v :
  dbm_wf d -> real x = true -> in_s 64 imm -> holds d v -> holds (assign_imm d x imm) (upd v x imm).
Proof.
  intros Hd Hx Hi Hv. unfold assign_imm.
  pose proof (wf_assign_eq (forget_var d x) x Zero imm (wf_forget_var d x Hd)) as Hw. simpl in Hw.
  match type of Hw with dbm_wf ?d0 => set (d1 := d0) in * end.
  assert (holds d1 (upd v x imm)) as Hv1.
  { apply holds_assign_eq; [by apply wf_forget_var|by apply holds_forget_var; auto using real_not_zero|done|].
    rewrite upd_eq, upd_ne by (intros <-; done). rewrite (holds_zero d v Hv). lia. }
  assert (dbm_wf (set_bounds d1 x (with_s64 (get_bounds d1 x) imm imm))) as Hw1.
  { apply wf_set_bounds; [done|done|]. apply with_s64_wf; [apply Hw|done|done]. }
  apply holds_sync_bounds; [by apply wf_close|]. apply holds_close; [done|].
  apply holds_set_bounds; [done| |done]. rewrite upd_eq. apply in_bounds_with_s64.
  pose proof (holds_bounds d1 _ Hv1 x) as Hb. by rewrite upd_eq in Hb.
Qed.

Lemma holds_assume_range d x min max v :
  dbm_wf d -> in_s 64 min -> holds d v -> min <= v x <= max -> holds (assume_range d x min max) v.
Proof.
  intros. unfold assume_range. apply holds_assume_le_imm; [zone_wf| |lia].
  apply holds_assume_ge_imm; (done || lia).
Qed.

Lemma land_le_mask x m : 0 <= m -> 0 <= Z.land x m <= m.
Proof.
  intros Hm. split; [apply Z.land_nonneg; auto|].
  assert (m - Z.land x m = Z.ldiff m (Z.land x m)) as E.
  { apply Z.sub_nocarry_ldiff. zbits. }
  assert (0 <= Z.ldiff m (Z.land x m)) by (apply Z.ldiff_nonneg; auto). lia.
Qed.

Lemma holds_and_imm d x mask v :
  dbm_wf d -> real x = true -> 0 <= mask -> in_s 64 mask -> holds d v ->
  holds (apply_and_imm d x mask) (upd v x (Z.land (v x) mask)).
Proof.
  intros Hd Hx Hm Hs Hv. unfold apply_and_imm. pose proof (in_s64_iff mask) as Hi.
  assert (0 <= Z.land (v x) mask <= mask) as Hl.
  { by apply land_le_mask. }
  assert (upd v x (Z.land (v x) mask) Zero = 0) as H0.
  { rewrite upd_ne by (intros <-; done). apply Hv. }
  assert (dbm_wf (forget_var d x)) as Hw by zone_wf.
  apply holds_close; [zone_wf|]. apply holds_assume_eq; [done| | |]; rewrite ?H0, ?upd_eq; try lia.
  apply holds_forget_var; auto using real_not_zero. apply in_s64_iff. apply in_s64_iff in Hs. zlia.
Qed.

Lemma holds_mul_imm d x imm v :
  dbm_wf d -> real x = true -> (imm < 0 \/ in_s 64 (v x * imm)) -> holds d v ->
  holds (apply_mul_imm d x imm) (upd v x (s64 (v x * imm))).
Proof.
  intros Hd Hx Hs Hv. unfold apply_mul_imm. assert (x <> Zero) by auto using real_not_zero.
  destruct (Z.eqb_spec imm 0) as [->|]; [rewrite Z.mul_0_r; by apply holds_assign_imm|].
  destruct (Z.eqb_spec imm 1) as [->|].
  { rewrite Z.mul_1_r, swrap_small by (done || by eapply holds_s64). eapply holds_eq, Hv.
    intros r. unfold upd. by case_decide; subst. }
  destruct (Z.ltb_spec imm 0).
  { apply holds_close; [zone_wf|]. apply holds_forget_var; auto using swrap_range. by apply swrap_range. }
  destruct Hs as [?|Hs]; [lia|]. rewrite (swrap_small 64) by done.
  pose proof (get_interval_sound d x v Hd Hv) as Hi. destruct (get_interval d x) as [lo hi]. simpl in Hi.
  apply holds_assume_opt; [zone_wf|by apply holds_forget_var|apply saturate_range| |]; intros; rewrite upd_eq;
    [apply saturate_lower|apply saturate_upper]; try done; apply Z.mul_le_mono_nonneg_r; lia.
Qed.

(** Forget the register, then bound it on both sides when the bounds are known. *)
Lemma holds_rebound d x (p : bool) lo hi v z :
  dbm_wf d -> real x = true -> in_s 64 z -> holds d v -> (p = true -> in_s 64 lo /\ lo <= z <= hi) ->
  holds (if p then assume_le_imm (assume_ge_imm (forget d x) x lo) x hi else forget d x) (upd v x z).
Proof.
  intros Hd Hx Hz Hv Hp. assert (dbm_wf (forget d x)) by (unfold forget; zone_wf).
  assert (holds (forget d x) (upd v x z)).
  { apply holds_close; [zone_wf|]. apply holds_forget_var; auto using real_not_zero. }
  destruct p; [|done]. destruct Hp; [done|]. by apply holds_assume_range; rewrite ?upd_eq.
Qed.

Lemma holds_div_imm d x imm v :
  dbm_wf d -> real x = true -> imm <> 0 -> in_s 64 imm -> holds d v ->
  holds (apply_div_imm d x imm) (upd v x (s64 (u64 (v x) / u64 imm))).
Proof.
  intros Hd Hx Hn Hi Hv. unfold apply_div_imm. destruct (Z.eqb_spec imm 0); [done|].
  pose proof (get_interval_sound d x v Hd Hv) as Hx'. pose proof (holds_s64 d v x Hd Hv) as Hs.
  destruct (get_interval d x) as [lo hi]. simpl in Hx'. apply in_s64_iff in Hi, Hs.
  assert (0 < imm -> 0 <= lo -> lo / imm <= v x / imm <= hi / imm /\ 0 <= v x / imm <= v x) as Hq.
  { intros. split_and!; try (apply Z.div_le_mono; lia); [apply Z.div_pos; lia|].
    apply Z.div_le_upper_bound; [lia|]. nia. }
  assert (0 < imm -> 0 <= lo -> in_s 64 (lo / imm)) as Hql.
  { intros. apply in_s64_iff. pose proof (Z.div_pos lo imm). pose proof (Z.div_le_mono lo (v x) imm). zlia. }
  apply holds_rebound; try done; [by apply swrap_range|]. intros Hp.
  rewrite !andb_true_iff, Z.ltb_lt, !Z.leb_le in Hp. destruct_and! Hp.
  rewrite (u64_small (v x)), (u64_small imm), s64_small by zlia. split; [auto|]. by apply Hq.
Qed.

Lemma holds_neg d x v :
  dbm_wf d -> real x = true -> holds d v -> holds (apply_neg d x) (upd v x (s64 (- v x))).
Proof.
  intros Hd Hx Hv. unfold apply_neg. pose proof (get_interval_sound d x v Hd Hv) as Hi.
  pose proof (holds_s64 d v x Hd Hv) as Hs. destruct (get_interval d x) as [lo hi] eqn:E. simpl in Hi.
  apply in_s64_iff in Hs. apply holds_rebound; try done; [by apply swrap_range|].
  intros Hp. split; [by apply swrap_range|]. apply andb_true_iff in Hp as [Hl Hh]. apply negb_true_iff, Z.eqb_neq in Hl, Hh.
  assert (i64_MIN <= lo /\ hi <= i64_MAX).
  { pose proof (wf_get d x Zero Hd) as Hu. pose proof (wrapping_neg_range (get d Zero x)) as Hn.
    apply in_s64_iff in Hu, Hn. unfold get_interval in E. injection E as <- <-. zcases; zlia. }
  rewrite !wrapping_neg_exact, s64_small by zlia. lia.
Qed.

Lemma holds_forget d x v z :
  dbm_wf d -> real x = true -> in_s 64 z -> holds d v -> holds (forget d x) (upd v x z).
Proof. intros. apply holds_close; [zone_wf|]. apply holds_forget_var; auto using real_not_zero. Qed.

Lemma holds_assign_reg d x y v :
  dbm_wf d -> real x = true -> holds d v -> holds (assign_reg d x y) (upd v x (v y)).
Proof.
  intros Hd Hx Hv. apply holds_close; [zone_wf|].
  assert (upd v x (v y) x - upd v x (v y) y = 0) as E.
  { rewrite upd_eq. unfold upd. case_decide; subst; lia. }
  apply holds_assume_eq; [zone_wf| |lia|lia].
  apply holds_forget_var; auto using real_not_zero. by eapply holds_s64.
Qed.

Lemma holds_assign_reg_offset d x y imm v :
  dbm_wf d -> real x = true -> x <> y -> in_s 64 imm -> in_s 64 (v y + imm) -> holds d v ->
  holds (assign_reg_offset d x y imm) (upd v x (s64 (v y + imm))).
Proof.
  intros Hd Hx Hne Hi Hs Hv. rewrite (swrap_small 64) by done. apply holds_close; [by apply wf_assign_eq, wf_forget_var|].
  apply holds_assign_eq; [zone_wf| |done|].
  - apply holds_forget_var; auto using real_not_zero.
  - rewrite upd_eq, upd_ne by done. lia.
Qed.

Lemma holds_assign_interval d x min max v z :
  dbm_wf d -> real x = true -> in_s 64 min -> in_s 64 max -> min <= z <= max -> holds d v ->
  holds (assign_interval d x min max) (upd v x z).
Proof.
  rewrite !in_s64_iff. intros Hd Hx Hmin Hmax Hz Hv.
  assert (dbm_wf (assume_range (forget_var d x) x min max)) by (unfold assume_range; zone_wf).
  apply holds_close; [done|]. apply holds_assume_range; [zone_wf|by apply in_s64_iff| |by rewrite upd_eq].
  apply holds_forget_var; auto using real_not_zero. apply in_s64_iff. lia.
Qed.

Lemma holds_assume_lt_imm d x c v :
  dbm_wf d -> in_s 64 c -> holds d v -> v x < c -> holds (assume_lt_imm d x c) v.
Proof.
  rewrite in_s64_iff. intros Hd Hc Hv Hlt. unfold assume_lt_imm. pose proof (holds_s64 d v x Hd Hv) as Hs.
  apply in_s64_iff in Hs. destruct (Z.eqb_spec c i64_MIN); [lia|]. destruct (_ || _); [done|].
  apply holds_sync_bounds; [zone_wf|]. apply holds_assume; [done|done|]. rewrite (holds_zero d v Hv). lia.
Qed.

(** Entries of the row and column of a reset anchor bound nothing. *)
Lemma get_reset_anchor d a x y : dbm_wf d ->
  get (reset_anchor d a) x y =
    if decide (x = a \/ y = a) then (if decide (x = y) then 0 else INF) else get d x y.
Proof.
  intros Hd. unfold reset_anchor. rewrite wf_num_vars by done.
  assert (forall n, (n <= DBM_DIM)%nat ->
    let d' := for_range n (fun j d => if (idx a =? j)%nat then set_idx d (idx a) j 0
                else set_idx (set_idx d (idx a) j INF) j (idx a) INF) d in
    dbm_wf d' /\ forall x y, get d' x y =
      if ((idx x =? idx a) && (idx y <? n) || (idx y =? idx a) && (idx x <? n))%nat
      then (if (idx x =? idx y)%nat then 0 else INF) else get d x y) as H.
  { intros n Hn. apply (for_range_ind (fun n d' => dbm_wf d' /\ forall x y, get d' x y =
      if ((idx x =? idx a) && (idx y <? n) || (idx y =? idx a) && (idx x <? n))%nat
      then (if (idx x =? idx y)%nat then 0 else INF) else get d x y)).
    - split; [done|]. intros. natcases.
    - intros k d' Hk [Hd' Hg]. assert (k < DBM_DIM)%nat by lia. pose proof (idx_lt a). split.
      + case_match; repeat apply wf_set_idx; done.
      + intros x' y'. destruct (Nat.eqb_spec (idx a) k) as [<-|Hne].
        * rewrite get_set_idx, Hg by done. natcases.
        * rewrite !get_set_idx, Hg by (try apply wf_set_idx; done). natcases. }
  destruct (H DBM_DIM) as [_ Hg]; [done|]. rewrite Hg.
  pose proof (idx_lt x). pose proof (idx_lt y). pose proof (idx_inj x a). pose proof (idx_inj y a).
  pose proof (idx_inj x y). repeat case_decide; natcases; naive_solver.
Qed.

Lemma holds_reset_anchor d a v z :
  dbm_wf d -> is_anchor a = true -> in_s 64 z -> holds d v -> holds (reset_anchor d a) (upd v a z).
Proof.
  intros Hd Ha Hz [H0 Hr Hb]. assert (a <> Zero) by (by destruct a). constructor.
  - by rewrite upd_ne.
  - intros x y. rewrite get_reset_anchor by done. case_decide as Hc.
    + case_decide; [subst; lia|zlia].
    + rewrite !upd_ne by naive_solver. apply Hr.
  - intros x. assert (get_bounds (reset_anchor d a) x = get_bounds d x) as ->.
    { unfold get_bounds. f_equal. unfold reset_anchor.
      apply (for_range_inv (fun d' => bounds d' = bounds d)); [done|]. intros. by case_match. }
    unfold upd. case_decide; subst; [|done]. rewrite (wf_anchor d Hd); [by apply in_bounds_unknown|].
    unfold real. by rewrite Ha, andb_false_r.
Qed.

Lemma holds_reset d v w :
  dbm_wf d -> effect ResetAnchors v w -> holds d v -> holds (reset_packet_anchors d) w.
Proof.
  intros Hd (Hsame & Hs & Ho) Hv. unfold reset_packet_anchors, init_packet_anchors. cbn [foldl].
  set (d1 := reset_anchor d AnchorDataMeta). set (d2 := reset_anchor d1 AnchorData).
  set (d3 := reset_anchor d2 AnchorDataEnd).
  assert (dbm_wf d1 /\ dbm_wf d2 /\ dbm_wf d3) as (W1 & W2 & W3).
  { unfold d1, d2, d3. split_and!; by repeat apply wf_reset_anchor. }
  assert (holds d3 w) as H3.
  { apply (holds_eq _ (upd (upd (upd v AnchorDataMeta (w AnchorDataMeta)) AnchorData (w AnchorData))
                         AnchorDataEnd (w AnchorDataEnd))).
    - intros r. unfold upd. repeat case_decide; subst; try done. apply Hsame. by destruct r.
    - by repeat apply holds_reset_anchor. }
  apply holds_close; [zone_wf|]. unfold anchor_order in Ho.
  apply holds_add_constraint; [zone_wf|lia|]. apply holds_add_constraint; [zone_wf|lia|done].
Qed.

(** The operations one by one. *)
Lemma apply_sound op d v w :
  args_ok op = true -> dbm_wf d -> holds d v -> in_range op v = true -> effect op v w ->
  holds (apply op d) w.
Proof.
  intros Hok Hd Hv Hr He. pose proof (fun x => holds_s64 d v x Hd Hv) as Hs. pose proof (holds_zero d v Hv) as H0.
  unfold args_ok in Hok.
  destruct op; simpl in Hok, Hr, He; rewrite ?andb_true_iff, ?bool_decide_eq_true in Hok; destruct_and? Hok;
    try (match type of He with same _ _ /\ _ => destruct He as [Hsame He]; apply (holds_eq _ _ _ Hsame) end);
    try (match type of He with is_value _ _ _ _ => apply (holds_eq _ _ _ He) end);
    cbn [apply].
  - destruct He as (z & Hz & He). apply (holds_eq _ _ _ He). by apply holds_forget.
  - by apply holds_assign_imm.
  - by apply holds_assign_reg.
  - apply andb_true_iff in Hr as [Hne Hr]. apply negb_true_iff, bool_decide_eq_false in Hne.
    apply bool_decide_eq_true in Hr. by apply holds_assign_reg_offset.
  - destruct He as (z & Hz & He). apply (holds_eq _ _ _ He). by apply holds_assign_interval.
  - apply holds_sync_bounds; [zone_wf|]. apply holds_sync_bounds; [zone_wf|].
    apply holds_close; [zone_wf|]. apply holds_assume_eq; (done || lia).
  - apply bool_decide_eq_true in Hr. rewrite (swrap_small 64) by done. by apply holds_add_imm.
  - apply bool_decide_eq_true in Hr. rewrite (swrap_small 64) by done. by apply holds_apply_add_reg.
  - apply bool_decide_eq_true in Hr. rewrite (swrap_small 64) by done. by apply holds_apply_sub_reg.
  - apply Z.leb_le in Hr. by apply holds_and_imm.
  - apply holds_mul_imm; try done. apply orb_true_iff in Hr as [?%Z.ltb_lt|?%bool_decide_eq_true]; auto.
  - apply negb_true_iff, Z.eqb_neq in Hr. by apply holds_div_imm.
  - destruct He as (z & Hz & He). apply (holds_eq _ _ _ He). by apply holds_forget.
  - by apply holds_neg.
  - apply holds_assume; (done || lia).
  - apply holds_assume; (done || lia).
  - apply holds_assume; (done || lia).
  - apply holds_assume; (done || lia).
  - by apply holds_assume_le_imm.
  - by apply holds_assume_ge_imm.
  - by apply holds_assume_range.
  - apply holds_sync_bounds; [zone_wf|]. apply holds_close; [zone_wf|]. apply holds_assign_eq; (done || lia).
  - by apply holds_assume_lt_imm.
  - apply holds_close; [zone_wf|]. unfold anchor_order in He. apply holds_add_constraint; [zone_wf|lia|].
    apply holds_add_constraint; [zone_wf|lia|done].
  - apply holds_close; [zone_wf|]. apply holds_assume_eq; (done || lia).
  - by apply (holds_reset d v w).
  - apply holds_close; [done|]. by apply (holds_eq _ v).
  - apply holds_sync_bounds; [done|]. by apply (holds_eq _ v).
Qed.

(** C7. Soundness of the zone transfer functions where the operation does not wrap.  If a well-formed
    state describes the registers and anchors before an instruction or branch, the state computed by
    the operation describes them after it: assignments, comparisons, the packet anchors, and
    arithmetic whose 64-bit result does not wrap, with a mask that is not negative, a divisor that is
    not zero and an offset between two different registers ([in_range]).  Only registers are
    overwritten and constants are 64-bit ([args_ok]).  [zone_wraparound_unsound] shows that the
    condition on wrapping is needed. *)
Theorem zone_ops_sound op d v w :
  args_ok op = true -> dbm_wf d -> holds d v -> in_range op v = true -> effect op v w ->
  holds (apply op d) w.
Proof. apply apply_sound. Qed.

Lemma holds_new v : v Zero = 0 -> (forall x, in_s 64 (v x)) -> holds new v.
Proof.
  intros H0 Hs. constructor; [done| |].
  - intros x y. destruct (decide (x = y)) as [->|Hne]; [assert (get new y y = 0) as -> by (by destruct y); lia|].
    assert (get new x y = INF) as -> by (by destruct x, y). lia.
  - intros x. assert (get_bounds new x = unknown) as -> by (by destruct x). by apply in_bounds_unknown.
Qed.

Lemma zone_ops_sound_witness :
  holds (apply (AddImm R1 3) new) (upd (fun _ => 0) R1 3).
Proof.
  apply (zone_ops_sound (AddImm R1 3) new (fun _ => 0) (upd (fun _ => 0) R1 3)).
  - reflexivity.
  - apply wf_new.
  - apply holds_new; [reflexivity|]. intros x. split; [discriminate|reflexivity].
  - reflexivity.
  - intros r. destruct r; reflexivity.
Defined.

End ZoneOps.
