(* ===== verification/ZoneProps.v ===== *)
(** What the zone domain computes: the closure is the tightest description, queries and access
    checks are right about every described valuation, narrowing is intersection, widening is an
    upper bound and converges; and two places where the domain is wrong. *)

From S2P Require Import Prelude Zone ZoneClose ZoneSound ZoneOps.
From Stdlib Require Import ZArith Lia.
From stdpp Require Import base numbers list.
Import Zone ZoneClose ZoneSound ZoneOps.
Open Scope Z_scope.

Module ZoneProps.

(** * Closure *)

(** The relational part of the meaning. *)
Definition sat (d : Dbm) (v : Reg -> Z) : Prop :=
  v Zero = 0 /\ forall x y, get d x y < INF -> v x - v y <= get d x y.

Lemma sat_rel d v : sat d v <-> v Zero = 0 /\ rel DBM_DIM (data d) (val_of v).
Proof. unfold sat. by rewrite rel_holds. Qed.

(** Differences only: a valuation of the indices, moved so that [Zero] is 0. *)
Lemma rel_sat d f : rel DBM_DIM (data d) f -> sat d (fun x => f (idx x) - f 0%nat).
Proof.
  intros H. split; [simpl; lia|]. intros x y Hlt. specialize (H (idx x) (idx y) (idx_lt x) (idx_lt y) Hlt).
  unfold get, get_idx. lia.
Qed.

Lemma sat_close d v : dbm_wf d -> sat (close d) v <-> sat d v.
Proof.
  intros Hd. rewrite !sat_rel. pose proof (close_rel_exact d (val_of v)) as H.
  rewrite wf_num_vars in H by done. by rewrite H by by apply wf_square.
Qed.

Lemma closed_diag d : dbm_wf d -> zero_diag DBM_DIM (data d) ->
  (forall x, 0 <= get (close d) x x) -> zero_diag DBM_DIM (data (close d)).
Proof.
  intros Hd Hz Hx i Hi. destruct (close_data_inv d) as (_ & Ht & _).
  { rewrite wf_num_vars by done. by apply wf_square. }
  rewrite wf_num_vars in Ht by done. specialize (Ht i i Hi Hi). rewrite (Hz i Hi) in Ht. cbn [fst] in Ht.
  destruct (idx_of_lt i Hi) as [x ->]. specialize (Hx x). unfold get, get_idx in Hx. lia.
Qed.

(** C19. The closure computes the best description, for a well-formed matrix with a zero diagonal
    whose finite entries leave room for the sums of fifteen rounds ([small]: nothing saturates).  It
    keeps the set of valuations; a negative diagonal entry appears exactly when no valuation is left,
    and otherwise every entry is the least bound on the difference of its two variables ([INF] exactly
    when there is none). *)
Theorem zone_close_best d :
  dbm_wf d -> small DBM_DIM (data d) -> zero_diag DBM_DIM (data d) ->
  (forall v, sat (close d) v <-> sat d v) /\
  ((exists x, get (close d) x x < 0) <-> forall v, ~ sat d v) /\
  ((forall x, 0 <= get (close d) x x) -> forall x y c,
     (forall v, sat d v -> v x - v y <= c) <-> get (close d) x y < INF /\ get (close d) x y <= c).
Proof.
  intros Hd Hsm Hz. pose proof (fun v => sat_close d v Hd) as Hcl. split; [done|].
  assert ((forall x, 0 <= get (close d) x x) ->
    closed DBM_DIM (data (close d)) /\ capped DBM_DIM (data (close d))) as Hclosed.
  { intros Hnn. pose proof (close_closed d) as H. rewrite wf_num_vars in H by done.
    apply H; [by apply wf_square|done|]. intros i Hi. destruct (idx_of_lt i Hi) as [x ->]. apply Hnn. }
  split; [split|].
  - intros [x Hx] v Hv. apply Hcl in Hv as [_ Hv]. specialize (Hv x x). zlia.
  - intros Hno. destruct (existsb (fun i => get_idx (close d) i i <? 0) (seq 0 DBM_DIM)) eqn:E.
    + apply existsb_exists in E as (i & Hi & Hlt). apply in_seq in Hi.
      destruct (idx_of_lt i) as [x ->]; [lia|]. exists x. by apply Z.ltb_lt.
    + exfalso. destruct Hclosed as [Hc Hcap].
      { intros x. apply Z.nlt_ge. intros Hlt. apply not_true_iff_false in E. apply E.
        apply existsb_exists. exists (idx x). pose proof (idx_lt x). rewrite in_seq. split; [lia|by apply Z.ltb_lt]. }
      pose proof (column_rel DBM_DIM (data (close d)) 0 0 ltac:(unfold DBM_DIM; lia) Hc Hcap) as Hv.
      apply rel_sat, Hcl in Hv. by eapply Hno.
  - intros Hnn x y c. split.
    + intros Hall. destruct (Hclosed Hnn) as [Hc Hcap].
      apply (closed_tight DBM_DIM (data (close d)) (idx x) (idx y) c); auto using idx_lt, closed_diag.
      intros f Hf. apply rel_sat, Hcl in Hf. specialize (Hall _ Hf). simpl in Hall. lia.
    + intros [Hlt Hle] v Hv. apply Hcl in Hv as [_ Hv]. specialize (Hv x y Hlt). lia.
Qed.

(** Checks of the hypotheses on a concrete matrix. *)
Definition boundedb (n : nat) (b : Z) (m : list (list Z)) : bool :=
  forallb (fun i => forallb (fun j => (cell m i j =? INF) || (- b <=? cell m i j) && (cell m i j <=? b))
    (seq 0 n)) (seq 0 n).

Lemma boundedb_bounded n b m : boundedb n b m = true -> bounded n b m.
Proof.
  unfold boundedb. intros H i j Hi Hj. rewrite forallb_forall in H. specialize (H i ltac:(apply in_seq; lia)).
  rewrite forallb_forall in H. specialize (H j ltac:(apply in_seq; lia)). lia.
Qed.

Definition zero_diagb (n : nat) (m : list (list Z)) : bool := forallb (fun i => cell m i i =? 0) (seq 0 n).

Lemma zero_diagb_spec n m : zero_diagb n m = true -> zero_diag n m.
Proof.
  unfold zero_diagb. intros H i Hi. rewrite forallb_forall in H. specialize (H i ltac:(apply in_seq; lia)). lia.
Qed.

(** Two chained constraints; the bound of [R2 - R4] is their sum. *)
Definition chain : Dbm := add_constraint (add_constraint new R2 R3 5) R3 R4 7.

Lemma zone_close_best_witness :
  (forall v, sat chain v -> v R2 - v R4 <= 12) /\ get (close chain) R2 R4 = 12.
Proof.
  split; [|vm_compute; reflexivity].
  apply (proj2 (proj2 (zone_close_best chain
    ltac:(unfold chain; zone_wf)
    ltac:(exists 7; split; [|split]; [lia|vm_compute; discriminate|apply boundedb_bounded; vm_compute; reflexivity])
    ltac:(apply zero_diagb_spec; vm_compute; reflexivity)))).
  - intros x. destruct x; vm_compute; discriminate.
  - split; vm_compute; [reflexivity|discriminate].
Defined.

(** * Queries *)

Lemma region_access_lemma d v base off size a_start a_end :
  dbm_wf d -> holds d v -> Z.abs off <= 2 ^ 60 -> 0 <= size <= 2 ^ 60 ->
  check_region_access d base off size a_start a_end = (true, true) ->
  v a_start <= v base + off /\ v base + off + size <= v a_end.
Proof.
  intros Hd Hv Ho Hs Hc. unfold check_region_access in Hc. injection Hc as Hst Hen.
  rewrite !andb_true_iff, !Z.ltb_lt, !Z.leb_le in *. destruct Hst as [Hst1 Hst2], Hen as [Hen1 Hen2].
  pose proof (holds_rel d v Hv _ _ Hst1). pose proof (holds_rel d v Hv _ _ Hen1).
  split; [lia|]. pose proof (wf_get d base a_end Hd) as He. set (e := get d base a_end) in *.
  apply in_s64_iff in He. change (2 ^ 60) with 1152921504606846976 in *.
  destruct (Z.le_gt_cases i64_MIN (e + off)) as [Hin|Hout].
  - rewrite (s64_small (e + off)) in Hen2 by zlia. rewrite s64_small in Hen2; zlia.
  - zlia.
Qed.

(** The access check of the packet pointers is right.  If [check_region_access] answers yes for both
    ends, then for every described valuation the bytes [off, off + size) from the base lie between the
    anchors; offset and size are at most 2^60 in absolute value, far above what an instruction encodes. *)
Theorem region_access_sound d v base off size a_start a_end :
  dbm_wf d -> holds d v -> Z.abs off <= 2 ^ 60 -> 0 <= size <= 2 ^ 60 ->
  check_region_access d base off size a_start a_end = (true, true) ->
  v a_start <= v base + off /\ v base + off + size <= v a_end.
Proof. apply region_access_lemma. Qed.

Lemma region_access_sound_witness :
  let d := assume_le_offset (bind_to_anchor (init_packet_anchors new) R2 AnchorData) R2 AnchorDataEnd (-8) in
  let v := fun r => match r with AnchorDataEnd => 100 | _ => 0 end in
  v AnchorData <= v R2 + 4 /\ v R2 + 4 + 4 <= v AnchorDataEnd.
Proof.
  intros d v. apply (region_access_sound d v R2 4 4 AnchorData AnchorDataEnd).
  - unfold d, assume_le_offset, bind_to_anchor, init_packet_anchors. zone_wf.
  - constructor; [reflexivity| |].
    + intros x y. destruct x, y; vm_compute; intros; discriminate.
    + intros x. destruct x; vm_compute; split_and!; discriminate.
  - vm_compute. discriminate.
  - vm_compute. split; discriminate.
  - vm_compute. reflexivity.
Defined.

Lemma fixed_some i c : fixed i = Some c -> i = (c, c).
Proof. destruct i as [lo hi]. simpl. destruct (Z.eqb_spec lo hi); simpl; [|done]. repeat case_match; congruence. Qed.

Lemma get_distance_sound d v x y : dbm_wf d -> holds d v -> in_s 64 (v x - v y) ->
  (get_distance_interval d x y).1 <= v x - v y <= (get_distance_interval d x y).2.
Proof.
  intros Hd Hv Hs. pose proof (holds_rel d v Hv x y). pose proof (holds_rel d v Hv y x).
  pose proof (wrapping_neg_le (v x - v y) (get d y x) (wf_get d y x Hd) Hs).
  apply in_s64_iff in Hs. unfold get_distance_interval. simpl. zcases; lia.
Qed.

Lemma holds_consistent d v : dbm_wf d -> holds d v -> is_inconsistent d = false.
Proof.
  intros Hd Hv. unfold is_inconsistent. apply orb_false_iff. split; apply not_true_iff_false; intros H;
    apply existsb_exists in H as (k & Hk & Hlt).
  - apply in_seq in Hk. rewrite wf_num_vars in Hk by done. destruct (idx_of_lt k) as [x ->]; [lia|].
    pose proof (holds_rel d v Hv x x) as Hx. unfold get in Hx. apply Z.ltb_lt in Hlt. zlia.
  - apply list_elem_of_In, list_elem_of_lookup in Hk as [i Hi]. pose proof (lookup_lt_Some _ _ _ Hi) as Hlen.
    rewrite (wf_len d Hd) in Hlen. destruct (idx_of_lt i Hlen) as [x ->].
    pose proof (holds_bounds d v Hv x) as Hx. unfold get_bounds in Hx. rewrite (list_lookup_total_correct _ _ _ Hi) in Hx.
    unfold empty_range, in_bounds in *. rewrite !orb_true_iff, !Z.ltb_lt in Hlt. lia.
Qed.

(** The queries are right about every described valuation: intervals and distances contain the
    value, constants are its value, the sign and range predicates hold of it; and a state that
    describes a valuation is never reported inconsistent, so pruning a branch on [is_inconsistent]
    is safe. *)
Theorem zone_queries_sound d v x y c :
  dbm_wf d -> holds d v -> in_s 64 (v x - v y) ->
  ((get_interval d x).1 <= v x <= (get_interval d x).2) /\
  ((get_distance_interval d x y).1 <= v x - v y <= (get_distance_interval d x y).2) /\
  (get_fixed_value d x = Some c -> v x = c) /\ (get_distance_fixed d x y = Some c -> v x - v y = c) /\
  (proven_zero d x = true -> v x = 0) /\ (proven_nonnegative d x = true -> 0 <= v x) /\
  (proven_positive d x = true -> 0 < v x) /\ (proven_u32_range d x Zero = true -> in_u 32 (v x)) /\
  is_inconsistent d = false.
Proof.
  intros Hd Hv Hs. pose proof (get_interval_sound d x v Hd Hv) as Hi.
  pose proof (get_distance_sound d v x y Hd Hv Hs) as Hdi. split_and!; try done; try lia.
  - intros Hf. unfold get_fixed_value in Hf. apply fixed_some in Hf. rewrite Hf in Hi. simpl in Hi. lia.
  - intros Hf. unfold get_distance_fixed in Hf. apply fixed_some in Hf. rewrite Hf in Hdi. simpl in Hdi. lia.
  - unfold proven_zero. destruct (get_interval d x). simpl in *. lia.
  - unfold proven_nonnegative. lia.
  - unfold proven_positive. lia.
  - unfold proven_u32_range. intros H. pose proof (holds_rel d v Hv x Zero). pose proof (holds_rel d v Hv Zero x).
    pose proof (holds_zero d v Hv). unfold get in *. unfold in_u. change (2 ^ 32) with 4294967296. zlia.
  - by apply (holds_consistent d v).
Qed.

Lemma zone_queries_sound_witness :
  let d := assign_imm new R1 5 in is_inconsistent d = false /\ get_fixed_value d R1 = Some 5.
Proof.
  intros d. split; [|vm_compute; reflexivity].
  apply (zone_queries_sound d (upd (fun _ => 0) R1 5) R1 Zero 0).
  - apply wf_assign_imm; [apply wf_new|reflexivity|split; [discriminate|reflexivity]].
  - apply holds_assign_imm; [apply wf_new|reflexivity|split; [discriminate|reflexivity]|].
    apply holds_new; [reflexivity|]. intros x. split; [discriminate|reflexivity].
  - split; [discriminate|reflexivity].
Defined.

(** * Widening and narrowing *)

(** Both run over all cells, row by row, and set the ranges of the variable of the row. *)
Section Grid.
Context (F : nat -> nat -> Z) (G : nat -> Bounds) (inner : nat -> nat -> Dbm -> Dbm) (d0 : Dbm).
Context (Hsq : square DBM_DIM (data d0)) (Hlen : length (bounds d0) = DBM_DIM).

Definition writes (i j : nat) (r r' : Dbm) : Prop :=
  square DBM_DIM (data r') /\ bounds r' = bounds r /\
  forall i' j', (i' < DBM_DIM)%nat -> (j' < DBM_DIM)%nat ->
    cell (data r') i' j' = if ((i' =? i) && (j' =? j))%nat then F i j else cell (data r) i' j'.

Context (Hinner : forall i j r, (i < DBM_DIM)%nat -> (j < DBM_DIM)%nat -> square DBM_DIM (data r) ->
  cell (data r) i j = cell (data d0) i j -> writes i j r (inner i j r)).

Definition row (i : nat) (r : Dbm) : Dbm :=
  let r := for_range DBM_DIM (inner i) r in MkDbm (data r) (<[i := G i]> (bounds r)) (provenance r).

(** State of the sweep at cell [(i, j)]. *)
Definition swept (i j : nat) (r : Dbm) : Prop :=
  square DBM_DIM (data r) /\
  forall i' j', (i' < DBM_DIM)%nat -> (j' < DBM_DIM)%nat ->
    cell (data r) i' j' = if ((i' <? i) || (i' =? i) && (j' <? j))%nat then F i' j' else cell (data d0) i' j'.

Definition ranged (i : nat) (r : Dbm) : Prop :=
  length (bounds r) = DBM_DIM /\
  forall k, (k < DBM_DIM)%nat -> bounds r !!! k = if (k <? i)%nat then G k else bounds d0 !!! k.

Lemma sweep_row i r : (i < DBM_DIM)%nat -> swept i 0 r -> ranged i r -> swept (S i) 0 (row i r) /\ ranged (S i) (row i r).
Proof.
  intros Hi Hs [Hl Hr]. unfold row.
  assert (swept i DBM_DIM (for_range DBM_DIM (inner i) r) /\ bounds (for_range DBM_DIM (inner i) r) = bounds r)
    as [[Hsq' Hc] Hb].
  { apply (for_range_ind (fun j r' => swept i j r' /\ bounds r' = bounds r)); [done|].
    intros j r' Hj [[Hs' Hc'] Hb']. destruct (Hinner i j r' Hi Hj Hs') as (H1 & H2 & H3).
    { rewrite Hc' by done. natcases. }
    split; [|congruence]. split; [done|]. intros i' j' Hi' Hj'. rewrite H3, Hc' by done. natcases; subst; done. }
  split; split; simpl; try done.
  - intros i' j' Hi' Hj'. rewrite Hc by done. natcases.
  - rewrite length_insert. congruence.
  - intros k Hk. rewrite Hb. destruct (decide (k = i)) as [->|Hne].
    + rewrite list_lookup_total_insert, decide_True by lia. natcases.
    + rewrite list_lookup_total_insert_ne, Hr by done. natcases.
Qed.

Lemma grid_swept : swept DBM_DIM 0 (for_range DBM_DIM row d0) /\ ranged DBM_DIM (for_range DBM_DIM row d0).
Proof.
  apply (for_range_ind (fun i r => swept i 0 r /\ ranged i r)).
  - split; split; try done; intros; natcases.
  - intros i r Hi [? ?]. by apply sweep_row.
Qed.

Lemma grid x y :
  let d := for_range DBM_DIM row d0 in
  get d x y = F (idx x) (idx y) /\ get_bounds d x = G (idx x).
Proof.
  destruct grid_swept as [[_ Hc] [_ Hr]].
  pose proof (idx_lt x). pose proof (idx_lt y). unfold get, get_idx, get_bounds.
  cbv zeta. rewrite Hc, Hr by done. split; natcases.
Qed.
End Grid.

Lemma get_narrow a b x y : dbm_wf a ->
  get (narrow a b) x y = Z.min (get a x y) (get b x y) /\
  get_bounds (narrow a b) x = narrow_bounds (get_bounds a x) (get_bounds b x).
Proof.
  intros Ha. unfold narrow. rewrite wf_num_vars by done.
  apply (grid (fun i j => Z.min (get_idx a i j) (get_idx b i j))
    (fun i => narrow_bounds (bounds a !!! i) (bounds b !!! i))
    (fun i j r => set_idx r i j (Z.min (get_idx a i j) (get_idx b i j)))
    (MkDbm (data a) (bounds a) None)); [exact (wf_square a Ha)|exact (wf_len a Ha)|].
  intros i j r Hi Hj Hsq _. unfold writes. split_and!; [by apply square_set|done|]. intros. simpl. by erewrite cell_set by done.
Qed.

(** The cells and ranges [widen] writes. *)
Definition widen_cell (a b : Dbm) (i j : nat) : Z :=
  if get_idx a i j <? get_idx b i j then INF else get_idx a i j.
Definition widen_step (a b : Dbm) (i j : nat) (r : Dbm) : Dbm :=
  if get_idx a i j <? get_idx b i j then set_idx r i j INF else r.

Lemma widen_writes a b i j r :
  (i < DBM_DIM)%nat -> (j < DBM_DIM)%nat -> square DBM_DIM (data r) -> cell (data r) i j = cell (data a) i j ->
  writes (widen_cell a b) i j r (widen_step a b i j r).
Proof.
  intros Hi Hj Hsq Hij. unfold writes, widen_cell, widen_step. destruct (get_idx a i j <? get_idx b i j).
  - split_and!; [by apply square_set|done|]. intros. simpl. by erewrite cell_set by done.
  - split_and!; [done|done|]. intros i' j' Hi' Hj'. natcases. by subst.
Qed.

Lemma widen_grid a b : dbm_wf a -> widen a b =
  for_range DBM_DIM (row (fun i => widen_bounds (bounds (sync_all a) !!! i) (bounds (sync_all b) !!! i))
    (widen_step a b)) (MkDbm (data a) (bounds a) None).
Proof. intros Ha. unfold widen. by rewrite wf_num_vars. Qed.

Lemma get_widen a b x y : dbm_wf a ->
  get (widen a b) x y = widen_cell a b (idx x) (idx y) /\
  get_bounds (widen a b) x = widen_bounds (get_bounds (sync_all a) x) (get_bounds (sync_all b) x).
Proof.
  intros Ha. rewrite widen_grid by done.
  apply (grid (widen_cell a b) (fun i => widen_bounds (bounds (sync_all a) !!! i) (bounds (sync_all b) !!! i))
    (widen_step a b) (MkDbm (data a) (bounds a) None));
    [exact (wf_square a Ha)|exact (wf_len a Ha)|exact (widen_writes a b)].
Qed.

Lemma holds_sync_all d v : dbm_wf d -> dbm_wf (sync_all d) /\ (holds (sync_all d) v <-> holds d v).
Proof.
  intros Hd. unfold sync_all. apply (for_range_inv (fun d' => dbm_wf d' /\ (holds d' v <-> holds d v))); [done|].
  intros k d' Hk [Hd' Hiff]. repeat case_match; try done. split; [by apply wf_sync_bounds|].
  by rewrite holds_sync_bounds.
Qed.

Lemma widen_bounds_l b1 b2 x : in_s 64 x -> in_bounds b1 x -> in_bounds (widen_bounds b1 b2) x.
Proof.
  intros Hx Hb. destruct (in_bounds_unknown x Hx) as (? & ? & ? & ?). destruct Hb as (? & ? & ? & ?).
  unfold in_bounds, widen_bounds. simpl in *. zcases; lia.
Qed.

Lemma widen_bounds_r b1 b2 x : in_s 64 x -> in_bounds b2 x -> in_bounds (widen_bounds b1 b2) x.
Proof.
  intros Hx Hb. destruct (in_bounds_unknown x Hx) as (? & ? & ? & ?). destruct Hb as (? & ? & ? & ?).
  unfold in_bounds, widen_bounds. simpl in *. zcases; lia.
Qed.

(** Widening describes at least what either argument describes, and narrowing exactly what
    both describe. *)
Theorem widen_narrow_spec a b v :
  dbm_wf a -> dbm_wf b ->
  (holds a v \/ holds b v -> holds (widen a b) v) /\ (holds (narrow a b) v <-> holds a v /\ holds b v).
Proof.
  intros Ha Hb. pose proof (fun x y => get_widen a b x y Ha) as Hw. pose proof (fun x y => get_narrow a b x y Ha) as Hn.
  destruct (holds_sync_all a v Ha) as [Wa Sa], (holds_sync_all b v Hb) as [Wb Sb]. split.
  - intros Hv. constructor.
    + destruct Hv as [Hv|Hv]; apply Hv.
    + intros x y. rewrite (proj1 (Hw x y)). unfold widen_cell. fold (get a x y) (get b x y).
      destruct (Z.ltb_spec (get a x y) (get b x y)); [lia|].
      destruct Hv as [Hv|Hv]; pose proof (holds_rel _ v Hv x y); lia.
    + intros x. rewrite (proj2 (Hw x x)). destruct Hv as [Hv|Hv].
      * apply widen_bounds_l; [by eapply (holds_s64 a)|]. by apply Sa.
      * apply widen_bounds_r; [by eapply (holds_s64 b)|]. by apply Sb.
  - split.
    + intros [H0 Hr Hbs]. split; constructor; try done; intros x.
      1, 3: intros y; specialize (Hr x y); rewrite (proj1 (Hn x y)) in Hr; lia.
      all: specialize (Hbs x); rewrite (proj2 (Hn x x)) in Hbs; unfold in_bounds, narrow_bounds in *; simpl in *; lia.
    + intros [Hva Hvb]. constructor; [apply Hva| |]; intros x.
      * intros y. rewrite (proj1 (Hn x y)). pose proof (holds_rel _ v Hva x y). pose proof (holds_rel _ v Hvb x y). lia.
      * rewrite (proj2 (Hn x x)). pose proof (holds_bounds _ v Hva x) as Bx. pose proof (holds_bounds _ v Hvb x) as By.
        unfold in_bounds, narrow_bounds in *. simpl. lia.
Qed.

Lemma widen_narrow_spec_witness :
  let v := upd (fun _ => 0) R1 5 in
  holds (widen (assign_imm new R1 5) (assign_imm new R1 6)) v.
Proof.
  intros v. apply (widen_narrow_spec (assign_imm new R1 5) (assign_imm new R1 6) v).
  1, 2: apply wf_assign_imm; [apply wf_new|reflexivity|split; [discriminate|reflexivity]].
  left. apply holds_assign_imm; [apply wf_new|reflexivity|split; [discriminate|reflexivity]|].
  apply holds_new; [reflexivity|]. intros x. split; [discriminate|reflexivity].
Defined.

(** * Convergence of widening *)

Lemma wf_zone_widen a b : dbm_wf a -> dbm_wf b -> dbm_wf (widen a b).
Proof.
  intros Ha Hb. pose proof (fun x y => get_widen a b x y Ha) as Hw.
  destruct (grid_swept (widen_cell a b)
    (fun i => widen_bounds (bounds (sync_all a) !!! i) (bounds (sync_all b) !!! i)) (widen_step a b)
    (MkDbm (data a) (bounds a) None) (wf_square a Ha) (wf_len a Ha) (widen_writes a b)) as [[Hsq _] [Hl _]].
  rewrite <- widen_grid in Hsq, Hl by done.
  destruct (holds_sync_all a (fun _ => 0) Ha) as [Wa _], (holds_sync_all b (fun _ => 0) Hb) as [Wb _].
  constructor; [split; [done|]|done| | |].
  - intros i j Hi Hj. destruct (idx_of_lt i Hi) as [x ->], (idx_of_lt j Hj) as [y ->].
    fold (get_idx (widen a b) (idx x) (idx y)) (get (widen a b) x y). rewrite (proj1 (Hw x y)).
    unfold widen_cell. case_match; [done|]. apply (wf_get a x y Ha).
  - intros x. rewrite (proj2 (Hw x x)). pose proof (wf_bounds _ Wa x). pose proof (wf_bounds _ Wb x).
    unfold widen_bounds. bounds_wf_auto; done.
  - intros x Hx. rewrite (proj2 (Hw x x)), (wf_anchor _ Wa x Hx), (wf_anchor _ Wb x Hx). done.
  - rewrite widen_grid by done.
    apply (for_range_inv (fun r => tracker_wf (provenance r))); [done|]. intros k r Hk Hr. unfold row. simpl.
    apply (for_range_inv (fun r => tracker_wf (provenance r))); [done|]. intros j r' Hj Hr'.
    unfold widen_step. by case_match.
Qed.

(** The states of a loop head, widened with [newer k] at round [k]. *)
Fixpoint widen_seq (d : Dbm) (newer : nat -> Dbm) (k : nat) : Dbm :=
  match k with O => d | S k => widen (widen_seq d newer k) (newer k) end.

Definition all_cells : list (nat * nat) := list_prod (seq 0 DBM_DIM) (seq 0 DBM_DIM).
Definition finite_cells (d : Dbm) : nat :=
  length (List.filter (fun p => get_idx d (p.1) (p.2) <? INF) all_cells).

Lemma filter_length_le {A} (f g : A -> bool) l :
  (forall x, In x l -> f x = true -> g x = true) ->
  (length (List.filter f l) <= length (List.filter g l))%nat /\
  ((exists x, In x l /\ f x = false /\ g x = true) -> (length (List.filter f l) < length (List.filter g l))%nat).
Proof.
  induction l as [|a l IH]; intros Hfg; simpl.
  { split; [lia|]. intros (x & [] & _). }
  destruct IH as [IHle IHlt]; [by intros x Hx; apply Hfg; right|].
  pose proof (Hfg a (or_introl eq_refl)) as Ha.
  destruct (f a) eqn:Ef, (g a) eqn:Eg; simpl; (split; [try lia; specialize (Ha eq_refl); done|]);
    try (specialize (Ha eq_refl); done); intros (x & [<-|Hx] & Hf & Hg); try congruence;
    try (assert (length (List.filter f l) < length (List.filter g l))%nat by (apply IHlt; eauto)); lia.
Qed.

Lemma square_ext (m m' : list (list Z)) n :
  square n m -> square n m' -> (forall i j, (i < n)%nat -> (j < n)%nat -> cell m i j = cell m' i j) -> m = m'.
Proof.
  intros [Hl HF] [Hl' HF'] Heq. apply (list_eq_same_length _ _ n); [done|done|].
  intros i r r' Hi Hr Hr'. pose proof (square_row n m i r (conj Hl HF) Hr). pose proof (square_row n m' i r' (conj Hl' HF') Hr').
  apply (list_eq_same_length _ _ n); [done|done|]. intros j z z' Hj Hz Hz'. specialize (Heq i j Hi Hj).
  unfold cell in Heq. rewrite (list_lookup_total_correct _ _ _ Hr), (list_lookup_total_correct _ _ _ Hr') in Heq.
  by rewrite (list_lookup_total_correct _ _ _ Hz), (list_lookup_total_correct _ _ _ Hz') in Heq.
Qed.

(** A round of widening removes finite entries or changes no entry. *)
Lemma widen_progress a b : dbm_wf a -> dbm_wf b -> (forall x y, get a x y <= INF) ->
  (finite_cells (widen a b) <= finite_cells a)%nat /\
  (data (widen a b) <> data a -> (finite_cells (widen a b) < finite_cells a)%nat).
Proof.
  intros Ha Hb Hcap.
  assert (forall i j, (i < DBM_DIM)%nat -> (j < DBM_DIM)%nat ->
    get_idx (widen a b) i j = get_idx a i j \/ get_idx (widen a b) i j = INF /\ get_idx a i j < INF) as Hstep.
  { intros i j Hi Hj. destruct (idx_of_lt i Hi) as [x ->], (idx_of_lt j Hj) as [y ->].
    fold (get (widen a b) x y) (get a x y). rewrite (proj1 (get_widen a b x y Ha)). unfold widen_cell.
    fold (get a x y). specialize (Hcap x y). case_match; lia. }
  assert (forall p, In p all_cells <-> (p.1 < DBM_DIM)%nat /\ (p.2 < DBM_DIM)%nat) as Hin.
  { intros [i j]. unfold all_cells. rewrite in_prod_iff, !in_seq. simpl. lia. }
  destruct (filter_length_le (fun p => get_idx (widen a b) (p.1) (p.2) <? INF)
    (fun p => get_idx a (p.1) (p.2) <? INF) all_cells) as [Hle Hlt].
  { intros [i j] [Hi Hj]%Hin. cbn [fst snd] in *. rewrite !Z.ltb_lt. destruct (Hstep i j Hi Hj); lia. }
  split; [done|]. intros Hne. apply Hlt.
  destruct (existsb (fun p => negb (get_idx (widen a b) (p.1) (p.2) =? get_idx a (p.1) (p.2))) all_cells) eqn:E.
  - apply existsb_exists in E as ([i j] & Hp & Hd). exists (i, j). split; [done|]. apply Hin in Hp as [Hi Hj]. cbn [fst snd] in *.
    apply negb_true_iff, Z.eqb_neq in Hd. destruct (Hstep i j Hi Hj) as [?|[E ?]]; [done|]. rewrite E. lia.
  - exfalso. apply Hne. apply (square_ext _ _ DBM_DIM); [by apply wf_square, wf_zone_widen|by apply wf_square|].
    intros i j Hi Hj. destruct (Z.eq_dec (cell (data (widen a b)) i j) (cell (data a) i j)) as [|Hd]; [done|].
    apply not_true_iff_false in E. exfalso. apply E, existsb_exists. exists (i, j). split; [by apply Hin|].
    by apply negb_true_iff, Z.eqb_neq.
Qed.

(** C40. Widening converges on the matrix of difference bounds.  Whatever well-formed states are
    widened into a well-formed state whose entries are at most [INF], its matrix changes in at most as
    many rounds as it had finite entries (so in at most 225); in all other rounds it stays.  The
    ranges kept beside the matrix are not counted. *)
Theorem widen_converges d newer rounds :
  dbm_wf d -> (forall k, dbm_wf (newer k)) -> (forall x y, get d x y <= INF) ->
  (length (List.filter (fun k => negb (bool_decide (data (widen_seq d newer (S k)) = data (widen_seq d newer k))))
     (seq 0 rounds)) <= finite_cells d <= 225)%nat.
Proof.
  intros Hd Hn Hcap. split.
  2:{ unfold finite_cells. replace 225%nat with (length all_cells) by reflexivity. apply List.filter_length_le. }
  assert (forall k, dbm_wf (widen_seq d newer k) /\ forall x y, get (widen_seq d newer k) x y <= INF) as Hinv.
  { induction k as [|k [IHw IHc]]; [done|]. simpl. split; [by apply wf_zone_widen|].
    intros x y. rewrite (proj1 (get_widen _ _ x y IHw)). unfold widen_cell. case_match; [zlia|apply IHc]. }
  enough (length (List.filter (fun k => negb (bool_decide (data (widen_seq d newer (S k)) = data (widen_seq d newer k))))
    (seq 0 rounds)) + finite_cells (widen_seq d newer rounds) <= finite_cells d)%nat by lia.
  induction rounds as [|m IH]; [done|]. rewrite seq_S, List.filter_app, length_app. destruct (Hinv m) as [Hw Hc].
  destruct (widen_progress (widen_seq d newer m) (newer m)) as [Hle Hlt]; auto.
  change (widen (widen_seq d newer m) (newer m)) with (widen_seq d newer (S m)) in *.
  cbn [List.filter Nat.add]. case_bool_decide as Hb; cbn [negb length]; [lia|]. specialize (Hlt Hb). lia.
Qed.

Lemma widen_converges_witness :
  let five := assign_imm new R1 5 in let six := assign_imm new R1 6 in
  (length (List.filter (fun k => negb (bool_decide
     (data (widen_seq five (fun _ => six) (S k)) = data (widen_seq five (fun _ => six) k)))) (seq 0 9))
   <= finite_cells five)%nat.
Proof.
  intros five six. apply (widen_converges five (fun _ => six) 9).
  1, 2: intros; apply wf_assign_imm; [apply wf_new|reflexivity|split; [discriminate|reflexivity]].
  intros x y. destruct x, y; vm_compute; discriminate.
Defined.

(** * Paths *)

(** A path through the analysis beside an execution: operations of the domain with the effect of the
    instruction they stand for, and loop heads, where a well-formed state is widened with the present
    one or the present one with it. *)
Inductive zone_path : Dbm -> (Reg -> Z) -> Dbm -> (Reg -> Z) -> Prop :=
| path_end d v : zone_path d v d v
| path_op op d v w d' w' :
    args_ok op = true -> in_range op v = true -> effect op v w ->
    zone_path (apply op d) w d' w' -> zone_path d v d' w'
| path_widen_old d other v d' w' : dbm_wf other ->
    zone_path (widen d other) v d' w' -> zone_path d v d' w'
| path_widen_new d other v d' w' : dbm_wf other ->
    zone_path (widen other d) v d' w' -> zone_path d v d' w'.

Lemma path_holds d v d' v' : zone_path d v d' v' -> dbm_wf d -> holds d v -> dbm_wf d' /\ holds d' v'.
Proof.
  induction 1 as [d v|op d v w d' w' Ha Hr He _ IH|d o v d' w' Ho _ IH|d o v d' w' Ho _ IH]; intros Hd Hv; [done|..];
    apply IH; auto using apply_wf, wf_zone_widen.
  - by apply (apply_sound op d v w).
  - apply (widen_narrow_spec d o v); auto.
  - apply (widen_narrow_spec o d v); auto.
Qed.

(** C8. Along every path of operations and widenings from the initial state, on which the operations
    do not wrap ([in_range]) and overwrite registers only, the state is well formed and describes the
    registers and anchors, and what the analysis reads off it is true of them: it is not inconsistent,
    intervals, constants, distances (that fit into 64 bits), signs and 32-bit ranges are right, and an
    access that the packet or the metadata check accepts, at an offset and of a size up to 2^60, lies
    between its anchors. *)
Theorem zone_path_safe v0 d v :
  v0 Zero = 0 -> (forall x, in_s 64 (v0 x)) -> zone_path new v0 d v ->
  dbm_wf d /\ is_inconsistent d = false /\
  (forall x, (get_interval d x).1 <= v x <= (get_interval d x).2) /\
  (forall x c, get_fixed_value d x = Some c -> v x = c) /\
  (forall x y, in_s 64 (v x - v y) ->
     (get_distance_interval d x y).1 <= v x - v y <= (get_distance_interval d x y).2 /\
     forall c, get_distance_fixed d x y = Some c -> v x - v y = c) /\
  (forall x, (proven_zero d x = true -> v x = 0) /\ (proven_nonnegative d x = true -> 0 <= v x) /\
     (proven_positive d x = true -> 0 < v x) /\ (proven_u32_range d x Zero = true -> in_u 32 (v x))) /\
  (forall base off size, Z.abs off <= 2 ^ 60 -> 0 <= size <= 2 ^ 60 ->
     (verify_packet_bounds d base off size = (true, true) ->
        v AnchorData <= v base + off /\ v base + off + size <= v AnchorDataEnd) /\
     (verify_packet_meta_bounds d base off size = (true, true) ->
        v AnchorDataMeta <= v base + off /\ v base + off + size <= v AnchorData)).
Proof.
  intros H0 Hs Hp. destruct (path_holds _ _ _ _ Hp wf_new (holds_new v0 H0 Hs)) as [Hd Hv].
  assert (forall x, in_s 64 (v x - v Zero)) as Hz.
  { intros x. rewrite (holds_zero d v Hv), Z.sub_0_r. by eapply holds_s64. }
  split; [done|]. split; [by eapply holds_consistent|].
  split; [intros x; apply (zone_queries_sound d v x Zero 0 Hd Hv (Hz x))|].
  split; [intros x c; apply (zone_queries_sound d v x Zero c Hd Hv (Hz x))|].
  split. { intros x y Hxy. split; [apply (zone_queries_sound d v x y 0 Hd Hv Hxy)|].
    intros c. apply (zone_queries_sound d v x y c Hd Hv Hxy). }
  split. { intros x. destruct (zone_queries_sound d v x Zero 0 Hd Hv (Hz x)) as (_ & _ & _ & _ & ? & ? & ? & ? & _). done. }
  intros base off size Ho Hsz. split; by apply region_access_lemma.
Qed.

(** R2 = data; the fall-through of a comparison of R2 + 8 with the end; a loop head; an access of four
    bytes at R2 + 4. *)
Definition packet_env : Reg -> Z := fun r => match r with R2 | AnchorDataMeta | AnchorData => 64 | AnchorDataEnd => 80 | _ => 0 end.
Definition checked : list zone_op := [InitAnchors; BindToAnchor R2 AnchorData; AssumeLeOffset R2 AnchorDataEnd (-8)].

Lemma checked_path d v d' : (forall op, In op checked -> args_ok op = true /\ in_range op v = true /\ effect op v v) ->
  zone_path (foldl (fun d op => apply op d) d checked) v d' v -> zone_path d v d' v.
Proof.
  intros H. revert d. induction checked as [|op l IH]; intros d Hp; [done|].
  destruct (H op) as (? & ? & ?); [by left|]. eapply path_op; [done..|]. apply IH; [|done]. intros o Ho. apply H. by right.
Qed.

Lemma zone_path_safe_witness : exists d,
  verify_packet_bounds d R2 4 4 = (true, true) /\
  packet_env AnchorData <= packet_env R2 + 4 /\ packet_env R2 + 4 + 4 <= packet_env AnchorDataEnd.
Proof.
  set (d1 := foldl (fun d op => apply op d) new checked). exists (widen d1 d1).
  assert (verify_packet_bounds (widen d1 d1) R2 4 4 = (true, true)) as Hok by (vm_compute; reflexivity).
  split; [exact Hok|].
  refine (proj1 (proj2 (proj2 (proj2 (proj2 (proj2 (proj2 (zone_path_safe packet_env (widen d1 d1) packet_env _ _ _))))))
    R2 4 4 _ _) Hok); [reflexivity|..].
  - intros x. destruct x; vm_compute; split; congruence.
  - apply checked_path.
    + intros op [<-|[<-|[<-|[]]]]; (split; [reflexivity|split; [reflexivity|]]); split; try (intros r; reflexivity);
        vm_compute; intuition congruence.
    + eapply path_widen_old; [|apply path_end].
      repeat (apply apply_wf; [reflexivity|]). apply wf_new.
  - vm_compute. congruence.
  - vm_compute. split; congruence.
Defined.

(** * Calls *)

(** A loop that keeps [P], establishes [Q b] when it visits [b], and never loses it. *)
Lemma foldl_each {A B} (P : A -> Prop) (Q : B -> A -> Prop) (f : A -> B -> A) l :
  (forall b a, In b l -> P a -> P (f a b) /\ Q b (f a b) /\ forall c, Q c a -> Q c (f a b)) ->
  forall a, P a ->
  P (foldl f a l) /\ (forall b, In b l -> Q b (foldl f a l)) /\ (forall c, Q c a -> Q c (foldl f a l)).
Proof.
  induction l as [|b l IH]; intros Hf a Ha; simpl; [by split_and!|].
  destruct (Hf b a (or_introl eq_refl) Ha) as (Hp & Hq & Hk).
  destruct (IH (fun c a' Hc => Hf c a' (or_intror Hc)) _ Hp) as (Hp' & Hq' & Hk'). split_and!; [done| |auto].
  intros c [<-|Hc]; auto.
Qed.

(** The closure only tightens. *)
Lemma get_close_le d x y : dbm_wf d -> get (close d) x y <= get d x y.
Proof.
  intros W. destruct (close_data_inv _ ltac:(rewrite wf_num_vars by exact W; exact (wf_square _ W))) as (_ & Ht & _).
  rewrite wf_num_vars in Ht by exact W. apply (Ht (idx x) (idx y)); apply idx_lt.
Qed.

(** What a step for two anchors does: it keeps the valuation, tightens, and reaches the bound of the callee. *)
Section Preserve.
Context (caller callee : Dbm) (v w : Reg -> Z).
Context (Hw : holds callee w) (Hsame : forall a, is_anchor a = true -> w a = v a).

Definition tighter (d : Dbm) : Prop := dbm_wf d /\ holds d v /\ forall x y, get d x y <= get caller x y.
Definition reached (a b : Reg) (d : Dbm) : Prop :=
  a <> b -> NEG_BOUND <= get callee a b <= POS_BOUND -> get d a b <= get callee a b.

Lemma anchors_anchor a : In a anchors -> is_anchor a = true.
Proof. unfold anchors. simpl. naive_solver. Qed.

Lemma preserve_step a b d : In a anchors -> In b anchors -> tighter d ->
  let d' := if bool_decide (a = b) then d
            else if get callee a b <? get d a b then add_constraint d a b (get callee a b) else d in
  tighter d' /\ reached a b d' /\ (forall a' b', reached a' b' d -> reached a' b' d').
Proof.
  intros Ha Hb (W & H & Hle). case_bool_decide as Hab; [split; [by split_and!|split; [by intros ?|done]]|].
  destruct (Z.ltb_spec (get callee a b) (get d a b)) as [Hlt|Hge];
    [|split; [by split_and!|split; [intros _ _; lia|done]]].
  assert (forall x y, get (add_constraint d a b (get callee a b)) x y <= get d x y) as Hdec.
  { intros x y. rewrite get_add_constraint by done. case_decide as Hdec; [|done]. destruct Hdec as (-> & -> & _). lia. }
  split; [|split].
  - split_and!; [zone_wf| |intros x y; specialize (Hle x y); specialize (Hdec x y); lia].
    destruct (Z.lt_ge_cases (get callee a b) INF) as [Hfin|Hinf].
    + apply holds_add_constraint; [done| |done]. rewrite <- !Hsame by by apply anchors_anchor.
      by apply (holds_rel callee w Hw).
    + unfold add_constraint, clamp_upper_bound. destruct (Z.ltb_spec POS_BOUND (get callee a b)); [done|zlia].
  - intros _ Hr. rewrite get_add_constraint by done. unfold clamp_upper_bound.
    destruct (Z.ltb_spec POS_BOUND (get callee a b)); [lia|]. destruct (Z.ltb_spec (get callee a b) NEG_BOUND); [lia|].
    case_decide as Hdec'; [lia|]. exfalso. apply Hdec'. split_and!; [done|done|zlia].
  - intros a' b' Hr Hne Hrange. specialize (Hr Hne Hrange). specialize (Hdec a' b'). lia.
Qed.
End Preserve.

(** Returning from a call keeps what the callee learnt about the packet.  If the caller's state describes
    the valuation and the callee's state one with the same anchors, the merged state describes the
    caller's valuation and is at least as tight as the caller's; every bound between two anchors that
    is in the range of stored constraints is at least as tight as the callee's. *)
Theorem preserve_anchors_sound caller callee v w :
  dbm_wf caller -> holds caller v -> holds callee w -> (forall a, is_anchor a = true -> w a = v a) ->
  holds (preserve_anchor_constraints caller callee) v /\
  (forall x y, get (preserve_anchor_constraints caller callee) x y <= get caller x y) /\
  (forall a b, In a anchors -> In b anchors -> a <> b -> NEG_BOUND <= get callee a b <= POS_BOUND ->
     get (preserve_anchor_constraints caller callee) a b <= get callee a b).
Proof.
  intros Hd Hv Hw Hsame. unfold preserve_anchor_constraints.
  match goal with |- holds (close ?m) _ /\ _ =>
    assert (tighter caller v m /\ forall a, In a anchors -> forall b, In b anchors -> reached callee a b m)
      as [(W & H & Hle) Hr] end.
  { edestruct (foldl_each (tighter caller v) (fun a d => forall b, In b anchors -> reached callee a b d)) as (H1 & H2 & _);
      [|by split_and!|split; [exact H1|exact H2]].
    intros a d Ha Hd'. edestruct (foldl_each (fun d' => tighter caller v d' /\ forall a' b', reached callee a' b' d -> reached callee a' b' d')
      (reached callee a)) as ([H1 H3] & H2 & _); [|split; [exact Hd'|done]|split; [exact H1|split; [exact H2|intros; apply H3; auto]]].
    intros b d' Hb [Ht Hk]. destruct (preserve_step caller callee v w Hw Hsame a b d' Ha Hb Ht) as (T & R & K).
    split; [split; [done|auto]|split; [done|auto]]. }
  split; [by apply holds_close|]. split.
  - intros x y. etrans; [by apply get_close_le|apply Hle].
  - intros a b Ha Hb Hne Hrg. etrans; [by apply get_close_le|by apply Hr].
Qed.

Lemma preserve_anchors_sound_witness :
  let v := fun r => match r with AnchorDataEnd => 100 | _ => 0 end in
  holds (preserve_anchor_constraints new (init_packet_anchors new)) v.
Proof.
  intros v. assert (holds new v) as Hn.
  { apply holds_new; [reflexivity|]. intros x. destruct x; split; vm_compute; (discriminate || reflexivity). }
  apply (preserve_anchors_sound new (init_packet_anchors new) v v); auto.
  - apply wf_new.
  - constructor; [reflexivity| |].
    + intros x y. destruct x, y; vm_compute; intros; discriminate.
    + intros x. destruct x; vm_compute; split_and!; discriminate.
Defined.

(** * Defects *)

(** [holds] on a concrete state and valuation, as a check. *)
Definition registers : list Reg := ALL ++ [AnchorDataMeta; AnchorData; AnchorDataEnd].
Definition in_boundsb (b : Bounds) (x : Z) : bool :=
  (s64_min b <=? x) && (x <=? s64_max b) && (u64_min b <=? u64 x) && (u64 x <=? u64_max b) &&
  (s32_min b <=? s32 x) && (s32 x <=? s32_max b) && (u32_min b <=? u32 x) && (u32 x <=? u32_max b).
Definition holdsb (d : Dbm) (v : Reg -> Z) : bool :=
  (v Zero =? 0) &&
  forallb (fun x => forallb (fun y => (INF <=? get d x y) || (v x - v y <=? get d x y)) registers
                    && in_boundsb (get_bounds d x) (v x)) registers.

Lemma all_registers x : In x registers.
Proof. destruct x; simpl; tauto. Qed.

Lemma holdsb_holds d v : holdsb d v = true <-> holds d v.
Proof.
  unfold holdsb. rewrite andb_true_iff, Z.eqb_eq, forallb_forall. split.
  - intros [H0 H]. constructor; [done| |]; intros x; specialize (H x (all_registers x));
      apply andb_true_iff in H as [Hr Hb].
    + intros y Hlt. rewrite forallb_forall in Hr. specialize (Hr y (all_registers y)). lia.
    + unfold in_boundsb in Hb. unfold in_bounds. lia.
  - intros [H0 Hr Hb]. split; [done|]. intros x _. rewrite andb_true_iff, forallb_forall. split.
    + intros y _. specialize (Hr x y). lia.
    + specialize (Hb x). unfold in_bounds in Hb. unfold in_boundsb. lia.
Qed.

(** The zone domain does not account for wrap-around.  The states below describe the valuation, yet
    after [R1 += 1] with [R1] the largest signed value, and after [R1 *= 16] with [R1 = 2^60 - 1], the wrapped
    value is excluded: both states claim that [R1] is not negative.  The condition on the range in the
    soundness of the operations cannot be dropped. *)
Theorem zone_wraparound_unsound :
  let at_ z := upd (fun _ => 0) R1 z in
  let d_add := assume_ge_imm new R1 0 in
  let d_mul := assume_range new R1 0 (2 ^ 60 - 1) in
  (holds d_add (at_ i64_MAX) /\ effect (AddImm R1 1) (at_ i64_MAX) (at_ i64_MIN) /\
   ~ holds (apply (AddImm R1 1) d_add) (at_ i64_MIN) /\ proven_positive (apply (AddImm R1 1) d_add) R1 = true) /\
  (holds d_mul (at_ (2 ^ 60 - 1)) /\ effect (MulImm R1 16) (at_ (2 ^ 60 - 1)) (at_ (-16)) /\
   ~ holds (apply (MulImm R1 16) d_mul) (at_ (-16)) /\ proven_nonnegative (apply (MulImm R1 16) d_mul) R1 = true).
Proof.
  cbv zeta. split; (split; [by apply holdsb_holds; vm_compute|split; [intros r; destruct r; vm_compute; reflexivity|split; [|by vm_compute]]]);
    rewrite <- holdsb_holds; by vm_compute.
Qed.

(** Forgetting a register breaks path reconstruction.  After the constraints [R2 - R3 <= 5] and
    [R3 - R4 <= 7] the entry of [R2 - R4] is 12 with a path of two edges; after [forget] on [R3] the
    entry is still 12 but its path is reported as empty, since the origin of the entry still
    points through the forgotten register. *)
Theorem forget_loses_path :
  let d := close (add_constraint (add_constraint (set_current_pc (enable_provenance new) 42) R2 R3 5) R3 R4 7) in
  get d R2 R4 = 12 /\ reconstruct_path 20 d R2 R4 = Some (Some [MkEdge R2 R3 5 42; MkEdge R3 R4 7 42]) /\
  get (forget d R3) R2 R4 = 12 /\ reconstruct_path 20 (forget d R3) R2 R4 = Some (Some []).
Proof. by vm_compute. Qed.

End ZoneProps.
