(* ===== verification/ZoneRun.v ===== *)
(** Packet programs checked with the zone domain.

    [zrun] explores the paths of a program whose pointers come from the context of a packet program:
    every pointer is bound to its anchor ([bind_to_anchor]), moved with [apply_add_imm] and
    [apply_add_reg], refined at comparisons ([assume_le], [assume_gt]) and checked at loads
    ([check_region_access]); numbers are masked with [apply_and_imm]; paths whose state is
    inconsistent are dropped.  It is a proof
    method of this development, not the transfer or branch code of the verifier; [zrun_sound]
    says that a program it accepts runs to its exit under [BpfSem], for every packet and every
    metadata area. *)

From S2P Require Import Prelude BpfInsn ConvertTests BpfSem Zone ZoneClose ZoneSound ZoneOps ZoneProps.
From Stdlib Require Import ZArith Lia String.
From stdpp Require Import base numbers strings gmap list.
Import Zone ZoneClose ZoneSound ZoneOps ZoneProps BpfInsn ConvertTests BpfSem.
Open Scope Z_scope.

Module ZoneRun.

(** * Abstract execution *)

(** What is known of a register: nothing, some number, the context, the end of the packet, or a
    position at a bounded distance from the start of the packet or of the metadata. *)
Inductive rtype : Type :=
| TNone | TScalar | TCtx | TEnd | TPkt (lo hi : Z) | TMeta (lo hi : Z).

Record astate : Type := MkA { a_pc : Z; a_types : list rtype; a_dbm : Dbm }.

Definition reg_of (r : Z) : Reg := default R10 (idx_to_reg (S (Z.to_nat r))).
Definition type_of (types : list rtype) (r : Z) : rtype := default TNone (types !! Z.to_nat r).

(** Results go to one of the registers 0 to 9. *)
Definition writable_reg (r : Z) : bool := (0 <=? r) && (r <? 10).
Definition set_type (types : list rtype) (r : Z) (t : rtype) : list rtype := <[Z.to_nat r := t]> types.

(** Offsets for which the addresses are far from the ends of the address space. *)
Definition offset_ok (c : Z) : bool := (-0x10000 <=? c) && (c <=? 0x10000).

(** The type after adding a number of [a, b]. *)
Definition shift_type (t : rtype) (a b : Z) : option rtype :=
  match t with
  | TPkt lo hi => if offset_ok (lo + a) && offset_ok (hi + b) then Some (TPkt (lo + a) (hi + b)) else None
  | TMeta lo hi => if offset_ok (lo + a) && offset_ok (hi + b) then Some (TMeta (lo + a) (hi + b)) else None
  | _ => None
  end.

Definition is_ptr (t : rtype) : bool := match t with TPkt _ _ | TMeta _ _ | TEnd => true | _ => false end.

(** Where a context has the three pointers of the packet. *)
Record layout : Type := MkLayout { f_data : Z; f_data_end : Z; f_data_meta : Z }.
Definition XDP : layout := MkLayout (offsetof xdp_md "data") (offsetof xdp_md "data_end") (offsetof xdp_md "data_meta").
Definition SKB : layout :=
  MkLayout (offsetof __sk_buff "data") (offsetof __sk_buff "data_end") (offsetof __sk_buff "data_meta").

(** The fields lie in the context and do not overlap. *)
Definition layout_ok (L : layout) : bool :=
  forallb (fun f => (0 <=? f) && (f <? 0x1000)) [f_data L; f_data_end L; f_data_meta L] &&
  (4 <=? Z.abs (f_data L - f_data_end L)) && (4 <=? Z.abs (f_data L - f_data_meta L)) &&
  (4 <=? Z.abs (f_data_end L - f_data_meta L)).

(** A field of the context that is an anchor. *)
Definition ctx_field (L : layout) (o : Z) : option (rtype * Reg) :=
  if o =? f_data L then Some (TPkt 0 0, AnchorData)
  else if o =? f_data_end L then Some (TEnd, AnchorDataEnd)
  else if o =? f_data_meta L then Some (TMeta 0 0, AnchorDataMeta)
  else None.

Definition check_load (d : Dbm) (t : rtype) (base : Reg) (o size : Z) : bool :=
  match t with
  | TPkt _ _ => match verify_packet_bounds d base o size with (true, true) => true | _ => false end
  | TMeta _ _ => match verify_packet_meta_bounds d base o size with (true, true) => true | _ => false end
  | _ => false
  end.

Definition zload (L : layout) (s : astate) (x : bpf_insn) : option (list astate) :=
  let dst := dst_reg x in
  let t := type_of (a_types s) (src_reg x) in
  if negb (writable_reg dst) then None
  else match t with
       | TCtx =>
           match ctx_field L (off x) with
           | Some (t, anchor) =>
               if (size_bytes (code x) =? 4)%nat then
                 Some [MkA (a_pc s + 1) (set_type (a_types s) dst t)
                         (bind_to_anchor (forget (a_dbm s) (reg_of dst)) (reg_of dst) anchor)]
               else None
           | None => None
           end
       | _ =>
           if check_load (a_dbm s) t (reg_of (src_reg x)) (off x) (Z.of_nat (size_bytes (code x)))
           then Some [MkA (a_pc s + 1) (set_type (a_types s) dst TScalar) (forget (a_dbm s) (reg_of dst))]
           else None
       end.

Definition zadd (s : astate) (dst k : Z) : option (list astate) :=
  if negb (writable_reg dst) then None
  else match shift_type (type_of (a_types s) dst) k k with
       | Some t => Some [MkA (a_pc s + 1) (set_type (a_types s) dst t) (apply_add_imm (a_dbm s) (reg_of dst) k)]
       | None => None
       end.

(** Adding a number of known range to a pointer. *)
Definition zadd_reg (s : astate) (dst src : Z) : option (list astate) :=
  let '(lo, hi) := get_interval (a_dbm s) (reg_of src) in
  if negb (writable_reg dst) then None
  else match type_of (a_types s) src, shift_type (type_of (a_types s) dst) lo hi with
       | TScalar, Some t => Some [MkA (a_pc s + 1) (set_type (a_types s) dst t)
                                    (apply_add_reg (a_dbm s) (reg_of dst) (reg_of src))]
       | _, _ => None
       end.

Definition zand (s : astate) (dst mask : Z) : option (list astate) :=
  match type_of (a_types s) dst with
  | TScalar => if writable_reg dst && (0 <=? mask)
               then Some [MkA (a_pc s + 1) (set_type (a_types s) dst TScalar)
                            (apply_and_imm (a_dbm s) (reg_of dst) mask)]
               else None
  | _ => None
  end.

(** The two sides of a comparison [x > y] or [x >= y]: where the jump goes and the way past it. *)
Definition zcompare (s : astate) (x : bpf_insn) (gt : bool) (a b : Z) : option (list astate) :=
  if is_ptr (type_of (a_types s) a) && is_ptr (type_of (a_types s) b) then
    let d := a_dbm s in
    let ra := reg_of a in let rb := reg_of b in
    let yes := if gt then assume_gt d ra rb else assume_ge d ra rb in
    let no := if gt then assume_le d ra rb else assume_gt d rb ra in
    Some [MkA (a_pc s + off x + 1) (a_types s) yes; MkA (a_pc s + 1) (a_types s) no]
  else None.

(** One instruction; the program has to return [ret]. *)
Definition zstep (L : layout) (ret : Z) (s : astate) (x : bpf_insn) : option (list astate) :=
  let dst := dst_reg x in let src := src_reg x in
  if code x =? BPF_JMP .| BPF_EXIT then
    match type_of (a_types s) 0, get_fixed_value (a_dbm s) R0 with
    | TScalar, Some c => if c =? ret then Some [] else None
    | _, _ => None
    end
  else if code x =? BPF_JMP .| BPF_JA then Some [MkA (a_pc s + off x + 1) (a_types s) (a_dbm s)]
  else if code x =? BPF_JMP .| BPF_JGT .| BPF_X then zcompare s x true dst src
  else if code x =? BPF_JMP .| BPF_JGE .| BPF_X then zcompare s x false dst src
  else if code x =? BPF_JMP .| BPF_JLT .| BPF_X then zcompare s x true src dst
  else if code x =? BPF_JMP .| BPF_JLE .| BPF_X then zcompare s x false src dst
  else if code x =? BPF_ALU64 .| BPF_ADD .| BPF_K then zadd s dst (imm x)
  else if code x =? BPF_ALU64 .| BPF_SUB .| BPF_K then zadd s dst (- imm x)
  else if code x =? BPF_ALU64 .| BPF_ADD .| BPF_X then zadd_reg s dst src
  else if code x =? BPF_ALU64 .| BPF_AND .| BPF_K then zand s dst (imm x)
  else if code x =? BPF_ALU64 .| BPF_MOV .| BPF_X then
    match type_of (a_types s) src with
    | TNone => None
    | t => if writable_reg dst
           then Some [MkA (a_pc s + 1) (set_type (a_types s) dst t)
                        (assign_reg (a_dbm s) (reg_of dst) (reg_of src))]
           else None
    end
  else if code x =? BPF_ALU64 .| BPF_MOV .| BPF_K then
    if writable_reg dst
    then Some [MkA (a_pc s + 1) (set_type (a_types s) dst TScalar) (assign_imm (a_dbm s) (reg_of dst) (imm x))]
    else None
  else if Z.land (code x) 0xe7 =? BPF_LDX .| BPF_MEM then zload L s x
  else None.

Section Run.
Context (L : layout) (prog : list bpf_insn) (ret : Z).

Fixpoint zrun (fuel : nat) (s : astate) : bool :=
  is_inconsistent (a_dbm s) ||
  match fuel with
  | O => false
  | S fuel =>
      if a_pc s <? 0 then false
      else match prog !! Z.to_nat (a_pc s) with
           | None => false
           | Some x => match zstep L ret s x with Some l => forallb (zrun fuel) l | None => false end
           end
  end.
End Run.

Definition entry : astate :=
  MkA 0 (TNone :: TCtx :: replicate 8 TNone ++ [TScalar]) (init_packet_anchors Zone.new).

(** The fields of an instruction are in the range of their types. *)
Definition fields_ok (x : bpf_insn) : bool :=
  bool_decide (in_u 4 (dst_reg x)) && bool_decide (in_u 4 (src_reg x)) &&
  bool_decide (in_s 16 (off x)) && bool_decide (in_s 32 (imm x)).

Definition zone_safe (L : layout) (prog : list bpf_insn) (ret : Z) : bool :=
  forallb fields_ok prog && zrun L prog ret (S (List.length prog)) entry.

(** * Concrete packets *)

(** The memory of a packet program: metadata and packet, and the three fields of its context. *)
Definition packet_mem (L : layout) (meta packet : list Z) : gmap Z Z :=
  let start := PACKET - Z.of_nat (List.length meta) in
  let m := put_bytes start (meta ++ packet) ∅ in
  let m := put_bytes (CTX + f_data L) (le_bytes 4 PACKET) m in
  let m := put_bytes (CTX + f_data_end L) (le_bytes 4 (PACKET + Z.of_nat (List.length packet))) m in
  put_bytes (CTX + f_data_meta L) (le_bytes 4 start) m.

Definition packet_state (L : layout) (meta packet : list Z) : state :=
  MkState 0 (None :: Some CTX :: replicate 8 None ++ [Some STACK_TOP]) (packet_mem L meta packet) [] 0.

Definition packet_run (L : layout) (rand : nat -> Z) (prog : list bpf_insn) (meta packet : list Z) : option event :=
  run prog rand (S (List.length prog)) (packet_state L meta packet).

(** What the environment passes to a program: bytes, at most 32 KiB before and after [data]. *)
Definition packet_input (meta packet : list Z) : Prop :=
  Z.of_nat (List.length meta) <= 0x8000 /\ Z.of_nat (List.length packet) <= 0x8000 /\
  Forall is_byte (meta ++ packet).

(** * Soundness *)

Lemma lookup_put_bytes bs : forall a m x,
  put_bytes a bs m !! x =
    if decide (a <= x < a + Z.of_nat (List.length bs)) then bs !! Z.to_nat (x - a) else m !! x.
Proof.
  induction bs as [|b bs IH]; intros a m x; cbn [put_bytes List.length].
  { rewrite decide_False by lia. done. }
  rewrite IH. destruct (decide (x = a)) as [->|Hne].
  - rewrite decide_False, decide_True by lia. rewrite lookup_insert_eq, Z.sub_diag. done.
  - destruct (decide (a + 1 <= x < a + 1 + Z.of_nat (List.length bs))).
    + rewrite decide_True by lia. replace (Z.to_nat (x - a)) with (S (Z.to_nat (x - (a + 1)))) by lia. done.
    + rewrite decide_False by lia. by rewrite lookup_insert_ne by congruence.
Qed.

Lemma load_bytes n : forall m a,
  (forall i, 0 <= i < Z.of_nat n -> exists b, m !! (a + i) = Some b /\ is_byte b) ->
  exists v, load n m a = Some v /\ in_u (8 * Z.of_nat n) v.
Proof.
  induction n as [|n IH]; intros m a H; cbn [load]; [by exists 0|].
  destruct (H 0) as (b & E & Hb); [lia|]. rewrite Z.add_0_r in E. rewrite E. simpl.
  destruct (IH m (a + 1)) as (v & -> & Hv).
  { intros i Hi. replace (a + 1 + i) with (a + (i + 1)) by lia. apply H. lia. }
  exists (b + 256 * v). split; [done|]. unfold in_u in *. rewrite pow256_succ. unfold is_byte, in_u in Hb. lia.
Qed.

Section Sound.
Context (L : layout) (HL : layout_ok L = true) (prog : list bpf_insn) (ret : Z) (meta packet : list Z).
Context (Hmeta : Z.of_nat (List.length meta) <= 0x8000) (Hpacket : Z.of_nat (List.length packet) <= 0x8000).
Context (Hbytes : Forall is_byte (meta ++ packet)).

Local Abbreviation n := (Z.of_nat (List.length packet)).
Local Abbreviation m := (Z.of_nat (List.length meta)).

(** The addresses a type stands for. *)
Definition points (t : rtype) (x : Z) : Prop :=
  match t with
  | TCtx => x = CTX
  | TEnd => x = PACKET + n
  | TPkt lo hi => PACKET + lo <= x <= PACKET + hi
  | TMeta lo hi => PACKET - m + lo <= x <= PACKET - m + hi
  | _ => False
  end.
Definition type_ok (t : rtype) : Prop :=
  match t with TPkt lo hi | TMeta lo hi => offset_ok lo = true /\ offset_ok hi = true | _ => True end.

(** A register, its type and the value the matrix is about. *)
Definition val_rel (t : rtype) (o : option Z) (z : Z) : Prop :=
  match t with
  | TNone => True
  | TScalar => exists x, o = Some x /\ in_u 64 x /\ z = s64 x
  | _ => o = Some z /\ points t z
  end.

Definition anchors_at (v : Reg -> Z) : Prop :=
  v AnchorData = PACKET /\ v AnchorDataEnd = PACKET + n /\ v AnchorDataMeta = PACKET - m.

Record rel (s : state) (a : astate) (v : Reg -> Z) : Prop := {
  rel_pc : pc s = a_pc a;
  rel_mem : mem s = packet_mem L meta packet;
  rel_frames : frames s = [];
  rel_regs : List.length (regs s) = 11%nat;
  rel_types : List.length (a_types a) = 11%nat;
  rel_wf : dbm_wf (a_dbm a);
  rel_holds : holds (a_dbm a) v;
  rel_anchors : anchors_at v;
  rel_val : forall r, 0 <= r < 11 -> type_ok (type_of (a_types a) r) /\
    val_rel (type_of (a_types a) r) (get_reg s r) (v (reg_of r)) }.

Lemma points_range t x : type_ok t -> points t x -> 0 <= x < 2 ^ 32.
Proof.
  change (2 ^ 32) with 4294967296. destruct t; simpl; unfold PACKET, CTX, offset_ok; try lia.
  all: rewrite !andb_true_iff, !Z.leb_le; lia.
Qed.

Lemma reg_of_real r : 0 <= r < 11 -> real (reg_of r) = true.
Proof.
  intros Hr. assert (In r [0;1;2;3;4;5;6;7;8;9;10]) as H by (simpl; lia). simpl in H.
  repeat (destruct H as [<-|H]; [done|]). done.
Qed.

Lemma reg_of_inj r r' : 0 <= r < 11 -> 0 <= r' < 11 -> reg_of r = reg_of r' -> r = r'.
Proof.
  intros Hr Hr' E. apply (f_equal idx) in E.
  assert (forall r, 0 <= r < 11 -> idx (reg_of r) = S (Z.to_nat r)) as H.
  { clear. intros r Hr. assert (In r [0;1;2;3;4;5;6;7;8;9;10]) as H by (simpl; lia). simpl in H.
    repeat (destruct H as [<-|H]; [done|]). done. }
  rewrite !H in E by done. lia.
Qed.

Lemma writable_range r : writable_reg r = true -> 0 <= r < 10.
Proof. unfold writable_reg. rewrite andb_true_iff, Z.leb_le, Z.ltb_lt. lia. Qed.

(** A typed register is one of the eleven. *)
Lemma typed_range a r : List.length (a_types a) = 11%nat -> 0 <= r -> type_of (a_types a) r <> TNone -> 0 <= r < 11.
Proof.
  intros Hl Hr Ht. split; [done|]. destruct (Z.lt_ge_cases r 11) as [|Hge]; [done|]. destruct Ht.
  unfold type_of. by rewrite lookup_ge_None_2 by lia.
Qed.

Lemma get_reg_set s r r' x :
  List.length (regs s) = 11%nat -> 0 <= r < 11 -> 0 <= r' < 11 ->
  get_reg (set_reg s r x) r' = if decide (r = r') then Some x else get_reg s r'.
Proof.
  intros Hl Hr Hr'. unfold get_reg, set_reg. simpl. case_decide as E; subst.
  - rewrite list_lookup_insert_eq by lia. done.
  - by rewrite list_lookup_insert_ne by lia.
Qed.

Lemma type_of_set types r r' t :
  List.length types = 11%nat -> 0 <= r < 11 -> 0 <= r' < 11 ->
  type_of (set_type types r t) r' = if decide (r = r') then t else type_of types r'.
Proof.
  intros Hl Hr Hr'. unfold type_of, set_type. case_decide as E; subst.
  - by rewrite list_lookup_insert_eq by lia.
  - by rewrite list_lookup_insert_ne by lia.
Qed.

(** Writing a register on both sides. *)
Lemma rel_write s a v r x z t d :
  rel s a v -> writable_reg r = true -> type_ok t -> val_rel t (Some x) z -> dbm_wf d ->
  holds d (upd v (reg_of r) z) ->
  rel (advance (set_reg s r x)) (MkA (a_pc a + 1) (set_type (a_types a) r t) d) (upd v (reg_of r) z).
Proof.
  intros H Hr Ht Hv Hd Hh. apply writable_range in Hr. pose proof (reg_of_real r ltac:(lia)) as Hre.
  constructor; simpl; try apply H; try done.
  - f_equal. apply H.
  - rewrite length_insert. apply H.
  - unfold set_type. rewrite length_insert. apply H.
  - destruct (rel_anchors s a v H) as (? & ? & ?). unfold anchors_at, upd.
    rewrite !decide_False by (intros E; rewrite <- E in Hre; done). done.
  - intros r' Hr'. rewrite type_of_set by (try apply H; lia).
    change (get_reg (advance (set_reg s r x)) r') with (get_reg (set_reg s r x) r').
    rewrite get_reg_set by (try apply H; lia). destruct (decide (r = r')) as [->|Hne].
    + rewrite upd_eq. done.
    + rewrite upd_ne; [by apply H|]. intros E. apply Hne, reg_of_inj; [lia|lia|done].
Qed.

(** * Memory *)

Lemma layout_fields : let ok f := 0 <= f < 0x1000 in
  ok (f_data L) /\ ok (f_data_end L) /\ ok (f_data_meta L) /\ 4 <= Z.abs (f_data L - f_data_end L) /\
  4 <= Z.abs (f_data L - f_data_meta L) /\ 4 <= Z.abs (f_data_end L - f_data_meta L).
Proof.
  clear -HL. unfold layout_ok in HL. cbn [forallb] in HL. rewrite !andb_true_iff, !Z.leb_le, !Z.ltb_lt in HL.
  cbv zeta. tauto.
Qed.

Lemma packet_mem_bytes x :
  PACKET - m <= x < PACKET + n -> exists b, packet_mem L meta packet !! x = Some b /\ is_byte b.
Proof.
  intros Hx. unfold packet_mem. pose proof layout_fields as (? & ? & ? & _).
  rewrite !lookup_put_bytes, !length_le_bytes.
  do 3 (rewrite decide_False by (unfold CTX, PACKET in *; lia)).
  rewrite decide_True by (rewrite length_app; lia).
  destruct (lookup_lt_is_Some_2 (meta ++ packet) (Z.to_nat (x - (PACKET - m)))) as [b Hb].
  { rewrite length_app. lia. }
  exists b. split; [done|]. by eapply Forall_lookup_1 in Hbytes.
Qed.

Lemma load_le bs : forall mm a,
  (forall i, (i < List.length bs)%nat -> mm !! (a + Z.of_nat i) = bs !! i) ->
  load (List.length bs) mm a = Some (le_val bs).
Proof.
  induction bs as [|b bs IH]; intros mm a H; cbn [load List.length le_val]; [done|].
  pose proof (H 0%nat ltac:(simpl; lia)) as H0. rewrite Z.add_0_r in H0. rewrite H0. simpl.
  rewrite IH; [done|]. intros i Hi. specialize (H (S i) ltac:(simpl; lia)).
  replace (a + 1 + Z.of_nat i) with (a + Z.of_nat (S i)) by lia. done.
Qed.

(** A field holds its word. *)
Lemma load_word mm a v : in_u 32 v -> (forall i, (i < 4)%nat -> mm !! (a + Z.of_nat i) = le_bytes 4 v !! i) ->
  load 4 mm a = Some v.
Proof.
  intros Hv H. rewrite <- (le_val_bytes_small 4 v Hv). rewrite <- (length_le_bytes 4 v) at 1.
  apply load_le. by rewrite length_le_bytes.
Qed.

Lemma packet_mem_ctx o t anchor :
  ctx_field L o = Some (t, anchor) -> 0 <= o < 0x1000 /\
  exists a, load 4 (packet_mem L meta packet) (CTX + o) = Some a /\ points t a /\ type_ok t /\ is_ptr t = true /\
  is_anchor anchor = true /\ (forall v, anchors_at v -> v anchor = a).
Proof.
  pose proof layout_fields as (F1 & F2 & F3 & D1 & D2 & D3). unfold ctx_field.
  destruct (Z.eqb_spec o (f_data L)) as [->|_]; [|destruct (Z.eqb_spec o (f_data_end L)) as [->|_];
    [|destruct (Z.eqb_spec o (f_data_meta L)) as [->|_]; [|done]]]; intros [= <- <-]; (split; [lia|]).
  1: exists PACKET. 2: exists (PACKET + n). 3: exists (PACKET - m).
  all: split_and!; try done; try (simpl; lia); try (intros v (? & ? & ?); done).
  all: apply load_word; [unfold in_u, PACKET; change (2 ^ 32) with 4294967296; lia|]; intros i Hi; unfold packet_mem;
    rewrite !lookup_put_bytes, !length_le_bytes; change (Z.of_nat 4) with 4;
    repeat case_decide; try lia; f_equal; lia.
Qed.

(** * Instructions *)

Context (rand : nat -> Z).

Definition at_insn (s : state) (x : bpf_insn) : Prop :=
  (pc s <? 0) = false /\ prog !! Z.to_nat (pc s) = Some x /\ fields_ok x = true.

Lemma step_alu64 s x : at_insn s x -> Z.land (code x) 7 = BPF_ALU64 ->
  step prog rand s = of_option (step_alu 64 s x).
Proof. intros (H0 & Hx & _) Hc. unfold step. by rewrite H0, Hx, Hc. Qed.
Lemma step_jmp64 s x : at_insn s x -> Z.land (code x) 7 = BPF_JMP -> step prog rand s = step_jmp rand 64 s x.
Proof. intros (H0 & Hx & _) Hc. unfold step. by rewrite H0, Hx, Hc. Qed.
Lemma step_load s x : at_insn s x -> Z.land (code x) 7 = BPF_LDX ->
  step prog rand s = of_option (step_ldx s x).
Proof. intros (H0 & Hx & _) Hc. unfold step. by rewrite H0, Hx, Hc. Qed.

Lemma fields_range x : fields_ok x = true ->
  0 <= dst_reg x < 16 /\ 0 <= src_reg x < 16 /\ -32768 <= off x < 32768 /\ -2147483648 <= imm x < 2147483648.
Proof.
  unfold fields_ok. rewrite !andb_true_iff, !bool_decide_eq_true. unfold in_u, in_s.
  change (2 ^ 4) with 16. change (2 ^ (16 - 1)) with 32768. change (2 ^ (32 - 1)) with 2147483648. lia.
Qed.

(** A register that holds a pointer. *)
Lemma rel_ptr s a v r : rel s a v -> 0 <= r -> is_ptr (type_of (a_types a) r) = true ->
  0 <= r < 11 /\ get_reg s r = Some (v (reg_of r)) /\ points (type_of (a_types a) r) (v (reg_of r)) /\
  0 <= v (reg_of r) < 2 ^ 32 /\ type_ok (type_of (a_types a) r).
Proof.
  intros H Hr Hp. assert (type_of (a_types a) r <> TNone) as Hn by (intros E; by rewrite E in Hp).
  assert (0 <= r < 11) as Hr11 by (eapply typed_range; [apply H|done|done]).
  destruct (rel_val s a v H r Hr11) as [Hok Hv]. pose proof (points_range (type_of (a_types a) r) (v (reg_of r)) Hok) as Hpr.
  assert (get_reg s r = Some (v (reg_of r)) /\ points (type_of (a_types a) r) (v (reg_of r))) as [Hg Hpt]
    by (by destruct (type_of (a_types a) r)).
  split; [done|]. split; [done|]. split; [done|]. split; [by apply Hpr|done].
Qed.

(** A register that holds a number. *)
Lemma rel_scalar s a v r : rel s a v -> 0 <= r -> type_of (a_types a) r = TScalar ->
  0 <= r < 11 /\ exists x, get_reg s r = Some x /\ in_u 64 x /\ v (reg_of r) = s64 x.
Proof.
  intros H Hr Ht. assert (0 <= r < 11) as Hr11 by (eapply typed_range; [apply H|done|by rewrite Ht]).
  destruct (rel_val s a v H r Hr11) as [_ Hv]. rewrite Ht in Hv. done.
Qed.

Lemma u64_id z : 0 <= z < 2 ^ 32 -> u64 z = z.
Proof.
  intros Hz. apply uwrap_small. unfold in_u. change (2 ^ 64) with (2 ^ 32 * 2 ^ 32). change (2 ^ 32) with 4294967296 in *. lia.
Qed.

Lemma in_s64_addr z : 0 <= z < 2 ^ 32 -> in_s 64 z.
Proof. intros Hz. unfold in_s. change (2 ^ 32) with 4294967296 in Hz. change (2 ^ (64 - 1)) with 9223372036854775808. lia. Qed.

(** Both sides of a comparison. *)
Lemma compare_rel s a v x gt p q l :
  rel s a v -> 0 <= p -> 0 <= q -> zcompare a x gt p q = Some l ->
  exists vp vq, get_reg s p = Some vp /\ get_reg s q = Some vq /\ 0 <= vp < 2 ^ 32 /\ 0 <= vq < 2 ^ 32 /\
  let c := if gt then vq <? vp else vq <=? vp in
  exists a', In a' l /\ rel (set_pc s (if c then pc s + off x + 1 else pc s + 1)) a' v.
Proof.
  intros H Hp Hq Hz. unfold zcompare in Hz. destruct (is_ptr _) eqn:Ep; [|done]. destruct (is_ptr (type_of _ q)) eqn:Eq; [|done].
  simpl in Hz. injection Hz as <-. destruct (rel_ptr s a v p H Hp Ep) as (Hrp & Gp & _ & Rp & _).
  destruct (rel_ptr s a v q H Hq Eq) as (Hrq & Gq & _ & Rq & _).
  eexists _, _. split_and!; [done|done|lia|lia|lia|lia|]. clear Rp Rq.
  assert (forall d pc', dbm_wf d -> holds d v -> rel (set_pc s pc') (MkA pc' (a_types a) d) v) as Hmk.
  { intros d pc' Hd Hh. destruct H. by constructor. }
  pose proof (rel_wf s a v H) as Hd. pose proof (rel_holds s a v H) as Hh. pose proof (rel_pc s a v H) as Hpc. simpl.
  rewrite Hpc. destruct gt.
  - destruct (Z.ltb_spec (v (reg_of q)) (v (reg_of p))).
    + eexists. split; [by left|]. apply Hmk; unfold assume_gt; [zone_wf|]. apply holds_assume; (done || lia).
    + eexists. split; [by right; left|]. apply Hmk; unfold assume_le; [zone_wf|]. apply holds_assume; (done || lia).
  - destruct (Z.leb_spec (v (reg_of q)) (v (reg_of p))).
    + eexists. split; [by left|]. apply Hmk; unfold assume_ge; [zone_wf|]. apply holds_assume; (done || lia).
    + eexists. split; [by right; left|]. apply Hmk; unfold assume_gt; [zone_wf|]. apply holds_assume; (done || lia).
Qed.

(** Moving a pointer by a number of a known range. *)
Lemma shift_points t t' lo hi x k : shift_type t lo hi = Some t' -> points t x -> lo <= k <= hi ->
  is_ptr t = true /\ points t' (x + k) /\ type_ok t' /\ is_ptr t' = true.
Proof.
  intros E P K. unfold shift_type in E. destruct t; try done;
    (destruct (offset_ok _ && offset_ok _) eqn:Eo; [|done]; injection E as <-; apply andb_prop in Eo as [E1 E2];
     simpl in *; split_and!; (done || lia)).
Qed.

Lemma shift_ptr t t' lo hi : shift_type t lo hi = Some t' -> is_ptr t = true.
Proof. by destruct t. Qed.

(** Both additions: the pointer [x] is moved by [k] on both sides. *)
Lemma move_rel s a v dst lo hi k t d :
  rel s a v -> 0 <= dst -> writable_reg dst = true -> shift_type (type_of (a_types a) dst) lo hi = Some t ->
  lo <= k <= hi -> dbm_wf d -> (in_s 64 (v (reg_of dst) + k) -> holds d (upd v (reg_of dst) (v (reg_of dst) + k))) ->
  exists x, get_reg s dst = Some x /\ 0 <= x < 2 ^ 32 /\ 0 <= x + k < 2 ^ 32 /\
  rel (advance (set_reg s dst (x + k))) (MkA (a_pc a + 1) (set_type (a_types a) dst t) d) (upd v (reg_of dst) (x + k)).
Proof.
  intros H Hdst Hw Et Hk Hd Hh. destruct (rel_ptr s a v dst H Hdst (shift_ptr _ _ _ _ Et)) as (Hr & Gd & Pd & Rd & _).
  destruct (shift_points _ _ _ _ _ k Et Pd Hk) as (_ & Pt & Hok & Hpt). pose proof (points_range _ _ Hok Pt) as Rt.
  exists (v (reg_of dst)). split_and!; [done|lia|lia|lia|lia|].
  apply rel_write; [done|done|done|by destruct t|done|by apply Hh, in_s64_addr].
Qed.

Lemma add_rel s a v dst k l :
  rel s a v -> 0 <= dst -> -2147483648 <= k <= 2147483648 -> zadd a dst k = Some l ->
  exists x a', get_reg s dst = Some x /\ writable_reg dst = true /\ 0 <= x < 2 ^ 32 /\ 0 <= x + k < 2 ^ 32 /\ l = [a'] /\
    exists v', rel (advance (set_reg s dst (x + k))) a' v'.
Proof.
  intros H Hdst Hk Hz. unfold zadd in Hz. destruct (writable_reg dst) eqn:Hw; [|done]. simpl in Hz.
  destruct (shift_type _ k k) as [t|] eqn:Et; [|done]. injection Hz as <-. pose proof (writable_range _ Hw) as Hr.
  pose proof (reg_of_real dst ltac:(lia)) as Hreal.
  destruct (move_rel s a v dst k k k t (apply_add_imm (a_dbm a) (reg_of dst) k) H Hdst Hw Et) as (x & Gx & Rx & Rk & Hr');
    [lia|unfold apply_add_imm; apply wf_add_imm; [apply H|done]| |eexists x, _; split_and!; (done || lia || eauto)].
  intros Hs. apply holds_add_imm; [apply H|done|done|apply H].
Qed.

Lemma add_reg_rel s a v dst src l :
  rel s a v -> 0 <= dst -> 0 <= src -> zadd_reg a dst src = Some l ->
  exists x y a', get_reg s dst = Some x /\ get_reg s src = Some y /\ in_u 64 y /\ writable_reg dst = true /\
    0 <= x < 2 ^ 32 /\ 0 <= x + s64 y < 2 ^ 32 /\ l = [a'] /\ exists v', rel (advance (set_reg s dst (x + s64 y))) a' v'.
Proof.
  intros H Hdst Hsrc Hz. unfold zadd_reg in Hz.
  pose proof (get_interval_sound (a_dbm a) (reg_of src) v (rel_wf s a v H) (rel_holds s a v H)) as Hin.
  destruct (get_interval (a_dbm a) (reg_of src)) as [lo hi]. simpl in Hin.
  destruct (writable_reg dst) eqn:Hw; [|done]. cbn [negb] in Hz.
  destruct (type_of (a_types a) src) eqn:Ets; try done. destruct (shift_type _ lo hi) as [t|] eqn:Et; [|done].
  injection Hz as <-. pose proof (writable_range _ Hw) as Hr. pose proof (reg_of_real dst ltac:(lia)) as Hreal.
  destruct (rel_scalar s a v src H Hsrc Ets) as (_ & y & Gy & Ry & Vy). rewrite Vy in Hin.
  destruct (move_rel s a v dst lo hi (s64 y) t (apply_add_reg (a_dbm a) (reg_of dst) (reg_of src)) H Hdst Hw Et)
    as (x & Gx & Rx & Rk & Hr');
    [lia|apply wf_apply_add_reg; [apply H|done]| |eexists x, y, _; split_and!; (done || lia || eauto)].
  rewrite <- Vy. intros Hs. apply holds_apply_add_reg; [apply H|done|done|apply H].
Qed.

(** Masking a number. *)
Lemma land_s64 x mask : 0 <= mask < 2 ^ 63 -> Z.land (s64 x) mask = Z.land x mask.
Proof.
  intros Hm. assert (forall z, Z.land z mask = Z.land (uwrap 64 z) mask) as E.
  { intros z. unfold uwrap. rewrite <- Z.land_ones, <- Z.land_assoc, (Z.land_comm (Z.ones 64)), Z.land_ones by lia.
    rewrite Z.mod_small; [done|]. change (2 ^ 64) with (2 * 2 ^ 63). lia. }
  by rewrite (E (s64 x)), uwrap_swrap, <- E.
Qed.

Lemma size_bytes_cases c : (size_bytes c <= 8)%nat /\ (1 <= size_bytes c)%nat.
Proof. unfold size_bytes. repeat case_match; lia. Qed.

(** A checked load reads bytes of the packet or of the metadata. *)
Lemma check_load_sound s a v r o size :
  rel s a v -> 0 <= r -> -32768 <= o < 32768 -> 1 <= size <= 8 ->
  check_load (a_dbm a) (type_of (a_types a) r) (reg_of r) o size = true ->
  exists p, get_reg s r = Some p /\ 0 <= p < 2 ^ 32 /\ PACKET - m <= p + o /\ p + o + size <= PACKET + n.
Proof.
  intros H Hr Ho Hs Hc. assert (is_ptr (type_of (a_types a) r) = true) as Hp.
  { by destruct (type_of (a_types a) r). }
  destruct (rel_ptr s a v r H Hr Hp) as (Hr11 & G & _ & R & Hok). exists (v (reg_of r)).
  split_and!; [done|lia|lia| |]; destruct (rel_anchors s a v H) as (A1 & A2 & A3).
  all: assert (exists sa ea, check_region_access (a_dbm a) (reg_of r) o size sa ea = (true, true) /\
    PACKET - m <= v sa /\ v ea <= PACKET + n) as (sa & ea & Hre & Hsa & Hea)
    by (unfold check_load, verify_packet_bounds, verify_packet_meta_bounds in Hc;
        destruct (type_of (a_types a) r); try done; eexists _, _; (split; [repeat case_match; done|lia])).
  all: destruct (region_access_lemma (a_dbm a) v (reg_of r) o size sa ea) as [Hlo Hhi];
    [apply H|apply H|change (2 ^ 60) with 1152921504606846976; lia..|done|]; lia.
Qed.

Lemma ldx_mode c : Z.land c 0xe7 = BPF_LDX .| BPF_MEM -> Z.land c 7 = BPF_LDX /\ Z.land c 0xe0 = BPF_MEM.
Proof.
  intros E. split.
  - change 7 with (Z.land 0xe7 7). by rewrite Z.land_assoc, E.
  - change 0xe0 with (Z.land 0xe7 0xe0). by rewrite Z.land_assoc, E.
Qed.

Lemma load_ptr s a v x :
  rel s a v -> 0 <= src_reg x < 16 -> -32768 <= off x < 32768 ->
  check_load (a_dbm a) (type_of (a_types a) (src_reg x)) (reg_of (src_reg x)) (off x)
    (Z.of_nat (size_bytes (code x))) = true ->
  exists p y, get_reg s (src_reg x) = Some p /\ load (size_bytes (code x)) (mem s) (u64 (p + off x)) = Some y /\ in_u 64 y.
Proof.
  intros H Hs Ho Ec. destruct (size_bytes_cases (code x)) as [H8 H1].
  destruct (check_load_sound s a v (src_reg x) (off x) (Z.of_nat (size_bytes (code x))) H) as (p & Hg & Hp & Hlo & Hhi);
    [lia|done|lia|done|].
  destruct (load_bytes (size_bytes (code x)) (mem s) (p + off x)) as (y & Hy & Ry).
  { intros i Hi. rewrite (rel_mem s a v H). apply packet_mem_bytes. lia. }
  exists p, y. split; [done|]. rewrite u64_id.
  - split; [done|]. eapply in_u_mono; [|exact Ry]. lia.
  - unfold PACKET in Hlo, Hhi. change (2 ^ 32) with 4294967296. lia.
Qed.

Lemma load_rel s a v x l :
  rel s a v -> at_insn s x -> Z.land (code x) 0xe7 = BPF_LDX .| BPF_MEM -> zload L a x = Some l ->
  exists s' a' v', step prog rand s = Next s' /\ In a' l /\ rel s' a' v'.
Proof.
  intros H Hat Hc Hz. apply ldx_mode in Hc as [Hc1 Hc2]. rewrite (step_load s x Hat Hc1).
  destruct Hat as (_ & _ & Hf). apply fields_range in Hf as (Hd & Hs & Ho & _).
  unfold zload in Hz. destruct (writable_reg (dst_reg x)) eqn:Hw; [|done]. simpl in Hz.
  pose proof (writable_range _ Hw) as Hwr. pose proof (reg_of_real (dst_reg x) ltac:(lia)) as Hreal.
  pose proof (rel_wf s a v H) as Wd. pose proof (rel_holds s a v H) as Hh.
  assert (dbm_wf (forget (a_dbm a) (reg_of (dst_reg x)))) as Wf by (unfold forget; zone_wf).
  assert (forall p y, get_reg s (src_reg x) = Some p -> load (size_bytes (code x)) (mem s) (u64 (p + off x)) = Some y ->
    step_ldx s x = Some (advance (set_reg s (dst_reg x) y))) as Hstep.
  { intros p y Ep Ey. unfold step_ldx. rewrite Ep. simpl. rewrite Ey. simpl. rewrite Hc2.
    destruct (Z.eqb_spec (dst_reg x) 10); [lia|]. done. }
  destruct (type_of (a_types a) (src_reg x)) eqn:Et.
  3:{ destruct (ctx_field L (off x)) as [[t anchor]|] eqn:Ef; [|done].
      destruct (Nat.eqb_spec (size_bytes (code x)) 4) as [E4|]; [|done]. injection Hz as <-.
      destruct (packet_mem_ctx _ _ _ Ef) as (Ro & p & Hl & Hp & Hok & Hpt & Hia & Hanc).
      destruct (rel_val s a v H (src_reg x)) as [_ Hv].
      { eapply typed_range; [apply H|lia|by rewrite Et]. }
      rewrite Et in Hv. destruct Hv as [Hg Hctx]. cbn [points] in Hctx. rewrite Hctx in Hg.
      pose proof (points_range t p Hok Hp) as Ra.
      assert (0 <= CTX + off x < 2 ^ 32) by (unfold CTX; change (2 ^ 32) with 4294967296; lia).
      rewrite (Hstep CTX p) by (rewrite ?E4, ?u64_id, ?(rel_mem s a v H); done).
      eexists _, _, (upd v (reg_of (dst_reg x)) p). split; [done|]. split; [by left|].
      apply rel_write; [done|done|done|by destruct t|unfold bind_to_anchor; zone_wf|].
      assert (upd v (reg_of (dst_reg x)) p anchor = p) as Ea.
      { rewrite upd_ne; [by apply Hanc, H|]. intros ->. unfold real in Hreal. by rewrite Hia, andb_false_r in Hreal. }
      unfold bind_to_anchor. apply holds_close; [zone_wf|].
      apply holds_assume_eq; [done| |rewrite upd_eq, Ea; lia..].
      apply holds_forget; auto using in_s64_addr. }
  all: destruct (check_load _ _ _ _ _) eqn:Ec; [|done]; injection Hz as <-; rewrite <- Et in Ec;
    destruct (load_ptr s a v x H Hs Ho Ec) as (p & y & Hg & Hy & Ry);
    rewrite (Hstep p y) by done;
    eexists _, _, (upd v (reg_of (dst_reg x)) (s64 y)); (split; [done|]; split; [by left|]);
    (apply rel_write; [done|done|done|by exists y|done|]; apply holds_forget; auto; by apply swrap_range).
Qed.

Lemma u32_s64 x : u32 (s64 x) = u32 x.
Proof. by rewrite (u32_of_u64 (s64 x)), uwrap_swrap, <- u32_of_u64. Qed.

(** Moves. *)
Lemma mov_reg_rel s a v dst src :
  rel s a v -> 0 <= src -> writable_reg dst = true -> type_of (a_types a) src <> TNone ->
  exists x, get_reg s src = Some x /\ in_u 64 x /\
  rel (advance (set_reg s dst x))
    (MkA (a_pc a + 1) (set_type (a_types a) dst (type_of (a_types a) src))
       (assign_reg (a_dbm a) (reg_of dst) (reg_of src))) (upd v (reg_of dst) (v (reg_of src))).
Proof.
  intros H Hs Hw Ht. pose proof (typed_range a src (rel_types s a v H) Hs Ht) as Hr.
  pose proof (writable_range _ Hw) as Hwr. pose proof (reg_of_real dst ltac:(lia)) as Hreal.
  destruct (rel_val s a v H src Hr) as [Hok Hv].
  assert (exists x, get_reg s src = Some x /\ in_u 64 x /\ val_rel (type_of (a_types a) src) (Some x) (v (reg_of src)))
    as (x & Hg & Hx & Hvx).
  { destruct (type_of (a_types a) src) eqn:E; try done.
    { destruct Hv as (x & Hg & Hx & ->). exists x. split_and!; [done|done|by exists x]. }
    all: destruct Hv as [Hg Hz]; eexists; (split; [done|]); split; [|done];
      eapply (in_u_mono 32); [lia|exact (points_range _ _ Hok Hz)]. }
  exists x. split_and!; [done|done|]. apply rel_write; [exact H|exact Hw|exact Hok|exact Hvx| |].
  - unfold assign_reg. pose proof (rel_wf s a v H). zone_wf.
  - apply holds_assign_reg; [apply H|done|apply H].
Qed.

Lemma mov_reg_case s a v x l :
  rel s a v -> at_insn s x -> code x = BPF_ALU64 .| BPF_MOV .| BPF_X ->
  match type_of (a_types a) (src_reg x) with
  | TNone => None
  | t => if writable_reg (dst_reg x)
         then Some [MkA (a_pc a + 1) (set_type (a_types a) (dst_reg x) t)
                      (assign_reg (a_dbm a) (reg_of (dst_reg x)) (reg_of (src_reg x)))]
         else None
  end = Some l ->
  exists s' a' v', step prog rand s = Next s' /\ In a' l /\ rel s' a' v'.
Proof.
  intros H Hat Hc Hz. destruct (Hat) as (_ & _ & Hf). apply fields_range in Hf as (Hd & Hs & _).
  assert (type_of (a_types a) (src_reg x) <> TNone) as Ht by (intros E; by rewrite E in Hz).
  destruct (writable_reg (dst_reg x)) eqn:Hw; [|by destruct (type_of (a_types a) (src_reg x))].
  assert (l = [MkA (a_pc a + 1) (set_type (a_types a) (dst_reg x) (type_of (a_types a) (src_reg x)))
                 (assign_reg (a_dbm a) (reg_of (dst_reg x)) (reg_of (src_reg x)))]) as ->.
  { destruct (type_of (a_types a) (src_reg x)); congruence. }
  destruct (mov_reg_rel s a v (dst_reg x) (src_reg x) H (proj1 Hs) Hw Ht) as (y & Hg & Hy & Hr).
  eexists _, _, _. split; [|split; [by left|exact Hr]]. rewrite (step_alu64 s x Hat) by by rewrite Hc.
  unfold step_alu, operand. rewrite Hc, Hg. pose proof (writable_range _ Hw).
  destruct (Z.eqb_spec (dst_reg x) 10); [lia|].
  change (of_option (Some (advance (set_reg s (dst_reg x) (uwrap 64 y)))) = Next (advance (set_reg s (dst_reg x) y))).
  by rewrite (uwrap_small 64).
Qed.

Lemma mov_imm_case s a v x l :
  rel s a v -> at_insn s x -> code x = BPF_ALU64 .| BPF_MOV .| BPF_K ->
  (if writable_reg (dst_reg x)
   then Some [MkA (a_pc a + 1) (set_type (a_types a) (dst_reg x) TScalar)
                (assign_imm (a_dbm a) (reg_of (dst_reg x)) (imm x))]
   else None) = Some l ->
  exists s' a' v', step prog rand s = Next s' /\ In a' l /\ rel s' a' v'.
Proof.
  intros H Hat Hc Hz. destruct (Hat) as (_ & _ & Hf). apply fields_range in Hf as (Hd & Hs & _ & Hi).
  destruct (writable_reg (dst_reg x)) eqn:Hw; [|done]. injection Hz as <-. pose proof (writable_range _ Hw) as Hwr.
  pose proof (reg_of_real (dst_reg x) ltac:(lia)) as Hreal.
  assert (in_s 64 (imm x)) as Hs64 by (apply in_s64_iff; zlia).
  eexists (advance (set_reg s (dst_reg x) (u64 (imm x)))), _, (upd v (reg_of (dst_reg x)) (imm x)).
  split; [|split; [by left|]].
  - rewrite (step_alu64 s x Hat) by by rewrite Hc. unfold step_alu, operand. rewrite Hc.
    destruct (Z.eqb_spec (dst_reg x) 10); [lia|].
    change (of_option (Some (advance (set_reg s (dst_reg x) (uwrap 64 (u64 (imm x)))))) =
      Next (advance (set_reg s (dst_reg x) (u64 (imm x))))).
    by rewrite uwrap_idemp.
  - apply rel_write; [exact H|exact Hw|done| |apply wf_assign_imm; [apply H|done|done]|apply holds_assign_imm; [apply H|done|done|apply H]].
    exists (u64 (imm x)). split; [done|]. split; [by apply uwrap_range|]. by rewrite swrap_uwrap, swrap_small.
Qed.

(** A conditional jump on two small values. *)
Lemma step_cmp s x vd vs c :
  at_insn s x -> get_reg s (dst_reg x) = Some vd -> get_reg s (src_reg x) = Some vs ->
  0 <= vd < 2 ^ 32 -> 0 <= vs < 2 ^ 32 ->
  Z.land (code x) 7 = BPF_JMP -> BPF_SRC (code x) = BPF_X ->
  ((BPF_OP (code x) =? BPF_JA) || (BPF_OP (code x) =? BPF_CALL) || (BPF_OP (code x) =? BPF_EXIT)) = false ->
  cond 64 (BPF_OP (code x)) vd vs = Some c ->
  step prog rand s = Next (set_pc s (if c then pc s + off x + 1 else pc s + 1)).
Proof.
  intros Hat Gd Gs Rd Rs H7 Hsrc Hop Hc. rewrite (step_jmp64 s x Hat H7). unfold step_jmp, operand.
  rewrite !orb_false_iff in Hop. destruct Hop as [[-> ->] ->]. cbn [andb]. rewrite Gd, Hsrc.
  change (BPF_X =? BPF_X) with true. rewrite Gs. cbn [mbind option_bind].
  rewrite (u64_id vd), (u64_id vs), Hc by done. done.
Qed.

Lemma step_shift s x y z :
  get_reg s (dst_reg x) = Some y -> writable_reg (dst_reg x) = true ->
  (BPF_SRC (code x) =? BPF_X) = false ->
  ((BPF_OP (code x) =? BPF_END) || (BPF_OP (code x) =? BPF_NEG) || (BPF_OP (code x) =? BPF_MOV)) = false ->
  alu 64 (BPF_OP (code x)) (u64 y) (u64 (imm x)) = Some z ->
  of_option (step_alu 64 s x) = Next (advance (set_reg s (dst_reg x) z)).
Proof.
  intros Gy Hw Hsrc Hop Ha. unfold step_alu, operand. rewrite !orb_false_iff in Hop. destruct Hop as [[-> ->] ->].
  rewrite Hsrc, Gy. cbn [andb mbind option_bind]. rewrite uwrap_idemp by done. rewrite Ha. cbn [mbind option_bind].
  pose proof (writable_range _ Hw). destruct (Z.eqb_spec (dst_reg x) 10); [lia|]. done.
Qed.

Lemma and_case s a v x l :
  rel s a v -> at_insn s x -> code x = BPF_ALU64 .| BPF_AND .| BPF_K -> zand a (dst_reg x) (imm x) = Some l ->
  exists s' a' v', step prog rand s = Next s' /\ In a' l /\ rel s' a' v'.
Proof.
  intros H Hat Hc Hz. destruct (Hat) as (_ & _ & Hf). apply fields_range in Hf as (Hd & _ & _ & Hi). unfold zand in Hz.
  destruct (type_of (a_types a) (dst_reg x)) eqn:Et; try done. destruct (writable_reg (dst_reg x)) eqn:Hw; [|done].
  destruct (Z.leb_spec 0 (imm x)) as [Hm|]; [|done]. injection Hz as <-. pose proof (writable_range _ Hw) as Hr.
  pose proof (reg_of_real (dst_reg x) ltac:(lia)) as Hreal.
  destruct (rel_scalar s a v (dst_reg x) H (proj1 Hd) Et) as (_ & y & Gy & Ry & Vy).
  assert (0 <= imm x < 2 ^ 32) as Ri by (change (2 ^ 32) with 4294967296; lia).
  assert (0 <= Z.land y (imm x) <= imm x) as Rl by (by apply land_le_mask).
  eexists (advance (set_reg s (dst_reg x) (Z.land y (imm x)))), _, _. split; [|split; [by left|]].
  - rewrite (step_alu64 s x Hat) by by rewrite Hc. apply (step_shift s x y); [done|done|by rewrite Hc|by rewrite Hc|].
    rewrite Hc, (u64_id (imm x)), (uwrap_small 64 y) by done. done.
  - apply rel_write; [exact H|exact Hw|done| |unfold apply_and_imm; pose proof (rel_wf s a v H); zone_wf|
      apply holds_and_imm; [apply H|done|done|apply in_s64_iff; zlia|apply H]].
    exists (Z.land y (imm x)). split; [done|]. rewrite Vy, land_s64 by (change (2 ^ 63) with 9223372036854775808; lia).
    split; [apply in_u_land; (done || lia)|]. rewrite swrap_small; [done|done|apply in_s64_iff; zlia].
Qed.

(** One step: the program goes on in a state some successor describes, or exits with the value. *)
Lemma zstep_sound s a v x l :
  rel s a v -> at_insn s x -> zstep L ret a x = Some l ->
  (exists r, step prog rand s = Exited r /\ u32 r = u32 ret) \/
  (exists s' a' v', step prog rand s = Next s' /\ In a' l /\ rel s' a' v').
Proof.
  intros H Hat Hz. destruct (Hat) as (_ & _ & Hf). apply fields_range in Hf as (Hd & Hs & Ho & Hi). unfold zstep in Hz.
  destruct (Z.eqb_spec (code x) (BPF_JMP .| BPF_EXIT)) as [Hc|_].
  { left. rewrite (step_jmp64 s x Hat) by by rewrite Hc. unfold step_jmp, step_exit. rewrite Hc, (rel_frames s a v H).
    destruct (type_of (a_types a) 0) eqn:Et; try done. destruct (get_fixed_value (a_dbm a) R0) as [c|] eqn:Ef; [|done].
    destruct (Z.eqb_spec c ret) as [->|]; [|done]. destruct (rel_val s a v H 0 ltac:(lia)) as [_ Hv]. rewrite Et in Hv.
    destruct Hv as (r & Hg & Hr & Hz0). exists r. rewrite Hg. split; [done|]. rewrite <- u32_s64, <- Hz0. f_equal.
    unfold get_fixed_value in Ef. apply fixed_some in Ef.
    pose proof (get_interval_sound (a_dbm a) R0 v (rel_wf s a v H) (rel_holds s a v H)) as Hin. rewrite Ef in Hin.
    change (reg_of 0) with R0. simpl in Hin. lia. }
  right. destruct (Z.eqb_spec (code x) (BPF_JMP .| BPF_JA)) as [Hc|_].
  { injection Hz as <-. rewrite (step_jmp64 s x Hat) by by rewrite Hc. unfold step_jmp. rewrite Hc.
    eexists _, _, v. split; [done|]. split; [by left|]. destruct H. constructor; try done. simpl. congruence. }
  destruct (Z.eqb_spec (code x) (BPF_JMP .| BPF_JGT .| BPF_X)) as [Hc|_].
  { destruct (compare_rel s a v x true _ _ l H (proj1 Hd) (proj1 Hs) Hz) as (vd & vs & Gd & Gs & Rd & Rs & a' & Hin & Hr).
    eexists _, a', v. split; [|split; [exact Hin|exact Hr]].
    apply (step_cmp s x vd vs (vs <? vd) Hat Gd Gs Rd Rs); by rewrite Hc. }
  destruct (Z.eqb_spec (code x) (BPF_JMP .| BPF_JGE .| BPF_X)) as [Hc|_].
  { destruct (compare_rel s a v x false _ _ l H (proj1 Hd) (proj1 Hs) Hz) as (vd & vs & Gd & Gs & Rd & Rs & a' & Hin & Hr).
    eexists _, a', v. split; [|split; [exact Hin|exact Hr]].
    apply (step_cmp s x vd vs (vs <=? vd) Hat Gd Gs Rd Rs); by rewrite Hc. }
  destruct (Z.eqb_spec (code x) (BPF_JMP .| BPF_JLT .| BPF_X)) as [Hc|_].
  { destruct (compare_rel s a v x true _ _ l H (proj1 Hs) (proj1 Hd) Hz) as (vs & vd & Gs & Gd & Rs & Rd & a' & Hin & Hr).
    eexists _, a', v. split; [|split; [exact Hin|exact Hr]].
    apply (step_cmp s x vd vs (vd <? vs) Hat Gd Gs Rd Rs); by rewrite Hc. }
  destruct (Z.eqb_spec (code x) (BPF_JMP .| BPF_JLE .| BPF_X)) as [Hc|_].
  { destruct (compare_rel s a v x false _ _ l H (proj1 Hs) (proj1 Hd) Hz) as (vs & vd & Gs & Gd & Rs & Rd & a' & Hin & Hr).
    eexists _, a', v. split; [|split; [exact Hin|exact Hr]].
    apply (step_cmp s x vd vs (vd <=? vs) Hat Gd Gs Rd Rs); by rewrite Hc. }
  destruct (Z.eqb_spec (code x) (BPF_ALU64 .| BPF_ADD .| BPF_K)) as [Hc|_].
  { destruct (add_rel s a v _ (imm x) l H (proj1 Hd) ltac:(lia) Hz) as (y & a' & Gy & Hw & Ry & Rk & -> & v' & Hr).
    eexists _, a', v'. split; [|split; [by left|exact Hr]]. rewrite (step_alu64 s x Hat) by by rewrite Hc.
    apply (step_shift s x y); [done|done|by rewrite Hc|by rewrite Hc|]. rewrite Hc. rewrite (u64_id y) by done. unfold alu. simpl.
    rewrite uwrap_add_r by lia. by rewrite u64_id. }
  destruct (Z.eqb_spec (code x) (BPF_ALU64 .| BPF_SUB .| BPF_K)) as [Hc|_].
  { destruct (add_rel s a v _ (- imm x) l H (proj1 Hd) ltac:(lia) Hz) as (y & a' & Gy & Hw & Ry & Rk & -> & v' & Hr).
    eexists _, a', v'. split; [|split; [by left|exact Hr]]. rewrite (step_alu64 s x Hat) by by rewrite Hc.
    apply (step_shift s x y); [done|done|by rewrite Hc|by rewrite Hc|]. rewrite Hc. rewrite (u64_id y) by done. unfold alu. simpl.
    rewrite uwrap_sub_r by lia. rewrite <- Z.add_opp_r. by rewrite u64_id. }
  destruct (Z.eqb_spec (code x) (BPF_ALU64 .| BPF_ADD .| BPF_X)) as [Hc|_].
  { destruct (add_reg_rel s a v _ _ l H (proj1 Hd) (proj1 Hs) Hz) as (y & z & a' & Gy & Gz & Uz & Hw & Ry & Rk & -> & v' & Hr).
    eexists _, a', v'. split; [|split; [by left|exact Hr]]. rewrite (step_alu64 s x Hat) by by rewrite Hc.
    unfold step_alu, operand. rewrite Hc, Gy, Gz. pose proof (writable_range _ Hw).
    destruct (Z.eqb_spec (dst_reg x) 10); [lia|].
    change (of_option (Some (advance (set_reg s (dst_reg x) (uwrap 64 (uwrap 64 y + uwrap 64 z))))) =
      Next (advance (set_reg s (dst_reg x) (y + s64 z)))).
    rewrite uwrap_add_l, <- (uwrap_swrap 64 z), uwrap_add_r by done. by rewrite (uwrap_small 64) by (by eapply (in_u_mono 32)). }
  destruct (Z.eqb_spec (code x) (BPF_ALU64 .| BPF_AND .| BPF_K)) as [Hc|_].
  { destruct (and_case s a v x l H Hat Hc Hz) as (s' & a' & v' & ? & ? & ?). eauto 10. }
  destruct (Z.eqb_spec (code x) (BPF_ALU64 .| BPF_MOV .| BPF_X)) as [Hc|_].
  { destruct (mov_reg_case s a v x l H Hat Hc Hz) as (s' & a' & v' & ? & ? & ?). eauto 10. }
  destruct (Z.eqb_spec (code x) (BPF_ALU64 .| BPF_MOV .| BPF_K)) as [Hc|_].
  { destruct (mov_imm_case s a v x l H Hat Hc Hz) as (s' & a' & v' & ? & ? & ?). eauto 10. }
  destruct (Z.eqb_spec (Z.land (code x) 0xe7) (BPF_LDX .| BPF_MEM)) as [Hc|_]; [|done].
  by apply (load_rel s a v x l).
Qed.

(** The successors of an accepted state are accepted, so the run reaches the exit within the fuel. *)
Lemma zrun_sound fuel : forall s a v,
  forallb fields_ok prog = true -> rel s a v -> zrun L prog ret fuel a = true ->
  exists r, run prog rand fuel s = Some (Exited r) /\ u32 r = u32 ret.
Proof.
  induction fuel as [|fuel IH]; intros s a v Hf H Hz; cbn [zrun] in Hz;
    rewrite (holds_consistent (a_dbm a) v (rel_wf s a v H) (rel_holds s a v H)) in Hz; [done|]. cbn [orb] in Hz.
  destruct (a_pc a <? 0) eqn:Hpc; [done|]. destruct (prog !! Z.to_nat (a_pc a)) as [x|] eqn:Hx; [|done].
  destruct (zstep L ret a x) as [l|] eqn:Hs; [|done].
  assert (at_insn s x) as Hat.
  { unfold at_insn. rewrite (rel_pc s a v H). split_and!; [done|done|].
    rewrite forallb_forall in Hf. apply Hf. eapply list_elem_of_In, list_elem_of_lookup_2, Hx. }
  cbn [run]. destruct (zstep_sound s a v x l H Hat Hs) as [(r & -> & Hr)|(s' & a' & v' & -> & Hin & H')]; [by exists r|].
  rewrite forallb_forall in Hz. apply (IH s' a' v' Hf H'). by apply Hz.
Qed.

(** The values at the entry of the program. *)
Definition entry_values (r : Reg) : Z :=
  match r with
  | R1 => CTX | R10 => STACK_TOP | AnchorData => PACKET | AnchorDataEnd => PACKET + n
  | AnchorDataMeta => PACKET - m | _ => 0
  end.

Lemma entry_state_rel : rel (packet_state L meta packet) entry entry_values.
Proof.
  assert (forall r, in_s 64 (entry_values r)) as Hs.
  { intros r. apply in_s64_iff. destruct r; simpl; unfold CTX, STACK_TOP, PACKET; zlia. }
  constructor; [done|done|done|done|done| | |done|].
  - cbn [a_dbm entry]. unfold init_packet_anchors. zone_wf.
  - cbn [a_dbm entry]. unfold init_packet_anchors. assert (holds Zone.new entry_values) as Hn by (by apply holds_new).
    assert (dbm_wf Zone.new) as Wn by apply wf_new. apply holds_assume; [zone_wf| |simpl; lia].
    apply holds_add_constraint; [zone_wf|simpl; lia|done].
  - intros r Hr. assert (In r [0;1;2;3;4;5;6;7;8;9;10]) as Hin by (simpl; lia). simpl in Hin.
    repeat (destruct Hin as [<-|Hin]; [split; [done|]; try done; by exists STACK_TOP|]). done.
Qed.

End Sound.

(** A program the zone domain accepts returns [ret] for every packet and metadata area. *)
Lemma zone_safe_returns L rand prog ret meta packet :
  layout_ok L = true -> zone_safe L prog ret = true -> packet_input meta packet ->
  exists r, packet_run L rand prog meta packet = Some (Exited r) /\ u32 r = u32 ret.
Proof.
  unfold zone_safe. intros HL [Hf Hz]%andb_true_iff (Hm & Hp & Hb).
  by apply (zrun_sound L HL prog ret meta packet Hm Hp Hb rand _ _ entry (entry_values meta packet)); [|apply entry_state_rel|].
Qed.

End ZoneRun.
