(* ===== verification/Interval.v ===== *)
(** The interval domain of the verifier ([src/domains/interval/state.rs] and
    [src/domains/interval/ops.rs]): eight bounds per register, and for a pointer its distance from
    an anchor.

    [i64], [u64], [i32] and [u32] fields are [Z]; a cast [as] is the [swrap] or [uwrap] of its
    target, the saturating and overflowing additions are written out.  [&mut] is state passing:
    [upd_bounds] and [upd] stand for a mutation through [get_bounds_mut] and [get_mut].  The array
    of fifteen registers is a list indexed by [idx]; every access is in range on a state of that
    length, which all operations keep ([IntervalSound]).  The process-wide counter behind
    [new_ptr_id] is an argument and a result of the operations that draw from it. *)

From S2P Require Import Prelude Zone.
From Stdlib Require Import ZArith Lia.
From stdpp Require Import base numbers list.
Open Scope Z_scope.

Module Interval.
Import Zone(Reg(..), idx, is_anchor, DBM_DIM, i64_MAX, i64_MIN, u64_MAX, i32_MAX, i32_MIN, u32_MAX,
            saturating_add, saturating_sub, saturating_mul, wrapping_neg).
#[export] Existing Instance Zone.Reg_eq_dec.

(** * Arithmetic of the other widths *)

Definition sat (lo hi x : Z) : Z := if hi <? x then hi else if x <? lo then lo else x.
Definition u64_saturating_add (a b : Z) : Z := sat 0 u64_MAX (a + b).
Definition u64_saturating_sub (a b : Z) : Z := sat 0 u64_MAX (a - b).
Definition u64_saturating_mul (a b : Z) : Z := sat 0 u64_MAX (a * b).
Definition u32_saturating_add (a b : Z) : Z := sat 0 u32_MAX (a + b).
Definition u32_saturating_sub (a b : Z) : Z := sat 0 u32_MAX (a - b).
Definition i32_saturating_add (a b : Z) : Z := sat i32_MIN i32_MAX (a + b).
Definition i32_saturating_sub (a b : Z) : Z := sat i32_MIN i32_MAX (a - b).

(** [overflowing_add]: the wrapped sum and whether it left the type. *)
Definition u_overflowing_add (w a b : Z) : Z * bool := (uwrap w (a + b), 2 ^ w <=? a + b).
Definition s_overflowing_add (w a b : Z) : Z * bool :=
  (swrap w (a + b), (2 ^ (w - 1) <=? a + b) || (a + b <? - 2 ^ (w - 1))).

(** * Bounds of a scalar *)

Record ScalarBounds : Type := MkSB {
  smin : Z; smax : Z; umin : Z; umax : Z;
  s32_min : Z; s32_max : Z; u32_min : Z; u32_max : Z;
  scalar_id : option Z }.

#[export] Instance ScalarBounds_eq_dec : EqDecision ScalarBounds.
Proof. solve_decision. Defined.

Definition unknown : ScalarBounds :=
  MkSB i64_MIN i64_MAX 0 u64_MAX i32_MIN i32_MAX 0 u32_MAX None.

Definition constant (val : Z) : ScalarBounds :=
  let low := u32 (u64 val) in
  let low_signed := s32 low in
  MkSB val val (u64 val) (u64 val) low_signed low_signed low low None.

Definition nonnegative (max : Z) : ScalarBounds :=
  if max <=? u32_MAX then MkSB 0 (s64 max) 0 max 0 (s32 max) 0 (u32 max) None
  else MkSB 0 (s64 max) 0 max i32_MIN i32_MAX 0 u32_MAX None.

Definition is_constant (b : ScalarBounds) : bool := (smin b =? smax b) && (umin b =? umax b).
Definition get_constant (b : ScalarBounds) : option Z :=
  if is_constant b then Some (smin b) else None.
Definition is_nonnegative (b : ScalarBounds) : bool := 0 <=? smin b.
Definition is_positive (b : ScalarBounds) : bool := 0 <? smin b.
Definition is_zero (b : ScalarBounds) : bool := (smin b =? 0) && (smax b =? 0).
Definition is_u32 (b : ScalarBounds) : bool := (0 <=? smin b) && (umax b <=? u32_MAX).

Definition same_id (a b : option Z) : option Z := if decide (a = b) then a else None.

Definition intersect (a b : ScalarBounds) : ScalarBounds :=
  MkSB (Z.max (smin a) (smin b)) (Z.min (smax a) (smax b))
       (Z.max (umin a) (umin b)) (Z.min (umax a) (umax b))
       (Z.max (s32_min a) (s32_min b)) (Z.min (s32_max a) (s32_max b))
       (Z.max (u32_min a) (u32_min b)) (Z.min (u32_max a) (u32_max b))
       (same_id (scalar_id a) (scalar_id b)).

Definition join (a b : ScalarBounds) : ScalarBounds :=
  MkSB (Z.min (smin a) (smin b)) (Z.max (smax a) (smax b))
       (Z.min (umin a) (umin b)) (Z.max (umax a) (umax b))
       (Z.min (s32_min a) (s32_min b)) (Z.max (s32_max a) (s32_max b))
       (Z.min (u32_min a) (u32_min b)) (Z.max (u32_max a) (u32_max b))
       (same_id (scalar_id a) (scalar_id b)).

(** Assignments to one pair of fields. *)
Definition set_s64 (b : ScalarBounds) (lo hi : Z) : ScalarBounds :=
  MkSB lo hi (umin b) (umax b) (s32_min b) (s32_max b) (u32_min b) (u32_max b) (scalar_id b).
Definition set_u64 (b : ScalarBounds) (lo hi : Z) : ScalarBounds :=
  MkSB (smin b) (smax b) lo hi (s32_min b) (s32_max b) (u32_min b) (u32_max b) (scalar_id b).
Definition set_s32 (b : ScalarBounds) (lo hi : Z) : ScalarBounds :=
  MkSB (smin b) (smax b) (umin b) (umax b) lo hi (u32_min b) (u32_max b) (scalar_id b).
Definition set_u32 (b : ScalarBounds) (lo hi : Z) : ScalarBounds :=
  MkSB (smin b) (smax b) (umin b) (umax b) (s32_min b) (s32_max b) lo hi (scalar_id b).
Definition set_id (b : ScalarBounds) (i : option Z) : ScalarBounds :=
  MkSB (smin b) (smax b) (umin b) (umax b) (s32_min b) (s32_max b) (u32_min b) (u32_max b) i.

(** The pair takes the larger minimum and the smaller maximum. *)
Definition clip_s32 (b : ScalarBounds) (lo hi : Z) : ScalarBounds :=
  set_s32 b (Z.max (s32_min b) lo) (Z.min (s32_max b) hi).
Definition clip_u32 (b : ScalarBounds) (lo hi : Z) : ScalarBounds :=
  set_u32 b (Z.max (u32_min b) lo) (Z.min (u32_max b) hi).
Definition clip_s64 (b : ScalarBounds) (lo hi : Z) : ScalarBounds :=
  set_s64 b (Z.max (smin b) lo) (Z.min (smax b) hi).
Definition clip_u64 (b : ScalarBounds) (lo hi : Z) : ScalarBounds :=
  set_u64 b (Z.max (umin b) lo) (Z.min (umax b) hi).

(** The six numbered parts of [sync_bounds]. *)
Definition sync_u64 (b : ScalarBounds) : ScalarBounds :=
  if Z.shiftr (umin b) 32 =? Z.shiftr (umax b) 32 then
    let b := clip_u32 b (u32 (umin b)) (u32 (umax b)) in
    if s32 (umin b) <=? s32 (umax b) then clip_s32 b (s32 (umin b)) (s32 (umax b)) else b
  else b.

Definition sync_s64 (b : ScalarBounds) : ScalarBounds :=
  if Z.shiftr (smin b) 32 =? Z.shiftr (smax b) 32 then
    let b := if u32 (smin b) <=? u32 (smax b) then clip_u32 b (u32 (smin b)) (u32 (smax b)) else b in
    if s32 (smin b) <=? s32 (smax b) then clip_s32 b (s32 (smin b)) (s32 (smax b)) else b
  else b.

Definition sync_u32 (b : ScalarBounds) : ScalarBounds :=
  if s32 (u32_min b) <=? s32 (u32_max b)
  then clip_s32 b (s32 (u32_min b)) (s32 (u32_max b)) else b.

Definition sync_s32 (b : ScalarBounds) : ScalarBounds :=
  if u32 (s32_min b) <=? u32 (s32_max b)
  then clip_u32 b (u32 (s32_min b)) (u32 (s32_max b)) else b.

Definition hi_mask : Z := unot 64 4294967295.

Definition sync_mixed (b : ScalarBounds) : ScalarBounds :=
  let new_umin := Z.lor (Z.land (umin b) hi_mask) (u32_min b) in
  let new_umax := Z.lor (Z.land (umax b) hi_mask) (u32_max b) in
  let b := clip_u64 b new_umin new_umax in
  let new_smin := s64 (Z.lor (Z.land (u64 (smin b)) hi_mask) (u32_min b)) in
  let new_smax := s64 (Z.lor (Z.land (u64 (smax b)) hi_mask) (u32_max b)) in
  clip_s64 b new_smin new_smax.

Definition sync_sign (b : ScalarBounds) : ScalarBounds :=
  if 0 <=? smin b then clip_u64 b (u64 (smin b)) (u64 (smax b))
  else if (0 <=? smax b) && (umax b <? 9223372036854775808) then set_u64 b (umin b) u64_MAX
  else b.

Definition sync_bounds (b : ScalarBounds) : ScalarBounds :=
  sync_sign (sync_mixed (sync_s32 (sync_u32 (sync_s64 (sync_u64 b))))).

Definition forget_32_then_sync (b : ScalarBounds) : ScalarBounds :=
  sync_bounds (set_u32 (set_s32 b i32_MIN i32_MAX) 0 u32_MAX).

Definition assign_32_into_64 (b : ScalarBounds) : ScalarBounds :=
  let b := set_u64 b (u32_min b) (u32_max b) in
  let b := if (0 <=? s32_min b) && (0 <=? s32_max b) then set_s64 b (s32_min b) (s32_max b)
           else set_s64 b 0 u32_MAX in
  sync_bounds b.

Definition assume_sle (b : ScalarBounds) (c : Z) : ScalarBounds :=
  let b := set_s64 b (smin b) (Z.min (smax b) c) in
  let b := if 0 <=? c then set_u64 b (umin b) (Z.min (umax b) (u64 c)) else b in
  sync_bounds b.

Definition assume_sge (b : ScalarBounds) (c : Z) : ScalarBounds :=
  let b := set_s64 b (Z.max (smin b) c) (smax b) in
  let b := if 0 <=? c then set_u64 b (Z.max (umin b) (u64 c)) (umax b) else b in
  sync_bounds b.

Definition assume_ule (b : ScalarBounds) (c : Z) : ScalarBounds :=
  let b := set_u64 b (umin b) (Z.min (umax b) c) in
  let b := if c <=? i64_MAX then set_s64 b (smin b) (Z.min (smax b) (s64 c)) else b in
  sync_bounds b.

Definition assume_uge (b : ScalarBounds) (c : Z) : ScalarBounds :=
  let b := set_u64 b (Z.max (umin b) c) (umax b) in
  let b := if (c <=? i64_MAX) && (0 <=? smin b)
           then set_s64 b (Z.max (smin b) (s64 c)) (smax b) else b in
  sync_bounds b.

(** * Pointers *)

Inductive PktEndRel : Type := At | Beyond.

#[export] Instance PktEndRel_eq_dec : EqDecision PktEndRel.
Proof. solve_decision. Defined.

Record PtrOffset : Type := MkPO {
  anchor : Reg;
  off : Z;
  var_off : Z;
  range : option Z;
  id : option Z;
  pkt_end_rel : option PktEndRel }.

#[export] Instance PtrOffset_eq_dec : EqDecision PtrOffset.
Proof. solve_decision. Defined.

Definition kernel_range (p : PtrOffset) : Z :=
  match pkt_end_rel p with
  | Some Beyond => -2
  | Some At => -1
  | None => default 0 (range p)
  end.

Definition at_anchor (a : Reg) : PtrOffset := MkPO a 0 0 None None None.
Definition at_fixed (a : Reg) (o : Z) : PtrOffset := MkPO a o 0 None None None.
Definition with_var_off (a : Reg) (o v : Z) : PtrOffset := MkPO a o v None None None.
Definition min_offset (p : PtrOffset) : Z := off p.
Definition max_offset (p : PtrOffset) : Z := saturating_add (off p) (s64 (var_off p)).

(** * State *)

Record RegInterval : Type := MkRI {
  bounds : ScalarBounds;
  ptr_offset : option PtrOffset }.

#[export] Instance RegInterval_eq_dec : EqDecision RegInterval.
Proof. solve_decision. Defined.

Definition reg_unknown : RegInterval := MkRI unknown None.
Definition reg_constant (val : Z) : RegInterval := MkRI (constant val) None.
Definition with_ptr_offset (b : ScalarBounds) (p : PtrOffset) : RegInterval := MkRI b (Some p).

#[export] Instance RegInterval_inhabited : Inhabited RegInterval := populate reg_unknown.

Record IntervalState : Type := MkIS {
  regs : list RegInterval;
  packet_size_lower_bound : option Z;
  packet_size_upper_bound : option Z;
  meta_size_lower_bound : option Z;
  meta_size_upper_bound : option Z }.

#[export] Instance IntervalState_eq_dec : EqDecision IntervalState.
Proof. solve_decision. Defined.

Definition set_regs (st : IntervalState) (l : list RegInterval) : IntervalState :=
  MkIS l (packet_size_lower_bound st) (packet_size_upper_bound st)
       (meta_size_lower_bound st) (meta_size_upper_bound st).

Definition new : IntervalState :=
  let regs := replicate DBM_DIM reg_unknown in
  let regs := <[idx Zero := reg_constant 0]> regs in
  let regs := foldl (fun l a => <[idx a := with_ptr_offset unknown (at_anchor a)]> l) regs
                    [AnchorData; AnchorDataEnd; AnchorDataMeta] in
  let regs := <[idx R10 := with_ptr_offset unknown (at_anchor R10)]> regs in
  MkIS regs None None None None.

Definition get (st : IntervalState) (r : Reg) : RegInterval := regs st !!! idx r.
Definition upd (st : IntervalState) (r : Reg) (f : RegInterval -> RegInterval) : IntervalState :=
  set_regs st (alter f (idx r) (regs st)).
Definition set (st : IntervalState) (r : Reg) (i : RegInterval) : IntervalState :=
  if decide (r = Zero) then st else set_regs st (<[idx r := i]> (regs st)).
Definition get_bounds (st : IntervalState) (r : Reg) : ScalarBounds := bounds (get st r).
Definition upd_bounds (st : IntervalState) (r : Reg) (f : ScalarBounds -> ScalarBounds)
  : IntervalState := upd st r (fun i => MkRI (f (bounds i)) (ptr_offset i)).
Definition get_ptr_offset (st : IntervalState) (r : Reg) : option PtrOffset :=
  ptr_offset (get st r).
(** A mutation of the pointer information in place. *)
Definition upd_ptr (st : IntervalState) (r : Reg) (f : option PtrOffset -> option PtrOffset)
  : IntervalState := upd st r (fun i => MkRI (bounds i) (f (ptr_offset i))).
Definition set_ptr_offset (st : IntervalState) (r : Reg) (o : option PtrOffset) : IntervalState :=
  if decide (r = Zero) then st else upd_ptr st r (fun _ => o).

Definition get_interval (st : IntervalState) (r : Reg) : Z * Z :=
  (smin (get_bounds st r), smax (get_bounds st r)).
Definition get_fixed_value (st : IntervalState) (r : Reg) : option Z :=
  get_constant (get_bounds st r).

(** Neither the constant register nor an anchor: the guard of most operations. *)
Definition fixed_reg (r : Reg) : bool := bool_decide (r = Zero) || is_anchor r.

Definition forget (st : IntervalState) (r : Reg) : IntervalState :=
  if fixed_reg r then st else set_regs st (<[idx r := reg_unknown]> (regs st)).

(** The four setters of the packet geometry do nothing. *)
Definition set_packet_size_bound (st : IntervalState) (_ : Z) : IntervalState := st.
Definition get_packet_size_bound (st : IntervalState) : option Z := packet_size_lower_bound st.
Definition set_packet_size_upper_bound (st : IntervalState) (_ : Z) : IntervalState := st.
Definition set_meta_size_bound (st : IntervalState) (_ : Z) : IntervalState := st.
Definition get_meta_size_bound (st : IntervalState) : option Z := meta_size_lower_bound st.
Definition set_meta_size_upper_bound (st : IntervalState) (_ : Z) : IntervalState := st.
Definition clear_packet_size_bounds (st : IntervalState) : IntervalState :=
  MkIS (regs st) None None None None.

Definition empty_geometry (lower upper : option Z) : bool :=
  match lower, upper with
  | Some l, Some u => u <=? l
  | _, _ => false
  end.

Definition is_inconsistent (st : IntervalState) : bool :=
  existsb (fun i => (smax (bounds i) <? smin (bounds i)) || (umax (bounds i) <? umin (bounds i)))
          (regs st)
  || empty_geometry (packet_size_lower_bound st) (packet_size_upper_bound st)
  || empty_geometry (meta_size_lower_bound st) (meta_size_upper_bound st).

(** * Queries *)

Definition get_distance_interval (st : IntervalState) (x y : Reg) : Z * Z :=
  if decide (x = y) then (0, 0)
  else
    let scalars :=
      let '(x_min, x_max) := get_interval st x in
      let '(y_min, y_max) := get_interval st y in
      if negb (x_min =? i64_MIN) && negb (x_max =? i64_MAX) &&
         negb (y_min =? i64_MIN) && negb (y_max =? i64_MAX)
      then (saturating_sub x_min y_max, saturating_sub x_max y_min)
      else (i64_MIN, i64_MAX) in
    match get_ptr_offset st x, get_ptr_offset st y with
    | Some xo, Some yo =>
        if decide (anchor xo = anchor yo)
        then (saturating_sub (off xo) (max_offset yo), saturating_sub (max_offset xo) (off yo))
        else scalars
    | _, _ => scalars
    end.

Definition get_distance_fixed (st : IntervalState) (x y : Reg) : option Z :=
  let '(lo, hi) := get_distance_interval st x y in
  if (lo =? hi) && negb (lo =? i64_MIN) && negb (lo =? i64_MAX) then Some lo else None.

Definition proven_zero (st : IntervalState) (x : Reg) : bool := is_zero (get_bounds st x).
Definition proven_nonnegative (st : IntervalState) (x : Reg) : bool :=
  is_nonnegative (get_bounds st x).
Definition proven_positive (st : IntervalState) (x : Reg) : bool := is_positive (get_bounds st x).
Definition proven_u32_range (st : IntervalState) (x : Reg) : bool := is_u32 (get_bounds st x).

(** * Assignments *)

Definition assign_imm (st : IntervalState) (x : Reg) (imm : Z) : IntervalState :=
  if fixed_reg x then st else set st x (reg_constant imm).
Definition assign_zero (st : IntervalState) (x : Reg) : IntervalState := assign_imm st x 0.
Definition assign_reg (st : IntervalState) (x y : Reg) : IntervalState :=
  if fixed_reg x then st else set st x (get st y).

Definition intersect_eq_reg (st : IntervalState) (x y : Reg) : IntervalState :=
  if fixed_reg x then st
  else
    let yb := get_bounds st y in
    upd_bounds st x (fun xb =>
      sync_bounds (clip_u32 (clip_s32 (clip_u64 (clip_s64 xb (smin yb) (smax yb))
        (umin yb) (umax yb)) (s32_min yb) (s32_max yb)) (u32_min yb) (u32_max yb))).

(** Bounds whose 32-bit half is full and whose identity is dropped. *)
Definition bounds64 (smin smax umin umax : Z) : ScalarBounds :=
  MkSB smin smax umin umax i32_MIN i32_MAX 0 u32_MAX None.

Definition assign_reg_offset (st : IntervalState) (dst src : Reg) (imm : Z) : IntervalState :=
  if fixed_reg dst then st
  else
    let b := get_bounds st src in
    let new_bounds := forget_32_then_sync (bounds64
      (saturating_add (smin b) imm) (saturating_add (smax b) imm)
      (u64_saturating_add (umin b) (u64 imm)) (u64_saturating_add (umax b) (u64 imm))) in
    let new_ptr_offset := (fun po =>
      MkPO (anchor po) (saturating_add (off po) imm) (var_off po)
           ((fun r => saturating_sub r imm) <$> range po) (id po) None)
      <$> get_ptr_offset st src in
    set st dst (MkRI new_bounds new_ptr_offset).

Definition init_map_value_ptr (st : IntervalState) (reg : Reg) : IntervalState :=
  if fixed_reg reg then st
  else set st reg (MkRI (constant 0) (Some (MkPO Zero 0 0 None None None))).

Definition init_map_value_ptr_at (st : IntervalState) (reg : Reg) (offset : Z) : IntervalState :=
  if fixed_reg reg then st
  else set st reg (MkRI (constant offset) (Some (MkPO Zero offset 0 None None None))).

Definition assign_interval (st : IntervalState) (r : Reg) (min max : Z) : IntervalState :=
  if fixed_reg r then st
  else set st r (MkRI (forget_32_then_sync (bounds64 min max
         (if 0 <=? min then u64 min else 0) (if 0 <=? max then u64 max else u64_MAX))) None).

(** * Arithmetic *)

(** The wrapped pair when both ends agree on overflow, the whole type otherwise. *)
Definition add_pair (ovf : Z -> Z -> Z * bool) (full : Z * Z) (lo hi imm : Z) : Z * Z :=
  let '(new_lo, ovf_lo) := ovf lo imm in
  let '(new_hi, ovf_hi) := ovf hi imm in
  if eqb ovf_lo ovf_hi then (new_lo, new_hi) else full.

Definition add_imm_bounds (b : ScalarBounds) (imm : Z) : ScalarBounds :=
  let '(ul, uh) := add_pair (u_overflowing_add 64) (0, u64_MAX) (umin b) (umax b) (u64 imm) in
  let '(sl, sh) := add_pair (s_overflowing_add 64) (i64_MIN, i64_MAX) (smin b) (smax b) imm in
  let '(ul32, uh32) :=
    add_pair (u_overflowing_add 32) (0, u32_MAX) (u32_min b) (u32_max b) (u32 imm) in
  let '(sl32, sh32) :=
    add_pair (s_overflowing_add 32) (i32_MIN, i32_MAX) (s32_min b) (s32_max b) (s32 imm) in
  sync_bounds (MkSB sl sh ul uh sl32 sh32 ul32 uh32 None).

(** The pointer after a constant is added. *)
Definition shift_ptr (imm : Z) (po : PtrOffset) : PtrOffset :=
  MkPO (anchor po) (saturating_add (off po) imm) (var_off po)
       ((fun r => saturating_sub r imm) <$> range po) (id po) None.

Definition apply_add_imm (st : IntervalState) (dst : Reg) (imm : Z) : IntervalState :=
  if fixed_reg dst then st
  else
    let st := upd_bounds st dst (fun b => add_imm_bounds b imm) in
    upd_ptr st dst (fmap (shift_ptr imm)).

Definition add_reg_bounds (d s : ScalarBounds) : ScalarBounds :=
  sync_bounds (MkSB
    (saturating_add (smin d) (smin s)) (saturating_add (smax d) (smax s))
    (u64_saturating_add (umin d) (umin s)) (u64_saturating_add (umax d) (umax s))
    (i32_saturating_add (s32_min d) (s32_min s)) (i32_saturating_add (s32_max d) (s32_max s))
    (u32_saturating_add (u32_min d) (u32_min s)) (u32_saturating_add (u32_max d) (u32_max s))
    None).

(** [new_ptr_id]: the counter before the draw is the identity. *)
Definition new_ptr_id (next : Z) : Z * Z := (next, u32 (next + 1)).

(** The width of the signed range is added to the variable part unless it is negative. *)
Definition grow_var_off (v : Z) (b : ScalarBounds) : Z :=
  let signed_range := saturating_sub (smax b) (smin b) in
  if 0 <=? signed_range then u64_saturating_add v (u64 signed_range) else v.

Definition apply_add_reg (st : IntervalState) (next : Z) (dst src : Reg) : IntervalState * Z :=
  if fixed_reg dst then (st, next)
  else
    let src_bounds := get_bounds st src in
    let st := upd_bounds st dst (fun b => add_reg_bounds b src_bounds) in
    match get_constant src_bounds with
    | Some src_const => (upd_ptr st dst (fmap (shift_ptr src_const)), next)
    | None =>
        match get_ptr_offset st dst with
        | Some po =>
            let '(new_id, next) :=
              match id po with
              | Some i => (i, next)
              | None => new_ptr_id next
              end in
            (upd_ptr st dst (fun _ =>
               Some (MkPO (anchor po) (saturating_add (off po) (smin src_bounds))
                          (grow_var_off (var_off po) src_bounds) None (Some new_id) None)), next)
        | None => (st, next)
        end
    end.

Definition apply_scalar_add_ptr (st : IntervalState) (next : Z) (dst ptr_src : Reg)
  (scalar_lo scalar_hi : Z) : IntervalState * Z :=
  if fixed_reg dst then (st, next)
  else
    let ptr := get_ptr_offset st ptr_src in
    let st := forget st dst in
    match ptr with
    | Some po =>
        let scalar_range := if scalar_lo <=? scalar_hi then u64 (s64 (scalar_hi - scalar_lo)) else 0 in
        let new_off := saturating_add (off po) scalar_lo in
        let new_var_off := u64_saturating_add (var_off po) scalar_range in
        let '(new_id, next) :=
          match id po with
          | Some i => (Some i, next)
          | None => if 0 <? scalar_range
                    then let '(i, next) := new_ptr_id next in (Some i, next)
                    else (None, next)
          end in
        (set st dst (MkRI unknown (Some (MkPO (anchor po) new_off new_var_off None new_id None))),
         next)
    | None => (st, next)
    end.

Definition sub_reg_bounds (d s : ScalarBounds) : ScalarBounds :=
  sync_bounds (MkSB
    (saturating_sub (smin d) (smax s)) (saturating_sub (smax d) (smin s))
    (u64_saturating_sub (umin d) (umax s)) (u64_saturating_sub (umax d) (umin s))
    (i32_saturating_sub (s32_min d) (s32_max s)) (i32_saturating_sub (s32_max d) (s32_min s))
    (u32_saturating_sub (u32_min d) (u32_max s)) (u32_saturating_sub (u32_max d) (u32_min s))
    None).

Definition apply_sub_reg (st : IntervalState) (dst src : Reg) : IntervalState :=
  if fixed_reg dst then st
  else
    let src_bounds := get_bounds st src in
    let st := upd_bounds st dst (fun b => sub_reg_bounds b src_bounds) in
    upd_ptr st dst (fmap (fun po =>
      MkPO (anchor po) (saturating_sub (off po) (smax src_bounds))
           (grow_var_off (var_off po) src_bounds) None (id po) None)).

Definition drop_ptr (st : IntervalState) (r : Reg) : IntervalState := upd_ptr st r (fun _ => None).

Definition apply_and_imm (st : IntervalState) (dst : Reg) (mask : Z) : IntervalState :=
  if fixed_reg dst then st
  else
    let st := upd_bounds st dst (fun b =>
      if 0 <=? mask
      then forget_32_then_sync (MkSB 0 mask 0 (u64 mask) (s32_min b) (s32_max b)
                                     (u32_min b) (u32_max b) None)
      else unknown) in
    drop_ptr st dst.

Definition apply_mul_imm (st : IntervalState) (dst : Reg) (imm : Z) : IntervalState :=
  if fixed_reg dst then st
  else if imm =? 0 then assign_zero st dst
  else if imm =? 1 then st
  else if 0 <? imm then
    let b := get_bounds st dst in
    let st := upd_bounds st dst (fun _ => forget_32_then_sync (bounds64
      (saturating_mul (smin b) imm) (saturating_mul (smax b) imm)
      (u64_saturating_mul (umin b) (u64 imm)) (u64_saturating_mul (umax b) (u64 imm)))) in
    drop_ptr st dst
  else forget st dst.

Definition apply_div_imm (st : IntervalState) (reg : Reg) (imm : Z) : IntervalState :=
  if fixed_reg reg || (imm =? 0) then st
  else
    let b := get_bounds st reg in
    if (0 <? imm) && (0 <=? smin b) then
      let st := upd_bounds st reg (fun _ => forget_32_then_sync (bounds64
        (Z.quot (smin b) imm) (Z.quot (smax b) imm) (umin b / u64 imm) (umax b / u64 imm))) in
      drop_ptr st reg
    else forget st reg.

Definition apply_div_reg (st : IntervalState) (dst : Reg) : IntervalState := forget st dst.

Definition apply_neg (st : IntervalState) (reg : Reg) : IntervalState :=
  if fixed_reg reg then st
  else
    let b := get_bounds st reg in
    if (smin b =? i64_MIN) || (smax b =? i64_MIN) then forget st reg
    else
      let neg_smax := wrapping_neg (smin b) in
      let neg_smin := wrapping_neg (smax b) in
      if neg_smax <? neg_smin then forget st reg
      else
        let st := upd_bounds st reg (fun _ =>
          forget_32_then_sync (bounds64 neg_smin neg_smax 0 u64_MAX)) in
        drop_ptr st reg.

(** * Branch conditions *)

Definition assume_le (st : IntervalState) (x y : Reg) : IntervalState :=
  let y_max := smax (get_bounds st y) in
  let x_min := smin (get_bounds st x) in
  let st := if x_min <=? y_max then upd_bounds st x (fun b => assume_sle b y_max) else st in
  if x_min <=? y_max then upd_bounds st y (fun b => assume_sge b x_min) else st.

Definition assume_ge (st : IntervalState) (x y : Reg) : IntervalState := assume_le st y x.

Definition assume_gt (st : IntervalState) (x y : Reg) : IntervalState :=
  let y_max := smax (get_bounds st y) in
  let x_min := smin (get_bounds st x) in
  let x_max := smax (get_bounds st x) in
  let y_min := smin (get_bounds st y) in
  let st :=
    if negb (y_max =? i64_MAX) then
      let new_x_min := saturating_add y_max 1 in
      if new_x_min <=? x_max then upd_bounds st x (fun b => assume_sge b new_x_min) else st
    else st in
  if negb (x_min =? i64_MIN) then
    let new_y_max := saturating_sub x_min 1 in
    if y_min <=? new_y_max then upd_bounds st y (fun b => assume_sle b new_y_max) else st
  else st.

Definition assume_le_offset (st : IntervalState) (x y : Reg) (c : Z) : IntervalState :=
  let y_max := smax (get_bounds st y) in
  if negb (y_max =? i64_MAX)
  then upd_bounds st x (fun b => assume_sle b (saturating_add y_max c)) else st.

Definition assume_le_imm (st : IntervalState) (x : Reg) (c : Z) : IntervalState :=
  upd_bounds st x (fun b => assume_sle b c).
Definition assume_ge_imm (st : IntervalState) (x : Reg) (c : Z) : IntervalState :=
  upd_bounds st x (fun b => assume_sge b c).
Definition assume_range (st : IntervalState) (x : Reg) (min max : Z) : IntervalState :=
  assume_le_imm (assume_ge_imm st x min) x max.

Definition assume_eq_imm (st : IntervalState) (x : Reg) (c : Z) : IntervalState :=
  if fixed_reg x then st else set st x (MkRI (constant c) (get_ptr_offset st x)).

Definition assume_lt_imm (st : IntervalState) (x : Reg) (c : Z) : IntervalState :=
  if negb (c =? i64_MIN) then upd_bounds st x (fun b => assume_sle b (c - 1)) else st.

(** * Packets *)

Definition init_packet_anchors (st : IntervalState) : IntervalState :=
  let st := set st AnchorDataMeta (with_ptr_offset unknown (at_anchor AnchorDataMeta)) in
  let st := set st AnchorData (with_ptr_offset unknown (at_anchor AnchorData)) in
  set st AnchorDataEnd (with_ptr_offset unknown (at_anchor AnchorDataEnd)).

Definition bind_to_anchor (st : IntervalState) (reg a : Reg) : IntervalState :=
  if is_anchor a then set st reg (with_ptr_offset unknown (at_anchor a)) else st.

Definition check_region_access (st : IntervalState) (base : Reg) (o size : Z)
  (anchor_start anchor_end : Reg) : bool * bool :=
  match get_ptr_offset st base with
  | Some po =>
      if decide (anchor po = anchor_start) then
        let min_off := saturating_add (min_offset po) o in
        let start_safe := 0 <=? min_off in
        let end_safe := match range po with
                        | Some r => saturating_add o size <=? r
                        | None => false
                        end in
        (start_safe, end_safe)
      else (false, false)
  | None => (false, false)
  end.

Definition verify_packet_meta_bounds (st : IntervalState) (base : Reg) (o size : Z) : bool * bool :=
  check_region_access st base o size AnchorDataMeta AnchorData.
Definition verify_packet_bounds (st : IntervalState) (base : Reg) (o size : Z) : bool * bool :=
  check_region_access st base o size AnchorData AnchorDataEnd.

Definition reset_packet_anchors (st : IntervalState) : IntervalState := init_packet_anchors st.
Definition preserve_anchor_constraints (caller _callee : IntervalState) : IntervalState := caller.

End Interval.
