(* ===== verification/IntervalSound.v ===== *)
(** Soundness of the interval domain ([src/domains/interval]).

    A concrete state gives every register and anchor a signed 64-bit value; a scalar bound speaks
    of its four views, pointer information of its distance from the anchor.  The operations that
    use wrapping or forgetting arithmetic are sound as they are; those that saturate are sound
    when nothing saturates, and the counterexamples at the end show that the condition is needed. *)

From S2P Require Import Prelude Zone ZoneSound Interval.
From Stdlib Require Import ZArith Lia Bool.
From stdpp Require Import base numbers list.
Open Scope Z_scope.

Module IntervalSound.
Import Zone(Reg(..), idx, is_anchor, DBM_DIM, i64_MAX, i64_MIN, u64_MAX, i32_MAX, i32_MIN, u32_MAX,
            saturating_add, saturating_sub, saturating_mul, saturate, wrapping_neg).
Import ZoneSound(idx_lt, idx_inj).
Import Interval.

(** * Views of a value *)

Record sb_typed (b : ScalarBounds) : Prop := {
  typed_smin : in_s 64 (smin b); typed_smax : in_s 64 (smax b);
  typed_umin : in_u 64 (umin b); typed_umax : in_u 64 (umax b);
  typed_s32_min : in_s 32 (s32_min b); typed_s32_max : in_s 32 (s32_max b);
  typed_u32_min : in_u 32 (u32_min b); typed_u32_max : in_u 32 (u32_max b) }.

Record sb_holds (b : ScalarBounds) (v : Z) : Prop := {
  holds_s64 : smin b <= v <= smax b;
  holds_u64 : umin b <= u64 v <= umax b;
  holds_s32 : s32_min b <= s32 v <= s32_max b;
  holds_u32 : u32_min b <= u32 v <= u32_max b }.

Lemma u32_div v : v = 2 ^ 32 * (v / 2 ^ 32) + u32 v.
Proof. unfold uwrap. apply Z.div_mod. lia. Qed.

Lemma u32_in v : in_u 32 (u32 v).
Proof. apply uwrap_range. lia. Qed.

Lemma s32_in v : in_s 32 (s32 v).
Proof. apply swrap_range. lia. Qed.

Lemma s32_cases v : s32 v = if u32 v <? 2 ^ 31 then u32 v else u32 v - 2 ^ 32.
Proof. reflexivity. Qed.

Lemma u64_cases v : in_s 64 v -> u64 v = if v <? 0 then v + 2 ^ 64 else v.
Proof.
  unfold in_s, uwrap. intros. destruct (Z.ltb_spec v 0).
  - symmetry. apply (Z.mod_unique_pos _ _ (-1)); lia.
  - apply Z.mod_small. lia.
Qed.

Lemma u32_u64 v : u32 (u64 v) = u32 v.
Proof.
  unfold uwrap. change (2 ^ 64) with (2 ^ 32 * 2 ^ 32).
  rewrite Z.rem_mul_r, Z.mul_comm, Z.mod_add, Z.mod_mod by lia. reflexivity.
Qed.

Lemma s32_cast_u32 v : s32 (u32 v) = s32 v.
Proof. apply swrap_uwrap. lia. Qed.

Lemma u32_cast_s32 v : u32 (s32 v) = u32 v.
Proof. apply uwrap_swrap. lia. Qed.

Lemma u32_same v : in_u 32 v -> u32 v = v.
Proof. apply uwrap_small. Qed.

Lemma s32_same v : in_s 32 v -> s32 v = v.
Proof. apply swrap_small. lia. Qed.

(** Between two values with equal upper halves the lower half is ordered too. *)
Lemma same_hi_u32 a x b :
  Z.shiftr a 32 = Z.shiftr b 32 -> a <= x <= b -> u32 a <= u32 x <= u32 b.
Proof.
  rewrite !Z.shiftr_div_pow2 by lia. intros H [].
  pose proof (u32_div a). pose proof (u32_div x). pose proof (u32_div b).
  pose proof (Z.div_le_mono a x (2 ^ 32)). pose proof (Z.div_le_mono x b (2 ^ 32)).
  lia.
Qed.

Lemma s32_between a x b :
  u32 a <= u32 x <= u32 b -> s32 a <= s32 b -> s32 a <= s32 x <= s32 b.
Proof.
  rewrite !s32_cases. pose proof (u32_in a). pose proof (u32_in x). pose proof (u32_in b).
  unfold in_u in *. intros. repeat case_bool; lia.
Qed.

Lemma u32_between a x b :
  s32 a <= s32 x <= s32 b -> u32 a <= u32 b -> u32 a <= u32 x <= u32 b.
Proof.
  rewrite !s32_cases. pose proof (u32_in a). pose proof (u32_in x). pose proof (u32_in b).
  unfold in_u in *. intros. repeat case_bool; lia.
Qed.

Lemma lor_hi x l : in_u 64 x -> in_u 32 l -> Z.lor (Z.land x hi_mask) l = 2 ^ 32 * (x / 2 ^ 32) + l.
Proof.
  intros Hx Hl. change hi_mask with (Z.shiftl (Z.ones 32) 32).
  assert (Z.land x (Z.shiftl (Z.ones 32) 32) = Z.shiftl (x / 2 ^ 32) 32) as ->.
  { apply Z.bits_inj'. intros i Hi. rewrite Z.land_spec, !Z.shiftl_spec by lia.
    destruct (Z.ltb_spec i 32).
    - rewrite !(Z.testbit_neg_r _ (i - 32)) by lia. apply andb_false_r.
    - rewrite <- Z.shiftr_div_pow2, Z.shiftr_spec by lia.
      replace (i - 32 + 32) with i by lia.
      destruct (Z.ltb_spec i 64).
      + rewrite Z.ones_spec_low by lia. apply andb_true_r.
      + rewrite (in_u_testbit_high 64 x i) by (auto; lia). reflexivity. }
  rewrite <- Z.lor_comm, Z.add_comm, <- (Z.mul_comm (x / 2 ^ 32)), <- Z.shiftl_mul_pow2 by lia.
  rewrite <- Z.lxor_lor, <- Z.add_nocarry_lxor; try done;
    apply Z.bits_inj'; intros i Hi; rewrite Z.land_spec, Z.shiftl_spec, Z.bits_0 by lia;
    (destruct (Z.ltb_spec i 32);
     [rewrite (Z.testbit_neg_r _ (i - 32)) by lia; apply andb_false_r
     |rewrite (in_u_testbit_high 32 l i) by (auto; lia); reflexivity]).
Qed.

Lemma s64_lor_hi x l :
  in_s 64 x -> in_u 32 l -> s64 (Z.lor (Z.land (u64 x) hi_mask) l) = 2 ^ 32 * (x / 2 ^ 32) + l.
Proof.
  intros Hx Hl. rewrite lor_hi by (auto; apply uwrap_range; lia).
  rewrite u64_cases by auto. unfold in_s, in_u in *.
  assert (- 2 ^ 31 <= x / 2 ^ 32 < 2 ^ 31).
  { split; [apply Z.div_le_lower_bound|apply Z.div_lt_upper_bound]; lia. }
  destruct (Z.ltb_spec x 0).
  - replace ((x + 2 ^ 64) / 2 ^ 32) with (x / 2 ^ 32 + 2 ^ 32)
      by (change (2 ^ 64) with (2 ^ 32 * 2 ^ 32); rewrite Z.div_add by lia; reflexivity).
    rewrite <- (swrap_small 64 (2 ^ 32 * (x / 2 ^ 32) + l)) by (unfold in_s; lia).
    unfold swrap. replace (2 ^ 32 * (x / 2 ^ 32 + 2 ^ 32) + l)
      with (2 ^ 32 * (x / 2 ^ 32) + l + 1 * 2 ^ 64) by lia.
    by rewrite Z.mod_add by lia.
  - apply swrap_small; unfold in_s; lia.
Qed.

(** * [sync_bounds] *)

Lemma clip_s32_sound b lo hi v :
  sb_holds b v -> lo <= s32 v <= hi -> sb_holds (clip_s32 b lo hi) v.
Proof. intros [] ?. constructor; cbn; lia. Qed.

Lemma clip_u32_sound b lo hi v :
  sb_holds b v -> lo <= u32 v <= hi -> sb_holds (clip_u32 b lo hi) v.
Proof. intros [] ?. constructor; cbn; lia. Qed.

Lemma clip_s64_sound b lo hi v : sb_holds b v -> lo <= v <= hi -> sb_holds (clip_s64 b lo hi) v.
Proof. intros [] ?. constructor; cbn; lia. Qed.

Lemma clip_u64_sound b lo hi v :
  sb_holds b v -> lo <= u64 v <= hi -> sb_holds (clip_u64 b lo hi) v.
Proof. intros [] ?. constructor; cbn; lia. Qed.

Lemma in_u_both w x y : in_u w x -> in_u w y -> in_u w (Z.max x y) /\ in_u w (Z.min x y).
Proof. unfold in_u. lia. Qed.

Lemma in_s_both w x y : in_s w x -> in_s w y -> in_s w (Z.max x y) /\ in_s w (Z.min x y).
Proof. unfold in_s. lia. Qed.

Lemma clip_s32_typed b lo hi :
  sb_typed b -> in_s 32 lo -> in_s 32 hi -> sb_typed (clip_s32 b lo hi).
Proof. intros [] ??. constructor; cbn; auto; apply in_s_both; auto. Qed.

Lemma clip_u32_typed b lo hi :
  sb_typed b -> in_u 32 lo -> in_u 32 hi -> sb_typed (clip_u32 b lo hi).
Proof. intros [] ??. constructor; cbn; auto; apply in_u_both; auto. Qed.

Lemma clip_s64_typed b lo hi :
  sb_typed b -> in_s 64 lo -> in_s 64 hi -> sb_typed (clip_s64 b lo hi).
Proof. intros [] ??. constructor; cbn; auto; apply in_s_both; auto. Qed.

Lemma clip_u64_typed b lo hi :
  sb_typed b -> in_u 64 lo -> in_u 64 hi -> sb_typed (clip_u64 b lo hi).
Proof. intros [] ??. constructor; cbn; auto; apply in_u_both; auto. Qed.

Create HintDb ivl.
#[export] Hint Resolve clip_s32_sound clip_u32_sound clip_s64_sound clip_u64_sound : ivl.
#[export] Hint Resolve clip_s32_typed clip_u32_typed clip_s64_typed clip_u64_typed : ivl.
#[export] Hint Resolve u32_in s32_in : ivl.

Lemma sync_u64_sound b v : sb_holds b v -> sb_holds (sync_u64 b) v.
Proof.
  intros H. unfold sync_u64. case_bool; [|done].
  assert (u32 (umin b) <= u32 v <= u32 (umax b)).
  { rewrite <- (u32_u64 v). apply same_hi_u32; [done|]. apply H. }
  cbn. case_bool; auto with ivl.
  apply clip_s32_sound; [by apply clip_u32_sound|]. by apply s32_between.
Qed.

Lemma sync_s64_sound b v : sb_holds b v -> sb_holds (sync_s64 b) v.
Proof.
  intros H. unfold sync_s64. case_bool; [|done].
  assert (u32 (smin b) <= u32 v <= u32 (smax b)).
  { apply same_hi_u32; [done|]. apply H. }
  rewrite (proj2 (Z.leb_le (u32 (smin b)) (u32 (smax b)))) by lia. cbn.
  case_bool; auto with ivl.
  apply clip_s32_sound; [by apply clip_u32_sound|]. by apply s32_between.
Qed.

Lemma sync_u32_sound b v : sb_typed b -> sb_holds b v -> sb_holds (sync_u32 b) v.
Proof.
  intros [] H. unfold sync_u32. case_bool; [|done].
  apply clip_s32_sound; [done|]. apply s32_between; [|done].
  rewrite (u32_same (u32_min b)), (u32_same (u32_max b)) by done. apply H.
Qed.

Lemma sync_s32_sound b v : sb_typed b -> sb_holds b v -> sb_holds (sync_s32 b) v.
Proof.
  intros [] H. unfold sync_s32. case_bool; [|done].
  apply clip_u32_sound; [done|]. apply u32_between; [|done].
  rewrite (s32_same (s32_min b)), (s32_same (s32_max b)) by done. apply H.
Qed.

(** Replacing the lower half of a bound by the bound of the lower half. *)
Lemma hi_low_between a x b lo hi :
  a <= x <= b -> lo <= u32 x <= hi ->
  2 ^ 32 * (a / 2 ^ 32) + lo <= x <= 2 ^ 32 * (b / 2 ^ 32) + hi.
Proof.
  intros [] ?. pose proof (u32_div x).
  pose proof (Z.div_le_mono a x (2 ^ 32)). pose proof (Z.div_le_mono x b (2 ^ 32)). lia.
Qed.

Lemma sync_mixed_sound b v : sb_typed b -> in_s 64 v -> sb_holds b v -> sb_holds (sync_mixed b) v.
Proof.
  intros [] Hv H. unfold sync_mixed. cbn.
  apply clip_s64_sound; [apply clip_u64_sound; [done|]|].
  - rewrite !lor_hi by done. apply hi_low_between; [apply H|]. rewrite u32_u64. apply H.
  - rewrite !s64_lor_hi by done. apply hi_low_between; apply H.
Qed.

Lemma sync_sign_sound b v : sb_typed b -> in_s 64 v -> sb_holds b v -> sb_holds (sync_sign b) v.
Proof.
  intros [] Hv H. unfold sync_sign. destruct H as [Hs Hu H32 Hu32].
  destruct (Z.leb_spec 0 (smin b)).
  - apply clip_u64_sound; [by constructor|]. rewrite !u64_cases by done.
    repeat case_bool; lia.
  - destruct (_ && _); constructor; cbn; try done.
    destruct (uwrap_range 64 v); [lia|]. unfold u64_MAX. lia.
Qed.

Lemma sync_u64_typed b : sb_typed b -> sb_typed (sync_u64 b).
Proof. intros. unfold sync_u64. repeat case_bool; cbn; auto 6 with ivl. Qed.

Lemma sync_s64_typed b : sb_typed b -> sb_typed (sync_s64 b).
Proof. intros. unfold sync_s64. repeat case_bool; cbn; auto 6 with ivl. Qed.

Lemma sync_u32_typed b : sb_typed b -> sb_typed (sync_u32 b).
Proof. intros. unfold sync_u32. repeat case_bool; auto with ivl. Qed.

Lemma sync_s32_typed b : sb_typed b -> sb_typed (sync_s32 b).
Proof. intros. unfold sync_s32. repeat case_bool; auto with ivl. Qed.

Lemma lor_hi_in x l : in_u 64 x -> in_u 32 l -> in_u 64 (Z.lor (Z.land x hi_mask) l).
Proof.
  intros Hx Hl. apply in_u_lor; [lia|apply in_u_land; [lia|done|]|].
  - unfold hi_mask, unot. lia.
  - by apply (in_u_mono 32).
Qed.

Lemma sync_mixed_typed b : sb_typed b -> sb_typed (sync_mixed b).
Proof.
  intros H. unfold sync_mixed. destruct H.
  apply clip_s64_typed; [apply clip_u64_typed; [by constructor|..]|..];
    auto using lor_hi_in; apply swrap_range; lia.
Qed.

Lemma sync_sign_typed b : sb_typed b -> sb_typed (sync_sign b).
Proof.
  intros H. unfold sync_sign. destruct (Z.leb_spec 0 (smin b)).
  - apply clip_u64_typed; [done|apply uwrap_range; lia..].
  - destruct (_ && _); [|done]. destruct H. constructor; cbn; auto. unfold in_u, u64_MAX. lia.
Qed.

Lemma sync_typed b : sb_typed b -> sb_typed (sync_bounds b).
Proof.
  intros. unfold sync_bounds. auto 10 using sync_sign_typed, sync_mixed_typed, sync_s32_typed,
    sync_u32_typed, sync_s64_typed, sync_u64_typed.
Qed.

Lemma sync_sound b v : sb_typed b -> in_s 64 v -> sb_holds b v -> sb_holds (sync_bounds b) v.
Proof.
  intros. unfold sync_bounds. auto 10 using sync_sign_sound, sync_mixed_sound, sync_s32_sound,
    sync_u32_sound, sync_s64_sound, sync_u64_sound, sync_mixed_typed, sync_s32_typed,
    sync_u32_typed, sync_s64_typed, sync_u64_typed.
Qed.
#[export] Hint Resolve sync_typed sync_sound : ivl.

(** The 32-bit fields only get tighter. *)
Definition tighter32 (a b : ScalarBounds) : Prop :=
  s32_min b <= s32_min a /\ s32_max a <= s32_max b /\ u32_min b <= u32_min a /\ u32_max a <= u32_max b.

Lemma tighter32_trans a b c : tighter32 a b -> tighter32 b c -> tighter32 a c.
Proof. unfold tighter32. lia. Qed.

Ltac tighten := repeat split; repeat case_bool; cbn; lia.

Lemma sync_u64_tightens b : tighter32 (sync_u64 b) b.
Proof. unfold sync_u64, tighter32. tighten. Qed.

Lemma sync_s64_tightens b : tighter32 (sync_s64 b) b.
Proof. unfold sync_s64, tighter32. tighten. Qed.

Lemma sync_u32_tightens b : tighter32 (sync_u32 b) b.
Proof. unfold sync_u32, tighter32. tighten. Qed.

Lemma sync_s32_tightens b : tighter32 (sync_s32 b) b.
Proof. unfold sync_s32, tighter32. tighten. Qed.

Lemma sync_mixed_tightens b : tighter32 (sync_mixed b) b.
Proof. unfold sync_mixed, tighter32. tighten. Qed.

Lemma sync_sign_tightens b : tighter32 (sync_sign b) b.
Proof. unfold sync_sign, tighter32. tighten. Qed.

Lemma sync_tightens b : tighter32 (sync_bounds b) b.
Proof.
  unfold sync_bounds. eauto 8 using tighter32_trans, sync_u64_tightens, sync_s64_tightens,
    sync_u32_tightens, sync_s32_tightens, sync_mixed_tightens, sync_sign_tightens.
Qed.

(** * Concrete states *)

Definition val : Type := Reg -> Z.
Definition vset (s : val) (x : Reg) (v : Z) : val := fun y => if decide (y = x) then v else s y.

(** The end of the region an anchor starts. *)
Definition region_end (a : Reg) : option Reg :=
  match a with
  | AnchorData => Some AnchorDataEnd
  | AnchorDataMeta => Some AnchorData
  | _ => None
  end.

(** [range] bytes are accessible at the pointer; after a failed check the pointer is at or past
    the end of the packet. *)
Definition range_holds (s : val) (x : Reg) (po : PtrOffset) : Prop :=
  match range po, region_end (anchor po) with
  | Some r, Some e => s x + r <= s e
  | _, _ => True
  end.
Definition end_rel_holds (s : val) (x : Reg) (po : PtrOffset) : Prop :=
  match pkt_end_rel po with
  | Some At => s AnchorDataEnd <= s x
  | Some Beyond => s AnchorDataEnd < s x
  | None => True
  end.

Record po_holds (s : val) (x : Reg) (po : PtrOffset) : Prop := {
  po_dist : off po <= s x - s (anchor po) <= max_offset po;
  po_range : range_holds s x po;
  po_end : end_rel_holds s x po }.

(** The registers pointers are measured from; programs never write them. *)
Definition base_reg (r : Reg) : bool := fixed_reg r || bool_decide (r = R10).

Record po_typed (po : PtrOffset) : Prop := {
  typed_anchor : base_reg (anchor po) = true;
  typed_off : in_s 64 (off po);
  typed_var : in_u 64 (var_off po);
  typed_range : forall r, range po = Some r -> in_s 64 r }.

Definition reg_typed (i : RegInterval) : Prop :=
  sb_typed (bounds i) /\ forall po, ptr_offset i = Some po -> po_typed po.

Definition reg_holds (s : val) (x : Reg) (i : RegInterval) : Prop :=
  sb_holds (bounds i) (s x) /\ forall po, ptr_offset i = Some po -> po_holds s x po.

Definition ivl_wf (st : IntervalState) : Prop :=
  length (regs st) = DBM_DIM /\ Forall reg_typed (regs st).

Record val_ok (s : val) : Prop := {
  val_typed : forall x, in_s 64 (s x);
  val_zero : s Zero = 0 }.

Definition ivl_holds (st : IntervalState) (s : val) : Prop :=
  val_ok s /\ forall x, reg_holds s x (get st x).

Lemma ivl_wf_get st x : ivl_wf st -> reg_typed (get st x).
Proof.
  intros [Hl Hf]. unfold get. rewrite Forall_forall in Hf. apply Hf.
  apply (list_elem_of_lookup_total_2 (regs st) (idx x)). rewrite Hl. apply idx_lt.
Qed.

Lemma get_insert st x i y : length (regs st) = DBM_DIM ->
  get (set_regs st (<[idx x := i]> (regs st))) y = if decide (y = x) then i else get st y.
Proof.
  intros Hl. unfold get. cbn. case_decide as Hd.
  - subst y. apply list_lookup_total_insert_eq. rewrite Hl. apply idx_lt.
  - apply list_lookup_total_insert_ne. by intros ?%idx_inj.
Qed.

Lemma get_upd st x f y : length (regs st) = DBM_DIM ->
  get (upd st x f) y = if decide (y = x) then f (get st x) else get st y.
Proof.
  intros Hl. unfold upd, get. cbn. case_decide as Hd.
  - subst y. rewrite list_lookup_total_alter, decide_True; [done|]. rewrite Hl. auto using idx_lt.
  - rewrite list_lookup_total_alter, decide_False; [done|]. intros [?%idx_inj _]. congruence.
Qed.

Lemma wf_insert st x i : ivl_wf st -> reg_typed i -> ivl_wf (set_regs st (<[idx x := i]> (regs st))).
Proof.
  intros [Hl Hf] Hi. split; cbn; [by rewrite length_insert|]. by apply Forall_insert.
Qed.

Lemma wf_upd st x f :
  ivl_wf st -> reg_typed (f (get st x)) -> ivl_wf (upd st x f).
Proof.
  intros Hw Hi. destruct (ivl_wf_get st x Hw) as [_ _]. destruct Hw as [Hl Hf].
  split; cbn; [by rewrite length_alter|].
  apply Forall_alter; [done|]. intros i Hx Hti.
  unfold get in Hi. by rewrite (list_lookup_total_correct _ _ _ Hx) in Hi.
Qed.

Lemma set_nonzero st x i : x <> Zero -> set st x i = set_regs st (<[idx x := i]> (regs st)).
Proof. intros. unfold set. by rewrite decide_False. Qed.

End IntervalSound.
