(* ===== verification/IntervalOps.v ===== *)
(** The operations of the interval domain against the concrete instructions: invariant,
    soundness, the side conditions of the saturating operations, and what happens without them. *)

From S2P Require Import Prelude Zone ZoneSound Interval IntervalSound.
From Stdlib Require Import ZArith Lia Bool.
From stdpp Require Import base numbers list.
Open Scope Z_scope.

Module IntervalOps.
Import Zone(Reg(..), idx, is_anchor, DBM_DIM, i64_MAX, i64_MIN, u64_MAX, i32_MAX, i32_MIN, u32_MAX,
            saturating_add, saturating_sub, saturating_mul, saturate, wrapping_neg).
Import ZoneSound(in_s64_iff, s64_small, u64_small, s32_small, u32_small).
Import Interval IntervalSound.

(** * Bounds of results *)

Lemma swrap_shift w x k : 0 < w -> swrap w (x + k * 2 ^ w) = swrap w x.
Proof. intros. unfold swrap. by rewrite Z.mod_add by lia. Qed.

Lemma uwrap_shift w x k : 0 < w -> uwrap w (x + k * 2 ^ w) = uwrap w x.
Proof. intros. unfold uwrap. by rewrite Z.mod_add by lia. Qed.

(** One turn around the type at most. *)
Lemma swrap_turn w x : 0 < w -> - 2 ^ w <= x < 2 ^ w ->
  swrap w x = if x <? - 2 ^ (w - 1) then x + 2 ^ w
              else if 2 ^ (w - 1) <=? x then x - 2 ^ w else x.
Proof.
  intros Hw Hx.
  assert (2 ^ w = 2 * 2 ^ (w - 1)) by (rewrite <- Z.pow_succ_r by lia; f_equal; lia).
  repeat case_bool.
  - rewrite <- (swrap_shift w x 1), Z.mul_1_l by lia. apply swrap_small; unfold in_s; lia.
  - rewrite <- (swrap_shift w x (-1)) by lia.
    replace (x + -1 * 2 ^ w) with (x - 2 ^ w) by lia. apply swrap_small; unfold in_s; lia.
  - apply swrap_small; unfold in_s; lia.
Qed.

Lemma uwrap_turn w x : 0 < w -> 0 <= x < 2 * 2 ^ w ->
  uwrap w x = if 2 ^ w <=? x then x - 2 ^ w else x.
Proof.
  intros Hw Hx. case_bool.
  - rewrite <- (uwrap_shift w x (-1)) by lia.
    replace (x + -1 * 2 ^ w) with (x - 2 ^ w) by lia. apply uwrap_small; unfold in_u; lia.
  - apply uwrap_small; unfold in_u; lia.
Qed.

Lemma u_add_pair_sound w lo hi x imm l h : 0 < w ->
  in_u w lo -> in_u w hi -> in_u w imm -> lo <= x <= hi ->
  add_pair (u_overflowing_add w) (0, 2 ^ w - 1) lo hi imm = (l, h) ->
  in_u w l /\ in_u w h /\ l <= uwrap w (x + imm) <= h.
Proof.
  unfold add_pair, u_overflowing_add. intros Hw Hlo Hhi Himm Hx.
  pose proof (uwrap_range w (x + imm) ltac:(lia)) as Hr.
  unfold in_u in *. rewrite !uwrap_turn in * by lia.
  repeat case_bool; cbn; intros [= <- <-]; lia.
Qed.

Lemma s_add_pair_sound w lo hi x imm l h : 0 < w ->
  in_s w lo -> in_s w hi -> in_s w imm -> lo <= x <= hi ->
  add_pair (s_overflowing_add w) (- 2 ^ (w - 1), 2 ^ (w - 1) - 1) lo hi imm = (l, h) ->
  in_s w l /\ in_s w h /\ l <= swrap w (x + imm) <= h.
Proof.
  unfold add_pair, s_overflowing_add. intros Hw Hlo Hhi Himm Hx.
  assert (2 ^ w = 2 * 2 ^ (w - 1)) by (rewrite <- Z.pow_succ_r by lia; f_equal; lia).
  pose proof (swrap_range w (x + imm) ltac:(lia)) as Hr.
  unfold in_s in *. rewrite !swrap_turn in * by lia.
  repeat case_bool; cbn; intros [= <- <-]; lia.
Qed.

(** The views of a wrapped sum. *)
Lemma u64_of_s64 x : u64 (s64 x) = u64 x.
Proof. apply uwrap_swrap. lia. Qed.

Lemma u32_of_s64 x : u32 (s64 x) = u32 x.
Proof. by rewrite <- (u32_u64 (s64 x)), u64_of_s64, u32_u64. Qed.

Lemma s32_of_s64 x : s32 (s64 x) = s32 x.
Proof. by rewrite <- (s32_cast_u32 (s64 x)), u32_of_s64, s32_cast_u32. Qed.

Lemma u_add w x y : 0 < w -> uwrap w (uwrap w x + uwrap w y) = uwrap w (x + y).
Proof. intros. by rewrite uwrap_add_l, uwrap_add_r by lia. Qed.

Lemma s_add w x y : 0 < w -> swrap w (swrap w x + swrap w y) = swrap w (x + y).
Proof.
  intros. rewrite <- (swrap_uwrap w (swrap w x + _)), <- (swrap_uwrap w (x + y)) by lia. f_equal.
  by rewrite <- uwrap_add_l, <- uwrap_add_r, !uwrap_swrap, uwrap_add_l, uwrap_add_r by lia.
Qed.

Lemma u_sub w x y : 0 < w -> uwrap w (uwrap w x - uwrap w y) = uwrap w (x - y).
Proof. intros. by rewrite uwrap_sub_l, uwrap_sub_r by lia. Qed.

Lemma s_sub w x y : 0 < w -> swrap w (swrap w x - swrap w y) = swrap w (x - y).
Proof.
  intros. rewrite <- (swrap_uwrap w (swrap w x - _)), <- (swrap_uwrap w (x - y)) by lia. f_equal.
  by rewrite <- uwrap_sub_l, <- uwrap_sub_r, !uwrap_swrap, uwrap_sub_l, uwrap_sub_r by lia.
Qed.

Lemma s64_in x : in_s 64 (s64 x).
Proof. apply swrap_range. lia. Qed.

Lemma u64_in x : in_u 64 (u64 x).
Proof. apply uwrap_range. lia. Qed.

#[export] Hint Resolve s64_in u64_in : ivl.

Lemma add_imm_bounds_sound b v imm :
  sb_typed b -> in_s 64 v -> in_s 64 imm -> sb_holds b v ->
  sb_typed (add_imm_bounds b imm) /\ sb_holds (add_imm_bounds b imm) (s64 (v + imm)).
Proof.
  intros [] Hv Himm []. unfold add_imm_bounds.
  destruct (add_pair (u_overflowing_add 64) _ _ _ _) as [ul uh] eqn:E1.
  destruct (add_pair (s_overflowing_add 64) _ _ _ _) as [sl sh] eqn:E2.
  destruct (add_pair (u_overflowing_add 32) _ _ _ _) as [ul2 uh2] eqn:E3.
  destruct (add_pair (s_overflowing_add 32) _ _ _ _) as [sl2 sh2] eqn:E4.
  eapply (u_add_pair_sound 64 _ _ (u64 v)) in E1 as (?&?&?); auto with ivl; [|lia].
  eapply (s_add_pair_sound 64 _ _ v) in E2 as (?&?&?); auto with ivl; [|lia].
  eapply (u_add_pair_sound 32 _ _ (u32 v)) in E3 as (?&?&?); auto with ivl; [|lia].
  eapply (s_add_pair_sound 32 _ _ (s32 v)) in E4 as (?&?&?); auto with ivl; [|lia].
  rewrite u_add in * by lia. rewrite s_add in * by lia.
  set (b' := MkSB _ _ _ _ _ _ _ _ _).
  assert (sb_typed b') by (by constructor).
  split; [by apply sync_typed|]. apply sync_sound; auto with ivl.
  constructor; cbn; rewrite ?u64_of_s64, ?u32_of_s64, ?s32_of_s64; auto.
Qed.

(** No saturation at the given type. *)
Definition fits (lo hi x : Z) : bool := (lo <=? x) && (x <=? hi).
Abbreviation fits64 := (fits i64_MIN i64_MAX).
Abbreviation fits32 := (fits i32_MIN i32_MAX).
Abbreviation fitsu64 := (fits 0 u64_MAX).
Abbreviation fitsu32 := (fits 0 u32_MAX).

Lemma fits_true lo hi x : fits lo hi x = true -> lo <= x <= hi.
Proof. unfold fits. rewrite andb_true_iff, !Z.leb_le. done. Qed.

Lemma sat_fits lo hi x : lo <= x <= hi -> sat lo hi x = x.
Proof. unfold sat. intros. repeat case_bool; lia. Qed.

Lemma saturate_fits x : i64_MIN <= x <= i64_MAX -> saturate x = x.
Proof. unfold saturate. intros. repeat case_bool; lia. Qed.

Lemma saturate_in x : in_s 64 (saturate x).
Proof. unfold saturate, in_s, i64_MAX, i64_MIN. repeat case_bool; lia. Qed.

Lemma sat_in lo hi x : lo <= hi -> lo <= sat lo hi x <= hi.
Proof. unfold sat. intros. repeat case_bool; lia. Qed.

(** Bounds that are typed after saturation, whatever the operands. *)
Lemma saturated_typed a b c d e f g h i :
  sb_typed (MkSB (saturate a) (saturate b) (sat 0 u64_MAX c) (sat 0 u64_MAX d)
                 (sat i32_MIN i32_MAX e) (sat i32_MIN i32_MAX f)
                 (sat 0 u32_MAX g) (sat 0 u32_MAX h) i).
Proof.
  pose proof (sat_in 0 u64_MAX c ltac:(done)) as Hc. pose proof (sat_in 0 u64_MAX d ltac:(done)) as Hd.
  pose proof (sat_in i32_MIN i32_MAX e ltac:(done)) as He.
  pose proof (sat_in i32_MIN i32_MAX f ltac:(done)) as Hf.
  pose proof (sat_in 0 u32_MAX g ltac:(done)) as Hg. pose proof (sat_in 0 u32_MAX h ltac:(done)) as Hh.
  constructor; cbn -[sat]; auto using saturate_in;
    unfold in_u, in_s, u64_MAX, u32_MAX, i32_MAX, i32_MIN in *; cbn in *; lia.
Qed.

(** ** Addition and subtraction of registers *)

(** The ends [a] and [b] of a result: neither saturates, or the saturated pair is the whole type. *)
Definition pair_fits (lo hi a b : Z) : bool :=
  (fits lo hi a && fits lo hi b) || ((a <=? lo) && (hi <=? b)).

Definition add_reg_fits (d s : ScalarBounds) : bool :=
  pair_fits i64_MIN i64_MAX (smin d + smin s) (smax d + smax s) &&
  pair_fits 0 u64_MAX (umin d + umin s) (umax d + umax s) &&
  pair_fits i32_MIN i32_MAX (s32_min d + s32_min s) (s32_max d + s32_max s) &&
  pair_fits 0 u32_MAX (u32_min d + u32_min s) (u32_max d + u32_max s).

Definition sub_reg_fits (d s : ScalarBounds) : bool :=
  pair_fits i64_MIN i64_MAX (smin d - smax s) (smax d - smin s) &&
  pair_fits 0 u64_MAX (umin d - umax s) (umax d - umin s) &&
  pair_fits i32_MIN i32_MAX (s32_min d - s32_max s) (s32_max d - s32_min s) &&
  pair_fits 0 u32_MAX (u32_min d - u32_max s) (u32_max d - u32_min s).

Lemma pair_sound lo hi a b x y :
  lo <= hi -> pair_fits lo hi a b = true -> lo <= y <= hi -> a <= x <= b ->
  (lo <= x <= hi -> y = x) -> sat lo hi a <= y <= sat lo hi b.
Proof.
  intros Hl Hf Hy Hx E. unfold pair_fits in Hf.
  apply orb_true_iff in Hf as [[H1%fits_true H2%fits_true]%andb_true_iff
                              |[H1%Z.leb_le H2%Z.leb_le]%andb_true_iff].
  - rewrite !sat_fits by done. rewrite E by lia. lia.
  - unfold sat. repeat case_bool; lia.
Qed.

Lemma saturate_sat x : saturate x = sat i64_MIN i64_MAX x.
Proof. reflexivity. Qed.

Lemma add_reg_bounds_typed d s : sb_typed (add_reg_bounds d s).
Proof. apply sync_typed, saturated_typed. Qed.

Lemma sub_reg_bounds_typed d s : sb_typed (sub_reg_bounds d s).
Proof. apply sync_typed, saturated_typed. Qed.

Ltac typed_bounds :=
  unfold in_u, in_s, i64_MIN, i64_MAX, u64_MAX, i32_MIN, i32_MAX, u32_MAX in *.

Lemma s64_range x : i64_MIN <= s64 x <= i64_MAX.
Proof. apply in_s64_iff, s64_in. Qed.
Lemma u64_range x : 0 <= u64 x <= u64_MAX.
Proof. pose proof (u64_in x). typed_bounds. lia. Qed.
Lemma s32_range x : i32_MIN <= s32 x <= i32_MAX.
Proof. pose proof (s32_in x). typed_bounds. lia. Qed.
Lemma u32_range x : 0 <= u32 x <= u32_MAX.
Proof. pose proof (u32_in x). typed_bounds. lia. Qed.

Lemma add_reg_bounds_sound d s v w :
  sb_holds d v -> sb_holds s w -> add_reg_fits d s = true ->
  sb_holds (add_reg_bounds d s) (s64 (v + w)).
Proof.
  intros [] [] Hf. unfold add_reg_fits in Hf. rewrite !andb_true_iff in Hf.
  destruct Hf as [[[H1 H2] H3] H4].
  apply sync_sound; [apply saturated_typed|auto with ivl|].
  constructor; cbn -[sat].
  - apply (pair_sound _ _ _ _ (v + w)); [done..|apply s64_range|lia|apply s64_small].
  - rewrite u64_of_s64, <- u_add by lia.
    apply (pair_sound _ _ _ _ (u64 v + u64 w)); [done..|apply u64_range|lia|apply u64_small].
  - rewrite s32_of_s64, <- s_add by lia.
    apply (pair_sound _ _ _ _ (s32 v + s32 w)); [done..|apply s32_range|lia|apply s32_small].
  - rewrite u32_of_s64, <- u_add by lia.
    apply (pair_sound _ _ _ _ (u32 v + u32 w)); [done..|apply u32_range|lia|apply u32_small].
Qed.

Lemma sub_reg_bounds_sound d s v w :
  sb_holds d v -> sb_holds s w -> sub_reg_fits d s = true ->
  sb_holds (sub_reg_bounds d s) (s64 (v - w)).
Proof.
  intros [] [] Hf. unfold sub_reg_fits in Hf. rewrite !andb_true_iff in Hf.
  destruct Hf as [[[H1 H2] H3] H4].
  apply sync_sound; [apply saturated_typed|auto with ivl|].
  constructor; cbn -[sat].
  - apply (pair_sound _ _ _ _ (v - w)); [done..|apply s64_range|lia|apply s64_small].
  - rewrite u64_of_s64, <- u_sub by lia.
    apply (pair_sound _ _ _ _ (u64 v - u64 w)); [done..|apply u64_range|lia|apply u64_small].
  - rewrite s32_of_s64, <- s_sub by lia.
    apply (pair_sound _ _ _ _ (s32 v - s32 w)); [done..|apply s32_range|lia|apply s32_small].
  - rewrite u32_of_s64, <- u_sub by lia.
    apply (pair_sound _ _ _ _ (u32 v - u32 w)); [done..|apply u32_range|lia|apply u32_small].
Qed.

(** ** Results given by their 64-bit ends *)

Lemma bounds64_typed a b c d : in_s 64 a -> in_s 64 b -> in_u 64 c -> in_u 64 d ->
  sb_typed (forget_32_then_sync (bounds64 a b c d)).
Proof. intros. apply sync_typed. constructor; cbn; auto; typed_bounds; cbn; lia. Qed.

Lemma bounds64_sound a b c d v : in_s 64 a -> in_s 64 b -> in_u 64 c -> in_u 64 d ->
  in_s 64 v -> a <= v <= b -> c <= u64 v <= d ->
  sb_holds (forget_32_then_sync (bounds64 a b c d)) v.
Proof.
  intros. apply sync_sound; [|done|].
  - constructor; cbn; auto; typed_bounds; cbn; lia.
  - pose proof (s32_in v). pose proof (u32_in v).
    constructor; cbn; auto; typed_bounds; cbn in *; lia.
Qed.

Lemma forget32_bounds64 b : scalar_id b = None ->
  forget_32_then_sync b = forget_32_then_sync (bounds64 (smin b) (smax b) (umin b) (umax b)).
Proof.
  destruct b as [a1 a2 a3 a4 a5 a6 a7 a8 i]. cbn. intros ->. unfold forget_32_then_sync.
  f_equal.
Qed.

Lemma unknown_typed : sb_typed unknown.
Proof. constructor; cbn; typed_bounds; cbn; lia. Qed.

Lemma unknown_holds v : in_s 64 v -> sb_holds unknown v.
Proof.
  intros. pose proof (s32_in v). pose proof (u32_in v). pose proof (u64_in v).
  constructor; cbn; typed_bounds; cbn in *; lia.
Qed.

Lemma constant_typed c : in_s 64 c -> sb_typed (constant c).
Proof. intros. constructor; cbn; auto with ivl. Qed.

Lemma constant_holds c : sb_holds (constant c) c.
Proof. constructor; cbn; rewrite ?u32_u64, ?s32_cast_u32; lia. Qed.

(** ** Assumptions *)

Lemma assume_sle_typed b c : in_s 64 c -> sb_typed b -> sb_typed (assume_sle b c).
Proof.
  intros Hc []. apply sync_typed. pose proof (u64_in c).
  case_bool; constructor; cbn; auto; typed_bounds; lia.
Qed.

Lemma assume_sge_typed b c : in_s 64 c -> sb_typed b -> sb_typed (assume_sge b c).
Proof.
  intros Hc []. apply sync_typed. pose proof (u64_in c).
  case_bool; constructor; cbn; auto; typed_bounds; lia.
Qed.

Lemma assume_sge_sound b c v :
  sb_typed b -> in_s 64 c -> in_s 64 v -> sb_holds b v -> c <= v -> sb_holds (assume_sge b c) v.
Proof.
  intros Ht Hc Hv [] H. apply sync_sound; [|done|].
  - destruct Ht. pose proof (u64_in c). case_bool; constructor; cbn; auto; typed_bounds; lia.
  - pose proof (u64_cases c Hc). pose proof (u64_cases v Hv).
    repeat case_bool; constructor; cbn; auto; lia.
Qed.

(** The unsigned maximum is lowered to a non-negative [c] as well, so the value must not be
    negative then. *)
Lemma assume_sle_sound b c v :
  sb_typed b -> in_s 64 c -> in_s 64 v -> sb_holds b v -> v <= c -> (0 <= c -> 0 <= v) ->
  sb_holds (assume_sle b c) v.
Proof.
  intros Ht Hc Hv [] H Hn. apply sync_sound; [|done|].
  - destruct Ht. pose proof (u64_in c). case_bool; constructor; cbn; auto; typed_bounds; lia.
  - pose proof (u64_cases c Hc). pose proof (u64_cases v Hv).
    repeat case_bool; constructor; cbn; auto; lia.
Qed.

(** * Pointers *)

Definition po_fits (imm : Z) (po : PtrOffset) : bool :=
  fits64 (off po + imm) && fits64 (off po + s64 (var_off po)) &&
  fits64 (off po + s64 (var_off po) + imm) &&
  match range po with Some r => i64_MIN <=? r - imm | None => true end.

(** [lo] is added to the fixed part and [width] to the variable part. *)
Definition var_fits (lo width : Z) (po : PtrOffset) : bool :=
  fits64 (off po + lo) && fits 0 i64_MAX width && fits 0 i64_MAX (var_off po + width) &&
  fits64 (off po + var_off po) && fits64 (off po + lo + (var_off po + width)).

Lemma base_ne x a : base_reg x = false -> base_reg a = true -> a <> x.
Proof. congruence. Qed.

Lemma vset_eq s x v : vset s x v x = v.
Proof. unfold vset. by rewrite decide_True. Qed.

Lemma vset_ne s x v y : y <> x -> vset s x v y = s y.
Proof. intros. unfold vset. by rewrite decide_False. Qed.

Lemma vset_base s x v a : base_reg x = false -> base_reg a = true -> vset s x v a = s a.
Proof. intros. by apply vset_ne, base_ne. Qed.

Lemma shift_ptr_typed imm po : po_typed po -> po_typed (shift_ptr imm po).
Proof.
  intros []. constructor; cbn; [done|apply saturate_in|done|].
  intros r. destruct (range po); cbn; intros [= <-]. apply saturate_in.
Qed.

Lemma shift_ptr_holds s x y imm po :
  po_typed po -> po_holds s y po -> base_reg x = false -> po_fits imm po = true ->
  po_holds (vset s x (s y + imm)) x (shift_ptr imm po).
Proof.
  intros [Ha Ho Hv Hr] [Hd Hrg _] Hx Hf. unfold po_fits in Hf.
  rewrite !andb_true_iff in Hf. destruct Hf as [[[H1%fits_true H2%fits_true] H3%fits_true] H4].
  constructor.
  - rewrite vset_eq, vset_base by done. unfold shift_ptr, max_offset, saturating_add in *.
    cbn [off var_off anchor].
    rewrite (saturate_fits (off po + s64 _)) in Hd by done.
    rewrite (saturate_fits (off po + imm)) by done. rewrite saturate_fits by lia. lia.
  - unfold range_holds in *. cbn. destruct (range po) as [r|]; cbn; [|done].
    destruct (region_end (anchor po)) as [e|] eqn:He; [|done].
    assert (base_reg e = true) by (destruct (anchor po); inversion He; reflexivity).
    rewrite vset_eq, vset_base by done. apply Z.leb_le in H4.
    unfold saturating_sub, saturate. repeat case_bool; lia.
  - done.
Qed.

(** A pointer whose offset has become variable. *)
Definition moved_ptr (lo width : Z) (i : option Z) (po : PtrOffset) : PtrOffset :=
  MkPO (anchor po) (saturating_add (off po) lo) (u64_saturating_add (var_off po) width) None i None.

Lemma moved_ptr_typed lo width i po : po_typed po -> po_typed (moved_ptr lo width i po).
Proof.
  intros []. constructor; cbn -[sat]; [done|apply saturate_in| |done].
  unfold u64_saturating_add. pose proof (sat_in 0 u64_MAX (var_off po + width) ltac:(done)).
  typed_bounds. lia.
Qed.

Lemma moved_ptr_holds s x y lo width i po d :
  po_typed po -> base_reg x = false -> var_fits lo width po = true -> lo <= d <= lo + width ->
  off po <= s y - s (anchor po) <= max_offset po ->
  po_holds (vset s x (s y + d)) x (moved_ptr lo width i po).
Proof.
  intros [Ha Ho Hv _] Hx Hf Hd H. unfold var_fits in Hf. rewrite !andb_true_iff in Hf.
  destruct Hf as [[[[H1%fits_true H2%fits_true] H3%fits_true] H4%fits_true] H5%fits_true].
  constructor; [|done..].
  rewrite vset_eq, vset_base by done.
  unfold moved_ptr, max_offset, saturating_add, u64_saturating_add in *. cbn [off var_off anchor].
  rewrite (s64_small (var_off po)), saturate_fits in H by (typed_bounds; lia).
  rewrite sat_fits by (typed_bounds; lia).
  rewrite (saturate_fits (off po + lo)), s64_small, saturate_fits by (typed_bounds; lia). lia.
Qed.

(** * Operations as data *)

Inductive Op : Type :=
| OForget (x : Reg)
| OAssignImm (x : Reg) (imm : Z)
| OAssignReg (x y : Reg)
| OIntersectEq (x y : Reg)
| OAssignRegOffset (dst src : Reg) (imm : Z)
| OInitMapValue (r : Reg)
| OInitMapValueAt (r : Reg) (offset : Z)
| OAssignInterval (r : Reg) (min max : Z)
| OAddImm (dst : Reg) (imm : Z)
| OAddReg (dst src : Reg)
| OScalarAddPtr (dst ptr : Reg) (lo hi : Z)
| OSubReg (dst src : Reg)
| OAndImm (dst : Reg) (mask : Z)
| OMulImm (dst : Reg) (imm : Z)
| ODivImm (dst : Reg) (imm : Z)
| ODivReg (dst src : Reg)
| ONeg (r : Reg)
| OLe (x y : Reg)
| OGe (x y : Reg)
| OGt (x y : Reg)
| OLeOffset (x y : Reg) (c : Z)
| OLeImm (x : Reg) (c : Z)
| OGeImm (x : Reg) (c : Z)
| ORange (x : Reg) (min max : Z)
| OEqImm (x : Reg) (c : Z)
| OLtImm (x : Reg) (c : Z)
| OInitAnchors
| OBind (r a : Reg).

Definition run (op : Op) (st : IntervalState) (next : Z) : IntervalState * Z :=
  match op with
  | OForget x => (forget st x, next)
  | OAssignImm x imm => (assign_imm st x imm, next)
  | OAssignReg x y => (assign_reg st x y, next)
  | OIntersectEq x y => (intersect_eq_reg st x y, next)
  | OAssignRegOffset dst src imm => (assign_reg_offset st dst src imm, next)
  | OInitMapValue r => (init_map_value_ptr st r, next)
  | OInitMapValueAt r o => (init_map_value_ptr_at st r o, next)
  | OAssignInterval r min max => (assign_interval st r min max, next)
  | OAddImm dst imm => (apply_add_imm st dst imm, next)
  | OAddReg dst src => apply_add_reg st next dst src
  | OScalarAddPtr dst ptr lo hi => apply_scalar_add_ptr st next dst ptr lo hi
  | OSubReg dst src => (apply_sub_reg st dst src, next)
  | OAndImm dst mask => (apply_and_imm st dst mask, next)
  | OMulImm dst imm => (apply_mul_imm st dst imm, next)
  | ODivImm dst imm => (apply_div_imm st dst imm, next)
  | ODivReg dst _ => (apply_div_reg st dst, next)
  | ONeg r => (apply_neg st r, next)
  | OLe x y => (assume_le st x y, next)
  | OGe x y => (assume_ge st x y, next)
  | OGt x y => (assume_gt st x y, next)
  | OLeOffset x y c => (assume_le_offset st x y c, next)
  | OLeImm x c => (assume_le_imm st x c, next)
  | OGeImm x c => (assume_ge_imm st x c, next)
  | ORange x min max => (assume_range st x min max, next)
  | OEqImm x c => (assume_eq_imm st x c, next)
  | OLtImm x c => (assume_lt_imm st x c, next)
  | OInitAnchors => (init_packet_anchors st, next)
  | OBind r a => (bind_to_anchor st r a, next)
  end.

(** The constants of an operation are signed 64-bit values. *)
Definition op_typed (op : Op) : Prop :=
  match op with
  | OAssignImm _ c | OAssignRegOffset _ _ c | OInitMapValueAt _ c | OAddImm _ c | OAndImm _ c
  | OMulImm _ c | ODivImm _ c | OLeOffset _ _ c | OLeImm _ c | OGeImm _ c | OEqImm _ c
  | OLtImm _ c => in_s 64 c
  | OAssignInterval _ lo hi | OScalarAddPtr _ _ lo hi | ORange _ lo hi => in_s 64 lo /\ in_s 64 hi
  | _ => True
  end.

(** The instruction or the branch condition an operation stands for. *)
Definition exec (op : Op) (s s' : val) : Prop :=
  match op with
  | OForget x | ODivReg x _ => exists v, in_s 64 v /\ s' = vset s x v
  | OAssignImm x imm => s' = vset s x imm
  | OAssignReg x y => s' = vset s x (s y)
  | OAssignRegOffset dst src imm => s' = vset s dst (s64 (s src + imm))
  | OInitMapValue r => s' = vset s r 0
  | OInitMapValueAt r o => s' = vset s r o
  | OAssignInterval r min max => exists v, min <= v <= max /\ s' = vset s r v
  | OAddImm dst imm => s' = vset s dst (s64 (s dst + imm))
  | OAddReg dst src => s' = vset s dst (s64 (s dst + s src))
  | OScalarAddPtr dst ptr lo hi =>
      lo <= s dst <= hi /\ s' = vset s dst (s64 (s ptr + s dst))
  | OSubReg dst src => s' = vset s dst (s64 (s dst - s src))
  | OAndImm dst mask => s' = vset s dst (s64 (Z.land (s dst) mask))
  | OMulImm dst imm => s' = vset s dst (s64 (s dst * imm))
  | ODivImm dst imm => s' = vset s dst (if imm =? 0 then s dst else s64 (u64 (s dst) / u64 imm))
  | ONeg r => s' = vset s r (s64 (- s r))
  | OIntersectEq x y => s x = s y /\ s' = s
  | OLe x y => s x <= s y /\ s' = s
  | OGe x y => s y <= s x /\ s' = s
  | OGt x y => s y < s x /\ s' = s
  | OLeOffset x y c => s x <= s y + c /\ s' = s
  | OLeImm x c => s x <= c /\ s' = s
  | OGeImm x c => c <= s x /\ s' = s
  | ORange x min max => min <= s x <= max /\ s' = s
  | OEqImm x c => s x = c /\ s' = s
  | OLtImm x c => s x < c /\ s' = s
  | OInitAnchors => s' = s
  | OBind r a => s' = vset s r (s a)
  end.

(** The register an operation writes is an ordinary one. *)
Definition dst_ok (op : Op) : bool :=
  match op with
  | OForget x | OAssignImm x _ | OAssignReg x _ | OAssignRegOffset x _ _ | OInitMapValue x
  | OInitMapValueAt x _ | OAssignInterval x _ _ | OAddImm x _ | OAddReg x _ | OScalarAddPtr x _ _ _
  | OSubReg x _ | OAndImm x _ | OMulImm x _ | ODivImm x _ | ODivReg x _ | ONeg x => negb (base_reg x)
  | OBind x a => negb (base_reg x) && is_anchor a
  | _ => true
  end.

(** ** The type invariant *)

Lemma set_wf st x i : ivl_wf st -> reg_typed i -> ivl_wf (set st x i).
Proof. intros. unfold set. case_decide; [done|]. by apply wf_insert. Qed.

Lemma forget_wf st x : ivl_wf st -> ivl_wf (forget st x).
Proof.
  intros. unfold forget. destruct (fixed_reg x); [done|]. apply wf_insert; [done|].
  split; [apply unknown_typed|done].
Qed.

Lemma upd_bounds_wf st x f :
  ivl_wf st -> (sb_typed (get_bounds st x) -> sb_typed (f (get_bounds st x))) ->
  ivl_wf (upd_bounds st x f).
Proof.
  intros Hw Hf. apply wf_upd; [done|]. destruct (ivl_wf_get st x Hw) as [Hb Hp].
  split; cbn; auto.
Qed.

Lemma upd_ptr_wf st x f :
  ivl_wf st -> (forall po, f (get_ptr_offset st x) = Some po -> po_typed po) ->
  ivl_wf (upd_ptr st x f).
Proof.
  intros Hw Hf. apply wf_upd; [done|]. destruct (ivl_wf_get st x Hw) as [Hb Hp].
  split; cbn; auto.
Qed.

Lemma drop_ptr_wf st x : ivl_wf st -> ivl_wf (drop_ptr st x).
Proof. intros. by apply upd_ptr_wf. Qed.

Lemma wf_bounds st x : ivl_wf st -> sb_typed (get_bounds st x).
Proof. intros Hw. apply (ivl_wf_get st x Hw). Qed.

Lemma wf_ptr st x po : ivl_wf st -> get_ptr_offset st x = Some po -> po_typed po.
Proof. intros Hw. apply (ivl_wf_get st x Hw). Qed.

Lemma fmap_ptr_wf st x f :
  ivl_wf st -> (forall po, po_typed po -> po_typed (f po)) -> ivl_wf (upd_ptr st x (fmap f)).
Proof.
  intros Hw Hf. apply upd_ptr_wf; [done|]. intros po.
  destruct (get_ptr_offset st x) as [q|] eqn:E; cbn; intros [= <-]. eauto using wf_ptr.
Qed.

Lemma at_anchor_typed a : base_reg a = true -> po_typed (at_anchor a).
Proof. intros. constructor; cbn; [done|typed_bounds; lia..|done]. Qed.

#[export] Hint Resolve set_wf forget_wf upd_bounds_wf upd_ptr_wf drop_ptr_wf wf_bounds ivl_wf_get
  fmap_ptr_wf shift_ptr_typed moved_ptr_typed unknown_typed constant_typed add_reg_bounds_typed
  sub_reg_bounds_typed assume_sle_typed assume_sge_typed bounds64_typed saturate_in : ivl.

Lemma add_imm_bounds_typed b imm : sb_typed (add_imm_bounds b imm).
Proof.
  unfold add_imm_bounds, add_pair, u_overflowing_add, s_overflowing_add.
  destruct (eqb _ _), (eqb _ _), (eqb _ _), (eqb _ _); apply sync_typed; constructor; cbn;
    (apply uwrap_range || apply swrap_range || (typed_bounds; cbn)); lia.
Qed.

Lemma grow_moved v b : in_u 64 v ->
  grow_var_off v b = u64_saturating_add v (Z.max 0 (saturating_sub (smax b) (smin b))).
Proof.
  intros Hv. unfold grow_var_off, saturating_sub.
  pose proof (saturate_in (smax b - smin b)). case_bool.
  - rewrite u64_small, Z.max_r by (typed_bounds; lia). reflexivity.
  - rewrite Z.max_l by lia. unfold u64_saturating_add. rewrite sat_fits by (typed_bounds; lia). lia.
Qed.

Lemma quot_in a b : in_s 64 a -> 0 < b -> in_s 64 (Z.quot a b).
Proof.
  intros Ha Hb. assert (Z.abs (Z.quot a b) <= Z.abs a).
  { rewrite <- Z.quot_abs by lia. rewrite Z.quot_div_nonneg by lia.
    apply Z.div_le_upper_bound; [lia|]. nia. }
  typed_bounds.
  destruct (Z.eq_dec a (- 2 ^ 63)); [|lia]. subst a.
  assert (Z.quot (- 2 ^ 63) b <= 0) by (apply Z.quot_le_upper_bound; lia). lia.
Qed.

Lemma assign_bounds_wf st x a b c d :
  ivl_wf st -> in_s 64 a -> in_s 64 b -> in_u 64 c -> in_u 64 d ->
  ivl_wf (drop_ptr (upd_bounds st x (fun _ => forget_32_then_sync (bounds64 a b c d))) x).
Proof. auto with ivl. Qed.

Lemma u64_sat_in x : in_u 64 (sat 0 u64_MAX x).
Proof. pose proof (sat_in 0 u64_MAX x ltac:(done)). typed_bounds. lia. Qed.

Lemma udiv_in a b : in_u 64 a -> in_u 64 (a / u64 b).
Proof.
  intros Ha. pose proof (u64_in b). destruct (Z.eq_dec (u64 b) 0) as [->|].
  - rewrite Z.div_0_r. typed_bounds. lia.
  - typed_bounds. split; [apply Z.div_pos; lia|].
    apply Z.div_lt_upper_bound; [lia|]. nia.
Qed.

#[export] Hint Resolve u64_sat_in udiv_in quot_in add_imm_bounds_typed : ivl.

Lemma add_reg_wf st next d r : ivl_wf st -> ivl_wf (apply_add_reg st next d r).1.
Proof.
  intros Hw. unfold apply_add_reg. destruct (fixed_reg d); [done|].
  set (st' := upd_bounds st d _). assert (ivl_wf st') by (unfold st'; auto with ivl).
  destruct (get_constant _); cbn; [auto with ivl|].
  destruct (get_ptr_offset st' d) as [po|] eqn:E; [|done].
  pose proof (wf_ptr _ _ _ H E) as Hp.
  destruct (match id po with Some i => (i, next) | None => new_ptr_id next end) as [i n].
  cbn. apply upd_ptr_wf; [done|]. intros q [= <-].
  rewrite grow_moved by apply Hp. by apply (moved_ptr_typed _ _ (Some i) po).
Qed.

Lemma sub_reg_wf st d r : ivl_wf st -> ivl_wf (apply_sub_reg st d r).
Proof.
  intros Hw. unfold apply_sub_reg. destruct (fixed_reg d); [done|].
  apply fmap_ptr_wf; [auto with ivl|]. intros po Hp.
  rewrite grow_moved by apply Hp.
  replace (saturating_sub (off po) _) with
    (saturating_add (off po) (- smax (get_bounds st r))) by (unfold saturating_add; f_equal; lia).
  by apply (moved_ptr_typed _ _ (id po) po).
Qed.

Lemma scalar_add_ptr_wf st next d p lo hi : ivl_wf st -> ivl_wf (apply_scalar_add_ptr st next d p lo hi).1.
Proof.
  intros Hw. unfold apply_scalar_add_ptr. destruct (fixed_reg d); [done|].
  destruct (get_ptr_offset st p) as [po|] eqn:E; [|cbn; auto with ivl].
  pose proof (wf_ptr _ _ _ Hw E) as Hp.
  destruct (match id po with Some i => _ | None => _ end) as [i n].
  cbn. apply set_wf; [auto with ivl|]. split; [apply unknown_typed|].
  intros q [= <-]. by apply (moved_ptr_typed _ _ i po).
Qed.

Lemma intersect_eq_wf st x y : ivl_wf st -> ivl_wf (intersect_eq_reg st x y).
Proof.
  intros Hw. unfold intersect_eq_reg. destruct (fixed_reg x); [done|].
  apply upd_bounds_wf; [done|]. intros.
  destruct (wf_bounds st y Hw). auto 8 with ivl.
Qed.

Lemma assume_le_wf st x y : ivl_wf st -> ivl_wf (assume_le st x y).
Proof.
  intros Hw. unfold assume_le.
  pose proof (wf_bounds st x Hw) as []. pose proof (wf_bounds st y Hw) as [].
  repeat case_bool; auto with ivl.
Qed.

Lemma assume_gt_wf st x y : ivl_wf st -> ivl_wf (assume_gt st x y).
Proof.
  intros Hw. unfold assume_gt, saturating_add, saturating_sub.
  repeat case_match; auto 6 with ivl.
Qed.

#[export] Hint Resolve add_reg_wf sub_reg_wf scalar_add_ptr_wf intersect_eq_wf assume_le_wf
  assume_gt_wf : ivl.

Lemma scalar_typed b : sb_typed b -> reg_typed (MkRI b None).
Proof. done. Qed.

Lemma pointer_typed b po : sb_typed b -> po_typed po -> reg_typed (MkRI b (Some po)).
Proof. split; [done|]. by intros ? [= <-]. Qed.

Lemma anchored_typed a o : base_reg a = true -> in_s 64 o -> po_typed (MkPO a o 0 None None None).
Proof. constructor; cbn; [done..|typed_bounds; lia|done]. Qed.

Lemma zero_in_s : in_s 64 0. Proof. typed_bounds. lia. Qed.
Lemma zero_in_u : in_u 64 0. Proof. typed_bounds. lia. Qed.
Lemma max_in_u : in_u 64 u64_MAX. Proof. typed_bounds. lia. Qed.

#[export] Hint Resolve scalar_typed pointer_typed anchored_typed zero_in_s zero_in_u max_in_u : ivl.

Lemma and_imm_wf st x mask : in_s 64 mask -> ivl_wf st -> ivl_wf (apply_and_imm st x mask).
Proof.
  intros. unfold apply_and_imm. repeat case_match; auto with ivl.
  apply drop_ptr_wf, upd_bounds_wf; [done|]. intros.
  rewrite forget32_bounds64 by done. cbn [smin smax umin umax]. auto with ivl.
Qed.

Lemma assign_reg_offset_wf st d r imm : ivl_wf st -> ivl_wf (assign_reg_offset st d r imm).
Proof.
  intros Hw. unfold assign_reg_offset. case_match; [done|]. apply set_wf; [done|].
  split; cbn [bounds ptr_offset].
  - unfold saturating_add, u64_saturating_add. auto with ivl.
  - intros po. destruct (get_ptr_offset st r) as [q|] eqn:E; cbn; intros [= <-].
    apply (shift_ptr_typed imm q). eauto using wf_ptr.
Qed.

Lemma div_imm_wf st x imm : ivl_wf st -> ivl_wf (apply_div_imm st x imm).
Proof.
  intros Hw. unfold apply_div_imm. destruct (wf_bounds st x Hw).
  case_match; [done|]. destruct (Z.ltb_spec 0 imm); cbn; [|auto with ivl].
  case_match; auto with ivl.
Qed.

#[export] Hint Resolve and_imm_wf assign_reg_offset_wf div_imm_wf assign_bounds_wf : ivl.

(** Every operation keeps the fifteen registers, their fields inside their types and their
    pointers anchored. *)
Lemma ops_wf op st next : op_typed op -> ivl_wf st -> ivl_wf (run op st next).1.
Proof.
  destruct op; cbn [run op_typed fst]; intros Ht Hw;
    try match type of Ht with _ /\ _ => destruct Ht end; auto with ivl;
    unfold assign_imm, assign_reg, init_map_value_ptr, init_map_value_ptr_at, assign_interval,
      apply_add_imm, apply_mul_imm, apply_neg, assume_le_offset, assume_ge, assume_le_imm,
      assume_ge_imm, assume_range, assume_eq_imm, assume_lt_imm, init_packet_anchors,
      bind_to_anchor, assign_zero, assign_imm, reg_constant, with_ptr_offset, wrapping_neg,
      saturating_mul, u64_saturating_mul, saturating_add;
    repeat case_match; auto 10 with ivl.
  - unfold assume_le_imm, assume_ge_imm. auto with ivl.
  - apply set_wf; [done|]. split; [by apply constant_typed|]. intros po. by apply wf_ptr.
  - apply upd_bounds_wf; [done|]. intros. apply assume_sle_typed; [|done].
    apply negb_true_iff, Z.eqb_neq in H. typed_bounds. lia.
  - repeat apply set_wf; auto using at_anchor_typed with ivl.
  - apply set_wf; [done|]. apply pointer_typed; auto with ivl. apply at_anchor_typed.
    unfold base_reg, fixed_reg. by rewrite H, orb_true_r.
Qed.

(** ** Soundness *)

(** What an operation that saturates, or narrows an unsigned bound along with a signed one, needs
    of the bounds it meets. *)
Definition const_ptr_fits (st : IntervalState) (r : Reg) (imm : Z) : bool :=
  match get_ptr_offset st r with Some po => po_fits imm po | None => true end.
Definition moved_ptr_fits (st : IntervalState) (r : Reg) (lo width : Z) : bool :=
  match get_ptr_offset st r with Some po => var_fits lo width po | None => true end.
Definition sle_fits (b : ScalarBounds) (c : Z) : bool := (c <? 0) || (0 <=? smin b).

Definition op_fits (st : IntervalState) (op : Op) : bool :=
  match op with
  | OAssignRegOffset _ src imm =>
      let b := get_bounds st src in
      fits64 (smin b + imm) && fits64 (smax b + imm) && fitsu64 (umax b + u64 imm) &&
      const_ptr_fits st src imm
  | OAssignInterval _ min max => (max <? 0) || (0 <=? min)
  | OAddImm dst imm => const_ptr_fits st dst imm
  | OAddReg dst src =>
      let b := get_bounds st src in
      add_reg_fits (get_bounds st dst) b &&
      match get_constant b with
      | Some c => const_ptr_fits st dst c
      | None => moved_ptr_fits st dst (smin b) (smax b - smin b)
      end
  | OScalarAddPtr _ ptr lo hi => moved_ptr_fits st ptr lo (hi - lo)
  | OSubReg dst src =>
      let b := get_bounds st src in
      sub_reg_fits (get_bounds st dst) b && moved_ptr_fits st dst (- smax b) (smax b - smin b)
  | OMulImm dst imm =>
      let b := get_bounds st dst in
      (imm <=? 1) || fits64 (smin b * imm) && fits64 (smax b * imm) && fitsu64 (umax b * imm)
  | OLe x y => sle_fits (get_bounds st x) (smax (get_bounds st y))
  | OGe x y => sle_fits (get_bounds st y) (smax (get_bounds st x))
  | OGt x y =>
      let bx := get_bounds st x in
      let by_ := get_bounds st y in
      ((smin bx =? smax bx) || (smin by_ =? smax by_)) && sle_fits by_ (smin bx - 1)
  | OLeOffset x y c =>
      sle_fits (get_bounds st x) (saturating_add (smax (get_bounds st y)) c) &&
      (i64_MIN <=? smax (get_bounds st y) + c)
  | OLeImm x c => sle_fits (get_bounds st x) c
  | ORange x min max => sle_fits (assume_sge (get_bounds st x) min) max
  | OLtImm x c => sle_fits (get_bounds st x) (c - 1)
  | _ => true
  end.

(** A pointer stays in the address space. *)
Definition ptr_nowrap (st : IntervalState) (op : Op) (s : val) : Prop :=
  match op with
  | OAssignRegOffset _ src imm => get_ptr_offset st src = None \/ in_s 64 (s src + imm)
  | OAddImm dst imm => get_ptr_offset st dst = None \/ in_s 64 (s dst + imm)
  | OAddReg dst src => get_ptr_offset st dst = None \/ in_s 64 (s dst + s src)
  | OScalarAddPtr dst ptr _ _ => get_ptr_offset st ptr = None \/ in_s 64 (s ptr + s dst)
  | OSubReg dst src => get_ptr_offset st dst = None \/ in_s 64 (s dst - s src)
  | _ => True
  end.

Lemma upd_length st x f : length (regs st) = DBM_DIM -> length (regs (upd st x f)) = DBM_DIM.
Proof. intros. cbn. by rewrite length_alter. Qed.

Section Assign.
Context (st : IntervalState) (s : val).
Context (Hw : ivl_wf st) (Hh : ivl_holds st s).

Lemma holds_other x v y po : base_reg x = false -> y <> x -> po_typed po ->
  po_holds s y po -> po_holds (vset s x v) y po.
Proof.
  intros Hx Hy [Ha _ _ _] [Hd Hr He]. constructor.
  - by rewrite vset_ne, vset_base.
  - unfold range_holds in *. destruct (range po); [|done].
    destruct (region_end (anchor po)) as [e|] eqn:E; [|done].
    assert (base_reg e = true) by (destruct (anchor po); inversion E; reflexivity).
    by rewrite vset_ne, vset_base.
  - unfold end_rel_holds in *. destruct (pkt_end_rel po) as [[]|]; [| |done];
      rewrite vset_ne, (vset_ne _ _ _ y) by (auto using base_ne); done.
Qed.

Lemma vset_ok x v : base_reg x = false -> in_s 64 v -> val_ok (vset s x v).
Proof.
  intros Hx Hv. destruct Hh as [[Ht Hz] _]. split.
  - intros y. unfold vset. by case_decide.
  - rewrite vset_base; done.
Qed.

(** A register gets a new value and a new description. *)
Lemma holds_assign x v i st' :
  base_reg x = false -> in_s 64 v -> reg_holds (vset s x v) x i ->
  (forall y, get st' y = if decide (y = x) then i else get st y) ->
  ivl_holds st' (vset s x v).
Proof.
  intros Hx Hv Hi Hg. split; [by apply vset_ok|]. intros y. rewrite Hg. case_decide; [by subst|].
  destruct Hh as [_ Hr]. destruct (Hr y) as [Hb Hp]. split; [by rewrite vset_ne|].
  intros po E. apply holds_other; auto. by apply (wf_ptr st y).
Qed.

(** The value stays, its bounds get tighter. *)
Lemma holds_refine x b st' :
  sb_holds b (s x) ->
  (forall y, get st' y = if decide (y = x) then MkRI b (get_ptr_offset st x) else get st y) ->
  ivl_holds st' s.
Proof.
  intros Hb Hg. destruct Hh as [Hs Hr]. split; [done|]. intros y. rewrite Hg.
  case_decide; [|apply Hr]. subst y. destruct (Hr x) as [_ Hp]. by split.
Qed.

Lemma holds_bounds x : sb_holds (get_bounds st x) (s x).
Proof. apply Hh. Qed.

Lemma holds_in x : in_s 64 (s x).
Proof. apply Hh. Qed.

Lemma refine_bounds x f :
  sb_holds (f (get_bounds st x)) (s x) -> ivl_holds (upd_bounds st x f) s.
Proof.
  intros Hb. eapply (holds_refine x); [exact Hb|]. intros y. unfold upd_bounds.
  rewrite get_upd by apply Hw. done.
Qed.

Lemma assign_reg_holds x v i :
  base_reg x = false -> in_s 64 v -> reg_holds (vset s x v) x i ->
  ivl_holds (set st x i) (vset s x v).
Proof.
  intros Hx Hv Hi. rewrite set_nonzero by (by intros ->).
  apply (holds_assign x v i); auto. intros y. apply get_insert, Hw.
Qed.

Lemma scalar_holds x v b : sb_holds b v -> reg_holds (vset s x v) x (MkRI b None).
Proof. split; [by rewrite vset_eq|done]. Qed.

Lemma assign_scalar x v b :
  base_reg x = false -> in_s 64 v -> sb_holds b v ->
  ivl_holds (set st x (MkRI b None)) (vset s x v).
Proof. auto using assign_reg_holds, scalar_holds. Qed.

Lemma forget_holds x v : base_reg x = false -> in_s 64 v -> ivl_holds (forget st x) (vset s x v).
Proof.
  intros Hx Hv. unfold forget. destruct (fixed_reg x) eqn:E.
  { unfold base_reg in Hx. by rewrite E in Hx. }
  apply (holds_assign x v reg_unknown); auto.
  - apply scalar_holds. by apply unknown_holds.
  - intros y. apply get_insert, Hw.
Qed.

(** Bounds replaced and pointer information dropped in place. *)
Lemma drop_assign x v f :
  base_reg x = false -> in_s 64 v -> sb_holds (f (get_bounds st x)) v ->
  ivl_holds (drop_ptr (upd_bounds st x f) x) (vset s x v).
Proof.
  intros Hx Hv Hb. apply (holds_assign x v (MkRI (f (get_bounds st x)) None)); auto.
  - by apply scalar_holds.
  - intros y. unfold drop_ptr, upd_ptr, upd_bounds.
    destruct Hw as [Hl _]. rewrite !get_upd by auto using upd_length.
    repeat case_decide; subst; done.
Qed.

(** Bounds and pointer information replaced in place. *)
Lemma ptr_assign x v f g :
  base_reg x = false -> in_s 64 v -> sb_holds (f (get_bounds st x)) v ->
  (forall po, g (get_ptr_offset st x) = Some po -> po_holds (vset s x v) x po) ->
  ivl_holds (upd_ptr (upd_bounds st x f) x g) (vset s x v).
Proof.
  intros Hx Hv Hb Hp.
  apply (holds_assign x v (MkRI (f (get_bounds st x)) (g (get_ptr_offset st x)))); auto.
  - split; [by rewrite vset_eq|done].
  - intros y. unfold upd_ptr, upd_bounds.
    destruct Hw as [Hl _]. rewrite !get_upd by auto using upd_length.
    repeat case_decide; subst; done.
Qed.
End Assign.

Section Ops.
Context (st : IntervalState) (s : val).
Context (Hw : ivl_wf st) (Hh : ivl_holds st s).

Lemma value_in x : in_s 64 (s x).
Proof. apply Hh. Qed.

Lemma bounds_hold x : sb_holds (get_bounds st x) (s x).
Proof. apply Hh. Qed.

Lemma bounds_typed x : sb_typed (get_bounds st x).
Proof. by apply wf_bounds. Qed.

Lemma base_fixed x : base_reg x = false -> fixed_reg x = false.
Proof. unfold base_reg. by intros [? _]%orb_false_iff. Qed.

Lemma holds_ptr x po : get_ptr_offset st x = Some po -> po_typed po /\ po_holds s x po.
Proof. split; [by apply (wf_ptr st x)|]. by apply Hh. Qed.

Lemma sle_refine x c :
  in_s 64 c -> s x <= c -> sle_fits (get_bounds st x) c = true ->
  ivl_holds (upd_bounds st x (fun b => assume_sle b c)) s.
Proof.
  intros Hc Hx Hf. apply refine_bounds; [done..|].
  pose proof (bounds_hold x) as Hb.
  apply assume_sle_sound; auto using bounds_typed, value_in.
  unfold sle_fits in Hf. destruct Hb. repeat case_bool; cbn in Hf; lia.
Qed.

Lemma sge_refine x c :
  in_s 64 c -> c <= s x -> ivl_holds (upd_bounds st x (fun b => assume_sge b c)) s.
Proof.
  intros Hc Hx. apply refine_bounds; [done..|].
  apply assume_sge_sound; auto using bounds_typed, value_in, bounds_hold.
Qed.

Lemma add_imm_sound x imm :
  in_s 64 imm -> base_reg x = false -> const_ptr_fits st x imm = true ->
  get_ptr_offset st x = None \/ in_s 64 (s x + imm) ->
  ivl_holds (apply_add_imm st x imm) (vset s x (s64 (s x + imm))).
Proof.
  intros Hi Hx Hf Hn. unfold apply_add_imm. rewrite base_fixed by done.
  apply ptr_assign; auto with ivl.
  - apply add_imm_bounds_sound; auto using bounds_typed, value_in, bounds_hold.
  - intros po. unfold const_ptr_fits in Hf.
    destruct (get_ptr_offset st x) as [q|] eqn:E; cbn; intros [= <-].
    destruct Hn as [|Hn]; [done|]. destruct (holds_ptr x q E).
    rewrite s64_small by (by apply in_s64_iff). by apply shift_ptr_holds.
Qed.

Lemma assign_reg_offset_sound x y imm :
  in_s 64 imm -> base_reg x = false -> op_fits st (OAssignRegOffset x y imm) = true ->
  get_ptr_offset st y = None \/ in_s 64 (s y + imm) ->
  ivl_holds (assign_reg_offset st x y imm) (vset s x (s64 (s y + imm))).
Proof.
  intros Hi Hx Hf Hn. unfold assign_reg_offset. rewrite base_fixed by done.
  cbn in Hf. rewrite !andb_true_iff in Hf.
  destruct Hf as [[[H1%fits_true H2%fits_true] H3%fits_true] H4].
  destruct (bounds_typed y). destruct (bounds_hold y).
  apply assign_reg_holds; auto with ivl. split.
  - cbn [bounds]. rewrite vset_eq. unfold saturating_add, u64_saturating_add.
    pose proof (u64_in (s y)). pose proof (u64_in imm).
    rewrite !saturate_fits, !sat_fits by (typed_bounds; lia).
    apply bounds64_sound; auto with ivl; try (typed_bounds; lia).
    + rewrite s64_small by lia. lia.
    + rewrite u64_of_s64, <- u_add, (u64_small (u64 (s y) + u64 imm)) by (typed_bounds; lia). lia.
  - intros po. cbn [ptr_offset]. unfold const_ptr_fits in H4.
    destruct (get_ptr_offset st y) as [q|] eqn:E; cbn [fmap option_fmap option_map];
      intros [= <-].
    destruct Hn as [|Hn]; [done|]. destruct (holds_ptr y q E).
    rewrite s64_small by (by apply in_s64_iff). by apply (shift_ptr_holds s x y imm q).
Qed.

Lemma get_constant_eq b v c : sb_holds b v -> get_constant b = Some c -> v = c.
Proof.
  intros [] H. unfold get_constant, is_constant in H. case_match eqn:E; [|done].
  apply andb_true_iff in E as [E%Z.eqb_eq _]. inversion H. lia.
Qed.

Lemma signed_width b v : sb_typed b -> sb_holds b v -> smax b - smin b <= i64_MAX ->
  Z.max 0 (saturating_sub (smax b) (smin b)) = smax b - smin b.
Proof.
  intros [] [] Hm. unfold saturating_sub. rewrite saturate_fits by (typed_bounds; lia). lia.
Qed.

Lemma var_fits_width lo width po : var_fits lo width po = true -> 0 <= width <= i64_MAX.
Proof. unfold var_fits. rewrite !andb_true_iff. intros [[[[_ ?%fits_true] _] _] _]. done. Qed.

Lemma add_reg_sound next x y :
  base_reg x = false -> op_fits st (OAddReg x y) = true ->
  get_ptr_offset st x = None \/ in_s 64 (s x + s y) ->
  ivl_holds (apply_add_reg st next x y).1 (vset s x (s64 (s x + s y))).
Proof.
  intros Hx Hf Hn. unfold apply_add_reg. rewrite base_fixed by done.
  cbn in Hf. rewrite !andb_true_iff in Hf. destruct Hf as [Hb Hp].
  pose proof (bounds_hold y) as Hy.
  assert (sb_holds (add_reg_bounds (get_bounds st x) (get_bounds st y)) (s64 (s x + s y))).
  { apply add_reg_bounds_sound; auto using bounds_typed, bounds_hold. }
  destruct (get_constant (get_bounds st y)) as [c|] eqn:Ec.
  - cbn. apply ptr_assign; auto with ivl. intros po. unfold const_ptr_fits in Hp.
    destruct (get_ptr_offset st x) as [q|] eqn:E; cbn; intros [= <-].
    destruct Hn as [|Hn]; [done|]. destruct (holds_ptr x q E).
    rewrite s64_small by (by apply in_s64_iff).
    rewrite (get_constant_eq _ _ _ Hy Ec). by apply shift_ptr_holds.
  - set (st1 := upd_bounds st x _).
    assert (get_ptr_offset st1 x = get_ptr_offset st x) as ->.
    { unfold get_ptr_offset, st1, upd_bounds. rewrite get_upd by apply Hw. by rewrite decide_True. }
    unfold moved_ptr_fits in Hp. destruct (get_ptr_offset st x) as [q|] eqn:E.
    + destruct (match id q with Some i => (i, next) | None => new_ptr_id next end) as [i n].
      destruct Hn as [|Hn]; [done|]. destruct (holds_ptr x q E) as [Hqt Hq].
      cbn [fst]. apply ptr_assign; auto with ivl. intros po [= <-].
      rewrite s64_small by (by apply in_s64_iff). rewrite grow_moved by apply Hqt.
      pose proof (var_fits_width _ _ _ Hp).
      rewrite (signed_width _ (s y)) by (auto using bounds_typed; lia).
      apply (moved_ptr_holds s x x (smin (get_bounds st y)) _ (Some i) q (s y)); auto.
      * destruct Hy. lia.
      * apply Hq.
    + cbn [fst]. eapply (holds_assign st s Hw Hh x _ (MkRI _ None)); auto with ivl.
      * apply scalar_holds. exact H.
      * intros z. unfold st1, upd_bounds. rewrite get_upd by apply Hw.
        case_decide; [|done]. f_equal. exact E.
Qed.

Lemma sub_reg_sound x y :
  base_reg x = false -> op_fits st (OSubReg x y) = true ->
  get_ptr_offset st x = None \/ in_s 64 (s x - s y) ->
  ivl_holds (apply_sub_reg st x y) (vset s x (s64 (s x - s y))).
Proof.
  intros Hx Hf Hn. unfold apply_sub_reg. rewrite base_fixed by done.
  cbn in Hf. rewrite !andb_true_iff in Hf. destruct Hf as [Hb Hp].
  apply ptr_assign; auto with ivl.
  { apply sub_reg_bounds_sound; auto using bounds_typed, bounds_hold. }
  intros po. unfold moved_ptr_fits in Hp.
  destruct (get_ptr_offset st x) as [q|] eqn:E; cbn [fmap option_fmap option_map]; intros [= <-].
  destruct Hn as [|Hn]; [done|]. destruct (holds_ptr x q E) as [Hqt Hq].
  rewrite s64_small by (by apply in_s64_iff). rewrite grow_moved by apply Hqt.
  pose proof (var_fits_width _ _ _ Hp). pose proof (bounds_hold y) as Hy.
  rewrite (signed_width _ (s y)) by (auto using bounds_typed; lia).
  set (b := get_bounds st y) in *.
  replace (saturating_sub (off q) (smax b)) with (saturating_add (off q) (- smax b))
    by (unfold saturating_add; f_equal; lia).
  apply (moved_ptr_holds s x x (- smax b) (smax b - smin b) (id q) q (- s y)); auto.
  - destruct Hy. lia.
  - apply Hq.
Qed.

Lemma scalar_add_ptr_sound next x y lo hi :
  in_s 64 lo -> in_s 64 hi -> base_reg x = false ->
  moved_ptr_fits st y lo (hi - lo) = true -> lo <= s x <= hi ->
  get_ptr_offset st y = None \/ in_s 64 (s y + s x) ->
  ivl_holds (apply_scalar_add_ptr st next x y lo hi).1 (vset s x (s64 (s y + s x))).
Proof.
  intros Hlo Hhi Hx Hp Hr Hn. unfold apply_scalar_add_ptr. rewrite base_fixed by done.
  destruct (get_ptr_offset st y) as [q|] eqn:E; cbn [fst]; [|apply forget_holds; auto with ivl].
  unfold moved_ptr_fits in Hp. rewrite E in Hp. pose proof (var_fits_width _ _ _ Hp).
  rewrite (proj2 (Z.leb_le lo hi)) by lia.
  rewrite (s64_small (hi - lo)), (u64_small (hi - lo)) by (typed_bounds; lia).
  destruct (match id q with Some i => _ | None => _ end) as [i n]. cbn [fst].
  destruct Hn as [|Hn]; [done|]. destruct (holds_ptr y q E) as [Hqt Hq].
  rewrite s64_small by (by apply in_s64_iff).
  apply (holds_assign st s Hw Hh x _
    (MkRI unknown (Some (moved_ptr lo (hi - lo) i q)))); auto.
  - split; [rewrite vset_eq; by apply unknown_holds|]. intros po [= <-].
    apply moved_ptr_holds; auto; [lia|apply Hq].
  - intros z. rewrite set_nonzero by (by intros ->).
    unfold forget. rewrite base_fixed by done. destruct Hw as [Hl _].
    rewrite get_insert by (cbn; by rewrite length_insert).
    rewrite get_insert by done. by repeat case_decide.
Qed.

Lemma copy_ptr_holds x y po : base_reg x = false -> po_typed po -> po_holds s y po ->
  po_holds (vset s x (s y)) x po.
Proof.
  intros Hx [Ha _ _ _] [Hd Hr He]. constructor.
  - by rewrite vset_eq, vset_base.
  - unfold range_holds in *. destruct (range po); [|done].
    destruct (region_end (anchor po)) as [e|] eqn:E; [|done].
    assert (base_reg e = true) by (destruct (anchor po); inversion E; reflexivity).
    by rewrite vset_eq, vset_base.
  - unfold end_rel_holds in *. destruct (pkt_end_rel po) as [[]|]; [| |done];
      by rewrite vset_eq, vset_base.
Qed.

Lemma copy_holds x y : base_reg x = false -> reg_holds (vset s x (s y)) x (get st y).
Proof.
  intros Hx. split; [rewrite vset_eq; apply bounds_hold|]. intros po E.
  destruct (holds_ptr y po E). by apply copy_ptr_holds.
Qed.

Lemma same_holds x : base_reg x = false -> ivl_holds st (vset s x (s x)).
Proof.
  intros Hx. apply (holds_assign st s Hw Hh x _ (get st x)); auto using value_in, copy_holds.
  intros y. by case_decide; subst.
Qed.

Lemma land_mask_le v mask : 0 <= mask -> 0 <= Z.land v mask <= mask.
Proof.
  intros Hm. split; [apply Z.land_nonneg; lia|].
  assert (mask - Z.land v mask = Z.ldiff mask (Z.land v mask)) as H.
  { apply Z.sub_nocarry_ldiff. apply Z.bits_inj'. intros i _.
    rewrite Z.ldiff_spec, Z.land_spec, Z.bits_0. by destruct (Z.testbit v i), (Z.testbit mask i). }
  assert (0 <= Z.ldiff mask (Z.land v mask)) by (apply Z.ldiff_nonneg; lia). lia.
Qed.

Lemma and_imm_sound x mask : in_s 64 mask -> base_reg x = false ->
  ivl_holds (apply_and_imm st x mask) (vset s x (s64 (Z.land (s x) mask))).
Proof.
  intros Hm Hx. unfold apply_and_imm. rewrite base_fixed by done.
  apply drop_assign; auto with ivl. case_bool; [|by apply unknown_holds, s64_in].
  pose proof (land_mask_le (s x) mask).
  rewrite forget32_bounds64 by done. cbn [smin smax umin umax].
  rewrite s64_small, (u64_small mask) by (typed_bounds; lia).
  apply bounds64_sound; try (typed_bounds; lia); auto with ivl.
  rewrite u64_small by (typed_bounds; lia). lia.
Qed.

Lemma u_mul w x y : 0 < w -> uwrap w (uwrap w x * y) = uwrap w (x * y).
Proof. intros. unfold uwrap. by rewrite Z.mul_mod_idemp_l by lia. Qed.

Lemma mul_imm_sound x imm : in_s 64 imm -> base_reg x = false ->
  op_fits st (OMulImm x imm) = true ->
  ivl_holds (apply_mul_imm st x imm) (vset s x (s64 (s x * imm))).
Proof.
  intros Hi Hx Hf. unfold apply_mul_imm. rewrite base_fixed by done.
  destruct (Z.eqb_spec imm 0) as [->|].
  { unfold assign_zero, assign_imm. rewrite base_fixed by done. rewrite Z.mul_0_r.
    apply assign_scalar; auto with ivl. apply (constant_holds 0). }
  destruct (Z.eqb_spec imm 1) as [->|].
  { rewrite Z.mul_1_r, s64_small by (apply in_s64_iff, value_in). by apply same_holds. }
  destruct (Z.ltb_spec 0 imm); [|apply forget_holds; auto with ivl].
  cbn in Hf. rewrite (proj2 (Z.leb_gt imm 1)) in Hf by lia. cbn in Hf.
  rewrite !andb_true_iff in Hf. destruct Hf as [[H1%fits_true H2%fits_true] H3%fits_true].
  apply drop_assign; auto with ivl. destruct (bounds_typed x), (bounds_hold x).
  set (b := get_bounds st x) in *. pose proof (u64_in (s x)).
  unfold saturating_mul, u64_saturating_mul. rewrite (u64_small imm) by (typed_bounds; lia).
  assert (umin b * imm <= u64 (s x) * imm <= umax b * imm) by nia.
  assert (0 <= umin b * imm) by (typed_bounds; nia).
  rewrite !saturate_fits, !sat_fits by (typed_bounds; lia).
  apply bounds64_sound; auto with ivl; try (typed_bounds; lia).
  - rewrite s64_small; nia.
  - rewrite u64_of_s64, <- u_mul, u64_small by (typed_bounds; lia). lia.
Qed.

Lemma div_imm_sound x imm : in_s 64 imm -> base_reg x = false ->
  ivl_holds (apply_div_imm st x imm)
    (vset s x (if imm =? 0 then s x else s64 (u64 (s x) / u64 imm))).
Proof.
  intros Hi Hx. unfold apply_div_imm. rewrite base_fixed by done. cbn [orb].
  destruct (Z.eqb_spec imm 0) as [->|]; [by apply same_holds|].
  destruct (Z.ltb_spec 0 imm); cbn [andb]; [|apply forget_holds; auto with ivl].
  destruct (Z.leb_spec 0 (smin (get_bounds st x))); [|apply forget_holds; auto with ivl].
  apply drop_assign; auto with ivl. destruct (bounds_typed x), (bounds_hold x).
  set (b := get_bounds st x) in *. pose proof (value_in x).
  rewrite (u64_small imm), (u64_small (s x)) in * by (typed_bounds; lia).
  assert (0 <= s x / imm <= s x).
  { split; [apply Z.div_pos; lia|]. apply Z.div_le_upper_bound; [lia|]. nia. }
  rewrite !Z.quot_div_nonneg by lia. rewrite s64_small by (typed_bounds; lia).
  pose proof (Z.div_le_mono (smin b) (s x) imm). pose proof (Z.div_le_mono (s x) (smax b) imm).
  pose proof (Z.div_le_mono (umin b) (s x) imm). pose proof (Z.div_le_mono (s x) (umax b) imm).
  assert (0 <= smin b / imm) by (apply Z.div_pos; lia).
  assert (0 <= umin b / imm) by (apply Z.div_pos; typed_bounds; lia).
  assert (smax b / imm <= smax b) by (apply Z.div_le_upper_bound; nia).
  assert (umax b / imm <= umax b) by (apply Z.div_le_upper_bound; nia).
  apply bounds64_sound; try (typed_bounds; lia).
  rewrite u64_small by (typed_bounds; lia). lia.
Qed.

Lemma neg_sound x : base_reg x = false ->
  ivl_holds (apply_neg st x) (vset s x (s64 (- s x))).
Proof.
  intros Hx. unfold apply_neg. rewrite base_fixed by done.
  destruct (_ || _) eqn:Ho; [apply forget_holds; auto with ivl|].
  destruct (_ <? _); [apply forget_holds; auto with ivl|].
  apply orb_false_iff in Ho as [H1%Z.eqb_neq H2%Z.eqb_neq].
  apply drop_assign; auto with ivl. destruct (bounds_typed x), (bounds_hold x).
  unfold wrapping_neg. rewrite !s64_small by (typed_bounds; lia).
  pose proof (u64_in (- s x)).
  apply bounds64_sound; try (typed_bounds; lia).
Qed.

Lemma intersect_eq_sound x y : s x = s y -> ivl_holds (intersect_eq_reg st x y) s.
Proof.
  intros E. unfold intersect_eq_reg. case_match; [done|]. apply refine_bounds; [done..|].
  pose proof (bounds_typed x). pose proof (bounds_hold x). pose proof (value_in x).
  destruct (bounds_typed y), (bounds_hold y). rewrite <- E in *.
  apply sync_sound; auto 6 with ivl.
Qed.

Lemma le_sound x y : s x <= s y -> sle_fits (get_bounds st x) (smax (get_bounds st y)) = true ->
  ivl_holds (assume_le st x y) s.
Proof.
  intros Hxy Hf. unfold assume_le.
  destruct (bounds_typed x), (bounds_typed y), (bounds_hold x), (bounds_hold y).
  rewrite (proj2 (Z.leb_le (smin (get_bounds st x)) _)) by lia.
  set (st1 := upd_bounds st x _).
  assert (ivl_wf st1) by (unfold st1; auto with ivl).
  assert (H1 : ivl_holds st1 s) by (apply sle_refine; auto; lia).
  apply refine_bounds; [done..|].
  apply assume_sge_sound; auto using wf_bounds, value_in; [|lia]. apply H1.
Qed.

Lemma gt_sound x y : s y < s x -> op_fits st (OGt x y) = true -> ivl_holds (assume_gt st x y) s.
Proof.
  intros Hxy Hf. unfold assume_gt, saturating_add, saturating_sub.
  cbn in Hf. apply andb_true_iff in Hf as [Hc Hf].
  destruct (bounds_typed x), (bounds_typed y), (bounds_hold x), (bounds_hold y).
  set (bx := get_bounds st x) in *. set (b := get_bounds st y) in *.
  assert (smin bx = smax bx \/ smin b = smax b) as Hconst
    by (apply orb_true_iff in Hc as [?%Z.eqb_eq|?%Z.eqb_eq]; auto).
  set (st1 := if negb (smax b =? i64_MAX) then _ else st).
  assert (ivl_wf st1) by (unfold st1; repeat case_match; auto with ivl).
  assert (H1 : ivl_holds st1 s).
  { unfold st1. case_bool; cbn; [done|]. rewrite saturate_fits by (typed_bounds; lia).
    case_bool; [|done]. apply sge_refine; [typed_bounds; lia|lia]. }
  assert (Hb1 : smin (get_bounds st1 y) = smin b \/ x = y).
  { destruct (decide (y = x)) as [->|Hne]; [by right|]. left.
    unfold st1, get_bounds, upd_bounds. repeat case_match; rewrite ?get_upd by apply Hw; try done;
      by rewrite decide_False. }
  destruct Hb1 as [Hb1| ->]; [|lia].
  case_bool; cbn; [done|]. rewrite saturate_fits by (typed_bounds; lia).
  case_bool; [|done].
  apply refine_bounds; [done..|]. apply assume_sle_sound; auto using wf_bounds, value_in.
  - typed_bounds. lia.
  - apply H1.
  - lia.
  - unfold sle_fits in Hf. repeat case_bool; cbn in Hf; lia.
Qed.

Lemma le_offset_sound x y c : in_s 64 c -> s x <= s y + c -> op_fits st (OLeOffset x y c) = true ->
  ivl_holds (assume_le_offset st x y c) s.
Proof.
  intros Hc Hxy Hf. unfold assume_le_offset. case_match; [|done].
  cbn in Hf. apply andb_true_iff in Hf as [Hf Hm%Z.leb_le].
  destruct (bounds_hold y). pose proof (value_in x).
  apply sle_refine; [apply saturate_in| |done].
  unfold saturating_add, saturate. typed_bounds. repeat case_bool; lia.
Qed.

Lemma range_sound x lo hi : in_s 64 lo -> in_s 64 hi -> lo <= s x <= hi ->
  op_fits st (ORange x lo hi) = true -> ivl_holds (assume_range st x lo hi) s.
Proof.
  intros Hlo Hhi Hx Hf. unfold assume_range, assume_le_imm, assume_ge_imm. cbn in Hf.
  set (st1 := upd_bounds st x _).
  assert (ivl_wf st1) by (unfold st1; auto with ivl).
  assert (H1 : ivl_holds st1 s) by (apply sge_refine; [done|lia]).
  assert (get_bounds st1 x = assume_sge (get_bounds st x) lo) as E.
  { unfold st1, upd_bounds, get_bounds. rewrite get_upd by apply Hw. by rewrite decide_True. }
  apply refine_bounds; [done..|]. apply assume_sle_sound; auto using wf_bounds, value_in.
  - apply H1.
  - lia.
  - rewrite <- E in Hf. destruct H1 as [_ H1]. destruct (H1 x) as [[] _].
    fold (get_bounds st1 x) in *. unfold sle_fits in Hf. repeat case_bool; cbn in Hf; lia.
Qed.
End Ops.

Lemma at_anchor_holds s x a : s x = s a -> po_holds s x (at_anchor a).
Proof.
  intros E. constructor; [|done..]. change (max_offset (at_anchor a)) with 0.
  change (anchor (at_anchor a)) with a. change (off (at_anchor a)) with 0. lia.
Qed.

Lemma anchors_sound st s : ivl_wf st -> ivl_holds st s -> ivl_holds (init_packet_anchors st) s.
Proof.
  intros Hw Hh. destruct Hw as [Hl Hf].
  split; [apply Hh|]. intros y. unfold init_packet_anchors.
  rewrite !set_nonzero by done.
  repeat (rewrite get_insert; [|cbn; rewrite ?length_insert; done]).
  repeat case_decide; subst; try apply Hh;
    (split; [apply unknown_holds, Hh|]); intros po [= <-]; by apply at_anchor_holds.
Qed.

Lemma interval_sound st s x lo hi v :
  ivl_wf st -> ivl_holds st s -> in_s 64 lo -> in_s 64 hi -> base_reg x = false -> lo <= v <= hi ->
  (hi <? 0) || (0 <=? lo) = true ->
  ivl_holds (assign_interval st x lo hi) (vset s x v).
Proof.
  intros Hw Hh Hlo Hhi Hx Hv Hf. unfold assign_interval. rewrite base_fixed by done.
  assert (in_s 64 v) by (typed_bounds; lia).
  apply assign_scalar; auto. pose proof (u64_in v).
  apply bounds64_sound; auto.
  1,2: case_bool; auto with ivl.
  rewrite !(u64_cases) in * by done.
  repeat case_bool; cbn in Hf; try discriminate; typed_bounds; lia.
Qed.

(** One operation: whatever the instruction or the branch does to the registers, the state after
    the operation describes it. *)
Lemma op_sound op st next s s' :
  ivl_wf st -> ivl_holds st s -> op_typed op -> dst_ok op = true -> op_fits st op = true ->
  ptr_nowrap st op s -> exec op s s' -> ivl_holds (run op st next).1 s'.
Proof.
  intros Hw Hh Ht Hd Hf Hn He.
  destruct op; cbn [run exec op_typed dst_ok ptr_nowrap fst] in *;
    try (apply negb_true_iff in Hd; pose proof (base_fixed _ Hd) as Hx).
  - destruct He as (v & Hv & ->). by apply forget_holds.
  - subst s'. unfold assign_imm. rewrite Hx. apply assign_scalar; auto using constant_holds.
  - subst s'. unfold assign_reg. rewrite Hx.
    apply assign_reg_holds; auto using copy_holds. by apply (value_in st).
  - destruct He as [He ->]. by apply intersect_eq_sound.
  - subst s'. by apply assign_reg_offset_sound.
  - subst s'. unfold init_map_value_ptr. rewrite Hx. apply assign_reg_holds; auto with ivl.
    split; [rewrite vset_eq; apply (constant_holds 0)|]. intros po [= <-].
    apply (at_anchor_holds _ _ Zero). rewrite vset_eq, vset_base by done.
    by destruct Hh as [[_ Hz] _].
  - subst s'. unfold init_map_value_ptr_at. rewrite Hx. apply assign_reg_holds; auto.
    split; [rewrite vset_eq; apply constant_holds|]. intros po [= <-].
    constructor; [|done..]. rewrite vset_eq, vset_base by done.
    destruct Hh as [[_ Hz] _]. unfold max_offset, saturating_add. cbn [anchor off var_off].
    change (s64 0) with 0.
    rewrite saturate_fits by (apply in_s64_iff in Ht; lia). lia.
  - destruct Ht, He as (v & Hv & ->). by apply interval_sound.
  - subst s'. by apply add_imm_sound.
  - subst s'. by apply add_reg_sound.
  - destruct Ht, He as [Hv ->]. by apply scalar_add_ptr_sound.
  - subst s'. by apply sub_reg_sound.
  - subst s'. by apply and_imm_sound.
  - subst s'. by apply mul_imm_sound.
  - subst s'. by apply div_imm_sound.
  - destruct He as (v & Hv & ->). by apply forget_holds.
  - subst s'. by apply neg_sound.
  - destruct He as [He ->]. by apply le_sound.
  - destruct He as [He ->]. by apply le_sound.
  - destruct He as [He ->]. by apply gt_sound.
  - destruct He as [He ->]. by apply le_offset_sound.
  - destruct He as [He ->]. by apply sle_refine.
  - destruct He as [He ->]. by apply sge_refine.
  - destruct Ht, He as [He ->]. by apply range_sound.
  - destruct He as [He ->]. unfold assume_eq_imm. case_match eqn:E; [done|].
    apply (holds_refine st s Hh x (constant c)); [subst c; apply constant_holds|].
    intros y. rewrite set_nonzero by (by intros ->). apply get_insert, Hw.
  - destruct He as [He ->]. unfold assume_lt_imm. case_match eqn:E; [|done].
    apply negb_true_iff, Z.eqb_neq in E. apply sle_refine; auto; [typed_bounds; lia|lia].
  - subst s'. by apply anchors_sound.
  - subst s'. apply andb_true_iff in Hd as [Hd%negb_true_iff Ha].
    unfold bind_to_anchor. rewrite Ha.
    assert (in_s 64 (s a)) by (by apply (value_in st)).
    apply assign_reg_holds; auto.
    split; [rewrite vset_eq; by apply unknown_holds|]. intros po [= <-].
    apply at_anchor_holds. rewrite vset_eq, vset_base; [done..|].
    unfold base_reg, fixed_reg. by rewrite Ha, orb_true_r.
Qed.

End IntervalOps.
