(* ===== verification/IntervalProps.v ===== *)
(** What the interval domain promises to its clients, and where it does not keep the promise:
    paths of operations, queries, region checks ([src/domains/interval/ops.rs]). *)

From S2P Require Import Prelude Zone ZoneSound Interval IntervalSound IntervalOps.
From Stdlib Require Import ZArith Lia Bool.
From stdpp Require Import base numbers list.
Open Scope Z_scope.

Module IntervalProps.
Import Zone(Reg(..), idx, is_anchor, DBM_DIM, i64_MAX, i64_MIN, u64_MAX, i32_MAX, i32_MIN, u32_MAX,
            saturating_add, saturating_sub, saturate).
Import ZoneSound(in_s64_iff).
Import Interval IntervalSound IntervalOps.

(** * Paths *)

(** A program path: the operations the verifier performs and the register values of one
    execution, side by side. *)
Inductive path : IntervalState -> Z -> val -> IntervalState -> Z -> val -> Prop :=
| path_nil st n s : path st n s st n s
| path_op op st n s s1 st' n' s' :
    op_typed op -> dst_ok op = true -> op_fits st op = true -> ptr_nowrap st op s ->
    exec op s s1 -> path (run op st n).1 (run op st n).2 s1 st' n' s' ->
    path st n s st' n' s'.

Definition no_geometry (st : IntervalState) : Prop :=
  packet_size_lower_bound st = None /\ packet_size_upper_bound st = None /\
  meta_size_lower_bound st = None /\ meta_size_upper_bound st = None.

Lemma set_regs_geometry st l : no_geometry st -> no_geometry (set_regs st l).
Proof. done. Qed.

Lemma set_geometry st x i : no_geometry st -> no_geometry (set st x i).
Proof. intros. unfold set. by case_decide. Qed.

Lemma forget_geometry st x : no_geometry st -> no_geometry (forget st x).
Proof. intros. unfold forget. by case_match. Qed.

Lemma run_geometry op st n : no_geometry st -> no_geometry (run op st n).1.
Proof.
  intros H. destruct op; cbn [run fst];
    unfold assign_imm, assign_reg, intersect_eq_reg, assign_reg_offset, init_map_value_ptr,
      init_map_value_ptr_at, assign_interval, apply_add_imm, apply_add_reg, apply_scalar_add_ptr,
      apply_sub_reg, apply_and_imm, apply_mul_imm, apply_div_imm, apply_div_reg, apply_neg,
      assume_ge, assume_le, assume_gt, assume_le_offset, assume_le_imm, assume_ge_imm,
      assume_range, assume_eq_imm, assume_lt_imm, init_packet_anchors, bind_to_anchor,
      assign_zero, assign_imm, drop_ptr, assume_le_imm, assume_ge_imm;
    repeat case_match; cbn [fst]; auto using set_geometry, forget_geometry.
Qed.

Lemma unknown_reg_typed : reg_typed reg_unknown.
Proof. apply scalar_typed, unknown_typed. Qed.

Lemma anchor_reg_typed a : base_reg a = true -> reg_typed (with_ptr_offset unknown (at_anchor a)).
Proof. intros. apply pointer_typed; auto using unknown_typed, at_anchor_typed. Qed.

Lemma new_wf : ivl_wf new.
Proof.
  split; [done|]. unfold new. cbn [regs foldl].
  repeat apply Forall_insert; try by apply anchor_reg_typed.
  - apply Forall_replicate, unknown_reg_typed.
  - apply scalar_typed, constant_typed, zero_in_s.
Qed.

Lemma anchor_reg_holds s a : in_s 64 (s a) -> reg_holds s a (with_ptr_offset unknown (at_anchor a)).
Proof. split; [by apply unknown_holds|]. intros po [= <-]. by apply at_anchor_holds. Qed.

Lemma new_holds s : val_ok s -> ivl_holds new s.
Proof.
  intros Hs. split; [done|]. intros x. pose proof (val_typed _ Hs x).
  destruct x; try (by apply anchor_reg_holds);
    try (split; [by apply unknown_holds|done]).
  split; [|done]. rewrite (val_zero _ Hs). apply (constant_holds 0).
Qed.

Lemma idx_surj i : (i < DBM_DIM)%nat -> exists x, idx x = i.
Proof.
  unfold DBM_DIM. intros Hi. destruct (Zone.idx_to_reg i) as [x|] eqn:E.
  - exists x. do 15 (destruct i as [|i]; [by inversion E|]). done.
  - exfalso. do 15 (destruct i as [|i]; [done|]). lia.
Qed.

(** A state that describes an execution is not taken for an infeasible one. *)
Lemma ivl_consistent st s :
  ivl_wf st -> no_geometry st -> ivl_holds st s -> is_inconsistent st = false.
Proof.
  intros [Hl _] (E1 & E2 & E3 & E4) [_ Hh]. unfold is_inconsistent.
  rewrite E1, E2, E3, E4, !orb_false_r. apply not_true_iff_false. intros H.
  apply existsb_exists in H as (i & Hi & Hb).
  apply list_elem_of_In, list_elem_of_lookup in Hi as [k Hk].
  destruct (idx_surj k) as [x <-]; [rewrite <- Hl; by eapply lookup_lt_Some|].
  destruct (Hh x) as [[Hs Hu _ _] _]. unfold get in *.
  rewrite (list_lookup_total_correct _ _ _ Hk) in Hs, Hu.
  apply orb_true_iff in Hb as [Hb%Z.ltb_lt|Hb%Z.ltb_lt]; lia.
Qed.

Lemma path_keeps st n s st' n' s' :
  path st n s st' n' s' -> ivl_wf st -> no_geometry st -> ivl_holds st s ->
  ivl_wf st' /\ no_geometry st' /\ ivl_holds st' s'.
Proof.
  induction 1; auto. intros Hw Hg Hh. apply IHpath; auto using ops_wf, run_geometry.
  by apply (op_sound op st n s s1).
Qed.


Definition zero_val : val := fun _ => 0.
Definition packet_val (data data_end : Z) : val :=
  fun r => match r with AnchorDataMeta | AnchorData => data | AnchorDataEnd => data_end | _ => 0 end.

Lemma zero_val_ok : val_ok zero_val.
Proof. split; [intros x; unfold zero_val; auto with ivl|done]. Qed.

Ltac path_step op :=
  eapply (path_op op); [vm_compute; repeat split; congruence|reflexivity|vm_compute; reflexivity
    |cbn [ptr_nowrap]; try exact I|try reflexivity|cbn [run fst snd]].

(** An XDP-like prologue: R2 is data, R3 a byte, R2 moves past 14 bytes and the byte. *)
Definition prologue : list Op :=
  [OBind R2 AnchorData; OAddImm R2 14; OAssignInterval R3 0 255; OAddReg R2 R3; OLeImm R3 100].

Definition run_all (ops : list Op) (st : IntervalState) (n : Z) : IntervalState * Z :=
  foldl (fun sn op => run op sn.1 sn.2) (st, n) ops.


(** * Queries *)

Definition bounded (lo hi d : Z) : Prop := (lo = i64_MIN \/ lo <= d) /\ (hi = i64_MAX \/ d <= hi).

Lemma sat_sub_lower a b d : a - b <= d -> saturating_sub a b = i64_MIN \/ saturating_sub a b <= d.
Proof. unfold saturating_sub, saturate. repeat case_bool; lia. Qed.

Lemma sat_sub_upper a b d : d <= a - b -> saturating_sub a b = i64_MAX \/ d <= saturating_sub a b.
Proof. unfold saturating_sub, saturate. repeat case_bool; lia. Qed.

Lemma distance_bounded st s x y lo hi : ivl_holds st s ->
  get_distance_interval st x y = (lo, hi) -> bounded lo hi (s x - s y).
Proof.
  intros Hh. unfold get_distance_interval. case_decide as Hxy.
  { intros [= <- <-]. subst. unfold bounded. lia. }
  assert (Hsc : forall lo hi, (let '(x_min, x_max) := get_interval st x in
      let '(y_min, y_max) := get_interval st y in
      if negb (x_min =? i64_MIN) && negb (x_max =? i64_MAX) &&
         negb (y_min =? i64_MIN) && negb (y_max =? i64_MAX)
      then (saturating_sub x_min y_max, saturating_sub x_max y_min)
      else (i64_MIN, i64_MAX)) = (lo, hi) -> bounded lo hi (s x - s y)).
  { intros lo' hi'. cbn. destruct (bounds_hold st s Hh x), (bounds_hold st s Hh y).
    case_match; intros [= <- <-]; [|unfold bounded; lia].
    split; [apply sat_sub_lower|apply sat_sub_upper]; lia. }
  destruct (get_ptr_offset st x) as [xo|] eqn:Ex, (get_ptr_offset st y) as [yo|] eqn:Ey;
    try apply Hsc.
  case_decide as Ha; [|apply Hsc]. intros [= <- <-]. clear Hsc.
  destruct Hh as [_ Hh]. destruct (Hh x) as [_ Hx], (Hh y) as [_ Hy].
  destruct (Hx _ Ex) as [Hdx _ _], (Hy _ Ey) as [Hdy _ _]. rewrite Ha in Hdx.
  split; [apply sat_sub_lower|apply sat_sub_upper]; lia.
Qed.

(** What a query answers is true of every execution the state describes: the interval and the
    fixed value of a register, its sign, whether it fits in 32 bits, the interval and the fixed
    value of the distance of two registers ([i64::MIN] and [i64::MAX] mean no bound). *)
Theorem interval_queries_sound st s x y : ivl_holds st s ->
  (get_interval st x).1 <= s x <= (get_interval st x).2 /\
  (forall v, get_fixed_value st x = Some v -> s x = v) /\
  (proven_zero st x = true -> s x = 0) /\
  (proven_nonnegative st x = true -> 0 <= s x) /\
  (proven_positive st x = true -> 0 < s x) /\
  (proven_u32_range st x = true -> 0 <= s x < 2 ^ 32) /\
  bounded (get_distance_interval st x y).1 (get_distance_interval st x y).2 (s x - s y) /\
  (forall d, get_distance_fixed st x y = Some d -> s x - s y = d).
Proof.
  intros Hh. pose proof (bounds_hold st s Hh x) as Hb.
  pose proof (distance_bounded st s x y _ _ Hh (surjective_pairing _)) as Hd.
  refine (conj _ (conj _ (conj _ (conj _ (conj _ (conj _ (conj Hd _))))))).
  - apply Hb.
  - intros v. by apply get_constant_eq.
  - unfold proven_zero, is_zero. destruct Hb. rewrite andb_true_iff, !Z.eqb_eq. lia.
  - unfold proven_nonnegative, is_nonnegative. destruct Hb. rewrite Z.leb_le. lia.
  - unfold proven_positive, is_positive. destruct Hb. rewrite Z.ltb_lt. lia.
  - unfold proven_u32_range, is_u32. destruct Hb. rewrite andb_true_iff, !Z.leb_le. intros [].
    rewrite u64_cases in * by apply Hh. unfold u32_MAX in *. case_bool; lia.
  - intros d. unfold get_distance_fixed.
    destruct (get_distance_interval st x y) as [lo hi]. cbn in Hd.
    case_match eqn:E; [|done]. rewrite !andb_true_iff, !negb_true_iff in E.
    destruct E as [[E1%Z.eqb_eq E2%Z.eqb_neq] E3%Z.eqb_neq]. intros [= <-].
    unfold bounded in Hd. lia.
Qed.

Lemma interval_queries_sound_witness :
  get_distance_fixed (run_all [OBind R2 AnchorData; OAddImm R2 14] new 1).1 R2 AnchorData = Some 14 /\
  vset (packet_val 1000 2000) R2 1014 R2 - vset (packet_val 1000 2000) R2 1014 AnchorData = 14.
Proof.
  split; [vm_compute; reflexivity|].
  refine ((proj2 (proj2 (proj2 (proj2 (proj2 (proj2 (proj2 (interval_queries_sound
    (run_all [OBind R2 AnchorData; OAddImm R2 14] new 1).1
    (vset (vset (packet_val 1000 2000) R2 1000) R2 1014) R2 AnchorData _)))))))) 14 _);
    [|vm_compute; reflexivity].
  apply (path_keeps new 1 (packet_val 1000 2000) _ 1); [|apply new_wf|done|apply (new_holds (packet_val 1000 2000))].
  - unfold run_all. cbn [foldl].
    path_step (OBind R2 AnchorData).
    path_step (OAddImm R2 14). { right. vm_compute. split; congruence. }
    apply path_nil.
  - split; [intros []; vm_compute; split; congruence|done].
Defined.

(** An access that the region check accepts lies inside the region: it starts at or after the
    start of the region and ends at or before its end, in every execution the state describes. *)
Lemma region_access_inside st s base o size a e :
  ivl_holds st s -> region_end a = Some e -> in_s 64 (o + size) ->
  check_region_access st base o size a e = (true, true) ->
  s a <= s base + o /\ s base + o + size <= s e.
Proof.
  intros [_ Hh] He Hos. unfold check_region_access.
  destruct (get_ptr_offset st base) as [po|] eqn:E; [|done]. case_decide as Ha; [|done].
  destruct (Hh base) as [_ Hp]. destruct (Hp _ E) as [Hd Hr _].
  unfold range_holds in Hr. rewrite Ha in *. rewrite He in Hr.
  destruct (range po) as [r|]; [|done]. intros [= H1%Z.leb_le H2%Z.leb_le].
  assert (saturating_add o size = o + size) as E2 by (apply saturate_fits, in_s64_iff; done).
  rewrite E2 in H2. split; [|lia].
  unfold saturating_add, saturate, min_offset in H1. revert H1. repeat case_bool; typed_bounds; lia.
Qed.

(** * Without the side conditions *)

(** A reachable state and an execution it describes, on which the operation produces a state that
    does not describe the result. *)
Definition excludes (op : Op) (before : list Op) (s s' : val) : Prop :=
  exists n, path new 1 zero_val (run_all before new 1).1 n s /\
    op_typed op /\ dst_ok op = true /\ ptr_nowrap (run_all before new 1).1 op s /\ exec op s s' /\
    ~ ivl_holds (run op (run_all before new 1).1 n).1 s'.

(** Moreover the state is one that the verifier drops as infeasible. *)
Definition dropped (op : Op) (before : list Op) : Prop :=
  is_inconsistent (run op (run_all before new 1).1 (run_all before new 1).2).1 = true.

Definition sb_holdsb (b : ScalarBounds) (v : Z) : bool :=
  fits (smin b) (smax b) v && fits (umin b) (umax b) (u64 v) &&
  fits (s32_min b) (s32_max b) (s32 v) && fits (u32_min b) (u32_max b) (u32 v).

Lemma not_holds st s x : sb_holdsb (get_bounds st x) (s x) = false -> ~ ivl_holds st s.
Proof.
  intros H Hh. destruct (bounds_hold st s Hh x). unfold sb_holdsb, fits in H.
  repeat (rewrite (proj2 (Z.leb_le _ _)) in H by lia). done.
Qed.

(** The side conditions of a counterexample by computation; [x] is the register that is lost. *)
Ltac gap x := split; [reflexivity || (vm_compute; repeat split; congruence)|];
  split; [reflexivity|]; split; [cbn [ptr_nowrap]; try exact I; left; reflexivity|];
  split; [|apply (not_holds _ _ x); vm_compute; reflexivity].

(** Seven operations lose executions where their side condition fails, from states that real
    paths reach: after R1 = 5; R2 = -1; R1 += R2 (and R1 = 0; R2 = 1; R1 -= R2, and R1 = 2^62;
    R1 *= 4, and a scalar -8 plus a map value pointer at offset 16) the state is inconsistent and the
    path is dropped; a call result in [-1, 0] loses the value -1, the condition R1 s<= 100 on an
    unknown register loses -1, and R1 s> R2 with R1 in [0, 20] and R2 in [0, 10] loses 6 and 5. *)
Theorem interval_gaps :
  excludes (OAddReg R1 R2) [OAssignImm R1 5; OAssignImm R2 (-1)]
    (vset (vset zero_val R1 5) R2 (-1)) (vset (vset (vset zero_val R1 5) R2 (-1)) R1 4) /\
  dropped (OAddReg R1 R2) [OAssignImm R1 5; OAssignImm R2 (-1)] /\
  excludes (OSubReg R1 R2) [OAssignImm R1 0; OAssignImm R2 1]
    (vset (vset zero_val R1 0) R2 1) (vset (vset (vset zero_val R1 0) R2 1) R1 (-1)) /\
  dropped (OSubReg R1 R2) [OAssignImm R1 0; OAssignImm R2 1] /\
  excludes (OMulImm R1 4) [OAssignImm R1 (2 ^ 62)]
    (vset zero_val R1 (2 ^ 62)) (vset (vset zero_val R1 (2 ^ 62)) R1 0) /\
  dropped (OMulImm R1 4) [OAssignImm R1 (2 ^ 62)] /\
  excludes (OAssignRegOffset R1 R2 (-8)) [OInitMapValueAt R2 16]
    (vset zero_val R2 16) (vset (vset zero_val R2 16) R1 8) /\
  dropped (OAssignRegOffset R1 R2 (-8)) [OInitMapValueAt R2 16] /\
  excludes (OAssignInterval R0 (-1) 0) [] zero_val (vset zero_val R0 (-1)) /\
  excludes (OLeImm R1 100) [OForget R1] (vset zero_val R1 (-1)) (vset zero_val R1 (-1)) /\
  excludes (OGt R1 R2) [OAssignInterval R1 0 20; OAssignInterval R2 0 10]
    (vset (vset zero_val R1 6) R2 5) (vset (vset zero_val R1 6) R2 5).
Proof.
  unfold dropped.
  refine (conj _ (conj _ (conj _ (conj _ (conj _ (conj _ (conj _ (conj _ (conj _ (conj _ _))))))))));
    try (vm_compute; reflexivity); exists 1; (split; [unfold run_all; cbn [foldl]|]).
  - path_step (OAssignImm R1 5). path_step (OAssignImm R2 (-1)). apply path_nil.
  - gap R1. reflexivity.
  - path_step (OAssignImm R1 0). path_step (OAssignImm R2 1). apply path_nil.
  - gap R1. reflexivity.
  - path_step (OAssignImm R1 (2 ^ 62)). apply path_nil.
  - gap R1. reflexivity.
  - path_step (OInitMapValueAt R2 16). apply path_nil.
  - split; [vm_compute; split; congruence|]. split; [reflexivity|].
    split; [right; vm_compute; split; congruence|]. split; [reflexivity|].
    apply (not_holds _ _ R1). vm_compute. reflexivity.
  - apply path_nil.
  - gap R0. exists (-1). split; [lia|reflexivity].
  - path_step (OForget R1). { exists (-1). split; [vm_compute; split; congruence|reflexivity]. }
    apply path_nil.
  - gap R1. split; [vm_compute; congruence|reflexivity].
  - path_step (OAssignInterval R1 0 20). { exists 6. split; [lia|reflexivity]. }
    path_step (OAssignInterval R2 0 10). { exists 5. split; [lia|reflexivity]. }
    apply path_nil.
  - gap R1. split; [vm_compute; congruence|reflexivity].
Qed.

End IntervalProps.
