(* ===== verification/Ast.v ===== *)
(** The instructions of the verifier ([src/ast/mod.rs], [src/ast/instr.rs]) with their effect on
    the registers: the data the certificate checker and the branch refinements read. *)

From S2P Require Import Prelude Zone.
From Stdlib Require Import ZArith Lia.
From stdpp Require Import base numbers list.
Open Scope Z_scope.

Module Ast.
Import Zone(Reg(..)).
#[export] Existing Instance Zone.Reg_eq_dec.

Inductive Operand : Type := OReg (r : Reg) | OImm (i : Z).
Inductive Width : Type := W32 | W64.
Inductive SxWidth : Type := B8 | B16 | B32.
Inductive AluOp : Type :=
| Add | Sub | And | Or | Xor | Mov | Shl | Shr | Arsh | Mul | Mod | Div | Neg | Rsh | Lsh.
Inductive CmpOp : Type := UGe | ULe | UGt | ULt | Eq | Ne | SLt | SGt | SLe | SGe | Test.
Inductive EndianOp : Type := ToBe | ToLe | Bswap.
Inductive MemSize : Type := U8 | U16 | U32 | U64.
Inductive PacketLoadMode : Type := Abs | Ind.
Inductive MapLoadKind : Type :=
| MapPtr | MapValue | PseudoFunc (subprog_pc : Z) | PseudoBtfId (btf_id : Z)
| PseudoMapIdx | PseudoMapIdxValue.
Inductive AtomicOp : Type := AAdd | AOr | AAnd | AXor | AXchg | ACmpXchg.
Inductive CallKind : Type := Helper (id : Z) | Kfunc (btf_id offset : Z).

#[export] Instance Operand_eq_dec : EqDecision Operand.
Proof. solve_decision. Defined.
#[export] Instance Width_eq_dec : EqDecision Width.
Proof. solve_decision. Defined.
#[export] Instance AluOp_eq_dec : EqDecision AluOp.
Proof. solve_decision. Defined.
#[export] Instance CmpOp_eq_dec : EqDecision CmpOp.
Proof. solve_decision. Defined.

Definition sx_bits (w : SxWidth) : Z := match w with B8 => 8 | B16 => 16 | B32 => 32 end.
Definition bytes (s : MemSize) : Z := match s with U8 => 1 | U16 => 2 | U32 => 4 | U64 => 8 end.
Definition unbounded_scalar_bounds (s : MemSize) : Z * Z :=
  match s with
  | U8 => (0, 2 ^ 8 - 1)
  | U16 => (0, 2 ^ 16 - 1)
  | U32 => (0, 2 ^ 32 - 1)
  | U64 => (Zone.i64_MIN, Zone.i64_MAX)
  end.

Inductive Instr : Type :=
| Alu (width : Width) (op : AluOp) (dst : Reg) (src : Operand)
| MovSx (width : Width) (src_bits : SxWidth) (dst : Reg) (src : Operand)
| Endian (dst : Reg) (width : Width) (op : EndianOp) (size : Z)
| If (width : Width) (left : Reg) (op : CmpOp) (right : Operand) (target : nat)
| Jmp (target : nat)
| MayGoto (target : nat)
| Load (size : MemSize) (dst base : Reg) (off : Z)
| LoadSx (size : MemSize) (dst base : Reg) (off : Z)
| Store (size : MemSize) (base : Reg) (off : Z) (src : Operand)
| LoadAcq (size : MemSize) (dst base : Reg) (off : Z)
| StoreRel (size : MemSize) (base : Reg) (off : Z) (src : Reg)
| Atomic (op : AtomicOp) (size : MemSize) (fetch : bool) (base : Reg) (off : Z) (src : Reg)
| Call (kind : CallKind)
| CallRel (target : nat)
| LoadPacket (size : MemSize) (mode : PacketLoadMode) (offset_imm : Z) (src : option Reg)
| LoadMap (dst : Reg) (kind : MapLoadKind) (map_fd off : Z)
| Exit.

(** * Effect on the registers

    A register holds a signed 64-bit value; a 32-bit operation works on the lower halves and
    clears the upper one.  The operations a theorem speaks of are given, the results of the
    others are left open. *)

Definition val : Type := Reg -> Z.
Definition vset (s : val) (x : Reg) (v : Z) : val := fun y => if decide (y = x) then v else s y.

Definition operand (s : val) (o : Operand) : Z := match o with OReg r => s r | OImm i => i end.

(** A 64-bit result, cut to the width of the instruction. *)
Definition result (w : Width) (v : Z) : Z := match w with W64 => s64 v | W32 => u32 v end.

Definition compare (w : Width) (op : CmpOp) (a b : Z) : bool :=
  let u x := match w with W64 => u64 x | W32 => u32 x end in
  let s x := match w with W64 => s64 x | W32 => s32 x end in
  match op with
  | UGe => u b <=? u a | ULe => u a <=? u b | UGt => u b <? u a | ULt => u a <? u b
  | Eq => u a =? u b | Ne => negb (u a =? u b)
  | SLt => s a <? s b | SGt => s b <? s a | SLe => s a <=? s b | SGe => s b <=? s a
  | Test => negb (Z.land (u a) (u b) =? 0)
  end.

(** The registers a call of a helper may change. *)
Definition caller_saved : list Reg := [R0; R1; R2; R3; R4; R5].

(** [writes i] : the registers instruction [i] may change. *)
Definition writes (i : Instr) : list Reg :=
  match i with
  | Alu _ _ dst _ | MovSx _ _ dst _ | Endian dst _ _ _ | Load _ dst _ _ | LoadSx _ dst _ _
  | LoadAcq _ dst _ _ | LoadMap dst _ _ _ => [dst]
  | Atomic ACmpXchg _ _ _ _ _ => [R0]
  | Atomic _ _ true _ _ src => [src]
  | Call _ | CallRel _ | LoadPacket _ _ _ _ => caller_saved
  | _ => []
  end.

(** [step i s s']: executing [i] may turn the registers [s] into [s']. *)
Definition step (i : Instr) (s s' : val) : Prop :=
  match i with
  | Alu w Mov dst src => s' = vset s dst (result w (operand s src))
  | Alu w Add dst src => s' = vset s dst (result w (s dst + operand s src))
  | Alu w Sub dst src => s' = vset s dst (result w (s dst - operand s src))
  | _ => (forall r, in_s 64 (s' r)) /\ forall r, r ∉ writes i -> s' r = s r
  end.

(** Successors of the instruction at [pc], with the condition under which they are taken. *)
Definition next (i : Instr) (pc : nat) (s : val) (pc' : nat) : Prop :=
  match i with
  | If w l op r target =>
      if compare w op (s l) (operand s r) then pc' = target else pc' = S pc
  | Jmp target => pc' = target
  | MayGoto target => pc' = target \/ pc' = S pc
  | Exit => False
  | _ => pc' = S pc
  end.

Record Program : Type := MkProgram { instrs : list Instr }.

End Ast.
