(* ===== verification/Numeric.v ===== *)
(** The numeric domain the verifier works with ([src/domains/numeric.rs]): zones or intervals behind
    one interface.

    [NumericDomain] dispatches each operation to the domain it holds.  What the rest of the
    verifier may rely on is the class [Domain]: a meaning and sound queries; both domains are
    instances of it, and so is their sum.  The counter of pointer identities is threaded through
    the two operations that draw from it. *)

From S2P Require Import Prelude Zone ZoneSound ZoneProps Interval IntervalSound IntervalOps IntervalProps.
From Stdlib Require Import ZArith Lia Bool.
From stdpp Require Import base numbers list.
Open Scope Z_scope.

Module Numeric.
Import Zone(Reg(..), idx, is_anchor, i64_MAX, i64_MIN, u64_MAX, i32_MAX, i32_MIN, u32_MAX, INF, Dbm,
            s32_min, s32_max, u32_min, u32_max, s64_min, s64_max, u64_min, u64_max).
Import Interval(IntervalState, ScalarBounds, smin, smax, umin, umax).
#[export] Existing Instance Zone.Reg_eq_dec.

Inductive NumericDomain : Type :=
| DZone (d : Dbm)
| DInterval (i : IntervalState).

Definition new_zone : NumericDomain := DZone Zone.new.
Definition new_interval : NumericDomain := DInterval Interval.new.
Definition is_interval_mode (n : NumericDomain) : bool :=
  match n with DZone _ => false | DInterval _ => true end.
Definition is_zone (n : NumericDomain) : bool := negb (is_interval_mode n).
Definition as_interval (n : NumericDomain) : option IntervalState :=
  match n with DZone _ => None | DInterval i => Some i end.
Definition as_zone (n : NumericDomain) : option Dbm :=
  match n with DZone d => Some d | DInterval _ => None end.

(** * Dispatch *)

Definition query {A} (z : Dbm -> A) (i : IntervalState -> A) (n : NumericDomain) : A :=
  match n with DZone d => z d | DInterval s => i s end.
Definition dispatch (z : Dbm -> Dbm) (i : IntervalState -> IntervalState) (n : NumericDomain)
  : NumericDomain := match n with DZone d => DZone (z d) | DInterval s => DInterval (i s) end.

Definition get_interval (n : NumericDomain) (x : Reg) : Z * Z :=
  query (fun d => Zone.get_interval d x) (fun s => Interval.get_interval s x) n.
Definition get_fixed_value (n : NumericDomain) (x : Reg) : option Z :=
  query (fun d => Zone.get_fixed_value d x) (fun s => Interval.get_fixed_value s x) n.
Definition proven_zero (n : NumericDomain) (x : Reg) : bool :=
  query (fun d => Zone.proven_zero d x) (fun s => Interval.proven_zero s x) n.
Definition proven_nonnegative (n : NumericDomain) (x : Reg) : bool :=
  query (fun d => Zone.proven_nonnegative d x) (fun s => Interval.proven_nonnegative s x) n.
Definition proven_positive (n : NumericDomain) (x : Reg) : bool :=
  query (fun d => Zone.proven_positive d x) (fun s => Interval.proven_positive s x) n.
Definition get_distance_interval (n : NumericDomain) (x y : Reg) : Z * Z :=
  query (fun d => Zone.get_distance_interval d x y) (fun s => Interval.get_distance_interval s x y) n.
Definition get_distance_fixed (n : NumericDomain) (x y : Reg) : option Z :=
  query (fun d => Zone.get_distance_fixed d x y) (fun s => Interval.get_distance_fixed s x y) n.
Definition proven_u32_range (n : NumericDomain) (v _zero : Reg) : bool :=
  query (fun d => Zone.proven_u32_range d v Zero) (fun s => Interval.proven_u32_range s v) n.
Definition is_inconsistent (n : NumericDomain) : bool :=
  query Zone.is_inconsistent Interval.is_inconsistent n.

Definition forget (n : NumericDomain) (x : Reg) : NumericDomain :=
  dispatch (fun d => Zone.forget d x) (fun s => Interval.forget s x) n.
Definition apply_neg (n : NumericDomain) (x : Reg) : NumericDomain :=
  dispatch (fun d => Zone.apply_neg d x) (fun s => Interval.apply_neg s x) n.
Definition assign_imm (n : NumericDomain) (x : Reg) (c : Z) : NumericDomain :=
  dispatch (fun d => Zone.assign_imm d x c) (fun s => Interval.assign_imm s x c) n.
Definition apply_add_imm (n : NumericDomain) (x : Reg) (c : Z) : NumericDomain :=
  dispatch (fun d => Zone.apply_add_imm d x c) (fun s => Interval.apply_add_imm s x c) n.
Definition apply_and_imm (n : NumericDomain) (x : Reg) (c : Z) : NumericDomain :=
  dispatch (fun d => Zone.apply_and_imm d x c) (fun s => Interval.apply_and_imm s x c) n.
Definition apply_mul_imm (n : NumericDomain) (x : Reg) (c : Z) : NumericDomain :=
  dispatch (fun d => Zone.apply_mul_imm d x c) (fun s => Interval.apply_mul_imm s x c) n.
Definition apply_div_imm (n : NumericDomain) (x : Reg) (c : Z) : NumericDomain :=
  dispatch (fun d => Zone.apply_div_imm d x c) (fun s => Interval.apply_div_imm s x c) n.
Definition assume_le_imm (n : NumericDomain) (x : Reg) (c : Z) : NumericDomain :=
  dispatch (fun d => Zone.assume_le_imm d x c) (fun s => Interval.assume_le_imm s x c) n.
Definition assume_ge_imm (n : NumericDomain) (x : Reg) (c : Z) : NumericDomain :=
  dispatch (fun d => Zone.assume_ge_imm d x c) (fun s => Interval.assume_ge_imm s x c) n.
Definition assume_eq_imm (n : NumericDomain) (x : Reg) (c : Z) : NumericDomain :=
  dispatch (fun d => Zone.assume_eq_imm d x c) (fun s => Interval.assume_eq_imm s x c) n.
Definition assume_lt_imm (n : NumericDomain) (x : Reg) (c : Z) : NumericDomain :=
  dispatch (fun d => Zone.assume_lt_imm d x c) (fun s => Interval.assume_lt_imm s x c) n.
Definition assign_reg (n : NumericDomain) (x y : Reg) : NumericDomain :=
  dispatch (fun d => Zone.assign_reg d x y) (fun s => Interval.assign_reg s x y) n.
Definition intersect_eq_reg (n : NumericDomain) (x y : Reg) : NumericDomain :=
  dispatch (fun d => Zone.intersect_eq_reg d x y) (fun s => Interval.intersect_eq_reg s x y) n.
Definition apply_sub_reg (n : NumericDomain) (x y : Reg) : NumericDomain :=
  dispatch (fun d => Zone.apply_sub_reg d x y) (fun s => Interval.apply_sub_reg s x y) n.
Definition assume_le (n : NumericDomain) (x y : Reg) : NumericDomain :=
  dispatch (fun d => Zone.assume_le d x y) (fun s => Interval.assume_le s x y) n.
Definition assume_ge (n : NumericDomain) (x y : Reg) : NumericDomain :=
  dispatch (fun d => Zone.assume_ge d x y) (fun s => Interval.assume_ge s x y) n.
Definition assume_gt (n : NumericDomain) (x y : Reg) : NumericDomain :=
  dispatch (fun d => Zone.assume_gt d x y) (fun s => Interval.assume_gt s x y) n.
Definition bind_to_anchor (n : NumericDomain) (x y : Reg) : NumericDomain :=
  dispatch (fun d => Zone.bind_to_anchor d x y) (fun s => Interval.bind_to_anchor s x y) n.
Definition assign_reg_offset (n : NumericDomain) (x y : Reg) (c : Z) : NumericDomain :=
  dispatch (fun d => Zone.assign_reg_offset d x y c) (fun s => Interval.assign_reg_offset s x y c) n.
Definition assume_le_offset (n : NumericDomain) (x y : Reg) (c : Z) : NumericDomain :=
  dispatch (fun d => Zone.assume_le_offset d x y c) (fun s => Interval.assume_le_offset s x y c) n.
Definition assign_interval (n : NumericDomain) (x : Reg) (min max : Z) : NumericDomain :=
  dispatch (fun d => Zone.assign_interval d x min max) (fun s => Interval.assign_interval s x min max) n.
Definition assume_range (n : NumericDomain) (x : Reg) (min max : Z) : NumericDomain :=
  dispatch (fun d => Zone.assume_range d x min max) (fun s => Interval.assume_range s x min max) n.
Definition init_packet_anchors (n : NumericDomain) : NumericDomain :=
  dispatch Zone.init_packet_anchors Interval.init_packet_anchors n.
Definition reset_packet_anchors (n : NumericDomain) : NumericDomain :=
  dispatch Zone.reset_packet_anchors Interval.reset_packet_anchors n.
Definition apply_div_reg (n : NumericDomain) (dst src : Reg) : NumericDomain :=
  dispatch (fun d => Zone.apply_div_reg d dst src) (fun s => Interval.apply_div_reg s dst) n.
Definition check_region_access (n : NumericDomain) (base : Reg) (off size : Z)
  (anchor_start anchor_end : Reg) : bool * bool :=
  query (fun d => Zone.check_region_access d base off size anchor_start anchor_end)
        (fun s => Interval.check_region_access s base off size anchor_start anchor_end) n.
Definition verify_packet_meta_bounds (n : NumericDomain) (base : Reg) (off size : Z) : bool * bool :=
  query (fun d => Zone.verify_packet_meta_bounds d base off size)
        (fun s => Interval.verify_packet_meta_bounds s base off size) n.
Definition verify_packet_bounds (n : NumericDomain) (base : Reg) (off size : Z) : bool * bool :=
  query (fun d => Zone.verify_packet_bounds d base off size)
        (fun s => Interval.verify_packet_bounds s base off size) n.

(** The operations one of the domains does not have. *)
Definition init_map_value_ptr (n : NumericDomain) (reg : Reg) : NumericDomain :=
  dispatch (fun d => d) (fun s => Interval.init_map_value_ptr s reg) n.
Definition init_map_value_ptr_at (n : NumericDomain) (reg : Reg) (offset : Z) : NumericDomain :=
  dispatch (fun d => Zone.forget d reg) (fun s => Interval.init_map_value_ptr_at s reg offset) n.
Definition clear_packet_size_bounds (n : NumericDomain) : NumericDomain :=
  dispatch (fun d => d) Interval.clear_packet_size_bounds n.
Definition close (n : NumericDomain) : NumericDomain := dispatch Zone.close (fun s => s) n.
Definition enable_provenance (n : NumericDomain) : NumericDomain :=
  dispatch Zone.enable_provenance (fun s => s) n.
Definition set_current_pc (n : NumericDomain) (pc : Z) : NumericDomain :=
  dispatch (fun d => Zone.set_current_pc d pc) (fun s => s) n.
Definition get (n : NumericDomain) (i j : Reg) : Z := query (fun d => Zone.get d i j) (fun _ => INF) n.
Definition set (n : NumericDomain) (i j : Reg) (v : Z) : NumericDomain :=
  dispatch (fun d => Zone.set d i j v) (fun s => s) n.
Definition add_constraint (n : NumericDomain) (i j : Reg) (c : Z) : NumericDomain :=
  dispatch (fun d => Zone.add_constraint d i j c)
    (fun s => if decide (j = Zero) then Interval.assume_le_imm s i c
              else if decide (i = Zero) then Interval.assume_ge_imm s j (s64 (- c)) else s) n.

Definition apply_add_reg (n : NumericDomain) (next : Z) (dst src : Reg) : NumericDomain * Z :=
  match n with
  | DZone d => (DZone (Zone.apply_add_reg d dst src), next)
  | DInterval s => let '(s, next) := Interval.apply_add_reg s next dst src in (DInterval s, next)
  end.
Definition apply_scalar_add_ptr (n : NumericDomain) (next : Z) (dst ptr_src : Reg) (lo hi : Z)
  : NumericDomain * Z :=
  match n with
  | DZone d => (DZone d, next)
  | DInterval s =>
      let '(s, next) := Interval.apply_scalar_add_ptr s next dst ptr_src lo hi in (DInterval s, next)
  end.

(** Two states of different domains: the code panics, here [None]. *)
Definition both (z : Dbm -> Dbm -> Dbm) (i : IntervalState -> IntervalState -> IntervalState)
  (a b : NumericDomain) : option NumericDomain :=
  match a, b with
  | DZone x, DZone y => Some (DZone (z x y))
  | DInterval x, DInterval y => Some (DInterval (i x y))
  | _, _ => None
  end.
Definition preserve_anchor_constraints (caller callee : NumericDomain) : option NumericDomain :=
  both Zone.preserve_anchor_constraints Interval.preserve_anchor_constraints caller callee.
Definition widen (self newer : NumericDomain) : option NumericDomain :=
  both Zone.widen (fun _ newer => newer) self newer.

(** * Bounds of the halves *)

Definition get_s32_bounds (n : NumericDomain) (x : Reg) : Z * Z :=
  match n with
  | DZone d => let b := Zone.get_bounds d x in (s32_min b, s32_max b)
  | DInterval s =>
      let st := Interval.get_bounds s x in
      let derived :=
        if (i32_MIN <=? smin st) && (smax st <=? i32_MAX) then (s32 (smin st), s32 (smax st))
        else if (0 <=? smin st) && (smax st <=? u32_MAX) then
          let lo := s32 (u32 (smin st)) in
          let hi := s32 (u32 (smax st)) in
          if lo <=? hi then (lo, hi) else (i32_MIN, i32_MAX)
        else (i32_MIN, i32_MAX) in
      let lo := Z.max derived.1 (Interval.s32_min st) in
      let hi := Z.min derived.2 (Interval.s32_max st) in
      if lo <=? hi then (lo, hi) else derived
  end.

Definition get_u64_bounds (n : NumericDomain) (x : Reg) : Z * Z :=
  match n with
  | DZone d => let b := Zone.get_bounds d x in (u64_min b, u64_max b)
  | DInterval s => let st := Interval.get_bounds s x in (umin st, umax st)
  end.

Definition get_u32_bounds (n : NumericDomain) (x : Reg) : Z * Z :=
  match n with
  | DZone d => let b := Zone.get_bounds d x in (u32_min b, u32_max b)
  | DInterval s =>
      let st := Interval.get_bounds s x in
      let '(d_lo, d_hi) :=
        if umax st <=? u32_MAX then (u32 (umin st), u32 (umax st)) else (0, u32_MAX) in
      let lo := Z.max d_lo (Interval.u32_min st) in
      let hi := Z.min d_hi (Interval.u32_max st) in
      if lo <=? hi then (lo, hi) else (d_lo, d_hi)
  end.

Definition restore_full_unsigned_range (n : NumericDomain) (x : Reg) : NumericDomain :=
  dispatch (fun d => d)
    (fun s => Interval.upd_bounds s x (fun b =>
       Interval.sync_bounds (Interval.set_s32 (Interval.set_u32 (Interval.set_u64 b 0 u64_MAX)
         0 u32_MAX) i32_MIN i32_MAX))) n.

Definition zone_bounds (d : Dbm) (x : Reg) (f : Zone.Bounds -> Zone.Bounds) : Dbm :=
  Zone.sync_bounds (Zone.set_bounds d x (f (Zone.get_bounds d x))) x.
Definition ivl_bounds (s : IntervalState) (x : Reg) (f : ScalarBounds -> ScalarBounds)
  : IntervalState :=
  if Interval.fixed_reg x then s
  else Interval.upd_bounds s x (fun b => Interval.sync_bounds (f b)).

Definition set_s32_bounds (n : NumericDomain) (x : Reg) (min max : Z) : NumericDomain :=
  dispatch (fun d => zone_bounds d x (fun b => Zone.with_s32 b min max))
           (fun s => ivl_bounds s x (fun b => Interval.clip_s32 b min max)) n.
Definition set_u32_bounds (n : NumericDomain) (x : Reg) (min max : Z) : NumericDomain :=
  dispatch (fun d => zone_bounds d x (fun b => Zone.with_u32 b min max))
           (fun s => ivl_bounds s x (fun b => Interval.clip_u32 b min max)) n.
Definition set_u64_bounds (n : NumericDomain) (x : Reg) (min max : Z) : NumericDomain :=
  dispatch (fun d => zone_bounds d x (fun b =>
              Zone.with_u64 b (Z.max (u64_min b) min) (Z.min (u64_max b) max)))
           (fun s => ivl_bounds s x (fun b => Interval.clip_u64 b min max)) n.

Definition apply_w32_truncation (n : NumericDomain) (dst : Reg) : NumericDomain :=
  let '(lo, hi) := get_interval n dst in
  if (0 <=? lo) && (hi <=? 4294967295) then n
  else
    let tight := negb (lo =? i64_MIN) && negb (hi =? i64_MAX) &&
                 (Z.shiftr (u64 lo) 32 =? Z.shiftr (u64 hi) 32) in
    let n := forget n dst in
    if tight
    then assume_le_imm (assume_ge_imm n dst (Z.land (u64 lo) 4294967295)) dst
                       (Z.land (u64 hi) 4294967295)
    else assume_le_imm (assume_ge_imm n dst 0) dst 4294967295.

Definition zext_32_into_64 (n : NumericDomain) (x : Reg) : NumericDomain :=
  if Interval.fixed_reg x then n
  else dispatch
    (fun d => zone_bounds d x (fun b =>
       let b := Zone.with_u64 b (u32_min b) (u32_max b) in
       if (0 <=? s32_min b) && (0 <=? s32_max b) then Zone.with_s64 b (s32_min b) (s32_max b)
       else Zone.with_s64 b 0 u32_MAX))
    (fun s => Interval.upd_bounds s x Interval.assign_32_into_64) n.

Definition fits_in_u32_range (n : NumericDomain) (reg : Reg) : bool :=
  let '(lo, hi) := get_interval n reg in
  if negb (lo =? i64_MIN) && negb (hi =? i64_MAX) then (0 <=? lo) && (hi <=? 4294967295) else false.

(** * What clients rely on *)

(** A domain describes executions, answers queries that are right about them and does not report
    a state that describes one as infeasible. *)
Class Domain (D : Type) : Type := {
  describes : D -> (Reg -> Z) -> Prop;
  distance : D -> Reg -> Reg -> Z * Z;
  interval : D -> Reg -> Z * Z;
  infeasible : D -> bool;
  describes_zero d v : describes d v -> v Zero = 0;
  distance_right d v x y : describes d v -> in_s 64 (v x - v y) ->
    IntervalProps.bounded (distance d x y).1 (distance d x y).2 (v x - v y);
  interval_right d v x : describes d v -> (interval d x).1 <= v x <= (interval d x).2;
  feasible d v : describes d v -> infeasible d = false }.

#[export] Program Instance zone_domain : Domain Dbm := {|
  describes d v := ZoneSound.dbm_wf d /\ ZoneSound.holds d v;
  distance := Zone.get_distance_interval;
  interval := Zone.get_interval;
  infeasible := Zone.is_inconsistent |}.
Next Obligation. intros d v [_ Hv]. apply Hv. Qed.
Next Obligation.
  intros d v x y [Hd Hv] Hs. pose proof (ZoneProps.get_distance_sound d v x y Hd Hv Hs).
  unfold IntervalProps.bounded. lia.
Qed.
Next Obligation. intros d v x [Hd Hv]. by apply ZoneSound.get_interval_sound. Qed.
Next Obligation. intros d v [Hd Hv]. by apply (ZoneProps.holds_consistent d v). Qed.

#[export] Program Instance interval_domain : Domain IntervalState := {|
  describes i v :=
    IntervalSound.ivl_wf i /\ IntervalProps.no_geometry i /\ IntervalSound.ivl_holds i v;
  distance := Interval.get_distance_interval;
  interval := Interval.get_interval;
  infeasible := Interval.is_inconsistent |}.
Next Obligation. intros i v (_ & _ & [Hv _]). apply Hv. Qed.
Next Obligation.
  intros i v x y (_ & _ & Hv) _.
  apply (IntervalProps.distance_bounded i v x y); [done|apply surjective_pairing].
Qed.
Next Obligation. intros i v x (_ & _ & Hv). apply (IntervalOps.bounds_hold i v Hv x). Qed.
Next Obligation. intros i v (Hw & Hg & Hv). by apply (IntervalProps.ivl_consistent i v). Qed.

#[export] Program Instance numeric_domain : Domain NumericDomain := {|
  describes n v := match n with DZone d => describes d v | DInterval i => describes i v end;
  distance := get_distance_interval;
  interval := get_interval;
  infeasible := is_inconsistent |}.
Next Obligation. intros [d|i] v; apply describes_zero. Qed.
Next Obligation. intros [d|i] v x y; [exact (distance_right d v x y)|exact (distance_right i v x y)]. Qed.
Next Obligation. intros [d|i] v x; [exact (interval_right d v x)|exact (interval_right i v x)]. Qed.
Next Obligation. intros [d|i] v; [exact (feasible d v)|exact (feasible i v)]. Qed.

(** * Views of the halves *)

Lemma clip_or_keep a b lo hi x :
  a <= x <= b -> lo <= x <= hi ->
  let l := Z.max a lo in let h := Z.min b hi in
  (if l <=? h then (l, h) else (a, b)).1 <= x <= (if l <=? h then (l, h) else (a, b)).2.
Proof. cbn. intros. case_bool; cbn; lia. Qed.

Section Views.
Context (s : IntervalState) (v : Reg -> Z) (Hv : IntervalSound.ivl_holds s v).

Lemma ivl_s32_view x :
  (get_s32_bounds (DInterval s) x).1 <= s32 (v x) <= (get_s32_bounds (DInterval s) x).2.
Proof.
  cbn [get_s32_bounds]. destruct (IntervalOps.bounds_hold s v Hv x) as [Hs _ H32 _].
  set (b := Interval.get_bounds s x) in *. pose proof (IntervalOps.s32_range (v x)) as Hr.
  match goal with |- context [if (i32_MIN <=? _) && _ then ?a else ?c] =>
    set (derived := if (i32_MIN <=? smin b) && (smax b <=? i32_MAX) then a else c) end.
  assert (derived.1 <= s32 (v x) <= derived.2) as Hd.
  { unfold derived. destruct (_ && _) eqn:E1.
    { apply andb_true_iff in E1 as [E1%Z.leb_le E2%Z.leb_le]. cbn.
      rewrite !ZoneSound.s32_small by lia. lia. }
    destruct ((0 <=? smin b) && _) eqn:E2; [|exact Hr].
    apply andb_true_iff in E2 as [E2%Z.leb_le E3%Z.leb_le].
    case_bool; [|exact Hr]. cbn. rewrite !IntervalSound.s32_cast_u32 in *.
    apply IntervalSound.s32_between; [|done]. rewrite !ZoneSound.u32_small by lia. lia. }
  pose proof (clip_or_keep _ _ _ _ _ Hd H32) as Hc. cbn in Hc.
  rewrite <- surjective_pairing in Hc. exact Hc.
Qed.

Lemma ivl_u32_view x : IntervalSound.ivl_wf s ->
  (get_u32_bounds (DInterval s) x).1 <= u32 (v x) <= (get_u32_bounds (DInterval s) x).2.
Proof.
  intros Hw. cbn [get_u32_bounds]. destruct (IntervalOps.bounds_hold s v Hv x) as [_ Hu _ H32].
  destruct (IntervalOps.wf_bounds s x Hw) as [_ _ [Hm _] _ _ _ _ _].
  set (b := Interval.get_bounds s x) in *. pose proof (IntervalOps.u32_range (v x)) as Hr.
  destruct (if umax b <=? u32_MAX then _ else _) as [lo hi] eqn:E.
  apply (clip_or_keep lo hi); [|done]. revert E. case_bool; intros [= <- <-]; [|exact Hr].
  pose proof (IntervalOps.u64_range (v x)). rewrite <- (IntervalSound.u32_u64 (v x)).
  unfold u32_MAX in *. rewrite !ZoneSound.u32_small by (unfold u32_MAX; lia). lia.
Qed.
End Views.

(** C38. The bounds both domains report are bounds of every execution the state describes: of the
    signed value, of the distance of two registers, of the unsigned value and of the signed and
    unsigned lower half; and a state that describes an execution is not reported inconsistent. *)
Theorem numeric_queries_sound n v x y :
  describes n v -> in_s 64 (v x - v y) ->
  (get_interval n x).1 <= v x <= (get_interval n x).2 /\
  IntervalProps.bounded (get_distance_interval n x y).1 (get_distance_interval n x y).2 (v x - v y) /\
  (get_u64_bounds n x).1 <= u64 (v x) <= (get_u64_bounds n x).2 /\
  (get_s32_bounds n x).1 <= s32 (v x) <= (get_s32_bounds n x).2 /\
  (get_u32_bounds n x).1 <= u32 (v x) <= (get_u32_bounds n x).2 /\
  is_inconsistent n = false.
Proof.
  intros Hn Hs.
  refine (conj (interval_right n v x Hn) (conj (distance_right n v x y Hn Hs) _)).
  rewrite (feasible n v Hn : is_inconsistent n = false).
  destruct n as [d|i].
  - destruct Hn as [_ Hd]. pose proof (ZoneSound.holds_bounds d v Hd x) as (_ & Hu & H32 & Hu32).
    exact (conj Hu (conj H32 (conj Hu32 eq_refl))).
  - destruct Hn as (Hw & _ & Hi). pose proof (IntervalOps.bounds_hold i v Hi x) as [_ Hu _ _].
    exact (conj Hu (conj (ivl_s32_view i v Hi x) (conj (ivl_u32_view i v Hi x Hw) eq_refl))).
Qed.

Lemma numeric_queries_sound_witness :
  let n := DInterval (IntervalProps.run_all [IntervalOps.OAssignImm R1 (-1)] Interval.new 1).1 in
  get_s32_bounds n R1 = (-1, -1) /\ get_u32_bounds n R1 = (u32_MAX, u32_MAX) /\
  is_inconsistent n = false.
Proof.
  split; [vm_compute; reflexivity|split; [vm_compute; reflexivity|]].
  refine (proj2 (proj2 (proj2 (proj2 (proj2 (numeric_queries_sound _
    (IntervalSound.vset IntervalProps.zero_val R1 (-1)) R1 R2 _ _)))))).
  - eapply (IntervalProps.path_keeps Interval.new 1 IntervalProps.zero_val _ 1);
      [|apply IntervalProps.new_wf|done|apply IntervalProps.new_holds, IntervalProps.zero_val_ok].
    eapply (IntervalProps.path_op (IntervalOps.OAssignImm R1 (-1)));
      [vm_compute; split; congruence|reflexivity|reflexivity|exact I|reflexivity|].
    apply IntervalProps.path_nil.
  - vm_compute. split; congruence.
Defined.

End Numeric.
