(* ===== verification/VState.v ===== *)
(** The part of the verifier's state that the packet refinements and the certificate checker read
    and write ([src/analysis/machine/reg_types.rs], [stack_state.rs], [state.rs]).

    Types of registers are the whole enumeration.  A stack slot carries the fields of [SpilledReg]
    that these components use; the others (tristate number, identities, annotations) are untouched
    by them.  A frame is its map of slots by offset.  Stores to the stack and loads from it
    ([src/analysis/machine/stack_ops.rs]) are those of eight bytes at aligned offsets, the only ones
    that keep pointers. *)

From S2P Require Import Prelude Zone Interval IntervalSound Numeric Ast.
From Stdlib Require Import ZArith Lia String.
From stdpp Require Import base numbers list gmap.
Open Scope Z_scope.

Module VState.
Import Zone(Reg(..)).
Import Numeric.

Inductive DynptrKind : Type := Local_ | Ringbuf | Skb | Xdp | User.

(** [PtrFlags] is its bits. *)
Inductive RegType : Type :=
| NotInit
| ScalarValue
| PtrToCtx
| PtrToStack (frame_level : nat)
| PtrToPacket
| PtrToPacketEnd
| PtrToPacketMeta
| PtrToMapObject (map_idx : nat)
| PtrToMapValueOrNull (id : Z) (map_idx : nat) (map_uid : option Z)
| PtrToMapValue (id : Z) (offset : option Z) (map_idx : nat) (map_uid : option Z) (rdonly : bool)
| PtrToSocket (ref_id : option Z)
| PtrToSocketOrNull (ref_id : option Z)
| PtrToSockCommon (ref_id : option Z)
| PtrToSockCommonOrNull (ref_id : option Z)
| PtrToTcpSock (id : option Z)
| PtrToTcpSockOrNull (id : option Z)
| PtrToBtfId (type_name : string) (flags : Z) (ref_id : option Z)
| PtrToBtfIdOrNull (id : Z) (type_name : string) (flags : Z) (ref_id : option Z)
| PtrToAllocMemOrNull (id mem_size : Z) (ref_id dynptr_id : option Z) (rdonly : bool)
| PtrToAllocMem (id mem_size : Z) (ref_id dynptr_id : option Z) (rdonly : bool)
| PtrToCpumask (ref_id : option Z)
| PtrToCpumaskOrNull (ref_id : option Z)
| PtrToArena (ref_id : option Z) (mem_size : Z)
| PtrToArenaOrNull (ref_id : option Z) (mem_size : Z)
| PtrToCgroup (ref_id : option Z)
| PtrToCgroupOrNull (ref_id : option Z)
| PtrToTask (ref_id : option Z)
| PtrToTaskOrNull (ref_id : option Z)
| PtrToOwnedKptr (ref_id : option Z) (offset : Z) (non_owning : bool) (pointee_btf_id : option Z)
| PtrToOwnedKptrOrNull (ref_id : option Z) (pointee_btf_id : option Z) (offset : Z)
| PtrToMapKptr (pointee_btf_id : Z) (ref_id : option Z) (flags offset : Z)
| PtrToMapKptrOrNull (pointee_btf_id : Z) (ref_id : option Z) (flags offset : Z)
| PtrToCallback (subprog_pc : Z)
| PtrToDynptr (kind : DynptrKind) (rdonly : bool).

Definition is_packet (t : RegType) : bool := match t with PtrToPacket => true | _ => false end.
Definition is_packet_meta (t : RegType) : bool :=
  match t with PtrToPacketMeta => true | _ => false end.
Definition is_packet_end_type (t : RegType) : bool :=
  match t with PtrToPacketEnd => true | _ => false end.
Definition is_scalar (t : RegType) : bool :=
  match t with ScalarValue | NotInit => true | _ => false end.
Definition is_pointer (t : RegType) : bool := negb (is_scalar t).

(** [reg_to_index]: the real registers. *)
Definition reg_to_index (r : Reg) : option nat :=
  match r with
  | R0 => Some 0 | R1 => Some 1 | R2 => Some 2 | R3 => Some 3 | R4 => Some 4 | R5 => Some 5
  | R6 => Some 6 | R7 => Some 7 | R8 => Some 8 | R9 => Some 9 | R10 => Some 10
  | Zero | AnchorDataMeta | AnchorData | AnchorDataEnd => None
  end%nat.

Definition TypeState : Type := list RegType.
Definition new_not_init : TypeState := replicate 11 NotInit.
Definition type_get (t : TypeState) (r : Reg) : RegType :=
  match reg_to_index r with Some i => default NotInit (t !! i) | None => NotInit end.
Definition type_set (t : TypeState) (r : Reg) (ty : RegType) : TypeState :=
  match reg_to_index r with Some i => <[i := ty]> t | None => t end.

Inductive PointerBounds : Type :=
| PBZone (anchor : option Reg) (anchor_lo anchor_hi : option Z)
         (end_anchor : option Reg) (end_lo end_hi : option Z)
| PBInterval (off var_off range id : option Z).

(** [bmin] and [bmax] are the fields of its [ScalarBounds]. *)
Record SpilledReg : Type := MkSpilled {
  source_reg : option Reg;
  reg_type : RegType;
  slot_size : Ast.MemSize;
  ptr_bounds : option PointerBounds;
  bmin : Z;
  bmax : Z }.

Definition Stack : Type := gmap Z SpilledReg.

Record State : Type := MkState {
  pc : nat;
  types : TypeState;
  domain : NumericDomain;
  frames : list Stack }.

Definition with_domain (st : State) (d : NumericDomain) : State :=
  MkState (pc st) (types st) d (frames st).
Definition with_frames (st : State) (f : list Stack) : State :=
  MkState (pc st) (types st) (domain st) f.

(** Spilling saves the offset, the proven range and the identity, not the relation to the end. *)
Definition save_interval_ptr_offset (st : State) (reg : Reg)
  : option Z * option Z * option Z * option Z :=
  match domain st with
  | DInterval ivl =>
      match Interval.get_ptr_offset ivl reg with
      | Some p => (Some (Interval.off p), Some (Interval.var_off p), Interval.range p, Interval.id p)
      | None => (None, None, None, None)
      end
  | DZone _ => (None, None, None, None)
  end.

(** The anchor of a filled pointer follows from its type. *)
Definition anchor_of_type (t : RegType) : option Reg :=
  match t with
  | PtrToPacket => Some AnchorData
  | PtrToPacketMeta => Some AnchorDataMeta
  | PtrToPacketEnd => Some AnchorDataEnd
  | PtrToStack _ => Some R10
  | PtrToMapValue _ _ _ _ _ | PtrToMapValueOrNull _ _ _ => Some Zero
  | _ => None
  end.

Definition add_opt (d : NumericDomain) (i j : Reg) (c : option Z) : NumericDomain :=
  match c with Some c => add_constraint d i j c | None => d end.

Definition restore_zone (d : NumericDomain) (reg : Reg) (a : option Reg) (lo hi : option Z)
  : NumericDomain * bool :=
  match a with
  | Some r => (add_opt (add_opt d reg r hi) r reg lo, true)
  | None => (d, false)
  end.

Definition restore_anchor_info (st : State) (reg : Reg) (sp : SpilledReg) : State :=
  let d :=
    match reg_type sp with
    | PtrToMapValue _ _ _ _ _ | PtrToMapValueOrNull _ _ _ => init_map_value_ptr (domain st) reg
    | _ => domain st
    end in
  match ptr_bounds sp with
  | Some (PBZone a lo hi ea elo ehi) =>
      let '(d, t1) := restore_zone d reg a lo hi in
      let '(d, t2) := restore_zone d reg ea elo ehi in
      with_domain st (if t1 || t2 then close d else d)
  | Some (PBInterval o v r i) =>
      match anchor_of_type (reg_type sp), o, d with
      | Some a, Some o, DInterval ivl =>
          with_domain st (DInterval (Interval.upd_ptr ivl reg (fun _ =>
            Some (Interval.MkPO a o (default 0 v) r i None))))
      | _, _, _ => with_domain st d
      end
  | None => with_domain st d
  end.

Definition finite (c : Z) : option Z := if Zone.INF <=? c then None else Some c.

Definition save_relation (st : State) (reg : Reg) (a : option Reg)
  : option Reg * option Z * option Z :=
  match a with
  | Some a => (Some a, finite (get (domain st) a reg), finite (get (domain st) reg a))
  | None => (None, None, None)
  end.

Definition save_anchor_info (st : State) (reg : Reg) : option Reg * option Z * option Z :=
  save_relation st reg
    match type_get (types st) reg with
    | PtrToPacket => Some AnchorData
    | PtrToPacketMeta => Some AnchorDataMeta
    | PtrToPacketEnd => Some AnchorDataEnd
    | _ => None
    end.

Definition save_secondary_anchor_info (st : State) (reg : Reg) : option Reg * option Z * option Z :=
  save_relation st reg
    match type_get (types st) reg with
    | PtrToPacket | PtrToPacketMeta => Some AnchorDataEnd
    | PtrToPacketEnd => Some AnchorData
    | _ => None
    end.

(** The pointer information of an aligned 8-byte spill. *)
Definition spill_bounds (st : State) (reg : Reg) : option PointerBounds :=
  let '(o, v, r, i) := save_interval_ptr_offset st reg in
  match o, v, r with
  | None, None, None =>
      let '(a, lo, hi) := save_anchor_info st reg in
      let '(ea, elo, ehi) := save_secondary_anchor_info st reg in
      match a, lo, hi, ea, elo, ehi with
      | None, None, None, None, None, None => None
      | _, _, _, _, _, _ => Some (PBZone a lo hi ea elo ehi)
      end
  | _, _, _ => Some (PBInterval o v r i)
  end.

(** The slot of the first byte of an aligned 8-byte store of a register, and that of the others. *)
Definition spill (st : State) (reg : Reg) : SpilledReg :=
  let '(min, max) := get_interval (domain st) reg in
  MkSpilled (Some reg) (type_get (types st) reg) Ast.U64 (spill_bounds st reg) min max.
Definition trailing_byte : SpilledReg :=
  MkSpilled None ScalarValue Ast.U64 None Zone.i64_MIN Zone.i64_MAX.

(** An aligned 8-byte store of a register in a frame. *)
Definition store_slots (sp : SpilledReg) (offset : Z) (stack : Stack) : Stack :=
  foldl (fun stack i => <[offset + i := if i =? 0 then sp else trailing_byte]> stack) stack (seqZ 0 8).
Definition spill_at (st : State) (level : nat) (reg : Reg) (offset : Z) : State :=
  with_frames st (alter (store_slots (spill st reg) offset) level (frames st)).

(** A load that finds the slot of a store of its size: type, bounds and pointer information come back. *)
Definition fill (st : State) (dst : Reg) (sp : SpilledReg) : State :=
  let types' := type_set (types st) dst (reg_type sp) in
  let domain' := assign_interval (forget (domain st) dst) dst (bmin sp) (bmax sp) in
  restore_anchor_info (MkState (pc st) types' domain' (frames st)) dst sp.

(** An aligned 8-byte load from a frame: a byte was never written, a register comes back, or the bytes
    are not those of a whole register and the result is a scalar made of what is known of them. *)
Inductive FillResult : Type := Uninitialized | Filled (st : State) | NotWhole.
Definition fill_at (st : State) (level : nat) (dst : Reg) (offset : Z) : FillResult :=
  let stack := default ∅ (frames st !! level) in
  if negb (forallb (fun i => bool_decide (is_Some (stack !! (offset + i)))) (seqZ 0 8)) then Uninitialized
  else match stack !! offset with
  | None => Uninitialized
  | Some spilled =>
      match source_reg spilled, slot_size spilled with
      | Some _, Ast.U64 => Filled (fill st dst spilled)
      | _, _ => NotWhole
      end
  end.

Lemma store_lookup sp offset stack k : store_slots sp offset stack !! k =
  if decide (k = offset) then Some sp
  else if decide (offset < k < offset + 8) then Some trailing_byte else stack !! k.
Proof.
  unfold store_slots, Stack in *. change (seqZ 0 8) with [0; 1; 2; 3; 4; 5; 6; 7]. cbn [foldl Z.eqb Pos.eqb].
  rewrite Z.add_0_r, !lookup_insert. repeat case_decide; done || lia.
Qed.

(** A load finds what a store left. *)
Lemma fill_spilled st level reg offset dst stack : frames st !! level = Some stack ->
  fill_at (spill_at st level reg offset) level dst offset =
    Filled (fill (spill_at st level reg offset) dst (spill st reg)).
Proof.
  intros Hf. unfold fill_at, spill_at. cbn [frames with_frames].
  rewrite list_lookup_alter_eq, Hf. cbn [fmap option_fmap option_map from_option id].
  assert (forallb (fun i => bool_decide (is_Some (store_slots (spill st reg) offset stack !! (offset + i))))
    (seqZ 0 8) = true) as ->.
  { apply forallb_forall. intros i Hi. apply list_elem_of_In, elem_of_seqZ in Hi. apply bool_decide_eq_true.
    rewrite store_lookup. repeat case_decide; try by eexists. lia. }
  cbn [negb]. rewrite store_lookup, decide_True by done. unfold spill.
  by destruct (get_interval (domain st) reg).
Qed.

(** The load of a register overwrites all that was known of it. *)
Lemma assign_forgotten ivl x lo hi :
  Interval.assign_interval (Interval.forget ivl x) x lo hi = Interval.assign_interval ivl x lo hi.
Proof.
  unfold Interval.assign_interval, Interval.forget, Interval.set, Interval.set_regs.
  destruct (Interval.fixed_reg x) eqn:Ef; [done|]. rewrite !decide_False by (by intros ->). cbn.
  by rewrite list_insert_insert_eq.
Qed.

(** * Round trip *)

Definition forget_end_rel (p : Interval.PtrOffset) : Interval.PtrOffset :=
  Interval.MkPO (Interval.anchor p) (Interval.off p) (Interval.var_off p) (Interval.range p)
    (Interval.id p) None.

(** Pointers that are measured from an anchor or from the frame. *)
Definition region_type (t : RegType) : bool :=
  match t with PtrToPacket | PtrToPacketMeta | PtrToPacketEnd | PtrToStack _ => true | _ => false end.

Lemma restore_region st reg sp a ivl o v r i :
  domain st = DInterval ivl -> region_type (reg_type sp) = true ->
  anchor_of_type (reg_type sp) = Some a -> ptr_bounds sp = Some (PBInterval (Some o) v r i) ->
  restore_anchor_info st reg sp = with_domain st (DInterval (Interval.upd_ptr ivl reg (fun _ =>
    Some (Interval.MkPO a o (default 0 v) r i None)))).
Proof.
  intros Hd Ht Ha Hp. unfold restore_anchor_info. rewrite Hp, Hd.
  destruct (reg_type sp); try done; cbn in Ha; by simplify_eq.
Qed.

Lemma type_set_length ts x t : length (type_set ts x t) = length ts.
Proof. unfold type_set, TypeState in *. case_match; [apply length_insert|done]. Qed.

Lemma type_get_set ts x t y : length ts = 11%nat ->
  type_get (type_set ts x t) y =
  if decide (y = x /\ reg_to_index x <> None) then t else type_get ts y.
Proof.
  intros Hl. unfold type_get, type_set, TypeState in *.
  assert (Hinj : forall a b i, reg_to_index a = Some i -> reg_to_index b = Some i -> a = b)
    by (intros [] [] ?; cbn; congruence).
  assert (Hlt : forall a i, reg_to_index a = Some i -> (i < 11)%nat)
    by (intros [] ?; cbn; intros [= <-]; lia).
  destruct (reg_to_index x) as [i|] eqn:Ex; [|rewrite decide_False; [done|by intros []]].
  case_decide as Hd; [destruct Hd as [-> _]|].
  - rewrite Ex, list_lookup_insert_eq; [done|]. rewrite Hl. eauto.
  - destruct (reg_to_index y) as [j|] eqn:Ey; [|done]. rewrite list_lookup_insert_ne; [done|].
    intros ->. apply Hd. split; [by eapply Hinj|done].
Qed.

(** The registers of a state into which a stored pointer is loaded. *)
Lemma fill_restores st st1 ivl r x po :
  domain st = DInterval ivl -> domain st1 = domain st -> types st1 = types st ->
  length (Interval.regs ivl) = Zone.DBM_DIM -> length (types st) = 11%nat -> reg_to_index x <> None ->
  Interval.get_ptr_offset ivl r = Some po -> region_type (type_get (types st) r) = true ->
  anchor_of_type (type_get (types st) r) = Some (Interval.anchor po) ->
  let st' := fill st1 x (spill st r) in
  exists ivl', domain st' = DInterval ivl' /\
    Interval.get_ptr_offset ivl' x = Some (forget_end_rel po) /\
    type_get (types st') x = type_get (types st) r /\
    (forall y, y <> x -> Interval.get ivl' y = Interval.get ivl y) /\
    (forall y, y <> x -> type_get (types st') y = type_get (types st) y) /\
    frames st' = frames st1.
Proof.
  intros Hd Hd1 Ht1 Hl Hlt Hx Hp Ht Ha st'.
  assert (Interval.fixed_reg x = false) as Hf by (by destruct x).
  assert (x <> Zone.Zero) as Hz by (by intros ->).
  assert (spill_bounds st r = Some (PBInterval (Some (Interval.off po)) (Some (Interval.var_off po))
            (Interval.range po) (Interval.id po))) as Hs.
  { unfold spill_bounds, save_interval_ptr_offset. by rewrite Hd, Hp. }
  subst st'. unfold fill, spill.
  destruct (get_interval (domain st) r) as [mn mx]. cbn [reg_type ptr_bounds bmin bmax].
  rewrite Hd1, Ht1, Hd. cbn [forget dispatch assign_interval]. rewrite assign_forgotten.
  erewrite restore_region; [|reflexivity|exact Ht|exact Ha|exact Hs].
  cbn [domain types frames with_domain]. eexists. split; [reflexivity|].
  unfold Interval.assign_interval, Interval.set. rewrite Hf, decide_False by done.
  set (i := Interval.MkRI _ _).
  assert (Hl' : length (Interval.regs (Interval.set_regs ivl (<[Zone.idx x:=i]> (Interval.regs ivl))))
                = Zone.DBM_DIM) by (cbn; by rewrite length_insert).
  split_and!.
  - unfold Interval.upd_ptr, Interval.get_ptr_offset. rewrite IntervalSound.get_upd by done.
    by rewrite decide_True.
  - rewrite type_get_set by done. by rewrite decide_True.
  - intros y Hy. unfold Interval.upd_ptr. rewrite IntervalSound.get_upd by done.
    rewrite decide_False by done. rewrite IntervalSound.get_insert by done. by rewrite decide_False.
  - intros y Hy. rewrite type_get_set by done. rewrite decide_False; [done|tauto].
  - done.
Qed.

(** C33. In the interval domain, a pointer to a packet, its metadata, its end or the stack that is
    measured from the anchor of its type and stored with an aligned 8-byte store in any frame comes
    back with an aligned 8-byte load, in any register, with its type, offset, variable part, proven
    range and identity; only the relation to the end of the packet is lost, and of the rest of the
    state only the eight slots of the store change.  (The zone domain is left out: there the offset of
    a stack pointer is not saved.) *)
Theorem spill_fill st ivl r x po level stack offset :
  domain st = DInterval ivl -> length (Interval.regs ivl) = Zone.DBM_DIM ->
  length (types st) = 11%nat -> reg_to_index x <> None ->
  Interval.get_ptr_offset ivl r = Some po -> region_type (type_get (types st) r) = true ->
  anchor_of_type (type_get (types st) r) = Some (Interval.anchor po) ->
  frames st !! level = Some stack -> offset mod 8 = 0 ->
  exists st' ivl', fill_at (spill_at st level r offset) level x offset = Filled st' /\
    domain st' = DInterval ivl' /\
    Interval.get_ptr_offset ivl' x = Some (forget_end_rel po) /\
    type_get (types st') x = type_get (types st) r /\
    (forall y, y <> x -> Interval.get ivl' y = Interval.get ivl y) /\
    (forall y, y <> x -> type_get (types st') y = type_get (types st) y) /\
    (forall l, l <> level -> frames st' !! l = frames st !! l) /\
    exists stack', frames st' !! level = Some stack' /\
      forall k, ~ offset <= k < offset + 8 -> stack' !! k = stack !! k.
Proof.
  intros Hd Hl Hlt Hx Hp Ht Ha Hfr _.
  destruct (fill_restores st (spill_at st level r offset) ivl r x po) as (ivl' & H1 & H2 & H3 & H4 & H5 & H6); try done.
  eexists _, ivl'. split; [by eapply fill_spilled|]. do 5 (split; [done|]). rewrite H6. cbn [frames spill_at with_frames].
  split; [intros l Hne; by rewrite list_lookup_alter_ne|].
  eexists. rewrite list_lookup_alter_eq, Hfr. split; [reflexivity|].
  intros k Hk. rewrite store_lookup. by rewrite !decide_False by lia.
Qed.

(** R2 points 14 bytes into the packet with 34 bytes proven; it is stored and loaded into R7. *)
Definition parsed : State :=
  MkState 0 (<[2%nat := PtrToPacket]> new_not_init)
    (DInterval (Interval.set Interval.new R2 (Interval.MkRI Interval.unknown
       (Some (Interval.MkPO AnchorData 14 0 (Some 34) None (Some Interval.At)))))) [∅].

Lemma spill_fill_witness :
  exists st' ivl', fill_at (spill_at parsed 0 R2 (-16)) 0 R7 (-16) = Filled st' /\ domain st' = DInterval ivl' /\
    Interval.get_ptr_offset ivl' R7 = Some (Interval.MkPO AnchorData 14 0 (Some 34) None None).
Proof.
  refine (match spill_fill parsed _ R2 R7 (Interval.MkPO AnchorData 14 0 (Some 34) None (Some Interval.At)) 0 ∅ (-16)
                eq_refl _ _ _ _ _ _ _ _ with
          | ex_intro _ st' (ex_intro _ ivl' (conj H0 (conj H1 (conj H2 _)))) =>
              ex_intro _ st' (ex_intro _ ivl' (conj H0 (conj H1 H2))) end);
    vm_compute; congruence.
Defined.

(** A filled pointer into a map value has its offset back but the bounds of a fresh lookup. *)
Lemma map_value_fill_bounds :
  let t := PtrToMapValue 1 (Some 0) 0 None false in
  let st := MkState 0 (<[1%nat := t]> new_not_init)
              (apply_add_imm (init_map_value_ptr new_interval R1) R1 8) [] in
  let st' := fill st R2 (spill st R1) in
  get_interval (domain st) R1 = (8, 8) /\ get_interval (domain st') R2 = (0, 0) /\
  match domain st' with
  | DInterval ivl => Interval.off <$> Interval.get_ptr_offset ivl R2
  | DZone _ => None
  end = Some 8.
Proof. vm_compute. auto. Qed.

End VState.
