(* ===== verification/IntervalPacket.v ===== *)
(** Packet bounds in the interval domain: what a comparison of a packet pointer with the end of its
    region teaches ([src/analysis/transfer/branch/interval_packet.rs]), the comparison that is
    already decided ([branch/outcome.rs]), and the check of an access ([memory/packet.rs]).

    The setters of the packet geometry do nothing ([Interval.set_packet_size_bound] and the like),
    so their calls leave the state alone here too; they are written as the code has them. *)

From S2P Require Import Prelude Zone Interval Numeric VState Ast.
From Stdlib Require Import ZArith Lia Bool.
From stdpp Require Import base numbers list gmap.
Open Scope Z_scope.

Module IntervalPacket.
Import Zone(Reg(..), Reg_eq_dec, saturating_add, saturating_sub).
Import Interval(PtrOffset, PktEndRel).
Import Numeric VState Ast(CmpOp(..), Operand(..)).
#[local] Existing Instance Ast.CmpOp_eq_dec.

Record PacketComparison : Type := MkPC { offset : Z; cmp_var_off : Z; is_fixed : bool }.

(** [Reg::ALL]: the real registers. *)
Definition all_regs : list Reg := [Zero; R0; R1; R2; R3; R4; R5; R6; R7; R8; R9; R10].

Definition state_ptr (st : State) (r : Reg) : option PtrOffset :=
  match domain st with
  | DInterval ivl => Interval.get_ptr_offset ivl r
  | DZone _ => None
  end.

Definition comparison_from (a : Reg) (po : option PtrOffset) : option PacketComparison :=
  match po with
  | Some p =>
      if decide (Interval.anchor p = a)
      then Some (MkPC (Interval.off p) (Interval.var_off p) (Interval.var_off p =? 0))
      else None
  | None => None
  end.

Definition get_packet_data_offset (st : State) (r : Reg) : option PacketComparison :=
  if is_packet (type_get (types st) r) then comparison_from AnchorData (state_ptr st r) else None.

Definition get_packet_meta_offset (st : State) (r : Reg) : option PacketComparison :=
  if is_packet_meta (type_get (types st) r) then comparison_from AnchorDataMeta (state_ptr st r)
  else None.

Definition is_packet_end (st : State) (r : Reg) : bool := is_packet_end_type (type_get (types st) r).

Definition is_packet_data (st : State) (r : Reg) : bool :=
  is_packet (type_get (types st) r) &&
  match state_ptr st r with
  | Some p => bool_decide (Interval.anchor p = AnchorData) && (Interval.off p =? 0)
              && (Interval.var_off p =? 0)
  | None => false
  end.

(** * Propagation *)

(** The same identity, or none on both sides. *)
Definition in_family (checked other : option Z) : bool :=
  match checked, other with
  | Some a, Some b => a =? b
  | None, None => true
  | _, _ => false
  end.

(** [range] widened to [r] bytes, if [r] is not negative and more than what is known. *)
Definition widen_range (old : option Z) (r : Z) : option Z :=
  if (0 <=? r) && (default (-1) old <? r) then Some r else old.

Definition with_range (p : PtrOffset) (r : option Z) : PtrOffset :=
  Interval.MkPO (Interval.anchor p) (Interval.off p) (Interval.var_off p) r (Interval.id p)
    (Interval.pkt_end_rel p).

(** First loop: the registers of the family with the range that follows for them. *)
Definition range_updates (st : State) (is_kind : RegType -> bool) (a : Reg)
  (checked_id : option Z) (proven_size : Z) : list (Reg * Z) :=
  omap (fun r =>
    if is_kind (type_get (types st) r) then
      match state_ptr st r with
      | Some p =>
          if decide (Interval.anchor p = a) then
            if in_family checked_id (Interval.id p) then
              let range_for_reg := saturating_sub proven_size (Interval.off p) in
              if 0 <=? range_for_reg then Some (r, range_for_reg) else None
            else None
          else None
      | None => None
      end
    else None) all_regs.

(** Second loop. *)
Definition apply_range (ivl : Interval.IntervalState) (u : Reg * Z) : Interval.IntervalState :=
  match Interval.get_ptr_offset ivl u.1 with
  | Some p =>
      let current_range := default (-1) (Interval.range p) in
      if current_range <? u.2
      then Interval.upd_ptr ivl u.1 (fun _ => Some (with_range p (Some u.2))) else ivl
  | None => ivl
  end.

Definition propagate_to_slot (is_kind : RegType -> bool) (checked_id : option Z) (proven_size : Z)
  (sp : SpilledReg) : SpilledReg :=
  if is_kind (reg_type sp) then
    match ptr_bounds sp with
    | Some (PBInterval (Some o) v r i) =>
        if in_family checked_id i
        then MkSpilled (source_reg sp) (reg_type sp) (slot_size sp)
               (Some (PBInterval (Some o) v (widen_range r (saturating_sub proven_size o)) i))
               (bmin sp) (bmax sp)
        else sp
    | _ => sp
    end
  else sp.

(** All slots of all frames. *)
Definition propagate_to_all_frames (st : State) (is_kind : RegType -> bool)
  (checked_id : option Z) (proven_size : Z) : State :=
  with_frames st (fmap (fun f : Stack => propagate_to_slot is_kind checked_id proven_size <$> f)
                       (frames st)).

Definition propagate (st : State) (is_kind : RegType -> bool) (a : Reg) (checked_reg : Reg)
  (proven_size : Z) : State :=
  match domain st with
  | DInterval ivl =>
      let checked_id := Interval.get_ptr_offset ivl checked_reg ≫= Interval.id in
      let ups := range_updates st is_kind a checked_id proven_size in
      let st := with_domain st (DInterval (foldl apply_range ivl ups)) in
      propagate_to_all_frames st is_kind checked_id proven_size
  | DZone _ => st
  end.

Definition propagate_packet_range (st : State) (checked_reg : Reg) (proven_size : Z) : State :=
  propagate st is_packet AnchorData checked_reg proven_size.
Definition propagate_meta_range (st : State) (checked_reg : Reg) (proven_size : Z) : State :=
  propagate st is_packet_meta AnchorDataMeta checked_reg proven_size.

(** * What a comparison proves *)

(** The bound of the region's size: at least the offset, or less than it; strict when one more
    (the pointer is before the end, at or past the end). *)
Inductive Proof : Type := Lower (strict : bool) | Upper (strict : bool) | NoProof.

(** [pointer OP end]. *)
Definition left_proof (op : CmpOp) (taken : bool) : Proof :=
  match op, taken with
  | (ULe | SLe), true => Lower false
  | (ULt | SLt), true => Lower true
  | (UGt | SGt), false => Lower false
  | (UGe | SGe), false => Lower true
  | (UGt | SGt), true => Upper false
  | (UGe | SGe), true => Upper true
  | (ULe | SLe), false => Upper false
  | (ULt | SLt), false => Upper true
  | _, _ => NoProof
  end.

(** [end OP pointer]. *)
Definition right_proof (op : CmpOp) (taken : bool) : Proof :=
  match op, taken with
  | (UGe | SGe), true => Lower false
  | (UGt | SGt), true => Lower true
  | (ULe | SLe), false => Lower true
  | (ULt | SLt), false => Lower false
  | (ULt | SLt), true => Upper false
  | (ULe | SLe), true => Upper true
  | (UGe | SGe), false => Upper false
  | (UGt | SGt), false => Upper true
  | _, _ => NoProof
  end.

Definition bump (strict : bool) (offset : Z) : Z :=
  if strict then saturating_add offset 1 else offset.

Definition map_ivl (st : State) (f : Interval.IntervalState -> Interval.IntervalState) : State :=
  match domain st with
  | DInterval ivl => with_domain st (DInterval (f ivl))
  | DZone _ => st
  end.

(** A lower bound that is raised only where it grows. *)
Definition raise_bound (get : Interval.IntervalState -> option Z)
  (set : Interval.IntervalState -> Z -> Interval.IntervalState) (size : Z)
  (ivl : Interval.IntervalState) : Interval.IntervalState :=
  if default 0 (get ivl) <? u64 size then set ivl (u64 size) else ivl.

Definition mark_pkt_end (r : Reg) (m : PktEndRel) (ivl : Interval.IntervalState)
  : Interval.IntervalState :=
  match Interval.get_ptr_offset ivl r with
  | Some p => Interval.upd_ptr ivl r (fun _ =>
      Some (Interval.MkPO (Interval.anchor p) (Interval.off p) (Interval.var_off p)
              (Interval.range p) (Interval.id p) (Some m)))
  | None => ivl
  end.

(** The comparison, the side of the pointer and the pointer. *)
Definition region_operands (info : Reg -> option PacketComparison) (is_end : Reg -> bool)
  (left right : Reg) : option (PacketComparison * bool * Reg) :=
  match info left with
  | Some i => if is_end right then Some (i, true, left) else None
  | None =>
      match info right with
      | Some i => if is_end left then Some (i, false, right) else None
      | None => None
      end
  end.

Definition refine_data_region_bounds (st : State) (left right : Reg) (op : CmpOp) (taken : bool)
  : State :=
  match region_operands (get_packet_data_offset st) (is_packet_end st) left right with
  | Some (info, on_left, checked_reg) =>
      match (if on_left then left_proof op taken else right_proof op taken) with
      | Lower strict =>
          let proven_size := bump strict (offset info) in
          let st := if is_fixed info && (0 <? proven_size)
                    then map_ivl st (raise_bound Interval.get_packet_size_bound
                                       Interval.set_packet_size_bound proven_size)
                    else st in
          if 0 <? proven_size then propagate_packet_range st checked_reg proven_size else st
      | Upper strict =>
          let upper_exclusive := bump strict (offset info) in
          let st := if is_fixed info && (0 <? upper_exclusive)
                    then map_ivl st (fun i =>
                           Interval.set_packet_size_upper_bound i (u64 upper_exclusive))
                    else st in
          map_ivl st (mark_pkt_end checked_reg (if strict then Interval.At else Interval.Beyond))
      | NoProof => st
      end
  | None => st
  end.

Definition refine_meta_region_bounds (st : State) (left right : Reg) (op : CmpOp) (taken : bool)
  : State :=
  match region_operands (get_packet_meta_offset st) (is_packet_data st) left right with
  | Some (info, on_left, meta_reg) =>
      let max_offset := saturating_add (offset info) (s64 (cmp_var_off info)) in
      match (if on_left then left_proof op taken else right_proof op taken) with
      | Lower strict =>
          let proven_size := bump strict (offset info) in
          if 0 <? proven_size then
            let st := map_ivl st (raise_bound Interval.get_meta_size_bound
                                    Interval.set_meta_size_bound proven_size) in
            propagate_meta_range st meta_reg proven_size
          else st
      | Upper strict =>
          let upper_exclusive := bump strict max_offset in
          if 0 <? upper_exclusive
          then map_ivl st (fun i => Interval.set_meta_size_upper_bound i (u64 upper_exclusive))
          else st
      | NoProof => st
      end
  | None => st
  end.

Definition refine_packet_bounds (st : State) (left right : Reg) (op : CmpOp) (taken : bool)
  : State :=
  if is_interval_mode (domain st)
  then refine_meta_region_bounds (refine_data_region_bounds st left right op taken)
         left right op taken
  else st.

Definition refine_packet_bounds_on_branch (then_state else_state : State) (left right : Reg)
  (op : CmpOp) : State * State :=
  (refine_packet_bounds then_state left right op true,
   refine_packet_bounds else_state left right op false).

(** * A comparison that is already decided *)

Definition flip_cmp_op (op : CmpOp) : CmpOp :=
  match op with
  | UGt => ULt | ULt => UGt | UGe => ULe | ULe => UGe
  | SGt => SLt | SLt => SGt | SGe => SLe | SLe => SGe
  | Eq | Ne | Test => op
  end.

Definition verdict (op : CmpOp) (rel : PktEndRel) : option bool :=
  match op with
  | UGt | ULe =>
      match rel with
      | Interval.Beyond => Some (bool_decide (op = UGt))
      | Interval.At => None
      end
  | UGe | ULt => Some (bool_decide (op = UGe))
  | _ => None
  end.

Definition pkt_ptr_branch_taken (st : State) (left : Reg) (op : CmpOp) (right : Operand)
  : option bool :=
  match right with
  | OImm _ => None
  | OReg right_reg =>
      let left_ty := type_get (types st) left in
      let right_ty := type_get (types st) right_reg in
      let pkt :=
        if is_packet_end_type right_ty && is_packet left_ty then Some (left, op)
        else if is_packet_end_type left_ty && is_packet right_ty
             then Some (right_reg, flip_cmp_op op)
        else None in
      match pkt with
      | Some (pkt_reg, op) => (state_ptr st pkt_reg ≫= Interval.pkt_end_rel) ≫= verdict op
      | None => None
      end
  end.

(** * Accesses *)

Inductive AccessKind : Type := Read | Write | HelperBuffer | HelperPrimitive.

Inductive ProgramKind : Type :=
| Unspec | SocketFilter | Kprobe | SchedCls | SchedAct | Tracepoint | Xdp_ | PerfEvent | CgroupSkb
| CgroupSock | LwtIn | LwtOut | LwtXmit | SockOps | SkSkb | SkLookup | CgroupDevice | SkMsg
| RawTracepoint | RawTracepointWritable | CgroupSockAddr | CgroupSockopt | Lsm | Tracing | Syscall
| StructOps | Netfilter | FlowDissector | SkReuseport | Unknown.

(** The errors of the packet checks. *)
Inductive VerificationError : Type :=
| IllegalPacketStore (pc : nat) (off size : Z)
| UnsafePacketLoad (pc : nat) (off size : Z)
| UnsafePacketStore (pc : nat) (off size : Z)
| MisalignedPacketAccess (pc : nat) (off size : Z).

(** What the checks read and write of the environment. *)
Record VerifierEnv : Type := MkEnv {
  prog_kind : ProgramKind;
  flags : Z;
  replay_mode : bool;
  error : option VerificationError }.

(** The first error stays. *)
Definition fail (env : VerifierEnv) (e : VerificationError) : VerifierEnv :=
  if replay_mode env then env
  else match error env with
       | None => MkEnv (prog_kind env) (flags env) (replay_mode env) (Some e)
       | Some _ => env
       end.

Definition F_LOAD_WITH_STRICT_ALIGNMENT : Z := Z.shiftl 1 1.
Definition has_flag (env : VerifierEnv) (flag : Z) : bool := negb (Z.land (flags env) flag =? 0).

Definition prog_kind_support_direct_packet_write (k : ProgramKind) : bool :=
  match k with LwtIn | LwtOut => false | _ => true end.

(** The sums are of values whose overflow is not reached: the distance is a difference of tracked
    offsets and the instruction's offset is 16 bits wide. *)
Definition get_packet_offset_range (st : State) (base : Reg) (insn_off : Z)
  : option Z * option Z :=
  match type_get (types st) base with
  | PtrToPacket => (Some insn_off, Some insn_off)
  | _ =>
      match list_find (fun r => is_packet (type_get (types st) r) = true) all_regs with
      | Some (_, start_reg) =>
          let '(lo, hi) := get_distance_interval (domain st) base start_reg in
          (if lo =? Zone.i64_MIN then None else Some (lo + insn_off),
           if hi =? Zone.i64_MAX then None else Some (hi + insn_off))
      | None => (None, None)
      end
  end.

Definition NET_IP_ALIGN : Z := 2.

Definition check_packet_alignment (st : State) (base : Reg) (off size : Z) : bool :=
  if size =? 1 then true
  else match get_packet_offset_range st base off with
       | (Some lo, Some hi) =>
           let lo_aligned := Z.rem (NET_IP_ALIGN + lo) size =? 0 in
           let hi_aligned := Z.rem (NET_IP_ALIGN + hi) size =? 0 in
           if negb (Z.rem lo size =? Z.rem hi size) then false else lo_aligned && hi_aligned
       | _ => false
       end.

Definition is_write (k : AccessKind) : bool := match k with Write => true | _ => false end.
Definition is_read (k : AccessKind) : bool := match k with Read => true | _ => false end.
Definition is_helper_buffer (k : AccessKind) : bool :=
  match k with HelperBuffer => true | _ => false end.

Definition check_packet_access (env : VerifierEnv) (st : State) (base : Reg) (off size : Z)
  (pc : nat) (kind : AccessKind) : VerifierEnv :=
  if is_write kind && negb (prog_kind_support_direct_packet_write (prog_kind env))
  then fail env (IllegalPacketStore pc off size)
  else
    let '(start_ok, end_ok) := verify_packet_bounds (domain st) base off size in
    let env :=
      if negb start_ok || negb end_ok
      then fail env (if is_read kind then UnsafePacketLoad pc off size
                     else UnsafePacketStore pc off size)
      else env in
    if has_flag env F_LOAD_WITH_STRICT_ALIGNMENT && negb (is_helper_buffer kind)
       && negb (check_packet_alignment st base off size)
    then fail env (MisalignedPacketAccess pc off size) else env.

Definition check_packet_meta_access (env : VerifierEnv) (st : State) (base : Reg) (off size : Z)
  (pc : nat) : VerifierEnv :=
  let '(start_ok, end_ok) := verify_packet_meta_bounds (domain st) base off size in
  if negb start_ok || negb end_ok then fail env (UnsafePacketLoad pc off size) else env.

End IntervalPacket.
