(* ===== verification/PacketFamily.v ===== *)
(** Families of pointers: what the identity of a pointer of the interval domain promises.

    Pointers with the same anchor and the same identity differ by their fixed offsets only; that is
    what lets one bounds check speak for all of them.  The operations keep the promise as long as an
    identity is minted whenever a variable is added; the two that reuse an identity instead are
    excluded by [keeps_id]. *)

From S2P Require Import Prelude Zone ZoneSound Interval IntervalSound IntervalOps.
From Stdlib Require Import ZArith Lia Bool.
From stdpp Require Import base numbers list.
Open Scope Z_scope.

Module PacketFamily.
Import Zone(Reg(..), Reg_eq_dec, idx, is_anchor, DBM_DIM, i64_MAX, i64_MIN, u64_MAX, saturating_add,
            saturating_sub, saturate).
Import ZoneSound(in_s64_iff, s64_small, u64_small).
Import Interval IntervalSound IntervalOps.

(** * Pointer information after an update *)

Lemma ptr_upd_bounds st x f y : get_ptr_offset (upd_bounds st x f) y = get_ptr_offset st y.
Proof.
  unfold get_ptr_offset, get, upd_bounds, upd. cbn. rewrite list_lookup_total_alter.
  case_decide as Hd; [|done]. by rewrite (proj1 Hd).
Qed.

Lemma ptr_upd_ptr st x f y : length (regs st) = DBM_DIM ->
  get_ptr_offset (upd_ptr st x f) y =
  if decide (y = x) then f (get_ptr_offset st x) else get_ptr_offset st y.
Proof. intros. unfold get_ptr_offset, upd_ptr. rewrite get_upd by done. by case_decide. Qed.

Lemma ptr_set st x i y : length (regs st) = DBM_DIM -> fixed_reg x = false ->
  get_ptr_offset (set st x i) y = if decide (y = x) then ptr_offset i else get_ptr_offset st y.
Proof.
  intros ? Hx. unfold get_ptr_offset, set. rewrite decide_False by (by intros ->).
  rewrite get_insert by done. by case_decide.
Qed.

Lemma ptr_forget st x y : length (regs st) = DBM_DIM -> fixed_reg x = false ->
  get_ptr_offset (forget st x) y = if decide (y = x) then None else get_ptr_offset st y.
Proof.
  intros ? Hx. unfold get_ptr_offset, forget. rewrite Hx, get_insert by done. by case_decide.
Qed.

Lemma upd_bounds_length st x f : length (regs st) = DBM_DIM ->
  length (regs (upd_bounds st x f)) = DBM_DIM.
Proof. apply upd_length. Qed.

Lemma set_length st x i : length (regs st) = DBM_DIM -> length (regs (set st x i)) = DBM_DIM.
Proof. intros. unfold set. case_decide; [done|]. cbn. by rewrite length_insert. Qed.

Create Rewrite HintDb ptr.
#[export] Hint Rewrite ptr_upd_bounds : ptr.
#[export] Hint Rewrite ptr_upd_ptr ptr_set ptr_forget using (auto using upd_bounds_length) : ptr.

(** * Families *)

(** The origin of a family: where its pointers would be at offset zero. *)
Definition origins : Type := Reg -> option Z -> Z.

Definition in_origin (B : origins) (v : Z) (po : PtrOffset) : Prop :=
  v = B (anchor po) (id po) + off po.

(** Identities are drawn from a counter. *)
Definition id_below (n : Z) (po : PtrOffset) : Prop := forall i, id po = Some i -> i < n.

Record family (st : IntervalState) (n : Z) (B : origins) (s : val) : Prop := {
  fam_base : forall a, base_reg a = true -> B a None = s a;
  fam_regs : forall x po, get_ptr_offset st x = Some po -> in_origin B (s x) po /\ id_below n po }.

(** The origin of a minted identity. *)
Definition add_origin (B : origins) (n o : Z) : origins :=
  fun a i => if decide (i = Some n) then o else B a i.

Lemma in_origin_add B n o v po : id_below n po -> in_origin B v po -> in_origin (add_origin B n o) v po.
Proof.
  unfold in_origin, add_origin, id_below. intros Hb Hv. case_decide as Hd; [|done].
  specialize (Hb n Hd). lia.
Qed.

(** A pointer that belongs to the family of an old one, or starts at its anchor. *)
Definition derived (st : IntervalState) (s : val) (v : Z) (po' : PtrOffset) : Prop :=
  (exists y po, get_ptr_offset st y = Some po /\ anchor po' = anchor po /\ id po' = id po /\
     v - off po' = s y - off po) \/
  (id po' = None /\ base_reg (anchor po') = true /\ v = s (anchor po') + off po').

Lemma derived_in st n B s v po' : family st n B s -> derived st s v po' ->
  in_origin B v po' /\ id_below n po'.
Proof.
  intros [Hb Hr] [(y & po & Hy & Ea & Ei & Ev)|(Ei & Ha & ->)].
  - destruct (Hr y po Hy) as [H1 H2]. unfold in_origin, id_below in *. rewrite Ea, Ei.
    split; [lia|done].
  - unfold in_origin, id_below. rewrite Ei, Hb by done. done.
Qed.

Lemma derived_old st s x po : get_ptr_offset st x = Some po -> derived st s (s x) po.
Proof. intros. left. by exists x, po. Qed.

(** The operation does not add a variable to a pointer that has an identity, nor subtract one. *)
Definition keeps_id (st : IntervalState) (op : Op) : bool :=
  match op with
  | OAddReg dst src =>
      match get_constant (get_bounds st src), get_ptr_offset st dst with
      | None, Some po => bool_decide (id po = None)
      | _, _ => true
      end
  | OScalarAddPtr _ ptr lo hi =>
      match get_ptr_offset st ptr with
      | Some po => (lo =? hi) || bool_decide (id po = None) && (lo <? hi)
      | None => true
      end
  | OSubReg dst src =>
      match get_constant (get_bounds st src), get_ptr_offset st dst with
      | None, Some _ => false
      | _, _ => true
      end
  | _ => true
  end.

(** The register an operation gives a new value. *)
Definition op_dst (op : Op) : option Reg :=
  match op with
  | OForget x | OAssignImm x _ | OAssignReg x _ | OAssignRegOffset x _ _ | OInitMapValue x
  | OInitMapValueAt x _ | OAssignInterval x _ _ | OAddImm x _ | OAddReg x _ | OScalarAddPtr x _ _ _
  | OSubReg x _ | OAndImm x _ | OMulImm x _ | ODivImm x _ | ODivReg x _ | ONeg x | OBind x _ => Some x
  | _ => None
  end.

Section Derived.
Context (st : IntervalState) (n : Z) (s : val).
Context (Hw : ivl_wf st) (Hh : ivl_holds st s).

(** Every pointer of the new state is derived from the old one, or is the destination and carries
    the identity that was drawn. *)
Definition outcome (s' : val) (op : Op) (st' : IntervalState) (n' : Z) : Prop :=
  n' = n /\ (forall x po, get_ptr_offset st' x = Some po -> derived st s (s' x) po) \/
  n' = u32 (n + 1) /\
  forall x po, get_ptr_offset st' x = Some po ->
    op_dst op = Some x /\ id po = Some n \/ op_dst op <> Some x /\ derived st s (s' x) po.

Lemma same_ptrs s' op st' : s' = s -> (forall x, get_ptr_offset st' x = get_ptr_offset st x) ->
  outcome s' op st' n.
Proof. intros -> H. left. split; [done|]. intros x po. rewrite H. apply derived_old. Qed.

Lemma dst_ptr s' op st' d v :
  s' = vset s d v ->
  (forall x, x <> d -> get_ptr_offset st' x = get_ptr_offset st x) ->
  (forall po, get_ptr_offset st' d = Some po -> derived st s v po) ->
  outcome s' op st' n.
Proof.
  intros -> Ho Hd. left. split; [done|]. intros x po Hx. destruct (decide (x = d)) as [->|Hne].
  - rewrite vset_eq. auto.
  - rewrite vset_ne by done. rewrite Ho in Hx by done. by apply derived_old.
Qed.

Lemma minted_ptr s' op st' d v :
  op_dst op = Some d -> s' = vset s d v ->
  (forall x, x <> d -> get_ptr_offset st' x = get_ptr_offset st x) ->
  (forall po, get_ptr_offset st' d = Some po -> id po = Some n) ->
  outcome s' op st' (u32 (n + 1)).
Proof.
  intros Hop -> Ho Hd. right. split; [done|]. intros x po Hx. destruct (decide (x = d)) as [->|Hne].
  - left. auto.
  - right. split; [congruence|]. rewrite vset_ne by done. rewrite Ho in Hx by done.
    by apply derived_old.
Qed.

(** A pointer moved by a known amount stays in its family. *)
Lemma shift_derived y po imm v :
  get_ptr_offset st y = Some po -> v = s y + imm -> fits64 (off po + imm) = true ->
  derived st s v (shift_ptr imm po).
Proof.
  intros Hy -> Hf%fits_true. left. exists y, po. split; [done|].
  cbn. unfold saturating_add. rewrite saturate_fits by done. split_and!; [done..|lia].
Qed.

Lemma wf_length : length (regs st) = DBM_DIM.
Proof. apply Hw. Qed.

(** ** The operations *)

Ltac others := let y := fresh "y" in let Hy := fresh "Hy" in
  intros y Hy; autorewrite with ptr; by rewrite ?decide_False.

(** Close the goals of an operation that leaves no pointer in the destination. *)
Ltac scalar_result := eapply dst_ptr; [eassumption|others|];
  intros ?; autorewrite with ptr; by rewrite ?decide_True.

Lemma refine_outcome s' op : s' = s -> op_dst op = None ->
  match op with OInitAnchors => False | _ => True end ->
  outcome s' op (run op st n).1 (run op st n).2.
Proof.
  intros -> Hd Hi. pose proof wf_length.
  destruct op; try done; cbn [run fst snd]; apply same_ptrs; auto; intros z;
    unfold intersect_eq_reg, assume_ge, assume_le, assume_gt, assume_le_offset, assume_range,
      assume_le_imm, assume_ge_imm, assume_lt_imm, assume_eq_imm;
    repeat case_match; autorewrite with ptr; try done; case_decide; by subst.
Qed.

(** The destination keeps no pointer, or keeps its value and its pointer. *)
Lemma scalar_ptr s' op st' d v :
  s' = vset s d v ->
  (forall x, x <> d -> get_ptr_offset st' x = get_ptr_offset st x) ->
  (get_ptr_offset st' d = None \/ v = s d /\ get_ptr_offset st' d = get_ptr_offset st d) ->
  outcome s' op st' n.
Proof.
  intros E Ho Hd. eapply dst_ptr; [done..|]. intros po Hpo. destruct Hd as [Hd|[-> Hd]].
  - congruence.
  - apply derived_old. congruence.
Qed.

Definition is_scalar_op (op : Op) : bool :=
  match op with
  | OForget _ | OAssignImm _ _ | OAssignInterval _ _ _ | OAndImm _ _ | ODivReg _ _ | ONeg _
  | OMulImm _ _ | ODivImm _ _ => true
  | _ => false
  end.

(** [autorewrite] at the destination and elsewhere. *)
Ltac at_ptr := autorewrite with ptr; rewrite ?decide_True, ?decide_False by done.

Lemma scalar_outcome s' op : is_scalar_op op = true -> dst_ok op = true -> exec op s s' ->
  outcome s' op (run op st n).1 (run op st n).2.
Proof.
  intros Hop Hd Hx. pose proof wf_length as Hl.
  destruct op; try done; cbn [run fst snd]; cbn [dst_ok] in Hd; apply negb_true_iff in Hd;
    pose proof (base_fixed _ Hd) as Hf;
    unfold assign_imm, assign_interval, apply_and_imm, apply_div_reg, apply_neg, apply_mul_imm,
      apply_div_imm, assign_zero, assign_imm, drop_ptr; rewrite ?Hf; cbn [orb]; cbn in Hx;
    try destruct Hx as (v & _ & Hx);
    repeat case_match; try (eapply scalar_ptr; [exact Hx|intros; at_ptr; done|left; at_ptr; done]).
  - apply Z.eqb_eq in H0 as ->. eapply scalar_ptr; [exact Hx|done|right]. split; [|done].
    rewrite Z.mul_1_r. apply s64_small, in_s64_iff, Hh.
  - eapply scalar_ptr; [exact Hx|done|by right].
Qed.

Definition is_base_op (op : Op) : bool :=
  match op with
  | OInitMapValue _ | OInitMapValueAt _ _ | OBind _ _ | OAssignReg _ _ => true
  | _ => false
  end.

Lemma base_outcome s' op : is_base_op op = true -> dst_ok op = true -> exec op s s' ->
  outcome s' op (run op st n).1 (run op st n).2.
Proof.
  intros Hop Hd Hx. pose proof wf_length as Hl. pose proof (val_zero _ (proj1 Hh)) as Hz.
  destruct op as [| |x y| | |x|x o| | | | | | | | | | | | | | | | | | | | |x a]; try done;
    cbn [dst_ok] in Hd; try apply andb_true_iff in Hd as [Hd Ha]; apply negb_true_iff in Hd;
    pose proof (base_fixed _ Hd) as Hf; cbn in Hx; cbn [run fst snd];
    unfold assign_reg, init_map_value_ptr, init_map_value_ptr_at, bind_to_anchor;
    rewrite ?Hf, ?Ha; (eapply dst_ptr; [exact Hx|intros; at_ptr; done|]);
    intros po; at_ptr.
  - intros. by apply derived_old.
  - intros [= <-]. right. cbn. rewrite Hz. done.
  - intros [= <-]. right. cbn. rewrite Hz. done.
  - intros [= <-]. right. cbn. split_and!; [done|by destruct a|lia].
Qed.

Lemma anchors_outcome : outcome s OInitAnchors (init_packet_anchors st) n.
Proof.
  left. split; [done|]. intros x po Hx.
  assert (Hs : forall st a y, length (regs st) = DBM_DIM -> a <> Zero ->
    get_ptr_offset (set st a (with_ptr_offset unknown (at_anchor a))) y =
    if decide (y = a) then Some (at_anchor a) else get_ptr_offset st y).
  { intros st' a y ? Ha. unfold get_ptr_offset, set. rewrite decide_False, get_insert by done.
    by case_decide. }
  assert (Hb : forall a, base_reg a = true -> derived st s (s a) (at_anchor a))
    by (intros; right; cbn; split_and!; [done..|lia]).
  unfold init_packet_anchors in Hx. pose proof wf_length.
  rewrite !Hs in Hx by auto using set_length.
  repeat case_decide; simplify_eq; auto using derived_old.
Qed.

Lemma po_fits_off imm po : po_fits imm po = true -> fits64 (off po + imm) = true.
Proof. unfold po_fits. rewrite !andb_true_iff. tauto. Qed.

Lemma ptr_value y po v : get_ptr_offset st y = Some po ->
  get_ptr_offset st y = None \/ in_s 64 v -> s64 v = v.
Proof. intros Hy [|Hv]; [congruence|]. by apply s64_small, in_s64_iff. Qed.

(** A pointer of the destination that is another one moved by a known amount. *)
Lemma shift_outcome s' op st' d y imm v :
  s' = vset s d (s64 v) -> v = s y + imm ->
  (forall x, x <> d -> get_ptr_offset st' x = get_ptr_offset st x) ->
  get_ptr_offset st' d = shift_ptr imm <$> get_ptr_offset st y ->
  get_ptr_offset st y = None \/ in_s 64 v ->
  const_ptr_fits st y imm = true -> outcome s' op st' n.
Proof.
  intros E Ev Ho Hd Hn Hf. eapply dst_ptr; [done..|]. intros po'. rewrite Hd.
  unfold const_ptr_fits in Hf. destruct (get_ptr_offset st y) as [po|] eqn:Hy; [|done].
  intros [= <-]. apply (shift_derived y po imm); auto using po_fits_off.
  rewrite (ptr_value y po) by (auto; by rewrite Hy). done.
Qed.

Lemma add_imm_outcome s' x imm : dst_ok (OAddImm x imm) = true ->
  op_fits st (OAddImm x imm) = true -> ptr_nowrap st (OAddImm x imm) s ->
  exec (OAddImm x imm) s s' -> outcome s' (OAddImm x imm) (apply_add_imm st x imm) n.
Proof.
  cbn. intros Hd%negb_true_iff Hf Hn Hx. pose proof wf_length. pose proof (base_fixed _ Hd) as Hr.
  unfold apply_add_imm. rewrite Hr.
  eapply (shift_outcome _ _ _ x x imm); [done..|intros; at_ptr; done|at_ptr; done|done|done].
Qed.

Lemma reg_offset_outcome s' x y imm : dst_ok (OAssignRegOffset x y imm) = true ->
  op_fits st (OAssignRegOffset x y imm) = true -> ptr_nowrap st (OAssignRegOffset x y imm) s ->
  exec (OAssignRegOffset x y imm) s s' ->
  outcome s' (OAssignRegOffset x y imm) (assign_reg_offset st x y imm) n.
Proof.
  cbn. rewrite !andb_true_iff. intros Hd%negb_true_iff [_ Hf] Hn Hx. pose proof wf_length.
  pose proof (base_fixed _ Hd) as Hr. unfold assign_reg_offset. rewrite Hr.
  eapply (shift_outcome _ _ _ x y imm); [done..|intros; at_ptr; done|at_ptr; done|done|done].
Qed.

Lemma add_reg_outcome s' x y : dst_ok (OAddReg x y) = true -> keeps_id st (OAddReg x y) = true ->
  op_fits st (OAddReg x y) = true -> ptr_nowrap st (OAddReg x y) s -> exec (OAddReg x y) s s' ->
  outcome s' (OAddReg x y) (apply_add_reg st n x y).1 (apply_add_reg st n x y).2.
Proof.
  cbn. rewrite andb_true_iff. intros Hd%negb_true_iff Hk [_ Hf] Hn Hx. pose proof wf_length.
  pose proof (base_fixed _ Hd) as Hr. unfold apply_add_reg. rewrite Hr.
  destruct (get_constant (get_bounds st y)) as [c|] eqn:Hc.
  - cbn [fst snd]. rewrite (get_constant_eq _ _ _ (proj1 (proj2 Hh y)) Hc) in *.
    eapply (shift_outcome _ _ _ x x c); [done..|intros; at_ptr; done|at_ptr; done|done|done].
  - autorewrite with ptr. destruct (get_ptr_offset st x) as [po|] eqn:Hp.
    + apply bool_decide_eq_true in Hk. rewrite Hk. cbn [new_ptr_id fst snd].
      eapply minted_ptr; [done..|intros; at_ptr; done|]. intros po'. at_ptr. by intros [= <-].
    + cbn [fst snd]. eapply scalar_ptr; [done|intros; at_ptr; done|left; by at_ptr].
Qed.

Lemma get_constant_bounds b c : get_constant b = Some c -> smin b = c /\ smax b = c.
Proof.
  unfold get_constant, is_constant. case_match eqn:E; [|done].
  apply andb_true_iff in E as [E%Z.eqb_eq _]. intros [= <-]. lia.
Qed.

Lemma sub_reg_outcome s' x y : dst_ok (OSubReg x y) = true -> keeps_id st (OSubReg x y) = true ->
  op_fits st (OSubReg x y) = true -> ptr_nowrap st (OSubReg x y) s -> exec (OSubReg x y) s s' ->
  outcome s' (OSubReg x y) (apply_sub_reg st x y) n.
Proof.
  cbn. rewrite andb_true_iff. intros Hd%negb_true_iff Hk [_ Hf] Hn Hx. pose proof wf_length.
  pose proof (base_fixed _ Hd) as Hr. unfold apply_sub_reg. rewrite Hr.
  eapply dst_ptr; [exact Hx|intros; at_ptr; done|]. intros po'. at_ptr.
  unfold moved_ptr_fits in Hf. destruct (get_ptr_offset st x) as [po|] eqn:Hp; [|done].
  destruct (get_constant (get_bounds st y)) as [c|] eqn:Hc; [|done].
  rewrite (ptr_value x po) by (auto; by rewrite Hp).
  destruct (get_constant_bounds _ _ Hc) as [_ Em].
  rewrite (get_constant_eq _ _ _ (proj1 (proj2 Hh y)) Hc), Em in *.
  intros [= <-]. left. exists x, po. split; [done|]. cbn. split; [done|]. split; [done|].
  unfold var_fits in Hf. rewrite !andb_true_iff in Hf. destruct Hf as [[[[Hf%fits_true _] _] _] _].
  unfold saturating_sub. rewrite saturate_fits by lia. lia.
Qed.

Lemma scalar_add_outcome s' x y lo hi : op_typed (OScalarAddPtr x y lo hi) ->
  dst_ok (OScalarAddPtr x y lo hi) = true ->
  keeps_id st (OScalarAddPtr x y lo hi) = true -> op_fits st (OScalarAddPtr x y lo hi) = true ->
  ptr_nowrap st (OScalarAddPtr x y lo hi) s -> exec (OScalarAddPtr x y lo hi) s s' ->
  outcome s' (OScalarAddPtr x y lo hi) (apply_scalar_add_ptr st n x y lo hi).1
    (apply_scalar_add_ptr st n x y lo hi).2.
Proof.
  cbn. intros [Hlo Hhi] Hd%negb_true_iff Hk Hf Hn [Hr Hx]. pose proof wf_length as Hl.
  pose proof (base_fixed _ Hd) as Hfx. unfold apply_scalar_add_ptr. rewrite Hfx.
  assert (Hlf : length (regs (forget st x)) = DBM_DIM)
    by (unfold forget; rewrite Hfx; cbn; by rewrite length_insert).
  destruct (get_ptr_offset st y) as [po|] eqn:Hp; cbn [fst snd].
  2: { eapply scalar_ptr; [exact Hx|intros; at_ptr; done|left; by at_ptr]. }
  unfold moved_ptr_fits in Hf. rewrite Hp in Hf. unfold var_fits in Hf.
  rewrite !andb_true_iff in Hf. destruct Hf as [[[[Hf%fits_true Hwd%fits_true] _] _] _].
  destruct (Z.leb_spec lo hi); [|lia].
  rewrite s64_small, u64_small by (typed_bounds; lia).
  apply orb_true_iff in Hk as [Hk%Z.eqb_eq|[Hk%bool_decide_eq_true Hlt%Z.ltb_lt]%andb_true_iff].
  - subst hi. replace (lo - lo) with 0 by lia. cbn [Z.ltb Z.compare].
    assert ((match id po with Some i => (Some i, n) | None => (None, n) end) = (id po, n)) as ->
      by (by destruct (id po)). cbn [fst snd].
    eapply dst_ptr; [exact Hx|intros; at_ptr; by rewrite ?decide_False|]. intros po'. at_ptr.
    intros [= <-]. rewrite (ptr_value y po) by (auto; by rewrite Hp).
    left. exists y, po. split; [done|]. cbn. split; [done|]. split; [done|].
    unfold saturating_add. rewrite saturate_fits by lia. lia.
  - rewrite Hk. rewrite (proj2 (Z.ltb_lt 0 (hi - lo))) by lia. cbn [new_ptr_id fst snd].
    eapply minted_ptr; [done|exact Hx|intros; at_ptr; by rewrite ?decide_False|].
    intros po'. at_ptr. by intros [= <-].
Qed.

Lemma ops_outcome s' op : op_typed op -> dst_ok op = true -> keeps_id st op = true ->
  op_fits st op = true -> ptr_nowrap st op s -> exec op s s' ->
  outcome s' op (run op st n).1 (run op st n).2.
Proof.
  intros Ht Hd Hk Hf Hn Hx. destruct op;
    try (by apply scalar_outcome); try (by apply base_outcome);
    try (by apply refine_outcome; [apply Hx|..]).
  - by apply reg_offset_outcome.
  - by apply add_imm_outcome.
  - by apply add_reg_outcome.
  - by apply scalar_add_outcome.
  - by apply sub_reg_outcome.
  - cbn in Hx. subst s'. apply anchors_outcome.
Qed.

End Derived.

Lemma exec_base op s s' a : dst_ok op = true -> exec op s s' -> base_reg a = true -> s' a = s a.
Proof.
  intros Hd Hx Ha. destruct op; cbn in Hd, Hx;
    try apply andb_true_iff in Hd as [Hd _]; try apply negb_true_iff in Hd;
    repeat match goal with
           | H : exists _, _ |- _ => destruct H
           | H : _ /\ _ |- _ => destruct H
           end; subst s'; rewrite ?vset_base; done.
Qed.

(** The families of the old state keep their origins. *)
Definition extends (n : Z) (B B' : origins) : Prop :=
  forall v po, id_below n po -> in_origin B v po -> in_origin B' v po.

Lemma op_family op st n B s s' :
  ivl_wf st -> ivl_holds st s -> in_u 32 n -> family st n B s ->
  op_typed op -> dst_ok op = true -> keeps_id st op = true -> op_fits st op = true ->
  ptr_nowrap st op s -> exec op s s' -> n <= (run op st n).2 ->
  in_u 32 (run op st n).2 /\
  exists B', extends n B B' /\ family (run op st n).1 (run op st n).2 B' s'.
Proof.
  intros Hw Hh Hn Hfam Ht Hd Hk Hf Hp Hx Hc.
  assert (Hb : forall a, base_reg a = true -> s' a = s a) by eauto using exec_base.
  destruct (ops_outcome st n s Hw Hh s' op Ht Hd Hk Hf Hp Hx) as [[-> Ho]|[E Ho]].
  - split; [done|]. exists B. split; [by intros ?|]. split.
    + intros a Ha. rewrite Hb by done. by apply Hfam.
    + intros x po Hpo. eapply derived_in; eauto.
  - rewrite E in *. assert (u32 (n + 1) = n + 1) as Ec.
    { unfold uwrap, in_u in *. destruct (Z.eq_dec (n + 1) (2 ^ 32)) as [Ew|].
      - rewrite Ew, Z.mod_same in Hc by lia. lia.
      - apply Z.mod_small. lia. }
    rewrite Ec. split; [pose proof (u32_in (n + 1)) as Hu; by rewrite Ec in Hu|].
    set (o := match op_dst op with
              | Some d => match get_ptr_offset (run op st n).1 d with
                          | Some po => s' d - off po | None => 0 end
              | None => 0 end).
    exists (add_origin B n o). split; [intros v po; apply in_origin_add|]. split.
    + intros a Ha. unfold add_origin. rewrite decide_False by done. rewrite Hb by done.
      by apply Hfam.
    + intros x po Hpo. destruct (Ho x po Hpo) as [[Hx1 Hid]|[_ Hder]].
      * split; [|intros i; rewrite Hid; intros [= <-]; lia].
        unfold in_origin, add_origin. rewrite decide_True by done.
        subst o. rewrite Hx1, Hpo. lia.
      * destruct (derived_in st n B s _ _ Hfam Hder) as [H1 H2].
        split; [by apply in_origin_add|]. intros i Hi. specialize (H2 i Hi). lia.
Qed.

End PacketFamily.
