(* ===== verification/PacketSound.v ===== *)
(** Accepted packet accesses lie inside the packet.

    A path of the verifier (numeric operations, spills, fills, comparisons of packet pointers with
    the end of their region) beside an execution: registers, the slots of the frames and the three
    packet anchors have values.  The invariant says that the state describes the execution, that
    pointers and spilled pointers of a family differ by their offsets only, and that a spilled
    pointer keeps what was proven of it. *)

From S2P Require Import Prelude Zone ZoneSound Interval IntervalSound IntervalOps IntervalProps.
From S2P Require Import Ast Numeric VState IntervalPacket PacketFamily.
From Stdlib Require Import ZArith Lia Bool.
From stdpp Require Import base numbers list gmap.
Open Scope Z_scope.

Module PacketSound.
Import Zone(Reg(..), Reg_eq_dec, DBM_DIM, i64_MAX, i64_MIN, saturating_add, saturating_sub, saturate).
Import ZoneSound(in_s64_iff, s64_small, u64_small).
Import Interval(PtrOffset, IntervalState, anchor, off, var_off, range, id, max_offset,
                get_ptr_offset).
Import IntervalSound IntervalOps PacketFamily.
Import Ast(CmpOp(..), Operand(..), Width(..), compare).
Import Numeric(NumericDomain(..)) VState IntervalPacket.

(** * What a comparison says *)

(** Addresses of one region are on one side of the sign. *)
Definition same_half (a b : Z) : Prop := 0 <= a <-> 0 <= b.

Definition one (strict : bool) : Z := if strict then 1 else 0.

(** The bound a proof stands for: [p] is the pointer, [e] the end. *)
Definition proof_holds (pr : Proof) (p e : Z) : Prop :=
  match pr with
  | Lower strict => p + one strict <= e
  | Upper true => e <= p
  | Upper false => e < p
  | NoProof => True
  end.

Lemma compare_signed op a b taken : in_s 64 a -> in_s 64 b -> same_half a b ->
  compare W64 op a b = taken ->
  match op with
  | ULe | SLe => (a <=? b) = taken
  | ULt | SLt => (a <? b) = taken
  | UGe | SGe => (b <=? a) = taken
  | UGt | SGt => (b <? a) = taken
  | _ => True
  end.
Proof.
  intros Ha Hb Hs. assert (u64 a <= u64 b <-> a <= b) as Hab.
  { unfold same_half in Hs. rewrite !u64_cases by done. typed_bounds. repeat case_bool; lia. }
  assert (u64 b <= u64 a <-> b <= a) as Hba.
  { unfold same_half in Hs. rewrite !u64_cases by done. typed_bounds. repeat case_bool; lia. }
  destruct op; cbn [compare]; rewrite ?s64_small by (by apply in_s64_iff);
    intros <-; try done; apply eq_true_iff_eq; rewrite ?Z.leb_le, ?Z.ltb_lt; lia.
Qed.

Lemma left_proof_holds op p e taken : in_s 64 p -> in_s 64 e -> same_half p e ->
  compare W64 op p e = taken -> proof_holds (left_proof op taken) p e.
Proof.
  intros Hp He Hs Hc. apply compare_signed in Hc; [|done..].
  destruct op, taken; cbn; try done;
    rewrite ?Z.leb_le, ?Z.ltb_lt, ?Z.leb_gt, ?Z.ltb_ge in Hc; lia.
Qed.

Lemma right_proof_holds op p e taken : in_s 64 p -> in_s 64 e -> same_half p e ->
  compare W64 op e p = taken -> proof_holds (right_proof op taken) p e.
Proof.
  intros Hp He Hs Hc. apply compare_signed in Hc; [|done..|unfold same_half in *; tauto].
  destruct op, taken; cbn; try done;
    rewrite ?Z.leb_le, ?Z.ltb_lt, ?Z.leb_gt, ?Z.ltb_ge in Hc; lia.
Qed.

(** * Refinement of the pointers *)

Definition same_base (p q : PtrOffset) : Prop :=
  anchor p = anchor q /\ off p = off q /\ var_off p = var_off q /\ id p = id q.

(** Only what was proven of the pointers changes. *)
Definition refines (st st' : IntervalState) : Prop :=
  forall x, option_Forall2 same_base (get_ptr_offset st x) (get_ptr_offset st' x).

#[export] Instance same_base_preorder : PreOrder same_base.
Proof.
  split; [by intros ?|]. intros p q r (?&?&?&?) (?&?&?&?). unfold same_base. split_and!; congruence.
Qed.

#[export] Instance refines_preorder : PreOrder refines.
Proof.
  split; [intros st x; destruct (get_ptr_offset st x); by constructor|].
  intros st1 st2 st3 H12 H23 x. specialize (H12 x). specialize (H23 x).
  destruct H12; inversion H23; constructor. by etrans.
Qed.

Lemma refines_ptr st st' x q : refines st st' -> get_ptr_offset st' x = Some q ->
  exists p, get_ptr_offset st x = Some p /\ same_base p q.
Proof. intros H E. specialize (H x). rewrite E in H. inversion H. eauto. Qed.

Lemma refines_ptr' st st' x p : refines st st' -> get_ptr_offset st x = Some p ->
  exists q, get_ptr_offset st' x = Some q /\ same_base p q.
Proof. intros H E. specialize (H x). rewrite E in H. inversion H. eauto. Qed.

(** Proven facts may be added to a pointer. *)
Lemma upd_ptr_refines st s x p q : ivl_wf st -> ivl_holds st s ->
  get_ptr_offset st x = Some p -> same_base p q -> po_typed q -> po_holds s x q ->
  let st' := Interval.upd_ptr st x (fun _ => Some q) in
  ivl_wf st' /\ ivl_holds st' s /\ refines st st'.
Proof.
  intros Hw Hh Hp Hb Ht Hq st'. subst st'. split_and!.
  - apply upd_ptr_wf; [done|]. by intros po [= <-].
  - destruct Hh as [Hs Hr]. split; [done|]. intros y. unfold Interval.upd_ptr.
    rewrite get_upd by apply Hw. case_decide; [subst y|apply Hr].
    split; [apply Hr|]. by intros po [= <-].
  - intros y. rewrite ptr_upd_ptr by apply Hw. case_decide; [subst y; rewrite Hp; by constructor|].
    destruct (get_ptr_offset st y); by constructor.
Qed.

(** A range that may be granted to a register. *)
Definition granted (st : IntervalState) (s : val) (a e : Reg) (u : Reg * Z) : Prop :=
  in_s 64 u.2 /\ s u.1 + u.2 <= s e /\
  exists p, get_ptr_offset st u.1 = Some p /\ anchor p = a.

Lemma granted_refines st st' s a e u : refines st st' -> granted st s a e u -> granted st' s a e u.
Proof.
  intros Hr (H1 & H2 & p & Hp & Ha). split_and!; [done..|].
  destruct (refines_ptr' st st' u.1 p Hr Hp) as (q & Hq & Hb). exists q. split; [done|].
  destruct Hb. congruence.
Qed.

Lemma apply_range_sound st s a e u : region_end a = Some e -> ivl_wf st -> ivl_holds st s ->
  granted st s a e u ->
  ivl_wf (apply_range st u) /\ ivl_holds (apply_range st u) s /\ refines st (apply_range st u).
Proof.
  intros He Hw Hh (Hi & Hr & p & Hp & Ha). unfold apply_range. rewrite Hp.
  case_match; [|split_and!; done].
  destruct (holds_ptr st s Hw Hh _ _ Hp) as [[]  []].
  eapply upd_ptr_refines; [done..| |constructor|constructor]; cbn; auto.
  - done.
  - by intros r' [= <-].
  - by rewrite Ha, He.
Qed.

Lemma apply_ranges_sound st s a e us : region_end a = Some e -> ivl_wf st -> ivl_holds st s ->
  Forall (granted st s a e) us ->
  ivl_wf (foldl apply_range st us) /\ ivl_holds (foldl apply_range st us) s /\
  refines st (foldl apply_range st us).
Proof.
  intros He. revert st. induction us as [|u us IH]; intros st Hw Hh Hg; [split_and!; done|].
  apply Forall_cons in Hg as [Hu Hg]. destruct (apply_range_sound st s a e u) as (Hw' & Hh' & Hr); [done..|].
  destruct (IH (apply_range st u)) as (? & ? & ?); [done..| |].
  { eapply Forall_impl; [exact Hg|]. intros. by eapply granted_refines. }
  split_and!; [done..|]. by etrans.
Qed.

(** * The invariant *)

(** The value stored at an offset of a frame, for the slots where a register was stored. *)
Definition mem : Type := nat -> Z -> Z.
Definition mset (m : mem) (f : nat) (k v : Z) : mem :=
  fun f' k' => if decide (f' = f /\ k' = k) then v else m f' k'.

(** The pointer a slot holds, as a fill restores it. *)
Definition slot_ptr (sp : SpilledReg) : option PtrOffset :=
  match anchor_of_type (reg_type sp), ptr_bounds sp with
  | Some a, Some (PBInterval (Some o) v r i) =>
      if region_type (reg_type sp) then Some (Interval.MkPO a o (default 0 v) r i None) else None
  | _, _ => None
  end.

(** [po_holds] of a value that is in no register. *)
Definition at_value (s : val) (v : Z) (po : PtrOffset) : Prop :=
  off po <= v - s (anchor po) <= max_offset po /\
  match range po, region_end (anchor po) with Some r, Some e => v + r <= s e | _, _ => True end.

(** In the interval domain a slot has no zone constraints. *)
Definition zone_free (sp : SpilledReg) : Prop :=
  match ptr_bounds sp with
  | Some (PBZone _ lo hi _ elo ehi) => lo = None /\ hi = None /\ elo = None /\ ehi = None
  | _ => True
  end.

Record slot_ok (n : Z) (B : origins) (s : val) (v : Z) (sp : SpilledReg) : Prop := {
  slot_value : in_s 64 v;
  slot_bounds : in_s 64 (bmin sp) /\ in_s 64 (bmax sp) /\ bmin sp <= v <= bmax sp;
  slot_zone : zone_free sp;
  slot_end : reg_type sp = PtrToPacketEnd -> v = s AnchorDataEnd;
  slot_pointer : forall po, slot_ptr sp = Some po ->
    po_typed po /\ at_value s v po /\ in_origin B v po /\ id_below n po }.

(** The types agree with the pointers and the values. *)
Definition types_ok (ts : TypeState) (st : IntervalState) (s : val) : Prop :=
  forall x, (type_get ts x = PtrToPacketEnd -> s x = s AnchorDataEnd) /\
    (region_type (type_get ts x) = true -> forall po, get_ptr_offset st x = Some po ->
       anchor_of_type (type_get ts x) = Some (anchor po)).

Record inv (st : State) (ivl : IntervalState) (n : Z) (B : origins) (s : val) (m : mem) : Prop := {
  inv_domain : domain st = DInterval ivl;
  inv_length : length (types st) = 11%nat;
  inv_wf : ivl_wf ivl;
  inv_holds : ivl_holds ivl s;
  inv_counter : in_u 32 n;
  inv_family : family ivl n B s;
  inv_types : types_ok (types st) ivl s;
  inv_slots : forall f fr k sp, frames st !! f = Some fr -> fr !! k = Some sp -> source_reg sp <> None ->
    slot_ok n B s (m f k) sp }.

Lemma types_refines ts st st' s : refines st st' -> types_ok ts st s -> types_ok ts st' s.
Proof.
  intros Hr Ht x. destruct (Ht x) as [H1 H2]. split; [done|]. intros Hx q Hq.
  destruct (refines_ptr st st' x q Hr Hq) as (p & Hp & Ha & _). rewrite <- Ha. auto.
Qed.

Lemma family_refines st st' n B s : refines st st' -> family st n B s -> family st' n B s.
Proof.
  intros Hr [Hb Hf]. split; [done|]. intros x q Hq.
  destruct (refines_ptr st st' x q Hr Hq) as (p & Hp & Ha & Ho & Hv & Hi).
  destruct (Hf x p Hp) as [H1 H2]. unfold in_origin, id_below in *.
  rewrite <- Ha, <- Ho, <- Hi. done.
Qed.

(** ** Propagation of a range *)

(** The kinds of the two regions. *)
Definition kind_of (is_kind : RegType -> bool) (a : Reg) : Prop :=
  forall t, is_kind t = true -> region_type t = true /\ anchor_of_type t = Some a.

Lemma is_packet_kind : kind_of is_packet AnchorData.
Proof. intros []; done. Qed.

Lemma is_packet_meta_kind : kind_of is_packet_meta AnchorDataMeta.
Proof. intros []; done. Qed.

Lemma sat_sub_grant p o : 0 <= saturating_sub p o -> saturating_sub p o <= p - o.
Proof. unfold saturating_sub, saturate. repeat case_bool; typed_bounds; lia. Qed.

Lemma in_family_eq i j : in_family i j = true -> i = j.
Proof. destruct i, j; cbn; try done. rewrite Z.eqb_eq. congruence. Qed.

Lemma propagate_source is_kind checked_id proven_size sp :
  source_reg (propagate_to_slot is_kind checked_id proven_size sp) = source_reg sp.
Proof. unfold propagate_to_slot. by repeat case_match. Qed.

Section Propagate.
Context (st : State) (ivl : IntervalState) (n : Z) (B : origins) (s : val) (m : mem).
Context (Hinv : inv st ivl n B s m).
Context (is_kind : RegType -> bool) (a e : Reg) (Hk : kind_of is_kind a) (He : region_end a = Some e).
(** The checked pointer, and the size proven from the origin of its family. *)
Context (c : Reg) (pc : PtrOffset) (Hc : get_ptr_offset ivl c = Some pc) (Hca : anchor pc = a).
Context (size : Z) (Hsize : s c - off pc + size <= s e).

Lemma family_size i : in_family (id pc) i = true -> B a i + size <= s e.
Proof.
  intros Hi%in_family_eq. destruct (fam_regs _ _ _ _ (inv_family _ _ _ _ _ _ Hinv) c pc Hc) as [Ho _].
  unfold in_origin in Ho. rewrite <- Hi, <- Hca. lia.
Qed.

Lemma updates_granted : Forall (granted ivl s a e) (range_updates st is_kind a (id pc) size).
Proof.
  apply Forall_forall. intros [x r] Hx. apply list_elem_of_omap in Hx as (y & _ & Hy).
  unfold state_ptr in Hy. rewrite (inv_domain _ _ _ _ _ _ Hinv) in Hy.
  destruct (is_kind _); [|done]. destruct (get_ptr_offset ivl y) as [p|] eqn:Hp; [|done].
  case_decide as Ha; [|done]. destruct (in_family (id pc) (id p)) eqn:Hi; [|done].
  destruct (Z.leb_spec 0 (saturating_sub size (off p))) as [Hr|]; [|done]. injection Hy as <- <-.
  pose proof (family_size _ Hi) as Hs. pose proof (sat_sub_grant _ _ Hr).
  destruct (fam_regs _ _ _ _ (inv_family _ _ _ _ _ _ Hinv) y p Hp) as [Ho _].
  unfold in_origin in Ho. rewrite Ha in Ho.
  split_and!; cbn; [apply saturate_in|lia|]. by exists p.
Qed.

Lemma slot_propagated v sp : slot_ok n B s v sp ->
  slot_ok n B s v (propagate_to_slot is_kind (id pc) size sp).
Proof.
  intros Hs. unfold propagate_to_slot. destruct (is_kind (reg_type sp)) eqn:Ek; [|done].
  destruct (ptr_bounds sp) as [[|[o|] v' r i]|] eqn:Ep; try done.
  destruct (in_family (id pc) i) eqn:Hi; [|done]. destruct Hs as [H1 H2 _ H3 H4].
  destruct (Hk _ Ek) as [Hreg Ha].
  assert (slot_ptr sp = Some (Interval.MkPO a o (default 0 v') r i None)) as Hsp
    by (unfold slot_ptr; by rewrite Ha, Ep, Hreg).
  destruct (H4 _ Hsp) as (Ht & [Hd Hr] & Ho & Hb). split; cbn; auto.
  intros po. unfold slot_ptr. cbn. rewrite Ha, Hreg. intros [= <-].
  assert (Hw : forall r', widen_range r (saturating_sub size o) = Some r' ->
                in_s 64 r' /\ v + r' <= s e).
  { intros r'. unfold widen_range. destruct (_ && _) eqn:Ew.
    - apply andb_true_iff in Ew as [Ew%Z.leb_le _]. intros [= <-]. split; [apply saturate_in|].
      pose proof (family_size _ Hi). pose proof (sat_sub_grant _ _ Ew).
      unfold in_origin in Ho. cbn in Ho. lia.
    - intros ->. cbn in Hr. rewrite He in Hr. split; [|done]. by apply (typed_range _ Ht). }
  refine (conj _ (conj (conj Hd _) (conj Ho Hb))).
  - destruct Ht; constructor; cbn in *; auto. intros. by apply Hw.
  - cbn. rewrite He. destruct (widen_range r _) eqn:Ew; [|done]. by apply Hw.
Qed.

Lemma propagate_sound : exists ivl', inv (propagate st is_kind a c size) ivl' n B s m.
Proof.
  destruct Hinv as [Hd Hl Hw Hh Hn Hf Ht Hs]. unfold propagate. rewrite Hd, Hc. cbn [mbind option_bind].
  pose proof updates_granted as Hg.
  destruct (apply_ranges_sound ivl s a e _ He Hw Hh Hg) as (Hw' & Hh' & Hr).
  eexists. split; cbn [propagate_to_all_frames with_domain with_frames domain types frames];
    [reflexivity|done|done|done|done|by eapply family_refines|by eapply types_refines|].
  intros f fr k sp Hfr Hk' Hsrc. apply list_lookup_fmap_Some in Hfr as (fr0 & -> & Hf0).
  apply lookup_fmap_Some in Hk' as (sp0 & <- & Hk0). rewrite propagate_source in Hsrc.
  apply slot_propagated. by eapply Hs.
Qed.
End Propagate.

(** ** The refinements of a branch *)

Lemma region_operands_spec info is_end l r i on_left c :
  region_operands info is_end l r = Some (i, on_left, c) ->
  info c = Some i /\
  (on_left = true /\ c = l /\ is_end r = true \/ on_left = false /\ c = r /\ is_end l = true).
Proof.
  unfold region_operands. destruct (info l) eqn:El; [|destruct (info r) eqn:Er; [|done]].
  all: case_match; [|done]; intros [= <- <- <-]; auto 6.
Qed.

Lemma comparison_spec st ivl a r i : domain st = DInterval ivl ->
  comparison_from a (state_ptr st r) = Some i ->
  exists p, get_ptr_offset ivl r = Some p /\ anchor p = a /\ offset i = off p.
Proof.
  intros Hd. unfold comparison_from, state_ptr. rewrite Hd.
  destruct (get_ptr_offset ivl r) as [p|]; [|done]. case_decide; [|done].
  intros [= <-]. by exists p.
Qed.

Lemma map_ivl_same st ivl f : domain st = DInterval ivl -> f ivl = ivl -> map_ivl st f = st.
Proof. intros Hd Hf. unfold map_ivl. rewrite Hd, Hf. destruct st. cbn in *. by subst. Qed.

Lemma bump_le strict o : in_s 64 o -> bump strict o <= o + one strict.
Proof.
  intros. destruct strict; cbn; [|lia]. unfold saturating_add, saturate. repeat case_bool; typed_bounds; lia.
Qed.

Section Branch.
Context (st : State) (ivl : IntervalState) (n : Z) (B : origins) (s : val) (m : mem).
Context (Hinv : inv st ivl n B s m).
Context (left right : Reg) (op : CmpOp) (taken : bool).
Context (Hcmp : compare W64 op (s left) (s right) = taken) (Hhalf : same_half (s left) (s right)).

(** What the comparison proves of the pointer [c] and the register [x] at the end. *)
Lemma side_proof on_left c x :
  on_left = true /\ c = left /\ x = right \/ on_left = false /\ c = right /\ x = left ->
  proof_holds (if on_left : bool then left_proof op taken else right_proof op taken) (s c) (s x).
Proof.
  assert (forall y, in_s 64 (s y)) by (intros; apply (inv_holds _ _ _ _ _ _ Hinv)).
  intros [(-> & -> & ->)|(-> & -> & ->)].
  - by apply left_proof_holds.
  - apply right_proof_holds; auto. unfold same_half in *. tauto.
Qed.

Lemma end_value r : is_packet_end st r = true -> s r = s AnchorDataEnd.
Proof.
  intros He. destruct (inv_types _ _ _ _ _ _ Hinv r) as [H _]. apply H.
  unfold is_packet_end in He. by destruct (type_get _ r).
Qed.

Lemma refine_data_sound :
  exists ivl', inv (refine_data_region_bounds st left right op taken) ivl' n B s m.
Proof.
  unfold refine_data_region_bounds.
  destruct (region_operands _ _ _ _) as [[[i on_left] c]|] eqn:Eo; [|eauto].
  apply region_operands_spec in Eo as [Hi Hside]. unfold get_packet_data_offset in Hi.
  destruct (is_packet _); [|done].
  destruct (comparison_spec st ivl _ c i (inv_domain _ _ _ _ _ _ Hinv) Hi) as (p & Hp & Ha & Ho).
  assert (exists x, s x = s AnchorDataEnd /\ (on_left = true /\ c = left /\ x = right \/
            on_left = false /\ c = right /\ x = left)) as (x & Hx & Hs).
  { destruct Hside as [(-> & -> & He%end_value)|(-> & -> & He%end_value)]; eauto 6. }
  apply side_proof in Hs. rewrite Hx in Hs. rewrite Ho.
  pose proof (wf_ptr ivl c p (inv_wf _ _ _ _ _ _ Hinv) Hp) as Htp.
  assert (Hsame : forall f, f ivl = ivl -> map_ivl st f = st)
    by (intros; eapply map_ivl_same; [apply Hinv|done]).
  destruct (if on_left then _ else _) as [strict|strict|]; cbn [proof_holds] in Hs; [| |eauto].
  - rewrite Hsame by (unfold raise_bound; by case_match).
    rewrite (Tauto.if_same (is_fixed i && _)). case_match; [|eauto].
    eapply propagate_sound; [done|apply is_packet_kind|reflexivity|exact Hp|done|].
    pose proof (bump_le strict (off p) (typed_off _ Htp)). lia.
  - rewrite Hsame, (Tauto.if_same (is_fixed i && _)) by done.
    unfold map_ivl, mark_pkt_end. rewrite (inv_domain _ _ _ _ _ _ Hinv), Hp.
    destruct Hinv as [_ Hl Hw Hh Hn Hf Ht Hsl]. destruct (holds_ptr ivl s Hw Hh _ _ Hp) as [[] []].
    edestruct (upd_ptr_refines ivl s c p (Interval.MkPO (anchor p) (off p) (var_off p) (range p) (id p)
      (Some (if strict then Interval.At else Interval.Beyond)))) as (? & ? & ?); try done.
    { constructor; cbn; try done. unfold end_rel_holds. cbn. by destruct strict. }
    eexists. split; [reflexivity|cbn; try done..]; [by eapply family_refines|by eapply types_refines].
Qed.

Lemma data_value r : is_packet_data st r = true -> s r = s AnchorData.
Proof.
  unfold is_packet_data, state_ptr. rewrite (inv_domain _ _ _ _ _ _ Hinv), andb_true_iff.
  destruct (get_ptr_offset ivl r) as [p|] eqn:Hp; [|by intros []].
  rewrite !andb_true_iff. intros [_ [[Ha%bool_decide_eq_true Ho%Z.eqb_eq] Hv%Z.eqb_eq]].
  destruct (holds_ptr ivl s (inv_wf _ _ _ _ _ _ Hinv) (inv_holds _ _ _ _ _ _ Hinv) _ _ Hp) as [_ [Hd _ _]].
  unfold max_offset in Hd. rewrite Ha, Ho, Hv in Hd. change (saturating_add 0 (s64 0)) with 0 in Hd. lia.
Qed.

Lemma refine_meta_sound :
  exists ivl', inv (refine_meta_region_bounds st left right op taken) ivl' n B s m.
Proof.
  unfold refine_meta_region_bounds.
  destruct (region_operands _ _ _ _) as [[[i on_left] c]|] eqn:Eo; [|eauto].
  apply region_operands_spec in Eo as [Hi Hside]. unfold get_packet_meta_offset in Hi.
  destruct (is_packet_meta _); [|done].
  destruct (comparison_spec st ivl _ c i (inv_domain _ _ _ _ _ _ Hinv) Hi) as (p & Hp & Ha & Ho).
  assert (exists x, s x = s AnchorData /\ (on_left = true /\ c = left /\ x = right \/
            on_left = false /\ c = right /\ x = left)) as (x & Hx & Hs).
  { destruct Hside as [(-> & -> & He%data_value)|(-> & -> & He%data_value)]; eauto 6. }
  apply side_proof in Hs. rewrite Hx in Hs. rewrite Ho.
  pose proof (wf_ptr ivl c p (inv_wf _ _ _ _ _ _ Hinv) Hp) as Htp.
  assert (Hsame : forall f, f ivl = ivl -> map_ivl st f = st)
    by (intros; eapply map_ivl_same; [apply Hinv|done]).
  destruct (if on_left then _ else _) as [strict|strict|]; cbn [proof_holds] in Hs; [| |eauto].
  - rewrite Hsame by (unfold raise_bound; by case_match). case_match; [|eauto].
    eapply propagate_sound; [done|apply is_packet_meta_kind|reflexivity|exact Hp|done|].
    pose proof (bump_le strict (off p) (typed_off _ Htp)). lia.
  - rewrite Hsame, (Tauto.if_same (0 <? _)) by done. eauto.
Qed.

End Branch.

Lemma refine_sound st ivl n B s m l r op taken : inv st ivl n B s m ->
  compare W64 op (s l) (s r) = taken -> same_half (s l) (s r) ->
  exists ivl', inv (refine_packet_bounds st l r op taken) ivl' n B s m.
Proof.
  intros Hinv Hc Hh. unfold refine_packet_bounds. case_match; [|eauto].
  destruct (refine_data_sound st ivl n B s m Hinv l r op taken Hc Hh) as [ivl1 H1].
  by eapply refine_meta_sound.
Qed.

(** A verdict is right. *)
Lemma verdict_sound op rel p e b : in_s 64 p -> in_s 64 e -> same_half p e ->
  match rel with Interval.At => e <= p | Interval.Beyond => e < p end ->
  verdict op rel = Some b -> compare W64 op p e = b.
Proof.
  intros Hp He Hs Hr Hv.
  pose proof (compare_signed op p e _ Hp He Hs eq_refl) as Hc.
  destruct op; try done; destruct rel; cbn in Hv; try done; injection Hv as <-;
    rewrite <- Hc; apply eq_true_iff_eq; rewrite ?Z.leb_le, ?Z.ltb_lt; split; (done || lia).
Qed.

Lemma flip_compare op a b : compare W64 op a b = compare W64 (flip_cmp_op op) b a.
Proof.
  destruct op; cbn; try done; [by rewrite Z.eqb_sym|by rewrite Z.eqb_sym|by rewrite Z.land_comm].
Qed.

Lemma branch_taken_sound st ivl n B s m l op r b : inv st ivl n B s m ->
  same_half (s l) (s r) -> pkt_ptr_branch_taken st l op (OReg r) = Some b ->
  compare W64 op (s l) (s r) = b.
Proof.
  intros Hinv Hh. pose proof (inv_holds _ _ _ _ _ _ Hinv) as Hiv.
  assert (Hin : forall y, in_s 64 (s y)) by (intros; apply Hiv).
  assert (Hgen : forall x y op' b', same_half (s x) (s y) -> is_packet_end_type (type_get (types st) y) = true ->
    (state_ptr st x ≫= Interval.pkt_end_rel) ≫= verdict op' = Some b' ->
    compare W64 op' (s x) (s y) = b').
  { intros x y op' b' Hs Hy. unfold state_ptr. rewrite (inv_domain _ _ _ _ _ _ Hinv).
    destruct (get_ptr_offset ivl x) as [p|] eqn:Hp; [|done]. cbn.
    destruct (Interval.pkt_end_rel p) as [rel|] eqn:Hrel; [|done]. cbn. apply verdict_sound; auto.
    destruct (holds_ptr ivl s (inv_wf _ _ _ _ _ _ Hinv) Hiv _ _ Hp) as [_ [_ _ Hend]].
    unfold end_rel_holds in Hend. rewrite Hrel in Hend.
    rewrite (end_value st ivl n B s m Hinv y) by done. done. }
  unfold pkt_ptr_branch_taken. repeat case_match; try done; simplify_eq;
    repeat match goal with H : _ && _ = true |- _ => apply andb_true_iff in H as [? ?] end.
  - intros. by apply Hgen.
  - intros. rewrite flip_compare. apply Hgen; auto. unfold same_half in *. tauto.
Qed.

End PacketSound.
