(* ===== verification/PacketPath.v ===== *)
(** Paths of the verifier beside executions, with packet bounds: operations of the interval domain,
    spills, fills and comparisons with the end of a region keep the invariant of [PacketSound], so
    that every access the checks accept is inside the packet. *)

From S2P Require Import Prelude Zone ZoneSound Interval IntervalSound IntervalOps IntervalProps.
From S2P Require Import Ast Numeric VState IntervalPacket PacketFamily PacketSound.
From Stdlib Require Import ZArith Lia Bool.
From stdpp Require Import base numbers list gmap.
Open Scope Z_scope.

Module PacketPath.
Import Zone(Reg(..), Reg_eq_dec, DBM_DIM, i64_MAX, i64_MIN).
Import ZoneSound(in_s64_iff).
Import Interval(PtrOffset, IntervalState, anchor, off, var_off, range, id, max_offset,
                get_ptr_offset).
Import IntervalSound IntervalOps PacketFamily.
Import Ast(CmpOp(..), Operand(..), Width(..), compare).
Import Numeric(NumericDomain(..)) VState IntervalPacket PacketSound.
#[local] Existing Instance Zone.Reg_eq_dec.

(** * Slots *)

Lemma region_end_base a e : region_end a = Some e -> base_reg e = true.
Proof. destruct a; cbn; by intros [= <-]. Qed.

Lemma slot_ptr_shape sp po : slot_ptr sp = Some po ->
  Interval.pkt_end_rel po = None /\ anchor_of_type (reg_type sp) = Some (anchor po).
Proof.
  unfold slot_ptr. destruct (anchor_of_type (reg_type sp)); [|done].
  destruct (ptr_bounds sp) as [[|[o|]]|]; try done. destruct (region_type _); [|done].
  by intros [= <-].
Qed.

Lemma slot_ok_mono n n' B B' s s' v sp : n <= n' -> extends n B B' ->
  (forall a, base_reg a = true -> s' a = s a) -> slot_ok n B s v sp -> slot_ok n' B' s' v sp.
Proof.
  intros Hn He Hs [H1 H2 H3 H4 H5]. split; auto.
  - intros E. rewrite Hs by done. auto.
  - intros po Hpo. destruct (H5 po Hpo) as (Ht & [Hd Hr] & Ho & Hb).
    refine (conj Ht (conj (conj _ _) (conj _ _))).
    + rewrite Hs by apply Ht. done.
    + destruct (range po); [|done]. destruct (region_end (anchor po)) as [e|] eqn:E; [|done].
      rewrite Hs by eauto using region_end_base. done.
    + by apply He.
    + intros i Hi. specialize (Hb i Hi). lia.
Qed.

Lemma extends_refl n B : extends n B B.
Proof. by intros ?. Qed.

Section Slots.
Context (st : State) (ivl : IntervalState) (n : Z) (B : origins) (s : val) (m : mem).
Context (Hinv : inv st ivl n B s m).

Lemma zone_free_spill r : zone_free (spill st r).
Proof.
  unfold zone_free, spill. destruct (Numeric.get_interval _ _). cbn [ptr_bounds].
  unfold spill_bounds, save_interval_ptr_offset, save_anchor_info, save_secondary_anchor_info,
    save_relation. rewrite (inv_domain _ _ _ _ _ _ Hinv).
  destruct (get_ptr_offset ivl r); [done|]. by destruct (type_get (types st) r).
Qed.

Lemma spilled_ptr r po' : slot_ptr (spill st r) = Some po' ->
  exists po, get_ptr_offset ivl r = Some po /\ po' = forget_end_rel po.
Proof.
  unfold slot_ptr, spill. destruct (Numeric.get_interval _ _). cbn [ptr_bounds reg_type].
  unfold spill_bounds, save_interval_ptr_offset. rewrite (inv_domain _ _ _ _ _ _ Hinv).
  destruct (get_ptr_offset ivl r) as [po|] eqn:Hp.
  - destruct (region_type _) eqn:Ht.
    + rewrite (proj2 (inv_types _ _ _ _ _ _ Hinv r) Ht po Hp). intros [= <-]. by exists po.
    + by case_match.
  - unfold save_anchor_info, save_secondary_anchor_info, save_relation.
    by destruct (type_get (types st) r).
Qed.

Lemma spill_ok r : slot_ok n B s (s r) (spill st r).
Proof.
  pose proof (inv_wf _ _ _ _ _ _ Hinv) as Hw. pose proof (inv_holds _ _ _ _ _ _ Hinv) as Hh.
  split; [apply Hh| |apply zone_free_spill| |].
  - unfold spill. rewrite (inv_domain _ _ _ _ _ _ Hinv). cbn.
    destruct (bounds_typed ivl Hw r), (bounds_hold ivl s Hh r). done.
  - unfold spill. destruct (Numeric.get_interval _ _). cbn. apply (inv_types _ _ _ _ _ _ Hinv r).
  - intros po' (po & Hp & ->)%spilled_ptr.
    destruct (holds_ptr ivl s Hw Hh _ _ Hp) as [[] [Hd Hr _]].
    destruct (fam_regs _ _ _ _ (inv_family _ _ _ _ _ _ Hinv) r po Hp) as [Ho Hb].
    refine (conj _ (conj (conj Hd Hr) (conj Ho Hb))). by constructor.
Qed.

Lemma spill_inv f k r : inv (spill_at st f r k) ivl n B s (mset m f k (s r)).
Proof.
  pose proof Hinv as [Hd Hl Hw Hh Hn Hfam Ht Hs]. split; cbn; auto.
  intros f' fr' k' sp Hf' Hk' Hsrc. unfold mset. destruct (decide (f' = f)) as [->|Hne].
  - rewrite list_lookup_alter_eq in Hf'. apply fmap_Some in Hf' as (fr & Hfr & ->).
    rewrite store_lookup in Hk'. case_decide as Hk; [subst k'; injection Hk' as <-|].
    + rewrite decide_True by done. apply spill_ok.
    + rewrite decide_False by naive_solver. case_decide; [by injection Hk' as <-|by eapply Hs].
  - rewrite list_lookup_alter_ne in Hf' by done. rewrite decide_False by naive_solver. by eapply Hs.
Qed.

(** ** Fills *)

Definition is_map_value (t : RegType) : bool :=
  match t with PtrToMapValue _ _ _ _ _ | PtrToMapValueOrNull _ _ _ => true | _ => false end.

(** The bounds of the slot do not cross zero, or are those of any value. *)
Definition exact_interval (sp : SpilledReg) : bool :=
  (bmax sp <? 0) || (0 <=? bmin sp) || ((bmin sp =? i64_MIN) && (bmax sp =? i64_MAX)).

Definition filled (x : Reg) (sp : SpilledReg) : IntervalState :=
  let ivl1 := Interval.assign_interval ivl x (bmin sp) (bmax sp) in
  match slot_ptr sp with
  | Some po => Interval.upd_ptr ivl1 x (fun _ => Some po)
  | None => ivl1
  end.

Lemma fill_domain x sp : is_map_value (reg_type sp) = false -> zone_free sp ->
  fill st x sp = MkState (pc st) (type_set (types st) x (reg_type sp)) (DInterval (filled x sp)) (frames st).
Proof.
  intros Hm Hz. unfold fill. set (st1 := MkState _ _ _ _).
  assert (Hd : domain st1 = DInterval (Interval.assign_interval ivl x (bmin sp) (bmax sp)))
    by (subst st1; cbn [domain]; rewrite (inv_domain _ _ _ _ _ _ Hinv); cbn; by rewrite assign_forgotten).
  unfold filled. destruct (slot_ptr sp) as [po|] eqn:Hs.
  - unfold slot_ptr in Hs. destruct (anchor_of_type (reg_type sp)) as [a|] eqn:Ha; [|done].
    destruct (ptr_bounds sp) as [[|[o|] v r i]|] eqn:Hp; try done.
    destruct (region_type (reg_type sp)) eqn:Ht; [|done].
    erewrite restore_region; [|done..]. by injection Hs as <-.
  - unfold restore_anchor_info. rewrite Hd.
    assert (match reg_type sp with
            | PtrToMapValue _ _ _ _ _ | PtrToMapValueOrNull _ _ _ =>
                Numeric.init_map_value_ptr (DInterval (Interval.assign_interval ivl x (bmin sp) (bmax sp))) x
            | _ => DInterval (Interval.assign_interval ivl x (bmin sp) (bmax sp)) end
            = DInterval (Interval.assign_interval ivl x (bmin sp) (bmax sp))) as ->
      by (by destruct (reg_type sp)).
    unfold zone_free, slot_ptr in *.
    destruct (ptr_bounds sp) as [[a lo hi ea elo ehi|o v r i]|]; [|destruct o|]; try done.
    + destruct Hz as (-> & -> & -> & ->). by destruct a, ea.
    + by destruct (reg_type sp).
    + by destruct (anchor_of_type _).
Qed.

Lemma assign_interval_holds x sp v : base_reg x = false -> exact_interval sp = true ->
  slot_ok n B s v sp ->
  ivl_holds (Interval.assign_interval ivl x (bmin sp) (bmax sp)) (vset s x v).
Proof.
  intros Hx He Hs. pose proof (inv_wf _ _ _ _ _ _ Hinv). pose proof (inv_holds _ _ _ _ _ _ Hinv).
  destruct (slot_bounds _ _ _ _ _ Hs) as (? & ? & ?). unfold exact_interval in He.
  apply orb_true_iff in He as [He|[Hlo%Z.eqb_eq Hhi%Z.eqb_eq]%andb_true_iff].
  - by apply interval_sound.
  - unfold Interval.assign_interval. rewrite base_fixed by done. rewrite Hlo, Hhi.
    assert (Interval.forget_32_then_sync (Interval.bounds64 i64_MIN i64_MAX
      (if 0 <=? i64_MIN then u64 i64_MIN else 0) (if 0 <=? i64_MAX then u64 i64_MAX else Zone.u64_MAX))
      = Interval.unknown) as -> by (vm_compute; reflexivity).
    apply assign_scalar; auto; [apply Hs|]. apply unknown_holds, Hs.
Qed.

Lemma filled_get x sp y : base_reg x = false ->
  Interval.get (filled x sp) y =
  if decide (y = x)
  then Interval.MkRI (Interval.get_bounds (Interval.assign_interval ivl x (bmin sp) (bmax sp)) x)
         (slot_ptr sp)
  else Interval.get ivl y.
Proof.
  intros Hx. pose proof (inv_wf _ _ _ _ _ _ Hinv) as [Hl _]. pose proof (base_fixed _ Hx) as Hf.
  assert (Hz : x <> Zero) by (by intros ->).
  unfold filled, Interval.get_bounds, Interval.assign_interval, Interval.set.
  rewrite Hf, !decide_False by done. generalize (Interval.forget_32_then_sync
    (Interval.bounds64 (bmin sp) (bmax sp) (if 0 <=? bmin sp then u64 (bmin sp) else 0)
       (if 0 <=? bmax sp then u64 (bmax sp) else Zone.u64_MAX))) as b. intros b.
  rewrite (get_insert ivl x _ x), (@decide_True _ (x = x)) by done.
  destruct (slot_ptr sp) as [po|]; unfold Interval.upd_ptr.
  - rewrite get_upd by (cbn; by rewrite length_insert). rewrite !get_insert, (@decide_True _ (x = x)) by done.
    by case_decide.
  - rewrite get_insert by done. by case_decide.
Qed.

Lemma filled_wf x sp v : base_reg x = false -> slot_ok n B s v sp -> ivl_wf (filled x sp).
Proof.
  intros Hx Hs. destruct (slot_bounds _ _ _ _ _ Hs) as (? & ? & _).
  assert (ivl_wf (Interval.assign_interval ivl x (bmin sp) (bmax sp))) as Hw.
  { by apply (ops_wf (OAssignInterval x (bmin sp) (bmax sp)) ivl 0), Hinv. }
  unfold filled. destruct (slot_ptr sp) as [po|] eqn:Hp; [|done].
  apply upd_ptr_wf; [done|]. intros po' [= <-]. by apply (slot_pointer _ _ _ _ _ Hs).
Qed.

Lemma fill_inv f fr k x sp : frames st !! f = Some fr -> fr !! k = Some sp -> source_reg sp <> None ->
  base_reg x = false -> is_map_value (reg_type sp) = false -> exact_interval sp = true ->
  exists ivl', inv (fill st x sp) ivl' n B (vset s x (m f k)) m.
Proof.
  intros Hf Hk Hsrc Hx Hm He. pose proof (inv_slots _ _ _ _ _ _ Hinv f fr k sp Hf Hk Hsrc) as Hs.
  pose proof (assign_interval_holds x sp _ Hx He Hs) as Ha.
  rewrite fill_domain by (done || apply Hs). exists (filled x sp).
  pose proof Hinv as [Hd Hl Hw Hh Hn [Hfb Hfr] Ht Hsl].
  assert (Hpt : forall y, get_ptr_offset (filled x sp) y =
                  if decide (y = x) then slot_ptr sp else get_ptr_offset ivl y)
    by (intros y; unfold get_ptr_offset; rewrite filled_get by done; by case_decide).
  split; cbn [domain types frames]; auto.
  - by rewrite type_set_length.
  - by eapply filled_wf.
  - eapply (holds_assign ivl s Hw Hh x _ _ (filled x sp) Hx (slot_value _ _ _ _ _ Hs));
      [|by intros y; apply filled_get].
    split; [apply Ha|]. intros po Hpo. destruct (slot_pointer _ _ _ _ _ Hs po Hpo) as (Htp & [Hd' Hr] & _).
    constructor; unfold range_holds, end_rel_holds; rewrite ?vset_eq.
    + rewrite vset_base by (done || apply Htp). done.
    + destruct (range po); [|done]. destruct (region_end (anchor po)) as [e|] eqn:E; [|done].
      rewrite vset_base by eauto using region_end_base. done.
    + by rewrite (proj1 (slot_ptr_shape _ _ Hpo)).
  - split; [intros a Hba; rewrite vset_base by done; by apply Hfb|].
    intros y po. rewrite Hpt. case_decide; [subst y; rewrite vset_eq|rewrite vset_ne by done; apply Hfr].
    intros Hpo. by destruct (slot_pointer _ _ _ _ _ Hs po Hpo) as (_ & _ & ? & ?).
  - intros y. rewrite type_get_set, Hpt by done. rewrite (vset_base _ _ _ AnchorDataEnd) by done.
    destruct (decide (y = x)) as [->|Hne].
    + rewrite decide_True by (by destruct x). rewrite vset_eq. split; [apply Hs|].
      intros _ po Hpo. apply (slot_ptr_shape _ _ Hpo).
    + rewrite decide_False by tauto. rewrite vset_ne by done. apply Ht.
  - intros f' fr' k' sp' Hf' Hk' Hsrc'. eapply slot_ok_mono; [reflexivity|apply extends_refl| |by eapply Hsl].
    intros. by apply vset_base.
Qed.

End Slots.

(** * Paths *)

(** One step of the verifier beside one step of an execution: an operation of the interval domain
    (the types after it are those of the type transfer, which must agree with the values), a spill,
    a fill, or a comparison of two registers whose values are on one side of the sign. *)
Inductive step : State -> Z -> val -> mem -> State -> Z -> val -> mem -> Prop :=
| step_op op ts' st ivl n s s' m :
    domain st = DInterval ivl -> op_typed op -> dst_ok op = true -> keeps_id ivl op = true ->
    op_fits ivl op = true -> ptr_nowrap ivl op s -> exec op s s' -> n <= (run op ivl n).2 ->
    length ts' = 11%nat -> types_ok ts' (run op ivl n).1 s' ->
    step st n s m (MkState (pc st) ts' (DInterval (run op ivl n).1) (frames st)) (run op ivl n).2 s' m
| step_spill f k r st n s m : k mod 8 = 0 ->
    step st n s m (spill_at st f r k) n s (mset m f k (s r))
| step_fill f fr k x sp st st' n s m : k mod 8 = 0 ->
    frames st !! f = Some fr -> fr !! k = Some sp -> base_reg x = false ->
    is_map_value (reg_type sp) = false -> exact_interval sp = true ->
    fill_at st f x k = Filled st' ->
    step st n s m st' n (vset s x (m f k)) m
| step_branch l r op taken st n s m :
    compare W64 op (s l) (s r) = taken -> same_half (s l) (s r) ->
    step st n s m (refine_packet_bounds st l r op taken) n s m.

Inductive steps : State -> Z -> val -> mem -> State -> Z -> val -> mem -> Prop :=
| steps_refl st n s m : steps st n s m st n s m
| steps_cons st n s m st1 n1 s1 m1 st' n' s' m' :
    step st n s m st1 n1 s1 m1 -> steps st1 n1 s1 m1 st' n' s' m' -> steps st n s m st' n' s' m'.

Definition inv_ex (st : State) (n : Z) (s : val) (m : mem) : Prop :=
  exists ivl B, inv st ivl n B s m.

Lemma fill_at_whole st f x k st' fr sp : frames st !! f = Some fr -> fr !! k = Some sp ->
  fill_at st f x k = Filled st' -> st' = fill st x sp /\ source_reg sp <> None.
Proof.
  intros Hf Hk. unfold fill_at. rewrite Hf. cbn [from_option Datatypes.id]. case_match; [done|]. rewrite Hk.
  destruct (source_reg sp), (slot_size sp); try done. by intros [= <-].
Qed.

Lemma step_inv st n s m st' n' s' m' : step st n s m st' n' s' m' -> inv_ex st n s m ->
  inv_ex st' n' s' m'.
Proof.
  intros Hstep (ivl & B & Hinv). destruct Hstep.
  - pose proof Hinv as [Hd Hl Hw Hh Hn Hf Ht Hs]. rewrite H in Hd. injection Hd as ->.
    destruct (op_family op ivl n B s s') as (Hn' & B' & He & Hf'); [done..|].
    exists (run op ivl n).1, B'. split; cbn [domain types frames]; auto.
    + by apply ops_wf.
    + by apply (op_sound op ivl n s s').
    + intros f fr k sp Hfr Hk Hsrc. eapply slot_ok_mono; [done|done| |by eapply Hs].
      intros. by eapply exec_base.
  - exists ivl, B. by apply spill_inv.
  - destruct (fill_at_whole st f x k st' fr sp) as [-> Hsrc]; [done..|].
    destruct (fill_inv st ivl n B s m Hinv f fr k x sp) as [ivl' ?]; [done..|]. by exists ivl', B.
  - destruct (refine_sound st ivl n B s m l r op taken Hinv) as [ivl' ?]; [done..|]. by exists ivl', B.
Qed.

Lemma steps_inv st n s m st' n' s' m' : steps st n s m st' n' s' m' -> inv_ex st n s m ->
  inv_ex st' n' s' m'.
Proof. induction 1; eauto using step_inv. Qed.

(** The state at the entry of a program. *)
Record initial (st : State) (s : val) : Prop := {
  init_domain : domain st = Numeric.new_interval;
  init_length : length (types st) = 11%nat;
  init_types : types_ok (types st) Interval.new s;
  init_frames : Forall (fun fr => fr = ∅) (frames st);
  init_val : val_ok s }.

Lemma new_ptr x po : get_ptr_offset Interval.new x = Some po ->
  po = Interval.at_anchor x /\ base_reg x = true.
Proof. destruct x; cbn; intros [= <-]; done. Qed.

Lemma initial_inv st s m : initial st s -> inv_ex st 1 s m.
Proof.
  intros [Hd Hl Ht Hf Hv]. exists Interval.new, (fun a _ => s a).
  split; auto using IntervalProps.new_wf, IntervalProps.new_holds.
  - unfold in_u. lia.
  - split; [done|]. intros x po [-> Hx]%new_ptr. split; [|by intros i]. unfold in_origin. cbn. lia.
  - intros f fr k sp Hfr Hk _. rewrite Forall_lookup in Hf. rewrite (Hf f fr Hfr) in Hk. done.
Qed.

(** No error so far, and errors count. *)
Definition quiet (env : VerifierEnv) : Prop := error env = None /\ replay_mode env = false.

Lemma fail_noisy env e : quiet env -> error (fail env e) <> None.
Proof. intros [He Hr]. unfold fail. by rewrite Hr, He. Qed.

Lemma fail_keeps env e : error (fail env e) = None -> error env = None.
Proof. unfold fail. repeat case_match; congruence. Qed.

Lemma packet_accepted env st base o size pc k : quiet env ->
  error (check_packet_access env st base o size pc k) = None ->
  Numeric.verify_packet_bounds (domain st) base o size = (true, true).
Proof.
  intros Hq. unfold check_packet_access. destruct (_ && _).
  { intros H. by destruct (fail_noisy _ _ Hq H). }
  destruct (Numeric.verify_packet_bounds _ _ _ _) as [[] []]; cbn [negb orb]; [done|..];
    intros H; exfalso; (destruct (_ && _); [apply fail_keeps in H|]);
    by destruct (fail_noisy _ _ Hq H).
Qed.

Lemma meta_accepted env st base o size pc : quiet env ->
  error (check_packet_meta_access env st base o size pc) = None ->
  Numeric.verify_packet_meta_bounds (domain st) base o size = (true, true).
Proof.
  intros Hq. unfold check_packet_meta_access.
  destruct (Numeric.verify_packet_meta_bounds _ _ _ _) as [[] []]; cbn [negb orb]; [done|..];
    intros H; by destruct (fail_noisy _ _ Hq H).
Qed.

(** C3. Safety of packet accesses along a path of the verifier in the interval domain, from the state
    at the entry, beside an execution.  The path is made of operations on registers, aligned 8-byte
    spills and fills in any frame, and 64-bit comparisons of two registers (with the end of the packet
    or of its metadata) whose values lie on the same side of the sign.  An operation does not saturate
    the bounds ([op_fits]), does not wrap a pointer, writes no anchor and not the frame pointer,
    subtracts no variable from a pointer and adds a variable only to a pointer without an identity, so
    that one is minted ([keeps_id]), does not wrap the counter of identities, and leaves types that
    agree with the values ([types_ok]); a fill reads a slot that is no map value and whose bounds are
    on one side of zero.  Then an access that the packet check accepts, whose last offset fits into 64
    bits, lies between the start and the end of the packet in the execution; one that the metadata
    check accepts lies between the metadata and the packet; and a comparison of two registers on the
    same side of the sign that is resolved statically goes the way it was resolved.  [packet_gaps] has
    accepted accesses that are wrong where a condition fails. *)
Theorem packet_path_safe st0 s0 m0 st n s m :
  initial st0 s0 -> steps st0 1 s0 m0 st n s m ->
  (forall env base o size pc k, quiet env -> in_s 64 (o + size) ->
     error (check_packet_access env st base o size pc k) = None ->
     s AnchorData <= s base + o /\ s base + o + size <= s AnchorDataEnd) /\
  (forall env base o size pc, quiet env -> in_s 64 (o + size) ->
     error (check_packet_meta_access env st base o size pc) = None ->
     s AnchorDataMeta <= s base + o /\ s base + o + size <= s AnchorData) /\
  (forall l op r b, same_half (s l) (s r) -> pkt_ptr_branch_taken st l op (OReg r) = Some b ->
     compare W64 op (s l) (s r) = b).
Proof.
  intros Hi Hst. destruct (steps_inv _ _ _ _ _ _ _ _ Hst (initial_inv st0 s0 m0 Hi)) as (ivl & B & Hinv).
  pose proof (inv_domain _ _ _ _ _ _ Hinv) as Hd. pose proof (inv_holds _ _ _ _ _ _ Hinv) as Hh.
  split; [|split].
  - intros env base o size pc k Hq Hos Ha%packet_accepted; [|done]. rewrite Hd in Ha.
    by apply (IntervalProps.region_access_inside ivl s base o size AnchorData AnchorDataEnd).
  - intros env base o size pc Hq Hos Ha%meta_accepted; [|done]. rewrite Hd in Ha.
    by apply (IntervalProps.region_access_inside ivl s base o size AnchorDataMeta AnchorData).
  - intros. by eapply branch_taken_sound.
Qed.

(** ** An Ethernet header

    R2 = data; R3 = data_end; R4 = R2 + 14; R2 goes to the stack; if R4 > R3 goto out (not taken);
    R5 is R2 from the stack; the two bytes at R5 + 12 are read. *)

Definition entry : State := MkState 0 new_not_init Numeric.new_interval [∅].
Definition quiet_env : VerifierEnv := MkEnv Xdp_ 0 false None.
Definition frame_val : val := IntervalProps.packet_val 1000 1014.

Definition t2 : TypeState := type_set new_not_init R2 PtrToPacket.
Definition t3 : TypeState := type_set t2 R3 PtrToPacketEnd.
Definition t4 : TypeState := type_set t3 R4 PtrToPacket.

Ltac types_by_cases := intros x; split; destruct x; vm_compute; intros; simplify_eq; reflexivity.

Lemma entry_initial : initial entry frame_val.
Proof.
  split; [reflexivity|reflexivity|types_by_cases|by repeat constructor|].
  split; [intros []; vm_compute; split; congruence|done].
Qed.

Ltac op_step op ts :=
  eapply steps_cons;
  [eapply (step_op op ts);
    [reflexivity|vm_compute; repeat split; congruence|reflexivity|vm_compute; reflexivity
    |vm_compute; reflexivity
    |cbn [ptr_nowrap]; first [exact I|right; vm_compute; split; congruence]
    |reflexivity|vm_compute; congruence|reflexivity|types_by_cases]|].

Lemma packet_path_safe_witness : exists st n s m,
  error (check_packet_access quiet_env st R5 12 2 0 Read) = None /\
  (s AnchorData <= s R5 + 12 /\ s R5 + 12 + 2 <= s AnchorDataEnd) /\ n = 1 /\ m 0%nat (-8) = 1000.
Proof.
  eexists _, _, _, _. match goal with |- error (check_packet_access _ ?st _ _ _ _ _) = _ /\ _ /\
    ?n = _ /\ ?m _ _ = _ => refine (conj _ (conj (proj1 (packet_path_safe entry frame_val
      (fun _ _ => 0) st n _ m entry_initial _) quiet_env R5 12 2 0%nat Read _ _ _) _)) end.
  2: { op_step (OBind R2 AnchorData) t2. op_step (OBind R3 AnchorDataEnd) t3.
      op_step (OAssignReg R4 R2) t4. op_step (OAddImm R4 14) t4.
      eapply steps_cons; [eapply (step_spill 0 (-8) R2); reflexivity|].
      eapply steps_cons; [eapply (step_branch R4 R3 UGt false); [reflexivity|vm_compute; split; congruence]|].
      eapply steps_cons; [eapply (step_fill 0 _ (-8) R5)|apply steps_refl]; try reflexivity.
      all: vm_compute; reflexivity. }
  - vm_compute. reflexivity.
  - done.
  - vm_compute. split; congruence.
  - vm_compute. reflexivity.
  - split; reflexivity.
Defined.

(** ** Accesses outside the packet *)

(** After the operations on an execution, a comparison of the given width that the execution passes,
    and an access that is accepted although it ends after the packet. *)
Definition accepted_outside (s0 : val) (ops : list Op) (s : val) (ts : TypeState) (w : Width)
  (l r : Reg) (op : CmpOp) (taken : bool) (base : Reg) (size : Z) : Prop :=
  let ivl := (IntervalProps.run_all ops Interval.new 1).1 in
  IntervalProps.path Interval.new 1 s0 ivl (IntervalProps.run_all ops Interval.new 1).2 s /\
  types_ok ts ivl s /\ compare w op (s l) (s r) = taken /\ same_half (s l) (s r) /\
  error (check_packet_access quiet_env
           (refine_packet_bounds (MkState 0 ts (DInterval ivl) [∅]) l r op taken)
           base 0 size 0 Read) = None /\
  s AnchorDataEnd < s base + size.

(** R2 = data; R3 = end; R4 = R2 + 14. *)
Definition header_ops : list Op :=
  [OBind R2 AnchorData; OBind R3 AnchorDataEnd; OAssignReg R4 R2; OAddImm R4 14].
(** R2 = data + R5; R6 = R2; R2 += R7; R6 += 8, with R5 a byte and R7 at most 1000. *)
Definition two_variables : list Op :=
  [OBind R2 AnchorData; OBind R3 AnchorDataEnd; OAssignInterval R5 0 255; OAddReg R2 R5;
   OAssignReg R6 R2; OAssignInterval R7 0 1000; OAddReg R2 R7; OAddImm R6 8].
(** R2 = data + 1000 - R5; R4 = data + 753. *)
Definition subtracted : list Op :=
  [OBind R2 AnchorData; OBind R3 AnchorDataEnd; OAssignReg R4 R2; OAddImm R4 753;
   OAddImm R2 1000; OAssignInterval R5 0 255; OSubReg R2 R5].

Definition near_4g : val := IntervalProps.packet_val (2 ^ 32 - 8) (2 ^ 32 - 4).
Definition small_packet : val := IntervalProps.packet_val 1000 1008.
Definition large_packet : val := IntervalProps.packet_val 1000 1753.

(** One operation of the path; the states stay folded as [run_all] has them. *)
Ltac gap_step op := eapply (IntervalProps.path_op op);
  [vm_compute; repeat split; congruence|reflexivity|vm_compute; reflexivity
  |cbn [ptr_nowrap]; try exact I; try (right; vm_compute; split; congruence)|try reflexivity|].
(** A register gets a value of the interval. *)
Ltac value_step r lo hi v := gap_step (OAssignInterval r lo hi);
  [exists v; split; [lia|reflexivity]|].

Lemma narrow_gap :
  accepted_outside near_4g header_ops
    (vset (vset (vset (vset near_4g R2 (2 ^ 32 - 8)) R3 (2 ^ 32 - 4)) R4 (2 ^ 32 - 8)) R4 (2 ^ 32 + 6))
    t4 W32 R4 R3 ULe true R2 14.
Proof.
  unfold accepted_outside. split; [|split; [types_by_cases|vm_compute; intuition congruence]].
  unfold header_ops, IntervalProps.run_all. cbn [foldl].
  gap_step (OBind R2 AnchorData). gap_step (OBind R3 AnchorDataEnd).
  gap_step (OAssignReg R4 R2). gap_step (OAddImm R4 14). apply IntervalProps.path_nil.
Qed.

Lemma identity_gap :
  accepted_outside small_packet two_variables
    (vset (vset (vset (vset (vset (vset (vset (vset small_packet R2 1000) R3 1008) R5 0) R2 1000)
       R6 1000) R7 1000) R2 2000) R6 1008)
    (type_set t3 R6 PtrToPacket) W64 R6 R3 ULe true R2 8.
Proof.
  unfold accepted_outside. split; [|split; [types_by_cases|vm_compute; intuition congruence]].
  unfold two_variables, IntervalProps.run_all. cbn [foldl].
  gap_step (OBind R2 AnchorData). gap_step (OBind R3 AnchorDataEnd).
  value_step R5 0 255 0. gap_step (OAddReg R2 R5). gap_step (OAssignReg R6 R2).
  value_step R7 0 1000 1000. gap_step (OAddReg R2 R7). gap_step (OAddImm R6 8).
  apply IntervalProps.path_nil.
Qed.

Lemma subtraction_gap :
  accepted_outside large_packet subtracted
    (vset (vset (vset (vset (vset (vset (vset large_packet R2 1000) R3 1753) R4 1000) R4 1753)
       R2 2000) R5 0) R2 2000)
    t4 W64 R4 R3 ULe true R2 8.
Proof.
  unfold accepted_outside. split; [|split; [types_by_cases|vm_compute; intuition congruence]].
  unfold subtracted, IntervalProps.run_all. cbn [foldl].
  gap_step (OBind R2 AnchorData). gap_step (OBind R3 AnchorDataEnd). gap_step (OAssignReg R4 R2).
  gap_step (OAddImm R4 753). gap_step (OAddImm R2 1000). value_step R5 0 255 0.
  gap_step (OSubReg R2 R5). apply IntervalProps.path_nil.
Qed.

(** Three ways to read past the end of the packet through an accepted check: a 32-bit comparison
    (w4 <= w3) is taken for one of the pointers, 10 bytes past the end of a 4-byte packet; a second
    variable added to a pointer keeps its identity, so a check of the old copy vouches for the
    pointer 1000 bytes further; a variable subtracted from a pointer leaves it without an identity,
    so a check of an unrelated pointer vouches for it. *)
Theorem packet_gaps :
  accepted_outside near_4g header_ops
    (vset (vset (vset (vset near_4g R2 (2 ^ 32 - 8)) R3 (2 ^ 32 - 4)) R4 (2 ^ 32 - 8)) R4 (2 ^ 32 + 6))
    t4 W32 R4 R3 ULe true R2 14 /\
  accepted_outside small_packet two_variables
    (vset (vset (vset (vset (vset (vset (vset (vset small_packet R2 1000) R3 1008) R5 0) R2 1000)
       R6 1000) R7 1000) R2 2000) R6 1008)
    (type_set t3 R6 PtrToPacket) W64 R6 R3 ULe true R2 8 /\
  accepted_outside large_packet subtracted
    (vset (vset (vset (vset (vset (vset (vset large_packet R2 1000) R3 1753) R4 1000) R4 1753)
       R2 2000) R5 0) R2 2000)
    t4 W64 R4 R3 ULe true R2 8.
Proof. exact (conj narrow_gap (conj identity_gap subtraction_gap)). Qed.

End PacketPath.
