(* ===== verification/Pcc.v ===== *)
(** Certificates ([src/pcc]): their data ([model.rs]), the structural validation ([validate.rs]),
    the checker that replays proof chains ([checker/mod.rs], [fact.rs], [chain.rs], [transfer.rs])
    and the injection of what was verified into a state ([injector.rs]).

    Program counters and register indices are natural numbers; 64-bit arithmetic that is not
    checked wraps.  An indexing out of range panics, which is a result of its own. *)

From S2P Require Import Prelude Zone Interval Numeric VState Ast.
From Stdlib Require Import ZArith Lia Bool.
From stdpp Require Import base numbers list gmap.
Open Scope Z_scope.

Module Pcc.
Import Zone(Reg(..), Reg_eq_dec, idx, idx_to_reg, is_anchor, i64_MAX, i64_MIN, saturating_sub).
Import Interval(PtrOffset, anchor, off, var_off, range, max_offset, get_ptr_offset).
Import Numeric VState.
Import Ast(Instr(..), AluOp(..), CmpOp(..), Operand(..), Width(..), Program(..), instrs).
#[local] Existing Instance Zone.Reg_eq_dec.
#[local] Existing Instance Ast.Width_eq_dec.

(** * Results *)

Inductive res (A : Type) : Type := Ok (a : A) | Reject | Panic.
Arguments Ok {A} a.
Arguments Reject {A}.
Arguments Panic {A}.

Definition bind {A B} (r : res A) (f : A -> res B) : res B :=
  match r with Ok a => f a | Reject => Reject | Panic => Panic end.

Declare Scope pcc_scope.
Notation "'let*' x := r 'in' k" := (bind r (fun x => k))
  (at level 10, x pattern, k at level 200) : pcc_scope.
Open Scope pcc_scope.

Definition of_option {A} (o : option A) : res A := match o with Some a => Ok a | None => Reject end.
Definition guard (b : bool) : res unit := if b then Ok tt else Reject.

Definition in_i64 (x : Z) : bool := (i64_MIN <=? x) && (x <=? i64_MAX).
Definition checked_add (a b : Z) : option Z := if in_i64 (a + b) then Some (a + b) else None.
Definition checked_sub (a b : Z) : option Z := if in_i64 (a - b) then Some (a - b) else None.
(** Negation and addition of a release build. *)
Definition neg64 (a : Z) : Z := s64 (- a).
Definition add64 (a b : Z) : Z := s64 (a + b).

(** * Certificates *)

(** The hint of a transfer is a comment. *)
Inductive ProofStep : Type :=
| Fact (pc left_reg right_reg : nat) (c : Z)
| Derive (pc_start pc_end source_reg target_reg : nat) (offset : Z)
| Compose (left right : list ProofStep) (via : nat)
| Transfer (pc pre_left_reg pre_right_reg post_left_reg post_right_reg : nat) (delta : Z).

Record AnnotationEntry : Type := MkEntry {
  left_reg : nat;
  right_reg : nat;
  bound : Z;
  proof : list ProofStep }.

Record PcAnnotation : Type := MkAnn { ann_pc : nat; entries : list AnnotationEntry }.

(** The program hash is compared by the caller. *)
Record ProgramCertificate : Type := MkCert { version : Z; pc_annotations : list PcAnnotation }.

Definition VERSION : Z := 3.
Definition MAX_STEPS_PER_ENTRY : nat := 32.
Definition MAX_ENTRIES_PER_PC : nat := 8.

Section Last.
Context {A : Type} (f : ProofStep -> A) (d : A).
(** [last().map_or(d, f)] *)
Fixpoint last_with (l : list ProofStep) : A :=
  match l with
  | [] => d
  | p :: rest => match rest with [] => f p | _ => last_with rest end
  end.
End Last.

Section Sums.
Context {A B : Type} (op : B -> A -> B) (f : ProofStep -> A).
(** [iter().map(f)] folded from the left. *)
Fixpoint fold_with (acc : B) (l : list ProofStep) : B :=
  match l with [] => acc | p :: rest => fold_with (op acc (f p)) rest end.
End Sums.

Fixpoint step_pc (p : ProofStep) : nat :=
  match p with
  | Fact pc _ _ _ | Transfer pc _ _ _ _ _ => pc
  | Derive _ pc_end _ _ _ => pc_end
  | Compose l r _ => Nat.max (last_with step_pc 0%nat l) (last_with step_pc 0%nat r)
  end.

Fixpoint output_left_reg (p : ProofStep) : nat :=
  match p with
  | Fact _ l _ _ => l
  | Transfer _ _ _ l _ _ => l
  | Derive _ _ _ t _ => t
  | Compose l _ _ => last_with output_left_reg 0%nat l
  end.

Fixpoint output_right_reg (p : ProofStep) : nat :=
  match p with
  | Fact _ _ r _ => r
  | Transfer _ _ _ _ r _ => r
  | Derive _ _ _ _ _ => 0%nat
  | Compose _ r _ => last_with output_right_reg 0%nat r
  end.

Fixpoint bound_contribution (p : ProofStep) : Z :=
  match p with
  | Fact _ _ _ c => c
  | Transfer _ _ _ _ _ delta => delta
  | Derive _ _ _ _ offset => neg64 offset
  | Compose l r _ =>
      add64 (fold_with add64 bound_contribution 0 l) (fold_with add64 bound_contribution 0 r)
  end.

Fixpoint node_count (p : ProofStep) : nat :=
  match p with
  | Compose l r _ => (1 + fold_with Nat.add node_count 0 l + fold_with Nat.add node_count 0 r)%nat
  | _ => 1%nat
  end.

(** * Validation *)

(** Where in an entry a message points. *)
Inductive Ctx : Type := CEntry (ann entry : nat) | CLeft (c : Ctx) | CRight (c : Ctx).

Inductive Invalid : Type :=
| UnsupportedVersion (v : Z)
| PcOutOfBounds (ann pc len : nat)
| TooManyEntries (ann n : nat)
| InvalidLeftReg (ann entry reg : nat)
| InvalidRightReg (ann entry reg : nat)
| DegenerateAnchor (ann entry : nat)
| EmptyProof (ann entry : nat)
| TooManySteps (ann entry n : nat)
| EmptyChain (c : Ctx)
| NotFactFirst (c : Ctx)
| FactAfterFirst (c : Ctx)
| DisconnectedTransfer (c : Ctx)
| DisconnectedDerive (c : Ctx)
| NotBeforeTarget (c : Ctx) (step pc target : nat)
| BeforeGuard (c : Ctx) (step pc prev : nat)
| NotIncreasing (c : Ctx) (step pc prev : nat)
| StepOutOfBounds (c : Ctx) (step pc : nat)
| EmptySubProof (c : Ctx)
| LeftNotVia (c : Ctx) (reg via : nat)
| RightNotVia (c : Ctx) (reg via : nat)
| InvalidRegister (c : Ctx) (step reg : nat)
| EndpointMismatch (c : Ctx)
| SumOverflow (c : Ctx).

(** [None]: no message. *)
Definition check : Type := option Invalid.
Definition and_then (a b : check) : check := match a with Some e => Some e | None => b end.
Infix ">>>" := and_then (at level 60, right associativity) : pcc_scope.
Definition bail (cond : bool) (e : Invalid) : check := if cond then Some e else None.

(** The first message of a loop over the elements with their positions. *)
Fixpoint each {A} (f : nat -> A -> check) (i : nat) (l : list A) : check :=
  match l with [] => None | x :: rest => f i x >>> each f (S i) rest end.

Definition is_compose (p : ProofStep) : bool := match p with Compose _ _ _ => true | _ => false end.
Definition is_derive (p : ProofStep) : bool := match p with Derive _ _ _ _ _ => true | _ => false end.
Definition is_transfer (p : ProofStep) : bool :=
  match p with Transfer _ _ _ _ _ _ => true | _ => false end.
Definition is_fact (p : ProofStep) : bool := match p with Fact _ _ _ _ => true | _ => false end.

Definition validate_reg_idx (r sidx : nat) (c : Ctx) : check :=
  match idx_to_reg r with None => Some (InvalidRegister c sidx r) | Some _ => None end.

(** Connectivity of neighbours. *)
Fixpoint connected (c : Ctx) (prev : ProofStep) (l : list ProofStep) : check :=
  match l with
  | [] => None
  | p :: rest =>
      match p with
      | Fact _ _ _ _ => Some (FactAfterFirst c)
      | Transfer _ pl pr _ _ _ =>
          bail (negb (output_left_reg prev =? pl)%nat || negb (output_right_reg prev =? pr)%nat)
               (DisconnectedTransfer c)
      | Derive _ _ src _ _ => bail (negb (output_left_reg prev =? src)%nat) (DisconnectedDerive c)
      | Compose _ _ _ => None
      end >>> connected c p rest
  end.

(** Order of the program counters. *)
Fixpoint ordered (c : Ctx) (target sidx : nat) (prev_pc : option nat) (seen_transfer : bool)
  (l : list ProofStep) : check :=
  match l with
  | [] => None
  | p :: rest =>
      if is_compose p then ordered c target (S sidx) prev_pc seen_transfer rest
      else
        let spc := step_pc p in
        bail (target <=? spc)%nat (NotBeforeTarget c sidx spc target) >>>
        match prev_pc with
        | Some prev =>
            if is_derive p && negb seen_transfer then None
            else if negb seen_transfer then bail (spc <? prev)%nat (BeforeGuard c sidx spc prev)
            else bail (spc <=? prev)%nat (NotIncreasing c sidx spc prev)
        | None => None
        end >>>
        ordered c target (S sidx) (Some spc) (seen_transfer || is_transfer p) rest
  end.

Definition in_program (c : Ctx) (prog_len : nat) (sidx : nat) (p : ProofStep) : check :=
  bail (negb (is_compose p) && (prog_len <=? step_pc p)%nat) (StepOutOfBounds c sidx (step_pc p)).

Section Chain.
(** The validation of a composition. *)
Context (compose : Ctx -> ProofStep -> check) (target_pc prog_len : nat).

Definition validate_step_registers (c : Ctx) (sidx : nat) (p : ProofStep) : check :=
  match p with
  | Fact _ l r _ => validate_reg_idx l sidx c >>> validate_reg_idx r sidx c
  | Derive _ _ s t _ => validate_reg_idx s sidx c >>> validate_reg_idx t sidx c
  | Transfer _ a b l r _ =>
      validate_reg_idx a sidx c >>> validate_reg_idx b sidx c >>>
      validate_reg_idx l sidx c >>> validate_reg_idx r sidx c
  | Compose _ _ _ => compose c p
  end.

Fixpoint each_registers (c : Ctx) (sidx : nat) (l : list ProofStep) : check :=
  match l with
  | [] => None
  | p :: rest => validate_step_registers c sidx p >>> each_registers c (S sidx) rest
  end.

Definition validate_chain_with (c : Ctx) (l : list ProofStep) : check :=
  match l with
  | [] => Some (EmptyChain c)
  | p :: rest =>
      if is_compose p && match rest with [] => true | _ => false end then compose c p
      else if is_fact p then
        each_registers c 0 l >>> connected c p rest >>> ordered c target_pc 0 None false l >>>
        each (in_program c prog_len) 0 l
      else Some (NotFactFirst c)
  end.
End Chain.

Fixpoint validate_compose_step (target_pc prog_len : nat) (c : Ctx) (p : ProofStep) : check :=
  match p with
  | Compose l r via =>
      let chain := validate_chain_with (validate_compose_step target_pc prog_len) target_pc prog_len in
      validate_reg_idx via 0 c >>>
      bail (match l, r with [], _ | _, [] => true | _, _ => false end) (EmptySubProof c) >>>
      chain (CLeft c) l >>> chain (CRight c) r >>>
      let lo := last_with output_right_reg 0%nat l in
      let ro := last_with output_left_reg 0%nat r in
      bail (negb (lo =? via)%nat) (LeftNotVia c lo via) >>>
      bail (negb (ro =? via)%nat) (RightNotVia c ro via)
  | _ => None
  end.

Definition validate_proof_chain (target_pc prog_len : nat) : Ctx -> list ProofStep -> check :=
  validate_chain_with (validate_compose_step target_pc prog_len) target_pc prog_len.

(** The sum is formed and compared with nothing. *)
Fixpoint sum_bounds (c : Ctx) (sum : Z) (l : list ProofStep) : check :=
  match l with
  | [] => None
  | p :: rest =>
      match checked_add sum (bound_contribution p) with
      | Some s => sum_bounds c s rest
      | None => Some (SumOverflow c)
      end
  end.

Definition validate_entry (prog : Program) (target_pc ann eidx : nat) (e : AnnotationEntry) : check :=
  match idx_to_reg (left_reg e) with
  | None => Some (InvalidLeftReg ann eidx (left_reg e))
  | Some l =>
      match idx_to_reg (right_reg e) with
      | None => Some (InvalidRightReg ann eidx (right_reg e))
      | Some r =>
          let c := CEntry ann eidx in
          let total_nodes := fold_with Nat.add node_count 0%nat (proof e) in
          bail (is_anchor l && is_anchor r && bool_decide (l = r)) (DegenerateAnchor ann eidx) >>>
          bail (match proof e with [] => true | _ => false end) (EmptyProof ann eidx) >>>
          bail (MAX_STEPS_PER_ENTRY <? total_nodes)%nat (TooManySteps ann eidx total_nodes) >>>
          validate_proof_chain target_pc (length (instrs prog)) c (proof e) >>>
          bail (negb (last_with output_left_reg 0%nat (proof e) =? left_reg e)%nat ||
                negb (last_with output_right_reg 0%nat (proof e) =? right_reg e)%nat)
               (EndpointMismatch c) >>>
          sum_bounds c 0 (proof e)
      end
  end.

Definition validate_annotation (prog : Program) (i : nat) (a : PcAnnotation) : check :=
  bail (length (instrs prog) <=? ann_pc a)%nat (PcOutOfBounds i (ann_pc a) (length (instrs prog))) >>>
  bail (MAX_ENTRIES_PER_PC <? length (entries a))%nat (TooManyEntries i (length (entries a))) >>>
  each (validate_entry prog (ann_pc a) i) 0 (entries a).

Definition validate_certificate_for_program (cert : ProgramCertificate) (prog : Program) : check :=
  bail (negb (version cert =? VERSION)) (UnsupportedVersion (version cert)) >>>
  each (validate_annotation prog) 0 (pc_annotations cert).

(** * The checker *)

Record VerifiedEntry : Type := MkVerified { v_left : nat; v_right : nat; v_bound : Z }.

(** [i64::try_from] of a u64, saturated. *)
Definition try_i64 (n : Z) : Z := if n <=? i64_MAX then n else i64_MAX.

Definition distance_upper_bound (st : State) (i j : Reg) : option Z :=
  let direct := (get_distance_interval (domain st) i j).2 in
  match domain st with
  | DZone _ => Some direct
  | DInterval ivl =>
      if negb (direct =? i64_MAX) then Some direct
      else if bool_decide (i = AnchorData) && bool_decide (j = AnchorDataEnd)
      then (fun n => neg64 (try_i64 n)) <$> Interval.get_packet_size_bound ivl
      else
        let from_size :=
          if decide (j = AnchorDataEnd) then
            match Interval.get_packet_size_bound ivl, get_ptr_offset ivl i with
            | Some pkt_lb, Some po =>
                if decide (anchor po = AnchorData)
                then Some (saturating_sub (max_offset po) (try_i64 pkt_lb)) else None
            | _, _ => None
            end
          else None in
        match from_size with
        | Some b => Some b
        | None =>
            match get_ptr_offset ivl i with
            | Some po => if decide (anchor po = j) then Some (max_offset po) else Some direct
            | None => Some direct
            end
        end
  end.

(** ** Facts *)

Record Constraint : Type := MkC { c_left : nat; c_right : nat; c_bound : Z }.

Definition derive_fact_from_branch (pred_instr : Instr) (pred_pc succ_pc : nat) : option Constraint :=
  match pred_instr with
  | If w l op rhs target =>
      if decide (w = W64) then
        match (if (succ_pc =? target)%nat then Some true
               else if (succ_pc =? pred_pc + 1)%nat then Some false else None) with
        | None => None
        | Some taken =>
            match rhs with
            | OReg r =>
                match op, taken with
                | (ULe | SLe), true | (UGt | SGt), false => Some (MkC (idx l) (idx r) 0)
                | (ULt | SLt), true | (UGe | SGe), false => Some (MkC (idx l) (idx r) (-1))
                | (UGe | SGe), true | (ULt | SLt), false => Some (MkC (idx r) (idx l) 0)
                | (UGt | SGt), true | (ULe | SLe), false => Some (MkC (idx r) (idx l) (-1))
                | _, _ => None
                end
            | OImm imm =>
                match op, taken with
                | (ULe | SLe), true | (UGt | SGt), false => Some (MkC (idx l) (idx Zero) imm)
                | (ULt | SLt), true | (UGe | SGe), false =>
                    (fun c => MkC (idx l) (idx Zero) c) <$> checked_sub imm 1
                | _, _ => None
                end
            end
        end
      else None
  | _ => None
  end.

Definition verify_fact (fact_pc left_idx right_idx : nat) (c : Z) (st : State) (prog : Program)
  : res bool :=
  match idx_to_reg left_idx, idx_to_reg right_idx with
  | Some i, Some j =>
      match instrs prog !! fact_pc with
      | None => Panic
      | Some instr =>
          let from_branch :=
            match derive_fact_from_branch instr fact_pc (fact_pc + 1) with
            | Some b => (left_idx =? c_left b)%nat && (right_idx =? c_right b)%nat && (c =? c_bound b)
            | None => false
            end in
          Ok (from_branch ||
              match distance_upper_bound st i j with Some ub => ub <=? c | None => false end)
      end
  | _, _ => Ok false
  end.

(** ** Transfers *)

Definition instr_writes_reg (instr : Instr) (reg : Reg) : bool :=
  match instr with
  | Alu _ _ dst _ | Endian dst _ _ _ | Load _ dst _ _ | LoadMap dst _ _ _ => bool_decide (dst = reg)
  | Call _ | LoadPacket _ _ _ _ =>
      match reg with R0 | R1 | R2 | R3 | R4 | R5 => true | _ => false end
  | _ => false
  end.

Definition reg_or_zero (i : nat) : Reg := default Zero (idx_to_reg i).

(** [post_left], [post_right] and [delta] as expected. *)
Definition expect (pl pr post_left post_right : nat) (d delta : Z) : bool :=
  (post_left =? pl)%nat && (post_right =? pr)%nat && (delta =? d).

Definition verify_transfer (pre_left pre_right post_left post_right : nat) (delta : Z)
  (st : State) (instr : Instr) : bool :=
  let same_pair := (pre_left =? post_left)%nat && (pre_right =? post_right)%nat in
  match instr with
  | Alu _ Mov dst (OReg src) =>
      let lr := reg_or_zero pre_left in
      let rr := reg_or_zero pre_right in
      let from_left := (pre_left =? idx src)%nat in
      let from_right := (pre_right =? idx src)%nat in
      let expected_left :=
        if from_left && negb (bool_decide (dst = rr)) then idx dst else pre_left in
      let expected_right :=
        if from_right && negb (bool_decide (dst = lr)) then idx dst else pre_right in
      if (bool_decide (dst = lr) || bool_decide (dst = rr)) && (post_left =? pre_left)%nat
         && (post_right =? pre_right)%nat && negb from_left && negb from_right
      then false
      else expect expected_left expected_right post_left post_right 0 delta
  | Alu _ Add dst (OImm imm) =>
      let di := idx dst in
      if (di =? pre_left)%nat && same_pair then delta =? imm
      else if (di =? pre_right)%nat && same_pair then delta =? neg64 imm
      else if negb (di =? pre_left)%nat && negb (di =? pre_right)%nat
      then same_pair && (delta =? 0)
      else false
  | Alu _ Add dst (OReg src) =>
      let di := idx dst in
      let '(src_min, src_max) := get_interval (domain st) src in
      if (di =? pre_left)%nat && same_pair then negb (delta <? src_max)
      else if (di =? pre_right)%nat && same_pair then negb (delta <? neg64 src_min)
      else if (idx src =? pre_left)%nat && negb (di =? pre_left)%nat && negb (di =? pre_right)%nat
              && (post_left =? di)%nat && (post_right =? pre_right)%nat
      then
        match distance_upper_bound st dst (reg_or_zero pre_right) with
        | Some ub => negb (ub =? i64_MAX) && (ub <=? delta)
        | None => false
        end
      else if (di =? pre_left)%nat && (pre_right =? idx Zero)%nat && (post_left =? pre_left)%nat
              && (post_right =? idx src)%nat && (delta =? 0)
      then true
      else if negb (di =? pre_left)%nat && negb (di =? pre_right)%nat
      then same_pair && (delta =? 0)
      else false
  | _ =>
      if instr_writes_reg instr (reg_or_zero pre_left) || instr_writes_reg instr (reg_or_zero pre_right)
      then false else same_pair && (delta =? 0)
  end.

(** ** Chains *)

Record ProofCheckState : Type := MkPCS {
  current_left : nat;
  current_right : nat;
  accumulated_bound : Z }.

(** What the loop of [verify_derive] carries. *)
Definition derive_instr (source target : Reg) (instr : Instr) (acc : bool * Z) : option (bool * Z) :=
  let '(linked, offset) := acc in
  let other :=
    if linked && (instr_writes_reg instr source || instr_writes_reg instr target)
    then None else Some acc in
  match instr with
  | Alu W64 Mov dst (OReg src) =>
      if bool_decide (dst = source) && bool_decide (src = target) then Some (true, 0) else other
  | Alu W64 Add dst (OImm imm) =>
      if bool_decide (dst = source) && linked then Some (linked, add64 offset imm) else other
  | _ => other
  end.

Fixpoint derive_loop (source target : Reg) (l : list Instr) (acc : bool * Z) : option (bool * Z) :=
  match l with
  | [] => Some acc
  | i :: rest =>
      match derive_instr source target i acc with
      | Some acc => derive_loop source target rest acc
      | None => None
      end
  end.

(** The instructions from [pc_start] to [pc_end] inclusive. *)
Definition slice (prog : Program) (pc_start pc_end : nat) : list Instr :=
  take (pc_end + 1 - pc_start) (drop pc_start (instrs prog)).

Definition verify_derive (pc_start pc_end source_reg target_reg : nat) (claimed_offset : Z)
  (prog : Program) : bool :=
  if (pc_end <? pc_start)%nat || (length (instrs prog) <=? pc_end)%nat then false
  else match idx_to_reg source_reg, idx_to_reg target_reg with
       | Some source, Some target =>
           match derive_loop source target (slice prog pc_start pc_end) (false, 0) with
           | Some (linked, offset) => linked && (offset =? claimed_offset)
           | None => false
           end
       | _, _ => false
       end.

Definition Explored : Type := gmap nat (list State).

Definition get_unique_state (explored : Explored) (pc : nat) : res State :=
  match explored !! pc with Some [st] => Ok st | _ => Reject end.

Section Replay.
Context (compose : ProofStep -> res ProofCheckState) (explored : Explored) (prog : Program).

Definition replay_step (pcs : ProofCheckState) (step : ProofStep) : res ProofCheckState :=
  match step with
  | Fact _ _ _ _ => Reject
  | Derive pc_start pc_end source target offset =>
      let* _ := guard (source =? current_left pcs)%nat in
      let* _ := guard (verify_derive pc_start pc_end source target offset prog) in
      let* b := of_option (checked_sub (accumulated_bound pcs) offset) in
      Ok (MkPCS target 0 b)
  | Transfer pc pre_left pre_right post_left post_right delta =>
      let* _ := guard ((pre_left =? current_left pcs)%nat && (pre_right =? current_right pcs)%nat) in
      let* st := get_unique_state explored pc in
      let* instr := of_option (instrs prog !! pc) in
      let* _ := guard (verify_transfer pre_left pre_right post_left post_right delta st instr) in
      let* b := of_option (checked_add (accumulated_bound pcs) delta) in
      Ok (MkPCS post_left post_right b)
  | Compose _ _ _ =>
      let* r := compose step in
      let* b := of_option (checked_add (accumulated_bound pcs) (accumulated_bound r)) in
      Ok (MkPCS (current_left r) (current_right r) b)
  end.

Fixpoint replay_steps (pcs : ProofCheckState) (l : list ProofStep) : res ProofCheckState :=
  match l with
  | [] => Ok pcs
  | p :: rest => let* pcs := replay_step pcs p in replay_steps pcs rest
  end.

Definition replay_with (l : list ProofStep) : res ProofCheckState :=
  match l with
  | [] => Reject
  | p :: rest =>
      if is_compose p && match rest with [] => true | _ => false end then compose p
      else match p with
           | Fact pc l r c =>
               let* st := get_unique_state explored pc in
               let* _ := guard (is_interval_mode (domain st)) in
               let* ok := verify_fact pc l r c st prog in
               let* _ := guard ok in
               replay_steps (MkPCS l r c) rest
           | _ => Reject
           end
  end.
End Replay.

Fixpoint verify_compose (explored : Explored) (prog : Program) (p : ProofStep) : res ProofCheckState :=
  match p with
  | Compose l r via =>
      let* a := replay_with (verify_compose explored prog) explored prog l in
      let* _ := guard (current_right a =? via)%nat in
      let* b := replay_with (verify_compose explored prog) explored prog r in
      let* _ := guard (current_left b =? via)%nat in
      let* c := of_option (checked_add (accumulated_bound a) (accumulated_bound b)) in
      Ok (MkPCS (current_left a) (current_right b) c)
  | _ => Reject
  end.

Definition replay_chain (explored : Explored) (prog : Program) : list ProofStep -> res ProofCheckState :=
  replay_with (verify_compose explored prog) explored prog.

(** The program counter of the target is used in messages only. *)
Definition check_proof (entry : AnnotationEntry) (explored : Explored) (prog : Program)
  : res VerifiedEntry :=
  match proof entry with
  | [] => Reject
  | _ =>
      let* r := replay_chain explored prog (proof entry) in
      let* _ := guard ((current_left r =? left_reg entry)%nat &&
                       (current_right r =? right_reg entry)%nat) in
      let* _ := guard (accumulated_bound r =? bound entry) in
      Ok (MkVerified (left_reg entry) (right_reg entry) (bound entry))
  end.

(** * Injection *)

Definition with_var_ub (ub : Z) (p : PtrOffset) : PtrOffset :=
  Interval.MkPO (anchor p) (off p) (Z.min (var_off p) ub) (range p) (Interval.id p)
    (Interval.pkt_end_rel p).
Definition with_proven_range (r : Z) (p : PtrOffset) : PtrOffset :=
  Interval.MkPO (anchor p) (off p) (var_off p) (Some (Z.max (default r (range p)) r))
    (Interval.id p) (Interval.pkt_end_rel p).

Definition map_of (t : RegType) : option nat :=
  match t with PtrToMapValue _ _ m _ _ => Some m | _ => None end.

Definition apply_verified_fact (st : State) (i_idx j_idx : nat) (c : Z) : State :=
  match idx_to_reg i_idx, idx_to_reg j_idx, domain st with
  | Some i, Some j, DInterval ivl =>
      match get_ptr_offset ivl i with
      | None => st
      | Some po =>
          let upd f := with_domain st (DInterval (Interval.upd_ptr ivl i (fmap f))) in
          if bool_decide (j = AnchorDataEnd) && bool_decide (anchor po = AnchorData)
          then upd (with_proven_range (Z.max (neg64 c) 0))
          else if decide (j = anchor po)
          then upd (with_var_ub (u64 (Z.max (s64 (c - off po)) 0)))
          else
            match map_of (type_get (types st) i), map_of (type_get (types st) j),
                  get_ptr_offset ivl j with
            | Some i_map, Some j_map, Some j_po =>
                if (i_map =? j_map)%nat then
                  let j_max_off := add64 (off j_po) (s64 (var_off j_po)) in
                  upd (with_var_ub (u64 (Z.max (s64 (c + j_max_off - off po)) 0)))
                else st
            | _, _, _ => st
            end
      end
  | _, _, _ => st
  end.

Definition apply_verified_refinements (st : State) (facts : list VerifiedEntry) : State :=
  foldl (fun st f => apply_verified_fact st (v_left f) (v_right f) (v_bound f)) st facts.

End Pcc.
