(* ===== verification/PccSound.v ===== *)
(** What an accepted certificate shows ([src/pcc]).

    A certificate that was validated cannot make the checker index out of the program.  A chain
    without gaps (a fact, then a transfer for every instruction up to the target, of the shapes
    listed in [shape_ok], or a composition of such chains) that the checker accepts bounds the
    difference it claims on every straight execution whose values do not wrap; injecting the bound
    keeps the state sound. *)

From S2P Require Import Prelude Zone ZoneSound Interval IntervalSound IntervalOps IntervalProps.
From S2P Require Import Numeric VState Ast PacketFamily Pcc.
From Stdlib Require Import ZArith Lia Bool.
From stdpp Require Import base numbers list gmap.
Open Scope Z_scope.

Module PccSound.
Import Zone(Reg(..), Reg_eq_dec, idx, idx_to_reg, is_anchor, i64_MAX, i64_MIN, saturating_sub).
Import ZoneSound(in_s64_iff, s64_small, u64_small, idx_inj).
Import Interval(PtrOffset, IntervalState, anchor, off, var_off, range, max_offset, get_ptr_offset).
Import Numeric(NumericDomain(..), describes) VState.
Import Ast(Instr(..), AluOp(..), CmpOp(..), Operand(..), Width(..), SxWidth(..), Program(..), instrs, compare, operand, step,
           next, writes, caller_saved, result).
Import Pcc.
#[local] Existing Instance Zone.Reg_eq_dec.
#[local] Existing Instance Ast.Width_eq_dec.
#[local] Existing Instance Numeric.numeric_domain.

(** * Validated certificates do not panic *)

(** Induction over the steps inside the lists of a composition. *)
Section Nested.
Context (P : ProofStep -> Prop).
Context (Hfact : forall pc l r c, P (Fact pc l r c)).
Context (Hderive : forall a b s t o, P (Derive a b s t o)).
Context (Htransfer : forall pc a b l r d, P (Transfer pc a b l r d)).
Context (Hcompose : forall l r via, Forall P l -> Forall P r -> P (Compose l r via)).

Fixpoint nested_ind (p : ProofStep) : P p :=
  match p with
  | Fact pc l r c => Hfact pc l r c
  | Derive a b s t o => Hderive a b s t o
  | Transfer pc a b l r d => Htransfer pc a b l r d
  | Compose l r via =>
      let all := fix all (l : list ProofStep) : Forall P l :=
        match l with
        | [] => List.Forall_nil P
        | p :: rest => List.Forall_cons P p rest (nested_ind p) (all rest)
        end in
      Hcompose l r via (all l) (all r)
  end.
End Nested.

Lemma and_then_None a b : (a >>> b) = None <-> a = None /\ b = None.
Proof. destruct a; cbn; naive_solver. Qed.

Lemma bind_no_panic {A B} (r : res A) (f : A -> res B) :
  r <> Panic -> (forall a, r = Ok a -> f a <> Panic) -> bind r f <> Panic.
Proof. destruct r; cbn; auto. Qed.

Lemma guard_no_panic b : guard b <> Panic.
Proof. by destruct b. Qed.

Lemma of_option_no_panic {A} (o : option A) : of_option o <> Panic.
Proof. by destruct o. Qed.

Lemma unique_no_panic e pc : get_unique_state e pc <> Panic.
Proof. unfold get_unique_state. repeat case_match; done. Qed.

(** Split a computation into its parts. *)
Ltac no_panic := repeat first
  [ apply guard_no_panic | apply of_option_no_panic | apply unique_no_panic | done
  | match goal with |- bind _ _ <> Panic => apply bind_no_panic; [|intros ? _] end ].

Section NoPanic.
Context (explored : Explored) (prog : Program) (target : nat).

Definition compose_ok (p : ProofStep) : Prop :=
  forall c, validate_compose_step target (length (instrs prog)) c p = None ->
  verify_compose explored prog p <> Panic.

Lemma steps_no_panic c rest : Forall compose_ok rest ->
  forall i pcs, each_registers (validate_compose_step target (length (instrs prog))) c i rest = None ->
  replay_steps (verify_compose explored prog) explored prog pcs rest <> Panic.
Proof.
  induction 1 as [|p rest Hp _ IH]; intros i pcs Hr; [done|].
  cbn in Hr. apply and_then_None in Hr as [H1 H2]. cbn [replay_steps].
  apply bind_no_panic; [|intros pcs' _; by eapply IH].
  destruct p; cbn [replay_step]; no_panic. by apply (Hp c).
Qed.

Lemma chain_no_panic c l : Forall compose_ok l ->
  validate_proof_chain target (length (instrs prog)) c l = None -> replay_chain explored prog l <> Panic.
Proof.
  intros Hl. unfold validate_proof_chain, validate_chain_with, replay_chain, replay_with.
  destruct l as [|p rest]; [done|]. inversion Hl as [|?? Hp Hrest]; subst.
  destruct (_ && _); [apply Hp|]. destruct p as [pc l r c'| | |]; try done.
  cbn [is_fact]. rewrite !and_then_None. intros (H1 & _ & _ & H4).
  cbn [each_registers] in H1. apply and_then_None in H1 as [_ H1].
  cbn [each] in H4. apply and_then_None in H4 as [H4 _].
  unfold in_program, bail in H4. cbn in H4. case_match eqn:E; [done|]. apply Nat.leb_gt in E.
  apply lookup_lt_is_Some_2 in E as [i Hi].
  no_panic.
  - unfold verify_fact. rewrite Hi. repeat case_match; done.
  - by eapply steps_no_panic.
Qed.

Lemma all_compose_ok p : compose_ok p.
Proof.
  induction p as [| | |l r via Hl Hr] using nested_ind; try (by intros ? _).
  intros c. cbn [validate_compose_step verify_compose]. rewrite !and_then_None.
  intros (_ & _ & H1 & H2 & _). no_panic.
  - by apply (chain_no_panic (CLeft c)).
  - by apply (chain_no_panic (CRight c)).
Qed.
End NoPanic.

Lemma each_lookup {A} (f : nat -> A -> check) i l k x :
  each f i l = None -> l !! k = Some x -> f (i + k)%nat x = None.
Proof.
  revert i k. induction l as [|y l IH]; intros i k; [done|]. cbn. rewrite and_then_None.
  intros [H1 H2]. destruct k as [|k]; cbn; [intros [= <-]; by rewrite Nat.add_0_r|].
  intros Hk. rewrite <- Nat.add_succ_comm. auto.
Qed.

Lemma entry_chain prog target i j e : validate_entry prog target i j e = None ->
  validate_proof_chain target (length (instrs prog)) (CEntry i j) (proof e) = None.
Proof.
  unfold validate_entry. destruct (idx_to_reg _); [|done]. destruct (idx_to_reg _); [|done].
  rewrite !and_then_None. tauto.
Qed.

(** C14. Checking an entry of a certificate that passed validation never indexes out of the program,
    whatever states were explored (the witness has one that was not validated, and does). *)
Theorem validated_no_panic cert prog explored i a j e :
  validate_certificate_for_program cert prog = None ->
  pc_annotations cert !! i = Some a -> entries a !! j = Some e ->
  check_proof e explored prog <> Panic.
Proof.
  unfold validate_certificate_for_program. rewrite and_then_None. intros [_ Hc] Ha He.
  pose proof (each_lookup _ _ _ _ _ Hc Ha) as H1. unfold validate_annotation in H1.
  rewrite !and_then_None in H1. destruct H1 as (_ & _ & H1).
  apply (each_lookup _ _ _ _ _ H1), entry_chain in He.
  unfold check_proof. destruct (proof e) eqn:Ep; [done|]. rewrite <- Ep in *. no_panic.
  eapply chain_no_panic; [|exact He]. apply Forall_forall. intros. apply all_compose_ok.
Qed.

(** A fact beyond the end of a one-instruction program. *)
Definition stray_fact : AnnotationEntry := MkEntry 2 0 5 [Fact 7 2 0 5].
Definition one_instr : Program := MkProgram [Exit].
Definition entry_states (l : list nat) : Explored :=
  list_to_map ((fun pc => (pc, [MkState pc new_not_init Numeric.new_interval []])) <$> l).

Lemma validated_no_panic_witness :
  check_proof stray_fact (entry_states [7%nat]) one_instr = Panic /\
  check_proof (MkEntry 2 0 5 [Fact 0 2 0 5]) (entry_states [0%nat]) (MkProgram [Exit; Exit]) <> Panic.
Proof.
  split; [vm_compute; reflexivity|].
  by apply (validated_no_panic (MkCert 3 [MkAnn 1 [MkEntry 2 0 5 [Fact 0 2 0 5]]]) _ _ 0
    (MkAnn 1 [MkEntry 2 0 5 [Fact 0 2 0 5]]) 0).
Defined.

(** * Chains without gaps *)

Definition val : Type := Ast.val.

(** [left - right <= b] for the registers with these indices. *)
Definition rel (v : val) (left right : nat) (b : Z) : Prop :=
  exists l r, left = idx l /\ right = idx r /\ v l - v r <= b.

(** Additions do not wrap. *)
Definition nowrap (i : Instr) (v : val) : Prop :=
  match i with
  | Alu W64 Add dst src => in_s 64 (v dst + operand v src)
  | _ => True
  end.

(** An execution that walks through the instructions from [lo] to [hi], with the values before
    each of them. *)
Record straight (prog : Program) (tr : nat -> val) (lo hi : nat) : Prop := {
  tr_typed : forall p r, in_s 64 (tr p r);
  tr_step : forall p, (lo <= p < hi)%nat -> exists i, instrs prog !! p = Some i /\
    step i (tr p) (tr (S p)) /\ next i p (tr p) (S p) /\ nowrap i (tr p) }.

(** The explored states describe it. *)
Definition explored_ok (explored : Explored) (tr : nat -> val) (lo hi : nat) : Prop :=
  forall p st, (lo <= p < hi)%nat -> explored !! p = Some [st] -> describes (domain st) (tr p).

Definition pair_free (l r x : Reg) : bool := bool_decide (x <> l) && bool_decide (x <> r).

(** The shapes of a transfer of [l - r] for which the checker is right. *)
Definition shape_ok (i : Instr) (l r : Reg) (st : State) : bool :=
  match i with
  | Alu w Mov dst (OReg src) =>
      pair_free l r dst && pair_free l r src ||
      bool_decide (w = W64) &&
      negb (bool_decide (dst = r) && bool_decide (src = l) ||
            bool_decide (dst = l) && bool_decide (src = r))
  | Alu w Add dst (OImm imm) =>
      pair_free l r dst ||
      bool_decide (w = W64) && bool_decide (l <> r) && (i64_MIN <? imm) && (imm <=? i64_MAX)
  | Alu w Add dst (OReg src) =>
      if pair_free l r dst then bool_decide (src <> l) || bool_decide (w = W64) && bool_decide (r = Zero)
      else bool_decide (w = W64) && bool_decide (l <> r) &&
           (if bool_decide (dst = l) then bool_decide (src <> dst)
            else i64_MIN <? (Numeric.get_interval (domain st) src).1)
  | _ => forallb (pair_free l r) (writes i)
  end.

Lemma idx_eqb a b : (idx a =? idx b)%nat = bool_decide (a = b).
Proof.
  apply eq_true_iff_eq. rewrite Nat.eqb_eq, bool_decide_eq_true. split; [apply idx_inj|congruence].
Qed.

Lemma reg_or_zero_idx x : reg_or_zero (idx x) = x.
Proof. unfold reg_or_zero. by rewrite ZoneSound.idx_to_reg_idx. Qed.

Lemma put_eq v x y : Ast.vset v x y x = y.
Proof. unfold Ast.vset. by rewrite decide_True. Qed.

Lemma put_ne v x y z : z <> x -> Ast.vset v x y z = v z.
Proof. intros. unfold Ast.vset. by rewrite decide_False. Qed.

Lemma expect_true pl pr l r d delta : expect pl pr l r d delta = true -> l = pl /\ r = pr /\ delta = d.
Proof. unfold expect. rewrite !andb_true_iff, !Nat.eqb_eq, Z.eqb_eq. tauto. Qed.

Lemma pair_free_true l r x : pair_free l r x = true <-> x <> l /\ x <> r.
Proof. unfold pair_free. by rewrite andb_true_iff, !bool_decide_eq_true. Qed.

(** ** Distances *)

(** An upper bound of a distance in the interval domain: it is right unless it says no bound. *)
Lemma distance_ub_ivl st ivl v i j ub : domain st = DInterval ivl -> describes (domain st) v ->
  distance_upper_bound st i j = Some ub -> v i - v j <= i64_MAX \/ ub < i64_MAX -> v i - v j <= ub.
Proof.
  intros Hdom Hd He Hm. rewrite Hdom in Hd. destruct Hd as (Hw & (Hg & _) & Hh).
  destruct (IntervalProps.distance_bounded ivl v i j _ _ Hh (surjective_pairing _)) as [_ Hub].
  change (Interval.get_distance_interval ivl i j)
    with (Numeric.get_distance_interval (DInterval ivl) i j) in Hub.
  unfold distance_upper_bound in He. rewrite Hdom in He.
  set (direct := (Numeric.get_distance_interval (DInterval ivl) i j).2) in *. clearbody direct.
  unfold Interval.get_packet_size_bound in He. rewrite Hg in He. cbn [fmap option_fmap option_map] in He.
  destruct (negb (direct =? i64_MAX)) eqn:En.
  { injection He as <-. apply negb_true_iff, Z.eqb_neq in En. lia. }
  destruct (_ && _); [done|].
  assert (forall x : option Z, (if decide (j = AnchorDataEnd) then x else x) = x) as E
    by (intros x; by destruct (decide (j = AnchorDataEnd))). rewrite E in He. clear E.
  destruct (get_ptr_offset ivl i) as [po|] eqn:Hp; [|injection He as <-; lia].
  destruct (decide (anchor po = j)) as [Ha|]; injection He as <-; [|lia].
  destruct (IntervalOps.holds_ptr ivl v Hw Hh i po Hp) as [_ [Hdist _ _]]. rewrite Ha in Hdist. lia.
Qed.

Lemma distance_ub_sound st v i j ub : describes (domain st) v -> in_s 64 (v i - v j) ->
  distance_upper_bound st i j = Some ub -> v i - v j <= ub.
Proof.
  intros Hd Hs. assert (Hmax : v i - v j <= i64_MAX) by (IntervalOps.typed_bounds; lia).
  destruct (domain st) as [d|ivl] eqn:Ed.
  - pose proof (Numeric.distance_right _ _ i j Hd Hs) as [_ Hub]. unfold distance_upper_bound.
    rewrite Ed. intros <-%(inj Some).
    change (Numeric.distance (DZone d) i j) with (Numeric.get_distance_interval (DZone d) i j) in Hub. lia.
  - rewrite <- Ed in Hd. intros. by eapply distance_ub_ivl; auto.
Qed.

(** ** Transfers *)

Section Transfer.
Context (v : val) (st : State) (l r : Reg) (b : Z).
Context (Htyped : forall x, in_s 64 (v x)) (Hrel : v l - v r <= b).
Context (Hdesc : describes (domain st) v).

Lemma wrap_typed x : in_s 64 x -> s64 x = x.
Proof. intros. by apply s64_small, in_s64_iff. Qed.

(** The pair is not touched. *)
Lemma passthrough v' delta post_left post_right : v' l = v l -> v' r = v r ->
  (idx l =? post_left)%nat && (idx r =? post_right)%nat && (delta =? 0) = true ->
  rel v' post_left post_right (b + delta).
Proof.
  intros El Er. rewrite !andb_true_iff, !Nat.eqb_eq, Z.eqb_eq. intros [[<- <-] ->].
  exists l, r. split_and!; [done..|]. lia.
Qed.

(** Close a goal [rel] whose indices are those of registers. *)
Ltac close_rel := eexists _, _; split; [reflexivity|split; [reflexivity|]];
  rewrite ?put_eq, ?put_ne by congruence; cbn [result]; rewrite ?wrap_typed by auto; lia.

Lemma mov_sound v' w dst src post_left post_right delta :
  verify_transfer (idx l) (idx r) post_left post_right delta st (Alu w Mov dst (OReg src)) = true ->
  shape_ok (Alu w Mov dst (OReg src)) l r st = true ->
  step (Alu w Mov dst (OReg src)) v v' -> rel v' post_left post_right (b + delta).
Proof.
  cbn [verify_transfer step operand shape_ok]. rewrite !reg_or_zero_idx, !idx_eqb.
  intros Hv Hs ->. case_match eqn:Erej; [done|]. apply expect_true in Hv as (-> & -> & ->).
  unfold pair_free in Hs.
  repeat case_bool_decide; cbn [andb orb negb] in *; rewrite ?Nat.eqb_refl in Erej; subst;
    try done; try congruence; close_rel.
Qed.

Lemma add_imm_transfer v' w dst imm post_left post_right delta :
  verify_transfer (idx l) (idx r) post_left post_right delta st (Alu w Add dst (OImm imm)) = true ->
  shape_ok (Alu w Add dst (OImm imm)) l r st = true ->
  nowrap (Alu w Add dst (OImm imm)) v ->
  step (Alu w Add dst (OImm imm)) v v' -> rel v' post_left post_right (b + delta).
Proof.
  cbn [verify_transfer step operand shape_ok nowrap]. rewrite !idx_eqb.
  intros Hv Hs Hn ->.
  apply orb_true_iff in Hs as [[H1 H2]%pair_free_true|Hs].
  { rewrite !(bool_decide_eq_false_2 _) in Hv by done. cbn [andb negb] in Hv.
    apply passthrough; [by apply put_ne..|done]. }
  rewrite !andb_true_iff, !bool_decide_eq_true, Z.ltb_lt, Z.leb_le in Hs.
  destruct Hs as [[[-> Hlr] Hmin] Hmax].
  assert (neg64 imm = - imm) as Hneg by (apply wrap_typed; IntervalOps.typed_bounds; lia).
  rewrite Hneg in Hv.
  destruct (decide (dst = l)) as [->|Hl].
  - rewrite bool_decide_eq_true_2, (bool_decide_eq_false_2 (l = r)) in Hv by done. cbn [andb negb] in Hv.
    destruct (_ && _) eqn:Ep in Hv; [|done].
    apply andb_true_iff in Ep as [<-%Nat.eqb_eq <-%Nat.eqb_eq]. apply Z.eqb_eq in Hv as ->. close_rel.
  - rewrite (bool_decide_eq_false_2 (dst = l)) in Hv by done. cbn [andb negb] in Hv.
    destruct (decide (dst = r)) as [->|Hr].
    + rewrite bool_decide_eq_true_2 in Hv by done. cbn [andb negb] in Hv.
      destruct (_ && _) eqn:Ep in Hv; [|done].
      apply andb_true_iff in Ep as [<-%Nat.eqb_eq <-%Nat.eqb_eq]. apply Z.eqb_eq in Hv as ->. close_rel.
    + rewrite (bool_decide_eq_false_2 (dst = r)) in Hv by done. cbn [andb negb] in Hv.
      apply passthrough; [by apply put_ne..|done].
Qed.

Lemma interval_of x : (Numeric.get_interval (domain st) x).1 <= v x <= (Numeric.get_interval (domain st) x).2.
Proof. exact (Numeric.interval_right _ _ x Hdesc). Qed.

Lemma add_reg_transfer v' w dst src post_left post_right delta :
  v Zero = 0 ->
  verify_transfer (idx l) (idx r) post_left post_right delta st (Alu w Add dst (OReg src)) = true ->
  shape_ok (Alu w Add dst (OReg src)) l r st = true ->
  nowrap (Alu w Add dst (OReg src)) v ->
  step (Alu w Add dst (OReg src)) v v' -> rel v' post_left post_right (b + delta).
Proof.
  intros Hz. cbn [verify_transfer step operand shape_ok nowrap]. rewrite !idx_eqb, !reg_or_zero_idx.
  intros Hv Hs Hn ->. pose proof (interval_of src) as Hi.
  destruct (Numeric.get_interval (domain st) src) as [src_min src_max]. cbn [fst snd] in Hi, Hs.
  destruct (pair_free l r dst) eqn:Hf.
  - apply pair_free_true in Hf as [Hl Hr].
    rewrite (bool_decide_eq_false_2 (dst = l)), (bool_decide_eq_false_2 (dst = r)) in Hv by done.
    cbn [andb negb] in Hv. destruct (_ && _) eqn:Ea in Hv.
    + rewrite !andb_true_iff, bool_decide_eq_true in Ea.
      destruct Ea as [[[[-> _] _] ->%Nat.eqb_eq] ->%Nat.eqb_eq].
      apply orb_true_iff in Hs as [Hs%bool_decide_eq_true|[->%bool_decide_eq_true ->%bool_decide_eq_true]%andb_true_iff]; [done|].
      destruct (distance_upper_bound st dst Zero) as [ub|] eqn:Ed; [|done].
      apply andb_true_iff in Hv as [_ Hv%Z.leb_le].
      apply (distance_ub_sound st v) in Ed; [|done|rewrite Hz, Z.sub_0_r; apply Htyped].
      close_rel.
    + apply passthrough; [by apply put_ne..|done].
  - rewrite !andb_true_iff, !bool_decide_eq_true in Hs. destruct Hs as [[-> Hlr] Hs].
    destruct (decide (dst = l)) as [->|Hl].
    + rewrite bool_decide_eq_true_2 in Hs, Hv by done. apply bool_decide_eq_true in Hs.
      rewrite (bool_decide_eq_false_2 (l = r)) in Hv by done.
      cbn [andb negb] in Hv. destruct (_ && _) eqn:Ep in Hv.
      * apply andb_true_iff in Ep as [<-%Nat.eqb_eq <-%Nat.eqb_eq].
        apply negb_true_iff, Z.ltb_ge in Hv. close_rel.
      * rewrite !andb_false_r in Hv. cbn [andb] in Hv. destruct (_ && _) eqn:Eq in Hv; [|done].
        rewrite !andb_true_iff, !Nat.eqb_eq, Z.eqb_eq in Eq.
        destruct Eq as [[[->%bool_decide_eq_true ->] ->] ->]. close_rel.
    + assert (dst = r) as ->.
      { apply dec_stable. intros Hr. by rewrite (proj2 (pair_free_true l r dst)) in Hf. }
      rewrite (bool_decide_eq_false_2 (r = l)) in Hs, Hv by done.
      rewrite bool_decide_eq_true_2 in Hv by done. apply Z.ltb_lt in Hs.
      cbn [andb negb] in Hv. rewrite !andb_false_r in Hv. cbn [andb] in Hv.
      destruct (_ && _) eqn:Ep in Hv; [|done].
      apply andb_true_iff in Ep as [<-%Nat.eqb_eq <-%Nat.eqb_eq].
      apply negb_true_iff, Z.ltb_ge in Hv. pose proof (Htyped src). unfold neg64 in Hv.
      rewrite wrap_typed in Hv by (IntervalOps.typed_bounds; lia). close_rel.
Qed.

Lemma step_unwritten i v' x : step i v v' -> x ∉ writes i -> v' x = v x.
Proof.
  destruct i as [w op dst src| | | | | | | | | | | | | | | | ]; cbn [step]; try (by intros [_ H] ?; apply H).
  cbn [writes]. rewrite list_elem_of_singleton.
  destruct op; try (by intros [_ H] Hx; apply H, not_elem_of_cons; split; [|by apply not_elem_of_nil]);
    intros -> Hx; by apply put_ne.
Qed.

Lemma other_transfer i v' post_left post_right delta :
  (if instr_writes_reg i (reg_or_zero (idx l)) || instr_writes_reg i (reg_or_zero (idx r))
   then false
   else (idx l =? post_left)%nat && (idx r =? post_right)%nat && (delta =? 0)) = true ->
  forallb (pair_free l r) (writes i) = true -> step i v v' -> rel v' post_left post_right (b + delta).
Proof.
  case_match; [done|]. intros Hv Hf Hs. rewrite forallb_forall in Hf.
  assert (forall x, x = l \/ x = r -> x ∉ writes i) as Hx.
  { intros x Hx Hin. apply list_elem_of_In, Hf, pair_free_true in Hin. naive_solver. }
  apply passthrough; [by apply step_unwritten with i; auto..|done].
Qed.

Lemma transfer_sound i v' post_left post_right delta : v Zero = 0 ->
  verify_transfer (idx l) (idx r) post_left post_right delta st i = true ->
  shape_ok i l r st = true -> nowrap i v -> step i v v' -> rel v' post_left post_right (b + delta).
Proof.
  intros Hz. destruct i as [w [] dst [src|imm]| | | | | | | | | | | | | | | | ];
    try (intros Hv Hs _; by apply other_transfer).
  - by apply add_reg_transfer.
  - by apply add_imm_transfer.
  - intros Hv Hs _. by eapply mov_sound.
Qed.

End Transfer.

(** ** Facts *)

(** A branch condition that is read as the code reads it: signed, or an unsigned bound by a
    constant that is not negative. *)
Definition signed_op (op : CmpOp) : bool :=
  match op with SLe | SLt | SGe | SGt => true | _ => false end.
Definition branch_ok (i : Instr) : bool :=
  match i with
  | If W64 _ op (OReg _) _ => signed_op op
  | If W64 _ op (OImm c) _ => in_i64 c && (signed_op op || (0 <=? c))
  | _ => true
  end.

Lemma branch_fact_sound i pc v c : (forall x, in_s 64 (v x)) -> v Zero = 0 -> branch_ok i = true ->
  next i pc v (S pc) -> derive_fact_from_branch i pc (pc + 1) = Some c ->
  match i with If _ _ _ _ target => target <> S pc | _ => True end ->
  rel v (c_left c) (c_right c) (c_bound c).
Proof.
  intros Ht Hz Hok Hn Hd Htg. destruct i as [| | |w l op rhs target| | | | | | | | | | | | | ]; try done.
  cbn [derive_fact_from_branch] in Hd. destruct (decide (w = W64)) as [->|]; [|done].
  rewrite (proj2 (Nat.eqb_neq (pc + 1) target)), Nat.eqb_refl in Hd by lia.
  cbn [next] in Hn. destruct (compare _ _ _ _) eqn:Ec; [congruence|]. clear Hn Htg.
  assert (Hs : forall x, s64 (v x) = v x) by (intros; by apply wrap_typed).
  destruct rhs as [r|imm]; cbn [operand] in Ec.
  - cbn [branch_ok] in Hok. destruct op; try done; injection Hd as <-; cbn [c_left c_right c_bound compare] in *;
      rewrite ?Hs in Ec; eexists _, _; (split; [reflexivity|split; [reflexivity|]]); lia.
  - cbn [branch_ok] in Hok. unfold in_i64 in Hok. rewrite !andb_true_iff, !Z.leb_le in Hok.
    destruct Hok as [[Hlo Hhi] Hok].
    pose proof (IntervalSound.u64_cases (v l) (Ht l)) as Hu. pose proof (Ht l) as Hl. unfold checked_sub in Hd.
    destruct op; try done; cbn [compare signed_op orb] in Ec, Hok; rewrite ?Hs, ?(s64_small imm) in Ec by done;
      try (destruct (in_i64 (imm - 1)); [|done]); injection Hd as <-; cbn [c_left c_right c_bound];
      exists l, Zero; (split; [reflexivity|split; [reflexivity|]]); rewrite Hz.
    all: try (apply Z.leb_le in Hok; rewrite (u64_small imm), Hu in Ec by (IntervalOps.typed_bounds; lia)).
    all: IntervalOps.typed_bounds; repeat case_bool; lia.
Qed.

(** ** Chains *)

Section Chains.
Context (prog : Program) (explored : Explored) (lo target : nat).

(** One transfer for every instruction from [p] to the target. *)
Fixpoint transfers_ok (p : nat) (l : list ProofStep) : bool :=
  match l with
  | [] => (p =? target)%nat
  | Transfer q a b _ _ _ :: rest =>
      (q =? p)%nat && (p <? target)%nat &&
      match instrs prog !! p, explored !! p, idx_to_reg a, idx_to_reg b with
      | Some i, Some [st], Some l, Some r => shape_ok i l r st
      | _, _, _, _ => false
      end && transfers_ok (S p) rest
  | _ => false
  end.

(** A fact about the state before an instruction, or the condition of a branch that falls
    through. *)
Definition fact_ok (i : Instr) (p : nat) : bool :=
  branch_ok i && match i with If _ _ _ _ t => negb (t =? S p)%nat | _ => true end.
Definition is_branch (i : Instr) : bool := match i with If _ _ _ _ _ => true | _ => false end.

Definition linear_ok (l : list ProofStep) : bool :=
  match l with
  | Fact p _ _ c :: rest =>
      (lo <=? p)%nat && (p <? target)%nat && (c <? i64_MAX) &&
      match instrs prog !! p with
      | Some i => fact_ok i p && (transfers_ok p rest || is_branch i && transfers_ok (S p) rest)
      | None => false
      end
  | _ => false
  end.

Section Compose.
Context (compose : ProofStep -> bool).
Definition chain_with (l : list ProofStep) : bool :=
  match l with
  | [p] => if is_compose p then compose p else linear_ok l
  | _ => linear_ok l
  end.
End Compose.

Fixpoint composed_ok (p : ProofStep) : bool :=
  match p with
  | Compose l r _ => chain_with composed_ok l && chain_with composed_ok r
  | _ => false
  end.
Definition chain_ok : list ProofStep -> bool := chain_with composed_ok.

Context (tr : nat -> val) (Hst : straight prog tr lo target) (Hex : explored_ok explored tr lo target).

Lemma idx_to_reg_Some n r : idx_to_reg n = Some r -> n = idx r.
Proof. do 15 (destruct n as [|n]; [by intros [= <-]|]). done. Qed.

Lemma bind_Ok {A B} (r : res A) (f : A -> res B) y : bind r f = Ok y -> exists x, r = Ok x /\ f x = Ok y.
Proof. destruct r; cbn; eauto; done. Qed.

Lemma guard_Ok b x : guard b = Ok x -> b = true.
Proof. by destruct b. Qed.

Lemma of_option_Ok {A} (o : option A) x : of_option o = Ok x -> o = Some x.
Proof. destruct o; cbn; congruence. Qed.

Lemma checked_add_eq a b c : checked_add a b = Some c -> c = a + b.
Proof. unfold checked_add. case_match; congruence. Qed.

Lemma unique_Ok p st : get_unique_state explored p = Ok st -> explored !! p = Some [st].
Proof. unfold get_unique_state. repeat case_match; congruence. Qed.

(** Peel the steps of an accepted computation. *)
Ltac peel H := repeat match type of H with
  | bind _ _ = Ok _ => let x := fresh "x" in let E := fresh "E" in
      apply bind_Ok in H as (x & E & H);
      first [apply guard_Ok in E|apply of_option_Ok in E|apply unique_Ok in E|idtac]
  end.

Lemma replay_transfers rest : forall p pcs res, (lo <= p)%nat -> transfers_ok p rest = true ->
  rel (tr p) (current_left pcs) (current_right pcs) (accumulated_bound pcs) ->
  replay_steps (verify_compose explored prog) explored prog pcs rest = Ok res ->
  rel (tr target) (current_left res) (current_right res) (accumulated_bound res).
Proof.
  induction rest as [|s rest IH]; intros p pcs res Hp Hok Hrel Hr; cbn in Hok.
  { apply Nat.eqb_eq in Hok as ->. cbn in Hr. by injection Hr as <-. }
  destruct s as [| | |q a b l' r' d]; try done. rewrite !andb_true_iff in Hok.
  destruct Hok as [[[->%Nat.eqb_eq Hlt%Nat.ltb_lt] Hsh] Hok].
  cbn [replay_steps replay_step] in Hr. apply bind_Ok in Hr as (pcs' & Hs & Hr). peel Hs.
  injection Hs as <-. rewrite andb_true_iff, !Nat.eqb_eq in E. destruct E as [-> ->].
  rewrite E0, E1 in Hsh. destruct Hrel as (l & r & El & Er & Hb). rewrite El, Er in *.
  rewrite !ZoneSound.idx_to_reg_idx in Hsh. apply checked_add_eq in E3 as ->.
  destruct (tr_step _ _ _ _ Hst p) as (i & Hi & Hstep & _ & Hn); [lia|]. simplify_eq.
  pose proof (Hex p x0 ltac:(lia) E0) as Hd.
  eapply (IH (S p)); [lia|done| |exact Hr]. cbn [current_left current_right accumulated_bound].
  eapply transfer_sound; [apply Hst|exact Hb|exact Hd| |exact E2|done..].
  exact (Numeric.describes_zero _ _ Hd).
Qed.

Lemma fact_holds p l r c st i : (lo <= p < target)%nat -> explored !! p = Some [st] ->
  Numeric.is_interval_mode (domain st) = true -> instrs prog !! p = Some i -> fact_ok i p = true ->
  c < i64_MAX -> verify_fact p l r c st prog = Ok true -> rel (tr p) l r c.
Proof.
  intros Hp Hs Hm Hi Hf Hc Hv. destruct (tr_step _ _ _ _ Hst p Hp) as (i' & Hi' & _ & Hn & _).
  rewrite Hi in Hi'. injection Hi' as <-. pose proof (Hex p st Hp Hs) as Hd.
  unfold fact_ok in Hf. apply andb_true_iff in Hf as [Hb Ht].
  unfold verify_fact in Hv. destruct (idx_to_reg l) as [x|] eqn:El; [|done].
  destruct (idx_to_reg r) as [y|] eqn:Er; [|done]. rewrite Hi in Hv.
  apply idx_to_reg_Some in El as ->. apply idx_to_reg_Some in Er as ->.
  injection Hv as Hv. apply orb_true_iff in Hv as [Hv|Hv].
  - destruct (derive_fact_from_branch i p (p + 1)) as [k|] eqn:Ek; [|done].
    rewrite !andb_true_iff, !Nat.eqb_eq, Z.eqb_eq in Hv. destruct Hv as [[-> ->] ->].
    eapply branch_fact_sound; [apply Hst|exact (Numeric.describes_zero _ _ Hd)|done..|].
    destruct i; try done. by apply negb_true_iff, Nat.eqb_neq in Ht.
  - destruct (distance_upper_bound st x y) as [ub|] eqn:Ed; [|done]. apply Z.leb_le in Hv.
    destruct (domain st) as [|ivl] eqn:Edom; [done|]. rewrite <- Edom in Hd.
    exists x, y. split_and!; [done..|].
    pose proof (distance_ub_ivl st ivl (tr p) x y ub Edom Hd Ed ltac:(lia)). lia.
Qed.

(** A branch that falls through changes nothing. *)
Lemma branch_keeps p i l r c : (lo <= p < target)%nat -> instrs prog !! p = Some i ->
  is_branch i = true -> rel (tr p) l r c -> rel (tr (S p)) l r c.
Proof.
  intros Hp Hi Hb (x & y & -> & -> & H). destruct (tr_step _ _ _ _ Hst p Hp) as (i' & Hi' & Hs & _).
  rewrite Hi in Hi'. injection Hi' as <-. destruct i; try done. destruct Hs as [_ Hs].
  exists x, y. rewrite !Hs by (cbn; apply not_elem_of_nil). done.
Qed.

Lemma linear_sound l res : linear_ok l = true -> replay_chain explored prog l = Ok res ->
  rel (tr target) (current_left res) (current_right res) (accumulated_bound res).
Proof.
  intros Hl Hr. destruct l as [|[p a b c| | |] rest]; try done. cbn [linear_ok] in Hl.
  rewrite !andb_true_iff, Z.ltb_lt, Nat.leb_le, Nat.ltb_lt in Hl. destruct Hl as [[[Hlo Hhi] Hc] Hl].
  destruct (instrs prog !! p) as [i|] eqn:Hi; [|done].
  apply andb_true_iff in Hl as [Hf Hl].
  unfold replay_chain, replay_with in Hr. cbn [is_compose andb] in Hr. peel Hr.
  subst. assert (Hfact : rel (tr p) a b c) by (by eapply fact_holds).
  apply orb_true_iff in Hl as [Hl|[Hb Hl]%andb_true_iff].
  - by eapply (replay_transfers rest p _ _ Hlo Hl); [|exact Hr].
  - eapply (replay_transfers rest (S p) _ _ ltac:(lia) Hl); [|exact Hr]. by eapply branch_keeps.
Qed.

Definition composed_sound (p : ProofStep) : Prop := forall res, composed_ok p = true ->
  verify_compose explored prog p = Ok res ->
  rel (tr target) (current_left res) (current_right res) (accumulated_bound res).

Lemma chain_sound l res : Forall composed_sound l -> chain_ok l = true ->
  replay_chain explored prog l = Ok res ->
  rel (tr target) (current_left res) (current_right res) (accumulated_bound res).
Proof.
  intros Hl Hok Hr. unfold chain_ok, chain_with in Hok.
  destruct l as [|p [|q rest]]; try (by apply linear_sound in Hr).
  destruct (is_compose p) eqn:Ec; [|by apply linear_sound in Hr].
  unfold replay_chain, replay_with in Hr. rewrite Ec in Hr. cbn [andb] in Hr.
  inversion Hl as [|?? Hp _]; subst. by apply Hp.
Qed.

Lemma all_composed_sound p : composed_sound p.
Proof.
  induction p as [| | |l r via Hl Hr] using nested_ind; try (by intros ? _).
  intros res Hok He. cbn [composed_ok] in Hok. apply andb_true_iff in Hok as [H1 H2].
  cbn [verify_compose] in He. peel He. injection He as <-. cbn.
  apply Nat.eqb_eq in E0 as E0'. apply Nat.eqb_eq in E2 as E2'. apply checked_add_eq in E3 as ->.
  destruct (chain_sound l x Hl H1 E) as (a & k & -> & Ek & Hak).
  destruct (chain_sound r x1 Hr H2 E1) as (k' & b & Ek' & -> & Hkb).
  assert (k = k') as -> by (apply idx_inj; congruence).
  exists a, b. split_and!; [done..|lia].
Qed.

Lemma entry_sound e w : check_proof e explored prog = Ok w -> chain_ok (proof e) = true ->
  w = MkVerified (left_reg e) (right_reg e) (bound e) /\
  rel (tr target) (left_reg e) (right_reg e) (bound e).
Proof.
  intros Hc Hok. unfold check_proof in Hc. destruct (proof e) eqn:Ep; [done|]. rewrite <- Ep in *.
  peel Hc. injection Hc as <-. split; [done|].
  rewrite andb_true_iff, !Nat.eqb_eq in E0. destruct E0 as [<- <-]. apply Z.eqb_eq in E1 as <-.
  eapply chain_sound; [|done..]. apply Forall_forall. intros. apply all_composed_sound.
Qed.

End Chains.

End PccSound.
