(* ===== verification/PccProps.v ===== *)
(** What certificates buy: an accepted chain without gaps, injected into the state before the
    access, keeps the state sound, so that the access it lets through is inside the packet; the
    derivations; and accepted certificates that are false. *)

From S2P Require Import Prelude Zone ZoneSound Interval IntervalSound IntervalOps IntervalProps.
From S2P Require Import Numeric VState Ast IntervalPacket PacketFamily PacketSound PacketPath Pcc PccSound.
From Stdlib Require Import ZArith Lia Bool.
From stdpp Require Import base numbers list gmap.
Open Scope Z_scope.

Module PccProps.
Import Zone(Reg(..), Reg_eq_dec, idx, idx_to_reg, i64_MAX, i64_MIN, saturate, saturating_add).
Import ZoneSound(in_s64_iff, s64_small, u64_small, idx_inj, idx_to_reg_idx).
Import Interval(PtrOffset, IntervalState, anchor, off, var_off, range, max_offset, get_ptr_offset).
Import IntervalSound(ivl_wf, ivl_holds, po_typed, po_holds, range_holds).
Import Numeric(NumericDomain(..), describes) VState.
Import Ast(Instr(..), AluOp(..), CmpOp(..), Operand(..), Width(..), SxWidth(..), Program(..), instrs,
           compare, operand, step, next, writes).
Import Pcc PccSound.
#[local] Existing Instance Zone.Reg_eq_dec.
#[local] Existing Instance Numeric.numeric_domain.
Abbreviation fits64 := (IntervalOps.fits i64_MIN i64_MAX).

(** * Injection *)

(** The bound is one the injector may use: for the end of the packet it says that bytes are left,
    elsewhere the arithmetic on offsets does not wrap. *)
Definition inject_ok (st : State) (i j : Reg) (c : Z) : bool :=
  match domain st with
  | DZone _ => true
  | DInterval ivl =>
      match get_ptr_offset ivl i with
      | None => true
      | Some po =>
          if bool_decide (j = AnchorDataEnd) && bool_decide (anchor po = AnchorData)
          then (i64_MIN <? c) && (c <=? 0)
          else if decide (j = anchor po) then fits64 (c - off po)
          else match map_of (type_get (types st) i), map_of (type_get (types st) j),
                     get_ptr_offset ivl j with
               | Some i_map, Some j_map, Some jp =>
                   negb (i_map =? j_map)%nat ||
                   bool_decide (anchor jp = anchor po) && fits64 (off jp + s64 (var_off jp)) &&
                   fits64 (c + (off jp + s64 (var_off jp)) - off po)
               | _, _, _ => true
               end
      end
  end.

Section Inject.
Context (ivl : IntervalState) (v : Reg -> Z) (i : Reg) (po : PtrOffset).
Context (Hd : describes (DInterval ivl) v) (Hp : get_ptr_offset ivl i = Some po).

Lemma ptr_refined f : po_typed (f po) -> po_holds v i (f po) ->
  describes (DInterval (Interval.upd_ptr ivl i (fmap f))) v.
Proof.
  intros Ht Hh. destruct Hd as (Hw & Hg & [Hv Hr]). refine (conj _ (conj Hg _)).
  - apply IntervalOps.upd_ptr_wf; [done|]. rewrite Hp. by intros q [= <-].
  - split; [done|]. intros y. unfold Interval.upd_ptr. rewrite IntervalSound.get_upd by apply Hw.
    case_decide; [subst y|apply Hr]. split; [apply Hr|]. intros q. cbn.
    change (Interval.ptr_offset (Interval.get ivl i)) with (get_ptr_offset ivl i). rewrite Hp.
    by intros [= <-].
Qed.

Lemma po_facts : po_typed po /\ po_holds v i po.
Proof. destruct Hd as (Hw & _ & Hh). by apply (IntervalOps.holds_ptr ivl v Hw Hh). Qed.

(** Bytes up to the end of the packet. *)
Lemma range_injected c : anchor po = AnchorData -> v i - v AnchorDataEnd <= c -> i64_MIN < c <= 0 ->
  describes (DInterval (Interval.upd_ptr ivl i (fmap (with_proven_range (Z.max (neg64 c) 0))))) v.
Proof.
  intros Ha Hc Hm. destruct po_facts as [[] [Hdist Hr He]].
  assert (neg64 c = - c) as -> by (apply wrap_typed; IntervalOps.typed_bounds; lia).
  rewrite Z.max_l by lia. unfold range_holds in Hr. rewrite Ha in Hr. cbn in Hr.
  apply ptr_refined; constructor; cbn; auto.
  - intros r [= <-]. destruct (range po) as [r0|] eqn:E; cbn; [|IntervalOps.typed_bounds; lia].
    specialize (typed_range r0 eq_refl). IntervalOps.typed_bounds. lia.
  - unfold range_holds. cbn. rewrite Ha. cbn. destruct (range po); cbn; lia.
Qed.

(** A largest offset from the anchor. *)
Lemma var_injected c : v i - v (anchor po) <= c -> i64_MIN <= c - off po <= i64_MAX ->
  describes (DInterval (Interval.upd_ptr ivl i (fmap (with_var_ub (u64 (Z.max (s64 (c - off po)) 0)))))) v.
Proof.
  intros Hc Hm. destruct po_facts as [[] [Hdist Hr He]]. rewrite s64_small by done.
  rewrite Z.max_l by lia. rewrite u64_small by (IntervalOps.typed_bounds; lia).
  apply ptr_refined; constructor; cbn; auto.
  - IntervalOps.typed_bounds. lia.
  - unfold max_offset in *. cbn. destruct (Z.min_spec (var_off po) (c - off po)) as [[_ ->]|[_ ->]]; [done|].
    rewrite s64_small by lia. revert Hdist. unfold saturating_add, saturate.
    repeat case_bool; IntervalOps.typed_bounds; lia.
Qed.
End Inject.

Lemma inject_sound st v i j c : describes (domain st) v -> v i - v j <= c ->
  inject_ok st i j c = true -> describes (domain (apply_verified_fact st (idx i) (idx j) c)) v.
Proof.
  intros Hd Hc Hok. unfold apply_verified_fact. rewrite !idx_to_reg_idx. unfold inject_ok in Hok.
  destruct (domain st) as [|ivl] eqn:Ed; [by rewrite Ed|].
  destruct (get_ptr_offset ivl i) as [po|] eqn:Hp; [|by rewrite Ed].
  destruct (_ && _) eqn:E1.
  { apply andb_true_iff in E1 as [->%bool_decide_eq_true Ha%bool_decide_eq_true].
    apply andb_true_iff in Hok as [H1%Z.ltb_lt H2%Z.leb_le]. cbn [with_domain domain].
    by eapply range_injected. }
  destruct (decide (j = anchor po)) as [->|Hj].
  { apply IntervalOps.fits_true in Hok. by eapply var_injected. }
  destruct (map_of (type_get (types st) i)) as [mi|]; [|by rewrite Ed].
  destruct (map_of (type_get (types st) j)) as [mj|]; [|by rewrite Ed].
  destruct (get_ptr_offset ivl j) as [jp|] eqn:Hjp; [|by rewrite Ed].
  destruct (mi =? mj)%nat; [|by rewrite Ed]. cbn [negb orb] in Hok.
  rewrite !andb_true_iff, bool_decide_eq_true in Hok.
  destruct Hok as [[Ha H1%IntervalOps.fits_true] H2%IntervalOps.fits_true].
  destruct (po_facts ivl v j jp Hd Hjp) as [_ [Hdist _ _]]. rewrite Ha in Hdist.
  unfold max_offset, saturating_add in Hdist. rewrite IntervalOps.saturate_fits in Hdist by done.
  unfold add64. rewrite (s64_small (off jp + _)) by done.
  eapply (var_injected ivl v i po Hd Hp); lia.
Qed.

(** * Certified accesses *)

(** C4. Safety of certified accesses, under conditions.  Given a straight execution up to the access
    in which no 64-bit addition wraps, explored states that describe it, and a certificate entry that
    the checker accepts, whose chain has no gap ([chain_ok]: it starts with a fact of the explored
    state or of a signed comparison on the way, has one transfer per instruction up to the access, of
    the shapes of [shape_ok], or composes such chains; no derivations), with a bound that the injector
    may use ([inject_ok]: not positive for the end of the packet, no wrap of offsets elsewhere): the
    claimed relation is true before the access, the state it is injected into still describes the
    execution, and an access in the interval domain that it lets through, whose last offset fits into
    64 bits, lies inside the packet.  [certificate_gaps] has accepted entries that are wrong where a
    condition fails. *)
Theorem certified_access_safe prog explored lo target tr e w st :
  straight prog tr lo target -> explored_ok explored tr lo target ->
  check_proof e explored prog = Ok w -> chain_ok prog explored lo target (proof e) = true ->
  describes (domain st) (tr target) ->
  (forall i j, left_reg e = idx i -> right_reg e = idx j -> inject_ok st i j (bound e) = true) ->
  rel (tr target) (left_reg e) (right_reg e) (bound e) /\
  let st' := apply_verified_refinements st [w] in
  describes (domain st') (tr target) /\
  forall ivl base o size, domain st' = DInterval ivl -> in_s 64 (o + size) ->
    Numeric.verify_packet_bounds (domain st') base o size = (true, true) ->
    tr target AnchorData <= tr target base + o /\ tr target base + o + size <= tr target AnchorDataEnd.
Proof.
  intros Hst Hex Hc Hok Hd Hin. destruct (entry_sound prog explored lo target tr Hst Hex e w Hc Hok) as [-> Hrel].
  split; [done|]. cbn [apply_verified_refinements foldl v_left v_right v_bound]. cbv zeta.
  destruct Hrel as (i & j & Ei & Ej & Hb). rewrite Ei, Ej in *.
  pose proof (inject_sound st _ i j _ Hd Hb (Hin i j eq_refl eq_refl)) as Hd'. split; [done|].
  intros ivl base o size E Hos Hv. rewrite E in *. destruct Hd' as (_ & _ & Hh).
  by apply (IntervalProps.region_access_inside ivl _ base o size AnchorData AnchorDataEnd).
Qed.

(** R2 is data, R3 is data_end, R4 is R2 + 14: if R4 s> R3 goto 3; the header is read at R4 - 14. *)
Definition checked_load : Program :=
  MkProgram [Alu W64 Add R4 (OImm 14); If W64 R4 SGt (OReg R3) 3; Load Ast.U64 R5 R4 (-14); Exit].
Definition header_state : State :=
  MkState 1 PacketPath.t4 (DInterval (IntervalProps.run_all PacketPath.header_ops Interval.new 1).1) [].
Definition header_val : Reg -> Z :=
  IntervalSound.vset (IntervalSound.vset (IntervalSound.vset (IntervalSound.vset
    (IntervalProps.packet_val 1000 1014) R2 1000) R3 1014) R4 1000) R4 1014.
Definition header_explored : Explored := {[ 1%nat := [header_state] ]}.
(** R4 - R3 <= 0 from the branch, R3 - @data_end <= 0 from the state. *)
Definition header_entry : AnnotationEntry :=
  MkEntry (idx R4) (idx AnchorDataEnd) 0
    [Compose [Fact 1 (idx R4) (idx R3) 0] [Fact 1 (idx R3) (idx AnchorDataEnd) 0] (idx R3)].

Lemma header_described : describes (domain header_state) header_val.
Proof.
  refine (IntervalProps.path_keeps Interval.new 1 (IntervalProps.packet_val 1000 1014) _ 1 _ _
    IntervalProps.new_wf _ _); [|done|].
  - unfold PacketPath.header_ops, IntervalProps.run_all. cbn [foldl].
    PacketPath.gap_step (IntervalOps.OBind R2 AnchorData).
    PacketPath.gap_step (IntervalOps.OBind R3 AnchorDataEnd).
    PacketPath.gap_step (IntervalOps.OAssignReg R4 R2). PacketPath.gap_step (IntervalOps.OAddImm R4 14).
    apply IntervalProps.path_nil.
  - apply IntervalProps.new_holds. split; [intros []; vm_compute; split; congruence|done].
Qed.

Lemma certified_access_safe_witness :
  Numeric.verify_packet_bounds (domain header_state) R4 (-14) 14 = (true, false) /\
  header_val AnchorData <= header_val R4 + -14 /\
  header_val R4 + -14 + 14 <= header_val AnchorDataEnd.
Proof.
  split; [vm_compute; reflexivity|].
  refine (proj2 (proj2 (certified_access_safe checked_load header_explored 1 2 (fun _ => header_val)
    header_entry (MkVerified (idx R4) (idx AnchorDataEnd) 0) header_state _ _ _ _ header_described _))
    (Interval.upd_ptr (IntervalProps.run_all PacketPath.header_ops Interval.new 1).1 R4
       (fmap (with_proven_range 0))) R4 (-14) 14 _ _ _).
  - split; [intros p []; vm_compute; split; congruence|]. intros p Hp.
    assert (p = 1%nat) as -> by lia. eexists. split; [reflexivity|].
    split; [split; [intros []; vm_compute; split; congruence|done]|]. done.
  - intros p st Hp. assert (p = 1%nat) as -> by lia.
    change (header_explored !! 1%nat) with (Some [header_state]). intros [= <-]. exact header_described.
  - vm_compute. reflexivity.
  - vm_compute. reflexivity.
  - intros i j Ei Ej. assert (i = R4) as -> by (by apply idx_inj). assert (j = AnchorDataEnd) as -> by (by apply idx_inj).
    vm_compute. reflexivity.
  - vm_compute. reflexivity.
  - vm_compute. split; congruence.
  - vm_compute. reflexivity.
Defined.

(** * Derivations *)

(** The checker sees every write of the instruction to the two registers. *)
Definition writes_seen (x y : Reg) (i : Instr) : Prop :=
  forall z, z = x \/ z = y -> z ∈ writes i -> instr_writes_reg i z = true.

Section Derive.
Context (x y : Reg) (Hxy : x <> y).

(** What the loop knows: once linked, [x] is [y] plus the offset. *)
Definition linked_rel (v : Reg -> Z) (acc : bool * Z) : Prop := acc.1 = true -> v x = v y + acc.2.

Lemma derive_step i v v' acc acc' : (forall z, in_s 64 (v z)) ->
  in_s 64 (v' x - v' y) -> writes_seen x y i -> nowrap i v -> step i v v' ->
  linked_rel v acc -> derive_instr x y i acc = Some acc' -> linked_rel v' acc'.
Proof.
  intros Ht Hd Hw Hn Hs Hl He. destruct acc as [linked o].
  assert (Hother : (if linked && (instr_writes_reg i x || instr_writes_reg i y)
                    then None else Some (linked, o)) = Some acc' -> linked_rel v' acc').
  { intros Ho. destruct linked; [|injection Ho as <-; by intros ?]. cbn [andb] in Ho.
    destruct (_ || _) eqn:Ew; [done|]. apply orb_false_iff in Ew as [Ex Ey]. injection Ho as <-.
    intros _. rewrite (step_unwritten v i v' x Hs), (step_unwritten v i v' y Hs).
    - by apply (Hl eq_refl).
    - intros Hin. rewrite (Hw y) in Ey by auto. done.
    - intros Hin. rewrite (Hw x) in Ex by auto. done. }
  destruct i as [[] [] dst [src|imm]| | | | | | | | | | | | | | | | ]; try (by apply Hother);
    cbn [derive_instr] in He;
    (destruct (bool_decide (dst = x) && _) eqn:Ec in He; [|by apply Hother]); injection He as <-;
    apply andb_true_iff in Ec as [->%bool_decide_eq_true Ec].
  - subst linked. intros _. cbn [step operand nowrap snd] in *. subst v'.
    rewrite put_eq, put_ne in * by done. cbn [Ast.result] in *. rewrite wrap_typed in * by done.
    rewrite (Hl eq_refl) in *. cbn [snd] in *. unfold add64. rewrite wrap_typed; [lia|].
    replace (o + imm) with (v y + o + imm - v y) by lia. done.
  - apply bool_decide_eq_true in Ec as ->. intros _. cbn [step operand snd] in *. subst v'.
    rewrite put_eq, put_ne by done. cbn [Ast.result]. rewrite wrap_typed by done. lia.
Qed.

Lemma derive_loop_sound prog tr n : forall p acc acc', straight prog tr p (p + n) ->
  (forall q, in_s 64 (tr q x - tr q y)) ->
  (forall q i, instrs prog !! q = Some i -> (p <= q < p + n)%nat -> writes_seen x y i) ->
  linked_rel (tr p) acc -> derive_loop x y (take n (drop p (instrs prog))) acc = Some acc' ->
  linked_rel (tr (p + n)%nat) acc'.
Proof.
  induction n as [|n IH]; intros p acc acc' [Ht Hst] Hd Hw Hl He.
  { rewrite take_0 in He. cbn in He. injection He as <-. by rewrite Nat.add_0_r. }
  destruct (Hst p) as (i & Hi & Hs & _ & Hn); [lia|].
  rewrite (drop_S _ i p) in He by done. cbn in He.
  destruct (derive_instr x y i acc) as [acc1|] eqn:E1; [|done].
  rewrite <- Nat.add_succ_comm. eapply (IH (S p)); [|done| | |exact He].
  - split; [done|]. intros q Hq. apply Hst. lia.
  - intros q j Hj Hq. apply (Hw q j Hj). lia.
  - eapply derive_step; eauto. apply (Hw p i Hi). lia.
Qed.
End Derive.

(** C20. An accepted derivation is true under conditions: after the instructions it names have been
    executed in a row, no 64-bit addition wrapping, the source register is the target register plus
    the claimed offset, provided the two registers differ, their difference stays in 64 bits
    throughout, and the instructions write the two registers only in ways the checker looks for
    ([writes_seen]; it overlooks sign-extending moves and loads, acquire loads, atomics and function
    calls).  [certificate_gaps] has accepted derivations that are false where a condition fails. *)
Theorem derive_sound prog tr a b x y o :
  verify_derive a b (idx x) (idx y) o prog = true -> x <> y -> straight prog tr a (S b) ->
  (forall q, in_s 64 (tr q x - tr q y)) ->
  (forall q i, instrs prog !! q = Some i -> (a <= q <= b)%nat -> writes_seen x y i) ->
  tr (S b) x = tr (S b) y + o.
Proof.
  unfold verify_derive. rewrite !idx_to_reg_idx. intros Hv Hxy Hst Hd Hw.
  destruct (_ || _) eqn:E; [done|]. apply orb_false_iff in E as [E%Nat.ltb_ge _].
  destruct (derive_loop _ _ _ _) as [[linked o']|] eqn:El; [|done].
  apply andb_true_iff in Hv as [-> <-%Z.eqb_eq].
  replace (S b) with (a + (b + 1 - a))%nat in * by lia.
  refine (derive_loop_sound x y Hxy prog tr (b + 1 - a) a (false, 0) (true, o') Hst Hd _ _ El eq_refl).
  - intros q i Hi Hq. apply (Hw q i Hi). lia.
  - by intros ?.
Qed.

(** R1 = R2; R1 += 8: R1 is R2 + 8. *)
Definition copy_add : Program := MkProgram [Alu W64 Mov R1 (OReg R2); Alu W64 Add R1 (OImm 8); Exit].
Definition copy_trace (p : nat) : Reg -> Z :=
  match p with
  | 0%nat => fun _ => 0
  | 1%nat => Ast.vset (fun _ => 0) R1 0
  | _ => Ast.vset (Ast.vset (fun _ => 0) R1 0) R1 8
  end.

Lemma derive_sound_witness : copy_trace 2 R1 = copy_trace 2 R2 + 8.
Proof.
  refine (derive_sound copy_add copy_trace 0 1 R1 R2 8 _ _ _ _ _).
  - vm_compute. reflexivity.
  - done.
  - split.
    + intros p r. destruct p as [|[|p]], r; vm_compute; split; congruence.
    + intros p Hp. assert (p = 0 \/ p = 1)%nat as [-> | ->] by lia; eexists; (split; [reflexivity|]);
        (split; [reflexivity|]); (split; [reflexivity|]); [done|vm_compute; split; congruence].
  - intros q. destruct q as [|[|q]]; vm_compute; split; congruence.
  - intros q i Hi Hq z _ Hz. assert (q = 0 \/ q = 1)%nat as [-> | ->] by lia; injection Hi as <-;
      cbn [writes] in Hz; apply list_elem_of_singleton in Hz as ->; reflexivity.
Defined.

(** * Accepted certificates that are false *)

(** An execution through the program; where a state was explored it describes the values. *)
Inductive runs (prog : Program) (explored : Explored) : nat -> val -> nat -> val -> Prop :=
| runs_refl p v : runs prog explored p v p v
| runs_step p v i v1 p1 p' v' :
    instrs prog !! p = Some i -> (forall st, explored !! p = Some [st] -> describes (domain st) v) ->
    step i v v1 -> next i p v p1 -> runs prog explored p1 v1 p' v' -> runs prog explored p v p' v'.

(** The entry is valid and accepted, and an execution reaches the target with a larger
    difference. *)
Definition accepted_false (prog : Program) (explored : Explored) (target : nat) (e : AnnotationEntry)
  : Prop :=
  validate_entry prog target 0 0 e = None /\
  check_proof e explored prog = Ok (MkVerified (left_reg e) (right_reg e) (bound e)) /\
  exists v0 v l r, runs prog explored 0 v0 target v /\
    left_reg e = idx l /\ right_reg e = idx r /\ bound e < v l - v r.

(** States and values with some registers constant and the others zero. *)
Definition values (cs : list (Reg * Z)) : val :=
  foldl (fun v c => IntervalSound.vset v c.1 c.2) IntervalProps.zero_val cs.
Definition constants (cs : list (Reg * Z)) : IntervalState :=
  foldl (fun i c => Interval.assign_imm i c.1 c.2) Interval.new cs.
Definition at_pc (p : nat) (cs : list (Reg * Z)) : Explored :=
  {[ p := [MkState p new_not_init (DInterval (constants cs)) []] ]}.

Definition constant_ok (c : Reg * Z) : Prop := IntervalSound.base_reg c.1 = false /\ in_s 64 c.2.

Lemma constants_describe cs : Forall constant_ok cs -> describes (DInterval (constants cs)) (values cs).
Proof.
  unfold constants, values.
  assert (describes (DInterval Interval.new) IntervalProps.zero_val) as H0
    by (refine (conj IntervalProps.new_wf (conj _ _)); [done|apply IntervalProps.new_holds, IntervalProps.zero_val_ok]).
  revert H0. generalize Interval.new as ivl. generalize IntervalProps.zero_val as s.
  induction cs as [|[x c] cs IH]; intros s ivl H0 Hc; [done|].
  apply Forall_cons in Hc as [[Hx Hi] Hc]. cbn [foldl fst snd] in *. apply IH; [|done].
  destruct H0 as (Hw & Hg & Hh). refine (conj _ (conj _ _)).
  - by apply (IntervalOps.ops_wf (IntervalOps.OAssignImm x c) ivl 1).
  - by apply (IntervalProps.run_geometry (IntervalOps.OAssignImm x c) ivl 1).
  - apply (IntervalOps.op_sound (IntervalOps.OAssignImm x c) ivl 1 s); try done.
    cbn [IntervalOps.dst_ok]. by rewrite Hx.
Qed.

Lemma at_pc_describes p q cs st : Forall constant_ok cs -> at_pc p cs !! q = Some [st] ->
  describes (domain st) (values cs).
Proof.
  intros Hc Hl. unfold at_pc, Explored in Hl. apply lookup_singleton_Some in Hl as [_ [= <-]].
  by apply constants_describe.
Qed.

(** The entry is valid and accepted; an execution of one instruction from the constant state ends
    at [v] and breaks the bound of [l] and [r]. *)
Lemma refute_one i rest cs v p1 e l r :
  Forall constant_ok cs ->
  validate_entry (MkProgram (i :: rest)) p1 0 0 e = None ->
  check_proof e (at_pc 0 cs) (MkProgram (i :: rest)) = Ok (MkVerified (left_reg e) (right_reg e) (bound e)) ->
  step i (values cs) v -> next i 0 (values cs) p1 ->
  left_reg e = idx l -> right_reg e = idx r -> bound e < v l - v r ->
  accepted_false (MkProgram (i :: rest)) (at_pc 0 cs) p1 e.
Proof.
  intros Hc Hv Hp Hs Hn Hl Hr Hb. split; [done|split; [done|]]. exists (values cs), v, l, r.
  split; [|done]. eapply runs_step; [reflexivity| |done|done|apply runs_refl].
  intros st Hst. by eapply at_pc_describes.
Qed.

Ltac constants_typed :=
  repeat (apply Forall_cons; split; [split; [reflexivity|vm_compute; split; congruence]|]); apply Forall_nil; exact I.
(** Everything by computation; the instruction is an assignment or an addition. *)
Ltac refute l r := eapply (refute_one _ _ _ _ _ _ l r);
  [constants_typed|vm_compute; reflexivity|vm_compute; reflexivity|reflexivity|reflexivity
  |reflexivity|reflexivity|vm_compute; reflexivity].

(** The instruction at the fact's own position, or after the last step, is not accounted for. *)
Lemma gap_skipped : accepted_false (MkProgram [Alu W64 Add R1 (OImm 100); Exit]) (at_pc 0 [(R1, 5)]) 1
  (MkEntry (idx R1) 0 5 [Fact 0 (idx R1) 0 5]).
Proof. refute R1 Zero. Qed.

(** The transfers do not look at the width: w1 += 0 on -5 gives 2^32 - 5. *)
Lemma gap_width : accepted_false (MkProgram [Alu W32 Add R1 (OImm 0); Exit]) (at_pc 0 [(R1, -5)]) 1
  (MkEntry (idx R1) 0 (-5) [Fact 0 (idx R1) 0 (-5); Transfer 0 (idx R1) 0 (idx R1) 0 0]).
Proof. refute R1 Zero. Qed.

(** A move between the two registers: R1 - R2 <= -8, then R1 = R2. *)
Lemma gap_move : accepted_false (MkProgram [Alu W64 Mov R1 (OReg R2); Exit]) (at_pc 0 [(R1, 0); (R2, 8)]) 1
  (MkEntry (idx R1) (idx R2) (-8)
    [Fact 0 (idx R1) (idx R2) (-8); Transfer 0 (idx R1) (idx R2) (idx R1) (idx R2) 0]).
Proof. refute R1 R2. Qed.

(** R3 += R1 with R1 - R2 <= 0: the bound of R3 - R2 is added, not that of R3. *)
Lemma gap_absorb :
  accepted_false (MkProgram [Alu W64 Add R3 (OReg R1); Exit]) (at_pc 0 [(R1, 10); (R2, 10); (R3, 10)]) 1
    (MkEntry (idx R3) (idx R2) 0
      [Fact 0 (idx R1) (idx R2) 0; Transfer 0 (idx R1) (idx R2) (idx R3) (idx R2) 0]).
Proof. refute R3 R2. Qed.

(** A composition in the middle of a chain is added to a bound of other registers. *)
Lemma gap_compose :
  accepted_false (MkProgram [Alu W64 Mov R9 (OImm 0); Exit]) (at_pc 0 [(R1, -100); (R2, 7); (R3, 0)]) 1
    (MkEntry (idx R2) 0 (-93)
      [Fact 0 (idx R1) 0 (-100); Compose [Fact 0 (idx R2) (idx R3) 7] [Fact 0 (idx R3) 0 0] (idx R3)]).
Proof. refute R2 Zero. Qed.

(** A derivation forgets the right register: from R1 - R2 <= -8 and R1 = R3 it has R3 <= -8. *)
Lemma gap_derive :
  accepted_false (MkProgram [Alu W64 Mov R1 (OReg R3); Exit]) (at_pc 0 [(R1, 0); (R2, 8)]) 1
    (MkEntry (idx R3) 0 (-8) [Fact 0 (idx R1) (idx R2) (-8); Derive 0 0 (idx R1) (idx R3) 0]).
Proof. refute R3 Zero. Qed.

(** The registers after an instruction whose result is left open. *)
Ltac refute_open v l r := eapply (refute_one _ _ _ v _ _ l r);
  [constants_typed|vm_compute; reflexivity|vm_compute; reflexivity| |reflexivity
  |reflexivity|reflexivity|vm_compute; reflexivity].

(** A sign-extending move is not seen as a write. *)
Lemma gap_movsx :
  accepted_false (MkProgram [Ast.MovSx W64 B8 R1 (OReg R2); Exit]) (at_pc 0 [(R1, 0); (R2, 7)]) 1
    (MkEntry (idx R1) 0 0 [Fact 0 (idx R1) 0 0; Transfer 0 (idx R1) 0 (idx R1) 0 0]).
Proof.
  refute_open (values [(R2, 7); (R1, 7)]) R1 Zero.
  split; [intros []; vm_compute; split; congruence|]. intros x Hx. cbn [writes] in Hx.
  destruct x; try reflexivity. exfalso. apply Hx, list_elem_of_singleton. done.
Qed.

(** The condition of the edge that falls through, at the end of the edge that is taken. *)
Lemma gap_taken : accepted_false (MkProgram [If W64 R1 SGt (OImm 5) 2; Exit; Exit]) (at_pc 0 [(R1, 9)]) 2
  (MkEntry (idx R1) 0 5 [Fact 0 (idx R1) 0 5]).
Proof.
  refute_open (values [(R1, 9)]) R1 Zero. split; [intros []; vm_compute; split; congruence|done].
Qed.

(** An unsigned condition read as a signed one: 1 u<= 2^64 - 1 gives 1 <= -1. *)
Lemma gap_unsigned :
  accepted_false (MkProgram [If W64 R1 UGt (OReg R2) 2; Exit; Exit]) (at_pc 0 [(R1, 1); (R2, -1)]) 1
    (MkEntry (idx R1) (idx R2) 0 [Fact 0 (idx R1) (idx R2) 0]).
Proof.
  refute_open (values [(R1, 1); (R2, -1)]) R1 R2. split; [intros []; vm_compute; split; congruence|done].
Qed.

(** A bound that is not negative: R2 may be 8 bytes past the end, and is given the bytes before. *)
Definition past_end : State :=
  MkState 0 PacketPath.t2
    (DInterval (Interval.apply_add_imm (Interval.bind_to_anchor Interval.new R2 AnchorData) R2 8)) [].
Definition past_end_val : Reg -> Z :=
  IntervalSound.vset (IntervalSound.vset (IntervalProps.packet_val 1000 1004) R2 1000) R2 1008.

Lemma gap_inject :
  describes (domain past_end) past_end_val /\ past_end_val R2 - past_end_val AnchorDataEnd <= 8 /\
  Numeric.verify_packet_bounds
    (domain (apply_verified_refinements past_end [MkVerified (idx R2) (idx AnchorDataEnd) 8])) R2 (-4) 4
    = (true, true) /\
  past_end_val AnchorDataEnd < past_end_val R2 + -4 + 4.
Proof.
  split; [|vm_compute; intuition congruence].
  refine (IntervalProps.path_keeps Interval.new 1 (IntervalProps.packet_val 1000 1004) _ 1 _ _
    IntervalProps.new_wf _ _); [|done|].
  - PacketPath.gap_step (IntervalOps.OBind R2 AnchorData).
    PacketPath.gap_step (IntervalOps.OAddImm R2 8). apply IntervalProps.path_nil.
  - apply IntervalProps.new_holds. split; [intros []; vm_compute; split; congruence|done].
Qed.

(** Certificates that pass validation and are accepted although an execution that the explored
    states describe reaches the target with a larger difference: an instruction no step accounts
    for; a 32-bit addition; a move between the two registers; an addition that absorbs a register
    whose distance, not value, is bounded; a composition added to the bound of other registers; a
    derivation that drops the right register; a sign-extending move; the condition of the edge that
    was not taken; an unsigned condition.  And a bound that is not negative makes the injector
    accept a read past the end of the packet. *)
Theorem certificate_gaps :
  accepted_false (MkProgram [Alu W64 Add R1 (OImm 100); Exit]) (at_pc 0 [(R1, 5)]) 1
    (MkEntry (idx R1) 0 5 [Fact 0 (idx R1) 0 5]) /\
  accepted_false (MkProgram [Alu W32 Add R1 (OImm 0); Exit]) (at_pc 0 [(R1, -5)]) 1
    (MkEntry (idx R1) 0 (-5) [Fact 0 (idx R1) 0 (-5); Transfer 0 (idx R1) 0 (idx R1) 0 0]) /\
  accepted_false (MkProgram [Alu W64 Mov R1 (OReg R2); Exit]) (at_pc 0 [(R1, 0); (R2, 8)]) 1
    (MkEntry (idx R1) (idx R2) (-8)
      [Fact 0 (idx R1) (idx R2) (-8); Transfer 0 (idx R1) (idx R2) (idx R1) (idx R2) 0]) /\
  accepted_false (MkProgram [Alu W64 Add R3 (OReg R1); Exit]) (at_pc 0 [(R1, 10); (R2, 10); (R3, 10)]) 1
    (MkEntry (idx R3) (idx R2) 0
      [Fact 0 (idx R1) (idx R2) 0; Transfer 0 (idx R1) (idx R2) (idx R3) (idx R2) 0]) /\
  accepted_false (MkProgram [Alu W64 Mov R9 (OImm 0); Exit]) (at_pc 0 [(R1, -100); (R2, 7); (R3, 0)]) 1
    (MkEntry (idx R2) 0 (-93)
      [Fact 0 (idx R1) 0 (-100); Compose [Fact 0 (idx R2) (idx R3) 7] [Fact 0 (idx R3) 0 0] (idx R3)]) /\
  accepted_false (MkProgram [Alu W64 Mov R1 (OReg R3); Exit]) (at_pc 0 [(R1, 0); (R2, 8)]) 1
    (MkEntry (idx R3) 0 (-8) [Fact 0 (idx R1) (idx R2) (-8); Derive 0 0 (idx R1) (idx R3) 0]) /\
  accepted_false (MkProgram [Ast.MovSx W64 B8 R1 (OReg R2); Exit]) (at_pc 0 [(R1, 0); (R2, 7)]) 1
    (MkEntry (idx R1) 0 0 [Fact 0 (idx R1) 0 0; Transfer 0 (idx R1) 0 (idx R1) 0 0]) /\
  accepted_false (MkProgram [If W64 R1 SGt (OImm 5) 2; Exit; Exit]) (at_pc 0 [(R1, 9)]) 2
    (MkEntry (idx R1) 0 5 [Fact 0 (idx R1) 0 5]) /\
  accepted_false (MkProgram [If W64 R1 UGt (OReg R2) 2; Exit; Exit]) (at_pc 0 [(R1, 1); (R2, -1)]) 1
    (MkEntry (idx R1) (idx R2) 0 [Fact 0 (idx R1) (idx R2) 0]) /\
  (describes (domain past_end) past_end_val /\ past_end_val R2 - past_end_val AnchorDataEnd <= 8 /\
   Numeric.verify_packet_bounds
     (domain (apply_verified_refinements past_end [MkVerified (idx R2) (idx AnchorDataEnd) 8])) R2 (-4) 4
     = (true, true) /\
   past_end_val AnchorDataEnd < past_end_val R2 + -4 + 4).
Proof.
  exact (conj gap_skipped (conj gap_width (conj gap_move (conj gap_absorb (conj gap_compose
    (conj gap_derive (conj gap_movsx (conj gap_taken (conj gap_unsigned gap_inject))))))))).
Qed.

End PccProps.
