(* ===== verification/HelperDefs.v ===== *)
(** The helper declarations of the kernel header the tests are compiled with
    ([selftests/headers/v6.15/bpf/bpf_helper_defs.h]): every helper is a constant function pointer
    with its number as value.  Return type and parameters are kept as they are written. *)

From Stdlib Require Import ZArith Ascii String.
From stdpp Require Import base list strings.
Open Scope Z_scope.
Open Scope string_scope.

Module HelperDefs.

Record c_decl : Type := D { c_name : string; c_ret : string; c_params : list string; c_id : Z }.

Definition helper_defs_1 : list c_decl := [
  D "bpf_map_lookup_elem" "void *" ["void *map"; "const void *key"] 1;
  D "bpf_map_update_elem" "long" ["void *map"; "const void *key"; "const void *value"; "__u64 flags"] 2;
  D "bpf_map_delete_elem" "long" ["void *map"; "const void *key"] 3;
  D "bpf_probe_read" "long" ["void *dst"; "__u32 size"; "const void *unsafe_ptr"] 4;
  D "bpf_ktime_get_ns" "__u64" [] 5;
  D "bpf_trace_printk" "long" ["const char *fmt"; "__u32 fmt_size"; "..."] 6;
  D "bpf_get_prandom_u32" "__u32" [] 7].

Definition helper_defs_2 : list c_decl := [
  D "bpf_get_smp_processor_id" "__bpf_fastcall __u32" [] 8;
  D "bpf_skb_store_bytes" "long" ["struct __sk_buff *skb"; "__u32 offset"; "const void *from"; "__u32 len"; "__u64 flags"] 9;
  D "bpf_l3_csum_replace" "long" ["struct __sk_buff *skb"; "__u32 offset"; "__u64 from"; "__u64 to"; "__u64 size"] 10;
  D "bpf_l4_csum_replace" "long" ["struct __sk_buff *skb"; "__u32 offset"; "__u64 from"; "__u64 to"; "__u64 flags"] 11;
  D "bpf_tail_call" "long" ["void *ctx"; "void *prog_array_map"; "__u32 index"] 12].

Definition helper_defs_3 : list c_decl := [
  D "bpf_clone_redirect" "long" ["struct __sk_buff *skb"; "__u32 ifindex"; "__u64 flags"] 13;
  D "bpf_get_current_pid_tgid" "__u64" [] 14; D "bpf_get_current_uid_gid" "__u64" [] 15;
  D "bpf_get_current_comm" "long" ["void *buf"; "__u32 size_of_buf"] 16;
  D "bpf_get_cgroup_classid" "__u32" ["struct __sk_buff *skb"] 17;
  D "bpf_skb_vlan_push" "long" ["struct __sk_buff *skb"; "__be16 vlan_proto"; "__u16 vlan_tci"] 18;
  D "bpf_skb_vlan_pop" "long" ["struct __sk_buff *skb"] 19].

Definition helper_defs_4 : list c_decl := [
  D "bpf_skb_get_tunnel_key" "long" ["struct __sk_buff *skb"; "struct bpf_tunnel_key *key"; "__u32 size"; "__u64 flags"] 20;
  D "bpf_skb_set_tunnel_key" "long" ["struct __sk_buff *skb"; "struct bpf_tunnel_key *key"; "__u32 size"; "__u64 flags"] 21;
  D "bpf_perf_event_read" "__u64" ["void *map"; "__u64 flags"] 22].

Definition helper_defs_5 : list c_decl := [
  D "bpf_redirect" "long" ["__u32 ifindex"; "__u64 flags"] 23;
  D "bpf_get_route_realm" "__u32" ["struct __sk_buff *skb"] 24;
  D "bpf_perf_event_output" "long" ["void *ctx"; "void *map"; "__u64 flags"; "void *data"; "__u64 size"] 25;
  D "bpf_skb_load_bytes" "long" ["const void *skb"; "__u32 offset"; "void *to"; "__u32 len"] 26].

Definition helper_defs_6 : list c_decl := [
  D "bpf_get_stackid" "long" ["void *ctx"; "void *map"; "__u64 flags"] 27;
  D "bpf_csum_diff" "__s64" ["__be32 *from"; "__u32 from_size"; "__be32 *to"; "__u32 to_size"; "__wsum seed"] 28;
  D "bpf_skb_get_tunnel_opt" "long" ["struct __sk_buff *skb"; "void *opt"; "__u32 size"] 29;
  D "bpf_skb_set_tunnel_opt" "long" ["struct __sk_buff *skb"; "void *opt"; "__u32 size"] 30;
  D "bpf_skb_change_proto" "long" ["struct __sk_buff *skb"; "__be16 proto"; "__u64 flags"] 31].

Definition helper_defs_7 : list c_decl := [
  D "bpf_skb_change_type" "long" ["struct __sk_buff *skb"; "__u32 type"] 32;
  D "bpf_skb_under_cgroup" "long" ["struct __sk_buff *skb"; "void *map"; "__u32 index"] 33;
  D "bpf_get_hash_recalc" "__u32" ["struct __sk_buff *skb"] 34;
  D "bpf_get_current_task" "__u64" [] 35;
  D "bpf_probe_write_user" "long" ["void *dst"; "const void *src"; "__u32 len"] 36;
  D "bpf_current_task_under_cgroup" "long" ["void *map"; "__u32 index"] 37;
  D "bpf_skb_change_tail" "long" ["struct __sk_buff *skb"; "__u32 len"; "__u64 flags"] 38].

Definition helper_defs_8 : list c_decl := [
  D "bpf_skb_pull_data" "long" ["struct __sk_buff *skb"; "__u32 len"] 39;
  D "bpf_csum_update" "__s64" ["struct __sk_buff *skb"; "__wsum csum"] 40;
  D "bpf_set_hash_invalid" "void" ["struct __sk_buff *skb"] 41;
  D "bpf_get_numa_node_id" "long" [] 42;
  D "bpf_skb_change_head" "long" ["struct __sk_buff *skb"; "__u32 len"; "__u64 flags"] 43;
  D "bpf_xdp_adjust_head" "long" ["struct xdp_md *xdp_md"; "int delta"] 44;
  D "bpf_probe_read_str" "long" ["void *dst"; "__u32 size"; "const void *unsafe_ptr"] 45].

Definition helper_defs_9 : list c_decl := [
  D "bpf_get_socket_cookie" "__u64" ["void *ctx"] 46;
  D "bpf_get_socket_uid" "__u32" ["struct __sk_buff *skb"] 47;
  D "bpf_set_hash" "long" ["struct __sk_buff *skb"; "__u32 hash"] 48;
  D "bpf_setsockopt" "long" ["void *bpf_socket"; "int level"; "int optname"; "void *optval"; "int optlen"] 49;
  D "bpf_skb_adjust_room" "long" ["struct __sk_buff *skb"; "__s32 len_diff"; "__u32 mode"; "__u64 flags"] 50].

Definition helper_defs_10 : list c_decl := [
  D "bpf_redirect_map" "long" ["void *map"; "__u64 key"; "__u64 flags"] 51;
  D "bpf_sk_redirect_map" "long" ["struct __sk_buff *skb"; "void *map"; "__u32 key"; "__u64 flags"] 52;
  D "bpf_sock_map_update" "long" ["struct bpf_sock_ops *skops"; "void *map"; "void *key"; "__u64 flags"] 53;
  D "bpf_xdp_adjust_meta" "long" ["struct xdp_md *xdp_md"; "int delta"] 54].

Definition helper_defs_11 : list c_decl := [
  D "bpf_perf_event_read_value" "long" ["void *map"; "__u64 flags"; "struct bpf_perf_event_value *buf"; "__u32 buf_size"] 55;
  D "bpf_perf_prog_read_value" "long" ["struct bpf_perf_event_data *ctx"; "struct bpf_perf_event_value *buf"; "__u32 buf_size"] 56;
  D "bpf_getsockopt" "long" ["void *bpf_socket"; "int level"; "int optname"; "void *optval"; "int optlen"] 57;
  D "bpf_override_return" "long" ["struct pt_regs *regs"; "__u64 rc"] 58].

Definition helper_defs_12 : list c_decl := [
  D "bpf_sock_ops_cb_flags_set" "long" ["struct bpf_sock_ops *bpf_sock"; "int argval"] 59;
  D "bpf_msg_redirect_map" "long" ["struct sk_msg_md *msg"; "void *map"; "__u32 key"; "__u64 flags"] 60;
  D "bpf_msg_apply_bytes" "long" ["struct sk_msg_md *msg"; "__u32 bytes"] 61;
  D "bpf_msg_cork_bytes" "long" ["struct sk_msg_md *msg"; "__u32 bytes"] 62].

Definition helper_defs_13 : list c_decl := [
  D "bpf_msg_pull_data" "long" ["struct sk_msg_md *msg"; "__u32 start"; "__u32 end"; "__u64 flags"] 63;
  D "bpf_bind" "long" ["struct bpf_sock_addr *ctx"; "struct sockaddr *addr"; "int addr_len"] 64;
  D "bpf_xdp_adjust_tail" "long" ["struct xdp_md *xdp_md"; "int delta"] 65;
  D "bpf_skb_get_xfrm_state" "long" ["struct __sk_buff *skb"; "__u32 index"; "struct bpf_xfrm_state *xfrm_state"; "__u32 size"; "__u64 flags"] 66;
  D "bpf_get_stack" "long" ["void *ctx"; "void *buf"; "__u32 size"; "__u64 flags"] 67].

Definition helper_defs_14 : list c_decl := [
  D "bpf_skb_load_bytes_relative" "long" ["const void *skb"; "__u32 offset"; "void *to"; "__u32 len"; "__u32 start_header"] 68;
  D "bpf_fib_lookup" "long" ["void *ctx"; "struct bpf_fib_lookup *params"; "int plen"; "__u32 flags"] 69;
  D "bpf_sock_hash_update" "long" ["struct bpf_sock_ops *skops"; "void *map"; "void *key"; "__u64 flags"] 70;
  D "bpf_msg_redirect_hash" "long" ["struct sk_msg_md *msg"; "void *map"; "void *key"; "__u64 flags"] 71;
  D "bpf_sk_redirect_hash" "long" ["struct __sk_buff *skb"; "void *map"; "void *key"; "__u64 flags"] 72].

Definition helper_defs_15 : list c_decl := [
  D "bpf_lwt_push_encap" "long" ["struct __sk_buff *skb"; "__u32 type"; "void *hdr"; "__u32 len"] 73;
  D "bpf_lwt_seg6_store_bytes" "long" ["struct __sk_buff *skb"; "__u32 offset"; "const void *from"; "__u32 len"] 74;
  D "bpf_lwt_seg6_adjust_srh" "long" ["struct __sk_buff *skb"; "__u32 offset"; "__s32 delta"] 75;
  D "bpf_lwt_seg6_action" "long" ["struct __sk_buff *skb"; "__u32 action"; "void *param"; "__u32 param_len"] 76;
  D "bpf_rc_repeat" "long" ["void *ctx"] 77].

Definition helper_defs_16 : list c_decl := [
  D "bpf_rc_keydown" "long" ["void *ctx"; "__u32 protocol"; "__u64 scancode"; "__u32 toggle"] 78;
  D "bpf_skb_cgroup_id" "__u64" ["struct __sk_buff *skb"] 79;
  D "bpf_get_current_cgroup_id" "__u64" [] 80;
  D "bpf_get_local_storage" "void *" ["void *map"; "__u64 flags"] 81;
  D "bpf_sk_select_reuseport" "long" ["struct sk_reuseport_md *reuse"; "void *map"; "void *key"; "__u64 flags"] 82;
  D "bpf_skb_ancestor_cgroup_id" "__u64" ["struct __sk_buff *skb"; "int ancestor_level"] 83].

Definition helper_defs_17 : list c_decl := [
  D "bpf_sk_lookup_tcp" "struct bpf_sock *" ["void *ctx"; "struct bpf_sock_tuple *tuple"; "__u32 tuple_size"; "__u64 netns"; "__u64 flags"] 84;
  D "bpf_sk_lookup_udp" "struct bpf_sock *" ["void *ctx"; "struct bpf_sock_tuple *tuple"; "__u32 tuple_size"; "__u64 netns"; "__u64 flags"] 85;
  D "bpf_sk_release" "long" ["void *sock"] 86;
  D "bpf_map_push_elem" "long" ["void *map"; "const void *value"; "__u64 flags"] 87;
  D "bpf_map_pop_elem" "long" ["void *map"; "void *value"] 88;
  D "bpf_map_peek_elem" "long" ["void *map"; "void *value"] 89;
  D "bpf_msg_push_data" "long" ["struct sk_msg_md *msg"; "__u32 start"; "__u32 len"; "__u64 flags"] 90].

Definition helper_defs_18 : list c_decl := [
  D "bpf_msg_pop_data" "long" ["struct sk_msg_md *msg"; "__u32 start"; "__u32 len"; "__u64 flags"] 91;
  D "bpf_rc_pointer_rel" "long" ["void *ctx"; "__s32 rel_x"; "__s32 rel_y"] 92;
  D "bpf_spin_lock" "long" ["struct bpf_spin_lock *lock"] 93;
  D "bpf_spin_unlock" "long" ["struct bpf_spin_lock *lock"] 94;
  D "bpf_sk_fullsock" "struct bpf_sock *" ["struct bpf_sock *sk"] 95;
  D "bpf_tcp_sock" "struct bpf_tcp_sock *" ["struct bpf_sock *sk"] 96;
  D "bpf_skb_ecn_set_ce" "long" ["struct __sk_buff *skb"] 97;
  D "bpf_get_listener_sock" "struct bpf_sock *" ["struct bpf_sock *sk"] 98].

Definition helper_defs_19 : list c_decl := [
  D "bpf_skc_lookup_tcp" "struct bpf_sock *" ["void *ctx"; "struct bpf_sock_tuple *tuple"; "__u32 tuple_size"; "__u64 netns"; "__u64 flags"] 99;
  D "bpf_tcp_check_syncookie" "long" ["void *sk"; "void *iph"; "__u32 iph_len"; "struct tcphdr *th"; "__u32 th_len"] 100;
  D "bpf_sysctl_get_name" "long" ["struct bpf_sysctl *ctx"; "char *buf"; "unsigned long buf_len"; "__u64 flags"] 101;
  D "bpf_sysctl_get_current_value" "long" ["struct bpf_sysctl *ctx"; "char *buf"; "unsigned long buf_len"] 102;
  D "bpf_sysctl_get_new_value" "long" ["struct bpf_sysctl *ctx"; "char *buf"; "unsigned long buf_len"] 103;
  D "bpf_sysctl_set_new_value" "long" ["struct bpf_sysctl *ctx"; "const char *buf"; "unsigned long buf_len"] 104].

Definition helper_defs_20 : list c_decl := [
  D "bpf_strtol" "long" ["const char *buf"; "unsigned long buf_len"; "__u64 flags"; "long *res"] 105;
  D "bpf_strtoul" "long" ["const char *buf"; "unsigned long buf_len"; "__u64 flags"; "unsigned long *res"] 106;
  D "bpf_sk_storage_get" "void *" ["void *map"; "void *sk"; "void *value"; "__u64 flags"] 107;
  D "bpf_sk_storage_delete" "long" ["void *map"; "void *sk"] 108;
  D "bpf_send_signal" "long" ["__u32 sig"] 109].

Definition helper_defs_21 : list c_decl := [
  D "bpf_tcp_gen_syncookie" "__s64" ["void *sk"; "void *iph"; "__u32 iph_len"; "struct tcphdr *th"; "__u32 th_len"] 110;
  D "bpf_skb_output" "long" ["void *ctx"; "void *map"; "__u64 flags"; "void *data"; "__u64 size"] 111;
  D "bpf_probe_read_user" "long" ["void *dst"; "__u32 size"; "const void *unsafe_ptr"] 112;
  D "bpf_probe_read_kernel" "long" ["void *dst"; "__u32 size"; "const void *unsafe_ptr"] 113;
  D "bpf_probe_read_user_str" "long" ["void *dst"; "__u32 size"; "const void *unsafe_ptr"] 114;
  D "bpf_probe_read_kernel_str" "long" ["void *dst"; "__u32 size"; "const void *unsafe_ptr"] 115;
  D "bpf_tcp_send_ack" "long" ["void *tp"; "__u32 rcv_nxt"] 116].

Definition helper_defs_22 : list c_decl := [
  D "bpf_send_signal_thread" "long" ["__u32 sig"] 117; D "bpf_jiffies64" "__u64" [] 118;
  D "bpf_read_branch_records" "long" ["struct bpf_perf_event_data *ctx"; "void *buf"; "__u32 size"; "__u64 flags"] 119;
  D "bpf_get_ns_current_pid_tgid" "long" ["__u64 dev"; "__u64 ino"; "struct bpf_pidns_info *nsdata"; "__u32 size"] 120;
  D "bpf_xdp_output" "long" ["void *ctx"; "void *map"; "__u64 flags"; "void *data"; "__u64 size"] 121;
  D "bpf_get_netns_cookie" "__u64" ["void *ctx"] 122;
  D "bpf_get_current_ancestor_cgroup_id" "__u64" ["int ancestor_level"] 123].

Definition helper_defs_23 : list c_decl := [
  D "bpf_sk_assign" "long" ["void *ctx"; "void *sk"; "__u64 flags"] 124;
  D "bpf_ktime_get_boot_ns" "__u64" [] 125;
  D "bpf_seq_printf" "long" ["struct seq_file *m"; "const char *fmt"; "__u32 fmt_size"; "const void *data"; "__u32 data_len"] 126;
  D "bpf_seq_write" "long" ["struct seq_file *m"; "const void *data"; "__u32 len"] 127;
  D "bpf_sk_cgroup_id" "__u64" ["void *sk"] 128;
  D "bpf_sk_ancestor_cgroup_id" "__u64" ["void *sk"; "int ancestor_level"] 129;
  D "bpf_ringbuf_output" "long" ["void *ringbuf"; "void *data"; "__u64 size"; "__u64 flags"] 130].

Definition helper_defs_24 : list c_decl := [
  D "bpf_ringbuf_reserve" "void *" ["void *ringbuf"; "__u64 size"; "__u64 flags"] 131;
  D "bpf_ringbuf_submit" "void" ["void *data"; "__u64 flags"] 132;
  D "bpf_ringbuf_discard" "void" ["void *data"; "__u64 flags"] 133;
  D "bpf_ringbuf_query" "__u64" ["void *ringbuf"; "__u64 flags"] 134;
  D "bpf_csum_level" "long" ["struct __sk_buff *skb"; "__u64 level"] 135;
  D "bpf_skc_to_tcp6_sock" "struct tcp6_sock *" ["void *sk"] 136;
  D "bpf_skc_to_tcp_sock" "struct tcp_sock *" ["void *sk"] 137;
  D "bpf_skc_to_tcp_timewait_sock" "struct tcp_timewait_sock *" ["void *sk"] 138;
  D "bpf_skc_to_tcp_request_sock" "struct tcp_request_sock *" ["void *sk"] 139].

Definition helper_defs_25 : list c_decl := [
  D "bpf_skc_to_udp6_sock" "struct udp6_sock *" ["void *sk"] 140;
  D "bpf_get_task_stack" "long" ["struct task_struct *task"; "void *buf"; "__u32 size"; "__u64 flags"] 141;
  D "bpf_load_hdr_opt" "long" ["struct bpf_sock_ops *skops"; "void *searchby_res"; "__u32 len"; "__u64 flags"] 142].

Definition helper_defs_26 : list c_decl := [
  D "bpf_store_hdr_opt" "long" ["struct bpf_sock_ops *skops"; "const void *from"; "__u32 len"; "__u64 flags"] 143;
  D "bpf_reserve_hdr_opt" "long" ["struct bpf_sock_ops *skops"; "__u32 len"; "__u64 flags"] 144;
  D "bpf_inode_storage_get" "void *" ["void *map"; "void *inode"; "void *value"; "__u64 flags"] 145;
  D "bpf_inode_storage_delete" "int" ["void *map"; "void *inode"] 146;
  D "bpf_d_path" "long" ["struct path *path"; "char *buf"; "__u32 sz"] 147;
  D "bpf_copy_from_user" "long" ["void *dst"; "__u32 size"; "const void *user_ptr"] 148].

Definition helper_defs_27 : list c_decl := [
  D "bpf_snprintf_btf" "long" ["char *str"; "__u32 str_size"; "struct btf_ptr *ptr"; "__u32 btf_ptr_size"; "__u64 flags"] 149;
  D "bpf_seq_printf_btf" "long" ["struct seq_file *m"; "struct btf_ptr *ptr"; "__u32 ptr_size"; "__u64 flags"] 150;
  D "bpf_skb_cgroup_classid" "__u64" ["struct __sk_buff *skb"] 151;
  D "bpf_redirect_neigh" "long" ["__u32 ifindex"; "struct bpf_redir_neigh *params"; "int plen"; "__u64 flags"] 152;
  D "bpf_per_cpu_ptr" "void *" ["const void *percpu_ptr"; "__u32 cpu"] 153;
  D "bpf_this_cpu_ptr" "void *" ["const void *percpu_ptr"] 154;
  D "bpf_redirect_peer" "long" ["__u32 ifindex"; "__u64 flags"] 155].

Definition helper_defs_28 : list c_decl := [
  D "bpf_task_storage_get" "void *" ["void *map"; "struct task_struct *task"; "void *value"; "__u64 flags"] 156;
  D "bpf_task_storage_delete" "long" ["void *map"; "struct task_struct *task"] 157;
  D "bpf_get_current_task_btf" "struct task_struct *" [] 158;
  D "bpf_bprm_opts_set" "long" ["struct linux_binprm *bprm"; "__u64 flags"] 159;
  D "bpf_ktime_get_coarse_ns" "__u64" [] 160;
  D "bpf_ima_inode_hash" "long" ["struct inode *inode"; "void *dst"; "__u32 size"] 161;
  D "bpf_sock_from_file" "struct socket *" ["struct file *file"] 162].

Definition helper_defs_29 : list c_decl := [
  D "bpf_check_mtu" "long" ["void *ctx"; "__u32 ifindex"; "__u32 *mtu_len"; "__s32 len_diff"; "__u64 flags"] 163;
  D "bpf_for_each_map_elem" "long" ["void *map"; "void *callback_fn"; "void *callback_ctx"; "__u64 flags"] 164;
  D "bpf_snprintf" "long" ["char *str"; "__u32 str_size"; "const char *fmt"; "__u64 *data"; "__u32 data_len"] 165;
  D "bpf_sys_bpf" "long" ["__u32 cmd"; "void *attr"; "__u32 attr_size"] 166].

Definition helper_defs_30 : list c_decl := [
  D "bpf_btf_find_by_name_kind" "long" ["char *name"; "int name_sz"; "__u32 kind"; "int flags"] 167;
  D "bpf_sys_close" "long" ["__u32 fd"] 168;
  D "bpf_timer_init" "long" ["struct bpf_timer *timer"; "void *map"; "__u64 flags"] 169;
  D "bpf_timer_set_callback" "long" ["struct bpf_timer *timer"; "void *callback_fn"] 170;
  D "bpf_timer_start" "long" ["struct bpf_timer *timer"; "__u64 nsecs"; "__u64 flags"] 171;
  D "bpf_timer_cancel" "long" ["struct bpf_timer *timer"] 172;
  D "bpf_get_func_ip" "__u64" ["void *ctx"] 173;
  D "bpf_get_attach_cookie" "__u64" ["void *ctx"] 174].

Definition helper_defs_31 : list c_decl := [
  D "bpf_task_pt_regs" "long" ["struct task_struct *task"] 175;
  D "bpf_get_branch_snapshot" "long" ["void *entries"; "__u32 size"; "__u64 flags"] 176;
  D "bpf_trace_vprintk" "long" ["const char *fmt"; "__u32 fmt_size"; "const void *data"; "__u32 data_len"] 177;
  D "bpf_skc_to_unix_sock" "struct unix_sock *" ["void *sk"] 178;
  D "bpf_kallsyms_lookup_name" "long" ["const char *name"; "int name_sz"; "int flags"; "__u64 *res"] 179;
  D "bpf_find_vma" "long" ["struct task_struct *task"; "__u64 addr"; "void *callback_fn"; "void *callback_ctx"; "__u64 flags"] 180;
  D "bpf_loop" "long" ["__u32 nr_loops"; "void *callback_fn"; "void *callback_ctx"; "__u64 flags"] 181;
  D "bpf_strncmp" "long" ["const char *s1"; "__u32 s1_sz"; "const char *s2"] 182].

Definition helper_defs_32 : list c_decl := [
  D "bpf_get_func_arg" "long" ["void *ctx"; "__u32 n"; "__u64 *value"] 183;
  D "bpf_get_func_ret" "long" ["void *ctx"; "__u64 *value"] 184;
  D "bpf_get_func_arg_cnt" "long" ["void *ctx"] 185; D "bpf_get_retval" "int" [] 186;
  D "bpf_set_retval" "int" ["int retval"] 187;
  D "bpf_xdp_get_buff_len" "__u64" ["struct xdp_md *xdp_md"] 188;
  D "bpf_xdp_load_bytes" "long" ["struct xdp_md *xdp_md"; "__u32 offset"; "void *buf"; "__u32 len"] 189;
  D "bpf_xdp_store_bytes" "long" ["struct xdp_md *xdp_md"; "__u32 offset"; "void *buf"; "__u32 len"] 190;
  D "bpf_copy_from_user_task" "long" ["void *dst"; "__u32 size"; "const void *user_ptr"; "struct task_struct *tsk"; "__u64 flags"] 191].

Definition helper_defs_33 : list c_decl := [
  D "bpf_skb_set_tstamp" "long" ["struct __sk_buff *skb"; "__u64 tstamp"; "__u32 tstamp_type"] 192;
  D "bpf_ima_file_hash" "long" ["struct file *file"; "void *dst"; "__u32 size"] 193;
  D "bpf_kptr_xchg" "void *" ["void *dst"; "void *ptr"] 194;
  D "bpf_map_lookup_percpu_elem" "void *" ["void *map"; "const void *key"; "__u32 cpu"] 195;
  D "bpf_skc_to_mptcp_sock" "struct mptcp_sock *" ["void *sk"] 196;
  D "bpf_dynptr_from_mem" "long" ["void *data"; "__u32 size"; "__u64 flags"; "struct bpf_dynptr *ptr"] 197;
  D "bpf_ringbuf_reserve_dynptr" "long" ["void *ringbuf"; "__u32 size"; "__u64 flags"; "struct bpf_dynptr *ptr"] 198;
  D "bpf_ringbuf_submit_dynptr" "void" ["struct bpf_dynptr *ptr"; "__u64 flags"] 199;
  D "bpf_ringbuf_discard_dynptr" "void" ["struct bpf_dynptr *ptr"; "__u64 flags"] 200].

Definition helper_defs_34 : list c_decl := [
  D "bpf_dynptr_read" "long" ["void *dst"; "__u32 len"; "const struct bpf_dynptr *src"; "__u32 offset"; "__u64 flags"] 201;
  D "bpf_dynptr_write" "long" ["const struct bpf_dynptr *dst"; "__u32 offset"; "void *src"; "__u32 len"; "__u64 flags"] 202;
  D "bpf_dynptr_data" "void *" ["const struct bpf_dynptr *ptr"; "__u32 offset"; "__u32 len"] 203;
  D "bpf_tcp_raw_gen_syncookie_ipv4" "__s64" ["struct iphdr *iph"; "struct tcphdr *th"; "__u32 th_len"] 204;
  D "bpf_tcp_raw_gen_syncookie_ipv6" "__s64" ["struct ipv6hdr *iph"; "struct tcphdr *th"; "__u32 th_len"] 205;
  D "bpf_tcp_raw_check_syncookie_ipv4" "long" ["struct iphdr *iph"; "struct tcphdr *th"] 206;
  D "bpf_tcp_raw_check_syncookie_ipv6" "long" ["struct ipv6hdr *iph"; "struct tcphdr *th"] 207].

Definition helper_defs_35 : list c_decl := [
  D "bpf_ktime_get_tai_ns" "__u64" [] 208;
  D "bpf_user_ringbuf_drain" "long" ["void *map"; "void *callback_fn"; "void *ctx"; "__u64 flags"] 209;
  D "bpf_cgrp_storage_get" "void *" ["void *map"; "struct cgroup *cgroup"; "void *value"; "__u64 flags"] 210;
  D "bpf_cgrp_storage_delete" "long" ["void *map"; "struct cgroup *cgroup"] 211].

Definition helper_defs : list c_decl :=
  helper_defs_1 ++ helper_defs_2 ++ helper_defs_3 ++ helper_defs_4 ++ helper_defs_5 ++
  helper_defs_6 ++ helper_defs_7 ++ helper_defs_8 ++ helper_defs_9 ++ helper_defs_10 ++
  helper_defs_11 ++ helper_defs_12 ++ helper_defs_13 ++ helper_defs_14 ++ helper_defs_15 ++
  helper_defs_16 ++ helper_defs_17 ++ helper_defs_18 ++ helper_defs_19 ++ helper_defs_20 ++
  helper_defs_21 ++ helper_defs_22 ++ helper_defs_23 ++ helper_defs_24 ++ helper_defs_25 ++
  helper_defs_26 ++ helper_defs_27 ++ helper_defs_28 ++ helper_defs_29 ++ helper_defs_30 ++
  helper_defs_31 ++ helper_defs_32 ++ helper_defs_33 ++ helper_defs_34 ++ helper_defs_35.

(** A parameter written with a star is a pointer. *)
Definition is_pointer_param (p : string) : bool := existsb (Ascii.eqb "*"%char) (list_ascii_of_string p).

(** The parameters before the dots. *)
Definition fixed_params (d : c_decl) : list string := filter (fun p => p <> "...") (c_params d).

End HelperDefs.
