(* ===== verification/HelperProtos.v ===== *)
(** The prototypes of the helpers ([src/analysis/transfer/call/helper_protos.rs], with the kinds of
    [signatures.rs], the numbers of [common/constants.rs] and the seven dynptr prototypes of
    [kfunc_protos.rs]): the kinds of the five argument registers and the memory arguments whose size
    another argument gives.  Return kinds, flags and side effects are left out. *)

From S2P Require Import Prelude Zone HelperDefs BpfInsn.
From Stdlib Require Import ZArith Ascii String.
From stdpp Require Import base list strings.
Open Scope string_scope.
Open Scope Z_scope.

Module HelperProtos.
Import HelperDefs.
Import Zone(Reg(..)).
#[local] Existing Instance Zone.Reg_eq_dec.

Inductive SpecialFieldKind : Type :=
| SpinLock | Timer | ListHead | ListNode | RbRoot | RbNode | Refcount | ResSpinLock | Wq.
Inductive IterKind : Type := Num | Task | Css | Bits | TaskVma | TestmodSeq | CssTask | KmemCache.
Inductive IterArgExpect : Type := Uninit | Active | ActiveOrDrained.
Inductive IrqKfuncClass : Type := Native | Lock.

Inductive ArgKind : Type :=
| DontCare
| ConstMapPtr | ConstMapPtrOfType (map_type : Z) | PtrToMapKey | PtrToMapValue | PtrToUninitMapValue
| PtrToMem | PtrToUninitMem | PtrToAllocMem | PtrToConstStr
| ConstSize | ConstSizeOrZero | ConstAllocSizeOrZero
| PtrToCtx | Anything
| PtrToSockCommon | PtrToSocket | PtrToBTFIdSockCommon
| PtrToBtfId | PtrToBtfIdNamed (type_name : string)
| PtrToStack
| PtrToCtxOrNull | PtrToMemOrNull | PtrToUninitMemOrNull | PtrToStackOrNull | PtrToMapValueOrNull
| PtrToLong | PtrToCallback
| DynptrArg (uninit rdwr_only : bool)
| IterArg (kind : IterKind) (expected : IterArgExpect)
| IrqFlagArg (uninit : bool) (kfunc_class : IrqKfuncClass)
| ResSpinLockArg (is_irq : bool)
| PtrToCpumask | PtrToCpumaskRead | PtrToCgroup | PtrToTask | PtrToArena | PtrToOwnedKptr
| MapValueSpecial (kind : SpecialFieldKind).

#[export] Instance SpecialFieldKind_eq_dec : EqDecision SpecialFieldKind.
Proof. solve_decision. Defined.
#[export] Instance IterKind_eq_dec : EqDecision IterKind.
Proof. solve_decision. Defined.
#[export] Instance IterArgExpect_eq_dec : EqDecision IterArgExpect.
Proof. solve_decision. Defined.
#[export] Instance IrqKfuncClass_eq_dec : EqDecision IrqKfuncClass.
Proof. solve_decision. Defined.
#[export] Instance ArgKind_eq_dec : EqDecision ArgKind.
Proof. solve_decision. Defined.

Record MemSizePair : Type := MkPair {
  ptr_reg : Reg; size_reg : Reg; allow_zero : bool; null_skips_size_check : bool }.
Definition pair_new (p s : Reg) : MemSizePair := MkPair p s false false.
Definition pair_nullable (p s : Reg) : MemSizePair := MkPair p s true false.

(** The fields of [CallProto] that are modelled. *)
Record CallProto : Type := MkProto { args : list ArgKind; mem_size_pairs : list MemSizePair }.

(** An arm of the match: the names of the numbers it applies to. *)
Definition arm : Type := (list string * CallProto)%type.
Definition P (ids : list string) (a : list ArgKind) (p : list MemSizePair) : arm := (ids, MkProto a p).

Definition helper_constants_1 : list (string * Z) := [
  ("BPF_UNSPEC", 0); ("BPF_MAP_LOOKUP_ELEM", 1); ("BPF_MAP_LOOKUP_PERCPU_ELEM", 195);
  ("BPF_SKC_TO_MPTCP_SOCK", 196); ("BPF_MAP_UPDATE_ELEM", 2); ("BPF_MAP_DELETE_ELEM", 3);
  ("BPF_PROBE_READ", 4); ("BPF_KTIME_GET_NS", 5); ("BPF_TRACE_PRINTK", 6);
  ("BPF_GET_PRANDOM_U32", 7); ("BPF_GET_SMP_PROCESSOR_ID", 8); ("BPF_SKB_STORE_BYTES", 9);
  ("BPF_L3_CSUM_REPLACE", 10); ("BPF_L4_CSUM_REPLACE", 11); ("BPF_TAIL_CALL", 12);
  ("BPF_CLONE_REDIRECT", 13); ("BPF_GET_CURRENT_PID_TGID", 14); ("BPF_GET_CURRENT_UID_GID", 15);
  ("BPF_GET_CURRENT_COMM", 16); ("BPF_GET_CGROUP_CLASS_ID", 17); ("BPF_SKB_VLAN_PUSH", 18);
  ("BPF_SKB_VLAN_POP", 19); ("BPF_SKB_GET_TUNNEL_KEY", 20); ("BPF_SKB_SET_TUNNEL_KEY", 21);
  ("BPF_PERF_EVENT_READ", 22); ("BPF_REDIRECT", 23); ("BPF_GET_ROUTE_REALM", 24);
  ("BPF_PERF_EVENT_OUTPUT", 25); ("BPF_SKB_LOAD_BYTES", 26); ("BPF_GET_STACKID", 27);
  ("BPF_CSUM_DIFF", 28); ("BPF_SKB_GET_TUNNEL_OPT", 29); ("BPF_SKB_SET_TUNNEL_OPT", 30);
  ("BPF_SKB_CHANGE_PROTO", 31); ("BPF_SKB_CHANGE_TYPE", 32); ("BPF_SKB_UNDER_CGROUP", 33);
  ("BPF_GET_HASH_RECALC", 34); ("BPF_GET_CURRENT_TASK", 35); ("BPF_PROBE_WRITE_USER", 36);
  ("BPF_CURRENT_TASK_UNDER_CGROUP", 37); ("BPF_SKB_CHANGE_TAIL", 38); ("BPF_SKB_PULL_DATA", 39);
  ("BPF_CSUM_UPDATE", 40); ("BPF_SET_HASH_INVALID", 41); ("BPF_GET_NUMA_NODE_ID", 42);
  ("BPF_SKB_CHANGE_HEAD", 43); ("BPF_XDP_ADJUST_HEAD", 44); ("BPF_PROBE_READ_STR", 45);
  ("BPF_GET_SOCKET_COOKIE", 46); ("BPF_GET_SOCKET_UID", 47); ("BPF_SET_HASH", 48);
  ("BPF_SETSOCKOPT", 49); ("BPF_SKB_ADJUST_ROOM", 50); ("BPF_REDIRECT_MAP", 51);
  ("BPF_SK_REDIRECT_MAP", 52); ("BPF_SOCK_MAP_UPDATE", 53); ("BPF_XDP_ADJUST_META", 54);
  ("BPF_PERF_EVENT_READ_VALUE", 55); ("BPF_PERF_PROG_READ_VALUE", 56); ("BPF_GET_SOCKOPT", 57);
  ("BPF_OVERRIDE_RETURN", 58); ("BPF_SOCK_OPS_CB_FLAGS_SET", 59); ("BPF_MSG_REDIRECT_MAP", 60);
  ("BPF_MSG_APPLY_BYTES", 61); ("BPF_MSG_CORK_BYTES", 62); ("BPF_MSG_PULL_DATA", 63);
  ("BPF_BIND", 64); ("BPF_XDP_ADJUST_TAIL", 65); ("BPF_SKB_GET_XFRM_STATE", 66);
  ("BPF_GET_STACK", 67); ("BPF_SKB_LOAD_BYTES_RELATIVE", 68); ("BPF_FIB_LOOKUP", 69);
  ("BPF_SOCK_HASH_UPDATE", 70); ("BPF_MSG_REDIRECT_HASH", 71); ("BPF_SK_REDIRECT_HASH", 72);
  ("BPF_LWT_PUSH_ENCAP", 73); ("BPF_LWT_SEG6_STORE_BYTES", 74); ("BPF_LWT_SEG6_ADJUST_SRH", 75);
  ("BPF_LWT_SEG6_ACTION", 76); ("BPF_RC_REPEAT", 77); ("BPF_RC_KEYDOWN", 78);
  ("BPF_SKB_CGROUP_ID", 79); ("BPF_GET_CURRENT_CGROUP_ID", 80); ("BPF_GET_LOCAL_STORAGE", 81);
  ("BPF_SK_SELECT_REUSEPORT", 82); ("BPF_SKB_ANCESTOR_CGROUP_ID", 83); ("BPF_SK_LOOKUP_TCP", 84);
  ("BPF_SK_LOOKUP_UDP", 85); ("BPF_SK_RELEASE", 86); ("BPF_MAP_PUSH_ELEM", 87);
  ("BPF_MAP_POP_ELEM", 88); ("BPF_MAP_PEEK_ELEM", 89); ("BPF_MSG_PUSH_DATA", 90);
  ("BPF_MSG_POP_DATA", 91); ("BPF_RC_POINTER_REL", 92); ("BPF_SPIN_LOCK", 93);
  ("BPF_SPIN_UNLOCK", 94); ("BPF_SK_FULLSOCK", 95); ("BPF_TCP_SOCK", 96);
  ("BPF_SKB_ECN_SET_CE", 97); ("BPF_GET_LISTENER_SOCK", 98); ("BPF_SKC_LOOKUP_TCP", 99);
  ("BPF_TCP_CHECK_SYNCOOKIE", 100); ("BPF_SYSCTL_GET_NAME", 101);
  ("BPF_SYSCTL_GET_CURRENT_VALUE", 102); ("BPF_SYSCTL_GET_NEW_VALUE", 103);
  ("BPF_SYSCTL_SET_NEW_VALUE", 104); ("BPF_STRTOL", 105); ("BPF_STRTOUL", 106);
  ("BPF_SK_STORAGE_GET", 107)].

Definition helper_constants_2 : list (string * Z) := [
  ("BPF_SK_STORAGE_DELETE", 108); ("BPF_SEND_SIGNAL", 109); ("BPF_TCP_GEN_SYNCOOKIE", 110);
  ("BPF_SKB_OUTPUT", 111); ("BPF_PROBE_READ_USER", 112); ("BPF_PROBE_READ_KERNEL", 113);
  ("BPF_PROBE_READ_USER_STR", 114); ("BPF_PROBE_READ_KERNEL_STR", 115);
  ("BPF_TCP_SEND_ACK", 116); ("BPF_SEND_SIGNAL_THREAD", 117); ("BPF_JIFFIES64", 118);
  ("BPF_READ_BRANCH_RECORDS", 119); ("BPF_GET_NS_CURRENT_PID_TGID", 120);
  ("BPF_XDP_OUTPUT", 121); ("BPF_GET_NETNS_COOKIE", 122);
  ("BPF_GET_CURRENT_ANCESTOR_CGROUP_ID", 123); ("BPF_SK_ASSIGN", 124);
  ("BPF_KTIME_GET_BOOT_NS", 125); ("BPF_SEQ_PRINTF", 126); ("BPF_SEQ_WRITE", 127);
  ("BPF_SK_CGROUP_ID", 128); ("BPF_SK_ANCESTOR_CGROUP_ID", 129); ("BPF_RINGBUF_OUTPUT", 130);
  ("BPF_RINGBUF_RESERVE", 131); ("BPF_RINGBUF_SUBMIT", 132); ("BPF_RINGBUF_DISCARD", 133);
  ("BPF_RINGBUF_QUERY", 134); ("BPF_CSUM_LEVEL", 135); ("BPF_SKC_TO_TCP6_SOCK", 136);
  ("BPF_SKC_TO_TCP_SOCK", 137); ("BPF_SKC_TO_TCP_TIMEWAIT_SOCK", 138);
  ("BPF_SKC_TO_TCP_REQUEST_SOCK", 139); ("BPF_SKC_TO_UDP6_SOCK", 140);
  ("BPF_GET_TASK_STACK", 141); ("BPF_INODE_STORAGE_GET", 145); ("BPF_INODE_STORAGE_DELETE", 146);
  ("BPF_D_PATH", 147); ("BPF_REDIRECT_NEIGH", 152); ("BPF_REDIRECT_PEER", 155);
  ("BPF_TASK_STORAGE_GET", 156); ("BPF_TASK_STORAGE_DELETE", 157);
  ("BPF_GET_CURRENT_TASK_BTF", 158); ("BPF_KTIME_GET_COARSE_NS", 160);
  ("BPF_SOCK_FROM_FILE", 162); ("BPF_TASK_PT_REGS", 175); ("BPF_GET_BRANCH_SNAPSHOT", 176);
  ("BPF_TRACE_VPRINTK", 177); ("BPF_COPY_FROM_USER_TASK", 191); ("BPF_SKB_SET_TSTAMP", 192);
  ("BPF_STORE_HDR_OPT", 143); ("BPF_GET_FUNC_ARG", 183); ("BPF_XDP_STORE_BYTES", 190);
  ("BPF_IMA_FILE_HASH", 193); ("BPF_RESERVE_HDR_OPT", 144); ("BPF_GET_FUNC_RET", 184);
  ("BPF_CHECK_MTU", 163); ("BPF_COPY_FROM_USER", 148); ("BPF_FOR_EACH_MAP_ELEM", 164);
  ("BPF_SNPRINTF", 165); ("BPF_TIMER_INIT", 169); ("BPF_TIMER_SET_CALLBACK", 170);
  ("BPF_TIMER_START", 171); ("BPF_TIMER_CANCEL", 172); ("BPF_SKC_TO_UNIX_SOCK", 178);
  ("BPF_FIND_VMA", 180); ("BPF_LOOP", 181); ("BPF_STRNCMP", 182); ("BPF_PER_CPU_PTR", 153);
  ("BPF_THIS_CPU_PTR", 154); ("BPF_KPTR_XCHG", 194); ("BPF_DYNPTR_FROM_MEM", 197);
  ("BPF_RINGBUF_RESERVE_DYNPTR", 198); ("BPF_RINGBUF_SUBMIT_DYNPTR", 199);
  ("BPF_RINGBUF_DISCARD_DYNPTR", 200); ("BPF_DYNPTR_READ", 201); ("BPF_DYNPTR_WRITE", 202);
  ("BPF_DYNPTR_DATA", 203); ("BPF_USER_RINGBUF_DRAIN", 209); ("BPF_CGRP_STORAGE_GET", 210);
  ("BPF_CGRP_STORAGE_DELETE", 211); ("BPF_LOAD_HDR_OPT", 142); ("BPF_SNPRINTF_BTF", 149);
  ("BPF_SEQ_PRINTF_BTF", 150); ("BPF_BPRM_OPTS_SET", 159); ("BPF_IMA_INODE_HASH", 161);
  ("BPF_SYS_BPF", 166); ("BPF_GET_FUNC_IP", 173); ("BPF_GET_ATTACH_COOKIE", 174);
  ("BPF_GET_FUNC_ARG_CNT", 185); ("BPF_GET_RETVAL", 186); ("BPF_SET_RETVAL", 187);
  ("BPF_XDP_GET_BUFF_LEN", 188); ("BPF_XDP_LOAD_BYTES", 189);
  ("BPF_TCP_RAW_GEN_SYNCOOKIE_IPV4", 204); ("BPF_TCP_RAW_GEN_SYNCOOKIE_IPV6", 205);
  ("BPF_TCP_RAW_CHECK_SYNCOOKIE_IPV4", 206); ("BPF_TCP_RAW_CHECK_SYNCOOKIE_IPV6", 207);
  ("BPF_KTIME_GET_TAI_NS", 208); ("BPF_KFUNC_CALL_DUMMY", 213); ("BPF_RCU_READ_LOCK", 217);
  ("BPF_RCU_READ_UNLOCK", 218)].

(** The size arguments of the memory arguments, by the name of the list. *)
Definition pairs (name : string) : list MemSizePair :=
  match name with
  | "GET_STACK" => [pair_nullable R2 R3]
  | "CSUM_DIFF" => [pair_nullable R1 R2; pair_nullable R3 R4]
  | "SKB_LOAD_BYTES" => [pair_new R3 R4]
  | "SKB_GET_TUNNEL_KEY" => [pair_new R2 R3]
  | "SKB_SET_TUNNEL_KEY" => [pair_new R2 R3]
  | "SKB_STORE_BYTES" => [pair_new R3 R4]
  | "REDIRECT_NEIGH" => [pair_nullable R2 R3]
  | "LWT_SEG6_STORE_BYTES" => [pair_new R3 R4]
  | "TCP_SYNCOOKIE" => [pair_new R2 R3; pair_new R4 R5]
  | "SYSCTL_GET_CURRENT_VALUE" => [pair_nullable R2 R3]
  | "STORE_HDR_OPT" => [pair_new R2 R3]
  | "XDP_STORE_BYTES" => [pair_new R3 R4]
  | "IMA_FILE_HASH" => [pair_nullable R2 R3]
  | "SK_LOOKUP_TCP" => [pair_new R2 R3]
  | "SK_LOOKUP_UDP" => [pair_new R2 R3]
  | "GET_SOCKOPT" => [pair_new R4 R5]
  | "PROBE_READ" => [pair_nullable R1 R2]
  | "PERF_EVENT_READ_VALUE" => [pair_new R3 R4]
  | "PERF_PROG_READ_VALUE" => [pair_new R2 R3]
  | "GET_TASK_STACK" => [pair_new R2 R3]
  | "GET_BRANCH_SNAPSHOT" => [pair_new R1 R2]
  | "TRACE_PRINTK" => [pair_new R1 R2]
  | "TRACE_VPRINTK" => [pair_nullable R3 R4]
  | "COPY_FROM_USER_STR" => [pair_nullable R1 R2]
  | "GET_CURRENT_COMM" => [pair_new R1 R2]
  | "PERF_EVENT_OUTPUT" => [pair_new R4 R5]
  | "D_PATH" => [pair_new R2 R3]
  | "SNPRINTF" => [pair_nullable R1 R2; pair_nullable R4 R5]
  | "STRNCMP" => [pair_new R1 R2]
  | "DYNPTR_FROM_MEM" => [pair_new R1 R2]
  | "DYNPTR_READ" => [pair_nullable R1 R2]
  | "DYNPTR_WRITE" => [pair_nullable R3 R4]
  | "SKB_GET_TUNNEL_OPT" => [pair_new R2 R3]
  | "SKB_SET_TUNNEL_OPT" => [pair_new R2 R3]
  | "SKB_GET_XFRM_STATE" => [pair_new R3 R4]
  | "SKB_LOAD_BYTES_RELATIVE" => [pair_new R3 R4]
  | "SETSOCKOPT" => [pair_new R4 R5]
  | "BIND" => [pair_new R2 R3]
  | "LWT_PUSH_ENCAP" => [pair_new R3 R4]
  | "LWT_SEG6_ACTION" => [pair_new R3 R4]
  | "PROBE_WRITE_USER" => [pair_new R2 R3]
  | "SYSCTL_GET_NAME" => [pair_new R2 R3]
  | "READ_BRANCH_RECORDS" => [pair_nullable R2 R3]
  | "GET_NS_CURRENT_PID_TGID" => [pair_new R3 R4]
  | "SEQ_PRINTF" => [pair_nullable R4 R5]
  | "SEQ_WRITE" => [pair_nullable R2 R3]
  | "SKB_OUTPUT" => [pair_nullable R4 R5]
  | "XDP_LOAD_BYTES" => [pair_new R3 R4]
  | "IMA_INODE_HASH" => [pair_new R2 R3]
  | "SYS_BPF" => [pair_new R2 R3]
  | "SNPRINTF_BTF" => [pair_new R1 R2; pair_new R3 R4]
  | "LOAD_HDR_OPT" => [pair_new R2 R3]
  | "TCP_RAW_GEN_SYNCOOKIE_IPV4" => [pair_nullable R2 R3]
  | "TCP_RAW_GEN_SYNCOOKIE_IPV6" => [pair_nullable R2 R3]
  | _ => []
  end.

Definition helper_protos_1 : list arm := [
  P ["BPF_MAP_LOOKUP_ELEM"] [ConstMapPtr; PtrToMapKey; DontCare; DontCare; DontCare]
    ([]);
  P ["BPF_MAP_LOOKUP_PERCPU_ELEM"] [ConstMapPtr; PtrToMapKey; Anything; DontCare; DontCare]
    ([]);
  P ["BPF_MAP_UPDATE_ELEM"] [ConstMapPtr; PtrToMapKey; PtrToMapValue; Anything; DontCare]
    ([]);
  P ["BPF_MAP_DELETE_ELEM"] [ConstMapPtr; PtrToMapKey; DontCare; DontCare; DontCare]
    ([]);
  P ["BPF_GET_LOCAL_STORAGE"] [ConstMapPtr; Anything; DontCare; DontCare; DontCare]
    ([]);
  P ["BPF_GET_STACK"] [PtrToCtx; PtrToUninitMem; ConstSizeOrZero; Anything; DontCare]
    (pairs "GET_STACK");
  P ["BPF_TAIL_CALL"] [PtrToCtx; ConstMapPtr; Anything; DontCare; DontCare]
    ([]);
  P ["BPF_GET_SOCKET_COOKIE"] [PtrToCtx; DontCare; DontCare; DontCare; DontCare]
    ([]);
  P ["BPF_GET_NETNS_COOKIE"] [PtrToCtxOrNull; DontCare; DontCare; DontCare; DontCare]
    ([]);
  P ["BPF_CSUM_UPDATE"] [PtrToCtx; DontCare; DontCare; DontCare; DontCare]
    ([]);
  P ["BPF_CSUM_DIFF"] [PtrToMemOrNull; ConstSizeOrZero; PtrToMemOrNull; ConstSizeOrZero; Anything]
    (pairs "CSUM_DIFF");
  P ["BPF_SKB_ECN_SET_CE"] [PtrToCtxOrNull; DontCare; DontCare; DontCare; DontCare]
    ([]);
  P ["BPF_GET_HASH_RECALC"] [PtrToCtx; DontCare; DontCare; DontCare; DontCare]
    ([]);
  P ["BPF_SKB_LOAD_BYTES"] [PtrToCtx; Anything; PtrToUninitMem; ConstSize; DontCare]
    (pairs "SKB_LOAD_BYTES");
  P ["BPF_SKB_VLAN_PUSH"] [PtrToCtx; Anything; Anything; DontCare; DontCare]
    ([]);
  P ["BPF_SKB_GET_TUNNEL_KEY"] [PtrToCtx; PtrToUninitMem; ConstSize; Anything; DontCare]
    (pairs "SKB_GET_TUNNEL_KEY");
  P ["BPF_SKB_SET_TUNNEL_KEY"] [PtrToCtx; PtrToMem; ConstSize; Anything; DontCare]
    (pairs "SKB_SET_TUNNEL_KEY");
  P ["BPF_SKB_VLAN_POP"] [PtrToCtx; DontCare; DontCare; DontCare; DontCare]
    ([])].

Definition helper_protos_2 : list arm := [
  P ["BPF_SKB_STORE_BYTES"] [PtrToCtx; Anything; PtrToMem; ConstSize; DontCare]
    (pairs "SKB_STORE_BYTES");
  P ["BPF_SKB_CHANGE_PROTO"] [PtrToCtx; Anything; Anything; DontCare; DontCare]
    ([]);
  P ["BPF_SKB_CHANGE_TYPE"] [PtrToCtx; Anything; DontCare; DontCare; DontCare]
    ([]);
  P ["BPF_SKB_PULL_DATA"] [PtrToCtx; Anything; DontCare; DontCare; DontCare]
    ([]);
  P ["BPF_SKB_CHANGE_HEAD"] [PtrToCtx; Anything; Anything; DontCare; DontCare]
    ([]);
  P ["BPF_SKB_ADJUST_ROOM"] [PtrToCtx; Anything; Anything; Anything; DontCare]
    ([]);
  P ["BPF_SK_ASSIGN"] [PtrToCtx; PtrToBTFIdSockCommon; Anything; DontCare; DontCare]
    ([]);
  P ["BPF_GET_CURRENT_TASK"] [DontCare; DontCare; DontCare; DontCare; DontCare]
    ([]);
  P ["BPF_REDIRECT"] [Anything; Anything; DontCare; DontCare; DontCare]
    ([]);
  P ["BPF_REDIRECT_PEER"] [Anything; Anything; DontCare; DontCare; DontCare]
    ([]);
  P ["BPF_REDIRECT_NEIGH"] [Anything; PtrToMemOrNull; ConstSizeOrZero; Anything; DontCare]
    (pairs "REDIRECT_NEIGH");
  P ["BPF_CLONE_REDIRECT"] [PtrToCtx; Anything; Anything; DontCare; DontCare]
    ([]);
  P ["BPF_XDP_ADJUST_HEAD"; "BPF_XDP_ADJUST_TAIL"; "BPF_XDP_ADJUST_META"] [PtrToCtx; Anything; DontCare; DontCare; DontCare]
    ([]);
  P ["BPF_SKB_CHANGE_TAIL"] [PtrToCtx; Anything; Anything; DontCare; DontCare]
    ([]);
  P ["BPF_SKB_SET_TSTAMP"] [PtrToCtx; Anything; Anything; DontCare; DontCare]
    ([])].

Definition helper_protos_3 : list arm := [
  P ["BPF_MSG_REDIRECT_HASH"] [PtrToCtx; ConstMapPtr; PtrToMapKey; Anything; DontCare]
    ([]);
  P ["BPF_SK_REDIRECT_HASH"] [PtrToCtx; ConstMapPtr; PtrToMapKey; Anything; DontCare]
    ([]);
  P ["BPF_LWT_SEG6_STORE_BYTES"] [PtrToCtx; Anything; PtrToMem; ConstSize; DontCare]
    (pairs "LWT_SEG6_STORE_BYTES");
  P ["BPF_RC_POINTER_REL"] [PtrToCtx; Anything; Anything; DontCare; DontCare]
    ([]);
  P ["BPF_TCP_CHECK_SYNCOOKIE"] [PtrToBTFIdSockCommon; PtrToMem; ConstSize; PtrToMem; ConstSize]
    (pairs "TCP_SYNCOOKIE");
  P ["BPF_TCP_GEN_SYNCOOKIE"] [PtrToBTFIdSockCommon; PtrToMem; ConstSize; PtrToMem; ConstSize]
    (pairs "TCP_SYNCOOKIE");
  P ["BPF_SYSCTL_GET_CURRENT_VALUE"] [PtrToCtx; PtrToUninitMem; ConstSizeOrZero; DontCare; DontCare]
    (pairs "SYSCTL_GET_CURRENT_VALUE");
  P ["BPF_SEND_SIGNAL"] [Anything; DontCare; DontCare; DontCare; DontCare]
    ([]);
  P ["BPF_SK_CGROUP_ID"] [PtrToBTFIdSockCommon; DontCare; DontCare; DontCare; DontCare]
    ([]);
  P ["BPF_RINGBUF_QUERY"] [ConstMapPtr; Anything; DontCare; DontCare; DontCare]
    ([]);
  P ["BPF_STORE_HDR_OPT"] [PtrToCtx; PtrToMem; ConstSize; Anything; DontCare]
    (pairs "STORE_HDR_OPT");
  P ["BPF_GET_FUNC_ARG"] [PtrToCtx; Anything; PtrToLong; DontCare; DontCare]
    ([]);
  P ["BPF_XDP_STORE_BYTES"] [PtrToCtx; Anything; PtrToMem; ConstSize; DontCare]
    (pairs "XDP_STORE_BYTES");
  P ["BPF_IMA_FILE_HASH"] [PtrToBtfId; PtrToUninitMem; ConstSizeOrZero; DontCare; DontCare]
    (pairs "IMA_FILE_HASH");
  P ["BPF_SK_ANCESTOR_CGROUP_ID"] [PtrToBTFIdSockCommon; Anything; DontCare; DontCare; DontCare]
    ([]);
  P ["BPF_RESERVE_HDR_OPT"] [PtrToCtx; Anything; Anything; DontCare; DontCare]
    ([])].

Definition helper_protos_4 : list arm := [
  P ["BPF_GET_FUNC_RET"] [PtrToCtx; PtrToLong; DontCare; DontCare; DontCare]
    ([]);
  P ["BPF_SKC_LOOKUP_TCP"] [PtrToCtx; PtrToMem; Anything; DontCare; DontCare]
    (pairs "SK_LOOKUP_TCP");
  P ["BPF_SK_LOOKUP_TCP"] [PtrToCtx; PtrToMem; ConstSize; Anything; Anything]
    (pairs "SK_LOOKUP_TCP");
  P ["BPF_SK_LOOKUP_UDP"] [PtrToCtx; PtrToMem; ConstSize; Anything; Anything]
    (pairs "SK_LOOKUP_UDP");
  P ["BPF_SK_RELEASE"] [PtrToSocket; DontCare; DontCare; DontCare; DontCare]
    ([]);
  P ["BPF_SKC_TO_UDP6_SOCK"] [PtrToSocket; DontCare; DontCare; DontCare; DontCare]
    ([]);
  P ["BPF_SK_FULLSOCK"] [PtrToSockCommon; DontCare; DontCare; DontCare; DontCare]
    ([]);
  P ["BPF_TCP_SOCK"] [PtrToSockCommon; DontCare; DontCare; DontCare; DontCare]
    ([]);
  P ["BPF_SK_STORAGE_GET"] [ConstMapPtr; PtrToBTFIdSockCommon; PtrToMapValueOrNull; Anything; DontCare]
    ([]);
  P ["BPF_GET_SOCKOPT"] [Anything; Anything; Anything; PtrToUninitMem; ConstSize]
    (pairs "GET_SOCKOPT");
  P ["BPF_FIB_LOOKUP"] [PtrToCtx; PtrToMem; Anything; Anything; DontCare]
    ([]);
  P ["BPF_PROBE_READ"; "BPF_PROBE_READ_STR"; "BPF_PROBE_READ_USER"] [PtrToUninitMem; ConstSizeOrZero; Anything; DontCare; DontCare]
    (pairs "PROBE_READ");
  P ["BPF_PROBE_READ_KERNEL"] [PtrToUninitMem; ConstSizeOrZero; Anything; DontCare; DontCare]
    (pairs "PROBE_READ");
  P ["BPF_PERF_EVENT_READ_VALUE"] [ConstMapPtr; Anything; PtrToUninitMem; ConstSizeOrZero; DontCare]
    (pairs "PERF_EVENT_READ_VALUE");
  P ["BPF_PERF_PROG_READ_VALUE"] [PtrToCtx; PtrToUninitMem; ConstSizeOrZero; DontCare; DontCare]
    (pairs "PERF_PROG_READ_VALUE")].

Definition helper_protos_5 : list arm := [
  P ["BPF_SPIN_LOCK"] [MapValueSpecial SpinLock; DontCare; DontCare; DontCare; DontCare]
    ([]);
  P ["BPF_SPIN_UNLOCK"] [MapValueSpecial SpinLock; DontCare; DontCare; DontCare; DontCare]
    ([]);
  P ["BPF_RCU_READ_LOCK"] [DontCare; DontCare; DontCare; DontCare; DontCare]
    ([]);
  P ["BPF_RCU_READ_UNLOCK"] [DontCare; DontCare; DontCare; DontCare; DontCare]
    ([]);
  P ["BPF_TIMER_INIT"] [MapValueSpecial Timer; ConstMapPtr; Anything; DontCare; DontCare]
    ([]);
  P ["BPF_TIMER_SET_CALLBACK"] [MapValueSpecial Timer; PtrToCallback; DontCare; DontCare; DontCare]
    ([]);
  P ["BPF_TIMER_START"] [MapValueSpecial Timer; Anything; Anything; DontCare; DontCare]
    ([]);
  P ["BPF_TIMER_CANCEL"] [MapValueSpecial Timer; DontCare; DontCare; DontCare; DontCare]
    ([]);
  P ["BPF_RINGBUF_OUTPUT"] [ConstMapPtr; PtrToMem; ConstSizeOrZero; Anything; DontCare]
    ([]);
  P ["BPF_RINGBUF_RESERVE"] [ConstMapPtr; ConstAllocSizeOrZero; Anything; DontCare; DontCare]
    ([]);
  P ["BPF_RINGBUF_SUBMIT"] [PtrToAllocMem; Anything; DontCare; DontCare; DontCare]
    ([]);
  P ["BPF_USER_RINGBUF_DRAIN"] [ConstMapPtrOfType 31; PtrToCallback; Anything; Anything; DontCare]
    ([]);
  P ["BPF_FOR_EACH_MAP_ELEM"] [ConstMapPtr; PtrToCallback; Anything; Anything; DontCare]
    ([]);
  P ["BPF_KTIME_GET_NS"] [DontCare; DontCare; DontCare; DontCare; DontCare]
    ([]);
  P ["BPF_KTIME_GET_COARSE_NS"] [DontCare; DontCare; DontCare; DontCare; DontCare]
    ([])].

Definition helper_protos_6 : list arm := [
  P ["BPF_GET_CURRENT_PID_TGID"] [DontCare; DontCare; DontCare; DontCare; DontCare]
    ([]);
  P ["BPF_GET_TASK_STACK"] [PtrToBtfId; PtrToUninitMem; ConstSizeOrZero; Anything; DontCare]
    (pairs "GET_TASK_STACK");
  P ["BPF_GET_BRANCH_SNAPSHOT"] [PtrToUninitMem; ConstSize; Anything; DontCare; DontCare]
    (pairs "GET_BRANCH_SNAPSHOT");
  P ["BPF_SOCK_MAP_UPDATE"] [PtrToCtx; ConstMapPtr; PtrToMapKey; Anything; DontCare]
    ([]);
  P ["BPF_GET_PRANDOM_U32"] [DontCare; DontCare; DontCare; DontCare; DontCare]
    ([]);
  P ["BPF_TRACE_PRINTK"] [PtrToMem; ConstSize; DontCare; DontCare; DontCare]
    (pairs "TRACE_PRINTK");
  P ["BPF_TRACE_VPRINTK"] [PtrToMem; ConstSize; PtrToMemOrNull; ConstSizeOrZero; DontCare]
    (pairs "TRACE_VPRINTK");
  P ["BPF_STRTOUL"] [PtrToMem; ConstSize; Anything; PtrToLong; DontCare]
    ([]);
  P ["BPF_STRTOL"] [PtrToMem; ConstSize; Anything; PtrToLong; DontCare]
    ([]);
  P ["BPF_CHECK_MTU"] [PtrToCtx; Anything; PtrToUninitMem; Anything; Anything]
    ([]);
  P ["BPF_COPY_FROM_USER"] [PtrToUninitMem; ConstSize; Anything; DontCare; DontCare]
    ([]);
  P ["BPF_COPY_FROM_USER_TASK"] [PtrToUninitMem; ConstSize; Anything; PtrToBtfId; Anything]
    (pairs "COPY_FROM_USER_STR");
  P ["BPF_GET_CGROUP_CLASS_ID"] [PtrToCtx; DontCare; DontCare; DontCare; DontCare]
    ([]);
  P ["BPF_GET_CURRENT_COMM"] [PtrToUninitMem; ConstSize; DontCare; DontCare; DontCare]
    (pairs "GET_CURRENT_COMM")].

Definition helper_protos_7 : list arm := [
  P ["BPF_PERF_EVENT_OUTPUT"] [PtrToCtx; ConstMapPtr; Anything; PtrToMem; ConstSizeOrZero]
    (pairs "PERF_EVENT_OUTPUT");
  P ["BPF_L3_CSUM_REPLACE"] [PtrToCtx; Anything; Anything; Anything; Anything]
    ([]);
  P ["BPF_L4_CSUM_REPLACE"] [PtrToCtx; Anything; Anything; Anything; Anything]
    ([]);
  P ["BPF_SK_STORAGE_DELETE"] [ConstMapPtr; PtrToBTFIdSockCommon; DontCare; DontCare; DontCare]
    ([]);
  P ["BPF_TASK_STORAGE_GET"] [ConstMapPtr; PtrToTask; PtrToMapValueOrNull; Anything; DontCare]
    ([]);
  P ["BPF_TASK_STORAGE_DELETE"] [ConstMapPtr; PtrToTask; DontCare; DontCare; DontCare]
    ([]);
  P ["BPF_INODE_STORAGE_GET"] [ConstMapPtr; PtrToBtfId; PtrToMapValueOrNull; Anything; DontCare]
    ([]);
  P ["BPF_INODE_STORAGE_DELETE"] [ConstMapPtr; PtrToBtfId; DontCare; DontCare; DontCare]
    ([]);
  P ["BPF_CGRP_STORAGE_GET"] [ConstMapPtr; PtrToBtfIdNamed "cgroup"; PtrToMapValueOrNull; Anything; DontCare]
    ([]);
  P ["BPF_CGRP_STORAGE_DELETE"] [ConstMapPtr; PtrToBtfIdNamed "cgroup"; DontCare; DontCare; DontCare]
    ([]);
  P ["BPF_GET_CURRENT_TASK_BTF"] [DontCare; DontCare; DontCare; DontCare; DontCare]
    ([]);
  P ["BPF_D_PATH"] [PtrToBtfId; PtrToUninitMem; ConstSize; DontCare; DontCare]
    (pairs "D_PATH");
  P ["BPF_SNPRINTF"] [PtrToUninitMemOrNull; ConstSizeOrZero; PtrToConstStr; PtrToMemOrNull; ConstSizeOrZero]
    (pairs "SNPRINTF");
  P ["BPF_STRNCMP"] [PtrToMem; ConstSize; PtrToConstStr; DontCare; DontCare]
    (pairs "STRNCMP")].

Definition helper_protos_8 : list arm := [
  P ["BPF_DYNPTR_FROM_MEM"] [PtrToMem; ConstSizeOrZero; Anything; DynptrArg true false; DontCare]
    (pairs "DYNPTR_FROM_MEM");
  P ["BPF_RINGBUF_RESERVE_DYNPTR"] [ConstMapPtr; Anything; Anything; DynptrArg true false; DontCare]
    ([]);
  P ["BPF_RINGBUF_SUBMIT_DYNPTR"] [DynptrArg false false; Anything; DontCare; DontCare; DontCare]
    ([]);
  P ["BPF_RINGBUF_DISCARD_DYNPTR"] [DynptrArg false false; Anything; DontCare; DontCare; DontCare]
    ([]);
  P ["BPF_DYNPTR_READ"] [PtrToUninitMem; ConstSizeOrZero; DynptrArg false false; Anything; Anything]
    (pairs "DYNPTR_READ");
  P ["BPF_DYNPTR_WRITE"] [DynptrArg false false; Anything; PtrToMem; ConstSizeOrZero; Anything]
    (pairs "DYNPTR_WRITE");
  P ["BPF_DYNPTR_DATA"] [DynptrArg false false; Anything; ConstSize; DontCare; DontCare]
    ([]);
  P ["BPF_GET_SMP_PROCESSOR_ID"] [DontCare; DontCare; DontCare; DontCare; DontCare]
    ([]);
  P ["BPF_GET_CURRENT_CGROUP_ID"] [DontCare; DontCare; DontCare; DontCare; DontCare]
    ([]);
  P ["BPF_JIFFIES64"] [DontCare; DontCare; DontCare; DontCare; DontCare]
    ([]);
  P ["BPF_SEND_SIGNAL_THREAD"] [Anything; DontCare; DontCare; DontCare; DontCare]
    ([]);
  P ["BPF_SKB_CGROUP_ID"] [PtrToCtx; DontCare; DontCare; DontCare; DontCare]
    ([]);
  P ["BPF_SKB_ANCESTOR_CGROUP_ID"] [PtrToCtx; Anything; DontCare; DontCare; DontCare]
    ([]);
  P ["BPF_CSUM_LEVEL"] [PtrToCtx; Anything; DontCare; DontCare; DontCare]
    ([]);
  P ["BPF_SKB_GET_TUNNEL_OPT"] [PtrToCtx; PtrToUninitMem; ConstSize; DontCare; DontCare]
    (pairs "SKB_GET_TUNNEL_OPT");
  P ["BPF_SKB_SET_TUNNEL_OPT"] [PtrToCtx; PtrToMem; ConstSize; DontCare; DontCare]
    (pairs "SKB_SET_TUNNEL_OPT");
  P ["BPF_SKB_GET_XFRM_STATE"] [PtrToCtx; Anything; PtrToUninitMem; ConstSize; Anything]
    (pairs "SKB_GET_XFRM_STATE");
  P ["BPF_SKB_LOAD_BYTES_RELATIVE"] [PtrToCtx; Anything; PtrToUninitMem; ConstSize; Anything]
    (pairs "SKB_LOAD_BYTES_RELATIVE");
  P ["BPF_SETSOCKOPT"] [Anything; Anything; Anything; PtrToMem; ConstSize]
    (pairs "SETSOCKOPT");
  P ["BPF_BIND"] [PtrToCtx; PtrToMem; ConstSize; DontCare; DontCare]
    (pairs "BIND")].

Definition helper_protos_9 : list arm := [
  P ["BPF_SOCK_OPS_CB_FLAGS_SET"] [PtrToCtx; Anything; DontCare; DontCare; DontCare]
    ([]);
  P ["BPF_REDIRECT_MAP"] [ConstMapPtr; Anything; Anything; DontCare; DontCare]
    ([]);
  P ["BPF_SK_REDIRECT_MAP"] [PtrToCtx; ConstMapPtr; Anything; Anything; DontCare]
    ([]);
  P ["BPF_MSG_REDIRECT_MAP"] [PtrToCtx; ConstMapPtr; Anything; Anything; DontCare]
    ([]);
  P ["BPF_SOCK_HASH_UPDATE"] [PtrToCtx; ConstMapPtr; PtrToMapKey; Anything; DontCare]
    ([]);
  P ["BPF_SK_SELECT_REUSEPORT"] [PtrToCtx; ConstMapPtr; PtrToMapKey; Anything; DontCare]
    ([]);
  P ["BPF_LWT_PUSH_ENCAP"] [PtrToCtx; Anything; PtrToMem; ConstSize; DontCare]
    (pairs "LWT_PUSH_ENCAP");
  P ["BPF_LWT_SEG6_ADJUST_SRH"] [PtrToCtx; Anything; Anything; DontCare; DontCare]
    ([]);
  P ["BPF_LWT_SEG6_ACTION"] [PtrToCtx; Anything; PtrToMem; ConstSize; DontCare]
    (pairs "LWT_SEG6_ACTION");
  P ["BPF_GET_STACKID"] [PtrToCtx; ConstMapPtr; Anything; DontCare; DontCare]
    ([]);
  P ["BPF_OVERRIDE_RETURN"] [PtrToCtx; Anything; DontCare; DontCare; DontCare]
    ([]);
  P ["BPF_RC_KEYDOWN"] [PtrToCtx; Anything; Anything; Anything; DontCare]
    ([]);
  P ["BPF_PROBE_WRITE_USER"] [Anything; PtrToMem; ConstSize; DontCare; DontCare]
    (pairs "PROBE_WRITE_USER");
  P ["BPF_SYSCTL_GET_NAME"] [PtrToCtx; PtrToUninitMem; ConstSize; Anything; DontCare]
    (pairs "SYSCTL_GET_NAME")].

Definition helper_protos_10 : list arm := [
  P ["BPF_TCP_SEND_ACK"] [PtrToBtfIdNamed "tcp_sock"; Anything; DontCare; DontCare; DontCare]
    ([]);
  P ["BPF_READ_BRANCH_RECORDS"] [PtrToCtx; PtrToMemOrNull; ConstSizeOrZero; Anything; DontCare]
    (pairs "READ_BRANCH_RECORDS");
  P ["BPF_GET_NS_CURRENT_PID_TGID"] [Anything; Anything; PtrToUninitMem; ConstSize; DontCare]
    (pairs "GET_NS_CURRENT_PID_TGID");
  P ["BPF_SEQ_PRINTF"] [PtrToBtfIdNamed "seq_file"; PtrToMem; ConstSize; PtrToMemOrNull; ConstSizeOrZero]
    (pairs "SEQ_PRINTF");
  P ["BPF_SEQ_WRITE"] [PtrToBtfIdNamed "seq_file"; PtrToMem; ConstSizeOrZero; DontCare; DontCare]
    (pairs "SEQ_WRITE");
  P ["BPF_SKB_OUTPUT"] [PtrToBtfIdNamed "sk_buff"; ConstMapPtr; Anything; PtrToMem; ConstSizeOrZero]
    (pairs "SKB_OUTPUT");
  P ["BPF_MAP_PUSH_ELEM"] [ConstMapPtr; PtrToMapValue; Anything; DontCare; DontCare]
    ([]);
  P ["BPF_MAP_POP_ELEM"] [ConstMapPtr; PtrToUninitMapValue; DontCare; DontCare; DontCare]
    ([]);
  P ["BPF_MAP_PEEK_ELEM"] [ConstMapPtr; PtrToUninitMapValue; DontCare; DontCare; DontCare]
    ([]);
  P ["BPF_RINGBUF_DISCARD"] [PtrToAllocMem; Anything; DontCare; DontCare; DontCare]
    ([]);
  P ["BPF_PROBE_READ_USER_STR"] [PtrToUninitMem; ConstSizeOrZero; Anything; DontCare; DontCare]
    (pairs "PROBE_READ");
  P ["BPF_PROBE_READ_KERNEL_STR"] [PtrToUninitMem; ConstSizeOrZero; Anything; DontCare; DontCare]
    (pairs "PROBE_READ")].

Definition helper_protos_11 : list arm := [
  P ["BPF_SKC_TO_TCP_SOCK"] [PtrToBTFIdSockCommon; DontCare; DontCare; DontCare; DontCare]
    ([]);
  P ["BPF_SKC_TO_TCP6_SOCK"] [PtrToBTFIdSockCommon; DontCare; DontCare; DontCare; DontCare]
    ([]);
  P ["BPF_SKC_TO_TCP_REQUEST_SOCK"] [PtrToBTFIdSockCommon; DontCare; DontCare; DontCare; DontCare]
    ([]);
  P ["BPF_SKC_TO_UNIX_SOCK"] [PtrToBTFIdSockCommon; DontCare; DontCare; DontCare; DontCare]
    ([]);
  P ["BPF_SKC_TO_MPTCP_SOCK"] [PtrToSockCommon; DontCare; DontCare; DontCare; DontCare]
    ([]);
  P ["BPF_GET_LISTENER_SOCK"] [PtrToSockCommon; DontCare; DontCare; DontCare; DontCare]
    ([]);
  P ["BPF_SOCK_FROM_FILE"] [PtrToBtfIdNamed "file"; DontCare; DontCare; DontCare; DontCare]
    ([]);
  P ["BPF_TASK_PT_REGS"] [PtrToTask; DontCare; DontCare; DontCare; DontCare]
    ([]);
  P ["BPF_PER_CPU_PTR"] [Anything; Anything; DontCare; DontCare; DontCare]
    ([]);
  P ["BPF_THIS_CPU_PTR"] [Anything; DontCare; DontCare; DontCare; DontCare]
    ([]);
  P ["BPF_GET_FUNC_IP"] [PtrToCtx; DontCare; DontCare; DontCare; DontCare]
    ([]);
  P ["BPF_GET_ATTACH_COOKIE"] [PtrToCtx; DontCare; DontCare; DontCare; DontCare]
    ([]);
  P ["BPF_GET_FUNC_ARG_CNT"] [PtrToCtx; DontCare; DontCare; DontCare; DontCare]
    ([]);
  P ["BPF_GET_RETVAL"] [DontCare; DontCare; DontCare; DontCare; DontCare]
    ([]);
  P ["BPF_SET_RETVAL"] [Anything; DontCare; DontCare; DontCare; DontCare]
    ([]);
  P ["BPF_XDP_GET_BUFF_LEN"] [PtrToCtx; DontCare; DontCare; DontCare; DontCare]
    ([]);
  P ["BPF_XDP_LOAD_BYTES"] [PtrToCtx; Anything; PtrToUninitMem; ConstSize; DontCare]
    (pairs "XDP_LOAD_BYTES");
  P ["BPF_KTIME_GET_TAI_NS"] [DontCare; DontCare; DontCare; DontCare; DontCare]
    ([]);
  P ["BPF_BPRM_OPTS_SET"] [PtrToBtfIdNamed "linux_binprm"; Anything; DontCare; DontCare; DontCare]
    ([]);
  P ["BPF_IMA_INODE_HASH"] [PtrToBtfIdNamed "inode"; PtrToUninitMem; ConstSize; DontCare; DontCare]
    (pairs "IMA_INODE_HASH")].

Definition helper_protos_12 : list arm := [
  P ["BPF_SYS_BPF"] [Anything; PtrToMem; ConstSize; DontCare; DontCare]
    (pairs "SYS_BPF");
  P ["BPF_SNPRINTF_BTF"] [PtrToUninitMem; ConstSize; PtrToMem; ConstSize; Anything]
    (pairs "SNPRINTF_BTF");
  P ["BPF_LOAD_HDR_OPT"] [PtrToCtx; PtrToUninitMem; ConstSize; Anything; DontCare]
    (pairs "LOAD_HDR_OPT");
  P ["BPF_TCP_RAW_GEN_SYNCOOKIE_IPV4"] [PtrToMem; PtrToMem; ConstSizeOrZero; DontCare; DontCare]
    (pairs "TCP_RAW_GEN_SYNCOOKIE_IPV4");
  P ["BPF_TCP_RAW_GEN_SYNCOOKIE_IPV6"] [PtrToMem; PtrToMem; ConstSizeOrZero; DontCare; DontCare]
    (pairs "TCP_RAW_GEN_SYNCOOKIE_IPV6");
  P ["BPF_TCP_RAW_CHECK_SYNCOOKIE_IPV4"] [PtrToMem; PtrToMem; DontCare; DontCare; DontCare]
    ([]);
  P ["BPF_TCP_RAW_CHECK_SYNCOOKIE_IPV6"] [PtrToMem; PtrToMem; DontCare; DontCare; DontCare]
    ([]);
  P ["BPF_LOOP"] [Anything; PtrToCallback; Anything; Anything; DontCare]
    ([]);
  P ["BPF_FIND_VMA"] [PtrToTask; Anything; PtrToCallback; Anything; Anything]
    ([]);
  P ["BPF_KPTR_XCHG"] [Anything; Anything; DontCare; DontCare; DontCare]
    ([])].

Definition helper_protos_13 : list arm := [
  P ["BPF_SKC_TO_TCP_TIMEWAIT_SOCK"] [PtrToBTFIdSockCommon; DontCare; DontCare; DontCare; DontCare]
    ([]);
  P ["BPF_SEQ_PRINTF_BTF"] [PtrToBtfIdNamed "seq_file"; PtrToMem; ConstSizeOrZero; Anything; DontCare]
    (pairs "SEQ_WRITE")].

Definition helper_protos : list arm :=
  helper_protos_1 ++ helper_protos_2 ++ helper_protos_3 ++ helper_protos_4 ++ helper_protos_5 ++
  helper_protos_6 ++ helper_protos_7 ++ helper_protos_8 ++ helper_protos_9 ++ helper_protos_10 ++
  helper_protos_11 ++ helper_protos_12 ++ helper_protos_13.
Definition helper_constants : list (string * Z) := helper_constants_1 ++ helper_constants_2.

(** The value of a constant. *)
Fixpoint assoc {B} (name : string) (l : list (string * B)) : option B :=
  match l with
  | [] => None
  | (n, v) :: rest => if String.eqb n name then Some v else assoc name rest
  end.

(** The arms with the values of their patterns. *)
Definition numbered : list (Z * CallProto) :=
  flat_map (fun a : arm => omap (fun n => (fun v => (v, a.2)) <$> assoc n helper_constants) a.1)
    helper_protos.

Fixpoint first_match {B} (key : Z) (l : list (Z * B)) : option B :=
  match l with
  | [] => None
  | (k, v) :: rest => if k =? key then Some v else first_match key rest
  end.

Definition get_helper_proto (helper : Z) : option CallProto := first_match helper numbered.

(** The arguments in front of the first unused one. *)
Fixpoint count_args (l : list ArgKind) : nat :=
  match l with [] => 0 | DontCare :: _ => 0 | _ :: rest => S (count_args rest) end.

(** * Against the declarations of the header *)

Definition upper (c : ascii) : ascii :=
  let n := nat_of_ascii c in
  if (97 <=? n)%nat && (n <=? 122)%nat then ascii_of_nat (n - 32) else c.
Definition upper_string (s : string) : string :=
  string_of_list_ascii (map upper (list_ascii_of_string s)).

Definition declaration (helper : Z) : option c_decl :=
  find (fun d => c_id d =? helper) helper_defs.

(** The counts of the prototype and of the declaration, where they differ. *)
Definition count_mismatch (e : Z * CallProto) : option (string * nat * nat) :=
  match declaration e.1 with
  | Some d =>
      let n := count_args (args e.2) in
      let m := length (fixed_params d) in
      if (n =? m)%nat then None else Some (c_name d, n, m)
  | None => None
  end.

Definition is_size (k : ArgKind) : bool :=
  match k with ConstSize | ConstSizeOrZero | ConstAllocSizeOrZero => true | _ => false end.
Definition is_memory (k : ArgKind) : bool :=
  match k with PtrToMem | PtrToUninitMem | PtrToMemOrNull | PtrToUninitMemOrNull => true | _ => false end.

(** A pointer is a pointer in both, or is not looked at. *)
Definition kind_agrees (k : ArgKind) (param : string) : bool :=
  match k with
  | Anything | DontCare => true
  | _ => eqb (is_pointer_param param) (negb (is_size k))
  end.
Definition kinds_agree (e : Z * CallProto) : bool :=
  match declaration e.1 with
  | Some d => forallb (fun kp => kind_agrees kp.1 kp.2) (zip (args e.2) (fixed_params d))
  | None => true
  end.

(** Registers of the arguments. *)
Definition arg_regs : list Reg := [R1; R2; R3; R4; R5].

(** Memory arguments with their size in the next register and no pair that has it checked. *)
Definition unchecked_sizes (e : Z * CallProto) : list (string * nat) :=
  match declaration e.1 with
  | Some d =>
      omap (fun i =>
        match args e.2 !! i, args e.2 !! S i, arg_regs !! i with
        | Some k, Some k', Some r =>
            if is_memory k && is_size k' &&
               negb (existsb (fun m => bool_decide (ptr_reg m = r)) (mem_size_pairs e.2))
            then Some (c_name d, S i) else None
        | _, _, _ => None
        end) (seq 0 5)
  | None => []
  end.

(** No two arms match the same number, so an entry is what [get_helper_proto] returns. *)
Lemma numbers_distinct : NoDup (map fst numbered).
Proof. apply (bool_decide_unpack _). vm_compute. exact I. Qed.

Lemma first_match_in {B} k (v : B) l : NoDup (map fst l) -> (k, v) ∈ l -> first_match k l = Some v.
Proof.
  induction l as [|[k' v'] l IH]; cbn; [by intros _ ?%elem_of_nil|].
  intros [Hn Hd]%NoDup_cons [[= -> ->]|Hi]%elem_of_cons; [by rewrite Z.eqb_refl|].
  destruct (Z.eqb_spec k' k) as [->|]; [|auto].
  destruct Hn. apply list_elem_of_fmap. by exists (k, v).
Qed.

Lemma get_helper_proto_numbered k p : (k, p) ∈ numbered -> get_helper_proto k = Some p.
Proof. apply first_match_in, numbers_distinct. Qed.

(** The declarations of the header are numbered as the list of [linux/bpf.h]; the constants of
    the verifier that are helper numbers have the name of the declaration, two spellings and the
    entries without a declaration apart; every prototype takes as many arguments as its declaration
    has parameters, except three that take fewer, so that the liveness analysis lets the missing
    registers die; and no size argument stands for a pointer parameter or the other way round. *)
Theorem helper_protos_agree :
  map (fun d => (c_name d, c_id d)) helper_defs =
    map (fun h => ("bpf_" ++ h.1, h.2)%string) (drop 1 BpfInsn.uapi_helpers) /\
  omap (fun c => match declaration c.2 with
                 | Some d => if String.eqb (upper_string (c_name d)) c.1 then None else Some (c.1, c_name d)
                 | None => Some (c.1, "none")
                 end) helper_constants =
    [("BPF_UNSPEC", "none"); ("BPF_GET_CGROUP_CLASS_ID", "bpf_get_cgroup_classid");
     ("BPF_GET_SOCKOPT", "bpf_getsockopt"); ("BPF_KFUNC_CALL_DUMMY", "none");
     ("BPF_RCU_READ_LOCK", "none"); ("BPF_RCU_READ_UNLOCK", "none")] /\
  omap count_mismatch numbered =
    [("bpf_csum_update", 1%nat, 2%nat); ("bpf_skb_store_bytes", 4%nat, 5%nat);
     ("bpf_skc_lookup_tcp", 3%nat, 5%nat)] /\
  forallb kinds_agree numbered = true /\
  (forall k p, (k, p) ∈ numbered -> get_helper_proto k = Some p).
Proof. split_and!; [vm_compute; reflexivity..|exact get_helper_proto_numbered]. Qed.

(** The helpers that read or write a buffer whose length is the next argument without the pair
    that would have the length checked. *)
Theorem helper_sizes_unchecked :
  concat (map unchecked_sizes numbered) =
    [("bpf_ringbuf_output", 2%nat); ("bpf_trace_vprintk", 1%nat); ("bpf_strtoul", 1%nat);
     ("bpf_strtol", 1%nat); ("bpf_copy_from_user", 1%nat); ("bpf_seq_printf", 2%nat)].
Proof. vm_compute; reflexivity. Qed.

End HelperProtos.
