(* ===== verification/Subprog.v ===== *)
(** Subprograms ([src/analysis/flow/subprog.rs]): where the functions of a program begin and end, how
    much stack each of them uses, the checks of their jumps and of the depth of their calls.  The
    static walk for calls that may sleep is left out.  An index outside of the program, which makes
    the source panic, is [Panicked]; sums of [u16] and [i64] wrap as in the release build. *)

From S2P Require Import Prelude Zone Ast IntervalPacket.
From Stdlib Require Import ZArith Lia Sorting.
From stdpp Require Import base numbers list sorting gmap sets.
Open Scope Z_scope.

Module Subprog.
Import Zone(Reg(..)).
#[local] Existing Instance Zone.Reg_eq_dec.
Import Ast.
Import IntervalPacket(ProgramKind(..)).

#[export] Program Instance Reg_countable : Countable Reg :=
  inj_countable Zone.idx Zone.idx_to_reg _.
Next Obligation. by intros []. Qed.

Definition MAX_BPF_STACK : Z := 512.
Definition BPF_MAX_CALL_FRAMES : nat := 8.
Definition MAY_GOTO_STACK_EXTRA : Z := 8.
Definition BPF_TAIL_CALL : Z := 12.
Definition BPF_TIMER_SET_CALLBACK : Z := 170.

Record SubprogInfo : Type := MkSub { start_pc : nat; end_pc : nat; max_stack_depth : Z }.

Inductive SubprogError : Type :=
| JumpOutOfRange (pc target start stop : nat)
| CallOutOfBounds (pc target : nat)
| InvalidTerminator (pc : nat)
| StackOverflow (pc : nat) (combined : Z)
| CallDepthExceeded (pc depth : nat)
| RecursiveCall (pc target : nat).

Inductive outcome (A : Type) : Type := Done (a : A) | Failed (e : SubprogError) | Panicked.
Arguments Done {A} a.
Arguments Failed {A} e.
Arguments Panicked {A}.

Definition bind {A B} (x : outcome A) (f : A -> outcome B) : outcome B :=
  match x with Done a => f a | Failed e => Failed e | Panicked => Panicked end.
Notation "'let+' x := a 'in' b" := (bind a (fun x => b))
  (at level 10, x name, a at level 100, b at level 200).

(** A loop that stops at the first error. *)
Fixpoint for_each {A} (f : A -> outcome unit) (l : list A) : outcome unit :=
  match l with [] => Done tt | x :: rest => let+ _ := f x in for_each f rest end.

Definition private_stack_eligible (k : ProgramKind) (instrs : list Instr) : bool :=
  match k with
  | Kprobe | Tracepoint | PerfEvent | RawTracepoint | RawTracepointWritable | StructOps =>
      negb (existsb (fun i => match i with Call (Helper id) => id =? BPF_TAIL_CALL | _ => false end) instrs)
  | _ => false
  end.

(** * The depth of a function *)

(** Registers that hold the frame pointer plus a constant. *)
Definition Alias : Type := gmap Reg Z.

Definition track_access (alias : Alias) (base : Reg) (off max_depth : Z) : Z :=
  match alias !! base with
  | Some base_off =>
      let total := s64 (base_off + off) in
      if total <? 0 then
        if - total <=? 65535 then Z.max max_depth (- total) else max_depth
      else max_depth
  | None => max_depth
  end.

Definition clobber (alias : Alias) : Alias :=
  delete R0 (delete R1 (delete R2 (delete R3 (delete R4 (delete R5 alias))))).

Definition alias_set (alias : Alias) (dst : Reg) (v : option Z) : Alias :=
  match v with Some o => <[dst := o]> alias | None => delete dst alias end.

Definition depth_alu (alias : Alias) (w : Width) (op : AluOp) (dst : Reg) (src : Operand) : Alias :=
  if decide (dst = R10) then alias
  else match w with
       | W32 => delete dst alias
       | W64 =>
           match op, src with
           | Mov, OReg r => alias_set alias dst (alias !! r)
           | Add, OImm k => alias_set alias dst ((fun o => s64 (o + k)) <$> alias !! dst)
           | Sub, OImm k => alias_set alias dst ((fun o => s64 (o - k)) <$> alias !! dst)
           | _, _ => delete dst alias
           end
       end.

(** The accumulated depth, whether a may_goto occurred, and the aliases. *)
Definition depth_instr (acc : Z * bool * Alias) (i : Instr) : Z * bool * Alias :=
  let '(d, goto, alias) := acc in
  match i with
  | MayGoto _ => (d, true, alias)
  | Store _ base off _ | StoreRel _ base off _ | Atomic _ _ _ base off _ =>
      (track_access alias base off d, goto, alias)
  | Load _ dst base off | LoadSx _ dst base off | LoadAcq _ dst base off =>
      (track_access alias base off d, goto, delete dst alias)
  | Alu w op dst src => (d, goto, depth_alu alias w op dst src)
  | MovSx _ _ dst _ | Endian dst _ _ _ | LoadMap dst _ _ _ => (d, goto, delete dst alias)
  | LoadPacket _ _ _ _ | Call _ | CallRel _ => (d, goto, clobber alias)
  | If _ _ _ _ _ | Jmp _ | Exit => (d, goto, alias)
  end.

Definition compute_max_stack_depth (instrs : list Instr) : Z :=
  let '(d, goto, _) := foldl depth_instr (0, false, {[ R10 := 0 ]}) instrs in
  if goto : bool then Z.min (d + MAY_GOTO_STACK_EXTRA) 65535 else d.

(** * Boundaries *)

Definition add_entry (entries : list nat) (pc : nat) : list nat :=
  if decide (pc ∈ entries) then entries else entries ++ [pc].

Definition collect_entry (entries : list nat) (i : Instr) : list nat :=
  match i with
  | CallRel target => add_entry entries target
  | LoadMap _ (PseudoFunc subprog_pc) _ _ => add_entry entries (Z.to_nat subprog_pc)
  | _ => entries
  end.

Definition collect_entries (instrs : list Instr) : list nat :=
  merge_sort le (foldl collect_entry [0%nat] instrs).

(** [&instrs[a..b]]. *)
Definition slice (instrs : list Instr) (a b : nat) : option (list Instr) :=
  if (a <=? b)%nat && (b <=? length instrs)%nat then Some (take (b - a) (drop a instrs)) else None.

Fixpoint build (instrs : list Instr) (entries : list nat) : option (list SubprogInfo) :=
  match entries with
  | [] => Some []
  | start :: rest =>
      let stop := match rest with next :: _ => next | [] => length instrs end in
      match slice instrs start stop, build instrs rest with
      | Some body, Some l => Some (MkSub start stop (compute_max_stack_depth body) :: l)
      | _, _ => None
      end
  end.

(** [None]: a boundary lies outside of the program and the slice panics.  The map of the source is
    the list in the order of its keys. *)
Definition analyze_subprograms (instrs : list Instr) : option (list SubprogInfo) :=
  build instrs (collect_entries instrs).

Definition get_subprog (l : list SubprogInfo) (pc : nat) : option SubprogInfo :=
  List.find (fun i => (start_pc i =? pc)%nat) l.

(** * Jumps and terminators *)

Definition call_target (i : Instr) : option nat := match i with CallRel t => Some t | _ => None end.

(** An ordered set: sorted, without repetitions. *)
Definition func_starts (instrs : list Instr) : list nat :=
  merge_sort le (remove_dups (0%nat :: omap call_target instrs)).

Definition is_local (start stop t : nat) : bool := (start <=? t)%nat && (t <? stop)%nat.

Definition check_insn (instrs : list Instr) (start stop pc : nat) : outcome unit :=
  match instrs !! pc with
  | None => Panicked
  | Some (Jmp t) | Some (If _ _ _ _ t) =>
      if is_local start stop t then Done tt else Failed (JumpOutOfRange pc t start stop)
  | Some (CallRel t) => if (t <? length instrs)%nat then Done tt else Failed (CallOutOfBounds pc t)
  | Some _ => Done tt
  end.

Definition check_terminator (instrs : list Instr) (stop : nat) : outcome unit :=
  match stop with
  | O => Done tt
  | S last_pc =>
      match instrs !! last_pc with
      | None => Panicked
      | Some (Jmp _) | Some Exit => Done tt
      | Some _ => Failed (InvalidTerminator last_pc)
      end
  end.

Fixpoint check_functions (instrs : list Instr) (starts : list nat) : outcome unit :=
  match starts with
  | [] => Done tt
  | start :: rest =>
      let stop := match rest with next :: _ => next | [] => length instrs end in
      let+ _ := for_each (check_insn instrs start stop) (seq start (stop - start)) in
      let+ _ := check_terminator instrs stop in
      check_functions instrs rest
  end.

Definition check_subprogs (prog : Program) : outcome unit :=
  check_functions (instrs prog) (func_starts (instrs prog)).

(** * Call chains *)

Section Chain.
Context (prog : Program) (subprogs : list SubprogInfo) (private_stack : bool).

(** [visiting] is the set the source passes by reference; it is returned with the result. *)
Fixpoint check_call_chain (fuel : nat) (entry_pc : nat) (depth_so_far : Z) (call_depth : nat)
  (caller_pc : option nat) (visiting : gset nat) : outcome (gset nat) :=
  if (BPF_MAX_CALL_FRAMES <? call_depth)%nat
  then Failed (CallDepthExceeded (default entry_pc caller_pc) call_depth)
  else if decide (entry_pc ∈ visiting)
  then Failed (RecursiveCall (default entry_pc caller_pc) entry_pc)
  else
    let visiting := {[ entry_pc ]} ∪ visiting in
    match get_subprog subprogs entry_pc, fuel with
    | None, _ => Done (visiting ∖ {[ entry_pc ]})
    | Some _, O => Panicked
    | Some info, S fuel =>
        let+ new_depth :=
          if private_stack then
            if MAX_BPF_STACK <? max_stack_depth info
            then Failed (StackOverflow entry_pc (max_stack_depth info)) else Done depth_so_far
          else
            let nd := u16 (depth_so_far + max_stack_depth info) in
            if MAX_BPF_STACK <? nd then Failed (StackOverflow entry_pc nd) else Done nd in
        let+ visiting :=
          (fix calls (pcs : list nat) (visiting : gset nat) : outcome (gset nat) :=
             match pcs with
             | [] => Done visiting
             | pc :: rest =>
                 match instrs prog !! pc with
                 | None => Panicked
                 | Some (CallRel target) =>
                     let+ visiting :=
                       check_call_chain fuel target new_depth (S call_depth) (Some pc) visiting in
                     calls rest visiting
                 | Some _ => calls rest visiting
                 end
             end) (seq (start_pc info) (end_pc info - start_pc info)) visiting in
        Done (visiting ∖ {[ entry_pc ]})
    end.
End Chain.

(** ** Roots *)

Definition Funcs : Type := gmap Reg nat.

Definition root_instr (acc : gset nat * Funcs) (i : Instr) : gset nat * Funcs :=
  let '(roots, alias) := acc in
  let clear := fun f : Funcs =>
    delete R0 (delete R1 (delete R2 (delete R3 (delete R4 (delete R5 f))))) in
  match i with
  | LoadMap dst (PseudoFunc pc) _ _ => (roots, <[dst := Z.to_nat pc]> alias)
  | LoadMap dst _ _ _ => (roots, delete dst alias)
  | Alu W64 Mov dst (OReg s) =>
      (roots, match alias !! s with Some t => <[dst := t]> alias | None => delete dst alias end)
  | Alu _ _ dst _ | MovSx _ _ dst _ | Endian dst _ _ _ | Load _ dst _ _ | LoadSx _ dst _ _
  | LoadAcq _ dst _ _ => (roots, delete dst alias)
  | Call (Helper id) =>
      (match alias !! R2 with
       | Some t => if id =? BPF_TIMER_SET_CALLBACK then {[ t ]} ∪ roots else roots
       | None => roots
       end, clear alias)
  | Call _ | CallRel _ | LoadPacket _ _ _ _ => (roots, clear alias)
  | _ => (roots, alias)
  end.

Definition collect_async_cb_roots (instrs : list Instr) : list nat :=
  merge_sort le (elements (foldl root_instr (∅, ∅) instrs).1).

(** The recursion goes at most one frame beyond the limit, so this fuel suffices. *)
Definition chain_fuel : nat := S BPF_MAX_CALL_FRAMES.

Definition check_stack_overflow (prog : Program) (kind : ProgramKind) (private_stack_enabled : bool)
  : outcome unit :=
  match analyze_subprograms (instrs prog) with
  | None => Panicked
  | Some subprogs =>
      let private_stack := private_stack_enabled && private_stack_eligible kind (instrs prog) in
      for_each (fun root =>
          let+ _ := check_call_chain prog subprogs private_stack chain_fuel root 0 1 None ∅ in Done tt)
        (0%nat :: collect_async_cb_roots (instrs prog))
  end.

End Subprog.
