(* ===== verification/SubprogProps.v ===== *)
(** What the checks of [Subprog] guarantee: functions are closed under jumps, call chains are bounded
    in frames and in stack. *)

From S2P Require Import Prelude Zone Ast IntervalPacket Subprog.
From Stdlib Require Import ZArith Lia.
From stdpp Require Import base numbers list sorting gmap sets.
Open Scope Z_scope.

Module SubprogProps.
Import Zone(Reg(..)).
#[local] Existing Instance Zone.Reg_eq_dec.
Import Ast Subprog.

Lemma for_each_Done {A} (f : A -> outcome unit) l :
  for_each f l = Done tt <-> Forall (fun x => f x = Done tt) l.
Proof.
  induction l as [|x l IH]; cbn; [split; [constructor|done]|].
  rewrite Forall_cons, <- IH. destruct (f x) as [[]| |]; cbn; naive_solver.
Qed.

(** * Call chains *)

Section Chains.
Context (prog : Program) (subs : list SubprogInfo) (private : bool).

Definition depth_of (e : nat) : Z := from_option max_stack_depth 0 (get_subprog subs e).

(** The function at [e] has a call of [t]. *)
Definition calls (e t : nat) : Prop := exists info pc,
  get_subprog subs e = Some info /\ (start_pc info <= pc < end_pc info)%nat /\
  instrs prog !! pc = Some (CallRel t).

(** The frames of a chain of calls, the outermost first. *)
Inductive chain : nat -> list nat -> Prop :=
| chain_one e : chain e [e]
| chain_call e t l : calls e t -> chain t l -> chain e (e :: l).

Definition total (l : list nat) : Z := foldr (fun e n => depth_of e + n) 0 l.

Definition stack_ok (depth : Z) (l : list nat) : Prop :=
  if private then Forall (fun e => depth_of e <= MAX_BPF_STACK) l
  else depth + total l <= MAX_BPF_STACK.

Definition chain_ok (depth : Z) (frames : nat) (seen : gset nat) (l : list nat) : Prop :=
  (frames + length l <= S BPF_MAX_CALL_FRAMES)%nat /\ NoDup l /\ Forall (fun e => e ∉ seen) l /\
  stack_ok depth l.

(** The functions lie in the program and their depths do not wrap a sum. *)
Definition subs_ok : Prop := forall e info, get_subprog subs e = Some info ->
  (end_pc info <= length (instrs prog))%nat /\ 0 <= max_stack_depth info <= 65535 - MAX_BPF_STACK.

Lemma depth_of_range e : subs_ok -> 0 <= depth_of e <= 65535 - MAX_BPF_STACK.
Proof.
  intros Hs. unfold depth_of. destruct (get_subprog subs e) eqn:E; cbn; [|done].
  by destruct (Hs _ _ E).
Qed.

Lemma total_nonneg l : subs_ok -> 0 <= total l.
Proof.
  intros Hs. unfold total in *. induction l as [|e l IH]; cbn; [done|]. pose proof (depth_of_range e Hs). lia.
Qed.

Definition next_depth (depth : Z) (e : nat) : Z := if private then depth else depth + depth_of e.

Lemma chain_ok_cons depth frames seen e l : subs_ok ->
  chain_ok depth frames seen (e :: l) <->
  (frames <= BPF_MAX_CALL_FRAMES)%nat /\ (e ∉ seen) /\ stack_ok depth [e] /\
  chain_ok (next_depth depth e) (S frames) ({[e]} ∪ seen) l.
Proof.
  intros Hs. unfold chain_ok, stack_ok, next_depth. rewrite NoDup_cons, Forall_cons.
  assert (Forall (fun x => x ∉ {[e]} ∪ seen) l <-> (e ∉ l) /\ Forall (fun x => x ∉ seen) l) as ->.
  { rewrite !Forall_forall. set_solver. }
  pose proof (total_nonneg l Hs). pose proof (depth_of_range e Hs).
  cbn [length]. change (total (e :: l)) with (depth_of e + total l).
  change (total [e]) with (depth_of e + 0). destruct private.
  - rewrite !Forall_cons, Forall_nil. intuition lia.
  - intuition lia.
Qed.

Lemma chain_ok_one depth frames seen e : subs_ok ->
  chain_ok depth frames seen [e] <->
  (frames <= BPF_MAX_CALL_FRAMES)%nat /\ (e ∉ seen) /\ stack_ok depth [e].
Proof.
  intros Hs. unfold chain_ok. rewrite Forall_cons, Forall_nil. cbn [length].
  pose proof (NoDup_singleton e). naive_solver lia.
Qed.

(** Every chain from [e] is acceptable. *)
Definition all_ok (depth : Z) (frames : nat) (seen : gset nat) (e : nat) : Prop :=
  forall l, chain e l -> chain_ok depth frames seen l.

Lemma all_ok_step depth frames seen e : subs_ok ->
  all_ok depth frames seen e <->
  (frames <= BPF_MAX_CALL_FRAMES)%nat /\ (e ∉ seen) /\ stack_ok depth [e] /\
  forall t, calls e t -> all_ok (next_depth depth e) (S frames) ({[e]} ∪ seen) t.
Proof.
  intros Hs. unfold all_ok. split.
  - intros H. pose proof (H [e] (chain_one e)) as H1. apply chain_ok_one in H1 as (?&?&?); [|done].
    split_and!; auto. intros t Ht l Hl. pose proof (H (e :: l) (chain_call _ _ _ Ht Hl)) as Hc.
    by apply chain_ok_cons in Hc as (_&_&_&?).
  - intros (?&?&?&H) l Hl. inversion Hl; subst; [by apply chain_ok_one|].
    apply chain_ok_cons; eauto.
Qed.

(** Success exactly under [P], with the set as it was. *)
Definition decides (o : outcome (gset nat)) (seen : gset nat) (P : Prop) : Prop :=
  o <> Panicked /\ forall s, o = Done s <-> s = seen /\ P.

Lemma decides_Failed e seen (P : Prop) : ~ P -> decides (Failed e) seen P.
Proof. split; [done|]. naive_solver. Qed.

Lemma decides_Done seen (P : Prop) : P -> decides (Done seen) seen P.
Proof. split; [done|]. naive_solver. Qed.

Lemma decides_bind o seen P f seen' Q :
  decides o seen P -> (P -> decides (f seen) seen' Q) -> decides (bind o f) seen' (P /\ Q).
Proof.
  intros [H1 H2] H. destruct o as [s|e|]; cbn; [|apply decides_Failed; naive_solver|done].
  destruct (proj1 (H2 s) eq_refl) as [-> HP]. destruct (H HP) as [? Hd]. split; [done|].
  intros s. rewrite Hd. naive_solver.
Qed.

Lemma decides_iff o seen P Q : (P <-> Q) -> decides o seen P -> decides o seen Q.
Proof. intros HPQ [? H]. split; [done|]. intros s. by rewrite H, HPQ. Qed.

Lemma stack_step depth e info f seen (Q : Prop) : subs_ok -> 0 <= depth <= MAX_BPF_STACK ->
  get_subprog subs e = Some info ->
  (stack_ok depth [e] -> decides (f (next_depth depth e)) seen Q) ->
  decides (bind (if private then
                   if MAX_BPF_STACK <? max_stack_depth info
                   then Failed (StackOverflow e (max_stack_depth info)) else Done depth
                 else
                   let nd := u16 (depth + max_stack_depth info) in
                   if MAX_BPF_STACK <? nd then Failed (StackOverflow e nd) else Done nd) f)
    seen (stack_ok depth [e] /\ Q).
Proof.
  intros Hs Hd Hg H. unfold stack_ok, next_depth in *. pose proof (depth_of_range e Hs) as Hr.
  unfold MAX_BPF_STACK in *.
  assert (depth_of e = max_stack_depth info) as He by (unfold depth_of; by rewrite Hg).
  cbn [total foldr] in *.
  destruct private; cbn zeta.
  - destruct (Z.ltb_spec 512 (max_stack_depth info)); cbn.
    + apply decides_Failed. intros [[? _]%Forall_cons _]. lia.
    + eapply decides_iff; [|apply H; constructor; [lia|done]].
      rewrite Forall_cons, Forall_nil. intuition lia.
  - rewrite uwrap_small by (unfold in_u; lia).
    destruct (Z.ltb_spec 512 (depth + max_stack_depth info)); cbn.
    + apply decides_Failed. lia.
    + rewrite <- He. eapply decides_iff; [|apply H; lia]. naive_solver lia.
Qed.

(** The loop over the instructions of a function. *)
Lemma calls_loop check depth frames seen pcs :
  Forall (fun pc => (pc < length (instrs prog))%nat) pcs ->
  (forall pc t, decides (check t pc seen) seen (all_ok depth frames seen t)) ->
  decides
    ((fix calls (pcs : list nat) (visiting : gset nat) : outcome (gset nat) :=
        match pcs with
        | [] => Done visiting
        | pc :: rest =>
            match instrs prog !! pc with
            | None => Panicked
            | Some (CallRel target) =>
                let+ visiting := check target pc visiting in calls rest visiting
            | Some _ => calls rest visiting
            end
        end) pcs seen) seen
    (forall pc t, pc ∈ pcs -> instrs prog !! pc = Some (CallRel t) -> all_ok depth frames seen t).
Proof.
  intros Hl Hc. induction Hl as [|pc pcs Hpc Hl IH].
  - apply decides_Done. intros pc t ?%elem_of_nil. done.
  - destruct (lookup_lt_is_Some_2 _ _ Hpc) as [i Hi]. rewrite Hi.
    destruct (call_target i) as [t|] eqn:Et.
    + destruct i; try done. injection Et as ->.
      eapply decides_iff; [|eapply decides_bind; [apply (Hc pc t)|intros _; exact IH]].
      setoid_rewrite elem_of_cons. naive_solver.
    + assert (forall t, Some i <> Some (CallRel t)) as Hn by (intros t [= ->]; done).
      eapply decides_iff; [|by destruct i; try done; exact IH].
      setoid_rewrite elem_of_cons. naive_solver.
Qed.

Lemma check_call_chain_decides fuel e depth frames caller seen : subs_ok ->
  0 <= depth <= MAX_BPF_STACK -> (chain_fuel <= fuel + frames)%nat ->
  decides (check_call_chain prog subs private fuel e depth frames caller seen) seen
    (all_ok depth frames seen e).
Proof.
  intros Hs. revert e depth frames caller seen.
  induction fuel as [|fuel IH]; intros e depth frames caller seen Hd Hf; cbn [check_call_chain].
  - destruct (Nat.ltb_spec BPF_MAX_CALL_FRAMES frames); [|unfold chain_fuel in *; lia].
    apply decides_Failed. rewrite all_ok_step by done. lia.
  - destruct (Nat.ltb_spec BPF_MAX_CALL_FRAMES frames) as [Hc|Hc].
    { apply decides_Failed. rewrite all_ok_step by done. lia. }
    destruct (decide (e ∈ seen)) as [He|He].
    { apply decides_Failed. rewrite all_ok_step by done. naive_solver. }
    assert (({[e]} ∪ seen) ∖ {[e]} = seen) as Hdiff by set_solver.
    destruct (get_subprog subs e) as [info|] eqn:Eg.
    + eapply decides_iff;
        [|eapply stack_step; [done|done|exact Eg|intros Hst; eapply decides_bind;
           [apply (calls_loop (fun t pc => check_call_chain prog subs private fuel t
                     (next_depth depth e) (S frames) (Some pc)))|intros _; rewrite Hdiff;
                     by apply decides_Done with (P := True)]]].
      * rewrite all_ok_step by done. unfold calls. setoid_rewrite elem_of_seq. rewrite Eg.
        destruct (Hs _ _ Eg). split; [|].
        -- intros (Hst & Hall & _). split_and!; auto.
           intros t (i & pc & [= <-] & ? & ?). eapply Hall; [|done]. lia.
        -- intros (_ & _ & Hst & Hall). split_and!; auto.
           intros pc t ? ?. apply Hall. eexists _, pc. split_and!; [done|lia|lia|done].
      * destruct (Hs _ _ Eg). apply Forall_forall. intros pc [??]%elem_of_seq. lia.
      * intros pc t. apply IH; [|lia]. unfold next_depth, stack_ok in *.
        pose proof (depth_of_range e Hs). destruct private; [done|]. cbn in Hst. lia.
    + rewrite Hdiff. apply decides_Done. rewrite all_ok_step by done. split_and!; auto.
      * unfold stack_ok, depth_of. destruct private; [apply Forall_singleton; unfold depth_of; by rewrite Eg|].
        cbn. unfold depth_of. rewrite Eg. cbn. lia.
      * intros t (i & pc & Hi & _). congruence.
Qed.
End Chains.

(** * Boundaries and depths *)

Lemma get_subprog_Some l e info : get_subprog l e = Some info -> info ∈ l /\ start_pc info = e.
Proof.
  unfold get_subprog. intros [Hi He]%List.find_some. apply Nat.eqb_eq in He. by rewrite list_elem_of_In.
Qed.

Lemma build_spec ins entries subs info : build ins entries = Some subs -> info ∈ subs ->
  exists body, slice ins (start_pc info) (end_pc info) = Some body /\
    max_stack_depth info = compute_max_stack_depth body.
Proof.
  revert subs. induction entries as [|a rest IH]; cbn; intros subs; [by intros [= <-] ?%elem_of_nil|].
  destruct (slice ins a _) eqn:Es; [|done]. destruct (build ins rest) as [l'|]; [|done].
  intros [= <-] [->|?]%elem_of_cons; eauto.
Qed.

Lemma slice_Some ins a b body : slice ins a b = Some body ->
  (a <= b <= length ins)%nat /\ body = take (b - a) (drop a ins).
Proof.
  unfold slice. destruct (Nat.leb_spec a b), (Nat.leb_spec b (length ins)); cbn; intros [= <-]; auto with lia.
Qed.

Lemma slice_lookup ins a b body k i : slice ins a b = Some body -> ins !! k = Some i ->
  (a <= k < b)%nat -> i ∈ body.
Proof.
  intros [? ->]%slice_Some Hk ?. apply list_elem_of_lookup. exists (k - a)%nat.
  rewrite lookup_take_lt, lookup_drop by lia. by replace (a + (k - a))%nat with k by lia.
Qed.

Definition acc_depth (acc : Z * bool * Alias) : Z := acc.1.1.

Lemma depth_instr_grows acc i : 0 <= acc_depth acc <= 65535 ->
  acc_depth acc <= acc_depth (depth_instr acc i) <= 65535.
Proof.
  destruct acc as [[d g] al]. unfold acc_depth. intros H.
  destruct i; cbn in *; try lia; unfold track_access;
    destruct (al !! base); try (cbn; lia);
    destruct (Z.ltb_spec (s64 (z + off)) 0); try (cbn; lia);
    destruct (Z.leb_spec (- s64 (z + off)) 65535); cbn; lia.
Qed.

Lemma fold_depth_grows l acc : 0 <= acc_depth acc <= 65535 ->
  acc_depth acc <= acc_depth (foldl depth_instr acc l) <= 65535.
Proof.
  revert acc. induction l as [|i l IH]; intros acc H; cbn; [lia|].
  pose proof (depth_instr_grows acc i H). specialize (IH (depth_instr acc i)). lia.
Qed.

Lemma max_stack_depth_range l : 0 <= compute_max_stack_depth l <= 65535.
Proof.
  unfold compute_max_stack_depth. pose proof (fold_depth_grows l (0, false, {[R10 := 0]})) as H.
  destruct (foldl _ _ _) as [[d []] al]; unfold acc_depth, MAY_GOTO_STACK_EXTRA in *; cbn in *; lia.
Qed.

(** The memory access of an instruction. *)
Definition access (i : Instr) : option (Reg * Z) :=
  match i with
  | Load _ _ b o | LoadSx _ _ b o | LoadAcq _ _ b o | Store _ b o _ | StoreRel _ b o _
  | Atomic _ _ _ b o _ => Some (b, o)
  | _ => None
  end.

Lemma frame_alias l : Forall (fun i => R10 ∉ writes i) l ->
  (foldl depth_instr (0, false, {[R10 := 0]}) l).2 !! R10 = Some 0.
Proof.
  intros Hl. cut (forall acc : Z * bool * Alias, acc.2 !! R10 = Some 0 ->
    (foldl depth_instr acc l).2 !! R10 = Some 0); [intros H; apply H, lookup_singleton_eq|].
  induction Hl as [|i l Hi Hl IH]; intros acc Ha; cbn; [done|].
  apply IH. destruct acc as [[d g] al]. cbn in Ha.
  assert (forall x, R10 ∉ [x] -> x <> R10) as Hx by set_solver.
  destruct i; cbn in Hi |- *; unfold clobber; unfold Alias in *;
    rewrite ?lookup_delete_ne by (done || by apply Hx); try done.
  unfold depth_alu, alias_set. unfold Alias in *. apply Hx in Hi. rewrite decide_False by done.
  destruct width; [by rewrite lookup_delete_ne|].
  destruct op, src; cbn; rewrite ?lookup_delete_ne by done; try done;
    destruct (al !! _) in |- *; cbn; rewrite ?lookup_insert_ne, ?lookup_delete_ne by done; done.
Qed.

(** What the function reaches through its frame pointer is part of its depth. *)
Lemma depth_covers l i o : Forall (fun i => R10 ∉ writes i) l -> i ∈ l -> access i = Some (R10, o) ->
  - 65535 <= o -> - o <= compute_max_stack_depth l.
Proof.
  intros Hl (pre & post & ->)%list_elem_of_split Ha Ho. unfold compute_max_stack_depth.
  rewrite foldl_app. cbn [foldl].
  apply Forall_app in Hl as [Hpre _]. pose proof (frame_alias pre Hpre) as Hr.
  pose proof (fold_depth_grows pre (0, false, {[R10 := 0]}) ltac:(unfold acc_depth; cbn; lia)) as Hp.
  destruct (foldl depth_instr (0, false, _) pre) as [[d g] al]. unfold acc_depth in Hp. cbn in Hp, Hr.
  pose proof (depth_instr_grows (d, g, al) i ltac:(unfold acc_depth; cbn; lia)) as Hg.
  assert (- o <= acc_depth (depth_instr (d, g, al) i)) as Hi.
  { destruct (Z.le_gt_cases 0 o); [unfold acc_depth in *; cbn in *; lia|].
    unfold acc_depth. destruct i; cbn in Ha |- *; try done; injection Ha as -> ->; unfold track_access;
      rewrite Hr; cbn [fst]; rewrite Z.add_0_l, swrap_small by (lia || unfold in_s; lia);
      rewrite (proj2 (Z.ltb_lt o 0)), (proj2 (Z.leb_le (- o) 65535)) by lia; lia. }
  pose proof (fold_depth_grows post (depth_instr (d, g, al) i) ltac:(unfold acc_depth in *; cbn in *; lia)) as Hpost.
  destruct (foldl _ _ post) as [[d' []] al']; unfold acc_depth, MAY_GOTO_STACK_EXTRA in *; cbn in *; lia.
Qed.

(** * Call chains of a program *)

Lemma analyzed_ok prog subs : analyze_subprograms (instrs prog) = Some subs ->
  (forall i, i ∈ subs -> max_stack_depth i <= 65535 - MAX_BPF_STACK) -> subs_ok prog subs.
Proof.
  intros Ha Hm e info [Hi _]%get_subprog_Some. destruct (build_spec _ _ _ _ Ha Hi) as (b & Hb & Hd).
  apply slice_Some in Hb as [? _]. pose proof (max_stack_depth_range b). specialize (Hm _ Hi). lia.
Qed.

Lemma root_decides prog subs private root : subs_ok prog subs ->
  decides (check_call_chain prog subs private chain_fuel root 0 1 None ∅) ∅
    (all_ok prog subs private 0 1 ∅ root).
Proof. intros. apply check_call_chain_decides; [done|unfold MAX_BPF_STACK; lia|lia]. Qed.

(** C27. On a program whose functions the analysis finds ([analyze_subprograms] succeeds) and whose
    functions use at most 65023 bytes each, so that no 16-bit sum wraps, the check of the call chains
    does not panic and accepts exactly when every chain of calls from the entry or from a timer
    callback has at most 8 frames, calls no function twice, and uses at most 512 bytes of stack in
    total, or, where stacks are private, in each function.  [subprog_gaps] has a chain of 65538 bytes
    that passes because the sum wraps. *)
Theorem stack_overflow_exact prog kind enabled subs :
  analyze_subprograms (instrs prog) = Some subs ->
  (forall i, i ∈ subs -> max_stack_depth i <= 65535 - MAX_BPF_STACK) ->
  let private := enabled && private_stack_eligible kind (instrs prog) in
  check_stack_overflow prog kind enabled <> Panicked /\
  (check_stack_overflow prog kind enabled = Done tt <->
   forall root l, root ∈ 0%nat :: collect_async_cb_roots (instrs prog) -> chain prog subs root l ->
     (length l <= BPF_MAX_CALL_FRAMES)%nat /\ NoDup l /\ stack_ok subs private 0 l).
Proof.
  intros Ha Hm private. unfold check_stack_overflow. rewrite Ha. fold private.
  pose proof (analyzed_ok _ _ Ha Hm) as Hs.
  pose proof (fun root => root_decides prog subs private root Hs) as Hd.
  generalize (0%nat :: collect_async_cb_roots (instrs prog)) as roots. intros roots. split.
  - induction roots as [|r roots IH]; [done|]. cbn [for_each]. destruct (Hd r) as [Hp _].
    by destruct (check_call_chain _ _ _ _ r _ _ _ _).
  - rewrite for_each_Done, Forall_forall. split.
    + intros H root l Hr Hl. destruct (Hd root) as [_ Hx]. specialize (H root Hr).
      destruct (check_call_chain _ _ _ _ root _ _ _ _) as [s| |]; [|done|done].
      destruct (proj1 (Hx s) eq_refl) as [_ Hok].
      destruct (Hok l Hl) as (? & ? & _ & ?). unfold BPF_MAX_CALL_FRAMES in *. auto with lia.
    + intros H root Hr. destruct (Hd root) as [_ Hx].
      rewrite (proj2 (Hx ∅)); [done|]. split; [done|]. intros l Hl.
      destruct (H root l Hr Hl) as (? & ? & ?). unfold chain_ok, BPF_MAX_CALL_FRAMES in *.
      split_and!; auto with lia. apply Forall_forall. set_solver.
Qed.

(** Main stores 16 bytes below its frame pointer and calls a function that stores 64 bytes below. *)
Definition two_frames : Program := MkProgram
  [Store U64 R10 (-16) (OImm 0); CallRel 3; Exit; Store U64 R10 (-64) (OImm 0); Exit].
Definition two_frames_subs : list SubprogInfo := [MkSub 0 3 16; MkSub 3 5 64].

Lemma stack_overflow_exact_witness :
  check_stack_overflow two_frames IntervalPacket.SchedCls false = Done tt /\
  forall l, chain two_frames two_frames_subs 0 l -> total two_frames_subs l <= 512.
Proof.
  assert (check_stack_overflow two_frames IntervalPacket.SchedCls false = Done tt) as Hc
    by (vm_compute; reflexivity).
  split; [exact Hc|]. intros l Hl.
  assert (analyze_subprograms (instrs two_frames) = Some two_frames_subs) as Ha
    by (vm_compute; reflexivity).
  destruct (stack_overflow_exact two_frames IntervalPacket.SchedCls false two_frames_subs Ha) as [_ H].
  - intros i Hi. repeat (apply elem_of_cons in Hi as [->|Hi]; [vm_compute; discriminate|]).
    by apply elem_of_nil in Hi.
  - destruct (proj1 H Hc 0%nat l) as (_ & _ & Hs); [left|exact Hl|]. exact Hs.
Defined.

(** Accesses through the frame pointer in the frames of a chain: [off] gives one of each. *)
Definition accesses (prog : Program) (subs : list SubprogInfo) (e : nat) (o : Z) : Prop :=
  exists info pc i, get_subprog subs e = Some info /\ (start_pc info <= pc < end_pc info)%nat /\
    instrs prog !! pc = Some i /\ access i = Some (R10, o) /\ - 65535 <= o.

Lemma accesses_depth prog subs e o : analyze_subprograms (instrs prog) = Some subs ->
  Forall (fun i => R10 ∉ writes i) (instrs prog) -> accesses prog subs e o -> - o <= depth_of subs e.
Proof.
  intros Ha Hw (info & pc & i & Hg & Hpc & Hi & Hacc & Ho). unfold depth_of. rewrite Hg. cbn.
  apply get_subprog_Some in Hg as [Hin _]. destruct (build_spec _ _ _ _ Ha Hin) as (b & Hb & ->).
  eapply depth_covers; [|by eapply slice_lookup|done|done].
  apply slice_Some in Hb as [_ ->]. by apply Forall_take, Forall_drop.
Qed.



(** * Functions *)

Fixpoint ranges (n : nat) (starts : list nat) : list (nat * nat) :=
  match starts with
  | [] => []
  | a :: rest => (a, match rest with b :: _ => b | [] => n end) :: ranges n rest
  end.

Lemma check_functions_Done ins starts :
  check_functions ins starts = Done tt <->
  Forall (fun r => Forall (fun pc => check_insn ins r.1 r.2 pc = Done tt) (seq r.1 (r.2 - r.1)) /\
                   check_terminator ins r.2 = Done tt) (ranges (length ins) starts).
Proof.
  induction starts as [|a rest IH]; cbn [check_functions ranges]; [split; [constructor|done]|].
  rewrite Forall_cons, <- IH, <- for_each_Done. cbn [fst snd].
  destruct (for_each _ _) as [[]| |]; cbn [bind]; [|naive_solver..].
  destruct (check_terminator _ _) as [[]| |]; cbn [bind]; naive_solver.
Qed.

Lemma check_insn_no_panic ins a b pc : (pc < length ins)%nat -> check_insn ins a b pc <> Panicked.
Proof.
  intros [i Hi]%lookup_lt_is_Some_2. unfold check_insn. rewrite Hi.
  destruct i; try done; by destruct (is_local _ _ _) || destruct (_ <? _)%nat.
Qed.

Lemma scan_no_panic ins a b pcs : Forall (fun pc => (pc < length ins)%nat) pcs ->
  for_each (check_insn ins a b) pcs <> Panicked.
Proof.
  induction 1 as [|pc pcs Hpc _ IH]; cbn; [done|].
  pose proof (check_insn_no_panic ins a b pc Hpc).
  by destruct (check_insn ins a b pc).
Qed.

Lemma for_each_app {A} (f : A -> outcome unit) l1 l2 :
  for_each f (l1 ++ l2) = bind (for_each f l1) (fun _ => for_each f l2).
Proof. induction l1 as [|x l1 IH]; cbn; [done|]. destruct (f x) as [[]| |]; cbn; auto. Qed.

(** A call out of the program stops the loop before it leaves the program. *)
Lemma scan_fails ins a b c t : (a <= c < b)%nat -> ins !! c = Some (CallRel t) ->
  (length ins <= t)%nat -> exists e, for_each (check_insn ins a b) (seq a (b - a)) = Failed e.
Proof.
  intros Hc Hi Ht. pose proof (lookup_lt_Some _ _ _ Hi).
  replace (b - a)%nat with ((c - a) + S (b - c - 1))%nat by lia.
  rewrite seq_app, for_each_app. replace (a + (c - a))%nat with c by lia.
  pose proof (scan_no_panic ins a b (seq a (c - a))) as Hp.
  destruct (for_each _ (seq a (c - a))) as [[]| |]; cbn [bind]; [|eauto|].
  - cbn [seq for_each]. unfold check_insn at 1. rewrite Hi.
    destruct (Nat.ltb_spec t (length ins)); [lia|]. cbn. eauto.
  - destruct Hp; [|done]. apply Forall_forall. intros pc [??]%elem_of_seq. lia.
Qed.

Lemma check_terminator_no_panic ins b : (b <= length ins)%nat -> check_terminator ins b <> Panicked.
Proof.
  intros Hb. destruct b as [|b]; cbn; [done|].
  destruct (lookup_lt_is_Some_2 ins b) as [i ->]; [lia|]. by destruct i.
Qed.

Lemma check_functions_no_panic ins a rest : StronglySorted le (a :: rest) -> (a <= length ins)%nat ->
  (forall c t, ins !! c = Some (CallRel t) -> (c < a)%nat -> (t < length ins)%nat) ->
  (forall s, s ∈ rest -> exists c, ins !! c = Some (CallRel s)) ->
  check_functions ins (a :: rest) <> Panicked.
Proof.
  revert a. induction rest as [|b rest IH]; intros a Hsort Ha Hprev Hcalls; cbn [check_functions].
  - pose proof (scan_no_panic ins a (length ins) (seq a (length ins - a))) as Hp.
    destruct (for_each _ _) as [[]| |]; cbn [bind]; [|done|].
    + pose proof (check_terminator_no_panic ins (length ins)) as Ht.
      destruct (check_terminator _ _); cbn; try done. by destruct Ht.
    + destruct Hp; [|done]. apply Forall_forall. intros pc [??]%elem_of_seq. lia.
  - apply StronglySorted_inv in Hsort as [Hsort Hall]. apply Forall_cons in Hall as [Hab _].
    destruct (decide (b <= length ins)%nat) as [Hb|Hb].
    + pose proof (scan_no_panic ins a b (seq a (b - a))) as Hp.
      destruct (for_each _ (seq a (b - a))) as [[]| |] eqn:Ef; cbn [bind]; [|done|].
      2:{ destruct Hp; [|done]. apply Forall_forall. intros pc [??]%elem_of_seq. lia. }
      pose proof (check_terminator_no_panic ins b Hb).
      destruct (check_terminator ins b); cbn [bind]; [|done|done].
      apply IH; [done|done| |intros; apply Hcalls; by right].
      intros c t Hc Hcb. destruct (decide (c < a)%nat); [by eapply Hprev|].
      apply for_each_Done in Ef. rewrite Forall_forall in Ef.
      specialize (Ef c ltac:(apply elem_of_seq; lia)). unfold check_insn in Ef. rewrite Hc in Ef.
      by destruct (Nat.ltb_spec t (length ins)).
    + destruct (Hcalls b) as [c Hc]; [left|]. pose proof (lookup_lt_Some _ _ _ Hc).
      destruct (decide (c < a)%nat); [specialize (Hprev _ _ Hc); lia|].
      destruct (scan_fails ins a b c b) as [e He]; [lia|done|lia|]. by rewrite He.
Qed.

Lemma func_starts_spec ins : exists rest,
  func_starts ins = 0%nat :: rest /\ StronglySorted le (0%nat :: rest) /\
  (forall s, s ∈ rest -> exists c, ins !! c = Some (CallRel s)) /\
  (forall c t, ins !! c = Some (CallRel t) -> t ∈ 0%nat :: rest).
Proof.
  unfold func_starts. set (l := remove_dups _).
  pose proof (StronglySorted_merge_sort le l) as Hsort. pose proof (merge_sort_Permutation le l) as Hp.
  assert (forall t, t ∈ l <-> t = 0%nat \/ exists c, ins !! c = Some (CallRel t)) as Hl.
  { intros t. unfold l. rewrite elem_of_remove_dups, elem_of_cons, list_elem_of_omap.
    split; (intros [?|H]; [by left|right]).
    - destruct H as (i & [c Hc]%list_elem_of_lookup & Hi). destruct i; simplify_eq/=. eauto.
    - destruct H as [c Hc]. exists (CallRel t). split; [by eapply list_elem_of_lookup_2|done]. }
  assert (NoDup (merge_sort le l)) as Hd by (rewrite Hp; apply NoDup_remove_dups).
  destruct (merge_sort le l) as [|a rest] eqn:E.
  { exfalso. apply Permutation_nil_l in Hp. assert (0%nat ∈ l) as H0 by (apply Hl; auto).
    rewrite <- Hp in H0. by apply elem_of_nil in H0. }
  assert (a = 0%nat) as ->.
  { assert (0%nat ∈ a :: rest) as H0 by (rewrite Hp; apply Hl; auto).
    apply elem_of_cons in H0 as [->|H0]; [done|].
    apply StronglySorted_inv in Hsort as [_ Hall]. rewrite Forall_forall in Hall.
    specialize (Hall _ H0). lia. }
  exists rest. split_and!; [done|done| |].
  - intros t Ht. apply NoDup_cons in Hd as [Hn _].
    assert (t ∈ l) as [->|?]%Hl by (rewrite <- Hp; by right); done.
  - intros c t Hc. rewrite Hp. apply Hl. eauto.
Qed.

Lemma ranges_start n starts t : t ∈ starts -> exists b, (t, b) ∈ ranges n starts.
Proof.
  induction starts as [|a rest IH]; cbn; [by intros ?%elem_of_nil|].
  intros [->|H]%elem_of_cons; [eexists; left|]. destruct (IH H) as [b Hb]. exists b. by right.
Qed.

(** C29. The check of the functions never indexes out of the program; and in a program that passes it,
    every instruction of a function other than [may_goto] has its successors in the same function, and
    every call goes to the first instruction of a function that lies in the program.  ([may_goto] is
    not checked: [subprog_gaps] has one that leaves its function.) *)
Theorem subprogs_closed prog : let ins := instrs prog in
  check_subprogs prog <> Panicked /\
  (check_subprogs prog = Done tt ->
   forall a b pc i, (a, b) ∈ ranges (length ins) (func_starts ins) -> (a <= pc < b)%nat ->
     ins !! pc = Some i ->
     (forall t, i = CallRel t -> (t < length ins)%nat /\
        exists b', (t, b') ∈ ranges (length ins) (func_starts ins)) /\
     (forall s pc', (forall t, i <> MayGoto t) -> next i pc s pc' -> (a <= pc' < b)%nat)).
Proof.
  intros ins. unfold check_subprogs. fold ins.
  destruct (func_starts_spec ins) as (rest & Hf & Hsort & Hcalls & Htargets). split.
  - rewrite Hf. apply check_functions_no_panic; [done|lia|lia|done].
  - rewrite check_functions_Done, Forall_forall. intros H a b pc i Hr Hpc Hi.
    destruct (H _ Hr) as [Hin Hterm]. cbn [fst snd] in *. rewrite Forall_forall in Hin.
    specialize (Hin pc ltac:(apply elem_of_seq; lia)). unfold check_insn in Hin. rewrite Hi in Hin.
    split.
    + intros t ->. split; [by destruct (Nat.ltb_spec t (length ins))|].
      apply ranges_start. rewrite Hf. by eapply Htargets.
    + intros s pc' Hm Hn.
      assert (pc' = S pc -> ~ (i = Exit \/ exists t, i = Jmp t) -> (a <= pc' < b)%nat) as Hnext.
      { intros -> Hx. destruct b as [|b]; [lia|]. destruct (decide (pc = b)) as [->|]; [|lia].
        cbn in Hterm. rewrite Hi in Hterm. destruct Hx. destruct i; try done; eauto. }
      assert (forall t, is_local a b t = true -> (a <= t < b)%nat) as Hloc.
      { unfold is_local. intros t [?%Nat.leb_le ?%Nat.ltb_lt]%andb_prop. lia. }
      destruct i; cbn in Hn; try (apply Hnext; [done|naive_solver]); try done.
      * destruct (is_local a b target) eqn:El; [|done].
        destruct (compare _ _ _ _); subst; [auto|]. apply Hnext; [done|naive_solver].
      * subst. destruct (is_local a b target) eqn:El; [auto|done].
      * by destruct (Hm target).
Qed.

(** Two programs that pass the checks although a frame is left or the stack overflows: a may_goto
    into another function, and a call of a function whose 65530 bytes of stack wrap the sum of 16
    bits. *)
Theorem subprog_gaps :
  (let p := MkProgram [CallRel 3; Exit; Exit; MayGoto 1; Exit] in
   check_subprogs p = Done tt /\ (3, 5)%nat ∈ ranges 5 (func_starts (instrs p)) /\
   next (MayGoto 1) 3 (fun _ => 0) 1) /\
  (let p := MkProgram [Store U64 R10 (-8) (OImm 0); CallRel 3; Exit;
      Alu W64 Mov R1 (OReg R10); Alu W64 Add R1 (OImm (-65530)); Store U64 R1 0 (OImm 0); Exit] in
   check_stack_overflow p IntervalPacket.SchedCls false = Done tt /\
   exists subs, analyze_subprograms (instrs p) = Some subs /\ chain p subs 0 [0; 3]%nat /\
     total subs [0; 3]%nat = 65538).
Proof.
  split; cbn zeta.
  - split_and!; [vm_compute; reflexivity| |by left].
    apply list_elem_of_lookup. exists 1%nat. vm_compute. reflexivity.
  - split; [vm_compute; reflexivity|]. eexists. split; [vm_compute; reflexivity|]. split.
    + eapply (chain_call _ _ 0 3); [|apply chain_one]. eexists (MkSub 0 3 8), 1%nat.
      split_and!; [reflexivity|cbn; lia|cbn; lia|reflexivity].
    + vm_compute. reflexivity.
Qed.

End SubprogProps.
