(* ===== verification/Dataflow.v ===== *)
(** The iteration both passes of [src/analysis/flow/liveness.rs] use: a vector of facts, one per
    instruction, is swept until a sweep changes nothing.  For monotone equations the sweeps only add
    facts, the iteration ends, and the result is the least solution. *)

From S2P Require Import Prelude.
From Stdlib Require Import Lia.
From stdpp Require Import base numbers list.

Module Dataflow.

Section Solver.
Context {A : Type} `{EqDecision A} (g : nat -> list A -> A).

(** One instruction: its fact is computed and stored if it is new. *)
Definition visit (acc : list A * bool) (i : nat) : list A * bool :=
  let '(x, changed) := acc in
  let v := g i x in
  if decide (x !! i = Some v) then (x, changed) else (<[i := v]> x, true).

Definition sweep (order : list nat) (x : list A) : list A * bool := foldl visit (x, false) order.

(** [while changed]. *)
Fixpoint solve (fuel : nat) (order : list nat) (x : list A) : option (list A) :=
  match fuel with
  | O => None
  | S fuel => let '(x', changed) := sweep order x in
              if changed : bool then solve fuel order x' else Some x'
  end.

(** * Least solutions *)

Context (le : A -> A -> Prop) `{!PreOrder le} `{!AntiSymm (=) le}.
Context (n : nat) (size : A -> nat) (bound : nat).

Definition vle (x y : list A) : Prop := forall i a b, x !! i = Some a -> y !! i = Some b -> le a b.

Context (g_mono : forall i x y, length x = n -> length y = n -> vle x y -> le (g i x) (g i y)).
Context (size_mono : forall a b, le a b -> a <> b -> size a < size b).

(** What every fact of an instruction satisfies. *)
Context (ok : nat -> A -> Prop).
Definition all_ok (x : list A) : Prop := forall i a, x !! i = Some a -> ok i a.
Context (g_ok : forall i x, i < n -> length x = n -> all_ok x -> ok i (g i x)).
Context (size_bound : forall i a, ok i a -> size a <= bound).

(** Facts that follow from the others, so that a visit only adds to them. *)
Definition pre (x : list A) : Prop :=
  length x = n /\ all_ok x /\ forall i a, x !! i = Some a -> le a (g i x).

Lemma vle_insert x i v : (forall a, x !! i = Some a -> le a v) -> vle x (<[i := v]> x).
Proof.
  intros H j a b Ha Hb. destruct (decide (i = j)) as [->|].
  - rewrite list_lookup_insert_eq in Hb by (by eapply lookup_lt_Some). simplify_eq. auto.
  - rewrite list_lookup_insert_ne in Hb by done. by simplify_eq.
Qed.

Lemma vle_trans x y z : length x = length y -> vle x y -> vle y z -> vle x z.
Proof.
  intros Hl H1 H2 i a c Ha Hc. assert (i < length y) as Hi by (rewrite <- Hl; by eapply lookup_lt_Some).
  destruct (lookup_lt_is_Some_2 _ _ Hi) as [b Hb]. transitivity b; eauto.
Qed.

Lemma pre_insert x i : i < n -> pre x -> pre (<[i := g i x]> x).
Proof.
  intros Hi (Hl & Ho & Hp). assert (vle x (<[i := g i x]> x)) as Hv by (apply vle_insert; auto).
  split_and!.
  - by rewrite length_insert.
  - intros j a Ha. destruct (decide (i = j)) as [->|].
    + rewrite list_lookup_insert_eq in Ha by lia. simplify_eq. auto.
    + rewrite list_lookup_insert_ne in Ha by done. auto.
  - intros j a Ha. assert (le (g j x) (g j (<[i := g i x]> x))) as Hg.
    { apply g_mono; [done|by rewrite length_insert|done]. }
    destruct (decide (i = j)) as [->|].
    + assert (j < length x) by (apply lookup_lt_Some in Ha; by rewrite length_insert in Ha).
      rewrite list_lookup_insert_eq in Ha by done. by simplify_eq.
    + rewrite list_lookup_insert_ne in Ha by done. transitivity (g j x); auto.
Qed.

Fixpoint total (x : list A) : nat := match x with [] => 0 | a :: x => size a + total x end.

Lemma total_insert x i a v : x !! i = Some a -> le a v -> a <> v -> total x < total (<[i := v]> x).
Proof.
  intros Hi Hle Hne. pose proof (size_mono _ _ Hle Hne) as Hs.
  revert i Hi. induction x as [|b x IH]; intros [|i] Hi; cbn in *; simplify_eq; [lia|].
  apply Nat.add_lt_mono_l, IH, Hi.
Qed.

Lemma total_le x : (forall i a, x !! i = Some a -> size a <= bound) -> total x <= length x * bound.
Proof.
  induction x as [|a x IH]; intros H; cbn; [done|].
  pose proof (H 0 a eq_refl). specialize (IH (fun i => H (S i))). lia.
Qed.

Lemma total_bound x : pre x -> total x <= n * bound.
Proof. intros (<- & Ho & _). apply total_le. intros i a Ha. eapply size_bound, Ho, Ha. Qed.

(** What a visit keeps and what it adds. *)
Lemma visit_spec order x c : pre x -> Forall (fun i => i < n) order ->
  let '(x', c') := foldl visit (x, c) order in
  pre x' /\ vle x x' /\ total x <= total x' /\
  (forall y, length y = n -> vle x y -> (forall i b, y !! i = Some b -> le (g i y) b) -> vle x' y) /\
  (c = true -> c' = true) /\ (c' = true -> c = true \/ total x < total x') /\
  (c' = false -> x' = x /\ Forall (fun i => x !! i = Some (g i x)) order).
Proof.
  revert x c. induction order as [|i order IH]; intros x c Hp Ho; cbn [foldl].
  - split_and!; auto; try done. intros i a b Ha Hb. by simplify_eq.
  - apply Forall_cons in Ho as [Hi Ho]. cbn [visit].
    destruct (decide (x !! i = Some (g i x))) as [Heq|Hne].
    + specialize (IH x c Hp Ho). destruct (foldl visit (x, c) order) as [x' c'].
      destruct IH as (?&?&?&?&?&?&H). split_and!; auto. intros Hc. destruct (H Hc) as [-> ?].
      split; [done|]. by constructor.
    + destruct Hp as (Hl & Hok & Hle). pose proof (pre_insert x i Hi (conj Hl (conj Hok Hle))) as Hp'.
      destruct (lookup_lt_is_Some_2 x i) as [a Ha]; [lia|].
      assert (total x < total (<[i := g i x]> x)) as Ht.
      { eapply total_insert; [done|auto|congruence]. }
      assert (vle x (<[i := g i x]> x)) as Hv by (apply vle_insert; intros; simplify_eq; auto).
      specialize (IH _ true Hp' Ho). destruct (foldl visit _ order) as [x' c'].
      destruct IH as (?&?&?&Hleast&Htrue&?&H). split_and!; auto.
      * eapply vle_trans; [by rewrite length_insert|done|done].
      * lia.
      * intros y Hy Hxy Hsol. apply Hleast; auto. intros j b d Hb Hd.
        destruct (decide (i = j)) as [->|].
        -- rewrite list_lookup_insert_eq in Hb by lia. simplify_eq. transitivity (g j y); auto.
        -- rewrite list_lookup_insert_ne in Hb by done. eauto.
      * intros _. right. lia.
      * intros Hc. by rewrite Htrue in Hc.
Qed.

(** The iteration ends with the least solution above its start. *)
Lemma solve_least fuel order x : pre x -> Forall (fun i => i < n) order ->
  n * bound < fuel + total x ->
  exists z, solve fuel order x = Some z /\ length z = n /\ all_ok z /\ vle x z /\
    Forall (fun i => z !! i = Some (g i z)) order /\
    (forall y, length y = n -> vle x y -> (forall i b, y !! i = Some b -> le (g i y) b) -> vle z y).
Proof.
  revert x. induction fuel as [|fuel IH]; intros x Hp Ho Hf.
  { pose proof (total_bound x Hp). lia. }
  cbn [solve]. unfold sweep. pose proof (visit_spec order x false Hp Ho) as H.
  destruct (foldl visit (x, false) order) as [x' c']. destruct H as (Hp'&Hv&?&Hl&_&Ht&Hf').
  destruct c'.
  - destruct (Ht eq_refl) as [|Hlt]; [done|]. destruct (IH x' Hp' Ho) as (z & Hz & Hn & Hok & Hvz & Hfix & Hleast).
    { lia. }
    exists z. split_and!; auto.
    eapply vle_trans; [|done|done]. destruct Hp as [-> _], Hp' as [-> _]. done.
  - destruct (Hf' eq_refl) as [-> Hfix]. exists x. destruct Hp as (? & ? & _). split_and!; auto.
Qed.
End Solver.

End Dataflow.
