(* ===== verification/Liveness.v ===== *)
(** Liveness of registers and stack slots ([src/analysis/flow/liveness.rs]): use and definition sets
    of the instructions, the aliases of the frame pointer, the fixed point per function and the
    propagation into called functions.  Hash sets are [gset], hash maps [gmap]; a slot offset is an
    [i16] whose sums wrap.  The loops are [Dataflow.solve] with fuel for every fact there can be. *)

From S2P Require Import Prelude Zone Ast HelperProtos Subprog Dataflow.
From Stdlib Require Import ZArith Lia.
From stdpp Require Import base numbers list gmap sets fin_maps.
Open Scope Z_scope.

Module Liveness.
Import Zone(Reg(..)).
#[local] Existing Instance Zone.Reg_eq_dec.
#[local] Existing Instance Subprog.Reg_countable.
Import Ast.

Record LiveSet : Type := MkLive { regs : gset Reg; slots : gset Z }.

#[export] Instance LiveSet_eq_dec : EqDecision LiveSet.
Proof. solve_decision. Defined.

Definition empty_live : LiveSet := MkLive ∅ ∅.
Definition union_from (a b : LiveSet) : LiveSet := MkLive (regs a ∪ regs b) (slots a ∪ slots b).

Definition is_callee_saved (r : Reg) : bool :=
  match r with R6 | R7 | R8 | R9 | R10 => true | _ => false end.

Definition instr_at (prog : Program) (pc : nat) : Instr := default Exit (instrs prog !! pc).

Definition is_local (start stop t : nat) : bool := (start <=? t)%nat && (t <? stop)%nat.

Definition get_local_successors (pc : nat) (i : Instr) (start stop : nat) : list nat :=
  let local t := if is_local start stop t then [t] else [] in
  match i with
  | Exit => []
  | Jmp target => local target
  | If _ _ _ _ target | MayGoto target => local (S pc) ++ local target
  | _ => local (S pc)
  end.

(** * Aliases of the frame pointer *)

Definition AliasMap : Type := gmap Reg Z.

Definition in_i16 (v : Z) : bool := (- 2 ^ 15 <=? v) && (v <? 2 ^ 15).

Definition alias_transfer (i : Instr) (m : AliasMap) : AliasMap :=
  match i with
  | Alu _ Mov dst (OReg R10) => <[dst := 0]> m
  | Alu _ Mov dst (OReg r) =>
      match m !! r with Some k => <[dst := k]> m | None => delete dst m end
  | Alu W64 ((Add | Sub) as op) dst (OImm imm) =>
      match m !! dst with
      | Some k =>
          let delta := match op with Sub => s64 (- imm) | _ => imm end in
          let nk := Zone.saturating_add k delta in
          if in_i16 nk then <[dst := nk]> m else delete dst m
      | None => delete dst m
      end
  | Alu _ _ dst _ | Endian dst _ _ _ | Load _ dst _ _ | LoadSx _ dst _ _ | LoadAcq _ dst _ _
  | MovSx _ _ dst _ | LoadMap dst _ _ _ => delete dst m
  | Atomic _ _ fetch _ _ src => if fetch : bool then delete src m else m
  | Call _ | CallRel _ => delete R0 (delete R1 (delete R2 (delete R3 (delete R4 (delete R5 m)))))
  | LoadPacket _ _ _ _ => delete R0 m
  | _ => m
  end.

(** Predecessors inside the function, in the order they are found. *)
Definition preds (prog : Program) (start stop idx : nat) : list nat :=
  flat_map (fun pc => map (fun _ => (pc - start)%nat)
      (filter (fun s => s = (start + idx)%nat)
        (get_local_successors pc (instr_at prog pc) start stop)))
    (seq start (stop - start)).

Definition retain (acc po : AliasMap) : AliasMap := filter (fun p => po !! p.1 = Some p.2) acc.

(** The facts of an instruction: the map at its entry and the one behind it. *)
Definition alias_facts : Type := AliasMap * AliasMap.
Definition alias_out (x : list alias_facts) (p : nat) : AliasMap := from_option snd ∅ (x !! p).

Definition alias_equation (prog : Program) (start stop : nat) (idx : nat) (x : list alias_facts)
  : alias_facts :=
  let new_in :=
    match preds prog start stop idx with
    | [] => ∅
    | p :: ps => foldl (fun acc q => retain acc (alias_out x q)) (alias_out x p) ps
    end in
  (new_in, alias_transfer (instr_at prog (start + idx)) new_in).

(** The number of registers, anchors included. *)
Definition REGS : nat := Zone.DBM_DIM.

Definition compute_fp_alias (prog : Program) (start stop : nat) : option (list AliasMap) :=
  let len := (stop - start)%nat in
  map fst <$> Dataflow.solve (alias_equation prog start stop) (S (len * (2 * REGS))) (seq 0 len)
    (replicate len (∅, ∅)).

Definition resolve_stack_off (base : Reg) (off : Z) (alias : AliasMap) : option Z :=
  if decide (base = R10) then Some off
  else match alias !! base with
       | Some k => if in_i16 (k + off) then Some (k + off) else None
       | None => None
       end.

(** * Uses and definitions *)

Record UseDef : Type := MkUD {
  use_regs : gset Reg; def_regs : gset Reg; use_slots : gset Z; def_slots : gset Z }.

Definition operand_reg (o : Operand) : gset Reg := match o with OReg r => {[ r ]} | OImm _ => ∅ end.

Definition slot_bytes (size : MemSize) (base : Reg) (off : Z) (alias : AliasMap) : gset Z :=
  match resolve_stack_off base off alias with
  | Some slot_off => list_to_set (map (fun i => s16 (slot_off + Z.of_nat i)) (seq 0 (Z.to_nat (bytes size))))
  | None => ∅
  end.

Definition call_args (kind : CallKind) : nat :=
  match kind with
  | Helper id =>
      match HelperProtos.get_helper_proto id with
      | Some p => HelperProtos.count_args (HelperProtos.args p)
      | None => 5
      end
  | Kfunc _ _ => 5
  end.

Definition scratch : gset Reg := {[ R0; R1; R2; R3; R4; R5 ]}.

Definition get_use_def (i : Instr) (alias : AliasMap) : UseDef :=
  match i with
  | Alu _ Mov dst src =>
      if decide (src = OReg dst) then MkUD ∅ ∅ ∅ ∅ else MkUD (operand_reg src) {[ dst ]} ∅ ∅
  | Alu _ _ dst src => MkUD ({[ dst ]} ∪ operand_reg src) {[ dst ]} ∅ ∅
  | Endian dst _ _ _ => MkUD {[ dst ]} {[ dst ]} ∅ ∅
  | If _ l _ r _ => MkUD ({[ l ]} ∪ operand_reg r) ∅ ∅ ∅
  | Jmp _ | MayGoto _ => MkUD ∅ ∅ ∅ ∅
  | Load size dst base off | LoadSx size dst base off | LoadAcq size dst base off =>
      MkUD {[ base ]} {[ dst ]} (slot_bytes size base off alias) ∅
  | Store size base off src =>
      MkUD ({[ base ]} ∪ operand_reg src) ∅ ∅ (slot_bytes size base off alias)
  | StoreRel size base off src => MkUD {[ base; src ]} ∅ ∅ (slot_bytes size base off alias)
  | Atomic _ size _ base off src =>
      MkUD {[ base; src ]} ∅ (slot_bytes size base off alias) (slot_bytes size base off alias)
  | Call kind => MkUD (list_to_set (take (call_args kind) [R1; R2; R3; R4; R5])) scratch ∅ ∅
  | CallRel _ => MkUD {[ R1; R2; R3; R4; R5 ]} scratch ∅ ∅
  | Exit => MkUD {[ R0 ]} ∅ ∅ ∅
  | LoadPacket _ _ _ src => MkUD (match src with Some r => {[ r ]} | None => ∅ end) ∅ ∅ ∅
  | LoadMap dst _ _ _ => MkUD ∅ {[ dst ]} ∅ ∅
  | MovSx _ _ dst src => MkUD (operand_reg src) {[ dst ]} ∅ ∅
  end.

(** * One function *)

Definition live_at (x : list LiveSet) (i : nat) : LiveSet := default empty_live (x !! i).

Definition live_equation (prog : Program) (start stop : nat) (ud : nat -> UseDef) (idx : nat)
  (x : list LiveSet) : LiveSet :=
  let pc := (start + idx)%nat in
  let live_out :=
    foldl (fun acc s => union_from acc (live_at x (s - start))) empty_live
      (get_local_successors pc (instr_at prog pc) start stop) in
  MkLive ((regs live_out ∖ def_regs (ud idx)) ∪ use_regs (ud idx))
         ((slots live_out ∖ def_slots (ud idx)) ∪ use_slots (ud idx)).

Definition use_def_at (prog : Program) (start : nat) (alias_in : list AliasMap) (idx : nat) : UseDef :=
  get_use_def (instr_at prog (start + idx)) (default ∅ (alias_in !! idx)).

(** The slots any instruction of the function reads. *)
Definition used_slots (ud : nat -> UseDef) (len : nat) : gset Z :=
  ⋃ map (fun idx => use_slots (ud idx)) (seq 0 len).

Definition compute_subprog_liveness (prog : Program) (start stop : nat) : option (list LiveSet) :=
  let len := (stop - start)%nat in
  match compute_fp_alias prog start stop with
  | Some alias_in =>
      let ud := use_def_at prog start alias_in in
      Dataflow.solve (live_equation prog start stop ud)
        (S (len * (REGS + size (used_slots ud len)))) (rev (seq 0 len)) (replicate len empty_live)
  | None => None
  end.

(** * The whole program *)

(** [live_regs] and [live_slots] of every instruction. *)
Abbreviation Aux := (list LiveSet).

(** The results of a function go into its range. *)
Definition write_results (aux : Aux) (start : nat) (res : list LiveSet) : Aux := list_inserts start res aux.

Fixpoint local_liveness (prog : Program) (subprogs : list Subprog.SubprogInfo) (aux : Aux) : option Aux :=
  match subprogs with
  | [] => Some aux
  | info :: rest =>
      match compute_subprog_liveness prog (Subprog.start_pc info) (Subprog.end_pc info) with
      | Some res => local_liveness prog rest (write_results aux (Subprog.start_pc info) res)
      | None => None
      end
  end.

Definition add_regs (add : gset Reg) (acc : Aux * bool) (pc : nat) : Aux * bool :=
  let '(aux, changed) := acc in
  match aux !! pc with
  | Some l =>
      if decide (add ⊆ regs l) then (aux, changed)
      else (<[pc := MkLive (regs l ∪ add) (slots l)]> aux, true)
  | None => (aux, changed)
  end.

Definition propagate_call (prog : Program) (subprogs : list Subprog.SubprogInfo) (acc : Aux * bool)
  (pc : nat) : Aux * bool :=
  match instr_at prog pc with
  | CallRel target =>
      if (S pc <? length (instrs prog))%nat then
        let propagated := filter (fun r => is_callee_saved r = true) (regs (live_at acc.1 (S pc))) in
        if decide (propagated = ∅) then acc
        else match Subprog.get_subprog subprogs target with
             | Some info =>
                 foldl (add_regs propagated) acc
                   (seq (Subprog.start_pc info) (Subprog.end_pc info - Subprog.start_pc info))
             | None => acc
             end
      else acc
  | _ => acc
  end.

Definition propagate_sweep (prog : Program) (subprogs : list Subprog.SubprogInfo) (aux : Aux)
  : Aux * bool :=
  foldl (propagate_call prog subprogs) (aux, false) (seq 0 (length (instrs prog))).

Fixpoint propagate_cross_frame_liveness (fuel : nat) (prog : Program)
  (subprogs : list Subprog.SubprogInfo) (aux : Aux) : option Aux :=
  match fuel with
  | O => None
  | S fuel =>
      let '(aux', changed) := propagate_sweep prog subprogs aux in
      if changed : bool then propagate_cross_frame_liveness fuel prog subprogs aux' else Some aux'
  end.

(** [None]: a boundary of a function lies outside of the program. *)
Definition compute_liveness (prog : Program) (aux : Aux) : option Aux :=
  match Subprog.analyze_subprograms (instrs prog) with
  | Some subprogs =>
      match local_liveness prog subprogs aux with
      | Some aux' =>
          propagate_cross_frame_liveness (S (length aux' * REGS)) prog subprogs aux'
      | None => None
      end
  | None => None
  end.

End Liveness.
