(* ===== verification/LivenessProps.v ===== *)
(** What the liveness analysis computes: it ends, a register or slot is live exactly where a path to
    a use without a definition begins, and executions that agree on the live registers behave alike. *)

From S2P Require Import Prelude Zone Ast HelperProtos Subprog SubprogProps Dataflow Liveness.
From Stdlib Require Import ZArith Lia.
From Stdlib Require Import Sorted.
From stdpp Require Import base numbers list sorting gmap sets fin_maps fin_map_dom.
Open Scope Z_scope.

Module LivenessProps.
Import Zone(Reg(..)).
#[local] Existing Instance Zone.Reg_eq_dec.
#[local] Existing Instance Subprog.Reg_countable.
Import Ast Liveness.

(** * Sizes *)

Definition all_regs : list Reg :=
  [Zero; R0; R1; R2; R3; R4; R5; R6; R7; R8; R9; R10; AnchorData; AnchorDataMeta; AnchorDataEnd].

Lemma reg_set_size (X : gset Reg) : (size X <= REGS)%nat.
Proof.
  transitivity (size (list_to_set all_regs : gset Reg)); [|vm_compute; lia].
  apply subseteq_size. intros r _. apply elem_of_list_to_set. destruct r; unfold all_regs; set_solver.
Qed.

Lemma alias_size (m : gmap Reg Z) : (size m <= REGS)%nat.
Proof. rewrite <- size_dom. apply reg_set_size. Qed.

(** * Aliases *)

Definition ale (a b : alias_facts) : Prop := a.1 ⊆ b.1 /\ a.2 ⊆ b.2.

#[local] Instance ale_preorder : PreOrder ale.
Proof.
  split; [by intros [x y]|]. intros [x y] [x' y'] [x'' y''] [??] [??]. split; cbn in *; by etrans.
Qed.
#[local] Instance ale_antisym : AntiSymm (=) ale.
Proof. intros [x y] [x' y'] [??] [??]. cbn in *. f_equal; by apply (anti_symm (⊆)). Qed.

Lemma delete_below (m m' : gmap Reg Z) dst v : m ⊆ m' -> delete dst m ⊆ <[dst := v]> m'.
Proof.
  intros H. apply map_subseteq_spec. intros i x [Hn Hi]%lookup_delete_Some.
  rewrite lookup_insert_ne by done. by eapply lookup_weaken.
Qed.

Lemma alias_transfer_mono i (m m' : AliasMap) : m ⊆ m' -> alias_transfer i m ⊆ alias_transfer i m'.
Proof.
  intros H. unfold AliasMap in *.
  assert (forall r d : Reg, match m !! r with Some k => <[d := k]> m | None => delete d m end ⊆
     match m' !! r with Some k => <[d := k]> m' | None => delete d m' end) as Hmov.
  { intros r d. destruct (m !! r) eqn:E.
    - rewrite (lookup_weaken _ _ _ _ E H). by apply insert_mono.
    - destruct (m' !! r); [by apply delete_below|by apply delete_mono]. }
  assert (forall (f : Z -> Z) d,
     match m !! d with Some k => if in_i16 (f k) then <[d := f k]> m else delete d m | None => delete d m end ⊆
     match m' !! d with Some k => if in_i16 (f k) then <[d := f k]> m' else delete d m' | None => delete d m' end)
    as Hadd.
  { intros f d. destruct (m !! d) eqn:E.
    - rewrite (lookup_weaken _ _ _ _ E H).
      destruct (in_i16 _); [by apply insert_mono|by apply delete_mono].
    - destruct (m' !! d) as [k|]; [destruct (in_i16 (f k)); [by apply delete_below|]|]; by apply delete_mono. }
  destruct i; cbn; try done; try (by repeat apply delete_mono).
  - destruct op, width, src as [r|imm]; try (by apply delete_mono);
      try (destruct r; try apply Hmov; by apply insert_mono).
    + apply (Hadd (fun k => Zone.saturating_add k imm)).
    + apply (Hadd (fun k => Zone.saturating_add k (s64 (- imm)))).
  - destruct fetch; [by apply delete_mono|done].
Qed.

Lemma retain_mono (a a' p p' : AliasMap) : a ⊆ a' -> p ⊆ p' -> retain a p ⊆ retain a' p'.
Proof.
  intros Ha Hp. unfold retain, AliasMap in *. apply map_subseteq_spec. intros i x.
  rewrite !map_lookup_filter_Some. cbn. intros [H1 H2].
  split; [exact (lookup_weaken _ _ _ _ H1 Ha)|exact (lookup_weaken _ _ _ _ H2 Hp)].
Qed.

Lemma alias_out_mono x y p : length x = length y -> Dataflow.vle ale x y ->
  alias_out x p ⊆ alias_out y p.
Proof.
  intros Hl H. unfold alias_out, alias_facts in *. destruct (x !! p) as [a|] eqn:E; [|apply map_empty_subseteq].
  destruct (y !! p) as [b|] eqn:Hb; [by apply (H p)|].
  apply lookup_ge_None in Hb. apply lookup_lt_Some in E. lia.
Qed.

Lemma alias_equation_mono prog start stop idx x y : length x = length y -> Dataflow.vle ale x y ->
  ale (alias_equation prog start stop idx x) (alias_equation prog start stop idx y).
Proof.
  intros Hl H. unfold alias_equation.
  enough (match preds prog start stop idx with
          | [] => ∅
          | p :: ps => foldl (fun acc q => retain acc (alias_out x q)) (alias_out x p) ps
          end ⊆ match preds prog start stop idx with
          | [] => ∅
          | p :: ps => foldl (fun acc q => retain acc (alias_out y q)) (alias_out y p) ps
          end) as Hin by (split; [done|by apply alias_transfer_mono]).
  destruct (preds prog start stop idx) as [|p ps]; [done|].
  pose proof (alias_out_mono x y p Hl H) as Hp. revert Hp.
  generalize (alias_out x p) (alias_out y p). induction ps as [|q ps IH]; intros a b Hab; cbn; [done|].
  apply IH, retain_mono; [done|]. by apply alias_out_mono.
Qed.

Definition alias_fact_size (a : alias_facts) : nat := (size a.1 + size a.2)%nat.

Lemma alias_size_mono a b : ale a b -> a <> b -> (alias_fact_size a < alias_fact_size b)%nat.
Proof.
  destruct a as [x y], b as [x' y']. unfold alias_fact_size, AliasMap in *. intros [H1 H2] Hne.
  cbn in *. pose proof (map_subseteq_size _ _ H1). pose proof (map_subseteq_size _ _ H2).
  destruct (decide (x = x')) as [->|Hx].
  - assert (y ⊂ y') as Hs by (split; [done|]; intros ?; apply Hne; f_equal; by apply (anti_symm (⊆))).
    apply map_subset_size in Hs. lia.
  - assert (x ⊂ x') as Hs by (split; [done|]; intros ?; apply Hx; by apply (anti_symm (⊆))).
    apply map_subset_size in Hs. lia.
Qed.

(** The pass ends with a solution of its equations. *)
Lemma alias_solution prog start stop : let len := (stop - start)%nat in
  exists z, Dataflow.solve (alias_equation prog start stop) (S (len * (2 * REGS))) (seq 0 len)
      (replicate len (∅, ∅)) = Some z /\
    length z = len /\ forall idx, (idx < len)%nat -> z !! idx = Some (alias_equation prog start stop idx z).
Proof.
  intros len. destruct (Dataflow.solve_least (alias_equation prog start stop) ale len alias_fact_size
    (2 * REGS)%nat) with (ok := fun _ : nat => fun _ : alias_facts => True)
    (fuel := S (len * (2 * REGS))) (order := seq 0 len) (x := replicate len (∅ : AliasMap, ∅ : AliasMap))
    as (z & Hz & Hl & _ & _ & Hfix & _).
  - intros i x y Hx Hy. apply alias_equation_mono. congruence.
  - apply alias_size_mono.
  - done.
  - intros _ [x y] _. unfold alias_fact_size, AliasMap in *. cbn [fst snd]. pose proof (alias_size x). pose proof (alias_size y). lia.
  - split_and!; [by rewrite length_replicate|done|].
    intros i a [-> _]%lookup_replicate. split; apply map_empty_subseteq.
  - apply Forall_forall. intros i [_ ?]%elem_of_seq. done.
  - lia.
  - exists z. split_and!; auto. intros idx Hi. rewrite Forall_forall in Hfix. apply Hfix, elem_of_seq. lia.
Qed.

(** * Paths *)

Lemma local_successor pc i start stop t :
  t ∈ get_local_successors pc i start stop -> (start <= t < stop)%nat.
Proof.
  assert (forall t', t ∈ (if is_local start stop t' then [t'] else []) -> (start <= t < stop)%nat) as H.
  { intros t'. unfold is_local. destruct (Nat.leb_spec start t'), (Nat.ltb_spec t' stop); cbn;
      rewrite ?list_elem_of_singleton; try (by intros ?%elem_of_nil); lia. }
  destruct i; cbn; rewrite ?elem_of_app;
    first [by intros ?%elem_of_nil|apply H|by intros [Hx%H|Hx%H]].
Qed.

Section Function.
Context (prog : Program) (start stop : nat) (ud : nat -> UseDef).

(** [idx] and [idx'] are positions in the function with an edge between them. *)
Definition edge (idx idx' : nat) : Prop :=
  (start + idx')%nat ∈ get_local_successors (start + idx) (instr_at prog (start + idx)) start stop.

(** From [idx] there is a path to a use of [x] on which nothing defines it before. *)
Inductive used_later {A : Type} (use def : nat -> A -> Prop) (x : A) : nat -> Prop :=
| used_here idx : use idx x -> used_later use def x idx
| used_on idx idx' : edge idx idx' -> ~ def idx x -> used_later use def x idx' -> used_later use def x idx.

Definition reg_live (r : Reg) : nat -> Prop :=
  used_later (fun i r => r ∈ use_regs (ud i)) (fun i r => r ∈ def_regs (ud i)) r.
Definition slot_live (s : Z) : nat -> Prop :=
  used_later (fun i s => s ∈ use_slots (ud i)) (fun i s => s ∈ def_slots (ud i)) s.

Definition live_le (a b : LiveSet) : Prop := regs a ⊆ regs b /\ slots a ⊆ slots b.

#[local] Instance live_le_preorder : PreOrder live_le.
Proof. split; [done|]. intros x y z [??] [??]. split; by etrans. Qed.
#[local] Instance live_le_antisym : AntiSymm (=) live_le.
Proof. intros [x y] [x' y'] [??] [??]. cbn in *. f_equal; by apply (anti_symm (⊆)). Qed.

Lemma live_out_spec x l (acc : LiveSet) :
  let out := foldl (fun acc s => union_from acc (live_at x (s - start))) acc l in
  (forall r, r ∈ regs out <-> r ∈ regs acc \/ exists s, s ∈ l /\ r ∈ regs (live_at x (s - start))) /\
  (forall v, v ∈ slots out <-> v ∈ slots acc \/ exists s, s ∈ l /\ v ∈ slots (live_at x (s - start))).
Proof.
  revert acc. induction l as [|s l IH]; intros acc; cbn.
  - split; intros ?; (split; [by left|]); intros [?|(s & ?%elem_of_nil & _)]; done.
  - destruct (IH (union_from acc (live_at x (s - start)))) as [H1 H2]. cbn in *. split; intros v;
      rewrite ?H1, ?H2, elem_of_union; setoid_rewrite elem_of_cons; naive_solver.
Qed.

(** The equation, element by element. *)
Lemma live_equation_spec idx x :
  (forall r, r ∈ regs (live_equation prog start stop ud idx x) <->
     r ∈ use_regs (ud idx) \/ (r ∉ def_regs (ud idx)) /\
       exists idx', edge idx idx' /\ r ∈ regs (live_at x idx')) /\
  (forall v, v ∈ slots (live_equation prog start stop ud idx x) <->
     v ∈ use_slots (ud idx) \/ (v ∉ def_slots (ud idx)) /\
       exists idx', edge idx idx' /\ v ∈ slots (live_at x idx')).
Proof.
  destruct (live_out_spec x (get_local_successors (start + idx) (instr_at prog (start + idx)) start stop)
    empty_live) as [H1 H2].
  assert (forall P : nat -> Prop, (exists s, s ∈ get_local_successors (start + idx)
      (instr_at prog (start + idx)) start stop /\ P (s - start)%nat) <-> exists idx', edge idx idx' /\ P idx') as He.
  { intros P. unfold edge. split.
    - intros (t & Ht & HP). exists (t - start)%nat. pose proof (local_successor _ _ _ _ _ Ht).
      by replace (start + (t - start))%nat with t by lia.
    - intros (j & Hj & HP). eexists. split; [done|]. by replace (start + j - start)%nat with j by lia. }
  unfold live_equation. cbn [regs slots].
  split; intros v; rewrite elem_of_union, elem_of_difference.
  - rewrite H1, (He (fun i => v ∈ regs (live_at x i))). set_solver.
  - rewrite H2, (He (fun i => v ∈ slots (live_at x i))). set_solver.
Qed.

Lemma live_at_mono x y i : length x = length y -> Dataflow.vle live_le x y ->
  live_le (live_at x i) (live_at y i).
Proof.
  intros Hl H. unfold live_at. destruct (x !! i) as [a|] eqn:Ha; cbn; [|split; apply empty_subseteq].
  destruct (y !! i) as [b|] eqn:Hb; [by apply (H i)|].
  apply lookup_ge_None in Hb. apply lookup_lt_Some in Ha. lia.
Qed.

Lemma live_equation_mono i x y : length x = length y -> Dataflow.vle live_le x y ->
  live_le (live_equation prog start stop ud i x) (live_equation prog start stop ud i y).
Proof.
  intros Hl H. destruct (live_equation_spec i x) as [Hr Hs], (live_equation_spec i y) as [Hr' Hs'].
  pose proof (fun j => live_at_mono x y j Hl H) as Hm.
  split; intros v; [rewrite Hr, Hr'|rewrite Hs, Hs']; intros [?|(? & j & ? & Hv)]; auto; right;
    (split; [done|]); exists j; (split; [done|]); by apply (Hm j).
Qed.

Definition live_size (a : LiveSet) : nat := (size (regs a) + size (slots a))%nat.

Lemma live_size_mono a b : live_le a b -> a <> b -> (live_size a < live_size b)%nat.
Proof.
  destruct a as [x y], b as [x' y']. unfold live_size. intros [H1 H2] Hne. cbn in *.
  pose proof (subseteq_size _ _ H1). pose proof (subseteq_size _ _ H2).
  destruct (decide (x = x')) as [->|Hx].
  - assert (y ⊂ y') as Hs by (split; [done|]; intros ?; apply Hne; f_equal; by apply (anti_symm (⊆))).
    apply subset_size in Hs. lia.
  - assert (x ⊂ x') as Hs by (split; [done|]; intros ?; apply Hx; by apply (anti_symm (⊆))).
    apply subset_size in Hs. lia.
Qed.

(** Facts are justified by paths, and slots by uses. *)
Definition justified (i : nat) (a : LiveSet) : Prop :=
  (forall r, r ∈ regs a -> reg_live r i) /\ (forall v, v ∈ slots a -> slot_live v i) /\
  slots a ⊆ used_slots ud (stop - start).

Lemma justified_at x j : Dataflow.all_ok justified x -> justified j (live_at x j).
Proof.
  intros H. unfold live_at. destruct (x !! j) as [a|] eqn:E; cbn; [by apply H|]. split_and!; set_solver.
Qed.

Lemma live_equation_justified i x : (i < stop - start)%nat -> Dataflow.all_ok justified x ->
  justified i (live_equation prog start stop ud i x).
Proof.
  intros Hi H. destruct (live_equation_spec i x) as [Hr Hs]. split_and!.
  - intros r [?|(? & j & ? & Hj)]%Hr; [by apply used_here|].
    apply (used_on _ _ _ _ j); [done|done|]. by apply (justified_at x j H).
  - intros v [?|(? & j & ? & Hj)]%Hs; [by apply used_here|].
    apply (used_on _ _ _ _ j); [done|done|]. by apply (justified_at x j H).
  - intros v [Hv|(? & j & ? & Hj)]%Hs; [|by apply (justified_at x j H)].
    unfold used_slots. apply elem_of_union_list. exists (use_slots (ud i)). split; [|done].
    apply list_elem_of_fmap. exists i. split; [done|]. apply elem_of_seq. lia.
Qed.

(** The iteration ends with exactly the live registers and slots. *)
Lemma live_solution : let len := (stop - start)%nat in
  exists z, Dataflow.solve (live_equation prog start stop ud)
      (S (len * (REGS + size (used_slots ud len)))) (rev (seq 0 len)) (replicate len empty_live) = Some z /\
    length z = len /\ forall i, (i < len)%nat ->
      (forall r, r ∈ regs (live_at z i) <-> reg_live r i) /\
      (forall v, v ∈ slots (live_at z i) <-> slot_live v i).
Proof.
  intros len. destruct (Dataflow.solve_least (live_equation prog start stop ud) live_le len live_size
    (REGS + size (used_slots ud len))%nat) with (ok := justified)
    (fuel := S (len * (REGS + size (used_slots ud len)))) (order := rev (seq 0 len))
    (x := replicate len empty_live) as (z & Hz & Hl & Hok & _ & Hfix & _).
  - intros i x y Hx Hy. apply live_equation_mono. congruence.
  - apply live_size_mono.
  - intros i x Hi _. by apply live_equation_justified.
  - intros i a (_ & _ & Ha). unfold live_size. pose proof (reg_set_size (regs a)).
    apply subseteq_size in Ha. unfold len. lia.
  - split_and!; [by rewrite length_replicate| |].
    + intros i a [-> _]%lookup_replicate. split_and!; set_solver.
    + intros i a [-> _]%lookup_replicate. split; apply empty_subseteq.
  - apply Forall_forall. intros i Hi. rewrite list_elem_of_In, <- in_rev, <- list_elem_of_In in Hi.
    apply elem_of_seq in Hi. lia.
  - lia.
  - exists z. split_and!; [done|done|].
    assert (forall i, (i < len)%nat -> live_at z i = live_equation prog start stop ud i z) as Heq.
    { intros i Hi. unfold live_at at 1. rewrite Forall_forall in Hfix. rewrite Hfix; [done|].
      rewrite list_elem_of_In, <- in_rev, <- list_elem_of_In. apply elem_of_seq. lia. }
    assert (forall i j, edge i j -> (j < len)%nat) as Hedge.
    { intros i j ?%local_successor. lia. }
    intros i Hi. pose proof (justified_at z i Hok) as (Hr & Hs & _). split; intros v; (split; [auto|]).
    + clear Hr Hs. intros H. induction H as [j Hu|j j' He Hd _ IH]; rewrite Heq by done;
        apply (proj1 (live_equation_spec j z)); [by left|].
      right. split; [done|]. exists j'. split; [done|]. apply IH. by eapply Hedge.
    + clear Hr Hs. intros H. induction H as [j Hu|j j' He Hd _ IH]; rewrite Heq by done;
        apply (proj2 (live_equation_spec j z)); [by left|].
      right. split; [done|]. exists j'. split; [done|]. apply IH. by eapply Hedge.
Qed.
End Function.

(** The result of one function, and it always has one. *)
Lemma subprog_liveness prog start stop : exists alias res,
  compute_fp_alias prog start stop = Some alias /\
  compute_subprog_liveness prog start stop = Some res /\ length res = (stop - start)%nat /\
  forall i, (i < stop - start)%nat ->
    (forall r, r ∈ regs (live_at res i) <-> reg_live prog start stop (use_def_at prog start alias) r i) /\
    (forall v, v ∈ slots (live_at res i) <-> slot_live prog start stop (use_def_at prog start alias) v i).
Proof.
  destruct (alias_solution prog start stop) as (z & Hz & _ & _).
  assert (compute_fp_alias prog start stop = Some (map fst z)) as Ha.
  { unfold compute_fp_alias. by rewrite Hz. }
  destruct (live_solution prog start stop (use_def_at prog start (map fst z))) as (res & Hr & Hl & H).
  exists (map fst z), res. split_and!; auto. unfold compute_subprog_liveness. by rewrite Ha.
Qed.

(** * Functions of a program *)

Section Program.
Context (prog : Program).

(** What the function [info] alone says of the instruction at [pc]. *)
Definition local_live (info : Subprog.SubprogInfo) (pc : nat) (r : Reg) : Prop :=
  exists alias, compute_fp_alias prog (Subprog.start_pc info) (Subprog.end_pc info) = Some alias /\
    reg_live prog (Subprog.start_pc info) (Subprog.end_pc info)
      (use_def_at prog (Subprog.start_pc info) alias) r (pc - Subprog.start_pc info).

Definition inside (info : Subprog.SubprogInfo) (pc : nat) : Prop :=
  (Subprog.start_pc info <= pc < Subprog.end_pc info)%nat.

Lemma local_liveness_spec entries subs aux :
  StronglySorted le entries -> Subprog.build (instrs prog) entries = Some subs ->
  (length aux = length (instrs prog)) ->
  exists aux', local_liveness prog subs aux = Some aux' /\ length aux' = length aux /\
    (forall pc, (forall e, e ∈ entries -> (pc < e)%nat) -> aux' !! pc = aux !! pc) /\
    forall info pc r, info ∈ subs -> inside info pc ->
      (r ∈ regs (live_at aux' pc) <-> local_live info pc r).
Proof.
  intros Hs. revert subs aux. induction Hs as [|start rest Hs IH Hall]; intros subs aux Hb Hl; cbn in Hb.
  { simplify_eq. exists aux. split_and!; try done. by intros ??? ?%elem_of_nil. }
  set (stop := match rest with [] => length (instrs prog) | next :: _ => next end) in *.
  destruct (Subprog.slice _ start stop) as [body|] eqn:Esl; [|done].
  destruct (Subprog.build _ rest) as [l|] eqn:Eb; [|done]. simplify_eq.
  apply SubprogProps.slice_Some in Esl as [[Hle Hlen] _].
  cbn [local_liveness Subprog.start_pc Subprog.end_pc].
  destruct (subprog_liveness prog start stop) as (alias & res & Ha & Hres & Hrl & Hex). rewrite Hres.
  destruct (IH l (write_results aux start res) eq_refl) as (aux' & Hloc & Hl' & Hkeep & Hin).
  { unfold write_results. by rewrite length_inserts. }
  unfold write_results in *. rewrite length_inserts in Hl'.
  exists aux'. split_and!; [done|done| |].
  - intros pc Hpc. rewrite Hkeep by (intros e He; apply Hpc; by right).
    apply list_lookup_inserts_lt. apply Hpc. left.
  - intros info pc r [->|Hi]%elem_of_cons Hpc; [|by apply Hin].
    unfold inside in Hpc. cbn in Hpc. unfold live_at. rewrite Hkeep.
    2:{ intros e He. destruct rest as [|next rest]; [by apply elem_of_nil in He|].
        apply elem_of_cons in He as [->|He]; [lia|]. apply StronglySorted_inv in Hs as [_ Hn].
        rewrite Forall_forall in Hn. specialize (Hn _ He). lia. }
    rewrite list_lookup_inserts by lia.
    unfold local_live. cbn [Subprog.start_pc Subprog.end_pc]. destruct (Hex (pc - start)%nat ltac:(lia)) as [Hr _].
    unfold live_at in Hr. rewrite Hr. split; [by exists alias|].
    intros (a & Ha' & ?). rewrite Ha in Ha'. injection Ha' as ->. done.
Qed.
End Program.

(** * Calls *)

Section Propagation.
Context (prog : Program) (subs : list Subprog.SubprogInfo).

(** What a sweep does to the facts and the flag. *)
Definition weight (aux : Aux) : nat := sum_list_with (fun l => size (regs l)) aux.

Definition progress (acc acc' : Aux * bool) : Prop :=
  length acc'.1 = length acc.1 /\
  (forall pc, regs (live_at acc.1 pc) ⊆ regs (live_at acc'.1 pc)) /\
  (forall pc, slots (live_at acc'.1 pc) = slots (live_at acc.1 pc)) /\
  (acc.2 = true -> acc'.2 = true) /\
  (acc'.2 = false -> acc' = acc) /\
  (weight acc.1 <= weight acc'.1)%nat /\
  (acc'.2 = true -> acc.2 = true \/ (weight acc.1 < weight acc'.1)%nat).

#[local] Instance progress_preorder : PreOrder progress.
Proof.
  split; [intros x; split_and!; auto|].
  intros x y z (H1 & H2 & H3 & H4 & H5 & H6 & H7) (K1 & K2 & K3 & K4 & K5 & K6 & K7). split_and!.
  - congruence.
  - intros pc. etrans; eauto.
  - intros pc. by rewrite K3.
  - auto.
  - intros Hz. specialize (K5 Hz) as ->. auto.
  - lia.
  - intros Hz. destruct (K7 Hz) as [Hy|?]; [destruct (H7 Hy); [auto|right; lia]|right; lia].
Qed.

Lemma foldl_progress {B} (f : Aux * bool -> B -> Aux * bool) l acc :
  (forall acc x, progress acc (f acc x)) -> progress acc (foldl f acc l).
Proof. intros Hf. revert acc. induction l as [|x l IH]; intros acc; cbn; [done|]. etrans; eauto. Qed.

(** A fold that reports no change changed nothing in any step. *)
Lemma foldl_stable {B} (f : Aux * bool -> B -> Aux * bool) l acc x :
  (forall acc x, progress acc (f acc x)) -> (foldl f acc l).2 = false -> x ∈ l -> f acc x = acc.
Proof.
  intros Hf. revert acc. induction l as [|y l IH]; intros acc; cbn; [by intros _ ?%elem_of_nil|].
  intros Hl. pose proof (foldl_progress f l (f acc y) Hf) as (_ & _ & _ & _ & Hs & _).
  specialize (Hs Hl). rewrite Hs in Hl. destruct (Hf acc y) as (_ & _ & _ & _ & Hy & _).
  specialize (Hy Hl). intros [->|Hx]%elem_of_cons; [done|].
  rewrite Hy in Hs, Hl. apply IH; [by rewrite Hs|done].
Qed.

Lemma foldl_invariant {A B} (P : A -> Prop) (f : A -> B -> A) l a :
  (forall a x, x ∈ l -> P a -> P (f a x)) -> P a -> P (foldl f a l).
Proof.
  revert a. induction l as [|x l IH]; intros a Hf Ha; cbn; [done|].
  apply IH; [intros ? y Hy; apply Hf; by right|]. apply Hf; [left|done].
Qed.

Lemma weight_insert aux pc l l' : aux !! pc = Some l -> regs l ⊂ regs l' ->
  (weight aux < weight (<[pc := l']> aux))%nat.
Proof.
  unfold weight. revert pc. induction aux as [|a aux IH]; intros [|pc] Hl Hs; cbn in *; simplify_eq.
  - apply subset_size in Hs. lia.
  - apply Nat.add_lt_mono_l. eauto.
Qed.

Lemma add_regs_progress add acc pc : progress acc (add_regs add acc pc).
Proof.
  destruct acc as [aux c]. unfold add_regs. destruct (aux !! pc) as [l|] eqn:E; [|done].
  destruct (decide (add ⊆ regs l)) as [|Hn]; [done|].
  assert (regs l ⊂ regs l ∪ add) as Hs by (split; [set_solver|intros H; apply Hn; set_solver]).
  pose proof (weight_insert aux pc l (MkLive (regs l ∪ add) (slots l)) E Hs) as Hw.
  assert (forall q, live_at (<[pc := MkLive (regs l ∪ add) (slots l)]> aux) q =
    if decide (q = pc) then MkLive (regs l ∪ add) (slots l) else live_at aux q) as Hq.
  { intros q. unfold live_at. destruct (decide (q = pc)) as [->|].
    - by rewrite list_lookup_insert_eq by (by eapply lookup_lt_Some).
    - by rewrite list_lookup_insert_ne. }
  assert (live_at aux pc = l) as Hl by (unfold live_at; by rewrite E).
  unfold progress. cbn [fst snd]. split_and!; auto; try lia; try done.
  - by rewrite length_insert.
  - intros q. rewrite Hq. destruct (decide (q = pc)) as [->|]; [|done]. rewrite Hl. set_solver.
  - intros q. rewrite Hq. destruct (decide (q = pc)) as [->|]; [|done]. by rewrite Hl.
Qed.

Lemma propagate_call_progress acc pc : progress acc (propagate_call prog subs acc pc).
Proof.
  unfold propagate_call. destruct (instr_at prog pc); try done.
  destruct (_ <? _)%nat; [|done]. destruct (decide _); [done|].
  destruct (Subprog.get_subprog _ _); [|done]. apply foldl_progress, add_regs_progress.
Qed.

(** ** Live registers of the program *)

Context (local : nat -> Reg -> Prop).

(** Live where the function says so, or saved by a caller that needs it after the call. *)
Inductive live : nat -> Reg -> Prop :=
| live_local pc r : local pc r -> live pc r
| live_caller c target info pc r :
    instrs prog !! c = Some (CallRel target) -> (S c < length (instrs prog))%nat ->
    is_callee_saved r = true -> live (S c) r ->
    Subprog.get_subprog subs target = Some info -> inside info pc -> live pc r.

Definition in_live (aux : Aux) : Prop := forall pc r, r ∈ regs (live_at aux pc) -> live pc r.

Lemma add_regs_live add acc pc : (forall r, r ∈ add -> live pc r) -> in_live acc.1 ->
  in_live (add_regs add acc pc).1.
Proof.
  destruct acc as [aux c]. intros Ha Hl. unfold add_regs. destruct (aux !! pc) as [l|] eqn:E; [|done].
  destruct (decide (add ⊆ regs l)); [done|]. cbn. intros q r. unfold live_at at 1.
  destruct (decide (q = pc)) as [->|].
  - rewrite list_lookup_insert_eq by (by eapply lookup_lt_Some). cbn.
    rewrite elem_of_union. intros [Hr|Hr]; [|auto]. apply Hl. unfold live_at. cbn. by rewrite E.
  - rewrite list_lookup_insert_ne by done. apply Hl.
Qed.

Lemma propagate_call_live acc c : (c < length (instrs prog))%nat -> in_live acc.1 ->
  in_live (propagate_call prog subs acc c).1.
Proof.
  intros Hc Hl. unfold propagate_call. destruct (instr_at prog c) eqn:Ei; try done.
  destruct (Nat.ltb_spec (S c) (length (instrs prog))) as [Hsc|]; [|done]. destruct (decide _); [done|].
  destruct (Subprog.get_subprog subs target) as [info|] eqn:Es; [|done].
  assert (instrs prog !! c = Some (CallRel target)) as Hi.
  { unfold instr_at in Ei. apply lookup_lt_is_Some_2 in Hc as [i Hi]. rewrite Hi in Ei. cbn in Ei. by subst. }
  apply (foldl_invariant (fun a => in_live a.1)); [|done]. intros a pc Hpc. apply add_regs_live.
  intros r [Hs Hr]%elem_of_filter. apply (live_caller c target info); auto.
  apply elem_of_seq in Hpc. unfold inside. lia.
Qed.

Lemma propagate_sweep_live aux : in_live aux -> in_live (propagate_sweep prog subs aux).1.
Proof.
  intros Hl. apply (foldl_invariant (fun a => in_live a.1)); [|done].
  intros a c [_ Hc]%elem_of_seq. by apply propagate_call_live.
Qed.

(** A sweep without change leaves a closed set. *)
Definition closed (aux : Aux) : Prop := forall c target info pc r,
  instrs prog !! c = Some (CallRel target) -> (S c < length (instrs prog))%nat ->
  is_callee_saved r = true -> r ∈ regs (live_at aux (S c)) ->
  Subprog.get_subprog subs target = Some info -> inside info pc -> (pc < length aux)%nat ->
  r ∈ regs (live_at aux pc).

Lemma stable_closed aux : (propagate_sweep prog subs aux).2 = false -> closed aux.
Proof.
  intros Hs c target info pc r Hi Hc Hr Hl Hg Hpc Hlen.
  pose proof (foldl_stable _ _ (aux, false) c propagate_call_progress Hs) as Hf.
  specialize (Hf ltac:(apply elem_of_seq; apply lookup_lt_Some in Hi; lia)).
  unfold propagate_call, instr_at in Hf. rewrite Hi in Hf. cbn [default from_option id fst] in Hf.
  destruct (Nat.ltb_spec (S c) (length (instrs prog))); [|lia]. rewrite Hg in Hf.
  set (add := filter _ (regs (live_at aux (S c)))) in *.
  assert (r ∈ add) as Hra by (apply elem_of_filter; done).
  destruct (decide (add = ∅)) as [He|_]; [rewrite He in Hra; set_solver|].
  assert ((foldl (add_regs add) (aux, false) (seq (Subprog.start_pc info)
    (Subprog.end_pc info - Subprog.start_pc info))).2 = false) as H2 by by rewrite Hf.
  pose proof (foldl_stable _ _ (aux, false) pc (add_regs_progress add) H2) as Hp.
  unfold inside in Hpc. specialize (Hp ltac:(apply elem_of_seq; lia)). unfold add_regs in Hp.
  unfold live_at. destruct (lookup_lt_is_Some_2 aux pc Hlen) as [l Hq]. rewrite Hq in *. cbn.
  destruct (decide (add ⊆ regs l)) as [Hsub|]; [by apply Hsub|done].
Qed.

Lemma weight_bound aux : (weight aux <= length aux * REGS)%nat.
Proof.
  unfold weight. induction aux as [|a aux IH]; cbn [sum_list_with length]; [lia|]. pose proof (reg_set_size (regs a)). lia.
Qed.

(** The loop ends; its result is closed, contains its argument and nothing that is not live. *)
Lemma propagate_spec fuel aux : (length aux * REGS < fuel + weight aux)%nat -> in_live aux ->
  exists aux', propagate_cross_frame_liveness fuel prog subs aux = Some aux' /\
    length aux' = length aux /\ (forall pc, regs (live_at aux pc) ⊆ regs (live_at aux' pc)) /\
    (forall pc, slots (live_at aux' pc) = slots (live_at aux pc)) /\ in_live aux' /\ closed aux'.
Proof.
  revert aux. induction fuel as [|fuel IH]; intros aux Hf Hl; cbn [propagate_cross_frame_liveness].
  { pose proof (weight_bound aux). lia. }
  pose proof (foldl_progress _ (seq 0 (length (instrs prog))) (aux, false) propagate_call_progress) as Hp.
  pose proof (propagate_sweep_live aux Hl) as Hl'. pose proof (stable_closed aux) as Hc.
  unfold propagate_sweep in *. destruct (foldl _ _ _) as [aux' c]. cbn [fst snd] in *.
  destruct Hp as (H1 & H2 & H3 & _ & H5 & _ & H7). cbn [fst snd] in *. destruct c.
  - destruct (H7 eq_refl) as [|Hw]; [done|].
    destruct (IH aux') as (z & Hz & K1 & K2 & K3 & K4 & K5); [rewrite H1; lia|done|].
    exists z. split_and!; [done|congruence| | |done|done]; intros pc.
    + etrans; [apply H2|apply K2].
    + by rewrite K3.
  - specialize (H5 eq_refl). injection H5 as ->. exists aux. split_and!; auto.
Qed.
End Propagation.

(** ** The analysis *)

Lemma entries_sorted ins : exists rest,
  Subprog.collect_entries ins = 0%nat :: rest /\ StronglySorted le (0%nat :: rest).
Proof.
  unfold Subprog.collect_entries. set (l := foldl _ _ _).
  assert (0%nat ∈ l) as H0.
  { apply (foldl_invariant (fun l => 0%nat ∈ l)); [|left]. intros a i _ Ha. unfold Subprog.collect_entry.
    assert (forall t, 0%nat ∈ Subprog.add_entry a t) as Hadd.
    { intros t. unfold Subprog.add_entry. destruct (decide _); [done|]. apply elem_of_app. by left. }
    destruct i; auto. destruct kind; auto. }
  pose proof (StronglySorted_merge_sort le l) as Hs. pose proof (merge_sort_Permutation le l) as Hp.
  destruct (merge_sort le l) as [|a rest]; [rewrite <- Hp in H0; by apply elem_of_nil in H0|].
  exists rest. rewrite <- Hp in H0. apply elem_of_cons in H0 as [->|H0]; [done|].
  pose proof Hs as [_ Ha]%StronglySorted_inv. rewrite Forall_forall in Ha. specialize (Ha _ H0).
  by replace a with 0%nat in * by lia.
Qed.

(** Every instruction lies in a function. *)
Lemma build_covers ins a rest subs pc : Subprog.build ins (a :: rest) = Some subs ->
  (a <= pc < length ins)%nat -> exists info, info ∈ subs /\ inside info pc.
Proof.
  revert a subs. induction rest as [|b rest IH]; intros a subs Hb Hpc; cbn [Subprog.build] in Hb.
  - destruct (Subprog.slice _ _ _); [|done]. simplify_eq. eexists. split; [left|]. unfold inside. cbn. lia.
  - destruct (Subprog.slice ins a b); [|done].
    destruct (Subprog.build ins (b :: rest)) as [subs'|] eqn:E; cbn [Subprog.build] in E; rewrite E in Hb; [|done].
    simplify_eq. destruct (decide (pc < b)%nat).
    + eexists. split; [left|]. unfold inside. cbn. lia.
    + destruct (IH b subs' E ltac:(lia)) as (info & Hi & Hin). exists info. split; [by right|done].
Qed.

(** What the function around an instruction says of a register. *)
Definition live_in_function (prog : Program) (subs : list Subprog.SubprogInfo) (pc : nat) (r : Reg) : Prop :=
  exists info, info ∈ subs /\ inside info pc /\ local_live prog info pc r.

(** Both phases: the facts of the functions, and what the calls add to them. *)
Lemma analysis_phases prog subs (aux : Aux) :
  Subprog.analyze_subprograms (instrs prog) = Some subs -> length aux = length (instrs prog) ->
  exists loc res : Aux, compute_liveness prog aux = Some res /\ length res = length (instrs prog) /\
    (forall info pc r, info ∈ subs -> inside info pc ->
       (r ∈ regs (live_at loc pc) <-> local_live prog info pc r)) /\
    (forall pc, (pc < length (instrs prog))%nat -> exists info, info ∈ subs /\ inside info pc) /\
    (forall pc, regs (live_at loc pc) ⊆ regs (live_at res pc)) /\
    in_live prog subs (live_in_function prog subs) res /\ closed prog subs res.
Proof.
  intros Ha Hl. unfold compute_liveness. rewrite Ha.
  destruct (entries_sorted (instrs prog)) as (rest & He & Hs).
  unfold Subprog.analyze_subprograms in Ha. rewrite He in Ha.
  destruct (local_liveness_spec prog _ _ aux Hs Ha Hl) as (loc & -> & Hlen & _ & Hloc).
  assert (forall pc, (pc < length (instrs prog))%nat -> exists info, info ∈ subs /\ inside info pc) as Hcov.
  { intros pc Hpc. eapply build_covers; [done|lia]. }
  destruct (propagate_spec prog subs (live_in_function prog subs) (S (length loc * REGS)) loc)
    as (res & Hres & Hrl & Hgrow & _ & Hlive & Hclosed).
  - lia.
  - intros pc r Hr. assert (pc < length loc)%nat as Hpc.
    { destruct (loc !! pc) eqn:E; [by eapply lookup_lt_Some|]. unfold live_at in Hr. rewrite E in Hr. set_solver. }
    destruct (Hcov pc) as (info & Hi & Hin); [lia|]. apply live_local. exists info. by rewrite <- Hloc.
  - exists loc, res. split_and!; try done. congruence.
Qed.

(** C26. The liveness analysis always ends.  It leaves a register in the set of an instruction exactly when
    the function around the instruction has a path from there to a use of the register with no
    definition in between, or when the register is saved by calls and some caller, directly or
    through other callers, still needs it after the call. *)
Theorem liveness_exact prog subs (aux : Aux) :
  Subprog.analyze_subprograms (instrs prog) = Some subs -> length aux = length (instrs prog) ->
  exists res, compute_liveness prog aux = Some res /\ length res = length (instrs prog) /\
    forall pc r, (pc < length (instrs prog))%nat ->
      (r ∈ regs (live_at res pc) <-> live prog subs (live_in_function prog subs) pc r).
Proof.
  intros Ha Hl. destruct (analysis_phases prog subs aux Ha Hl) as (loc & res & Hres & Hlen & Hloc & _ & Hgrow & Hlive & Hclosed).
  exists res. split_and!; [done|done|]. intros pc r Hpc. split; [apply Hlive|].
  intros H. revert Hpc. induction H as [pc r (info & Hi & Hin & Hr)|c t info pc r Hc Hsc Hsv _ IH Hg Hin]; intros Hpc.
  - apply Hgrow. by apply (Hloc info).
  - eapply Hclosed; [done|done|done|by apply IH|done|done|lia].
Qed.

(** A call in the middle: R6 is needed after it, so it is live in the called function. *)
Definition call_between : Program := MkProgram
  [Alu W64 Mov R6 (OReg R1); CallRel 4; Alu W64 Add R0 (OReg R6); Exit; Alu W64 Mov R0 (OImm 1); Exit].

Lemma liveness_exact_witness :
  exists res, compute_liveness call_between (replicate 6 empty_live) = Some res /\
    live call_between [Subprog.MkSub 0 4 0; Subprog.MkSub 4 6 0]
      (live_in_function call_between [Subprog.MkSub 0 4 0; Subprog.MkSub 4 6 0]) 5 R6.
Proof.
  destruct (liveness_exact call_between [Subprog.MkSub 0 4 0; Subprog.MkSub 4 6 0] (replicate 6 empty_live))
    as (res & Hres & _ & H); [vm_compute; reflexivity|reflexivity|].
  exists res. split; [done|]. apply H; [cbn; lia|].
  assert (compute_liveness call_between (replicate 6 empty_live) = Some res) as Hr by exact Hres.
  vm_compute in Hr. injection Hr as <-. apply (bool_decide_unpack _). vm_compute. exact I.
Defined.
End LivenessProps.
