(* ===== verification/LivenessSound.v ===== *)
(** What the live registers mean for executions ([src/analysis/flow/liveness.rs]): which instructions
    read more than the analysis takes them to use, and, for programs without those, that executions
    from states which agree on the live registers cannot be told apart, calls included. *)

From S2P Require Import Prelude Zone Ast HelperDefs HelperProtos Subprog SubprogProps Dataflow Liveness LivenessProps.
From Stdlib Require Import ZArith Lia Sorted.
From Stdlib Require Import String.
From stdpp Require Import base numbers list strings sorting gmap sets.
Open Scope Z_scope.

Module LivenessSound.
Import Zone(Reg(..)).
#[local] Existing Instance Zone.Reg_eq_dec.
#[local] Existing Instance Subprog.Reg_countable.
Import Ast Liveness LivenessProps.

(** * What an instruction reads *)

Definition arg_regs : list Reg := [R1; R2; R3; R4; R5].

(** Parameters of a helper by its declaration in the kernel header; variable arguments fill the rest. *)
Definition params (id : Z) : nat :=
  match HelperProtos.declaration id with
  | Some d => if decide ("..."%string ∈ HelperDefs.c_params d) then 5 else length (HelperDefs.c_params d)
  | None => 0
  end.

Definition reads (i : Instr) : gset Reg :=
  match i with
  | Alu _ Mov _ src | MovSx _ _ _ src => operand_reg src
  | Alu _ _ dst src => {[ dst ]} ∪ operand_reg src
  | Endian dst _ _ _ => {[ dst ]}
  | If _ l _ r _ => {[ l ]} ∪ operand_reg r
  | Load _ _ base _ | LoadSx _ _ base _ | LoadAcq _ _ base _ => {[ base ]}
  | Store _ base _ src => {[ base ]} ∪ operand_reg src
  | StoreRel _ base _ src => {[ base; src ]}
  | Atomic ACmpXchg _ _ base _ src => {[ R0; base; src ]}
  | Atomic _ _ _ base _ src => {[ base; src ]}
  | Call (Helper id) => list_to_set (take (params id) arg_regs)
  | Call (Kfunc _ _) | CallRel _ => list_to_set arg_regs
  | LoadPacket _ _ _ src => {[ R6 ]} ∪ match src with Some r => {[ r ]} | None => ∅ end
  | Exit => {[ R0 ]}
  | Jmp _ | MayGoto _ | LoadMap _ _ _ _ => ∅
  end.

Definition self_mov (i : Instr) : bool :=
  match i with Alu _ Mov dst src => bool_decide (src = OReg dst) | _ => false end.

(** The analysis counts everything the instruction reads as used. *)
Definition covered (i : Instr) : Prop := self_mov i = true \/ reads i ⊆ use_regs (get_use_def i ∅).

#[export] Instance covered_dec i : Decision (covered i).
Proof. unfold covered. apply _. Defined.

Lemma use_regs_alias i alias : use_regs (get_use_def i alias) = use_regs (get_use_def i ∅).
Proof. by destruct i. Qed.

Lemma def_regs_written i alias r : r ∈ def_regs (get_use_def i alias) -> r ∈ writes i.
Proof.
  assert (forall x : Reg, r ∈ ({[ x ]} : gset Reg) -> r ∈ [x]) as H1 by (intros x; set_solver).
  assert (r ∈ scratch -> r ∈ caller_saved) as H2 by (unfold scratch, caller_saved; set_solver).
  destruct i; cbn; try (by intros ?%elem_of_empty); auto.
  destruct op; auto. destruct (decide _); auto. by intros ?%elem_of_empty.
Qed.

(** Calls of a helper, for all numbers: those with a prototype are evaluated. *)
Definition short_helpers : list Z := [6; 9; 40; 99].

Lemma first_match_elem {B} k (v : B) l : HelperProtos.first_match k l = Some v -> (k, v) ∈ l.
Proof.
  induction l as [|[k' v'] l IH]; cbn; [done|].
  destruct (Z.eqb_spec k' k) as [->|]; [intros [= ->]; left|right; auto].
Qed.

Lemma args_subset n : (list_to_set (take n arg_regs) : gset Reg) ⊆ list_to_set arg_regs.
Proof.
  intros r. rewrite !elem_of_list_to_set, !list_elem_of_lookup.
  intros [k [Hk _]%lookup_take_Some]. by exists k.
Qed.

Lemma helper_covered id : covered (Call (Helper id)) <-> id ∉ short_helpers.
Proof.
  assert (Forall (fun e => covered (Call (Helper e.1)) <-> e.1 ∉ short_helpers) HelperProtos.numbered) as H.
  { apply (bool_decide_unpack _). vm_compute. exact I. }
  destruct (HelperProtos.get_helper_proto id) as [p|] eqn:E.
  - rewrite Forall_forall in H. by apply (H (id, p)), first_match_elem.
  - split.
    + intros _ Hin. unfold short_helpers in Hin.
      repeat (apply elem_of_cons in Hin as [->|Hin]; [vm_compute in E; discriminate|]). by apply elem_of_nil in Hin.
    + intros _. right. cbn [get_use_def use_regs reads]. unfold call_args. rewrite E. apply args_subset.
Qed.

(** C30. The instructions that read a register which the liveness analysis does not count as used: an
    atomic compare-and-exchange (R0), a load from the packet (R6), and calls of four helpers whose
    prototypes have fewer arguments than their declarations.  Of all other instructions it counts
    every register that is read. *)
Theorem liveness_uses i : covered i <->
  match i with
  | Atomic ACmpXchg _ _ base _ src => base = R0 \/ src = R0
  | LoadPacket _ _ _ src => src = Some R6
  | Call (Helper id) => id <> 6 /\ id <> 9 /\ id <> 40 /\ id <> 99
  | _ => True
  end.
Proof.
  unfold covered. destruct i; try (split; [done|intros _; right; cbn; set_solver]).
  - split; [done|intros _]. destruct op; try (right; cbn; set_solver). cbn.
    destruct (bool_decide_reflect (src = OReg dst)); [by left|right].
    destruct (decide _); [done|set_solver].
  - destruct op; try (split; [done|intros _; right; cbn; set_solver]). cbn. split.
    + intros [|H]; [done|]. specialize (H R0 ltac:(set_solver)). set_solver.
    + intros [->| ->]; right; set_solver.
  - destruct kind; [pose proof (helper_covered id) as H; unfold covered, short_helpers in H; rewrite H; set_solver|].
    split; [done|intros _]. right. done.
  - cbn. split.
    + intros [|H]; [done|]. specialize (H R6 ltac:(set_solver)). destruct src; set_solver.
    + intros ->. right. set_solver.
Qed.

(** * Machines *)

(** A machine executes single instructions; its state [M] is the memory with all that a program can
    observe or be influenced by, apart from the registers. *)
Class Machine (M : Type) : Type := {
  exec : Instr -> nat -> M -> val -> nat * M * val;
  (** What registers hold that a call neither passes nor preserves; the number counts the frames. *)
  junk : M -> nat -> val;
  exec_reads : forall i pc m s t, (forall r, r ∈ reads i -> s r = t r) ->
    (exec i pc m s).1 = (exec i pc m t).1 /\
    forall r, r ∈ writes i -> (exec i pc m s).2 r = (exec i pc m t).2 r;
  exec_frame : forall i pc m s r, r ∉ writes i -> (exec i pc m s).2 r = s r;
  exec_next : forall i pc m s, i <> Exit -> next i pc s (exec i pc m s).1.1;
  exec_mov : forall w dst src pc m s, (exec (Alu w Mov dst src) pc m s).1.2 = m }.

Section Runs.
Context {M : Type} `{!Machine M} (prog : Program).

Definition entry_regs (m : M) (depth : nat) (s : val) : val :=
  fun r => if decide (r ∈ arg_regs) then s r else junk m depth r.
Definition return_regs (m : M) (depth : nat) (s saved : val) : val :=
  fun r => if decide (r = R0) then s R0 else if is_callee_saved r then saved r else junk m depth r.

(** At most [fuel] steps: program counters and memories on the way, and R0 at the end.  A frame has the
    address to return to and the registers of the caller. *)
Fixpoint run (fuel : nat) (pc : nat) (m : M) (s : val) (st : list (nat * val)) : list (nat * M) * option Z :=
  match fuel with
  | O => ([], None)
  | S fuel =>
      let go pc' m' s' st' := let '(tr, res) := run fuel pc' m' s' st' in ((pc, m) :: tr, res) in
      match instrs prog !! pc with
      | None => ([(pc, m)], None)
      | Some Exit =>
          match st with
          | [] => ([(pc, m)], Some (s R0))
          | (ret, saved) :: st' => go ret m (return_regs m (length st) s saved) st'
          end
      | Some (CallRel target) => go target m (entry_regs m (length st) s) ((S pc, s) :: st)
      | Some i => let '(pc', m', s') := exec i pc m s in go pc' m' s' st
      end
  end.
End Runs.

(** * Functions that control does not leave by a jump or at their end *)

Definition succs (i : Instr) (pc : nat) : list nat :=
  match i with
  | Exit => []
  | Jmp target => [target]
  | If _ _ _ _ target | MayGoto target => [S pc; target]
  | _ => [S pc]
  end.

Definition closed_function (prog : Program) (info : Subprog.SubprogInfo) : bool :=
  forallb (fun pc => match instrs prog !! pc with
                     | Some i => forallb (is_local (Subprog.start_pc info) (Subprog.end_pc info)) (succs i pc)
                     | None => true
                     end)
    (seq (Subprog.start_pc info) (Subprog.end_pc info - Subprog.start_pc info)).

Lemma next_succs i pc s pc' : next i pc s pc' -> pc' ∈ succs i pc.
Proof.
  destruct i; cbn; try (intros ->; left); try done.
  - destruct (compare _ _ _ _); intros ->; set_solver.
  - set_solver.
Qed.

Lemma closed_function_spec prog info pc i pc' : closed_function prog info = true -> inside info pc ->
  instrs prog !! pc = Some i -> pc' ∈ succs i pc ->
  inside info pc' /\ pc' ∈ get_local_successors pc i (Subprog.start_pc info) (Subprog.end_pc info).
Proof.
  unfold closed_function. rewrite List.forallb_forall. intros H Hpc Hi Hs.
  specialize (H pc). rewrite <- list_elem_of_In, elem_of_seq in H. unfold inside in Hpc.
  specialize (H ltac:(lia)). rewrite Hi, List.forallb_forall in H.
  assert (is_local (Subprog.start_pc info) (Subprog.end_pc info) pc' = true) as Hl
    by (apply H; by rewrite <- list_elem_of_In).
  split.
  - unfold is_local in Hl. apply andb_prop in Hl as [?%Nat.leb_le ?%Nat.ltb_lt]. unfold inside. lia.
  - destruct i; cbn in Hs |- *; try (apply list_elem_of_singleton in Hs as ->; rewrite Hl; left).
    + apply elem_of_app. repeat (apply elem_of_cons in Hs as [->|Hs]); try (rewrite Hl; set_solver). by apply elem_of_nil in Hs.
    + apply elem_of_app. repeat (apply elem_of_cons in Hs as [->|Hs]); try (rewrite Hl; set_solver). by apply elem_of_nil in Hs.
    + by apply elem_of_nil in Hs.
Qed.

(** * Executions *)

Lemma def_regs_alias i alias : def_regs (get_use_def i alias) = def_regs (get_use_def i ∅).
Proof. by destruct i. Qed.

Section Sound.
Context {M : Type} `{!Machine M} (prog : Program) (subs : list Subprog.SubprogInfo) (loc : Aux).
Context (Hloc : forall info pc r, info ∈ subs -> inside info pc ->
  r ∈ regs (live_at loc pc) <-> local_live prog info pc r).
Context (Hcover : forall pc, (pc < length (instrs prog))%nat -> exists info, info ∈ subs /\ inside info pc).
Context (Hclosed : Forall (fun info => closed_function prog info = true) subs).
Context (Huses : Forall covered (instrs prog)).

Lemma function_alias info : exists alias,
  compute_fp_alias prog (Subprog.start_pc info) (Subprog.end_pc info) = Some alias.
Proof. destruct (subprog_liveness prog (Subprog.start_pc info) (Subprog.end_pc info)) as (a & _ & ? & _). by exists a. Qed.

Lemma use_def_here info alias pc i : inside info pc -> instrs prog !! pc = Some i ->
  let ud := use_def_at prog (Subprog.start_pc info) alias (pc - Subprog.start_pc info) in
  use_regs ud = use_regs (get_use_def i ∅) /\ def_regs ud = def_regs (get_use_def i ∅).
Proof.
  intros Hpc Hi. unfold use_def_at, instr_at. unfold inside in Hpc.
  replace (Subprog.start_pc info + (pc - Subprog.start_pc info))%nat with pc by lia.
  rewrite Hi. cbn [default from_option id]. by rewrite use_regs_alias, def_regs_alias.
Qed.

(** Used registers are live, and so is what a successor needs and the instruction does not define. *)
Lemma used_live pc i r : instrs prog !! pc = Some i -> r ∈ use_regs (get_use_def i ∅) ->
  r ∈ regs (live_at loc pc).
Proof.
  intros Hi Hr. destruct (Hcover pc) as (info & Hin & Hpc); [by eapply lookup_lt_Some|].
  rewrite (Hloc info) by done. destruct (function_alias info) as [alias Ha]. exists alias. split; [done|].
  apply used_here. by rewrite (proj1 (use_def_here info alias pc i Hpc Hi)).
Qed.

Lemma flows_live pc i pc' r : instrs prog !! pc = Some i -> pc' ∈ succs i pc ->
  r ∈ regs (live_at loc pc') -> (r ∉ def_regs (get_use_def i ∅)) -> r ∈ regs (live_at loc pc).
Proof.
  intros Hi Hs Hr Hd. destruct (Hcover pc) as (info & Hin & Hpc); [by eapply lookup_lt_Some|].
  rewrite Forall_forall in Hclosed.
  destruct (closed_function_spec prog info pc i pc' (Hclosed _ Hin) Hpc Hi Hs) as [Hpc' Hloc'].
  rewrite (Hloc info) in Hr by done. destruct Hr as (alias & Ha & Hr).
  rewrite (Hloc info) by done. exists alias. split; [done|].
  apply (used_on _ _ _ _ _ _ _ (pc' - Subprog.start_pc info)); [| |done].
  - unfold edge, instr_at, inside in *.
    replace (Subprog.start_pc info + (pc' - Subprog.start_pc info))%nat with pc' by lia.
    replace (Subprog.start_pc info + (pc - Subprog.start_pc info))%nat with pc by lia. by rewrite Hi.
  - by rewrite (proj2 (use_def_here info alias pc i Hpc Hi)).
Qed.

Definition agree (pc : nat) (s t : val) : Prop := forall r, r ∈ regs (live_at loc pc) -> s r = t r.

(** The same addresses to return to, and the same values where they matter after the return. *)
Definition frames_agree (live : Aux) : list (nat * val) -> list (nat * val) -> Prop :=
  Forall2 (fun f g => f.1 = g.1 /\
    forall r, is_callee_saved r = true -> r ∈ regs (live_at live f.1) -> f.2 r = g.2 r).

Lemma reads_agree pc i s t : instrs prog !! pc = Some i -> self_mov i = false -> agree pc s t ->
  forall r, r ∈ reads i -> s r = t r.
Proof.
  intros Hi Hm Ha r Hr. rewrite Forall_lookup in Huses.
  destruct (Huses _ _ Hi) as [|Hc]; [congruence|]. apply Ha, (used_live pc i); auto.
Qed.

(** One instruction other than a call of a function or a return. *)
Lemma exec_agree pc i m s t : instrs prog !! pc = Some i -> i <> Exit -> agree pc s t ->
  (exec i pc m s).1 = (exec i pc m t).1 /\ agree (exec i pc m s).1.1 (exec i pc m s).2 (exec i pc m t).2.
Proof.
  intros Hi Hx Ha. pose proof (next_succs _ _ _ _ (exec_next i pc m s Hx)) as Hs.
  assert (forall r, r ∉ writes i -> r ∈ regs (live_at loc (exec i pc m s).1.1) -> s r = t r) as Hkeep.
  { intros r Hw Hr. apply Ha. eapply flows_live; [done|done|done|]. by intros ?%def_regs_written. }
  destruct (self_mov i) eqn:Em.
  - assert (exists w dst, i = Alu w Mov dst (OReg dst)) as (w & dst & ->).
    { destruct i; try done. destruct op; try done. cbn in Em. apply bool_decide_eq_true in Em as ->. eauto. }
    pose proof (next_succs _ _ _ _ (exec_next (Alu w Mov dst (OReg dst)) pc m t Hx)) as Ht.
    split.
    + apply list_elem_of_singleton in Hs, Ht. pose proof (exec_mov w dst (OReg dst) pc m s). pose proof (exec_mov w dst (OReg dst) pc m t).
      destruct (exec _ pc m s) as [[??]?], (exec _ pc m t) as [[??]?]. cbn in *. congruence.
    + intros r Hr. destruct (decide (r = dst)) as [->|Hn].
      * apply exec_reads; [|cbn; set_solver]. cbn. intros r' ->%elem_of_singleton. apply Ha.
        apply (flows_live pc _ _ dst Hi Hs Hr). cbn. rewrite decide_True by done. set_solver.
      * rewrite !exec_frame by (cbn; set_solver). apply Hkeep; [cbn; set_solver|done].
  - destruct (exec_reads i pc m s t (reads_agree pc i s t Hi Em Ha)) as [He Hw]. split; [done|].
    intros r Hr. destruct (decide (r ∈ writes i)) as [|Hn]; [auto|]. rewrite !exec_frame by done. auto.
Qed.

Lemma entry_agree m depth s t target pc : instrs prog !! pc = Some (CallRel target) -> agree pc s t ->
  agree target (entry_regs m depth s) (entry_regs m depth t).
Proof.
  intros Hi Ha r _. unfold entry_regs. destruct (decide (r ∈ arg_regs)) as [Hr|]; [|done].
  apply Ha, (used_live pc (CallRel target)); [done|]. cbn. unfold arg_regs in Hr. set_solver.
Qed.

Lemma return_agree m depth s t f g pc : instrs prog !! pc = Some Exit -> agree pc s t ->
  f.1 = g.1 /\ (forall r, is_callee_saved r = true -> r ∈ regs (live_at loc f.1) -> f.2 r = g.2 r) ->
  agree f.1 (return_regs m depth s f.2) (return_regs m depth t g.2).
Proof.
  intros Hi Ha [_ Hf] r Hr. unfold return_regs. destruct (decide (r = R0)) as [->|].
  - apply Ha, (used_live pc Exit); [done|]. cbn. set_solver.
  - destruct (is_callee_saved r) eqn:E; [auto|done].
Qed.

Lemma push_agree s t pc target st st' : instrs prog !! pc = Some (CallRel target) -> agree pc s t ->
  frames_agree loc st st' -> frames_agree loc ((S pc, s) :: st) ((S pc, t) :: st').
Proof.
  intros Hi Ha Hst. constructor; [|done]. split; [done|]. cbn. intros r Hr Hl. apply Ha.
  eapply flows_live; [done|left|done|]. cbn. unfold scratch. destruct r; cbn in Hr; set_solver.
Qed.

Lemma run_agree fuel pc m s t st st' : agree pc s t -> frames_agree loc st st' ->
  run prog fuel pc m s st = run prog fuel pc m t st'.
Proof.
  revert pc m s t st st'. induction fuel as [|fuel IH]; intros pc m s t st st' Ha Hst; cbn [run]; [done|].
  destruct (instrs prog !! pc) as [i|] eqn:Hi; [|done].
  assert (i <> Exit -> (let '(pc', m', s') := exec i pc m s in
      let '(tr, res) := run prog fuel pc' m' s' st in ((pc, m) :: tr, res)) =
    (let '(pc', m', s') := exec i pc m t in
      let '(tr, res) := run prog fuel pc' m' s' st' in ((pc, m) :: tr, res))) as Hstep.
  { intros Hx. destruct (exec_agree pc i m s t Hi Hx Ha) as [He Hag].
    destruct (exec i pc m s) as [[pc1 m1] s1], (exec i pc m t) as [[pc2 m2] t1]. cbn in *. simplify_eq.
    by rewrite (IH pc2 m2 s1 t1 st st' Hag Hst). }
  destruct i; try (by apply Hstep).
  - replace (length st) with (length st') by (symmetry; apply (Forall2_length _ _ _ Hst)).
    by rewrite (IH _ m _ _ _ _ (entry_agree m (length st') s t target pc Hi Ha) (push_agree s t pc target st st' Hi Ha Hst)).
  - destruct Hst as [|[ret f] [ret' g] st st' Hf Hst].
    + f_equal. f_equal. apply Ha, (used_live pc Exit); [done|]. cbn. set_solver.
    + pose proof (return_agree m (length ((ret, f) :: st)) s t (ret, f) (ret', g) pc Hi Ha Hf) as Hr.
      destruct Hf as [Heq _]. cbn [fst snd] in *. subst ret'. cbn [length] in *. unfold val in *.
      replace (length st') with (length st) by apply (Forall2_length _ _ _ Hst).
      by rewrite (IH ret m _ _ st st' Hr Hst).
Qed.
End Sound.

(** C6. Registers that are not live do not matter.  Take a program all of whose instructions are
    [covered] (every register they read is counted as used: this leaves out compare-and-exchange on
    operands other than [R0], packet loads whose index is not [R6], and the helpers 6, 9, 40 and 99)
    and whose functions are closed ([closed_function]: jumps and fall-throughs stay inside, so that
    only calls and returns leave).  Then two executions from the same instruction, memory and
    addresses to return to, whose registers agree where the analysis has them live (those of the
    callers where they are saved and live after the return), go through the same instructions and
    memories and return the same value, on every machine. *)
Theorem liveness_sound {M} `{!Machine M} prog subs (aux res : Aux) fuel pc (m : M) s t st st' :
  Subprog.analyze_subprograms (instrs prog) = Some subs -> length aux = length (instrs prog) ->
  compute_liveness prog aux = Some res ->
  Forall covered (instrs prog) -> Forall (fun info => closed_function prog info = true) subs ->
  (forall r, r ∈ regs (live_at res pc) -> s r = t r) -> frames_agree res st st' ->
  run prog fuel pc m s st = run prog fuel pc m t st'.
Proof.
  intros Hsub Hl Hres Huses Hclosed Ha Hst.
  destruct (analysis_phases prog subs aux Hsub Hl) as (loc & res' & Hres' & _ & Hloc & Hcov & Hgrow & _ & _).
  rewrite Hres in Hres'. injection Hres' as <-.
  apply (run_agree prog subs loc Hloc Hcov Hclosed Huses).
  - intros r Hr. by apply Ha, Hgrow.
  - eapply Forall2_impl; [done|]. intros f g [? H]. split; [done|]. intros r Hr Hin. by apply H, Hgrow.
Qed.

(** A machine for examples: a result is the sum of the registers read and one memory cell. *)
Definition digest (i : Instr) (s : val) : Z := foldr (fun r n => s r + n) 0 (elements (reads i)).

Definition adder_exec (i : Instr) (pc : nat) (m : Z) (s : val) : nat * Z * val :=
  let v := digest i s in
  let pc' := match i with
             | If w l op r target => if compare w op (s l) (operand s r) then target else S pc
             | Jmp target => target
             | _ => S pc
             end in
  let m' := match i with Store _ _ _ _ | StoreRel _ _ _ _ | Atomic _ _ _ _ _ _ | Call _ => m + v | _ => m end in
  (pc', m', fun r => if decide (r ∈ writes i) then m + v else s r).

#[export] Instance adder : Machine Z.
Proof.
  refine {| exec := adder_exec; junk := fun m depth r => m - 512 * Z.of_nat depth |}.
  - intros i pc m s t H. assert (digest i s = digest i t) as Hd.
    { unfold digest. assert (Forall (fun r => s r = t r) (elements (reads i))) as Hf.
      { apply Forall_forall. intros r Hr. by apply H, elem_of_elements. }
      induction Hf as [|r l Hr _ IH]; cbn; [done|]. by rewrite Hr, IH. }
    unfold adder_exec. rewrite Hd. split; [|intros r Hr; cbn; by rewrite !decide_True].
    destruct i; try done. cbn [fst]. f_equal. rewrite (H left) by (cbn; set_solver).
    destruct right as [r|]; cbn [operand]; [|done]. by rewrite (H r) by (cbn; set_solver).
  - intros i pc m s r Hr. cbn. by rewrite decide_False.
  - intros i pc m s Hx. destruct i; cbn; auto. by destruct (compare _ _ _ _).
  - done.
Defined.

Lemma liveness_sound_witness :
  let s : val := fun _ => 1 in let t : val := vset (vset s R9 7) R0 5 in
  run call_between 10 0 3 s [] = run call_between 10 0 3 t [] /\ s R9 <> t R9 /\ s R0 <> t R0.
Proof.
  intros s t. split; [|split; discriminate].
  apply (liveness_sound call_between [Subprog.MkSub 0 4 0; Subprog.MkSub 4 6 0] (replicate 6 empty_live)
    (default [] (compute_liveness call_between (replicate 6 empty_live)))).
  - vm_compute; reflexivity.
  - reflexivity.
  - vm_compute; reflexivity.
  - apply (bool_decide_unpack _). vm_compute. exact I.
  - repeat constructor.
  - intros r Hr. assert (bool_decide (R9 ∉ regs (live_at (default [] (compute_liveness call_between
      (replicate 6 empty_live))) 0)) = true) as H9 by (vm_compute; reflexivity).
    assert (bool_decide (R0 ∉ regs (live_at (default [] (compute_liveness call_between
      (replicate 6 empty_live))) 0)) = true) as H0 by (vm_compute; reflexivity).
    apply bool_decide_eq_true in H9, H0. unfold t, vset.
    rewrite !decide_False by (intros ->; contradiction). reflexivity.
  - constructor.
Defined.

(** Three more ways to a register or slot that is wrongly dead.  A function of which only the address
    is taken is a boundary for the analysis and none for the check of the functions, so a jump across
    it passes the check and its target is not seen; a move of 32 bits counts as a copy of the frame
    pointer; and a loop to the first instruction brings aliases to it that an entry does not have. *)
Theorem liveness_gaps :
  (let p := MkProgram [LoadMap R1 (PseudoFunc 3) 0 0; Alu W64 Mov R6 (OImm 7); Jmp 4;
      Alu W64 Mov R0 (OImm 0); Alu W64 Mov R0 (OReg R6); Exit] in
   Subprog.check_subprogs p = Subprog.Done tt /\
   exists res, compute_liveness p (replicate 6 empty_live) = Some res /\
     (R6 ∉ regs (live_at res 2)) /\ (R6 ∈ regs (live_at res 4)) /\ next (Jmp 4) 2 (fun _ => 0) 4) /\
  (alias_transfer (Alu W32 Mov R6 (OReg R10)) ∅ !! R6 = Some 0 /\
   step (Alu W32 Mov R6 (OReg R10)) (fun _ => 2 ^ 40) (vset (fun _ => 2 ^ 40) R6 0)) /\
  (let p := MkProgram [Load U64 R1 R6 (-8); Alu W64 Mov R6 (OReg R10); If W64 R1 Eq (OImm 0) 0; Exit] in
   exists alias, compute_fp_alias p 0 4 = Some alias /\ default ∅ (alias !! 0%nat) !! R6 = Some 0).
Proof.
  split; [|split_and!]; cbn zeta.
  - split; [vm_compute; reflexivity|]. eexists. split; [vm_compute; reflexivity|]. split_and!; [| |done]; apply (bool_decide_unpack _); vm_compute; exact I.
  - vm_compute; reflexivity.
  - cbn. f_equal.
  - eexists. split; vm_compute; reflexivity.
Qed.

End LivenessSound.
