(* ===== verification/Cfg.v ===== *)
(** The control-flow pass ([src/analysis/flow/cfg.rs]): successors of an instruction with the points it
    marks, callbacks found behind calls, the depth-first search over the program, loops and jumps into
    them.  Stacks are lists with their top first; the string of an error is its constructor. *)

From S2P Require Import Prelude Zone Ast Subprog.
From Stdlib Require Import ZArith Lia String.
From stdpp Require Import base numbers list strings.
Open Scope Z_scope.

Module Cfg.
Import Zone(Reg(..)).
#[local] Existing Instance Zone.Reg_eq_dec.
Import Ast.

(** What the pass reads of the context and writes to the data of an instruction. *)
Record Ctx : Type := MkCtx {
  kfuncs : list (string * Z);
  exception_callback : option string;
  pc_to_subprog_name : list (nat * string) }.

Record InsnAux : Type := MkAux { prune_point : bool; jmp_point : bool; force_checkpoint : bool }.
Abbreviation Env := (list InsnAux).

(** * Callbacks *)

Definition BPF_FOR_EACH_MAP_ELEM : Z := 164.
Definition BPF_LOOP : Z := 181.

Definition callback_arg_reg (helper_id : Z) : option Reg :=
  if (helper_id =? BPF_FOR_EACH_MAP_ELEM) || (helper_id =? Subprog.BPF_TIMER_SET_CALLBACK) ||
     (helper_id =? BPF_LOOP)
  then Some R2 else None.

Definition kfunc_callback_arg_reg (name : string) : option Reg :=
  if String.eqb name "bpf_rbtree_add_impl" then Some R3
  else if String.eqb name "bpf_wq_set_callback_impl" then Some R2 else None.

(** The first entry with the number, in the order of the table. *)
Definition kfunc_name (ctx : Ctx) (btf_id : Z) : option string :=
  fst <$> List.find (fun e => e.2 =? btf_id) (kfuncs ctx).

(** The names for which [get_kfunc_proto] has a prototype that returns [IterNextElem] or
    [IterNextBtfId]; nothing else of the prototypes is used here. *)
Definition iter_next_kfuncs : list string :=
  ["bpf_iter_num_next"; "bpf_iter_task_next"; "bpf_iter_task_vma_next"; "bpf_iter_kmem_cache_next";
   "bpf_iter_css_next"; "bpf_iter_bits_next"; "bpf_iter_css_task_next"; "bpf_iter_testmod_seq_next"]%string.

Fixpoint find_pseudo_func_for_call (prog : Program) (call_pc : nat) (tracked : Reg) : option nat :=
  match call_pc with
  | O => None
  | S pc =>
      let again := find_pseudo_func_for_call prog pc in
      match instrs prog !! pc with
      | Some (LoadMap dst (PseudoFunc subprog_pc) _ _) =>
          if decide (dst = tracked) then Some (Z.to_nat subprog_pc) else again tracked
      | Some (Alu _ Mov dst (OReg src)) => again (if decide (dst = tracked) then src else tracked)
      | Some (Alu _ _ dst _) | Some (MovSx _ _ dst _) | Some (Load _ dst _ _) | Some (LoadSx _ dst _ _)
      | Some (LoadMap dst _ _ _) => if decide (dst = tracked) then None else again tracked
      | Some (Jmp _) | Some (If _ _ _ _ _) | Some Exit | Some (Call _) | Some (CallRel _)
      | Some (MayGoto _) => None
      | _ => again tracked
      end
  end.

(** * Successors and marks *)

Definition init_explored_state (env : Env) (pc : nat) : Env :=
  alter (fun a => MkAux true (jmp_point a) (force_checkpoint a)) pc env.
Definition mark_jmp_point (env : Env) (pc : nat) : Env :=
  alter (fun a => MkAux (prune_point a) true (force_checkpoint a)) pc env.
Definition mark_force_checkpoint (env : Env) (pc : nat) : Env :=
  alter (fun a => MkAux (prune_point a) (jmp_point a) true) pc env.
Definition mark_target (env : Env) (pc : nat) : Env := mark_jmp_point (init_explored_state env pc) pc.

Definition cb_reg (ctx : Ctx) (kind : CallKind) : option Reg :=
  match kind with
  | Helper id => callback_arg_reg id
  | Kfunc btf_id _ =>
      match kfunc_name ctx btf_id with Some name => kfunc_callback_arg_reg name | None => None end
  end.

Definition is_iter_next (ctx : Ctx) (kind : CallKind) : bool :=
  match kind with
  | Kfunc btf_id _ =>
      match kfunc_name ctx btf_id with Some name => bool_decide (name ∈ iter_next_kfuncs) | None => false end
  | Helper _ => false
  end.

(** The callback of a call, and the call as a checkpoint. *)
Definition visit_callback (ctx : Ctx) (prog : Program) (pc : nat) (kind : CallKind) (env : Env) : Env * list nat :=
  match cb_reg ctx kind with
  | Some r =>
      match find_pseudo_func_for_call prog pc r with
      | Some target =>
          let '(env, succs) :=
            if (target <? length (instrs prog))%nat then (init_explored_state env target, [target]) else (env, []) in
          (mark_force_checkpoint env pc, succs)
      | None => (env, [])
      end
  | None => (env, [])
  end.

Definition visit_insn (ctx : Ctx) (prog : Program) (env : Env) (pc : nat) : Env * list nat :=
  let n := length (instrs prog) in
  let next := if (S pc <? n)%nat then [S pc] else [] in
  let mark_next (mark : Env -> nat -> Env) (env : Env) := if (S pc <? n)%nat then mark env (S pc) else env in
  match instrs prog !! pc with
  | None | Some Exit => (env, [])
  | Some (Call kind) =>
      let '(env, succs) := visit_callback ctx prog pc kind env in
      let env := if is_iter_next ctx kind then mark_force_checkpoint (init_explored_state env pc) pc else env in
      (mark_next mark_target env, succs ++ next)
  | Some (Jmp target) => (mark_next init_explored_state (mark_target env target), [target])
  | Some (If _ _ _ _ target) => (mark_target (init_explored_state env pc) target, next ++ [target])
  | Some (MayGoto target) =>
      let env := mark_next mark_target (init_explored_state env pc) in
      (mark_force_checkpoint (mark_target env target) pc, next ++ [target])
  | Some (CallRel target) =>
      (mark_next mark_target (mark_target (init_explored_state env pc) target), target :: next)
  | Some _ => (env, next)
  end.

(** * Loops *)

Definition get_successors (prog : Program) (pc : nat) : list nat :=
  let next := if (S pc <? length (instrs prog))%nat then [S pc] else [] in
  match instrs prog !! pc with
  | None | Some Exit => []
  | Some (Jmp target) => [target]
  | Some (If _ _ _ _ target) | Some (MayGoto target) => target :: next
  | Some _ => next
  end.

Definition is_visited (visited : list bool) (pc : nat) : bool := default false (visited !! pc).

(** [None]: out of fuel. *)
Fixpoint has_path_to (fuel : nat) (prog : Program) (target : nat) (visited : list bool) (stack : list nat)
  : option bool :=
  match stack with
  | [] => Some false
  | node :: stack =>
      match fuel with
      | O => None
      | S fuel =>
          if (node =? target)%nat then Some true
          else if (length (instrs prog) <=? node)%nat || is_visited visited node
          then has_path_to fuel prog target visited stack
          else
            let visited := <[node := true]> visited in
            has_path_to fuel prog target visited
              (rev (filter (fun s => is_visited visited s = false) (get_successors prog node)) ++ stack)
      end
  end.

Definition path_fuel (prog : Program) : nat := S (S (3 * length (instrs prog))).

Definition is_real_loop (prog : Program) (back_edge_src back_edge_tgt : nat) : option bool :=
  has_path_to (path_fuel prog) prog back_edge_src (replicate (length (instrs prog)) false) [back_edge_tgt].

Definition jump_target (i : Instr) : option nat :=
  match i with Jmp target | If _ _ _ _ target => Some target | _ => None end.

Definition back_edge (prog : Program) (pc : nat) : option (nat * nat) :=
  match instrs prog !! pc with
  | Some i =>
      match jump_target i with
      | Some target =>
          if (target <? pc)%nat && default false (is_real_loop prog pc target) then Some (pc, target) else None
      | None => None
      end
  | None => None
  end.

Definition collect_loop_back_edges (prog : Program) : list (nat * nat) :=
  omap (back_edge prog) (seq 0 (length (instrs prog))).

Definition jump_over (prog : Program) (be : nat * nat) (pc : nat) : option (nat * nat) :=
  match instrs prog !! pc with
  | Some i =>
      match jump_target i with
      | Some target => if (pc <? be.2)%nat && (target =? be.1)%nat then Some (pc, target) else None
      | None => None
      end
  | None => None
  end.

Definition check_jump_into_loop_middle (prog : Program) : option (nat * nat) :=
  head (flat_map (fun be => omap (jump_over prog be) (seq 0 (length (instrs prog))))
    (collect_loop_back_edges prog)).

(** * The search *)

Inductive VisitState : Type := Unvisited | Discovered | Explored.
#[export] Instance VisitState_eq_dec : EqDecision VisitState.
Proof. solve_decision. Defined.

Inductive CfgError : Type :=
| BackEdge (from_pc to_pc : nat) | JumpOutOfBounds (pc : nat) | UnreachableInsn (pc : nat).

(** The first successor that is new, unless one before it lies outside of the program. *)
Inductive follow_result : Type := NoChild | Child (succ : nat) | Outside.
Fixpoint follow (n : nat) (state : list VisitState) (succs : list nat) : follow_result :=
  match succs with
  | [] => NoChild
  | succ :: rest =>
      if (n <=? succ)%nat then Outside
      else if decide (state !! succ = Some Unvisited) then Child succ else follow n state rest
  end.

(** [None]: out of fuel. *)
Fixpoint dfs (fuel : nat) (ctx : Ctx) (prog : Program) (env : Env) (state : list VisitState) (stack : list nat)
  : option (Env * (CfgError + list VisitState)) :=
  match stack with
  | [] => Some (env, inr state)
  | pc :: rest =>
      match fuel with
      | O => None
      | S fuel =>
          let '(env, succs) := visit_insn ctx prog env pc in
          match follow (length (instrs prog)) state succs with
          | Outside => Some (env, inl (JumpOutOfBounds pc))
          | Child succ => dfs fuel ctx prog env (<[succ := Discovered]> state) (succ :: stack)
          | NoChild => dfs fuel ctx prog env (<[pc := Explored]> state) rest
          end
      end
  end.

Definition roots (ctx : Ctx) : list nat :=
  0%nat :: match exception_callback ctx with
           | Some cb_name =>
               omap (fun e => if String.eqb e.2 cb_name then Some e.1 else None) (pc_to_subprog_name ctx)
           | None => []
           end.

Definition seed (n : nat) (acc : Env * list VisitState * list nat) (root : nat) : Env * list VisitState * list nat :=
  let '(env, state, stack) := acc in
  if (root <? n)%nat && bool_decide (state !! root = Some Unvisited)
  then (init_explored_state env root, <[root := Discovered]> state, root :: stack) else acc.

Definition has_callrel (prog : Program) : bool :=
  existsb (fun i => match i with CallRel _ => true | _ => false end) (instrs prog).

(** The first instruction that was not visited. *)
Fixpoint first_unvisited (pc : nat) (state : list VisitState) : option nat :=
  match state with
  | [] => None
  | Unvisited :: _ => Some pc
  | _ :: rest => first_unvisited (S pc) rest
  end.

Definition dfs_fuel (prog : Program) : nat := 2 * length (instrs prog).

Definition check_cfg (prog : Program) (ctx : Ctx) (require_single_loop_entry : bool) (env : Env)
  : option (Env * option CfgError) :=
  let n := length (instrs prog) in
  if (n =? 0)%nat then Some (env, None)
  else
    match (if require_single_loop_entry then check_jump_into_loop_middle prog else None) with
    | Some (from_pc, to_pc) => Some (env, Some (BackEdge from_pc to_pc))
    | None =>
        let '(env, state, stack) := foldl (seed n) (env, replicate n Unvisited, []) (roots ctx) in
        match dfs (dfs_fuel prog) ctx prog env state stack with
        | None => None
        | Some (env, inl e) => Some (env, Some e)
        | Some (env, inr state) =>
            if has_callrel prog then Some (env, UnreachableInsn <$> first_unvisited 0 state) else Some (env, None)
        end
    end.

End Cfg.
