(* ===== verification/CfgProps.v ===== *)
(** What the control-flow pass guarantees: the search ends and accepts exactly the programs without
    jumps out of the program and, if they have calls, without unreachable instructions; the marks are
    those of the reachable instructions; every way through the program keeps passing prune points;
    loops are found exactly. *)

From S2P Require Import Prelude Zone Ast Subprog Cfg.
From Stdlib Require Import ZArith Lia String.
From stdpp Require Import base numbers list strings relations.
Open Scope Z_scope.

Module CfgProps.
Import Zone(Reg(..)).
Import Ast Cfg.

(** * Paths between instructions *)

Definition flow (prog : Program) (pc pc' : nat) : Prop := pc' ∈ get_successors prog pc.

Lemma successors_outside prog pc : (length (instrs prog) <= pc)%nat -> get_successors prog pc = [].
Proof. intros H. unfold get_successors. by rewrite lookup_ge_None_2. Qed.

Lemma successors_length prog pc : (length (get_successors prog pc) <= 2)%nat.
Proof.
  unfold get_successors. destruct (instrs prog !! pc) as [i|], (S pc <? length (instrs prog))%nat;
    try destruct i; cbn; lia.
Qed.

Section Search.
Context (prog : Program) (start target : nat).
Let n := length (instrs prog).

Definition seen (visited : list bool) (pc : nat) : Prop := is_visited visited pc = true.
#[local] Instance seen_dec visited pc : Decision (seen visited pc).
Proof. unfold seen. apply _. Defined.

(** The set of visited nodes is closed up to the stack, avoids the target, and all is reachable. *)
Record search_inv (visited : list bool) (stack : list nat) : Prop := {
  si_len : length visited = n;
  si_target : ~ seen visited target;
  si_start : seen visited start \/ (n <= start)%nat \/ start ∈ stack;
  si_closed : forall v w, seen visited v -> flow prog v w -> seen visited w \/ (n <= w)%nat \/ w ∈ stack;
  si_reach : forall v, v ∈ stack -> rtc (flow prog) start v }.

Definition unseen (visited : list bool) : nat := sum_list_with (fun b : bool => if b then 0%nat else 1%nat) visited.

Lemma seen_insert visited v w : (v < length visited)%nat ->
  seen (<[v := true]> visited) w <-> w = v \/ seen visited w.
Proof.
  intros Hv. unfold seen, is_visited. destruct (decide (w = v)) as [->|].
  - rewrite list_lookup_insert_eq by done. cbn. naive_solver.
  - rewrite list_lookup_insert_ne by done. naive_solver.
Qed.

Lemma unseen_insert visited v : (v < length visited)%nat -> ~ seen visited v ->
  unseen visited = S (unseen (<[v := true]> visited)).
Proof.
  unfold unseen, seen, is_visited. revert v. induction visited as [|b l IH]; intros [|v] Hv Hs; cbn in *; try lia.
  - destruct b; [by destruct Hs|done].
  - rewrite (IH v); [by rewrite Nat.add_succ_r|lia|done].
Qed.

Lemma search_visit visited v stack : (v < n)%nat -> v <> target -> ~ seen visited v ->
  search_inv visited (v :: stack) ->
  let visited' := <[v := true]> visited in
  search_inv visited'
    (rev (filter (fun s => is_visited visited' s = false) (get_successors prog v)) ++ stack).
Proof.
  intros Hv Hne Hs [Hl Ht Hst Hc Hr] visited'.
  assert (forall w, seen visited' w <-> w = v \/ seen visited w) as Hseen by (intros; apply seen_insert; lia).
  assert (forall w, w ∈ rev (filter (fun s => is_visited visited' s = false) (get_successors prog v)) ++ stack <->
    (~ seen visited' w /\ flow prog v w) \/ w ∈ stack) as Hin.
  { intros w. rewrite elem_of_app, list_elem_of_In, <- in_rev, <- list_elem_of_In, list_elem_of_filter.
    unfold seen, flow. by rewrite not_true_iff_false. }
  split.
  - unfold visited'. by rewrite length_insert.
  - rewrite Hseen. naive_solver.
  - rewrite Hin, Hseen. destruct Hst as [?|[?|[->|?]%elem_of_cons]]; auto.
  - intros u w Hu Hw. rewrite Hin. destruct (decide (seen visited' w)) as [|Hn]; [by left|].
    apply Hseen in Hu as [->|Hu]; [auto|].
    destruct (Hc u w Hu Hw) as [?|[?|[->|?]%elem_of_cons]]; rewrite ?Hseen; auto.
  - intros w [[_ Hw]|Hw]%Hin; [|by apply Hr; right].
    eapply rtc_r; [apply Hr; left|done].
Qed.

Lemma search_skip visited v stack : (n <= v)%nat \/ seen visited v ->
  search_inv visited (v :: stack) -> search_inv visited stack.
Proof.
  intros Hv [Hl Ht Hs Hc Hr]. split; auto.
  - destruct Hs as [?|[?|[->|?]%elem_of_cons]]; naive_solver.
  - intros u w Hu Hw. destruct (Hc u w Hu Hw) as [?|[?|[->|?]%elem_of_cons]]; naive_solver.
  - intros u Hu. apply Hr. by right.
Qed.

Lemma search_done visited : (target < n)%nat -> search_inv visited [] -> ~ rtc (flow prog) start target.
Proof.
  intros Htn [Hl Ht Hs Hc _] Hp.
  assert (forall w, rtc (flow prog) start w -> seen visited w \/ (n <= w)%nat) as H.
  { apply rtc_ind_r.
    - destruct Hs as [?|[?|?%elem_of_nil]]; auto. done.
    - intros u w Hu Hw [Hs'|Ho].
      + destruct (Hc u w Hs' Hw) as [?|[?|?%elem_of_nil]]; auto. done.
      + unfold flow in Hw. rewrite successors_outside in Hw by done. by apply elem_of_nil in Hw. }
  destruct (H _ Hp); [done|lia].
Qed.

Lemma has_path_to_spec fuel visited stack : (target < n)%nat -> search_inv visited stack ->
  (3 * unseen visited + length stack < fuel)%nat ->
  exists b, has_path_to fuel prog target visited stack = Some b /\ (b = true <-> rtc (flow prog) start target).
Proof.
  intros Htn. revert visited stack. induction fuel as [|fuel IH]; intros visited stack Hi Hf; [lia|].
  destruct stack as [|v stack]; cbn [has_path_to].
  { exists false. split; [done|]. split; [done|]. intros Hp. by apply search_done in Hi. }
  destruct (Nat.eqb_spec v target) as [->|Hne].
  { exists true. split; [done|]. split; [|done]. intros _. apply (si_reach _ _ Hi). left. }
  cbn [length] in Hf. fold n.
  destruct (Nat.leb_spec n v) as [Ho|Hv]; cbn [orb].
  { apply IH; [|lia]. eapply search_skip; [|done]. by left. }
  destruct (is_visited visited v) eqn:Es.
  { apply IH; [|lia]. eapply search_skip; [|done]. by right. }
  assert (~ seen visited v) as Hs by (unfold seen; by rewrite Es).
  apply IH; [by apply search_visit|].
  pose proof (unseen_insert visited v) as Hu. rewrite (si_len _ _ Hi) in Hu. specialize (Hu Hv Hs).
  rewrite length_app, length_rev. pose proof (successors_length prog v).
  pose proof (length_filter (fun s => is_visited (<[v := true]> visited) s = false) (get_successors prog v)). lia.
Qed.
End Search.

(** The search for a loop decides whether there is one. *)
Lemma is_real_loop_spec prog src tgt : (src < length (instrs prog))%nat ->
  exists b, is_real_loop prog src tgt = Some b /\ (b = true <-> rtc (flow prog) tgt src).
Proof.
  intros Hs. unfold is_real_loop. set (n := length (instrs prog)).
  assert (forall w, ~ seen (replicate n false) w) as H.
  { intros w. unfold seen, is_visited. destruct (replicate n false !! w) eqn:E; [|done].
    by apply lookup_replicate in E as [-> _]. }
  apply (has_path_to_spec prog tgt src); [done| |].
  - split.
    + by rewrite length_replicate.
    + apply H.
    + right. right. left.
    + intros v w Hv. by apply H in Hv.
    + intros v Hv. apply list_elem_of_singleton in Hv as ->. apply rtc_refl.
  - assert (forall k, unseen (replicate k false) = k) as -> by (unfold unseen; induction k; cbn; congruence).
    unfold path_fuel. cbn [length]. lia.
Qed.

Definition in_loop (prog : Program) (b h : nat) : Prop :=
  exists i, instrs prog !! b = Some i /\ jump_target i = Some h /\ (h < b)%nat /\ rtc (flow prog) h b.

Lemma collect_spec prog b h : (b, h) ∈ collect_loop_back_edges prog <-> in_loop prog b h.
Proof.
  unfold collect_loop_back_edges, in_loop, back_edge. rewrite list_elem_of_omap. split.
  - intros (pc & [_ Hpc]%elem_of_seq & Hb). destruct (instrs prog !! pc) as [i|] eqn:Ei; [|done].
    destruct (jump_target i) as [t|] eqn:Et; [|done]. destruct (Nat.ltb_spec t pc); [|done].
    destruct (is_real_loop_spec prog pc t Hpc) as ([] & Hl & Hr); rewrite Hl in Hb; [|done].
    cbn in Hb. simplify_eq. exists i. naive_solver.
  - intros (i & Hi & Ht & Hlt & Hp). exists b. split; [apply elem_of_seq; apply lookup_lt_Some in Hi; lia|].
    rewrite Hi, Ht. destruct (Nat.ltb_spec h b); [|lia].
    destruct (is_real_loop_spec prog b h) as (r & -> & Hr); [by eapply lookup_lt_Some|].
    by rewrite (proj2 Hr Hp).
Qed.

(** The back edges that are collected are exactly the jumps and branches backwards from which control
    can come back to them, and the check for jumps into a loop reports one exactly when a jump or
    branch in front of the head of a loop goes to its back edge. *)
Theorem loops_exact prog :
  (forall b h, (b, h) ∈ collect_loop_back_edges prog <-> in_loop prog b h) /\
  (forall a b, check_jump_into_loop_middle prog = Some (a, b) ->
     exists h i, in_loop prog b h /\ (a < h)%nat /\ instrs prog !! a = Some i /\ jump_target i = Some b) /\
  (check_jump_into_loop_middle prog = None <->
     forall a b h i, in_loop prog b h -> instrs prog !! a = Some i -> jump_target i = Some b -> (h <= a)%nat).
Proof.
  assert (forall a b, (a, b) ∈ flat_map (fun be => omap (jump_over prog be) (seq 0 (length (instrs prog))))
      (collect_loop_back_edges prog) <->
    exists h i, in_loop prog b h /\ (a < h)%nat /\ instrs prog !! a = Some i /\ jump_target i = Some b) as H.
  { intros a b. rewrite list_elem_of_In, in_flat_map. setoid_rewrite <- list_elem_of_In. split.
    - intros ([b' h] & Hbe & (pc & _ & Hj)%list_elem_of_omap). apply collect_spec in Hbe. unfold jump_over in Hj.
      destruct (instrs prog !! pc) as [i|] eqn:Ei; [|done]. destruct (jump_target i) as [t|] eqn:Et; [|done].
      cbn [fst snd] in Hj. destruct (Nat.ltb_spec pc h), (Nat.eqb_spec t b'); cbn in Hj; simplify_eq. eauto 10.
    - intros (h & i & Hl & Ha & Hi & Ht). exists (b, h). split; [by apply collect_spec|].
      apply list_elem_of_omap. exists a. split; [apply elem_of_seq; apply lookup_lt_Some in Hi; lia|].
      unfold jump_over. rewrite Hi, Ht. cbn [fst snd]. rewrite Nat.eqb_refl. destruct (Nat.ltb_spec a h); [done|lia]. }
  unfold check_jump_into_loop_middle. split; [apply collect_spec|].
  destruct (flat_map _ _) as [|[a b] l]; cbn [head]; split.
  - done.
  - split; [|done]. intros _ a b h i Hl Hi Ht. destruct (decide (a < h)%nat) as [Ha|]; [exfalso|lia].
    assert ((a, b) ∈ @nil (nat * nat)) as Hn by (apply H; eauto 10). by apply elem_of_nil in Hn.
  - intros a' b' [= <- <-]. apply H. left.
  - split; [done|]. intros Hn. destruct (proj1 (H a b)) as (h & i & Hl & Ha & Hi & Ht); [left|].
    specialize (Hn a b h i Hl Hi Ht). lia.
Qed.

(** * The search over the program *)

Section Dfs.
Context (ctx : Ctx) (prog : Program).
Let n := length (instrs prog).

Definition edge (pc pc' : nat) : Prop := pc' ∈ (visit_insn ctx prog [] pc).2.

Definition reachable (pc : nat) : Prop :=
  exists root, root ∈ roots ctx /\ (root < n)%nat /\ rtc edge root pc.

Lemma visit_succs env pc : (visit_insn ctx prog env pc).2 = (visit_insn ctx prog [] pc).2.
Proof.
  unfold visit_insn, visit_callback. destruct (instrs prog !! pc) as [i|]; [|done].
  destruct i; try done. destruct (cb_reg ctx kind); [|done].
  destruct (find_pseudo_func_for_call prog pc _); [|done]. by destruct (_ <? _)%nat.
Qed.

Lemma follow_spec state succs :
  match follow n state succs with
  | NoChild => forall w, w ∈ succs -> (w < n)%nat /\ state !! w <> Some Unvisited
  | Child w => w ∈ succs /\ (w < n)%nat /\ state !! w = Some Unvisited
  | Outside => exists w, w ∈ succs /\ (n <= w)%nat
  end.
Proof.
  induction succs as [|s succs IH]; cbn [follow]; [by intros w ?%elem_of_nil|].
  destruct (Nat.leb_spec n s); [exists s; split; [left|done]|].
  destruct (decide (state !! s = Some Unvisited)); [split_and!; [left|done|done]|].
  destruct (follow n state succs).
  - intros w [->|Hw]%elem_of_cons; auto.
  - destruct IH as (? & ? & ?). split_and!; [by right|done|done].
  - destruct IH as (w & ? & ?). exists w. split; [by right|done].
Qed.

(** What the search keeps. *)
Record dfs_inv (state : list VisitState) (stack : list nat) : Prop := {
  di_len : length state = n;
  di_closed : forall pc w, state !! pc = Some Explored -> edge pc w -> (w < n)%nat /\ state !! w <> Some Unvisited;
  di_stack : forall pc, state !! pc = Some Discovered -> pc ∈ stack;
  di_bound : forall pc, pc ∈ stack -> (pc < n)%nat /\ reachable pc;
  di_reach : forall pc, (pc < n)%nat -> state !! pc <> Some Unvisited -> reachable pc;
  di_roots : forall r, r ∈ roots ctx -> (r < n)%nat -> state !! r <> Some Unvisited }.

Definition remaining (state : list VisitState) : nat :=
  sum_list_with (fun v => match v with Unvisited => 1%nat | _ => 0%nat end) state.

Lemma remaining_insert state pc v : state !! pc = Some Unvisited -> v <> Unvisited ->
  remaining state = S (remaining (<[pc := v]> state)).
Proof.
  unfold remaining. revert pc. induction state as [|a state IH]; intros [|pc] H Hv; cbn in *; simplify_eq.
  - by destruct v.
  - rewrite (IH pc) by done. by rewrite Nat.add_succ_r.
Qed.

Lemma remaining_explored state pc : state !! pc <> Some Unvisited -> (pc < length state)%nat ->
  remaining (<[pc := Explored]> state) = remaining state.
Proof.
  unfold remaining. revert pc. induction state as [|a state IH]; intros [|pc] H Hv; cbn in *; try lia.
  - by destruct a.
  - f_equal. apply IH; [done|lia].
Qed.

Lemma dfs_push state stack pc w : dfs_inv state (pc :: stack) -> edge pc w -> (w < n)%nat ->
  state !! w = Some Unvisited -> dfs_inv (<[w := Discovered]> state) (w :: pc :: stack).
Proof.
  intros [Hl Hc Hs Hb Hr Ho] He Hw Hu.
  assert (forall q, <[w := Discovered]> state !! q = Some Unvisited -> state !! q = Some Unvisited) as Hk.
  { intros q. destruct (decide (q = w)) as [->|]; [done|]. by rewrite list_lookup_insert_ne. }
  assert (reachable w) as Hrw.
  { destruct (Hb pc) as [_ (r & ? & ? & ?)]; [left|]. exists r. split_and!; auto. by eapply rtc_r. }
  split.
  - by rewrite length_insert.
  - intros q v Hq Hv. destruct (decide (q = w)) as [->|].
    + rewrite list_lookup_insert_eq in Hq by lia. done.
    + rewrite list_lookup_insert_ne in Hq by done. destruct (Hc q v Hq Hv). auto.
  - intros q Hq. destruct (decide (q = w)) as [->|]; [left|right]. rewrite list_lookup_insert_ne in Hq by done. auto.
  - intros q [->|Hq]%elem_of_cons; auto.
  - intros q Hq Hn. destruct (decide (q = w)) as [->|]; [done|]. rewrite list_lookup_insert_ne in Hn by done. auto.
  - intros r Hr1 Hr2. specialize (Ho r Hr1 Hr2). auto.
Qed.

Lemma dfs_pop state stack pc : dfs_inv state (pc :: stack) ->
  (forall w, edge pc w -> (w < n)%nat /\ state !! w <> Some Unvisited) ->
  dfs_inv (<[pc := Explored]> state) stack.
Proof.
  intros [Hl Hc Hs Hb Hr Ho] He. destruct (Hb pc) as [Hpc Hrp]; [left|].
  assert (forall q, <[pc := Explored]> state !! q = Some Unvisited -> state !! q = Some Unvisited) as Hk.
  { intros q. destruct (decide (q = pc)) as [->|]; [rewrite list_lookup_insert_eq by lia; done|].
    by rewrite list_lookup_insert_ne. }
  split.
  - by rewrite length_insert.
  - intros q v Hq Hv. enough ((v < n)%nat /\ state !! v <> Some Unvisited) by naive_solver.
    destruct (decide (q = pc)) as [->|]; [auto|]. rewrite list_lookup_insert_ne in Hq by done. eauto.
  - intros q Hq. destruct (decide (q = pc)) as [->|].
    + rewrite list_lookup_insert_eq in Hq by lia. done.
    + rewrite list_lookup_insert_ne in Hq by done. apply Hs in Hq as [->|?]%elem_of_cons; done.
  - intros q Hq. apply Hb. by right.
  - intros q Hq Hn. destruct (decide (q = pc)) as [->|]; [done|]. rewrite list_lookup_insert_ne in Hn by done. auto.
  - intros r Hr1 Hr2. specialize (Ho r Hr1 Hr2). auto.
Qed.

(** At the end the visited instructions are the reachable ones, and they stay in the program. *)
Lemma dfs_done state : dfs_inv state [] ->
  (forall pc w, reachable pc -> edge pc w -> (w < n)%nat) /\
  (forall pc, (pc < n)%nat -> reachable pc <-> state !! pc <> Some Unvisited) /\
  (forall pc, reachable pc -> state !! pc = Some Explored).
Proof.
  intros [Hl Hc Hs Hb Hr Ho].
  assert (forall pc, (pc < n)%nat -> state !! pc <> Some Unvisited -> state !! pc = Some Explored) as Hex.
  { intros pc Hpc Hn. destruct (lookup_lt_is_Some_2 state pc) as [v Hv]; [lia|]. destruct v; [done| |done].
    by apply Hs, elem_of_nil in Hv. }
  assert (forall pc, reachable pc -> state !! pc = Some Explored) as H.
  { intros pc (r & Hr1 & Hr2 & Hp). revert pc Hp. apply rtc_ind_r; [auto|].
    intros pc w _ Hw IH. destruct (Hc pc w IH Hw). auto. }
  split_and!; [|intros pc Hpc; split; [intros Hp%H; by rewrite Hp|auto]|done].
  intros pc w Hp Hw. by destruct (Hc pc w (H pc Hp) Hw).
Qed.

(** ** Marks *)

Definition has (f : InsnAux -> bool) (env : Env) (q : nat) : Prop := exists a, env !! q = Some a /\ f a = true.

Lemma has_alter f g p env q : has f (alter g p env) q <->
  (q = p /\ exists a, env !! p = Some a /\ f (g a) = true) \/ (q <> p /\ has f env q).
Proof.
  unfold has. destruct (decide (q = p)) as [->|Hn].
  - rewrite list_lookup_alter_eq. destruct (env !! p); cbn; naive_solver.
  - rewrite list_lookup_alter_ne by done. naive_solver.
Qed.

(** Setting the flag [f] at [p]. *)
Lemma has_set f g p env q : (forall a, f (g a) = true) ->
  has f (alter g p env) q <-> has f env q \/ (q = p /\ (q < length env)%nat).
Proof.
  intros Hg. rewrite has_alter. destruct (decide (q = p)) as [->|Hn]; [|naive_solver]. split.
  - intros [[_ (a & Ha & _)]|]; [|naive_solver]. right. split; [done|by eapply lookup_lt_Some].
  - intros H. left. split; [done|]. assert (exists a, env !! p = Some a) as [a Ha].
    { destruct H as [(a & Ha & _)|[_ Hl]]; [eauto|by apply lookup_lt_is_Some_2]. }
    eauto.
Qed.

Lemma has_keep f g p env q : (forall a, f (g a) = f a) -> has f (alter g p env) q <-> has f env q.
Proof.
  intros Hg. rewrite has_alter. destruct (decide (q = p)) as [->|Hn]; [|naive_solver]. unfold has.
  setoid_rewrite Hg. naive_solver.
Qed.

Definition next_pc (pc : nat) : list nat := if (S pc <? n)%nat then [S pc] else [].
Definition callback (pc : nat) (kind : CallKind) : option nat :=
  match cb_reg ctx kind with Some r => find_pseudo_func_for_call prog pc r | None => None end.

(** What the instruction at [pc] marks. *)
Definition prunes (pc : nat) : list nat :=
  match instrs prog !! pc with
  | Some (Call kind) =>
      match callback pc kind with Some t => if (t <? n)%nat then [t] else [] | None => [] end ++
      (if is_iter_next ctx kind then [pc] else []) ++ next_pc pc
  | Some (Jmp t) => t :: next_pc pc
  | Some (If _ _ _ _ t) => [pc; t]
  | Some (MayGoto t) | Some (CallRel t) => pc :: t :: next_pc pc
  | _ => []
  end.
Definition jumps (pc : nat) : list nat :=
  match instrs prog !! pc with
  | Some (Call _) => next_pc pc
  | Some (Jmp t) | Some (If _ _ _ _ t) => [t]
  | Some (MayGoto t) | Some (CallRel t) => t :: next_pc pc
  | _ => []
  end.
Definition checkpoints (pc : nat) : list nat :=
  match instrs prog !! pc with
  | Some (Call kind) =>
      match callback pc kind with Some _ => [pc] | None => [] end ++ (if is_iter_next ctx kind then [pc] else [])
  | Some (MayGoto _) => [pc]
  | _ => []
  end.

Definition marks (f : InsnAux -> bool) (mk : nat -> list nat) : Prop := forall env pc q,
  length (visit_insn ctx prog env pc).1 = length env /\
  (has f (visit_insn ctx prog env pc).1 q <-> has f env q \/ (q ∈ mk pc /\ (q < length env)%nat)).

Ltac marks_tac :=
  intros env pc q;
  unfold visit_insn, visit_callback, prunes, jumps, checkpoints, next_pc, callback,
    mark_target, init_explored_state, mark_jmp_point, mark_force_checkpoint;
  fold n; destruct (instrs prog !! pc) as [i|]; [|set_solver];
  destruct i; try (cbn; set_solver);
  repeat match goal with
  | |- context [cb_reg ctx ?k] => destruct (cb_reg ctx k)
  | |- context [find_pseudo_func_for_call ?p ?c ?r] => destruct (find_pseudo_func_for_call p c r)
  | |- context [is_iter_next ctx ?k] => destruct (is_iter_next ctx k)
  | |- context [(?a <? n)%nat] => destruct (a <? n)%nat
  end; cbn [fst];
  repeat first [rewrite has_set by done | rewrite has_keep by done | rewrite length_alter];
  (split; [done|]); set_solver.

Lemma prunes_marks : marks prune_point prunes.
Proof. marks_tac. Qed.
Lemma jumps_marks : marks jmp_point jumps.
Proof. marks_tac. Qed.
Lemma checkpoints_marks : marks force_checkpoint checkpoints.
Proof. marks_tac. Qed.

(** ** The loop *)

Record marked (f : InsnAux -> bool) (mk : nat -> list nat) (env0 env : Env) (state : list VisitState) : Prop := {
  mk_len : length env = length env0;
  mk_only : forall q, has f env q -> has f env0 q \/ exists pc, reachable pc /\ q ∈ mk pc;
  mk_keep : forall q, has f env0 q -> has f env q;
  mk_all : forall pc q, state !! pc = Some Explored -> q ∈ mk pc -> (q < length env0)%nat -> has f env q }.

Definition dfs_ends (f : InsnAux -> bool) (mk : nat -> list nat) (env0 env : Env)
  (r : CfgError + list VisitState) : Prop :=
  match r with
  | inl e => exists pc w, e = JumpOutOfBounds pc /\ reachable pc /\ edge pc w /\ (n <= w)%nat
  | inr state => dfs_inv state [] /\ marked f mk env0 env state
  end.

Lemma dfs_spec f mk env0 fuel env state stack : marks f mk -> dfs_inv state stack ->
  marked f mk env0 env state -> (2 * remaining state + length stack <= fuel)%nat ->
  exists env' r, dfs fuel ctx prog env state stack = Some (env', r) /\ dfs_ends f mk env0 env' r.
Proof.
  intros Hm. revert env state stack. induction fuel as [|fuel IH]; intros env state [|pc stack] Hi Hk Hf;
    cbn [length] in Hf; try lia; cbn [dfs]; [by eexists _, _|by eexists _, _|].
  destruct (Hm env pc 0%nat) as [Hlen _]. pose proof (fun q => proj2 (Hm env pc q)) as Hv.
  pose proof (visit_succs env pc) as Hs. destruct (visit_insn ctx prog env pc) as [env1 succs]. cbn [fst snd] in *.
  fold n. pose proof (follow_spec state succs) as Hfol. rewrite Hs in *. fold n in Hfol.
  destruct (di_bound _ _ Hi pc) as [Hpc Hrp]; [left|]. destruct Hk as [K1 K2 K3 K4].
  assert (forall q, has f env1 q -> has f env0 q \/ exists pc, reachable pc /\ q ∈ mk pc) as Honly.
  { intros q [?|[? _]]%Hv; eauto. }
  assert (forall q, has f env q -> has f env1 q) as Hkeep by (intros q ?; apply Hv; auto).
  destruct (follow n state _) as [|w|] eqn:Ef.
  - apply IH.
    + by apply dfs_pop.
    + split; [congruence|done|auto|]. intros q q' Hq Hq' Hl. destruct (decide (q = pc)) as [->|].
      * apply Hv. right. split; [done|congruence].
      * rewrite list_lookup_insert_ne in Hq by done. eauto.
    + destruct (decide (state !! pc = Some Unvisited)) as [Hu|Hu].
      * pose proof (remaining_insert state pc Explored Hu). naive_solver lia.
      * rewrite remaining_explored; [lia|done|]. by rewrite (di_len _ _ Hi).
  - destruct Hfol as (Hw & Hwn & Hwu). apply IH.
    + by apply dfs_push.
    + split; [congruence|done|auto|]. intros q q' Hq Hq' Hl. destruct (decide (q = w)) as [->|].
      * rewrite list_lookup_insert_eq in Hq by (by rewrite (di_len _ _ Hi)). done.
      * rewrite list_lookup_insert_ne in Hq by done. eauto.
    + pose proof (remaining_insert state w Discovered Hwu). cbn [length]. naive_solver lia.
  - destruct Hfol as (w & Hw & Hwn). eexists _, _. split; [done|]. exists pc, w. done.
Qed.

(** ** Roots *)

Definition seeded (env : Env) : Env * list VisitState * list nat :=
  foldl (seed n) (env, replicate n Unvisited, []) (roots ctx).

Record seed_inv (env : Env) (seen : list nat) (acc : Env * list VisitState * list nat) : Prop := {
  sd_env : length acc.1.1 = length env;
  sd_len : length acc.1.2 = n;
  sd_new : forall pc v, acc.1.2 !! pc = Some v -> v = Unvisited \/ (v = Discovered /\ pc ∈ acc.2);
  sd_stack : forall pc, pc ∈ acc.2 -> pc ∈ roots ctx /\ (pc < n)%nat;
  sd_seen : forall r, r ∈ seen -> (r < n)%nat -> acc.1.2 !! r <> Some Unvisited;
  sd_prune : forall q, has prune_point acc.1.1 q <-> has prune_point env q \/ (q ∈ acc.2 /\ (q < length env)%nat);
  sd_others : forall f, (forall a, f (MkAux true (jmp_point a) (force_checkpoint a)) = f a) ->
    forall q, has f acc.1.1 q <-> has f env q;
  sd_count : (remaining acc.1.2 + length acc.2 = n)%nat }.

Lemma seed_step env seen acc root : root ∈ roots ctx -> seed_inv env seen acc ->
  seed_inv env (root :: seen) (seed n acc root).
Proof.
  intros Hroot [H1 H2 H3 H4 H5 H6 H7 H8]. destruct acc as [[e st] stack]. cbn [fst snd] in *. unfold seed.
  destruct (Nat.ltb_spec root n) as [Hr|Hr]; cbn [andb].
  2:{ split; cbn [fst snd]; auto. intros r [->|?]%elem_of_cons ?; [lia|auto]. }
  destruct (bool_decide_reflect (st !! root = Some Unvisited)) as [Hu|Hu].
  2:{ split; cbn [fst snd]; auto. intros r [->|?]%elem_of_cons ?; auto. }
  split; cbn [fst snd].
  - unfold init_explored_state. by rewrite length_alter.
  - by rewrite length_insert.
  - intros pc v Hv. destruct (decide (pc = root)) as [->|].
    + rewrite list_lookup_insert_eq in Hv by lia. simplify_eq. right. split; [done|left].
    + rewrite list_lookup_insert_ne in Hv by done. destruct (H3 _ _ Hv) as [?|[??]]; [by left|right].
      split; [done|by right].
  - intros pc [->|?]%elem_of_cons; auto.
  - intros r Hin Hrn. destruct (decide (r = root)) as [->|].
    + rewrite list_lookup_insert_eq by lia. done.
    + rewrite list_lookup_insert_ne by done. apply elem_of_cons in Hin as [->|?]; auto.
  - intros q. unfold init_explored_state. rewrite has_set by done. rewrite H6, H1, elem_of_cons. naive_solver.
  - intros f Hf q. unfold init_explored_state. rewrite has_keep by done. auto.
  - pose proof (remaining_insert st root Discovered Hu). cbn [length]. naive_solver lia.
Qed.

Lemma seeded_inv env : seed_inv env (rev (roots ctx)) (seeded env).
Proof.
  unfold seeded. assert (forall l seen acc, (forall r, r ∈ l -> r ∈ roots ctx) -> seed_inv env seen acc ->
    seed_inv env (rev l ++ seen) (foldl (seed n) acc l)) as H.
  { induction l as [|r l IH]; intros seen acc Hl Ha; cbn; [done|].
    rewrite <- app_assoc. apply IH; [intros; apply Hl; by right|]. apply seed_step; [apply Hl; left|done]. }
  rewrite <- (app_nil_r (rev (roots ctx))). apply H; [done|]. split; cbn [fst snd].
  - done.
  - by rewrite length_replicate.
  - intros pc v [-> _]%lookup_replicate. by left.
  - by intros pc ?%elem_of_nil.
  - by intros r ?%elem_of_nil.
  - intros q. rewrite elem_of_nil. naive_solver.
  - done.
  - rewrite Nat.add_0_r. unfold remaining. generalize n. intros k. induction k; cbn; congruence.
Qed.

Lemma seeded_dfs env : dfs_inv (seeded env).1.2 (seeded env).2.
Proof.
  destruct (seeded_inv env) as [H1 H2 H3 H4 H5 H6 H7 H8].
  assert (forall pc, pc ∈ (seeded env).2 -> reachable pc) as Hr.
  { intros pc [??]%H4. by exists pc. }
  split; [done| | |intros pc Hpc; split; [by apply H4|auto]| |].
  - intros pc w Hpc. apply H3 in Hpc. naive_solver.
  - intros pc Hpc. apply H3 in Hpc. naive_solver.
  - intros pc Hpc Hn. destruct (lookup_lt_is_Some_2 (seeded env).1.2 pc) as [v Hv]; [lia|].
    destruct (H3 _ _ Hv) as [->|[_ ?]]; [done|auto].
  - intros r Hin Hrn. apply H5; [|done]. by rewrite list_elem_of_In, <- in_rev, <- list_elem_of_In.
Qed.

Lemma first_unvisited_spec k state :
  match first_unvisited k state with
  | Some pc => exists j, pc = (k + j)%nat /\ state !! j = Some Unvisited
  | None => forall j, state !! j <> Some Unvisited
  end.
Proof.
  revert k. induction state as [|v state IH]; intros k; cbn; [done|].
  destruct v; [exists 0%nat; split; [lia|done]|..]; specialize (IH (S k));
    destruct (first_unvisited (S k) state) as [pc|];
    [destruct IH as (j & -> & Hj); exists (S j); split; [lia|done]|intros [|j]; [done|apply IH]|
     destruct IH as (j & -> & Hj); exists (S j); split; [lia|done]|intros [|j]; [done|apply IH]].
Qed.

(** What the check says, for one kind of mark. *)
Definition cfg_outcome (f : InsnAux -> bool) (mk : nat -> list nat) (single : bool) (env env' : Env)
  (r : option CfgError) : Prop :=
  match r with
  | None =>
      (single = true -> check_jump_into_loop_middle prog = None) /\
      (forall pc w, reachable pc -> edge pc w -> (w < n)%nat) /\
      (has_callrel prog = true -> forall pc, (pc < n)%nat -> reachable pc) /\
      length env' = length env /\
      forall q, has f env' q <->
        has f (seeded env).1.1 q \/ ((q < length env)%nat /\ exists pc, reachable pc /\ q ∈ mk pc)
  | Some (BackEdge a b) => single = true /\ check_jump_into_loop_middle prog = Some (a, b)
  | Some (JumpOutOfBounds pc) => reachable pc /\ exists w, edge pc w /\ (n <= w)%nat
  | Some (UnreachableInsn pc) => has_callrel prog = true /\ (pc < n)%nat /\ ~ reachable pc
  end.

Lemma check_cfg_outcome f mk single env : marks f mk ->
  exists env' r, check_cfg prog ctx single env = Some (env', r) /\ cfg_outcome f mk single env env' r.
Proof.
  intros Hm. unfold check_cfg. fold n. destruct (Nat.eqb_spec n 0) as [Hn|Hn].
  { assert (instrs prog = []) as He by (by apply nil_length_inv).
    assert (forall pc, ~ reachable pc) as Hnr by (intros pc (r & _ & ? & _); lia).
    exists env, None. split; [done|]. cbn. split_and!; try done.
    - intros _. unfold check_jump_into_loop_middle, collect_loop_back_edges. by rewrite He.
    - intros pc w Hp. by apply Hnr in Hp.
    - intros _ pc Hp. lia.
    - assert (forall l acc, foldl (seed 0) acc l = acc) as Hs.
      { induction l as [|x l IH]; intros [[e st] stack]; [done|]. apply IH. }
      intros q. unfold seeded. rewrite Hn, Hs. cbn. naive_solver. }
  destruct (if single then _ else None) as [[a b]|] eqn:El.
  { exists env, (Some (BackEdge a b)). split; [done|]. by destruct single. }
  assert (single = true -> check_jump_into_loop_middle prog = None) as Hloop by (by destruct single).
  pose proof (seeded_inv env) as Hsi. pose proof (seeded_dfs env) as Hsd. fold (seeded env).
  destruct (seeded env) as [[env1 state] stack] eqn:Es. cbn [fst snd] in *.
  destruct (dfs_spec f mk env1 (dfs_fuel prog) env1 state stack Hm Hsd) as (env' & r & -> & Hr).
  { split; [done|auto|auto|]. intros pc q Hpc. apply (sd_new _ _ _ Hsi) in Hpc. naive_solver. }
  { pose proof (sd_count _ _ _ Hsi) as Hc. cbn [fst snd] in Hc. unfold dfs_fuel. fold n. lia. }
  pose proof (sd_env _ _ _ Hsi) as Hle. cbn [fst snd] in Hle.
  destruct r as [e|st]; cbn in Hr.
  { destruct Hr as (pc & w & -> & ? & ? & ?). eexists _, _. split; [done|]. cbn. eauto. }
  destruct Hr as [Hdi [M1 M2 M3 M4]]. destruct (dfs_done st Hdi) as (D1 & D2 & D3).
  assert (forall q, has f env' q <-> has f env1 q \/ ((q < length env)%nat /\ exists pc, reachable pc /\ q ∈ mk pc)) as Hmarks.
  { intros q. split.
    - intros Hq. destruct (M2 q Hq) as [?|?]; [by left|right]. split; [|done].
      destruct Hq as (a & Ha & _). apply lookup_lt_Some in Ha. congruence.
    - intros [?|(Hq & pc & Hp & Hmk)]; [auto|]. apply (M4 pc); [auto|done|congruence]. }
  pose proof (first_unvisited_spec 0 st) as Hfu.
  destruct (has_callrel prog) eqn:Ec; [destruct (first_unvisited 0 st) as [pc|]|]; eexists _, _; (split; [done|]); cbn [cfg_outcome fmap option_fmap option_map].
  - destruct Hfu as (j & -> & Hj). assert (j < n)%nat by (rewrite <- (di_len _ _ Hdi); by eapply lookup_lt_Some).
    split; [done|]. split; [done|]. rewrite D2 by done. naive_solver.
  - split; [done|]. split; [done|]. split; [intros _ pc Hpc; by apply D2|]. split; [congruence|by rewrite Es].
  - split; [done|]. split; [done|]. split; [by rewrite Ec|]. split; [congruence|by rewrite Es].
Qed.

(** An edge goes to the next instruction or to a prune point. *)
Lemma edge_pruned pc w : edge pc w -> w = S pc \/ w ∈ prunes pc.
Proof.
  unfold edge, visit_insn, visit_callback, prunes, next_pc, callback. fold n.
  destruct (instrs prog !! pc) as [i|]; [|set_solver].
  destruct i; repeat match goal with
    | |- context [cb_reg ctx ?k] => destruct (cb_reg ctx k)
    | |- context [find_pseudo_func_for_call ?p ?c ?r] => destruct (find_pseudo_func_for_call p c r)
    | |- context [(?a <? n)%nat] => destruct (a <? n)%nat
    end; cbn; set_solver.
Qed.

Lemma jumps_pruned pc q : q ∈ jumps pc -> q ∈ prunes pc.
Proof. unfold jumps, prunes. destruct (instrs prog !! pc) as [i|]; [|done]. destruct i; set_solver. Qed.
End Dfs.

(** * Where control can go

    Read off the instructions alone, the step past the last instruction included. *)

Definition branch_target (i : Instr) : option nat :=
  match i with Jmp t | If _ _ _ _ t | MayGoto t | CallRel t => Some t | _ => None end.
Definition falls_through (i : Instr) : bool := match i with Exit | Jmp _ => false | _ => true end.

Inductive goes (ctx : Ctx) (prog : Program) (pc : nat) : nat -> Prop :=
| goes_target i t : instrs prog !! pc = Some i -> branch_target i = Some t -> goes ctx prog pc t
| goes_next i : instrs prog !! pc = Some i -> falls_through i = true -> goes ctx prog pc (S pc)
| goes_callback kind t : instrs prog !! pc = Some (Call kind) -> callback ctx prog pc kind = Some t ->
    goes ctx prog pc t.

(** Inside a function: without the targets of calls. *)
Inductive goes_locally (prog : Program) (pc : nat) : nat -> Prop :=
| local_target i t : instrs prog !! pc = Some i -> branch_target i = Some t -> i <> CallRel t ->
    goes_locally prog pc t
| local_next i : instrs prog !! pc = Some i -> falls_through i = true -> goes_locally prog pc (S pc).

(** An instruction of the program that control can reach from the entry or an exception callback. *)
Definition reached (ctx : Ctx) (prog : Program) (pc : nat) : Prop :=
  (pc < length (instrs prog))%nat /\
  exists root, root ∈ roots ctx /\ (root < length (instrs prog))%nat /\ rtc (goes ctx prog) root pc.

(** A jump or branch at [b] backwards to [h] from where control comes back to it. *)
Definition loop_jump (prog : Program) (b h : nat) : Prop :=
  exists i, instrs prog !! b = Some i /\ jump_target i = Some h /\ (h < b)%nat /\ rtc (goes_locally prog) h b.

(** Two relations that agree up to steps out of the program have the same paths in it. *)
Lemma rtc_inside (R R' : nat -> nat -> Prop) (n : nat) :
  (forall x y, (y < n)%nat -> R x y -> R' x y) -> (forall x y, R x y -> (x < n)%nat) ->
  forall x y, (y < n)%nat -> rtc R x y -> rtc R' x y.
Proof.
  intros Hin Hdom x y Hy. induction 1 as [x|x w y Hxw Hwy IH]; [constructor|]. eapply rtc_l; [|auto].
  apply Hin; [|done]. destruct Hwy as [|w u y Hwu]; [done|]. by eapply Hdom.
Qed.

Section Control.
Context (ctx : Ctx) (prog : Program).
Let n := length (instrs prog).

Lemma goes_domain pc w : goes ctx prog pc w -> (pc < n)%nat.
Proof. destruct 1; by eapply lookup_lt_Some. Qed.
Lemma local_domain pc w : goes_locally prog pc w -> (pc < n)%nat.
Proof. destruct 1; by eapply lookup_lt_Some. Qed.
Lemma flow_domain pc w : flow prog pc w -> (pc < n)%nat.
Proof.
  intros H. destruct (decide (pc < n)%nat); [done|]. unfold flow in H.
  rewrite successors_outside in H by (unfold n in *; lia). by apply elem_of_nil in H.
Qed.
Lemma edge_domain pc w : edge ctx prog pc w -> (pc < n)%nat.
Proof.
  unfold edge, visit_insn. destruct (instrs prog !! pc) eqn:E; [intros _; by eapply lookup_lt_Some|].
  intros H. by apply elem_of_nil in H.
Qed.

(** The successors the search follows are the places where control can go, but for the step past the
    last instruction and for callbacks outside of the program. *)
Lemma edge_goes pc w : edge ctx prog pc w <->
  (exists i, instrs prog !! pc = Some i /\ branch_target i = Some w) \/ ((w < n)%nat /\ goes ctx prog pc w).
Proof.
  unfold edge, visit_insn, visit_callback. fold n. split.
  - destruct (instrs prog !! pc) as [i|] eqn:Ei; [|intros H; by apply elem_of_nil in H].
    assert (falls_through i = true -> w ∈ (if (S pc <? n)%nat then [S pc] else []) ->
      (w < n)%nat /\ goes ctx prog pc w) as Hnext.
    { intros Hf. destruct (Nat.ltb_spec (S pc) n); [|by intros ?%elem_of_nil].
      intros ->%list_elem_of_singleton. split; [done|]. by eapply goes_next. }
    destruct i; cbn [snd falls_through] in *; try (intros H; right; by apply Hnext).
    + rewrite elem_of_app, list_elem_of_singleton. intros [?| ->]; [right; auto|left; eauto].
    + intros ->%list_elem_of_singleton. left. eauto.
    + rewrite elem_of_app, list_elem_of_singleton. intros [?| ->]; [right; auto|left; eauto].
    + destruct (cb_reg ctx kind) as [r|] eqn:Er; cbn [snd app]; [|intros; right; auto].
      destruct (find_pseudo_func_for_call prog pc r) as [t|] eqn:Ef; cbn [snd app]; [|intros; right; auto].
      destruct (Nat.ltb_spec t n); cbn [snd app]; [|intros; right; auto].
      intros [->|?]%elem_of_cons; [right|right; auto]. split; [done|]. eapply goes_callback; [done|].
      unfold callback. by rewrite Er.
    + intros [->|?]%elem_of_cons; [left; eauto|right; auto].
    + intros H. by apply elem_of_nil in H.
  - intros [(i & Hi & Ht)|[Hw Hg]].
    + rewrite Hi. destruct i; cbn in Ht; simplify_eq; cbn [snd]; set_solver.
    + revert Hw. destruct Hg as [i t Hi Ht|i Hi Hf|kind t Hi Hc]; intros Hw; rewrite Hi.
      * destruct i; cbn in Ht; simplify_eq; cbn [snd]; set_solver.
      * destruct (Nat.ltb_spec (S pc) n); [|lia].
        destruct i; cbn in Hf; simplify_eq; cbn [snd]; try set_solver.
        destruct (cb_reg ctx kind); [|set_solver]. destruct (find_pseudo_func_for_call prog pc r); [|set_solver].
        destruct (_ <? n)%nat; set_solver.
      * unfold callback in Hc. destruct (cb_reg ctx kind); [|done]. rewrite Hc.
        destruct (Nat.ltb_spec t n); [set_solver|lia].
Qed.

Lemma flow_goes pc w : (w < n)%nat -> flow prog pc w <-> goes_locally prog pc w.
Proof.
  intros Hw. unfold flow, get_successors. fold n. split.
  - destruct (instrs prog !! pc) as [i|] eqn:Ei; [|intros H; by apply elem_of_nil in H].
    assert (falls_through i = true -> w ∈ (if (S pc <? n)%nat then [S pc] else []) -> goes_locally prog pc w) as Hn.
    { intros Hf. destruct (Nat.ltb_spec (S pc) n); [|by intros ?%elem_of_nil].
      intros ->%list_elem_of_singleton. by eapply local_next. }
    destruct i; cbn [falls_through] in *; try (intros H; by apply Hn);
      try (intros [->|H]%elem_of_cons; [by eapply local_target|by auto]).
    + intros ->%list_elem_of_singleton. by eapply local_target.
    + intros H. by apply elem_of_nil in H.
  - intros Hg. revert Hw. destruct Hg as [i t Hi Ht Hc|i Hi Hf]; intros Hw; rewrite Hi.
    + destruct i; cbn in Ht; simplify_eq; set_solver.
    + destruct (Nat.ltb_spec (S pc) n); [|lia]. destruct i; cbn in Hf; simplify_eq; set_solver.
Qed.

Lemma edge_step pc w : edge ctx prog pc w -> goes ctx prog pc w.
Proof. intros [(i & Hi & Ht)|[_ ?]]%edge_goes; [by eapply goes_target|done]. Qed.

Lemma reached_reachable pc : (pc < n)%nat -> reached ctx prog pc <-> reachable ctx prog pc.
Proof.
  intros Hpc. split.
  - intros (_ & root & Hr & Hn & Hp). exists root. split_and!; [done|done|].
    eapply (rtc_inside (goes ctx prog)); [|apply goes_domain|exact Hpc|exact Hp].
    intros x y Hy Hg. apply edge_goes. by right.
  - intros (root & Hr & Hn & Hp). split; [done|]. exists root. split_and!; [done|done|].
    eapply (rtc_inside (edge ctx prog)); [|apply edge_domain|exact Hpc|exact Hp]. intros x y _. apply edge_step.
Qed.

Lemma reachable_inside pc w : reachable ctx prog pc -> edge ctx prog pc w -> reached ctx prog pc.
Proof. intros Hr He. apply reached_reachable; [by eapply edge_domain|done]. Qed.

Lemma loop_jump_spec b h : loop_jump prog b h <-> in_loop prog b h.
Proof.
  assert (forall i, instrs prog !! b = Some i -> (b < n)%nat) as Hb by (intros i ?; by eapply lookup_lt_Some).
  unfold loop_jump, in_loop. split; intros (i & Hi & Ht & Hlt & Hp); exists i; split_and!; try done.
  - eapply (rtc_inside (goes_locally prog)); [|apply local_domain|by eapply Hb|exact Hp].
    intros x y Hy. by apply flow_goes.
  - eapply (rtc_inside (flow prog)); [|apply flow_domain|by eapply Hb|exact Hp].
    intros x y Hy. by apply flow_goes.
Qed.

(** No successor outside of the program, said of the instructions. *)
Lemma edges_inside :
  (forall pc w, reachable ctx prog pc -> edge ctx prog pc w -> (w < n)%nat) <->
  (forall pc i t, reached ctx prog pc -> instrs prog !! pc = Some i -> branch_target i = Some t -> (t < n)%nat).
Proof.
  split.
  - intros H pc i t Hr Hi Ht. apply (H pc); [|apply edge_goes; left; eauto].
    apply reached_reachable; [apply Hr|done].
  - intros H pc w Hr He. pose proof (reachable_inside _ _ Hr He) as Hr'.
    apply edge_goes in He as [(i & Hi & Ht)|[? _]]; [|done]. by eapply H.
Qed.

Lemma has_callrel_spec : has_callrel prog = true <-> exists pc t, instrs prog !! pc = Some (CallRel t).
Proof.
  unfold has_callrel. rewrite existsb_exists. split.
  - intros (i & Hi & Hc). destruct i; try done. apply list_elem_of_In, list_elem_of_lookup in Hi as [pc ?]. eauto.
  - intros (pc & t & Hi). exists (CallRel t). split; [|done]. apply list_elem_of_In. by eapply list_elem_of_lookup_2.
Qed.
End Control.

(** C21. The control-flow check always ends.  It accepts a program exactly when no jump or branch in front of
    the head of a loop goes to the back edge of the loop (if that is asked for), the targets of all
    jumps, branches and calls that control can reach from the entry or the exception callback are in
    the program, and, in programs with calls, every instruction can be reached.  An error names an
    instruction at fault.  What the check does not look at: in an accepted program control may still
    leave it, but only by running past the last instruction or into a callback outside. *)
Theorem check_cfg_exact prog ctx single env : let n := length (instrs prog) in
  exists env' r, check_cfg prog ctx single env = Some (env', r) /\
  (r = None <->
     (single = true -> forall a b h i, loop_jump prog b h ->
        instrs prog !! a = Some i -> jump_target i = Some b -> (h <= a)%nat) /\
     (forall pc i t, reached ctx prog pc -> instrs prog !! pc = Some i -> branch_target i = Some t -> (t < n)%nat) /\
     ((exists pc t, instrs prog !! pc = Some (CallRel t)) -> forall pc, (pc < n)%nat -> reached ctx prog pc)) /\
  (r = None -> forall pc w, reached ctx prog pc -> goes ctx prog pc w -> (n <= w)%nat ->
     (w = n /\ pc = (n - 1)%nat) \/
     exists kind, instrs prog !! pc = Some (Call kind) /\ callback ctx prog pc kind = Some w) /\
  (forall a b, r = Some (BackEdge a b) ->
     single = true /\ exists h i, loop_jump prog b h /\ (a < h)%nat /\ instrs prog !! a = Some i /\ jump_target i = Some b) /\
  (forall pc, r = Some (JumpOutOfBounds pc) ->
     reached ctx prog pc /\ exists i t, instrs prog !! pc = Some i /\ branch_target i = Some t /\ (n <= t)%nat) /\
  (forall pc, r = Some (UnreachableInsn pc) -> (pc < n)%nat /\ ~ reached ctx prog pc).
Proof.
  intros n. destruct (check_cfg_outcome ctx prog _ _ single env (prunes_marks ctx prog)) as (env' & r & Hc & Ho).
  destruct (loops_exact prog) as (_ & Hfound & Hnone).
  exists env', r. split; [done|]. unfold cfg_outcome in Ho. fold n in Ho.
  pose proof (edges_inside ctx prog) as Hedges. fold n in Hedges. rewrite <- Hedges.
  setoid_rewrite <- has_callrel_spec. setoid_rewrite loop_jump_spec. rewrite <- Hnone.
  assert (forall pc, (pc < n)%nat -> reached ctx prog pc <-> reachable ctx prog pc) as Hreach by apply reached_reachable.
  split_and!.
  - destruct r as [[a b|pc|pc]|].
    + split; [done|]. intros (Hl & He & Hr). destruct Ho as [Hs Ho]. rewrite Hl in Ho by done. done.
    + split; [done|]. intros (Hl & He & Hr). destruct Ho as (Hp & w & Hw & Hn). specialize (He pc w Hp Hw). lia.
    + split; [done|]. intros (Hl & He & Hr). destruct Ho as (Hh & Hn & Hp). destruct Hp. apply Hreach; auto.
    + split; [|done]. intros _. destruct Ho as (Hs & He & Ha & _). split_and!; [done|done|].
      intros Hh pc Hpc. apply Hreach; auto.
  - intros -> pc w Hr Hg Hw. destruct Ho as (_ & He & _). rewrite Hedges in He.
    revert Hw. destruct Hg as [i t Hi Ht|i Hi Hf|kind t Hi Hcb]; intros Hw; [|left|right; eauto].
    + specialize (He pc i t Hr Hi Ht). lia.
    + apply lookup_lt_Some in Hi. lia.
  - intros a b ->. destruct Ho as [Hs Ho]. split; [done|]. by apply Hfound.
  - intros pc ->. destruct Ho as (Hp & w & Hw & Hn). split; [by eapply reachable_inside|].
    apply edge_goes in Hw as [(i & Hi & Ht)|[? _]]; [eauto|lia].
  - intros pc ->. destruct Ho as (_ & Hn & Hp). split; [done|]. by rewrite Hreach.
Qed.

(** C31. In an accepted program the prune points, jump points and forced checkpoints are those the data had
    before, the entry points among the prune points, and those the reachable instructions mark; and
    jump points are prune points if they were before. *)
Theorem cfg_marks_exact prog ctx single env env' :
  check_cfg prog ctx single env = Some (env', None) ->
  (forall q, has prune_point env' q <-> has prune_point env q \/ ((q < length env)%nat /\
     ((q ∈ roots ctx /\ (q < length (instrs prog))%nat) \/
      exists pc, reachable ctx prog pc /\ q ∈ prunes ctx prog pc))) /\
  (forall q, has jmp_point env' q <-> has jmp_point env q \/
     ((q < length env)%nat /\ exists pc, reachable ctx prog pc /\ q ∈ jumps prog pc)) /\
  (forall q, has force_checkpoint env' q <-> has force_checkpoint env q \/
     ((q < length env)%nat /\ exists pc, reachable ctx prog pc /\ q ∈ checkpoints ctx prog pc)) /\
  ((forall q, has jmp_point env q -> has prune_point env q) ->
    forall q, has jmp_point env' q -> has prune_point env' q).
Proof.
  intros Hc. pose proof (seeded_inv ctx prog env) as Hs.
  assert (forall f mk, marks ctx prog f mk -> forall q, has f env' q <->
    has f (seeded ctx prog env).1.1 q \/ ((q < length env)%nat /\ exists pc, reachable ctx prog pc /\ q ∈ mk pc)) as H.
  { intros f mk Hm. destruct (check_cfg_outcome ctx prog f mk single env Hm) as (e & r & Hc' & Ho).
    rewrite Hc in Hc'. injection Hc' as <- <-. by destruct Ho as (_ & _ & _ & _ & ?). }
  assert (forall q, q ∈ (seeded ctx prog env).2 <-> q ∈ roots ctx /\ (q < length (instrs prog))%nat) as Hst.
  { intros q. split; [apply (sd_stack _ _ _ _ _ Hs)|]. intros [Hr Hq].
    destruct (lookup_lt_is_Some_2 (seeded ctx prog env).1.2 q) as [v Hv]; [by rewrite (sd_len _ _ _ _ _ Hs)|].
    destruct (sd_new _ _ _ _ _ Hs _ _ Hv) as [->|[_ ?]]; [|done].
    destruct (sd_seen _ _ _ _ _ Hs q); [by rewrite list_elem_of_In, <- in_rev, <- list_elem_of_In|done|done]. }
  assert (forall q, has prune_point env' q <-> has prune_point env q \/ ((q < length env)%nat /\
     ((q ∈ roots ctx /\ (q < length (instrs prog))%nat) \/
      exists pc, reachable ctx prog pc /\ q ∈ prunes ctx prog pc))) as Hp.
  { intros q. rewrite (H _ _ (prunes_marks ctx prog)), (sd_prune _ _ _ _ _ Hs), Hst. naive_solver. }
  assert (forall q, has jmp_point env' q <-> has jmp_point env q \/
     ((q < length env)%nat /\ exists pc, reachable ctx prog pc /\ q ∈ jumps prog pc)) as Hj.
  { intros q. by rewrite (H _ _ (jumps_marks ctx prog)), (sd_others _ _ _ _ _ Hs). }
  split_and!; [done|done| |].
  - intros q. by rewrite (H _ _ (checkpoints_marks ctx prog)), (sd_others _ _ _ _ _ Hs).
  - intros Hsub q [?|(Hq & pc & Hr & Hin)]%Hj; apply Hp; [by left; apply Hsub|right].
    split; [done|]. right. exists pc. split; [done|]. by apply jumps_pruned.
Qed.

(** C22. Every way through an accepted program keeps passing prune points: on a path of control that never
    ends, at least one of any [n] instructions in a row is a prune point, where [n] is the length of
    the program. *)
Theorem prune_points_recur prog ctx single env env' (path : nat -> nat) :
  check_cfg prog ctx single env = Some (env', None) -> length env = length (instrs prog) ->
  reachable ctx prog (path 0%nat) -> (forall i, edge ctx prog (path i) (path (S i))) ->
  forall i, exists j, (i < j <= i + length (instrs prog))%nat /\ has prune_point env' (path j).
Proof.
  intros Hc Hl H0 Hp i. set (n := length (instrs prog)).
  destruct (check_cfg_outcome ctx prog _ _ single env (prunes_marks ctx prog)) as (e & r & Hc' & Ho).
  rewrite Hc in Hc'. injection Hc' as <- <-. destruct Ho as (_ & Hin & _ & _ & Hm).
  assert (forall k, reachable ctx prog (path k)) as Hr.
  { induction k as [|k (root & ? & ? & ?)]; [done|]. exists root. split_and!; auto. by eapply rtc_r. }
  assert (forall k, (path (S k) < n)%nat) as Hb by (intros k; exact (Hin _ _ (Hr k) (Hp k))).
  assert ((exists j, (i < j <= i + n)%nat /\ has prune_point env' (path j)) \/
    forall k, (k <= n)%nat -> path (i + k)%nat = (path i + k)%nat) as [?|Hlin]; [|done|].
  - assert (forall m, (m <= n)%nat -> (exists j, (i < j <= i + n)%nat /\ has prune_point env' (path j)) \/
      forall k, (k <= m)%nat -> path (i + k)%nat = (path i + k)%nat) as H; [|by apply H].
    induction m as [|m IH]; intros Hmn.
    + right. intros k Hk. by replace k with 0%nat by lia; rewrite !Nat.add_0_r.
    + destruct IH as [?|IH]; [lia|by left|]. destruct (edge_pruned _ _ _ _ (Hp (i + m)%nat)) as [Hs|Hs].
      * right. intros k Hk. destruct (decide (k = S m)) as [->|]; [|apply IH; lia].
        rewrite Nat.add_succ_r, Hs, IH by lia. lia.
      * left. exists (S (i + m)). split; [lia|]. apply Hm. right. rewrite Hl. split; [apply Hb|]. eauto.
  - exfalso. destruct n as [|m] eqn:En.
    + specialize (Hb 0%nat). lia.
    + specialize (Hlin (S m) ltac:(lia)). rewrite Nat.add_succ_r in Hlin. specialize (Hb (i + m)%nat). lia.
Qed.

Definition no_ctx : Ctx := MkCtx [] None [].
Definition unmarked (n : nat) : Env := replicate n (MkAux false false false).

(** A loop over the first two instructions. *)
Definition small_loop : Program :=
  MkProgram [Alu W64 Add R1 (OImm 1); If W64 R1 Ne (OImm 0) 0; Exit].

Lemma cfg_marks_exact_witness :
  exists env', check_cfg small_loop no_ctx true (unmarked 3) = Some (env', None) /\
    has prune_point env' 1 /\ has jmp_point env' 0.
Proof.
  destruct (check_cfg small_loop no_ctx true (unmarked 3)) as [[env' r]|] eqn:E; [|vm_compute in E; discriminate].
  assert (r = None) as -> by (vm_compute in E; congruence).
  exists env'. split; [done|]. destruct (cfg_marks_exact _ _ _ _ _ E) as (Hp & Hj & _ & _).
  assert (reachable no_ctx small_loop 0) as H0.
  { exists 0%nat. split_and!; [left|vm_compute; lia|apply rtc_refl]. }
  assert (reachable no_ctx small_loop 1) as H1.
  { exists 0%nat. split_and!; [left|vm_compute; lia|]. apply rtc_once. unfold edge. vm_compute. left. }
  split; [apply Hp|apply Hj]; right; (split; [vm_compute; lia|]).
  - right. exists 1%nat. split; [done|]. left.
  - exists 1%nat. split; [done|]. left.
Defined.

Lemma prune_points_recur_witness :
  exists env', check_cfg small_loop no_ctx true (unmarked 3) = Some (env', None) /\
    exists j, (7 < j <= 10)%nat /\ has prune_point env' (if Nat.even j then 0 else 1).
Proof.
  destruct (check_cfg small_loop no_ctx true (unmarked 3)) as [[env' r]|] eqn:E; [|vm_compute in E; discriminate].
  assert (r = None) as -> by (vm_compute in E; congruence).
  exists env'. split; [done|].
  apply (prune_points_recur small_loop no_ctx true (unmarked 3) env' (fun i => if Nat.even i then 0 else 1)%nat);
    [exact E|reflexivity| |].
  - exists 0%nat. split_and!; [left|vm_compute; lia|apply rtc_refl].
  - intros i. rewrite Nat.even_succ, <- Nat.negb_even. unfold edge.
    destruct (Nat.even i); vm_compute; [left|right; left].
Defined.

(** Loops that the check for single entries misses: a branch into the middle of a loop that does not go
    to its back edge, and a loop whose back edge is a may_goto. *)
Theorem loop_entries_missed :
  (let p := MkProgram [If W64 R1 Eq (OImm 0) 3; Alu W64 Add R1 (OImm 1); Alu W64 Add R1 (OImm 1);
      Alu W64 Add R1 (OImm 1); If W64 R1 Ne (OImm 0) 1; Exit] in
   in_loop p 4 1 /\ flow p 0 3 /\ rtc (flow p) 1%nat 3%nat /\ rtc (flow p) 3%nat 4%nat /\
   exists env, check_cfg p no_ctx true (unmarked 6) = Some (env, None)) /\
  (let p := MkProgram [If W64 R1 Eq (OImm 0) 2; Alu W64 Add R1 (OImm 1); MayGoto 1; Exit] in
   flow p 2 1 /\ rtc (flow p) 1%nat 2%nat /\ collect_loop_back_edges p = [] /\
   exists env, check_cfg p no_ctx true (unmarked 4) = Some (env, None)).
Proof.
  split; cbn zeta.
  - set (p := MkProgram _).
    assert (flow p 1 2) as H12 by (unfold flow; vm_compute; left).
    assert (flow p 2 3) as H23 by (unfold flow; vm_compute; left).
    assert (flow p 3 4) as H34 by (unfold flow; vm_compute; left).
    split_and!.
    + eexists. split_and!; [vm_compute; reflexivity|reflexivity|lia|].
      eapply rtc_l; [exact H12|]. eapply rtc_l; [exact H23|]. by apply rtc_once.
    + unfold flow. vm_compute. left.
    + eapply rtc_l; [exact H12|]. by apply rtc_once.
    + by apply rtc_once.
    + eexists. vm_compute. reflexivity.
  - split_and!.
    + unfold flow. vm_compute. left.
    + apply rtc_once. unfold flow. vm_compute. left.
    + vm_compute. reflexivity.
    + eexists. vm_compute. reflexivity.
Qed.

(** The check accepts programs that control leaves: it falls off the end of a program that never exits. *)
Theorem fall_off_accepted :
  let p := MkProgram [Alu W64 Mov R0 (OImm 0)] in
  reached no_ctx p 0 /\ goes no_ctx p 0 1 /\ length (instrs p) = 1%nat /\
  exists env, check_cfg p no_ctx true (unmarked 1) = Some (env, None).
Proof.
  split_and!.
  - split; [cbn; lia|]. exists 0%nat. split_and!; [left|cbn; lia|constructor].
  - by eapply goes_next.
  - done.
  - eexists. vm_compute. reflexivity.
Qed.

End CfgProps.
