(* ===== verification/Scc.v ===== *)
(** Strongly connected components of the graph of control ([src/analysis/flow/scc.rs], [compute_scc]): the
    iterative form of Tarjan's algorithm with its two stacks, one step of the loop per definition.
    Stacks are lists with their top first, vectors are lists, numbers are [u32]. *)

From S2P Require Import Prelude Zone Ast.
From Stdlib Require Import ZArith Lia.
From stdpp Require Import base numbers list.
Open Scope Z_scope.

Module Scc.
Import Ast.

Definition NOT_ON_STACK : Z := 2 ^ 32 - 1.

Definition successors (prog : Program) (pc : nat) : list nat :=
  let next := if (S pc <? length (instrs prog))%nat then [S pc] else [] in
  match instrs prog !! pc with
  | None | Some Exit => []
  | Some (Jmp target) => [target]
  | Some (If _ _ _ _ target) | Some (MayGoto target) => next ++ [target]
  | Some (CallRel target) => target :: next
  | Some _ => next
  end.

(** An access to a vector, in its range wherever the code has one. *)
Definition get (l : list Z) (i : nat) : Z := default 0 (l !! i).

Record tarjan : Type := MkT {
  pre : list Z; low : list Z; stack : list nat; dfs : list nat; succ_iter : list nat;
  next_preorder : Z; next_scc_id : Z; scc_id : list Z }.

(** The first visit of an instruction. *)
Definition enter (w : nat) (t : tarjan) : tarjan :=
  if get (pre t) w =? 0 then
    MkT (<[w := next_preorder t]> (pre t)) (<[w := next_preorder t]> (low t)) (w :: stack t) (dfs t)
      (<[w := 0%nat]> (succ_iter t)) (u32 (next_preorder t + 1)) (next_scc_id t) (scc_id t)
  else t.

Definition set_low (w : nat) (l : Z) (t : tarjan) : tarjan :=
  MkT (pre t) (<[w := l]> (low t)) (stack t) (dfs t) (succ_iter t) (next_preorder t) (next_scc_id t) (scc_id t).
Definition set_dfs (d : list nat) (t : tarjan) : tarjan :=
  MkT (pre t) (low t) (stack t) d (succ_iter t) (next_preorder t) (next_scc_id t) (scc_id t).
Definition advance (w : nat) (t : tarjan) : tarjan :=
  MkT (pre t) (low t) (stack t) (dfs t) (<[w := S (default 0%nat (succ_iter t !! w))]> (succ_iter t)) (next_preorder t)
    (next_scc_id t) (scc_id t).

(** The successors from where the last visit left off; [true]: a new one was pushed. *)
Fixpoint scan (n w : nat) (rest : list nat) (t : tarjan) : tarjan * bool :=
  match rest with
  | [] => (t, false)
  | s :: rest =>
      let t := advance w t in
      if (n <=? s)%nat then scan n w rest t
      else if get (pre t) s =? 0 then (set_dfs (s :: dfs t) t, true)
      else scan n w rest (if get (low t) s <? get (low t) w then set_low w (get (low t) s) t else t)
  end.

(** Instructions leave the stack down to [w]; [None]: the stack is empty before. *)
Fixpoint pop_component (w : nat) (assign : bool) (id : Z) (st : list nat) (low ids : list Z)
  : option (list nat * list Z * list Z) :=
  match st with
  | [] => None
  | t :: st =>
      let low := <[t := NOT_ON_STACK]> low in
      let ids := if assign then <[t := id]> ids else ids in
      if (t =? w)%nat then Some (st, low, ids) else pop_component w assign id st low ids
  end.

(** All successors of [w] are visited. *)
Definition finish (prog : Program) (w : nat) (t : tarjan) : option tarjan :=
  let rest := tail (dfs t) in
  if get (low t) w <? get (pre t) w then
    match rest with
    | parent :: _ =>
        Some (set_dfs rest (if get (low t) w <? get (low t) parent then set_low parent (get (low t) w) t else t))
    | [] => Some (set_dfs rest t)
    end
  else
    let assign := negb (bool_decide (head (stack t) = Some w)) || bool_decide (w ∈ successors prog w) in
    match pop_component w assign (next_scc_id t) (stack t) (low t) (scc_id t) with
    | Some (st, low, ids) =>
        Some (MkT (pre t) low st rest (succ_iter t) (next_preorder t)
          (if assign then u32 (next_scc_id t + 1) else next_scc_id t) ids)
    | None => None
    end.

Definition step (prog : Program) (t : tarjan) : option tarjan :=
  match dfs t with
  | [] => Some t
  | w :: _ =>
      let t := enter w t in
      let '(t, pushed) := scan (length (instrs prog)) w (drop (default 0%nat (succ_iter t !! w)) (successors prog w)) t in
      if pushed : bool then Some t else finish prog w t
  end.

(** [None]: out of fuel, or the stack was empty. *)
Fixpoint search (fuel : nat) (prog : Program) (t : tarjan) : option tarjan :=
  match dfs t with
  | [] => Some t
  | _ => match fuel with
         | O => None
         | S fuel => match step prog t with Some t => search fuel prog t | None => None end
         end
  end.

Definition search_fuel (prog : Program) : nat := 2 * length (instrs prog).

Fixpoint search_roots (prog : Program) (roots : list nat) (t : tarjan) : option tarjan :=
  match roots with
  | [] => Some t
  | root :: roots =>
      if get (pre t) root =? 0 then
        match search (search_fuel prog) prog (set_dfs [root] t) with
        | Some t => search_roots prog roots t
        | None => None
        end
      else search_roots prog roots t
  end.

(** The identifiers of the instructions, which are given by the data before. *)
Definition compute_scc (prog : Program) (ids : list Z) : option (list Z) :=
  let n := length (instrs prog) in
  if (n =? 0)%nat then Some ids
  else scc_id <$> search_roots prog (seq 0 n)
         (MkT (replicate n 0) (replicate n 0) [] [] (replicate n 0%nat) 1 1 ids).

Example two_loops : compute_scc (MkProgram [If W64 Zone.R1 Eq (OImm 0) 2; Jmp 0; LoadMap Zone.R1 MapPtr 0 0; Jmp 3; Exit])
  (replicate 5 0) = Some [2; 2; 0; 1; 0].
Proof. vm_compute. reflexivity. Qed.

End Scc.
