(* ===== verification/Tarjan.v ===== *)
(** The invariant of Tarjan's algorithm in the form [compute_scc] has it ([src/analysis/flow/scc.rs]), on
    numberings as functions: what the stack, the instructions being explored and the low numbers say
    about paths, and that every step of the search keeps it. *)

From S2P Require Import Prelude.
From Stdlib Require Import ZArith Lia Sorted.
From stdpp Require Import base numbers list relations.
Open Scope Z_scope.

Module Tarjan.
Section Graph.
Context (edge : nat -> nat -> Prop) (succs : nat -> list nat) (n : nat) (NOT : Z).
Context (edge_succs : forall v s, edge v s <-> s ∈ succs v /\ (s < n)%nat).

Section Numbers.
Context (P L : nat -> Z).

(** Left the stack: the component is complete. *)
Definition complete (v : nat) : Prop := P v <> 0 /\ L v = NOT.

(** What is known of a successor that was looked at. *)
Definition ok (st : list nat) (v s : nat) : Prop := complete s \/ (s ∈ st /\ L v <= P s).

(** [st]: the stack; [gray]: the instructions being explored, the last one first; [top]: one that is
    to be entered next. *)
Record inv (It : nat -> nat) (st gray : list nat) (top : option nat) (next : Z) : Prop := {
  i_next : 1 <= next <= NOT;
  i_pos : forall v, 0 <= P v < next;
  i_range : forall v, P v <> 0 -> (v < n)%nat;
  i_inj : forall u v, P u = P v -> P u <> 0 -> u = v;
  i_stack : forall v, v ∈ st <-> P v <> 0 /\ L v <> NOT;
  i_sorted : StronglySorted (fun u v => P v < P u) st;
  i_gray : forall g, g ∈ gray -> g ∈ st;
  i_order : StronglySorted (fun u v => P v < P u) gray;
  i_top : forall s, top = Some s -> (s < n)%nat /\ P s = 0 /\ match gray with g :: _ => edge g s | [] => True end;
  i_reach : forall g v, g ∈ gray -> v ∈ st -> P g <= P v -> rtc edge g v;
  i_low : forall v, v ∈ st -> L v <= P v /\ exists u, u ∈ st /\ P u = L v /\ rtc edge v u;
  i_done : forall v, v ∈ st -> v ∉ gray -> L v < P v /\ forall s, edge v s -> ok st v s;
  i_seen : forall g s, g ∈ gray -> s ∈ take (It g) (succs g) -> (s < n)%nat -> ok st g s \/ top = Some s;
  i_below : forall v, v ∈ st -> exists g, g ∈ gray /\ P g <= P v;
  i_seg : forall g v, g ∈ gray -> v ∈ st -> P g <= P v ->
    (forall g', g' ∈ gray -> P g' <= P v -> P g' <= P g) -> L g <= L v;
  i_closed : forall v s, complete v -> edge v s -> complete s }.
End Numbers.

(** Identifiers: on cycles and only there, and the same exactly inside a component. *)
Record ids_ok (id : nat -> Z) (next_id : Z) (C : nat -> Prop) : Prop := {
  d_next : 1 <= next_id;
  d_range : forall v, 0 <= id v < next_id;
  d_out : forall v, ~ C v -> id v = 0;
  d_cyclic : forall v, C v -> (id v <> 0 <-> tc edge v v);
  d_same : forall u v, C u -> C v -> id u <> 0 -> (id u = id v <-> rtc edge u v /\ rtc edge v u) }.

(** ** Lists ordered by their numbers *)

Lemma head_max (P : nat -> Z) w l v : StronglySorted (fun u v => P v < P u) (w :: l) -> v ∈ w :: l -> P v <= P w.
Proof.
  intros [_ H]%StronglySorted_inv [->|Hv]%elem_of_cons; [lia|]. rewrite Forall_forall in H. specialize (H _ Hv). lia.
Qed.
Lemma head_strict (P : nat -> Z) w l v : StronglySorted (fun u v => P v < P u) (w :: l) -> v ∈ l -> P v < P w.
Proof. intros [_ H]%StronglySorted_inv Hv. rewrite Forall_forall in H. by apply H. Qed.

Lemma sorted_ext (P P' : nat -> Z) l : (forall v, v ∈ l -> P' v = P v) ->
  StronglySorted (fun u v => P v < P u) l -> StronglySorted (fun u v => P' v < P' u) l.
Proof.
  intros He Hs. induction Hs as [|a l Hs IH Hall]; constructor.
  - apply IH. intros v Hv. apply He. by right.
  - rewrite Forall_forall in *. intros v Hv. rewrite (He v), (He a); [auto|left|by right].
Qed.

(** ** Entering an instruction *)

Lemma inv_enter P L It st gray w next P' L' It' :
  inv P L It st gray (Some w) next -> next < NOT ->
  P' w = next -> (forall v, v <> w -> P' v = P v) -> L' w = next -> (forall v, v <> w -> L' v = L v) ->
  It' w = 0%nat -> (forall v, v <> w -> It' v = It v) ->
  inv P' L' It' (w :: st) (w :: gray) None (next + 1).
Proof.
  intros [H1 H2 H3 H4 H5 H6 H7 H8 H9 H10 H11 H12 H13 H14 H15 H16] Hn Pw Pv Lw Lv Iw Iv.
  destruct (H9 w eq_refl) as (Hwn & Hw0 & Hedge).
  assert (w ∉ st) as Hws by (rewrite H5; tauto).
  assert (w ∉ gray) as Hwg by (intros ?; auto).
  assert (forall v, v ∈ st -> v <> w) as Hsv by (intros v Hv ->; done).
  assert (forall v, v ∈ gray -> v <> w) as Hgv by (intros v Hv ->; done).
  assert (forall v, P v < next) as Hlt by (intros v; apply H2).
  assert (forall v, complete P' L' v <-> complete P L v) as Hc.
  { intros v. unfold complete. destruct (decide (v = w)) as [->|]; [|by rewrite Pv, Lv].
    rewrite Pw, Lw, Hw0. split; [intros [_ ?]; lia|tauto]. }
  assert (forall v s, v <> w -> ok P L st v s -> ok P' L' (w :: st) v s) as Hok.
  { intros v s Hvw [Hs|[Hs Hl]]; [left; by apply Hc|right]. split; [by right|]. rewrite Lv, Pv; auto. }
  split.
  - lia.
  - intros v. destruct (decide (v = w)) as [->|]; [lia|]. rewrite Pv by done. specialize (H2 v). lia.
  - intros v Hv. destruct (decide (v = w)) as [->|]; [done|]. apply H3. by rewrite <- Pv.
  - intros u v Hu H0. destruct (decide (u = w)) as [->|Hu'], (decide (v = w)) as [->|Hv']; try done.
    + rewrite Pw, Pv in Hu by done. specialize (Hlt v). lia.
    + rewrite Pw, Pv in Hu by done. specialize (Hlt u). lia.
    + rewrite !Pv in * by done. auto.
  - intros v. rewrite elem_of_cons. destruct (decide (v = w)) as [->|].
    + rewrite Pw, Lw. split; [lia|auto].
    + rewrite Pv, Lv, <- H5 by done. naive_solver.
  - constructor; [apply (sorted_ext P); auto|]. apply Forall_forall. intros v Hv. rewrite Pw, Pv by auto. auto.
  - intros g [->|Hg]%elem_of_cons; [left|right; auto].
  - constructor; [apply (sorted_ext P); auto|]. apply Forall_forall. intros v Hv. rewrite Pw, Pv by auto. auto.
  - done.
  - intros g v Hg Hv. apply elem_of_cons in Hg as [->|Hg], Hv as [->|Hv]; [done| | |].
    + rewrite Pw, Pv by auto. specialize (Hlt v). lia.
    + intros _. destruct gray as [|g0 gray]; [by apply elem_of_nil in Hg|].
      eapply rtc_r; [apply (H10 g g0)|exact Hedge]; [done|apply H7; left|by apply (head_max P g0 gray)].
    + rewrite !Pv by auto. auto.
  - intros v [->|Hv]%elem_of_cons.
    + rewrite Lw, Pw. split; [lia|]. exists w. split_and!; [left|lia|done].
    + rewrite Lv, Pv by auto. destruct (H11 v Hv) as (? & u & Hu & ? & ?). split; [done|].
      exists u. rewrite Pv by auto. split_and!; [by right|done|done].
  - intros v Hv Hg. apply not_elem_of_cons in Hg as [Hvw Hg]. apply elem_of_cons in Hv as [->|Hv]; [done|].
    rewrite Lv, Pv by done. destruct (H12 v Hv Hg) as [? Hs]. split; [done|]. intros s He. auto.
  - intros g s Hg Hs Hsn. left. apply elem_of_cons in Hg as [->|Hg].
    + rewrite Iw in Hs. by apply elem_of_nil in Hs.
    + rewrite Iv in Hs by auto. destruct (H13 g s Hg Hs Hsn) as [?|[= <-]]; [auto|]. right. split; [left|].
      rewrite Lv, Pw by auto. destruct (H11 g) as [Hl _]; [auto|]. specialize (Hlt g). lia.
  - intros v [->|Hv]%elem_of_cons; [exists w; split; [left|lia]|].
    destruct (H14 v Hv) as (g & Hg & Hle). exists g. rewrite !Pv by auto. split; [by right|done].
  - intros g v Hg Hv Hle Hmax. apply elem_of_cons in Hg as [->|Hg], Hv as [->|Hv]; [lia| | |].
    + rewrite Pw, Pv in Hle by auto. specialize (Hlt v). lia.
    + specialize (Hmax w ltac:(left) ltac:(lia)). rewrite Pw, Pv in Hmax by auto. specialize (Hlt g). lia.
    + rewrite !Lv by auto. rewrite !Pv in Hle by auto. apply H15; auto. intros g' Hg'.
      specialize (Hmax g' ltac:(by right)). rewrite !Pv in Hmax by auto. auto.
  - intros v s Hv He. rewrite Hc in *. eauto.
Qed.

(** ** Looking at a successor *)

(** A low number may sink to that of a successor on the stack. *)
Lemma inv_low P L It st w gray next L' x :
  inv P L It st (w :: gray) None next -> L' w = L x -> (forall v, v <> w -> L' v = L v) ->
  x ∈ st -> rtc edge w x -> L x <= L w -> inv P L' It st (w :: gray) None next.
Proof.
  intros [H1 H2 H3 H4 H5 H6 H7 H8 H9 H10 H11 H12 H13 H14 H15 H16] Lw Lv Hx He Hle.
  assert (forall v, v ∈ st -> L v <> NOT) as Hnot by (intros v Hv; by apply H5).
  assert (w ∈ st) as Hw by (apply H7; left).
  assert (forall v, L' v <= L v) as Hless.
  { intros v. destruct (decide (v = w)) as [->|]; [lia|]. by rewrite Lv. }
  assert (forall v, L' v = NOT <-> L v = NOT) as Hn.
  { intros v. destruct (decide (v = w)) as [->|]; [|by rewrite Lv]. rewrite Lw.
    split; intros Hz; [by apply Hnot in Hx|by apply Hnot in Hw]. }
  assert (forall v, complete P L' v <-> complete P L v) as Hc by (intros v; unfold complete; by rewrite Hn).
  assert (forall v s, ok P L st v s -> ok P L' st v s) as Hok.
  { intros v s [?|[??]]; [left; by apply Hc|right]. split; [done|]. specialize (Hless v). lia. }
  split; try done.
  - intros v. by rewrite Hn.
  - intros v Hv. destruct (H11 v Hv) as (Hl & u & Hu & Hul & Hp). specialize (Hless v). split; [lia|].
    destruct (decide (v = w)) as [->|]; [|rewrite Lv by done; eauto].
    destruct (H11 x Hx) as (_ & u' & ? & ? & Hx'). exists u'. rewrite Lw. split_and!; [done|done|etrans; [exact He|exact Hx']].
  - intros v Hv Hg. destruct (H12 v Hv Hg) as [Hl Hs]. rewrite Lv by (intros ->; apply Hg; left). auto.
  - intros g s Hg Hs Hsn. destruct (H13 g s Hg Hs Hsn); auto.
  - intros g v Hg Hv Hgv Hmax. specialize (H15 g v Hg Hv Hgv Hmax).
    destruct (decide (v = w)) as [->|Hvw]; [|rewrite (Lv v) by done; specialize (Hless g); lia].
    specialize (Hmax w ltac:(left) ltac:(lia)). assert (P g = P w) as Heq by lia.
    assert (P g <> 0) as H0 by (apply (H5 g), H7, Hg). by rewrite (H4 g w Heq H0).
  - intros v s Hv Hvs. rewrite Hc in *. eauto.
Qed.

Lemma inv_advance P L It st w gray next It' s top :
  inv P L It st (w :: gray) None next -> It' w = S (It w) -> (forall v, v <> w -> It' v = It v) ->
  succs w !! It w = Some s ->
  (top = None /\ ((n <= s)%nat \/ ok P L st w s)) \/ (top = Some s /\ (s < n)%nat /\ P s = 0) ->
  inv P L It' st (w :: gray) top next.
Proof.
  intros [H1 H2 H3 H4 H5 H6 H7 H8 H9 H10 H11 H12 H13 H14 H15 H16] Iw Iv Hs Hcase.
  split; try done.
  - intros s' Ht. destruct Hcase as [[-> _]|(-> & Hn & H0)]; [done|]. injection Ht as <-. split_and!; [done|done|].
    apply edge_succs. split; [by eapply list_elem_of_lookup_2|done].
  - intros g s' Hg Ht Hn. destruct (decide (g = w)) as [->|Hgw].
    + rewrite Iw, (take_S_r _ _ _ Hs), elem_of_app, list_elem_of_singleton in Ht. destruct Ht as [Ht| ->].
      * destruct (H13 w s' Hg Ht Hn) as [?|?]; [by left|done].
      * destruct Hcase as [[_ [?|?]]|[-> _]]; [lia|by left|by right].
    + rewrite Iv in Ht by done. destruct (H13 g s' Hg Ht Hn) as [?|?]; [by left|done].
Qed.

(** A visited successor is complete or on the stack. *)
Lemma visited_ok P L It st gray top next v s : inv P L It st gray top next -> P s <> 0 -> L v <= L s -> ok P L st v s.
Proof.
  intros Hi Hs Hl. destruct (decide (L s = NOT)) as [|Hn]; [by left|right].
  assert (s ∈ st) as Hin by (by apply (i_stack _ _ _ _ _ _ _ Hi)). split; [done|].
  destruct (i_low _ _ _ _ _ _ _ Hi s Hin). lia.
Qed.

(** ** Leaving an instruction *)

Lemma inv_return P L It st w p gray next L' :
  inv P L It st (w :: p :: gray) None next -> (length (succs w) <= It w)%nat -> L w < P w ->
  L' p = Z.min (L p) (L w) -> (forall v, v <> p -> L' v = L v) -> inv P L' It st (p :: gray) None next.
Proof.
  intros [H1 H2 H3 H4 H5 H6 H7 H8 H9 H10 H11 H12 H13 H14 H15 H16] Hall Hlw Lp Lv.
  assert (w ∈ st) as Hw by (apply H7; left). assert (p ∈ st) as Hp by (apply H7; right; left).
  pose proof (head_strict P w (p :: gray) p H8 ltac:(left)) as Hpw.
  assert (forall g, g ∈ p :: gray -> P g <= P p) as Hpmax
    by (intros g; apply head_max; by apply StronglySorted_inv in H8 as [? _]).
  assert (p <> w) as Hne by (intros ->; lia).
  assert (forall v, v ∈ st -> L v <> NOT) as Hnot by (intros v Hv; by apply H5).
  assert (forall v, L' v <= L v) as Hless.
  { intros v. destruct (decide (v = p)) as [->|]; [lia|]. by rewrite Lv. }
  assert (forall v, L' v = NOT <-> L v = NOT) as Hn.
  { intros v. destruct (decide (v = p)) as [->|]; [|by rewrite Lv]. pose proof (Hnot p Hp). pose proof (Hnot w Hw).
    rewrite Lp. split; lia. }
  assert (forall v, complete P L' v <-> complete P L v) as Hc by (intros v; unfold complete; by rewrite Hn).
  assert (forall v s, ok P L st v s -> ok P L' st v s) as Hok.
  { intros v s [?|[??]]; [left; by apply Hc|right]. split; [done|]. specialize (Hless v). lia. }
  split; try done.
  - intros v. by rewrite Hn.
  - intros g Hg. apply H7. by right.
  - by apply StronglySorted_inv in H8 as [? _].
  - intros g v Hg. apply H10. by right.
  - intros v Hv. destruct (H11 v Hv) as (Hl & u & Hu & Hul & Hpath). specialize (Hless v). split; [lia|].
    destruct (decide (v = p)) as [->|]; [|rewrite Lv by done; eauto].
    destruct (Z.min_spec (L p) (L w)) as [[_ Hm]|[_ Hm]]; rewrite Lp, Hm; [eauto|].
    destruct (H11 w Hw) as (_ & u' & ? & ? & ?). exists u'. split_and!; [done|done|].
    etrans; [apply (H10 p w)|done]; [right; left|done|lia].
  - intros v Hv Hg. rewrite Lv by (intros ->; apply Hg; left). destruct (decide (v = w)) as [->|Hvw].
    + split; [done|]. intros s [Hs Hsn]%edge_succs. apply Hok.
      destruct (H13 w s) as [?|?]; [left|by rewrite take_ge by lia|done|done|done].
    + destruct (H12 v Hv) as [? Hs]; [by apply not_elem_of_cons|]. auto.
  - intros g s Hg Hs Hsn. destruct (H13 g s) as [?|?]; [by right|done|done|auto|done].
  - intros v Hv. destruct (H14 v Hv) as (g & [->|Hg]%elem_of_cons & Hle); [|eauto].
    exists p. split; [left|lia].
  - intros g v Hg Hv Hgv Hmax. specialize (Hless g). destruct (decide (P w <= P v)) as [Hwv|Hwv].
    + assert (P p <= P g) as Hpg by (apply Hmax; [left|lia]). specialize (Hpmax g Hg).
      assert (g = p) as -> by (apply H4; [lia|]; by apply H5, H7; right).
      assert (L w <= L v) as Hwlv. { apply H15; [left|done|done|]. intros g' Hg' _. by apply head_max with (p :: gray). }
      rewrite Lp. destruct (decide (v = p)) as [->|]; [lia|]. rewrite Lv by done. lia.
    + assert (L g <= L v) as Hglv.
      { apply H15; [by right|done|done|]. intros g' [->|Hg']%elem_of_cons Hle; [lia|auto]. }
      destruct (decide (v = p)) as [->|]; [|rewrite (Lv v) by done; lia].
      specialize (Hmax p ltac:(left) ltac:(lia)). specialize (Hpmax g Hg).
      assert (g = p) as -> by (apply H4; [lia|]; by apply H5, H7; right). lia.
  - intros v s Hv Hvs. rewrite Hc in *. eauto.
Qed.

(** The first instruction of a search returns only with its component. *)
Lemma inv_root P L It st w next : inv P L It st [w] None next -> P w <= L w.
Proof.
  intros Hi. destruct (i_low _ _ _ _ _ _ _ Hi w) as (_ & u & Hu & Hul & _); [apply (i_gray _ _ _ _ _ _ _ Hi); left|].
  destruct (i_below _ _ _ _ _ _ _ Hi u Hu) as (g & ->%list_elem_of_singleton & Hle). lia.
Qed.

(** ** A complete component *)

Section Component.
Context (P L : nat -> Z) (It : nat -> nat) (w : nat) (k st gray : list nat) (next : Z).
Context (Hinv : inv P L It (k ++ w :: st) (w :: gray) None next).
Context (Hall : (length (succs w) <= It w)%nat) (Hroot : P w <= L w).

Lemma split_sorted l v : StronglySorted (fun u v => P v < P u) (l ++ w :: st) ->
  (v ∈ l -> P w < P v) /\ (v ∈ st -> P v < P w).
Proof.
  induction l as [|a l IH]; cbn; intros Hs.
  - split; [by intros ?%elem_of_nil|]. by apply head_strict.
  - apply StronglySorted_inv in Hs as [Hs Hf]. rewrite Forall_forall in Hf. destruct (IH Hs) as [H1 H2].
    split; [|done]. intros [->|?]%elem_of_cons; [|auto]. apply Hf, elem_of_app. right. left.
Qed.

Definition comp (v : nat) : Prop := v ∈ k \/ v = w.

Lemma comp_iff v : v ∈ k ++ w :: st -> (comp v <-> P w <= P v) /\ (v ∈ st <-> P v < P w).
Proof.
  intros Hv. destruct (split_sorted k v (i_sorted _ _ _ _ _ _ _ Hinv)) as [H1 H2]. unfold comp.
  rewrite elem_of_app, elem_of_cons in Hv. split; split.
  - intros [?| ->]; [|lia]. specialize (H1 ltac:(done)). lia.
  - intros Hle. destruct Hv as [?|[?|?]]; auto. specialize (H2 ltac:(done)). lia.
  - done.
  - intros Hlt. destruct Hv as [?|[->|?]]; [|lia|done]. specialize (H1 ltac:(done)). lia.
Qed.

Lemma comp_stack v : comp v -> v ∈ k ++ w :: st.
Proof. unfold comp. rewrite elem_of_app, elem_of_cons. tauto. Qed.

(** Only [w] is still explored there. *)
Lemma comp_gray v : comp v -> v ∈ w :: gray -> v = w.
Proof.
  intros Hc Hg. pose proof (proj1 (proj1 (comp_iff v (comp_stack v Hc))) Hc) as Hle.
  pose proof (head_max P w gray v (i_order _ _ _ _ _ _ _ Hinv) Hg).
  apply (i_inj _ _ _ _ _ _ _ Hinv); [lia|]. by apply (i_stack _ _ _ _ _ _ _ Hinv), comp_stack.
Qed.

Lemma comp_low v : comp v -> P w <= L v.
Proof.
  intros Hc. etrans; [exact Hroot|]. apply (i_seg _ _ _ _ _ _ _ Hinv).
  - left.
  - by apply comp_stack.
  - by apply comp_iff; [apply comp_stack|].
  - intros g Hg _. apply (head_max P w gray); [apply (i_order _ _ _ _ _ _ _ Hinv)|done].
Qed.

(** Edges stay inside or lead to complete components. *)
Lemma comp_edge v s : comp v -> edge v s -> complete P L s \/ comp s.
Proof.
  intros Hc He. assert (ok P L (k ++ w :: st) v s) as [?|[Hs Hl]]; [|by left|right].
  - destruct (decide (v ∈ w :: gray)) as [Hg|Hg].
    + pose proof (comp_gray v Hc Hg) as ->. pose proof (proj1 (edge_succs w s) He) as [Hin Hn].
      destruct (i_seen _ _ _ _ _ _ _ Hinv w s) as [?|?]; [left|by rewrite take_ge|done|done|done].
    + by apply (i_done _ _ _ _ _ _ _ Hinv v (comp_stack v Hc) Hg).
  - apply (comp_iff s Hs). pose proof (comp_low v Hc). lia.
Qed.

Lemma complete_path v x : complete P L v -> rtc edge v x -> complete P L x.
Proof. intros Hv. induction 1 as [|u y z Huy _ IH]; [done|]. apply IH. by eapply (i_closed _ _ _ _ _ _ _ Hinv). Qed.

Lemma comp_path v x : comp v -> rtc edge v x -> complete P L x \/ comp x.
Proof.
  intros Hv Hp. revert Hv. induction Hp as [|u y z Huy Hyz IH]; intros Hv; [by right|].
  destruct (comp_edge u y Hv Huy); [left; by eapply complete_path|auto].
Qed.

Lemma comp_not_complete v : comp v -> ~ complete P L v.
Proof. intros Hv%comp_stack%(i_stack _ _ _ _ _ _ _ Hinv) [_ ?]. naive_solver. Qed.

Lemma comp_from v : comp v -> rtc edge w v.
Proof.
  intros Hc. apply (i_reach _ _ _ _ _ _ _ Hinv); [left|by apply comp_stack|].
  by apply comp_iff; [apply comp_stack|].
Qed.

Lemma comp_to v : comp v -> rtc edge v w.
Proof.
  assert (forall m v, (Z.to_nat (P v) < m)%nat -> comp v -> rtc edge v w) as H; [|apply (H (S (Z.to_nat (P v)))); lia].
  induction m as [|m IH]; intros u Hm Hc; [lia|]. destruct (decide (u = w)) as [->|Hne]; [done|].
  assert (u ∉ w :: gray) as Hg by (intros ?; by apply Hne, comp_gray).
  destruct (i_done _ _ _ _ _ _ _ Hinv u (comp_stack u Hc) Hg) as [Hlt _].
  destruct (i_low _ _ _ _ _ _ _ Hinv u (comp_stack u Hc)) as (_ & x & Hx & Hpx & Hp).
  pose proof (comp_low u Hc). pose proof (i_pos _ _ _ _ _ _ _ Hinv u). pose proof (i_pos _ _ _ _ _ _ _ Hinv w).
  etrans; [exact Hp|]. apply IH; [lia|]. apply (comp_iff x Hx). lia.
Qed.

(** The instructions that leave the stack are one strongly connected component. *)
Lemma comp_exact v x : comp v -> (comp x <-> rtc edge v x /\ rtc edge x v).
Proof.
  intros Hv. split.
  - intros Hx. split; (etrans; [by apply comp_to|by apply comp_from]).
  - intros [Hvx Hxv]. destruct (comp_path v x Hv Hvx) as [Hc|]; [|done].
    exfalso. eapply comp_not_complete; [exact Hv|]. by eapply complete_path.
Qed.

(** It lies on a cycle if it has two members or an edge to itself. *)
Lemma comp_cyclic v : comp v -> (tc edge v v <-> k <> [] \/ edge w w).
Proof.
  intros Hv. split.
  - intros Ht. destruct (decide (k = [])) as [Ek|]; [right|by left].
    assert (forall x, comp x -> x = w) as Hone by (intros x [Hx| ->]; [rewrite Ek in Hx; by apply elem_of_nil in Hx|done]).
    pose proof (Hone v Hv) as ->.
    assert (exists y, edge w y /\ rtc edge y w) as (y & Hy & Hyw).
    { inversion Ht; subst; [by exists w|]. eexists. split; [done|]. by apply tc_rtc. }
    assert (comp y) as Hcy%Hone by (apply (comp_exact w); [done|]; split; [by apply rtc_once|done]). by subst.
  - intros [Hk|Hw].
    + assert (exists a, a ∈ k) as [a Ha] by (destruct k as [|a ?]; [done|exists a; left]).
      assert (exists x, comp x /\ x <> v) as (x & Hx & Hxv).
      { destruct (decide (v = w)) as [->|]; [|exists w; split; [by right|done]]. exists a. split; [by left|].
        intros ->. destruct (split_sorted k w (i_sorted _ _ _ _ _ _ _ Hinv)) as [Hs _]. specialize (Hs Ha). lia. }
      destruct (proj1 (comp_exact v x Hv) Hx) as [Hvx Hxv'].
      destruct (rtc_inv _ _ Hvx) as [?|(y & ? & ?)]; [by subst|]. eapply tc_rtc_r; [by apply tc_once|]. by etrans.
    + eapply tc_rtc_l; [by apply comp_to|]. eapply tc_rtc_r; [by apply tc_once|]. by apply comp_from.
Qed.

Lemma inv_component L' : (forall v, comp v -> L' v = NOT) -> (forall v, ~ comp v -> L' v = L v) ->
  inv P L' It st gray None next /\ (forall v, complete P L' v <-> complete P L v \/ comp v).
Proof.
  intros Lc Ln. pose proof Hinv as [H1 H2 H3 H4 H5 H6 H7 H8 H9 H10 H11 H12 H13 H14 H15 H16].
  assert (forall v, Decision (comp v)) as Hdec by (intros v; unfold comp; apply _).
  assert (forall v, v ∈ st -> v ∈ k ++ w :: st) as Hsub by (intros v Hv; apply elem_of_app; right; by right).
  assert (forall v, v ∈ st <-> v ∈ k ++ w :: st /\ ~ comp v) as Hst.
  { intros v. split; [intros Hv; split; [auto|]|intros [Hv Hn]].
    - destruct (comp_iff v (Hsub v Hv)) as [Hc Hs]. rewrite Hc. apply Hs in Hv. lia.
    - destruct (comp_iff v Hv) as [Hc Hs]. apply Hs. rewrite Hc in Hn. lia. }
  assert (forall v, v ∈ st -> L' v = L v) as Hl by (intros v Hv; apply Ln, Hst, Hv).
  assert (forall v, complete P L' v <-> complete P L v \/ comp v) as Hcomp.
  { intros v. unfold complete. destruct (decide (comp v)) as [Hc|Hc].
    - rewrite (Lc v Hc). split; [by right|]. intros _. split; [|done]. by apply (H5 v), comp_stack.
    - rewrite (Ln v Hc). tauto. }
  assert (forall g, g ∈ gray -> g ∈ st) as Hgst.
  { intros g Hg. apply Hst. split; [apply H7; by right|]. intros Hc.
    assert (g = w) as -> by (apply comp_gray; [done|by right]). pose proof (head_strict P w gray w H8 Hg). lia. }
  assert (forall v s, v ∈ st -> ok P L (k ++ w :: st) v s -> ok P L' st v s) as Hok.
  { intros v s Hv [Hs|[Hs Hle]]; [left; apply Hcomp; by left|]. destruct (decide (comp s)) as [Hc|Hc].
    - left. apply Hcomp. by right.
    - right. rewrite Hl by done. split; [by apply Hst|done]. }
  assert (forall v, v ∈ st -> P v < P w) as Hlt by (intros v Hv; by apply comp_iff in Hv; auto).
  split; [|done]. split; try done.
  - intros v. rewrite Hst, H5. destruct (decide (comp v)) as [Hc|Hc]; [rewrite (Lc v Hc)|rewrite (Ln v Hc)]; tauto.
  - clear - H6. revert H6. generalize k. intros l. induction l as [|a l IH]; cbn.
    + by intros [? _]%StronglySorted_inv.
    + intros [? _]%StronglySorted_inv. auto.
  - by apply StronglySorted_inv in H8 as [? _].
  - intros g v Hg Hv. apply H10; [by right|auto].
  - intros v Hv. rewrite Hl by done. destruct (H11 v (Hsub v Hv)) as (Hle & u & Hu & Hpu & Hp). split; [done|].
    exists u. split_and!; [|done|done]. apply (comp_iff u Hu). specialize (Hlt v Hv). lia.
  - intros v Hv Hg. rewrite Hl by done. destruct (H12 v (Hsub v Hv)) as [? Hs].
    + intros [->|?]%elem_of_cons; [specialize (Hlt w Hv); lia|done].
    + split; [done|]. auto.
  - intros g s Hg Hs Hsn. destruct (H13 g s) as [?|?]; [by right|done|done|left; auto|done].
  - intros v Hv. destruct (H14 v (Hsub v Hv)) as (g & [->|Hg]%elem_of_cons & Hle); [specialize (Hlt v Hv); lia|eauto].
  - intros g v Hg Hv Hle Hmax. rewrite !Hl by auto. apply H15; [by right|auto|done|].
    intros g' [->|Hg']%elem_of_cons Hle'; [specialize (Hlt v Hv); lia|auto].
  - intros v s [Hv|Hv]%Hcomp He; apply Hcomp; [left; eauto|]. by apply (comp_edge v s).
Qed.
Lemma ids_component id next_id id' (assign : bool) :
  ids_ok id next_id (complete P L) -> (assign = true <-> k <> [] \/ edge w w) ->
  (forall v, comp v -> id' v = if assign then next_id else id v) -> (forall v, ~ comp v -> id' v = id v) ->
  ids_ok id' (if assign then next_id + 1 else next_id) (fun v => complete P L v \/ comp v).
Proof.
  intros [D1 D2 D3 D4 D5] Ha Hc Hn.
  assert (forall v, Decision (comp v)) as Hdec by (intros v; unfold comp; apply _).
  assert (forall v, comp v -> id v = 0) as H0 by (intros v Hv; by apply D3, comp_not_complete).
  assert (forall v, complete P L v -> ~ comp v) as Hx by (intros v Hv Hcv; by eapply comp_not_complete).
  assert (forall v, comp v -> (id' v <> 0 <-> assign = true)) as Hid.
  { intros v Hv. rewrite (Hc v Hv), (H0 v Hv). destruct assign; split; (done || lia). }
  split.
  - destruct assign; lia.
  - intros v. destruct (decide (comp v)) as [Hv|Hv]; [rewrite (Hc v Hv)|rewrite (Hn v Hv)];
      specialize (D2 v); destruct assign; lia.
  - intros v Hv. rewrite Hn by tauto. apply D3. tauto.
  - intros v [Hv|Hv]; [rewrite Hn by auto; auto|]. rewrite (Hid v Hv), (comp_cyclic v Hv). done.
  - intros u v [Hu|Hu] [Hv|Hv] Hne.
    + rewrite !Hn in * by auto. auto.
    + rewrite (Hn u) in * by auto. rewrite (Hc v Hv), (H0 v Hv). split.
      * specialize (D2 u). destruct assign; lia.
      * intros [Huv _]. exfalso. eapply comp_not_complete; [exact Hv|]. by eapply complete_path.
    + pose proof (proj1 (Hid u Hu) Hne) as Hat. rewrite (Hc u Hu), (Hn v), Hat by auto. split.
      * specialize (D2 v). lia.
      * intros [_ Hvu]. exfalso. eapply comp_not_complete; [exact Hu|]. by eapply complete_path.
    + pose proof (proj1 (Hid u Hu) Hne) as Hat. rewrite (Hc u Hu), (Hc v Hv), Hat. split; [|done].
      intros _. by apply comp_exact.
Qed.
End Component.
End Graph.

End Tarjan.
