(* ===== verification/SccProps.v ===== *)
(** What [compute_scc] computes: the search of [Scc] follows the invariant of [Tarjan], ends, and gives two
    instructions the same identifier exactly when they lie on a common cycle. *)

From S2P Require Import Prelude Zone Ast Scc Tarjan.
From Stdlib Require Import ZArith Lia Sorted.
From stdpp Require Import base numbers list relations.
Open Scope Z_scope.

Module SccProps.
Import Ast Scc.

(** * Vectors *)

Lemma vec_insert l i x : (i < length l)%nat ->
  get (<[i := x]> l) i = x /\ forall j, j <> i -> get (<[i := x]> l) j = get l j.
Proof.
  intros Hi. unfold get. split; [by rewrite list_lookup_insert_eq|].
  intros j Hj. by rewrite list_lookup_insert_ne.
Qed.

Definition white (l : list Z) : nat := sum_list_with (fun x => if x =? 0 then 1%nat else 0%nat) l.

Lemma white_insert l i x : get l i = 0 -> (i < length l)%nat -> x <> 0 ->
  white l = S (white (<[i := x]> l)).
Proof.
  unfold white, get. revert i. induction l as [|a l IH]; intros [|i] H Hi Hx; cbn in *; try lia.
  - subst. cbn. by destruct (Z.eqb_spec x 0).
  - rewrite (IH i) by (done || lia). by rewrite Nat.add_succ_r.
Qed.

Lemma pop_component_spec w assign id k st low ids :
  w ∉ k -> Forall (fun v => (v < length low)%nat /\ (v < length ids)%nat) (k ++ [w]) ->
  exists low' ids', pop_component w assign id (k ++ w :: st) low ids = Some (st, low', ids') /\
    length low' = length low /\ length ids' = length ids /\
    (forall v, v ∈ k \/ v = w -> get low' v = NOT_ON_STACK /\ get ids' v = if assign then id else get ids v) /\
    (forall v, ~ (v ∈ k \/ v = w) -> get low' v = get low v /\ get ids' v = get ids v).
Proof.
  revert low ids. induction k as [|a k IH]; intros low ids Hw Hf; cbn [app pop_component].
  - rewrite Nat.eqb_refl. apply Forall_cons in Hf as [[Hl Hi] _]. destruct (vec_insert low w NOT_ON_STACK Hl) as [L1 L2].
    destruct (vec_insert ids w id Hi) as [I1 I2].
    eexists _, _. split; [done|]. split_and!.
    + by rewrite length_insert.
    + destruct assign; [by rewrite length_insert|done].
    + intros v [?%elem_of_nil| ->]; [done|]. split; [done|]. by destruct assign.
    + intros v Hv. assert (v <> w) by tauto. split; [auto|]. destruct assign; auto.
  - apply not_elem_of_cons in Hw as [Hwa Hw]. destruct (Nat.eqb_spec a w) as [->|_]; [done|].
    apply Forall_cons in Hf as [[Hl Hi] Hf]. destruct (vec_insert low a NOT_ON_STACK Hl) as [L1 L2].
    destruct (vec_insert ids a id Hi) as [I1 I2].
    set (ids1 := if assign then <[a := id]> ids else ids).
    assert (length ids1 = length ids) as Hlen by (unfold ids1; destruct assign; [apply length_insert|done]).
    destruct (IH (<[a := NOT_ON_STACK]> low) ids1) as (low' & ids' & -> & H1 & H2 & H3 & H4);
      [done|by rewrite length_insert, Hlen|].
    assert (get ids1 a = if assign then id else get ids a) as Ha1 by (unfold ids1; by destruct assign).
    assert (forall v, v <> a -> get ids1 v = get ids v) as Hn1 by (unfold ids1; destruct assign; auto).
    eexists _, _. split; [done|]. rewrite length_insert in H1. split_and!; [done|congruence| |].
    + intros v Hv. destruct (decide (v ∈ k \/ v = w)) as [Hk|Hk].
      * destruct (H3 v Hk) as [-> ->]. split; [done|]. destruct assign; [done|]. by destruct (decide (v = a)) as [->|]; auto.
      * rewrite elem_of_cons in Hv. assert (v = a) as -> by tauto. destruct (H4 a Hk) as [-> ->]. done.
    + intros v Hv. rewrite elem_of_cons in Hv. assert (v <> a /\ ~ (v ∈ k \/ v = w)) as [Hva Hk] by tauto.
      destruct (H4 v Hk) as [-> ->]. auto.
Qed.

(** * The search *)

Section Search.
Context (prog : Program).
Let n := length (instrs prog).
Context (Hn : Z.of_nat n < NOT_ON_STACK).

Definition edge (pc pc' : nat) : Prop := pc' ∈ successors prog pc /\ (pc' < n)%nat.

Definition iter (t : tarjan) (v : nat) : nat := default 0%nat (succ_iter t !! v).

Record tinv (t : tarjan) (gray : list nat) (top : option nat) : Prop := {
  t_pre : length (pre t) = n; t_low : length (low t) = n; t_iter : length (succ_iter t) = n;
  t_ids : length (scc_id t) = n;
  t_dfs : dfs t = option_list top ++ gray;
  t_inv : Tarjan.inv edge (successors prog) n NOT_ON_STACK (get (pre t)) (get (low t)) (iter t) (stack t) gray top
    (next_preorder t);
  t_count : next_preorder t + Z.of_nat (white (pre t)) = Z.of_nat n + 1;
  t_room : next_scc_id t + Z.of_nat (length (stack t)) <= next_preorder t;
  t_exact : Tarjan.ids_ok edge (get (scc_id t)) (next_scc_id t)
    (Tarjan.complete NOT_ON_STACK (get (pre t)) (get (low t))) }.

Lemma edge_succs v s : edge v s <-> s ∈ successors prog v /\ (s < n)%nat.
Proof. done. Qed.

Lemma iter_insert t l i x : (i < length (succ_iter t))%nat -> l = <[i := x]> (succ_iter t) ->
  default 0%nat (l !! i) = x /\ forall j, j <> i -> default 0%nat (l !! j) = iter t j.
Proof.
  intros Hi ->. unfold iter. split; [by rewrite list_lookup_insert_eq|].
  intros j Hj. by rewrite list_lookup_insert_ne.
Qed.

Lemma u32_in_range x : 0 <= x < 2 ^ 32 -> u32 x = x.
Proof. intros H. unfold uwrap. by apply Z.mod_small. Qed.

(** The work that is left. *)
Definition todo (t : tarjan) (gray : list nat) (top : option nat) : Z :=
  2 * Z.of_nat (white (pre t)) + Z.of_nat (length gray) - match top with Some _ => 1 | None => 0 end.

Lemma enter_inv t gray w : tinv t gray (Some w) ->
  tinv (enter w t) (w :: gray) None /\ todo (enter w t) (w :: gray) None = todo t gray (Some w).
Proof.
  intros [T1 T2 T3 T4 T5 T6 T7 T8 T9]. destruct (Tarjan.i_top _ _ _ _ _ _ _ _ _ _ _ T6 w eq_refl) as (Hw & H0 & _).
  pose proof (Tarjan.i_next _ _ _ _ _ _ _ _ _ _ _ T6) as Hnx.
  pose proof (white_insert (pre t) w (next_preorder t) H0 ltac:(lia) ltac:(lia)) as Hwh.
  assert (next_preorder t < NOT_ON_STACK) as Hlt by lia.
  destruct (vec_insert (pre t) w (next_preorder t) ltac:(lia)) as [P1 P2].
  destruct (vec_insert (low t) w (next_preorder t) ltac:(lia)) as [L1 L2].
  destruct (iter_insert t _ w 0%nat ltac:(lia) eq_refl) as [I1 I2].
  unfold enter. rewrite H0. cbn [Z.eqb]. rewrite u32_in_range by (unfold NOT_ON_STACK in Hlt; lia).
  split.
  - split; cbn [pre low stack dfs succ_iter next_preorder next_scc_id scc_id]; rewrite ?length_insert; try done.
    + by apply (Tarjan.inv_enter edge (successors prog) n NOT_ON_STACK edge_succs
        (get (pre t)) (get (low t)) (iter t) (stack t) gray w).
    + lia.
    + cbn [length]. lia.
    + destruct T9 as [D1 D2 D3 D4 D5].
      assert (forall v, Tarjan.complete NOT_ON_STACK (get (<[w := next_preorder t]> (pre t)))
          (get (<[w := next_preorder t]> (low t))) v <->
        Tarjan.complete NOT_ON_STACK (get (pre t)) (get (low t)) v) as Hc.
      { intros v. unfold Tarjan.complete. destruct (decide (v = w)) as [->|]; [|by rewrite P2, L2].
        rewrite P1, L1, H0. split; [intros [_ ?]; lia|tauto]. }
      split; [done|done| | |].
      * intros v Hv. apply D3. by rewrite <- Hc.
      * intros v Hv%Hc. auto.
      * intros u v Hu%Hc Hv%Hc. auto.
  - unfold todo. cbn [pre length]. lia.
Qed.

Lemma gray_bound t gray top w : tinv t gray top -> w ∈ gray -> (w < n)%nat /\ w ∈ stack t.
Proof.
  intros Ht Hw. pose proof (t_inv _ _ _ Ht) as Hi.
  assert (w ∈ stack t) as Hs by (by apply (Tarjan.i_gray _ _ _ _ _ _ _ _ _ _ _ Hi)). split; [|done].
  apply (Tarjan.i_range _ _ _ _ _ _ _ _ _ _ _ Hi). by apply (Tarjan.i_stack _ _ _ _ _ _ _ _ _ _ _ Hi).
Qed.

Lemma advance_inv t w gray s top : tinv t (w :: gray) None -> successors prog w !! iter t w = Some s ->
  (top = None /\ ((n <= s)%nat \/ Tarjan.ok NOT_ON_STACK (get (pre t)) (get (low t)) (stack t) w s)) \/
    (top = Some s /\ (s < n)%nat /\ get (pre t) s = 0) ->
  tinv (set_dfs (option_list top ++ dfs t) (advance w t)) (w :: gray) top /\
  iter (advance w t) w = S (iter t w).
Proof.
  intros Ht Hs Hc. destruct (gray_bound t _ _ w Ht ltac:(left)) as [Hw _]. destruct Ht as [T1 T2 T3 T4 T5 T6 T7 T8 T9].
  destruct (iter_insert t _ w (S (iter t w)) ltac:(lia) eq_refl) as [I1 I2]. split; [|done].
  split; cbn [pre low stack dfs succ_iter next_preorder next_scc_id scc_id set_dfs advance]; rewrite ?length_insert; try done.
  - by rewrite T5.
  - by apply (Tarjan.inv_advance edge (successors prog) n NOT_ON_STACK edge_succs
      (get (pre t)) (get (low t)) (iter t) (stack t) w gray (next_preorder t) _ s).
Qed.

(** Low numbers above the stack change only from one number of the stack to another. *)
Lemma complete_low P L L' (v : nat) : (L' v = NOT_ON_STACK <-> L v = NOT_ON_STACK) ->
  Tarjan.complete NOT_ON_STACK P L' v <-> Tarjan.complete NOT_ON_STACK P L v.
Proof. unfold Tarjan.complete. naive_solver. Qed.

Lemma ids_ext id nx C C' : (forall v, C' v <-> C v) -> Tarjan.ids_ok edge id nx C -> Tarjan.ids_ok edge id nx C'.
Proof.
  intros Hc [D1 D2 D3 D4 D5]. split; [done|done| | |].
  - intros v Hv. apply D3. by rewrite <- Hc.
  - intros v Hv%Hc. auto.
  - intros u v Hu%Hc Hv%Hc. auto.
Qed.

Lemma low_inv t w gray s : tinv t (w :: gray) None -> edge w s -> get (pre t) s <> 0 ->
  let t' := if get (low t) s <? get (low t) w then set_low w (get (low t) s) t else t in
  tinv t' (w :: gray) None /\ Tarjan.ok NOT_ON_STACK (get (pre t')) (get (low t')) (stack t') w s.
Proof.
  intros Ht He H0. destruct (gray_bound t _ _ w Ht ltac:(left)) as [Hw Hws].
  pose proof Ht as [T1 T2 T3 T4 T5 T6 T7 T8 T9].
  destruct (Tarjan.i_low _ _ _ _ _ _ _ _ _ _ _ T6 w Hws) as [Hlw _].
  pose proof (Tarjan.i_pos _ _ _ _ _ _ _ _ _ _ _ T6 w) as Hpw. pose proof (Tarjan.i_next _ _ _ _ _ _ _ _ _ _ _ T6) as Hnx.
  destruct (Z.ltb_spec (get (low t) s) (get (low t) w)) as [Hlt|Hge]; cbn zeta.
  2:{ split; [done|]. by eapply Tarjan.visited_ok. }
  destruct (vec_insert (low t) w (get (low t) s) ltac:(lia)) as [L1 L2].
  assert (s ∈ stack t) as Hs by (apply (Tarjan.i_stack _ _ _ _ _ _ _ _ _ _ _ T6); split; [done|lia]).
  assert (tinv (set_low w (get (low t) s) t) (w :: gray) None) as Ht'.
  { split; cbn [pre low stack dfs succ_iter next_preorder next_scc_id scc_id set_low]; rewrite ?length_insert; try done.
    - apply (Tarjan.inv_low edge (successors prog) n NOT_ON_STACK (get (pre t)) (get (low t)) (iter t) (stack t) w gray
        (next_preorder t) _ s); [done|done|done|done|by apply rtc_once|lia].
    - eapply ids_ext; [|done]. intros v. apply complete_low. destruct (decide (v = w)) as [->|]; [rewrite L1; lia|by rewrite L2]. }
  split; [done|]. eapply Tarjan.visited_ok; [apply (t_inv _ _ _ Ht')|done|].
  cbn [low set_low]. destruct (decide (s = w)) as [->|]; [lia|]. rewrite L1, L2 by done. lia.
Qed.

(** Looking at the successors: the work stays, or one of it is pushed. *)
Lemma scan_inv w gray rest t : tinv t (w :: gray) None -> rest = drop (iter t w) (successors prog w) ->
  let '(t', pushed) := scan n w rest t in
  if pushed : bool then exists s, tinv t' (w :: gray) (Some s) /\ todo t' (w :: gray) (Some s) = todo t (w :: gray) None - 1
  else tinv t' (w :: gray) None /\ (length (successors prog w) <= iter t' w)%nat /\
       todo t' (w :: gray) None = todo t (w :: gray) None.
Proof.
  revert t. induction rest as [|s rest IH]; intros t Ht Hr; cbn [scan].
  { split_and!; [done| |done]. symmetry in Hr. apply (f_equal length) in Hr. rewrite length_drop in Hr. cbn in Hr. lia. }
  assert (successors prog w !! iter t w = Some s) as Hs by (rewrite <- (Nat.add_0_r (iter t w)), <- lookup_drop, <- Hr; done).
  assert (rest = drop (S (iter t w)) (successors prog w)) as Hrest by (rewrite <- Nat.add_1_r, <- drop_drop, <- Hr; done).
  assert (forall t', set_dfs (dfs t') t' = t') as Hid by (by intros []).
  destruct (Nat.leb_spec n s) as [Hns|Hns].
  { destruct (advance_inv t w gray s None Ht Hs) as [Ha Hi]; [left; auto|].
    apply (IH (advance w t)); [by rewrite <- (Hid (advance w t))|by rewrite Hi]. }
  destruct (Z.eqb_spec (get (pre (advance w t)) s) 0) as [H0|H0]; cbn [pre advance] in H0.
  { exists s. split; [|unfold todo; cbn [pre set_dfs advance]; lia]. apply (advance_inv t w gray s (Some s)); [done|done|right; auto]. }
  destruct (low_inv t w gray s Ht) as [Hl Hok]; [split; [by eapply list_elem_of_lookup_2|done]|done|].
  set (t1 := if get (low t) s <? get (low t) w then set_low w (get (low t) s) t else t) in *.
  assert (iter t1 w = iter t w) as Hi1 by (unfold t1; by destruct (_ <? _)).
  destruct (advance_inv t1 w gray s None Hl) as [Ha Hi]; [by rewrite Hi1|left; auto|].
  assert ((if get (low (advance w t)) s <? get (low (advance w t)) w then set_low w (get (low (advance w t)) s) (advance w t)
    else advance w t) = advance w t1) as -> by (unfold t1; cbn [low advance]; by destruct (_ <? _)).
  specialize (IH (advance w t1)). rewrite <- (Hid (advance w t1)) in IH at 1. specialize (IH Ha).
  rewrite Hi, Hi1 in IH. specialize (IH Hrest).
  assert (forall top, todo (advance w t1) (w :: gray) top = todo t (w :: gray) top) as Htd by (unfold t1; by destruct (_ <? _)).
  destruct (scan n w rest (advance w t1)) as [t' []]; by rewrite Htd in IH.
Qed.

Lemma return_inv t w p gray : tinv t (w :: p :: gray) None -> (length (successors prog w) <= iter t w)%nat ->
  get (low t) w < get (pre t) w ->
  tinv (set_dfs (p :: gray) (if get (low t) w <? get (low t) p then set_low p (get (low t) w) t else t)) (p :: gray) None.
Proof.
  intros Ht Hall Hlt. destruct (gray_bound t _ _ w Ht ltac:(left)) as [Hw Hws].
  destruct (gray_bound t _ _ p Ht ltac:(right; left)) as [Hp Hps]. pose proof Ht as [T1 T2 T3 T4 T5 T6 T7 T8 T9].
  set (t' := if get (low t) w <? get (low t) p then set_low p (get (low t) w) t else t).
  assert (get (low t') p = Z.min (get (low t) p) (get (low t) w) /\
    forall v, v <> p -> get (low t') v = get (low t) v) as [L1 L2].
  { unfold t'. destruct (Z.ltb_spec (get (low t) w) (get (low t) p)); [|split; [lia|done]].
    destruct (vec_insert (low t) p (get (low t) w) ltac:(lia)) as [L1 L2]. cbn [low set_low]. split; [rewrite L1; lia|done]. }
  assert (Tarjan.inv edge (successors prog) n NOT_ON_STACK (get (pre t)) (get (low t')) (iter t) (stack t) (p :: gray) None
    (next_preorder t)) as Hi.
  { by apply (Tarjan.inv_return edge (successors prog) n NOT_ON_STACK edge_succs (get (pre t)) (get (low t)) (iter t)
      (stack t) w p gray). }
  assert (forall v, v ∈ stack t -> get (low t) v <> NOT_ON_STACK) as Hnot
    by (intros v Hv; by apply (Tarjan.i_stack _ _ _ _ _ _ _ _ _ _ _ T6)).
  assert (Tarjan.ids_ok edge (get (scc_id t)) (next_scc_id t)
    (Tarjan.complete NOT_ON_STACK (get (pre t)) (get (low t')))) as Hids.
  { eapply ids_ext; [|done]. intros v. apply complete_low. destruct (decide (v = p)) as [->|]; [|by rewrite L2].
    rewrite L1. pose proof (Hnot p Hps). pose proof (Hnot w Hws). lia. }
  assert (length (low t') = n) as Hl by (unfold t'; destruct (_ <? _); [by cbn; rewrite length_insert|done]).
  unfold t' in *. destruct (_ <? _);
    (split; cbn [pre low stack dfs succ_iter next_preorder next_scc_id scc_id set_dfs set_low] in *; done).
Qed.

Lemma component_inv t w gray : tinv t (w :: gray) None -> (length (successors prog w) <= iter t w)%nat ->
  get (pre t) w <= get (low t) w ->
  exists t', finish prog w t = Some t' /\ tinv t' gray None /\ pre t' = pre t.
Proof.
  intros Ht Hall Hroot. destruct (gray_bound t _ _ w Ht ltac:(left)) as [Hw Hws].
  pose proof Ht as [T1 T2 T3 T4 T5 T6 T7 T8 T9]. unfold finish.
  destruct (Z.ltb_spec (get (low t) w) (get (pre t) w)) as [|_]; [lia|].
  destruct (list_elem_of_split_l _ _ Hws) as (k & st & Hst & Hwk). rewrite Hst in *.
  assert (forall v, v ∈ k \/ v = w -> (v < n)%nat) as Hb.
  { intros v Hv. apply (Tarjan.i_range _ _ _ _ _ _ _ _ _ _ _ T6), (Tarjan.i_stack _ _ _ _ _ _ _ _ _ _ _ T6).
    rewrite elem_of_app, elem_of_cons. tauto. }
  set (assign := negb (bool_decide (head (k ++ w :: st) = Some w)) || bool_decide (w ∈ successors prog w)).
  assert (assign = true <-> k <> [] \/ edge w w) as Has.
  { unfold assign. rewrite orb_true_iff, negb_true_iff, bool_decide_eq_false, bool_decide_eq_true. unfold edge.
    destruct k as [|a k]; cbn [app head].
    - naive_solver.
    - rewrite not_elem_of_cons in Hwk. naive_solver. }
  destruct (pop_component_spec w assign (next_scc_id t) k st (low t) (scc_id t) Hwk)
    as (low' & ids' & -> & H1 & H2 & H3 & H4).
  { apply Forall_forall. intros v Hv. rewrite T2, T4.
    enough (v < n)%nat by done. apply Hb. set_solver. }
  destruct (Tarjan.inv_component edge (successors prog) n NOT_ON_STACK edge_succs (get (pre t)) (get (low t)) (iter t) w k st
    gray (next_preorder t) T6 Hall Hroot (get low')) as [Hi Hc].
  { intros v Hv. by apply H3. } { intros v Hv. by apply H4. }
  pose proof (Tarjan.ids_component edge (successors prog) n NOT_ON_STACK edge_succs (get (pre t)) (get (low t)) (iter t) w k st
    gray (next_preorder t) T6 Hall Hroot (get (scc_id t)) (next_scc_id t) (get ids') assign T9 Has) as Hids.
  specialize (Hids ltac:(intros v Hv; by apply H3) ltac:(intros v Hv; by apply H4)).
  rewrite length_app in T8. cbn [length] in T8.
  eexists. split; [done|]. split; [|done].
  assert ((if assign then u32 (next_scc_id t + 1) else next_scc_id t) =
    if assign then next_scc_id t + 1 else next_scc_id t) as Hnx.
  { destruct assign; [|done]. apply u32_in_range. pose proof (Tarjan.d_next _ _ _ _ T9).
    unfold NOT_ON_STACK in Hn. lia. }
  split; cbn [pre low stack dfs succ_iter next_preorder next_scc_id scc_id]; try congruence; try done.
  - by rewrite T5.
  - rewrite Hnx. destruct assign; lia.
  - rewrite Hnx. eapply ids_ext; [|exact Hids]. intros v. apply Hc.
Qed.

Lemma scan_pre w rest t : pre (scan n w rest t).1 = pre t.
Proof.
  revert t. induction rest as [|s rest IH]; intros t; cbn [scan]; [done|].
  destruct (n <=? s)%nat; [by rewrite IH|]. destruct (_ =? 0); [done|]. rewrite IH. by destruct (_ <? _).
Qed.

Lemma enter_visits t w : (w < length (pre t))%nat -> 1 <= next_preorder t ->
  get (pre (enter w t)) w <> 0 /\ forall v, get (pre t) v <> 0 -> get (pre (enter w t)) v <> 0.
Proof.
  intros Hw Hnx. unfold enter. destruct (Z.eqb_spec (get (pre t) w) 0) as [H0|H0]; [|done].
  destruct (vec_insert (pre t) w (next_preorder t) Hw) as [P1 P2]. cbn [pre]. split; [rewrite P1; lia|].
  intros v Hv. rewrite P2; [done|]. by intros ->.
Qed.

(** One turn of the loop. *)
Lemma turn_inv t gray top : tinv t gray top -> dfs t <> [] ->
  exists t' gray' top', step prog t = Some t' /\ tinv t' gray' top' /\ todo t' gray' top' = todo t gray top - 1 /\
    (forall v, head (dfs t) = Some v -> get (pre t') v <> 0) /\
    (forall v, get (pre t) v <> 0 -> get (pre t') v <> 0).
Proof.
  intros Ht Hd.
  assert (exists w gray1, head (dfs t) = Some w /\ tinv (enter w t) (w :: gray1) None /\
    todo (enter w t) (w :: gray1) None = todo t gray top) as (w & gray1 & Hhead & Ht1 & Htd).
  { pose proof (t_dfs _ _ _ Ht) as Hdfs. destruct top as [w|].
    - exists w, gray. rewrite Hdfs. split; [done|]. by apply enter_inv.
    - destruct gray as [|w gray]; [by rewrite Hdfs in Hd|]. exists w, gray. rewrite Hdfs. split; [done|].
      unfold enter. destruct (gray_bound t _ _ w Ht ltac:(left)) as [_ Hw].
      apply (Tarjan.i_stack _ _ _ _ _ _ _ _ _ _ _ (t_inv _ _ _ Ht)) in Hw as [Hw _].
      by destruct (Z.eqb_spec (get (pre t) w) 0). }
  assert (get (pre (enter w t)) w <> 0 /\ forall v, get (pre t) v <> 0 -> get (pre (enter w t)) v <> 0) as [Hv1 Hv2].
  { apply enter_visits; [rewrite (t_pre _ _ _ Ht); by apply (gray_bound _ _ _ w Ht1); left|].
    apply (Tarjan.i_next _ _ _ _ _ _ _ _ _ _ _ (t_inv _ _ _ Ht)). }
  rewrite Hhead. unfold step. destruct (dfs t) as [|w' rest]; [done|]. injection Hhead as ->.
  pose proof (scan_inv w gray1 _ (enter w t) Ht1 eq_refl) as Hs. fold n. fold (iter (enter w t) w).
  pose proof (scan_pre w (drop (iter (enter w t) w) (successors prog w)) (enter w t)) as Hpre2.
  destruct (scan n w _ (enter w t)) as [t2 []]; cbn [fst] in Hpre2; rewrite <- Hpre2 in Hv1, Hv2.
  { destruct Hs as (s & Hs & Hst). exists t2, (w :: gray1), (Some s). split_and!; [done|done|lia|naive_solver|done]. }
  destruct Hs as (Ht2 & Hall & Hst).
  destruct (decide (get (low t2) w < get (pre t2) w)) as [Hlt|Hge].
  - destruct gray1 as [|p gray1].
    { pose proof (Tarjan.inv_root _ _ _ _ _ _ _ _ _ _ (t_inv _ _ _ Ht2)). lia. }
    unfold finish. rewrite (t_dfs _ _ _ Ht2). cbn [option_list app tail].
    destruct (Z.ltb_spec (get (low t2) w) (get (pre t2) w)); [|lia].
    eexists _, (p :: gray1), None. split; [done|]. split; [by apply return_inv|].
    unfold todo in *. cbn [length] in *. destruct (_ <? _); cbn [pre set_dfs set_low]; (split; [lia|]; naive_solver).
  - destruct (component_inv t2 w gray1 Ht2 Hall) as (t' & -> & Ht' & Hpre); [lia|].
    exists t', gray1, None. split; [done|]. split; [done|]. unfold todo in *. rewrite Hpre. cbn [length] in *.
    split; [lia|]. naive_solver.
Qed.

Lemma search_ends fuel t gray top : tinv t gray top -> todo t gray top <= Z.of_nat fuel ->
  exists t', search fuel prog t = Some t' /\ tinv t' [] None /\
    (forall v, head (dfs t) = Some v -> get (pre t') v <> 0) /\
    (forall v, get (pre t) v <> 0 -> get (pre t') v <> 0).
Proof.
  revert t gray top. induction fuel as [|fuel IH]; intros t gray top Ht Hf; cbn [search].
  - destruct (dfs t) eqn:Ed.
    + pose proof (t_dfs _ _ _ Ht) as Hd. rewrite Ed in Hd. destruct top, gray; try done. by exists t.
    + exfalso. destruct (turn_inv t gray top Ht) as (t' & gray' & top' & _ & Ht' & Htd & _); [by rewrite Ed|].
      unfold todo in *. destruct top' as [s|]; [|lia].
      pose proof (t_inv _ _ _ Ht') as Hi. destruct (Tarjan.i_top _ _ _ _ _ _ _ _ _ _ _ Hi s eq_refl) as (Hs & H0 & _).
      pose proof (white_insert (pre t') s 1 H0). rewrite (t_pre _ _ _ Ht') in *. lia.
  - destruct (dfs t) eqn:Ed.
    + pose proof (t_dfs _ _ _ Ht) as Hd. rewrite Ed in Hd. destruct top, gray; try done. by exists t.
    + destruct (turn_inv t gray top Ht) as (t' & gray' & top' & -> & Ht' & Htd & Hv1 & Hv2); [by rewrite Ed|].
      destruct (IH t' gray' top' Ht') as (z & Hz & Hzi & _ & Hz2); [lia|]. exists z. rewrite Ed in Hv1.
      split_and!; [done|done| |]; intros v Hv; apply Hz2; auto.
Qed.

Lemma roots_end roots t : (forall r, r ∈ roots -> (r < n)%nat) -> tinv t [] None ->
  exists t', search_roots prog roots t = Some t' /\ tinv t' [] None /\
    forall v, v ∈ roots \/ get (pre t) v <> 0 -> get (pre t') v <> 0.
Proof.
  revert t. induction roots as [|r roots IH]; intros t Hr Ht; cbn [search_roots].
  { exists t. split_and!; [done|done|]. intros v [?%elem_of_nil|?]; done. }
  assert (forall q, q ∈ roots -> (q < n)%nat) as Hr' by (intros; apply Hr; by right).
  destruct (Z.eqb_spec (get (pre t) r) 0) as [H0|H0].
  - assert (tinv (set_dfs [r] t) [] (Some r)) as Hs.
    { destruct Ht as [T1 T2 T3 T4 T5 T6 T7 T8 T9]. split; cbn [pre low stack dfs succ_iter next_preorder next_scc_id scc_id set_dfs]; try done.
      destruct T6 as [H1 H2 H3 H4 H5 H6 H7 H8 H9 H10 H11 H12 H13 H14 H15 H16]. split; try done.
      - intros s [= <-]. split_and!; [apply Hr; left|done|done].
      - by intros g s ?%elem_of_nil. }
    destruct (search_ends (search_fuel prog) _ _ _ Hs) as (t1 & -> & Ht1 & Hv1 & Hv2).
    { unfold todo, search_fuel. cbn [pre set_dfs length]. pose proof (t_count _ _ _ Ht).
      pose proof (Tarjan.i_next _ _ _ _ _ _ _ _ _ _ _ (t_inv _ _ _ Ht)). fold n. lia. }
    destruct (IH t1 Hr' Ht1) as (z & Hz & Hzi & Hzv). exists z. split_and!; [done|done|].
    intros v [[->|Hv]%elem_of_cons|Hv]; apply Hzv; [right; by apply Hv1|by left|right; by apply Hv2].
  - destruct (IH t Hr' Ht) as (z & Hz & Hzi & Hzv). exists z. split_and!; [done|done|].
    intros v [[->|Hv]%elem_of_cons|Hv]; apply Hzv; auto.
Qed.

Lemma start_inv : tinv (MkT (replicate n 0) (replicate n 0) [] [] (replicate n 0%nat) 1 1 (replicate n 0)) [] None.
Proof.
  assert (forall v, get (replicate n 0) v = 0) as H0.
  { intros v. unfold get. destruct (replicate n 0 !! v) eqn:E; [|done]. by apply lookup_replicate in E as [-> _]. }
  split; cbn [pre low stack dfs succ_iter next_preorder next_scc_id scc_id]; rewrite ?length_replicate; try done.
  - split; try (by constructor); try (intros *; rewrite ?H0; done); try (by intros ? ?%elem_of_nil); try (by intros ? ? ?%elem_of_nil).
    + intros v. rewrite elem_of_nil, H0. naive_solver.
    + intros v s [Hv _] _. by rewrite H0 in Hv.
  - assert (forall k, white (replicate k 0) = k) as -> by (unfold white; induction k; cbn; congruence). lia.
  - split.
    + lia.
    + intros v. rewrite H0. lia.
    + intros v _. apply H0.
    + intros v [Hv _]. by rewrite H0 in Hv.
    + intros u v [Hv _]. by rewrite H0 in Hv.
Qed.
End Search.

(** C23. The computation of the components always ends, without running out of its stack, and an instruction gets
    an identifier other than 0 exactly when it lies on a cycle of the graph of control; two instructions
    on cycles have the same identifier exactly when each is reachable from the other. *)
Theorem compute_scc_exact prog : let n := length (instrs prog) in
  Z.of_nat n < NOT_ON_STACK ->
  exists ids, compute_scc prog (replicate n 0) = Some ids /\ length ids = n /\
    forall u v, (u < n)%nat -> (v < n)%nat ->
      (get ids u <> 0 <-> tc (edge prog) u u) /\
      (get ids u <> 0 -> (get ids u = get ids v <-> rtc (edge prog) u v /\ rtc (edge prog) v u)).
Proof.
  intros n Hn. unfold compute_scc. fold n. destruct (Nat.eqb_spec n 0) as [H0|H0].
  { exists (replicate n 0). split_and!; [done|by rewrite length_replicate|lia]. }
  destruct (roots_end prog Hn (seq 0 n) _ ltac:(intros r [_ ?]%elem_of_seq; done) (start_inv prog))
    as (t & Ht & Hi & Hv).
  fold n in Ht. rewrite Ht. exists (scc_id t). split; [done|]. split; [apply (t_ids _ _ _ _ Hi)|].
  assert (forall v, (v < n)%nat -> Tarjan.complete NOT_ON_STACK (get (pre t)) (get (low t)) v) as Hc.
  { intros v Hvn. assert (get (pre t) v <> 0) as Hp by (apply Hv; left; apply elem_of_seq; lia). split; [done|].
    destruct (decide (get (low t) v = NOT_ON_STACK)) as [|Hl]; [done|exfalso].
    pose proof (t_inv _ _ _ _ Hi) as Ht'.
    assert (v ∈ stack t) as Hs by (by apply (Tarjan.i_stack _ _ _ _ _ _ _ _ _ _ _ Ht')).
    destruct (Tarjan.i_below _ _ _ _ _ _ _ _ _ _ _ Ht' v Hs) as (g & Hg & _). by apply elem_of_nil in Hg. }
  intros u v Hu Hvn. destruct (t_exact _ _ _ _ Hi) as [_ _ _ D4 D5]. auto.
Qed.

(** Two loops, one around the other, and a way out. *)
Definition nested_loops : Program := MkProgram
  [If W64 Zone.R1 Eq (OImm 0) 2; Jmp 0; LoadMap Zone.R1 MapPtr 0 0; Jmp 3; Exit].

Lemma compute_scc_exact_witness :
  exists ids, compute_scc nested_loops (replicate 5 0) = Some ids /\
    tc (edge nested_loops) 0%nat 0%nat /\ ~ tc (edge nested_loops) 2%nat 2%nat.
Proof.
  destruct (compute_scc_exact nested_loops) as (ids & Hi & _ & H); [reflexivity|].
  exists ids. split; [exact Hi|]. vm_compute in Hi. injection Hi as <-. split.
  - apply (H 0%nat 0%nat); [cbn; lia|cbn; lia|]. discriminate.
  - intros Ht. apply (H 2%nat 2%nat) in Ht; [|cbn; lia|cbn; lia]. by apply Ht.
Defined.

End SccProps.
