(* ===== verification/Lower.v ===== *)
(** From bytes to the instructions of the verifier: [src/parsing/bpf_insn.rs] cuts a section into
    raw instructions, [src/parsing/elf/reloc.rs] patches them with what the loader resolved, and
    [src/parsing/bpf_to_ast.rs] lowers them to the program the analyses read. *)

From S2P Require Import Prelude Zone Ast.
From Stdlib Require Import ZArith Lia String Ascii.
From stdpp Require Import base numbers strings pretty gmap list.
Import Zone(Reg(..)).
Import Ast.
Open Scope Z_scope.

Module Lower.

(** * Raw instructions *)

Record RawBpfInsn : Type := MkRaw { code : Z; dst : Z; src : Z; off : Z; imm : Z }.

#[export] Instance RawBpfInsn_eq_dec : EqDecision RawBpfInsn.
Proof. solve_decision. Defined.

Fixpoint decode_insns (bytes : list Z) : list RawBpfInsn :=
  match bytes with
  | c :: reg :: o0 :: o1 :: i0 :: i1 :: i2 :: i3 :: rest =>
      MkRaw c (Z.land reg 0x0F) (Z.shiftr reg 4) (s16 (le_val [o0; o1]))
        (s32 (le_val [i0; i1; i2; i3])) :: decode_insns rest
  | _ => []
  end.

(** * Errors *)

Inductive LowerErrorKind : Type :=
| UnknownOpcode | InvalidLDIMM64 | BranchTargetOutOfRange | CallTargetOutOfBounds
| InvalidSrcReg | UnknownAtomicOp | CallUsedReservedFields | InvalidRegister.

Record LowerError : Type :=
  MkError { epc : nat; ecode : Z; msg : string; kind : LowerErrorKind }.

Inductive Result (A : Type) : Type := Ok (a : A) | Err (e : LowerError).
Arguments Ok {A} _.
Arguments Err {A} _.

#[export] Instance Result_ret : MRet Result := @Ok.
#[export] Instance Result_bind : MBind Result := fun A B k r =>
  match r with Ok a => k a | Err e => Err e end.

(** Lower-case hexadecimal digits of [v], without leading zeros. *)
Definition hex_digit (d : Z) : ascii := ascii_of_nat (Z.to_nat (if d <? 10 then 48 + d else 87 + d)).
Fixpoint hex_go (fuel : nat) (v : Z) (acc : string) : string :=
  match fuel with
  | O => acc
  | S fuel =>
      let acc := String (hex_digit (v mod 16)) acc in
      if v / 16 =? 0 then acc else hex_go fuel (v / 16) acc
  end.
Definition hex (v : Z) : string := hex_go 8 v "".
Definition hex02 (v : Z) : string :=
  if v <? 16 then String (hex_digit 0) (hex v) else hex v.

(** * Registers and targets *)

Definition reg_to_var (insn : RawBpfInsn) (r : Z) (pc : nat) : Result Reg :=
  match r with
  | 0 => Ok R0 | 1 => Ok R1 | 2 => Ok R2 | 3 => Ok R3 | 4 => Ok R4 | 5 => Ok R5
  | 6 => Ok R6 | 7 => Ok R7 | 8 => Ok R8 | 9 => Ok R9 | 10 => Ok R10
  | _ => Err (MkError pc (code insn) "invalid register" InvalidRegister)
  end.

Definition branch_target_disp (pc : nat) (disp : Z) (len : nat) (c : Z) : Result nat :=
  let t := Z.of_nat pc + 1 + disp in
  if (t <? 0) || (Z.of_nat len <=? t)
  then Err (MkError pc c ("branch target out of range: " ++ pretty t) BranchTargetOutOfRange)
  else Ok (Z.to_nat t).

Definition branch_target (pc : nat) (o : Z) (len : nat) (c : Z) : Result nat :=
  branch_target_disp pc o len c.

(** * One instruction *)

Section Insn.
Context (len pc : nat) (insn : RawBpfInsn) (rd rs : Reg).

Let sx : Operand := OImm (imm insn).
Let zx : Operand := OImm (u32 (imm insn)).
Let x : Operand := OReg rs.
Let alu (w : Width) (op : AluOp) (o : Operand) : Result Instr := Ok (Alu w op rd o).
Let jmp (w : Width) (op : CmpOp) (o : Operand) : Result Instr :=
  target ← branch_target pc (off insn) len (code insn); Ok (If w rd op o target).
Let ldx (size : MemSize) : Result Instr := Ok (Load size rd rs (off insn)).
Let ldsx (size : MemSize) : Result Instr := Ok (LoadSx size rd rs (off insn)).
Let st (size : MemSize) (o : Operand) : Result Instr := Ok (Store size rd (off insn) o).
Let abs (size : MemSize) : Result Instr := Ok (LoadPacket size Abs (imm insn) None).
Let ind (size : MemSize) : Result Instr := Ok (LoadPacket size Ind (imm insn) (Some rs)).
Let fail (m : string) (k : LowerErrorKind) : Result Instr := Err (MkError pc (code insn) m k).

Definition lower_mov32 : Result Instr :=
  match off insn with
  | 0 => Ok (Alu W32 Mov rd x)
  | 8 => Ok (MovSx W32 B8 rd x)
  | 16 => Ok (MovSx W32 B16 rd x)
  | _ => fail ("invalid MOV32 off field: " ++ pretty (off insn) ++ " (expected 0, 8, or 16)") UnknownOpcode
  end.

Definition lower_mov64 : Result Instr :=
  match off insn with
  | 0 | 1 => Ok (Alu W64 Mov rd x)
  | 8 => Ok (MovSx W64 B8 rd x)
  | 16 => Ok (MovSx W64 B16 rd x)
  | 32 => Ok (MovSx W64 B32 rd x)
  | _ => fail ("invalid MOV64 off field: " ++ pretty (off insn) ++ " (expected 0, 1, 8, 16, or 32)")
           UnknownOpcode
  end.

Definition lower_may_goto : Result Instr :=
  if negb (src insn =? 0) || negb (dst insn =? 0) || negb (imm insn =? 0)
  then fail "may_goto requires src=0, dst=0, imm=0" UnknownOpcode
  else target ← branch_target pc (off insn) len (code insn); Ok (MayGoto target).

Definition lower_gotol : Result Instr :=
  if negb (off insn =? 0)
  then fail ("gotol requires off=0 (got " ++ pretty (off insn) ++ ")") UnknownOpcode
  else target ← branch_target_disp pc (imm insn) len (code insn); Ok (Jmp target).

Definition lower_call : Result Instr :=
  let off_reserved := negb (src insn =? 2) in
  if (off_reserved && negb (off insn =? 0)) || negb (dst insn =? 0)
  then fail "BPF_CALL uses reserved fields" CallUsedReservedFields
  else if decide (rs = R0) then Ok (Call (Helper (u32 (imm insn))))
  else if decide (rs = R1) then
    let target := Z.of_nat pc + 1 + imm insn in
    if (target <? 0) || (Z.of_nat len <=? target)
    then Err (MkError pc 0x85 "Call target out of bounds" CallTargetOutOfBounds)
    else Ok (CallRel (Z.to_nat target))
  else if decide (rs = R2) then Ok (Call (Kfunc (u32 (imm insn)) (off insn)))
  else Err (MkError pc 0x85 "Invalid src register for call" InvalidSrcReg).

Definition atomic_op (i : Z) : option (AtomicOp * bool) :=
  match i with
  | 0x00 => Some (AAdd, false) | 0x01 => Some (AAdd, true)
  | 0x40 => Some (AOr, false) | 0x41 => Some (AOr, true)
  | 0x50 => Some (AAnd, false) | 0x51 => Some (AAnd, true)
  | 0xA0 => Some (AXor, false) | 0xA1 => Some (AXor, true)
  | 0xE1 => Some (AXchg, true)
  | 0xF1 => Some (ACmpXchg, true)
  | _ => None
  end.

Definition lower_atomic (size : MemSize) (narrow : bool) : Result Instr :=
  if imm insn =? 0x100 then Ok (LoadAcq size rd rs (off insn))
  else if imm insn =? 0x110 then Ok (StoreRel size rd (off insn) rs)
  else if narrow then
    fail ("unknown atomic opcode imm: 0x" ++ hex (u32 (imm insn)) ++
          " (B/H atomics are only defined for LOAD_ACQ/STORE_REL)") UnknownAtomicOp
  else match atomic_op (imm insn) with
       | Some (op, fetch) => Ok (Atomic op size fetch rd (off insn) rs)
       | None => fail ("unknown atomic opcode imm: 0x" ++ hex (u32 (imm insn))) UnknownAtomicOp
       end.

(** Every opcode but [0x18]. *)
Definition lower_insn : Result Instr :=
  match code insn with
  | 0xbc => lower_mov32
  | 0xbf => lower_mov64
  | 0xb7 => alu W64 Mov sx
  | 0x04 => alu W32 Add sx
  | 0x0c => alu W32 Add x
  | 0x07 => alu W64 Add sx
  | 0x0f => alu W64 Add x
  | 0x1f => alu W64 Sub x
  | 0x14 => alu W32 Sub sx
  | 0x17 => alu W64 Sub sx
  | 0x1c => alu W32 Sub x
  | 0x24 => alu W32 Mul sx
  | 0x2c => alu W32 Mul x
  | 0x27 => alu W64 Mul sx
  | 0x2f => alu W64 Mul x
  | 0x37 => alu W64 Div sx
  | 0x3f => alu W64 Div x
  | 0x34 => alu W32 Div zx
  | 0x3c => alu W32 Div x
  | 0x4f => alu W64 Or x
  | 0x5c => alu W32 And x
  | 0x5f => alu W64 And x
  | 0x6f => alu W64 Shl x
  | 0x7f => alu W64 Shr x
  | 0x54 => alu W32 And zx
  | 0x57 => alu W64 And sx
  | 0x44 => alu W32 Or zx
  | 0x4c => alu W32 Or x
  | 0x47 => alu W64 Or zx
  | 0x64 => alu W32 Shl zx
  | 0x6c => alu W32 Shl x
  | 0x67 => alu W64 Shl zx
  | 0x74 => alu W32 Shr zx
  | 0x77 => alu W64 Shr zx
  | 0x7c => alu W32 Shr x
  | 0x84 => alu W32 Neg (OImm 0)
  | 0x87 => alu W64 Neg (OImm 0)
  | 0x94 => alu W32 Mod sx
  | 0x9c => alu W32 Mod x
  | 0x97 => alu W64 Mod sx
  | 0x9f => alu W64 Mod x
  | 0xa4 => alu W32 Xor zx
  | 0xac => alu W32 Xor x
  | 0xa7 => alu W64 Xor sx
  | 0xaf => alu W64 Xor x
  | 0xc4 => alu W32 Arsh zx
  | 0xcc => alu W32 Arsh x
  | 0xc7 => alu W64 Arsh zx
  | 0xcf => alu W64 Arsh x
  | 0xd4 => Ok (Endian rd W32 ToLe (u32 (imm insn)))
  | 0xdc => Ok (Endian rd W32 ToBe (u32 (imm insn)))
  | 0xd7 => Ok (Endian rd W64 Bswap (u32 (imm insn)))
  | 0x95 => Ok Exit
  | 0x15 => jmp W64 Eq sx
  | 0x1d => jmp W64 Eq x
  | 0x1e => jmp W32 Eq x
  | 0x25 => jmp W64 UGt sx
  | 0x26 => jmp W32 UGt zx
  | 0x2d => jmp W64 UGt x
  | 0x2e => jmp W32 UGt x
  | 0x35 => jmp W64 UGe sx
  | 0x36 => jmp W32 UGe sx
  | 0x3d => jmp W64 UGe x
  | 0x3e => jmp W32 UGe x
  | 0x45 => jmp W64 Test sx
  | 0x46 => jmp W32 Test sx
  | 0x4d => jmp W64 Test x
  | 0x4e => jmp W32 Test x
  | 0x55 => jmp W64 Ne sx
  | 0x56 => jmp W32 Ne zx
  | 0x5d => jmp W64 Ne x
  | 0x5e => jmp W32 Ne x
  | 0x65 => jmp W64 SGt sx
  | 0x66 => jmp W32 SGt sx
  | 0x6d => jmp W64 SGt x
  | 0x6e => jmp W32 SGt x
  | 0x75 => jmp W64 SGe sx
  | 0x76 => jmp W32 SGe sx
  | 0x7d => jmp W64 SGe x
  | 0x7e => jmp W32 SGe x
  | 0xa5 => jmp W64 ULt sx
  | 0xa6 => jmp W32 ULt zx
  | 0xad => jmp W64 ULt x
  | 0xae => jmp W32 ULt x
  | 0xbd => jmp W64 ULe x
  | 0xb4 => alu W32 Mov zx
  | 0xb5 => jmp W64 ULe sx
  | 0xb6 => jmp W32 ULe zx
  | 0xbe => jmp W32 ULe x
  | 0xc5 => jmp W64 SLt sx
  | 0xc6 => jmp W32 SLt sx
  | 0xcd => jmp W64 SLt x
  | 0xce => jmp W32 SLt x
  | 0xd5 => jmp W64 SLe sx
  | 0xd6 => jmp W32 SLe sx
  | 0xdd => jmp W64 SLe x
  | 0xde => jmp W32 SLe x
  | 0x16 => jmp W32 Eq zx
  | 0x05 => target ← branch_target pc (off insn) len (code insn); Ok (Jmp target)
  | 0xe5 => lower_may_goto
  | 0x06 => lower_gotol
  | 0x61 => ldx U32
  | 0x69 => ldx U16
  | 0x71 => ldx U8
  | 0x79 => ldx U64
  | 0x91 => ldsx U8
  | 0x89 => ldsx U16
  | 0x81 => ldsx U32
  | 0x62 => st U32 sx
  | 0x63 => st U32 x
  | 0x6a => st U16 sx
  | 0x6b => st U16 x
  | 0x72 => st U8 sx
  | 0x73 => st U8 x
  | 0x7a => st U64 sx
  | 0x7b => st U64 x
  | 0x85 => lower_call
  | 0xDB => lower_atomic U64 false
  | 0xC3 => lower_atomic U32 false
  | 0xCB => lower_atomic U16 true
  | 0xD3 => lower_atomic U8 true
  | 0x20 => abs U32
  | 0x28 => abs U16
  | 0x30 => abs U8
  | 0x40 => ind U32
  | 0x48 => ind U16
  | 0x50 => ind U8
  | 0x00 => fail "unexpected opcode 0x00 (LDIMM64 continuation without prefix?)" InvalidLDIMM64
  | _ => fail ("unsupported opcode 0x" ++ hex02 (code insn) ++ " at pc " ++ pretty pc) UnknownOpcode
  end.

(** The two slots of opcode [0x18]; [cont] is the slot that follows. *)
Definition lower_ld_imm64 (cont : option RawBpfInsn) : Result Instr :=
  if (6 <? src insn) || negb (off insn =? 0) then
    fail ("invalid BPF_LD_IMM insn: src_reg=" ++ pretty (src insn) ++ " off=" ++ pretty (off insn) ++
          " (expected src 0..=6 and off 0)") InvalidLDIMM64
  else match cont with
  | None => fail "unexpected end of instructions after LDDW" InvalidLDIMM64
  | Some cont =>
      let failc m := Err (MkError pc (code cont) m InvalidLDIMM64) in
      if negb (code cont =? 0) then failc "expected continuation instruction after LDDW"
      else if negb (code cont =? 0) || negb (dst cont =? 0) || negb (src cont =? 0) || negb (off cont =? 0)
      then failc "invalid BPF_LD_IMM insn: next insn fields must be 0"
      else
        let imm_i64 := s64 (Z.lor (u32 (imm insn)) (Z.shiftl (u32 (imm cont)) 32)) in
        match rs with
        | R0 => Ok (Alu W64 Mov rd (OImm imm_i64))
        | R1 =>
            if negb (imm cont =? 0) then fail "invalid BPF_LD_IMM insn: imm must be 0" InvalidLDIMM64
            else Ok (LoadMap rd MapPtr (s32 imm_i64) 0)
        | R2 => Ok (LoadMap rd MapValue (s32 imm_i64) (imm cont))
        | R3 => Ok (LoadMap rd (PseudoBtfId (u32 imm_i64)) 0 0)
        | R4 =>
            let target := s64 (Z.of_nat pc + 2 + imm_i64) in
            if (target <? 0) || (Z.of_nat len <=? target)
            then failc "BPF_PSEUDO_FUNC target out of bounds"
            else Ok (LoadMap rd (PseudoFunc (u32 target)) 0 0)
        | R5 => Ok (LoadMap rd PseudoMapIdx (s32 imm_i64) 0)
        | R6 => Ok (LoadMap rd PseudoMapIdxValue (s32 imm_i64) (imm cont))
        | _ => failc "invalid BPF_LD_IMM insn: invalid source reg"
        end
  end.

End Insn.

(** * Whole programs *)

Record LProgram : Type := MkLProgram {
  instrs : list Instr; invalid_pc_set : gset nat; addr_space_cast_to_arena_pcs : gset nat }.

Definition push (p : LProgram) (i : Instr) : LProgram :=
  MkLProgram (instrs p ++ [i]) (invalid_pc_set p) (addr_space_cast_to_arena_pcs p).
Definition mark_invalid (p : LProgram) (pc : nat) : LProgram :=
  MkLProgram (instrs p) ({[pc]} ∪ invalid_pc_set p) (addr_space_cast_to_arena_pcs p).
Definition mark_arena (p : LProgram) (pc : nat) : LProgram :=
  MkLProgram (instrs p) (invalid_pc_set p) ({[pc]} ∪ addr_space_cast_to_arena_pcs p).

(** [off = 1] and [imm = 1] on a 64-bit move mark a cast to the arena. *)
Definition is_arena_cast (insn : RawBpfInsn) : bool :=
  (code insn =? 0xbf) && (off insn =? 1) && (imm insn =? 1).

(** The loop, from [pc] on; [rest] is what is left of the slots. *)
Fixpoint lower_from (len pc : nat) (rest : list RawBpfInsn) (p : LProgram) : Result LProgram :=
  match rest with
  | [] => Ok p
  | insn :: rest =>
      rd ← reg_to_var insn (dst insn) pc;
      rs ← reg_to_var insn (src insn) pc;
      if code insn =? 0x18 then
        i ← lower_ld_imm64 len pc insn rd rs (head rest);
        match rest with
        | [] => Ok p
        | _ :: rest =>
            lower_from len (pc + 2) rest
              (push (mark_invalid (push p i) (pc + 1)) (Alu W64 Mov R0 (OReg R0)))
        end
      else
        i ← lower_insn len pc insn rd rs;
        lower_from len (pc + 1) rest (push (if is_arena_cast insn then mark_arena p pc else p) i)
  end.

Definition lower_raw_to_program (raw : list RawBpfInsn) : Result LProgram :=
  lower_from (length raw) 0 raw (MkLProgram [] ∅ ∅).

End Lower.
