(* ===== verification/LowerProps.v ===== *)
(** Properties of the decoder and of the lowering. *)

From S2P Require Import Prelude SipHash Zone Ast Lower.
From Stdlib Require Import ZArith Lia String.
From stdpp Require Import base numbers strings gmap list.
Import Zone(Reg(..)).
Import Ast Lower.
Open Scope Z_scope.

Module LowerProps.

(** Cutting twice is cutting to the smaller width. *)
Lemma uwrap_uwrap w w' x : 0 <= w <= w' -> uwrap w (uwrap w' x) = uwrap w x.
Proof.
  intros Hw. unfold uwrap. apply Z.mod_mod_divide. exists (2 ^ (w' - w)). rewrite <- Z.pow_add_r by lia. f_equal. lia.
Qed.

(** * Decoding *)

(** Layout of an instruction in memory ([struct bpf_insn], little endian). *)
Definition encode_insn (x : RawBpfInsn) : list Z :=
  code x :: Z.lor (dst x) (Z.shiftl (src x) 4) :: le_bytes 2 (off x) ++ le_bytes 4 (imm x).

Definition encode_insns (l : list RawBpfInsn) : list Z := mjoin (encode_insn <$> l).

Lemma encode_insns_cons x l : encode_insns (x :: l) = encode_insn x ++ encode_insns l.
Proof. reflexivity. Qed.

Definition raw_ok (x : RawBpfInsn) : Prop :=
  in_u 8 (code x) /\ in_u 4 (dst x) /\ in_u 4 (src x) /\ in_s 16 (off x) /\ in_s 32 (imm x).

Lemma nibbles d s : in_u 4 d -> in_u 4 s ->
  Z.land (Z.lor d (Z.shiftl s 4)) 15 = d /\ Z.shiftr (Z.lor d (Z.shiftl s 4)) 4 = s /\
  is_byte (Z.lor d (Z.shiftl s 4)).
Proof.
  intros Hd Hs. unfold in_u in *. assert (exists n, (n < 16)%nat /\ d = Z.of_nat n) as (n & Hn & ->).
  { exists (Z.to_nat d). lia. }
  assert (exists m, (m < 16)%nat /\ s = Z.of_nat m) as (m & Hm & ->). { exists (Z.to_nat s). lia. }
  do 16 (destruct n as [|n]; [do 16 (destruct m as [|m]; [vm_compute; intuition congruence|]); lia|]). lia.
Qed.

Lemma decode_cons x rest : raw_ok x -> decode_insns (encode_insn x ++ rest) = x :: decode_insns rest.
Proof.
  intros (Hc & Hd & Hs & Ho & Hi). destruct x as [c d s o i]. cbn [code dst src off imm] in *.
  destruct (nibbles d s Hd Hs) as (E1 & E2 & _).
  pose proof (le_val_bytes 2 o) as E3. pose proof (le_val_bytes 4 i) as E4.
  unfold encode_insn. cbn [code dst src off imm].
  cbn [le_bytes app decode_insns] in *. rewrite E1, E2, E3, E4.
  change (8 * Z.of_nat 2) with 16. change (8 * Z.of_nat 4) with 32.
  by rewrite !swrap_uwrap, !swrap_small by (lia || done).
Qed.

Lemma byte_nibbles b : is_byte b -> in_u 4 (Z.land b 15) /\ in_u 4 (Z.shiftr b 4) /\
  Z.lor (Z.land b 15) (Z.shiftl (Z.shiftr b 4) 4) = b.
Proof.
  intros Hb. unfold is_byte, in_u in Hb. split_and!.
  - change 15 with (Z.ones 4). rewrite Z.land_ones by lia. unfold in_u. apply Z.mod_pos_bound. lia.
  - rewrite Z.shiftr_div_pow2 by lia. unfold in_u. change (2 ^ 4) with 16. pose proof (Z.div_lt_upper_bound b 16 16).
    pose proof (Z.div_pos b 16). lia.
  - change 15 with (Z.ones 4). rewrite <- Z.ldiff_ones_r by lia. apply Z.bits_inj'. intros i Hi.
    rewrite Z.lor_spec, Z.land_spec, Z.ldiff_spec. by destruct (Z.testbit b i), (Z.testbit (Z.ones 4) i).
Qed.

Lemma le_bytes_swrap n w bs : Forall is_byte bs -> length bs = n -> w = 8 * Z.of_nat n -> (0 < n)%nat ->
  le_bytes n (swrap w (le_val bs)) = bs.
Proof.
  intros Hb <- -> Hn. set (X := le_bytes _ _).
  assert (le_bytes (length bs) (le_val X) = X) as <-.
  { rewrite <- (length_le_bytes (length bs) (swrap (8 * Z.of_nat (length bs)) (le_val bs))).
    apply le_bytes_val, le_bytes_are_bytes. }
  unfold X. rewrite le_val_bytes, uwrap_swrap, uwrap_small by (lia || by apply le_val_range).
  by apply le_bytes_val.
Qed.

Lemma decode_bytes bytes : Forall is_byte bytes ->
  Forall raw_ok (decode_insns bytes) /\
  encode_insns (decode_insns bytes) = take (8 * (length bytes / 8)) bytes.
Proof.
  induction bytes as [bytes IH] using (induction_ltof1 _ (@length Z)). unfold ltof in IH. intros Hb.
  destruct bytes as [|c [|g [|o0 [|o1 [|i0 [|i1 [|i2 [|i3 rest]]]]]]]]; try (cbn; done).
  repeat (apply Forall_cons in Hb as [? Hb]).
  destruct (IH rest) as [IH1 IH2]; [cbn; lia|done|]. cbn [decode_insns].
  destruct (byte_nibbles g ltac:(done)) as (Hd & Hs & Hg). split.
  - apply Forall_cons. split; [|done]. unfold raw_ok. cbn [code dst src off imm].
    split_and!; [done..|apply swrap_range; lia|apply swrap_range; lia].
  - replace (length (c :: g :: o0 :: o1 :: i0 :: i1 :: i2 :: i3 :: rest) / 8)%nat with (S (length rest / 8)).
    2: { cbn [length]. replace (S (S (S (S (S (S (S (S (length rest)))))))))%nat with (length rest + 1 * 8)%nat by lia.
         rewrite Nat.div_add by lia. lia. }
    replace (8 * S (length rest / 8))%nat with (8 + 8 * (length rest / 8))%nat by lia.
    rewrite encode_insns_cons, IH2. unfold encode_insn.
    cbn [code dst src off imm]. rewrite Hg, (le_bytes_swrap 2), (le_bytes_swrap 4) by (lia || done || by repeat (apply Forall_cons; split; [done|])). done.
Qed.

(** C32. [decode_insns] is the inverse of the layout of [struct bpf_insn]: it gives back the
    instructions of an encoded program, whatever the fewer than eight bytes that follow; and of any
    bytes it gives instructions whose fields are in range and whose encoding is the whole eight-byte
    slots of the input. *)
Theorem decode_round_trip (l : list RawBpfInsn) (bytes rest : list Z) :
  Forall raw_ok l -> (length rest < 8)%nat -> Forall is_byte bytes ->
  decode_insns (encode_insns l ++ rest) = l /\
  Forall raw_ok (decode_insns bytes) /\
  encode_insns (decode_insns bytes) = take (8 * (length bytes / 8)) bytes.
Proof.
  intros Hl Hr Hb. split; [|by apply decode_bytes]. induction Hl as [|x l Hx Hl IH].
  - cbn. do 8 (destruct rest as [|? rest]; [done|]). cbn in Hr. lia.
  - rewrite encode_insns_cons, <- (assoc_L (++)), decode_cons by done. by f_equal.
Qed.

Lemma decode_round_trip_witness :
  decode_insns (encode_insns [MkRaw 0x63 10 1 (-4) 0; MkRaw 0x95 0 0 0 0] ++ [1; 2; 3]) =
    [MkRaw 0x63 10 1 (-4) 0; MkRaw 0x95 0 0 0 0] /\
  encode_insns (decode_insns [0xb7; 0x21; 0xff; 0xff; 1; 0; 0; 0x80; 9; 9]) =
    [0xb7; 0x21; 0xff; 0xff; 1; 0; 0; 0x80].
Proof.
  destruct (decode_round_trip [MkRaw 0x63 10 1 (-4) 0; MkRaw 0x95 0 0 0 0]
    [0xb7; 0x21; 0xff; 0xff; 1; 0; 0; 0x80; 9; 9] [1; 2; 3]) as (E1 & _ & E2).
  - repeat (apply Forall_cons; split; [vm_compute; intuition congruence|]). by apply Forall_nil.
  - cbn. lia.
  - repeat (apply Forall_cons; split; [split; vm_compute; congruence|]). by apply Forall_nil.
  - split; [exact E1|exact E2].
Defined.

(** * The lowering, slot by slot *)

(** Slot [pc] is the second half of a two-slot instruction. *)
Definition second (raw : list RawBpfInsn) (pc : nat) : bool :=
  match pc with
  | O => false
  | S q => match raw !! q with Some x => code x =? 0x18 | None => false end
  end.

(** What the lowering makes of the slot [pc] alone. *)
Definition lower_at (raw : list RawBpfInsn) (pc : nat) (x : RawBpfInsn) : Result Instr :=
  rd ← reg_to_var x (dst x) pc;
  rs ← reg_to_var x (src x) pc;
  if code x =? 0x18 then lower_ld_imm64 (length raw) pc x rd rs (raw !! S pc)
  else lower_insn (length raw) pc x rd rs.

Definition nop : Instr := Alu W64 Mov R0 (OReg R0).

Definition blank (x : RawBpfInsn) : Prop := code x = 0 /\ dst x = 0 /\ src x = 0 /\ off x = 0.

(** The first [n] slots are lowered in [p]. *)
Definition good (raw : list RawBpfInsn) (n : nat) (p : LProgram) : Prop :=
  length (instrs p) = n /\
  (forall k, k ∈ invalid_pc_set p <-> (k < n)%nat /\ second raw k = true) /\
  (forall k, k ∈ addr_space_cast_to_arena_pcs p <->
     (k < n)%nat /\ exists x, raw !! k = Some x /\ is_arena_cast x = true) /\
  (forall k x, (k < n)%nat -> raw !! k = Some x ->
     if second raw k then blank x /\ instrs p !! k = Some nop
     else exists i, lower_at raw k x = Ok i /\ instrs p !! k = Some i).

(** [e] is the error of the first slot that has one. *)
Definition first_error (raw : list RawBpfInsn) (e : LowerError) : Prop :=
  exists x, raw !! epc e = Some x /\ second raw (epc e) = false /\ lower_at raw (epc e) x = Err e /\
  forall k y, (k < epc e)%nat -> raw !! k = Some y -> second raw k = false ->
    exists i, lower_at raw k y = Ok i.

Lemma lower_bind_Err {A B} (r : Result A) (f : A -> Result B) e :
  r ≫= f = Err e -> r = Err e \/ exists a, r = Ok a /\ f a = Err e.
Proof. destruct r; naive_solver. Qed.

Lemma lower_bind_Ok {A B} (r : Result A) (f : A -> Result B) b :
  r ≫= f = Ok b -> exists a, r = Ok a /\ f a = Ok b.
Proof. destruct r; naive_solver. Qed.

Ltac binds := repeat match goal with
  | H : _ ≫= _ = Err _ |- _ => apply lower_bind_Err in H as [H|(? & ? & H)]
  | H : _ ≫= _ = Ok _ |- _ => apply lower_bind_Ok in H as (? & ? & H)
  end.

Lemma reg_to_var_err x r pc e : reg_to_var x r pc = Err e -> epc e = pc.
Proof. unfold reg_to_var. intros H. repeat case_match; simplify_eq; done. Qed.

Lemma branch_target_err pc d len c e : branch_target_disp pc d len c = Err e -> epc e = pc.
Proof. unfold branch_target_disp. intros H. repeat case_match; by simplify_eq. Qed.

Lemma lower_insn_err len pc x rd rs e : lower_insn len pc x rd rs = Err e -> epc e = pc.
Proof.
  unfold lower_insn, lower_call, lower_atomic, lower_mov32, lower_mov64, lower_gotol, lower_may_goto, branch_target.
  intros H. repeat case_match; binds; simplify_eq; try done; by eapply branch_target_err.
Qed.

Lemma lower_ld_imm64_err len pc x rd rs c e : lower_ld_imm64 len pc x rd rs c = Err e -> epc e = pc.
Proof. unfold lower_ld_imm64. intros H. repeat case_match; by simplify_eq. Qed.

Lemma lower_at_err raw pc x e : lower_at raw pc x = Err e -> epc e = pc.
Proof.
  unfold lower_at. intros H.
  binds; [by eapply reg_to_var_err| by eapply reg_to_var_err|].
  case_match; [by eapply lower_ld_imm64_err|by eapply lower_insn_err].
Qed.

(** A two-slot instruction is lowered only with a blank second slot. *)
Lemma lower_ld_imm64_cont len pc x rd rs c i : lower_ld_imm64 len pc x rd rs c = Ok i ->
  exists y, c = Some y /\ blank y.
Proof.
  unfold lower_ld_imm64. intros H. destruct (_ || _) eqn:?; [done|]. destruct c as [y|]; [|done].
  exists y. split; [done|]. unfold blank.
  destruct (Z.eqb_spec (code y) 0), (Z.eqb_spec (dst y) 0), (Z.eqb_spec (src y) 0), (Z.eqb_spec (off y) 0);
    cbn in H; done.
Qed.

(** The 64-bit immediate of two slots. *)
Definition imm64 (x y : RawBpfInsn) : Z := s64 (Z.lor (u32 (imm x)) (Z.shiftl (u32 (imm y)) 32)).

Lemma ld_imm64_ok len pc x rd rs y i : lower_ld_imm64 len pc x rd rs (Some y) = Ok i ->
  match rs with
  | R0 => i = Alu W64 Mov rd (OImm (imm64 x y))
  | R1 => imm y = 0 /\ i = LoadMap rd MapPtr (s32 (imm64 x y)) 0
  | R2 => i = LoadMap rd MapValue (s32 (imm64 x y)) (imm y)
  | R3 => i = LoadMap rd (PseudoBtfId (u32 (imm64 x y))) 0 0
  | R4 => let t := s64 (Z.of_nat pc + 2 + imm64 x y) in
          0 <= t < Z.of_nat len /\ i = LoadMap rd (PseudoFunc (u32 t)) 0 0
  | R5 => i = LoadMap rd PseudoMapIdx (s32 (imm64 x y)) 0
  | R6 => i = LoadMap rd PseudoMapIdxValue (s32 (imm64 x y)) (imm y)
  | _ => False
  end.
Proof.
  unfold lower_ld_imm64, imm64. intros H. destruct (_ || _); [done|].
  destruct (negb (code y =? 0)); [done|]. destruct (_ || _); [done|].
  destruct rs; try done; try (by injection H as <-).
  - destruct (Z.eqb_spec (imm y) 0); [|done]. by injection H as <-.
  - destruct (_ || _) eqn:E; [done|]. injection H as <-. apply orb_false_iff in E. split; [lia|done].
Qed.

Lemma s32_imm64 x y : s32 (imm64 x y) = s32 (imm x).
Proof.
  unfold imm64. rewrite SipHash.lor_shiftl_add by (lia || by apply uwrap_range).
  rewrite <- (swrap_uwrap 32 (s64 _)), <- (swrap_uwrap 32 (imm x)) by lia. f_equal.
  rewrite <- (uwrap_uwrap 32 64), uwrap_swrap, uwrap_uwrap by lia. unfold uwrap.
  rewrite Z.mul_comm, Z.mod_add, Z.mod_mod by lia. done.
Qed.

Lemma good_first raw n p e x : good raw n p -> raw !! n = Some x -> second raw n = false ->
  lower_at raw n x = Err e -> first_error raw e.
Proof.
  intros (_ & _ & _ & Hs) Hx H2 He. pose proof (lower_at_err _ _ _ _ He) as En. exists x. rewrite En.
  split_and!; try done. intros k y Hk Hy Hk2. specialize (Hs k y Hk Hy). rewrite Hk2 in Hs. naive_solver.
Qed.

(** One more slot. *)
Lemma good_push raw n p i x : good raw n p -> raw !! n = Some x -> second raw n = false ->
  lower_at raw n x = Ok i -> good raw (S n) (push (if is_arena_cast x then mark_arena p n else p) i).
Proof.
  intros (Hl & Hi & Ha & Hs) Hx H2 Hi'. unfold good. set (p' := if is_arena_cast x then _ else _).
  assert (instrs p' = instrs p /\ invalid_pc_set p' = invalid_pc_set p) as [E1 E2].
  { unfold p'. by destruct (is_arena_cast x). }
  cbn [push instrs invalid_pc_set addr_space_cast_to_arena_pcs]. rewrite E1, E2. split_and!.
  - rewrite length_app. cbn. lia.
  - intros k. rewrite Hi. split; [intros []; split; [lia|done]|]. intros [Hk Hs2]. split; [|done].
    destruct (decide (k = n)) as [->|]; [congruence|lia].
  - intros k. assert (k ∈ addr_space_cast_to_arena_pcs p' <->
      k ∈ addr_space_cast_to_arena_pcs p \/ (k = n /\ is_arena_cast x = true)) as ->.
    { unfold p'. destruct (is_arena_cast x); cbn [mark_arena addr_space_cast_to_arena_pcs]; set_solver. }
    rewrite Ha. split.
    + intros [(? & y & ? & ?)|[-> ?]]; [split; [lia|by exists y]|split; [lia|by exists x]].
    + intros (Hk & y & Hy & Hc). destruct (decide (k = n)) as [->|]; [right; split; congruence|].
      left. split; [lia|by exists y].
  - intros k y Hk Hy. destruct (decide (k = n)) as [->|Hkn].
    + rewrite Hx in Hy. injection Hy as <-. rewrite H2. exists i. split; [done|].
      rewrite lookup_app_r, Hl, Nat.sub_diag by lia. done.
    + specialize (Hs k y ltac:(lia) Hy). rewrite lookup_app_l by lia. done.
Qed.

Lemma good_nop raw n p x : good raw n p -> raw !! n = Some x -> second raw n = true -> blank x ->
  good raw (S n) (push (mark_invalid p n) nop).
Proof.
  intros (Hl & Hi & Ha & Hs) Hx H2 Hb. unfold good.
  cbn [push mark_invalid instrs invalid_pc_set addr_space_cast_to_arena_pcs]. split_and!.
  - rewrite length_app. cbn. lia.
  - intros k. rewrite elem_of_union, elem_of_singleton, Hi. destruct (decide (k = n)) as [->|].
    + split; [|by left]. intros _. split; [lia|done].
    + split; [intros [?|[]]; [done|split; [lia|done]]|intros []; right; split; [lia|done]].
  - intros k. rewrite Ha. split; intros (? & y & Hy & Hc); (split; [|by exists y]); [lia|].
    destruct (decide (k = n)) as [->|]; [|lia]. rewrite Hx in Hy. injection Hy as <-.
    unfold is_arena_cast in Hc. destruct Hb as [Hb _]. by rewrite Hb in Hc.
  - intros k y Hk Hy. destruct (decide (k = n)) as [->|Hkn].
    + rewrite Hx in Hy. injection Hy as <-. rewrite H2. split; [done|].
      by rewrite lookup_app_r, Hl, Nat.sub_diag by lia.
    + specialize (Hs k y ltac:(lia) Hy). rewrite lookup_app_l by lia. done.
Qed.

Lemma lower_from_spec raw m : forall pc rest p, (length rest < m)%nat -> rest = drop pc raw ->
  (pc <= length raw)%nat -> second raw pc = false -> good raw pc p ->
  match lower_from (length raw) pc rest p with
  | Ok p' => good raw (length raw) p'
  | Err e => first_error raw e
  end.
Proof.
  induction m as [|m IH]; intros pc rest p Hm Hr Hpc H2 Hg; [lia|]. destruct rest as [|x rest].
  - cbn. assert (length raw = pc) as ->; [|done]. apply (f_equal length) in Hr. rewrite length_drop in Hr. cbn in Hr. lia.
  - assert (raw !! pc = Some x /\ rest = drop (S pc) raw) as [Hx Hr'].
    { split; [by rewrite <- (Nat.add_0_r pc), <- lookup_drop, <- Hr|].
      replace (S pc) with (pc + 1)%nat by lia. by rewrite <- drop_drop, <- Hr. }
    assert (head rest = raw !! S pc) as Hh.
    { rewrite Hr', head_lookup, lookup_drop. f_equal. lia. }
    pose proof (lookup_lt_Some _ _ _ Hx) as Hlt.
    pose proof (good_first raw pc p) as Hbad. pose proof (good_push raw pc p) as Hok.
    assert (second raw (S pc) = (code x =? 0x18)) as Hsec by (cbn; by rewrite Hx).
    cbn [lower_from]. unfold lower_at in Hbad, Hok.
    destruct (reg_to_var x (dst x) pc) as [rd|e] eqn:Ed; [|apply (Hbad e x Hg Hx H2); by rewrite Ed].
    destruct (reg_to_var x (src x) pc) as [rs|e] eqn:Es; [|apply (Hbad e x Hg Hx H2); by rewrite Ed, Es].
    cbn [mbind Result_bind]. rewrite Hh. destruct (code x =? 0x18) eqn:Ec.
    + destruct (lower_ld_imm64 (length raw) pc x rd rs (raw !! S pc)) as [i|e] eqn:Ei;
        cbn [mbind Result_bind]; [|apply (Hbad e x Hg Hx H2); by rewrite Ed, Es; cbn; rewrite Ec].
      destruct (lower_ld_imm64_cont _ _ _ _ _ _ _ Ei) as (y & Hy & Hb).
      destruct rest as [|y' rest]; [rewrite <- Hh in Hy; done|]. rewrite <- Hh in Hy. injection Hy as ->.
      assert (is_arena_cast x = false) as Hna.
      { unfold is_arena_cast. apply Z.eqb_eq in Ec. by rewrite Ec. }
      specialize (Hok i x Hg Hx H2). rewrite Ed, Es, Ec, Hna in Hok. cbn in Hok. specialize (Hok Ei).
      cbn [head] in Hh. symmetry in Hh.
      pose proof (good_nop raw (S pc) _ y Hok Hh Hsec Hb) as Hg2.
      replace (pc + 1)%nat with (S pc) by lia. replace (pc + 2)%nat with (S (S pc)) by lia.
      pose proof (lookup_lt_Some _ _ _ Hh). cbn in Hm.
      apply IH; [lia| |lia| |done].
      * replace (S (S pc)) with (S pc + 1)%nat by lia. by rewrite <- drop_drop, <- Hr'.
      * cbn. rewrite Hh. destruct Hb as [-> _]. done.
    + destruct (lower_insn (length raw) pc x rd rs) as [i|e] eqn:Ei; cbn [mbind Result_bind];
        [|apply (Hbad e x Hg Hx H2); by rewrite Ed, Es; cbn; rewrite Ec].
      specialize (Hok i x Hg Hx H2). rewrite Ed, Es, Ec in Hok. cbn in Hok. specialize (Hok Ei).
      replace (pc + 1)%nat with (S pc) by lia. cbn in Hm. apply IH; (lia || done).
Qed.

Lemma lower_spec raw :
  match lower_raw_to_program raw with
  | Ok p => good raw (length raw) p
  | Err e => first_error raw e
  end.
Proof.
  apply (lower_from_spec raw (S (length raw))); [lia|by rewrite drop_0|lia|done|].
  unfold good. cbn [instrs invalid_pc_set addr_space_cast_to_arena_pcs].
  split_and!; [done|set_solver by lia|set_solver by lia|intros; lia].
Qed.

(** The slots an instruction refers to. *)
Definition targets (i : Instr) : list nat :=
  match i with
  | If _ _ _ _ t | Jmp t | MayGoto t | CallRel t => [t]
  | LoadMap _ (PseudoFunc t) _ _ => [Z.to_nat t]
  | _ => []
  end.

Lemma branch_target_lt pc d len c t : branch_target_disp pc d len c = Ok t -> (t < len)%nat.
Proof. unfold branch_target_disp. destruct (_ || _) eqn:E; [done|]. intros [= <-]. apply orb_false_iff in E. lia. Qed.

Lemma lower_insn_targets len pc x rd rs i : lower_insn len pc x rd rs = Ok i ->
  Forall (fun t => t < len)%nat (targets i).
Proof.
  unfold lower_insn, lower_call, lower_atomic, lower_mov32, lower_mov64, lower_gotol, lower_may_goto, branch_target.
  intros H. repeat case_match; binds; simplify_eq; cbn [targets]; repeat constructor;
    try (by eapply branch_target_lt).
  rename select (_ || (Z.of_nat len <=? _) = false) into E. apply orb_false_iff in E. lia.
Qed.

Lemma lower_at_targets raw pc x i : lower_at raw pc x = Ok i ->
  Forall (fun t => t < length raw)%nat (targets i).
Proof.
  unfold lower_at. intros H. binds. case_match; [|by eapply lower_insn_targets].
  revert H. unfold lower_ld_imm64. intros H. repeat case_match; simplify_eq; cbn [targets]; repeat constructor.
  rename select (_ || (Z.of_nat (length raw) <=? _) = false) into E. apply orb_false_iff in E as [E1 E2].
  match goal with |- context [u32 (s64 (?a + 2 + ?b))] => set (t := s64 (a + 2 + b)) in * end.
  pose proof (Z.mod_le t (2 ^ 32)). unfold uwrap. lia.
Qed.

(** C24. [lower_raw_to_program] decides slot by slot, and its result is exact.  When it succeeds, the
    program has one instruction per slot: that of the slot itself, or the placeholder for the second
    half of a two-slot instruction, whose fields are then zero; [invalid_pc_set] is the set of the
    second halves, the arena casts are the moves marked so, and every jump, call or callback target
    is a slot of the program.  When it fails, the error is that of the first slot that has one, and
    carries the number of that slot. *)
Theorem lower_exact raw :
  match lower_raw_to_program raw with
  | Ok p => good raw (length raw) p /\
      forall i t, i ∈ instrs p -> t ∈ targets i -> (t < length raw)%nat
  | Err e => first_error raw e
  end.
Proof.
  pose proof (lower_spec raw) as H. destruct (lower_raw_to_program raw) as [p|e]; [|done].
  split; [done|]. intros i t Hi Ht. destruct H as (Hl & _ & _ & Hs). apply list_elem_of_lookup in Hi as [k Hk].
  pose proof (lookup_lt_Some _ _ _ Hk). destruct (lookup_lt_is_Some_2 raw k) as [x Hx]; [lia|].
  specialize (Hs k x ltac:(lia) Hx). destruct (second raw k).
  { destruct Hs as [_ Hn]. rewrite Hk in Hn. injection Hn as ->. by apply elem_of_nil in Ht. }
  destruct Hs as (j & Hj & Hk'). rewrite Hk in Hk'. injection Hk' as ->.
  apply lower_at_targets in Hj. by eapply Forall_forall in Hj.
Qed.

End LowerProps.
