(* ===== verification/Reloc.v ===== *)
(** Relocation of raw instructions ([src/parsing/elf/reloc.rs], types of
    [src/parsing/elf/types.rs]): once every function has its place in the combined program, the
    fields of calls and of two-slot loads are patched, and the result is lowered. *)

From S2P Require Import Prelude SipHash Zone Ast Lower LowerProps.
From Stdlib Require Import ZArith Lia String.
From stdpp Require Import base numbers strings gmap list.
Import Zone(Reg(..)).
Import Lower LowerProps.
Open Scope Z_scope.

Module Reloc.

Inductive RelocKind : Type :=
| MapPtr | MapValue | HelperCall | BpfCall | KfuncCall | PseudoFunc | Ksym.

#[export] Instance RelocKind_eq_dec : EqDecision RelocKind.
Proof. solve_decision. Defined.

Record BpfCallTarget : Type := MkTarget {
  func_name : string; section : string; offset_in_section : Z; size : Z }.

Record RelocInfo : Type := MkReloc {
  map_idx : Z; offset : Z; helper_id : Z; rkind : RelocKind;
  bpf_call_target : option BpfCallTarget; kfunc_name : option string;
  ksym_struct_name : option string; ksym_is_percpu : bool }.

(** The entries of a [HashMap], in the order of its iteration. *)
Definition relocs : Type := list (nat * RelocInfo).

Definition set_src (v : Z) (x : RawBpfInsn) : RawBpfInsn := MkRaw (code x) (dst x) v (off x) (imm x).
Definition set_imm (v : Z) (x : RawBpfInsn) : RawBpfInsn := MkRaw (code x) (dst x) (src x) (off x) v.

Section Link.
Context (func_offsets : gmap string nat).

Definition target_pc (r : RelocInfo) : option nat :=
  t ← bpf_call_target r; func_offsets !! func_name t.

(** The loop over the calls of functions of the program. *)
Definition fix_bpf_call (insns : list RawBpfInsn) (e : nat * RelocInfo) : list RawBpfInsn :=
  let (call_pc, reloc) := e in
  if decide (rkind reloc = BpfCall) then
    match target_pc reloc with
    | Some target_pc =>
        if (call_pc <? length insns)%nat then
          let relative_offset := s32 (s32 (Z.of_nat target_pc) - s32 (s32 (Z.of_nat call_pc) + 1)) in
          alter (set_src 1 ∘ set_imm relative_offset) call_pc insns
        else insns
    | None => insns
    end
  else insns.

Definition fix_pseudo_func_imm (insns : list RawBpfInsn) (e : nat * RelocInfo) : list RawBpfInsn :=
  let (ld_pc, reloc) := e in
  if decide (rkind reloc <> PseudoFunc) then insns
  else match target_pc reloc with
  | None => insns
  | Some target_pc =>
      if (length insns <=? ld_pc + 1)%nat then insns
      else
        let relative := Z.of_nat target_pc - Z.of_nat ld_pc - 2 in
        let low := s32 relative in
        let high := if relative <? 0 then -1 else 0 in
        alter (set_imm high) (ld_pc + 1)%nat (alter (set_imm low ∘ set_src 4) ld_pc insns)
  end.

Definition fix_pseudo_func_imms (insns : list RawBpfInsn) (rs : relocs) : list RawBpfInsn :=
  foldl fix_pseudo_func_imm insns rs.

Definition apply_reloc (insns : list RawBpfInsn) (e : nat * RelocInfo) : list RawBpfInsn :=
  let (pc, reloc) := e in
  match insns !! pc with
  | None => insns
  | Some insn =>
      match rkind reloc with
      | MapPtr =>
          if code insn =? 0x18
          then alter (set_imm (s32 (map_idx reloc)) ∘ set_src 1) pc insns else insns
      | MapValue =>
          if code insn =? 0x18 then
            let insns := alter (set_imm (s32 (map_idx reloc)) ∘ set_src 2) pc insns in
            if (pc + 1 <? length insns)%nat then alter (set_imm (s32 (offset reloc))) (pc + 1)%nat insns
            else insns
          else insns
      | HelperCall =>
          if code insn =? 0x85
          then alter (set_imm (s32 (helper_id reloc)) ∘ set_src 0) pc insns else insns
      | BpfCall => if code insn =? 0x85 then alter (set_src 1) pc insns else insns
      | KfuncCall =>
          if code insn =? 0x85
          then alter (set_imm (s32 (helper_id reloc)) ∘ set_src 2) pc insns else insns
      | PseudoFunc => insns
      | Ksym => if code insn =? 0x18 then alter (set_src 3) pc insns else insns
      end
  end.

Definition apply_relocs (insns : list RawBpfInsn) (rs : relocs) : list RawBpfInsn :=
  foldl apply_reloc insns rs.

(** The end of [combine_program_with_subprogs] and of [combine_function_with_subprogs_extra]. *)
Definition fix_program (insns : list RawBpfInsn) (rs : relocs) : list RawBpfInsn :=
  apply_relocs (fix_pseudo_func_imms (foldl fix_bpf_call insns rs) rs) rs.

End Link.

(** * What relocation changes *)

Definition is_load (r : RelocInfo) : bool :=
  match rkind r with MapPtr | MapValue | PseudoFunc | Ksym => true | _ => false end.

(** A relocation is attached to the instruction its kind is for. *)
Definition fits (insns : list RawBpfInsn) (e : nat * RelocInfo) : Prop :=
  exists x, insns !! e.1 = Some x /\ code x = (if is_load e.2 then 0x18 else 0x85).

(** What a patch leaves as it is. *)
Definition same_shape (l l' : list RawBpfInsn) : Prop :=
  Forall2 (fun x y => code x = code y /\ dst x = dst y /\ off x = off y) l l'.

#[export] Instance same_shape_equiv : Equivalence same_shape.
Proof.
  split.
  - intros l. apply Forall_Forall2_diag, Forall_true. done.
  - intros l l' H. apply Forall2_flip. eapply Forall2_impl; [done|]. cbn. intuition.
  - intros l m n H. revert n. unfold same_shape. induction H as [|x y l m Hxy H IH]; intros n Hn; [done|].
    apply Forall2_cons_inv_l in Hn as (z & n' & Hyz & Hn & ->). constructor; [intuition congruence|by apply IH].
Qed.

Lemma alter_shape f k l : (forall x, code (f x) = code x /\ dst (f x) = dst x /\ off (f x) = off x) ->
  same_shape l (alter f k l).
Proof.
  intros Hf. unfold same_shape. apply Forall2_lookup. intros i. destruct (decide (i = k)) as [->|Hi].
  - rewrite list_lookup_alter_eq. destruct (l !! k) as [x|]; constructor. destruct (Hf x) as (? & ? & ?). intuition.
  - rewrite list_lookup_alter_ne by done. destruct (l !! i); constructor. done.
Qed.

Lemma fits_shape l l' e : same_shape l l' -> fits l e -> fits l' e.
Proof.
  intros H (x & Hx & Hc). destruct (Forall2_lookup_l _ _ _ _ _ H Hx) as (y & Hy & Hs).
  exists y. split; [done|]. destruct Hs as (<- & _). done.
Qed.

(** A patch that only changes what the entry of a slot names. *)
Class Patch (stp : list RawBpfInsn -> nat * RelocInfo -> list RawBpfInsn) : Prop := {
  patch_shape l e : same_shape l (stp l e);
  patch_frame l k r j : fits l (k, r) -> k <> j -> (is_load r = true -> S k <> j) ->
    stp l (k, r) !! j = l !! j;
  patch_local l l' pc r : length l = length l' -> l !! pc = l' !! pc ->
    stp l (pc, r) !! pc = stp l' (pc, r) !! pc /\
    (l !! S pc = l' !! S pc -> stp l (pc, r) !! S pc = stp l' (pc, r) !! S pc) }.

Ltac alters := repeat first
  [ rewrite list_lookup_alter_eq | rewrite list_lookup_alter_ne by lia | rewrite length_alter ].

#[export] Instance fix_bpf_call_patch offs : Patch (fix_bpf_call offs).
Proof.
  split.
  - intros l [pc r]. unfold fix_bpf_call. repeat case_match; try reflexivity. by apply alter_shape.
  - intros l k r j _ Hk _. unfold fix_bpf_call. repeat case_match; try done. by alters.
  - intros l l' pc r Hl Hp. unfold fix_bpf_call. rewrite Hl. repeat case_match; try done.
    alters. by rewrite Hp.
Qed.

#[export] Instance fix_pseudo_patch offs : Patch (fix_pseudo_func_imm offs).
Proof.
  split.
  - intros l [pc r]. unfold fix_pseudo_func_imm. repeat case_match; try reflexivity;
      (etrans; [|by apply alter_shape]; by apply alter_shape).
  - intros l k r j Hf Hk Hj. unfold fix_pseudo_func_imm. case_decide as Hr; [done|].
    assert (is_load r = true) as Hil by (unfold is_load; destruct (rkind r); naive_solver).
    specialize (Hj Hil). repeat case_match; try done; by alters.
  - intros l l' pc r Hl Hp. unfold fix_pseudo_func_imm. rewrite Hl. repeat case_match; try done;
      rewrite (Nat.add_1_r pc); alters; rewrite Hp; (split; [done|by intros ->]).
Qed.

#[export] Instance apply_reloc_patch : Patch apply_reloc.
Proof.
  split.
  - intros l [pc r]. unfold apply_reloc. repeat case_match; try reflexivity;
      first [by apply alter_shape|etrans; [|by apply alter_shape]; by apply alter_shape].
  - intros l k r j Hf Hk Hj. unfold apply_reloc. unfold is_load in Hj.
    repeat case_match; try done; try specialize (Hj eq_refl); by alters.
  - intros l l' pc r Hl Hp. unfold apply_reloc. rewrite !length_alter, <- Hl.
    destruct (l !! pc) as [x|] eqn:Ex; rewrite <- Hp; [|split; [congruence|done]].
    repeat case_match; try (split; [congruence|done]); rewrite ?(Nat.add_1_r pc); alters; rewrite ?Ex, <- ?Hp;
      (split; [done|]); intros E; alters; by rewrite ?E.
Qed.

Section Fold.
Context (stp : list RawBpfInsn -> nat * RelocInfo -> list RawBpfInsn) `{!Patch stp}.

Lemma fold_shape l es : same_shape l (foldl stp l es).
Proof.
  revert l. induction es as [|e es IH]; intros l; [reflexivity|]. cbn. etrans; [apply patch_shape|apply IH].
Qed.

Lemma fold_frame l es j : Forall (fits l) es ->
  (forall k r, (k, r) ∈ es -> k <> j /\ (is_load r = true -> S k <> j)) -> foldl stp l es !! j = l !! j.
Proof.
  revert l. induction es as [|[k r] es IH]; intros l Hf Hq; [done|]. cbn. apply Forall_cons in Hf as [Hk Hf].
  destruct (Hq k r) as [H1 H2]; [by left|]. rewrite IH, patch_frame; try done.
  - eapply Forall_impl; [done|]. intros e. apply fits_shape, patch_shape.
  - intros k' r' He. apply Hq. by right.
Qed.

(** Entries other than that of [pc] leave slot [j] alone. *)
Definition quiet (es : relocs) (pc j : nat) : Prop :=
  forall k r, (k, r) ∈ es -> k <> pc -> k <> j /\ (is_load r = true -> S k <> j).

(** Only the entry of a slot counts for it. *)
Lemma fold_at l es pc r : Forall (fits l) es -> NoDup es.*1 -> (pc, r) ∈ es -> quiet es pc pc ->
  foldl stp l es !! pc = stp l (pc, r) !! pc /\
  (quiet es pc (S pc) -> foldl stp l es !! S pc = stp l (pc, r) !! S pc).
Proof.
  intros Hf Hn He Hq. apply list_elem_of_split in He as (a & b & ->).
  rewrite fmap_app, fmap_cons in Hn. cbn in Hn. apply NoDup_app in Hn as (_ & Hna & Hnb).
  apply NoDup_cons in Hnb as [Hnb _]. apply Forall_app in Hf as [Hfa Hfb]. apply Forall_cons in Hfb as [_ Hfb].
  assert (forall j, quiet (a ++ (pc, r) :: b) pc j -> forall k r', (k, r') ∈ a \/ (k, r') ∈ b ->
    k <> j /\ (is_load r' = true -> S k <> j)) as Hfr.
  { intros j Hj k r' Hk. apply Hj; [set_solver|]. intros ->. destruct Hk as [Hk|Hk].
    - apply (Hna pc); [by apply (list_elem_of_fmap_2 fst _ (pc, r'))|by left].
    - apply Hnb. by apply (list_elem_of_fmap_2 fst _ (pc, r')). }
  rewrite foldl_app. cbn [foldl]. set (l' := foldl stp l a).
  assert (same_shape l (stp l' (pc, r))) as Hs by (etrans; [apply fold_shape|apply patch_shape]).
  assert (Forall (fits (stp l' (pc, r))) b) as Hfb'.
  { eapply Forall_impl; [exact Hfb|]. intros e. by apply fits_shape. }
  assert (length l' = length l) as Hl by (symmetry; apply (Forall2_length _ _ _ (fold_shape l a))).
  assert (l' !! pc = l !! pc) as Hpc by (apply fold_frame; [done|]; intros; apply (Hfr pc); auto).
  destruct (patch_local l' l pc r Hl Hpc) as [E1 E2]. split.
  - rewrite fold_frame; [done|done|]. intros. apply (Hfr pc); auto.
  - intros Hq'. rewrite fold_frame; [|done|intros; apply (Hfr (S pc)); auto]. apply E2.
    apply fold_frame; [done|]. intros. apply (Hfr (S pc)); auto.
Qed.

End Fold.

(** The three passes act on a slot as its own entry does. *)
Lemma fix_program_at offs l es pc r : Forall (fits l) es -> NoDup es.*1 -> (pc, r) ∈ es -> quiet es pc pc ->
  let l' := apply_reloc (fix_pseudo_func_imm offs (fix_bpf_call offs l (pc, r)) (pc, r)) (pc, r) in
  fix_program offs l es !! pc = l' !! pc /\
  (quiet es pc (S pc) -> fix_program offs l es !! S pc = l' !! S pc).
Proof.
  intros Hf Hn He Hq l'. unfold fix_program, apply_relocs, fix_pseudo_func_imms.
  assert (forall m, same_shape l m -> Forall (fits m) es) as Hfits.
  { intros m Hm. eapply Forall_impl; [exact Hf|]. intros e. by apply fits_shape. }
  set (l1 := foldl (fix_bpf_call offs) l es). set (l2 := foldl (fix_pseudo_func_imm offs) l1 es).
  assert (same_shape l l1) as S1 by (unfold l1; apply (fold_shape _)).
  assert (same_shape l1 l2) as S2 by (unfold l2; apply (fold_shape _)).
  assert (same_shape l l2) as S3 by (by etrans).
  destruct (fold_at (fix_bpf_call offs) l es pc r Hf Hn He Hq) as [A1 A2].
  destruct (fold_at (fix_pseudo_func_imm offs) l1 es pc r (Hfits l1 S1) Hn He Hq) as [B1 B2].
  destruct (fold_at apply_reloc l2 es pc r (Hfits l2 S3) Hn He Hq) as [C1 C2].
  fold l1 in A1, A2. fold l2 in B1, B2.
  set (m1 := fix_bpf_call offs l (pc, r)) in *. set (m2 := fix_pseudo_func_imm offs m1 (pc, r)) in *.
  assert (length l1 = length m1) as L1.
  { etrans; [symmetry; apply (Forall2_length _ _ _ S1)|]. unfold m1. apply (Forall2_length _ _ _ (patch_shape l (pc, r))). }
  assert (length l2 = length m2) as L2.
  { etrans; [symmetry; apply (Forall2_length _ _ _ S2)|]. rewrite L1. unfold m2.
    apply (Forall2_length _ _ _ (patch_shape m1 (pc, r))). }
  destruct (patch_local (stp := fix_pseudo_func_imm offs) l1 m1 pc r L1 A1) as [D1 D2].
  assert (l2 !! pc = m2 !! pc) as E1 by (by rewrite B1).
  destruct (patch_local (stp := apply_reloc) l2 m2 pc r L2 E1) as [F1 F2].
  split; [by rewrite C1|]. intros Hq'. rewrite C2 by done. apply F2. rewrite B2 by done. by apply D2, A2.
Qed.

(** * What the lowering makes of a relocated program *)

Definition info_ok (r : RelocInfo) : Prop :=
  in_s 32 (map_idx r) /\ in_s 32 (offset r) /\ in_u 32 (helper_id r).

(** Instruction [i], made of slot [x] of the program [l], refers to what the entry [r] names.  A call of
    a function without a place keeps the displacement of the object file, a callback without one stays
    as it is, and a kernel symbol keeps its immediate as its BTF identifier. *)
Definition resolved (offs : gmap string nat) (l : list RawBpfInsn) (pc : nat) (x : RawBpfInsn) (r : RelocInfo)
  (i : Ast.Instr) : Prop :=
  let load kind fd o := exists rd, reg_to_var x (dst x) pc = Ok rd /\ i = Ast.LoadMap rd kind fd o in
  match rkind r with
  | MapPtr => load Ast.MapPtr (map_idx r) 0
  | MapValue => load Ast.MapValue (map_idx r) (offset r)
  | HelperCall => i = Ast.Call (Ast.Helper (helper_id r))
  | KfuncCall => i = Ast.Call (Ast.Kfunc (helper_id r) (off x))
  | BpfCall => i = Ast.CallRel (default (Z.to_nat (Z.of_nat pc + 1 + imm x)) (target_pc offs r))
  | PseudoFunc =>
      match target_pc offs r with
      | Some t => load (Ast.PseudoFunc (Z.of_nat t)) 0 0
      | None => lower_at l pc x = Ok i
      end
  | Ksym => load (Ast.PseudoBtfId (u32 (imm x))) 0 0
  end.

(** The pair of immediates holds a sign-extended displacement. *)
Lemma imm_pair_signed d : in_s 32 d ->
  s64 (Z.lor (u32 d) (Z.shiftl (u32 (if d <? 0 then -1 else 0)) 32)) = d.
Proof.
  intros Hd. rewrite SipHash.lor_shiftl_add by (lia || by apply uwrap_range). unfold in_s in Hd.
  transitivity (s64 d); [|apply swrap_small; unfold in_s; lia].
  rewrite <- (swrap_uwrap 64), <- (swrap_uwrap 64 d) by lia. f_equal. unfold uwrap.
  pose proof (Z.div_mod d (2 ^ 32) ltac:(lia)) as E. destruct (Z.ltb_spec d 0).
  - assert (d / 2 ^ 32 = -1) as Eq by (symmetry; apply Z.div_unique with (d + 2 ^ 32); lia).
    rewrite Eq in E. change (-1 mod 2 ^ 32) with (2 ^ 32 - 1).
    replace (d mod 2 ^ 32 + 2 ^ 32 * (2 ^ 32 - 1)) with (d + 1 * 2 ^ 64) by lia. apply Z.mod_add. lia.
  - rewrite Z.div_small in E by lia. rewrite Z.mod_0_l by lia. f_equal. lia.
Qed.

Lemma good_lower l p pc x : lower_raw_to_program l = Ok p -> l !! pc = Some x ->
  if second l pc then blank x else exists i, lower_at l pc x = Ok i /\ instrs p !! pc = Some i.
Proof.
  intros Hp Hx. pose proof (lower_spec l) as H. rewrite Hp in H. destruct H as (_ & _ & _ & H).
  specialize (H pc x (lookup_lt_Some _ _ _ Hx) Hx). destruct (second l pc); naive_solver.
Qed.

Lemma fix_shape offs l es : same_shape l (fix_program offs l es).
Proof. unfold fix_program, apply_relocs, fix_pseudo_func_imms. 
  etrans; [|apply (fold_shape apply_reloc)]. etrans; [apply (fold_shape (fix_bpf_call offs))|].
  apply (fold_shape (fix_pseudo_func_imm offs)).
Qed.

(** In a program that is lowered, relocations do not meet. *)
Lemma relocs_apart l es p pc r : Forall (fits l) es -> lower_raw_to_program l = Ok p -> (pc, r) ∈ es ->
  second l pc = false /\ quiet es pc pc /\ (is_load r = true -> quiet es pc (S pc)).
Proof.
  intros Hf Hp He. rewrite Forall_forall in Hf.
  assert (forall k r', (k, r') ∈ es -> second l k = false) as Ha.
  { intros k r' Hk. destruct (Hf _ Hk) as (x & Hx & Hc). cbn in Hx. pose proof (good_lower l p k x Hp Hx) as H.
    destruct (second l k); [|done]. destruct H as [H _]. rewrite H in Hc. cbn in Hc. by destruct (is_load r'). }
  assert (forall k r', (k, r') ∈ es -> is_load r' = true -> second l (S k) = true) as Hb.
  { intros k r' Hk Hl. destruct (Hf _ Hk) as (x & Hx & Hc). cbn in Hx, Hc |- *. by rewrite Hx, Hc, Hl. }
  split; [by eapply Ha|]. split.
  - intros k r' Hk Hn. split; [done|]. intros Hl <-. pose proof (Hb _ _ Hk Hl). pose proof (Ha _ _ He). congruence.
  - intros Hl k r' Hk Hn. split; [|lia]. intros ->. pose proof (Hb _ _ He Hl). pose proof (Ha _ _ Hk). congruence.
Qed.

(** The patched slots of an entry. *)
Definition patch1 (offs : gmap string nat) (pc : nat) (r : RelocInfo) (x : RawBpfInsn) : RawBpfInsn :=
  match rkind r, target_pc offs r with
  | MapPtr, _ => set_imm (s32 (map_idx r)) (set_src 1 x)
  | MapValue, _ => set_imm (s32 (map_idx r)) (set_src 2 x)
  | HelperCall, _ => set_imm (s32 (helper_id r)) (set_src 0 x)
  | KfuncCall, _ => set_imm (s32 (helper_id r)) (set_src 2 x)
  | BpfCall, Some t => set_src 1 (set_imm (s32 (s32 (Z.of_nat t) - s32 (s32 (Z.of_nat pc) + 1))) x)
  | BpfCall, None => set_src 1 x
  | PseudoFunc, Some t => set_imm (s32 (Z.of_nat t - Z.of_nat pc - 2)) (set_src 4 x)
  | PseudoFunc, None => x
  | Ksym, _ => set_src 3 x
  end.

Definition patch2 (offs : gmap string nat) (pc : nat) (r : RelocInfo) (y : RawBpfInsn) : RawBpfInsn :=
  match rkind r, target_pc offs r with
  | MapValue, _ => set_imm (s32 (offset r)) y
  | PseudoFunc, Some t => set_imm (if Z.of_nat t - Z.of_nat pc - 2 <? 0 then -1 else 0) y
  | _, _ => y
  end.

Lemma patched offs l pc r x : l !! pc = Some x -> code x = (if is_load r then 0x18 else 0x85) ->
  (is_load r = true -> is_Some (l !! S pc)) ->
  let l' := apply_reloc (fix_pseudo_func_imm offs (fix_bpf_call offs l (pc, r)) (pc, r)) (pc, r) in
  l' !! pc = Some (patch1 offs pc r x) /\ l' !! S pc = patch2 offs pc r <$> l !! S pc.
Proof.
  intros Hx Hc Hy. unfold is_load in *. pose proof (lookup_lt_Some _ _ _ Hx) as Hlt.
  unfold apply_reloc, fix_pseudo_func_imm, fix_bpf_call, patch1, patch2.
  assert (is_load r = true -> (S pc < length l)%nat) as Hlt'.
  { intros Hl. by apply lookup_lt_is_Some, Hy. }
  unfold is_load in *.
  destruct (rkind r) eqn:Ek; repeat (case_decide; try done); try destruct (target_pc offs r) as [t|] eqn:Et;
    repeat first [ rewrite (proj2 (Nat.ltb_lt _ _)) by lia
                 | rewrite (proj2 (Nat.leb_gt _ _)) by (rewrite ?Nat.add_1_r; auto) ];
    rewrite ?Nat.add_1_r; alters; rewrite ?Hx; cbn [fmap option_fmap option_map compose set_src set_imm code];
    rewrite ?Hc; cbn [Z.eqb Pos.eqb]; alters; rewrite ?(proj2 (Nat.ltb_lt _ _)) by auto; alters; rewrite ?Hx;
    (split; [done|]); by destruct (l !! S pc).
Qed.

(** A load that is lowered has a second slot. *)
Lemma load_has_next l es p pc r : Forall (fits l) es -> lower_raw_to_program l = Ok p -> (pc, r) ∈ es ->
  second l pc = false -> is_load r = true -> (S pc < length l)%nat.
Proof.
  intros Hf Hp He H2 Hl. rewrite Forall_forall in Hf. destruct (Hf _ He) as (x & Hx & Hc). cbn in Hx, Hc.
  pose proof (good_lower l p pc x Hp Hx) as Hg. rewrite H2 in Hg. destruct Hg as (i & Hi & _).
  unfold lower_at in Hi. binds. rewrite Hc, Hl in Hi. cbn in Hi.
  destruct (lower_ld_imm64_cont _ _ _ _ _ _ _ Hi) as (y & Hy & _). by eapply lookup_lt_Some.
Qed.

Lemma s32_pc n : 0 <= n < 2 ^ 31 -> s32 n = n.
Proof. intros. apply swrap_small; unfold in_s; lia. Qed.

(** A displacement between two slots, as the fixup of a call stores it. *)
Lemma call_disp t pc n : Z.of_nat n < 2 ^ 31 -> (t < n)%nat -> (pc < n)%nat ->
  Z.of_nat pc + 1 + s32 (s32 (Z.of_nat t) - s32 (s32 (Z.of_nat pc) + 1)) = Z.of_nat t.
Proof.
  intros Hn Ht Hpc. rewrite (s32_pc (Z.of_nat t)), (s32_pc (Z.of_nat pc)) by lia.
  rewrite (s32_pc (_ + 1)) by lia. rewrite swrap_small; unfold in_s; lia.
Qed.

Lemma u32_imm64 x y : u32 (imm64 x y) = u32 (imm x).
Proof. by rewrite <- uwrap_swrap, s32_imm64, uwrap_swrap by lia. Qed.

(** Of the other slots the lowering of a slot sees the one behind it and their number. *)
Lemma resolved_local offs l l' pc r x i : length l = length l' ->
  (rkind r = PseudoFunc -> target_pc offs r = None -> l !! S pc = l' !! S pc) ->
  resolved offs l' pc x r i -> resolved offs l pc x r i.
Proof.
  intros Hl H. unfold resolved. destruct (rkind r); try done. destruct (target_pc offs r) eqn:Et; [done|].
  unfold lower_at. by rewrite Hl, (H eq_refl eq_refl).
Qed.

Section Resolved.
Context (offs : gmap string nat) (l : list RawBpfInsn) (pc : nat) (r : RelocInfo) (x : RawBpfInsn) (i : Ast.Instr).
Hypothesis Hlen : Z.of_nat (length l) < 2 ^ 31.
Hypothesis Hpc : (pc < length l)%nat.
Hypothesis Ho : forall t, target_pc offs r = Some t -> (t < length l)%nat.
Hypothesis Hi : info_ok r.
Hypothesis Hx : lower_at l pc (patch1 offs pc r x) = Ok i.

Lemma call_resolved : code x = 0x85 -> is_load r = false -> resolved offs l pc x r i.
Proof using All.
  intros Hc Hl. destruct Hi as (_ & _ & Hh). destruct x as [c d s o im]. cbn [code] in Hc. subst c.
  unfold lower_at, patch1, is_load, resolved in *. destruct (rkind r); try done.
  - cbn in Hx. binds. unfold lower_call in Hx. destruct (_ || _) in Hx; [done|]. cbn in Hx. injection Hx as <-.
    rewrite uwrap_swrap, uwrap_small by (lia || done). done.
  - destruct (target_pc offs r) as [t|]; cbn in Hx; binds; unfold lower_call in Hx;
      (destruct (_ || _) in Hx; [done|]); cbn in Hx.
    + rewrite (call_disp t pc (length l)) in Hx by auto. destruct (_ || _) in Hx; [done|]. injection Hx as <-.
      cbn. by rewrite Nat2Z.id.
    + destruct (_ || _) in Hx; [done|]. by injection Hx as <-.
  - cbn in Hx. binds. unfold lower_call in Hx. destruct (_ || _) in Hx; [done|]. cbn in Hx. injection Hx as <-.
    rewrite uwrap_swrap, uwrap_small by (lia || done). done.
Qed.

Lemma load_resolved y : code x = 0x18 -> is_load r = true -> l !! S pc = Some (patch2 offs pc r y) ->
  resolved offs l pc x r i.
Proof using All.
  intros Hc Hl Hy. destruct Hi as (Hm & Hof & _). destruct x as [c d s o im]. cbn [code] in Hc. subst c.
  unfold lower_at in Hx. rewrite Hy in Hx. unfold patch1, patch2, is_load, resolved in *.
  destruct (rkind r); try done.
  - cbn in Hx. binds. apply ld_imm64_ok in Hx as [_ ->]. exists x0. split; [done|].
    rewrite s32_imm64. cbn [imm set_imm]. by rewrite !(swrap_small 32 (map_idx r)), ?(swrap_small 32 (offset r)) by (lia || done).
  - cbn in Hx. binds. apply ld_imm64_ok in Hx as ->. exists x0. split; [done|].
    rewrite s32_imm64. cbn [imm set_imm]. by rewrite !(swrap_small 32 (map_idx r)), ?(swrap_small 32 (offset r)) by (lia || done).
  - destruct (target_pc offs r) as [t|]; [|by unfold lower_at; rewrite Hy].
    cbn in Hx. binds. apply ld_imm64_ok in Hx as [_ ->]. exists x0. split; [done|].
    specialize (Ho t eq_refl). unfold imm64. cbn [imm set_imm]. rewrite uwrap_swrap by lia.
    rewrite imm_pair_signed by (unfold in_s; lia).
    replace (Z.of_nat pc + 2 + (Z.of_nat t - Z.of_nat pc - 2)) with (Z.of_nat t) by lia.
    rewrite swrap_small, uwrap_small by (lia || unfold in_s, in_u; lia). done.
  - cbn in Hx. binds. apply ld_imm64_ok in Hx as ->. exists x0. split; [done|].
    by rewrite u32_imm64.
Qed.

End Resolved.

(** C25. In a program of less than 2^31 slots with at most one relocation per slot and the places of
    its functions inside, after relocation and a lowering that succeeds, every instruction with a
    relocation that fits it refers to what the relocation names: a call of a function that has a place
    in the combined program goes to its slot, a callback pointer to such a function to its slot (also
    backwards, through the sign-extended pair of immediates), a map load to the map and the offset in
    its value, a helper or kernel function call to its number.  A kernel symbol becomes a BTF load
    with the identifier the object file has in the immediate; a call of a function without a place
    keeps the displacement of the object file, and a callback without one is lowered as it stands.
    The order in which the relocations are visited does not matter. *)
Theorem relocs_resolved offs l es p :
  (forall f t, offs !! f = Some t -> (t < length l)%nat) -> Z.of_nat (length l) < 2 ^ 31 ->
  Forall (fits l) es -> NoDup es.*1 -> Forall (fun e => info_ok e.2) es ->
  lower_raw_to_program (fix_program offs l es) = Ok p ->
  forall pc r x, (pc, r) ∈ es -> l !! pc = Some x ->
    exists i, instrs p !! pc = Some i /\ resolved offs l pc x r i.
Proof.
  intros Ho Hlen Hf Hn Hi Hp pc r x He Hx.
  set (l' := fix_program offs l es) in *. pose proof (fix_shape offs l es) as Hs. fold l' in Hs.
  assert (Forall (fits l') es) as Hf'. { eapply Forall_impl; [exact Hf|]. intros e. by apply fits_shape. }
  destruct (relocs_apart l' es p pc r Hf' Hp He) as (H2 & Hq & Hq').
  destruct (fix_program_at offs l es pc r Hf Hn He Hq) as [E1 E2]. fold l' in E1, E2.
  rewrite Forall_forall in Hi, Hf. specialize (Hi _ He). destruct (Hf _ He) as (x0 & Hx0 & Hc).
  cbn [fst snd] in Hi, Hx0, Hc. rewrite Hx in Hx0. injection Hx0 as <-.
  assert (is_load r = true -> is_Some (l !! S pc)) as Hy.
  { intros Hl. apply lookup_lt_is_Some. rewrite (Forall2_length _ _ _ Hs). by eapply load_has_next. }
  destruct (patched offs l pc r x Hx Hc Hy) as [P1 P2]. rewrite P1 in E1. rewrite P2 in E2.
  pose proof (good_lower l' p pc _ Hp E1) as Hg. rewrite H2 in Hg. destruct Hg as (i & Hi' & Hpi).
  exists i. split; [done|].
  assert (length l' = length l) as Hll by (symmetry; apply (Forall2_length _ _ _ Hs)).
  assert (forall t, target_pc offs r = Some t -> (t < length l')%nat) as Ht.
  { rewrite Hll. unfold target_pc. intros t Ht. destruct (bpf_call_target r); [|done]. cbn in Ht. by eapply Ho. }
  assert (pc < length l')%nat as Hlt by (by eapply lookup_lt_Some).
  apply (resolved_local offs l l'); [done| |].
  { intros Hk Hn'. rewrite E2 by (apply Hq'; unfold is_load; by rewrite Hk). unfold patch2. rewrite Hk, Hn'. by destruct (l !! S pc). }
  destruct (is_load r) eqn:El.
  - destruct (Hy eq_refl) as [y Hy']. rewrite Hy' in E2.
    apply (load_resolved offs l' pc r x i) with (y := y); auto. by rewrite Hll.
  - apply (call_resolved offs l' pc r x i); auto. by rewrite Hll.
Qed.

Definition sample_offsets : gmap string nat := {[ "main" := 0%nat; "callee" := 6%nat ]}.
Definition sample_insns : list RawBpfInsn := [
  MkRaw 0x85 0 1 0 (-1); MkRaw 0x18 2 0 0 0; MkRaw 0 0 0 0 0; MkRaw 0x18 1 0 0 0; MkRaw 0 0 0 0 0;
  MkRaw 0x95 0 0 0 0; MkRaw 0x18 3 0 0 0; MkRaw 0 0 0 0 0; MkRaw 0x85 0 1 0 0; MkRaw 0x95 0 0 0 0].
Definition sample_relocs : relocs :=
  let to f := Some (MkTarget f ".text" 0 0) in
  [(6%nat, MkReloc 0 0 0 PseudoFunc (to "main") None None false);
   (0%nat, MkReloc 0 0 0 BpfCall (to "callee") None None false);
   (3%nat, MkReloc 5 16 0 MapValue None None None false);
   (8%nat, MkReloc 0 0 7 HelperCall None None None false);
   (1%nat, MkReloc 4 0 0 MapPtr None None None false)].

Lemma relocs_resolved_witness : exists p,
  lower_raw_to_program (fix_program sample_offsets sample_insns sample_relocs) = Ok p /\
  exists i, instrs p !! 6%nat = Some i /\
    resolved sample_offsets sample_insns 6 (MkRaw 0x18 3 0 0 0)
      (MkReloc 0 0 0 PseudoFunc (Some (MkTarget "main" ".text" 0 0)) None None false) i.
Proof.
  eexists. split; [vm_compute; reflexivity|].
  eapply (relocs_resolved sample_offsets sample_insns sample_relocs).
  - intros f t. unfold sample_offsets. rewrite lookup_insert_Some. intros [[_ <-]|[_ H]]; [cbn; lia|].
    apply lookup_singleton_Some in H as [_ <-]. cbn. lia.
  - vm_compute. reflexivity.
  - repeat (apply Forall_cons; split; [eexists; split; reflexivity|]). by apply Forall_nil.
  - apply (bool_decide_unpack _). vm_compute. exact I.
  - repeat (apply Forall_cons; split; [vm_compute; intuition congruence|]). by apply Forall_nil.
  - vm_compute. reflexivity.
  - by left.
  - reflexivity.
Defined.

End Reloc.
