(* ===== verification/LowerSem.v ===== *)
(** Meaning of the instructions of the verifier, and that the lowering keeps the meaning of the
    raw instructions.

    [isa_step] is the instruction set the raw instructions are written in: the reference semantics
    [BpfSem] with the encodings that newer versions added (moves and loads with sign extension,
    signed division, byte swaps, long jumps, acquire and release accesses).  [exec] runs a lowered
    program on the same machine states. *)

From S2P Require Import Prelude SipHash BpfInsn BpfSem Zone Ast Lower LowerProps.
From Stdlib Require Import ZArith Lia String.
From stdpp Require Import base numbers strings gmap list.
Import BpfInsn.
Import BpfSem.
Import Zone(Reg(..)).
Open Scope Z_scope.

Module LowerSem.
#[local] Existing Instance Lower.Result_bind.

(** * The instruction set *)

Definition BPF_MEMSX : Z := 0x80.
Definition BPF_LOAD_ACQ : Z := 0x100.
Definition BPF_STORE_REL : Z := 0x110.

Definition to_insn (x : Lower.RawBpfInsn) : bpf_insn :=
  MkInsn (Lower.code x) (Lower.dst x) (Lower.src x) (Lower.off x) (Lower.imm x).

(** Signed division truncates; by zero it gives 0, and the remainder is the dividend. *)
Definition sdiv (w x y : Z) : Z :=
  if swrap w y =? 0 then 0 else uwrap w (Z.quot (swrap w x) (swrap w y)).
Definition smod (w x y : Z) : Z :=
  if swrap w y =? 0 then x else uwrap w (Z.rem (swrap w x) (swrap w y)).

Section Isa.
Context (prog : list bpf_insn) (rand : nat -> Z).

(** Arithmetic whose [off] field is not 0. *)
Definition step_alu_off (w : Z) (s : state) (x : bpf_insn) : option state :=
  let op := BPF_OP (code x) in
  if (op =? BPF_MOV) && (BPF_SRC (code x) =? BPF_X) then
    if (off x =? 8) || (off x =? 16) || ((off x =? 32) && (w =? 64)) then
      y ← get_reg s (src_reg x);
      if dst_reg x =? 10 then None
      else Some (advance (set_reg s (dst_reg x) (uwrap w (swrap (off x) y))))
    else None
  else if ((op =? BPF_DIV) || (op =? BPF_MOD)) && (off x =? 1) then
    y ← operand s x;
    d ← get_reg s (dst_reg x);
    if dst_reg x =? 10 then None
    else Some (advance (set_reg s (dst_reg x)
           ((if op =? BPF_DIV then sdiv else smod) w (uwrap w d) (uwrap w y))))
  else None.

Definition step_bswap (s : state) (x : bpf_insn) : option state :=
  d ← get_reg s (dst_reg x);
  v ← endian true (imm x) d;
  Some (advance (set_reg s (dst_reg x) v)).

Definition step_ldsx (s : state) (x : bpf_insn) : option state :=
  let n := size_bytes (code x) in
  a ← get_reg s (src_reg x);
  v ← load n (mem s) (u64 (a + off x));
  if negb (n =? 8)%nat && negb (dst_reg x =? 10)
  then Some (advance (set_reg s (dst_reg x) (u64 (swrap (8 * Z.of_nat n) v)))) else None.

Definition step_load_acq (s : state) (x : bpf_insn) : option state :=
  a ← get_reg s (src_reg x);
  v ← load (size_bytes (code x)) (mem s) (u64 (a + off x));
  if negb (dst_reg x =? 10) then Some (advance (set_reg s (dst_reg x) v)) else None.

(** The encodings [BpfSem] does not have; the frame pointer is never written. *)
Definition ext_step (s : state) (x : bpf_insn) : option event :=
  let class := Z.land (code x) 0x07 in
  let mode := Z.land (code x) 0xe0 in
  let alu := (class =? BPF_ALU64) || (class =? BPF_ALU) in
  if (dst_reg x =? 10) && ((code x =? 0x18) || (alu && (BPF_OP (code x) =? BPF_END))) then Some Fault
  else if (class =? BPF_ALU64) && (BPF_OP (code x) =? BPF_END) then
    Some (if (BPF_SRC (code x) =? BPF_K) && (off x =? 0) then of_option (step_bswap s x) else Fault)
  else if alu && negb (off x =? 0) then
    Some (of_option (step_alu_off (if class =? BPF_ALU64 then 64 else 32) s x))
  else if (class =? BPF_JMP32) && (BPF_OP (code x) =? BPF_JA) then
    Some (if (BPF_SRC (code x) =? BPF_K) && (off x =? 0) then Next (set_pc s (pc s + imm x + 1)) else Fault)
  else if (class =? BPF_LDX) && (mode =? BPF_MEMSX) then Some (of_option (step_ldsx s x))
  else if (class =? BPF_STX) && (mode =? BPF_ATOMIC) && (imm x =? BPF_LOAD_ACQ) then
    Some (of_option (step_load_acq s x))
  else if (class =? BPF_STX) && (mode =? BPF_ATOMIC) && (imm x =? BPF_STORE_REL) then
    Some (of_option (step_st s x (get_reg s (src_reg x))))
  else None.

Definition isa_step (s : state) : event :=
  if pc s <? 0 then Fault
  else
  match prog !! Z.to_nat (pc s) with
  | None => Fault
  | Some x =>
      match ext_step s x with
      | Some e => e
      | None => BpfSem.step prog rand s
      end
  end.

End Isa.

(** * Lowered programs *)

Import Ast.

Definition reg_num (r : Reg) : option Z :=
  match r with
  | R0 => Some 0 | R1 => Some 1 | R2 => Some 2 | R3 => Some 3 | R4 => Some 4 | R5 => Some 5
  | R6 => Some 6 | R7 => Some 7 | R8 => Some 8 | R9 => Some 9 | R10 => Some 10
  | _ => None
  end.

Definition get (s : state) (r : Reg) : option Z := n ← reg_num r; get_reg s n.
(** The frame pointer is not written. *)
Definition put (s : state) (r : Reg) (v : Z) : option state :=
  match reg_num r with
  | Some n => if n =? 10 then None else Some (set_reg s n v)
  | None => None
  end.

Definition value (s : state) (o : Operand) : option Z :=
  match o with OReg r => get s r | OImm i => Some (u64 i) end.

Definition bits (w : Width) : Z := match w with W32 => 32 | W64 => 64 end.

(** Operands of width [w], taken as unsigned. *)
Definition ast_alu (w : Z) (op : AluOp) (x y : Z) : Z :=
  match op with
  | Add => uwrap w (x + y)
  | Sub => uwrap w (x - y)
  | Mul => uwrap w (x * y)
  | Div => if y =? 0 then 0 else x / y
  | Mod => if y =? 0 then x else x mod y
  | Or => Z.lor x y
  | And => Z.land x y
  | Xor => Z.lxor x y
  | Mov => y
  | Neg => uwrap w (- x)
  | Shl | Lsh => uwrap w (Z.shiftl x (y mod w))
  | Shr | Rsh => Z.shiftr x (y mod w)
  | Arsh => uwrap w (Z.shiftr (swrap w x) (y mod w))
  end.

Definition ast_atomic (w : Z) (op : AtomicOp) (old src r0 : Z) : Z :=
  match op with
  | AAdd => uwrap w (old + src)
  | AOr => Z.lor old src
  | AAnd => Z.land old src
  | AXor => Z.lxor old src
  | AXchg => src
  | ACmpXchg => if old =? r0 then src else old
  end.

Definition width_of (m : MemSize) : nat := match m with U8 => 1 | U16 => 2 | U32 => 4 | U64 => 8 end.

Section Exec.
Context (p : Lower.LProgram) (rand : nat -> Z).

(** The instruction after the one at [pc s]: second slots are skipped. *)
Definition after (s : state) : Z :=
  if decide (S (Z.to_nat (pc s)) ∈ Lower.invalid_pc_set p) then pc s + 2 else pc s + 1.
Definition goto_next (s : state) : state := set_pc s (after s).

Definition exec_load (s : state) (size : MemSize) (rd base : Reg) (o : Z) (ext : Z -> Z) : option state :=
  a ← get s base;
  v ← load (width_of size) (mem s) (u64 (a + o));
  s ← put s rd (ext v);
  Some (goto_next s).

Definition exec_store (s : state) (size : MemSize) (base : Reg) (o : Z) (v : option Z) : option state :=
  d ← get s base;
  v ← v;
  m ← store (width_of size) (mem s) (u64 (d + o)) (u64 v);
  Some (goto_next (set_mem s m)).

Definition exec_atomic (s : state) (op : AtomicOp) (size : MemSize) (fetch : bool) (base : Reg) (o : Z)
    (src : Reg) : option state :=
  let n := width_of size in
  let w := 8 * Z.of_nat n in
  d ← get s base;
  v ← get s src;
  let a := u64 (d + o) in
  old ← load n (mem s) a;
  r0 ← (match op with ACmpXchg => get s R0 | _ => Some 0 end);
  m ← store n (mem s) a (ast_atomic w op old (uwrap w v) (uwrap w r0));
  let s := goto_next (set_mem s m) in
  if fetch then
    match op with
    | ACmpXchg => Some (set_reg s 0 old)
    | _ => n ← reg_num src; Some (set_reg s n old)
    end
  else Some s.

Definition exec_call (s : state) (k : CallKind) : option state :=
  match k with
  | Helper id =>
      if id =? BPF_FUNC_get_prandom_u32 then
        Some (MkState (after s) (clobber (regs s) (Some (u32 (rand (draws s))))) (mem s) (frames s) (S (draws s)))
      else None
  | Kfunc _ _ => None
  end.

Definition exec_call_rel (s : state) (target : nat) : option state :=
  fp ← get s R10;
  if 8 <=? Z.of_nat (length (frames s)) + 1 then None
  else Some (MkState (Z.of_nat target)
         (None :: take 5 (drop 1 (regs s)) ++ replicate 4 None ++ [Some (fp - FRAME)])
         (mem s) (MkFrame (after s) (regs s) fp :: frames s) (draws s)).

Definition exec_packet (s : state) (size : MemSize) (i : Z) (idx : option Z) : event :=
  match get s R6, idx with
  | Some c, Some x =>
      if (c =? CTX) && (0 <=? s32 (x + i)) then
        match load (width_of size) (mem s) (PACKET + s32 (x + i)) with
        | Some v =>
            if (width_of size =? 8)%nat then Fault
            else Next (MkState (after s)
                   (clobber (regs s) (Some (le_val (reverse (le_bytes (width_of size) v)))))
                   (mem s) (frames s) (draws s))
        | None => Exited 0
        end
      else Fault
  | _, _ => Fault
  end.

Definition exec_instr (s : state) (i : Instr) : event :=
  match i with
  | Alu w op rd o => of_option (
      y ← (match op with Neg => Some 0 | _ => value s o end);
      d ← (match op with Mov => Some 0 | _ => get s rd end);
      s ← put s rd (ast_alu (bits w) op (uwrap (bits w) d) (uwrap (bits w) y));
      Some (goto_next s))
  | MovSx w b rd o => of_option (
      y ← value s o;
      s ← put s rd (uwrap (bits w) (swrap (sx_bits b) y));
      Some (goto_next s))
  | Endian rd _ op size => of_option (
      d ← get s rd;
      v ← endian (match op with ToLe => false | _ => true end) size d;
      s ← put s rd v;
      Some (goto_next s))
  | If w l op r target => of_option (
      d ← get s l;
      y ← value s r;
      Some (set_pc s (if compare w op d y then Z.of_nat target else after s)))
  | Jmp target => Next (set_pc s (Z.of_nat target))
  | MayGoto _ | LoadMap _ _ _ _ => Fault
  | Load size rd base o | LoadAcq size rd base o => of_option (exec_load s size rd base o id)
  | LoadSx size rd base o =>
      of_option (exec_load s size rd base o (fun v => u64 (swrap (8 * Z.of_nat (width_of size)) v)))
  | Store size base o src => of_option (exec_store s size base o (value s src))
  | StoreRel size base o src => of_option (exec_store s size base o (get s src))
  | Atomic op size fetch base o src => of_option (exec_atomic s op size fetch base o src)
  | Call k => of_option (exec_call s k)
  | CallRel target => of_option (exec_call_rel s target)
  | LoadPacket size Abs i _ => exec_packet s size i (Some 0)
  | LoadPacket size Ind i src => exec_packet s size i (r ← src; get s r)
  | Exit => step_exit s
  end.

Definition exec (s : state) : event :=
  if pc s <? 0 then Fault
  else if decide (Z.to_nat (pc s) ∈ Lower.invalid_pc_set p) then Fault
  else match Lower.instrs p !! Z.to_nat (pc s) with
       | None => Fault
       | Some i => exec_instr s i
       end.

End Exec.

(** * Agreement *)

(** The encodings the lowering does not keep: a 64-bit [or] with a negative immediate, and an
    arithmetic instruction whose [off] selects another operation than sign extension. *)
Definition kept (x : Lower.RawBpfInsn) : bool :=
  let c := Lower.code x in
  let alu := (Z.land c 7 =? BPF_ALU) || (Z.land c 7 =? BPF_ALU64) in
  let mov := (c =? 0xbc) || (c =? 0xbf) in
  (negb (c =? 0x47) || (0 <=? Lower.imm x)) &&
  (negb alu || (Lower.off x =? 0) || (mov && negb (Lower.off x =? 1))).

Lemma reg_to_var_num x r pc rd : Lower.reg_to_var x r pc = Lower.Ok rd -> reg_num rd = Some r /\ 0 <= r <= 10.
Proof. unfold Lower.reg_to_var. intros H. repeat case_match; simplify_eq; (split; [done|lia]). Qed.

(** One instruction of the instruction set, once fetched. *)
Definition isa_insn (prog : list bpf_insn) (rand : nat -> Z) (s : state) (x : bpf_insn) : event :=
  match ext_step s x with
  | Some e => e
  | None =>
      let class := Z.land (code x) 0x07 in
      if class =? BPF_ALU64 then of_option (step_alu 64 s x)
      else if class =? BPF_ALU then of_option (step_alu 32 s x)
      else if class =? BPF_JMP then step_jmp rand 64 s x
      else if class =? BPF_JMP32 then step_jmp rand 32 s x
      else if class =? BPF_LDX then of_option (step_ldx s x)
      else if class =? BPF_STX then
        if Z.land (code x) 0xe0 =? BPF_ATOMIC then of_option (step_atomic s x)
        else of_option (step_st s x (get_reg s (src_reg x)))
      else if class =? BPF_ST then of_option (step_st s x (Some (imm x)))
      else step_ld prog s x
  end.

Lemma isa_step_insn prog rand s x : 0 <= pc s -> prog !! Z.to_nat (pc s) = Some x ->
  isa_step prog rand s = isa_insn prog rand s x.
Proof.
  intros Hp Hx. unfold isa_step, isa_insn, BpfSem.step. rewrite (proj2 (Z.ltb_ge _ _)) by done. by rewrite Hx.
Qed.

Lemma byte_cases (P : Z -> Prop) : Forall P (seqZ 0 256) -> forall c, in_u 8 c -> P c.
Proof. rewrite Forall_forall. intros H c Hc. apply H, elem_of_seqZ. unfold in_u in Hc. lia. Qed.

(** Register moves by their [off] field. *)
Lemma lower_mov_cases w n x rd rs i :
  (match w with W64 => Lower.lower_mov64 | W32 => Lower.lower_mov32 end) n x rd rs = Lower.Ok i ->
  ((Lower.off x = 0 \/ Lower.off x = 1) /\ i = Alu w Mov rd (OReg rs)) \/
  exists b, Lower.off x = sx_bits b /\ (w = W32 -> b <> B32) /\ i = MovSx w b rd (OReg rs).
Proof.
  intros H. destruct w; unfold Lower.lower_mov64, Lower.lower_mov32 in H; repeat case_match; simplify_eq;
    first [by left; auto | right; by exists B8 | right; by exists B16 | right; by exists B32].
Qed.

Lemma not_ld_imm64 c k : Z.land c 7 = k -> k <> 0 -> (c =? 0x18) = false.
Proof. intros <- Hk. destruct (Z.eqb_spec c 24) as [->|]; [|done]. by destruct Hk. Qed.

Lemma fp_free b e f : e = false -> f = false -> b && (e || f) = false.
Proof. intros -> ->. apply andb_false_r. Qed.

Section Slot.
Context (p : Lower.LProgram) (prog : list bpf_insn) (rand : nat -> Z) (s : state) (len : nat).
Context (d sr o im : Z) (rd rs : Reg).
Hypothesis Hd : reg_num rd = Some d.
Hypothesis Hs : reg_num rs = Some sr.
Hypothesis Hpc : 0 <= pc s.
Hypothesis Hnext : S (Z.to_nat (pc s)) ∉ Lower.invalid_pc_set p.
Hypothesis Him : in_s 32 im.

Definition agree (c : Z) : Prop :=
  let x := Lower.MkRaw c d sr o im in
  kept x = true -> c <> 0x18 ->
  match Lower.lower_insn len (Z.to_nat (pc s)) x rd rs with
  | Lower.Ok i => exec_instr p rand s i = isa_insn prog rand s (to_insn x)
  | Lower.Err _ => True
  end.

Lemma get_dst : get s rd = get_reg s d.
Proof using Hd. unfold get. by rewrite Hd. Qed.
Lemma get_src : get s rs = get_reg s sr.
Proof using Hs. unfold get. by rewrite Hs. Qed.
Lemma put_dst v : put s rd v = if d =? 10 then None else Some (set_reg s d v).
Proof using Hd. unfold put. by rewrite Hd. Qed.
Lemma next_dst t : pc t = pc s -> goto_next p t = advance t.
Proof using Hnext. intros E. unfold goto_next, after, advance. rewrite E. by case_decide. Qed.
Lemma after_here : after p s = pc s + 1.
Proof using Hnext. unfold after. by case_decide. Qed.

(** Operands that give the same result. *)
Definition same_operand (w : Z) (opc : Z) (aop : AluOp) (y1 y2 : option Z) : Prop :=
  match y1, y2 with
  | Some y1, Some y2 => forall v, 0 <= v < 2 ^ w ->
      alu w opc v (uwrap w y2) = Some (ast_alu w aop v (uwrap w y1))
  | None, None => True
  | _, _ => False
  end.

Lemma lowered_alu_case w aop ov c : let x := to_insn (Lower.MkRaw c d sr o im) in let opc := BPF_OP c in
  (opc =? BPF_END) = false ->
  (opc =? BPF_NEG) = (match aop with Neg => true | _ => false end) ->
  (opc =? BPF_MOV) = (match aop with Mov => true | _ => false end) ->
  same_operand (bits w) opc aop (match aop with Neg => Some 0 | _ => value s ov end)
    (match aop with Neg => Some 0 | _ => BpfSem.operand s x end) ->
  exec_instr p rand s (Alu w aop rd ov) = of_option (step_alu (bits w) s x).
Proof using Hd Hnext.
  intros x opc He Hn Hm Hy. cbn [exec_instr]. unfold step_alu.
  change (code x) with c. change (dst_reg x) with d. clearbody x.
  fold opc. rewrite He, Hn, Hm. f_equal. cbn [andb].
  assert (0 < bits w) as Hw by (by destruct w).
  set (y1 := match aop with Neg => Some 0 | _ => value s ov end) in *.
  assert ((if match aop with Neg => true | _ => false end then Some 0 else BpfSem.operand s x) =
    match aop with Neg => Some 0 | _ => BpfSem.operand s x end) as -> by (by destruct aop).
  assert ((if match aop with Mov => true | _ => false end then Some 0 else get_reg s d) =
    match aop with Mov => Some 0 | _ => get s rd end) as -> by (rewrite get_dst; by destruct aop).
  destruct y1 as [y1|], (match aop with Neg => Some 0 | _ => BpfSem.operand s x end) as [y2|]; try done.
  cbn [mbind option_bind]. destruct (match aop with Mov => Some 0 | _ => get s rd end) as [v|]; [|done].
  cbn [mbind option_bind]. rewrite Hy by (apply uwrap_range; lia). cbn [mbind option_bind].
  rewrite put_dst. destruct (d =? 10); [done|]. cbn [mbind option_bind]. by rewrite next_dst.
Qed.

Lemma isa_alu w c : let x := to_insn (Lower.MkRaw c d sr o im) in
  Z.land c 7 = (match w with W64 => 7 | W32 => 4 end) -> (BPF_OP c =? BPF_END) = false -> (o =? 0) = true ->
  isa_insn prog rand s x = of_option (step_alu (bits w) s x).
Proof using.
  intros x Hc He Ho. unfold isa_insn, ext_step. change (code x) with c. change (off x) with o.
  pose proof (not_ld_imm64 _ _ Hc ltac:(by destruct w)). rewrite He, Ho, Hc, fp_free by (done || by destruct w).
  by destruct w.
Qed.

(** The operation is the one of the opcode. *)
Definition alu_ok (w opc : Z) (aop : AluOp) : Prop :=
  forall v y, alu w opc v y = Some (ast_alu w aop v y).

Lemma shift_mod w y : w = bits W32 \/ w = bits W64 -> Z.land y (w - 1) = y mod w.
Proof using.
  intros [->| ->]; cbn [bits]; [change (32 - 1) with (Z.ones 5)|change (64 - 1) with (Z.ones 6)]; by rewrite Z.land_ones.
Qed.

Lemma same_reg w opc aop c : BPF_SRC c = BPF_X -> alu_ok w opc aop ->
  same_operand w opc aop (value s (OReg rs)) (BpfSem.operand s (to_insn (Lower.MkRaw c d sr o im))).
Proof using Hs.
  intros Hc Ha. unfold BpfSem.operand. change (code _) with c. rewrite Hc. cbn [value]. rewrite get_src.
  cbn. destruct (get_reg s sr); [|done]. by intros v _.
Qed.

(** An immediate, extended one way or the other, that gives the same result. *)
Lemma same_imm w opc aop c i : BPF_SRC c = BPF_K -> alu_ok w opc aop ->
  (forall v, 0 <= v < 2 ^ w -> ast_alu w aop v (uwrap w (u64 im)) = ast_alu w aop v (uwrap w (u64 i))) ->
  same_operand w opc aop (value s (OImm i)) (BpfSem.operand s (to_insn (Lower.MkRaw c d sr o im))).
Proof using.
  intros Hc Ha Hi. unfold BpfSem.operand. change (code _) with c. rewrite Hc. cbn. intros v Hv. by rewrite Ha, Hi.
Qed.

Lemma u32_ext : uwrap 32 (u64 im) = uwrap 32 (u64 (u32 im)).
Proof using. by rewrite !LowerProps.uwrap_uwrap by lia. Qed.

Lemma shift_ext : uwrap 64 (u64 im) mod 64 = uwrap 64 (u64 (u32 im)) mod 64.
Proof using.
  assert (forall z, z mod 64 = uwrap 6 z) as E by done. by rewrite !E, !LowerProps.uwrap_uwrap by lia.
Qed.

Lemma target_pc_eq v c t : Lower.branch_target_disp (Z.to_nat (pc s)) v len c = Lower.Ok t ->
  Z.of_nat t = pc s + v + 1.
Proof using Hpc.
  unfold Lower.branch_target_disp. cbv zeta. destruct (_ || _) eqn:E; [done|]. intros [= <-].
  apply orb_false_iff in E as [E1 E2]. apply Z.ltb_ge in E1. lia.
Qed.

(** Operands for which a condition is the same. *)
Definition same_cond (w : Width) (opc : Z) (cop : CmpOp) (y1 y2 : option Z) : Prop :=
  match y1, y2 with
  | Some y1, Some y2 => forall v, cond (bits w) opc (uwrap (bits w) v) (uwrap (bits w) y2) = Some (compare w cop v y1)
  | None, None => True
  | _, _ => False
  end.

Lemma jmp_case w cop ov c : let x := Lower.MkRaw c d sr o im in
  Z.land c 7 = (match w with W64 => 5 | W32 => 6 end) ->
  (BPF_OP c =? BPF_JA) = false -> (w = W64 -> (BPF_OP c =? BPF_CALL) = false /\ (BPF_OP c =? BPF_EXIT) = false) ->
  same_cond w (BPF_OP c) cop (value s ov) (BpfSem.operand s (to_insn x)) ->
  match (target ← Lower.branch_target (Z.to_nat (pc s)) o len c; Lower.Ok (If w rd cop ov target)) with
  | Lower.Ok i => exec_instr p rand s i = isa_insn prog rand s (to_insn x)
  | Lower.Err _ => True
  end.
Proof using Hd Hnext Hpc.
  intros x Hc Hj Hce Hy. unfold Lower.branch_target.
  destruct (Lower.branch_target_disp _ _ _ _) as [t|e] eqn:Et; [|done]. apply target_pc_eq in Et.
  cbn [mbind Lower.Result_bind exec_instr]. unfold isa_insn, ext_step. change (code (to_insn x)) with c.
  pose proof (not_ld_imm64 _ _ Hc ltac:(by destruct w)). rewrite Hc, Hj, fp_free by (done || by destruct w).
  transitivity (step_jmp rand (bits w) s (to_insn x)); [|by destruct w].
  unfold step_jmp. change (code (to_insn x)) with c. change (dst_reg (to_insn x)) with d. rewrite Hj. cbn [andb].
  change (off (to_insn x)) with o.
  assert ((BPF_OP c =? BPF_CALL) && (bits w =? 64) = false) as ->.
  { destruct w; [apply andb_false_r|]. by destruct Hce as [-> _]. }
  assert ((BPF_OP c =? BPF_EXIT) && (bits w =? 64) = false) as ->.
  { destruct w; [apply andb_false_r|]. by destruct Hce as [_ ->]. }
  rewrite get_dst. destruct (get_reg s d) as [v|]; [|done]. cbn [mbind option_bind].
  destruct (value s ov) as [y1|], (BpfSem.operand s (to_insn x)) as [y2|]; try done.
  cbn [mbind option_bind]. cbn in Hy. rewrite Hy. cbn [mbind option_bind]. rewrite Et, after_here.
  by destruct (compare w cop v y1).
Qed.

Definition cond_ok (w : Width) (opc : Z) (cop : CmpOp) : Prop :=
  forall v y, cond (bits w) opc (uwrap (bits w) v) (uwrap (bits w) y) = Some (compare w cop v y).

Lemma cond_reg w opc cop c : BPF_SRC c = BPF_X -> cond_ok w opc cop ->
  same_cond w opc cop (value s (OReg rs)) (BpfSem.operand s (to_insn (Lower.MkRaw c d sr o im))).
Proof using Hs.
  intros Hc Ha. unfold BpfSem.operand. change (code _) with c. rewrite Hc. cbn [value]. rewrite get_src.
  cbn. destruct (get_reg s sr); [|done]. intros v. apply Ha.
Qed.

Lemma cond_imm w opc cop c i : BPF_SRC c = BPF_K -> cond_ok w opc cop -> uwrap (bits w) (u64 im) = uwrap (bits w) (u64 i) ->
  same_cond w opc cop (value s (OImm i)) (BpfSem.operand s (to_insn (Lower.MkRaw c d sr o im))).
Proof using.
  intros Hc Ha Hi. unfold BpfSem.operand. change (code _) with c. rewrite Hc. cbn. intros v. rewrite Hi. apply Ha.
Qed.

Lemma load_case size c : let x := to_insn (Lower.MkRaw c d sr o im) in
  Z.land c 7 = BPF_LDX -> Z.land c 0xe0 = BPF_MEM -> size_bytes c = width_of size ->
  exec_instr p rand s (Load size rd rs o) = isa_insn prog rand s x.
Proof using Hd Hs Hnext.
  intros x Hc Hm Hn. cbn [exec_instr]. unfold isa_insn, ext_step. change (code x) with c. pose proof (not_ld_imm64 _ _ Hc ltac:(done)). rewrite Hc, Hm, fp_free by done. cbn.
  f_equal. unfold exec_load, step_ldx. change (code x) with c. change (src_reg x) with sr. change (off x) with o.
  change (dst_reg x) with d. rewrite get_src, Hm, Hn. destruct (get_reg s sr) as [a|]; [|done]. cbn [mbind option_bind].
  destruct (load _ _ _) as [v|]; [|done]. cbn [mbind option_bind]. rewrite put_dst. cbn.
  destruct (d =? 10); [done|]. cbn. by rewrite next_dst.
Qed.

Lemma loadsx_case size c : let x := to_insn (Lower.MkRaw c d sr o im) in
  Z.land c 7 = BPF_LDX -> Z.land c 0xe0 = BPF_MEMSX -> size_bytes c = width_of size -> width_of size <> 8%nat ->
  exec_instr p rand s (LoadSx size rd rs o) = isa_insn prog rand s x.
Proof using Hd Hs Hnext.
  intros x Hc Hm Hn H8. cbn [exec_instr]. unfold isa_insn, ext_step. change (code x) with c. pose proof (not_ld_imm64 _ _ Hc ltac:(done)). rewrite Hc, Hm, fp_free by done. cbn [Z.eqb].
  change (of_option (exec_load p s size rd rs o (fun v => u64 (swrap (8 * Z.of_nat (width_of size)) v))) =
    of_option (step_ldsx s x)).
  f_equal. unfold exec_load, step_ldsx. change (code x) with c. change (src_reg x) with sr. change (off x) with o.
  change (dst_reg x) with d. rewrite get_src, Hn. destruct (get_reg s sr) as [a|]; [|done]. cbn [mbind option_bind].
  destruct (load _ _ _) as [v|]; [|done]. cbn [mbind option_bind]. rewrite put_dst.
  rewrite (proj2 (Nat.eqb_neq _ _)) by done. cbn. destruct (d =? 10); [done|]. cbn. by rewrite next_dst.
Qed.

Lemma st_agree size ov x v2 : dst_reg x = d -> off x = o -> size_bytes (code x) = width_of size ->
  match value s ov, v2 with Some v1, Some v2 => u64 v1 = u64 v2 | None, None => True | _, _ => False end ->
  exec_store p s size rd o (value s ov) = step_st s x v2.
Proof using Hd Hnext.
  intros Hx Hxo Hn Hv. unfold exec_store, step_st. rewrite get_dst, Hx, Hxo, Hn.
  destruct (get_reg s d) as [a|]; [|done]. cbn [mbind option_bind].
  destruct (value s ov) as [v|], v2 as [v'|]; try done. cbn [mbind option_bind]. rewrite Hv.
  destruct (store _ _ _ _); [|done]. cbn. by rewrite next_dst.
Qed.

Lemma st_imm_case size c : let x := to_insn (Lower.MkRaw c d sr o im) in
  Z.land c 7 = BPF_ST -> size_bytes c = width_of size ->
  exec_instr p rand s (Store size rd o (OImm im)) = isa_insn prog rand s x.
Proof using Hd Hnext.
  intros x Hc Hn. cbn [exec_instr]. unfold isa_insn, ext_step. change (code x) with c. pose proof (not_ld_imm64 _ _ Hc ltac:(done)). rewrite Hc, fp_free by done.
  cbn -[step_st exec_store value].
  f_equal. apply (st_agree size (OImm im) x); [done..|]. cbn. by rewrite uwrap_idemp.
Qed.

Lemma st_reg_case size c : let x := to_insn (Lower.MkRaw c d sr o im) in
  Z.land c 7 = BPF_STX -> Z.land c 0xe0 = BPF_MEM -> size_bytes c = width_of size ->
  exec_instr p rand s (Store size rd o (OReg rs)) = isa_insn prog rand s x.
Proof using Hd Hs Hnext.
  intros x Hc Hm Hn. cbn [exec_instr]. unfold isa_insn, ext_step. change (code x) with c. pose proof (not_ld_imm64 _ _ Hc ltac:(done)).
  rewrite Hc, Hm, fp_free by done.
  cbn -[step_st exec_store value get_reg]. f_equal. apply (st_agree size (OReg rs) x); [done..|].
  cbn [value]. rewrite get_src. change (src_reg x) with sr. by destruct (get_reg s sr).
Qed.

Lemma packet_case size c m idx : let x := to_insn (Lower.MkRaw c d sr o im) in
  Z.land c 7 = BPF_LD -> Z.land c 0xe0 = m -> m = BPF_ABS \/ m = BPF_IND ->
  (if m =? BPF_IND then get_reg s sr else Some 0) = idx -> size_bytes c = width_of size -> width_of size <> 8%nat ->
  (BPF_SIZE c =? BPF_DW) = false ->
  exec_packet p s size im idx = isa_insn prog rand s x.
Proof using Hnext.
  intros x Hc Hm Hmi <- Hn H8 Hdw. unfold isa_insn, ext_step. change (code x) with c.
  assert ((c =? 0x18) = false) by (by destruct (Z.eqb_spec c 24) as [->|]). rewrite Hc, Hm, fp_free by done. cbn -[exec_packet step_ld].
  unfold exec_packet, step_ld. change (code x) with c. change (imm x) with im. change (src_reg x) with sr.
  rewrite Hm, Hdw, Hn. cbn [andb]. rewrite after_here. change (get s R6) with (get_reg s 6).
  by destruct Hmi as [->| ->].
Qed.

(** The table of the atomic operations. *)
Lemma atomic_table i aop fetch : Lower.atomic_op i = Some (aop, fetch) ->
  (forall w old src r0, atomic w i old src r0 = Some (ast_atomic w aop old src r0,
     if fetch then Some (match aop with ACmpXchg => true | _ => false end, old) else None)) /\
  (i =? BPF_CMPXCHG) = (match aop with ACmpXchg => true | _ => false end).
Proof using.
  unfold Lower.atomic_op. intros H. repeat case_match; simplify_eq; done.
Qed.

Lemma atomic_case size c : let x := Lower.MkRaw c d sr o im in
  Z.land c 7 = BPF_STX -> Z.land c 0xe0 = BPF_ATOMIC -> size_bytes c = width_of size ->
  match Lower.lower_atomic (Z.to_nat (pc s)) x rd rs size
          (match size with U8 | U16 => true | _ => false end) with
  | Lower.Ok i => exec_instr p rand s i = isa_insn prog rand s (to_insn x)
  | Lower.Err _ => True
  end.
Proof using Hd Hs Hnext.
  intros x Hc Hm Hn. unfold isa_insn, ext_step, Lower.lower_atomic. change (code (to_insn x)) with c. pose proof (not_ld_imm64 _ _ Hc ltac:(done)).
  rewrite Hc, Hm, fp_free by done.
  change (imm (to_insn x)) with im. change (Lower.imm x) with im. change (Lower.off x) with o. cbn [Z.eqb BPF_STX BPF_ATOMIC].
  change BPF_LOAD_ACQ with 256. change BPF_STORE_REL with 272.
  destruct (im =? 256) eqn:E1; [|destruct (im =? 272) eqn:E2].
  - cbn -[exec_load step_load_acq]. f_equal. unfold exec_load, step_load_acq. change (code (to_insn x)) with c.
    change (src_reg (to_insn x)) with sr. change (off (to_insn x)) with o. change (dst_reg (to_insn x)) with d.
    rewrite get_src, Hn. destruct (get_reg s sr) as [a|]; [|done]. cbn [mbind option_bind].
    destruct (load _ _ _) as [v|]; [|done]. cbn [mbind option_bind]. rewrite put_dst.
    destruct (d =? 10); [done|]. cbn. by rewrite next_dst.
  - cbn -[exec_store step_st get_reg]. f_equal. apply (st_agree size (OReg rs) (to_insn x)); [done..|].
    cbn [value]. rewrite get_src. change (src_reg (to_insn x)) with sr. by destruct (get_reg s sr).
  - destruct (match size with U8 | U16 => true | _ => false end) eqn:En; [done|].
    destruct (Lower.atomic_op im) as [[aop fetch]|] eqn:Ea; [|done].
    destruct (atomic_table _ _ _ Ea) as [Ht Hx]. cbn -[exec_atomic step_atomic]. f_equal.
    unfold exec_atomic, step_atomic. change (code (to_insn x)) with c. change (src_reg (to_insn x)) with sr.
    change (off (to_insn x)) with o. change (dst_reg (to_insn x)) with d. change (imm (to_insn x)) with im.
    rewrite get_src, get_dst, Hn, Hx. replace (negb _) with false by (by destruct size).
    destruct (get_reg s d) as [a|]; [|done]. cbn [mbind option_bind]. destruct (get_reg s sr) as [v|]; [|done].
    cbn [mbind option_bind]. destruct (load _ _ _) as [old|]; [|done]. cbn [mbind option_bind].
    assert ((if match aop with ACmpXchg => true | _ => false end then get_reg s 0 else Some 0) =
      match aop with ACmpXchg => get s R0 | _ => Some 0 end) as -> by (by destruct aop).
    destruct (match aop with ACmpXchg => get s R0 | _ => Some 0 end) as [r0|]; [|done]. cbn [mbind option_bind].
    rewrite Ht. cbn [mbind option_bind]. destruct (store _ _ _ _) as [m|]; [|done]. cbn [mbind option_bind].
    rewrite next_dst by done. destruct fetch; [|done]. rewrite Hs. by destruct aop.
Qed.

Lemma endian_imm be : endian be (u32 im) = endian be im.
Proof using Him.
  unfold in_s in Him. destruct (Z.ltb_spec im 0).
  - assert (u32 im = im + 2 ^ 32) as E.
    { unfold uwrap. symmetry. apply Z.mod_unique with (-1); lia. }
    unfold endian. rewrite E. by rewrite !(proj2 (Z.eqb_neq _ _)) by lia.
  - by rewrite uwrap_small by (unfold in_u; lia).
Qed.

Lemma endian_case w op c : let x := to_insn (Lower.MkRaw c d sr o im) in
  (o =? 0) = true ->
  (c = 0xd4 /\ op = ToLe) \/ (c = 0xdc /\ op = ToBe) \/ (c = 0xd7 /\ op = Bswap) ->
  exec_instr p rand s (Endian rd w op (u32 im)) = isa_insn prog rand s x.
Proof using Hd Hnext Him.
  intros x Ho Hc. cbn [exec_instr]. rewrite get_dst, endian_imm.
  transitivity (if d =? 10 then Fault else of_option (
    v0 ← get_reg s d; v ← endian (match op with ToLe => false | _ => true end) im v0;
    Some (advance (set_reg s d v)))).
  { destruct (get_reg s d); [|by destruct (d =? 10)]. cbn. destruct (endian _ _ _); [|by destruct (d =? 10)].
    cbn. rewrite put_dst. destruct (d =? 10); [done|]. cbn. by rewrite next_dst. }
  destruct Hc as [[-> ->]|[[-> ->]|[-> ->]]]; unfold isa_insn, ext_step, x;
    cbn [to_insn code off dst_reg Lower.code Lower.off Lower.dst]; rewrite Ho; by destruct (d =? 10).
Qed.

Ltac fp_cases := unfold isa_insn, ext_step; change (dst_reg (to_insn _)) with d; by destruct (d =? 10).

Lemma call_case : let x := Lower.MkRaw 0x85 d sr o im in
  match Lower.lower_call len (Z.to_nat (pc s)) x rs with
  | Lower.Ok i => exec_instr p rand s i = isa_insn prog rand s (to_insn x)
  | Lower.Err _ => True
  end.
Proof using Hs Hnext Hpc Him.
  intros x. unfold Lower.lower_call. destruct (_ || _); [done|].
  assert (isa_insn prog rand s (to_insn x) = of_option (step_call rand s (to_insn x))) as -> by fp_cases.
  unfold step_call. change (src_reg (to_insn x)) with sr. change (imm (to_insn x)) with im. change (Lower.imm x) with im.
  case_decide as E; [|case_decide as E'; [|case_decide as E'']].
  - rewrite E in Hs. injection Hs as <-. cbn [exec_instr exec_call]. f_equal. cbn [Z.eqb].
    assert ((u32 im =? BPF_FUNC_get_prandom_u32) = (im =? BPF_FUNC_get_prandom_u32)) as ->.
    { unfold in_s in Him. change BPF_FUNC_get_prandom_u32 with 7. destruct (Z.ltb_spec im 0).
      - assert (u32 im = im + 2 ^ 32) as -> by (unfold uwrap; symmetry; apply Z.mod_unique with (-1); lia).
        rewrite !(proj2 (Z.eqb_neq _ _)); (done || lia).
      - by rewrite uwrap_small by (unfold in_u; lia). }
    cbn [andb]. by rewrite after_here.
  - rewrite E' in Hs. injection Hs as <-. destruct (_ || _) eqn:Et; [done|]. cbn [exec_instr Z.eqb Pos.eqb].
    apply orb_false_iff in Et as [Et _]. apply Z.ltb_ge in Et. f_equal. unfold exec_call_rel. change (get s R10) with (get_reg s 10).
    destruct (get_reg s 10) as [fp|]; [|done]. cbn [mbind option_bind]. rewrite after_here.
    replace (Z.of_nat (Z.to_nat (Z.of_nat (Z.to_nat (pc s)) + 1 + im))) with (pc s + im + 1) by lia. done.
  - rewrite E'' in Hs. injection Hs as <-. done.
  - done.
Qed.

Lemma movsx_case w b : let x := to_insn (Lower.MkRaw (match w with W64 => 0xbf | W32 => 0xbc end) d sr o im) in
  o = sx_bits b -> (w = W32 -> b <> B32) ->
  exec_instr p rand s (MovSx w b rd (OReg rs)) = isa_insn prog rand s x.
Proof using Hd Hs Hnext.
  intros x Ho Hb. cbn [exec_instr value]. rewrite get_src.
  transitivity (of_option (step_alu_off (bits w) s x)).
  - f_equal. unfold step_alu_off. change (off x) with o. change (src_reg x) with sr. change (dst_reg x) with d.
    rewrite Ho. replace (_ && _) with true by (by destruct w). replace (_ || _ || _) with true.
    2: { destruct b; try done. destruct w; [|done]. by destruct Hb. }
    destruct (get_reg s sr); [|done]. cbn [mbind option_bind]. rewrite put_dst. destruct (d =? 10); [done|].
    cbn. by rewrite next_dst.
  - unfold isa_insn, ext_step. change (off x) with o. change (code x) with (match w with W64 => 0xbf | W32 => 0xbc end).
    change (dst_reg x) with d. rewrite Ho. by destruct w, b, (d =? 10).
Qed.

Lemma mov_case w : let c := match w with W64 => 0xbf | W32 => 0xbc end in let x := Lower.MkRaw c d sr o im in
  (o =? 1) = false ->
  match (match w with W64 => Lower.lower_mov64 | W32 => Lower.lower_mov32 end) (Z.to_nat (pc s)) x rd rs with
  | Lower.Ok i => exec_instr p rand s i = isa_insn prog rand s (to_insn x)
  | Lower.Err _ => True
  end.
Proof using Hd Hs Hnext.
  intros c x K. destruct (_ (Z.to_nat (pc s)) x rd rs) as [i|] eqn:E; [|done].
  apply lower_mov_cases in E as [[Ho ->]|(b & Ho & Hb & ->)]; cbn [x Lower.off] in Ho.
  - assert ((o =? 0) = true) as H0 by (destruct Ho as [Ho|Ho]; rewrite Ho in K |- *; done).
    unfold x. rewrite (isa_alu w c) by (done || by destruct w). subst c.
    apply lowered_alu_case; [by destruct w..|]. apply same_reg; [by destruct w|]. intros ? ?. by destruct w.
  - by apply movsx_case.
Qed.

Lemma ja_case : let x := Lower.MkRaw 0x05 d sr o im in
  match (target ← Lower.branch_target (Z.to_nat (pc s)) o len 0x05; Lower.Ok (Jmp target)) with
  | Lower.Ok i => exec_instr p rand s i = isa_insn prog rand s (to_insn x)
  | Lower.Err _ => True
  end.
Proof using Hpc.
  intros x. unfold Lower.branch_target. destruct (Lower.branch_target_disp _ _ _ _) as [t|e] eqn:Et; [|done].
  apply target_pc_eq in Et. cbn -[isa_insn]. rewrite Et. fp_cases.
Qed.

Lemma gotol_case : let x := Lower.MkRaw 0x06 d sr o im in
  match Lower.lower_gotol len (Z.to_nat (pc s)) x with
  | Lower.Ok i => exec_instr p rand s i = isa_insn prog rand s (to_insn x)
  | Lower.Err _ => True
  end.
Proof using Hpc.
  intros x. unfold Lower.lower_gotol. change (Lower.off x) with o. change (Lower.imm x) with im.
  change (Lower.code x) with 6. destruct (o =? 0) eqn:Eo; [|done]. cbn [negb].
  destruct (Lower.branch_target_disp _ _ _ _) as [t|e] eqn:Et; [|done].
  apply target_pc_eq in Et. cbn -[isa_insn]. rewrite Et. unfold isa_insn, ext_step, x.
  cbn [to_insn code off imm dst_reg Lower.code Lower.off Lower.imm Lower.dst]. rewrite Eo. by destruct (d =? 10).
Qed.

Lemma may_goto_case : let x := Lower.MkRaw 0xe5 d sr o im in
  match Lower.lower_may_goto len (Z.to_nat (pc s)) x with
  | Lower.Ok i => exec_instr p rand s i = isa_insn prog rand s (to_insn x)
  | Lower.Err _ => True
  end.
Proof using.
  intros x. unfold Lower.lower_may_goto. destruct (_ || _); [done|].
  destruct (Lower.branch_target _ _ _ _) as [t|e]; [|done]. cbn -[isa_insn].
  assert (isa_insn prog rand s (to_insn x) = of_option (v ← get_reg s d; y ← Some (u64 im);
    b ← @None bool; Some (set_pc s (if b : bool then pc s + o + 1 else pc s + 1)))) as -> by fp_cases.
  by destruct (get_reg s d).
Qed.

Lemma or_case : let x := to_insn (Lower.MkRaw 0x47 d sr o im) in 0 <= im -> (o =? 0) = true ->
  exec_instr p rand s (Alu W64 Or rd (OImm (u32 im))) = isa_insn prog rand s x.
Proof using Hd Hnext Him.
  intros x H Ho. unfold x. rewrite (isa_alu W64) by done. apply lowered_alu_case; [reflexivity..|].
  unfold in_s in Him. rewrite (uwrap_small 32 im) by (unfold in_u; lia).
  apply same_imm; [reflexivity|by intros ? ?|done].
Qed.

Ltac open K := unfold agree; intros K _; cbn -[exec_instr isa_insn kept];
  unfold kept, BPF_ALU, BPF_ALU64 in K; cbn in K; rewrite ?orb_false_r in K.

Ltac alu_op := intros ? ?; unfold alu; cbn [Z.eqb Pos.eqb BPF_ADD BPF_SUB]; rewrite ?shift_mod by auto; reflexivity.

Ltac alu_operand :=
  first [ apply same_reg; [reflexivity|alu_op]
        | apply same_imm; [reflexivity|alu_op|intros ? ?; cbn [bits];
            first [ reflexivity | by rewrite u32_ext | unfold ast_alu; by rewrite shift_ext ]]
        | intros ? _; alu_op ].

Ltac alu_goal K := lazymatch goal with |- exec_instr _ _ _ (Alu ?w ?aop _ ?ov) = isa_insn _ _ _ (to_insn (Lower.MkRaw ?c _ _ _ _)) =>
  rewrite (isa_alu w c) by (reflexivity || exact K); apply lowered_alu_case; [reflexivity..|]; try alu_operand end.

Ltac cond_op := intros ? ?; unfold cond, compare; cbn [bits]; rewrite ?swrap_uwrap by lia; reflexivity.

Ltac jmp_goal := apply jmp_case; [reflexivity..|done|];
  first [ apply cond_reg; [reflexivity|cond_op]
        | apply cond_imm; [reflexivity|cond_op|first [reflexivity|apply u32_ext]] ].

Lemma agree_all c : in_u 8 c -> agree c.
Proof using All.
  apply byte_cases. 
  let l := eval vm_compute in (seqZ 0 256) in change (seqZ 0 256) with l.
  repeat (apply Forall_cons; split; [|]); [..|by apply Forall_nil].
  all: try (unfold agree; cbn; done).
  all: open K.
  all: try (alu_goal K).
  all: try jmp_goal.
  all: try (by apply load_case).
  all: try (by apply loadsx_case).
  all: try (by apply st_imm_case).
  all: try (by apply st_reg_case).
  all: try (by apply (packet_case _ _ BPF_ABS); auto).
  all: try (by apply (packet_case _ _ BPF_IND); auto; cbn; rewrite ?get_src).
  all: try (by apply atomic_case).
  all: try (by apply endian_case; auto).
  all: try (by apply call_case).
  all: try (by apply ja_case).
  all: try (by apply gotol_case).
  all: try (by apply may_goto_case).
  - apply andb_true_iff in K as [K1 K2]. apply or_case; [by apply Z.leb_le|exact K2].
  - intros v Hv. reflexivity.
  - intros v Hv. reflexivity.
  - cbn -[isa_insn]. fp_cases.
  - apply (mov_case W32). destruct (o =? 1) eqn:E1; [|done]. apply Z.eqb_eq in E1. by rewrite E1 in K.
  - apply (mov_case W64). destruct (o =? 1) eqn:E1; [|done]. apply Z.eqb_eq in E1. by rewrite E1 in K.
Qed.

End Slot.

Lemma second_faults prog rand s x : Lower.code x = 0 -> isa_insn prog rand s (to_insn x) = Fault.
Proof.
  intros Hc. unfold isa_insn, ext_step, step_ld. change (code (to_insn x)) with (Lower.code x). rewrite Hc.
  by destruct (dst_reg (to_insn x) =? 10).
Qed.

(** The two-slot instruction. *)
Lemma ld_imm64_agree raw p rand s x y rd rs i : let k := Z.to_nat (pc s) in
  0 <= pc s -> Lower.code x = 0x18 -> Lower.reg_to_var x (Lower.dst x) k = Lower.Ok rd ->
  Lower.reg_to_var x (Lower.src x) k = Lower.Ok rs -> raw !! S k = Some y -> Lower.code y = 0 ->
  Lower.lower_ld_imm64 (length raw) k x rd rs (Some y) = Lower.Ok i -> S k ∈ Lower.invalid_pc_set p ->
  exec_instr p rand s i = isa_insn (to_insn <$> raw) rand s (to_insn x).
Proof.
  intros k Hpc Hc Hd Hs Hy Hcy Hi Hinv. apply reg_to_var_num in Hd as [Hd _]. apply reg_to_var_num in Hs as [Hs _].
  apply LowerProps.ld_imm64_ok in Hi. unfold isa_insn, ext_step, step_ld.
  change (code (to_insn x)) with (Lower.code x). change (dst_reg (to_insn x)) with (Lower.dst x).
  change (src_reg (to_insn x)) with (Lower.src x). change (imm (to_insn x)) with (Lower.imm x). rewrite Hc.
  destruct rs; try done; cbn in Hs; injection Hs as Hs; rewrite <- Hs.
  2-7: first [rewrite Hi|destruct Hi as [_ Hi]; rewrite Hi]; by destruct (Lower.dst x =? 10).
  rewrite Hi. cbn [exec_instr value mbind option_bind]. unfold put. rewrite Hd.
  destruct (Lower.dst x =? 10); [done|]. cbn -[isa_insn u64 uwrap].
  replace (Z.to_nat (pc s + 1)) with (S k) by lia. rewrite list_lookup_fmap, Hy. cbn -[u64 uwrap swrap]. rewrite Hcy.
  set (v := Z.lor (u32 (Lower.imm x)) (Z.shiftl (u32 (Lower.imm y)) 32)).
  transitivity (Next (set_pc (set_reg s (Lower.dst x) v) (pc s + 2))); [|reflexivity].
  assert (u64 (u64 (LowerProps.imm64 x y)) = v) as ->.
  { unfold LowerProps.imm64. fold v. rewrite uwrap_idemp, uwrap_swrap by lia. apply uwrap_small. unfold v.
    rewrite SipHash.SipHash.lor_shiftl_add by (lia || by apply uwrap_range).
    pose proof (uwrap_range 32 (Lower.imm x) ltac:(lia)). pose proof (uwrap_range 32 (Lower.imm y) ltac:(lia)).
    unfold in_u in *. lia. }
  unfold goto_next, after. cbn [pc set_reg]. fold k. by rewrite decide_True.
Qed.

(** One step of the lowered program is one step of the raw instructions. *)
Lemma lower_step raw p rand s :
  Forall LowerProps.raw_ok raw -> Lower.lower_raw_to_program raw = Lower.Ok p ->
  (forall x, raw !! Z.to_nat (pc s) = Some x -> kept x = true) ->
  exec p rand s = isa_step (to_insn <$> raw) rand s.
Proof.
  intros Hraw Hp Hk. pose proof (LowerProps.lower_spec raw) as Hg. rewrite Hp in Hg.
  destruct Hg as (Hl & Hinv & _ & Hs). unfold exec.
  destruct (Z.ltb_spec (pc s) 0) as [Hneg|Hpc]; [unfold isa_step; by rewrite (proj2 (Z.ltb_lt _ _))|].
  set (k := Z.to_nat (pc s)) in *. destruct (raw !! k) as [x|] eqn:Hx.
  2: { assert (isa_step (to_insn <$> raw) rand s = Fault) as ->.
       { unfold isa_step. fold k. rewrite list_lookup_fmap, Hx. by destruct (pc s <? 0). }
       apply lookup_ge_None in Hx. case_decide; [done|]. rewrite lookup_ge_None_2; [done|lia]. }
  pose proof (lookup_lt_Some _ _ _ Hx) as Hlt. specialize (Hs k x Hlt Hx). specialize (Hk x eq_refl).
  rewrite (isa_step_insn _ _ _ (to_insn x)) by (done || (fold k; by rewrite list_lookup_fmap, Hx)).
  assert (S k ∈ Lower.invalid_pc_set p <-> Lower.code x = 0x18 /\ (S k < length raw)%nat) as Hnext.
  { rewrite Hinv. cbn. rewrite Hx. rewrite Z.eqb_eq. tauto. }
  destruct (LowerProps.second raw k) eqn:E2.
  - rewrite decide_True by (by apply Hinv). destruct Hs as [[Hc _] _]. by rewrite second_faults.
  - rewrite decide_False by (rewrite Hinv; intros [_ ?]; congruence). destruct Hs as (i & Hi & ->).
    unfold LowerProps.lower_at in Hi.
    destruct (Lower.reg_to_var x (Lower.dst x) k) as [rd|] eqn:Ed; [|done].
    destruct (Lower.reg_to_var x (Lower.src x) k) as [rs|] eqn:Es; [|done]. cbn [mbind Lower.Result_bind] in Hi.
    destruct (Z.eqb_spec (Lower.code x) 0x18) as [Hc|Hc].
    + destruct (LowerProps.lower_ld_imm64_cont _ _ _ _ _ _ _ Hi) as (y & Hy & Hb & _). rewrite Hy in Hi.
      eapply ld_imm64_agree; try done. apply Hnext. split; [done|by eapply lookup_lt_Some].
    + rewrite Forall_lookup in Hraw. destruct (Hraw k x Hx) as (Hbyte & _ & _ & _ & Him).
      apply reg_to_var_num in Ed as [Ed _]. apply reg_to_var_num in Es as [Es _]. destruct x as [c d sr o im].
      assert (S k ∉ Lower.invalid_pc_set p) as Hn by (rewrite Hnext; by intros []).
      pose proof (agree_all p (to_insn <$> raw) rand s (length raw) d sr o im rd rs Ed Es Hpc Hn Him c Hbyte Hk Hc) as H.
      fold k in H. by rewrite Hi in H.
Qed.

(** Runs of at most [fuel] steps; [None] when the fuel is used up. *)
Fixpoint steps (f : state -> event) (fuel : nat) (s : state) : option event :=
  match fuel with
  | O => None
  | S fuel => match f s with Next s => steps f fuel s | e => Some e end
  end.

(** C5. Lowering keeps the meaning of a program: from any machine state and for any number of steps
    the lowered instructions run as the instruction set runs the decoded bytes, for every opcode the
    lowering accepts (arithmetic on both widths, moves and loads with sign extension, byte swaps,
    jumps on both widths and long jumps, loads, stores, atomic, acquire and release accesses, packet
    loads, calls, returns, two-slot immediates), faults included.  [kept] leaves out a 64-bit [or]
    with a negative immediate and arithmetic with a nonzero [off] other than sign extension. *)
Theorem lower_simulates bytes p rand fuel s : let raw := Lower.decode_insns bytes in
  Forall is_byte bytes -> Lower.lower_raw_to_program raw = Lower.Ok p -> forallb kept raw = true ->
  steps (exec p rand) fuel s = steps (isa_step (to_insn <$> raw) rand) fuel s.
Proof.
  intros raw Hb Hp Hk. destruct (LowerProps.decode_bytes bytes Hb) as [Hraw _].
  revert s. induction fuel as [|fuel IH]; intros s; [done|]. cbn [steps].
  rewrite (lower_step raw p rand s Hraw Hp).
  - destruct (isa_step _ rand s); [apply IH|done|done].
  - intros x Hx. rewrite forallb_forall in Hk. apply Hk, list_elem_of_In. by eapply list_elem_of_lookup_2.
Qed.

Definition sample_bytes : list Z := LowerProps.encode_insns [
  Lower.MkRaw 0x18 1 0 0 (-2); Lower.MkRaw 0 0 0 0 (-1); (* r1 = -2, in two slots *)
  Lower.MkRaw 0xbf 0 1 8 0;                              (* r0 = (s8) r1 *)
  Lower.MkRaw 0x65 0 0 1 0;                              (* if r0 > 0 (signed) skip one *)
  Lower.MkRaw 0x07 0 0 0 7;                              (* r0 += 7 *)
  Lower.MkRaw 0x95 0 0 0 0].

Lemma lower_simulates_witness :
  exists p, Lower.lower_raw_to_program (Lower.decode_insns sample_bytes) = Lower.Ok p /\
  forall rand fuel s, steps (exec p rand) fuel s =
    steps (isa_step (to_insn <$> Lower.decode_insns sample_bytes) rand) fuel s.
Proof.
  eexists. split; [vm_compute; reflexivity|]. intros rand fuel s.
  apply (lower_simulates sample_bytes); [|vm_compute; reflexivity|vm_compute; reflexivity].
  repeat (apply Forall_cons; split; [split; vm_compute; congruence|]). by apply Forall_nil.
Defined.

(** * What the lowering loses *)

(** Results of a program after lowering, and as the instruction set gives them. *)
Definition outcomes (raw : list Lower.RawBpfInsn) : option (option event * option event) :=
  let s := init_state BPF_PROG_TYPE_SOCKET_FILTER [] in
  match Lower.lower_raw_to_program raw with
  | Lower.Ok p => Some (steps (exec p (fun _ => 0)) 10 s, steps (isa_step (to_insn <$> raw) (fun _ => 0)) 10 s)
  | Lower.Err _ => None
  end.

(** What the lowering does not keep: a 64-bit [or] with [-1] sets 32 bits instead of 64, a signed
    division is run as an unsigned one, an addition with a reserved [off] is accepted, and a callback
    pointer to an earlier slot is refused when its second immediate is 0. *)
Theorem lower_gaps :
  outcomes [Lower.MkRaw 0xb7 0 0 0 0; Lower.MkRaw 0x47 0 0 0 (-1); Lower.MkRaw 0x95 0 0 0 0] =
    Some (Some (Exited (2 ^ 32 - 1)), Some (Exited (2 ^ 64 - 1))) /\
  outcomes [Lower.MkRaw 0xb7 0 0 0 (-10); Lower.MkRaw 0x37 0 0 1 3; Lower.MkRaw 0x95 0 0 0 0] =
    Some (Some (Exited ((2 ^ 64 - 10) / 3)), Some (Exited (2 ^ 64 - 3))) /\
  outcomes [Lower.MkRaw 0xb7 0 0 0 1; Lower.MkRaw 0x07 0 0 5 1; Lower.MkRaw 0x95 0 0 0 0] =
    Some (Some (Exited 2), Some Fault) /\
  (forall p, Lower.lower_raw_to_program [Lower.MkRaw 0x95 0 0 0 0; Lower.MkRaw 0x18 1 4 0 (-3);
     Lower.MkRaw 0 0 0 0 0; Lower.MkRaw 0x95 0 0 0 0] <> Lower.Ok p).
Proof. split_and!; [vm_compute; reflexivity..|]. intros p. vm_compute. congruence. Qed.

End LowerSem.
