(* ===== verification/LowerRefine.v ===== *)
(** Execution of the bytes of a program against the register semantics of [Ast].

    The abstract domains and the certificates are proved sound for [Ast.step] and [Ast.next].  Here
    a run of the instruction set on the raw instructions, with any behaviour of the helpers, is
    followed by those relations on the lowered program, the placeholder of a second slot included. *)

From S2P Require Import Prelude BpfInsn BpfSem Zone Ast Lower LowerProps LowerSem.
From Stdlib Require Import ZArith Lia String FunctionalExtensionality.
From stdpp Require Import base numbers strings gmap list relations.
Import BpfInsn(bpf_insn(..), code, dst_reg, src_reg, off).
Import BpfSem.
Import Zone(Reg(..)).
Import Ast LowerSem.
Open Scope Z_scope.

Module LowerRefine.
#[local] Existing Instance Lower.Result_bind.

(** The registers as signed values. *)
Definition view (s : state) : val := fun r => match get s r with Some v => s64 v | None => 0 end.

Lemma view_range s r : in_s 64 (view s r).
Proof. unfold view. destruct (get s r); [apply swrap_range; lia|done]. Qed.

Definition wf (s : state) : Prop := length (regs s) = 11%nat.

Lemma reg_num_inj r r' n : reg_num r = Some n -> reg_num r' = Some n -> r = r'.
Proof. destruct r, r'; cbn; congruence. Qed.

Lemma reg_num_range r n : reg_num r = Some n -> 0 <= n <= 10.
Proof. destruct r; cbn; intros; simplify_eq; lia. Qed.

Lemma view_set s r n v : wf s -> reg_num r = Some n -> view (set_reg s n v) = vset (view s) r (s64 v).
Proof.
  intros Hw Hn. apply functional_extensionality. intros q. unfold vset, view, get.
  pose proof (reg_num_range _ _ Hn) as Hr. case_decide as E.
  - subst q. rewrite Hn. cbn [mbind option_bind]. unfold get_reg, set_reg. cbn [regs].
    rewrite list_lookup_insert_eq by (unfold wf in Hw; lia). done.
  - destruct (reg_num q) as [m|] eqn:Hm; [|done]. cbn [mbind option_bind]. unfold get_reg, set_reg. cbn [regs].
    rewrite list_lookup_insert_ne; [done|]. pose proof (reg_num_range _ _ Hm).
    intros H'. apply E. apply (reg_num_inj _ _ n); [|done]. rewrite Hm. f_equal. lia.
Qed.

Lemma view_regs s s' : regs s = regs s' -> view s = view s'.
Proof. intros E. unfold view, get, get_reg. by rewrite E. Qed.

Lemma put_view s r v s' : wf s -> put s r v = Some s' ->
  view s' = vset (view s) r (s64 v) /\ pc s' = pc s /\ wf s'.
Proof.
  intros Hw. unfold put. destruct (reg_num r) as [n|] eqn:Hn; [|done]. destruct (n =? 10); [done|].
  intros [= <-]. split; [by apply view_set|]. split; [done|]. unfold wf, set_reg. cbn [regs]. by rewrite length_insert.
Qed.

(** * The operands *)

Lemma u_s64 w v : w = W32 \/ w = W64 -> uwrap (bits w) (s64 v) = uwrap (bits w) v.
Proof.
  intros [->| ->]; cbn [bits]; [|by rewrite uwrap_swrap by lia].
  by rewrite <- (LowerProps.uwrap_uwrap 32 64), uwrap_swrap, LowerProps.uwrap_uwrap by lia.
Qed.

Lemma u_u64 w v : uwrap (bits w) (u64 v) = uwrap (bits w) v.
Proof.
  destruct w; cbn [bits]; [|by rewrite uwrap_idemp by lia].
  by rewrite LowerProps.uwrap_uwrap by lia.
Qed.

Lemma compare_cut w op a b a' b' : uwrap (bits w) a = uwrap (bits w) a' -> uwrap (bits w) b = uwrap (bits w) b' ->
  compare w op a b = compare w op a' b'.
Proof.
  intros Ha Hb. assert (swrap (bits w) a = swrap (bits w) a') as Sa.
  { rewrite <- (swrap_uwrap _ a), <- (swrap_uwrap _ a'), Ha by (by destruct w). done. }
  assert (swrap (bits w) b = swrap (bits w) b') as Sb.
  { rewrite <- (swrap_uwrap _ b), <- (swrap_uwrap _ b'), Hb by (by destruct w). done. }
  unfold compare. destruct w; cbn [bits] in *; by rewrite Ha, Hb, Sa, Sb.
Qed.

Lemma value_cut w s o y : value s o = Some y -> uwrap (bits w) y = uwrap (bits w) (operand (view s) o).
Proof.
  destruct o as [r|i]; cbn [value operand].
  - intros H. unfold view. rewrite H. symmetry. apply u_s64. destruct w; auto.
  - intros [= <-]. apply u_u64.
Qed.

Lemma get_cut w s r v : get s r = Some v -> uwrap (bits w) v = uwrap (bits w) (view s r).
Proof. intros H. unfold view. rewrite H. symmetry. apply u_s64. destruct w; auto. Qed.

(** * One instruction *)

Definition intra (i : Instr) : bool := match i with CallRel _ | Exit => false | _ => true end.

Lemma result_u w v : s64 (uwrap (bits w) v) = result w v.
Proof.
  destruct w; cbn [bits result]; [|by rewrite swrap_uwrap by lia]. apply swrap_small; [lia|].
  pose proof (uwrap_range 32 v ltac:(lia)) as H. unfold in_u in H. unfold in_s. lia.
Qed.

Lemma result_cut w a b : uwrap (bits w) a = uwrap (bits w) b -> result w a = result w b.
Proof. intros H. by rewrite <- !result_u, H. Qed.

Lemma cut_add w a b a' b' : uwrap (bits w) a = uwrap (bits w) a' -> uwrap (bits w) b = uwrap (bits w) b' ->
  uwrap (bits w) (a + b) = uwrap (bits w) (a' + b').
Proof.
  intros Ha Hb. assert (0 <= bits w) by (by destruct w).
  rewrite <- (uwrap_add_l _ a), <- (uwrap_add_r _ _ b), Ha, Hb, uwrap_add_l, uwrap_add_r by done. done.
Qed.

Lemma cut_sub w a b a' b' : uwrap (bits w) a = uwrap (bits w) a' -> uwrap (bits w) b = uwrap (bits w) b' ->
  uwrap (bits w) (a - b) = uwrap (bits w) (a' - b').
Proof.
  intros Ha Hb. assert (0 <= bits w) by (by destruct w).
  rewrite <- (uwrap_sub_l _ a), <- (uwrap_sub_r _ _ b), Ha, Hb, uwrap_sub_l, uwrap_sub_r by done. done.
Qed.

Lemma cut_idemp w a : uwrap (bits w) (uwrap (bits w) a) = uwrap (bits w) a.
Proof. apply uwrap_idemp. by destruct w. Qed.

(** An instruction whose result is left open changes its registers only. *)
Definition open_step (i : Instr) (v v' : val) : Prop :=
  (forall r, in_s 64 (v' r)) /\ forall r, r ∉ writes i -> v' r = v r.

Lemma open_vset i s s' r z : r ∈ writes i -> view s' = vset (view s) r z -> open_step i (view s) (view s').
Proof.
  intros Hr E. split; [intros; apply view_range|]. intros q Hq. rewrite E. unfold vset. case_decide; [|done].
  subst. done.
Qed.

Lemma open_same i s s' : view s' = view s -> open_step i (view s) (view s').
Proof. intros E. split; [intros; apply view_range|]. intros q _. by rewrite E. Qed.

Lemma view_clobber s s' r0 : regs s' = clobber (regs s) r0 -> forall q, q ∉ caller_saved -> view s' q = view s q.
Proof.
  intros E q Hq. unfold view, get, get_reg. rewrite E.
  assert (forall n, (clobber (regs s) r0 !! (6 + n)%nat) = regs s !! (6 + n)%nat) as H.
  { intros n. unfold clobber. change (6 + n)%nat with (length (r0 :: replicate 5 None) + n)%nat at 1.
    rewrite app_comm_cons, lookup_app_r by lia. by rewrite Nat.add_comm, Nat.add_sub, lookup_drop. }
  unfold caller_saved in Hq. destruct q; try done; try (exfalso; apply Hq; by repeat first [left; reflexivity|right]); cbn [reg_num mbind option_bind].
  - change (Z.to_nat 6) with (6 + 0)%nat. by rewrite H.
  - change (Z.to_nat 7) with (6 + 1)%nat. by rewrite H.
  - change (Z.to_nat 8) with (6 + 2)%nat. by rewrite H.
  - change (Z.to_nat 9) with (6 + 3)%nat. by rewrite H.
  - change (Z.to_nat 10) with (6 + 4)%nat. by rewrite H.
Qed.

Lemma wf_clobber s r0 n m fs k : wf s -> wf (MkState n (clobber (regs s) r0) m fs k).
Proof. unfold wf, clobber. cbn [regs length replicate app]. rewrite length_drop. lia. Qed.

(** Where an instruction goes. *)
Definition flow (p : Lower.LProgram) (s s' : state) (i : Instr) : Prop :=
  match i with
  | If w l op r t => pc s' = if compare w op (view s l) (operand (view s) r) then Z.of_nat t else after p s
  | Jmp t => pc s' = Z.of_nat t
  | MayGoto t => pc s' = Z.of_nat t \/ pc s' = after p s
  | _ => pc s' = after p s
  end.

Section Step.
Context (p : Lower.LProgram) (rand : nat -> Z) (s s' : state).
Hypothesis Hw : wf s.

Lemma put_next r v : (t ← put s r v; Some (goto_next p t)) = Some s' ->
  view s' = vset (view s) r (s64 v) /\ pc s' = after p s /\ wf s'.
Proof using Hw.
  intros H. apply bind_Some in H as (t & Ht & [= <-]). apply put_view in Ht as (E & Hpc & Hw'); [|done].
  split_and!; [|unfold goto_next, after; cbn [pc set_pc]; by rewrite Hpc|done].
  rewrite <- E. by apply view_regs.
Qed.

Lemma alu_step w op rd o : exec_instr p rand s (Alu w op rd o) = Next s' ->
  Ast.step (Alu w op rd o) (view s) (view s') /\ pc s' = after p s /\ wf s'.
Proof using Hw.
  cbn [exec_instr]. intros H. destruct (_ ≫= _) as [t|] eqn:E in H; [|done]. injection H as ->.
  apply bind_Some in E as (y & Hy & E). apply bind_Some in E as (v & Hv & E).
  apply put_next in E as (E & Hpc & Hw'). split; [|done]. rewrite E.
  assert (open_step (Alu w op rd o) (view s) (view s')) as Ho by (eapply open_vset; [|exact E]; by left).
  rewrite E in Ho. destruct op; try exact Ho; cbn [Ast.step]; f_equal; cbn [ast_alu].
  - rewrite result_u. apply result_cut, cut_add; rewrite cut_idemp; [by apply get_cut|by apply value_cut].
  - rewrite result_u. apply result_cut, cut_sub; rewrite cut_idemp; [by apply get_cut|by apply value_cut].
  - rewrite result_u. apply result_cut. by apply value_cut.
Qed.

Lemma load_step size rd base o ext : exec_load p s size rd base o ext = Some s' ->
  exists z, view s' = vset (view s) rd z /\ pc s' = after p s /\ wf s'.
Proof using Hw.
  unfold exec_load. intros H. apply bind_Some in H as (a & _ & H). apply bind_Some in H as (v & _ & H).
  apply put_next in H. by eexists.
Qed.

Lemma store_step size base o v : exec_store p s size base o v = Some s' ->
  view s' = view s /\ pc s' = after p s /\ wf s'.
Proof using Hw.
  unfold exec_store. intros H. apply bind_Some in H as (a & _ & H). apply bind_Some in H as (z & _ & H).
  apply bind_Some in H as (m & _ & [= <-]). done.
Qed.

Lemma atomic_step op size fetch base o src : exec_atomic p s op size fetch base o src = Some s' ->
  open_step (Atomic op size fetch base o src) (view s) (view s') /\ pc s' = after p s /\ wf s'.
Proof using Hw.
  unfold exec_atomic. cbv zeta. intros H. apply bind_Some in H as (a & _ & H). apply bind_Some in H as (v & Hv & H).
  apply bind_Some in H as (old & _ & H). apply bind_Some in H as (r0 & _ & H). apply bind_Some in H as (m & _ & H).
  set (t := goto_next p (set_mem s m)) in H. assert (wf t) as Hwt by done. assert (view t = view s) as Hvt by done.
  assert (forall r n z, reg_num r = Some n -> r ∈ writes (Atomic op size fetch base o src) ->
    s' = set_reg t n z -> open_step (Atomic op size fetch base o src) (view s) (view s') /\ pc s' = after p s /\ wf s') as Hset.
  { intros r n z Hn Hr ->. split_and!; [|done|by unfold wf, set_reg; cbn [regs]; rewrite length_insert].
    eapply open_vset; [exact Hr|]. rewrite <- Hvt. by apply view_set. }
  destruct fetch.
  - destruct op; try (apply bind_Some in H as (n & Hn & [= <-]); by eapply (Hset src n); [|by left|]).
    injection H as <-. eapply (Hset R0 0); [done|by left|done].
  - injection H as <-. split_and!; [by apply open_same|done..].
Qed.

Lemma exec_covered i : intra i = true ->
  exec_instr p rand s i = Next s' ->
  Ast.step i (view s) (view s') /\ flow p s s' i /\ wf s'.
Proof using Hw.
  intros Hi H. destruct i; try done; try (apply alu_step in H as (? & ? & ?); done); cbn [exec_instr] in H.
  all: try (destruct (_ ≫= _) as [t|] eqn:E in H; [injection H as ->|done]).
  all: try (destruct (exec_load _ _ _ _ _ _ _) as [t|] eqn:E in H; [injection H as ->|done];
    apply load_step in E as (z & E & ? & ?); split; [|done]; eapply open_vset; [by left|exact E]).
  all: try (destruct (exec_store _ _ _ _ _ _) as [t|] eqn:E in H; [injection H as ->|done];
    apply store_step in E as (E & ? & ?); split; [by apply open_same|done]).
  - apply bind_Some in E as (y & _ & E). apply put_next in E as (E & ? & ?). split; [|done].
    eapply open_vset; [by left|exact E].
  - apply bind_Some in E as (y & _ & E). apply bind_Some in E as (v & _ & E). apply put_next in E as (E & ? & ?).
    split; [|done]. eapply open_vset; [by left|exact E].
  - apply bind_Some in E as (d & Hd & E). apply bind_Some in E as (y & Hy & [= <-]).
    split_and!; [by apply open_same| |done]. cbn [flow pc set_pc].
    by rewrite (compare_cut width op _ _ _ _ (get_cut width _ _ _ Hd) (value_cut width _ _ _ Hy)).
  - injection H as <-. split_and!; [by apply open_same|done..].
  - destruct (exec_atomic _ _ _ _ _ _ _ _) as [t|] eqn:E in H; [injection H as ->|done]. by apply atomic_step in E.
  - destruct (exec_call _ _ _ _) as [t|] eqn:E in H; [injection H as ->|done]. unfold exec_call in E.
    destruct kind; [|done]. destruct (_ =? _); [|done]. injection E as <-. split_and!; [|done|by apply wf_clobber].
    split; [intros; apply view_range|]. by apply (view_clobber s _ (Some (u32 (rand (draws s))))).
  - assert (exists idx, exec_packet p s size offset_imm idx = Next s') as [idx E] by (destruct mode; by eexists).
    clear H. unfold exec_packet in E. repeat case_match; try done. injection E as <-.
    split_and!; [|done|by apply wf_clobber]. split; [intros; apply view_range|]. by eapply view_clobber.
Qed.

End Step.

(** * Runs *)

(** The register semantics of a program. *)
Definition ast_step (prog : list Instr) (a b : nat * val) : Prop :=
  exists i, prog !! a.1 = Some i /\ Ast.step i a.2 b.2 /\ Ast.next i a.1 a.2 b.1.

(** What the machine leaves to its environment, for any environment: a helper or a kernel function
    may return any value and change the memory, the address of a map, of a variable of the kernel or
    of a function is any value, and [may_goto] goes either way. *)
Inductive env_step (prog : list bpf_insn) (s : state) : state -> Prop :=
| env_call x r0 m n : 0 <= pc s -> prog !! Z.to_nat (pc s) = Some x ->
    code x = 0x85 -> src_reg x = 0 \/ src_reg x = 2 ->
    env_step prog s (MkState (pc s + 1) (clobber (regs s) r0) m (frames s) n)
| env_address x v : 0 <= pc s -> prog !! Z.to_nat (pc s) = Some x -> code x = 0x18 -> src_reg x <> 0 ->
    env_step prog s (set_pc (set_reg s (dst_reg x) v) (pc s + 2))
| env_may_goto x (taken : bool) : 0 <= pc s -> prog !! Z.to_nat (pc s) = Some x -> code x = 0xe5 ->
    env_step prog s (set_pc s (if taken then pc s + off x + 1 else pc s + 1)).

(** A step of the machine inside a function. *)
Definition machine_step (raw : list Lower.RawBpfInsn) (p : Lower.LProgram) (rand : nat -> Z) (s s' : state) : Prop :=
  (isa_step (to_insn <$> raw) rand s = Next s' \/ env_step (to_insn <$> raw) s s') /\
  forall i, Lower.instrs p !! Z.to_nat (pc s) = Some i -> intra i = true.

Lemma nop_step v : (forall r, in_s 64 (v r)) -> Ast.step LowerProps.nop v v.
Proof.
  intros Hv. cbn. apply functional_extensionality. intros r. unfold vset. case_decide; [|done]. subst r.
  symmetry. apply swrap_small; [lia|apply Hv].
Qed.

(** An instruction that is followed by a second slot. *)
Lemma before_second raw p k i : LowerProps.good raw (length raw) p -> S k ∈ Lower.invalid_pc_set p ->
  k ∉ Lower.invalid_pc_set p -> Lower.instrs p !! k = Some i ->
  Lower.instrs p !! S k = Some LowerProps.nop /\
  ((exists rd o, i = Alu W64 Mov rd o) \/ exists rd kd fd o, i = LoadMap rd kd fd o).
Proof.
  intros (Hl & Hinv & _ & Hs) H1 H0 Hi. apply Hinv in H1 as [Hlt H2].
  destruct (lookup_lt_is_Some_2 raw (S k) Hlt) as [y Hy]. pose proof (Hs _ _ Hlt Hy) as Hy'. rewrite H2 in Hy'.
  split; [by destruct Hy'|]. cbn in H2. destruct (raw !! k) as [x|] eqn:Hx; [|done].
  assert (LowerProps.second raw k = false) as H3.
  { destruct (LowerProps.second raw k) eqn:E; [|done]. exfalso. apply H0, Hinv. split; [lia|done]. }
  specialize (Hs k x ltac:(lia) Hx). rewrite H3 in Hs. destruct Hs as (j & Hj & Hj'). rewrite Hi in Hj'. injection Hj' as <-.
  unfold LowerProps.lower_at in Hj. LowerProps.binds. rewrite H2, Hy in Hj. apply LowerProps.ld_imm64_ok in Hj.
  destruct x1; try done; first [rewrite Hj|destruct Hj as [_ Hj]; rewrite Hj]; eauto 10.
Qed.

(** An instruction that is covered, with the placeholder behind it. *)
Lemma covered_steps raw p s s' i : LowerProps.good raw (length raw) p -> 0 <= pc s ->
  Z.to_nat (pc s) ∉ Lower.invalid_pc_set p -> Lower.instrs p !! Z.to_nat (pc s) = Some i -> intra i = true ->
  Ast.step i (view s) (view s') -> flow p s s' i ->
  rtc (ast_step (Lower.instrs p)) (Z.to_nat (pc s), view s) (Z.to_nat (pc s'), view s').
Proof.
  intros Hg Hpc Hni Hi Hin Hs Hf. set (k := Z.to_nat (pc s)) in *.
  destruct (decide (S k ∈ Lower.invalid_pc_set p)) as [H2|H2].
  - destruct (before_second raw p k i Hg H2 Hni Hi) as [Hn Hc].
    assert (pc s' = pc s + 2 /\ Ast.next i k (view s) (S k)) as [Hp' Hnext].
    { destruct Hc as [(rd & o & ->)|(rd & kd & fd & o & ->)]; cbn [flow] in Hf; unfold after in Hf; fold k in Hf;
        rewrite decide_True in Hf by done; by split. }
    apply rtc_l with (S k, view s'); [by exists i|].
    apply rtc_once. exists LowerProps.nop. cbn [fst snd]. split_and!; [done|apply nop_step, view_range|].
    cbn. rewrite Hp'. lia.
  - apply rtc_once. exists i. cbn [fst snd]. split_and!; [done|done|].
    assert (after p s = pc s + 1) as Ha by (unfold after; fold k; by rewrite decide_False).
    assert (Z.to_nat (pc s + 1) = S k) as Hk1 by (unfold k; lia).
    destruct i; cbn [flow] in Hf; cbn [Ast.next]; try (by rewrite Hf, Ha, Hk1); try done.
    + destruct (compare _ _ _ _); rewrite Hf; [by rewrite Nat2Z.id|by rewrite Ha, Hk1].
    + rewrite Hf. by rewrite Nat2Z.id.
    + destruct Hf as [Hf|Hf]; rewrite Hf; [left; by rewrite Nat2Z.id|right; by rewrite Ha, Hk1].
Qed.

(** The instructions the environment runs are lowered to those left open. *)
Lemma env_covered raw p s s' : LowerProps.good raw (length raw) p -> wf s -> env_step (to_insn <$> raw) s s' ->
  exists i, 0 <= pc s /\ Z.to_nat (pc s) ∉ Lower.invalid_pc_set p /\ Lower.instrs p !! Z.to_nat (pc s) = Some i /\
    (intra i = true -> Ast.step i (view s) (view s') /\ flow p s s' i /\ wf s').
Proof.
  intros (Hl & Hinv & _ & Hs) Hw He. set (k := Z.to_nat (pc s)) in *.
  assert (exists x, 0 <= pc s /\ raw !! k = Some x /\ Lower.code x <> 0) as (x & Hpc & Hx & Hc0).
  { destruct He as [x r0 m n Hpc Hx Hc _|x v Hpc Hx Hc _|x b Hpc Hx Hc]; fold k in Hx; rewrite list_lookup_fmap in Hx;
      destruct (raw !! k) as [y|]; try done; injection Hx as <-; exists y; cbn in Hc; rewrite Hc; done. }
  assert (LowerProps.second raw k = false) as H2.
  { destruct (LowerProps.second raw k) eqn:E; [|done]. specialize (Hs k x (lookup_lt_Some _ _ _ Hx) Hx). rewrite E in Hs.
    by destruct Hs as [[? _] _]. }
  assert (S k ∈ Lower.invalid_pc_set p <-> Lower.code x = 0x18 /\ (S k < length raw)%nat) as Hnext.
  { rewrite Hinv. cbn. rewrite Hx, Z.eqb_eq. tauto. }
  specialize (Hs k x (lookup_lt_Some _ _ _ Hx) Hx). rewrite H2 in Hs. destruct Hs as (i & Hi & Hi'). exists i.
  split_and!; [done|rewrite Hinv; intros [_ ?]; congruence|done|]. intros Hin.
  unfold LowerProps.lower_at in Hi.
  destruct (Lower.reg_to_var x (Lower.dst x) k) as [rd|] eqn:Ed; [|done].
  destruct (Lower.reg_to_var x (Lower.src x) k) as [rs|] eqn:Es; [|done]. cbn [mbind Lower.Result_bind] in Hi.
  apply reg_to_var_num in Ed as [Ed _]. apply reg_to_var_num in Es as [Es _].
  destruct He as [y r0 m n _ Hy Hc Hr|y v _ Hy Hc Hr|y b _ Hy Hc]; fold k in Hy; rewrite list_lookup_fmap, Hx in Hy;
    injection Hy as <-; change (code (to_insn x)) with (Lower.code x) in Hc; rewrite Hc in Hi;
    cbn [Z.eqb Pos.eqb] in Hi; try (unfold Lower.lower_insn in Hi; rewrite Hc in Hi).
  - assert (exists c, i = Call c) as [c ->].
    { cbn in Hi. unfold Lower.lower_call in Hi. destruct (_ || _); [done|].
      repeat case_decide; simplify_eq; eauto; exfalso; cbn in Es, Hr; simplify_eq; lia. }
    split_and!; [|cbn [flow pc]; unfold after; fold k; by rewrite decide_False by (rewrite Hnext, Hc; by intros [])|by apply wf_clobber].
    split; [intros; apply view_range|]. by apply (view_clobber s _ r0).
  - destruct (LowerProps.lower_ld_imm64_cont _ _ _ _ _ _ _ Hi) as (y & Hy & _).
    assert (exists kd fd o, i = LoadMap rd kd fd o) as (kd & fd & o & ->).
    { cbn in Hi. rewrite Hy in Hi. apply LowerProps.ld_imm64_ok in Hi. 
      destruct rs; cbn in Es, Hr; simplify_eq; try done; try (by destruct Hr); naive_solver. }
    split_and!; [|cbn [flow pc set_pc]; unfold after; fold k; rewrite decide_True; [done|]|
                 by unfold wf, set_pc, set_reg; cbn [regs]; rewrite length_insert].
    + eapply open_vset; [by left|]. etrans; [apply view_regs; reflexivity|]. by apply view_set.
    + apply Hnext. split; [done|]. by eapply lookup_lt_Some.
  - cbn in Hi. unfold Lower.lower_may_goto in Hi. destruct (_ || _); [done|].
    destruct (Lower.branch_target _ _ _ _) as [t|] eqn:Et; [|done]. injection Hi as <-.
    apply target_pc_eq in Et; [|done]. split_and!; [by apply open_same| |done].
    cbn [flow pc set_pc]. unfold after. fold k. rewrite decide_False by (rewrite Hnext, Hc; by intros []).
    destruct b; [left; by rewrite Et|by right].
Qed.

Lemma machine_step_covered raw p rand s s' :
  Forall LowerProps.raw_ok raw -> Lower.lower_raw_to_program raw = Lower.Ok p -> forallb kept raw = true ->
  wf s -> machine_step raw p rand s s' ->
  wf s' /\ rtc (ast_step (Lower.instrs p)) (Z.to_nat (pc s), view s) (Z.to_nat (pc s'), view s').
Proof.
  intros Hraw Hp Hk Hw [Hstep Hin]. pose proof (LowerProps.lower_spec raw) as Hg. rewrite Hp in Hg.
  assert (exists i, 0 <= pc s /\ Z.to_nat (pc s) ∉ Lower.invalid_pc_set p /\ Lower.instrs p !! Z.to_nat (pc s) = Some i /\
    (intra i = true -> Ast.step i (view s) (view s') /\ flow p s s' i /\ wf s')) as (i & Hpc & Hni & Hi & Hc).
  { destruct Hstep as [Hstep|Hstep]; [|by eapply env_covered].
    rewrite <- (lower_step raw p rand s Hraw Hp) in Hstep.
    2: { intros x Hx. rewrite forallb_forall in Hk. apply Hk, list_elem_of_In. by eapply list_elem_of_lookup_2. }
    unfold exec in Hstep. destruct (Z.ltb_spec (pc s) 0) as [|Hpc]; [done|]. case_decide as Hni; [done|].
    destruct (Lower.instrs p !! Z.to_nat (pc s)) as [i|] eqn:Hi; [|done]. exists i. split_and!; [done..|].
    intros Hin'. by apply (exec_covered p rand). }
  destruct (Hc (Hin i Hi)) as (Hs & Hf & Hw'). split; [done|]. by eapply covered_steps; eauto.
Qed.

(** C9. Every run of the machine inside a function, on the bytes of a program all of whose instructions
    are [kept], is followed by the register semantics [Ast.step] and [Ast.next] of the lowered program,
    for which the abstract domains and the certificates are proved sound: the registers, read as signed
    values, and the program counter agree after the run, a two-slot instruction being followed by its
    placeholder.  A run goes on until a call of a function of the program, a return or a fault; helpers
    and kernel functions may return any value and change the memory, addresses of maps and functions are
    any values, and [may_goto] goes either way.  Not [kept] are a 64-bit [or] with a negative immediate
    and arithmetic with a nonzero [off] other than sign extension. *)
Theorem machine_covered bytes p rand s s' : let raw := Lower.decode_insns bytes in
  Forall is_byte bytes -> Lower.lower_raw_to_program raw = Lower.Ok p -> forallb kept raw = true ->
  wf s -> rtc (machine_step raw p rand) s s' ->
  wf s' /\ rtc (ast_step (Lower.instrs p)) (Z.to_nat (pc s), view s) (Z.to_nat (pc s'), view s').
Proof.
  intros raw Hb Hp Hk Hw Hr. destruct (LowerProps.decode_bytes bytes Hb) as [Hraw _].
  induction Hr as [s|s t s' Hst _ IH]; [by split; [|reflexivity]|].
  destruct (machine_step_covered raw p rand s t Hraw Hp Hk Hw Hst) as [Hwt H1].
  destruct (IH Hwt) as [Hws H2]. split; [done|]. by etrans.
Qed.

Definition env_bytes : list Z := LowerProps.encode_insns [
  Lower.MkRaw 0x18 1 1 0 5; Lower.MkRaw 0 0 0 0 0;       (* r1 = map 5, in two slots *)
  Lower.MkRaw 0xe5 0 0 1 0;                              (* may_goto +1 *)
  Lower.MkRaw 0xb7 0 0 0 (-7);                           (* r0 = -7 *)
  Lower.MkRaw 0x85 0 0 0 1;                              (* call map_lookup_elem *)
  Lower.MkRaw 0x07 0 0 0 (-9);                           (* r0 += -9 *)
  Lower.MkRaw 0x95 0 0 0 0].
Definition env_raw : list Lower.RawBpfInsn := Lower.decode_insns env_bytes.

Ltac in_function := let i := fresh in let H := fresh in
  intros i H; vm_compute in H; injection H as <-; reflexivity.

Ltac fetched := vm_compute; first [reflexivity|discriminate].

Lemma machine_covered_witness : exists p s', Lower.lower_raw_to_program env_raw = Lower.Ok p /\
  rtc (machine_step env_raw p (fun _ => 0)) (init_state 1 []) s' /\ view s' R0 = -5 /\ pc s' = 6 /\
  rtc (ast_step (Lower.instrs p)) (Z.to_nat (pc (init_state 1 [])), view (init_state 1 [])) (Z.to_nat (pc s'), view s').
Proof.
  eexists. eexists. split; [vm_compute; reflexivity|].
  match goal with |- ?A /\ _ => assert A as H end.
  { eapply rtc_l; [split; [right; eapply (env_address _ _ _ 4096); fetched|in_function]|].
    eapply rtc_l; [split; [right; eapply (env_may_goto _ _ _ false); fetched|in_function]|].
    eapply rtc_l; [split; [left; vm_compute; reflexivity|in_function]|].
    eapply rtc_l; [split; [right; eapply (env_call _ _ _ (Some 4) ∅ 0); [| | |left]; fetched|in_function]|].
    eapply rtc_l; [split; [left; vm_compute; reflexivity|in_function]|]. apply rtc_refl. }
  split; [exact H|]. split; [vm_compute; reflexivity|]. split; [vm_compute; reflexivity|].
  apply (machine_covered env_bytes _ (fun _ => 0)); [|vm_compute; reflexivity|vm_compute; reflexivity|vm_compute; reflexivity|exact H].
  repeat (apply Forall_cons; split; [split; vm_compute; congruence|]). by apply Forall_nil.
Defined.

End LowerRefine.
