(* ===== verification/Loader.v ===== *)
(** The loader that hands an object file and its bundle to the kernel
    ([linux-deltas/test_loader.c]), and the environment it shares with [Ll2Loader].

    libbpf and the operating system are the parameter [env]: every call is answered by a function of
    everything that happened before it, so any behaviour of the environment is some [env].  A
    program is a computation that extends the history of calls and output lines ([M]); a theorem
    about the history holds for every environment.  An output line is an event with the values the
    format string prints.  Tables of names are assumed to be allocated; the log buffer is not. *)

From S2P Require Import Prelude BpfInsn.
From Stdlib Require Import ZArith Lia Ascii String.
From stdpp Require Import base numbers strings list.
Import BpfInsn.
Open Scope Z_scope.

Module Loader.

(** * Calls, output and histories *)

Inductive call : Type :=
| Open (path : string) | Fstat | Mmap (size : Z) | CloseFd | Munmap (size : Z)
| Malloc (size : Z)
| ObjOpen (path : string) | ObjClose
| SetType (prog : nat) (type : Z) | SetAutoload (prog : nat) (on : bool)
| SetLogBuf (prog : nat) | SetLogLevel (prog : nat) (level : Z)
| SetBundle (prog : nat) (size : Z)
| ObjLoad | ProgFd (prog : nat) | Errno.

Inductive line : Type :=
| UsageText | OpenFailed | FstatFailed | MmapFailed | UnknownType (name : string)
| BundleSize (path : string) (size : Z) | NoBundle
| ObjOpenFailed | SetTypeFailed (name : string) | SetBundleFailed (name : string)
| NoPrograms | ProgramCount (n : nat) | LoadFailed (errno : Z)
| Program (name : string) (fd : Z) | Success (loaded n : nat)
| PerProgCount (n : nat) | MallocFailed
| PerProgOpenFail (i : nat) (name : string) (errno : Z)
| PerProgOk (i : nat) (sec name : string)
| PerProgFail (i : nat) (sec name : string) (errno : Z) (kind : string)
| LogText (i : nat) (name text : string) | PerProgSummary (loaded n : nat)
| NeedProg | LoadResult (err : Z) | Log (text : string).

Inductive event : Type :=
| Called (c : call) (answer : Z)
| Stdout (l : line)
| Stderr (l : line).

Abbreviation history := (list event).

(** The environment: the result of a call, the programs of the object that was opened last (name and
    ELF section), the text in the log buffer.  A result of [Fstat] that is not negative is the size of
    the file, [ObjOpen] answers the error code of libbpf or 0. *)
Record env : Type := MkEnv {
  answer : history -> call -> Z;
  programs : history -> list (string * option string);
  log_text : history -> string }.

(** Computations that extend the history. *)
Definition M (A : Type) : Type := env -> history -> A * history.
Definition ret {A} (a : A) : M A := fun _ h => (a, h).
Definition bind {A B} (m : M A) (k : A -> M B) : M B := fun e h => let '(a, h) := m e h in k a e h.
Definition emit (ev : event) : M unit := fun _ h => (tt, h ++ [ev]).
Definition out (l : line) : M unit := emit (Stdout l).
Definition err (l : line) : M unit := emit (Stderr l).
Definition do (c : call) : M Z := fun e h => let r := answer e h c in (r, h ++ [Called c r]).
Definition get_programs : M (list (string * option string)) := fun e h => (programs e h, h).
Definition get_log : M string := fun e h => (log_text e h, h).

Declare Scope loader_scope.
Delimit Scope loader_scope with loader.
Notation "'let!' x := m 'in' k" := (bind m (fun x => k)) (at level 10, x name, m at level 100, k at level 200) : loader_scope.
Notation "m ;; k" := (bind m (fun _ => k)) (at level 100, right associativity) : loader_scope.
Open Scope loader_scope.

Definition MAP_FAILED : Z := -1.
Definition EINVAL : Z := 22.

(** A loop over the programs of an object with their indices. *)
Fixpoint for_each_program {A} (idx : nat) (l : list (string * option string))
    (body : nat -> string * option string -> A -> M A) (a : A) : M A :=
  match l with
  | [] => ret a
  | p :: l => let! a := body idx p a in for_each_program (S idx) l body a
  end.

(** The same loop, left by a body that answers with an error. *)
Fixpoint for_each_until (idx : nat) (l : list (string * option string))
    (body : nat -> string * option string -> M Z) : M Z :=
  match l with
  | [] => ret 0
  | p :: l =>
      let! err := body idx p in
      if negb (err =? 0) then ret err else for_each_until (S idx) l body
  end.

(** * [test_loader.c] *)

(** [map_file]: the size of the mapping, [None] for NULL. *)
Definition map_file (path : string) : M (option Z) :=
  let! fd := do (Open path) in
  if fd <? 0 then err OpenFailed;; ret None
  else
    let! st_size := do Fstat in
    if st_size <? 0 then err FstatFailed;; do CloseFd;; ret None
    else
      let! p := do (Mmap st_size) in
      do CloseFd;;
      if p =? MAP_FAILED then err MmapFailed;; ret None else ret (Some st_size).

Definition type_table : list (string * Z) :=
  [("socket", BPF_PROG_TYPE_SOCKET_FILTER); ("kprobe", BPF_PROG_TYPE_KPROBE);
   ("kretprobe", BPF_PROG_TYPE_KPROBE); ("classifier", BPF_PROG_TYPE_SCHED_CLS);
   ("action", BPF_PROG_TYPE_SCHED_ACT); ("tracepoint", BPF_PROG_TYPE_TRACEPOINT);
   ("raw_tracepoint", BPF_PROG_TYPE_RAW_TRACEPOINT); ("xdp", BPF_PROG_TYPE_XDP);
   ("perf_event", BPF_PROG_TYPE_PERF_EVENT); ("sockops", BPF_PROG_TYPE_SOCK_OPS);
   ("sk_skb", BPF_PROG_TYPE_SK_SKB); ("sk_msg", BPF_PROG_TYPE_SK_MSG);
   ("cgroup_skb", BPF_PROG_TYPE_CGROUP_SKB); ("lwt_in", BPF_PROG_TYPE_LWT_IN);
   ("lwt_out", BPF_PROG_TYPE_LWT_OUT); ("lwt_xmit", BPF_PROG_TYPE_LWT_XMIT);
   ("lwt_seg6local", BPF_PROG_TYPE_LWT_SEG6LOCAL); ("fentry", BPF_PROG_TYPE_TRACING);
   ("fexit", BPF_PROG_TYPE_TRACING)]%string.

Fixpoint lookup_type (table : list (string * Z)) (name : string) : Z :=
  match table with
  | [] => BPF_PROG_TYPE_UNSPEC
  | (n, t) :: table => if String.eqb name n then t else lookup_type table name
  end.

Definition type_by_name (name : string) : Z := lookup_type type_table name.

(** [strstr]. *)
Fixpoint strstr (hay needle : string) : bool :=
  String.prefix needle hay ||
  match hay with EmptyString => false | String _ hay => strstr hay needle end.

Definition vrej_markers : list string :=
  ["!read_ok"; "invalid mem access"; "invalid access to"; "back-edge"; "jump out of range";
   "unreachable insn"; "reserved fields"; "leaks addr"; "Unreleased reference"; "math between";
   "pointer arithmetic prohibited"; "min value is"; "max value is"; "misconfigured"; "unknown func";
   "not allowed in"]%string.

(** The verdict of a failed load. *)
Definition classify (e : Z) (logbuf : string) : string :=
  if e =? EINVAL then
    if existsb (strstr logbuf) vrej_markers then "VREJECT" else "POSTVERIF"
  else "VREJECT".

(** Configuration of one program in round [i]: only program [i] is loaded, with log and bundle. *)
Definition configure (i : nat) (forced_type : Z) (bundle : option Z) (idx : nat) : M unit :=
  (if negb (forced_type =? BPF_PROG_TYPE_UNSPEC) then do (SetType idx forced_type);; ret tt else ret tt);;
  do (SetAutoload idx (idx =? i)%nat);;
  if (idx =? i)%nat then
    do (SetLogBuf idx);;
    do (SetLogLevel idx 2);;
    match bundle with Some size => do (SetBundle idx (u32 size));; ret tt | None => ret tt end
  else ret tt.

(** The descriptor of program [i], -1 when the object has no such program. *)
Definition prog_fd (i : nat) (progs : list (string * option string)) : M Z :=
  if (i <? List.length progs)%nat then do (ProgFd i) else ret (-1).

Definition one_round (prog_path : string) (forced_type : Z) (bundle : option Z)
    (i : nat) (sec name : string) (n_loaded : nat) : M nat :=
  let! oerr := do (ObjOpen prog_path) in
  if negb (oerr =? 0) then out (PerProgOpenFail i name (- oerr));; ret n_loaded
  else
    let! progs := get_programs in
    for_each_program 0 progs (fun idx _ _ => configure i forced_type bundle idx) tt;;
    let! lerr := do ObjLoad in
    let! fd := prog_fd i progs in
    let! n_loaded :=
      if 0 <=? fd then out (PerProgOk i sec name);; ret (S n_loaded)
      else
        let! e := (if negb (lerr =? 0) then ret (- lerr) else do Errno) in
        let! log := get_log in
        out (PerProgFail i sec name e (classify e log));;
        (if negb (String.eqb log "") then err (LogText i name log) else ret tt);;
        ret n_loaded in
    do ObjClose;;
    ret n_loaded.

Definition run_per_prog (prog_path : string) (forced_type : Z) (bundle_path : option string) : M Z :=
  let! bundle := (match bundle_path with Some p => map_file p | None => ret None end) in
  let! oerr := do (ObjOpen prog_path) in
  if negb (oerr =? 0) then err ObjOpenFailed;; ret 1
  else
    let! progs := get_programs in
    let n := List.length progs in
    do ObjClose;;
    if (n =? 0)%nat then err NoPrograms;; ret 1
    else
      out (PerProgCount n);;
      let! logbuf := do (Malloc (Z.shiftl 16 20)) in
      if logbuf =? 0 then err MallocFailed;; out (PerProgSummary 0 n);; ret 0
      else
        let! n_loaded := for_each_program 0 progs (fun i p n_loaded =>
          one_round prog_path forced_type bundle i (default "?"%string (p.2)) (p.1) n_loaded) O in
        out (PerProgSummary n_loaded n);;
        ret 0.

(** Result of parsing the arguments after [argv[0]]. *)
Inductive parsed : Type :=
| Usage (code : Z)
| Run (type_name : option string) (per_prog : bool) (prog_path : string) (bundle_path : option string).

Fixpoint parse_args (type_name : option string) (per_prog : bool) (args : list string) : parsed :=
  match args with
  | [] => Usage 1
  | a :: rest =>
      if String.eqb a "--type" then
        match rest with [] => Usage 1 | t :: rest => parse_args (Some t) per_prog rest end
      else if String.eqb a "--per-prog" then parse_args type_name true rest
      else if String.eqb a "-h" || String.eqb a "--help" then Usage 0
      else Run type_name per_prog a (head rest)
  end.

(** The tail of [main], from the label [out]. *)
Definition finish (bundle : option Z) (e : Z) : M Z :=
  do ObjClose;;
  (match bundle with Some size => do (Munmap size);; ret tt | None => ret tt end);;
  ret (if negb (e =? 0) then 1 else 0).

(** The body of the first loop over the programs. *)
Definition prepare (forced_type : Z) (bundle : option Z) (i : nat) (p : string * option string) : M Z :=
  let! e := (if negb (forced_type =? BPF_PROG_TYPE_UNSPEC)
             then let! e := do (SetType i forced_type) in
                  (if negb (e =? 0) then err (SetTypeFailed (p.1)) else ret tt);; ret e
             else ret 0) in
  if negb (e =? 0) then ret e
  else match bundle with
       | Some size =>
           let! e := do (SetBundle i (u32 size)) in
           (if negb (e =? 0) then err (SetBundleFailed (p.1)) else ret tt);; ret e
       | None => ret 0
       end.

Definition load_object (prog_path : string) (forced_type : Z) (bundle : option Z) : M Z :=
  let! e := do (ObjOpen prog_path) in
  if negb (e =? 0) then err ObjOpenFailed;; ret 1
  else
    let! progs := get_programs in
    let n_progs := List.length progs in
    let! e := for_each_until 0 progs (prepare forced_type bundle) in
    if negb (e =? 0) then finish bundle e
    else if (n_progs =? 0)%nat then err NoPrograms;; finish bundle (-1)
    else
      out (ProgramCount n_progs);;
      let! e := do ObjLoad in
      if negb (e =? 0) then err (LoadFailed (- e));; finish bundle e
      else
        let! n_loaded := for_each_program 0 progs (fun i p n_loaded =>
          let! fd := do (ProgFd i) in
          out (Program (p.1) fd);;
          ret (if 0 <=? fd then S n_loaded else n_loaded)) O in
        out (Success n_loaded n_progs);;
        finish bundle 0.

Definition run_default (prog_path : string) (forced_type : Z) (bundle_path : option string) : M Z :=
  match bundle_path with
  | Some p =>
      let! bundle := map_file p in
      match bundle with
      | None => ret 1
      | Some size => out (BundleSize p size);; load_object prog_path forced_type (Some size)
      end
  | None => out NoBundle;; load_object prog_path forced_type None
  end.

Definition main (args : list string) : M Z :=
  match parse_args None false args with
  | Usage code => err UsageText;; ret code
  | Run type_name per_prog prog_path bundle_path =>
      let forced_type := match type_name with Some t => type_by_name t | None => BPF_PROG_TYPE_UNSPEC end in
      match type_name with
      | Some t =>
          if forced_type =? BPF_PROG_TYPE_UNSPEC then err (UnknownType t);; ret 1
          else if per_prog then run_per_prog prog_path forced_type bundle_path
          else run_default prog_path forced_type bundle_path
      | None =>
          if per_prog then run_per_prog prog_path forced_type bundle_path
          else run_default prog_path forced_type bundle_path
      end
  end.

(** * Reasoning about histories *)

(** Every computation only extends the history. *)
Definition extends {A} (m : M A) (S : A -> history -> Prop) : Prop :=
  forall e h, exists suf, (m e h).2 = h ++ suf /\ S (m e h).1 suf.

Lemma extends_ret {A} (a : A) (S : A -> history -> Prop) : S a [] -> extends (ret a) S.
Proof. intros H e h. exists []. by rewrite app_nil_r. Qed.

Lemma extends_bind {A B} (m : M A) (k : A -> M B) S (T : B -> history -> Prop) :
  extends m S -> (forall a s1, S a s1 -> extends (k a) (fun b s2 => T b (s1 ++ s2))) -> extends (bind m k) T.
Proof.
  intros Hm Hk e h. destruct (Hm e h) as (s1 & E1 & HS). unfold bind. destruct (m e h) as [a h1]. simpl in *. subst h1.
  destruct (Hk a s1 HS e (h ++ s1)) as (s2 & E2 & HT). exists (s1 ++ s2). by rewrite app_assoc.
Qed.

Lemma extends_do c : extends (do c) (fun r s => s = [Called c r]).
Proof. intros e h. by exists [Called c (answer e h c)]. Qed.

Lemma extends_emit ev : extends (emit ev) (fun _ s => s = [ev]).
Proof. intros e h. by exists [ev]. Qed.

Lemma extends_get_programs : extends get_programs (fun _ s => s = []).
Proof. intros e h. exists []. by rewrite app_nil_r. Qed.

Lemma extends_get_log : extends get_log (fun _ s => s = []).
Proof. intros e h. exists []. by rewrite app_nil_r. Qed.

Lemma extends_mono {A} (m : M A) (S T : A -> history -> Prop) :
  extends m S -> (forall a s, S a s -> T a s) -> extends m T.
Proof. intros Hm HST e h. destruct (Hm e h) as (s & E & HS). eauto. Qed.

(** Symbolic execution: one bind at a time. *)
Ltac run1 :=
  first [ eapply extends_bind; [apply extends_do|] | eapply extends_bind; [apply extends_emit|]
        | eapply extends_bind; [apply extends_get_programs|] | eapply extends_bind; [apply extends_get_log|] ];
  intros ? ? ->.

(** No load in the events. *)
Definition quiet (s : history) : Prop := forall r, ~ In (Called ObjLoad r) s.

Lemma quiet_nil : quiet [].
Proof. by intros r []. Qed.
Lemma quiet_app s1 s2 : quiet s1 -> quiet s2 -> quiet (s1 ++ s2).
Proof. intros H1 H2 r Hin. apply in_app_iff in Hin as [?|?]; [by eapply H1|by eapply H2]. Qed.
Lemma quiet_cons ev s : (forall r, ev <> Called ObjLoad r) -> quiet s -> quiet (ev :: s).
Proof. intros H1 H2 r [->|Hin]; [by eapply H1|by eapply H2]. Qed.

Create HintDb loader.
#[local] Hint Resolve quiet_nil quiet_app : loader.
#[local] Hint Extern 2 (quiet (_ :: _)) => apply quiet_cons; [discriminate|] : loader.

Lemma map_file_quiet p : extends (map_file p) (fun _ => quiet).
Proof.
  unfold map_file. run1. destruct (_ <? 0).
  { run1. apply extends_ret. simpl. auto with loader. }
  run1. destruct (_ <? 0).
  { do 2 run1. apply extends_ret. simpl. auto 8 with loader. }
  do 2 run1. destruct (_ =? _); [run1|]; apply extends_ret; simpl; auto 8 with loader.
Qed.

(** * The default mode *)

(** Program [i] got the type and the bundle, without an error. *)
Definition prepared (forced_type : Z) (bundle : option Z) (i : nat) (s : history) : Prop :=
  (forced_type <> BPF_PROG_TYPE_UNSPEC -> In (Called (SetType i forced_type) 0) s) /\
  (forall size, bundle = Some size -> In (Called (SetBundle i (u32 size)) 0) s).

Lemma prepared_app_l ty b i s1 s2 : prepared ty b i s1 -> prepared ty b i (s1 ++ s2).
Proof. intros [H1 H2]. split; intros; apply in_app_iff; left; auto. Qed.
Lemma prepared_app_r ty b i s1 s2 : prepared ty b i s2 -> prepared ty b i (s1 ++ s2).
Proof. intros [H1 H2]. split; intros; apply in_app_iff; right; auto. Qed.

Lemma prepare_spec ty bundle i p :
  extends (prepare ty bundle i p) (fun r s => quiet s /\ (r = 0 -> prepared ty bundle i s)).
Proof.
  unfold prepare. eapply (extends_bind _ _ (fun e s => quiet s /\
    (e = 0 -> ty <> BPF_PROG_TYPE_UNSPEC -> In (Called (SetType i ty) 0) s))).
  { destruct (Z.eqb_spec ty BPF_PROG_TYPE_UNSPEC) as [->|]; simpl.
    - apply extends_ret. split; [auto with loader|done].
    - run1. destruct (Z.eqb_spec a 0) as [->|]; simpl.
      + eapply extends_bind; [by apply (extends_ret tt (fun _ s => s = []))|]. intros ?? ->.
        apply extends_ret. simpl. split; [auto with loader|tauto].
      + run1. apply extends_ret. simpl. split; [auto with loader|done]. }
  intros e s1 [Hq Hs]. destruct (Z.eqb_spec e 0) as [->|Hne]; simpl.
  2:{ apply extends_ret. rewrite app_nil_r. done. }
  destruct bundle as [size|].
  2:{ apply extends_ret. rewrite app_nil_r. split; [done|]. intros _. split; [auto|done]. }
  run1. destruct (Z.eqb_spec a 0) as [->|]; simpl.
  - eapply extends_bind; [by apply (extends_ret tt (fun _ s => s = []))|]. intros ?? ->. apply extends_ret. simpl.
    split; [auto with loader|]. intros _. split; [intros; apply in_app_iff; left; auto|].
    intros ? [= ->]. apply in_app_iff. simpl. auto.
  - run1. apply extends_ret. simpl. split; [auto 6 with loader|done].
Qed.

Lemma prepare_all_spec ty bundle l : forall k,
  extends (for_each_until k l (prepare ty bundle)) (fun r s => quiet s /\
    (r = 0 -> forall i, (k <= i < k + List.length l)%nat -> prepared ty bundle i s)).
Proof.
  induction l as [|p l IH]; intros k; simpl.
  { apply extends_ret. split; [auto with loader|]. intros _ i Hi. lia. }
  eapply extends_bind; [apply prepare_spec|]. intros r s1 [Hq Hp].
  destruct (Z.eqb_spec r 0) as [->|Hne]; simpl.
  - eapply extends_mono; [apply (IH (S k))|]. intros r s2 [Hq2 Hp2]. split; [auto with loader|].
    intros Hr i Hi. destruct (decide (i = k)) as [->|]; [apply prepared_app_l; auto|].
    apply prepared_app_r, Hp2; [done|lia].
  - apply extends_ret. rewrite app_nil_r. done.
Qed.

Lemma finish_spec bundle e :
  extends (finish bundle e) (fun r s => quiet s /\ r = if negb (e =? 0) then 1 else 0).
Proof.
  unfold finish. run1. eapply (extends_bind _ _ (fun _ => quiet)).
  { destruct bundle; [run1|]; apply extends_ret; simpl; auto with loader. }
  intros _ s Hq. apply extends_ret. simpl. rewrite app_nil_r. split; [auto with loader|done].
Qed.

(** What the exit code of a load means. *)
Definition load_result (ty : Z) (bundle : option Z) (code : Z) (s : history) : Prop :=
  (code = 0 <-> In (Called ObjLoad 0) s) /\
  (code = 0 -> exists n, (0 < n)%nat /\ In (Stdout (ProgramCount n)) s /\
     forall i, (i < n)%nat -> prepared ty bundle i s).

Lemma load_result_fail ty bundle code s : code <> 0 -> quiet s -> load_result ty bundle code s.
Proof. intros Hc Hq. split; [|done]. split; [done|]. intros Hin. by apply Hq in Hin. Qed.

Lemma report_quiet l : forall k n_loaded,
  extends (for_each_program k l (fun i p n_loaded =>
    let! fd := do (ProgFd i) in out (Program (p.1) fd);; ret (if 0 <=? fd then S n_loaded else n_loaded)) n_loaded)
    (fun _ => quiet).
Proof.
  induction l as [|p l IH]; intros k a; simpl; [apply extends_ret; auto with loader|].
  eapply (extends_bind _ _ (fun _ => quiet)).
  { do 2 run1. apply extends_ret. simpl. auto with loader. }
  intros a' s1 Hq. eapply extends_mono; [apply IH|]. auto with loader.
Qed.

Lemma load_object_spec path ty bundle : extends (load_object path ty bundle) (load_result ty bundle).
Proof.
  unfold load_object. run1. destruct (Z.eqb_spec a 0) as [->|]; simpl.
  2:{ run1. apply extends_ret. apply load_result_fail; [done|]. simpl. auto with loader. }
  run1. rename a into progs. eapply extends_bind; [apply (prepare_all_spec ty bundle progs 0)|].
  intros e s1 [Hq Hp]. destruct (Z.eqb_spec e 0) as [->|Hne]; simpl.
  2:{ eapply extends_mono; [apply finish_spec|]. intros r s [Hq2 ->].
      destruct (Z.eqb_spec e 0); [done|]. simpl. apply load_result_fail; [done|]. auto with loader. }
  destruct (Nat.eqb_spec (List.length progs) 0) as [H0|H0].
  { run1. eapply extends_mono; [apply finish_spec|]. intros r s [Hq2 ->]. simpl.
    apply load_result_fail; [done|]. auto 8 with loader. }
  run1. run1. destruct (Z.eqb_spec a0 0) as [->|Hne]; simpl.
  2:{ run1. eapply extends_mono; [apply finish_spec|]. intros r s [Hq2 ->].
      destruct (Z.eqb_spec a0 0); [done|]. split; [|done]. split; [done|].
      intros Hin. exfalso. simpl in Hin. rewrite !in_app_iff in Hin. simpl in Hin.
      destruct_or? Hin; try done; first [by eapply Hq|by eapply Hq2|congruence]. }
  eapply extends_bind; [apply report_quiet|]. intros nl s2 Hq2. run1.
  eapply extends_mono; [apply finish_spec|]. intros r s [Hq3 ->]. simpl. split.
  - split; [|done]. intros _. simpl. rewrite !in_app_iff. simpl. tauto.
  - intros _. exists (List.length progs). split; [lia|]. split; [simpl; rewrite !in_app_iff; simpl; tauto|].
    intros i Hi. apply (prepared_app_r ty bundle i [_]), prepared_app_l, Hp; [done|lia].
Qed.

Lemma lookup_type_in table name : lookup_type table name <> BPF_PROG_TYPE_UNSPEC ->
  In (name, lookup_type table name) table.
Proof.
  induction table as [|[n t] table IH]; simpl; [done|]. destruct (String.eqb_spec name n) as [->|]; [by left|].
  intros H. right. auto.
Qed.

Lemma load_result_app ty b code s1 s2 : quiet s1 -> load_result ty b code s2 -> load_result ty b code (s1 ++ s2).
Proof.
  intros Hq [H1 H2]. split.
  - rewrite H1, in_app_iff. split; [auto|]. intros [Hin|]; [|done]. by apply Hq in Hin.
  - intros Hc. destruct (H2 Hc) as (n & ? & ? & Hp). exists n. rewrite in_app_iff. split_and!; auto.
    intros i Hi. apply prepared_app_r. auto.
Qed.

(** Outcome of the default mode: the bundle is mapped before anything is loaded. *)
Definition default_result (ty : Z) (bp : option string) (code : Z) (s : history) : Prop :=
  exists bundle, (bp <> None -> code = 0 -> bundle <> None) /\ load_result ty bundle code s.

Lemma run_default_spec path ty bp : extends (run_default path ty bp) (default_result ty bp).
Proof.
  unfold run_default, default_result. destruct bp as [p|].
  - eapply extends_bind; [apply map_file_quiet|]. intros [size|] s1 Hq.
    + run1. eapply extends_mono; [apply load_object_spec|]. intros code s Hs. exists (Some size). split; [done|].
      rewrite app_assoc. apply load_result_app; auto with loader.
    + apply extends_ret. exists None. split; [done|]. apply load_result_fail; [done|]. auto with loader.
  - run1. eapply extends_mono; [apply load_object_spec|]. intros code s Hs. exists None. split; [done|].
    apply load_result_app; auto with loader.
Qed.

(** C34. Exit code of the loader.  In its default mode it exits with 0 exactly when the kernel loaded the
    object, and then the object had programs, every one of them got the requested type and, when a
    bundle was given, the bundle, each without an error; this for every behaviour of libbpf
    and the system. *)
Theorem loader_exit_code e args ty path bp :
  parse_args None false args = Run ty false path bp ->
  let '(code, h) := main args e [] in
  (code = 0 <-> In (Called ObjLoad 0) h) /\
  (code = 0 -> exists n, (0 < n)%nat /\ In (Stdout (ProgramCount n)) h /\ forall i, (i < n)%nat ->
     (forall t, ty = Some t -> In (Called (SetType i (type_by_name t)) 0) h) /\
     (bp <> None -> exists size, In (Called (SetBundle i (u32 size)) 0) h)).
Proof.
  intros Hp. unfold main. rewrite Hp.
  set (forced := match ty with Some t => type_by_name t | None => BPF_PROG_TYPE_UNSPEC end).
  assert (extends (run_default path forced bp) (default_result forced bp)) as Hx by apply run_default_spec.
  destruct (Hx e []) as (s & E & b & Hb & H1 & H2). simpl in E.
  assert (forall t, ty = Some t -> forced = type_by_name t) as Hft by (intros t ->; done).
  assert (forced <> BPF_PROG_TYPE_UNSPEC \/ ty = None ->
    let '(code, h) := run_default path forced bp e [] in
    (code = 0 <-> In (Called ObjLoad 0) h) /\
    (code = 0 -> exists n, (0 < n)%nat /\ In (Stdout (ProgramCount n)) h /\ forall i, (i < n)%nat ->
       (forall t, ty = Some t -> In (Called (SetType i (type_by_name t)) 0) h) /\
       (bp <> None -> exists size, In (Called (SetBundle i (u32 size)) 0) h))) as Hrun.
  { intros Hk. destruct (run_default path forced bp e []) as [code h]. simpl in *. subst s. split; [done|].
    intros Hc. destruct (H2 Hc) as (n & Hn & Hin & Hpr). exists n. split_and!; [done|done|]. intros i Hi.
    destruct (Hpr i Hi) as [Ht Hbu]. split.
    - intros t Et. rewrite <- (Hft t Et). apply Ht. destruct Hk; congruence.
    - intros Hbp. destruct b as [size|]; [eauto|]. by destruct (Hb Hbp Hc). }
  destruct ty as [t|]; [|by apply Hrun; right].
  destruct (Z.eqb_spec forced BPF_PROG_TYPE_UNSPEC) as [Hz|Hz]; [|by apply Hrun; left].
  simpl. split; [|done]. split; [done|]. by intros [?|[]].
Qed.

(** An environment with one program in which every call succeeds. *)
Definition ok_env : env :=
  MkEnv (fun _ c => match c with Fstat => 100 | ProgFd _ => 7 | Malloc _ | Open _ => 3 | Mmap _ => 4096 | _ => 0 end)
        (fun _ => [("prog"%string, Some "xdp"%string)]) (fun _ => ""%string).

Lemma loader_exit_code_witness :
  let '(code, h) := main ["--type"; "xdp"; "a.o"; "a.bundle"]%string ok_env [] in
  code = 0 <-> In (Called ObjLoad 0) h.
Proof.
  apply (loader_exit_code ok_env ["--type"; "xdp"; "a.o"; "a.bundle"]%string (Some "xdp"%string) "a.o"%string
           (Some "a.bundle"%string)).
  reflexivity.
Defined.

(** * The per-program mode *)

(** The verdict lines of a history: program and whether it was loaded. *)
Definition verdict_of (ev : event) : option (nat * bool) :=
  match ev with
  | Stdout (PerProgOk i _ _) => Some (i, true)
  | Stdout (PerProgFail i _ _ _ _) | Stdout (PerProgOpenFail i _ _) => Some (i, false)
  | _ => None
  end.
Definition verdicts (s : history) : list (nat * bool) := omap verdict_of s.

Definition is_summary (ev : event) : bool := match ev with Stdout (PerProgSummary _ _) => true | _ => false end.
Definition loaded (vs : list (nat * bool)) : nat := List.length (List.filter snd vs).

(** Events that are neither verdicts nor summaries. *)
Definition silent (s : history) : Prop := verdicts s = [] /\ existsb is_summary s = false.

Lemma silent_nil : silent [].
Proof. done. Qed.
Lemma verdicts_cons ev s :
  verdicts (ev :: s) = match verdict_of ev with Some v => v :: verdicts s | None => verdicts s end.
Proof. reflexivity. Qed.
Lemma silent_cons ev s : verdict_of ev = None -> is_summary ev = false -> silent s -> silent (ev :: s).
Proof. intros E1 E2 [H1 H2]. unfold silent. rewrite verdicts_cons, E1. simpl. by rewrite E2. Qed.
Lemma verdicts_app s1 s2 : verdicts (s1 ++ s2) = verdicts s1 ++ verdicts s2.
Proof. apply omap_app. Qed.
Lemma silent_app s1 s2 : silent s1 -> silent s2 -> silent (s1 ++ s2).
Proof.
  intros [H1 H2] [H3 H4]. split; [by rewrite verdicts_app, H1, H3|]. by rewrite existsb_app, H2, H4.
Qed.

#[local] Hint Resolve silent_nil silent_app : loader.
#[local] Hint Extern 2 (silent (_ :: _)) => apply silent_cons; [reflexivity|reflexivity|] : loader.

Lemma map_file_silent p : extends (map_file p) (fun _ => silent).
Proof.
  unfold map_file. run1. destruct (_ <? 0).
  { run1. apply extends_ret. simpl. auto with loader. }
  run1. destruct (_ <? 0).
  { do 2 run1. apply extends_ret. simpl. auto 8 with loader. }
  do 2 run1. destruct (_ =? _); [run1|]; apply extends_ret; simpl; auto 8 with loader.
Qed.

Lemma configure_silent i ty bundle idx : extends (configure i ty bundle idx) (fun _ => silent).
Proof.
  unfold configure. eapply (extends_bind _ _ (fun _ => silent)).
  { destruct (negb _); [run1|]; apply extends_ret; simpl; auto with loader. }
  intros _ s1 H1. run1. destruct (idx =? i)%nat.
  - do 2 run1. destruct bundle; [run1|]; apply extends_ret; simpl; auto 8 with loader.
  - apply extends_ret. simpl. auto with loader.
Qed.

Lemma for_each_silent {A} (body : nat -> string * option string -> A -> M A) :
  (forall i p a, extends (body i p a) (fun _ => silent)) ->
  forall l k a, extends (for_each_program k l body a) (fun _ => silent).
Proof.
  intros Hb. induction l as [|p l IH]; intros k a; simpl; [apply extends_ret; auto with loader|].
  eapply extends_bind; [apply Hb|]. intros a' s1 H1. eapply extends_mono; [apply IH|]. auto with loader.
Qed.

(** A round prints one verdict, and counts it. *)
Definition round_result (i n_loaded n_loaded' : nat) (s : history) : Prop :=
  exists ok : bool, verdicts s = [(i, ok)] /\ existsb is_summary s = false /\
    n_loaded' = if ok then S n_loaded else n_loaded.

Lemma round_result_intro i nl (ok : bool) ev s1 s2 :
  verdict_of ev = Some (i, ok) -> silent s1 -> silent s2 ->
  round_result i nl (if ok then S nl else nl) (s1 ++ ev :: s2).
Proof.
  intros Hv [H1 H2] [H3 H4]. exists ok. rewrite verdicts_app, verdicts_cons, existsb_app, H1, H2, Hv, H3.
  split_and!; [done| |done]. simpl. rewrite H4, orb_false_r. destruct ev; try done. by destruct l.
Qed.

Lemma round_result_app i nl nl' s1 s2 s3 :
  silent s1 -> silent s3 -> round_result i nl nl' s2 -> round_result i nl nl' (s1 ++ s2 ++ s3).
Proof.
  intros [H1 H2] [H3 H4] (ok & Hv & Hs & ->). exists ok. rewrite !verdicts_app, !existsb_app, H1, H2, H3, H4, Hv, Hs.
  done.
Qed.

Lemma one_round_spec path ty bundle i sec name nl :
  extends (one_round path ty bundle i sec name nl) (round_result i nl).
Proof.
  unfold one_round. run1. destruct (negb _).
  { run1. apply extends_ret. simpl. apply (round_result_intro i nl false _ [_]); auto with loader. }
  run1. eapply extends_bind; [apply for_each_silent; intros; apply configure_silent|]. intros u s1 H1. run1.
  eapply (extends_bind _ _ (fun _ => silent)).
  { unfold prog_fd. destruct (_ <? _)%nat; [|apply extends_ret; auto with loader].
    eapply extends_mono; [apply extends_do|]. intros ? s ->. auto with loader. }
  intros fd s2 H2. eapply (extends_bind _ _ (round_result i nl)).
  { destruct (0 <=? fd).
    - run1. apply extends_ret. apply (round_result_intro i nl true _ []); auto with loader.
    - eapply (extends_bind _ _ (fun _ => silent)).
      { destruct (negb _); [apply extends_ret; auto with loader|].
        eapply extends_mono; [apply extends_do|]. intros ? s ->. auto with loader. }
      intros er s3 H3. run1. run1. eapply (extends_bind _ _ (fun _ => silent)).
      { destruct (negb _); [|apply extends_ret; auto with loader].
        eapply extends_mono; [apply extends_emit|]. intros ? s ->. auto with loader. }
      intros u4 s4 H4. apply extends_ret. rewrite app_nil_r. simpl.
      by apply (round_result_intro i nl false). }
  intros nl' s3 Hr. run1. apply extends_ret. rewrite app_nil_r, !app_assoc, <- (app_assoc _ s3).
  apply round_result_app; [|auto with loader|done]. simpl. auto 8 with loader.
Qed.

Lemma rounds_spec path ty bundle l : forall k nl,
  extends (for_each_program k l (fun i p nl => one_round path ty bundle i (default "?"%string (p.2)) (p.1) nl) nl)
    (fun nl' s => (verdicts s).*1 = seq k (List.length l) /\ existsb is_summary s = false /\
                  nl' = (nl + loaded (verdicts s))%nat).
Proof.
  induction l as [|p l IH]; intros k nl; simpl.
  { apply extends_ret. split_and!; [done|done|]. unfold loaded. simpl. lia. }
  eapply extends_bind; [apply one_round_spec|]. intros nl1 s1 (ok & Hv & Hs & ->).
  eapply extends_mono; [apply IH|]. intros nl' s (Hv2 & Hs2 & ->).
  rewrite verdicts_app, existsb_app, Hv, Hs, Hs2, fmap_app, Hv2. split_and!; [done|done|].
  unfold loaded. simpl. destruct ok; simpl; lia.
Qed.

(** A run that prints a summary, or one that does not get so far. *)
Definition per_prog_result (code : Z) (h : history) : Prop :=
  (exists l n s, code = 0 /\ h = s ++ [Stdout (PerProgSummary l n)] /\ existsb is_summary s = false /\ (0 < n)%nat /\
     l = loaded (verdicts s) /\ (In (Stderr MallocFailed) s \/ (verdicts s).*1 = seq 0 n)) \/
  code = 1 /\ existsb is_summary h = false.

Lemma run_per_prog_spec path ty bp : extends (run_per_prog path ty bp) per_prog_result.
Proof.
  unfold run_per_prog. eapply (extends_bind _ _ (fun _ => silent)).
  { destruct bp; [apply map_file_silent|apply extends_ret; auto with loader]. }
  intros bundle s1 H1. run1. destruct (negb _).
  { run1. apply extends_ret. right. split; [done|]. apply silent_app; auto with loader. }
  run1. run1. rename a0 into progs. destruct (Nat.eqb_spec (List.length progs) 0) as [E|Hn].
  { run1. apply extends_ret. right. split; [done|]. apply silent_app; simpl; auto with loader. }
  run1. run1. destruct (_ =? 0).
  - do 2 run1. apply extends_ret. left. rewrite app_nil_r, !app_assoc. eexists _, _, _. split; [done|].
    split; [reflexivity|]. rewrite <- !app_assoc. simpl. match goal with |- existsb _ ?s = false /\ _ => assert (silent s) as [Hv Hs] end.
    { auto 8 with loader. }
    rewrite Hv. split_and!; [done|lia|done|]. left. rewrite in_app_iff. simpl. tauto.
  - eapply extends_bind; [apply rounds_spec|]. intros nl s2 (Hv & Hs & ->). run1. apply extends_ret. left.
    rewrite app_nil_r, !app_assoc. eexists _, _, _. split; [done|]. split; [reflexivity|].
    rewrite verdicts_app, existsb_app, Hs. match goal with |- existsb _ ?s || _ = _ /\ _ => assert (silent s) as [Hv1 Hs1] end.
    { rewrite <- !app_assoc. simpl. auto 8 with loader. }
    rewrite Hv1, Hs1. split_and!; [done|lia|done|]. by right.
Qed.

(** The per-program mode gives every program one verdict.  It exits with 0 exactly when it
    prints a summary; unless the log buffer could not be allocated, the verdict lines are then for the
    programs 0 to n - 1, one each and in this order, and the summary counts those that were
    loaded; this for every behaviour of libbpf and the system. *)
Theorem per_prog_verdicts e path ty bp :
  let '(code, h) := run_per_prog path ty bp e [] in
  (code = 0 \/ code = 1) /\ (code = 0 <-> exists l n, In (Stdout (PerProgSummary l n)) h) /\
  (forall l n, In (Stdout (PerProgSummary l n)) h ->
     (0 < n)%nat /\ l = loaded (verdicts h) /\
     (In (Stderr MallocFailed) h \/ (verdicts h).*1 = seq 0 n)).
Proof.
  destruct (run_per_prog_spec path ty bp e []) as (h' & E & Hr). destruct (run_per_prog path ty bp e []) as [code h].
  simpl in *. subst h'. destruct Hr as [(l & n & s & -> & -> & Hs & Hn & -> & Hv)|[-> Hs]].
  - assert (verdicts (s ++ [Stdout (PerProgSummary (loaded (verdicts s)) n)]) = verdicts s) as E.
    { rewrite verdicts_app. apply app_nil_r. }
    split_and!; [by left|split; [|done]; intros _; exists (loaded (verdicts s)), n; rewrite in_app_iff; simpl; tauto|].
    intros l' n' Hin. rewrite in_app_iff in Hin. simpl in Hin. rewrite E, in_app_iff.
    destruct Hin as [Hin|[[= <- <-]|[]]]; [|tauto]. exfalso. apply not_true_iff_false in Hs. apply Hs.
    apply existsb_exists. by eexists.
  - assert (forall l n, ~ In (Stdout (PerProgSummary l n)) h) as Hno.
    { intros l n Hin. apply not_true_iff_false in Hs. apply Hs, existsb_exists. by eexists. }
    split_and!; [by right|split; [done|]|]; [intros (l & n & Hin)|intros l n Hin]; by apply Hno in Hin.
Qed.

(** * Classification of failures *)

Lemma strstr_spec hay needle : strstr hay needle = true <-> exists a b, hay = (a +:+ needle +:+ b)%string.
Proof.
  assert (forall n h, String.prefix n h = true <-> exists b, h = (n +:+ b)%string) as Hpre.
  { induction n as [|c n IH]; intros h; simpl; [split; [by exists h|by destruct h]|].
    destruct h as [|d h]; simpl; [split; [done|by intros [b [=]]]|]. destruct (ascii_dec c d) as [->|Hne].
    - rewrite IH. split; intros [b E]; exists b; [by rewrite E|by injection E].
    - split; [done|]. intros [b [= E]]. congruence. }
  induction hay as [|c hay IH]; cbn [strstr]; rewrite orb_true_iff, Hpre.
  - split; [intros [[b E]|]; [by exists ""%string, b|done]|]. intros (a & b & E). left. destruct a; [by exists b|done].
  - rewrite IH. split.
    + intros [[b E]|(a & b & ->)]; [by exists ""%string, b|]. by exists (String c a), b.
    + intros ([|d a] & b & E); [left; by exists b|]. right. injection E as _ E. eauto.
Qed.

(** Which failures count as rejections.  A failed load is put down to a stage after the verifier
    exactly when the error is EINVAL and the log contains none of the sixteen phrases; every other
    failure is a rejection by the verifier. *)
Theorem classify_spec e log :
  classify e log = "POSTVERIF"%string <->
  e = EINVAL /\ forall m a b, In m vrej_markers -> log <> (a +:+ m +:+ b)%string.
Proof.
  unfold classify. destruct (Z.eqb_spec e EINVAL) as [->|]; [|naive_solver].
  destruct (existsb (strstr log) vrej_markers) eqn:E.
  - split; [done|]. intros [_ H]. apply existsb_exists in E as (m & Hm & Hs). apply strstr_spec in Hs as (a & b & ->).
    by destruct (H m a b Hm).
  - split; [|done]. intros _. split; [done|]. intros m a b Hm ->. apply not_true_iff_false in E. apply E, existsb_exists.
    exists m. split; [done|]. apply strstr_spec. eauto.
Qed.

End Loader.
