(* ===== verification/Ll2Loader.v ===== *)
(** The small loader ([linux-deltas/ll2_loader.c]), over the environment of [Loader]. *)

From S2P Require Import Prelude BpfInsn Loader.
From Stdlib Require Import ZArith Lia Ascii String.
From stdpp Require Import base numbers strings list.
Import BpfInsn Loader.
Open Scope Z_scope.
Open Scope loader_scope.

Module Ll2Loader.

Definition LOG_SIZE : Z := Z.shiftl 64 20.

Fixpoint parse_args (type_name only_prog : option string) (args : list string)
    : option (option string * option string * string * option string) :=
  match args with
  | a :: rest =>
      if String.eqb a "--type" then
        match rest with t :: rest => parse_args (Some t) only_prog rest | [] => None end
      else if String.eqb a "--prog" then
        match rest with t :: rest => parse_args type_name (Some t) rest | [] => None end
      else Some (type_name, only_prog, a, head rest)
  | [] => None
  end.

Definition map_file (path : string) : M (option Z) :=
  let! fd := do (Open path) in
  if fd <? 0 then err OpenFailed;; ret None
  else
    let! st_size := do Fstat in
    if st_size <? 0 then err FstatFailed;; do CloseFd;; ret None
    else
      let! p := do (Mmap st_size) in
      do CloseFd;;
      if p =? MAP_FAILED then err MmapFailed;; ret None else ret (Some st_size).

Definition ptype (type_name : option string) : Z :=
  match type_name with
  | Some t => if String.eqb t "classifier" then BPF_PROG_TYPE_SCHED_CLS else BPF_PROG_TYPE_UNSPEC
  | None => BPF_PROG_TYPE_UNSPEC
  end.

Definition prepare (ptype : Z) (bundle : option Z) (i : nat) : M unit :=
  (if negb (ptype =? BPF_PROG_TYPE_UNSPEC) then do (SetType i ptype);; ret tt else ret tt);;
  (match bundle with Some size => do (SetBundle i (u32 size));; ret tt | None => ret tt end);;
  do (SetLogBuf i);;
  do (SetLogLevel i 2);;
  ret tt.

Definition configure (only_prog : option string) (ptype : Z) (bundle : option Z)
    (i : nat) (p : string * option string) : M unit :=
  match only_prog with
  | Some only =>
      let keep := String.eqb (p.1) only in
      do (SetAutoload i keep);;
      if keep then prepare ptype bundle i else ret tt
  | None => prepare ptype bundle i
  end.

(** The body of [main] after the arguments; [None] for the write through the log buffer when it
    could not be allocated. *)
Definition load (only_prog : option string) (ptype : Z) (prog_path : string) (bundle : option Z) : M (option Z) :=
  let! oerr := do (ObjOpen prog_path) in
  if negb (oerr =? 0) then err ObjOpenFailed;; ret (Some 1)
  else
    let! logbuf := do (Malloc LOG_SIZE) in
    if logbuf =? 0 then ret None
    else
      let! progs := get_programs in
      for_each_program 0 progs (fun i p _ => configure only_prog ptype bundle i p) tt;;
      let! e := do ObjLoad in
      let! log := get_log in
      out (Log log);;
      out (LoadResult e);;
      do ObjClose;;
      (match bundle with Some size => do (Munmap size);; ret tt | None => ret tt end);;
      ret (Some (if negb (e =? 0) then 1 else 0)).

Definition main (args : list string) : M (option Z) :=
  match parse_args None None args with
  | None => err NeedProg;; ret (Some 1)
  | Some (type_name, only_prog, prog_path, bundle_path) =>
      match bundle_path with
      | Some p =>
          let! bundle := map_file p in
          match bundle with
          | None => ret (Some 1)
          | Some size => out (BundleSize p size);; load only_prog (ptype type_name) prog_path (Some size)
          end
      | None => load only_prog (ptype type_name) prog_path None
      end
  end.

(** * Results *)

(** Neither a load nor an allocation in the events. *)
Definition calm (s : history) : Prop := forall c r, In (Called c r) s -> c <> ObjLoad /\ c <> Malloc LOG_SIZE.

Lemma calm_nil : calm [].
Proof. by intros c r []. Qed.
Lemma calm_app s1 s2 : calm s1 -> calm s2 -> calm (s1 ++ s2).
Proof. intros H1 H2 c r [Hin|Hin]%in_app_iff; [by eapply H1|by eapply H2]. Qed.
Lemma calm_cons ev s :
  (forall c r, ev = Called c r -> c <> ObjLoad /\ c <> Malloc LOG_SIZE) -> calm s -> calm (ev :: s).
Proof. intros H1 H2 c r [Hin|Hin]; [by eapply H1|by eapply H2]. Qed.

#[local] Hint Resolve calm_nil calm_app : loader.
#[local] Hint Extern 2 (calm (_ :: _)) => apply calm_cons; [intros ?? [=]; subst; done|] : loader.

Lemma map_file_calm p : extends (map_file p) (fun _ => calm).
Proof.
  unfold map_file. run1. destruct (_ <? 0).
  { run1. apply extends_ret. simpl. auto with loader. }
  run1. destruct (_ <? 0).
  { do 2 run1. apply extends_ret. simpl. auto 8 with loader. }
  do 2 run1. destruct (_ =? _); [run1|]; apply extends_ret; simpl; auto 8 with loader.
Qed.

Lemma prepare_calm ty bundle i : extends (prepare ty bundle i) (fun _ => calm).
Proof.
  unfold prepare. eapply (extends_bind _ _ (fun _ => calm)).
  { case_match; [run1|]; apply extends_ret; simpl; auto with loader. }
  intros ? s1 H1. eapply (extends_bind _ _ (fun _ => calm)).
  { destruct bundle; [run1|]; apply extends_ret; simpl; auto with loader. }
  intros ? s2 H2. do 2 run1. apply extends_ret. simpl. auto 8 with loader.
Qed.

Lemma configure_calm only ty bundle l : forall k u,
  extends (for_each_program k l (fun i p _ => configure only ty bundle i p) u) (fun _ => calm).
Proof.
  induction l as [|p l IH]; intros k u; simpl; [apply extends_ret; auto with loader|].
  eapply (extends_bind _ _ (fun _ => calm)).
  { unfold configure. destruct only as [name|]; [|apply prepare_calm]. run1. destruct (String.eqb _ _).
    - eapply extends_mono; [apply prepare_calm|]. simpl. auto with loader.
    - apply extends_ret. simpl. auto with loader. }
  intros u' s1 H1. eapply extends_mono; [apply IH|]. auto with loader.
Qed.

(** The result against the two calls it depends on. *)
Definition result_ok (r : option Z) (s : history) : Prop :=
  (r = Some 0 <-> In (Called ObjLoad 0) s) /\ (r = None <-> In (Called (Malloc LOG_SIZE) 0) s) /\
  In r [None; Some 0; Some 1].

Lemma result_calm s : calm s -> result_ok (Some 1) s.
Proof. intros H. split; [|split]; [split; [done|intros Hin; by destruct (H _ _ Hin)]|split; [done|intros Hin; by destruct (H _ _ Hin)]|simpl; tauto]. Qed.

Lemma result_app s1 s2 r : calm s1 -> result_ok r s2 -> result_ok r (s1 ++ s2).
Proof.
  intros H (R1 & R2 & R3). split; [rewrite R1|split; [rewrite R2|done]]; rewrite in_app_iff; (split; [tauto|]);
    intros [Hin|]; try done; by destruct (H _ _ Hin).
Qed.

Lemma load_result only ty path bundle : extends (load only ty path bundle) result_ok.
Proof.
  unfold load. run1. destruct (Z.eqb_spec a 0) as [->|]; simpl.
  2:{ run1. apply extends_ret. apply result_calm. simpl. auto with loader. }
  run1. rename a into logbuf. destruct (Z.eqb_spec logbuf 0) as [->|Hl].
  { apply extends_ret. split; [|split]; [simpl; split; [done|intros; by destruct_or!]|simpl; tauto..]. }
  run1. eapply extends_bind; [apply configure_calm|]. intros ? s1 H1. run1. run1. do 3 run1.
  eapply (extends_bind _ _ (fun _ => calm)).
  { destruct bundle; [run1|]; apply extends_ret; simpl; auto with loader. }
  intros ? s2 H2. apply extends_ret. rewrite app_nil_r. simpl.
  apply (result_app [_]); [auto with loader|]. split; [|split]; [split; [|intros Hin]|split; [|intros Hin]|].
  - destruct (Z.eqb_spec a1 0) as [->|]; [|done]. intros _. right. apply in_app_iff. right. by left.
  - destruct Hin as [[=]|[Hin|[[= ->]|Hin]]%in_app_iff]; [by destruct (H1 _ _ Hin)|done|].
    destruct Hin as [[=]|[[=]|[[=]|Hin]]]. by destruct (H2 _ _ Hin).
  - by destruct (Z.eqb_spec a1 0).
  - destruct Hin as [[= ->]|[Hin|[[=]|Hin]]%in_app_iff]; [done|by destruct (H1 _ _ Hin)|].
    destruct Hin as [[=]|[[=]|[[=]|Hin]]]. by destruct (H2 _ _ Hin).
  - destruct (a1 =? 0); simpl; tauto.
Qed.

(** Result of the small loader.  For every environment it exits with 0 exactly when the kernel
    loaded the object, and it writes through a null pointer exactly when the log buffer could not
    be allocated; in all other cases it exits with 1. *)
Theorem ll2_result e args :
  let '(r, h) := main args e [] in
  (r = Some 0 <-> In (Called ObjLoad 0) h) /\
  (r = None <-> In (Called (Malloc LOG_SIZE) 0) h) /\
  In r [None; Some 0; Some 1].
Proof.
  assert (extends (main args) result_ok) as H.
  { unfold main. destruct (parse_args None None args) as [[[[ty only] path] bp]|].
    2:{ run1. apply extends_ret. apply result_calm. simpl. auto with loader. }
    destruct bp as [p|]; [|apply load_result]. eapply extends_bind; [apply map_file_calm|]. intros [size|] s1 H1.
    - run1. eapply extends_mono; [apply load_result|]. intros r s Hr. apply result_app; [done|].
      apply (result_app [_]); [auto with loader|done].
    - apply extends_ret. apply result_app; [done|]. apply result_calm. auto with loader. }
  destruct (H e []) as (s & E & R). destruct (main args e []) as [r h]. simpl in *. by subst.
Qed.

(** [ll2_loader] does not mirror the types of [test_loader].  Of the nineteen type names the loader
    knows, it acts only on [classifier]; for all others it loads the object without a type. *)
Theorem ll2_ignores_types name :
  In name (type_table.*1) -> name <> "classifier"%string ->
  type_by_name name <> BPF_PROG_TYPE_UNSPEC /\ ptype (Some name) = BPF_PROG_TYPE_UNSPEC.
Proof.
  intros Hin Hne. split.
  - simpl in Hin. repeat (destruct Hin as [<-|Hin]; [by vm_compute|]). done.
  - unfold ptype. by destruct (String.eqb_spec name "classifier").
Qed.

Lemma ll2_ignores_types_witness :
  type_by_name "xdp" <> BPF_PROG_TYPE_UNSPEC /\ ptype (Some "xdp"%string) = BPF_PROG_TYPE_UNSPEC.
Proof. apply ll2_ignores_types; [vm_compute; tauto|discriminate]. Defined.

End Ll2Loader.
