(* ===== verification/LegacyAlu.v ===== *)
(** Verifier tests of the repository, arithmetic: division, 32-bit subregisters, masking, wide immediates.

    Each definition is one element of a file of [selftests/legacy/verifier],
    written with the macros of [BpfInsn] and the designators of [ConvertTests];
    a list per file gives them in the order of the file. *)

From S2P Require Import Prelude BpfInsn ConvertTests.
From Stdlib Require Import ZArith String.
From stdpp Require Import base strings list.
Import BpfInsn ConvertTests.
Open Scope Z_scope.

Module LegacyAlu.

(** * [div0.c] *)

Definition div0_1 : bpf_test := TEST "DIV32 by 0, zero check 1" [
  _insns
   [BPF_MOV32_IMM BPF_REG_0 42; BPF_MOV32_IMM BPF_REG_1 0; BPF_MOV32_IMM BPF_REG_2 1;
    BPF_ALU32_REG BPF_DIV BPF_REG_2 BPF_REG_1; BPF_EXIT_INSN];
  _result ACCEPT;
  _retval 42].

Definition div0_2 : bpf_test := TEST "DIV32 by 0, zero check 2" [
  _insns
   [BPF_MOV32_IMM BPF_REG_0 42; BPF_LD_IMM64 BPF_REG_1 0xffffffff00000000;
    BPF_MOV32_IMM BPF_REG_2 1; BPF_ALU32_REG BPF_DIV BPF_REG_2 BPF_REG_1; BPF_EXIT_INSN];
  _result ACCEPT;
  _retval 42].

Definition div0_3 : bpf_test := TEST "DIV64 by 0, zero check" [
  _insns
   [BPF_MOV32_IMM BPF_REG_0 42; BPF_MOV32_IMM BPF_REG_1 0; BPF_MOV32_IMM BPF_REG_2 1;
    BPF_ALU64_REG BPF_DIV BPF_REG_2 BPF_REG_1; BPF_EXIT_INSN];
  _result ACCEPT;
  _retval 42].

Definition div0_4 : bpf_test := TEST "MOD32 by 0, zero check 1" [
  _insns
   [BPF_MOV32_IMM BPF_REG_0 42; BPF_MOV32_IMM BPF_REG_1 0; BPF_MOV32_IMM BPF_REG_2 1;
    BPF_ALU32_REG BPF_MOD BPF_REG_2 BPF_REG_1; BPF_EXIT_INSN];
  _result ACCEPT;
  _retval 42].

Definition div0_5 : bpf_test := TEST "MOD32 by 0, zero check 2" [
  _insns
   [BPF_MOV32_IMM BPF_REG_0 42; BPF_LD_IMM64 BPF_REG_1 0xffffffff00000000;
    BPF_MOV32_IMM BPF_REG_2 1; BPF_ALU32_REG BPF_MOD BPF_REG_2 BPF_REG_1; BPF_EXIT_INSN];
  _result ACCEPT;
  _retval 42].

Definition div0_6 : bpf_test := TEST "MOD64 by 0, zero check" [
  _insns
   [BPF_MOV32_IMM BPF_REG_0 42; BPF_MOV32_IMM BPF_REG_1 0; BPF_MOV32_IMM BPF_REG_2 1;
    BPF_ALU64_REG BPF_MOD BPF_REG_2 BPF_REG_1; BPF_EXIT_INSN];
  _result ACCEPT;
  _retval 42].

Definition div0_7 : bpf_test := TEST "DIV32 by 0, zero check ok, cls" [
  _insns
   [BPF_MOV32_IMM BPF_REG_0 42; BPF_MOV32_IMM BPF_REG_1 2; BPF_MOV32_IMM BPF_REG_2 16;
    BPF_ALU32_REG BPF_DIV BPF_REG_2 BPF_REG_1; BPF_MOV64_REG BPF_REG_0 BPF_REG_2; BPF_EXIT_INSN];
  _prog_type BPF_PROG_TYPE_SCHED_CLS;
  _result ACCEPT;
  _retval 8].

Definition div0_8 : bpf_test := TEST "DIV32 by 0, zero check 1, cls" [
  _insns
   [BPF_MOV32_IMM BPF_REG_1 0; BPF_MOV32_IMM BPF_REG_0 1;
    BPF_ALU32_REG BPF_DIV BPF_REG_0 BPF_REG_1; BPF_EXIT_INSN];
  _prog_type BPF_PROG_TYPE_SCHED_CLS;
  _result ACCEPT;
  _retval 0].

Definition div0_9 : bpf_test := TEST "DIV32 by 0, zero check 2, cls" [
  _insns
   [BPF_LD_IMM64 BPF_REG_1 0xffffffff00000000; BPF_MOV32_IMM BPF_REG_0 1;
    BPF_ALU32_REG BPF_DIV BPF_REG_0 BPF_REG_1; BPF_EXIT_INSN];
  _prog_type BPF_PROG_TYPE_SCHED_CLS;
  _result ACCEPT;
  _retval 0].

Definition div0_10 : bpf_test := TEST "DIV64 by 0, zero check, cls" [
  _insns
   [BPF_MOV32_IMM BPF_REG_1 0; BPF_MOV32_IMM BPF_REG_0 1;
    BPF_ALU64_REG BPF_DIV BPF_REG_0 BPF_REG_1; BPF_EXIT_INSN];
  _prog_type BPF_PROG_TYPE_SCHED_CLS;
  _result ACCEPT;
  _retval 0].

Definition div0_11 : bpf_test := TEST "MOD32 by 0, zero check ok, cls" [
  _insns
   [BPF_MOV32_IMM BPF_REG_0 42; BPF_MOV32_IMM BPF_REG_1 3; BPF_MOV32_IMM BPF_REG_2 5;
    BPF_ALU32_REG BPF_MOD BPF_REG_2 BPF_REG_1; BPF_MOV64_REG BPF_REG_0 BPF_REG_2; BPF_EXIT_INSN];
  _prog_type BPF_PROG_TYPE_SCHED_CLS;
  _result ACCEPT;
  _retval 2].

Definition div0_12 : bpf_test := TEST "MOD32 by 0, zero check 1, cls" [
  _insns
   [BPF_MOV32_IMM BPF_REG_1 0; BPF_MOV32_IMM BPF_REG_0 1;
    BPF_ALU32_REG BPF_MOD BPF_REG_0 BPF_REG_1; BPF_EXIT_INSN];
  _prog_type BPF_PROG_TYPE_SCHED_CLS;
  _result ACCEPT;
  _retval 1].

Definition div0_13 : bpf_test := TEST "MOD32 by 0, zero check 2, cls" [
  _insns
   [BPF_LD_IMM64 BPF_REG_1 0xffffffff00000000; BPF_MOV32_IMM BPF_REG_0 1;
    BPF_ALU32_REG BPF_MOD BPF_REG_0 BPF_REG_1; BPF_EXIT_INSN];
  _prog_type BPF_PROG_TYPE_SCHED_CLS;
  _result ACCEPT;
  _retval 1].

Definition div0_14 : bpf_test := TEST "MOD64 by 0, zero check 1, cls" [
  _insns
   [BPF_MOV32_IMM BPF_REG_1 0; BPF_MOV32_IMM BPF_REG_0 2;
    BPF_ALU64_REG BPF_MOD BPF_REG_0 BPF_REG_1; BPF_EXIT_INSN];
  _prog_type BPF_PROG_TYPE_SCHED_CLS;
  _result ACCEPT;
  _retval 2].

Definition div0_15 : bpf_test := TEST "MOD64 by 0, zero check 2, cls" [
  _insns
   [BPF_MOV32_IMM BPF_REG_1 0; BPF_MOV32_IMM BPF_REG_0 (-1);
    BPF_ALU64_REG BPF_MOD BPF_REG_0 BPF_REG_1; BPF_EXIT_INSN];
  _prog_type BPF_PROG_TYPE_SCHED_CLS;
  _result ACCEPT;
  _retval (-1)].

Definition div0_tests : list bpf_test := [div0_1; div0_2; div0_3; div0_4; div0_5; div0_6; div0_7;
  div0_8; div0_9; div0_10; div0_11; div0_12; div0_13; div0_14; div0_15].

(** * [div_overflow.c] *)

Definition div_overflow_1 : bpf_test := TEST "DIV32 overflow, check 1" [
  _insns
   [BPF_MOV32_IMM BPF_REG_1 (-1); BPF_MOV32_IMM BPF_REG_0 (-2147483648);
    BPF_ALU32_REG BPF_DIV BPF_REG_0 BPF_REG_1; BPF_EXIT_INSN];
  _prog_type BPF_PROG_TYPE_SCHED_CLS;
  _result ACCEPT;
  _retval 0].

Definition div_overflow_2 : bpf_test := TEST "DIV32 overflow, check 2" [
  _insns
   [BPF_MOV32_IMM BPF_REG_0 (-2147483648); BPF_ALU32_IMM BPF_DIV BPF_REG_0 (-1); BPF_EXIT_INSN];
  _prog_type BPF_PROG_TYPE_SCHED_CLS;
  _result ACCEPT;
  _retval 0].

Definition div_overflow_3 : bpf_test := TEST "DIV64 overflow, check 1" [
  _insns
   [BPF_MOV64_IMM BPF_REG_1 (-1); BPF_LD_IMM64 BPF_REG_2 (-9223372036854775808);
    BPF_ALU64_REG BPF_DIV BPF_REG_2 BPF_REG_1; BPF_MOV32_IMM BPF_REG_0 0;
    BPF_JMP_REG BPF_JEQ BPF_REG_0 BPF_REG_2 1; BPF_MOV32_IMM BPF_REG_0 1; BPF_EXIT_INSN];
  _prog_type BPF_PROG_TYPE_SCHED_CLS;
  _result ACCEPT;
  _retval 0].

Definition div_overflow_4 : bpf_test := TEST "DIV64 overflow, check 2" [
  _insns
   [BPF_LD_IMM64 BPF_REG_1 (-9223372036854775808); BPF_ALU64_IMM BPF_DIV BPF_REG_1 (-1);
    BPF_MOV32_IMM BPF_REG_0 0; BPF_JMP_REG BPF_JEQ BPF_REG_0 BPF_REG_1 1;
    BPF_MOV32_IMM BPF_REG_0 1; BPF_EXIT_INSN];
  _prog_type BPF_PROG_TYPE_SCHED_CLS;
  _result ACCEPT;
  _retval 0].

Definition div_overflow_5 : bpf_test := TEST "MOD32 overflow, check 1" [
  _insns
   [BPF_MOV32_IMM BPF_REG_1 (-1); BPF_MOV32_IMM BPF_REG_0 (-2147483648);
    BPF_ALU32_REG BPF_MOD BPF_REG_0 BPF_REG_1; BPF_EXIT_INSN];
  _prog_type BPF_PROG_TYPE_SCHED_CLS;
  _result ACCEPT;
  _retval (-2147483648)].

Definition div_overflow_6 : bpf_test := TEST "MOD32 overflow, check 2" [
  _insns
   [BPF_MOV32_IMM BPF_REG_0 (-2147483648); BPF_ALU32_IMM BPF_MOD BPF_REG_0 (-1); BPF_EXIT_INSN];
  _prog_type BPF_PROG_TYPE_SCHED_CLS;
  _result ACCEPT;
  _retval (-2147483648)].

Definition div_overflow_7 : bpf_test := TEST "MOD64 overflow, check 1" [
  _insns
   [BPF_MOV64_IMM BPF_REG_1 (-1); BPF_LD_IMM64 BPF_REG_2 (-9223372036854775808);
    BPF_MOV64_REG BPF_REG_3 BPF_REG_2; BPF_ALU64_REG BPF_MOD BPF_REG_2 BPF_REG_1;
    BPF_MOV32_IMM BPF_REG_0 0; BPF_JMP_REG BPF_JNE BPF_REG_3 BPF_REG_2 1;
    BPF_MOV32_IMM BPF_REG_0 1; BPF_EXIT_INSN];
  _prog_type BPF_PROG_TYPE_SCHED_CLS;
  _result ACCEPT;
  _retval 1].

Definition div_overflow_8 : bpf_test := TEST "MOD64 overflow, check 2" [
  _insns
   [BPF_LD_IMM64 BPF_REG_2 (-9223372036854775808); BPF_MOV64_REG BPF_REG_3 BPF_REG_2;
    BPF_ALU64_IMM BPF_MOD BPF_REG_2 (-1); BPF_MOV32_IMM BPF_REG_0 0;
    BPF_JMP_REG BPF_JNE BPF_REG_3 BPF_REG_2 1; BPF_MOV32_IMM BPF_REG_0 1; BPF_EXIT_INSN];
  _prog_type BPF_PROG_TYPE_SCHED_CLS;
  _result ACCEPT;
  _retval 1].

Definition div_overflow_tests : list bpf_test := [div_overflow_1; div_overflow_2; div_overflow_3;
  div_overflow_4; div_overflow_5; div_overflow_6; div_overflow_7; div_overflow_8].

(** * [masking.c] *)

Definition masking_1 : bpf_test := TEST "masking, test out of bounds 1" [
  _insns
   [BPF_MOV32_IMM BPF_REG_1 5; BPF_MOV32_IMM BPF_REG_2 (5 - 1);
    BPF_ALU64_REG BPF_SUB BPF_REG_2 BPF_REG_1; BPF_ALU64_REG BPF_OR BPF_REG_2 BPF_REG_1;
    BPF_ALU64_IMM BPF_NEG BPF_REG_2 0; BPF_ALU64_IMM BPF_ARSH BPF_REG_2 63;
    BPF_ALU64_REG BPF_AND BPF_REG_1 BPF_REG_2; BPF_MOV64_REG BPF_REG_0 BPF_REG_1; BPF_EXIT_INSN];
  _result ACCEPT;
  _retval 0].

Definition masking_2 : bpf_test := TEST "masking, test out of bounds 2" [
  _insns
   [BPF_MOV32_IMM BPF_REG_1 1; BPF_MOV32_IMM BPF_REG_2 (1 - 1);
    BPF_ALU64_REG BPF_SUB BPF_REG_2 BPF_REG_1; BPF_ALU64_REG BPF_OR BPF_REG_2 BPF_REG_1;
    BPF_ALU64_IMM BPF_NEG BPF_REG_2 0; BPF_ALU64_IMM BPF_ARSH BPF_REG_2 63;
    BPF_ALU64_REG BPF_AND BPF_REG_1 BPF_REG_2; BPF_MOV64_REG BPF_REG_0 BPF_REG_1; BPF_EXIT_INSN];
  _result ACCEPT;
  _retval 0].

Definition masking_3 : bpf_test := TEST "masking, test out of bounds 3" [
  _insns
   [BPF_MOV32_IMM BPF_REG_1 0xffffffff; BPF_MOV32_IMM BPF_REG_2 (0xffffffff - 1);
    BPF_ALU64_REG BPF_SUB BPF_REG_2 BPF_REG_1; BPF_ALU64_REG BPF_OR BPF_REG_2 BPF_REG_1;
    BPF_ALU64_IMM BPF_NEG BPF_REG_2 0; BPF_ALU64_IMM BPF_ARSH BPF_REG_2 63;
    BPF_ALU64_REG BPF_AND BPF_REG_1 BPF_REG_2; BPF_MOV64_REG BPF_REG_0 BPF_REG_1; BPF_EXIT_INSN];
  _result ACCEPT;
  _retval 0].

Definition masking_4 : bpf_test := TEST "masking, test out of bounds 4" [
  _insns
   [BPF_MOV32_IMM BPF_REG_1 0xffffffff; BPF_MOV32_IMM BPF_REG_2 (1 - 1);
    BPF_ALU64_REG BPF_SUB BPF_REG_2 BPF_REG_1; BPF_ALU64_REG BPF_OR BPF_REG_2 BPF_REG_1;
    BPF_ALU64_IMM BPF_NEG BPF_REG_2 0; BPF_ALU64_IMM BPF_ARSH BPF_REG_2 63;
    BPF_ALU64_REG BPF_AND BPF_REG_1 BPF_REG_2; BPF_MOV64_REG BPF_REG_0 BPF_REG_1; BPF_EXIT_INSN];
  _result ACCEPT;
  _retval 0].

Definition masking_5 : bpf_test := TEST "masking, test out of bounds 5" [
  _insns
   [BPF_MOV32_IMM BPF_REG_1 (-1); BPF_MOV32_IMM BPF_REG_2 (1 - 1);
    BPF_ALU64_REG BPF_SUB BPF_REG_2 BPF_REG_1; BPF_ALU64_REG BPF_OR BPF_REG_2 BPF_REG_1;
    BPF_ALU64_IMM BPF_NEG BPF_REG_2 0; BPF_ALU64_IMM BPF_ARSH BPF_REG_2 63;
    BPF_ALU64_REG BPF_AND BPF_REG_1 BPF_REG_2; BPF_MOV64_REG BPF_REG_0 BPF_REG_1; BPF_EXIT_INSN];
  _result ACCEPT;
  _retval 0].

Definition masking_6 : bpf_test := TEST "masking, test out of bounds 6" [
  _insns
   [BPF_MOV32_IMM BPF_REG_1 (-1); BPF_MOV32_IMM BPF_REG_2 (0xffffffff - 1);
    BPF_ALU64_REG BPF_SUB BPF_REG_2 BPF_REG_1; BPF_ALU64_REG BPF_OR BPF_REG_2 BPF_REG_1;
    BPF_ALU64_IMM BPF_NEG BPF_REG_2 0; BPF_ALU64_IMM BPF_ARSH BPF_REG_2 63;
    BPF_ALU64_REG BPF_AND BPF_REG_1 BPF_REG_2; BPF_MOV64_REG BPF_REG_0 BPF_REG_1; BPF_EXIT_INSN];
  _result ACCEPT;
  _retval 0].

Definition masking_7 : bpf_test := TEST "masking, test out of bounds 7" [
  _insns
   [BPF_MOV64_IMM BPF_REG_1 5; BPF_MOV32_IMM BPF_REG_2 (5 - 1);
    BPF_ALU64_REG BPF_SUB BPF_REG_2 BPF_REG_1; BPF_ALU64_REG BPF_OR BPF_REG_2 BPF_REG_1;
    BPF_ALU64_IMM BPF_NEG BPF_REG_2 0; BPF_ALU64_IMM BPF_ARSH BPF_REG_2 63;
    BPF_ALU64_REG BPF_AND BPF_REG_1 BPF_REG_2; BPF_MOV64_REG BPF_REG_0 BPF_REG_1; BPF_EXIT_INSN];
  _result ACCEPT;
  _retval 0].

Definition masking_8 : bpf_test := TEST "masking, test out of bounds 8" [
  _insns
   [BPF_MOV64_IMM BPF_REG_1 1; BPF_MOV32_IMM BPF_REG_2 (1 - 1);
    BPF_ALU64_REG BPF_SUB BPF_REG_2 BPF_REG_1; BPF_ALU64_REG BPF_OR BPF_REG_2 BPF_REG_1;
    BPF_ALU64_IMM BPF_NEG BPF_REG_2 0; BPF_ALU64_IMM BPF_ARSH BPF_REG_2 63;
    BPF_ALU64_REG BPF_AND BPF_REG_1 BPF_REG_2; BPF_MOV64_REG BPF_REG_0 BPF_REG_1; BPF_EXIT_INSN];
  _result ACCEPT;
  _retval 0].

Definition masking_9 : bpf_test := TEST "masking, test out of bounds 9" [
  _insns
   [BPF_MOV64_IMM BPF_REG_1 0xffffffff; BPF_MOV32_IMM BPF_REG_2 (0xffffffff - 1);
    BPF_ALU64_REG BPF_SUB BPF_REG_2 BPF_REG_1; BPF_ALU64_REG BPF_OR BPF_REG_2 BPF_REG_1;
    BPF_ALU64_IMM BPF_NEG BPF_REG_2 0; BPF_ALU64_IMM BPF_ARSH BPF_REG_2 63;
    BPF_ALU64_REG BPF_AND BPF_REG_1 BPF_REG_2; BPF_MOV64_REG BPF_REG_0 BPF_REG_1; BPF_EXIT_INSN];
  _result ACCEPT;
  _retval 0].

Definition masking_10 : bpf_test := TEST "masking, test out of bounds 10" [
  _insns
   [BPF_MOV64_IMM BPF_REG_1 0xffffffff; BPF_MOV32_IMM BPF_REG_2 (1 - 1);
    BPF_ALU64_REG BPF_SUB BPF_REG_2 BPF_REG_1; BPF_ALU64_REG BPF_OR BPF_REG_2 BPF_REG_1;
    BPF_ALU64_IMM BPF_NEG BPF_REG_2 0; BPF_ALU64_IMM BPF_ARSH BPF_REG_2 63;
    BPF_ALU64_REG BPF_AND BPF_REG_1 BPF_REG_2; BPF_MOV64_REG BPF_REG_0 BPF_REG_1; BPF_EXIT_INSN];
  _result ACCEPT;
  _retval 0].

Definition masking_11 : bpf_test := TEST "masking, test out of bounds 11" [
  _insns
   [BPF_MOV64_IMM BPF_REG_1 (-1); BPF_MOV32_IMM BPF_REG_2 (1 - 1);
    BPF_ALU64_REG BPF_SUB BPF_REG_2 BPF_REG_1; BPF_ALU64_REG BPF_OR BPF_REG_2 BPF_REG_1;
    BPF_ALU64_IMM BPF_NEG BPF_REG_2 0; BPF_ALU64_IMM BPF_ARSH BPF_REG_2 63;
    BPF_ALU64_REG BPF_AND BPF_REG_1 BPF_REG_2; BPF_MOV64_REG BPF_REG_0 BPF_REG_1; BPF_EXIT_INSN];
  _result ACCEPT;
  _retval 0].

Definition masking_12 : bpf_test := TEST "masking, test out of bounds 12" [
  _insns
   [BPF_MOV64_IMM BPF_REG_1 (-1); BPF_MOV32_IMM BPF_REG_2 (0xffffffff - 1);
    BPF_ALU64_REG BPF_SUB BPF_REG_2 BPF_REG_1; BPF_ALU64_REG BPF_OR BPF_REG_2 BPF_REG_1;
    BPF_ALU64_IMM BPF_NEG BPF_REG_2 0; BPF_ALU64_IMM BPF_ARSH BPF_REG_2 63;
    BPF_ALU64_REG BPF_AND BPF_REG_1 BPF_REG_2; BPF_MOV64_REG BPF_REG_0 BPF_REG_1; BPF_EXIT_INSN];
  _result ACCEPT;
  _retval 0].

Definition masking_13 : bpf_test := TEST "masking, test in bounds 1" [
  _insns
   [BPF_MOV32_IMM BPF_REG_1 4; BPF_MOV32_IMM BPF_REG_2 (5 - 1);
    BPF_ALU64_REG BPF_SUB BPF_REG_2 BPF_REG_1; BPF_ALU64_REG BPF_OR BPF_REG_2 BPF_REG_1;
    BPF_ALU64_IMM BPF_NEG BPF_REG_2 0; BPF_ALU64_IMM BPF_ARSH BPF_REG_2 63;
    BPF_ALU64_REG BPF_AND BPF_REG_1 BPF_REG_2; BPF_MOV64_REG BPF_REG_0 BPF_REG_1; BPF_EXIT_INSN];
  _result ACCEPT;
  _retval 4].

Definition masking_14 : bpf_test := TEST "masking, test in bounds 2" [
  _insns
   [BPF_MOV32_IMM BPF_REG_1 0; BPF_MOV32_IMM BPF_REG_2 (0xffffffff - 1);
    BPF_ALU64_REG BPF_SUB BPF_REG_2 BPF_REG_1; BPF_ALU64_REG BPF_OR BPF_REG_2 BPF_REG_1;
    BPF_ALU64_IMM BPF_NEG BPF_REG_2 0; BPF_ALU64_IMM BPF_ARSH BPF_REG_2 63;
    BPF_ALU64_REG BPF_AND BPF_REG_1 BPF_REG_2; BPF_MOV64_REG BPF_REG_0 BPF_REG_1; BPF_EXIT_INSN];
  _result ACCEPT;
  _retval 0].

Definition masking_15 : bpf_test := TEST "masking, test in bounds 3" [
  _insns
   [BPF_MOV32_IMM BPF_REG_1 0xfffffffe; BPF_MOV32_IMM BPF_REG_2 (0xffffffff - 1);
    BPF_ALU64_REG BPF_SUB BPF_REG_2 BPF_REG_1; BPF_ALU64_REG BPF_OR BPF_REG_2 BPF_REG_1;
    BPF_ALU64_IMM BPF_NEG BPF_REG_2 0; BPF_ALU64_IMM BPF_ARSH BPF_REG_2 63;
    BPF_ALU64_REG BPF_AND BPF_REG_1 BPF_REG_2; BPF_MOV64_REG BPF_REG_0 BPF_REG_1; BPF_EXIT_INSN];
  _result ACCEPT;
  _retval 0xfffffffe].

Definition masking_16 : bpf_test := TEST "masking, test in bounds 4" [
  _insns
   [BPF_MOV32_IMM BPF_REG_1 0xabcde; BPF_MOV32_IMM BPF_REG_2 (0xabcdef - 1);
    BPF_ALU64_REG BPF_SUB BPF_REG_2 BPF_REG_1; BPF_ALU64_REG BPF_OR BPF_REG_2 BPF_REG_1;
    BPF_ALU64_IMM BPF_NEG BPF_REG_2 0; BPF_ALU64_IMM BPF_ARSH BPF_REG_2 63;
    BPF_ALU64_REG BPF_AND BPF_REG_1 BPF_REG_2; BPF_MOV64_REG BPF_REG_0 BPF_REG_1; BPF_EXIT_INSN];
  _result ACCEPT;
  _retval 0xabcde].

Definition masking_17 : bpf_test := TEST "masking, test in bounds 5" [
  _insns
   [BPF_MOV32_IMM BPF_REG_1 0; BPF_MOV32_IMM BPF_REG_2 (1 - 1);
    BPF_ALU64_REG BPF_SUB BPF_REG_2 BPF_REG_1; BPF_ALU64_REG BPF_OR BPF_REG_2 BPF_REG_1;
    BPF_ALU64_IMM BPF_NEG BPF_REG_2 0; BPF_ALU64_IMM BPF_ARSH BPF_REG_2 63;
    BPF_ALU64_REG BPF_AND BPF_REG_1 BPF_REG_2; BPF_MOV64_REG BPF_REG_0 BPF_REG_1; BPF_EXIT_INSN];
  _result ACCEPT;
  _retval 0].

Definition masking_18 : bpf_test := TEST "masking, test in bounds 6" [
  _insns
   [BPF_MOV32_IMM BPF_REG_1 46; BPF_MOV32_IMM BPF_REG_2 (47 - 1);
    BPF_ALU64_REG BPF_SUB BPF_REG_2 BPF_REG_1; BPF_ALU64_REG BPF_OR BPF_REG_2 BPF_REG_1;
    BPF_ALU64_IMM BPF_NEG BPF_REG_2 0; BPF_ALU64_IMM BPF_ARSH BPF_REG_2 63;
    BPF_ALU64_REG BPF_AND BPF_REG_1 BPF_REG_2; BPF_MOV64_REG BPF_REG_0 BPF_REG_1; BPF_EXIT_INSN];
  _result ACCEPT;
  _retval 46].

Definition masking_19 : bpf_test := TEST "masking, test in bounds 7" [
  _insns
   [BPF_MOV64_IMM BPF_REG_3 (-46); BPF_ALU64_IMM BPF_MUL BPF_REG_3 (-1);
    BPF_MOV32_IMM BPF_REG_2 (47 - 1); BPF_ALU64_REG BPF_SUB BPF_REG_2 BPF_REG_3;
    BPF_ALU64_REG BPF_OR BPF_REG_2 BPF_REG_3; BPF_ALU64_IMM BPF_NEG BPF_REG_2 0;
    BPF_ALU64_IMM BPF_ARSH BPF_REG_2 63; BPF_ALU64_REG BPF_AND BPF_REG_3 BPF_REG_2;
    BPF_MOV64_REG BPF_REG_0 BPF_REG_3; BPF_EXIT_INSN];
  _result ACCEPT;
  _retval 46].

Definition masking_20 : bpf_test := TEST "masking, test in bounds 8" [
  _insns
   [BPF_MOV64_IMM BPF_REG_3 (-47); BPF_ALU64_IMM BPF_MUL BPF_REG_3 (-1);
    BPF_MOV32_IMM BPF_REG_2 (47 - 1); BPF_ALU64_REG BPF_SUB BPF_REG_2 BPF_REG_3;
    BPF_ALU64_REG BPF_OR BPF_REG_2 BPF_REG_3; BPF_ALU64_IMM BPF_NEG BPF_REG_2 0;
    BPF_ALU64_IMM BPF_ARSH BPF_REG_2 63; BPF_ALU64_REG BPF_AND BPF_REG_3 BPF_REG_2;
    BPF_MOV64_REG BPF_REG_0 BPF_REG_3; BPF_EXIT_INSN];
  _result ACCEPT;
  _retval 0].

Definition masking_tests : list bpf_test := [masking_1; masking_2; masking_3; masking_4; masking_5;
  masking_6; masking_7; masking_8; masking_9; masking_10; masking_11; masking_12; masking_13;
  masking_14; masking_15; masking_16; masking_17; masking_18; masking_19; masking_20].

(** * [subreg.c] *)

Definition subreg_1 : bpf_test := TEST "add32 reg zero extend check" [
  _insns
   [BPF_RAW_INSN (BPF_JMP .| BPF_CALL) 0 0 0 BPF_FUNC_get_prandom_u32;
    BPF_MOV64_REG BPF_REG_1 BPF_REG_0; BPF_LD_IMM64 BPF_REG_0 0x100000000;
    BPF_ALU32_REG BPF_ADD BPF_REG_0 BPF_REG_1; BPF_ALU64_IMM BPF_RSH BPF_REG_0 32;
    BPF_EXIT_INSN];
  _result ACCEPT;
  _retval 0].

Definition subreg_2 : bpf_test := TEST "add32 imm zero extend check" [
  _insns
   [BPF_RAW_INSN (BPF_JMP .| BPF_CALL) 0 0 0 BPF_FUNC_get_prandom_u32;
    BPF_LD_IMM64 BPF_REG_1 0x1000000000; BPF_ALU64_REG BPF_OR BPF_REG_0 BPF_REG_1;
    BPF_ALU32_IMM BPF_ADD BPF_REG_0 0; BPF_ALU64_IMM BPF_RSH BPF_REG_0 32;
    BPF_MOV64_REG BPF_REG_6 BPF_REG_0;
    BPF_RAW_INSN (BPF_JMP .| BPF_CALL) 0 0 0 BPF_FUNC_get_prandom_u32;
    BPF_LD_IMM64 BPF_REG_1 0x1000000000; BPF_ALU64_REG BPF_OR BPF_REG_0 BPF_REG_1;
    BPF_ALU32_IMM BPF_ADD BPF_REG_0 (-2); BPF_ALU64_IMM BPF_RSH BPF_REG_0 32;
    BPF_ALU64_REG BPF_OR BPF_REG_0 BPF_REG_6; BPF_EXIT_INSN];
  _result ACCEPT;
  _retval 0].

Definition subreg_3 : bpf_test := TEST "sub32 reg zero extend check" [
  _insns
   [BPF_RAW_INSN (BPF_JMP .| BPF_CALL) 0 0 0 BPF_FUNC_get_prandom_u32;
    BPF_MOV64_REG BPF_REG_1 BPF_REG_0; BPF_LD_IMM64 BPF_REG_0 0x1ffffffff;
    BPF_ALU32_REG BPF_SUB BPF_REG_0 BPF_REG_1; BPF_ALU64_IMM BPF_RSH BPF_REG_0 32;
    BPF_EXIT_INSN];
  _result ACCEPT;
  _retval 0].

Definition subreg_4 : bpf_test := TEST "sub32 imm zero extend check" [
  _insns
   [BPF_RAW_INSN (BPF_JMP .| BPF_CALL) 0 0 0 BPF_FUNC_get_prandom_u32;
    BPF_LD_IMM64 BPF_REG_1 0x1000000000; BPF_ALU64_REG BPF_OR BPF_REG_0 BPF_REG_1;
    BPF_ALU32_IMM BPF_SUB BPF_REG_0 0; BPF_ALU64_IMM BPF_RSH BPF_REG_0 32;
    BPF_MOV64_REG BPF_REG_6 BPF_REG_0;
    BPF_RAW_INSN (BPF_JMP .| BPF_CALL) 0 0 0 BPF_FUNC_get_prandom_u32;
    BPF_LD_IMM64 BPF_REG_1 0x1000000000; BPF_ALU64_REG BPF_OR BPF_REG_0 BPF_REG_1;
    BPF_ALU32_IMM BPF_SUB BPF_REG_0 1; BPF_ALU64_IMM BPF_RSH BPF_REG_0 32;
    BPF_ALU64_REG BPF_OR BPF_REG_0 BPF_REG_6; BPF_EXIT_INSN];
  _result ACCEPT;
  _retval 0].

Definition subreg_5 : bpf_test := TEST "mul32 reg zero extend check" [
  _insns
   [BPF_RAW_INSN (BPF_JMP .| BPF_CALL) 0 0 0 BPF_FUNC_get_prandom_u32;
    BPF_MOV64_REG BPF_REG_1 BPF_REG_0; BPF_LD_IMM64 BPF_REG_0 0x100000001;
    BPF_ALU32_REG BPF_MUL BPF_REG_0 BPF_REG_1; BPF_ALU64_IMM BPF_RSH BPF_REG_0 32;
    BPF_EXIT_INSN];
  _result ACCEPT;
  _retval 0].

Definition subreg_6 : bpf_test := TEST "mul32 imm zero extend check" [
  _insns
   [BPF_RAW_INSN (BPF_JMP .| BPF_CALL) 0 0 0 BPF_FUNC_get_prandom_u32;
    BPF_LD_IMM64 BPF_REG_1 0x1000000000; BPF_ALU64_REG BPF_OR BPF_REG_0 BPF_REG_1;
    BPF_ALU32_IMM BPF_MUL BPF_REG_0 1; BPF_ALU64_IMM BPF_RSH BPF_REG_0 32;
    BPF_MOV64_REG BPF_REG_6 BPF_REG_0;
    BPF_RAW_INSN (BPF_JMP .| BPF_CALL) 0 0 0 BPF_FUNC_get_prandom_u32;
    BPF_LD_IMM64 BPF_REG_1 0x1000000000; BPF_ALU64_REG BPF_OR BPF_REG_0 BPF_REG_1;
    BPF_ALU32_IMM BPF_MUL BPF_REG_0 (-1); BPF_ALU64_IMM BPF_RSH BPF_REG_0 32;
    BPF_ALU64_REG BPF_OR BPF_REG_0 BPF_REG_6; BPF_EXIT_INSN];
  _result ACCEPT;
  _retval 0].

Definition subreg_7 : bpf_test := TEST "div32 reg zero extend check" [
  _insns
   [BPF_RAW_INSN (BPF_JMP .| BPF_CALL) 0 0 0 BPF_FUNC_get_prandom_u32;
    BPF_MOV64_REG BPF_REG_1 BPF_REG_0; BPF_MOV64_IMM BPF_REG_0 (-1);
    BPF_ALU32_REG BPF_DIV BPF_REG_0 BPF_REG_1; BPF_ALU64_IMM BPF_RSH BPF_REG_0 32;
    BPF_EXIT_INSN];
  _result ACCEPT;
  _retval 0].

Definition subreg_8 : bpf_test := TEST "div32 imm zero extend check" [
  _insns
   [BPF_RAW_INSN (BPF_JMP .| BPF_CALL) 0 0 0 BPF_FUNC_get_prandom_u32;
    BPF_LD_IMM64 BPF_REG_1 0x1000000000; BPF_ALU64_REG BPF_OR BPF_REG_0 BPF_REG_1;
    BPF_ALU32_IMM BPF_DIV BPF_REG_0 1; BPF_ALU64_IMM BPF_RSH BPF_REG_0 32;
    BPF_MOV64_REG BPF_REG_6 BPF_REG_0;
    BPF_RAW_INSN (BPF_JMP .| BPF_CALL) 0 0 0 BPF_FUNC_get_prandom_u32;
    BPF_LD_IMM64 BPF_REG_1 0x1000000000; BPF_ALU64_REG BPF_OR BPF_REG_0 BPF_REG_1;
    BPF_ALU32_IMM BPF_DIV BPF_REG_0 2; BPF_ALU64_IMM BPF_RSH BPF_REG_0 32;
    BPF_ALU64_REG BPF_OR BPF_REG_0 BPF_REG_6; BPF_EXIT_INSN];
  _result ACCEPT;
  _retval 0].

Definition subreg_9 : bpf_test := TEST "or32 reg zero extend check" [
  _insns
   [BPF_RAW_INSN (BPF_JMP .| BPF_CALL) 0 0 0 BPF_FUNC_get_prandom_u32;
    BPF_MOV64_REG BPF_REG_1 BPF_REG_0; BPF_LD_IMM64 BPF_REG_0 0x100000001;
    BPF_ALU32_REG BPF_OR BPF_REG_0 BPF_REG_1; BPF_ALU64_IMM BPF_RSH BPF_REG_0 32; BPF_EXIT_INSN];
  _result ACCEPT;
  _retval 0].

Definition subreg_10 : bpf_test := TEST "or32 imm zero extend check" [
  _insns
   [BPF_RAW_INSN (BPF_JMP .| BPF_CALL) 0 0 0 BPF_FUNC_get_prandom_u32;
    BPF_LD_IMM64 BPF_REG_1 0x1000000000; BPF_ALU64_REG BPF_OR BPF_REG_0 BPF_REG_1;
    BPF_ALU32_IMM BPF_OR BPF_REG_0 0; BPF_ALU64_IMM BPF_RSH BPF_REG_0 32;
    BPF_MOV64_REG BPF_REG_6 BPF_REG_0;
    BPF_RAW_INSN (BPF_JMP .| BPF_CALL) 0 0 0 BPF_FUNC_get_prandom_u32;
    BPF_LD_IMM64 BPF_REG_1 0x1000000000; BPF_ALU64_REG BPF_OR BPF_REG_0 BPF_REG_1;
    BPF_ALU32_IMM BPF_OR BPF_REG_0 1; BPF_ALU64_IMM BPF_RSH BPF_REG_0 32;
    BPF_ALU64_REG BPF_OR BPF_REG_0 BPF_REG_6; BPF_EXIT_INSN];
  _result ACCEPT;
  _retval 0].

Definition subreg_11 : bpf_test := TEST "and32 reg zero extend check" [
  _insns
   [BPF_RAW_INSN (BPF_JMP .| BPF_CALL) 0 0 0 BPF_FUNC_get_prandom_u32;
    BPF_LD_IMM64 BPF_REG_1 0x100000000; BPF_ALU64_REG BPF_OR BPF_REG_1 BPF_REG_0;
    BPF_LD_IMM64 BPF_REG_0 0x1ffffffff; BPF_ALU32_REG BPF_AND BPF_REG_0 BPF_REG_1;
    BPF_ALU64_IMM BPF_RSH BPF_REG_0 32; BPF_EXIT_INSN];
  _result ACCEPT;
  _retval 0].

Definition subreg_12 : bpf_test := TEST "and32 imm zero extend check" [
  _insns
   [BPF_RAW_INSN (BPF_JMP .| BPF_CALL) 0 0 0 BPF_FUNC_get_prandom_u32;
    BPF_LD_IMM64 BPF_REG_1 0x1000000000; BPF_ALU64_REG BPF_OR BPF_REG_0 BPF_REG_1;
    BPF_ALU32_IMM BPF_AND BPF_REG_0 (-1); BPF_ALU64_IMM BPF_RSH BPF_REG_0 32;
    BPF_MOV64_REG BPF_REG_6 BPF_REG_0;
    BPF_RAW_INSN (BPF_JMP .| BPF_CALL) 0 0 0 BPF_FUNC_get_prandom_u32;
    BPF_LD_IMM64 BPF_REG_1 0x1000000000; BPF_ALU64_REG BPF_OR BPF_REG_0 BPF_REG_1;
    BPF_ALU32_IMM BPF_AND BPF_REG_0 (-2); BPF_ALU64_IMM BPF_RSH BPF_REG_0 32;
    BPF_ALU64_REG BPF_OR BPF_REG_0 BPF_REG_6; BPF_EXIT_INSN];
  _result ACCEPT;
  _retval 0].

Definition subreg_13 : bpf_test := TEST "lsh32 reg zero extend check" [
  _insns
   [BPF_RAW_INSN (BPF_JMP .| BPF_CALL) 0 0 0 BPF_FUNC_get_prandom_u32;
    BPF_LD_IMM64 BPF_REG_1 0x100000000; BPF_ALU64_REG BPF_OR BPF_REG_0 BPF_REG_1;
    BPF_MOV64_IMM BPF_REG_1 1; BPF_ALU32_REG BPF_LSH BPF_REG_0 BPF_REG_1;
    BPF_ALU64_IMM BPF_RSH BPF_REG_0 32; BPF_EXIT_INSN];
  _result ACCEPT;
  _retval 0].

Definition subreg_14 : bpf_test := TEST "lsh32 imm zero extend check" [
  _insns
   [BPF_RAW_INSN (BPF_JMP .| BPF_CALL) 0 0 0 BPF_FUNC_get_prandom_u32;
    BPF_LD_IMM64 BPF_REG_1 0x1000000000; BPF_ALU64_REG BPF_OR BPF_REG_0 BPF_REG_1;
    BPF_ALU32_IMM BPF_LSH BPF_REG_0 0; BPF_ALU64_IMM BPF_RSH BPF_REG_0 32;
    BPF_MOV64_REG BPF_REG_6 BPF_REG_0;
    BPF_RAW_INSN (BPF_JMP .| BPF_CALL) 0 0 0 BPF_FUNC_get_prandom_u32;
    BPF_LD_IMM64 BPF_REG_1 0x1000000000; BPF_ALU64_REG BPF_OR BPF_REG_0 BPF_REG_1;
    BPF_ALU32_IMM BPF_LSH BPF_REG_0 1; BPF_ALU64_IMM BPF_RSH BPF_REG_0 32;
    BPF_ALU64_REG BPF_OR BPF_REG_0 BPF_REG_6; BPF_EXIT_INSN];
  _result ACCEPT;
  _retval 0].

Definition subreg_15 : bpf_test := TEST "rsh32 reg zero extend check" [
  _insns
   [BPF_RAW_INSN (BPF_JMP .| BPF_CALL) 0 0 0 BPF_FUNC_get_prandom_u32;
    BPF_LD_IMM64 BPF_REG_1 0x1000000000; BPF_ALU64_REG BPF_OR BPF_REG_0 BPF_REG_1;
    BPF_MOV64_IMM BPF_REG_1 1; BPF_ALU32_REG BPF_RSH BPF_REG_0 BPF_REG_1;
    BPF_ALU64_IMM BPF_RSH BPF_REG_0 32; BPF_EXIT_INSN];
  _result ACCEPT;
  _retval 0].

Definition subreg_16 : bpf_test := TEST "rsh32 imm zero extend check" [
  _insns
   [BPF_RAW_INSN (BPF_JMP .| BPF_CALL) 0 0 0 BPF_FUNC_get_prandom_u32;
    BPF_LD_IMM64 BPF_REG_1 0x1000000000; BPF_ALU64_REG BPF_OR BPF_REG_0 BPF_REG_1;
    BPF_ALU32_IMM BPF_RSH BPF_REG_0 0; BPF_ALU64_IMM BPF_RSH BPF_REG_0 32;
    BPF_MOV64_REG BPF_REG_6 BPF_REG_0;
    BPF_RAW_INSN (BPF_JMP .| BPF_CALL) 0 0 0 BPF_FUNC_get_prandom_u32;
    BPF_LD_IMM64 BPF_REG_1 0x1000000000; BPF_ALU64_REG BPF_OR BPF_REG_0 BPF_REG_1;
    BPF_ALU32_IMM BPF_RSH BPF_REG_0 1; BPF_ALU64_IMM BPF_RSH BPF_REG_0 32;
    BPF_ALU64_REG BPF_OR BPF_REG_0 BPF_REG_6; BPF_EXIT_INSN];
  _result ACCEPT;
  _retval 0].

Definition subreg_17 : bpf_test := TEST "neg32 reg zero extend check" [
  _insns
   [BPF_RAW_INSN (BPF_JMP .| BPF_CALL) 0 0 0 BPF_FUNC_get_prandom_u32;
    BPF_LD_IMM64 BPF_REG_1 0x1000000000; BPF_ALU64_REG BPF_OR BPF_REG_0 BPF_REG_1;
    BPF_ALU32_IMM BPF_NEG BPF_REG_0 0; BPF_ALU64_IMM BPF_RSH BPF_REG_0 32; BPF_EXIT_INSN];
  _result ACCEPT;
  _retval 0].

Definition subreg_18 : bpf_test := TEST "mod32 reg zero extend check" [
  _insns
   [BPF_RAW_INSN (BPF_JMP .| BPF_CALL) 0 0 0 BPF_FUNC_get_prandom_u32;
    BPF_MOV64_REG BPF_REG_1 BPF_REG_0; BPF_MOV64_IMM BPF_REG_0 (-1);
    BPF_ALU32_REG BPF_MOD BPF_REG_0 BPF_REG_1; BPF_ALU64_IMM BPF_RSH BPF_REG_0 32;
    BPF_EXIT_INSN];
  _result ACCEPT;
  _retval 0].

Definition subreg_19 : bpf_test := TEST "mod32 imm zero extend check" [
  _insns
   [BPF_RAW_INSN (BPF_JMP .| BPF_CALL) 0 0 0 BPF_FUNC_get_prandom_u32;
    BPF_LD_IMM64 BPF_REG_1 0x1000000000; BPF_ALU64_REG BPF_OR BPF_REG_0 BPF_REG_1;
    BPF_ALU32_IMM BPF_MOD BPF_REG_0 1; BPF_ALU64_IMM BPF_RSH BPF_REG_0 32;
    BPF_MOV64_REG BPF_REG_6 BPF_REG_0;
    BPF_RAW_INSN (BPF_JMP .| BPF_CALL) 0 0 0 BPF_FUNC_get_prandom_u32;
    BPF_LD_IMM64 BPF_REG_1 0x1000000000; BPF_ALU64_REG BPF_OR BPF_REG_0 BPF_REG_1;
    BPF_ALU32_IMM BPF_MOD BPF_REG_0 2; BPF_ALU64_IMM BPF_RSH BPF_REG_0 32;
    BPF_ALU64_REG BPF_OR BPF_REG_0 BPF_REG_6; BPF_EXIT_INSN];
  _result ACCEPT;
  _retval 0].

Definition subreg_20 : bpf_test := TEST "xor32 reg zero extend check" [
  _insns
   [BPF_RAW_INSN (BPF_JMP .| BPF_CALL) 0 0 0 BPF_FUNC_get_prandom_u32;
    BPF_MOV64_REG BPF_REG_1 BPF_REG_0; BPF_LD_IMM64 BPF_REG_0 0x100000000;
    BPF_ALU32_REG BPF_XOR BPF_REG_0 BPF_REG_1; BPF_ALU64_IMM BPF_RSH BPF_REG_0 32;
    BPF_EXIT_INSN];
  _result ACCEPT;
  _retval 0].

Definition subreg_21 : bpf_test := TEST "xor32 imm zero extend check" [
  _insns
   [BPF_RAW_INSN (BPF_JMP .| BPF_CALL) 0 0 0 BPF_FUNC_get_prandom_u32;
    BPF_LD_IMM64 BPF_REG_1 0x1000000000; BPF_ALU64_REG BPF_OR BPF_REG_0 BPF_REG_1;
    BPF_ALU32_IMM BPF_XOR BPF_REG_0 1; BPF_ALU64_IMM BPF_RSH BPF_REG_0 32; BPF_EXIT_INSN];
  _result ACCEPT;
  _retval 0].

Definition subreg_22 : bpf_test := TEST "mov32 reg zero extend check" [
  _insns
   [BPF_RAW_INSN (BPF_JMP .| BPF_CALL) 0 0 0 BPF_FUNC_get_prandom_u32;
    BPF_LD_IMM64 BPF_REG_1 0x100000000; BPF_ALU64_REG BPF_OR BPF_REG_1 BPF_REG_0;
    BPF_LD_IMM64 BPF_REG_0 0x100000000; BPF_MOV32_REG BPF_REG_0 BPF_REG_1;
    BPF_ALU64_IMM BPF_RSH BPF_REG_0 32; BPF_EXIT_INSN];
  _result ACCEPT;
  _retval 0].

Definition subreg_23 : bpf_test := TEST "mov32 imm zero extend check" [
  _insns
   [BPF_RAW_INSN (BPF_JMP .| BPF_CALL) 0 0 0 BPF_FUNC_get_prandom_u32;
    BPF_LD_IMM64 BPF_REG_1 0x1000000000; BPF_ALU64_REG BPF_OR BPF_REG_0 BPF_REG_1;
    BPF_MOV32_IMM BPF_REG_0 0; BPF_ALU64_IMM BPF_RSH BPF_REG_0 32;
    BPF_MOV64_REG BPF_REG_6 BPF_REG_0;
    BPF_RAW_INSN (BPF_JMP .| BPF_CALL) 0 0 0 BPF_FUNC_get_prandom_u32;
    BPF_LD_IMM64 BPF_REG_1 0x1000000000; BPF_ALU64_REG BPF_OR BPF_REG_0 BPF_REG_1;
    BPF_MOV32_IMM BPF_REG_0 1; BPF_ALU64_IMM BPF_RSH BPF_REG_0 32;
    BPF_ALU64_REG BPF_OR BPF_REG_0 BPF_REG_6; BPF_EXIT_INSN];
  _result ACCEPT;
  _retval 0].

Definition subreg_24 : bpf_test := TEST "arsh32 reg zero extend check" [
  _insns
   [BPF_RAW_INSN (BPF_JMP .| BPF_CALL) 0 0 0 BPF_FUNC_get_prandom_u32;
    BPF_LD_IMM64 BPF_REG_1 0x1000000000; BPF_ALU64_REG BPF_OR BPF_REG_0 BPF_REG_1;
    BPF_MOV64_IMM BPF_REG_1 1; BPF_ALU32_REG BPF_ARSH BPF_REG_0 BPF_REG_1;
    BPF_ALU64_IMM BPF_RSH BPF_REG_0 32; BPF_EXIT_INSN];
  _result ACCEPT;
  _retval 0].

Definition subreg_25 : bpf_test := TEST "arsh32 imm zero extend check" [
  _insns
   [BPF_RAW_INSN (BPF_JMP .| BPF_CALL) 0 0 0 BPF_FUNC_get_prandom_u32;
    BPF_LD_IMM64 BPF_REG_1 0x1000000000; BPF_ALU64_REG BPF_OR BPF_REG_0 BPF_REG_1;
    BPF_ALU32_IMM BPF_ARSH BPF_REG_0 0; BPF_ALU64_IMM BPF_RSH BPF_REG_0 32;
    BPF_MOV64_REG BPF_REG_6 BPF_REG_0;
    BPF_RAW_INSN (BPF_JMP .| BPF_CALL) 0 0 0 BPF_FUNC_get_prandom_u32;
    BPF_LD_IMM64 BPF_REG_1 0x1000000000; BPF_ALU64_REG BPF_OR BPF_REG_0 BPF_REG_1;
    BPF_ALU32_IMM BPF_ARSH BPF_REG_0 1; BPF_ALU64_IMM BPF_RSH BPF_REG_0 32;
    BPF_ALU64_REG BPF_OR BPF_REG_0 BPF_REG_6; BPF_EXIT_INSN];
  _result ACCEPT;
  _retval 0].

Definition subreg_26 : bpf_test := TEST "end16 (to_le) reg zero extend check" [
  _insns
   [BPF_RAW_INSN (BPF_JMP .| BPF_CALL) 0 0 0 BPF_FUNC_get_prandom_u32;
    BPF_MOV64_REG BPF_REG_6 BPF_REG_0; BPF_ALU64_IMM BPF_LSH BPF_REG_6 32;
    BPF_RAW_INSN (BPF_JMP .| BPF_CALL) 0 0 0 BPF_FUNC_get_prandom_u32;
    BPF_ALU64_REG BPF_OR BPF_REG_0 BPF_REG_6; BPF_ENDIAN BPF_TO_LE BPF_REG_0 16;
    BPF_ALU64_IMM BPF_RSH BPF_REG_0 32; BPF_EXIT_INSN];
  _result ACCEPT;
  _retval 0].

Definition subreg_27 : bpf_test := TEST "end32 (to_le) reg zero extend check" [
  _insns
   [BPF_RAW_INSN (BPF_JMP .| BPF_CALL) 0 0 0 BPF_FUNC_get_prandom_u32;
    BPF_MOV64_REG BPF_REG_6 BPF_REG_0; BPF_ALU64_IMM BPF_LSH BPF_REG_6 32;
    BPF_RAW_INSN (BPF_JMP .| BPF_CALL) 0 0 0 BPF_FUNC_get_prandom_u32;
    BPF_ALU64_REG BPF_OR BPF_REG_0 BPF_REG_6; BPF_ENDIAN BPF_TO_LE BPF_REG_0 32;
    BPF_ALU64_IMM BPF_RSH BPF_REG_0 32; BPF_EXIT_INSN];
  _result ACCEPT;
  _retval 0].

Definition subreg_28 : bpf_test := TEST "end16 (to_be) reg zero extend check" [
  _insns
   [BPF_RAW_INSN (BPF_JMP .| BPF_CALL) 0 0 0 BPF_FUNC_get_prandom_u32;
    BPF_MOV64_REG BPF_REG_6 BPF_REG_0; BPF_ALU64_IMM BPF_LSH BPF_REG_6 32;
    BPF_RAW_INSN (BPF_JMP .| BPF_CALL) 0 0 0 BPF_FUNC_get_prandom_u32;
    BPF_ALU64_REG BPF_OR BPF_REG_0 BPF_REG_6; BPF_ENDIAN BPF_TO_BE BPF_REG_0 16;
    BPF_ALU64_IMM BPF_RSH BPF_REG_0 32; BPF_EXIT_INSN];
  _result ACCEPT;
  _retval 0].

Definition subreg_29 : bpf_test := TEST "end32 (to_be) reg zero extend check" [
  _insns
   [BPF_RAW_INSN (BPF_JMP .| BPF_CALL) 0 0 0 BPF_FUNC_get_prandom_u32;
    BPF_MOV64_REG BPF_REG_6 BPF_REG_0; BPF_ALU64_IMM BPF_LSH BPF_REG_6 32;
    BPF_RAW_INSN (BPF_JMP .| BPF_CALL) 0 0 0 BPF_FUNC_get_prandom_u32;
    BPF_ALU64_REG BPF_OR BPF_REG_0 BPF_REG_6; BPF_ENDIAN BPF_TO_BE BPF_REG_0 32;
    BPF_ALU64_IMM BPF_RSH BPF_REG_0 32; BPF_EXIT_INSN];
  _result ACCEPT;
  _retval 0].

Definition subreg_30 : bpf_test := TEST "ldx_b zero extend check" [
  _insns
   [BPF_MOV64_REG BPF_REG_6 BPF_REG_10; BPF_ALU64_IMM BPF_ADD BPF_REG_6 (-4);
    BPF_ST_MEM BPF_W BPF_REG_6 0 0xfaceb00c;
    BPF_RAW_INSN (BPF_JMP .| BPF_CALL) 0 0 0 BPF_FUNC_get_prandom_u32;
    BPF_LD_IMM64 BPF_REG_1 0x1000000000; BPF_ALU64_REG BPF_OR BPF_REG_0 BPF_REG_1;
    BPF_LDX_MEM BPF_B BPF_REG_0 BPF_REG_6 0; BPF_ALU64_IMM BPF_RSH BPF_REG_0 32; BPF_EXIT_INSN];
  _result ACCEPT;
  _retval 0].

Definition subreg_31 : bpf_test := TEST "ldx_h zero extend check" [
  _insns
   [BPF_MOV64_REG BPF_REG_6 BPF_REG_10; BPF_ALU64_IMM BPF_ADD BPF_REG_6 (-4);
    BPF_ST_MEM BPF_W BPF_REG_6 0 0xfaceb00c;
    BPF_RAW_INSN (BPF_JMP .| BPF_CALL) 0 0 0 BPF_FUNC_get_prandom_u32;
    BPF_LD_IMM64 BPF_REG_1 0x1000000000; BPF_ALU64_REG BPF_OR BPF_REG_0 BPF_REG_1;
    BPF_LDX_MEM BPF_H BPF_REG_0 BPF_REG_6 0; BPF_ALU64_IMM BPF_RSH BPF_REG_0 32; BPF_EXIT_INSN];
  _result ACCEPT;
  _retval 0].

Definition subreg_32 : bpf_test := TEST "ldx_w zero extend check" [
  _insns
   [BPF_MOV64_REG BPF_REG_6 BPF_REG_10; BPF_ALU64_IMM BPF_ADD BPF_REG_6 (-4);
    BPF_ST_MEM BPF_W BPF_REG_6 0 0xfaceb00c;
    BPF_RAW_INSN (BPF_JMP .| BPF_CALL) 0 0 0 BPF_FUNC_get_prandom_u32;
    BPF_LD_IMM64 BPF_REG_1 0x1000000000; BPF_ALU64_REG BPF_OR BPF_REG_0 BPF_REG_1;
    BPF_LDX_MEM BPF_W BPF_REG_0 BPF_REG_6 0; BPF_ALU64_IMM BPF_RSH BPF_REG_0 32; BPF_EXIT_INSN];
  _result ACCEPT;
  _retval 0].

Definition subreg_tests : list bpf_test := [subreg_1; subreg_2; subreg_3; subreg_4; subreg_5;
  subreg_6; subreg_7; subreg_8; subreg_9; subreg_10; subreg_11; subreg_12; subreg_13; subreg_14;
  subreg_15; subreg_16; subreg_17; subreg_18; subreg_19; subreg_20; subreg_21; subreg_22; subreg_23;
  subreg_24; subreg_25; subreg_26; subreg_27; subreg_28; subreg_29; subreg_30; subreg_31;
  subreg_32].

(** * [jit.c] *)

Definition jit_1 : bpf_test := TEST "jit: lsh, rsh, arsh by 1" [
  _insns
   [BPF_MOV64_IMM BPF_REG_0 1; BPF_MOV64_IMM BPF_REG_1 0xff; BPF_ALU64_IMM BPF_LSH BPF_REG_1 1;
    BPF_ALU32_IMM BPF_LSH BPF_REG_1 1; BPF_JMP_IMM BPF_JEQ BPF_REG_1 0x3fc 1; BPF_EXIT_INSN;
    BPF_ALU64_IMM BPF_RSH BPF_REG_1 1; BPF_ALU32_IMM BPF_RSH BPF_REG_1 1;
    BPF_JMP_IMM BPF_JEQ BPF_REG_1 0xff 1; BPF_EXIT_INSN; BPF_ALU64_IMM BPF_ARSH BPF_REG_1 1;
    BPF_JMP_IMM BPF_JEQ BPF_REG_1 0x7f 1; BPF_EXIT_INSN; BPF_MOV64_IMM BPF_REG_0 2;
    BPF_EXIT_INSN];
  _result ACCEPT;
  _retval 2].

Definition jit_2 : bpf_test := TEST "jit: mov32 for ldimm64, 1" [
  _insns
   [BPF_MOV64_IMM BPF_REG_0 2; BPF_LD_IMM64 BPF_REG_1 0xfeffffffffffffff;
    BPF_ALU64_IMM BPF_RSH BPF_REG_1 32; BPF_LD_IMM64 BPF_REG_2 0xfeffffff;
    BPF_JMP_REG BPF_JEQ BPF_REG_1 BPF_REG_2 1; BPF_MOV64_IMM BPF_REG_0 1; BPF_EXIT_INSN];
  _result ACCEPT;
  _retval 2].

Definition jit_3 : bpf_test := TEST "jit: mov32 for ldimm64, 2" [
  _insns
   [BPF_MOV64_IMM BPF_REG_0 1; BPF_LD_IMM64 BPF_REG_1 0x1ffffffff;
    BPF_LD_IMM64 BPF_REG_2 0xffffffff; BPF_JMP_REG BPF_JEQ BPF_REG_1 BPF_REG_2 1;
    BPF_MOV64_IMM BPF_REG_0 2; BPF_EXIT_INSN];
  _result ACCEPT;
  _retval 2].

Definition jit_4 : bpf_test := TEST "jit: various mul tests" [
  _insns
   [BPF_LD_IMM64 BPF_REG_2 0xeeff0d413122; BPF_LD_IMM64 BPF_REG_0 0xfefefe;
    BPF_LD_IMM64 BPF_REG_1 0xefefef; BPF_ALU64_REG BPF_MUL BPF_REG_0 BPF_REG_1;
    BPF_JMP_REG BPF_JEQ BPF_REG_0 BPF_REG_2 2; BPF_MOV64_IMM BPF_REG_0 1; BPF_EXIT_INSN;
    BPF_LD_IMM64 BPF_REG_3 0xfefefe; BPF_ALU64_REG BPF_MUL BPF_REG_3 BPF_REG_1;
    BPF_JMP_REG BPF_JEQ BPF_REG_3 BPF_REG_2 2; BPF_MOV64_IMM BPF_REG_0 1; BPF_EXIT_INSN;
    BPF_MOV32_REG BPF_REG_2 BPF_REG_2; BPF_LD_IMM64 BPF_REG_0 0xfefefe;
    BPF_ALU32_REG BPF_MUL BPF_REG_0 BPF_REG_1; BPF_JMP_REG BPF_JEQ BPF_REG_0 BPF_REG_2 2;
    BPF_MOV64_IMM BPF_REG_0 1; BPF_EXIT_INSN; BPF_LD_IMM64 BPF_REG_3 0xfefefe;
    BPF_ALU32_REG BPF_MUL BPF_REG_3 BPF_REG_1; BPF_JMP_REG BPF_JEQ BPF_REG_3 BPF_REG_2 2;
    BPF_MOV64_IMM BPF_REG_0 1; BPF_EXIT_INSN; BPF_LD_IMM64 BPF_REG_0 0x952a7bbc;
    BPF_LD_IMM64 BPF_REG_1 0xfefefe; BPF_LD_IMM64 BPF_REG_2 0xeeff0d413122;
    BPF_ALU32_REG BPF_MUL BPF_REG_2 BPF_REG_1; BPF_JMP_REG BPF_JEQ BPF_REG_2 BPF_REG_0 2;
    BPF_MOV64_IMM BPF_REG_0 1; BPF_EXIT_INSN; BPF_MOV64_IMM BPF_REG_0 2; BPF_EXIT_INSN];
  _result ACCEPT;
  _retval 2].

Definition jit_5 : bpf_test := TEST "jit: jsgt, jslt" [
  _insns
   [BPF_LD_IMM64 BPF_REG_1 0x80000000; BPF_LD_IMM64 BPF_REG_2 0x0;
    BPF_JMP_REG BPF_JSGT BPF_REG_1 BPF_REG_2 2; BPF_MOV64_IMM BPF_REG_0 1; BPF_EXIT_INSN;
    BPF_JMP_REG BPF_JSLT BPF_REG_2 BPF_REG_1 2; BPF_MOV64_IMM BPF_REG_0 1; BPF_EXIT_INSN;
    BPF_MOV64_IMM BPF_REG_0 2; BPF_EXIT_INSN];
  _result ACCEPT;
  _retval 2].

Definition jit_6 : bpf_test := TEST "jit: torturous jumps, imm8 nop jmp and pure jump padding" [
  _insns [];
  _fill_helper bpf_fill_torturous_jumps;
  _prog_type BPF_PROG_TYPE_SCHED_CLS;
  _result ACCEPT;
  _retval 1].

Definition jit_7 : bpf_test := TEST "jit: torturous jumps, imm32 nop jmp and jmp_cond padding" [
  _insns [];
  _fill_helper bpf_fill_torturous_jumps;
  _prog_type BPF_PROG_TYPE_SCHED_CLS;
  _result ACCEPT;
  _retval 2].

Definition jit_8 : bpf_test := TEST "jit: torturous jumps in subprog" [
  _insns [];
  _fill_helper bpf_fill_torturous_jumps;
  _prog_type BPF_PROG_TYPE_SCHED_CLS;
  _result ACCEPT;
  _retval 3].

Definition jit_tests : list bpf_test := [jit_1; jit_2; jit_3; jit_4; jit_5; jit_6; jit_7; jit_8].

(** * [ld_imm64.c] *)

Definition ld_imm64_1 : bpf_test := TEST "test1 ld_imm64" [
  _insns
   [BPF_JMP_IMM BPF_JEQ BPF_REG_1 0 1; BPF_LD_IMM64 BPF_REG_0 0; BPF_LD_IMM64 BPF_REG_0 0;
    BPF_LD_IMM64 BPF_REG_0 1; BPF_LD_IMM64 BPF_REG_0 1; BPF_MOV64_IMM BPF_REG_0 2;
    BPF_EXIT_INSN];
  _errstr "invalid BPF_LD_IMM insn";
  _errstr_unpriv "R1 pointer comparison";
  _result REJECT].

Definition ld_imm64_2 : bpf_test := TEST "test2 ld_imm64" [
  _insns
   [BPF_JMP_IMM BPF_JEQ BPF_REG_1 0 1; BPF_LD_IMM64 BPF_REG_0 0; BPF_LD_IMM64 BPF_REG_0 0;
    BPF_LD_IMM64 BPF_REG_0 1; BPF_LD_IMM64 BPF_REG_0 1; BPF_EXIT_INSN];
  _errstr "invalid BPF_LD_IMM insn";
  _errstr_unpriv "R1 pointer comparison";
  _result REJECT].

Definition ld_imm64_3 : bpf_test := TEST "test3 ld_imm64" [
  _insns
   [BPF_JMP_IMM BPF_JEQ BPF_REG_1 0 1; BPF_RAW_INSN ((BPF_LD .| BPF_IMM) .| BPF_DW) 0 0 0 0;
    BPF_LD_IMM64 BPF_REG_0 0; BPF_LD_IMM64 BPF_REG_0 0; BPF_LD_IMM64 BPF_REG_0 1;
    BPF_LD_IMM64 BPF_REG_0 1; BPF_EXIT_INSN];
  _errstr "invalid bpf_ld_imm64 insn";
  _result REJECT].

Definition ld_imm64_4 : bpf_test := TEST "test4 ld_imm64" [
  _insns
   [BPF_RAW_INSN ((BPF_LD .| BPF_IMM) .| BPF_DW) 0 0 0 0; BPF_EXIT_INSN];
  _errstr "invalid bpf_ld_imm64 insn";
  _result REJECT].

Definition ld_imm64_5 : bpf_test := TEST "test6 ld_imm64" [
  _insns
   [BPF_RAW_INSN ((BPF_LD .| BPF_IMM) .| BPF_DW) 0 0 0 0; BPF_RAW_INSN 0 0 0 0 0; BPF_EXIT_INSN];
  _result ACCEPT].

Definition ld_imm64_6 : bpf_test := TEST "test7 ld_imm64" [
  _insns
   [BPF_RAW_INSN ((BPF_LD .| BPF_IMM) .| BPF_DW) 0 0 0 1; BPF_RAW_INSN 0 0 0 0 1; BPF_EXIT_INSN];
  _result ACCEPT;
  _retval 1].

Definition ld_imm64_7 : bpf_test := TEST "test8 ld_imm64" [
  _insns
   [BPF_RAW_INSN ((BPF_LD .| BPF_IMM) .| BPF_DW) 0 0 1 1; BPF_RAW_INSN 0 0 0 0 1; BPF_EXIT_INSN];
  _errstr "uses reserved fields";
  _result REJECT].

Definition ld_imm64_8 : bpf_test := TEST "test9 ld_imm64" [
  _insns
   [BPF_RAW_INSN ((BPF_LD .| BPF_IMM) .| BPF_DW) 0 0 0 1; BPF_RAW_INSN 0 0 0 1 1; BPF_EXIT_INSN];
  _errstr "invalid bpf_ld_imm64 insn";
  _result REJECT].

Definition ld_imm64_9 : bpf_test := TEST "test10 ld_imm64" [
  _insns
   [BPF_RAW_INSN ((BPF_LD .| BPF_IMM) .| BPF_DW) 0 0 0 1; BPF_RAW_INSN 0 BPF_REG_1 0 0 1;
    BPF_EXIT_INSN];
  _errstr "invalid bpf_ld_imm64 insn";
  _result REJECT].

Definition ld_imm64_10 : bpf_test := TEST "test11 ld_imm64" [
  _insns
   [BPF_RAW_INSN ((BPF_LD .| BPF_IMM) .| BPF_DW) 0 0 0 1; BPF_RAW_INSN 0 0 BPF_REG_1 0 1;
    BPF_EXIT_INSN];
  _errstr "invalid bpf_ld_imm64 insn";
  _result REJECT].

Definition ld_imm64_11 : bpf_test := TEST "test12 ld_imm64" [
  _insns
   [BPF_MOV64_IMM BPF_REG_1 0; BPF_RAW_INSN ((BPF_LD .| BPF_IMM) .| BPF_DW) 0 BPF_REG_1 0 1;
    BPF_RAW_INSN 0 0 0 0 0; BPF_EXIT_INSN];
  _errstr "not pointing to valid bpf_map";
  _result REJECT].

Definition ld_imm64_12 : bpf_test := TEST "test13 ld_imm64" [
  _insns
   [BPF_MOV64_IMM BPF_REG_1 0; BPF_RAW_INSN ((BPF_LD .| BPF_IMM) .| BPF_DW) 0 BPF_REG_1 0 1;
    BPF_RAW_INSN 0 0 BPF_REG_1 0 1; BPF_EXIT_INSN];
  _errstr "invalid bpf_ld_imm64 insn";
  _result REJECT].

Definition ld_imm64_13 : bpf_test := TEST "test14 ld_imm64: reject 2nd imm != 0" [
  _insns
   [BPF_MOV64_IMM BPF_REG_0 0;
    BPF_RAW_INSN ((BPF_LD .| BPF_IMM) .| BPF_DW) BPF_REG_1 BPF_PSEUDO_MAP_FD 0 0;
    BPF_RAW_INSN 0 0 0 0 0xfefefe; BPF_EXIT_INSN];
  _fixup fixup_map_hash_48b [1];
  _errstr "unrecognized bpf_ld_imm64 insn";
  _result REJECT].

Definition ld_imm64_tests : list bpf_test := [ld_imm64_1; ld_imm64_2; ld_imm64_3; ld_imm64_4;
  ld_imm64_5; ld_imm64_6; ld_imm64_7; ld_imm64_8; ld_imm64_9; ld_imm64_10; ld_imm64_11; ld_imm64_12;
  ld_imm64_13].

End LegacyAlu.
