(* ===== verification/LegacyJmp.v ===== *)
(** Verifier tests of the repository, control flow: conditional jumps, loops, dead code, malformed programs.

    Each definition is one element of a file of [selftests/legacy/verifier],
    written with the macros of [BpfInsn] and the designators of [ConvertTests];
    a list per file gives them in the order of the file. *)

From S2P Require Import Prelude BpfInsn ConvertTests.
From Stdlib Require Import ZArith String.
From stdpp Require Import base strings list.
Import BpfInsn ConvertTests.
Open Scope Z_scope.

Module LegacyJmp.

(** * [jmp32.c] *)

Definition jmp32_1 : bpf_test := TEST "jset32: BPF_K" [
  _insns
   [BPF_DIRECT_PKT_R2; BPF_LDX_MEM BPF_DW BPF_REG_7 BPF_REG_2 0;
    BPF_JMP32_IMM BPF_JSET BPF_REG_7 (-2) 1; BPF_JMP_IMM BPF_JA 0 0 1; BPF_EXIT_INSN;
    BPF_JMP32_IMM BPF_JSET BPF_REG_7 1 1; BPF_EXIT_INSN; BPF_MOV64_IMM BPF_REG_0 2;
    BPF_EXIT_INSN];
  _prog_type BPF_PROG_TYPE_SCHED_CLS;
  _result ACCEPT;
  _runs 3;
  _retvals [run64 0 [(Z.shiftl 1 63)]; run64 2 [1]; run64 2 [((Z.shiftl 1 63) .| 1)]];
  _flags F_NEEDS_EFFICIENT_UNALIGNED_ACCESS].

Definition jmp32_2 : bpf_test := TEST "jset32: BPF_X" [
  _insns
   [BPF_DIRECT_PKT_R2; BPF_LDX_MEM BPF_DW BPF_REG_7 BPF_REG_2 0;
    BPF_LD_IMM64 BPF_REG_8 0x8000000000000000; BPF_JMP32_REG BPF_JSET BPF_REG_7 BPF_REG_8 1;
    BPF_JMP_IMM BPF_JA 0 0 1; BPF_EXIT_INSN; BPF_LD_IMM64 BPF_REG_8 0x8000000000000001;
    BPF_JMP32_REG BPF_JSET BPF_REG_7 BPF_REG_8 1; BPF_EXIT_INSN; BPF_MOV64_IMM BPF_REG_0 2;
    BPF_EXIT_INSN];
  _prog_type BPF_PROG_TYPE_SCHED_CLS;
  _result ACCEPT;
  _runs 3;
  _retvals [run64 0 [(Z.shiftl 1 63)]; run64 2 [1]; run64 2 [((Z.shiftl 1 63) .| 1)]];
  _flags F_NEEDS_EFFICIENT_UNALIGNED_ACCESS].

Definition jmp32_3 : bpf_test := TEST "jset32: ignores upper bits" [
  _insns
   [BPF_MOV64_IMM BPF_REG_0 0; BPF_LD_IMM64 BPF_REG_7 0x8000000000000000;
    BPF_LD_IMM64 BPF_REG_8 0x8000000000000000; BPF_JMP_REG BPF_JSET BPF_REG_7 BPF_REG_8 1;
    BPF_EXIT_INSN; BPF_JMP32_REG BPF_JSET BPF_REG_7 BPF_REG_8 1; BPF_MOV64_IMM BPF_REG_0 2;
    BPF_EXIT_INSN];
  _result ACCEPT;
  _retval 2].

Definition jmp32_4 : bpf_test := TEST "jset32: min/max deduction" [
  _insns
   [BPF_RAND_UEXT_R7; BPF_MOV64_IMM BPF_REG_0 0; BPF_JMP32_IMM BPF_JSET BPF_REG_7 0x10 1;
    BPF_EXIT_INSN; BPF_JMP32_IMM BPF_JGE BPF_REG_7 0x10 1;
    BPF_LDX_MEM BPF_B BPF_REG_8 BPF_REG_9 0; BPF_EXIT_INSN];
  _errstr_unpriv "R9 !read_ok";
  _result_unpriv REJECT;
  _result ACCEPT].

Definition jmp32_5 : bpf_test := TEST "jeq32: BPF_K" [
  _insns
   [BPF_DIRECT_PKT_R2; BPF_LDX_MEM BPF_DW BPF_REG_7 BPF_REG_2 0;
    BPF_JMP32_IMM BPF_JEQ BPF_REG_7 (-1) 1; BPF_EXIT_INSN; BPF_MOV64_IMM BPF_REG_0 2;
    BPF_EXIT_INSN];
  _prog_type BPF_PROG_TYPE_SCHED_CLS;
  _result ACCEPT;
  _runs 2;
  _retvals [run64 0 [(-2)]; run64 2 [(-1)]];
  _flags F_NEEDS_EFFICIENT_UNALIGNED_ACCESS].

Definition jmp32_6 : bpf_test := TEST "jeq32: BPF_X" [
  _insns
   [BPF_DIRECT_PKT_R2; BPF_LDX_MEM BPF_DW BPF_REG_7 BPF_REG_2 0;
    BPF_LD_IMM64 BPF_REG_8 0x7000000000000001; BPF_JMP32_REG BPF_JEQ BPF_REG_7 BPF_REG_8 1;
    BPF_EXIT_INSN; BPF_MOV64_IMM BPF_REG_0 2; BPF_EXIT_INSN];
  _prog_type BPF_PROG_TYPE_SCHED_CLS;
  _result ACCEPT;
  _runs 3;
  _retvals [run64 0 [2]; run64 2 [1]; run64 2 [((Z.shiftl 1 63) .| 1)]];
  _flags F_NEEDS_EFFICIENT_UNALIGNED_ACCESS].

Definition jmp32_7 : bpf_test := TEST "jeq32: min/max deduction" [
  _insns
   [BPF_RAND_UEXT_R7; BPF_MOV64_IMM BPF_REG_0 0; BPF_JMP32_IMM BPF_JEQ BPF_REG_7 0x10 1;
    BPF_EXIT_INSN; BPF_JMP32_IMM BPF_JSGE BPF_REG_7 0xf 1;
    BPF_LDX_MEM BPF_B BPF_REG_8 BPF_REG_9 0; BPF_EXIT_INSN];
  _errstr_unpriv "R9 !read_ok";
  _result_unpriv REJECT;
  _result ACCEPT].

Definition jmp32_8 : bpf_test := TEST "jne32: BPF_K" [
  _insns
   [BPF_DIRECT_PKT_R2; BPF_LDX_MEM BPF_DW BPF_REG_7 BPF_REG_2 0;
    BPF_JMP32_IMM BPF_JNE BPF_REG_7 (-1) 1; BPF_EXIT_INSN; BPF_MOV64_IMM BPF_REG_0 2;
    BPF_EXIT_INSN];
  _prog_type BPF_PROG_TYPE_SCHED_CLS;
  _result ACCEPT;
  _runs 2;
  _retvals [run64 2 [1]; run64 0 [(-1)]];
  _flags F_NEEDS_EFFICIENT_UNALIGNED_ACCESS].

Definition jmp32_9 : bpf_test := TEST "jne32: BPF_X" [
  _insns
   [BPF_DIRECT_PKT_R2; BPF_LDX_MEM BPF_DW BPF_REG_7 BPF_REG_2 0;
    BPF_LD_IMM64 BPF_REG_8 0x8000000000000001; BPF_JMP32_REG BPF_JNE BPF_REG_7 BPF_REG_8 1;
    BPF_EXIT_INSN; BPF_MOV64_IMM BPF_REG_0 2; BPF_EXIT_INSN];
  _prog_type BPF_PROG_TYPE_SCHED_CLS;
  _result ACCEPT;
  _runs 3;
  _retvals [run64 0 [1]; run64 2 [2]; run64 2 [((Z.shiftl 1 63) .| 2)]];
  _flags F_NEEDS_EFFICIENT_UNALIGNED_ACCESS].

Definition jmp32_10 : bpf_test := TEST "jne32: min/max deduction" [
  _insns
   [BPF_RAND_UEXT_R7; BPF_MOV64_IMM BPF_REG_0 0; BPF_JMP32_IMM BPF_JNE BPF_REG_7 0x10 1;
    BPF_JMP_IMM BPF_JNE BPF_REG_7 0x10 1; BPF_EXIT_INSN;
    BPF_LDX_MEM BPF_B BPF_REG_8 BPF_REG_9 0; BPF_EXIT_INSN];
  _errstr_unpriv "R9 !read_ok";
  _result_unpriv REJECT;
  _result ACCEPT].

Definition jmp32_11 : bpf_test := TEST "jge32: BPF_K" [
  _insns
   [BPF_DIRECT_PKT_R2; BPF_LDX_MEM BPF_DW BPF_REG_7 BPF_REG_2 0;
    BPF_JMP32_IMM BPF_JGE BPF_REG_7 (4294967295 - 1) 1; BPF_EXIT_INSN;
    BPF_ALU32_IMM BPF_MOV BPF_REG_0 2; BPF_EXIT_INSN];
  _prog_type BPF_PROG_TYPE_SCHED_CLS;
  _result ACCEPT;
  _runs 3;
  _retvals [run64 2 [4294967295]; run64 2 [(4294967295 - 1)]; run64 0 [0]];
  _flags F_NEEDS_EFFICIENT_UNALIGNED_ACCESS].

Definition jmp32_12 : bpf_test := TEST "jge32: BPF_X" [
  _insns
   [BPF_DIRECT_PKT_R2; BPF_LD_IMM64 BPF_REG_8 (4294967295 .| (Z.shiftl 1 32));
    BPF_LDX_MEM BPF_DW BPF_REG_7 BPF_REG_2 0; BPF_JMP32_REG BPF_JGE BPF_REG_7 BPF_REG_8 1;
    BPF_EXIT_INSN; BPF_ALU32_IMM BPF_MOV BPF_REG_0 2; BPF_EXIT_INSN];
  _prog_type BPF_PROG_TYPE_SCHED_CLS;
  _result ACCEPT;
  _runs 3;
  _retvals [run64 2 [4294967295]; run64 0 [2147483647]; run64 0 [((4294967295 - 1) .| (Z.shiftl 2
   32))]];
  _flags F_NEEDS_EFFICIENT_UNALIGNED_ACCESS].

Definition jmp32_13 : bpf_test := TEST "jge32: min/max deduction" [
  _insns
   [BPF_RAND_UEXT_R7; BPF_ALU32_IMM BPF_MOV BPF_REG_0 2;
    BPF_LD_IMM64 BPF_REG_8 (0x7ffffff0 .| (Z.shiftl 1 32));
    BPF_JMP32_REG BPF_JGE BPF_REG_7 BPF_REG_8 1; BPF_EXIT_INSN;
    BPF_JMP32_IMM BPF_JGE BPF_REG_7 0x7ffffff0 1; BPF_LDX_MEM BPF_DW BPF_REG_0 BPF_REG_0 0;
    BPF_EXIT_INSN];
  _errstr_unpriv "R0 invalid mem access 'inv'";
  _result_unpriv REJECT;
  _result ACCEPT;
  _retval 2].

Definition jmp32_14 : bpf_test := TEST "jgt32: BPF_K" [
  _insns
   [BPF_DIRECT_PKT_R2; BPF_LDX_MEM BPF_DW BPF_REG_7 BPF_REG_2 0;
    BPF_JMP32_IMM BPF_JGT BPF_REG_7 (4294967295 - 1) 1; BPF_EXIT_INSN;
    BPF_ALU32_IMM BPF_MOV BPF_REG_0 2; BPF_EXIT_INSN];
  _prog_type BPF_PROG_TYPE_SCHED_CLS;
  _result ACCEPT;
  _runs 3;
  _retvals [run64 2 [4294967295]; run64 0 [(4294967295 - 1)]; run64 0 [0]];
  _flags F_NEEDS_EFFICIENT_UNALIGNED_ACCESS].

Definition jmp32_15 : bpf_test := TEST "jgt32: BPF_X" [
  _insns
   [BPF_DIRECT_PKT_R2; BPF_LD_IMM64 BPF_REG_8 ((4294967295 - 1) .| (Z.shiftl 1 32));
    BPF_LDX_MEM BPF_DW BPF_REG_7 BPF_REG_2 0; BPF_JMP32_REG BPF_JGT BPF_REG_7 BPF_REG_8 1;
    BPF_EXIT_INSN; BPF_ALU32_IMM BPF_MOV BPF_REG_0 2; BPF_EXIT_INSN];
  _prog_type BPF_PROG_TYPE_SCHED_CLS;
  _result ACCEPT;
  _runs 3;
  _retvals [run64 2 [4294967295]; run64 0 [(4294967295 - 1)]; run64 0 [((4294967295 - 1) .| (Z.shiftl
   2 32))]];
  _flags F_NEEDS_EFFICIENT_UNALIGNED_ACCESS].

Definition jmp32_16 : bpf_test := TEST "jgt32: min/max deduction" [
  _insns
   [BPF_RAND_UEXT_R7; BPF_ALU32_IMM BPF_MOV BPF_REG_0 2;
    BPF_LD_IMM64 BPF_REG_8 (0x7ffffff0 .| (Z.shiftl 1 32));
    BPF_JMP32_REG BPF_JGT BPF_REG_7 BPF_REG_8 1; BPF_EXIT_INSN;
    BPF_JMP_IMM BPF_JGT BPF_REG_7 0x7ffffff0 1; BPF_LDX_MEM BPF_DW BPF_REG_0 BPF_REG_0 0;
    BPF_EXIT_INSN];
  _errstr_unpriv "R0 invalid mem access 'inv'";
  _result_unpriv REJECT;
  _result ACCEPT;
  _retval 2].

Definition jmp32_17 : bpf_test := TEST "jle32: BPF_K" [
  _insns
   [BPF_DIRECT_PKT_R2; BPF_LDX_MEM BPF_DW BPF_REG_7 BPF_REG_2 0;
    BPF_JMP32_IMM BPF_JLE BPF_REG_7 2147483647 1; BPF_EXIT_INSN;
    BPF_ALU32_IMM BPF_MOV BPF_REG_0 2; BPF_EXIT_INSN];
  _prog_type BPF_PROG_TYPE_SCHED_CLS;
  _result ACCEPT;
  _runs 3;
  _retvals [run64 2 [(2147483647 - 1)]; run64 0 [4294967295]; run64 2 [2147483647]];
  _flags F_NEEDS_EFFICIENT_UNALIGNED_ACCESS].

Definition jmp32_18 : bpf_test := TEST "jle32: BPF_X" [
  _insns
   [BPF_DIRECT_PKT_R2; BPF_LD_IMM64 BPF_REG_8 ((2147483647 - 1) .| (Z.shiftl 2 32));
    BPF_LDX_MEM BPF_DW BPF_REG_7 BPF_REG_2 0; BPF_JMP32_REG BPF_JLE BPF_REG_7 BPF_REG_8 1;
    BPF_EXIT_INSN; BPF_ALU32_IMM BPF_MOV BPF_REG_0 2; BPF_EXIT_INSN];
  _prog_type BPF_PROG_TYPE_SCHED_CLS;
  _result ACCEPT;
  _runs 3;
  _retvals [run64 0 [(2147483647 .| (Z.shiftl 1 32))]; run64 2 [(2147483647 - 2)]; run64 0
   [4294967295]];
  _flags F_NEEDS_EFFICIENT_UNALIGNED_ACCESS].

Definition jmp32_19 : bpf_test := TEST "jle32: min/max deduction" [
  _insns
   [BPF_RAND_UEXT_R7; BPF_ALU32_IMM BPF_MOV BPF_REG_0 2;
    BPF_LD_IMM64 BPF_REG_8 (0x7ffffff0 .| (Z.shiftl 1 32));
    BPF_JMP32_REG BPF_JLE BPF_REG_7 BPF_REG_8 1; BPF_EXIT_INSN;
    BPF_JMP32_IMM BPF_JLE BPF_REG_7 0x7ffffff0 1; BPF_LDX_MEM BPF_DW BPF_REG_0 BPF_REG_0 0;
    BPF_EXIT_INSN];
  _errstr_unpriv "R0 invalid mem access 'inv'";
  _result_unpriv REJECT;
  _result ACCEPT;
  _retval 2].

Definition jmp32_20 : bpf_test := TEST "jlt32: BPF_K" [
  _insns
   [BPF_DIRECT_PKT_R2; BPF_LDX_MEM BPF_DW BPF_REG_7 BPF_REG_2 0;
    BPF_JMP32_IMM BPF_JLT BPF_REG_7 2147483647 1; BPF_EXIT_INSN;
    BPF_ALU32_IMM BPF_MOV BPF_REG_0 2; BPF_EXIT_INSN];
  _prog_type BPF_PROG_TYPE_SCHED_CLS;
  _result ACCEPT;
  _runs 3;
  _retvals [run64 0 [2147483647]; run64 0 [4294967295]; run64 2 [(2147483647 - 1)]];
  _flags F_NEEDS_EFFICIENT_UNALIGNED_ACCESS].

Definition jmp32_21 : bpf_test := TEST "jlt32: BPF_X" [
  _insns
   [BPF_DIRECT_PKT_R2; BPF_LD_IMM64 BPF_REG_8 (2147483647 .| (Z.shiftl 2 32));
    BPF_LDX_MEM BPF_DW BPF_REG_7 BPF_REG_2 0; BPF_JMP32_REG BPF_JLT BPF_REG_7 BPF_REG_8 1;
    BPF_EXIT_INSN; BPF_ALU32_IMM BPF_MOV BPF_REG_0 2; BPF_EXIT_INSN];
  _prog_type BPF_PROG_TYPE_SCHED_CLS;
  _result ACCEPT;
  _runs 3;
  _retvals [run64 0 [(2147483647 .| (Z.shiftl 1 32))]; run64 0 [4294967295]; run64 2 [((2147483647 -
   1) .| (Z.shiftl 3 32))]];
  _flags F_NEEDS_EFFICIENT_UNALIGNED_ACCESS].

Definition jmp32_22 : bpf_test := TEST "jlt32: min/max deduction" [
  _insns
   [BPF_RAND_UEXT_R7; BPF_ALU32_IMM BPF_MOV BPF_REG_0 2;
    BPF_LD_IMM64 BPF_REG_8 (0x7ffffff0 .| (Z.shiftl 1 32));
    BPF_JMP32_REG BPF_JLT BPF_REG_7 BPF_REG_8 1; BPF_EXIT_INSN;
    BPF_JMP_IMM BPF_JSLT BPF_REG_7 0x7ffffff0 1; BPF_LDX_MEM BPF_DW BPF_REG_0 BPF_REG_0 0;
    BPF_EXIT_INSN];
  _errstr_unpriv "R0 invalid mem access 'inv'";
  _result_unpriv REJECT;
  _result ACCEPT;
  _retval 2].

Definition jmp32_23 : bpf_test := TEST "jsge32: BPF_K" [
  _insns
   [BPF_DIRECT_PKT_R2; BPF_LDX_MEM BPF_DW BPF_REG_7 BPF_REG_2 0;
    BPF_JMP32_IMM BPF_JSGE BPF_REG_7 (-1) 1; BPF_EXIT_INSN; BPF_ALU32_IMM BPF_MOV BPF_REG_0 2;
    BPF_EXIT_INSN];
  _prog_type BPF_PROG_TYPE_SCHED_CLS;
  _result ACCEPT;
  _runs 3;
  _retvals [run64 2 [0]; run64 2 [(-1)]; run64 0 [(-2)]];
  _flags F_NEEDS_EFFICIENT_UNALIGNED_ACCESS].

Definition jmp32_24 : bpf_test := TEST "jsge32: BPF_X" [
  _insns
   [BPF_DIRECT_PKT_R2; BPF_LD_IMM64 BPF_REG_8 ((u32 (-1)) .| (Z.shiftl 2 32));
    BPF_LDX_MEM BPF_DW BPF_REG_7 BPF_REG_2 0; BPF_JMP32_REG BPF_JSGE BPF_REG_7 BPF_REG_8 1;
    BPF_EXIT_INSN; BPF_ALU32_IMM BPF_MOV BPF_REG_0 2; BPF_EXIT_INSN];
  _prog_type BPF_PROG_TYPE_SCHED_CLS;
  _result ACCEPT;
  _runs 3;
  _retvals [run64 2 [(-1)]; run64 2 [(0x7fffffff .| (Z.shiftl 1 32))]; run64 0 [(-2)]];
  _flags F_NEEDS_EFFICIENT_UNALIGNED_ACCESS].

Definition jmp32_25 : bpf_test := TEST "jsge32: min/max deduction" [
  _insns
   [BPF_RAND_UEXT_R7; BPF_ALU32_IMM BPF_MOV BPF_REG_0 2;
    BPF_LD_IMM64 BPF_REG_8 (0x7ffffff0 .| (Z.shiftl 1 32));
    BPF_JMP32_REG BPF_JSGE BPF_REG_7 BPF_REG_8 1; BPF_EXIT_INSN;
    BPF_JMP_IMM BPF_JSGE BPF_REG_7 0x7ffffff0 1; BPF_LDX_MEM BPF_DW BPF_REG_0 BPF_REG_0 0;
    BPF_EXIT_INSN];
  _errstr_unpriv "R0 invalid mem access 'inv'";
  _result_unpriv REJECT;
  _result ACCEPT;
  _retval 2].

Definition jmp32_26 : bpf_test := TEST "jsgt32: BPF_K" [
  _insns
   [BPF_DIRECT_PKT_R2; BPF_LDX_MEM BPF_DW BPF_REG_7 BPF_REG_2 0;
    BPF_JMP32_IMM BPF_JSGT BPF_REG_7 (-1) 1; BPF_EXIT_INSN; BPF_ALU32_IMM BPF_MOV BPF_REG_0 2;
    BPF_EXIT_INSN];
  _prog_type BPF_PROG_TYPE_SCHED_CLS;
  _result ACCEPT;
  _runs 3;
  _retvals [run64 0 [(u32 (-2))]; run64 0 [(-1)]; run64 2 [1]];
  _flags F_NEEDS_EFFICIENT_UNALIGNED_ACCESS].

Definition jmp32_27 : bpf_test := TEST "jsgt32: BPF_X" [
  _insns
   [BPF_DIRECT_PKT_R2; BPF_LD_IMM64 BPF_REG_8 (0x7ffffffe .| (Z.shiftl 1 32));
    BPF_LDX_MEM BPF_DW BPF_REG_7 BPF_REG_2 0; BPF_JMP32_REG BPF_JSGT BPF_REG_7 BPF_REG_8 1;
    BPF_EXIT_INSN; BPF_ALU32_IMM BPF_MOV BPF_REG_0 2; BPF_EXIT_INSN];
  _prog_type BPF_PROG_TYPE_SCHED_CLS;
  _result ACCEPT;
  _runs 3;
  _retvals [run64 0 [0x7ffffffe]; run64 0 [0x1ffffffff]; run64 2 [0x7fffffff]];
  _flags F_NEEDS_EFFICIENT_UNALIGNED_ACCESS].

Definition jmp32_28 : bpf_test := TEST "jsgt32: min/max deduction" [
  _insns
   [BPF_RAND_SEXT_R7; BPF_ALU32_IMM BPF_MOV BPF_REG_0 2;
    BPF_LD_IMM64 BPF_REG_8 ((u32 (-2)) .| (Z.shiftl 1 32));
    BPF_JMP32_REG BPF_JSGT BPF_REG_7 BPF_REG_8 1; BPF_EXIT_INSN;
    BPF_JMP_IMM BPF_JSGT BPF_REG_7 (-2) 1; BPF_LDX_MEM BPF_DW BPF_REG_0 BPF_REG_0 0;
    BPF_EXIT_INSN];
  _errstr_unpriv "R0 invalid mem access 'inv'";
  _result_unpriv REJECT;
  _result ACCEPT;
  _retval 2].

Definition jmp32_29 : bpf_test := TEST "jsle32: BPF_K" [
  _insns
   [BPF_DIRECT_PKT_R2; BPF_LDX_MEM BPF_DW BPF_REG_7 BPF_REG_2 0;
    BPF_JMP32_IMM BPF_JSLE BPF_REG_7 (-1) 1; BPF_EXIT_INSN; BPF_ALU32_IMM BPF_MOV BPF_REG_0 2;
    BPF_EXIT_INSN];
  _prog_type BPF_PROG_TYPE_SCHED_CLS;
  _result ACCEPT;
  _runs 3;
  _retvals [run64 2 [(u32 (-2))]; run64 2 [(-1)]; run64 0 [1]];
  _flags F_NEEDS_EFFICIENT_UNALIGNED_ACCESS].

Definition jmp32_30 : bpf_test := TEST "jsle32: BPF_X" [
  _insns
   [BPF_DIRECT_PKT_R2; BPF_LD_IMM64 BPF_REG_8 (0x7ffffffe .| (Z.shiftl 1 32));
    BPF_LDX_MEM BPF_DW BPF_REG_7 BPF_REG_2 0; BPF_JMP32_REG BPF_JSLE BPF_REG_7 BPF_REG_8 1;
    BPF_EXIT_INSN; BPF_ALU32_IMM BPF_MOV BPF_REG_0 2; BPF_EXIT_INSN];
  _prog_type BPF_PROG_TYPE_SCHED_CLS;
  _result ACCEPT;
  _runs 3;
  _retvals [run64 2 [0x7ffffffe]; run64 2 [(u32 (-1))]; run64 0 [(0x7fffffff .| (Z.shiftl 2 32))]];
  _flags F_NEEDS_EFFICIENT_UNALIGNED_ACCESS].

Definition jmp32_31 : bpf_test := TEST "jsle32: min/max deduction" [
  _insns
   [BPF_RAND_UEXT_R7; BPF_ALU32_IMM BPF_MOV BPF_REG_0 2;
    BPF_LD_IMM64 BPF_REG_8 (0x7ffffff0 .| (Z.shiftl 1 32));
    BPF_JMP32_REG BPF_JSLE BPF_REG_7 BPF_REG_8 1; BPF_EXIT_INSN;
    BPF_JMP_IMM BPF_JSLE BPF_REG_7 0x7ffffff0 1; BPF_LDX_MEM BPF_DW BPF_REG_0 BPF_REG_0 0;
    BPF_EXIT_INSN];
  _errstr_unpriv "R0 invalid mem access 'inv'";
  _result_unpriv REJECT;
  _result ACCEPT;
  _retval 2].

Definition jmp32_32 : bpf_test := TEST "jslt32: BPF_K" [
  _insns
   [BPF_DIRECT_PKT_R2; BPF_LDX_MEM BPF_DW BPF_REG_7 BPF_REG_2 0;
    BPF_JMP32_IMM BPF_JSLT BPF_REG_7 (-1) 1; BPF_EXIT_INSN; BPF_ALU32_IMM BPF_MOV BPF_REG_0 2;
    BPF_EXIT_INSN];
  _prog_type BPF_PROG_TYPE_SCHED_CLS;
  _result ACCEPT;
  _runs 3;
  _retvals [run64 2 [(u32 (-2))]; run64 0 [(-1)]; run64 0 [1]];
  _flags F_NEEDS_EFFICIENT_UNALIGNED_ACCESS].

Definition jmp32_33 : bpf_test := TEST "jslt32: BPF_X" [
  _insns
   [BPF_DIRECT_PKT_R2; BPF_LD_IMM64 BPF_REG_8 (0x7fffffff .| (Z.shiftl 1 32));
    BPF_LDX_MEM BPF_DW BPF_REG_7 BPF_REG_2 0; BPF_JMP32_REG BPF_JSLT BPF_REG_7 BPF_REG_8 1;
    BPF_EXIT_INSN; BPF_ALU32_IMM BPF_MOV BPF_REG_0 2; BPF_EXIT_INSN];
  _prog_type BPF_PROG_TYPE_SCHED_CLS;
  _result ACCEPT;
  _runs 3;
  _retvals [run64 2 [0x7ffffffe]; run64 2 [0xffffffff]; run64 0 [(0x7fffffff .| (Z.shiftl 2 32))]];
  _flags F_NEEDS_EFFICIENT_UNALIGNED_ACCESS].

Definition jmp32_34 : bpf_test := TEST "jslt32: min/max deduction" [
  _insns
   [BPF_RAND_SEXT_R7; BPF_ALU32_IMM BPF_MOV BPF_REG_0 2;
    BPF_LD_IMM64 BPF_REG_8 ((u32 (-1)) .| (Z.shiftl 1 32));
    BPF_JMP32_REG BPF_JSLT BPF_REG_7 BPF_REG_8 1; BPF_EXIT_INSN;
    BPF_JMP32_IMM BPF_JSLT BPF_REG_7 (-1) 1; BPF_LDX_MEM BPF_DW BPF_REG_0 BPF_REG_0 0;
    BPF_EXIT_INSN];
  _errstr_unpriv "R0 invalid mem access 'inv'";
  _result_unpriv REJECT;
  _result ACCEPT;
  _retval 2].

Definition jmp32_35 : bpf_test := TEST "jgt32: range bound deduction, reg op imm" [
  _insns
   [BPF_ST_MEM BPF_DW BPF_REG_10 (-8) 0; BPF_MOV64_REG BPF_REG_8 BPF_REG_1;
    BPF_MOV64_REG BPF_REG_2 BPF_REG_10; BPF_ALU64_IMM BPF_ADD BPF_REG_2 (-8);
    BPF_LD_MAP_FD BPF_REG_1 0;
    BPF_RAW_INSN (BPF_JMP .| BPF_CALL) 0 0 0 BPF_FUNC_map_lookup_elem;
    BPF_JMP_IMM BPF_JEQ BPF_REG_0 0 9; BPF_MOV64_REG BPF_REG_1 BPF_REG_8;
    BPF_MOV64_REG BPF_REG_8 BPF_REG_0; BPF_EMIT_CALL BPF_FUNC_get_cgroup_classid;
    BPF_JMP32_IMM BPF_JGT BPF_REG_0 1 5; BPF_MOV32_REG BPF_REG_6 BPF_REG_0;
    BPF_ALU64_IMM BPF_LSH BPF_REG_6 32; BPF_ALU64_IMM BPF_RSH BPF_REG_6 32;
    BPF_ALU64_REG BPF_ADD BPF_REG_8 BPF_REG_6; BPF_ST_MEM BPF_B BPF_REG_8 0 0;
    BPF_MOV32_IMM BPF_REG_0 0; BPF_EXIT_INSN];
  _prog_type BPF_PROG_TYPE_SCHED_CLS;
  _fixup fixup_map_hash_48b [4];
  _result ACCEPT;
  _flags F_NEEDS_EFFICIENT_UNALIGNED_ACCESS].

Definition jmp32_36 : bpf_test := TEST "jgt32: range bound deduction, reg1 op reg2, reg1 unknown" [
  _insns
   [BPF_ST_MEM BPF_DW BPF_REG_10 (-8) 0; BPF_MOV64_REG BPF_REG_8 BPF_REG_1;
    BPF_MOV64_REG BPF_REG_2 BPF_REG_10; BPF_ALU64_IMM BPF_ADD BPF_REG_2 (-8);
    BPF_LD_MAP_FD BPF_REG_1 0;
    BPF_RAW_INSN (BPF_JMP .| BPF_CALL) 0 0 0 BPF_FUNC_map_lookup_elem;
    BPF_JMP_IMM BPF_JEQ BPF_REG_0 0 10; BPF_MOV64_REG BPF_REG_1 BPF_REG_8;
    BPF_MOV64_REG BPF_REG_8 BPF_REG_0; BPF_EMIT_CALL BPF_FUNC_get_cgroup_classid;
    BPF_MOV32_IMM BPF_REG_2 1; BPF_JMP32_REG BPF_JGT BPF_REG_0 BPF_REG_2 5;
    BPF_MOV32_REG BPF_REG_6 BPF_REG_0; BPF_ALU64_IMM BPF_LSH BPF_REG_6 32;
    BPF_ALU64_IMM BPF_RSH BPF_REG_6 32; BPF_ALU64_REG BPF_ADD BPF_REG_8 BPF_REG_6;
    BPF_ST_MEM BPF_B BPF_REG_8 0 0; BPF_MOV32_IMM BPF_REG_0 0; BPF_EXIT_INSN];
  _prog_type BPF_PROG_TYPE_SCHED_CLS;
  _fixup fixup_map_hash_48b [4];
  _result ACCEPT;
  _flags F_NEEDS_EFFICIENT_UNALIGNED_ACCESS].

Definition jmp32_37 : bpf_test := TEST "jle32: range bound deduction, reg1 op reg2, reg2 unknown" [
  _insns
   [BPF_ST_MEM BPF_DW BPF_REG_10 (-8) 0; BPF_MOV64_REG BPF_REG_8 BPF_REG_1;
    BPF_MOV64_REG BPF_REG_2 BPF_REG_10; BPF_ALU64_IMM BPF_ADD BPF_REG_2 (-8);
    BPF_LD_MAP_FD BPF_REG_1 0;
    BPF_RAW_INSN (BPF_JMP .| BPF_CALL) 0 0 0 BPF_FUNC_map_lookup_elem;
    BPF_JMP_IMM BPF_JEQ BPF_REG_0 0 10; BPF_MOV64_REG BPF_REG_1 BPF_REG_8;
    BPF_MOV64_REG BPF_REG_8 BPF_REG_0; BPF_EMIT_CALL BPF_FUNC_get_cgroup_classid;
    BPF_MOV32_IMM BPF_REG_2 1; BPF_JMP32_REG BPF_JLE BPF_REG_2 BPF_REG_0 5;
    BPF_MOV32_REG BPF_REG_6 BPF_REG_0; BPF_ALU64_IMM BPF_LSH BPF_REG_6 32;
    BPF_ALU64_IMM BPF_RSH BPF_REG_6 32; BPF_ALU64_REG BPF_ADD BPF_REG_8 BPF_REG_6;
    BPF_ST_MEM BPF_B BPF_REG_8 0 0; BPF_MOV32_IMM BPF_REG_0 0; BPF_EXIT_INSN];
  _prog_type BPF_PROG_TYPE_SCHED_CLS;
  _fixup fixup_map_hash_48b [4];
  _result ACCEPT;
  _flags F_NEEDS_EFFICIENT_UNALIGNED_ACCESS].

Definition jmp32_tests : list bpf_test := [jmp32_1; jmp32_2; jmp32_3; jmp32_4; jmp32_5; jmp32_6;
  jmp32_7; jmp32_8; jmp32_9; jmp32_10; jmp32_11; jmp32_12; jmp32_13; jmp32_14; jmp32_15; jmp32_16;
  jmp32_17; jmp32_18; jmp32_19; jmp32_20; jmp32_21; jmp32_22; jmp32_23; jmp32_24; jmp32_25;
  jmp32_26; jmp32_27; jmp32_28; jmp32_29; jmp32_30; jmp32_31; jmp32_32; jmp32_33; jmp32_34;
  jmp32_35; jmp32_36; jmp32_37].

(** * [jset.c] *)

Definition jset_1 : bpf_test := TEST "jset: functional" [
  _insns
   [BPF_DIRECT_PKT_R2; BPF_LDX_MEM BPF_DW BPF_REG_7 BPF_REG_2 0;
    BPF_LD_IMM64 BPF_REG_8 0x8000000000000001; BPF_JMP_REG BPF_JSET BPF_REG_7 BPF_REG_8 1;
    BPF_EXIT_INSN; BPF_LD_IMM64 BPF_REG_8 0x4000000000000000;
    BPF_JMP_REG BPF_JSET BPF_REG_7 BPF_REG_8 1; BPF_JMP_IMM BPF_JA 0 0 1; BPF_EXIT_INSN;
    BPF_JMP_IMM BPF_JSET BPF_REG_7 (-1) 1; BPF_EXIT_INSN;
    BPF_JMP_IMM BPF_JSET BPF_REG_7 0x80000000 1; BPF_EXIT_INSN; BPF_MOV64_IMM BPF_REG_0 2;
    BPF_EXIT_INSN];
  _prog_type BPF_PROG_TYPE_SCHED_CLS;
  _result ACCEPT;
  _runs 7;
  _retvals [run64 2 [(((Z.shiftl 1 63) .| (Z.shiftl 1 31)) .| (Z.shiftl 1 0))]; run64 2 [((Z.shiftl 1
   63) .| (Z.shiftl 1 31))]; run64 2 [((Z.shiftl 1 31) .| (Z.shiftl 1 0))]; run64 2 [(u32 (-1))];
   run64 2 [(Z.lnot 0x4000000000000000)]; run64 0 [0]; run64 0 [(Z.lnot 0)]];
  _flags F_NEEDS_EFFICIENT_UNALIGNED_ACCESS].

Definition jset_2 : bpf_test := TEST "jset: sign-extend" [
  _insns
   [BPF_DIRECT_PKT_R2; BPF_LDX_MEM BPF_DW BPF_REG_7 BPF_REG_2 0;
    BPF_JMP_IMM BPF_JSET BPF_REG_7 0x80000000 1; BPF_EXIT_INSN; BPF_MOV64_IMM BPF_REG_0 2;
    BPF_EXIT_INSN];
  _prog_type BPF_PROG_TYPE_SCHED_CLS;
  _result ACCEPT;
  _retval 2;
  _data [1; 0; 0; 0; 0; 0; 0; 1];
  _flags F_NEEDS_EFFICIENT_UNALIGNED_ACCESS].

Definition jset_3 : bpf_test := TEST "jset: known const compare" [
  _insns
   [BPF_MOV64_IMM BPF_REG_0 1; BPF_JMP_IMM BPF_JSET BPF_REG_0 1 1;
    BPF_LDX_MEM BPF_B BPF_REG_8 BPF_REG_9 0; BPF_EXIT_INSN];
  _prog_type BPF_PROG_TYPE_SOCKET_FILTER;
  _errstr_unpriv "R9 !read_ok";
  _result_unpriv REJECT;
  _retval 1;
  _result ACCEPT].

Definition jset_4 : bpf_test := TEST "jset: known const compare bad" [
  _insns
   [BPF_MOV64_IMM BPF_REG_0 0; BPF_JMP_IMM BPF_JSET BPF_REG_0 1 1;
    BPF_LDX_MEM BPF_B BPF_REG_8 BPF_REG_9 0; BPF_EXIT_INSN];
  _prog_type BPF_PROG_TYPE_SOCKET_FILTER;
  _errstr_unpriv "!read_ok";
  _result_unpriv REJECT;
  _errstr "!read_ok";
  _result REJECT].

Definition jset_5 : bpf_test := TEST "jset: unknown const compare taken" [
  _insns
   [BPF_RAW_INSN (BPF_JMP .| BPF_CALL) 0 0 0 BPF_FUNC_get_prandom_u32;
    BPF_JMP_IMM BPF_JSET BPF_REG_0 1 1; BPF_JMP_IMM BPF_JA 0 0 1;
    BPF_LDX_MEM BPF_B BPF_REG_8 BPF_REG_9 0; BPF_EXIT_INSN];
  _prog_type BPF_PROG_TYPE_SOCKET_FILTER;
  _errstr_unpriv "!read_ok";
  _result_unpriv REJECT;
  _errstr "!read_ok";
  _result REJECT].

Definition jset_6 : bpf_test := TEST "jset: unknown const compare not taken" [
  _insns
   [BPF_RAW_INSN (BPF_JMP .| BPF_CALL) 0 0 0 BPF_FUNC_get_prandom_u32;
    BPF_JMP_IMM BPF_JSET BPF_REG_0 1 1; BPF_LDX_MEM BPF_B BPF_REG_8 BPF_REG_9 0; BPF_EXIT_INSN];
  _prog_type BPF_PROG_TYPE_SOCKET_FILTER;
  _errstr_unpriv "!read_ok";
  _result_unpriv REJECT;
  _errstr "!read_ok";
  _result REJECT].

Definition jset_7 : bpf_test := TEST "jset: half-known const compare" [
  _insns
   [BPF_RAW_INSN (BPF_JMP .| BPF_CALL) 0 0 0 BPF_FUNC_get_prandom_u32;
    BPF_ALU64_IMM BPF_OR BPF_REG_0 2; BPF_JMP_IMM BPF_JSET BPF_REG_0 3 1;
    BPF_LDX_MEM BPF_B BPF_REG_8 BPF_REG_9 0; BPF_MOV64_IMM BPF_REG_0 0; BPF_EXIT_INSN];
  _prog_type BPF_PROG_TYPE_SOCKET_FILTER;
  _errstr_unpriv "R9 !read_ok";
  _result_unpriv REJECT;
  _result ACCEPT].

Definition jset_8 : bpf_test := TEST "jset: range" [
  _insns
   [BPF_RAW_INSN (BPF_JMP .| BPF_CALL) 0 0 0 BPF_FUNC_get_prandom_u32;
    BPF_MOV64_REG BPF_REG_1 BPF_REG_0; BPF_MOV64_IMM BPF_REG_0 0;
    BPF_ALU64_IMM BPF_AND BPF_REG_1 0xff; BPF_JMP_IMM BPF_JSET BPF_REG_1 0xf0 3;
    BPF_JMP_IMM BPF_JLT BPF_REG_1 0x10 1; BPF_LDX_MEM BPF_B BPF_REG_8 BPF_REG_9 0;
    BPF_EXIT_INSN; BPF_JMP_IMM BPF_JSET BPF_REG_1 0x10 1; BPF_EXIT_INSN;
    BPF_JMP_IMM BPF_JGE BPF_REG_1 0x10 1; BPF_LDX_MEM BPF_B BPF_REG_8 BPF_REG_9 0;
    BPF_EXIT_INSN];
  _prog_type BPF_PROG_TYPE_SOCKET_FILTER;
  _errstr_unpriv "R9 !read_ok";
  _result_unpriv REJECT;
  _result ACCEPT].

Definition jset_tests : list bpf_test := [jset_1; jset_2; jset_3; jset_4; jset_5; jset_6; jset_7;
  jset_8].

(** * [jump.c] *)

Definition jump_1 : bpf_test := TEST "jump test 1" [
  _insns
   [BPF_MOV64_REG BPF_REG_2 BPF_REG_10; BPF_STX_MEM BPF_DW BPF_REG_2 BPF_REG_1 (-8);
    BPF_JMP_IMM BPF_JEQ BPF_REG_1 0 1; BPF_ST_MEM BPF_DW BPF_REG_2 (-8) 0;
    BPF_JMP_IMM BPF_JEQ BPF_REG_1 1 1; BPF_ST_MEM BPF_DW BPF_REG_2 (-16) 1;
    BPF_JMP_IMM BPF_JEQ BPF_REG_1 2 1; BPF_ST_MEM BPF_DW BPF_REG_2 (-8) 2;
    BPF_JMP_IMM BPF_JEQ BPF_REG_1 3 1; BPF_ST_MEM BPF_DW BPF_REG_2 (-16) 3;
    BPF_JMP_IMM BPF_JEQ BPF_REG_1 4 1; BPF_ST_MEM BPF_DW BPF_REG_2 (-8) 4;
    BPF_JMP_IMM BPF_JEQ BPF_REG_1 5 1; BPF_ST_MEM BPF_DW BPF_REG_2 (-32) 5;
    BPF_MOV64_IMM BPF_REG_0 0; BPF_EXIT_INSN];
  _errstr_unpriv "R1 pointer comparison";
  _result_unpriv REJECT;
  _result ACCEPT].

Definition jump_2 : bpf_test := TEST "jump test 2" [
  _insns
   [BPF_MOV64_REG BPF_REG_2 BPF_REG_10; BPF_JMP_IMM BPF_JEQ BPF_REG_1 0 2;
    BPF_ST_MEM BPF_DW BPF_REG_2 (-8) 0; BPF_JMP_IMM BPF_JA 0 0 14;
    BPF_JMP_IMM BPF_JEQ BPF_REG_1 1 2; BPF_ST_MEM BPF_DW BPF_REG_2 (-16) 0;
    BPF_JMP_IMM BPF_JA 0 0 11; BPF_JMP_IMM BPF_JEQ BPF_REG_1 2 2;
    BPF_ST_MEM BPF_DW BPF_REG_2 (-32) 0; BPF_JMP_IMM BPF_JA 0 0 8;
    BPF_JMP_IMM BPF_JEQ BPF_REG_1 3 2; BPF_ST_MEM BPF_DW BPF_REG_2 (-40) 0;
    BPF_JMP_IMM BPF_JA 0 0 5; BPF_JMP_IMM BPF_JEQ BPF_REG_1 4 2;
    BPF_ST_MEM BPF_DW BPF_REG_2 (-48) 0; BPF_JMP_IMM BPF_JA 0 0 2;
    BPF_JMP_IMM BPF_JEQ BPF_REG_1 5 1; BPF_ST_MEM BPF_DW BPF_REG_2 (-56) 0;
    BPF_MOV64_IMM BPF_REG_0 0; BPF_EXIT_INSN];
  _errstr_unpriv "R1 pointer comparison";
  _result_unpriv REJECT;
  _result ACCEPT].

Definition jump_3 : bpf_test := TEST "jump test 3" [
  _insns
   [BPF_MOV64_REG BPF_REG_2 BPF_REG_10; BPF_JMP_IMM BPF_JEQ BPF_REG_1 0 3;
    BPF_ST_MEM BPF_DW BPF_REG_2 (-8) 0; BPF_ALU64_IMM BPF_ADD BPF_REG_2 (-8);
    BPF_JMP_IMM BPF_JA 0 0 19; BPF_JMP_IMM BPF_JEQ BPF_REG_1 1 3;
    BPF_ST_MEM BPF_DW BPF_REG_2 (-16) 0; BPF_ALU64_IMM BPF_ADD BPF_REG_2 (-16);
    BPF_JMP_IMM BPF_JA 0 0 15; BPF_JMP_IMM BPF_JEQ BPF_REG_1 2 3;
    BPF_ST_MEM BPF_DW BPF_REG_2 (-32) 0; BPF_ALU64_IMM BPF_ADD BPF_REG_2 (-32);
    BPF_JMP_IMM BPF_JA 0 0 11; BPF_JMP_IMM BPF_JEQ BPF_REG_1 3 3;
    BPF_ST_MEM BPF_DW BPF_REG_2 (-40) 0; BPF_ALU64_IMM BPF_ADD BPF_REG_2 (-40);
    BPF_JMP_IMM BPF_JA 0 0 7; BPF_JMP_IMM BPF_JEQ BPF_REG_1 4 3;
    BPF_ST_MEM BPF_DW BPF_REG_2 (-48) 0; BPF_ALU64_IMM BPF_ADD BPF_REG_2 (-48);
    BPF_JMP_IMM BPF_JA 0 0 3; BPF_JMP_IMM BPF_JEQ BPF_REG_1 5 0;
    BPF_ST_MEM BPF_DW BPF_REG_2 (-56) 0; BPF_ALU64_IMM BPF_ADD BPF_REG_2 (-56);
    BPF_LD_MAP_FD BPF_REG_1 0;
    BPF_RAW_INSN (BPF_JMP .| BPF_CALL) 0 0 0 BPF_FUNC_map_delete_elem; BPF_EXIT_INSN];
  _fixup fixup_map_hash_8b [24];
  _errstr_unpriv "R1 pointer comparison";
  _result_unpriv REJECT;
  _result ACCEPT;
  _retval (-2)].

Definition jump_4 : bpf_test := TEST "jump test 4" [
  _insns
   [BPF_JMP_IMM BPF_JEQ BPF_REG_1 BPF_REG_10 1; BPF_JMP_IMM BPF_JEQ BPF_REG_1 BPF_REG_10 2;
    BPF_JMP_IMM BPF_JEQ BPF_REG_1 BPF_REG_10 3; BPF_JMP_IMM BPF_JEQ BPF_REG_1 BPF_REG_10 4;
    BPF_JMP_IMM BPF_JEQ BPF_REG_1 BPF_REG_10 1; BPF_JMP_IMM BPF_JEQ BPF_REG_1 BPF_REG_10 2;
    BPF_JMP_IMM BPF_JEQ BPF_REG_1 BPF_REG_10 3; BPF_JMP_IMM BPF_JEQ BPF_REG_1 BPF_REG_10 4;
    BPF_JMP_IMM BPF_JEQ BPF_REG_1 BPF_REG_10 1; BPF_JMP_IMM BPF_JEQ BPF_REG_1 BPF_REG_10 2;
    BPF_JMP_IMM BPF_JEQ BPF_REG_1 BPF_REG_10 3; BPF_JMP_IMM BPF_JEQ BPF_REG_1 BPF_REG_10 4;
    BPF_JMP_IMM BPF_JEQ BPF_REG_1 BPF_REG_10 1; BPF_JMP_IMM BPF_JEQ BPF_REG_1 BPF_REG_10 2;
    BPF_JMP_IMM BPF_JEQ BPF_REG_1 BPF_REG_10 3; BPF_JMP_IMM BPF_JEQ BPF_REG_1 BPF_REG_10 4;
    BPF_JMP_IMM BPF_JEQ BPF_REG_1 BPF_REG_10 1; BPF_JMP_IMM BPF_JEQ BPF_REG_1 BPF_REG_10 2;
    BPF_JMP_IMM BPF_JEQ BPF_REG_1 BPF_REG_10 3; BPF_JMP_IMM BPF_JEQ BPF_REG_1 BPF_REG_10 4;
    BPF_JMP_IMM BPF_JEQ BPF_REG_1 BPF_REG_10 1; BPF_JMP_IMM BPF_JEQ BPF_REG_1 BPF_REG_10 2;
    BPF_JMP_IMM BPF_JEQ BPF_REG_1 BPF_REG_10 3; BPF_JMP_IMM BPF_JEQ BPF_REG_1 BPF_REG_10 4;
    BPF_JMP_IMM BPF_JEQ BPF_REG_1 BPF_REG_10 1; BPF_JMP_IMM BPF_JEQ BPF_REG_1 BPF_REG_10 2;
    BPF_JMP_IMM BPF_JEQ BPF_REG_1 BPF_REG_10 3; BPF_JMP_IMM BPF_JEQ BPF_REG_1 BPF_REG_10 4;
    BPF_JMP_IMM BPF_JEQ BPF_REG_1 BPF_REG_10 1; BPF_JMP_IMM BPF_JEQ BPF_REG_1 BPF_REG_10 2;
    BPF_JMP_IMM BPF_JEQ BPF_REG_1 BPF_REG_10 3; BPF_JMP_IMM BPF_JEQ BPF_REG_1 BPF_REG_10 4;
    BPF_JMP_IMM BPF_JEQ BPF_REG_1 BPF_REG_10 1; BPF_JMP_IMM BPF_JEQ BPF_REG_1 BPF_REG_10 2;
    BPF_JMP_IMM BPF_JEQ BPF_REG_1 BPF_REG_10 3; BPF_JMP_IMM BPF_JEQ BPF_REG_1 BPF_REG_10 4;
    BPF_JMP_IMM BPF_JEQ BPF_REG_1 BPF_REG_10 0; BPF_JMP_IMM BPF_JEQ BPF_REG_1 BPF_REG_10 0;
    BPF_JMP_IMM BPF_JEQ BPF_REG_1 BPF_REG_10 0; BPF_JMP_IMM BPF_JEQ BPF_REG_1 BPF_REG_10 0;
    BPF_MOV64_IMM BPF_REG_0 0; BPF_EXIT_INSN];
  _errstr_unpriv "R1 pointer comparison";
  _result_unpriv REJECT;
  _result ACCEPT].

Definition jump_5 : bpf_test := TEST "jump test 5" [
  _insns
   [BPF_MOV64_REG BPF_REG_2 BPF_REG_10; BPF_MOV64_REG BPF_REG_3 BPF_REG_2;
    BPF_JMP_IMM BPF_JGE BPF_REG_1 0 2; BPF_STX_MEM BPF_DW BPF_REG_2 BPF_REG_3 (-8);
    BPF_JMP_IMM BPF_JA 0 0 2; BPF_STX_MEM BPF_DW BPF_REG_2 BPF_REG_2 (-8);
    BPF_JMP_IMM BPF_JA 0 0 0; BPF_MOV64_IMM BPF_REG_0 0; BPF_JMP_IMM BPF_JGE BPF_REG_1 0 2;
    BPF_STX_MEM BPF_DW BPF_REG_2 BPF_REG_3 (-8); BPF_JMP_IMM BPF_JA 0 0 2;
    BPF_STX_MEM BPF_DW BPF_REG_2 BPF_REG_2 (-8); BPF_JMP_IMM BPF_JA 0 0 0;
    BPF_MOV64_IMM BPF_REG_0 0; BPF_JMP_IMM BPF_JGE BPF_REG_1 0 2;
    BPF_STX_MEM BPF_DW BPF_REG_2 BPF_REG_3 (-8); BPF_JMP_IMM BPF_JA 0 0 2;
    BPF_STX_MEM BPF_DW BPF_REG_2 BPF_REG_2 (-8); BPF_JMP_IMM BPF_JA 0 0 0;
    BPF_MOV64_IMM BPF_REG_0 0; BPF_JMP_IMM BPF_JGE BPF_REG_1 0 2;
    BPF_STX_MEM BPF_DW BPF_REG_2 BPF_REG_3 (-8); BPF_JMP_IMM BPF_JA 0 0 2;
    BPF_STX_MEM BPF_DW BPF_REG_2 BPF_REG_2 (-8); BPF_JMP_IMM BPF_JA 0 0 0;
    BPF_MOV64_IMM BPF_REG_0 0; BPF_JMP_IMM BPF_JGE BPF_REG_1 0 2;
    BPF_STX_MEM BPF_DW BPF_REG_2 BPF_REG_3 (-8); BPF_JMP_IMM BPF_JA 0 0 2;
    BPF_STX_MEM BPF_DW BPF_REG_2 BPF_REG_2 (-8); BPF_JMP_IMM BPF_JA 0 0 0;
    BPF_MOV64_IMM BPF_REG_0 0; BPF_EXIT_INSN];
  _errstr_unpriv "R1 pointer comparison";
  _result_unpriv REJECT;
  _result ACCEPT].

Definition jump_6 : bpf_test := TEST "jump test 6" [
  _insns
   [BPF_MOV64_IMM BPF_REG_0 1; BPF_MOV64_IMM BPF_REG_1 2; BPF_JMP_IMM BPF_JA 0 0 2;
    BPF_MOV64_IMM BPF_REG_0 2; BPF_EXIT_INSN; BPF_JMP_REG BPF_JNE BPF_REG_0 BPF_REG_1 16;
    BPF_JMP_IMM BPF_JA 0 0 0; BPF_JMP_IMM BPF_JA 0 0 0; BPF_JMP_IMM BPF_JA 0 0 0;
    BPF_JMP_IMM BPF_JA 0 0 0; BPF_JMP_IMM BPF_JA 0 0 0; BPF_JMP_IMM BPF_JA 0 0 0;
    BPF_JMP_IMM BPF_JA 0 0 0; BPF_JMP_IMM BPF_JA 0 0 0; BPF_JMP_IMM BPF_JA 0 0 0;
    BPF_JMP_IMM BPF_JA 0 0 0; BPF_JMP_IMM BPF_JA 0 0 0; BPF_JMP_IMM BPF_JA 0 0 0;
    BPF_JMP_IMM BPF_JA 0 0 0; BPF_JMP_IMM BPF_JA 0 0 0; BPF_JMP_IMM BPF_JA 0 0 0;
    BPF_JMP_IMM BPF_JA 0 0 0; BPF_JMP_IMM BPF_JA 0 0 (-20)];
  _result ACCEPT;
  _retval 2].

Definition jump_7 : bpf_test := TEST "jump test 7" [
  _insns
   [BPF_MOV64_IMM BPF_REG_0 1; BPF_JMP_IMM BPF_JA 0 0 2; BPF_MOV64_IMM BPF_REG_0 3;
    BPF_EXIT_INSN; BPF_JMP_IMM BPF_JNE BPF_REG_0 2 16; BPF_MOV64_IMM BPF_REG_0 42;
    BPF_MOV64_IMM BPF_REG_0 42; BPF_MOV64_IMM BPF_REG_0 42; BPF_MOV64_IMM BPF_REG_0 42;
    BPF_MOV64_IMM BPF_REG_0 42; BPF_MOV64_IMM BPF_REG_0 42; BPF_MOV64_IMM BPF_REG_0 42;
    BPF_MOV64_IMM BPF_REG_0 42; BPF_MOV64_IMM BPF_REG_0 42; BPF_MOV64_IMM BPF_REG_0 42;
    BPF_MOV64_IMM BPF_REG_0 42; BPF_MOV64_IMM BPF_REG_0 42; BPF_MOV64_IMM BPF_REG_0 42;
    BPF_MOV64_IMM BPF_REG_0 42; BPF_MOV64_IMM BPF_REG_0 42; BPF_MOV64_IMM BPF_REG_0 42;
    BPF_JMP_IMM BPF_JA 0 0 (-20)];
  _result ACCEPT;
  _retval 3].

Definition jump_8 : bpf_test := TEST "jump test 8" [
  _insns
   [BPF_MOV64_IMM BPF_REG_0 1; BPF_MOV64_IMM BPF_REG_1 2; BPF_JMP_IMM BPF_JA 0 0 2;
    BPF_MOV64_IMM BPF_REG_0 3; BPF_EXIT_INSN; BPF_JMP_REG BPF_JNE BPF_REG_0 BPF_REG_1 16;
    BPF_MOV64_IMM BPF_REG_0 42; BPF_MOV64_IMM BPF_REG_0 42; BPF_MOV64_IMM BPF_REG_0 42;
    BPF_MOV64_IMM BPF_REG_0 42; BPF_MOV64_IMM BPF_REG_0 42; BPF_MOV64_IMM BPF_REG_0 42;
    BPF_MOV64_IMM BPF_REG_0 42; BPF_MOV64_IMM BPF_REG_0 42; BPF_MOV64_IMM BPF_REG_0 42;
    BPF_MOV64_IMM BPF_REG_0 42; BPF_MOV64_IMM BPF_REG_0 42; BPF_MOV64_IMM BPF_REG_0 42;
    BPF_MOV64_IMM BPF_REG_0 42; BPF_MOV64_IMM BPF_REG_0 42; BPF_MOV64_IMM BPF_REG_0 42;
    BPF_MOV64_IMM BPF_REG_0 42; BPF_JMP_IMM BPF_JA 0 0 (-20)];
  _result ACCEPT;
  _retval 3].

Definition jump_9 : bpf_test := TEST "jump/call test 9" [
  _insns
   [BPF_MOV64_IMM BPF_REG_0 1; BPF_JMP_IMM BPF_JA 0 0 2; BPF_MOV64_IMM BPF_REG_0 3;
    BPF_EXIT_INSN; BPF_JMP_IMM BPF_JNE BPF_REG_0 2 16; BPF_MOV64_IMM BPF_REG_0 42;
    BPF_MOV64_IMM BPF_REG_0 42; BPF_MOV64_IMM BPF_REG_0 42; BPF_MOV64_IMM BPF_REG_0 42;
    BPF_MOV64_IMM BPF_REG_0 42; BPF_MOV64_IMM BPF_REG_0 42; BPF_MOV64_IMM BPF_REG_0 42;
    BPF_MOV64_IMM BPF_REG_0 42; BPF_MOV64_IMM BPF_REG_0 42; BPF_MOV64_IMM BPF_REG_0 42;
    BPF_MOV64_IMM BPF_REG_0 42; BPF_MOV64_IMM BPF_REG_0 42; BPF_MOV64_IMM BPF_REG_0 42;
    BPF_MOV64_IMM BPF_REG_0 42; BPF_MOV64_IMM BPF_REG_0 42; BPF_MOV64_IMM BPF_REG_0 42;
    BPF_RAW_INSN (BPF_JMP .| BPF_CALL) 0 1 0 (-20); BPF_EXIT_INSN];
  _prog_type BPF_PROG_TYPE_SCHED_CLS;
  _result REJECT;
  _errstr "jump out of range from insn 1 to 4"].

Definition jump_10 : bpf_test := TEST "jump/call test 10" [
  _insns
   [BPF_MOV64_IMM BPF_REG_0 1; BPF_RAW_INSN (BPF_JMP .| BPF_CALL) 0 1 0 2;
    BPF_MOV64_IMM BPF_REG_0 3; BPF_EXIT_INSN; BPF_JMP_IMM BPF_JNE BPF_REG_0 2 16;
    BPF_MOV64_IMM BPF_REG_0 42; BPF_MOV64_IMM BPF_REG_0 42; BPF_MOV64_IMM BPF_REG_0 42;
    BPF_MOV64_IMM BPF_REG_0 42; BPF_MOV64_IMM BPF_REG_0 42; BPF_MOV64_IMM BPF_REG_0 42;
    BPF_MOV64_IMM BPF_REG_0 42; BPF_MOV64_IMM BPF_REG_0 42; BPF_MOV64_IMM BPF_REG_0 42;
    BPF_MOV64_IMM BPF_REG_0 42; BPF_MOV64_IMM BPF_REG_0 42; BPF_MOV64_IMM BPF_REG_0 42;
    BPF_MOV64_IMM BPF_REG_0 42; BPF_MOV64_IMM BPF_REG_0 42; BPF_MOV64_IMM BPF_REG_0 42;
    BPF_MOV64_IMM BPF_REG_0 42; BPF_RAW_INSN (BPF_JMP .| BPF_CALL) 0 1 0 (-20); BPF_EXIT_INSN];
  _prog_type BPF_PROG_TYPE_SCHED_CLS;
  _result REJECT;
  _errstr "last insn is not an exit or jmp"].

Definition jump_11 : bpf_test := TEST "jump/call test 11" [
  _insns
   [BPF_MOV64_IMM BPF_REG_0 1; BPF_RAW_INSN (BPF_JMP .| BPF_CALL) 0 1 0 4;
    BPF_MOV64_IMM BPF_REG_0 3; BPF_EXIT_INSN; BPF_MOV64_IMM BPF_REG_0 3; BPF_EXIT_INSN;
    BPF_MOV64_IMM BPF_REG_0 1; BPF_JMP_IMM BPF_JNE BPF_REG_0 2 26; BPF_MOV64_IMM BPF_REG_0 42;
    BPF_MOV64_IMM BPF_REG_0 42; BPF_MOV64_IMM BPF_REG_0 42; BPF_MOV64_IMM BPF_REG_0 42;
    BPF_MOV64_IMM BPF_REG_0 42; BPF_MOV64_IMM BPF_REG_0 42; BPF_MOV64_IMM BPF_REG_0 42;
    BPF_MOV64_IMM BPF_REG_0 42; BPF_MOV64_IMM BPF_REG_0 42; BPF_MOV64_IMM BPF_REG_0 42;
    BPF_MOV64_IMM BPF_REG_0 42; BPF_MOV64_IMM BPF_REG_0 42; BPF_MOV64_IMM BPF_REG_0 42;
    BPF_MOV64_IMM BPF_REG_0 42; BPF_MOV64_IMM BPF_REG_0 42; BPF_MOV64_IMM BPF_REG_0 42;
    BPF_MOV64_IMM BPF_REG_0 42; BPF_MOV64_IMM BPF_REG_0 42; BPF_MOV64_IMM BPF_REG_0 42;
    BPF_MOV64_IMM BPF_REG_0 42; BPF_MOV64_IMM BPF_REG_0 42; BPF_MOV64_IMM BPF_REG_0 42;
    BPF_MOV64_IMM BPF_REG_0 42; BPF_MOV64_IMM BPF_REG_0 42; BPF_MOV64_IMM BPF_REG_0 42;
    BPF_MOV64_IMM BPF_REG_0 42; BPF_RAW_INSN (BPF_JMP .| BPF_CALL) 0 1 0 (-31); BPF_EXIT_INSN];
  _prog_type BPF_PROG_TYPE_SCHED_CLS;
  _result ACCEPT;
  _retval 3].

Definition jump_tests : list bpf_test := [jump_1; jump_2; jump_3; jump_4; jump_5; jump_6; jump_7;
  jump_8; jump_9; jump_10; jump_11].

(** * [dead_code.c] *)

Definition dead_code_1 : bpf_test := TEST "dead code: start" [
  _insns
   [BPF_JMP_IMM BPF_JA 0 0 2; BPF_LDX_MEM BPF_B BPF_REG_8 BPF_REG_9 0; BPF_JMP_IMM BPF_JA 0 0 2;
    BPF_MOV64_IMM BPF_REG_0 7; BPF_JMP_IMM BPF_JGE BPF_REG_0 10 (-4); BPF_EXIT_INSN];
  _errstr_unpriv "R9 !read_ok";
  _result_unpriv REJECT;
  _result ACCEPT;
  _retval 7].

Definition dead_code_2 : bpf_test := TEST "dead code: mid 1" [
  _insns
   [BPF_MOV64_IMM BPF_REG_0 7; BPF_JMP_IMM BPF_JGE BPF_REG_0 0 1;
    BPF_JMP_IMM BPF_JGE BPF_REG_0 10 0; BPF_EXIT_INSN];
  _result ACCEPT;
  _retval 7].

Definition dead_code_3 : bpf_test := TEST "dead code: mid 2" [
  _insns
   [BPF_RAW_INSN (BPF_JMP .| BPF_CALL) 0 0 0 BPF_FUNC_get_prandom_u32;
    BPF_JMP_IMM BPF_JSET BPF_REG_0 1 4; BPF_JMP_IMM BPF_JSET BPF_REG_0 1 1;
    BPF_JMP_IMM BPF_JA 0 0 2; BPF_MOV64_IMM BPF_REG_0 7; BPF_EXIT_INSN;
    BPF_MOV64_IMM BPF_REG_0 1; BPF_EXIT_INSN];
  _result ACCEPT;
  _retval 1].

Definition dead_code_4 : bpf_test := TEST "dead code: end 1" [
  _insns
   [BPF_MOV64_IMM BPF_REG_0 7; BPF_JMP_IMM BPF_JGE BPF_REG_0 10 1; BPF_EXIT_INSN; BPF_EXIT_INSN];
  _result ACCEPT;
  _retval 7].

Definition dead_code_5 : bpf_test := TEST "dead code: end 2" [
  _insns
   [BPF_MOV64_IMM BPF_REG_0 7; BPF_JMP_IMM BPF_JGE BPF_REG_0 10 1; BPF_EXIT_INSN;
    BPF_MOV64_IMM BPF_REG_0 12; BPF_EXIT_INSN];
  _result ACCEPT;
  _retval 7].

Definition dead_code_6 : bpf_test := TEST "dead code: end 3" [
  _insns
   [BPF_MOV64_IMM BPF_REG_0 7; BPF_JMP_IMM BPF_JGE BPF_REG_0 8 1; BPF_EXIT_INSN;
    BPF_JMP_IMM BPF_JGE BPF_REG_0 10 1; BPF_JMP_IMM BPF_JA 0 0 1; BPF_MOV64_IMM BPF_REG_0 12;
    BPF_JMP_IMM BPF_JA 0 0 (-5)];
  _result ACCEPT;
  _retval 7].

Definition dead_code_7 : bpf_test := TEST "dead code: tail of main + func" [
  _insns
   [BPF_MOV64_IMM BPF_REG_0 7; BPF_JMP_IMM BPF_JGE BPF_REG_0 8 1; BPF_EXIT_INSN;
    BPF_RAW_INSN (BPF_JMP .| BPF_CALL) 0 1 0 1; BPF_EXIT_INSN; BPF_MOV64_IMM BPF_REG_0 12;
    BPF_EXIT_INSN];
  _errstr_unpriv "loading/calling other bpf or kernel functions are allowed for";
  _result_unpriv REJECT;
  _result ACCEPT;
  _retval 7].

Definition dead_code_8 : bpf_test := TEST "dead code: tail of main + two functions" [
  _insns
   [BPF_MOV64_IMM BPF_REG_0 7; BPF_JMP_IMM BPF_JGE BPF_REG_0 8 1; BPF_EXIT_INSN;
    BPF_RAW_INSN (BPF_JMP .| BPF_CALL) 0 1 0 1; BPF_EXIT_INSN;
    BPF_RAW_INSN (BPF_JMP .| BPF_CALL) 0 1 0 1; BPF_EXIT_INSN; BPF_MOV64_IMM BPF_REG_0 12;
    BPF_EXIT_INSN];
  _errstr_unpriv "loading/calling other bpf or kernel functions are allowed for";
  _result_unpriv REJECT;
  _result ACCEPT;
  _retval 7].

Definition dead_code_9 : bpf_test := TEST "dead code: function in the middle and mid of another func" [
  _insns
   [BPF_MOV64_IMM BPF_REG_1 7; BPF_RAW_INSN (BPF_JMP .| BPF_CALL) 0 1 0 3; BPF_EXIT_INSN;
    BPF_MOV64_IMM BPF_REG_0 12; BPF_EXIT_INSN; BPF_MOV64_IMM BPF_REG_0 7;
    BPF_JMP_IMM BPF_JGE BPF_REG_1 7 1; BPF_RAW_INSN (BPF_JMP .| BPF_CALL) 0 1 0 (-5);
    BPF_EXIT_INSN];
  _errstr_unpriv "loading/calling other bpf or kernel functions are allowed for";
  _result_unpriv REJECT;
  _result ACCEPT;
  _retval 7].

Definition dead_code_10 : bpf_test := TEST "dead code: middle of main before call" [
  _insns
   [BPF_MOV64_IMM BPF_REG_1 2; BPF_JMP_IMM BPF_JGE BPF_REG_1 2 1; BPF_MOV64_IMM BPF_REG_1 5;
    BPF_RAW_INSN (BPF_JMP .| BPF_CALL) 0 1 0 1; BPF_EXIT_INSN;
    BPF_MOV64_REG BPF_REG_0 BPF_REG_1; BPF_EXIT_INSN];
  _errstr_unpriv "loading/calling other bpf or kernel functions are allowed for";
  _result_unpriv REJECT;
  _result ACCEPT;
  _retval 2].

Definition dead_code_11 : bpf_test := TEST "dead code: start of a function" [
  _insns
   [BPF_MOV64_IMM BPF_REG_1 2; BPF_RAW_INSN (BPF_JMP .| BPF_CALL) 0 1 0 1; BPF_EXIT_INSN;
    BPF_JMP_IMM BPF_JA 0 0 0; BPF_MOV64_REG BPF_REG_0 BPF_REG_1; BPF_EXIT_INSN];
  _errstr_unpriv "loading/calling other bpf or kernel functions are allowed for";
  _result_unpriv REJECT;
  _result ACCEPT;
  _retval 2].

Definition dead_code_12 : bpf_test := TEST "dead code: zero extension" [
  _insns
   [BPF_MOV64_IMM BPF_REG_0 0; BPF_STX_MEM BPF_W BPF_REG_10 BPF_REG_0 (-4);
    BPF_JMP_IMM BPF_JGE BPF_REG_0 0 1; BPF_LDX_MEM BPF_W BPF_REG_0 BPF_REG_10 (-4);
    BPF_EXIT_INSN];
  _result ACCEPT;
  _retval 0].

Definition dead_code_tests : list bpf_test := [dead_code_1; dead_code_2; dead_code_3; dead_code_4;
  dead_code_5; dead_code_6; dead_code_7; dead_code_8; dead_code_9; dead_code_10; dead_code_11;
  dead_code_12].

(** * [loops1.c] *)

Definition loops1_1 : bpf_test := TEST "bounded loop, count to 4" [
  _insns
   [BPF_MOV64_IMM BPF_REG_0 0; BPF_ALU64_IMM BPF_ADD BPF_REG_0 1;
    BPF_JMP_IMM BPF_JLT BPF_REG_0 4 (-2); BPF_EXIT_INSN];
  _result ACCEPT;
  _prog_type BPF_PROG_TYPE_TRACEPOINT;
  _retval 4].

Definition loops1_2 : bpf_test := TEST "bounded loop, count to 20" [
  _insns
   [BPF_MOV64_IMM BPF_REG_0 0; BPF_ALU64_IMM BPF_ADD BPF_REG_0 3;
    BPF_JMP_IMM BPF_JLT BPF_REG_0 20 (-2); BPF_EXIT_INSN];
  _result ACCEPT;
  _prog_type BPF_PROG_TYPE_TRACEPOINT].

Definition loops1_3 : bpf_test := TEST "bounded loop, count from positive unknown to 4" [
  _insns
   [BPF_RAW_INSN (BPF_JMP .| BPF_CALL) 0 0 0 BPF_FUNC_get_prandom_u32;
    BPF_JMP_IMM BPF_JSLT BPF_REG_0 0 2; BPF_ALU64_IMM BPF_ADD BPF_REG_0 1;
    BPF_JMP_IMM BPF_JLT BPF_REG_0 4 (-2); BPF_EXIT_INSN];
  _result ACCEPT;
  _prog_type BPF_PROG_TYPE_TRACEPOINT;
  _retval 4].

Definition loops1_4 : bpf_test := TEST "bounded loop, count from totally unknown to 4" [
  _insns
   [BPF_RAW_INSN (BPF_JMP .| BPF_CALL) 0 0 0 BPF_FUNC_get_prandom_u32;
    BPF_ALU64_IMM BPF_ADD BPF_REG_0 1; BPF_JMP_IMM BPF_JLT BPF_REG_0 4 (-2); BPF_EXIT_INSN];
  _result ACCEPT;
  _prog_type BPF_PROG_TYPE_TRACEPOINT].

Definition loops1_5 : bpf_test := TEST "bounded loop, count to 4 with equality" [
  _insns
   [BPF_MOV64_IMM BPF_REG_0 0; BPF_ALU64_IMM BPF_ADD BPF_REG_0 1;
    BPF_JMP_IMM BPF_JNE BPF_REG_0 4 (-2); BPF_EXIT_INSN];
  _result ACCEPT;
  _prog_type BPF_PROG_TYPE_TRACEPOINT].

Definition loops1_6 : bpf_test := TEST "bounded loop, start in the middle" [
  _insns
   [BPF_MOV64_IMM BPF_REG_0 0; BPF_JMP_A 1; BPF_ALU64_IMM BPF_ADD BPF_REG_0 1;
    BPF_JMP_IMM BPF_JLT BPF_REG_0 4 (-2); BPF_EXIT_INSN];
  _result REJECT;
  _errstr "back-edge";
  _prog_type BPF_PROG_TYPE_TRACEPOINT;
  _retval 4].

Definition loops1_7 : bpf_test := TEST "bounded loop containing a forward jump" [
  _insns
   [BPF_MOV64_IMM BPF_REG_0 0; BPF_ALU64_IMM BPF_ADD BPF_REG_0 1;
    BPF_JMP_REG BPF_JEQ BPF_REG_0 BPF_REG_0 0; BPF_JMP_IMM BPF_JLT BPF_REG_0 4 (-3);
    BPF_EXIT_INSN];
  _result ACCEPT;
  _prog_type BPF_PROG_TYPE_TRACEPOINT;
  _retval 4].

Definition loops1_8 : bpf_test := TEST "bounded loop that jumps out rather than in" [
  _insns
   [BPF_MOV64_IMM BPF_REG_6 0; BPF_ALU64_IMM BPF_ADD BPF_REG_6 1;
    BPF_JMP_IMM BPF_JGT BPF_REG_6 10000 2;
    BPF_RAW_INSN (BPF_JMP .| BPF_CALL) 0 0 0 BPF_FUNC_get_prandom_u32; BPF_JMP_A (-4);
    BPF_EXIT_INSN];
  _result ACCEPT;
  _prog_type BPF_PROG_TYPE_TRACEPOINT].

Definition loops1_9 : bpf_test := TEST "infinite loop after a conditional jump" [
  _insns
   [BPF_MOV64_IMM BPF_REG_0 5; BPF_JMP_IMM BPF_JLT BPF_REG_0 4 2;
    BPF_ALU64_IMM BPF_ADD BPF_REG_0 1; BPF_JMP_A (-2); BPF_EXIT_INSN];
  _result REJECT;
  _errstr "program is too large";
  _prog_type BPF_PROG_TYPE_TRACEPOINT].

Definition loops1_10 : bpf_test := TEST "bounded recursion" [
  _insns
   [BPF_MOV64_IMM BPF_REG_1 0; BPF_RAW_INSN (BPF_JMP .| BPF_CALL) 0 1 0 1; BPF_EXIT_INSN;
    BPF_ALU64_IMM BPF_ADD BPF_REG_1 1; BPF_MOV64_REG BPF_REG_0 BPF_REG_1;
    BPF_JMP_IMM BPF_JLT BPF_REG_1 4 1; BPF_EXIT_INSN;
    BPF_RAW_INSN (BPF_JMP .| BPF_CALL) 0 1 0 (-5); BPF_EXIT_INSN];
  _result REJECT;
  _errstr "back-edge";
  _prog_type BPF_PROG_TYPE_TRACEPOINT].

Definition loops1_11 : bpf_test := TEST "infinite loop in two jumps" [
  _insns
   [BPF_MOV64_IMM BPF_REG_0 0; BPF_JMP_A 0; BPF_JMP_IMM BPF_JLT BPF_REG_0 4 (-2); BPF_EXIT_INSN];
  _result REJECT;
  _errstr "loop detected";
  _prog_type BPF_PROG_TYPE_TRACEPOINT].

Definition loops1_12 : bpf_test := TEST "infinite loop: three-jump trick" [
  _insns
   [BPF_MOV64_IMM BPF_REG_0 0; BPF_ALU64_IMM BPF_ADD BPF_REG_0 1;
    BPF_ALU64_IMM BPF_AND BPF_REG_0 1; BPF_JMP_IMM BPF_JLT BPF_REG_0 2 1; BPF_EXIT_INSN;
    BPF_ALU64_IMM BPF_ADD BPF_REG_0 1; BPF_ALU64_IMM BPF_AND BPF_REG_0 1;
    BPF_JMP_IMM BPF_JLT BPF_REG_0 2 1; BPF_EXIT_INSN; BPF_ALU64_IMM BPF_ADD BPF_REG_0 1;
    BPF_ALU64_IMM BPF_AND BPF_REG_0 1; BPF_JMP_IMM BPF_JLT BPF_REG_0 2 (-11); BPF_EXIT_INSN];
  _result REJECT;
  _errstr "loop detected";
  _prog_type BPF_PROG_TYPE_TRACEPOINT].

Definition loops1_13 : bpf_test := TEST "not-taken loop with back jump to 1st insn" [
  _insns
   [BPF_MOV64_IMM BPF_REG_0 123; BPF_JMP_IMM BPF_JEQ BPF_REG_0 4 (-2); BPF_EXIT_INSN];
  _result ACCEPT;
  _prog_type BPF_PROG_TYPE_XDP;
  _retval 123].

Definition loops1_14 : bpf_test := TEST "taken loop with back jump to 1st insn" [
  _insns
   [BPF_MOV64_IMM BPF_REG_1 10; BPF_MOV64_IMM BPF_REG_2 0;
    BPF_RAW_INSN (BPF_JMP .| BPF_CALL) 0 1 0 1; BPF_EXIT_INSN;
    BPF_ALU64_REG BPF_ADD BPF_REG_2 BPF_REG_1; BPF_ALU64_IMM BPF_SUB BPF_REG_1 1;
    BPF_JMP_IMM BPF_JNE BPF_REG_1 0 (-3); BPF_MOV64_REG BPF_REG_0 BPF_REG_2; BPF_EXIT_INSN];
  _result ACCEPT;
  _prog_type BPF_PROG_TYPE_XDP;
  _retval 55].

Definition loops1_15 : bpf_test := TEST "taken loop with back jump to 1st insn, 2" [
  _insns
   [BPF_MOV64_IMM BPF_REG_1 10; BPF_MOV64_IMM BPF_REG_2 0;
    BPF_RAW_INSN (BPF_JMP .| BPF_CALL) 0 1 0 1; BPF_EXIT_INSN;
    BPF_ALU64_REG BPF_ADD BPF_REG_2 BPF_REG_1; BPF_ALU64_IMM BPF_SUB BPF_REG_1 1;
    BPF_JMP32_IMM BPF_JNE BPF_REG_1 0 (-3); BPF_MOV64_REG BPF_REG_0 BPF_REG_2; BPF_EXIT_INSN];
  _result ACCEPT;
  _prog_type BPF_PROG_TYPE_XDP;
  _retval 55].

Definition loops1_tests : list bpf_test := [loops1_1; loops1_2; loops1_3; loops1_4; loops1_5;
  loops1_6; loops1_7; loops1_8; loops1_9; loops1_10; loops1_11; loops1_12; loops1_13; loops1_14;
  loops1_15].

(** * [cfg.c] *)

Definition cfg_1 : bpf_test := TEST "unreachable" [
  _insns
   [BPF_EXIT_INSN; BPF_EXIT_INSN];
  _errstr "unreachable";
  _result REJECT].

Definition cfg_2 : bpf_test := TEST "unreachable2" [
  _insns
   [BPF_JMP_IMM BPF_JA 0 0 1; BPF_JMP_IMM BPF_JA 0 0 0; BPF_EXIT_INSN];
  _errstr "unreachable";
  _result REJECT].

Definition cfg_3 : bpf_test := TEST "out of range jump" [
  _insns
   [BPF_JMP_IMM BPF_JA 0 0 1; BPF_EXIT_INSN];
  _errstr "jump out of range";
  _result REJECT].

Definition cfg_4 : bpf_test := TEST "out of range jump2" [
  _insns
   [BPF_JMP_IMM BPF_JA 0 0 (-2); BPF_EXIT_INSN];
  _errstr "jump out of range";
  _result REJECT].

Definition cfg_5 : bpf_test := TEST "loop (back-edge)" [
  _insns
   [BPF_JMP_IMM BPF_JA 0 0 (-1); BPF_EXIT_INSN];
  _errstr "unreachable insn 1";
  _errstr_unpriv "back-edge";
  _result REJECT].

Definition cfg_6 : bpf_test := TEST "loop2 (back-edge)" [
  _insns
   [BPF_MOV64_REG BPF_REG_1 BPF_REG_0; BPF_MOV64_REG BPF_REG_2 BPF_REG_0;
    BPF_MOV64_REG BPF_REG_3 BPF_REG_0; BPF_JMP_IMM BPF_JA 0 0 (-4); BPF_EXIT_INSN];
  _errstr "unreachable insn 4";
  _errstr_unpriv "back-edge";
  _result REJECT].

Definition cfg_7 : bpf_test := TEST "conditional loop" [
  _insns
   [BPF_MOV64_REG BPF_REG_0 BPF_REG_1; BPF_MOV64_REG BPF_REG_2 BPF_REG_0;
    BPF_MOV64_REG BPF_REG_3 BPF_REG_0; BPF_JMP_IMM BPF_JEQ BPF_REG_1 0 (-3); BPF_EXIT_INSN];
  _errstr "infinite loop detected";
  _errstr_unpriv "back-edge";
  _result REJECT].

Definition cfg_tests : list bpf_test := [cfg_1; cfg_2; cfg_3; cfg_4; cfg_5; cfg_6; cfg_7].

(** * [junk_insn.c] *)

Definition junk_insn_1 : bpf_test := TEST "junk insn" [
  _insns
   [BPF_RAW_INSN 0 0 0 0 0; BPF_EXIT_INSN];
  _errstr "unknown opcode 00";
  _result REJECT].

Definition junk_insn_2 : bpf_test := TEST "junk insn2" [
  _insns
   [BPF_RAW_INSN 1 0 0 0 0; BPF_EXIT_INSN];
  _errstr "BPF_LDX uses reserved fields";
  _result REJECT].

Definition junk_insn_3 : bpf_test := TEST "junk insn3" [
  _insns
   [BPF_RAW_INSN (-1) 0 0 0 0; BPF_EXIT_INSN];
  _errstr "unknown opcode ff";
  _result REJECT].

Definition junk_insn_4 : bpf_test := TEST "junk insn4" [
  _insns
   [BPF_RAW_INSN (-1) (-1) (-1) (-1) (-1); BPF_EXIT_INSN];
  _errstr "unknown opcode ff";
  _result REJECT].

Definition junk_insn_5 : bpf_test := TEST "junk insn5" [
  _insns
   [BPF_RAW_INSN 0x7f (-1) (-1) (-1) (-1); BPF_EXIT_INSN];
  _errstr "BPF_ALU uses reserved fields";
  _result REJECT].

Definition junk_insn_tests : list bpf_test := [junk_insn_1; junk_insn_2; junk_insn_3; junk_insn_4;
  junk_insn_5].

End LegacyJmp.
