(* ===== verification/LegacyMem.v ===== *)
(** Verifier tests of the repository, memory: atomic operations, stack accesses, spills, uninitialised data.

    Each definition is one element of a file of [selftests/legacy/verifier],
    written with the macros of [BpfInsn] and the designators of [ConvertTests];
    a list per file gives them in the order of the file. *)

From S2P Require Import Prelude BpfInsn ConvertTests.
From Stdlib Require Import ZArith String.
From stdpp Require Import base strings list.
Import BpfInsn ConvertTests.
Open Scope Z_scope.

Module LegacyMem.

(** * [atomic_and.c] *)

Definition atomic_and_1 : bpf_test := TEST "BPF_ATOMIC_AND without fetch" [
  _insns
   [BPF_ST_MEM BPF_DW BPF_REG_10 (-8) 0x110; BPF_MOV64_IMM BPF_REG_1 0x011;
    BPF_ATOMIC_OP BPF_DW BPF_AND BPF_REG_10 BPF_REG_1 (-8);
    BPF_LDX_MEM BPF_DW BPF_REG_0 BPF_REG_10 (-8); BPF_JMP_IMM BPF_JEQ BPF_REG_0 0x010 2;
    BPF_MOV64_IMM BPF_REG_0 2; BPF_EXIT_INSN; BPF_MOV64_IMM BPF_REG_0 0;
    BPF_JMP_IMM BPF_JEQ BPF_REG_1 0x011 1; BPF_MOV64_IMM BPF_REG_0 1; BPF_EXIT_INSN];
  _result ACCEPT].

Definition atomic_and_2 : bpf_test := TEST "BPF_ATOMIC_AND with fetch" [
  _insns
   [BPF_MOV64_IMM BPF_REG_0 123; BPF_ST_MEM BPF_DW BPF_REG_10 (-8) 0x110;
    BPF_MOV64_IMM BPF_REG_1 0x011;
    BPF_ATOMIC_OP BPF_DW (BPF_AND .| BPF_FETCH) BPF_REG_10 BPF_REG_1 (-8);
    BPF_JMP_IMM BPF_JEQ BPF_REG_1 0x110 2; BPF_MOV64_IMM BPF_REG_0 3; BPF_EXIT_INSN;
    BPF_LDX_MEM BPF_DW BPF_REG_1 BPF_REG_10 (-8); BPF_JMP_IMM BPF_JEQ BPF_REG_1 0x010 2;
    BPF_MOV64_IMM BPF_REG_1 2; BPF_EXIT_INSN; BPF_JMP_IMM BPF_JEQ BPF_REG_0 123 2;
    BPF_MOV64_IMM BPF_REG_0 1; BPF_EXIT_INSN; BPF_MOV64_IMM BPF_REG_0 0; BPF_EXIT_INSN];
  _result ACCEPT].

Definition atomic_and_3 : bpf_test := TEST "BPF_ATOMIC_AND with fetch 32bit" [
  _insns
   [BPF_MOV64_IMM BPF_REG_0 0; BPF_ALU64_IMM BPF_SUB BPF_REG_0 1;
    BPF_ST_MEM BPF_W BPF_REG_10 (-4) 0x110; BPF_MOV32_IMM BPF_REG_1 0x011;
    BPF_ATOMIC_OP BPF_W (BPF_AND .| BPF_FETCH) BPF_REG_10 BPF_REG_1 (-4);
    BPF_JMP32_IMM BPF_JEQ BPF_REG_1 0x110 2; BPF_MOV32_IMM BPF_REG_0 3; BPF_EXIT_INSN;
    BPF_LDX_MEM BPF_W BPF_REG_1 BPF_REG_10 (-4); BPF_JMP32_IMM BPF_JEQ BPF_REG_1 0x010 2;
    BPF_MOV32_IMM BPF_REG_1 2; BPF_EXIT_INSN; BPF_ALU64_IMM BPF_ADD BPF_REG_0 1; BPF_EXIT_INSN];
  _result ACCEPT].

Definition atomic_and_4 : bpf_test := TEST "BPF_ATOMIC_AND with fetch - r0 as source reg" [
  _insns
   [BPF_ST_MEM BPF_DW BPF_REG_10 (-8) 0x110; BPF_MOV64_IMM BPF_REG_0 0x011;
    BPF_ATOMIC_OP BPF_DW (BPF_AND .| BPF_FETCH) BPF_REG_10 BPF_REG_0 (-8);
    BPF_JMP_IMM BPF_JEQ BPF_REG_0 0x110 2; BPF_MOV64_IMM BPF_REG_0 3; BPF_EXIT_INSN;
    BPF_LDX_MEM BPF_DW BPF_REG_1 BPF_REG_10 (-8); BPF_JMP_IMM BPF_JEQ BPF_REG_1 0x010 2;
    BPF_MOV64_IMM BPF_REG_1 2; BPF_EXIT_INSN; BPF_MOV64_IMM BPF_REG_0 0; BPF_EXIT_INSN];
  _result ACCEPT].

Definition atomic_and_tests : list bpf_test := [atomic_and_1; atomic_and_2; atomic_and_3;
  atomic_and_4].

(** * [atomic_bounds.c] *)

Definition atomic_bounds_1 : bpf_test := TEST "BPF_ATOMIC bounds propagation, mem->reg" [
  _insns
   [BPF_MOV64_IMM BPF_REG_0 0; BPF_STX_MEM BPF_DW BPF_REG_10 BPF_REG_0 (-8);
    BPF_MOV64_IMM BPF_REG_1 1;
    BPF_ATOMIC_OP BPF_DW (BPF_ADD .| BPF_FETCH) BPF_REG_10 BPF_REG_1 (-8);
    BPF_JMP_IMM BPF_JNE BPF_REG_1 0 (-1); BPF_EXIT_INSN];
  _result ACCEPT;
  _result_unpriv REJECT;
  _errstr_unpriv "back-edge"].

Definition atomic_bounds_tests : list bpf_test := [atomic_bounds_1].

(** * [atomic_cmpxchg.c] *)

Definition atomic_cmpxchg_1 : bpf_test := TEST "atomic compare-and-exchange smoketest - 64bit" [
  _insns
   [BPF_ST_MEM BPF_DW BPF_REG_10 (-8) 3; BPF_MOV64_IMM BPF_REG_1 4; BPF_MOV64_IMM BPF_REG_0 2;
    BPF_ATOMIC_OP BPF_DW BPF_CMPXCHG BPF_REG_10 BPF_REG_1 (-8);
    BPF_JMP_IMM BPF_JEQ BPF_REG_0 3 2; BPF_MOV64_IMM BPF_REG_0 2; BPF_EXIT_INSN;
    BPF_LDX_MEM BPF_DW BPF_REG_0 BPF_REG_10 (-8); BPF_JMP_IMM BPF_JEQ BPF_REG_0 3 2;
    BPF_MOV64_IMM BPF_REG_0 3; BPF_EXIT_INSN; BPF_MOV64_IMM BPF_REG_1 4;
    BPF_MOV64_IMM BPF_REG_0 3; BPF_ATOMIC_OP BPF_DW BPF_CMPXCHG BPF_REG_10 BPF_REG_1 (-8);
    BPF_JMP_IMM BPF_JEQ BPF_REG_0 3 2; BPF_MOV64_IMM BPF_REG_0 4; BPF_EXIT_INSN;
    BPF_LDX_MEM BPF_DW BPF_REG_0 BPF_REG_10 (-8); BPF_JMP_IMM BPF_JEQ BPF_REG_0 4 2;
    BPF_MOV64_IMM BPF_REG_0 5; BPF_EXIT_INSN; BPF_MOV64_IMM BPF_REG_0 0; BPF_EXIT_INSN];
  _result ACCEPT].

Definition atomic_cmpxchg_2 : bpf_test := TEST "atomic compare-and-exchange smoketest - 32bit" [
  _insns
   [BPF_ST_MEM BPF_W BPF_REG_10 (-4) 3; BPF_MOV32_IMM BPF_REG_1 4; BPF_MOV32_IMM BPF_REG_0 2;
    BPF_ATOMIC_OP BPF_W BPF_CMPXCHG BPF_REG_10 BPF_REG_1 (-4);
    BPF_JMP32_IMM BPF_JEQ BPF_REG_0 3 2; BPF_MOV32_IMM BPF_REG_0 2; BPF_EXIT_INSN;
    BPF_LDX_MEM BPF_W BPF_REG_0 BPF_REG_10 (-4); BPF_JMP32_IMM BPF_JEQ BPF_REG_0 3 2;
    BPF_MOV32_IMM BPF_REG_0 3; BPF_EXIT_INSN; BPF_MOV32_IMM BPF_REG_1 4;
    BPF_MOV32_IMM BPF_REG_0 3; BPF_ATOMIC_OP BPF_W BPF_CMPXCHG BPF_REG_10 BPF_REG_1 (-4);
    BPF_JMP32_IMM BPF_JEQ BPF_REG_0 3 2; BPF_MOV32_IMM BPF_REG_0 4; BPF_EXIT_INSN;
    BPF_LDX_MEM BPF_W BPF_REG_0 BPF_REG_10 (-4); BPF_JMP32_IMM BPF_JEQ BPF_REG_0 4 2;
    BPF_MOV32_IMM BPF_REG_0 5; BPF_EXIT_INSN; BPF_MOV32_IMM BPF_REG_0 0; BPF_EXIT_INSN];
  _result ACCEPT;
  _result_unpriv REJECT;
  _errstr_unpriv "R0 leaks addr into mem"].

Definition atomic_cmpxchg_3 : bpf_test := TEST "Can't use cmpxchg on uninit src reg" [
  _insns
   [BPF_ST_MEM BPF_DW BPF_REG_10 (-8) 3; BPF_MOV64_IMM BPF_REG_0 3;
    BPF_ATOMIC_OP BPF_DW BPF_CMPXCHG BPF_REG_10 BPF_REG_2 (-8); BPF_EXIT_INSN];
  _result REJECT;
  _errstr "!read_ok"].

Definition atomic_cmpxchg_4 : bpf_test := TEST "Can't use cmpxchg on uninit memory" [
  _insns
   [BPF_MOV64_IMM BPF_REG_0 3; BPF_MOV64_IMM BPF_REG_2 4;
    BPF_ATOMIC_OP BPF_DW BPF_CMPXCHG BPF_REG_10 BPF_REG_2 (-8); BPF_EXIT_INSN];
  _result REJECT;
  _errstr "invalid read from stack"].

Definition atomic_cmpxchg_5 : bpf_test := TEST "BPF_W cmpxchg should zero top 32 bits" [
  _insns
   [BPF_MOV64_IMM BPF_REG_0 0; BPF_ALU64_IMM BPF_SUB BPF_REG_0 1;
    BPF_STX_MEM BPF_DW BPF_REG_10 BPF_REG_0 (-8); BPF_MOV32_IMM BPF_REG_1 1;
    BPF_ATOMIC_OP BPF_W BPF_CMPXCHG BPF_REG_10 BPF_REG_1 (-8); BPF_MOV64_IMM BPF_REG_1 1;
    BPF_ALU64_IMM BPF_LSH BPF_REG_1 32; BPF_ALU64_IMM BPF_SUB BPF_REG_1 1;
    BPF_JMP_REG BPF_JEQ BPF_REG_0 BPF_REG_1 2; BPF_MOV32_IMM BPF_REG_0 1; BPF_EXIT_INSN;
    BPF_MOV32_IMM BPF_REG_0 0; BPF_EXIT_INSN];
  _result ACCEPT;
  _result_unpriv REJECT;
  _errstr_unpriv "R0 leaks addr into mem"].

Definition atomic_cmpxchg_6 : bpf_test := TEST "Dest pointer in r0 - succeed, check 2" [
  _insns
   [BPF_MOV64_REG BPF_REG_0 BPF_REG_10; BPF_STX_MEM BPF_DW BPF_REG_10 BPF_REG_0 (-8);
    BPF_MOV64_REG BPF_REG_5 BPF_REG_10;
    BPF_ATOMIC_OP BPF_DW BPF_CMPXCHG BPF_REG_10 BPF_REG_5 (-8);
    BPF_LDX_MEM BPF_DW BPF_REG_1 BPF_REG_0 (-8); BPF_MOV64_IMM BPF_REG_0 0; BPF_EXIT_INSN];
  _result ACCEPT;
  _result_unpriv REJECT;
  _errstr_unpriv "R0 leaks addr into mem"].

Definition atomic_cmpxchg_7 : bpf_test := TEST "Dest pointer in r0 - succeed, check 3" [
  _insns
   [BPF_MOV64_REG BPF_REG_0 BPF_REG_10; BPF_STX_MEM BPF_DW BPF_REG_10 BPF_REG_0 (-8);
    BPF_MOV64_REG BPF_REG_5 BPF_REG_10;
    BPF_ATOMIC_OP BPF_W BPF_CMPXCHG BPF_REG_10 BPF_REG_5 (-8); BPF_MOV64_IMM BPF_REG_0 0;
    BPF_EXIT_INSN];
  _result REJECT;
  _errstr "invalid size of register fill";
  _errstr_unpriv "R0 leaks addr into mem"].

Definition atomic_cmpxchg_8 : bpf_test := TEST "Dest pointer in r0 - succeed, check 4" [
  _insns
   [BPF_MOV32_REG BPF_REG_0 BPF_REG_10; BPF_STX_MEM BPF_W BPF_REG_10 BPF_REG_0 (-8);
    BPF_MOV32_REG BPF_REG_5 BPF_REG_10;
    BPF_ATOMIC_OP BPF_W BPF_CMPXCHG BPF_REG_10 BPF_REG_5 (-8);
    BPF_LDX_MEM BPF_W BPF_REG_1 BPF_REG_10 (-8); BPF_MOV64_IMM BPF_REG_0 0; BPF_EXIT_INSN];
  _result ACCEPT;
  _result_unpriv REJECT;
  _errstr_unpriv "R10 partial copy of pointer"].

Definition atomic_cmpxchg_9 : bpf_test := TEST "Dest pointer in r0 - succeed, check 5" [
  _insns
   [BPF_MOV32_REG BPF_REG_0 BPF_REG_10; BPF_STX_MEM BPF_W BPF_REG_10 BPF_REG_0 (-8);
    BPF_MOV32_REG BPF_REG_5 BPF_REG_10;
    BPF_ATOMIC_OP BPF_W BPF_CMPXCHG BPF_REG_10 BPF_REG_5 (-8);
    BPF_LDX_MEM BPF_W BPF_REG_1 BPF_REG_0 (-8); BPF_MOV64_IMM BPF_REG_0 0; BPF_EXIT_INSN];
  _result REJECT;
  _errstr "R0 invalid mem access";
  _errstr_unpriv "R10 partial copy of pointer"].

Definition atomic_cmpxchg_tests : list bpf_test := [atomic_cmpxchg_1; atomic_cmpxchg_2;
  atomic_cmpxchg_3; atomic_cmpxchg_4; atomic_cmpxchg_5; atomic_cmpxchg_6; atomic_cmpxchg_7;
  atomic_cmpxchg_8; atomic_cmpxchg_9].

(** * [atomic_fetch_add.c] *)

Definition atomic_fetch_add_1 : bpf_test := TEST "BPF_ATOMIC_FETCH_ADD smoketest - 64bit" [
  _insns
   [BPF_MOV64_IMM BPF_REG_0 0; BPF_ST_MEM BPF_DW BPF_REG_10 (-8) 3; BPF_MOV64_IMM BPF_REG_1 1;
    BPF_ATOMIC_OP BPF_DW (BPF_ADD .| BPF_FETCH) BPF_REG_10 BPF_REG_1 (-8);
    BPF_JMP_IMM BPF_JEQ BPF_REG_1 3 2; BPF_MOV64_IMM BPF_REG_0 1; BPF_EXIT_INSN;
    BPF_LDX_MEM BPF_DW BPF_REG_1 BPF_REG_10 (-8); BPF_JMP_IMM BPF_JEQ BPF_REG_1 4 1;
    BPF_MOV64_IMM BPF_REG_0 2; BPF_EXIT_INSN];
  _result ACCEPT].

Definition atomic_fetch_add_2 : bpf_test := TEST "BPF_ATOMIC_FETCH_ADD smoketest - 32bit" [
  _insns
   [BPF_MOV64_IMM BPF_REG_0 0; BPF_ST_MEM BPF_W BPF_REG_10 (-4) 3; BPF_MOV32_IMM BPF_REG_1 1;
    BPF_ATOMIC_OP BPF_W (BPF_ADD .| BPF_FETCH) BPF_REG_10 BPF_REG_1 (-4);
    BPF_JMP_IMM BPF_JEQ BPF_REG_1 3 2; BPF_MOV64_IMM BPF_REG_0 1; BPF_EXIT_INSN;
    BPF_LDX_MEM BPF_W BPF_REG_1 BPF_REG_10 (-4); BPF_JMP_IMM BPF_JEQ BPF_REG_1 4 1;
    BPF_MOV64_IMM BPF_REG_0 2; BPF_EXIT_INSN];
  _result ACCEPT].

Definition atomic_fetch_add_3 : bpf_test := TEST "Can't use ATM_FETCH_ADD on frame pointer" [
  _insns
   [BPF_MOV64_IMM BPF_REG_0 0; BPF_ST_MEM BPF_DW BPF_REG_10 (-8) 3;
    BPF_ATOMIC_OP BPF_DW (BPF_ADD .| BPF_FETCH) BPF_REG_10 BPF_REG_10 (-8); BPF_EXIT_INSN];
  _result REJECT;
  _errstr_unpriv "R10 leaks addr into mem";
  _errstr "frame pointer is read only"].

Definition atomic_fetch_add_4 : bpf_test := TEST "Can't use ATM_FETCH_ADD on uninit src reg" [
  _insns
   [BPF_MOV64_IMM BPF_REG_0 0; BPF_ST_MEM BPF_DW BPF_REG_10 (-8) 3;
    BPF_ATOMIC_OP BPF_DW (BPF_ADD .| BPF_FETCH) BPF_REG_10 BPF_REG_2 (-8); BPF_EXIT_INSN];
  _result REJECT;
  _errstr "!read_ok"].

Definition atomic_fetch_add_5 : bpf_test := TEST "Can't use ATM_FETCH_ADD on uninit dst reg" [
  _insns
   [BPF_MOV64_IMM BPF_REG_0 0;
    BPF_ATOMIC_OP BPF_DW (BPF_ADD .| BPF_FETCH) BPF_REG_2 BPF_REG_0 (-8); BPF_EXIT_INSN];
  _result REJECT;
  _errstr "!read_ok"].

Definition atomic_fetch_add_6 : bpf_test := TEST "Can't use ATM_FETCH_ADD on kernel memory" [
  _insns
   [BPF_LDX_MEM BPF_DW BPF_REG_2 BPF_REG_1 0; BPF_MOV64_IMM BPF_REG_3 1;
    BPF_ATOMIC_OP BPF_DW (BPF_ADD .| BPF_FETCH) BPF_REG_2 BPF_REG_3 0;
    BPF_MOV64_IMM BPF_REG_0 0; BPF_EXIT_INSN];
  _prog_type BPF_PROG_TYPE_TRACING;
  _expected_attach_type BPF_TRACE_FENTRY;
  _kfunc "bpf_fentry_test7";
  _result REJECT;
  _errstr "only read is supported"].

Definition atomic_fetch_add_tests : list bpf_test := [atomic_fetch_add_1; atomic_fetch_add_2;
  atomic_fetch_add_3; atomic_fetch_add_4; atomic_fetch_add_5; atomic_fetch_add_6].

(** * [atomic_or.c] *)

Definition atomic_or_1 : bpf_test := TEST "BPF_ATOMIC OR without fetch" [
  _insns
   [BPF_ST_MEM BPF_DW BPF_REG_10 (-8) 0x110; BPF_MOV64_IMM BPF_REG_1 0x011;
    BPF_ATOMIC_OP BPF_DW BPF_OR BPF_REG_10 BPF_REG_1 (-8);
    BPF_LDX_MEM BPF_DW BPF_REG_0 BPF_REG_10 (-8); BPF_JMP_IMM BPF_JEQ BPF_REG_0 0x111 2;
    BPF_MOV64_IMM BPF_REG_0 2; BPF_EXIT_INSN; BPF_MOV64_IMM BPF_REG_0 0;
    BPF_JMP_IMM BPF_JEQ BPF_REG_1 0x011 1; BPF_MOV64_IMM BPF_REG_0 1; BPF_EXIT_INSN];
  _result ACCEPT].

Definition atomic_or_2 : bpf_test := TEST "BPF_ATOMIC OR with fetch" [
  _insns
   [BPF_MOV64_IMM BPF_REG_0 123; BPF_ST_MEM BPF_DW BPF_REG_10 (-8) 0x110;
    BPF_MOV64_IMM BPF_REG_1 0x011;
    BPF_ATOMIC_OP BPF_DW (BPF_OR .| BPF_FETCH) BPF_REG_10 BPF_REG_1 (-8);
    BPF_JMP_IMM BPF_JEQ BPF_REG_1 0x110 2; BPF_MOV64_IMM BPF_REG_0 3; BPF_EXIT_INSN;
    BPF_LDX_MEM BPF_DW BPF_REG_1 BPF_REG_10 (-8); BPF_JMP_IMM BPF_JEQ BPF_REG_1 0x111 2;
    BPF_MOV64_IMM BPF_REG_1 2; BPF_EXIT_INSN; BPF_JMP_IMM BPF_JEQ BPF_REG_0 123 2;
    BPF_MOV64_IMM BPF_REG_0 1; BPF_EXIT_INSN; BPF_MOV64_IMM BPF_REG_0 0; BPF_EXIT_INSN];
  _result ACCEPT].

Definition atomic_or_3 : bpf_test := TEST "BPF_ATOMIC OR with fetch 32bit" [
  _insns
   [BPF_MOV64_IMM BPF_REG_0 0; BPF_ALU64_IMM BPF_SUB BPF_REG_0 1;
    BPF_ST_MEM BPF_W BPF_REG_10 (-4) 0x110; BPF_MOV32_IMM BPF_REG_1 0x011;
    BPF_ATOMIC_OP BPF_W (BPF_OR .| BPF_FETCH) BPF_REG_10 BPF_REG_1 (-4);
    BPF_JMP32_IMM BPF_JEQ BPF_REG_1 0x110 2; BPF_MOV32_IMM BPF_REG_0 3; BPF_EXIT_INSN;
    BPF_LDX_MEM BPF_W BPF_REG_1 BPF_REG_10 (-4); BPF_JMP32_IMM BPF_JEQ BPF_REG_1 0x111 2;
    BPF_MOV32_IMM BPF_REG_1 2; BPF_EXIT_INSN; BPF_ALU64_IMM BPF_ADD BPF_REG_0 1; BPF_EXIT_INSN];
  _result ACCEPT].

Definition atomic_or_4 : bpf_test := TEST "BPF_W atomic_fetch_or should zero top 32 bits" [
  _insns
   [BPF_MOV64_IMM BPF_REG_1 0; BPF_ALU64_IMM BPF_SUB BPF_REG_1 1;
    BPF_STX_MEM BPF_DW BPF_REG_10 BPF_REG_1 (-8); BPF_MOV32_IMM BPF_REG_1 2;
    BPF_ATOMIC_OP BPF_W (BPF_OR .| BPF_FETCH) BPF_REG_10 BPF_REG_1 (-8);
    BPF_MOV64_IMM BPF_REG_2 1; BPF_ALU64_IMM BPF_LSH BPF_REG_2 32;
    BPF_ALU64_IMM BPF_SUB BPF_REG_2 1; BPF_JMP_REG BPF_JEQ BPF_REG_2 BPF_REG_1 2;
    BPF_MOV64_REG BPF_REG_0 BPF_REG_1; BPF_EXIT_INSN; BPF_MOV32_IMM BPF_REG_0 0; BPF_EXIT_INSN];
  _result ACCEPT].

Definition atomic_or_tests : list bpf_test := [atomic_or_1; atomic_or_2; atomic_or_3; atomic_or_4].

(** * [atomic_xchg.c] *)

Definition atomic_xchg_1 : bpf_test := TEST "atomic exchange smoketest - 64bit" [
  _insns
   [BPF_ST_MEM BPF_DW BPF_REG_10 (-8) 3; BPF_MOV64_IMM BPF_REG_1 4;
    BPF_ATOMIC_OP BPF_DW BPF_XCHG BPF_REG_10 BPF_REG_1 (-8); BPF_JMP_IMM BPF_JEQ BPF_REG_1 3 2;
    BPF_MOV64_IMM BPF_REG_0 1; BPF_EXIT_INSN; BPF_LDX_MEM BPF_DW BPF_REG_0 BPF_REG_10 (-8);
    BPF_JMP_IMM BPF_JEQ BPF_REG_0 4 2; BPF_MOV64_IMM BPF_REG_0 2; BPF_EXIT_INSN;
    BPF_MOV64_IMM BPF_REG_0 0; BPF_EXIT_INSN];
  _result ACCEPT].

Definition atomic_xchg_2 : bpf_test := TEST "atomic exchange smoketest - 32bit" [
  _insns
   [BPF_ST_MEM BPF_W BPF_REG_10 (-4) 3; BPF_MOV32_IMM BPF_REG_1 4;
    BPF_ATOMIC_OP BPF_W BPF_XCHG BPF_REG_10 BPF_REG_1 (-4); BPF_JMP32_IMM BPF_JEQ BPF_REG_1 3 2;
    BPF_MOV32_IMM BPF_REG_0 1; BPF_EXIT_INSN; BPF_LDX_MEM BPF_W BPF_REG_0 BPF_REG_10 (-4);
    BPF_JMP32_IMM BPF_JEQ BPF_REG_0 4 2; BPF_MOV32_IMM BPF_REG_0 2; BPF_EXIT_INSN;
    BPF_MOV32_IMM BPF_REG_0 0; BPF_EXIT_INSN];
  _result ACCEPT].

Definition atomic_xchg_tests : list bpf_test := [atomic_xchg_1; atomic_xchg_2].

(** * [atomic_xor.c] *)

Definition atomic_xor_1 : bpf_test := TEST "BPF_ATOMIC XOR without fetch" [
  _insns
   [BPF_ST_MEM BPF_DW BPF_REG_10 (-8) 0x110; BPF_MOV64_IMM BPF_REG_1 0x011;
    BPF_ATOMIC_OP BPF_DW BPF_XOR BPF_REG_10 BPF_REG_1 (-8);
    BPF_LDX_MEM BPF_DW BPF_REG_0 BPF_REG_10 (-8); BPF_JMP_IMM BPF_JEQ BPF_REG_0 0x101 2;
    BPF_MOV64_IMM BPF_REG_0 2; BPF_EXIT_INSN; BPF_MOV64_IMM BPF_REG_0 0;
    BPF_JMP_IMM BPF_JEQ BPF_REG_1 0x011 1; BPF_MOV64_IMM BPF_REG_0 1; BPF_EXIT_INSN];
  _result ACCEPT].

Definition atomic_xor_2 : bpf_test := TEST "BPF_ATOMIC XOR with fetch" [
  _insns
   [BPF_MOV64_IMM BPF_REG_0 123; BPF_ST_MEM BPF_DW BPF_REG_10 (-8) 0x110;
    BPF_MOV64_IMM BPF_REG_1 0x011;
    BPF_ATOMIC_OP BPF_DW (BPF_XOR .| BPF_FETCH) BPF_REG_10 BPF_REG_1 (-8);
    BPF_JMP_IMM BPF_JEQ BPF_REG_1 0x110 2; BPF_MOV64_IMM BPF_REG_0 3; BPF_EXIT_INSN;
    BPF_LDX_MEM BPF_DW BPF_REG_1 BPF_REG_10 (-8); BPF_JMP_IMM BPF_JEQ BPF_REG_1 0x101 2;
    BPF_MOV64_IMM BPF_REG_1 2; BPF_EXIT_INSN; BPF_JMP_IMM BPF_JEQ BPF_REG_0 123 2;
    BPF_MOV64_IMM BPF_REG_0 1; BPF_EXIT_INSN; BPF_MOV64_IMM BPF_REG_0 0; BPF_EXIT_INSN];
  _result ACCEPT].

Definition atomic_xor_3 : bpf_test := TEST "BPF_ATOMIC XOR with fetch 32bit" [
  _insns
   [BPF_MOV64_IMM BPF_REG_0 0; BPF_ALU64_IMM BPF_SUB BPF_REG_0 1;
    BPF_ST_MEM BPF_W BPF_REG_10 (-4) 0x110; BPF_MOV32_IMM BPF_REG_1 0x011;
    BPF_ATOMIC_OP BPF_W (BPF_XOR .| BPF_FETCH) BPF_REG_10 BPF_REG_1 (-4);
    BPF_JMP32_IMM BPF_JEQ BPF_REG_1 0x110 2; BPF_MOV32_IMM BPF_REG_0 3; BPF_EXIT_INSN;
    BPF_LDX_MEM BPF_W BPF_REG_1 BPF_REG_10 (-4); BPF_JMP32_IMM BPF_JEQ BPF_REG_1 0x101 2;
    BPF_MOV32_IMM BPF_REG_1 2; BPF_EXIT_INSN; BPF_ALU64_IMM BPF_ADD BPF_REG_0 1; BPF_EXIT_INSN];
  _result ACCEPT].

Definition atomic_xor_tests : list bpf_test := [atomic_xor_1; atomic_xor_2; atomic_xor_3].

(** * [xadd.c] *)

Definition xadd_1 : bpf_test := TEST "xadd/w check unaligned stack" [
  _insns
   [BPF_MOV64_IMM BPF_REG_0 1; BPF_STX_MEM BPF_DW BPF_REG_10 BPF_REG_0 (-8);
    BPF_ATOMIC_OP BPF_W BPF_ADD BPF_REG_10 BPF_REG_0 (-7);
    BPF_LDX_MEM BPF_DW BPF_REG_0 BPF_REG_10 (-8); BPF_EXIT_INSN];
  _result REJECT;
  _errstr "misaligned stack access off";
  _prog_type BPF_PROG_TYPE_SCHED_CLS].

Definition xadd_2 : bpf_test := TEST "xadd/w check unaligned map" [
  _insns
   [BPF_ST_MEM BPF_DW BPF_REG_10 (-8) 0; BPF_MOV64_REG BPF_REG_2 BPF_REG_10;
    BPF_ALU64_IMM BPF_ADD BPF_REG_2 (-8); BPF_LD_MAP_FD BPF_REG_1 0;
    BPF_RAW_INSN (BPF_JMP .| BPF_CALL) 0 0 0 BPF_FUNC_map_lookup_elem;
    BPF_JMP_IMM BPF_JNE BPF_REG_0 0 1; BPF_EXIT_INSN; BPF_MOV64_IMM BPF_REG_1 1;
    BPF_ATOMIC_OP BPF_W BPF_ADD BPF_REG_0 BPF_REG_1 3; BPF_LDX_MEM BPF_W BPF_REG_0 BPF_REG_0 3;
    BPF_EXIT_INSN];
  _fixup fixup_map_hash_8b [3];
  _result REJECT;
  _errstr "misaligned value access off";
  _prog_type BPF_PROG_TYPE_SCHED_CLS].

Definition xadd_3 : bpf_test := TEST "xadd/w check unaligned pkt" [
  _insns
   [BPF_LDX_MEM BPF_W BPF_REG_2 BPF_REG_1 (offsetof xdp_md "data");
    BPF_LDX_MEM BPF_W BPF_REG_3 BPF_REG_1 (offsetof xdp_md "data_end");
    BPF_MOV64_REG BPF_REG_1 BPF_REG_2; BPF_ALU64_IMM BPF_ADD BPF_REG_1 8;
    BPF_JMP_REG BPF_JLT BPF_REG_1 BPF_REG_3 2; BPF_MOV64_IMM BPF_REG_0 99;
    BPF_JMP_IMM BPF_JA 0 0 6; BPF_MOV64_IMM BPF_REG_0 1; BPF_ST_MEM BPF_W BPF_REG_2 0 0;
    BPF_ST_MEM BPF_W BPF_REG_2 3 0; BPF_ATOMIC_OP BPF_W BPF_ADD BPF_REG_2 BPF_REG_0 1;
    BPF_ATOMIC_OP BPF_W BPF_ADD BPF_REG_2 BPF_REG_0 2; BPF_LDX_MEM BPF_W BPF_REG_0 BPF_REG_2 1;
    BPF_EXIT_INSN];
  _result REJECT;
  _errstr "BPF_ATOMIC stores into R2 pkt is not allowed";
  _prog_type BPF_PROG_TYPE_XDP;
  _flags F_NEEDS_EFFICIENT_UNALIGNED_ACCESS].

Definition xadd_4 : bpf_test := TEST "xadd/w check whether src/dst got mangled, 1" [
  _insns
   [BPF_MOV64_IMM BPF_REG_0 1; BPF_MOV64_REG BPF_REG_6 BPF_REG_0;
    BPF_MOV64_REG BPF_REG_7 BPF_REG_10; BPF_STX_MEM BPF_DW BPF_REG_10 BPF_REG_0 (-8);
    BPF_ATOMIC_OP BPF_DW BPF_ADD BPF_REG_10 BPF_REG_0 (-8);
    BPF_ATOMIC_OP BPF_DW BPF_ADD BPF_REG_10 BPF_REG_0 (-8);
    BPF_JMP_REG BPF_JNE BPF_REG_6 BPF_REG_0 3; BPF_JMP_REG BPF_JNE BPF_REG_7 BPF_REG_10 2;
    BPF_LDX_MEM BPF_DW BPF_REG_0 BPF_REG_10 (-8); BPF_EXIT_INSN; BPF_MOV64_IMM BPF_REG_0 42;
    BPF_EXIT_INSN];
  _result ACCEPT;
  _prog_type BPF_PROG_TYPE_SCHED_CLS;
  _retval 3].

Definition xadd_5 : bpf_test := TEST "xadd/w check whether src/dst got mangled, 2" [
  _insns
   [BPF_MOV64_IMM BPF_REG_0 1; BPF_MOV64_REG BPF_REG_6 BPF_REG_0;
    BPF_MOV64_REG BPF_REG_7 BPF_REG_10; BPF_STX_MEM BPF_W BPF_REG_10 BPF_REG_0 (-8);
    BPF_ATOMIC_OP BPF_W BPF_ADD BPF_REG_10 BPF_REG_0 (-8);
    BPF_ATOMIC_OP BPF_W BPF_ADD BPF_REG_10 BPF_REG_0 (-8);
    BPF_JMP_REG BPF_JNE BPF_REG_6 BPF_REG_0 3; BPF_JMP_REG BPF_JNE BPF_REG_7 BPF_REG_10 2;
    BPF_LDX_MEM BPF_W BPF_REG_0 BPF_REG_10 (-8); BPF_EXIT_INSN; BPF_MOV64_IMM BPF_REG_0 42;
    BPF_EXIT_INSN];
  _result ACCEPT;
  _prog_type BPF_PROG_TYPE_SCHED_CLS;
  _retval 3].

Definition xadd_tests : list bpf_test := [xadd_1; xadd_2; xadd_3; xadd_4; xadd_5].

(** * [stack_ptr.c] *)

Definition stack_ptr_1 : bpf_test := TEST "PTR_TO_STACK store/load" [
  _insns
   [BPF_MOV64_REG BPF_REG_1 BPF_REG_10; BPF_ALU64_IMM BPF_ADD BPF_REG_1 (-10);
    BPF_ST_MEM BPF_DW BPF_REG_1 2 0xfaceb00c; BPF_LDX_MEM BPF_DW BPF_REG_0 BPF_REG_1 2;
    BPF_EXIT_INSN];
  _result ACCEPT;
  _retval 0xfaceb00c].

Definition stack_ptr_2 : bpf_test := TEST "PTR_TO_STACK store/load - bad alignment on off" [
  _insns
   [BPF_MOV64_REG BPF_REG_1 BPF_REG_10; BPF_ALU64_IMM BPF_ADD BPF_REG_1 (-8);
    BPF_ST_MEM BPF_DW BPF_REG_1 2 0xfaceb00c; BPF_LDX_MEM BPF_DW BPF_REG_0 BPF_REG_1 2;
    BPF_EXIT_INSN];
  _result REJECT;
  _errstr "misaligned stack access off (0x0; 0x0)+-8+2 size 8"].

Definition stack_ptr_3 : bpf_test := TEST "PTR_TO_STACK store/load - bad alignment on reg" [
  _insns
   [BPF_MOV64_REG BPF_REG_1 BPF_REG_10; BPF_ALU64_IMM BPF_ADD BPF_REG_1 (-10);
    BPF_ST_MEM BPF_DW BPF_REG_1 8 0xfaceb00c; BPF_LDX_MEM BPF_DW BPF_REG_0 BPF_REG_1 8;
    BPF_EXIT_INSN];
  _result REJECT;
  _errstr "misaligned stack access off (0x0; 0x0)+-10+8 size 8"].

Definition stack_ptr_4 : bpf_test := TEST "PTR_TO_STACK store/load - out of bounds low" [
  _insns
   [BPF_MOV64_REG BPF_REG_1 BPF_REG_10; BPF_ALU64_IMM BPF_ADD BPF_REG_1 (-80000);
    BPF_ST_MEM BPF_DW BPF_REG_1 8 0xfaceb00c; BPF_LDX_MEM BPF_DW BPF_REG_0 BPF_REG_1 8;
    BPF_EXIT_INSN];
  _result REJECT;
  _errstr "invalid write to stack R1 off=-79992 size=8";
  _errstr_unpriv "R1 stack pointer arithmetic goes out of range"].

Definition stack_ptr_5 : bpf_test := TEST "PTR_TO_STACK store/load - out of bounds high" [
  _insns
   [BPF_MOV64_REG BPF_REG_1 BPF_REG_10; BPF_ALU64_IMM BPF_ADD BPF_REG_1 (-8);
    BPF_ST_MEM BPF_DW BPF_REG_1 8 0xfaceb00c; BPF_LDX_MEM BPF_DW BPF_REG_0 BPF_REG_1 8;
    BPF_EXIT_INSN];
  _result REJECT;
  _errstr "invalid write to stack R1 off=0 size=8"].

Definition stack_ptr_6 : bpf_test := TEST "PTR_TO_STACK check high 1" [
  _insns
   [BPF_MOV64_REG BPF_REG_1 BPF_REG_10; BPF_ALU64_IMM BPF_ADD BPF_REG_1 (-1);
    BPF_ST_MEM BPF_B BPF_REG_1 0 42; BPF_LDX_MEM BPF_B BPF_REG_0 BPF_REG_1 0; BPF_EXIT_INSN];
  _result ACCEPT;
  _retval 42].

Definition stack_ptr_7 : bpf_test := TEST "PTR_TO_STACK check high 2" [
  _insns
   [BPF_MOV64_REG BPF_REG_1 BPF_REG_10; BPF_ST_MEM BPF_B BPF_REG_1 (-1) 42;
    BPF_LDX_MEM BPF_B BPF_REG_0 BPF_REG_1 (-1); BPF_EXIT_INSN];
  _result ACCEPT;
  _retval 42].

Definition stack_ptr_8 : bpf_test := TEST "PTR_TO_STACK check high 3" [
  _insns
   [BPF_MOV64_REG BPF_REG_1 BPF_REG_10; BPF_ALU64_IMM BPF_ADD BPF_REG_1 0;
    BPF_ST_MEM BPF_B BPF_REG_1 (-1) 42; BPF_LDX_MEM BPF_B BPF_REG_0 BPF_REG_1 (-1);
    BPF_EXIT_INSN];
  _errstr_unpriv "R1 stack pointer arithmetic goes out of range";
  _result_unpriv REJECT;
  _result ACCEPT;
  _retval 42].

Definition stack_ptr_9 : bpf_test := TEST "PTR_TO_STACK check high 4" [
  _insns
   [BPF_MOV64_REG BPF_REG_1 BPF_REG_10; BPF_ALU64_IMM BPF_ADD BPF_REG_1 0;
    BPF_ST_MEM BPF_B BPF_REG_1 0 42; BPF_LDX_MEM BPF_B BPF_REG_0 BPF_REG_1 0; BPF_EXIT_INSN];
  _errstr_unpriv "R1 stack pointer arithmetic goes out of range";
  _errstr "invalid write to stack R1 off=0 size=1";
  _result REJECT].

Definition stack_ptr_10 : bpf_test := TEST "PTR_TO_STACK check high 5" [
  _insns
   [BPF_MOV64_REG BPF_REG_1 BPF_REG_10; BPF_ALU64_IMM BPF_ADD BPF_REG_1 ((Z.shiftl 1 29) - 1);
    BPF_ST_MEM BPF_B BPF_REG_1 0 42; BPF_LDX_MEM BPF_B BPF_REG_0 BPF_REG_1 0; BPF_EXIT_INSN];
  _result REJECT;
  _errstr_unpriv "R1 stack pointer arithmetic goes out of range";
  _errstr "invalid write to stack R1"].

Definition stack_ptr_11 : bpf_test := TEST "PTR_TO_STACK check high 6" [
  _insns
   [BPF_MOV64_REG BPF_REG_1 BPF_REG_10; BPF_ALU64_IMM BPF_ADD BPF_REG_1 ((Z.shiftl 1 29) - 1);
    BPF_ST_MEM BPF_B BPF_REG_1 32767 42; BPF_LDX_MEM BPF_B BPF_REG_0 BPF_REG_1 32767;
    BPF_EXIT_INSN];
  _result REJECT;
  _errstr_unpriv "R1 stack pointer arithmetic goes out of range";
  _errstr "invalid write to stack"].

Definition stack_ptr_12 : bpf_test := TEST "PTR_TO_STACK check high 7" [
  _insns
   [BPF_MOV64_REG BPF_REG_1 BPF_REG_10; BPF_ALU64_IMM BPF_ADD BPF_REG_1 ((Z.shiftl 1 29) - 1);
    BPF_ALU64_IMM BPF_ADD BPF_REG_1 ((Z.shiftl 1 29) - 1); BPF_ST_MEM BPF_B BPF_REG_1 32767 42;
    BPF_LDX_MEM BPF_B BPF_REG_0 BPF_REG_1 32767; BPF_EXIT_INSN];
  _result REJECT;
  _errstr_unpriv "R1 stack pointer arithmetic goes out of range";
  _errstr "fp pointer offset"].

Definition stack_ptr_13 : bpf_test := TEST "PTR_TO_STACK check low 1" [
  _insns
   [BPF_MOV64_REG BPF_REG_1 BPF_REG_10; BPF_ALU64_IMM BPF_ADD BPF_REG_1 (-512);
    BPF_ST_MEM BPF_B BPF_REG_1 0 42; BPF_LDX_MEM BPF_B BPF_REG_0 BPF_REG_1 0; BPF_EXIT_INSN];
  _result ACCEPT;
  _retval 42].

Definition stack_ptr_14 : bpf_test := TEST "PTR_TO_STACK check low 2" [
  _insns
   [BPF_MOV64_REG BPF_REG_1 BPF_REG_10; BPF_ALU64_IMM BPF_ADD BPF_REG_1 (-513);
    BPF_ST_MEM BPF_B BPF_REG_1 1 42; BPF_LDX_MEM BPF_B BPF_REG_0 BPF_REG_1 1; BPF_EXIT_INSN];
  _result_unpriv REJECT;
  _errstr_unpriv "R1 stack pointer arithmetic goes out of range";
  _result ACCEPT;
  _retval 42].

Definition stack_ptr_15 : bpf_test := TEST "PTR_TO_STACK check low 3" [
  _insns
   [BPF_MOV64_REG BPF_REG_1 BPF_REG_10; BPF_ALU64_IMM BPF_ADD BPF_REG_1 (-513);
    BPF_ST_MEM BPF_B BPF_REG_1 0 42; BPF_LDX_MEM BPF_B BPF_REG_0 BPF_REG_1 0; BPF_EXIT_INSN];
  _errstr_unpriv "R1 stack pointer arithmetic goes out of range";
  _errstr "invalid write to stack R1 off=-513 size=1";
  _result REJECT].

Definition stack_ptr_16 : bpf_test := TEST "PTR_TO_STACK check low 4" [
  _insns
   [BPF_MOV64_REG BPF_REG_1 BPF_REG_10; BPF_ALU64_IMM BPF_ADD BPF_REG_1 (-2147483648);
    BPF_ST_MEM BPF_B BPF_REG_1 0 42; BPF_LDX_MEM BPF_B BPF_REG_0 BPF_REG_1 0; BPF_EXIT_INSN];
  _result REJECT;
  _errstr "math between fp pointer"].

Definition stack_ptr_17 : bpf_test := TEST "PTR_TO_STACK check low 5" [
  _insns
   [BPF_MOV64_REG BPF_REG_1 BPF_REG_10;
    BPF_ALU64_IMM BPF_ADD BPF_REG_1 (- ((Z.shiftl 1 29) - 1)); BPF_ST_MEM BPF_B BPF_REG_1 0 42;
    BPF_LDX_MEM BPF_B BPF_REG_0 BPF_REG_1 0; BPF_EXIT_INSN];
  _result REJECT;
  _errstr_unpriv "R1 stack pointer arithmetic goes out of range";
  _errstr "invalid write to stack"].

Definition stack_ptr_18 : bpf_test := TEST "PTR_TO_STACK check low 6" [
  _insns
   [BPF_MOV64_REG BPF_REG_1 BPF_REG_10;
    BPF_ALU64_IMM BPF_ADD BPF_REG_1 (- ((Z.shiftl 1 29) - 1));
    BPF_ST_MEM BPF_B BPF_REG_1 (-32768) 42; BPF_LDX_MEM BPF_B BPF_REG_0 BPF_REG_1 (-32768);
    BPF_EXIT_INSN];
  _result REJECT;
  _errstr "invalid write to stack";
  _errstr_unpriv "R1 stack pointer arithmetic goes out of range"].

Definition stack_ptr_19 : bpf_test := TEST "PTR_TO_STACK check low 7" [
  _insns
   [BPF_MOV64_REG BPF_REG_1 BPF_REG_10;
    BPF_ALU64_IMM BPF_ADD BPF_REG_1 (- ((Z.shiftl 1 29) - 1));
    BPF_ALU64_IMM BPF_ADD BPF_REG_1 (- ((Z.shiftl 1 29) - 1));
    BPF_ST_MEM BPF_B BPF_REG_1 (-32768) 42; BPF_LDX_MEM BPF_B BPF_REG_0 BPF_REG_1 (-32768);
    BPF_EXIT_INSN];
  _result REJECT;
  _errstr_unpriv "R1 stack pointer arithmetic goes out of range";
  _errstr "fp pointer offset"].

Definition stack_ptr_20 : bpf_test := TEST "PTR_TO_STACK mixed reg/k, 1" [
  _insns
   [BPF_MOV64_REG BPF_REG_1 BPF_REG_10; BPF_ALU64_IMM BPF_ADD BPF_REG_1 (-3);
    BPF_MOV64_IMM BPF_REG_2 (-3); BPF_ALU64_REG BPF_ADD BPF_REG_1 BPF_REG_2;
    BPF_ST_MEM BPF_B BPF_REG_1 0 42; BPF_LDX_MEM BPF_B BPF_REG_0 BPF_REG_1 0; BPF_EXIT_INSN];
  _result ACCEPT;
  _retval 42].

Definition stack_ptr_21 : bpf_test := TEST "PTR_TO_STACK mixed reg/k, 2" [
  _insns
   [BPF_ST_MEM BPF_DW BPF_REG_10 (-8) 0; BPF_ST_MEM BPF_DW BPF_REG_10 (-16) 0;
    BPF_MOV64_REG BPF_REG_1 BPF_REG_10; BPF_ALU64_IMM BPF_ADD BPF_REG_1 (-3);
    BPF_MOV64_IMM BPF_REG_2 (-3); BPF_ALU64_REG BPF_ADD BPF_REG_1 BPF_REG_2;
    BPF_ST_MEM BPF_B BPF_REG_1 0 42; BPF_MOV64_REG BPF_REG_5 BPF_REG_10;
    BPF_LDX_MEM BPF_B BPF_REG_0 BPF_REG_5 (-6); BPF_EXIT_INSN];
  _result ACCEPT;
  _retval 42].

Definition stack_ptr_22 : bpf_test := TEST "PTR_TO_STACK mixed reg/k, 3" [
  _insns
   [BPF_MOV64_REG BPF_REG_1 BPF_REG_10; BPF_ALU64_IMM BPF_ADD BPF_REG_1 (-3);
    BPF_MOV64_IMM BPF_REG_2 (-3); BPF_ALU64_REG BPF_ADD BPF_REG_1 BPF_REG_2;
    BPF_ST_MEM BPF_B BPF_REG_1 0 42; BPF_MOV64_REG BPF_REG_0 BPF_REG_2; BPF_EXIT_INSN];
  _result ACCEPT;
  _retval (-3)].

Definition stack_ptr_23 : bpf_test := TEST "PTR_TO_STACK reg" [
  _insns
   [BPF_MOV64_REG BPF_REG_1 BPF_REG_10; BPF_MOV64_IMM BPF_REG_2 (-3);
    BPF_ALU64_REG BPF_ADD BPF_REG_1 BPF_REG_2; BPF_ST_MEM BPF_B BPF_REG_1 0 42;
    BPF_LDX_MEM BPF_B BPF_REG_0 BPF_REG_1 0; BPF_EXIT_INSN];
  _result ACCEPT;
  _retval 42].

Definition stack_ptr_24 : bpf_test := TEST "stack pointer arithmetic" [
  _insns
   [BPF_MOV64_IMM BPF_REG_1 4; BPF_JMP_IMM BPF_JA 0 0 0; BPF_MOV64_REG BPF_REG_7 BPF_REG_10;
    BPF_ALU64_IMM BPF_ADD BPF_REG_7 (-10); BPF_ALU64_IMM BPF_ADD BPF_REG_7 (-10);
    BPF_MOV64_REG BPF_REG_2 BPF_REG_7; BPF_ALU64_REG BPF_ADD BPF_REG_2 BPF_REG_1;
    BPF_ST_MEM 0 BPF_REG_2 4 0; BPF_MOV64_REG BPF_REG_2 BPF_REG_7;
    BPF_ALU64_IMM BPF_ADD BPF_REG_2 8; BPF_ST_MEM 0 BPF_REG_2 4 0; BPF_MOV64_IMM BPF_REG_0 0;
    BPF_EXIT_INSN];
  _result ACCEPT].

Definition stack_ptr_25 : bpf_test := TEST "store PTR_TO_STACK in R10 to array map using BPF_B" [
  _insns
   [BPF_MOV64_REG BPF_REG_2 BPF_REG_10; BPF_ALU64_IMM BPF_ADD BPF_REG_2 (-8);
    BPF_ST_MEM BPF_DW BPF_REG_2 0 0; BPF_LD_MAP_FD BPF_REG_1 0;
    BPF_EMIT_CALL BPF_FUNC_map_lookup_elem; BPF_JMP_IMM BPF_JNE BPF_REG_0 0 2;
    BPF_MOV64_IMM BPF_REG_0 2; BPF_EXIT_INSN; BPF_MOV64_REG BPF_REG_1 BPF_REG_0;
    BPF_MOV64_REG BPF_REG_9 BPF_REG_10; BPF_MOV64_IMM BPF_REG_2 (-1);
    BPF_MOV64_IMM BPF_REG_3 (-1); BPF_MOV64_IMM BPF_REG_4 (-1); BPF_MOV64_IMM BPF_REG_5 (-1);
    BPF_MOV64_IMM BPF_REG_6 (-1); BPF_MOV64_IMM BPF_REG_7 (-1); BPF_MOV64_IMM BPF_REG_8 (-1);
    BPF_STX_MEM BPF_B BPF_REG_1 BPF_REG_10 0; BPF_LDX_MEM BPF_B BPF_REG_2 BPF_REG_1 0;
    BPF_STX_MEM BPF_B BPF_REG_1 BPF_REG_9 0; BPF_LDX_MEM BPF_B BPF_REG_3 BPF_REG_1 0;
    BPF_JMP_REG BPF_JEQ BPF_REG_2 BPF_REG_3 2; BPF_MOV64_IMM BPF_REG_0 1; BPF_EXIT_INSN;
    BPF_MOV64_IMM BPF_REG_0 42; BPF_EXIT_INSN];
  _fixup fixup_map_array_48b [3];
  _result ACCEPT;
  _retval 42;
  _prog_type BPF_PROG_TYPE_SCHED_CLS].

Definition stack_ptr_tests : list bpf_test := [stack_ptr_1; stack_ptr_2; stack_ptr_3; stack_ptr_4;
  stack_ptr_5; stack_ptr_6; stack_ptr_7; stack_ptr_8; stack_ptr_9; stack_ptr_10; stack_ptr_11;
  stack_ptr_12; stack_ptr_13; stack_ptr_14; stack_ptr_15; stack_ptr_16; stack_ptr_17; stack_ptr_18;
  stack_ptr_19; stack_ptr_20; stack_ptr_21; stack_ptr_22; stack_ptr_23; stack_ptr_24; stack_ptr_25].

(** * [basic_stack.c] *)

Definition basic_stack_1 : bpf_test := TEST "stack out of bounds" [
  _insns
   [BPF_ST_MEM BPF_DW BPF_REG_10 8 0; BPF_EXIT_INSN];
  _errstr "invalid write to stack";
  _result REJECT].

Definition basic_stack_2 : bpf_test := TEST "uninitialized stack1" [
  _insns
   [BPF_MOV64_REG BPF_REG_2 BPF_REG_10; BPF_ALU64_IMM BPF_ADD BPF_REG_2 (-8);
    BPF_LD_MAP_FD BPF_REG_1 0;
    BPF_RAW_INSN (BPF_JMP .| BPF_CALL) 0 0 0 BPF_FUNC_map_lookup_elem; BPF_EXIT_INSN];
  _fixup fixup_map_hash_8b [2];
  _errstr "invalid indirect read from stack";
  _result REJECT].

Definition basic_stack_3 : bpf_test := TEST "uninitialized stack2" [
  _insns
   [BPF_MOV64_REG BPF_REG_2 BPF_REG_10; BPF_LDX_MEM BPF_DW BPF_REG_0 BPF_REG_2 (-8);
    BPF_EXIT_INSN];
  _errstr "invalid read from stack";
  _result REJECT].

Definition basic_stack_4 : bpf_test := TEST "invalid fp arithmetic" [
  _insns
   [BPF_MOV64_IMM BPF_REG_0 0; BPF_MOV64_REG BPF_REG_1 BPF_REG_10;
    BPF_ALU64_IMM BPF_SUB BPF_REG_1 8; BPF_STX_MEM BPF_DW BPF_REG_1 BPF_REG_0 0; BPF_EXIT_INSN];
  _errstr "R1 subtraction from stack pointer";
  _result REJECT].

Definition basic_stack_5 : bpf_test := TEST "non-invalid fp arithmetic" [
  _insns
   [BPF_MOV64_IMM BPF_REG_0 0; BPF_STX_MEM BPF_DW BPF_REG_10 BPF_REG_0 (-8); BPF_EXIT_INSN];
  _result ACCEPT].

Definition basic_stack_6 : bpf_test := TEST "misaligned read from stack" [
  _insns
   [BPF_MOV64_REG BPF_REG_2 BPF_REG_10; BPF_LDX_MEM BPF_DW BPF_REG_0 BPF_REG_2 (-4);
    BPF_EXIT_INSN];
  _errstr "misaligned stack access";
  _result REJECT].

Definition basic_stack_tests : list bpf_test := [basic_stack_1; basic_stack_2; basic_stack_3;
  basic_stack_4; basic_stack_5; basic_stack_6].

(** * [uninit.c] *)

Definition uninit_1 : bpf_test := TEST "read uninitialized register" [
  _insns
   [BPF_MOV64_REG BPF_REG_0 BPF_REG_2; BPF_EXIT_INSN];
  _errstr "R2 !read_ok";
  _result REJECT].

Definition uninit_2 : bpf_test := TEST "read invalid register" [
  _insns
   [BPF_MOV64_REG BPF_REG_0 (-1); BPF_EXIT_INSN];
  _errstr "R15 is invalid";
  _result REJECT].

Definition uninit_3 : bpf_test := TEST "program doesn't init R0 before exit" [
  _insns
   [BPF_ALU64_REG BPF_MOV BPF_REG_2 BPF_REG_1; BPF_EXIT_INSN];
  _errstr "R0 !read_ok";
  _result REJECT].

Definition uninit_4 : bpf_test := TEST "program doesn't init R0 before exit in all branches" [
  _insns
   [BPF_JMP_IMM BPF_JGE BPF_REG_1 0 2; BPF_MOV64_IMM BPF_REG_0 1;
    BPF_ALU64_IMM BPF_ADD BPF_REG_0 2; BPF_EXIT_INSN];
  _errstr "R0 !read_ok";
  _errstr_unpriv "R1 pointer comparison";
  _result REJECT].

Definition uninit_tests : list bpf_test := [uninit_1; uninit_2; uninit_3; uninit_4].

(** * [spill_fill.c] *)

Definition spill_fill_1 : bpf_test := TEST "check valid spill/fill" [
  _insns
   [BPF_STX_MEM BPF_DW BPF_REG_10 BPF_REG_1 (-8); BPF_LDX_MEM BPF_DW BPF_REG_2 BPF_REG_10 (-8);
    BPF_MOV64_REG BPF_REG_0 BPF_REG_2; BPF_EXIT_INSN];
  _errstr_unpriv "R0 leaks addr";
  _result ACCEPT;
  _result_unpriv REJECT;
  _retval POINTER_VALUE].

Definition spill_fill_2 : bpf_test := TEST "check valid spill/fill, skb mark" [
  _insns
   [BPF_ALU64_REG BPF_MOV BPF_REG_6 BPF_REG_1; BPF_STX_MEM BPF_DW BPF_REG_10 BPF_REG_6 (-8);
    BPF_LDX_MEM BPF_DW BPF_REG_0 BPF_REG_10 (-8);
    BPF_LDX_MEM BPF_W BPF_REG_0 BPF_REG_0 (offsetof __sk_buff "mark"); BPF_EXIT_INSN];
  _result ACCEPT;
  _result_unpriv ACCEPT].

Definition spill_fill_3 : bpf_test := TEST "check valid spill/fill, ptr to mem" [
  _insns
   [BPF_ST_MEM BPF_DW BPF_REG_10 (-8) 0; BPF_LD_MAP_FD BPF_REG_1 0; BPF_MOV64_IMM BPF_REG_2 8;
    BPF_MOV64_IMM BPF_REG_3 0;
    BPF_RAW_INSN (BPF_JMP .| BPF_CALL) 0 0 0 BPF_FUNC_ringbuf_reserve;
    BPF_MOV64_REG BPF_REG_6 BPF_REG_0; BPF_JMP_IMM BPF_JEQ BPF_REG_0 0 6;
    BPF_STX_MEM BPF_DW BPF_REG_10 BPF_REG_6 (-8); BPF_LDX_MEM BPF_DW BPF_REG_7 BPF_REG_10 (-8);
    BPF_ST_MEM BPF_DW BPF_REG_7 0 0; BPF_MOV64_REG BPF_REG_1 BPF_REG_7;
    BPF_MOV64_IMM BPF_REG_2 0; BPF_RAW_INSN (BPF_JMP .| BPF_CALL) 0 0 0 BPF_FUNC_ringbuf_submit;
    BPF_MOV64_IMM BPF_REG_0 0; BPF_EXIT_INSN];
  _fixup fixup_map_ringbuf [1];
  _result ACCEPT;
  _result_unpriv ACCEPT].

Definition spill_fill_4 : bpf_test := TEST "check corrupted spill/fill" [
  _insns
   [BPF_STX_MEM BPF_DW BPF_REG_10 BPF_REG_1 (-8); BPF_ST_MEM BPF_B BPF_REG_10 (-7) 0x23;
    BPF_LDX_MEM BPF_DW BPF_REG_0 BPF_REG_10 (-8); BPF_LDX_MEM BPF_DW BPF_REG_0 BPF_REG_0 8;
    BPF_EXIT_INSN];
  _errstr_unpriv "attempt to corrupt spilled";
  _errstr "R0 invalid mem access 'inv";
  _result REJECT;
  _flags F_NEEDS_EFFICIENT_UNALIGNED_ACCESS].

Definition spill_fill_5 : bpf_test := TEST "check corrupted spill/fill, LSB" [
  _insns
   [BPF_STX_MEM BPF_DW BPF_REG_10 BPF_REG_1 (-8); BPF_ST_MEM BPF_H BPF_REG_10 (-8) 0xcafe;
    BPF_LDX_MEM BPF_DW BPF_REG_0 BPF_REG_10 (-8); BPF_EXIT_INSN];
  _errstr_unpriv "attempt to corrupt spilled";
  _result_unpriv REJECT;
  _result ACCEPT;
  _retval POINTER_VALUE].

Definition spill_fill_6 : bpf_test := TEST "check corrupted spill/fill, MSB" [
  _insns
   [BPF_STX_MEM BPF_DW BPF_REG_10 BPF_REG_1 (-8); BPF_ST_MEM BPF_W BPF_REG_10 (-4) 0x12345678;
    BPF_LDX_MEM BPF_DW BPF_REG_0 BPF_REG_10 (-8); BPF_EXIT_INSN];
  _errstr_unpriv "attempt to corrupt spilled";
  _result_unpriv REJECT;
  _result ACCEPT;
  _retval POINTER_VALUE].

Definition spill_fill_7 : bpf_test := TEST "Spill and refill a u32 const scalar.  Offset to skb->data" [
  _insns
   [BPF_LDX_MEM BPF_W BPF_REG_2 BPF_REG_1 (offsetof __sk_buff "data");
    BPF_LDX_MEM BPF_W BPF_REG_3 BPF_REG_1 (offsetof __sk_buff "data_end");
    BPF_MOV32_IMM BPF_REG_4 20; BPF_STX_MEM BPF_W BPF_REG_10 BPF_REG_4 (-8);
    BPF_LDX_MEM BPF_W BPF_REG_4 BPF_REG_10 (-8); BPF_MOV64_REG BPF_REG_0 BPF_REG_2;
    BPF_ALU64_REG BPF_ADD BPF_REG_0 BPF_REG_4; BPF_JMP_REG BPF_JGT BPF_REG_0 BPF_REG_3 1;
    BPF_LDX_MEM BPF_W BPF_REG_0 BPF_REG_2 0; BPF_MOV64_IMM BPF_REG_0 0; BPF_EXIT_INSN];
  _result ACCEPT;
  _prog_type BPF_PROG_TYPE_SCHED_CLS].

Definition spill_fill_8 : bpf_test := TEST "Spill a u32 const, refill from another half of the uninit u32 from the stack" [
  _insns
   [BPF_MOV32_IMM BPF_REG_4 20; BPF_STX_MEM BPF_W BPF_REG_10 BPF_REG_4 (-8);
    BPF_LDX_MEM BPF_W BPF_REG_4 BPF_REG_10 (-4); BPF_MOV64_IMM BPF_REG_0 0; BPF_EXIT_INSN];
  _result_unpriv REJECT;
  _errstr_unpriv "invalid read from stack off -4+0 size 4";
  _result ACCEPT].

Definition spill_fill_9 : bpf_test := TEST "Spill a u32 const scalar.  Refill as u16.  Offset to skb->data" [
  _insns
   [BPF_LDX_MEM BPF_W BPF_REG_2 BPF_REG_1 (offsetof __sk_buff "data");
    BPF_LDX_MEM BPF_W BPF_REG_3 BPF_REG_1 (offsetof __sk_buff "data_end");
    BPF_MOV32_IMM BPF_REG_4 20; BPF_STX_MEM BPF_W BPF_REG_10 BPF_REG_4 (-8);
    BPF_LDX_MEM BPF_H BPF_REG_4 BPF_REG_10 (-8); BPF_MOV64_REG BPF_REG_0 BPF_REG_2;
    BPF_ALU64_REG BPF_ADD BPF_REG_0 BPF_REG_4; BPF_JMP_REG BPF_JGT BPF_REG_0 BPF_REG_3 1;
    BPF_LDX_MEM BPF_W BPF_REG_0 BPF_REG_2 0; BPF_MOV64_IMM BPF_REG_0 0; BPF_EXIT_INSN];
  _result REJECT;
  _errstr "invalid access to packet";
  _prog_type BPF_PROG_TYPE_SCHED_CLS].

Definition spill_fill_10 : bpf_test := TEST "Spill u32 const scalars.  Refill as u64.  Offset to skb->data" [
  _insns
   [BPF_LDX_MEM BPF_W BPF_REG_2 BPF_REG_1 (offsetof __sk_buff "data");
    BPF_LDX_MEM BPF_W BPF_REG_3 BPF_REG_1 (offsetof __sk_buff "data_end");
    BPF_MOV32_IMM BPF_REG_6 0; BPF_MOV32_IMM BPF_REG_7 20;
    BPF_STX_MEM BPF_W BPF_REG_10 BPF_REG_6 (-4); BPF_STX_MEM BPF_W BPF_REG_10 BPF_REG_7 (-8);
    BPF_LDX_MEM BPF_H BPF_REG_4 BPF_REG_10 (-8); BPF_MOV64_REG BPF_REG_0 BPF_REG_2;
    BPF_ALU64_REG BPF_ADD BPF_REG_0 BPF_REG_4; BPF_JMP_REG BPF_JGT BPF_REG_0 BPF_REG_3 1;
    BPF_LDX_MEM BPF_W BPF_REG_0 BPF_REG_2 0; BPF_MOV64_IMM BPF_REG_0 0; BPF_EXIT_INSN];
  _result REJECT;
  _errstr "invalid access to packet";
  _prog_type BPF_PROG_TYPE_SCHED_CLS].

Definition spill_fill_11 : bpf_test := TEST "Spill a u32 const scalar.  Refill as u16 from fp-6.  Offset to skb->data" [
  _insns
   [BPF_LDX_MEM BPF_W BPF_REG_2 BPF_REG_1 (offsetof __sk_buff "data");
    BPF_LDX_MEM BPF_W BPF_REG_3 BPF_REG_1 (offsetof __sk_buff "data_end");
    BPF_MOV32_IMM BPF_REG_4 20; BPF_STX_MEM BPF_W BPF_REG_10 BPF_REG_4 (-8);
    BPF_LDX_MEM BPF_H BPF_REG_4 BPF_REG_10 (-6); BPF_MOV64_REG BPF_REG_0 BPF_REG_2;
    BPF_ALU64_REG BPF_ADD BPF_REG_0 BPF_REG_4; BPF_JMP_REG BPF_JGT BPF_REG_0 BPF_REG_3 1;
    BPF_LDX_MEM BPF_W BPF_REG_0 BPF_REG_2 0; BPF_MOV64_IMM BPF_REG_0 0; BPF_EXIT_INSN];
  _result REJECT;
  _errstr "invalid access to packet";
  _prog_type BPF_PROG_TYPE_SCHED_CLS].

Definition spill_fill_12 : bpf_test := TEST "Spill and refill a u32 const scalar at non 8byte aligned stack addr.  Offset to skb->data" [
  _insns
   [BPF_LDX_MEM BPF_W BPF_REG_2 BPF_REG_1 (offsetof __sk_buff "data");
    BPF_LDX_MEM BPF_W BPF_REG_3 BPF_REG_1 (offsetof __sk_buff "data_end");
    BPF_MOV32_IMM BPF_REG_4 20; BPF_STX_MEM BPF_W BPF_REG_10 BPF_REG_4 (-8);
    BPF_STX_MEM BPF_W BPF_REG_10 BPF_REG_4 (-4); BPF_LDX_MEM BPF_W BPF_REG_4 BPF_REG_10 (-4);
    BPF_MOV64_REG BPF_REG_0 BPF_REG_2; BPF_ALU64_REG BPF_ADD BPF_REG_0 BPF_REG_4;
    BPF_JMP_REG BPF_JGT BPF_REG_0 BPF_REG_3 1; BPF_LDX_MEM BPF_W BPF_REG_0 BPF_REG_2 0;
    BPF_MOV64_IMM BPF_REG_0 0; BPF_EXIT_INSN];
  _result REJECT;
  _errstr "invalid access to packet";
  _prog_type BPF_PROG_TYPE_SCHED_CLS].

Definition spill_fill_13 : bpf_test := TEST "Spill and refill a umax=40 bounded scalar.  Offset to skb->data" [
  _insns
   [BPF_LDX_MEM BPF_W BPF_REG_2 BPF_REG_1 (offsetof __sk_buff "data");
    BPF_LDX_MEM BPF_W BPF_REG_3 BPF_REG_1 (offsetof __sk_buff "data_end");
    BPF_LDX_MEM BPF_DW BPF_REG_4 BPF_REG_1 (offsetof __sk_buff "tstamp");
    BPF_JMP_IMM BPF_JLE BPF_REG_4 40 2; BPF_MOV64_IMM BPF_REG_0 0; BPF_EXIT_INSN;
    BPF_STX_MEM BPF_W BPF_REG_10 BPF_REG_4 (-8); BPF_LDX_MEM BPF_W BPF_REG_4 BPF_REG_10 (-8);
    BPF_ALU64_REG BPF_ADD BPF_REG_2 BPF_REG_4; BPF_MOV64_REG BPF_REG_0 BPF_REG_2;
    BPF_ALU64_IMM BPF_ADD BPF_REG_2 20; BPF_JMP_REG BPF_JGT BPF_REG_2 BPF_REG_3 1;
    BPF_LDX_MEM BPF_W BPF_REG_0 BPF_REG_0 0; BPF_MOV64_IMM BPF_REG_0 0; BPF_EXIT_INSN];
  _result ACCEPT;
  _prog_type BPF_PROG_TYPE_SCHED_CLS].

Definition spill_fill_14 : bpf_test := TEST "Spill a u32 scalar at fp-4 and then at fp-8" [
  _insns
   [BPF_MOV32_IMM BPF_REG_4 4321; BPF_STX_MEM BPF_W BPF_REG_10 BPF_REG_4 (-4);
    BPF_STX_MEM BPF_W BPF_REG_10 BPF_REG_4 (-8); BPF_LDX_MEM BPF_DW BPF_REG_4 BPF_REG_10 (-8);
    BPF_MOV64_IMM BPF_REG_0 0; BPF_EXIT_INSN];
  _result ACCEPT;
  _prog_type BPF_PROG_TYPE_SCHED_CLS].

Definition spill_fill_tests : list bpf_test := [spill_fill_1; spill_fill_2; spill_fill_3;
  spill_fill_4; spill_fill_5; spill_fill_6; spill_fill_7; spill_fill_8; spill_fill_9; spill_fill_10;
  spill_fill_11; spill_fill_12; spill_fill_13; spill_fill_14].

End LegacyMem.
