(* ===== verification/LegacyPkt.v ===== *)
(** Verifier tests of the repository, packets: direct access, the legacy loads, bounds on packet pointers.

    Each definition is one element of a file of [selftests/legacy/verifier],
    written with the macros of [BpfInsn] and the designators of [ConvertTests];
    a list per file gives them in the order of the file. *)

From S2P Require Import Prelude BpfInsn ConvertTests.
From Stdlib Require Import ZArith String.
From stdpp Require Import base strings list.
Import BpfInsn ConvertTests.
Open Scope Z_scope.

Module LegacyPkt.

(** * [direct_packet_access.c] *)

Definition direct_packet_access_1 : bpf_test := TEST "pkt_end - pkt_start is allowed" [
  _insns
   [BPF_LDX_MEM BPF_W BPF_REG_0 BPF_REG_1 (offsetof __sk_buff "data_end");
    BPF_LDX_MEM BPF_W BPF_REG_2 BPF_REG_1 (offsetof __sk_buff "data");
    BPF_ALU64_REG BPF_SUB BPF_REG_0 BPF_REG_2; BPF_EXIT_INSN];
  _result ACCEPT;
  _retval TEST_DATA_LEN;
  _prog_type BPF_PROG_TYPE_SCHED_CLS].

Definition direct_packet_access_2 : bpf_test := TEST "direct packet access: test1" [
  _insns
   [BPF_LDX_MEM BPF_W BPF_REG_2 BPF_REG_1 (offsetof __sk_buff "data");
    BPF_LDX_MEM BPF_W BPF_REG_3 BPF_REG_1 (offsetof __sk_buff "data_end");
    BPF_MOV64_REG BPF_REG_0 BPF_REG_2; BPF_ALU64_IMM BPF_ADD BPF_REG_0 8;
    BPF_JMP_REG BPF_JGT BPF_REG_0 BPF_REG_3 1; BPF_LDX_MEM BPF_B BPF_REG_0 BPF_REG_2 0;
    BPF_MOV64_IMM BPF_REG_0 0; BPF_EXIT_INSN];
  _result ACCEPT;
  _prog_type BPF_PROG_TYPE_SCHED_CLS].

Definition direct_packet_access_3 : bpf_test := TEST "direct packet access: test2" [
  _insns
   [BPF_MOV64_IMM BPF_REG_0 1;
    BPF_LDX_MEM BPF_W BPF_REG_4 BPF_REG_1 (offsetof __sk_buff "data_end");
    BPF_LDX_MEM BPF_W BPF_REG_3 BPF_REG_1 (offsetof __sk_buff "data");
    BPF_MOV64_REG BPF_REG_5 BPF_REG_3; BPF_ALU64_IMM BPF_ADD BPF_REG_5 14;
    BPF_JMP_REG BPF_JGT BPF_REG_5 BPF_REG_4 15; BPF_LDX_MEM BPF_B BPF_REG_0 BPF_REG_3 7;
    BPF_LDX_MEM BPF_B BPF_REG_4 BPF_REG_3 12; BPF_ALU64_IMM BPF_MUL BPF_REG_4 14;
    BPF_LDX_MEM BPF_W BPF_REG_3 BPF_REG_1 (offsetof __sk_buff "data");
    BPF_ALU64_REG BPF_ADD BPF_REG_3 BPF_REG_4;
    BPF_LDX_MEM BPF_W BPF_REG_2 BPF_REG_1 (offsetof __sk_buff "len");
    BPF_ALU64_IMM BPF_LSH BPF_REG_2 49; BPF_ALU64_IMM BPF_RSH BPF_REG_2 49;
    BPF_ALU64_REG BPF_ADD BPF_REG_3 BPF_REG_2; BPF_MOV64_REG BPF_REG_2 BPF_REG_3;
    BPF_ALU64_IMM BPF_ADD BPF_REG_2 8;
    BPF_LDX_MEM BPF_W BPF_REG_1 BPF_REG_1 (offsetof __sk_buff "data_end");
    BPF_JMP_REG BPF_JGT BPF_REG_2 BPF_REG_1 1; BPF_LDX_MEM BPF_B BPF_REG_1 BPF_REG_3 4;
    BPF_MOV64_IMM BPF_REG_0 0; BPF_EXIT_INSN];
  _result ACCEPT;
  _prog_type BPF_PROG_TYPE_SCHED_CLS].

Definition direct_packet_access_4 : bpf_test := TEST "direct packet access: test3" [
  _insns
   [BPF_LDX_MEM BPF_W BPF_REG_2 BPF_REG_1 (offsetof __sk_buff "data");
    BPF_MOV64_IMM BPF_REG_0 0; BPF_EXIT_INSN];
  _errstr "invalid bpf_context access off=76";
  _result REJECT;
  _prog_type BPF_PROG_TYPE_SOCKET_FILTER].

Definition direct_packet_access_5 : bpf_test := TEST "direct packet access: test4 (write)" [
  _insns
   [BPF_LDX_MEM BPF_W BPF_REG_2 BPF_REG_1 (offsetof __sk_buff "data");
    BPF_LDX_MEM BPF_W BPF_REG_3 BPF_REG_1 (offsetof __sk_buff "data_end");
    BPF_MOV64_REG BPF_REG_0 BPF_REG_2; BPF_ALU64_IMM BPF_ADD BPF_REG_0 8;
    BPF_JMP_REG BPF_JGT BPF_REG_0 BPF_REG_3 1; BPF_STX_MEM BPF_B BPF_REG_2 BPF_REG_2 0;
    BPF_MOV64_IMM BPF_REG_0 0; BPF_EXIT_INSN];
  _result ACCEPT;
  _prog_type BPF_PROG_TYPE_SCHED_CLS].

Definition direct_packet_access_6 : bpf_test := TEST "direct packet access: test5 (pkt_end >= reg, good access)" [
  _insns
   [BPF_LDX_MEM BPF_W BPF_REG_2 BPF_REG_1 (offsetof __sk_buff "data");
    BPF_LDX_MEM BPF_W BPF_REG_3 BPF_REG_1 (offsetof __sk_buff "data_end");
    BPF_MOV64_REG BPF_REG_0 BPF_REG_2; BPF_ALU64_IMM BPF_ADD BPF_REG_0 8;
    BPF_JMP_REG BPF_JGE BPF_REG_3 BPF_REG_0 2; BPF_MOV64_IMM BPF_REG_0 1; BPF_EXIT_INSN;
    BPF_LDX_MEM BPF_B BPF_REG_0 BPF_REG_2 0; BPF_MOV64_IMM BPF_REG_0 0; BPF_EXIT_INSN];
  _result ACCEPT;
  _prog_type BPF_PROG_TYPE_SCHED_CLS].

Definition direct_packet_access_7 : bpf_test := TEST "direct packet access: test6 (pkt_end >= reg, bad access)" [
  _insns
   [BPF_LDX_MEM BPF_W BPF_REG_2 BPF_REG_1 (offsetof __sk_buff "data");
    BPF_LDX_MEM BPF_W BPF_REG_3 BPF_REG_1 (offsetof __sk_buff "data_end");
    BPF_MOV64_REG BPF_REG_0 BPF_REG_2; BPF_ALU64_IMM BPF_ADD BPF_REG_0 8;
    BPF_JMP_REG BPF_JGE BPF_REG_3 BPF_REG_0 3; BPF_LDX_MEM BPF_B BPF_REG_0 BPF_REG_2 0;
    BPF_MOV64_IMM BPF_REG_0 1; BPF_EXIT_INSN; BPF_MOV64_IMM BPF_REG_0 0; BPF_EXIT_INSN];
  _errstr "invalid access to packet";
  _result REJECT;
  _prog_type BPF_PROG_TYPE_SCHED_CLS].

Definition direct_packet_access_8 : bpf_test := TEST "direct packet access: test7 (pkt_end >= reg, both accesses)" [
  _insns
   [BPF_LDX_MEM BPF_W BPF_REG_2 BPF_REG_1 (offsetof __sk_buff "data");
    BPF_LDX_MEM BPF_W BPF_REG_3 BPF_REG_1 (offsetof __sk_buff "data_end");
    BPF_MOV64_REG BPF_REG_0 BPF_REG_2; BPF_ALU64_IMM BPF_ADD BPF_REG_0 8;
    BPF_JMP_REG BPF_JGE BPF_REG_3 BPF_REG_0 3; BPF_LDX_MEM BPF_B BPF_REG_0 BPF_REG_2 0;
    BPF_MOV64_IMM BPF_REG_0 1; BPF_EXIT_INSN; BPF_LDX_MEM BPF_B BPF_REG_0 BPF_REG_2 0;
    BPF_MOV64_IMM BPF_REG_0 0; BPF_EXIT_INSN];
  _errstr "invalid access to packet";
  _result REJECT;
  _prog_type BPF_PROG_TYPE_SCHED_CLS].

Definition direct_packet_access_9 : bpf_test := TEST "direct packet access: test8 (double test, variant 1)" [
  _insns
   [BPF_LDX_MEM BPF_W BPF_REG_2 BPF_REG_1 (offsetof __sk_buff "data");
    BPF_LDX_MEM BPF_W BPF_REG_3 BPF_REG_1 (offsetof __sk_buff "data_end");
    BPF_MOV64_REG BPF_REG_0 BPF_REG_2; BPF_ALU64_IMM BPF_ADD BPF_REG_0 8;
    BPF_JMP_REG BPF_JGE BPF_REG_3 BPF_REG_0 4; BPF_JMP_REG BPF_JGT BPF_REG_0 BPF_REG_3 1;
    BPF_LDX_MEM BPF_B BPF_REG_0 BPF_REG_2 0; BPF_MOV64_IMM BPF_REG_0 1; BPF_EXIT_INSN;
    BPF_LDX_MEM BPF_B BPF_REG_0 BPF_REG_2 0; BPF_MOV64_IMM BPF_REG_0 0; BPF_EXIT_INSN];
  _result ACCEPT;
  _prog_type BPF_PROG_TYPE_SCHED_CLS].

Definition direct_packet_access_10 : bpf_test := TEST "direct packet access: test9 (double test, variant 2)" [
  _insns
   [BPF_LDX_MEM BPF_W BPF_REG_2 BPF_REG_1 (offsetof __sk_buff "data");
    BPF_LDX_MEM BPF_W BPF_REG_3 BPF_REG_1 (offsetof __sk_buff "data_end");
    BPF_MOV64_REG BPF_REG_0 BPF_REG_2; BPF_ALU64_IMM BPF_ADD BPF_REG_0 8;
    BPF_JMP_REG BPF_JGE BPF_REG_3 BPF_REG_0 2; BPF_MOV64_IMM BPF_REG_0 1; BPF_EXIT_INSN;
    BPF_JMP_REG BPF_JGT BPF_REG_0 BPF_REG_3 1; BPF_LDX_MEM BPF_B BPF_REG_0 BPF_REG_2 0;
    BPF_LDX_MEM BPF_B BPF_REG_0 BPF_REG_2 0; BPF_MOV64_IMM BPF_REG_0 0; BPF_EXIT_INSN];
  _result ACCEPT;
  _prog_type BPF_PROG_TYPE_SCHED_CLS].

Definition direct_packet_access_11 : bpf_test := TEST "direct packet access: test10 (write invalid)" [
  _insns
   [BPF_LDX_MEM BPF_W BPF_REG_2 BPF_REG_1 (offsetof __sk_buff "data");
    BPF_LDX_MEM BPF_W BPF_REG_3 BPF_REG_1 (offsetof __sk_buff "data_end");
    BPF_MOV64_REG BPF_REG_0 BPF_REG_2; BPF_ALU64_IMM BPF_ADD BPF_REG_0 8;
    BPF_JMP_REG BPF_JGT BPF_REG_0 BPF_REG_3 2; BPF_MOV64_IMM BPF_REG_0 0; BPF_EXIT_INSN;
    BPF_STX_MEM BPF_B BPF_REG_2 BPF_REG_2 0; BPF_MOV64_IMM BPF_REG_0 0; BPF_EXIT_INSN];
  _errstr "invalid access to packet";
  _result REJECT;
  _prog_type BPF_PROG_TYPE_SCHED_CLS].

Definition direct_packet_access_12 : bpf_test := TEST "direct packet access: test11 (shift, good access)" [
  _insns
   [BPF_LDX_MEM BPF_W BPF_REG_2 BPF_REG_1 (offsetof __sk_buff "data");
    BPF_LDX_MEM BPF_W BPF_REG_3 BPF_REG_1 (offsetof __sk_buff "data_end");
    BPF_MOV64_REG BPF_REG_0 BPF_REG_2; BPF_ALU64_IMM BPF_ADD BPF_REG_0 22;
    BPF_JMP_REG BPF_JGT BPF_REG_0 BPF_REG_3 8; BPF_MOV64_IMM BPF_REG_3 144;
    BPF_MOV64_REG BPF_REG_5 BPF_REG_3; BPF_ALU64_IMM BPF_ADD BPF_REG_5 23;
    BPF_ALU64_IMM BPF_RSH BPF_REG_5 3; BPF_MOV64_REG BPF_REG_6 BPF_REG_2;
    BPF_ALU64_REG BPF_ADD BPF_REG_6 BPF_REG_5; BPF_MOV64_IMM BPF_REG_0 1; BPF_EXIT_INSN;
    BPF_MOV64_IMM BPF_REG_0 0; BPF_EXIT_INSN];
  _result ACCEPT;
  _prog_type BPF_PROG_TYPE_SCHED_CLS;
  _retval 1].

Definition direct_packet_access_13 : bpf_test := TEST "direct packet access: test12 (and, good access)" [
  _insns
   [BPF_LDX_MEM BPF_W BPF_REG_2 BPF_REG_1 (offsetof __sk_buff "data");
    BPF_LDX_MEM BPF_W BPF_REG_3 BPF_REG_1 (offsetof __sk_buff "data_end");
    BPF_MOV64_REG BPF_REG_0 BPF_REG_2; BPF_ALU64_IMM BPF_ADD BPF_REG_0 22;
    BPF_JMP_REG BPF_JGT BPF_REG_0 BPF_REG_3 8; BPF_MOV64_IMM BPF_REG_3 144;
    BPF_MOV64_REG BPF_REG_5 BPF_REG_3; BPF_ALU64_IMM BPF_ADD BPF_REG_5 23;
    BPF_ALU64_IMM BPF_AND BPF_REG_5 15; BPF_MOV64_REG BPF_REG_6 BPF_REG_2;
    BPF_ALU64_REG BPF_ADD BPF_REG_6 BPF_REG_5; BPF_MOV64_IMM BPF_REG_0 1; BPF_EXIT_INSN;
    BPF_MOV64_IMM BPF_REG_0 0; BPF_EXIT_INSN];
  _result ACCEPT;
  _prog_type BPF_PROG_TYPE_SCHED_CLS;
  _retval 1].

Definition direct_packet_access_14 : bpf_test := TEST "direct packet access: test13 (branches, good access)" [
  _insns
   [BPF_LDX_MEM BPF_W BPF_REG_2 BPF_REG_1 (offsetof __sk_buff "data");
    BPF_LDX_MEM BPF_W BPF_REG_3 BPF_REG_1 (offsetof __sk_buff "data_end");
    BPF_MOV64_REG BPF_REG_0 BPF_REG_2; BPF_ALU64_IMM BPF_ADD BPF_REG_0 22;
    BPF_JMP_REG BPF_JGT BPF_REG_0 BPF_REG_3 13;
    BPF_LDX_MEM BPF_W BPF_REG_3 BPF_REG_1 (offsetof __sk_buff "mark");
    BPF_MOV64_IMM BPF_REG_4 1; BPF_JMP_REG BPF_JGT BPF_REG_3 BPF_REG_4 2;
    BPF_MOV64_IMM BPF_REG_3 14; BPF_JMP_IMM BPF_JA 0 0 1; BPF_MOV64_IMM BPF_REG_3 24;
    BPF_MOV64_REG BPF_REG_5 BPF_REG_3; BPF_ALU64_IMM BPF_ADD BPF_REG_5 23;
    BPF_ALU64_IMM BPF_AND BPF_REG_5 15; BPF_MOV64_REG BPF_REG_6 BPF_REG_2;
    BPF_ALU64_REG BPF_ADD BPF_REG_6 BPF_REG_5; BPF_MOV64_IMM BPF_REG_0 1; BPF_EXIT_INSN;
    BPF_MOV64_IMM BPF_REG_0 0; BPF_EXIT_INSN];
  _result ACCEPT;
  _prog_type BPF_PROG_TYPE_SCHED_CLS;
  _retval 1].

Definition direct_packet_access_15 : bpf_test := TEST "direct packet access: test14 (pkt_ptr += 0, CONST_IMM, good access)" [
  _insns
   [BPF_LDX_MEM BPF_W BPF_REG_2 BPF_REG_1 (offsetof __sk_buff "data");
    BPF_LDX_MEM BPF_W BPF_REG_3 BPF_REG_1 (offsetof __sk_buff "data_end");
    BPF_MOV64_REG BPF_REG_0 BPF_REG_2; BPF_ALU64_IMM BPF_ADD BPF_REG_0 22;
    BPF_JMP_REG BPF_JGT BPF_REG_0 BPF_REG_3 7; BPF_MOV64_IMM BPF_REG_5 12;
    BPF_ALU64_IMM BPF_RSH BPF_REG_5 4; BPF_MOV64_REG BPF_REG_6 BPF_REG_2;
    BPF_ALU64_REG BPF_ADD BPF_REG_6 BPF_REG_5; BPF_LDX_MEM BPF_B BPF_REG_0 BPF_REG_6 0;
    BPF_MOV64_IMM BPF_REG_0 1; BPF_EXIT_INSN; BPF_MOV64_IMM BPF_REG_0 0; BPF_EXIT_INSN];
  _result ACCEPT;
  _prog_type BPF_PROG_TYPE_SCHED_CLS;
  _retval 1].

Definition direct_packet_access_16 : bpf_test := TEST "direct packet access: test15 (spill with xadd)" [
  _insns
   [BPF_LDX_MEM BPF_W BPF_REG_2 BPF_REG_1 (offsetof __sk_buff "data");
    BPF_LDX_MEM BPF_W BPF_REG_3 BPF_REG_1 (offsetof __sk_buff "data_end");
    BPF_MOV64_REG BPF_REG_0 BPF_REG_2; BPF_ALU64_IMM BPF_ADD BPF_REG_0 8;
    BPF_JMP_REG BPF_JGT BPF_REG_0 BPF_REG_3 8; BPF_MOV64_IMM BPF_REG_5 4096;
    BPF_MOV64_REG BPF_REG_4 BPF_REG_10; BPF_ALU64_IMM BPF_ADD BPF_REG_4 (-8);
    BPF_STX_MEM BPF_DW BPF_REG_4 BPF_REG_2 0;
    BPF_ATOMIC_OP BPF_DW BPF_ADD BPF_REG_4 BPF_REG_5 0;
    BPF_LDX_MEM BPF_DW BPF_REG_2 BPF_REG_4 0; BPF_STX_MEM BPF_W BPF_REG_2 BPF_REG_5 0;
    BPF_MOV64_IMM BPF_REG_0 0; BPF_EXIT_INSN];
  _errstr "R2 invalid mem access 'inv'";
  _result REJECT;
  _prog_type BPF_PROG_TYPE_SCHED_CLS;
  _flags F_NEEDS_EFFICIENT_UNALIGNED_ACCESS].

Definition direct_packet_access_17 : bpf_test := TEST "direct packet access: test16 (arith on data_end)" [
  _insns
   [BPF_LDX_MEM BPF_W BPF_REG_2 BPF_REG_1 (offsetof __sk_buff "data");
    BPF_LDX_MEM BPF_W BPF_REG_3 BPF_REG_1 (offsetof __sk_buff "data_end");
    BPF_MOV64_REG BPF_REG_0 BPF_REG_2; BPF_ALU64_IMM BPF_ADD BPF_REG_0 8;
    BPF_ALU64_IMM BPF_ADD BPF_REG_3 16; BPF_JMP_REG BPF_JGT BPF_REG_0 BPF_REG_3 1;
    BPF_STX_MEM BPF_B BPF_REG_2 BPF_REG_2 0; BPF_MOV64_IMM BPF_REG_0 0; BPF_EXIT_INSN];
  _errstr "R3 pointer arithmetic on pkt_end";
  _result REJECT;
  _prog_type BPF_PROG_TYPE_SCHED_CLS].

Definition direct_packet_access_18 : bpf_test := TEST "direct packet access: test17 (pruning, alignment)" [
  _insns
   [BPF_LDX_MEM BPF_W BPF_REG_2 BPF_REG_1 (offsetof __sk_buff "data");
    BPF_LDX_MEM BPF_W BPF_REG_3 BPF_REG_1 (offsetof __sk_buff "data_end");
    BPF_LDX_MEM BPF_W BPF_REG_7 BPF_REG_1 (offsetof __sk_buff "mark");
    BPF_MOV64_REG BPF_REG_0 BPF_REG_2; BPF_ALU64_IMM BPF_ADD BPF_REG_0 14;
    BPF_JMP_IMM BPF_JGT BPF_REG_7 1 4; BPF_JMP_REG BPF_JGT BPF_REG_0 BPF_REG_3 1;
    BPF_STX_MEM BPF_W BPF_REG_0 BPF_REG_0 (-4); BPF_MOV64_IMM BPF_REG_0 0; BPF_EXIT_INSN;
    BPF_ALU64_IMM BPF_ADD BPF_REG_0 1; BPF_JMP_A (-6)];
  _errstr "misaligned packet access off 2+(0x0; 0x0)+15+-4 size 4";
  _result REJECT;
  _prog_type BPF_PROG_TYPE_SCHED_CLS;
  _flags F_LOAD_WITH_STRICT_ALIGNMENT].

Definition direct_packet_access_19 : bpf_test := TEST "direct packet access: test18 (imm += pkt_ptr, 1)" [
  _insns
   [BPF_LDX_MEM BPF_W BPF_REG_2 BPF_REG_1 (offsetof __sk_buff "data");
    BPF_LDX_MEM BPF_W BPF_REG_3 BPF_REG_1 (offsetof __sk_buff "data_end");
    BPF_MOV64_IMM BPF_REG_0 8; BPF_ALU64_REG BPF_ADD BPF_REG_0 BPF_REG_2;
    BPF_JMP_REG BPF_JGT BPF_REG_0 BPF_REG_3 1; BPF_STX_MEM BPF_B BPF_REG_2 BPF_REG_2 0;
    BPF_MOV64_IMM BPF_REG_0 0; BPF_EXIT_INSN];
  _result ACCEPT;
  _prog_type BPF_PROG_TYPE_SCHED_CLS].

Definition direct_packet_access_20 : bpf_test := TEST "direct packet access: test19 (imm += pkt_ptr, 2)" [
  _insns
   [BPF_LDX_MEM BPF_W BPF_REG_2 BPF_REG_1 (offsetof __sk_buff "data");
    BPF_LDX_MEM BPF_W BPF_REG_3 BPF_REG_1 (offsetof __sk_buff "data_end");
    BPF_MOV64_REG BPF_REG_0 BPF_REG_2; BPF_ALU64_IMM BPF_ADD BPF_REG_0 8;
    BPF_JMP_REG BPF_JGT BPF_REG_0 BPF_REG_3 3; BPF_MOV64_IMM BPF_REG_4 4;
    BPF_ALU64_REG BPF_ADD BPF_REG_4 BPF_REG_2; BPF_STX_MEM BPF_B BPF_REG_4 BPF_REG_4 0;
    BPF_MOV64_IMM BPF_REG_0 0; BPF_EXIT_INSN];
  _result ACCEPT;
  _prog_type BPF_PROG_TYPE_SCHED_CLS].

Definition direct_packet_access_21 : bpf_test := TEST "direct packet access: test20 (x += pkt_ptr, 1)" [
  _insns
   [BPF_LDX_MEM BPF_W BPF_REG_2 BPF_REG_1 (offsetof __sk_buff "data");
    BPF_LDX_MEM BPF_W BPF_REG_3 BPF_REG_1 (offsetof __sk_buff "data_end");
    BPF_MOV64_IMM BPF_REG_0 0xffffffff; BPF_STX_MEM BPF_DW BPF_REG_10 BPF_REG_0 (-8);
    BPF_LDX_MEM BPF_DW BPF_REG_0 BPF_REG_10 (-8); BPF_ALU64_IMM BPF_AND BPF_REG_0 0x7fff;
    BPF_MOV64_REG BPF_REG_4 BPF_REG_0; BPF_ALU64_REG BPF_ADD BPF_REG_4 BPF_REG_2;
    BPF_MOV64_REG BPF_REG_5 BPF_REG_4; BPF_ALU64_IMM BPF_ADD BPF_REG_4 (0x7fff - 1);
    BPF_JMP_REG BPF_JGT BPF_REG_4 BPF_REG_3 1; BPF_STX_MEM BPF_DW BPF_REG_5 BPF_REG_4 0;
    BPF_MOV64_IMM BPF_REG_0 0; BPF_EXIT_INSN];
  _prog_type BPF_PROG_TYPE_SCHED_CLS;
  _result ACCEPT;
  _flags F_NEEDS_EFFICIENT_UNALIGNED_ACCESS].

Definition direct_packet_access_22 : bpf_test := TEST "direct packet access: test21 (x += pkt_ptr, 2)" [
  _insns
   [BPF_LDX_MEM BPF_W BPF_REG_2 BPF_REG_1 (offsetof __sk_buff "data");
    BPF_LDX_MEM BPF_W BPF_REG_3 BPF_REG_1 (offsetof __sk_buff "data_end");
    BPF_MOV64_REG BPF_REG_0 BPF_REG_2; BPF_ALU64_IMM BPF_ADD BPF_REG_0 8;
    BPF_JMP_REG BPF_JGT BPF_REG_0 BPF_REG_3 9; BPF_MOV64_IMM BPF_REG_4 0xffffffff;
    BPF_STX_MEM BPF_DW BPF_REG_10 BPF_REG_4 (-8); BPF_LDX_MEM BPF_DW BPF_REG_4 BPF_REG_10 (-8);
    BPF_ALU64_IMM BPF_AND BPF_REG_4 0x7fff; BPF_ALU64_REG BPF_ADD BPF_REG_4 BPF_REG_2;
    BPF_MOV64_REG BPF_REG_5 BPF_REG_4; BPF_ALU64_IMM BPF_ADD BPF_REG_4 (0x7fff - 1);
    BPF_JMP_REG BPF_JGT BPF_REG_4 BPF_REG_3 1; BPF_STX_MEM BPF_DW BPF_REG_5 BPF_REG_4 0;
    BPF_MOV64_IMM BPF_REG_0 0; BPF_EXIT_INSN];
  _prog_type BPF_PROG_TYPE_SCHED_CLS;
  _result ACCEPT;
  _flags F_NEEDS_EFFICIENT_UNALIGNED_ACCESS].

Definition direct_packet_access_23 : bpf_test := TEST "direct packet access: test22 (x += pkt_ptr, 3)" [
  _insns
   [BPF_LDX_MEM BPF_W BPF_REG_2 BPF_REG_1 (offsetof __sk_buff "data");
    BPF_LDX_MEM BPF_W BPF_REG_3 BPF_REG_1 (offsetof __sk_buff "data_end");
    BPF_MOV64_REG BPF_REG_0 BPF_REG_2; BPF_ALU64_IMM BPF_ADD BPF_REG_0 8;
    BPF_STX_MEM BPF_DW BPF_REG_10 BPF_REG_2 (-8); BPF_STX_MEM BPF_DW BPF_REG_10 BPF_REG_3 (-16);
    BPF_LDX_MEM BPF_DW BPF_REG_3 BPF_REG_10 (-16); BPF_JMP_REG BPF_JGT BPF_REG_0 BPF_REG_3 11;
    BPF_LDX_MEM BPF_DW BPF_REG_2 BPF_REG_10 (-8); BPF_MOV64_IMM BPF_REG_4 0xffffffff;
    BPF_ATOMIC_OP BPF_DW BPF_ADD BPF_REG_10 BPF_REG_4 (-8);
    BPF_LDX_MEM BPF_DW BPF_REG_4 BPF_REG_10 (-8); BPF_ALU64_IMM BPF_RSH BPF_REG_4 49;
    BPF_ALU64_REG BPF_ADD BPF_REG_4 BPF_REG_2; BPF_MOV64_REG BPF_REG_0 BPF_REG_4;
    BPF_ALU64_IMM BPF_ADD BPF_REG_0 2; BPF_JMP_REG BPF_JGT BPF_REG_0 BPF_REG_3 2;
    BPF_MOV64_IMM BPF_REG_2 1; BPF_STX_MEM BPF_H BPF_REG_4 BPF_REG_2 0;
    BPF_MOV64_IMM BPF_REG_0 0; BPF_EXIT_INSN];
  _prog_type BPF_PROG_TYPE_SCHED_CLS;
  _result ACCEPT;
  _flags F_NEEDS_EFFICIENT_UNALIGNED_ACCESS].

Definition direct_packet_access_24 : bpf_test := TEST "direct packet access: test23 (x += pkt_ptr, 4)" [
  _insns
   [BPF_LDX_MEM BPF_W BPF_REG_2 BPF_REG_1 (offsetof __sk_buff "data");
    BPF_LDX_MEM BPF_W BPF_REG_3 BPF_REG_1 (offsetof __sk_buff "data_end");
    BPF_LDX_MEM BPF_W BPF_REG_0 BPF_REG_1 (offsetof __sk_buff "mark");
    BPF_STX_MEM BPF_DW BPF_REG_10 BPF_REG_0 (-8); BPF_LDX_MEM BPF_DW BPF_REG_0 BPF_REG_10 (-8);
    BPF_ALU64_IMM BPF_AND BPF_REG_0 0xffff; BPF_MOV64_REG BPF_REG_4 BPF_REG_0;
    BPF_MOV64_IMM BPF_REG_0 31; BPF_ALU64_REG BPF_ADD BPF_REG_0 BPF_REG_4;
    BPF_ALU64_REG BPF_ADD BPF_REG_0 BPF_REG_2; BPF_MOV64_REG BPF_REG_5 BPF_REG_0;
    BPF_ALU64_IMM BPF_ADD BPF_REG_0 (0xffff - 1); BPF_JMP_REG BPF_JGT BPF_REG_0 BPF_REG_3 1;
    BPF_STX_MEM BPF_DW BPF_REG_5 BPF_REG_0 0; BPF_MOV64_IMM BPF_REG_0 0; BPF_EXIT_INSN];
  _prog_type BPF_PROG_TYPE_SCHED_CLS;
  _result REJECT;
  _errstr "invalid access to packet, off=0 size=8, R5(id=2,off=0,r=0)";
  _flags F_NEEDS_EFFICIENT_UNALIGNED_ACCESS].

Definition direct_packet_access_25 : bpf_test := TEST "direct packet access: test24 (x += pkt_ptr, 5)" [
  _insns
   [BPF_LDX_MEM BPF_W BPF_REG_2 BPF_REG_1 (offsetof __sk_buff "data");
    BPF_LDX_MEM BPF_W BPF_REG_3 BPF_REG_1 (offsetof __sk_buff "data_end");
    BPF_MOV64_IMM BPF_REG_0 0xffffffff; BPF_STX_MEM BPF_DW BPF_REG_10 BPF_REG_0 (-8);
    BPF_LDX_MEM BPF_DW BPF_REG_0 BPF_REG_10 (-8); BPF_ALU64_IMM BPF_AND BPF_REG_0 0xff;
    BPF_MOV64_REG BPF_REG_4 BPF_REG_0; BPF_MOV64_IMM BPF_REG_0 64;
    BPF_ALU64_REG BPF_ADD BPF_REG_0 BPF_REG_4; BPF_ALU64_REG BPF_ADD BPF_REG_0 BPF_REG_2;
    BPF_MOV64_REG BPF_REG_5 BPF_REG_0; BPF_ALU64_IMM BPF_ADD BPF_REG_0 (0x7fff - 1);
    BPF_JMP_REG BPF_JGT BPF_REG_0 BPF_REG_3 1; BPF_STX_MEM BPF_DW BPF_REG_5 BPF_REG_0 0;
    BPF_MOV64_IMM BPF_REG_0 0; BPF_EXIT_INSN];
  _prog_type BPF_PROG_TYPE_SCHED_CLS;
  _result ACCEPT;
  _flags F_NEEDS_EFFICIENT_UNALIGNED_ACCESS].

Definition direct_packet_access_26 : bpf_test := TEST "direct packet access: test25 (marking on <, good access)" [
  _insns
   [BPF_LDX_MEM BPF_W BPF_REG_2 BPF_REG_1 (offsetof __sk_buff "data");
    BPF_LDX_MEM BPF_W BPF_REG_3 BPF_REG_1 (offsetof __sk_buff "data_end");
    BPF_MOV64_REG BPF_REG_0 BPF_REG_2; BPF_ALU64_IMM BPF_ADD BPF_REG_0 8;
    BPF_JMP_REG BPF_JLT BPF_REG_0 BPF_REG_3 2; BPF_MOV64_IMM BPF_REG_0 0; BPF_EXIT_INSN;
    BPF_LDX_MEM BPF_B BPF_REG_0 BPF_REG_2 0; BPF_JMP_IMM BPF_JA 0 0 (-4)];
  _result ACCEPT;
  _prog_type BPF_PROG_TYPE_SCHED_CLS].

Definition direct_packet_access_27 : bpf_test := TEST "direct packet access: test26 (marking on <, bad access)" [
  _insns
   [BPF_LDX_MEM BPF_W BPF_REG_2 BPF_REG_1 (offsetof __sk_buff "data");
    BPF_LDX_MEM BPF_W BPF_REG_3 BPF_REG_1 (offsetof __sk_buff "data_end");
    BPF_MOV64_REG BPF_REG_0 BPF_REG_2; BPF_ALU64_IMM BPF_ADD BPF_REG_0 8;
    BPF_JMP_REG BPF_JLT BPF_REG_0 BPF_REG_3 3; BPF_LDX_MEM BPF_B BPF_REG_0 BPF_REG_2 0;
    BPF_MOV64_IMM BPF_REG_0 0; BPF_EXIT_INSN; BPF_JMP_IMM BPF_JA 0 0 (-3)];
  _result REJECT;
  _errstr "invalid access to packet";
  _prog_type BPF_PROG_TYPE_SCHED_CLS].

Definition direct_packet_access_28 : bpf_test := TEST "direct packet access: test27 (marking on <=, good access)" [
  _insns
   [BPF_LDX_MEM BPF_W BPF_REG_2 BPF_REG_1 (offsetof __sk_buff "data");
    BPF_LDX_MEM BPF_W BPF_REG_3 BPF_REG_1 (offsetof __sk_buff "data_end");
    BPF_MOV64_REG BPF_REG_0 BPF_REG_2; BPF_ALU64_IMM BPF_ADD BPF_REG_0 8;
    BPF_JMP_REG BPF_JLE BPF_REG_3 BPF_REG_0 1; BPF_LDX_MEM BPF_B BPF_REG_0 BPF_REG_2 0;
    BPF_MOV64_IMM BPF_REG_0 1; BPF_EXIT_INSN];
  _result ACCEPT;
  _prog_type BPF_PROG_TYPE_SCHED_CLS;
  _retval 1].

Definition direct_packet_access_29 : bpf_test := TEST "direct packet access: test28 (marking on <=, bad access)" [
  _insns
   [BPF_LDX_MEM BPF_W BPF_REG_2 BPF_REG_1 (offsetof __sk_buff "data");
    BPF_LDX_MEM BPF_W BPF_REG_3 BPF_REG_1 (offsetof __sk_buff "data_end");
    BPF_MOV64_REG BPF_REG_0 BPF_REG_2; BPF_ALU64_IMM BPF_ADD BPF_REG_0 8;
    BPF_JMP_REG BPF_JLE BPF_REG_3 BPF_REG_0 2; BPF_MOV64_IMM BPF_REG_0 1; BPF_EXIT_INSN;
    BPF_LDX_MEM BPF_B BPF_REG_0 BPF_REG_2 0; BPF_JMP_IMM BPF_JA 0 0 (-4)];
  _result REJECT;
  _errstr "invalid access to packet";
  _prog_type BPF_PROG_TYPE_SCHED_CLS].

Definition direct_packet_access_30 : bpf_test := TEST "direct packet access: test29 (reg > pkt_end in subprog)" [
  _insns
   [BPF_LDX_MEM BPF_W BPF_REG_6 BPF_REG_1 (offsetof __sk_buff "data");
    BPF_LDX_MEM BPF_W BPF_REG_2 BPF_REG_1 (offsetof __sk_buff "data_end");
    BPF_MOV64_REG BPF_REG_3 BPF_REG_6; BPF_ALU64_IMM BPF_ADD BPF_REG_3 8;
    BPF_RAW_INSN (BPF_JMP .| BPF_CALL) 0 1 0 4; BPF_JMP_IMM BPF_JEQ BPF_REG_0 0 1;
    BPF_LDX_MEM BPF_B BPF_REG_0 BPF_REG_6 0; BPF_MOV64_IMM BPF_REG_0 0; BPF_EXIT_INSN;
    BPF_MOV64_IMM BPF_REG_0 0; BPF_JMP_REG BPF_JGT BPF_REG_3 BPF_REG_2 1;
    BPF_MOV64_IMM BPF_REG_0 1; BPF_EXIT_INSN];
  _result ACCEPT;
  _prog_type BPF_PROG_TYPE_SCHED_CLS].

Definition direct_packet_access_tests : list bpf_test := [direct_packet_access_1;
  direct_packet_access_2; direct_packet_access_3; direct_packet_access_4; direct_packet_access_5;
  direct_packet_access_6; direct_packet_access_7; direct_packet_access_8; direct_packet_access_9;
  direct_packet_access_10; direct_packet_access_11; direct_packet_access_12;
  direct_packet_access_13; direct_packet_access_14; direct_packet_access_15;
  direct_packet_access_16; direct_packet_access_17; direct_packet_access_18;
  direct_packet_access_19; direct_packet_access_20; direct_packet_access_21;
  direct_packet_access_22; direct_packet_access_23; direct_packet_access_24;
  direct_packet_access_25; direct_packet_access_26; direct_packet_access_27;
  direct_packet_access_28; direct_packet_access_29; direct_packet_access_30].

(** * [ld_abs.c] *)

Definition ld_abs_1 : bpf_test := TEST "ld_abs: check calling conv, r1" [
  _insns
   [BPF_MOV64_REG BPF_REG_6 BPF_REG_1; BPF_MOV64_IMM BPF_REG_1 0; BPF_LD_ABS BPF_W (-0x200000);
    BPF_MOV64_REG BPF_REG_0 BPF_REG_1; BPF_EXIT_INSN];
  _errstr "R1 !read_ok";
  _result REJECT].

Definition ld_abs_2 : bpf_test := TEST "ld_abs: check calling conv, r2" [
  _insns
   [BPF_MOV64_REG BPF_REG_6 BPF_REG_1; BPF_MOV64_IMM BPF_REG_2 0; BPF_LD_ABS BPF_W (-0x200000);
    BPF_MOV64_REG BPF_REG_0 BPF_REG_2; BPF_EXIT_INSN];
  _errstr "R2 !read_ok";
  _result REJECT].

Definition ld_abs_3 : bpf_test := TEST "ld_abs: check calling conv, r3" [
  _insns
   [BPF_MOV64_REG BPF_REG_6 BPF_REG_1; BPF_MOV64_IMM BPF_REG_3 0; BPF_LD_ABS BPF_W (-0x200000);
    BPF_MOV64_REG BPF_REG_0 BPF_REG_3; BPF_EXIT_INSN];
  _errstr "R3 !read_ok";
  _result REJECT].

Definition ld_abs_4 : bpf_test := TEST "ld_abs: check calling conv, r4" [
  _insns
   [BPF_MOV64_REG BPF_REG_6 BPF_REG_1; BPF_MOV64_IMM BPF_REG_4 0; BPF_LD_ABS BPF_W (-0x200000);
    BPF_MOV64_REG BPF_REG_0 BPF_REG_4; BPF_EXIT_INSN];
  _errstr "R4 !read_ok";
  _result REJECT].

Definition ld_abs_5 : bpf_test := TEST "ld_abs: check calling conv, r5" [
  _insns
   [BPF_MOV64_REG BPF_REG_6 BPF_REG_1; BPF_MOV64_IMM BPF_REG_5 0; BPF_LD_ABS BPF_W (-0x200000);
    BPF_MOV64_REG BPF_REG_0 BPF_REG_5; BPF_EXIT_INSN];
  _errstr "R5 !read_ok";
  _result REJECT].

Definition ld_abs_6 : bpf_test := TEST "ld_abs: check calling conv, r7" [
  _insns
   [BPF_MOV64_REG BPF_REG_6 BPF_REG_1; BPF_MOV64_IMM BPF_REG_7 0; BPF_LD_ABS BPF_W (-0x200000);
    BPF_MOV64_REG BPF_REG_0 BPF_REG_7; BPF_EXIT_INSN];
  _result ACCEPT].

Definition ld_abs_7 : bpf_test := TEST "ld_abs: tests on r6 and skb data reload helper" [
  _insns
   [BPF_MOV64_REG BPF_REG_6 BPF_REG_1; BPF_LD_ABS BPF_B 0; BPF_LD_ABS BPF_H 0;
    BPF_LD_ABS BPF_W 0; BPF_MOV64_REG BPF_REG_7 BPF_REG_6; BPF_MOV64_IMM BPF_REG_6 0;
    BPF_MOV64_REG BPF_REG_1 BPF_REG_7; BPF_MOV64_IMM BPF_REG_2 1; BPF_MOV64_IMM BPF_REG_3 2;
    BPF_RAW_INSN (BPF_JMP .| BPF_CALL) 0 0 0 BPF_FUNC_skb_vlan_push;
    BPF_MOV64_REG BPF_REG_6 BPF_REG_7; BPF_LD_ABS BPF_B 0; BPF_LD_ABS BPF_H 0;
    BPF_LD_ABS BPF_W 0; BPF_MOV64_IMM BPF_REG_0 42; BPF_EXIT_INSN];
  _prog_type BPF_PROG_TYPE_SCHED_CLS;
  _result ACCEPT;
  _retval 42].

Definition ld_abs_8 : bpf_test := TEST "ld_abs: invalid op 1" [
  _insns
   [BPF_MOV64_REG BPF_REG_6 BPF_REG_1; BPF_LD_ABS BPF_DW 0; BPF_EXIT_INSN];
  _prog_type BPF_PROG_TYPE_SCHED_CLS;
  _result REJECT;
  _errstr "unknown opcode"].

Definition ld_abs_9 : bpf_test := TEST "ld_abs: invalid op 2" [
  _insns
   [BPF_MOV32_IMM BPF_REG_0 256; BPF_MOV64_REG BPF_REG_6 BPF_REG_1;
    BPF_LD_IND BPF_DW BPF_REG_0 0; BPF_EXIT_INSN];
  _prog_type BPF_PROG_TYPE_SCHED_CLS;
  _result REJECT;
  _errstr "unknown opcode"].

Definition ld_abs_10 : bpf_test := TEST "ld_abs: nmap reduced" [
  _insns
   [BPF_MOV64_REG BPF_REG_6 BPF_REG_1; BPF_LD_ABS BPF_H 12;
    BPF_JMP_IMM BPF_JNE BPF_REG_0 0x806 28; BPF_LD_ABS BPF_H 12;
    BPF_JMP_IMM BPF_JNE BPF_REG_0 0x806 26; BPF_MOV32_IMM BPF_REG_0 18;
    BPF_STX_MEM BPF_W BPF_REG_10 BPF_REG_0 (-64); BPF_LDX_MEM BPF_W BPF_REG_7 BPF_REG_10 (-64);
    BPF_LD_IND BPF_W BPF_REG_7 14; BPF_STX_MEM BPF_W BPF_REG_10 BPF_REG_0 (-60);
    BPF_MOV32_IMM BPF_REG_0 280971478; BPF_STX_MEM BPF_W BPF_REG_10 BPF_REG_0 (-56);
    BPF_LDX_MEM BPF_W BPF_REG_7 BPF_REG_10 (-56); BPF_LDX_MEM BPF_W BPF_REG_0 BPF_REG_10 (-60);
    BPF_ALU32_REG BPF_SUB BPF_REG_0 BPF_REG_7; BPF_JMP_IMM BPF_JNE BPF_REG_0 0 15;
    BPF_LD_ABS BPF_H 12; BPF_JMP_IMM BPF_JNE BPF_REG_0 0x806 13; BPF_MOV32_IMM BPF_REG_0 22;
    BPF_STX_MEM BPF_W BPF_REG_10 BPF_REG_0 (-56); BPF_LDX_MEM BPF_W BPF_REG_7 BPF_REG_10 (-56);
    BPF_LD_IND BPF_H BPF_REG_7 14; BPF_STX_MEM BPF_W BPF_REG_10 BPF_REG_0 (-52);
    BPF_MOV32_IMM BPF_REG_0 17366; BPF_STX_MEM BPF_W BPF_REG_10 BPF_REG_0 (-48);
    BPF_LDX_MEM BPF_W BPF_REG_7 BPF_REG_10 (-48); BPF_LDX_MEM BPF_W BPF_REG_0 BPF_REG_10 (-52);
    BPF_ALU32_REG BPF_SUB BPF_REG_0 BPF_REG_7; BPF_JMP_IMM BPF_JNE BPF_REG_0 0 2;
    BPF_MOV32_IMM BPF_REG_0 256; BPF_EXIT_INSN; BPF_MOV32_IMM BPF_REG_0 0; BPF_EXIT_INSN];
  _data [0; 0; 0; 0; 0; 0; 0; 0; 0; 0; 0; 0; 0x08; 0x06; 0; 0; 0; 0; 0; 0; 0; 0; 0; 0; 0; 0; 0; 0; 0;
   0; 0; 0; 0x10; 0xbf; 0x48; 0xd6; 0x43; 0xd6];
  _prog_type BPF_PROG_TYPE_SCHED_CLS;
  _result ACCEPT;
  _retval 256].

Definition ld_abs_11 : bpf_test := TEST "ld_abs: div + abs, test 1" [
  _insns
   [BPF_ALU64_REG BPF_MOV BPF_REG_6 BPF_REG_1; BPF_LD_ABS BPF_B 3;
    BPF_ALU64_IMM BPF_MOV BPF_REG_2 2; BPF_ALU32_REG BPF_DIV BPF_REG_0 BPF_REG_2;
    BPF_ALU64_REG BPF_MOV BPF_REG_8 BPF_REG_0; BPF_LD_ABS BPF_B 4;
    BPF_ALU64_REG BPF_ADD BPF_REG_8 BPF_REG_0; BPF_LD_IND BPF_B BPF_REG_8 (-70); BPF_EXIT_INSN];
  _data [10; 20; 30; 40; 50];
  _prog_type BPF_PROG_TYPE_SCHED_CLS;
  _result ACCEPT;
  _retval 10].

Definition ld_abs_12 : bpf_test := TEST "ld_abs: div + abs, test 2" [
  _insns
   [BPF_ALU64_REG BPF_MOV BPF_REG_6 BPF_REG_1; BPF_LD_ABS BPF_B 3;
    BPF_ALU64_IMM BPF_MOV BPF_REG_2 2; BPF_ALU32_REG BPF_DIV BPF_REG_0 BPF_REG_2;
    BPF_ALU64_REG BPF_MOV BPF_REG_8 BPF_REG_0; BPF_LD_ABS BPF_B 128;
    BPF_ALU64_REG BPF_ADD BPF_REG_8 BPF_REG_0; BPF_LD_IND BPF_B BPF_REG_8 (-70); BPF_EXIT_INSN];
  _data [10; 20; 30; 40; 50];
  _prog_type BPF_PROG_TYPE_SCHED_CLS;
  _result ACCEPT;
  _retval 0].

Definition ld_abs_13 : bpf_test := TEST "ld_abs: div + abs, test 3" [
  _insns
   [BPF_ALU64_REG BPF_MOV BPF_REG_6 BPF_REG_1; BPF_ALU64_IMM BPF_MOV BPF_REG_7 0;
    BPF_LD_ABS BPF_B 3; BPF_ALU32_REG BPF_DIV BPF_REG_0 BPF_REG_7; BPF_EXIT_INSN];
  _data [10; 20; 30; 40; 50];
  _prog_type BPF_PROG_TYPE_SCHED_CLS;
  _result ACCEPT;
  _retval 0].

Definition ld_abs_14 : bpf_test := TEST "ld_abs: div + abs, test 4" [
  _insns
   [BPF_ALU64_REG BPF_MOV BPF_REG_6 BPF_REG_1; BPF_ALU64_IMM BPF_MOV BPF_REG_7 0;
    BPF_LD_ABS BPF_B 256; BPF_ALU32_REG BPF_DIV BPF_REG_0 BPF_REG_7; BPF_EXIT_INSN];
  _data [10; 20; 30; 40; 50];
  _prog_type BPF_PROG_TYPE_SCHED_CLS;
  _result ACCEPT;
  _retval 0].

Definition ld_abs_15 : bpf_test := TEST "ld_abs: vlan + abs, test 1" [
  _insns [];
  _data [0x34];
  _fill_helper bpf_fill_ld_abs_vlan_push_pop;
  _prog_type BPF_PROG_TYPE_SCHED_CLS;
  _result ACCEPT;
  _retval 0xbef].

Definition ld_abs_16 : bpf_test := TEST "ld_abs: vlan + abs, test 2" [
  _insns
   [BPF_MOV64_REG BPF_REG_6 BPF_REG_1; BPF_LD_ABS BPF_B 0; BPF_LD_ABS BPF_H 0;
    BPF_LD_ABS BPF_W 0; BPF_MOV64_REG BPF_REG_7 BPF_REG_6; BPF_MOV64_IMM BPF_REG_6 0;
    BPF_MOV64_REG BPF_REG_1 BPF_REG_7; BPF_MOV64_IMM BPF_REG_2 1; BPF_MOV64_IMM BPF_REG_3 2;
    BPF_RAW_INSN (BPF_JMP .| BPF_CALL) 0 0 0 BPF_FUNC_skb_vlan_push;
    BPF_MOV64_REG BPF_REG_6 BPF_REG_7; BPF_LD_ABS BPF_B 0; BPF_LD_ABS BPF_H 0;
    BPF_LD_ABS BPF_W 0; BPF_MOV64_IMM BPF_REG_0 42; BPF_EXIT_INSN];
  _data [0x34];
  _prog_type BPF_PROG_TYPE_SCHED_CLS;
  _result ACCEPT;
  _retval 42].

Definition ld_abs_17 : bpf_test := TEST "ld_abs: jump around ld_abs" [
  _insns [];
  _data [10; 11];
  _fill_helper bpf_fill_jump_around_ld_abs;
  _prog_type BPF_PROG_TYPE_SCHED_CLS;
  _result ACCEPT;
  _retval 10].

Definition ld_abs_tests : list bpf_test := [ld_abs_1; ld_abs_2; ld_abs_3; ld_abs_4; ld_abs_5;
  ld_abs_6; ld_abs_7; ld_abs_8; ld_abs_9; ld_abs_10; ld_abs_11; ld_abs_12; ld_abs_13; ld_abs_14;
  ld_abs_15; ld_abs_16; ld_abs_17].

(** * [ld_ind.c] *)

Definition ld_ind_1 : bpf_test := TEST "ld_ind: check calling conv, r1" [
  _insns
   [BPF_MOV64_REG BPF_REG_6 BPF_REG_1; BPF_MOV64_IMM BPF_REG_1 1;
    BPF_LD_IND BPF_W BPF_REG_1 (-0x200000); BPF_MOV64_REG BPF_REG_0 BPF_REG_1; BPF_EXIT_INSN];
  _errstr "R1 !read_ok";
  _result REJECT].

Definition ld_ind_2 : bpf_test := TEST "ld_ind: check calling conv, r2" [
  _insns
   [BPF_MOV64_REG BPF_REG_6 BPF_REG_1; BPF_MOV64_IMM BPF_REG_2 1;
    BPF_LD_IND BPF_W BPF_REG_2 (-0x200000); BPF_MOV64_REG BPF_REG_0 BPF_REG_2; BPF_EXIT_INSN];
  _errstr "R2 !read_ok";
  _result REJECT].

Definition ld_ind_3 : bpf_test := TEST "ld_ind: check calling conv, r3" [
  _insns
   [BPF_MOV64_REG BPF_REG_6 BPF_REG_1; BPF_MOV64_IMM BPF_REG_3 1;
    BPF_LD_IND BPF_W BPF_REG_3 (-0x200000); BPF_MOV64_REG BPF_REG_0 BPF_REG_3; BPF_EXIT_INSN];
  _errstr "R3 !read_ok";
  _result REJECT].

Definition ld_ind_4 : bpf_test := TEST "ld_ind: check calling conv, r4" [
  _insns
   [BPF_MOV64_REG BPF_REG_6 BPF_REG_1; BPF_MOV64_IMM BPF_REG_4 1;
    BPF_LD_IND BPF_W BPF_REG_4 (-0x200000); BPF_MOV64_REG BPF_REG_0 BPF_REG_4; BPF_EXIT_INSN];
  _errstr "R4 !read_ok";
  _result REJECT].

Definition ld_ind_5 : bpf_test := TEST "ld_ind: check calling conv, r5" [
  _insns
   [BPF_MOV64_REG BPF_REG_6 BPF_REG_1; BPF_MOV64_IMM BPF_REG_5 1;
    BPF_LD_IND BPF_W BPF_REG_5 (-0x200000); BPF_MOV64_REG BPF_REG_0 BPF_REG_5; BPF_EXIT_INSN];
  _errstr "R5 !read_ok";
  _result REJECT].

Definition ld_ind_6 : bpf_test := TEST "ld_ind: check calling conv, r7" [
  _insns
   [BPF_MOV64_REG BPF_REG_6 BPF_REG_1; BPF_MOV64_IMM BPF_REG_7 1;
    BPF_LD_IND BPF_W BPF_REG_7 (-0x200000); BPF_MOV64_REG BPF_REG_0 BPF_REG_7; BPF_EXIT_INSN];
  _result ACCEPT;
  _retval 1].

Definition ld_ind_tests : list bpf_test := [ld_ind_1; ld_ind_2; ld_ind_3; ld_ind_4; ld_ind_5;
  ld_ind_6].

(** * [bounds_deduction.c] *)

Definition bounds_deduction_1 : bpf_test := TEST "check deducing bounds from const, 1" [
  _insns
   [BPF_MOV64_IMM BPF_REG_0 1; BPF_JMP_IMM BPF_JSGE BPF_REG_0 1 0;
    BPF_ALU64_REG BPF_SUB BPF_REG_0 BPF_REG_1; BPF_EXIT_INSN];
  _errstr_unpriv "R1 has pointer with unsupported alu operation";
  _errstr "R0 tried to subtract pointer from scalar";
  _result REJECT].

Definition bounds_deduction_2 : bpf_test := TEST "check deducing bounds from const, 2" [
  _insns
   [BPF_MOV64_IMM BPF_REG_0 1; BPF_JMP_IMM BPF_JSGE BPF_REG_0 1 1; BPF_EXIT_INSN;
    BPF_JMP_IMM BPF_JSLE BPF_REG_0 1 1; BPF_EXIT_INSN;
    BPF_ALU64_REG BPF_SUB BPF_REG_1 BPF_REG_0; BPF_EXIT_INSN];
  _errstr_unpriv "R1 has pointer with unsupported alu operation";
  _result_unpriv REJECT;
  _result ACCEPT;
  _retval 1].

Definition bounds_deduction_3 : bpf_test := TEST "check deducing bounds from const, 3" [
  _insns
   [BPF_MOV64_IMM BPF_REG_0 0; BPF_JMP_IMM BPF_JSLE BPF_REG_0 0 0;
    BPF_ALU64_REG BPF_SUB BPF_REG_0 BPF_REG_1; BPF_EXIT_INSN];
  _errstr_unpriv "R1 has pointer with unsupported alu operation";
  _errstr "R0 tried to subtract pointer from scalar";
  _result REJECT].

Definition bounds_deduction_4 : bpf_test := TEST "check deducing bounds from const, 4" [
  _insns
   [BPF_MOV64_REG BPF_REG_6 BPF_REG_1; BPF_MOV64_IMM BPF_REG_0 0;
    BPF_JMP_IMM BPF_JSLE BPF_REG_0 0 1; BPF_EXIT_INSN; BPF_JMP_IMM BPF_JSGE BPF_REG_0 0 1;
    BPF_EXIT_INSN; BPF_ALU64_REG BPF_SUB BPF_REG_6 BPF_REG_0; BPF_EXIT_INSN];
  _errstr_unpriv "R6 has pointer with unsupported alu operation";
  _result_unpriv REJECT;
  _result ACCEPT].

Definition bounds_deduction_5 : bpf_test := TEST "check deducing bounds from const, 5" [
  _insns
   [BPF_MOV64_IMM BPF_REG_0 0; BPF_JMP_IMM BPF_JSGE BPF_REG_0 1 1;
    BPF_ALU64_REG BPF_SUB BPF_REG_0 BPF_REG_1; BPF_EXIT_INSN];
  _errstr_unpriv "R1 has pointer with unsupported alu operation";
  _errstr "R0 tried to subtract pointer from scalar";
  _result REJECT].

Definition bounds_deduction_6 : bpf_test := TEST "check deducing bounds from const, 6" [
  _insns
   [BPF_MOV64_IMM BPF_REG_0 0; BPF_JMP_IMM BPF_JSGE BPF_REG_0 0 1; BPF_EXIT_INSN;
    BPF_ALU64_REG BPF_SUB BPF_REG_0 BPF_REG_1; BPF_EXIT_INSN];
  _errstr_unpriv "R1 has pointer with unsupported alu operation";
  _errstr "R0 tried to subtract pointer from scalar";
  _result REJECT].

Definition bounds_deduction_7 : bpf_test := TEST "check deducing bounds from const, 7" [
  _insns
   [BPF_MOV64_IMM BPF_REG_0 (Z.lnot 0); BPF_JMP_IMM BPF_JSGE BPF_REG_0 0 0;
    BPF_ALU64_REG BPF_SUB BPF_REG_1 BPF_REG_0;
    BPF_LDX_MEM BPF_W BPF_REG_0 BPF_REG_1 (offsetof __sk_buff "mark"); BPF_EXIT_INSN];
  _errstr_unpriv "R1 has pointer with unsupported alu operation";
  _errstr "dereference of modified ctx ptr";
  _result REJECT;
  _flags F_NEEDS_EFFICIENT_UNALIGNED_ACCESS].

Definition bounds_deduction_8 : bpf_test := TEST "check deducing bounds from const, 8" [
  _insns
   [BPF_MOV64_IMM BPF_REG_0 (Z.lnot 0); BPF_JMP_IMM BPF_JSGE BPF_REG_0 0 1;
    BPF_ALU64_REG BPF_ADD BPF_REG_1 BPF_REG_0;
    BPF_LDX_MEM BPF_W BPF_REG_0 BPF_REG_1 (offsetof __sk_buff "mark"); BPF_EXIT_INSN];
  _errstr_unpriv "R1 has pointer with unsupported alu operation";
  _errstr "dereference of modified ctx ptr";
  _result REJECT;
  _flags F_NEEDS_EFFICIENT_UNALIGNED_ACCESS].

Definition bounds_deduction_9 : bpf_test := TEST "check deducing bounds from const, 9" [
  _insns
   [BPF_MOV64_IMM BPF_REG_0 0; BPF_JMP_IMM BPF_JSGE BPF_REG_0 0 0;
    BPF_ALU64_REG BPF_SUB BPF_REG_0 BPF_REG_1; BPF_EXIT_INSN];
  _errstr_unpriv "R1 has pointer with unsupported alu operation";
  _errstr "R0 tried to subtract pointer from scalar";
  _result REJECT].

Definition bounds_deduction_10 : bpf_test := TEST "check deducing bounds from const, 10" [
  _insns
   [BPF_MOV64_IMM BPF_REG_0 0; BPF_JMP_IMM BPF_JSLE BPF_REG_0 0 0;
    BPF_ALU64_IMM BPF_NEG BPF_REG_0 0; BPF_ALU64_REG BPF_SUB BPF_REG_0 BPF_REG_1; BPF_EXIT_INSN];
  _errstr "math between ctx pointer and register with unbounded min value is not allowed";
  _result REJECT].

Definition bounds_deduction_tests : list bpf_test := [bounds_deduction_1; bounds_deduction_2;
  bounds_deduction_3; bounds_deduction_4; bounds_deduction_5; bounds_deduction_6;
  bounds_deduction_7; bounds_deduction_8; bounds_deduction_9; bounds_deduction_10].

(** * [lwt.c] *)

Definition lwt_1 : bpf_test := TEST "invalid direct packet write for LWT_IN" [
  _insns
   [BPF_LDX_MEM BPF_W BPF_REG_2 BPF_REG_1 (offsetof __sk_buff "data");
    BPF_LDX_MEM BPF_W BPF_REG_3 BPF_REG_1 (offsetof __sk_buff "data_end");
    BPF_MOV64_REG BPF_REG_0 BPF_REG_2; BPF_ALU64_IMM BPF_ADD BPF_REG_0 8;
    BPF_JMP_REG BPF_JGT BPF_REG_0 BPF_REG_3 1; BPF_STX_MEM BPF_B BPF_REG_2 BPF_REG_2 0;
    BPF_MOV64_IMM BPF_REG_0 0; BPF_EXIT_INSN];
  _errstr "cannot write into packet";
  _result REJECT;
  _prog_type BPF_PROG_TYPE_LWT_IN].

Definition lwt_2 : bpf_test := TEST "invalid direct packet write for LWT_OUT" [
  _insns
   [BPF_LDX_MEM BPF_W BPF_REG_2 BPF_REG_1 (offsetof __sk_buff "data");
    BPF_LDX_MEM BPF_W BPF_REG_3 BPF_REG_1 (offsetof __sk_buff "data_end");
    BPF_MOV64_REG BPF_REG_0 BPF_REG_2; BPF_ALU64_IMM BPF_ADD BPF_REG_0 8;
    BPF_JMP_REG BPF_JGT BPF_REG_0 BPF_REG_3 1; BPF_STX_MEM BPF_B BPF_REG_2 BPF_REG_2 0;
    BPF_MOV64_IMM BPF_REG_0 0; BPF_EXIT_INSN];
  _errstr "cannot write into packet";
  _result REJECT;
  _prog_type BPF_PROG_TYPE_LWT_OUT].

Definition lwt_3 : bpf_test := TEST "direct packet write for LWT_XMIT" [
  _insns
   [BPF_LDX_MEM BPF_W BPF_REG_2 BPF_REG_1 (offsetof __sk_buff "data");
    BPF_LDX_MEM BPF_W BPF_REG_3 BPF_REG_1 (offsetof __sk_buff "data_end");
    BPF_MOV64_REG BPF_REG_0 BPF_REG_2; BPF_ALU64_IMM BPF_ADD BPF_REG_0 8;
    BPF_JMP_REG BPF_JGT BPF_REG_0 BPF_REG_3 1; BPF_STX_MEM BPF_B BPF_REG_2 BPF_REG_2 0;
    BPF_MOV64_IMM BPF_REG_0 0; BPF_EXIT_INSN];
  _result ACCEPT;
  _prog_type BPF_PROG_TYPE_LWT_XMIT].

Definition lwt_4 : bpf_test := TEST "direct packet read for LWT_IN" [
  _insns
   [BPF_LDX_MEM BPF_W BPF_REG_2 BPF_REG_1 (offsetof __sk_buff "data");
    BPF_LDX_MEM BPF_W BPF_REG_3 BPF_REG_1 (offsetof __sk_buff "data_end");
    BPF_MOV64_REG BPF_REG_0 BPF_REG_2; BPF_ALU64_IMM BPF_ADD BPF_REG_0 8;
    BPF_JMP_REG BPF_JGT BPF_REG_0 BPF_REG_3 1; BPF_LDX_MEM BPF_B BPF_REG_0 BPF_REG_2 0;
    BPF_MOV64_IMM BPF_REG_0 0; BPF_EXIT_INSN];
  _result ACCEPT;
  _prog_type BPF_PROG_TYPE_LWT_IN].

Definition lwt_5 : bpf_test := TEST "direct packet read for LWT_OUT" [
  _insns
   [BPF_LDX_MEM BPF_W BPF_REG_2 BPF_REG_1 (offsetof __sk_buff "data");
    BPF_LDX_MEM BPF_W BPF_REG_3 BPF_REG_1 (offsetof __sk_buff "data_end");
    BPF_MOV64_REG BPF_REG_0 BPF_REG_2; BPF_ALU64_IMM BPF_ADD BPF_REG_0 8;
    BPF_JMP_REG BPF_JGT BPF_REG_0 BPF_REG_3 1; BPF_LDX_MEM BPF_B BPF_REG_0 BPF_REG_2 0;
    BPF_MOV64_IMM BPF_REG_0 0; BPF_EXIT_INSN];
  _result ACCEPT;
  _prog_type BPF_PROG_TYPE_LWT_OUT].

Definition lwt_6 : bpf_test := TEST "direct packet read for LWT_XMIT" [
  _insns
   [BPF_LDX_MEM BPF_W BPF_REG_2 BPF_REG_1 (offsetof __sk_buff "data");
    BPF_LDX_MEM BPF_W BPF_REG_3 BPF_REG_1 (offsetof __sk_buff "data_end");
    BPF_MOV64_REG BPF_REG_0 BPF_REG_2; BPF_ALU64_IMM BPF_ADD BPF_REG_0 8;
    BPF_JMP_REG BPF_JGT BPF_REG_0 BPF_REG_3 1; BPF_LDX_MEM BPF_B BPF_REG_0 BPF_REG_2 0;
    BPF_MOV64_IMM BPF_REG_0 0; BPF_EXIT_INSN];
  _result ACCEPT;
  _prog_type BPF_PROG_TYPE_LWT_XMIT].

Definition lwt_7 : bpf_test := TEST "overlapping checks for direct packet access" [
  _insns
   [BPF_LDX_MEM BPF_W BPF_REG_2 BPF_REG_1 (offsetof __sk_buff "data");
    BPF_LDX_MEM BPF_W BPF_REG_3 BPF_REG_1 (offsetof __sk_buff "data_end");
    BPF_MOV64_REG BPF_REG_0 BPF_REG_2; BPF_ALU64_IMM BPF_ADD BPF_REG_0 8;
    BPF_JMP_REG BPF_JGT BPF_REG_0 BPF_REG_3 4; BPF_MOV64_REG BPF_REG_1 BPF_REG_2;
    BPF_ALU64_IMM BPF_ADD BPF_REG_1 6; BPF_JMP_REG BPF_JGT BPF_REG_1 BPF_REG_3 1;
    BPF_LDX_MEM BPF_H BPF_REG_0 BPF_REG_2 6; BPF_MOV64_IMM BPF_REG_0 0; BPF_EXIT_INSN];
  _result ACCEPT;
  _prog_type BPF_PROG_TYPE_LWT_XMIT].

Definition lwt_8 : bpf_test := TEST "make headroom for LWT_XMIT" [
  _insns
   [BPF_MOV64_REG BPF_REG_6 BPF_REG_1; BPF_MOV64_IMM BPF_REG_2 34; BPF_MOV64_IMM BPF_REG_3 0;
    BPF_EMIT_CALL BPF_FUNC_skb_change_head; BPF_MOV64_REG BPF_REG_1 BPF_REG_6;
    BPF_MOV64_IMM BPF_REG_2 42; BPF_MOV64_IMM BPF_REG_3 0;
    BPF_EMIT_CALL BPF_FUNC_skb_change_head; BPF_MOV64_IMM BPF_REG_0 0; BPF_EXIT_INSN];
  _result ACCEPT;
  _prog_type BPF_PROG_TYPE_LWT_XMIT].

Definition lwt_9 : bpf_test := TEST "invalid access of tc_classid for LWT_IN" [
  _insns
   [BPF_LDX_MEM BPF_W BPF_REG_0 BPF_REG_1 (offsetof __sk_buff "tc_classid"); BPF_EXIT_INSN];
  _result REJECT;
  _errstr "invalid bpf_context access"].

Definition lwt_10 : bpf_test := TEST "invalid access of tc_classid for LWT_OUT" [
  _insns
   [BPF_LDX_MEM BPF_W BPF_REG_0 BPF_REG_1 (offsetof __sk_buff "tc_classid"); BPF_EXIT_INSN];
  _result REJECT;
  _errstr "invalid bpf_context access"].

Definition lwt_11 : bpf_test := TEST "invalid access of tc_classid for LWT_XMIT" [
  _insns
   [BPF_LDX_MEM BPF_W BPF_REG_0 BPF_REG_1 (offsetof __sk_buff "tc_classid"); BPF_EXIT_INSN];
  _result REJECT;
  _errstr "invalid bpf_context access"].

Definition lwt_12 : bpf_test := TEST "check skb->tc_classid half load not permitted for lwt prog" [
  _insns
   [BPF_MOV64_IMM BPF_REG_0 0;
    BPF_LDX_MEM BPF_H BPF_REG_0 BPF_REG_1 (offsetof __sk_buff "tc_classid"); BPF_EXIT_INSN];
  _result REJECT;
  _errstr "invalid bpf_context access";
  _prog_type BPF_PROG_TYPE_LWT_IN].

Definition lwt_tests : list bpf_test := [lwt_1; lwt_2; lwt_3; lwt_4; lwt_5; lwt_6; lwt_7; lwt_8;
  lwt_9; lwt_10; lwt_11; lwt_12].

End LegacyPkt.
