(* ===== verification/LegacyXdp.v ===== *)
(** Verifier tests of the repository, packets of XDP programs: direct access, metadata, helpers.

    Each definition is one element of a file of [selftests/legacy/verifier],
    written with the macros of [BpfInsn] and the designators of [ConvertTests];
    a list per file gives them in the order of the file. *)

From S2P Require Import Prelude BpfInsn ConvertTests.
From Stdlib Require Import ZArith String.
From stdpp Require Import base strings list.
Import BpfInsn ConvertTests.
Open Scope Z_scope.

Module LegacyXdp.

(** * [xdp_direct_packet_access.c] *)

Definition xdp_direct_packet_access_1 : bpf_test := TEST "XDP pkt read, pkt_end mangling, bad access 1" [
  _insns
   [BPF_LDX_MEM BPF_W BPF_REG_2 BPF_REG_1 (offsetof xdp_md "data");
    BPF_LDX_MEM BPF_W BPF_REG_3 BPF_REG_1 (offsetof xdp_md "data_end");
    BPF_MOV64_REG BPF_REG_1 BPF_REG_2; BPF_ALU64_IMM BPF_ADD BPF_REG_1 8;
    BPF_ALU64_IMM BPF_ADD BPF_REG_3 8; BPF_JMP_REG BPF_JGT BPF_REG_1 BPF_REG_3 1;
    BPF_LDX_MEM BPF_DW BPF_REG_0 BPF_REG_1 (-8); BPF_MOV64_IMM BPF_REG_0 0; BPF_EXIT_INSN];
  _errstr "R3 pointer arithmetic on pkt_end";
  _result REJECT;
  _prog_type BPF_PROG_TYPE_XDP].

Definition xdp_direct_packet_access_2 : bpf_test := TEST "XDP pkt read, pkt_end mangling, bad access 2" [
  _insns
   [BPF_LDX_MEM BPF_W BPF_REG_2 BPF_REG_1 (offsetof xdp_md "data");
    BPF_LDX_MEM BPF_W BPF_REG_3 BPF_REG_1 (offsetof xdp_md "data_end");
    BPF_MOV64_REG BPF_REG_1 BPF_REG_2; BPF_ALU64_IMM BPF_ADD BPF_REG_1 8;
    BPF_ALU64_IMM BPF_SUB BPF_REG_3 8; BPF_JMP_REG BPF_JGT BPF_REG_1 BPF_REG_3 1;
    BPF_LDX_MEM BPF_DW BPF_REG_0 BPF_REG_1 (-8); BPF_MOV64_IMM BPF_REG_0 0; BPF_EXIT_INSN];
  _errstr "R3 pointer arithmetic on pkt_end";
  _result REJECT;
  _prog_type BPF_PROG_TYPE_XDP].

Definition xdp_direct_packet_access_3 : bpf_test := TEST "XDP pkt read, pkt_data' > pkt_end, corner case, good access" [
  _insns
   [BPF_LDX_MEM BPF_W BPF_REG_2 BPF_REG_1 (offsetof xdp_md "data");
    BPF_LDX_MEM BPF_W BPF_REG_3 BPF_REG_1 (offsetof xdp_md "data_end");
    BPF_MOV64_REG BPF_REG_1 BPF_REG_2; BPF_ALU64_IMM BPF_ADD BPF_REG_1 8;
    BPF_JMP_REG BPF_JGT BPF_REG_1 BPF_REG_3 1; BPF_LDX_MEM BPF_DW BPF_REG_0 BPF_REG_1 (-8);
    BPF_MOV64_IMM BPF_REG_0 0; BPF_EXIT_INSN];
  _result ACCEPT;
  _prog_type BPF_PROG_TYPE_XDP;
  _flags F_NEEDS_EFFICIENT_UNALIGNED_ACCESS].

Definition xdp_direct_packet_access_4 : bpf_test := TEST "XDP pkt read, pkt_data' > pkt_end, bad access 1" [
  _insns
   [BPF_LDX_MEM BPF_W BPF_REG_2 BPF_REG_1 (offsetof xdp_md "data");
    BPF_LDX_MEM BPF_W BPF_REG_3 BPF_REG_1 (offsetof xdp_md "data_end");
    BPF_MOV64_REG BPF_REG_1 BPF_REG_2; BPF_ALU64_IMM BPF_ADD BPF_REG_1 8;
    BPF_JMP_REG BPF_JGT BPF_REG_1 BPF_REG_3 1; BPF_LDX_MEM BPF_DW BPF_REG_0 BPF_REG_1 (-4);
    BPF_MOV64_IMM BPF_REG_0 0; BPF_EXIT_INSN];
  _errstr "R1 offset is outside of the packet";
  _result REJECT;
  _prog_type BPF_PROG_TYPE_XDP;
  _flags F_NEEDS_EFFICIENT_UNALIGNED_ACCESS].

Definition xdp_direct_packet_access_5 : bpf_test := TEST "XDP pkt read, pkt_data' > pkt_end, bad access 2" [
  _insns
   [BPF_LDX_MEM BPF_W BPF_REG_2 BPF_REG_1 (offsetof xdp_md "data");
    BPF_LDX_MEM BPF_W BPF_REG_3 BPF_REG_1 (offsetof xdp_md "data_end");
    BPF_MOV64_REG BPF_REG_1 BPF_REG_2; BPF_ALU64_IMM BPF_ADD BPF_REG_1 8;
    BPF_JMP_REG BPF_JGT BPF_REG_1 BPF_REG_3 0; BPF_LDX_MEM BPF_DW BPF_REG_0 BPF_REG_1 (-8);
    BPF_MOV64_IMM BPF_REG_0 0; BPF_EXIT_INSN];
  _errstr "R1 offset is outside of the packet";
  _result REJECT;
  _prog_type BPF_PROG_TYPE_XDP;
  _flags F_NEEDS_EFFICIENT_UNALIGNED_ACCESS].

Definition xdp_direct_packet_access_6 : bpf_test := TEST "XDP pkt read, pkt_data' > pkt_end, corner case +1, good access" [
  _insns
   [BPF_LDX_MEM BPF_W BPF_REG_2 BPF_REG_1 (offsetof xdp_md "data");
    BPF_LDX_MEM BPF_W BPF_REG_3 BPF_REG_1 (offsetof xdp_md "data_end");
    BPF_MOV64_REG BPF_REG_1 BPF_REG_2; BPF_ALU64_IMM BPF_ADD BPF_REG_1 9;
    BPF_JMP_REG BPF_JGT BPF_REG_1 BPF_REG_3 1; BPF_LDX_MEM BPF_DW BPF_REG_0 BPF_REG_1 (-9);
    BPF_MOV64_IMM BPF_REG_0 0; BPF_EXIT_INSN];
  _result ACCEPT;
  _prog_type BPF_PROG_TYPE_XDP;
  _flags F_NEEDS_EFFICIENT_UNALIGNED_ACCESS].

Definition xdp_direct_packet_access_7 : bpf_test := TEST "XDP pkt read, pkt_data' > pkt_end, corner case -1, bad access" [
  _insns
   [BPF_LDX_MEM BPF_W BPF_REG_2 BPF_REG_1 (offsetof xdp_md "data");
    BPF_LDX_MEM BPF_W BPF_REG_3 BPF_REG_1 (offsetof xdp_md "data_end");
    BPF_MOV64_REG BPF_REG_1 BPF_REG_2; BPF_ALU64_IMM BPF_ADD BPF_REG_1 7;
    BPF_JMP_REG BPF_JGT BPF_REG_1 BPF_REG_3 1; BPF_LDX_MEM BPF_DW BPF_REG_0 BPF_REG_1 (-7);
    BPF_MOV64_IMM BPF_REG_0 0; BPF_EXIT_INSN];
  _errstr "R1 offset is outside of the packet";
  _result REJECT;
  _prog_type BPF_PROG_TYPE_XDP;
  _flags F_NEEDS_EFFICIENT_UNALIGNED_ACCESS].

Definition xdp_direct_packet_access_8 : bpf_test := TEST "XDP pkt read, pkt_end > pkt_data', good access" [
  _insns
   [BPF_LDX_MEM BPF_W BPF_REG_2 BPF_REG_1 (offsetof xdp_md "data");
    BPF_LDX_MEM BPF_W BPF_REG_3 BPF_REG_1 (offsetof xdp_md "data_end");
    BPF_MOV64_REG BPF_REG_1 BPF_REG_2; BPF_ALU64_IMM BPF_ADD BPF_REG_1 8;
    BPF_JMP_REG BPF_JGT BPF_REG_3 BPF_REG_1 1; BPF_JMP_IMM BPF_JA 0 0 1;
    BPF_LDX_MEM BPF_W BPF_REG_0 BPF_REG_1 (-5); BPF_MOV64_IMM BPF_REG_0 0; BPF_EXIT_INSN];
  _result ACCEPT;
  _prog_type BPF_PROG_TYPE_XDP;
  _flags F_NEEDS_EFFICIENT_UNALIGNED_ACCESS].

Definition xdp_direct_packet_access_9 : bpf_test := TEST "XDP pkt read, pkt_end > pkt_data', corner case -1, bad access" [
  _insns
   [BPF_LDX_MEM BPF_W BPF_REG_2 BPF_REG_1 (offsetof xdp_md "data");
    BPF_LDX_MEM BPF_W BPF_REG_3 BPF_REG_1 (offsetof xdp_md "data_end");
    BPF_MOV64_REG BPF_REG_1 BPF_REG_2; BPF_ALU64_IMM BPF_ADD BPF_REG_1 6;
    BPF_JMP_REG BPF_JGT BPF_REG_3 BPF_REG_1 1; BPF_JMP_IMM BPF_JA 0 0 1;
    BPF_LDX_MEM BPF_DW BPF_REG_0 BPF_REG_1 (-6); BPF_MOV64_IMM BPF_REG_0 0; BPF_EXIT_INSN];
  _errstr "R1 offset is outside of the packet";
  _result REJECT;
  _prog_type BPF_PROG_TYPE_XDP;
  _flags F_NEEDS_EFFICIENT_UNALIGNED_ACCESS].

Definition xdp_direct_packet_access_10 : bpf_test := TEST "XDP pkt read, pkt_end > pkt_data', bad access 2" [
  _insns
   [BPF_LDX_MEM BPF_W BPF_REG_2 BPF_REG_1 (offsetof xdp_md "data");
    BPF_LDX_MEM BPF_W BPF_REG_3 BPF_REG_1 (offsetof xdp_md "data_end");
    BPF_MOV64_REG BPF_REG_1 BPF_REG_2; BPF_ALU64_IMM BPF_ADD BPF_REG_1 8;
    BPF_JMP_REG BPF_JGT BPF_REG_3 BPF_REG_1 1; BPF_LDX_MEM BPF_DW BPF_REG_0 BPF_REG_1 (-8);
    BPF_MOV64_IMM BPF_REG_0 0; BPF_EXIT_INSN];
  _errstr "R1 offset is outside of the packet";
  _result REJECT;
  _prog_type BPF_PROG_TYPE_XDP;
  _flags F_NEEDS_EFFICIENT_UNALIGNED_ACCESS].

Definition xdp_direct_packet_access_11 : bpf_test := TEST "XDP pkt read, pkt_end > pkt_data', corner case, good access" [
  _insns
   [BPF_LDX_MEM BPF_W BPF_REG_2 BPF_REG_1 (offsetof xdp_md "data");
    BPF_LDX_MEM BPF_W BPF_REG_3 BPF_REG_1 (offsetof xdp_md "data_end");
    BPF_MOV64_REG BPF_REG_1 BPF_REG_2; BPF_ALU64_IMM BPF_ADD BPF_REG_1 7;
    BPF_JMP_REG BPF_JGT BPF_REG_3 BPF_REG_1 1; BPF_JMP_IMM BPF_JA 0 0 1;
    BPF_LDX_MEM BPF_DW BPF_REG_0 BPF_REG_1 (-7); BPF_MOV64_IMM BPF_REG_0 0; BPF_EXIT_INSN];
  _result ACCEPT;
  _prog_type BPF_PROG_TYPE_XDP;
  _flags F_NEEDS_EFFICIENT_UNALIGNED_ACCESS].

Definition xdp_direct_packet_access_12 : bpf_test := TEST "XDP pkt read, pkt_end > pkt_data', corner case +1, good access" [
  _insns
   [BPF_LDX_MEM BPF_W BPF_REG_2 BPF_REG_1 (offsetof xdp_md "data");
    BPF_LDX_MEM BPF_W BPF_REG_3 BPF_REG_1 (offsetof xdp_md "data_end");
    BPF_MOV64_REG BPF_REG_1 BPF_REG_2; BPF_ALU64_IMM BPF_ADD BPF_REG_1 8;
    BPF_JMP_REG BPF_JGT BPF_REG_3 BPF_REG_1 1; BPF_JMP_IMM BPF_JA 0 0 1;
    BPF_LDX_MEM BPF_DW BPF_REG_0 BPF_REG_1 (-8); BPF_MOV64_IMM BPF_REG_0 0; BPF_EXIT_INSN];
  _result ACCEPT;
  _prog_type BPF_PROG_TYPE_XDP;
  _flags F_NEEDS_EFFICIENT_UNALIGNED_ACCESS].

Definition xdp_direct_packet_access_13 : bpf_test := TEST "XDP pkt read, pkt_data' < pkt_end, good access" [
  _insns
   [BPF_LDX_MEM BPF_W BPF_REG_2 BPF_REG_1 (offsetof xdp_md "data");
    BPF_LDX_MEM BPF_W BPF_REG_3 BPF_REG_1 (offsetof xdp_md "data_end");
    BPF_MOV64_REG BPF_REG_1 BPF_REG_2; BPF_ALU64_IMM BPF_ADD BPF_REG_1 8;
    BPF_JMP_REG BPF_JLT BPF_REG_1 BPF_REG_3 1; BPF_JMP_IMM BPF_JA 0 0 1;
    BPF_LDX_MEM BPF_W BPF_REG_0 BPF_REG_1 (-5); BPF_MOV64_IMM BPF_REG_0 0; BPF_EXIT_INSN];
  _result ACCEPT;
  _prog_type BPF_PROG_TYPE_XDP;
  _flags F_NEEDS_EFFICIENT_UNALIGNED_ACCESS].

Definition xdp_direct_packet_access_14 : bpf_test := TEST "XDP pkt read, pkt_data' < pkt_end, corner case -1, bad access" [
  _insns
   [BPF_LDX_MEM BPF_W BPF_REG_2 BPF_REG_1 (offsetof xdp_md "data");
    BPF_LDX_MEM BPF_W BPF_REG_3 BPF_REG_1 (offsetof xdp_md "data_end");
    BPF_MOV64_REG BPF_REG_1 BPF_REG_2; BPF_ALU64_IMM BPF_ADD BPF_REG_1 6;
    BPF_JMP_REG BPF_JLT BPF_REG_1 BPF_REG_3 1; BPF_JMP_IMM BPF_JA 0 0 1;
    BPF_LDX_MEM BPF_DW BPF_REG_0 BPF_REG_1 (-6); BPF_MOV64_IMM BPF_REG_0 0; BPF_EXIT_INSN];
  _errstr "R1 offset is outside of the packet";
  _result REJECT;
  _prog_type BPF_PROG_TYPE_XDP;
  _flags F_NEEDS_EFFICIENT_UNALIGNED_ACCESS].

Definition xdp_direct_packet_access_15 : bpf_test := TEST "XDP pkt read, pkt_data' < pkt_end, bad access 2" [
  _insns
   [BPF_LDX_MEM BPF_W BPF_REG_2 BPF_REG_1 (offsetof xdp_md "data");
    BPF_LDX_MEM BPF_W BPF_REG_3 BPF_REG_1 (offsetof xdp_md "data_end");
    BPF_MOV64_REG BPF_REG_1 BPF_REG_2; BPF_ALU64_IMM BPF_ADD BPF_REG_1 8;
    BPF_JMP_REG BPF_JLT BPF_REG_1 BPF_REG_3 1; BPF_LDX_MEM BPF_DW BPF_REG_0 BPF_REG_1 (-8);
    BPF_MOV64_IMM BPF_REG_0 0; BPF_EXIT_INSN];
  _errstr "R1 offset is outside of the packet";
  _result REJECT;
  _prog_type BPF_PROG_TYPE_XDP;
  _flags F_NEEDS_EFFICIENT_UNALIGNED_ACCESS].

Definition xdp_direct_packet_access_16 : bpf_test := TEST "XDP pkt read, pkt_data' < pkt_end, corner case, good access" [
  _insns
   [BPF_LDX_MEM BPF_W BPF_REG_2 BPF_REG_1 (offsetof xdp_md "data");
    BPF_LDX_MEM BPF_W BPF_REG_3 BPF_REG_1 (offsetof xdp_md "data_end");
    BPF_MOV64_REG BPF_REG_1 BPF_REG_2; BPF_ALU64_IMM BPF_ADD BPF_REG_1 7;
    BPF_JMP_REG BPF_JLT BPF_REG_1 BPF_REG_3 1; BPF_JMP_IMM BPF_JA 0 0 1;
    BPF_LDX_MEM BPF_DW BPF_REG_0 BPF_REG_1 (-7); BPF_MOV64_IMM BPF_REG_0 0; BPF_EXIT_INSN];
  _result ACCEPT;
  _prog_type BPF_PROG_TYPE_XDP;
  _flags F_NEEDS_EFFICIENT_UNALIGNED_ACCESS].

Definition xdp_direct_packet_access_17 : bpf_test := TEST "XDP pkt read, pkt_data' < pkt_end, corner case +1, good access" [
  _insns
   [BPF_LDX_MEM BPF_W BPF_REG_2 BPF_REG_1 (offsetof xdp_md "data");
    BPF_LDX_MEM BPF_W BPF_REG_3 BPF_REG_1 (offsetof xdp_md "data_end");
    BPF_MOV64_REG BPF_REG_1 BPF_REG_2; BPF_ALU64_IMM BPF_ADD BPF_REG_1 8;
    BPF_JMP_REG BPF_JLT BPF_REG_1 BPF_REG_3 1; BPF_JMP_IMM BPF_JA 0 0 1;
    BPF_LDX_MEM BPF_DW BPF_REG_0 BPF_REG_1 (-8); BPF_MOV64_IMM BPF_REG_0 0; BPF_EXIT_INSN];
  _result ACCEPT;
  _prog_type BPF_PROG_TYPE_XDP;
  _flags F_NEEDS_EFFICIENT_UNALIGNED_ACCESS].

Definition xdp_direct_packet_access_18 : bpf_test := TEST "XDP pkt read, pkt_end < pkt_data', corner case, good access" [
  _insns
   [BPF_LDX_MEM BPF_W BPF_REG_2 BPF_REG_1 (offsetof xdp_md "data");
    BPF_LDX_MEM BPF_W BPF_REG_3 BPF_REG_1 (offsetof xdp_md "data_end");
    BPF_MOV64_REG BPF_REG_1 BPF_REG_2; BPF_ALU64_IMM BPF_ADD BPF_REG_1 8;
    BPF_JMP_REG BPF_JLT BPF_REG_3 BPF_REG_1 1; BPF_LDX_MEM BPF_DW BPF_REG_0 BPF_REG_1 (-8);
    BPF_MOV64_IMM BPF_REG_0 0; BPF_EXIT_INSN];
  _result ACCEPT;
  _prog_type BPF_PROG_TYPE_XDP;
  _flags F_NEEDS_EFFICIENT_UNALIGNED_ACCESS].

Definition xdp_direct_packet_access_19 : bpf_test := TEST "XDP pkt read, pkt_end < pkt_data', bad access 1" [
  _insns
   [BPF_LDX_MEM BPF_W BPF_REG_2 BPF_REG_1 (offsetof xdp_md "data");
    BPF_LDX_MEM BPF_W BPF_REG_3 BPF_REG_1 (offsetof xdp_md "data_end");
    BPF_MOV64_REG BPF_REG_1 BPF_REG_2; BPF_ALU64_IMM BPF_ADD BPF_REG_1 8;
    BPF_JMP_REG BPF_JLT BPF_REG_3 BPF_REG_1 1; BPF_LDX_MEM BPF_DW BPF_REG_0 BPF_REG_1 (-4);
    BPF_MOV64_IMM BPF_REG_0 0; BPF_EXIT_INSN];
  _errstr "R1 offset is outside of the packet";
  _result REJECT;
  _prog_type BPF_PROG_TYPE_XDP;
  _flags F_NEEDS_EFFICIENT_UNALIGNED_ACCESS].

Definition xdp_direct_packet_access_20 : bpf_test := TEST "XDP pkt read, pkt_end < pkt_data', bad access 2" [
  _insns
   [BPF_LDX_MEM BPF_W BPF_REG_2 BPF_REG_1 (offsetof xdp_md "data");
    BPF_LDX_MEM BPF_W BPF_REG_3 BPF_REG_1 (offsetof xdp_md "data_end");
    BPF_MOV64_REG BPF_REG_1 BPF_REG_2; BPF_ALU64_IMM BPF_ADD BPF_REG_1 8;
    BPF_JMP_REG BPF_JLT BPF_REG_3 BPF_REG_1 0; BPF_LDX_MEM BPF_DW BPF_REG_0 BPF_REG_1 (-8);
    BPF_MOV64_IMM BPF_REG_0 0; BPF_EXIT_INSN];
  _errstr "R1 offset is outside of the packet";
  _result REJECT;
  _prog_type BPF_PROG_TYPE_XDP;
  _flags F_NEEDS_EFFICIENT_UNALIGNED_ACCESS].

Definition xdp_direct_packet_access_21 : bpf_test := TEST "XDP pkt read, pkt_end < pkt_data', corner case +1, good access" [
  _insns
   [BPF_LDX_MEM BPF_W BPF_REG_2 BPF_REG_1 (offsetof xdp_md "data");
    BPF_LDX_MEM BPF_W BPF_REG_3 BPF_REG_1 (offsetof xdp_md "data_end");
    BPF_MOV64_REG BPF_REG_1 BPF_REG_2; BPF_ALU64_IMM BPF_ADD BPF_REG_1 9;
    BPF_JMP_REG BPF_JLT BPF_REG_3 BPF_REG_1 1; BPF_LDX_MEM BPF_DW BPF_REG_0 BPF_REG_1 (-9);
    BPF_MOV64_IMM BPF_REG_0 0; BPF_EXIT_INSN];
  _result ACCEPT;
  _prog_type BPF_PROG_TYPE_XDP;
  _flags F_NEEDS_EFFICIENT_UNALIGNED_ACCESS].

Definition xdp_direct_packet_access_22 : bpf_test := TEST "XDP pkt read, pkt_end < pkt_data', corner case -1, bad access" [
  _insns
   [BPF_LDX_MEM BPF_W BPF_REG_2 BPF_REG_1 (offsetof xdp_md "data");
    BPF_LDX_MEM BPF_W BPF_REG_3 BPF_REG_1 (offsetof xdp_md "data_end");
    BPF_MOV64_REG BPF_REG_1 BPF_REG_2; BPF_ALU64_IMM BPF_ADD BPF_REG_1 7;
    BPF_JMP_REG BPF_JLT BPF_REG_3 BPF_REG_1 1; BPF_LDX_MEM BPF_DW BPF_REG_0 BPF_REG_1 (-7);
    BPF_MOV64_IMM BPF_REG_0 0; BPF_EXIT_INSN];
  _errstr "R1 offset is outside of the packet";
  _result REJECT;
  _prog_type BPF_PROG_TYPE_XDP;
  _flags F_NEEDS_EFFICIENT_UNALIGNED_ACCESS].

Definition xdp_direct_packet_access_23 : bpf_test := TEST "XDP pkt read, pkt_data' >= pkt_end, good access" [
  _insns
   [BPF_LDX_MEM BPF_W BPF_REG_2 BPF_REG_1 (offsetof xdp_md "data");
    BPF_LDX_MEM BPF_W BPF_REG_3 BPF_REG_1 (offsetof xdp_md "data_end");
    BPF_MOV64_REG BPF_REG_1 BPF_REG_2; BPF_ALU64_IMM BPF_ADD BPF_REG_1 8;
    BPF_JMP_REG BPF_JGE BPF_REG_1 BPF_REG_3 1; BPF_LDX_MEM BPF_W BPF_REG_0 BPF_REG_1 (-5);
    BPF_MOV64_IMM BPF_REG_0 0; BPF_EXIT_INSN];
  _result ACCEPT;
  _prog_type BPF_PROG_TYPE_XDP;
  _flags F_NEEDS_EFFICIENT_UNALIGNED_ACCESS].

Definition xdp_direct_packet_access_24 : bpf_test := TEST "XDP pkt read, pkt_data' >= pkt_end, corner case -1, bad access" [
  _insns
   [BPF_LDX_MEM BPF_W BPF_REG_2 BPF_REG_1 (offsetof xdp_md "data");
    BPF_LDX_MEM BPF_W BPF_REG_3 BPF_REG_1 (offsetof xdp_md "data_end");
    BPF_MOV64_REG BPF_REG_1 BPF_REG_2; BPF_ALU64_IMM BPF_ADD BPF_REG_1 6;
    BPF_JMP_REG BPF_JGE BPF_REG_1 BPF_REG_3 1; BPF_LDX_MEM BPF_DW BPF_REG_0 BPF_REG_1 (-6);
    BPF_MOV64_IMM BPF_REG_0 0; BPF_EXIT_INSN];
  _errstr "R1 offset is outside of the packet";
  _result REJECT;
  _prog_type BPF_PROG_TYPE_XDP;
  _flags F_NEEDS_EFFICIENT_UNALIGNED_ACCESS].

Definition xdp_direct_packet_access_25 : bpf_test := TEST "XDP pkt read, pkt_data' >= pkt_end, bad access 2" [
  _insns
   [BPF_LDX_MEM BPF_W BPF_REG_2 BPF_REG_1 (offsetof xdp_md "data");
    BPF_LDX_MEM BPF_W BPF_REG_3 BPF_REG_1 (offsetof xdp_md "data_end");
    BPF_MOV64_REG BPF_REG_1 BPF_REG_2; BPF_ALU64_IMM BPF_ADD BPF_REG_1 8;
    BPF_JMP_REG BPF_JGE BPF_REG_1 BPF_REG_3 0; BPF_LDX_MEM BPF_W BPF_REG_0 BPF_REG_1 (-5);
    BPF_MOV64_IMM BPF_REG_0 0; BPF_EXIT_INSN];
  _errstr "R1 offset is outside of the packet";
  _result REJECT;
  _prog_type BPF_PROG_TYPE_XDP;
  _flags F_NEEDS_EFFICIENT_UNALIGNED_ACCESS].

Definition xdp_direct_packet_access_26 : bpf_test := TEST "XDP pkt read, pkt_data' >= pkt_end, corner case, good access" [
  _insns
   [BPF_LDX_MEM BPF_W BPF_REG_2 BPF_REG_1 (offsetof xdp_md "data");
    BPF_LDX_MEM BPF_W BPF_REG_3 BPF_REG_1 (offsetof xdp_md "data_end");
    BPF_MOV64_REG BPF_REG_1 BPF_REG_2; BPF_ALU64_IMM BPF_ADD BPF_REG_1 7;
    BPF_JMP_REG BPF_JGE BPF_REG_1 BPF_REG_3 1; BPF_LDX_MEM BPF_DW BPF_REG_0 BPF_REG_1 (-7);
    BPF_MOV64_IMM BPF_REG_0 0; BPF_EXIT_INSN];
  _result ACCEPT;
  _prog_type BPF_PROG_TYPE_XDP;
  _flags F_NEEDS_EFFICIENT_UNALIGNED_ACCESS].

Definition xdp_direct_packet_access_27 : bpf_test := TEST "XDP pkt read, pkt_data' >= pkt_end, corner case +1, good access" [
  _insns
   [BPF_LDX_MEM BPF_W BPF_REG_2 BPF_REG_1 (offsetof xdp_md "data");
    BPF_LDX_MEM BPF_W BPF_REG_3 BPF_REG_1 (offsetof xdp_md "data_end");
    BPF_MOV64_REG BPF_REG_1 BPF_REG_2; BPF_ALU64_IMM BPF_ADD BPF_REG_1 8;
    BPF_JMP_REG BPF_JGE BPF_REG_1 BPF_REG_3 1; BPF_LDX_MEM BPF_DW BPF_REG_0 BPF_REG_1 (-8);
    BPF_MOV64_IMM BPF_REG_0 0; BPF_EXIT_INSN];
  _result ACCEPT;
  _prog_type BPF_PROG_TYPE_XDP;
  _flags F_NEEDS_EFFICIENT_UNALIGNED_ACCESS].

Definition xdp_direct_packet_access_28 : bpf_test := TEST "XDP pkt read, pkt_end >= pkt_data', corner case, good access" [
  _insns
   [BPF_LDX_MEM BPF_W BPF_REG_2 BPF_REG_1 (offsetof xdp_md "data");
    BPF_LDX_MEM BPF_W BPF_REG_3 BPF_REG_1 (offsetof xdp_md "data_end");
    BPF_MOV64_REG BPF_REG_1 BPF_REG_2; BPF_ALU64_IMM BPF_ADD BPF_REG_1 8;
    BPF_JMP_REG BPF_JGE BPF_REG_3 BPF_REG_1 1; BPF_JMP_IMM BPF_JA 0 0 1;
    BPF_LDX_MEM BPF_DW BPF_REG_0 BPF_REG_1 (-8); BPF_MOV64_IMM BPF_REG_0 0; BPF_EXIT_INSN];
  _result ACCEPT;
  _prog_type BPF_PROG_TYPE_XDP;
  _flags F_NEEDS_EFFICIENT_UNALIGNED_ACCESS].

Definition xdp_direct_packet_access_29 : bpf_test := TEST "XDP pkt read, pkt_end >= pkt_data', bad access 1" [
  _insns
   [BPF_LDX_MEM BPF_W BPF_REG_2 BPF_REG_1 (offsetof xdp_md "data");
    BPF_LDX_MEM BPF_W BPF_REG_3 BPF_REG_1 (offsetof xdp_md "data_end");
    BPF_MOV64_REG BPF_REG_1 BPF_REG_2; BPF_ALU64_IMM BPF_ADD BPF_REG_1 8;
    BPF_JMP_REG BPF_JGE BPF_REG_3 BPF_REG_1 1; BPF_JMP_IMM BPF_JA 0 0 1;
    BPF_LDX_MEM BPF_DW BPF_REG_0 BPF_REG_1 (-4); BPF_MOV64_IMM BPF_REG_0 0; BPF_EXIT_INSN];
  _errstr "R1 offset is outside of the packet";
  _result REJECT;
  _prog_type BPF_PROG_TYPE_XDP;
  _flags F_NEEDS_EFFICIENT_UNALIGNED_ACCESS].

Definition xdp_direct_packet_access_30 : bpf_test := TEST "XDP pkt read, pkt_end >= pkt_data', bad access 2" [
  _insns
   [BPF_LDX_MEM BPF_W BPF_REG_2 BPF_REG_1 (offsetof xdp_md "data");
    BPF_LDX_MEM BPF_W BPF_REG_3 BPF_REG_1 (offsetof xdp_md "data_end");
    BPF_MOV64_REG BPF_REG_1 BPF_REG_2; BPF_ALU64_IMM BPF_ADD BPF_REG_1 8;
    BPF_JMP_REG BPF_JGE BPF_REG_3 BPF_REG_1 1; BPF_LDX_MEM BPF_DW BPF_REG_0 BPF_REG_1 (-8);
    BPF_MOV64_IMM BPF_REG_0 0; BPF_EXIT_INSN];
  _errstr "R1 offset is outside of the packet";
  _result REJECT;
  _prog_type BPF_PROG_TYPE_XDP;
  _flags F_NEEDS_EFFICIENT_UNALIGNED_ACCESS].

Definition xdp_direct_packet_access_31 : bpf_test := TEST "XDP pkt read, pkt_end >= pkt_data', corner case +1, good access" [
  _insns
   [BPF_LDX_MEM BPF_W BPF_REG_2 BPF_REG_1 (offsetof xdp_md "data");
    BPF_LDX_MEM BPF_W BPF_REG_3 BPF_REG_1 (offsetof xdp_md "data_end");
    BPF_MOV64_REG BPF_REG_1 BPF_REG_2; BPF_ALU64_IMM BPF_ADD BPF_REG_1 9;
    BPF_JMP_REG BPF_JGE BPF_REG_3 BPF_REG_1 1; BPF_JMP_IMM BPF_JA 0 0 1;
    BPF_LDX_MEM BPF_DW BPF_REG_0 BPF_REG_1 (-9); BPF_MOV64_IMM BPF_REG_0 0; BPF_EXIT_INSN];
  _result ACCEPT;
  _prog_type BPF_PROG_TYPE_XDP;
  _flags F_NEEDS_EFFICIENT_UNALIGNED_ACCESS].

Definition xdp_direct_packet_access_32 : bpf_test := TEST "XDP pkt read, pkt_end >= pkt_data', corner case -1, bad access" [
  _insns
   [BPF_LDX_MEM BPF_W BPF_REG_2 BPF_REG_1 (offsetof xdp_md "data");
    BPF_LDX_MEM BPF_W BPF_REG_3 BPF_REG_1 (offsetof xdp_md "data_end");
    BPF_MOV64_REG BPF_REG_1 BPF_REG_2; BPF_ALU64_IMM BPF_ADD BPF_REG_1 7;
    BPF_JMP_REG BPF_JGE BPF_REG_3 BPF_REG_1 1; BPF_JMP_IMM BPF_JA 0 0 1;
    BPF_LDX_MEM BPF_DW BPF_REG_0 BPF_REG_1 (-7); BPF_MOV64_IMM BPF_REG_0 0; BPF_EXIT_INSN];
  _errstr "R1 offset is outside of the packet";
  _result REJECT;
  _prog_type BPF_PROG_TYPE_XDP;
  _flags F_NEEDS_EFFICIENT_UNALIGNED_ACCESS].

Definition xdp_direct_packet_access_33 : bpf_test := TEST "XDP pkt read, pkt_data' <= pkt_end, corner case, good access" [
  _insns
   [BPF_LDX_MEM BPF_W BPF_REG_2 BPF_REG_1 (offsetof xdp_md "data");
    BPF_LDX_MEM BPF_W BPF_REG_3 BPF_REG_1 (offsetof xdp_md "data_end");
    BPF_MOV64_REG BPF_REG_1 BPF_REG_2; BPF_ALU64_IMM BPF_ADD BPF_REG_1 8;
    BPF_JMP_REG BPF_JLE BPF_REG_1 BPF_REG_3 1; BPF_JMP_IMM BPF_JA 0 0 1;
    BPF_LDX_MEM BPF_DW BPF_REG_0 BPF_REG_1 (-8); BPF_MOV64_IMM BPF_REG_0 0; BPF_EXIT_INSN];
  _result ACCEPT;
  _prog_type BPF_PROG_TYPE_XDP;
  _flags F_NEEDS_EFFICIENT_UNALIGNED_ACCESS].

Definition xdp_direct_packet_access_34 : bpf_test := TEST "XDP pkt read, pkt_data' <= pkt_end, bad access 1" [
  _insns
   [BPF_LDX_MEM BPF_W BPF_REG_2 BPF_REG_1 (offsetof xdp_md "data");
    BPF_LDX_MEM BPF_W BPF_REG_3 BPF_REG_1 (offsetof xdp_md "data_end");
    BPF_MOV64_REG BPF_REG_1 BPF_REG_2; BPF_ALU64_IMM BPF_ADD BPF_REG_1 8;
    BPF_JMP_REG BPF_JLE BPF_REG_1 BPF_REG_3 1; BPF_JMP_IMM BPF_JA 0 0 1;
    BPF_LDX_MEM BPF_DW BPF_REG_0 BPF_REG_1 (-4); BPF_MOV64_IMM BPF_REG_0 0; BPF_EXIT_INSN];
  _errstr "R1 offset is outside of the packet";
  _result REJECT;
  _prog_type BPF_PROG_TYPE_XDP;
  _flags F_NEEDS_EFFICIENT_UNALIGNED_ACCESS].

Definition xdp_direct_packet_access_35 : bpf_test := TEST "XDP pkt read, pkt_data' <= pkt_end, bad access 2" [
  _insns
   [BPF_LDX_MEM BPF_W BPF_REG_2 BPF_REG_1 (offsetof xdp_md "data");
    BPF_LDX_MEM BPF_W BPF_REG_3 BPF_REG_1 (offsetof xdp_md "data_end");
    BPF_MOV64_REG BPF_REG_1 BPF_REG_2; BPF_ALU64_IMM BPF_ADD BPF_REG_1 8;
    BPF_JMP_REG BPF_JLE BPF_REG_1 BPF_REG_3 1; BPF_LDX_MEM BPF_DW BPF_REG_0 BPF_REG_1 (-8);
    BPF_MOV64_IMM BPF_REG_0 0; BPF_EXIT_INSN];
  _errstr "R1 offset is outside of the packet";
  _result REJECT;
  _prog_type BPF_PROG_TYPE_XDP;
  _flags F_NEEDS_EFFICIENT_UNALIGNED_ACCESS].

Definition xdp_direct_packet_access_36 : bpf_test := TEST "XDP pkt read, pkt_data' <= pkt_end, corner case +1, good access" [
  _insns
   [BPF_LDX_MEM BPF_W BPF_REG_2 BPF_REG_1 (offsetof xdp_md "data");
    BPF_LDX_MEM BPF_W BPF_REG_3 BPF_REG_1 (offsetof xdp_md "data_end");
    BPF_MOV64_REG BPF_REG_1 BPF_REG_2; BPF_ALU64_IMM BPF_ADD BPF_REG_1 9;
    BPF_JMP_REG BPF_JLE BPF_REG_1 BPF_REG_3 1; BPF_JMP_IMM BPF_JA 0 0 1;
    BPF_LDX_MEM BPF_DW BPF_REG_0 BPF_REG_1 (-9); BPF_MOV64_IMM BPF_REG_0 0; BPF_EXIT_INSN];
  _result ACCEPT;
  _prog_type BPF_PROG_TYPE_XDP;
  _flags F_NEEDS_EFFICIENT_UNALIGNED_ACCESS].

Definition xdp_direct_packet_access_37 : bpf_test := TEST "XDP pkt read, pkt_data' <= pkt_end, corner case -1, bad access" [
  _insns
   [BPF_LDX_MEM BPF_W BPF_REG_2 BPF_REG_1 (offsetof xdp_md "data");
    BPF_LDX_MEM BPF_W BPF_REG_3 BPF_REG_1 (offsetof xdp_md "data_end");
    BPF_MOV64_REG BPF_REG_1 BPF_REG_2; BPF_ALU64_IMM BPF_ADD BPF_REG_1 7;
    BPF_JMP_REG BPF_JLE BPF_REG_1 BPF_REG_3 1; BPF_JMP_IMM BPF_JA 0 0 1;
    BPF_LDX_MEM BPF_DW BPF_REG_0 BPF_REG_1 (-7); BPF_MOV64_IMM BPF_REG_0 0; BPF_EXIT_INSN];
  _errstr "R1 offset is outside of the packet";
  _result REJECT;
  _prog_type BPF_PROG_TYPE_XDP;
  _flags F_NEEDS_EFFICIENT_UNALIGNED_ACCESS].

Definition xdp_direct_packet_access_38 : bpf_test := TEST "XDP pkt read, pkt_end <= pkt_data', good access" [
  _insns
   [BPF_LDX_MEM BPF_W BPF_REG_2 BPF_REG_1 (offsetof xdp_md "data");
    BPF_LDX_MEM BPF_W BPF_REG_3 BPF_REG_1 (offsetof xdp_md "data_end");
    BPF_MOV64_REG BPF_REG_1 BPF_REG_2; BPF_ALU64_IMM BPF_ADD BPF_REG_1 8;
    BPF_JMP_REG BPF_JLE BPF_REG_3 BPF_REG_1 1; BPF_LDX_MEM BPF_W BPF_REG_0 BPF_REG_1 (-5);
    BPF_MOV64_IMM BPF_REG_0 0; BPF_EXIT_INSN];
  _result ACCEPT;
  _prog_type BPF_PROG_TYPE_XDP;
  _flags F_NEEDS_EFFICIENT_UNALIGNED_ACCESS].

Definition xdp_direct_packet_access_39 : bpf_test := TEST "XDP pkt read, pkt_end <= pkt_data', corner case -1, bad access" [
  _insns
   [BPF_LDX_MEM BPF_W BPF_REG_2 BPF_REG_1 (offsetof xdp_md "data");
    BPF_LDX_MEM BPF_W BPF_REG_3 BPF_REG_1 (offsetof xdp_md "data_end");
    BPF_MOV64_REG BPF_REG_1 BPF_REG_2; BPF_ALU64_IMM BPF_ADD BPF_REG_1 6;
    BPF_JMP_REG BPF_JLE BPF_REG_3 BPF_REG_1 1; BPF_LDX_MEM BPF_DW BPF_REG_0 BPF_REG_1 (-6);
    BPF_MOV64_IMM BPF_REG_0 0; BPF_EXIT_INSN];
  _errstr "R1 offset is outside of the packet";
  _result REJECT;
  _prog_type BPF_PROG_TYPE_XDP;
  _flags F_NEEDS_EFFICIENT_UNALIGNED_ACCESS].

Definition xdp_direct_packet_access_40 : bpf_test := TEST "XDP pkt read, pkt_end <= pkt_data', bad access 2" [
  _insns
   [BPF_LDX_MEM BPF_W BPF_REG_2 BPF_REG_1 (offsetof xdp_md "data");
    BPF_LDX_MEM BPF_W BPF_REG_3 BPF_REG_1 (offsetof xdp_md "data_end");
    BPF_MOV64_REG BPF_REG_1 BPF_REG_2; BPF_ALU64_IMM BPF_ADD BPF_REG_1 8;
    BPF_JMP_REG BPF_JLE BPF_REG_3 BPF_REG_1 0; BPF_LDX_MEM BPF_W BPF_REG_0 BPF_REG_1 (-5);
    BPF_MOV64_IMM BPF_REG_0 0; BPF_EXIT_INSN];
  _errstr "R1 offset is outside of the packet";
  _result REJECT;
  _prog_type BPF_PROG_TYPE_XDP;
  _flags F_NEEDS_EFFICIENT_UNALIGNED_ACCESS].

Definition xdp_direct_packet_access_41 : bpf_test := TEST "XDP pkt read, pkt_end <= pkt_data', corner case, good access" [
  _insns
   [BPF_LDX_MEM BPF_W BPF_REG_2 BPF_REG_1 (offsetof xdp_md "data");
    BPF_LDX_MEM BPF_W BPF_REG_3 BPF_REG_1 (offsetof xdp_md "data_end");
    BPF_MOV64_REG BPF_REG_1 BPF_REG_2; BPF_ALU64_IMM BPF_ADD BPF_REG_1 7;
    BPF_JMP_REG BPF_JLE BPF_REG_3 BPF_REG_1 1; BPF_LDX_MEM BPF_DW BPF_REG_0 BPF_REG_1 (-7);
    BPF_MOV64_IMM BPF_REG_0 0; BPF_EXIT_INSN];
  _result ACCEPT;
  _prog_type BPF_PROG_TYPE_XDP;
  _flags F_NEEDS_EFFICIENT_UNALIGNED_ACCESS].

Definition xdp_direct_packet_access_42 : bpf_test := TEST "XDP pkt read, pkt_end <= pkt_data', corner case +1, good access" [
  _insns
   [BPF_LDX_MEM BPF_W BPF_REG_2 BPF_REG_1 (offsetof xdp_md "data");
    BPF_LDX_MEM BPF_W BPF_REG_3 BPF_REG_1 (offsetof xdp_md "data_end");
    BPF_MOV64_REG BPF_REG_1 BPF_REG_2; BPF_ALU64_IMM BPF_ADD BPF_REG_1 8;
    BPF_JMP_REG BPF_JLE BPF_REG_3 BPF_REG_1 1; BPF_LDX_MEM BPF_DW BPF_REG_0 BPF_REG_1 (-8);
    BPF_MOV64_IMM BPF_REG_0 0; BPF_EXIT_INSN];
  _result ACCEPT;
  _prog_type BPF_PROG_TYPE_XDP;
  _flags F_NEEDS_EFFICIENT_UNALIGNED_ACCESS].

Definition xdp_direct_packet_access_43 : bpf_test := TEST "XDP pkt read, pkt_meta' > pkt_data, corner case, good access" [
  _insns
   [BPF_LDX_MEM BPF_W BPF_REG_2 BPF_REG_1 (offsetof xdp_md "data_meta");
    BPF_LDX_MEM BPF_W BPF_REG_3 BPF_REG_1 (offsetof xdp_md "data");
    BPF_MOV64_REG BPF_REG_1 BPF_REG_2; BPF_ALU64_IMM BPF_ADD BPF_REG_1 8;
    BPF_JMP_REG BPF_JGT BPF_REG_1 BPF_REG_3 1; BPF_LDX_MEM BPF_DW BPF_REG_0 BPF_REG_1 (-8);
    BPF_MOV64_IMM BPF_REG_0 0; BPF_EXIT_INSN];
  _result ACCEPT;
  _prog_type BPF_PROG_TYPE_XDP;
  _flags F_NEEDS_EFFICIENT_UNALIGNED_ACCESS].

Definition xdp_direct_packet_access_44 : bpf_test := TEST "XDP pkt read, pkt_meta' > pkt_data, bad access 1" [
  _insns
   [BPF_LDX_MEM BPF_W BPF_REG_2 BPF_REG_1 (offsetof xdp_md "data_meta");
    BPF_LDX_MEM BPF_W BPF_REG_3 BPF_REG_1 (offsetof xdp_md "data");
    BPF_MOV64_REG BPF_REG_1 BPF_REG_2; BPF_ALU64_IMM BPF_ADD BPF_REG_1 8;
    BPF_JMP_REG BPF_JGT BPF_REG_1 BPF_REG_3 1; BPF_LDX_MEM BPF_DW BPF_REG_0 BPF_REG_1 (-4);
    BPF_MOV64_IMM BPF_REG_0 0; BPF_EXIT_INSN];
  _errstr "R1 offset is outside of the packet";
  _result REJECT;
  _prog_type BPF_PROG_TYPE_XDP;
  _flags F_NEEDS_EFFICIENT_UNALIGNED_ACCESS].

Definition xdp_direct_packet_access_45 : bpf_test := TEST "XDP pkt read, pkt_meta' > pkt_data, bad access 2" [
  _insns
   [BPF_LDX_MEM BPF_W BPF_REG_2 BPF_REG_1 (offsetof xdp_md "data_meta");
    BPF_LDX_MEM BPF_W BPF_REG_3 BPF_REG_1 (offsetof xdp_md "data");
    BPF_MOV64_REG BPF_REG_1 BPF_REG_2; BPF_ALU64_IMM BPF_ADD BPF_REG_1 8;
    BPF_JMP_REG BPF_JGT BPF_REG_1 BPF_REG_3 0; BPF_LDX_MEM BPF_DW BPF_REG_0 BPF_REG_1 (-8);
    BPF_MOV64_IMM BPF_REG_0 0; BPF_EXIT_INSN];
  _errstr "R1 offset is outside of the packet";
  _result REJECT;
  _prog_type BPF_PROG_TYPE_XDP;
  _flags F_NEEDS_EFFICIENT_UNALIGNED_ACCESS].

Definition xdp_direct_packet_access_46 : bpf_test := TEST "XDP pkt read, pkt_meta' > pkt_data, corner case +1, good access" [
  _insns
   [BPF_LDX_MEM BPF_W BPF_REG_2 BPF_REG_1 (offsetof xdp_md "data_meta");
    BPF_LDX_MEM BPF_W BPF_REG_3 BPF_REG_1 (offsetof xdp_md "data");
    BPF_MOV64_REG BPF_REG_1 BPF_REG_2; BPF_ALU64_IMM BPF_ADD BPF_REG_1 9;
    BPF_JMP_REG BPF_JGT BPF_REG_1 BPF_REG_3 1; BPF_LDX_MEM BPF_DW BPF_REG_0 BPF_REG_1 (-9);
    BPF_MOV64_IMM BPF_REG_0 0; BPF_EXIT_INSN];
  _result ACCEPT;
  _prog_type BPF_PROG_TYPE_XDP;
  _flags F_NEEDS_EFFICIENT_UNALIGNED_ACCESS].

Definition xdp_direct_packet_access_47 : bpf_test := TEST "XDP pkt read, pkt_meta' > pkt_data, corner case -1, bad access" [
  _insns
   [BPF_LDX_MEM BPF_W BPF_REG_2 BPF_REG_1 (offsetof xdp_md "data_meta");
    BPF_LDX_MEM BPF_W BPF_REG_3 BPF_REG_1 (offsetof xdp_md "data");
    BPF_MOV64_REG BPF_REG_1 BPF_REG_2; BPF_ALU64_IMM BPF_ADD BPF_REG_1 7;
    BPF_JMP_REG BPF_JGT BPF_REG_1 BPF_REG_3 1; BPF_LDX_MEM BPF_DW BPF_REG_0 BPF_REG_1 (-7);
    BPF_MOV64_IMM BPF_REG_0 0; BPF_EXIT_INSN];
  _errstr "R1 offset is outside of the packet";
  _result REJECT;
  _prog_type BPF_PROG_TYPE_XDP;
  _flags F_NEEDS_EFFICIENT_UNALIGNED_ACCESS].

Definition xdp_direct_packet_access_48 : bpf_test := TEST "XDP pkt read, pkt_data > pkt_meta', good access" [
  _insns
   [BPF_LDX_MEM BPF_W BPF_REG_2 BPF_REG_1 (offsetof xdp_md "data_meta");
    BPF_LDX_MEM BPF_W BPF_REG_3 BPF_REG_1 (offsetof xdp_md "data");
    BPF_MOV64_REG BPF_REG_1 BPF_REG_2; BPF_ALU64_IMM BPF_ADD BPF_REG_1 8;
    BPF_JMP_REG BPF_JGT BPF_REG_3 BPF_REG_1 1; BPF_JMP_IMM BPF_JA 0 0 1;
    BPF_LDX_MEM BPF_W BPF_REG_0 BPF_REG_1 (-5); BPF_MOV64_IMM BPF_REG_0 0; BPF_EXIT_INSN];
  _result ACCEPT;
  _prog_type BPF_PROG_TYPE_XDP;
  _flags F_NEEDS_EFFICIENT_UNALIGNED_ACCESS].

Definition xdp_direct_packet_access_49 : bpf_test := TEST "XDP pkt read, pkt_data > pkt_meta', corner case -1, bad access" [
  _insns
   [BPF_LDX_MEM BPF_W BPF_REG_2 BPF_REG_1 (offsetof xdp_md "data_meta");
    BPF_LDX_MEM BPF_W BPF_REG_3 BPF_REG_1 (offsetof xdp_md "data");
    BPF_MOV64_REG BPF_REG_1 BPF_REG_2; BPF_ALU64_IMM BPF_ADD BPF_REG_1 6;
    BPF_JMP_REG BPF_JGT BPF_REG_3 BPF_REG_1 1; BPF_JMP_IMM BPF_JA 0 0 1;
    BPF_LDX_MEM BPF_DW BPF_REG_0 BPF_REG_1 (-6); BPF_MOV64_IMM BPF_REG_0 0; BPF_EXIT_INSN];
  _errstr "R1 offset is outside of the packet";
  _result REJECT;
  _prog_type BPF_PROG_TYPE_XDP;
  _flags F_NEEDS_EFFICIENT_UNALIGNED_ACCESS].

Definition xdp_direct_packet_access_50 : bpf_test := TEST "XDP pkt read, pkt_data > pkt_meta', bad access 2" [
  _insns
   [BPF_LDX_MEM BPF_W BPF_REG_2 BPF_REG_1 (offsetof xdp_md "data_meta");
    BPF_LDX_MEM BPF_W BPF_REG_3 BPF_REG_1 (offsetof xdp_md "data");
    BPF_MOV64_REG BPF_REG_1 BPF_REG_2; BPF_ALU64_IMM BPF_ADD BPF_REG_1 8;
    BPF_JMP_REG BPF_JGT BPF_REG_3 BPF_REG_1 1; BPF_LDX_MEM BPF_DW BPF_REG_0 BPF_REG_1 (-8);
    BPF_MOV64_IMM BPF_REG_0 0; BPF_EXIT_INSN];
  _errstr "R1 offset is outside of the packet";
  _result REJECT;
  _prog_type BPF_PROG_TYPE_XDP;
  _flags F_NEEDS_EFFICIENT_UNALIGNED_ACCESS].

Definition xdp_direct_packet_access_51 : bpf_test := TEST "XDP pkt read, pkt_data > pkt_meta', corner case, good access" [
  _insns
   [BPF_LDX_MEM BPF_W BPF_REG_2 BPF_REG_1 (offsetof xdp_md "data_meta");
    BPF_LDX_MEM BPF_W BPF_REG_3 BPF_REG_1 (offsetof xdp_md "data");
    BPF_MOV64_REG BPF_REG_1 BPF_REG_2; BPF_ALU64_IMM BPF_ADD BPF_REG_1 7;
    BPF_JMP_REG BPF_JGT BPF_REG_3 BPF_REG_1 1; BPF_JMP_IMM BPF_JA 0 0 1;
    BPF_LDX_MEM BPF_DW BPF_REG_0 BPF_REG_1 (-7); BPF_MOV64_IMM BPF_REG_0 0; BPF_EXIT_INSN];
  _result ACCEPT;
  _prog_type BPF_PROG_TYPE_XDP;
  _flags F_NEEDS_EFFICIENT_UNALIGNED_ACCESS].

Definition xdp_direct_packet_access_52 : bpf_test := TEST "XDP pkt read, pkt_data > pkt_meta', corner case +1, good access" [
  _insns
   [BPF_LDX_MEM BPF_W BPF_REG_2 BPF_REG_1 (offsetof xdp_md "data_meta");
    BPF_LDX_MEM BPF_W BPF_REG_3 BPF_REG_1 (offsetof xdp_md "data");
    BPF_MOV64_REG BPF_REG_1 BPF_REG_2; BPF_ALU64_IMM BPF_ADD BPF_REG_1 8;
    BPF_JMP_REG BPF_JGT BPF_REG_3 BPF_REG_1 1; BPF_JMP_IMM BPF_JA 0 0 1;
    BPF_LDX_MEM BPF_DW BPF_REG_0 BPF_REG_1 (-8); BPF_MOV64_IMM BPF_REG_0 0; BPF_EXIT_INSN];
  _result ACCEPT;
  _prog_type BPF_PROG_TYPE_XDP;
  _flags F_NEEDS_EFFICIENT_UNALIGNED_ACCESS].

Definition xdp_direct_packet_access_53 : bpf_test := TEST "XDP pkt read, pkt_meta' < pkt_data, good access" [
  _insns
   [BPF_LDX_MEM BPF_W BPF_REG_2 BPF_REG_1 (offsetof xdp_md "data_meta");
    BPF_LDX_MEM BPF_W BPF_REG_3 BPF_REG_1 (offsetof xdp_md "data");
    BPF_MOV64_REG BPF_REG_1 BPF_REG_2; BPF_ALU64_IMM BPF_ADD BPF_REG_1 8;
    BPF_JMP_REG BPF_JLT BPF_REG_1 BPF_REG_3 1; BPF_JMP_IMM BPF_JA 0 0 1;
    BPF_LDX_MEM BPF_W BPF_REG_0 BPF_REG_1 (-5); BPF_MOV64_IMM BPF_REG_0 0; BPF_EXIT_INSN];
  _result ACCEPT;
  _prog_type BPF_PROG_TYPE_XDP;
  _flags F_NEEDS_EFFICIENT_UNALIGNED_ACCESS].

Definition xdp_direct_packet_access_54 : bpf_test := TEST "XDP pkt read, pkt_meta' < pkt_data, corner case -1, bad access" [
  _insns
   [BPF_LDX_MEM BPF_W BPF_REG_2 BPF_REG_1 (offsetof xdp_md "data_meta");
    BPF_LDX_MEM BPF_W BPF_REG_3 BPF_REG_1 (offsetof xdp_md "data");
    BPF_MOV64_REG BPF_REG_1 BPF_REG_2; BPF_ALU64_IMM BPF_ADD BPF_REG_1 6;
    BPF_JMP_REG BPF_JLT BPF_REG_1 BPF_REG_3 1; BPF_JMP_IMM BPF_JA 0 0 1;
    BPF_LDX_MEM BPF_DW BPF_REG_0 BPF_REG_1 (-6); BPF_MOV64_IMM BPF_REG_0 0; BPF_EXIT_INSN];
  _errstr "R1 offset is outside of the packet";
  _result REJECT;
  _prog_type BPF_PROG_TYPE_XDP;
  _flags F_NEEDS_EFFICIENT_UNALIGNED_ACCESS].

Definition xdp_direct_packet_access_55 : bpf_test := TEST "XDP pkt read, pkt_meta' < pkt_data, bad access 2" [
  _insns
   [BPF_LDX_MEM BPF_W BPF_REG_2 BPF_REG_1 (offsetof xdp_md "data_meta");
    BPF_LDX_MEM BPF_W BPF_REG_3 BPF_REG_1 (offsetof xdp_md "data");
    BPF_MOV64_REG BPF_REG_1 BPF_REG_2; BPF_ALU64_IMM BPF_ADD BPF_REG_1 8;
    BPF_JMP_REG BPF_JLT BPF_REG_1 BPF_REG_3 1; BPF_LDX_MEM BPF_DW BPF_REG_0 BPF_REG_1 (-8);
    BPF_MOV64_IMM BPF_REG_0 0; BPF_EXIT_INSN];
  _errstr "R1 offset is outside of the packet";
  _result REJECT;
  _prog_type BPF_PROG_TYPE_XDP;
  _flags F_NEEDS_EFFICIENT_UNALIGNED_ACCESS].

Definition xdp_direct_packet_access_56 : bpf_test := TEST "XDP pkt read, pkt_meta' < pkt_data, corner case, good access" [
  _insns
   [BPF_LDX_MEM BPF_W BPF_REG_2 BPF_REG_1 (offsetof xdp_md "data_meta");
    BPF_LDX_MEM BPF_W BPF_REG_3 BPF_REG_1 (offsetof xdp_md "data");
    BPF_MOV64_REG BPF_REG_1 BPF_REG_2; BPF_ALU64_IMM BPF_ADD BPF_REG_1 7;
    BPF_JMP_REG BPF_JLT BPF_REG_1 BPF_REG_3 1; BPF_JMP_IMM BPF_JA 0 0 1;
    BPF_LDX_MEM BPF_DW BPF_REG_0 BPF_REG_1 (-7); BPF_MOV64_IMM BPF_REG_0 0; BPF_EXIT_INSN];
  _result ACCEPT;
  _prog_type BPF_PROG_TYPE_XDP;
  _flags F_NEEDS_EFFICIENT_UNALIGNED_ACCESS].

Definition xdp_direct_packet_access_57 : bpf_test := TEST "XDP pkt read, pkt_meta' < pkt_data, corner case +1, good access" [
  _insns
   [BPF_LDX_MEM BPF_W BPF_REG_2 BPF_REG_1 (offsetof xdp_md "data_meta");
    BPF_LDX_MEM BPF_W BPF_REG_3 BPF_REG_1 (offsetof xdp_md "data");
    BPF_MOV64_REG BPF_REG_1 BPF_REG_2; BPF_ALU64_IMM BPF_ADD BPF_REG_1 8;
    BPF_JMP_REG BPF_JLT BPF_REG_1 BPF_REG_3 1; BPF_JMP_IMM BPF_JA 0 0 1;
    BPF_LDX_MEM BPF_DW BPF_REG_0 BPF_REG_1 (-8); BPF_MOV64_IMM BPF_REG_0 0; BPF_EXIT_INSN];
  _result ACCEPT;
  _prog_type BPF_PROG_TYPE_XDP;
  _flags F_NEEDS_EFFICIENT_UNALIGNED_ACCESS].

Definition xdp_direct_packet_access_58 : bpf_test := TEST "XDP pkt read, pkt_data < pkt_meta', corner case, good access" [
  _insns
   [BPF_LDX_MEM BPF_W BPF_REG_2 BPF_REG_1 (offsetof xdp_md "data_meta");
    BPF_LDX_MEM BPF_W BPF_REG_3 BPF_REG_1 (offsetof xdp_md "data");
    BPF_MOV64_REG BPF_REG_1 BPF_REG_2; BPF_ALU64_IMM BPF_ADD BPF_REG_1 8;
    BPF_JMP_REG BPF_JLT BPF_REG_3 BPF_REG_1 1; BPF_LDX_MEM BPF_DW BPF_REG_0 BPF_REG_1 (-8);
    BPF_MOV64_IMM BPF_REG_0 0; BPF_EXIT_INSN];
  _result ACCEPT;
  _prog_type BPF_PROG_TYPE_XDP;
  _flags F_NEEDS_EFFICIENT_UNALIGNED_ACCESS].

Definition xdp_direct_packet_access_59 : bpf_test := TEST "XDP pkt read, pkt_data < pkt_meta', bad access 1" [
  _insns
   [BPF_LDX_MEM BPF_W BPF_REG_2 BPF_REG_1 (offsetof xdp_md "data_meta");
    BPF_LDX_MEM BPF_W BPF_REG_3 BPF_REG_1 (offsetof xdp_md "data");
    BPF_MOV64_REG BPF_REG_1 BPF_REG_2; BPF_ALU64_IMM BPF_ADD BPF_REG_1 8;
    BPF_JMP_REG BPF_JLT BPF_REG_3 BPF_REG_1 1; BPF_LDX_MEM BPF_DW BPF_REG_0 BPF_REG_1 (-4);
    BPF_MOV64_IMM BPF_REG_0 0; BPF_EXIT_INSN];
  _errstr "R1 offset is outside of the packet";
  _result REJECT;
  _prog_type BPF_PROG_TYPE_XDP;
  _flags F_NEEDS_EFFICIENT_UNALIGNED_ACCESS].

Definition xdp_direct_packet_access_60 : bpf_test := TEST "XDP pkt read, pkt_data < pkt_meta', bad access 2" [
  _insns
   [BPF_LDX_MEM BPF_W BPF_REG_2 BPF_REG_1 (offsetof xdp_md "data_meta");
    BPF_LDX_MEM BPF_W BPF_REG_3 BPF_REG_1 (offsetof xdp_md "data");
    BPF_MOV64_REG BPF_REG_1 BPF_REG_2; BPF_ALU64_IMM BPF_ADD BPF_REG_1 8;
    BPF_JMP_REG BPF_JLT BPF_REG_3 BPF_REG_1 0; BPF_LDX_MEM BPF_DW BPF_REG_0 BPF_REG_1 (-8);
    BPF_MOV64_IMM BPF_REG_0 0; BPF_EXIT_INSN];
  _errstr "R1 offset is outside of the packet";
  _result REJECT;
  _prog_type BPF_PROG_TYPE_XDP;
  _flags F_NEEDS_EFFICIENT_UNALIGNED_ACCESS].

Definition xdp_direct_packet_access_61 : bpf_test := TEST "XDP pkt read, pkt_data < pkt_meta', corner case +1, good access" [
  _insns
   [BPF_LDX_MEM BPF_W BPF_REG_2 BPF_REG_1 (offsetof xdp_md "data_meta");
    BPF_LDX_MEM BPF_W BPF_REG_3 BPF_REG_1 (offsetof xdp_md "data");
    BPF_MOV64_REG BPF_REG_1 BPF_REG_2; BPF_ALU64_IMM BPF_ADD BPF_REG_1 9;
    BPF_JMP_REG BPF_JLT BPF_REG_3 BPF_REG_1 1; BPF_LDX_MEM BPF_DW BPF_REG_0 BPF_REG_1 (-9);
    BPF_MOV64_IMM BPF_REG_0 0; BPF_EXIT_INSN];
  _result ACCEPT;
  _prog_type BPF_PROG_TYPE_XDP;
  _flags F_NEEDS_EFFICIENT_UNALIGNED_ACCESS].

Definition xdp_direct_packet_access_62 : bpf_test := TEST "XDP pkt read, pkt_data < pkt_meta', corner case -1, bad access" [
  _insns
   [BPF_LDX_MEM BPF_W BPF_REG_2 BPF_REG_1 (offsetof xdp_md "data_meta");
    BPF_LDX_MEM BPF_W BPF_REG_3 BPF_REG_1 (offsetof xdp_md "data");
    BPF_MOV64_REG BPF_REG_1 BPF_REG_2; BPF_ALU64_IMM BPF_ADD BPF_REG_1 7;
    BPF_JMP_REG BPF_JLT BPF_REG_3 BPF_REG_1 1; BPF_LDX_MEM BPF_DW BPF_REG_0 BPF_REG_1 (-7);
    BPF_MOV64_IMM BPF_REG_0 0; BPF_EXIT_INSN];
  _errstr "R1 offset is outside of the packet";
  _result REJECT;
  _prog_type BPF_PROG_TYPE_XDP;
  _flags F_NEEDS_EFFICIENT_UNALIGNED_ACCESS].

Definition xdp_direct_packet_access_63 : bpf_test := TEST "XDP pkt read, pkt_meta' >= pkt_data, good access" [
  _insns
   [BPF_LDX_MEM BPF_W BPF_REG_2 BPF_REG_1 (offsetof xdp_md "data_meta");
    BPF_LDX_MEM BPF_W BPF_REG_3 BPF_REG_1 (offsetof xdp_md "data");
    BPF_MOV64_REG BPF_REG_1 BPF_REG_2; BPF_ALU64_IMM BPF_ADD BPF_REG_1 8;
    BPF_JMP_REG BPF_JGE BPF_REG_1 BPF_REG_3 1; BPF_LDX_MEM BPF_W BPF_REG_0 BPF_REG_1 (-5);
    BPF_MOV64_IMM BPF_REG_0 0; BPF_EXIT_INSN];
  _result ACCEPT;
  _prog_type BPF_PROG_TYPE_XDP;
  _flags F_NEEDS_EFFICIENT_UNALIGNED_ACCESS].

Definition xdp_direct_packet_access_64 : bpf_test := TEST "XDP pkt read, pkt_meta' >= pkt_data, corner case -1, bad access" [
  _insns
   [BPF_LDX_MEM BPF_W BPF_REG_2 BPF_REG_1 (offsetof xdp_md "data_meta");
    BPF_LDX_MEM BPF_W BPF_REG_3 BPF_REG_1 (offsetof xdp_md "data");
    BPF_MOV64_REG BPF_REG_1 BPF_REG_2; BPF_ALU64_IMM BPF_ADD BPF_REG_1 6;
    BPF_JMP_REG BPF_JGE BPF_REG_1 BPF_REG_3 1; BPF_LDX_MEM BPF_DW BPF_REG_0 BPF_REG_1 (-6);
    BPF_MOV64_IMM BPF_REG_0 0; BPF_EXIT_INSN];
  _errstr "R1 offset is outside of the packet";
  _result REJECT;
  _prog_type BPF_PROG_TYPE_XDP;
  _flags F_NEEDS_EFFICIENT_UNALIGNED_ACCESS].

Definition xdp_direct_packet_access_65 : bpf_test := TEST "XDP pkt read, pkt_meta' >= pkt_data, bad access 2" [
  _insns
   [BPF_LDX_MEM BPF_W BPF_REG_2 BPF_REG_1 (offsetof xdp_md "data_meta");
    BPF_LDX_MEM BPF_W BPF_REG_3 BPF_REG_1 (offsetof xdp_md "data");
    BPF_MOV64_REG BPF_REG_1 BPF_REG_2; BPF_ALU64_IMM BPF_ADD BPF_REG_1 8;
    BPF_JMP_REG BPF_JGE BPF_REG_1 BPF_REG_3 0; BPF_LDX_MEM BPF_W BPF_REG_0 BPF_REG_1 (-5);
    BPF_MOV64_IMM BPF_REG_0 0; BPF_EXIT_INSN];
  _errstr "R1 offset is outside of the packet";
  _result REJECT;
  _prog_type BPF_PROG_TYPE_XDP;
  _flags F_NEEDS_EFFICIENT_UNALIGNED_ACCESS].

Definition xdp_direct_packet_access_66 : bpf_test := TEST "XDP pkt read, pkt_meta' >= pkt_data, corner case, good access" [
  _insns
   [BPF_LDX_MEM BPF_W BPF_REG_2 BPF_REG_1 (offsetof xdp_md "data_meta");
    BPF_LDX_MEM BPF_W BPF_REG_3 BPF_REG_1 (offsetof xdp_md "data");
    BPF_MOV64_REG BPF_REG_1 BPF_REG_2; BPF_ALU64_IMM BPF_ADD BPF_REG_1 7;
    BPF_JMP_REG BPF_JGE BPF_REG_1 BPF_REG_3 1; BPF_LDX_MEM BPF_DW BPF_REG_0 BPF_REG_1 (-7);
    BPF_MOV64_IMM BPF_REG_0 0; BPF_EXIT_INSN];
  _result ACCEPT;
  _prog_type BPF_PROG_TYPE_XDP;
  _flags F_NEEDS_EFFICIENT_UNALIGNED_ACCESS].

Definition xdp_direct_packet_access_67 : bpf_test := TEST "XDP pkt read, pkt_meta' >= pkt_data, corner case +1, good access" [
  _insns
   [BPF_LDX_MEM BPF_W BPF_REG_2 BPF_REG_1 (offsetof xdp_md "data_meta");
    BPF_LDX_MEM BPF_W BPF_REG_3 BPF_REG_1 (offsetof xdp_md "data");
    BPF_MOV64_REG BPF_REG_1 BPF_REG_2; BPF_ALU64_IMM BPF_ADD BPF_REG_1 8;
    BPF_JMP_REG BPF_JGE BPF_REG_1 BPF_REG_3 1; BPF_LDX_MEM BPF_DW BPF_REG_0 BPF_REG_1 (-8);
    BPF_MOV64_IMM BPF_REG_0 0; BPF_EXIT_INSN];
  _result ACCEPT;
  _prog_type BPF_PROG_TYPE_XDP;
  _flags F_NEEDS_EFFICIENT_UNALIGNED_ACCESS].

Definition xdp_direct_packet_access_68 : bpf_test := TEST "XDP pkt read, pkt_data >= pkt_meta', corner case, good access" [
  _insns
   [BPF_LDX_MEM BPF_W BPF_REG_2 BPF_REG_1 (offsetof xdp_md "data_meta");
    BPF_LDX_MEM BPF_W BPF_REG_3 BPF_REG_1 (offsetof xdp_md "data");
    BPF_MOV64_REG BPF_REG_1 BPF_REG_2; BPF_ALU64_IMM BPF_ADD BPF_REG_1 8;
    BPF_JMP_REG BPF_JGE BPF_REG_3 BPF_REG_1 1; BPF_JMP_IMM BPF_JA 0 0 1;
    BPF_LDX_MEM BPF_DW BPF_REG_0 BPF_REG_1 (-8); BPF_MOV64_IMM BPF_REG_0 0; BPF_EXIT_INSN];
  _result ACCEPT;
  _prog_type BPF_PROG_TYPE_XDP;
  _flags F_NEEDS_EFFICIENT_UNALIGNED_ACCESS].

Definition xdp_direct_packet_access_69 : bpf_test := TEST "XDP pkt read, pkt_data >= pkt_meta', bad access 1" [
  _insns
   [BPF_LDX_MEM BPF_W BPF_REG_2 BPF_REG_1 (offsetof xdp_md "data_meta");
    BPF_LDX_MEM BPF_W BPF_REG_3 BPF_REG_1 (offsetof xdp_md "data");
    BPF_MOV64_REG BPF_REG_1 BPF_REG_2; BPF_ALU64_IMM BPF_ADD BPF_REG_1 8;
    BPF_JMP_REG BPF_JGE BPF_REG_3 BPF_REG_1 1; BPF_JMP_IMM BPF_JA 0 0 1;
    BPF_LDX_MEM BPF_DW BPF_REG_0 BPF_REG_1 (-4); BPF_MOV64_IMM BPF_REG_0 0; BPF_EXIT_INSN];
  _errstr "R1 offset is outside of the packet";
  _result REJECT;
  _prog_type BPF_PROG_TYPE_XDP;
  _flags F_NEEDS_EFFICIENT_UNALIGNED_ACCESS].

Definition xdp_direct_packet_access_70 : bpf_test := TEST "XDP pkt read, pkt_data >= pkt_meta', bad access 2" [
  _insns
   [BPF_LDX_MEM BPF_W BPF_REG_2 BPF_REG_1 (offsetof xdp_md "data_meta");
    BPF_LDX_MEM BPF_W BPF_REG_3 BPF_REG_1 (offsetof xdp_md "data");
    BPF_MOV64_REG BPF_REG_1 BPF_REG_2; BPF_ALU64_IMM BPF_ADD BPF_REG_1 8;
    BPF_JMP_REG BPF_JGE BPF_REG_3 BPF_REG_1 1; BPF_LDX_MEM BPF_DW BPF_REG_0 BPF_REG_1 (-8);
    BPF_MOV64_IMM BPF_REG_0 0; BPF_EXIT_INSN];
  _errstr "R1 offset is outside of the packet";
  _result REJECT;
  _prog_type BPF_PROG_TYPE_XDP;
  _flags F_NEEDS_EFFICIENT_UNALIGNED_ACCESS].

Definition xdp_direct_packet_access_71 : bpf_test := TEST "XDP pkt read, pkt_data >= pkt_meta', corner case +1, good access" [
  _insns
   [BPF_LDX_MEM BPF_W BPF_REG_2 BPF_REG_1 (offsetof xdp_md "data_meta");
    BPF_LDX_MEM BPF_W BPF_REG_3 BPF_REG_1 (offsetof xdp_md "data");
    BPF_MOV64_REG BPF_REG_1 BPF_REG_2; BPF_ALU64_IMM BPF_ADD BPF_REG_1 9;
    BPF_JMP_REG BPF_JGE BPF_REG_3 BPF_REG_1 1; BPF_JMP_IMM BPF_JA 0 0 1;
    BPF_LDX_MEM BPF_DW BPF_REG_0 BPF_REG_1 (-9); BPF_MOV64_IMM BPF_REG_0 0; BPF_EXIT_INSN];
  _result ACCEPT;
  _prog_type BPF_PROG_TYPE_XDP;
  _flags F_NEEDS_EFFICIENT_UNALIGNED_ACCESS].

Definition xdp_direct_packet_access_72 : bpf_test := TEST "XDP pkt read, pkt_data >= pkt_meta', corner case -1, bad access" [
  _insns
   [BPF_LDX_MEM BPF_W BPF_REG_2 BPF_REG_1 (offsetof xdp_md "data_meta");
    BPF_LDX_MEM BPF_W BPF_REG_3 BPF_REG_1 (offsetof xdp_md "data");
    BPF_MOV64_REG BPF_REG_1 BPF_REG_2; BPF_ALU64_IMM BPF_ADD BPF_REG_1 7;
    BPF_JMP_REG BPF_JGE BPF_REG_3 BPF_REG_1 1; BPF_JMP_IMM BPF_JA 0 0 1;
    BPF_LDX_MEM BPF_DW BPF_REG_0 BPF_REG_1 (-7); BPF_MOV64_IMM BPF_REG_0 0; BPF_EXIT_INSN];
  _errstr "R1 offset is outside of the packet";
  _result REJECT;
  _prog_type BPF_PROG_TYPE_XDP;
  _flags F_NEEDS_EFFICIENT_UNALIGNED_ACCESS].

Definition xdp_direct_packet_access_73 : bpf_test := TEST "XDP pkt read, pkt_meta' <= pkt_data, corner case, good access" [
  _insns
   [BPF_LDX_MEM BPF_W BPF_REG_2 BPF_REG_1 (offsetof xdp_md "data_meta");
    BPF_LDX_MEM BPF_W BPF_REG_3 BPF_REG_1 (offsetof xdp_md "data");
    BPF_MOV64_REG BPF_REG_1 BPF_REG_2; BPF_ALU64_IMM BPF_ADD BPF_REG_1 8;
    BPF_JMP_REG BPF_JLE BPF_REG_1 BPF_REG_3 1; BPF_JMP_IMM BPF_JA 0 0 1;
    BPF_LDX_MEM BPF_DW BPF_REG_0 BPF_REG_1 (-8); BPF_MOV64_IMM BPF_REG_0 0; BPF_EXIT_INSN];
  _result ACCEPT;
  _prog_type BPF_PROG_TYPE_XDP;
  _flags F_NEEDS_EFFICIENT_UNALIGNED_ACCESS].

Definition xdp_direct_packet_access_74 : bpf_test := TEST "XDP pkt read, pkt_meta' <= pkt_data, bad access 1" [
  _insns
   [BPF_LDX_MEM BPF_W BPF_REG_2 BPF_REG_1 (offsetof xdp_md "data_meta");
    BPF_LDX_MEM BPF_W BPF_REG_3 BPF_REG_1 (offsetof xdp_md "data");
    BPF_MOV64_REG BPF_REG_1 BPF_REG_2; BPF_ALU64_IMM BPF_ADD BPF_REG_1 8;
    BPF_JMP_REG BPF_JLE BPF_REG_1 BPF_REG_3 1; BPF_JMP_IMM BPF_JA 0 0 1;
    BPF_LDX_MEM BPF_DW BPF_REG_0 BPF_REG_1 (-4); BPF_MOV64_IMM BPF_REG_0 0; BPF_EXIT_INSN];
  _errstr "R1 offset is outside of the packet";
  _result REJECT;
  _prog_type BPF_PROG_TYPE_XDP;
  _flags F_NEEDS_EFFICIENT_UNALIGNED_ACCESS].

Definition xdp_direct_packet_access_75 : bpf_test := TEST "XDP pkt read, pkt_meta' <= pkt_data, bad access 2" [
  _insns
   [BPF_LDX_MEM BPF_W BPF_REG_2 BPF_REG_1 (offsetof xdp_md "data_meta");
    BPF_LDX_MEM BPF_W BPF_REG_3 BPF_REG_1 (offsetof xdp_md "data");
    BPF_MOV64_REG BPF_REG_1 BPF_REG_2; BPF_ALU64_IMM BPF_ADD BPF_REG_1 8;
    BPF_JMP_REG BPF_JLE BPF_REG_1 BPF_REG_3 1; BPF_LDX_MEM BPF_DW BPF_REG_0 BPF_REG_1 (-8);
    BPF_MOV64_IMM BPF_REG_0 0; BPF_EXIT_INSN];
  _errstr "R1 offset is outside of the packet";
  _result REJECT;
  _prog_type BPF_PROG_TYPE_XDP;
  _flags F_NEEDS_EFFICIENT_UNALIGNED_ACCESS].

Definition xdp_direct_packet_access_76 : bpf_test := TEST "XDP pkt read, pkt_meta' <= pkt_data, corner case +1, good access" [
  _insns
   [BPF_LDX_MEM BPF_W BPF_REG_2 BPF_REG_1 (offsetof xdp_md "data_meta");
    BPF_LDX_MEM BPF_W BPF_REG_3 BPF_REG_1 (offsetof xdp_md "data");
    BPF_MOV64_REG BPF_REG_1 BPF_REG_2; BPF_ALU64_IMM BPF_ADD BPF_REG_1 9;
    BPF_JMP_REG BPF_JLE BPF_REG_1 BPF_REG_3 1; BPF_JMP_IMM BPF_JA 0 0 1;
    BPF_LDX_MEM BPF_DW BPF_REG_0 BPF_REG_1 (-9); BPF_MOV64_IMM BPF_REG_0 0; BPF_EXIT_INSN];
  _result ACCEPT;
  _prog_type BPF_PROG_TYPE_XDP;
  _flags F_NEEDS_EFFICIENT_UNALIGNED_ACCESS].

Definition xdp_direct_packet_access_77 : bpf_test := TEST "XDP pkt read, pkt_meta' <= pkt_data, corner case -1, bad access" [
  _insns
   [BPF_LDX_MEM BPF_W BPF_REG_2 BPF_REG_1 (offsetof xdp_md "data_meta");
    BPF_LDX_MEM BPF_W BPF_REG_3 BPF_REG_1 (offsetof xdp_md "data");
    BPF_MOV64_REG BPF_REG_1 BPF_REG_2; BPF_ALU64_IMM BPF_ADD BPF_REG_1 7;
    BPF_JMP_REG BPF_JLE BPF_REG_1 BPF_REG_3 1; BPF_JMP_IMM BPF_JA 0 0 1;
    BPF_LDX_MEM BPF_DW BPF_REG_0 BPF_REG_1 (-7); BPF_MOV64_IMM BPF_REG_0 0; BPF_EXIT_INSN];
  _errstr "R1 offset is outside of the packet";
  _result REJECT;
  _prog_type BPF_PROG_TYPE_XDP;
  _flags F_NEEDS_EFFICIENT_UNALIGNED_ACCESS].

Definition xdp_direct_packet_access_78 : bpf_test := TEST "XDP pkt read, pkt_data <= pkt_meta', good access" [
  _insns
   [BPF_LDX_MEM BPF_W BPF_REG_2 BPF_REG_1 (offsetof xdp_md "data_meta");
    BPF_LDX_MEM BPF_W BPF_REG_3 BPF_REG_1 (offsetof xdp_md "data");
    BPF_MOV64_REG BPF_REG_1 BPF_REG_2; BPF_ALU64_IMM BPF_ADD BPF_REG_1 8;
    BPF_JMP_REG BPF_JLE BPF_REG_3 BPF_REG_1 1; BPF_LDX_MEM BPF_W BPF_REG_0 BPF_REG_1 (-5);
    BPF_MOV64_IMM BPF_REG_0 0; BPF_EXIT_INSN];
  _result ACCEPT;
  _prog_type BPF_PROG_TYPE_XDP;
  _flags F_NEEDS_EFFICIENT_UNALIGNED_ACCESS].

Definition xdp_direct_packet_access_79 : bpf_test := TEST "XDP pkt read, pkt_data <= pkt_meta', corner case -1, bad access" [
  _insns
   [BPF_LDX_MEM BPF_W BPF_REG_2 BPF_REG_1 (offsetof xdp_md "data_meta");
    BPF_LDX_MEM BPF_W BPF_REG_3 BPF_REG_1 (offsetof xdp_md "data");
    BPF_MOV64_REG BPF_REG_1 BPF_REG_2; BPF_ALU64_IMM BPF_ADD BPF_REG_1 6;
    BPF_JMP_REG BPF_JLE BPF_REG_3 BPF_REG_1 1; BPF_LDX_MEM BPF_DW BPF_REG_0 BPF_REG_1 (-6);
    BPF_MOV64_IMM BPF_REG_0 0; BPF_EXIT_INSN];
  _errstr "R1 offset is outside of the packet";
  _result REJECT;
  _prog_type BPF_PROG_TYPE_XDP;
  _flags F_NEEDS_EFFICIENT_UNALIGNED_ACCESS].

Definition xdp_direct_packet_access_80 : bpf_test := TEST "XDP pkt read, pkt_data <= pkt_meta', bad access 2" [
  _insns
   [BPF_LDX_MEM BPF_W BPF_REG_2 BPF_REG_1 (offsetof xdp_md "data_meta");
    BPF_LDX_MEM BPF_W BPF_REG_3 BPF_REG_1 (offsetof xdp_md "data");
    BPF_MOV64_REG BPF_REG_1 BPF_REG_2; BPF_ALU64_IMM BPF_ADD BPF_REG_1 8;
    BPF_JMP_REG BPF_JLE BPF_REG_3 BPF_REG_1 0; BPF_LDX_MEM BPF_W BPF_REG_0 BPF_REG_1 (-5);
    BPF_MOV64_IMM BPF_REG_0 0; BPF_EXIT_INSN];
  _errstr "R1 offset is outside of the packet";
  _result REJECT;
  _prog_type BPF_PROG_TYPE_XDP;
  _flags F_NEEDS_EFFICIENT_UNALIGNED_ACCESS].

Definition xdp_direct_packet_access_81 : bpf_test := TEST "XDP pkt read, pkt_data <= pkt_meta', corner case, good access" [
  _insns
   [BPF_LDX_MEM BPF_W BPF_REG_2 BPF_REG_1 (offsetof xdp_md "data_meta");
    BPF_LDX_MEM BPF_W BPF_REG_3 BPF_REG_1 (offsetof xdp_md "data");
    BPF_MOV64_REG BPF_REG_1 BPF_REG_2; BPF_ALU64_IMM BPF_ADD BPF_REG_1 7;
    BPF_JMP_REG BPF_JLE BPF_REG_3 BPF_REG_1 1; BPF_LDX_MEM BPF_DW BPF_REG_0 BPF_REG_1 (-7);
    BPF_MOV64_IMM BPF_REG_0 0; BPF_EXIT_INSN];
  _result ACCEPT;
  _prog_type BPF_PROG_TYPE_XDP;
  _flags F_NEEDS_EFFICIENT_UNALIGNED_ACCESS].

Definition xdp_direct_packet_access_82 : bpf_test := TEST "XDP pkt read, pkt_data <= pkt_meta', corner case +1, good access" [
  _insns
   [BPF_LDX_MEM BPF_W BPF_REG_2 BPF_REG_1 (offsetof xdp_md "data_meta");
    BPF_LDX_MEM BPF_W BPF_REG_3 BPF_REG_1 (offsetof xdp_md "data");
    BPF_MOV64_REG BPF_REG_1 BPF_REG_2; BPF_ALU64_IMM BPF_ADD BPF_REG_1 8;
    BPF_JMP_REG BPF_JLE BPF_REG_3 BPF_REG_1 1; BPF_LDX_MEM BPF_DW BPF_REG_0 BPF_REG_1 (-8);
    BPF_MOV64_IMM BPF_REG_0 0; BPF_EXIT_INSN];
  _result ACCEPT;
  _prog_type BPF_PROG_TYPE_XDP;
  _flags F_NEEDS_EFFICIENT_UNALIGNED_ACCESS].

Definition xdp_direct_packet_access_tests : list bpf_test := [xdp_direct_packet_access_1;
  xdp_direct_packet_access_2; xdp_direct_packet_access_3; xdp_direct_packet_access_4;
  xdp_direct_packet_access_5; xdp_direct_packet_access_6; xdp_direct_packet_access_7;
  xdp_direct_packet_access_8; xdp_direct_packet_access_9; xdp_direct_packet_access_10;
  xdp_direct_packet_access_11; xdp_direct_packet_access_12; xdp_direct_packet_access_13;
  xdp_direct_packet_access_14; xdp_direct_packet_access_15; xdp_direct_packet_access_16;
  xdp_direct_packet_access_17; xdp_direct_packet_access_18; xdp_direct_packet_access_19;
  xdp_direct_packet_access_20; xdp_direct_packet_access_21; xdp_direct_packet_access_22;
  xdp_direct_packet_access_23; xdp_direct_packet_access_24; xdp_direct_packet_access_25;
  xdp_direct_packet_access_26; xdp_direct_packet_access_27; xdp_direct_packet_access_28;
  xdp_direct_packet_access_29; xdp_direct_packet_access_30; xdp_direct_packet_access_31;
  xdp_direct_packet_access_32; xdp_direct_packet_access_33; xdp_direct_packet_access_34;
  xdp_direct_packet_access_35; xdp_direct_packet_access_36; xdp_direct_packet_access_37;
  xdp_direct_packet_access_38; xdp_direct_packet_access_39; xdp_direct_packet_access_40;
  xdp_direct_packet_access_41; xdp_direct_packet_access_42; xdp_direct_packet_access_43;
  xdp_direct_packet_access_44; xdp_direct_packet_access_45; xdp_direct_packet_access_46;
  xdp_direct_packet_access_47; xdp_direct_packet_access_48; xdp_direct_packet_access_49;
  xdp_direct_packet_access_50; xdp_direct_packet_access_51; xdp_direct_packet_access_52;
  xdp_direct_packet_access_53; xdp_direct_packet_access_54; xdp_direct_packet_access_55;
  xdp_direct_packet_access_56; xdp_direct_packet_access_57; xdp_direct_packet_access_58;
  xdp_direct_packet_access_59; xdp_direct_packet_access_60; xdp_direct_packet_access_61;
  xdp_direct_packet_access_62; xdp_direct_packet_access_63; xdp_direct_packet_access_64;
  xdp_direct_packet_access_65; xdp_direct_packet_access_66; xdp_direct_packet_access_67;
  xdp_direct_packet_access_68; xdp_direct_packet_access_69; xdp_direct_packet_access_70;
  xdp_direct_packet_access_71; xdp_direct_packet_access_72; xdp_direct_packet_access_73;
  xdp_direct_packet_access_74; xdp_direct_packet_access_75; xdp_direct_packet_access_76;
  xdp_direct_packet_access_77; xdp_direct_packet_access_78; xdp_direct_packet_access_79;
  xdp_direct_packet_access_80; xdp_direct_packet_access_81; xdp_direct_packet_access_82].

(** * [xdp.c] *)

Definition xdp_1 : bpf_test := TEST "XDP, using ifindex from netdev" [
  _insns
   [BPF_MOV64_IMM BPF_REG_0 0;
    BPF_LDX_MEM BPF_W BPF_REG_2 BPF_REG_1 (offsetof xdp_md "ingress_ifindex");
    BPF_JMP_IMM BPF_JLT BPF_REG_2 1 1; BPF_MOV64_IMM BPF_REG_0 1; BPF_EXIT_INSN];
  _result ACCEPT;
  _prog_type BPF_PROG_TYPE_XDP;
  _retval 1].

Definition xdp_tests : list bpf_test := [xdp_1].

(** * [meta_access.c] *)

Definition meta_access_1 : bpf_test := TEST "meta access, test1" [
  _insns
   [BPF_LDX_MEM BPF_W BPF_REG_2 BPF_REG_1 (offsetof xdp_md "data_meta");
    BPF_LDX_MEM BPF_W BPF_REG_3 BPF_REG_1 (offsetof xdp_md "data");
    BPF_MOV64_REG BPF_REG_0 BPF_REG_2; BPF_ALU64_IMM BPF_ADD BPF_REG_0 8;
    BPF_JMP_REG BPF_JGT BPF_REG_0 BPF_REG_3 1; BPF_LDX_MEM BPF_B BPF_REG_0 BPF_REG_2 0;
    BPF_MOV64_IMM BPF_REG_0 0; BPF_EXIT_INSN];
  _result ACCEPT;
  _prog_type BPF_PROG_TYPE_XDP].

Definition meta_access_2 : bpf_test := TEST "meta access, test2" [
  _insns
   [BPF_LDX_MEM BPF_W BPF_REG_2 BPF_REG_1 (offsetof xdp_md "data_meta");
    BPF_LDX_MEM BPF_W BPF_REG_3 BPF_REG_1 (offsetof xdp_md "data");
    BPF_MOV64_REG BPF_REG_0 BPF_REG_2; BPF_ALU64_IMM BPF_SUB BPF_REG_0 8;
    BPF_MOV64_REG BPF_REG_4 BPF_REG_2; BPF_ALU64_IMM BPF_ADD BPF_REG_4 8;
    BPF_JMP_REG BPF_JGT BPF_REG_4 BPF_REG_3 1; BPF_LDX_MEM BPF_B BPF_REG_0 BPF_REG_0 0;
    BPF_MOV64_IMM BPF_REG_0 0; BPF_EXIT_INSN];
  _result REJECT;
  _errstr "invalid access to packet, off=-8";
  _prog_type BPF_PROG_TYPE_XDP].

Definition meta_access_3 : bpf_test := TEST "meta access, test3" [
  _insns
   [BPF_LDX_MEM BPF_W BPF_REG_2 BPF_REG_1 (offsetof xdp_md "data_meta");
    BPF_LDX_MEM BPF_W BPF_REG_3 BPF_REG_1 (offsetof xdp_md "data_end");
    BPF_MOV64_REG BPF_REG_0 BPF_REG_2; BPF_ALU64_IMM BPF_ADD BPF_REG_0 8;
    BPF_JMP_REG BPF_JGT BPF_REG_0 BPF_REG_3 1; BPF_LDX_MEM BPF_B BPF_REG_0 BPF_REG_2 0;
    BPF_MOV64_IMM BPF_REG_0 0; BPF_EXIT_INSN];
  _result REJECT;
  _errstr "invalid access to packet";
  _prog_type BPF_PROG_TYPE_XDP].

Definition meta_access_4 : bpf_test := TEST "meta access, test4" [
  _insns
   [BPF_LDX_MEM BPF_W BPF_REG_2 BPF_REG_1 (offsetof xdp_md "data_meta");
    BPF_LDX_MEM BPF_W BPF_REG_3 BPF_REG_1 (offsetof xdp_md "data_end");
    BPF_LDX_MEM BPF_W BPF_REG_4 BPF_REG_1 (offsetof xdp_md "data");
    BPF_MOV64_REG BPF_REG_0 BPF_REG_4; BPF_ALU64_IMM BPF_ADD BPF_REG_0 8;
    BPF_JMP_REG BPF_JGT BPF_REG_0 BPF_REG_3 1; BPF_LDX_MEM BPF_B BPF_REG_0 BPF_REG_2 0;
    BPF_MOV64_IMM BPF_REG_0 0; BPF_EXIT_INSN];
  _result REJECT;
  _errstr "invalid access to packet";
  _prog_type BPF_PROG_TYPE_XDP].

Definition meta_access_5 : bpf_test := TEST "meta access, test5" [
  _insns
   [BPF_LDX_MEM BPF_W BPF_REG_3 BPF_REG_1 (offsetof xdp_md "data_meta");
    BPF_LDX_MEM BPF_W BPF_REG_4 BPF_REG_1 (offsetof xdp_md "data");
    BPF_MOV64_REG BPF_REG_0 BPF_REG_3; BPF_ALU64_IMM BPF_ADD BPF_REG_0 8;
    BPF_JMP_REG BPF_JGT BPF_REG_0 BPF_REG_4 3; BPF_MOV64_IMM BPF_REG_2 (-8);
    BPF_RAW_INSN (BPF_JMP .| BPF_CALL) 0 0 0 BPF_FUNC_xdp_adjust_meta;
    BPF_LDX_MEM BPF_B BPF_REG_0 BPF_REG_3 0; BPF_MOV64_IMM BPF_REG_0 0; BPF_EXIT_INSN];
  _result REJECT;
  _errstr "R3 !read_ok";
  _prog_type BPF_PROG_TYPE_XDP].

Definition meta_access_6 : bpf_test := TEST "meta access, test6" [
  _insns
   [BPF_LDX_MEM BPF_W BPF_REG_2 BPF_REG_1 (offsetof xdp_md "data_meta");
    BPF_LDX_MEM BPF_W BPF_REG_3 BPF_REG_1 (offsetof xdp_md "data");
    BPF_MOV64_REG BPF_REG_0 BPF_REG_3; BPF_ALU64_IMM BPF_ADD BPF_REG_0 8;
    BPF_MOV64_REG BPF_REG_4 BPF_REG_2; BPF_ALU64_IMM BPF_ADD BPF_REG_4 8;
    BPF_JMP_REG BPF_JGT BPF_REG_4 BPF_REG_0 1; BPF_LDX_MEM BPF_B BPF_REG_0 BPF_REG_2 0;
    BPF_MOV64_IMM BPF_REG_0 0; BPF_EXIT_INSN];
  _result REJECT;
  _errstr "invalid access to packet";
  _prog_type BPF_PROG_TYPE_XDP].

Definition meta_access_7 : bpf_test := TEST "meta access, test7" [
  _insns
   [BPF_LDX_MEM BPF_W BPF_REG_2 BPF_REG_1 (offsetof xdp_md "data_meta");
    BPF_LDX_MEM BPF_W BPF_REG_3 BPF_REG_1 (offsetof xdp_md "data");
    BPF_MOV64_REG BPF_REG_0 BPF_REG_3; BPF_ALU64_IMM BPF_ADD BPF_REG_0 8;
    BPF_MOV64_REG BPF_REG_4 BPF_REG_2; BPF_ALU64_IMM BPF_ADD BPF_REG_4 8;
    BPF_JMP_REG BPF_JGT BPF_REG_4 BPF_REG_3 1; BPF_LDX_MEM BPF_B BPF_REG_0 BPF_REG_2 0;
    BPF_MOV64_IMM BPF_REG_0 0; BPF_EXIT_INSN];
  _result ACCEPT;
  _prog_type BPF_PROG_TYPE_XDP].

Definition meta_access_8 : bpf_test := TEST "meta access, test8" [
  _insns
   [BPF_LDX_MEM BPF_W BPF_REG_2 BPF_REG_1 (offsetof xdp_md "data_meta");
    BPF_LDX_MEM BPF_W BPF_REG_3 BPF_REG_1 (offsetof xdp_md "data");
    BPF_MOV64_REG BPF_REG_4 BPF_REG_2; BPF_ALU64_IMM BPF_ADD BPF_REG_4 0xffff;
    BPF_JMP_REG BPF_JGT BPF_REG_4 BPF_REG_3 1; BPF_LDX_MEM BPF_B BPF_REG_0 BPF_REG_2 0;
    BPF_MOV64_IMM BPF_REG_0 0; BPF_EXIT_INSN];
  _result ACCEPT;
  _prog_type BPF_PROG_TYPE_XDP].

Definition meta_access_9 : bpf_test := TEST "meta access, test9" [
  _insns
   [BPF_LDX_MEM BPF_W BPF_REG_2 BPF_REG_1 (offsetof xdp_md "data_meta");
    BPF_LDX_MEM BPF_W BPF_REG_3 BPF_REG_1 (offsetof xdp_md "data");
    BPF_MOV64_REG BPF_REG_4 BPF_REG_2; BPF_ALU64_IMM BPF_ADD BPF_REG_4 0xffff;
    BPF_ALU64_IMM BPF_ADD BPF_REG_4 1; BPF_JMP_REG BPF_JGT BPF_REG_4 BPF_REG_3 1;
    BPF_LDX_MEM BPF_B BPF_REG_0 BPF_REG_2 0; BPF_MOV64_IMM BPF_REG_0 0; BPF_EXIT_INSN];
  _result REJECT;
  _errstr "invalid access to packet";
  _prog_type BPF_PROG_TYPE_XDP].

Definition meta_access_10 : bpf_test := TEST "meta access, test10" [
  _insns
   [BPF_LDX_MEM BPF_W BPF_REG_2 BPF_REG_1 (offsetof xdp_md "data_meta");
    BPF_LDX_MEM BPF_W BPF_REG_3 BPF_REG_1 (offsetof xdp_md "data");
    BPF_LDX_MEM BPF_W BPF_REG_4 BPF_REG_1 (offsetof xdp_md "data_end");
    BPF_MOV64_IMM BPF_REG_5 42; BPF_MOV64_IMM BPF_REG_6 24;
    BPF_STX_MEM BPF_DW BPF_REG_10 BPF_REG_5 (-8);
    BPF_ATOMIC_OP BPF_DW BPF_ADD BPF_REG_10 BPF_REG_6 (-8);
    BPF_LDX_MEM BPF_DW BPF_REG_5 BPF_REG_10 (-8); BPF_JMP_IMM BPF_JGT BPF_REG_5 100 6;
    BPF_ALU64_REG BPF_ADD BPF_REG_3 BPF_REG_5; BPF_MOV64_REG BPF_REG_5 BPF_REG_3;
    BPF_MOV64_REG BPF_REG_6 BPF_REG_2; BPF_ALU64_IMM BPF_ADD BPF_REG_6 8;
    BPF_JMP_REG BPF_JGT BPF_REG_6 BPF_REG_5 1; BPF_LDX_MEM BPF_B BPF_REG_2 BPF_REG_2 0;
    BPF_MOV64_IMM BPF_REG_0 0; BPF_EXIT_INSN];
  _result REJECT;
  _errstr "invalid access to packet";
  _prog_type BPF_PROG_TYPE_XDP].

Definition meta_access_11 : bpf_test := TEST "meta access, test11" [
  _insns
   [BPF_LDX_MEM BPF_W BPF_REG_2 BPF_REG_1 (offsetof xdp_md "data_meta");
    BPF_LDX_MEM BPF_W BPF_REG_3 BPF_REG_1 (offsetof xdp_md "data"); BPF_MOV64_IMM BPF_REG_5 42;
    BPF_MOV64_IMM BPF_REG_6 24; BPF_STX_MEM BPF_DW BPF_REG_10 BPF_REG_5 (-8);
    BPF_ATOMIC_OP BPF_DW BPF_ADD BPF_REG_10 BPF_REG_6 (-8);
    BPF_LDX_MEM BPF_DW BPF_REG_5 BPF_REG_10 (-8); BPF_JMP_IMM BPF_JGT BPF_REG_5 100 6;
    BPF_ALU64_REG BPF_ADD BPF_REG_2 BPF_REG_5; BPF_MOV64_REG BPF_REG_5 BPF_REG_2;
    BPF_MOV64_REG BPF_REG_6 BPF_REG_2; BPF_ALU64_IMM BPF_ADD BPF_REG_6 8;
    BPF_JMP_REG BPF_JGT BPF_REG_6 BPF_REG_3 1; BPF_LDX_MEM BPF_B BPF_REG_5 BPF_REG_5 0;
    BPF_MOV64_IMM BPF_REG_0 0; BPF_EXIT_INSN];
  _result ACCEPT;
  _prog_type BPF_PROG_TYPE_XDP].

Definition meta_access_12 : bpf_test := TEST "meta access, test12" [
  _insns
   [BPF_LDX_MEM BPF_W BPF_REG_2 BPF_REG_1 (offsetof xdp_md "data_meta");
    BPF_LDX_MEM BPF_W BPF_REG_3 BPF_REG_1 (offsetof xdp_md "data");
    BPF_LDX_MEM BPF_W BPF_REG_4 BPF_REG_1 (offsetof xdp_md "data_end");
    BPF_MOV64_REG BPF_REG_5 BPF_REG_3; BPF_ALU64_IMM BPF_ADD BPF_REG_5 16;
    BPF_JMP_REG BPF_JGT BPF_REG_5 BPF_REG_4 5; BPF_LDX_MEM BPF_B BPF_REG_0 BPF_REG_3 0;
    BPF_MOV64_REG BPF_REG_5 BPF_REG_2; BPF_ALU64_IMM BPF_ADD BPF_REG_5 16;
    BPF_JMP_REG BPF_JGT BPF_REG_5 BPF_REG_3 1; BPF_LDX_MEM BPF_B BPF_REG_0 BPF_REG_2 0;
    BPF_MOV64_IMM BPF_REG_0 0; BPF_EXIT_INSN];
  _result ACCEPT;
  _prog_type BPF_PROG_TYPE_XDP].

Definition meta_access_tests : list bpf_test := [meta_access_1; meta_access_2; meta_access_3;
  meta_access_4; meta_access_5; meta_access_6; meta_access_7; meta_access_8; meta_access_9;
  meta_access_10; meta_access_11; meta_access_12].

(** * [helper_packet_access.c] *)

Definition helper_packet_access_1 : bpf_test := TEST "helper access to packet: test1, valid packet_ptr range" [
  _insns
   [BPF_LDX_MEM BPF_W BPF_REG_2 BPF_REG_1 (offsetof xdp_md "data");
    BPF_LDX_MEM BPF_W BPF_REG_3 BPF_REG_1 (offsetof xdp_md "data_end");
    BPF_MOV64_REG BPF_REG_1 BPF_REG_2; BPF_ALU64_IMM BPF_ADD BPF_REG_1 8;
    BPF_JMP_REG BPF_JGT BPF_REG_1 BPF_REG_3 5; BPF_LD_MAP_FD BPF_REG_1 0;
    BPF_MOV64_REG BPF_REG_3 BPF_REG_2; BPF_MOV64_IMM BPF_REG_4 0;
    BPF_RAW_INSN (BPF_JMP .| BPF_CALL) 0 0 0 BPF_FUNC_map_update_elem;
    BPF_MOV64_IMM BPF_REG_0 0; BPF_EXIT_INSN];
  _fixup fixup_map_hash_8b [5];
  _result_unpriv ACCEPT;
  _result ACCEPT;
  _prog_type BPF_PROG_TYPE_XDP].

Definition helper_packet_access_2 : bpf_test := TEST "helper access to packet: test2, unchecked packet_ptr" [
  _insns
   [BPF_LDX_MEM BPF_W BPF_REG_2 BPF_REG_1 (offsetof xdp_md "data"); BPF_LD_MAP_FD BPF_REG_1 0;
    BPF_RAW_INSN (BPF_JMP .| BPF_CALL) 0 0 0 BPF_FUNC_map_lookup_elem;
    BPF_MOV64_IMM BPF_REG_0 0; BPF_EXIT_INSN];
  _fixup fixup_map_hash_8b [1];
  _result REJECT;
  _errstr "invalid access to packet";
  _prog_type BPF_PROG_TYPE_XDP].

Definition helper_packet_access_3 : bpf_test := TEST "helper access to packet: test3, variable add" [
  _insns
   [BPF_LDX_MEM BPF_W BPF_REG_2 BPF_REG_1 (offsetof xdp_md "data");
    BPF_LDX_MEM BPF_W BPF_REG_3 BPF_REG_1 (offsetof xdp_md "data_end");
    BPF_MOV64_REG BPF_REG_4 BPF_REG_2; BPF_ALU64_IMM BPF_ADD BPF_REG_4 8;
    BPF_JMP_REG BPF_JGT BPF_REG_4 BPF_REG_3 10; BPF_LDX_MEM BPF_B BPF_REG_5 BPF_REG_2 0;
    BPF_MOV64_REG BPF_REG_4 BPF_REG_2; BPF_ALU64_REG BPF_ADD BPF_REG_4 BPF_REG_5;
    BPF_MOV64_REG BPF_REG_5 BPF_REG_4; BPF_ALU64_IMM BPF_ADD BPF_REG_5 8;
    BPF_JMP_REG BPF_JGT BPF_REG_5 BPF_REG_3 4; BPF_LD_MAP_FD BPF_REG_1 0;
    BPF_MOV64_REG BPF_REG_2 BPF_REG_4;
    BPF_RAW_INSN (BPF_JMP .| BPF_CALL) 0 0 0 BPF_FUNC_map_lookup_elem;
    BPF_MOV64_IMM BPF_REG_0 0; BPF_EXIT_INSN];
  _fixup fixup_map_hash_8b [11];
  _result ACCEPT;
  _prog_type BPF_PROG_TYPE_XDP].

Definition helper_packet_access_4 : bpf_test := TEST "helper access to packet: test4, packet_ptr with bad range" [
  _insns
   [BPF_LDX_MEM BPF_W BPF_REG_2 BPF_REG_1 (offsetof xdp_md "data");
    BPF_LDX_MEM BPF_W BPF_REG_3 BPF_REG_1 (offsetof xdp_md "data_end");
    BPF_MOV64_REG BPF_REG_4 BPF_REG_2; BPF_ALU64_IMM BPF_ADD BPF_REG_4 4;
    BPF_JMP_REG BPF_JGT BPF_REG_4 BPF_REG_3 2; BPF_MOV64_IMM BPF_REG_0 0; BPF_EXIT_INSN;
    BPF_LD_MAP_FD BPF_REG_1 0;
    BPF_RAW_INSN (BPF_JMP .| BPF_CALL) 0 0 0 BPF_FUNC_map_lookup_elem;
    BPF_MOV64_IMM BPF_REG_0 0; BPF_EXIT_INSN];
  _fixup fixup_map_hash_8b [7];
  _result REJECT;
  _errstr "invalid access to packet";
  _prog_type BPF_PROG_TYPE_XDP].

Definition helper_packet_access_5 : bpf_test := TEST "helper access to packet: test5, packet_ptr with too short range" [
  _insns
   [BPF_LDX_MEM BPF_W BPF_REG_2 BPF_REG_1 (offsetof xdp_md "data");
    BPF_LDX_MEM BPF_W BPF_REG_3 BPF_REG_1 (offsetof xdp_md "data_end");
    BPF_ALU64_IMM BPF_ADD BPF_REG_2 1; BPF_MOV64_REG BPF_REG_4 BPF_REG_2;
    BPF_ALU64_IMM BPF_ADD BPF_REG_4 7; BPF_JMP_REG BPF_JGT BPF_REG_4 BPF_REG_3 3;
    BPF_LD_MAP_FD BPF_REG_1 0;
    BPF_RAW_INSN (BPF_JMP .| BPF_CALL) 0 0 0 BPF_FUNC_map_lookup_elem;
    BPF_MOV64_IMM BPF_REG_0 0; BPF_EXIT_INSN];
  _fixup fixup_map_hash_8b [6];
  _result REJECT;
  _errstr "invalid access to packet";
  _prog_type BPF_PROG_TYPE_XDP].

Definition helper_packet_access_6 : bpf_test := TEST "helper access to packet: test6, cls valid packet_ptr range" [
  _insns
   [BPF_LDX_MEM BPF_W BPF_REG_2 BPF_REG_1 (offsetof __sk_buff "data");
    BPF_LDX_MEM BPF_W BPF_REG_3 BPF_REG_1 (offsetof __sk_buff "data_end");
    BPF_MOV64_REG BPF_REG_1 BPF_REG_2; BPF_ALU64_IMM BPF_ADD BPF_REG_1 8;
    BPF_JMP_REG BPF_JGT BPF_REG_1 BPF_REG_3 5; BPF_LD_MAP_FD BPF_REG_1 0;
    BPF_MOV64_REG BPF_REG_3 BPF_REG_2; BPF_MOV64_IMM BPF_REG_4 0;
    BPF_RAW_INSN (BPF_JMP .| BPF_CALL) 0 0 0 BPF_FUNC_map_update_elem;
    BPF_MOV64_IMM BPF_REG_0 0; BPF_EXIT_INSN];
  _fixup fixup_map_hash_8b [5];
  _result ACCEPT;
  _prog_type BPF_PROG_TYPE_SCHED_CLS].

Definition helper_packet_access_7 : bpf_test := TEST "helper access to packet: test7, cls unchecked packet_ptr" [
  _insns
   [BPF_LDX_MEM BPF_W BPF_REG_2 BPF_REG_1 (offsetof __sk_buff "data");
    BPF_LD_MAP_FD BPF_REG_1 0;
    BPF_RAW_INSN (BPF_JMP .| BPF_CALL) 0 0 0 BPF_FUNC_map_lookup_elem;
    BPF_MOV64_IMM BPF_REG_0 0; BPF_EXIT_INSN];
  _fixup fixup_map_hash_8b [1];
  _result REJECT;
  _errstr "invalid access to packet";
  _prog_type BPF_PROG_TYPE_SCHED_CLS].

Definition helper_packet_access_8 : bpf_test := TEST "helper access to packet: test8, cls variable add" [
  _insns
   [BPF_LDX_MEM BPF_W BPF_REG_2 BPF_REG_1 (offsetof __sk_buff "data");
    BPF_LDX_MEM BPF_W BPF_REG_3 BPF_REG_1 (offsetof __sk_buff "data_end");
    BPF_MOV64_REG BPF_REG_4 BPF_REG_2; BPF_ALU64_IMM BPF_ADD BPF_REG_4 8;
    BPF_JMP_REG BPF_JGT BPF_REG_4 BPF_REG_3 10; BPF_LDX_MEM BPF_B BPF_REG_5 BPF_REG_2 0;
    BPF_MOV64_REG BPF_REG_4 BPF_REG_2; BPF_ALU64_REG BPF_ADD BPF_REG_4 BPF_REG_5;
    BPF_MOV64_REG BPF_REG_5 BPF_REG_4; BPF_ALU64_IMM BPF_ADD BPF_REG_5 8;
    BPF_JMP_REG BPF_JGT BPF_REG_5 BPF_REG_3 4; BPF_LD_MAP_FD BPF_REG_1 0;
    BPF_MOV64_REG BPF_REG_2 BPF_REG_4;
    BPF_RAW_INSN (BPF_JMP .| BPF_CALL) 0 0 0 BPF_FUNC_map_lookup_elem;
    BPF_MOV64_IMM BPF_REG_0 0; BPF_EXIT_INSN];
  _fixup fixup_map_hash_8b [11];
  _result ACCEPT;
  _prog_type BPF_PROG_TYPE_SCHED_CLS].

Definition helper_packet_access_9 : bpf_test := TEST "helper access to packet: test9, cls packet_ptr with bad range" [
  _insns
   [BPF_LDX_MEM BPF_W BPF_REG_2 BPF_REG_1 (offsetof __sk_buff "data");
    BPF_LDX_MEM BPF_W BPF_REG_3 BPF_REG_1 (offsetof __sk_buff "data_end");
    BPF_MOV64_REG BPF_REG_4 BPF_REG_2; BPF_ALU64_IMM BPF_ADD BPF_REG_4 4;
    BPF_JMP_REG BPF_JGT BPF_REG_4 BPF_REG_3 2; BPF_MOV64_IMM BPF_REG_0 0; BPF_EXIT_INSN;
    BPF_LD_MAP_FD BPF_REG_1 0;
    BPF_RAW_INSN (BPF_JMP .| BPF_CALL) 0 0 0 BPF_FUNC_map_lookup_elem;
    BPF_MOV64_IMM BPF_REG_0 0; BPF_EXIT_INSN];
  _fixup fixup_map_hash_8b [7];
  _result REJECT;
  _errstr "invalid access to packet";
  _prog_type BPF_PROG_TYPE_SCHED_CLS].

Definition helper_packet_access_10 : bpf_test := TEST "helper access to packet: test10, cls packet_ptr with too short range" [
  _insns
   [BPF_LDX_MEM BPF_W BPF_REG_2 BPF_REG_1 (offsetof __sk_buff "data");
    BPF_LDX_MEM BPF_W BPF_REG_3 BPF_REG_1 (offsetof __sk_buff "data_end");
    BPF_ALU64_IMM BPF_ADD BPF_REG_2 1; BPF_MOV64_REG BPF_REG_4 BPF_REG_2;
    BPF_ALU64_IMM BPF_ADD BPF_REG_4 7; BPF_JMP_REG BPF_JGT BPF_REG_4 BPF_REG_3 3;
    BPF_LD_MAP_FD BPF_REG_1 0;
    BPF_RAW_INSN (BPF_JMP .| BPF_CALL) 0 0 0 BPF_FUNC_map_lookup_elem;
    BPF_MOV64_IMM BPF_REG_0 0; BPF_EXIT_INSN];
  _fixup fixup_map_hash_8b [6];
  _result REJECT;
  _errstr "invalid access to packet";
  _prog_type BPF_PROG_TYPE_SCHED_CLS].

Definition helper_packet_access_11 : bpf_test := TEST "helper access to packet: test11, cls unsuitable helper 1" [
  _insns
   [BPF_LDX_MEM BPF_W BPF_REG_6 BPF_REG_1 (offsetof __sk_buff "data");
    BPF_LDX_MEM BPF_W BPF_REG_7 BPF_REG_1 (offsetof __sk_buff "data_end");
    BPF_ALU64_IMM BPF_ADD BPF_REG_6 1; BPF_MOV64_REG BPF_REG_3 BPF_REG_6;
    BPF_ALU64_IMM BPF_ADD BPF_REG_3 7; BPF_JMP_REG BPF_JGT BPF_REG_3 BPF_REG_7 4;
    BPF_MOV64_IMM BPF_REG_2 0; BPF_MOV64_IMM BPF_REG_4 42; BPF_MOV64_IMM BPF_REG_5 0;
    BPF_RAW_INSN (BPF_JMP .| BPF_CALL) 0 0 0 BPF_FUNC_skb_store_bytes;
    BPF_MOV64_IMM BPF_REG_0 0; BPF_EXIT_INSN];
  _result REJECT;
  _errstr "helper access to the packet";
  _prog_type BPF_PROG_TYPE_SCHED_CLS].

Definition helper_packet_access_12 : bpf_test := TEST "helper access to packet: test12, cls unsuitable helper 2" [
  _insns
   [BPF_LDX_MEM BPF_W BPF_REG_6 BPF_REG_1 (offsetof __sk_buff "data");
    BPF_LDX_MEM BPF_W BPF_REG_7 BPF_REG_1 (offsetof __sk_buff "data_end");
    BPF_MOV64_REG BPF_REG_3 BPF_REG_6; BPF_ALU64_IMM BPF_ADD BPF_REG_6 8;
    BPF_JMP_REG BPF_JGT BPF_REG_6 BPF_REG_7 3; BPF_MOV64_IMM BPF_REG_2 0;
    BPF_MOV64_IMM BPF_REG_4 4; BPF_RAW_INSN (BPF_JMP .| BPF_CALL) 0 0 0 BPF_FUNC_skb_load_bytes;
    BPF_MOV64_IMM BPF_REG_0 0; BPF_EXIT_INSN];
  _result REJECT;
  _errstr "helper access to the packet";
  _prog_type BPF_PROG_TYPE_SCHED_CLS].

Definition helper_packet_access_13 : bpf_test := TEST "helper access to packet: test13, cls helper ok" [
  _insns
   [BPF_LDX_MEM BPF_W BPF_REG_6 BPF_REG_1 (offsetof __sk_buff "data");
    BPF_LDX_MEM BPF_W BPF_REG_7 BPF_REG_1 (offsetof __sk_buff "data_end");
    BPF_ALU64_IMM BPF_ADD BPF_REG_6 1; BPF_MOV64_REG BPF_REG_1 BPF_REG_6;
    BPF_ALU64_IMM BPF_ADD BPF_REG_1 7; BPF_JMP_REG BPF_JGT BPF_REG_1 BPF_REG_7 6;
    BPF_MOV64_REG BPF_REG_1 BPF_REG_6; BPF_MOV64_IMM BPF_REG_2 4; BPF_MOV64_IMM BPF_REG_3 0;
    BPF_MOV64_IMM BPF_REG_4 0; BPF_MOV64_IMM BPF_REG_5 0;
    BPF_RAW_INSN (BPF_JMP .| BPF_CALL) 0 0 0 BPF_FUNC_csum_diff; BPF_MOV64_IMM BPF_REG_0 0;
    BPF_EXIT_INSN];
  _result ACCEPT;
  _prog_type BPF_PROG_TYPE_SCHED_CLS].

Definition helper_packet_access_14 : bpf_test := TEST "helper access to packet: test14, cls helper ok sub" [
  _insns
   [BPF_LDX_MEM BPF_W BPF_REG_6 BPF_REG_1 (offsetof __sk_buff "data");
    BPF_LDX_MEM BPF_W BPF_REG_7 BPF_REG_1 (offsetof __sk_buff "data_end");
    BPF_ALU64_IMM BPF_ADD BPF_REG_6 1; BPF_MOV64_REG BPF_REG_1 BPF_REG_6;
    BPF_ALU64_IMM BPF_ADD BPF_REG_1 7; BPF_JMP_REG BPF_JGT BPF_REG_1 BPF_REG_7 6;
    BPF_ALU64_IMM BPF_SUB BPF_REG_1 4; BPF_MOV64_IMM BPF_REG_2 4; BPF_MOV64_IMM BPF_REG_3 0;
    BPF_MOV64_IMM BPF_REG_4 0; BPF_MOV64_IMM BPF_REG_5 0;
    BPF_RAW_INSN (BPF_JMP .| BPF_CALL) 0 0 0 BPF_FUNC_csum_diff; BPF_MOV64_IMM BPF_REG_0 0;
    BPF_EXIT_INSN];
  _result ACCEPT;
  _prog_type BPF_PROG_TYPE_SCHED_CLS].

Definition helper_packet_access_15 : bpf_test := TEST "helper access to packet: test15, cls helper fail sub" [
  _insns
   [BPF_LDX_MEM BPF_W BPF_REG_6 BPF_REG_1 (offsetof __sk_buff "data");
    BPF_LDX_MEM BPF_W BPF_REG_7 BPF_REG_1 (offsetof __sk_buff "data_end");
    BPF_ALU64_IMM BPF_ADD BPF_REG_6 1; BPF_MOV64_REG BPF_REG_1 BPF_REG_6;
    BPF_ALU64_IMM BPF_ADD BPF_REG_1 7; BPF_JMP_REG BPF_JGT BPF_REG_1 BPF_REG_7 6;
    BPF_ALU64_IMM BPF_SUB BPF_REG_1 12; BPF_MOV64_IMM BPF_REG_2 4; BPF_MOV64_IMM BPF_REG_3 0;
    BPF_MOV64_IMM BPF_REG_4 0; BPF_MOV64_IMM BPF_REG_5 0;
    BPF_RAW_INSN (BPF_JMP .| BPF_CALL) 0 0 0 BPF_FUNC_csum_diff; BPF_MOV64_IMM BPF_REG_0 0;
    BPF_EXIT_INSN];
  _result REJECT;
  _errstr "invalid access to packet";
  _prog_type BPF_PROG_TYPE_SCHED_CLS].

Definition helper_packet_access_16 : bpf_test := TEST "helper access to packet: test16, cls helper fail range 1" [
  _insns
   [BPF_LDX_MEM BPF_W BPF_REG_6 BPF_REG_1 (offsetof __sk_buff "data");
    BPF_LDX_MEM BPF_W BPF_REG_7 BPF_REG_1 (offsetof __sk_buff "data_end");
    BPF_ALU64_IMM BPF_ADD BPF_REG_6 1; BPF_MOV64_REG BPF_REG_1 BPF_REG_6;
    BPF_ALU64_IMM BPF_ADD BPF_REG_1 7; BPF_JMP_REG BPF_JGT BPF_REG_1 BPF_REG_7 6;
    BPF_MOV64_REG BPF_REG_1 BPF_REG_6; BPF_MOV64_IMM BPF_REG_2 8; BPF_MOV64_IMM BPF_REG_3 0;
    BPF_MOV64_IMM BPF_REG_4 0; BPF_MOV64_IMM BPF_REG_5 0;
    BPF_RAW_INSN (BPF_JMP .| BPF_CALL) 0 0 0 BPF_FUNC_csum_diff; BPF_MOV64_IMM BPF_REG_0 0;
    BPF_EXIT_INSN];
  _result REJECT;
  _errstr "invalid access to packet";
  _prog_type BPF_PROG_TYPE_SCHED_CLS].

Definition helper_packet_access_17 : bpf_test := TEST "helper access to packet: test17, cls helper fail range 2" [
  _insns
   [BPF_LDX_MEM BPF_W BPF_REG_6 BPF_REG_1 (offsetof __sk_buff "data");
    BPF_LDX_MEM BPF_W BPF_REG_7 BPF_REG_1 (offsetof __sk_buff "data_end");
    BPF_ALU64_IMM BPF_ADD BPF_REG_6 1; BPF_MOV64_REG BPF_REG_1 BPF_REG_6;
    BPF_ALU64_IMM BPF_ADD BPF_REG_1 7; BPF_JMP_REG BPF_JGT BPF_REG_1 BPF_REG_7 6;
    BPF_MOV64_REG BPF_REG_1 BPF_REG_6; BPF_MOV64_IMM BPF_REG_2 (-9); BPF_MOV64_IMM BPF_REG_3 0;
    BPF_MOV64_IMM BPF_REG_4 0; BPF_MOV64_IMM BPF_REG_5 0;
    BPF_RAW_INSN (BPF_JMP .| BPF_CALL) 0 0 0 BPF_FUNC_csum_diff; BPF_MOV64_IMM BPF_REG_0 0;
    BPF_EXIT_INSN];
  _result REJECT;
  _errstr "R2 min value is negative";
  _prog_type BPF_PROG_TYPE_SCHED_CLS].

Definition helper_packet_access_18 : bpf_test := TEST "helper access to packet: test18, cls helper fail range 3" [
  _insns
   [BPF_LDX_MEM BPF_W BPF_REG_6 BPF_REG_1 (offsetof __sk_buff "data");
    BPF_LDX_MEM BPF_W BPF_REG_7 BPF_REG_1 (offsetof __sk_buff "data_end");
    BPF_ALU64_IMM BPF_ADD BPF_REG_6 1; BPF_MOV64_REG BPF_REG_1 BPF_REG_6;
    BPF_ALU64_IMM BPF_ADD BPF_REG_1 7; BPF_JMP_REG BPF_JGT BPF_REG_1 BPF_REG_7 6;
    BPF_MOV64_REG BPF_REG_1 BPF_REG_6; BPF_MOV64_IMM BPF_REG_2 (Z.lnot 0);
    BPF_MOV64_IMM BPF_REG_3 0; BPF_MOV64_IMM BPF_REG_4 0; BPF_MOV64_IMM BPF_REG_5 0;
    BPF_RAW_INSN (BPF_JMP .| BPF_CALL) 0 0 0 BPF_FUNC_csum_diff; BPF_MOV64_IMM BPF_REG_0 0;
    BPF_EXIT_INSN];
  _result REJECT;
  _errstr "R2 min value is negative";
  _prog_type BPF_PROG_TYPE_SCHED_CLS].

Definition helper_packet_access_19 : bpf_test := TEST "helper access to packet: test19, cls helper range zero" [
  _insns
   [BPF_LDX_MEM BPF_W BPF_REG_6 BPF_REG_1 (offsetof __sk_buff "data");
    BPF_LDX_MEM BPF_W BPF_REG_7 BPF_REG_1 (offsetof __sk_buff "data_end");
    BPF_ALU64_IMM BPF_ADD BPF_REG_6 1; BPF_MOV64_REG BPF_REG_1 BPF_REG_6;
    BPF_ALU64_IMM BPF_ADD BPF_REG_1 7; BPF_JMP_REG BPF_JGT BPF_REG_1 BPF_REG_7 6;
    BPF_MOV64_REG BPF_REG_1 BPF_REG_6; BPF_MOV64_IMM BPF_REG_2 0; BPF_MOV64_IMM BPF_REG_3 0;
    BPF_MOV64_IMM BPF_REG_4 0; BPF_MOV64_IMM BPF_REG_5 0;
    BPF_RAW_INSN (BPF_JMP .| BPF_CALL) 0 0 0 BPF_FUNC_csum_diff; BPF_MOV64_IMM BPF_REG_0 0;
    BPF_EXIT_INSN];
  _result ACCEPT;
  _prog_type BPF_PROG_TYPE_SCHED_CLS].

Definition helper_packet_access_20 : bpf_test := TEST "helper access to packet: test20, pkt end as input" [
  _insns
   [BPF_LDX_MEM BPF_W BPF_REG_6 BPF_REG_1 (offsetof __sk_buff "data");
    BPF_LDX_MEM BPF_W BPF_REG_7 BPF_REG_1 (offsetof __sk_buff "data_end");
    BPF_ALU64_IMM BPF_ADD BPF_REG_6 1; BPF_MOV64_REG BPF_REG_1 BPF_REG_6;
    BPF_ALU64_IMM BPF_ADD BPF_REG_1 7; BPF_JMP_REG BPF_JGT BPF_REG_1 BPF_REG_7 6;
    BPF_MOV64_REG BPF_REG_1 BPF_REG_7; BPF_MOV64_IMM BPF_REG_2 4; BPF_MOV64_IMM BPF_REG_3 0;
    BPF_MOV64_IMM BPF_REG_4 0; BPF_MOV64_IMM BPF_REG_5 0;
    BPF_RAW_INSN (BPF_JMP .| BPF_CALL) 0 0 0 BPF_FUNC_csum_diff; BPF_MOV64_IMM BPF_REG_0 0;
    BPF_EXIT_INSN];
  _result REJECT;
  _errstr "R1 type=pkt_end expected=fp";
  _prog_type BPF_PROG_TYPE_SCHED_CLS].

Definition helper_packet_access_21 : bpf_test := TEST "helper access to packet: test21, wrong reg" [
  _insns
   [BPF_LDX_MEM BPF_W BPF_REG_6 BPF_REG_1 (offsetof __sk_buff "data");
    BPF_LDX_MEM BPF_W BPF_REG_7 BPF_REG_1 (offsetof __sk_buff "data_end");
    BPF_ALU64_IMM BPF_ADD BPF_REG_6 1; BPF_MOV64_REG BPF_REG_1 BPF_REG_6;
    BPF_ALU64_IMM BPF_ADD BPF_REG_1 7; BPF_JMP_REG BPF_JGT BPF_REG_1 BPF_REG_7 6;
    BPF_MOV64_IMM BPF_REG_2 4; BPF_MOV64_IMM BPF_REG_3 0; BPF_MOV64_IMM BPF_REG_4 0;
    BPF_MOV64_IMM BPF_REG_5 0; BPF_RAW_INSN (BPF_JMP .| BPF_CALL) 0 0 0 BPF_FUNC_csum_diff;
    BPF_MOV64_IMM BPF_REG_0 0; BPF_EXIT_INSN];
  _result REJECT;
  _errstr "invalid access to packet";
  _prog_type BPF_PROG_TYPE_SCHED_CLS].

Definition helper_packet_access_tests : list bpf_test := [helper_packet_access_1;
  helper_packet_access_2; helper_packet_access_3; helper_packet_access_4; helper_packet_access_5;
  helper_packet_access_6; helper_packet_access_7; helper_packet_access_8; helper_packet_access_9;
  helper_packet_access_10; helper_packet_access_11; helper_packet_access_12;
  helper_packet_access_13; helper_packet_access_14; helper_packet_access_15;
  helper_packet_access_16; helper_packet_access_17; helper_packet_access_18;
  helper_packet_access_19; helper_packet_access_20; helper_packet_access_21].

End LegacyXdp.
