(* ===== verification/LegacyMap.v ===== *)
(** Verifier tests of the repository, maps: values, arrays, pointers into map values.

    Each definition is one element of a file of [selftests/legacy/verifier],
    written with the macros of [BpfInsn] and the designators of [ConvertTests];
    a list per file gives them in the order of the file. *)

From S2P Require Import Prelude BpfInsn ConvertTests.
From Stdlib Require Import ZArith String.
From stdpp Require Import base strings list.
Import BpfInsn ConvertTests.
Open Scope Z_scope.

Module LegacyMap.

(** * [and.c] *)

Definition and_1 : bpf_test := TEST "invalid and of negative number" [
  _insns
   [BPF_ST_MEM BPF_DW BPF_REG_10 (-8) 0; BPF_MOV64_REG BPF_REG_2 BPF_REG_10;
    BPF_ALU64_IMM BPF_ADD BPF_REG_2 (-8); BPF_LD_MAP_FD BPF_REG_1 0;
    BPF_RAW_INSN (BPF_JMP .| BPF_CALL) 0 0 0 BPF_FUNC_map_lookup_elem;
    BPF_JMP_IMM BPF_JEQ BPF_REG_0 0 4; BPF_LDX_MEM BPF_B BPF_REG_1 BPF_REG_0 0;
    BPF_ALU64_IMM BPF_AND BPF_REG_1 (-4); BPF_ALU64_IMM BPF_LSH BPF_REG_1 2;
    BPF_ALU64_REG BPF_ADD BPF_REG_0 BPF_REG_1;
    BPF_ST_MEM BPF_DW BPF_REG_0 0 (offsetof test_val "foo"); BPF_EXIT_INSN];
  _fixup fixup_map_hash_48b [3];
  _errstr "R0 max value is outside of the allowed memory range";
  _result REJECT;
  _flags F_NEEDS_EFFICIENT_UNALIGNED_ACCESS].

Definition and_2 : bpf_test := TEST "invalid range check" [
  _insns
   [BPF_ST_MEM BPF_DW BPF_REG_10 (-8) 0; BPF_MOV64_REG BPF_REG_2 BPF_REG_10;
    BPF_ALU64_IMM BPF_ADD BPF_REG_2 (-8); BPF_LD_MAP_FD BPF_REG_1 0;
    BPF_RAW_INSN (BPF_JMP .| BPF_CALL) 0 0 0 BPF_FUNC_map_lookup_elem;
    BPF_JMP_IMM BPF_JEQ BPF_REG_0 0 12; BPF_LDX_MEM BPF_W BPF_REG_1 BPF_REG_0 0;
    BPF_MOV64_IMM BPF_REG_9 1; BPF_ALU32_IMM BPF_MOD BPF_REG_1 2;
    BPF_ALU32_IMM BPF_ADD BPF_REG_1 1; BPF_ALU32_REG BPF_AND BPF_REG_9 BPF_REG_1;
    BPF_ALU32_IMM BPF_ADD BPF_REG_9 1; BPF_ALU32_IMM BPF_RSH BPF_REG_9 1;
    BPF_MOV32_IMM BPF_REG_3 1; BPF_ALU32_REG BPF_SUB BPF_REG_3 BPF_REG_9;
    BPF_ALU32_IMM BPF_MUL BPF_REG_3 0x10000000; BPF_ALU64_REG BPF_ADD BPF_REG_0 BPF_REG_3;
    BPF_STX_MEM BPF_W BPF_REG_0 BPF_REG_3 0; BPF_MOV64_REG BPF_REG_0 0; BPF_EXIT_INSN];
  _fixup fixup_map_hash_48b [3];
  _errstr "R0 max value is outside of the allowed memory range";
  _result REJECT;
  _flags F_NEEDS_EFFICIENT_UNALIGNED_ACCESS].

Definition and_3 : bpf_test := TEST "check known subreg with unknown reg" [
  _insns
   [BPF_RAW_INSN (BPF_JMP .| BPF_CALL) 0 0 0 BPF_FUNC_get_prandom_u32;
    BPF_ALU64_IMM BPF_LSH BPF_REG_0 32; BPF_ALU64_IMM BPF_ADD BPF_REG_0 1;
    BPF_ALU64_IMM BPF_AND BPF_REG_0 0xffff1234; BPF_JMP32_IMM BPF_JLT BPF_REG_0 1 1;
    BPF_LDX_MEM BPF_W BPF_REG_1 BPF_REG_1 512; BPF_MOV64_IMM BPF_REG_0 0; BPF_EXIT_INSN];
  _errstr_unpriv "R1 !read_ok";
  _result_unpriv REJECT;
  _result ACCEPT;
  _retval 0].

Definition and_tests : list bpf_test := [and_1; and_2; and_3].

(** * [array_access.c] *)

Definition array_access_1 : bpf_test := TEST "valid map access into an array with a constant" [
  _insns
   [BPF_ST_MEM BPF_DW BPF_REG_10 (-8) 0; BPF_MOV64_REG BPF_REG_2 BPF_REG_10;
    BPF_ALU64_IMM BPF_ADD BPF_REG_2 (-8); BPF_LD_MAP_FD BPF_REG_1 0;
    BPF_RAW_INSN (BPF_JMP .| BPF_CALL) 0 0 0 BPF_FUNC_map_lookup_elem;
    BPF_JMP_IMM BPF_JEQ BPF_REG_0 0 1; BPF_ST_MEM BPF_DW BPF_REG_0 0 (offsetof test_val "foo");
    BPF_EXIT_INSN];
  _fixup fixup_map_hash_48b [3];
  _errstr_unpriv "R0 leaks addr";
  _result_unpriv REJECT;
  _result ACCEPT].

Definition array_access_2 : bpf_test := TEST "valid map access into an array with a register" [
  _insns
   [BPF_ST_MEM BPF_DW BPF_REG_10 (-8) 0; BPF_MOV64_REG BPF_REG_2 BPF_REG_10;
    BPF_ALU64_IMM BPF_ADD BPF_REG_2 (-8); BPF_LD_MAP_FD BPF_REG_1 0;
    BPF_RAW_INSN (BPF_JMP .| BPF_CALL) 0 0 0 BPF_FUNC_map_lookup_elem;
    BPF_JMP_IMM BPF_JEQ BPF_REG_0 0 4; BPF_MOV64_IMM BPF_REG_1 4;
    BPF_ALU64_IMM BPF_LSH BPF_REG_1 2; BPF_ALU64_REG BPF_ADD BPF_REG_0 BPF_REG_1;
    BPF_ST_MEM BPF_DW BPF_REG_0 0 (offsetof test_val "foo"); BPF_EXIT_INSN];
  _fixup fixup_map_hash_48b [3];
  _errstr_unpriv "R0 leaks addr";
  _result_unpriv REJECT;
  _result ACCEPT;
  _flags F_NEEDS_EFFICIENT_UNALIGNED_ACCESS].

Definition array_access_3 : bpf_test := TEST "valid map access into an array with a variable" [
  _insns
   [BPF_ST_MEM BPF_DW BPF_REG_10 (-8) 0; BPF_MOV64_REG BPF_REG_2 BPF_REG_10;
    BPF_ALU64_IMM BPF_ADD BPF_REG_2 (-8); BPF_LD_MAP_FD BPF_REG_1 0;
    BPF_RAW_INSN (BPF_JMP .| BPF_CALL) 0 0 0 BPF_FUNC_map_lookup_elem;
    BPF_JMP_IMM BPF_JEQ BPF_REG_0 0 5; BPF_LDX_MEM BPF_W BPF_REG_1 BPF_REG_0 0;
    BPF_JMP_IMM BPF_JGE BPF_REG_1 MAX_ENTRIES 3; BPF_ALU64_IMM BPF_LSH BPF_REG_1 2;
    BPF_ALU64_REG BPF_ADD BPF_REG_0 BPF_REG_1;
    BPF_ST_MEM BPF_DW BPF_REG_0 0 (offsetof test_val "foo"); BPF_EXIT_INSN];
  _fixup fixup_map_hash_48b [3];
  _errstr_unpriv "R0 leaks addr";
  _result_unpriv REJECT;
  _result ACCEPT;
  _flags F_NEEDS_EFFICIENT_UNALIGNED_ACCESS].

Definition array_access_4 : bpf_test := TEST "valid map access into an array with a signed variable" [
  _insns
   [BPF_ST_MEM BPF_DW BPF_REG_10 (-8) 0; BPF_MOV64_REG BPF_REG_2 BPF_REG_10;
    BPF_ALU64_IMM BPF_ADD BPF_REG_2 (-8); BPF_LD_MAP_FD BPF_REG_1 0;
    BPF_RAW_INSN (BPF_JMP .| BPF_CALL) 0 0 0 BPF_FUNC_map_lookup_elem;
    BPF_JMP_IMM BPF_JEQ BPF_REG_0 0 9; BPF_LDX_MEM BPF_W BPF_REG_1 BPF_REG_0 0;
    BPF_JMP32_IMM BPF_JSGT BPF_REG_1 0xffffffff 1; BPF_MOV32_IMM BPF_REG_1 0;
    BPF_MOV32_IMM BPF_REG_2 MAX_ENTRIES; BPF_JMP_REG BPF_JSGT BPF_REG_2 BPF_REG_1 1;
    BPF_MOV32_IMM BPF_REG_1 0; BPF_ALU32_IMM BPF_LSH BPF_REG_1 2;
    BPF_ALU64_REG BPF_ADD BPF_REG_0 BPF_REG_1;
    BPF_ST_MEM BPF_DW BPF_REG_0 0 (offsetof test_val "foo"); BPF_EXIT_INSN];
  _fixup fixup_map_hash_48b [3];
  _errstr_unpriv "R0 leaks addr";
  _result_unpriv REJECT;
  _result ACCEPT;
  _flags F_NEEDS_EFFICIENT_UNALIGNED_ACCESS].

Definition array_access_5 : bpf_test := TEST "invalid map access into an array with a constant" [
  _insns
   [BPF_ST_MEM BPF_DW BPF_REG_10 (-8) 0; BPF_MOV64_REG BPF_REG_2 BPF_REG_10;
    BPF_ALU64_IMM BPF_ADD BPF_REG_2 (-8); BPF_LD_MAP_FD BPF_REG_1 0;
    BPF_RAW_INSN (BPF_JMP .| BPF_CALL) 0 0 0 BPF_FUNC_map_lookup_elem;
    BPF_JMP_IMM BPF_JEQ BPF_REG_0 0 1;
    BPF_ST_MEM BPF_DW BPF_REG_0 (Z.shiftl (MAX_ENTRIES + 1) 2) (offsetof test_val "foo");
    BPF_EXIT_INSN];
  _fixup fixup_map_hash_48b [3];
  _errstr "invalid access to map value, value_size=48 off=48 size=8";
  _result REJECT].

Definition array_access_6 : bpf_test := TEST "invalid map access into an array with a register" [
  _insns
   [BPF_ST_MEM BPF_DW BPF_REG_10 (-8) 0; BPF_MOV64_REG BPF_REG_2 BPF_REG_10;
    BPF_ALU64_IMM BPF_ADD BPF_REG_2 (-8); BPF_LD_MAP_FD BPF_REG_1 0;
    BPF_RAW_INSN (BPF_JMP .| BPF_CALL) 0 0 0 BPF_FUNC_map_lookup_elem;
    BPF_JMP_IMM BPF_JEQ BPF_REG_0 0 4; BPF_MOV64_IMM BPF_REG_1 (MAX_ENTRIES + 1);
    BPF_ALU64_IMM BPF_LSH BPF_REG_1 2; BPF_ALU64_REG BPF_ADD BPF_REG_0 BPF_REG_1;
    BPF_ST_MEM BPF_DW BPF_REG_0 0 (offsetof test_val "foo"); BPF_EXIT_INSN];
  _fixup fixup_map_hash_48b [3];
  _errstr "R0 min value is outside of the allowed memory range";
  _result REJECT;
  _flags F_NEEDS_EFFICIENT_UNALIGNED_ACCESS].

Definition array_access_7 : bpf_test := TEST "invalid map access into an array with a variable" [
  _insns
   [BPF_ST_MEM BPF_DW BPF_REG_10 (-8) 0; BPF_MOV64_REG BPF_REG_2 BPF_REG_10;
    BPF_ALU64_IMM BPF_ADD BPF_REG_2 (-8); BPF_LD_MAP_FD BPF_REG_1 0;
    BPF_RAW_INSN (BPF_JMP .| BPF_CALL) 0 0 0 BPF_FUNC_map_lookup_elem;
    BPF_JMP_IMM BPF_JEQ BPF_REG_0 0 4; BPF_LDX_MEM BPF_W BPF_REG_1 BPF_REG_0 0;
    BPF_ALU64_IMM BPF_LSH BPF_REG_1 2; BPF_ALU64_REG BPF_ADD BPF_REG_0 BPF_REG_1;
    BPF_ST_MEM BPF_DW BPF_REG_0 0 (offsetof test_val "foo"); BPF_EXIT_INSN];
  _fixup fixup_map_hash_48b [3];
  _errstr "R0 unbounded memory access, make sure to bounds check any such access";
  _result REJECT;
  _flags F_NEEDS_EFFICIENT_UNALIGNED_ACCESS].

Definition array_access_8 : bpf_test := TEST "invalid map access into an array with no floor check" [
  _insns
   [BPF_ST_MEM BPF_DW BPF_REG_10 (-8) 0; BPF_MOV64_REG BPF_REG_2 BPF_REG_10;
    BPF_ALU64_IMM BPF_ADD BPF_REG_2 (-8); BPF_LD_MAP_FD BPF_REG_1 0;
    BPF_RAW_INSN (BPF_JMP .| BPF_CALL) 0 0 0 BPF_FUNC_map_lookup_elem;
    BPF_JMP_IMM BPF_JEQ BPF_REG_0 0 7; BPF_LDX_MEM BPF_DW BPF_REG_1 BPF_REG_0 0;
    BPF_MOV32_IMM BPF_REG_2 MAX_ENTRIES; BPF_JMP_REG BPF_JSGT BPF_REG_2 BPF_REG_1 1;
    BPF_MOV32_IMM BPF_REG_1 0; BPF_ALU32_IMM BPF_LSH BPF_REG_1 2;
    BPF_ALU64_REG BPF_ADD BPF_REG_0 BPF_REG_1;
    BPF_ST_MEM BPF_DW BPF_REG_0 0 (offsetof test_val "foo"); BPF_EXIT_INSN];
  _fixup fixup_map_hash_48b [3];
  _errstr_unpriv "R0 leaks addr";
  _errstr "R0 unbounded memory access";
  _result_unpriv REJECT;
  _result REJECT;
  _flags F_NEEDS_EFFICIENT_UNALIGNED_ACCESS].

Definition array_access_9 : bpf_test := TEST "invalid map access into an array with a invalid max check" [
  _insns
   [BPF_ST_MEM BPF_DW BPF_REG_10 (-8) 0; BPF_MOV64_REG BPF_REG_2 BPF_REG_10;
    BPF_ALU64_IMM BPF_ADD BPF_REG_2 (-8); BPF_LD_MAP_FD BPF_REG_1 0;
    BPF_RAW_INSN (BPF_JMP .| BPF_CALL) 0 0 0 BPF_FUNC_map_lookup_elem;
    BPF_JMP_IMM BPF_JEQ BPF_REG_0 0 7; BPF_LDX_MEM BPF_W BPF_REG_1 BPF_REG_0 0;
    BPF_MOV32_IMM BPF_REG_2 (MAX_ENTRIES + 1); BPF_JMP_REG BPF_JGT BPF_REG_2 BPF_REG_1 1;
    BPF_MOV32_IMM BPF_REG_1 0; BPF_ALU32_IMM BPF_LSH BPF_REG_1 2;
    BPF_ALU64_REG BPF_ADD BPF_REG_0 BPF_REG_1;
    BPF_ST_MEM BPF_DW BPF_REG_0 0 (offsetof test_val "foo"); BPF_EXIT_INSN];
  _fixup fixup_map_hash_48b [3];
  _errstr_unpriv "R0 leaks addr";
  _errstr "invalid access to map value, value_size=48 off=44 size=8";
  _result_unpriv REJECT;
  _result REJECT;
  _flags F_NEEDS_EFFICIENT_UNALIGNED_ACCESS].

Definition array_access_10 : bpf_test := TEST "invalid map access into an array with a invalid max check" [
  _insns
   [BPF_ST_MEM BPF_DW BPF_REG_10 (-8) 0; BPF_MOV64_REG BPF_REG_2 BPF_REG_10;
    BPF_ALU64_IMM BPF_ADD BPF_REG_2 (-8); BPF_LD_MAP_FD BPF_REG_1 0;
    BPF_RAW_INSN (BPF_JMP .| BPF_CALL) 0 0 0 BPF_FUNC_map_lookup_elem;
    BPF_JMP_IMM BPF_JEQ BPF_REG_0 0 10; BPF_MOV64_REG BPF_REG_8 BPF_REG_0;
    BPF_ST_MEM BPF_DW BPF_REG_10 (-8) 0; BPF_MOV64_REG BPF_REG_2 BPF_REG_10;
    BPF_ALU64_IMM BPF_ADD BPF_REG_2 (-8); BPF_LD_MAP_FD BPF_REG_1 0;
    BPF_RAW_INSN (BPF_JMP .| BPF_CALL) 0 0 0 BPF_FUNC_map_lookup_elem;
    BPF_JMP_IMM BPF_JEQ BPF_REG_0 0 2; BPF_ALU64_REG BPF_ADD BPF_REG_0 BPF_REG_8;
    BPF_LDX_MEM BPF_W BPF_REG_0 BPF_REG_0 (offsetof test_val "foo"); BPF_EXIT_INSN];
  _fixup fixup_map_hash_48b [3; 11];
  _errstr "R0 pointer += pointer";
  _result REJECT;
  _flags F_NEEDS_EFFICIENT_UNALIGNED_ACCESS].

Definition array_access_11 : bpf_test := TEST "valid read map access into a read-only array 1" [
  _insns
   [BPF_ST_MEM BPF_DW BPF_REG_10 (-8) 0; BPF_MOV64_REG BPF_REG_2 BPF_REG_10;
    BPF_ALU64_IMM BPF_ADD BPF_REG_2 (-8); BPF_LD_MAP_FD BPF_REG_1 0;
    BPF_RAW_INSN (BPF_JMP .| BPF_CALL) 0 0 0 BPF_FUNC_map_lookup_elem;
    BPF_JMP_IMM BPF_JEQ BPF_REG_0 0 1; BPF_LDX_MEM BPF_W BPF_REG_0 BPF_REG_0 0; BPF_EXIT_INSN];
  _fixup fixup_map_array_ro [3];
  _result ACCEPT;
  _retval 28].

Definition array_access_12 : bpf_test := TEST "valid read map access into a read-only array 2" [
  _insns
   [BPF_ST_MEM BPF_DW BPF_REG_10 (-8) 0; BPF_MOV64_REG BPF_REG_2 BPF_REG_10;
    BPF_ALU64_IMM BPF_ADD BPF_REG_2 (-8); BPF_LD_MAP_FD BPF_REG_1 0;
    BPF_RAW_INSN (BPF_JMP .| BPF_CALL) 0 0 0 BPF_FUNC_map_lookup_elem;
    BPF_JMP_IMM BPF_JEQ BPF_REG_0 0 6; BPF_MOV64_REG BPF_REG_1 BPF_REG_0;
    BPF_MOV64_IMM BPF_REG_2 4; BPF_MOV64_IMM BPF_REG_3 0; BPF_MOV64_IMM BPF_REG_4 0;
    BPF_MOV64_IMM BPF_REG_5 0; BPF_RAW_INSN (BPF_JMP .| BPF_CALL) 0 0 0 BPF_FUNC_csum_diff;
    BPF_ALU64_IMM BPF_AND BPF_REG_0 0xffff; BPF_EXIT_INSN];
  _prog_type BPF_PROG_TYPE_SCHED_CLS;
  _fixup fixup_map_array_ro [3];
  _result ACCEPT;
  _retval 65507].

Definition array_access_13 : bpf_test := TEST "invalid write map access into a read-only array 1" [
  _insns
   [BPF_ST_MEM BPF_DW BPF_REG_10 (-8) 0; BPF_MOV64_REG BPF_REG_2 BPF_REG_10;
    BPF_ALU64_IMM BPF_ADD BPF_REG_2 (-8); BPF_LD_MAP_FD BPF_REG_1 0;
    BPF_RAW_INSN (BPF_JMP .| BPF_CALL) 0 0 0 BPF_FUNC_map_lookup_elem;
    BPF_JMP_IMM BPF_JEQ BPF_REG_0 0 1; BPF_ST_MEM BPF_DW BPF_REG_0 0 42; BPF_EXIT_INSN];
  _fixup fixup_map_array_ro [3];
  _result REJECT;
  _errstr "write into map forbidden"].

Definition array_access_14 : bpf_test := TEST "invalid write map access into a read-only array 2" [
  _insns
   [BPF_MOV64_REG BPF_REG_6 BPF_REG_1; BPF_ST_MEM BPF_DW BPF_REG_10 (-8) 0;
    BPF_MOV64_REG BPF_REG_2 BPF_REG_10; BPF_ALU64_IMM BPF_ADD BPF_REG_2 (-8);
    BPF_LD_MAP_FD BPF_REG_1 0;
    BPF_RAW_INSN (BPF_JMP .| BPF_CALL) 0 0 0 BPF_FUNC_map_lookup_elem;
    BPF_JMP_IMM BPF_JEQ BPF_REG_0 0 5; BPF_MOV64_REG BPF_REG_1 BPF_REG_6;
    BPF_MOV64_IMM BPF_REG_2 0; BPF_MOV64_REG BPF_REG_3 BPF_REG_0; BPF_MOV64_IMM BPF_REG_4 8;
    BPF_RAW_INSN (BPF_JMP .| BPF_CALL) 0 0 0 BPF_FUNC_skb_load_bytes; BPF_EXIT_INSN];
  _prog_type BPF_PROG_TYPE_SCHED_CLS;
  _fixup fixup_map_array_ro [4];
  _result REJECT;
  _errstr "write into map forbidden"].

Definition array_access_15 : bpf_test := TEST "valid write map access into a write-only array 1" [
  _insns
   [BPF_ST_MEM BPF_DW BPF_REG_10 (-8) 0; BPF_MOV64_REG BPF_REG_2 BPF_REG_10;
    BPF_ALU64_IMM BPF_ADD BPF_REG_2 (-8); BPF_LD_MAP_FD BPF_REG_1 0;
    BPF_RAW_INSN (BPF_JMP .| BPF_CALL) 0 0 0 BPF_FUNC_map_lookup_elem;
    BPF_JMP_IMM BPF_JEQ BPF_REG_0 0 1; BPF_ST_MEM BPF_DW BPF_REG_0 0 42;
    BPF_MOV64_IMM BPF_REG_0 1; BPF_EXIT_INSN];
  _fixup fixup_map_array_wo [3];
  _result ACCEPT;
  _retval 1].

Definition array_access_16 : bpf_test := TEST "valid write map access into a write-only array 2" [
  _insns
   [BPF_MOV64_REG BPF_REG_6 BPF_REG_1; BPF_ST_MEM BPF_DW BPF_REG_10 (-8) 0;
    BPF_MOV64_REG BPF_REG_2 BPF_REG_10; BPF_ALU64_IMM BPF_ADD BPF_REG_2 (-8);
    BPF_LD_MAP_FD BPF_REG_1 0;
    BPF_RAW_INSN (BPF_JMP .| BPF_CALL) 0 0 0 BPF_FUNC_map_lookup_elem;
    BPF_JMP_IMM BPF_JEQ BPF_REG_0 0 5; BPF_MOV64_REG BPF_REG_1 BPF_REG_6;
    BPF_MOV64_IMM BPF_REG_2 0; BPF_MOV64_REG BPF_REG_3 BPF_REG_0; BPF_MOV64_IMM BPF_REG_4 8;
    BPF_RAW_INSN (BPF_JMP .| BPF_CALL) 0 0 0 BPF_FUNC_skb_load_bytes; BPF_EXIT_INSN];
  _prog_type BPF_PROG_TYPE_SCHED_CLS;
  _fixup fixup_map_array_wo [4];
  _result ACCEPT;
  _retval 0].

Definition array_access_17 : bpf_test := TEST "invalid read map access into a write-only array 1" [
  _insns
   [BPF_ST_MEM BPF_DW BPF_REG_10 (-8) 0; BPF_MOV64_REG BPF_REG_2 BPF_REG_10;
    BPF_ALU64_IMM BPF_ADD BPF_REG_2 (-8); BPF_LD_MAP_FD BPF_REG_1 0;
    BPF_RAW_INSN (BPF_JMP .| BPF_CALL) 0 0 0 BPF_FUNC_map_lookup_elem;
    BPF_JMP_IMM BPF_JEQ BPF_REG_0 0 1; BPF_LDX_MEM BPF_DW BPF_REG_0 BPF_REG_0 0; BPF_EXIT_INSN];
  _fixup fixup_map_array_wo [3];
  _result REJECT;
  _errstr "read from map forbidden"].

Definition array_access_18 : bpf_test := TEST "invalid read map access into a write-only array 2" [
  _insns
   [BPF_ST_MEM BPF_DW BPF_REG_10 (-8) 0; BPF_MOV64_REG BPF_REG_2 BPF_REG_10;
    BPF_ALU64_IMM BPF_ADD BPF_REG_2 (-8); BPF_LD_MAP_FD BPF_REG_1 0;
    BPF_RAW_INSN (BPF_JMP .| BPF_CALL) 0 0 0 BPF_FUNC_map_lookup_elem;
    BPF_JMP_IMM BPF_JEQ BPF_REG_0 0 6; BPF_MOV64_REG BPF_REG_1 BPF_REG_0;
    BPF_MOV64_IMM BPF_REG_2 4; BPF_MOV64_IMM BPF_REG_3 0; BPF_MOV64_IMM BPF_REG_4 0;
    BPF_MOV64_IMM BPF_REG_5 0; BPF_RAW_INSN (BPF_JMP .| BPF_CALL) 0 0 0 BPF_FUNC_csum_diff;
    BPF_EXIT_INSN];
  _prog_type BPF_PROG_TYPE_SCHED_CLS;
  _fixup fixup_map_array_wo [3];
  _result REJECT;
  _errstr "read from map forbidden"].

Definition array_access_tests : list bpf_test := [array_access_1; array_access_2; array_access_3;
  array_access_4; array_access_5; array_access_6; array_access_7; array_access_8; array_access_9;
  array_access_10; array_access_11; array_access_12; array_access_13; array_access_14;
  array_access_15; array_access_16; array_access_17; array_access_18].

(** * [const_or.c] *)

Definition const_or_1 : bpf_test := TEST "constant register |= constant should keep constant type" [
  _insns
   [BPF_MOV64_REG BPF_REG_1 BPF_REG_10; BPF_ALU64_IMM BPF_ADD BPF_REG_1 (-48);
    BPF_MOV64_IMM BPF_REG_2 34; BPF_ALU64_IMM BPF_OR BPF_REG_2 13; BPF_MOV64_IMM BPF_REG_3 0;
    BPF_EMIT_CALL BPF_FUNC_probe_read_kernel; BPF_EXIT_INSN];
  _result ACCEPT;
  _prog_type BPF_PROG_TYPE_TRACEPOINT].

Definition const_or_2 : bpf_test := TEST "constant register |= constant should not bypass stack boundary checks" [
  _insns
   [BPF_MOV64_REG BPF_REG_1 BPF_REG_10; BPF_ALU64_IMM BPF_ADD BPF_REG_1 (-48);
    BPF_MOV64_IMM BPF_REG_2 34; BPF_ALU64_IMM BPF_OR BPF_REG_2 24; BPF_MOV64_IMM BPF_REG_3 0;
    BPF_EMIT_CALL BPF_FUNC_probe_read_kernel; BPF_EXIT_INSN];
  _errstr "invalid indirect access to stack R1 off=-48 size=58";
  _result REJECT;
  _prog_type BPF_PROG_TYPE_TRACEPOINT].

Definition const_or_3 : bpf_test := TEST "constant register |= constant register should keep constant type" [
  _insns
   [BPF_MOV64_REG BPF_REG_1 BPF_REG_10; BPF_ALU64_IMM BPF_ADD BPF_REG_1 (-48);
    BPF_MOV64_IMM BPF_REG_2 34; BPF_MOV64_IMM BPF_REG_4 13;
    BPF_ALU64_REG BPF_OR BPF_REG_2 BPF_REG_4; BPF_MOV64_IMM BPF_REG_3 0;
    BPF_EMIT_CALL BPF_FUNC_probe_read_kernel; BPF_EXIT_INSN];
  _result ACCEPT;
  _prog_type BPF_PROG_TYPE_TRACEPOINT].

Definition const_or_4 : bpf_test := TEST "constant register |= constant register should not bypass stack boundary checks" [
  _insns
   [BPF_MOV64_REG BPF_REG_1 BPF_REG_10; BPF_ALU64_IMM BPF_ADD BPF_REG_1 (-48);
    BPF_MOV64_IMM BPF_REG_2 34; BPF_MOV64_IMM BPF_REG_4 24;
    BPF_ALU64_REG BPF_OR BPF_REG_2 BPF_REG_4; BPF_MOV64_IMM BPF_REG_3 0;
    BPF_EMIT_CALL BPF_FUNC_probe_read_kernel; BPF_EXIT_INSN];
  _errstr "invalid indirect access to stack R1 off=-48 size=58";
  _result REJECT;
  _prog_type BPF_PROG_TYPE_TRACEPOINT].

Definition const_or_tests : list bpf_test := [const_or_1; const_or_2; const_or_3; const_or_4].

(** * [map_in_map.c] *)

Definition map_in_map_1 : bpf_test := TEST "map in map access" [
  _insns
   [BPF_ST_MEM 0 BPF_REG_10 (-4) 0; BPF_MOV64_REG BPF_REG_2 BPF_REG_10;
    BPF_ALU64_IMM BPF_ADD BPF_REG_2 (-4); BPF_LD_MAP_FD BPF_REG_1 0;
    BPF_RAW_INSN (BPF_JMP .| BPF_CALL) 0 0 0 BPF_FUNC_map_lookup_elem;
    BPF_JMP_IMM BPF_JEQ BPF_REG_0 0 5; BPF_ST_MEM 0 BPF_REG_10 (-4) 0;
    BPF_MOV64_REG BPF_REG_2 BPF_REG_10; BPF_ALU64_IMM BPF_ADD BPF_REG_2 (-4);
    BPF_MOV64_REG BPF_REG_1 BPF_REG_0;
    BPF_RAW_INSN (BPF_JMP .| BPF_CALL) 0 0 0 BPF_FUNC_map_lookup_elem;
    BPF_MOV64_IMM BPF_REG_0 0; BPF_EXIT_INSN];
  _fixup fixup_map_in_map [3];
  _result ACCEPT].

Definition map_in_map_2 : bpf_test := TEST "invalid inner map pointer" [
  _insns
   [BPF_ST_MEM 0 BPF_REG_10 (-4) 0; BPF_MOV64_REG BPF_REG_2 BPF_REG_10;
    BPF_ALU64_IMM BPF_ADD BPF_REG_2 (-4); BPF_LD_MAP_FD BPF_REG_1 0;
    BPF_RAW_INSN (BPF_JMP .| BPF_CALL) 0 0 0 BPF_FUNC_map_lookup_elem;
    BPF_JMP_IMM BPF_JEQ BPF_REG_0 0 6; BPF_ST_MEM 0 BPF_REG_10 (-4) 0;
    BPF_MOV64_REG BPF_REG_2 BPF_REG_10; BPF_ALU64_IMM BPF_ADD BPF_REG_2 (-4);
    BPF_MOV64_REG BPF_REG_1 BPF_REG_0; BPF_ALU64_IMM BPF_ADD BPF_REG_1 8;
    BPF_RAW_INSN (BPF_JMP .| BPF_CALL) 0 0 0 BPF_FUNC_map_lookup_elem;
    BPF_MOV64_IMM BPF_REG_0 0; BPF_EXIT_INSN];
  _fixup fixup_map_in_map [3];
  _errstr "R1 pointer arithmetic on map_ptr prohibited";
  _result REJECT].

Definition map_in_map_3 : bpf_test := TEST "forgot null checking on the inner map pointer" [
  _insns
   [BPF_ST_MEM 0 BPF_REG_10 (-4) 0; BPF_MOV64_REG BPF_REG_2 BPF_REG_10;
    BPF_ALU64_IMM BPF_ADD BPF_REG_2 (-4); BPF_LD_MAP_FD BPF_REG_1 0;
    BPF_RAW_INSN (BPF_JMP .| BPF_CALL) 0 0 0 BPF_FUNC_map_lookup_elem;
    BPF_ST_MEM 0 BPF_REG_10 (-4) 0; BPF_MOV64_REG BPF_REG_2 BPF_REG_10;
    BPF_ALU64_IMM BPF_ADD BPF_REG_2 (-4); BPF_MOV64_REG BPF_REG_1 BPF_REG_0;
    BPF_RAW_INSN (BPF_JMP .| BPF_CALL) 0 0 0 BPF_FUNC_map_lookup_elem;
    BPF_MOV64_IMM BPF_REG_0 0; BPF_EXIT_INSN];
  _fixup fixup_map_in_map [3];
  _errstr "R1 type=map_value_or_null expected=map_ptr";
  _result REJECT].

Definition map_in_map_tests : list bpf_test := [map_in_map_1; map_in_map_2; map_in_map_3].

(** * [map_ptr.c] *)

Definition map_ptr_1 : bpf_test := TEST "bpf_map_ptr: read with negative offset rejected" [
  _insns
   [BPF_MOV64_REG BPF_REG_1 BPF_REG_10; BPF_LD_MAP_FD BPF_REG_1 0;
    BPF_LDX_MEM BPF_DW BPF_REG_6 BPF_REG_1 (-8); BPF_MOV64_IMM BPF_REG_0 1; BPF_EXIT_INSN];
  _fixup fixup_map_array_48b [1];
  _result_unpriv REJECT;
  _errstr_unpriv "bpf_array access is allowed only to CAP_PERFMON and CAP_SYS_ADMIN";
  _result REJECT;
  _errstr "R1 is bpf_array invalid negative access: off=-8"].

Definition map_ptr_2 : bpf_test := TEST "bpf_map_ptr: write rejected" [
  _insns
   [BPF_ST_MEM BPF_DW BPF_REG_10 (-8) 0; BPF_MOV64_REG BPF_REG_2 BPF_REG_10;
    BPF_ALU64_IMM BPF_ADD BPF_REG_2 (-8); BPF_LD_MAP_FD BPF_REG_1 0;
    BPF_STX_MEM BPF_DW BPF_REG_1 BPF_REG_2 0; BPF_MOV64_IMM BPF_REG_0 1; BPF_EXIT_INSN];
  _fixup fixup_map_array_48b [3];
  _result_unpriv REJECT;
  _errstr_unpriv "bpf_array access is allowed only to CAP_PERFMON and CAP_SYS_ADMIN";
  _result REJECT;
  _errstr "only read from bpf_array is supported"].

Definition map_ptr_3 : bpf_test := TEST "bpf_map_ptr: read non-existent field rejected" [
  _insns
   [BPF_MOV64_IMM BPF_REG_6 0; BPF_LD_MAP_FD BPF_REG_1 0;
    BPF_LDX_MEM BPF_W BPF_REG_6 BPF_REG_1 1; BPF_MOV64_IMM BPF_REG_0 1; BPF_EXIT_INSN];
  _fixup fixup_map_array_48b [1];
  _result_unpriv REJECT;
  _errstr_unpriv "bpf_array access is allowed only to CAP_PERFMON and CAP_SYS_ADMIN";
  _result REJECT;
  _errstr "cannot access ptr member ops with moff 0 in struct bpf_map with off 1 size 4";
  _flags F_NEEDS_EFFICIENT_UNALIGNED_ACCESS].

Definition map_ptr_4 : bpf_test := TEST "bpf_map_ptr: read ops field accepted" [
  _insns
   [BPF_MOV64_IMM BPF_REG_6 0; BPF_LD_MAP_FD BPF_REG_1 0;
    BPF_LDX_MEM BPF_DW BPF_REG_6 BPF_REG_1 0; BPF_MOV64_IMM BPF_REG_0 1; BPF_EXIT_INSN];
  _fixup fixup_map_array_48b [1];
  _result_unpriv REJECT;
  _errstr_unpriv "bpf_array access is allowed only to CAP_PERFMON and CAP_SYS_ADMIN";
  _result ACCEPT;
  _retval 1].

Definition map_ptr_5 : bpf_test := TEST "bpf_map_ptr: r = 0, map_ptr = map_ptr + r" [
  _insns
   [BPF_ST_MEM BPF_DW BPF_REG_10 (-8) 0; BPF_MOV64_REG BPF_REG_2 BPF_REG_10;
    BPF_ALU64_IMM BPF_ADD BPF_REG_2 (-8); BPF_MOV64_IMM BPF_REG_0 0; BPF_LD_MAP_FD BPF_REG_1 0;
    BPF_ALU64_REG BPF_ADD BPF_REG_1 BPF_REG_0;
    BPF_RAW_INSN (BPF_JMP .| BPF_CALL) 0 0 0 BPF_FUNC_map_lookup_elem;
    BPF_MOV64_IMM BPF_REG_0 0; BPF_EXIT_INSN];
  _fixup fixup_map_hash_16b [4];
  _result_unpriv REJECT;
  _errstr_unpriv "R1 has pointer with unsupported alu operation";
  _result ACCEPT].

Definition map_ptr_6 : bpf_test := TEST "bpf_map_ptr: r = 0, r = r + map_ptr" [
  _insns
   [BPF_ST_MEM BPF_DW BPF_REG_10 (-8) 0; BPF_MOV64_REG BPF_REG_2 BPF_REG_10;
    BPF_ALU64_IMM BPF_ADD BPF_REG_2 (-8); BPF_MOV64_IMM BPF_REG_1 0; BPF_LD_MAP_FD BPF_REG_0 0;
    BPF_ALU64_REG BPF_ADD BPF_REG_1 BPF_REG_0;
    BPF_RAW_INSN (BPF_JMP .| BPF_CALL) 0 0 0 BPF_FUNC_map_lookup_elem;
    BPF_MOV64_IMM BPF_REG_0 0; BPF_EXIT_INSN];
  _fixup fixup_map_hash_16b [4];
  _result_unpriv REJECT;
  _errstr_unpriv "R0 has pointer with unsupported alu operation";
  _result ACCEPT].

Definition map_ptr_tests : list bpf_test := [map_ptr_1; map_ptr_2; map_ptr_3; map_ptr_4; map_ptr_5;
  map_ptr_6].

(** * [map_ptr_mixing.c] *)

Definition map_ptr_mixing_1 : bpf_test := TEST "calls: two calls returning different map pointers for lookup (hash, array)" [
  _insns
   [BPF_JMP_IMM BPF_JNE BPF_REG_1 0 2; BPF_CALL_REL 11; BPF_JMP_IMM BPF_JA 0 0 1;
    BPF_CALL_REL 12; BPF_MOV64_REG BPF_REG_1 BPF_REG_0; BPF_ST_MEM BPF_DW BPF_REG_10 (-8) 0;
    BPF_MOV64_REG BPF_REG_2 BPF_REG_10; BPF_ALU64_IMM BPF_ADD BPF_REG_2 (-8);
    BPF_RAW_INSN (BPF_JMP .| BPF_CALL) 0 0 0 BPF_FUNC_map_lookup_elem;
    BPF_JMP_IMM BPF_JEQ BPF_REG_0 0 2; BPF_ST_MEM BPF_DW BPF_REG_0 0 (offsetof test_val "foo");
    BPF_MOV64_IMM BPF_REG_0 1; BPF_EXIT_INSN; BPF_LD_MAP_FD BPF_REG_0 0; BPF_EXIT_INSN;
    BPF_LD_MAP_FD BPF_REG_0 0; BPF_EXIT_INSN];
  _prog_type BPF_PROG_TYPE_SCHED_CLS;
  _fixup fixup_map_hash_48b [13];
  _fixup fixup_map_array_48b [16];
  _result ACCEPT;
  _retval 1].

Definition map_ptr_mixing_2 : bpf_test := TEST "calls: two calls returning different map pointers for lookup (hash, map in map)" [
  _insns
   [BPF_JMP_IMM BPF_JNE BPF_REG_1 0 2; BPF_CALL_REL 11; BPF_JMP_IMM BPF_JA 0 0 1;
    BPF_CALL_REL 12; BPF_MOV64_REG BPF_REG_1 BPF_REG_0; BPF_ST_MEM BPF_DW BPF_REG_10 (-8) 0;
    BPF_MOV64_REG BPF_REG_2 BPF_REG_10; BPF_ALU64_IMM BPF_ADD BPF_REG_2 (-8);
    BPF_RAW_INSN (BPF_JMP .| BPF_CALL) 0 0 0 BPF_FUNC_map_lookup_elem;
    BPF_JMP_IMM BPF_JEQ BPF_REG_0 0 2; BPF_ST_MEM BPF_DW BPF_REG_0 0 (offsetof test_val "foo");
    BPF_MOV64_IMM BPF_REG_0 1; BPF_EXIT_INSN; BPF_LD_MAP_FD BPF_REG_0 0; BPF_EXIT_INSN;
    BPF_LD_MAP_FD BPF_REG_0 0; BPF_EXIT_INSN];
  _prog_type BPF_PROG_TYPE_SCHED_CLS;
  _fixup fixup_map_in_map [16];
  _fixup fixup_map_array_48b [13];
  _result REJECT;
  _errstr "only read from bpf_array is supported"].

Definition map_ptr_mixing_3 : bpf_test := TEST "cond: two branches returning different map pointers for lookup (tail, tail)" [
  _insns
   [BPF_LDX_MEM BPF_W BPF_REG_6 BPF_REG_1 (offsetof __sk_buff "mark");
    BPF_JMP_IMM BPF_JNE BPF_REG_6 0 3; BPF_LD_MAP_FD BPF_REG_2 0; BPF_JMP_IMM BPF_JA 0 0 2;
    BPF_LD_MAP_FD BPF_REG_2 0; BPF_MOV64_IMM BPF_REG_3 7;
    BPF_RAW_INSN (BPF_JMP .| BPF_CALL) 0 0 0 BPF_FUNC_tail_call; BPF_MOV64_IMM BPF_REG_0 1;
    BPF_EXIT_INSN];
  _fixup fixup_prog1 [5];
  _fixup fixup_prog2 [2];
  _result_unpriv REJECT;
  _errstr_unpriv "tail_call abusing map_ptr";
  _result ACCEPT;
  _retval 42].

Definition map_ptr_mixing_4 : bpf_test := TEST "cond: two branches returning same map pointers for lookup (tail, tail)" [
  _insns
   [BPF_LDX_MEM BPF_W BPF_REG_6 BPF_REG_1 (offsetof __sk_buff "mark");
    BPF_JMP_IMM BPF_JEQ BPF_REG_6 0 3; BPF_LD_MAP_FD BPF_REG_2 0; BPF_JMP_IMM BPF_JA 0 0 2;
    BPF_LD_MAP_FD BPF_REG_2 0; BPF_MOV64_IMM BPF_REG_3 7;
    BPF_RAW_INSN (BPF_JMP .| BPF_CALL) 0 0 0 BPF_FUNC_tail_call; BPF_MOV64_IMM BPF_REG_0 1;
    BPF_EXIT_INSN];
  _fixup fixup_prog2 [2; 5];
  _result_unpriv ACCEPT;
  _result ACCEPT;
  _retval 42].

Definition map_ptr_mixing_tests : list bpf_test := [map_ptr_mixing_1; map_ptr_mixing_2;
  map_ptr_mixing_3; map_ptr_mixing_4].

(** * [map_ret_val.c] *)

Definition map_ret_val_1 : bpf_test := TEST "invalid map_fd for function call" [
  _insns
   [BPF_ST_MEM BPF_DW BPF_REG_10 (-8) 0; BPF_ALU64_REG BPF_MOV BPF_REG_2 BPF_REG_10;
    BPF_ALU64_IMM BPF_ADD BPF_REG_2 (-8); BPF_LD_MAP_FD BPF_REG_1 0;
    BPF_RAW_INSN (BPF_JMP .| BPF_CALL) 0 0 0 BPF_FUNC_map_delete_elem; BPF_EXIT_INSN];
  _errstr "fd 0 is not pointing to valid bpf_map";
  _result REJECT].

Definition map_ret_val_2 : bpf_test := TEST "don't check return value before access" [
  _insns
   [BPF_ST_MEM BPF_DW BPF_REG_10 (-8) 0; BPF_MOV64_REG BPF_REG_2 BPF_REG_10;
    BPF_ALU64_IMM BPF_ADD BPF_REG_2 (-8); BPF_LD_MAP_FD BPF_REG_1 0;
    BPF_RAW_INSN (BPF_JMP .| BPF_CALL) 0 0 0 BPF_FUNC_map_lookup_elem;
    BPF_ST_MEM BPF_DW BPF_REG_0 0 0; BPF_EXIT_INSN];
  _fixup fixup_map_hash_8b [3];
  _errstr "R0 invalid mem access 'map_value_or_null'";
  _result REJECT].

Definition map_ret_val_3 : bpf_test := TEST "access memory with incorrect alignment" [
  _insns
   [BPF_ST_MEM BPF_DW BPF_REG_10 (-8) 0; BPF_MOV64_REG BPF_REG_2 BPF_REG_10;
    BPF_ALU64_IMM BPF_ADD BPF_REG_2 (-8); BPF_LD_MAP_FD BPF_REG_1 0;
    BPF_RAW_INSN (BPF_JMP .| BPF_CALL) 0 0 0 BPF_FUNC_map_lookup_elem;
    BPF_JMP_IMM BPF_JEQ BPF_REG_0 0 1; BPF_ST_MEM BPF_DW BPF_REG_0 4 0; BPF_EXIT_INSN];
  _fixup fixup_map_hash_8b [3];
  _errstr "misaligned value access";
  _result REJECT;
  _flags F_LOAD_WITH_STRICT_ALIGNMENT].

Definition map_ret_val_4 : bpf_test := TEST "sometimes access memory with incorrect alignment" [
  _insns
   [BPF_ST_MEM BPF_DW BPF_REG_10 (-8) 0; BPF_MOV64_REG BPF_REG_2 BPF_REG_10;
    BPF_ALU64_IMM BPF_ADD BPF_REG_2 (-8); BPF_LD_MAP_FD BPF_REG_1 0;
    BPF_RAW_INSN (BPF_JMP .| BPF_CALL) 0 0 0 BPF_FUNC_map_lookup_elem;
    BPF_JMP_IMM BPF_JEQ BPF_REG_0 0 2; BPF_ST_MEM BPF_DW BPF_REG_0 0 0; BPF_EXIT_INSN;
    BPF_ST_MEM BPF_DW BPF_REG_0 0 1; BPF_EXIT_INSN];
  _fixup fixup_map_hash_8b [3];
  _errstr "R0 invalid mem access";
  _errstr_unpriv "R0 leaks addr";
  _result REJECT;
  _flags F_LOAD_WITH_STRICT_ALIGNMENT].

Definition map_ret_val_tests : list bpf_test := [map_ret_val_1; map_ret_val_2; map_ret_val_3;
  map_ret_val_4].

(** * [prevent_map_lookup.c] *)

Definition prevent_map_lookup_1 : bpf_test := TEST "prevent map lookup in stack trace" [
  _insns
   [BPF_ST_MEM BPF_DW BPF_REG_10 (-8) 0; BPF_MOV64_REG BPF_REG_2 BPF_REG_10;
    BPF_ALU64_IMM BPF_ADD BPF_REG_2 (-8); BPF_LD_MAP_FD BPF_REG_1 0;
    BPF_RAW_INSN (BPF_JMP .| BPF_CALL) 0 0 0 BPF_FUNC_map_lookup_elem; BPF_EXIT_INSN];
  _fixup fixup_map_stacktrace [3];
  _result REJECT;
  _errstr "cannot pass map_type 7 into func bpf_map_lookup_elem";
  _prog_type BPF_PROG_TYPE_PERF_EVENT].

Definition prevent_map_lookup_2 : bpf_test := TEST "prevent map lookup in prog array" [
  _insns
   [BPF_ST_MEM BPF_DW BPF_REG_10 (-8) 0; BPF_MOV64_REG BPF_REG_2 BPF_REG_10;
    BPF_ALU64_IMM BPF_ADD BPF_REG_2 (-8); BPF_LD_MAP_FD BPF_REG_1 0;
    BPF_RAW_INSN (BPF_JMP .| BPF_CALL) 0 0 0 BPF_FUNC_map_lookup_elem; BPF_EXIT_INSN];
  _fixup fixup_prog2 [3];
  _result REJECT;
  _errstr "cannot pass map_type 3 into func bpf_map_lookup_elem"].

Definition prevent_map_lookup_tests : list bpf_test := [prevent_map_lookup_1; prevent_map_lookup_2].

(** * [value.c] *)

Definition value_1 : bpf_test := TEST "map element value store of cleared call register" [
  _insns
   [BPF_MOV64_REG BPF_REG_2 BPF_REG_10; BPF_ALU64_IMM BPF_ADD BPF_REG_2 (-8);
    BPF_ST_MEM BPF_DW BPF_REG_2 0 0; BPF_LD_MAP_FD BPF_REG_1 0;
    BPF_EMIT_CALL BPF_FUNC_map_lookup_elem; BPF_JMP_IMM BPF_JEQ BPF_REG_0 0 1;
    BPF_STX_MEM BPF_DW BPF_REG_0 BPF_REG_1 0; BPF_EXIT_INSN];
  _fixup fixup_map_hash_48b [3];
  _errstr_unpriv "R1 !read_ok";
  _errstr "R1 !read_ok";
  _result REJECT;
  _result_unpriv REJECT].

Definition value_2 : bpf_test := TEST "map element value with unaligned store" [
  _insns
   [BPF_MOV64_REG BPF_REG_2 BPF_REG_10; BPF_ALU64_IMM BPF_ADD BPF_REG_2 (-8);
    BPF_ST_MEM BPF_DW BPF_REG_2 0 0; BPF_LD_MAP_FD BPF_REG_1 0;
    BPF_EMIT_CALL BPF_FUNC_map_lookup_elem; BPF_JMP_IMM BPF_JEQ BPF_REG_0 0 17;
    BPF_ALU64_IMM BPF_ADD BPF_REG_0 3; BPF_ST_MEM BPF_DW BPF_REG_0 0 42;
    BPF_ST_MEM BPF_DW BPF_REG_0 2 43; BPF_ST_MEM BPF_DW BPF_REG_0 (-2) 44;
    BPF_MOV64_REG BPF_REG_8 BPF_REG_0; BPF_ST_MEM BPF_DW BPF_REG_8 0 32;
    BPF_ST_MEM BPF_DW BPF_REG_8 2 33; BPF_ST_MEM BPF_DW BPF_REG_8 (-2) 34;
    BPF_ALU64_IMM BPF_ADD BPF_REG_8 5; BPF_ST_MEM BPF_DW BPF_REG_8 0 22;
    BPF_ST_MEM BPF_DW BPF_REG_8 4 23; BPF_ST_MEM BPF_DW BPF_REG_8 (-7) 24;
    BPF_MOV64_REG BPF_REG_7 BPF_REG_8; BPF_ALU64_IMM BPF_ADD BPF_REG_7 3;
    BPF_ST_MEM BPF_DW BPF_REG_7 0 22; BPF_ST_MEM BPF_DW BPF_REG_7 4 23;
    BPF_ST_MEM BPF_DW BPF_REG_7 (-4) 24; BPF_EXIT_INSN];
  _fixup fixup_map_hash_48b [3];
  _errstr_unpriv "R0 leaks addr";
  _result ACCEPT;
  _result_unpriv REJECT;
  _flags F_NEEDS_EFFICIENT_UNALIGNED_ACCESS].

Definition value_3 : bpf_test := TEST "map element value with unaligned load" [
  _insns
   [BPF_MOV64_REG BPF_REG_2 BPF_REG_10; BPF_ALU64_IMM BPF_ADD BPF_REG_2 (-8);
    BPF_ST_MEM BPF_DW BPF_REG_2 0 0; BPF_LD_MAP_FD BPF_REG_1 0;
    BPF_EMIT_CALL BPF_FUNC_map_lookup_elem; BPF_JMP_IMM BPF_JEQ BPF_REG_0 0 11;
    BPF_LDX_MEM BPF_W BPF_REG_1 BPF_REG_0 0; BPF_JMP_IMM BPF_JGE BPF_REG_1 MAX_ENTRIES 9;
    BPF_ALU64_IMM BPF_ADD BPF_REG_0 3; BPF_LDX_MEM BPF_DW BPF_REG_7 BPF_REG_0 0;
    BPF_LDX_MEM BPF_DW BPF_REG_7 BPF_REG_0 2; BPF_MOV64_REG BPF_REG_8 BPF_REG_0;
    BPF_LDX_MEM BPF_DW BPF_REG_7 BPF_REG_8 0; BPF_LDX_MEM BPF_DW BPF_REG_7 BPF_REG_8 2;
    BPF_ALU64_IMM BPF_ADD BPF_REG_0 5; BPF_LDX_MEM BPF_DW BPF_REG_7 BPF_REG_0 0;
    BPF_LDX_MEM BPF_DW BPF_REG_7 BPF_REG_0 4; BPF_EXIT_INSN];
  _fixup fixup_map_hash_48b [3];
  _errstr_unpriv "R0 leaks addr";
  _result ACCEPT;
  _result_unpriv REJECT;
  _flags F_NEEDS_EFFICIENT_UNALIGNED_ACCESS].

Definition value_4 : bpf_test := TEST "map element value is preserved across register spilling" [
  _insns
   [BPF_MOV64_REG BPF_REG_2 BPF_REG_10; BPF_ALU64_IMM BPF_ADD BPF_REG_2 (-8);
    BPF_ST_MEM BPF_DW BPF_REG_2 0 0; BPF_LD_MAP_FD BPF_REG_1 0;
    BPF_EMIT_CALL BPF_FUNC_map_lookup_elem; BPF_JMP_IMM BPF_JEQ BPF_REG_0 0 7;
    BPF_ALU64_IMM BPF_ADD BPF_REG_0 (offsetof test_val "foo"); BPF_ST_MEM BPF_DW BPF_REG_0 0 42;
    BPF_MOV64_REG BPF_REG_1 BPF_REG_10; BPF_ALU64_IMM BPF_ADD BPF_REG_1 (-184);
    BPF_STX_MEM BPF_DW BPF_REG_1 BPF_REG_0 0; BPF_LDX_MEM BPF_DW BPF_REG_3 BPF_REG_1 0;
    BPF_ST_MEM BPF_DW BPF_REG_3 0 42; BPF_EXIT_INSN];
  _fixup fixup_map_hash_48b [3];
  _errstr_unpriv "R0 leaks addr";
  _result ACCEPT;
  _result_unpriv REJECT;
  _flags F_NEEDS_EFFICIENT_UNALIGNED_ACCESS].

Definition value_tests : list bpf_test := [value_1; value_2; value_3; value_4].

(** * [value_adj_spill.c] *)

Definition value_adj_spill_1 : bpf_test := TEST "map element value is preserved across register spilling" [
  _insns
   [BPF_MOV64_REG BPF_REG_2 BPF_REG_10; BPF_ALU64_IMM BPF_ADD BPF_REG_2 (-8);
    BPF_ST_MEM BPF_DW BPF_REG_2 0 0; BPF_LD_MAP_FD BPF_REG_1 0;
    BPF_EMIT_CALL BPF_FUNC_map_lookup_elem; BPF_JMP_IMM BPF_JEQ BPF_REG_0 0 6;
    BPF_ST_MEM BPF_DW BPF_REG_0 0 42; BPF_MOV64_REG BPF_REG_1 BPF_REG_10;
    BPF_ALU64_IMM BPF_ADD BPF_REG_1 (-184); BPF_STX_MEM BPF_DW BPF_REG_1 BPF_REG_0 0;
    BPF_LDX_MEM BPF_DW BPF_REG_3 BPF_REG_1 0; BPF_ST_MEM BPF_DW BPF_REG_3 0 42; BPF_EXIT_INSN];
  _fixup fixup_map_hash_48b [3];
  _errstr_unpriv "R0 leaks addr";
  _result ACCEPT;
  _result_unpriv REJECT].

Definition value_adj_spill_2 : bpf_test := TEST "map element value or null is marked on register spilling" [
  _insns
   [BPF_MOV64_REG BPF_REG_2 BPF_REG_10; BPF_ALU64_IMM BPF_ADD BPF_REG_2 (-8);
    BPF_ST_MEM BPF_DW BPF_REG_2 0 0; BPF_LD_MAP_FD BPF_REG_1 0;
    BPF_EMIT_CALL BPF_FUNC_map_lookup_elem; BPF_MOV64_REG BPF_REG_1 BPF_REG_10;
    BPF_ALU64_IMM BPF_ADD BPF_REG_1 (-152); BPF_STX_MEM BPF_DW BPF_REG_1 BPF_REG_0 0;
    BPF_JMP_IMM BPF_JEQ BPF_REG_0 0 2; BPF_LDX_MEM BPF_DW BPF_REG_3 BPF_REG_1 0;
    BPF_ST_MEM BPF_DW BPF_REG_3 0 42; BPF_EXIT_INSN];
  _fixup fixup_map_hash_48b [3];
  _errstr_unpriv "R0 leaks addr";
  _result ACCEPT;
  _result_unpriv REJECT].

Definition value_adj_spill_tests : list bpf_test := [value_adj_spill_1; value_adj_spill_2].

(** * [value_illegal_alu.c] *)

Definition value_illegal_alu_1 : bpf_test := TEST "map element value illegal alu op, 1" [
  _insns
   [BPF_MOV64_REG BPF_REG_2 BPF_REG_10; BPF_ALU64_IMM BPF_ADD BPF_REG_2 (-8);
    BPF_ST_MEM BPF_DW BPF_REG_2 0 0; BPF_LD_MAP_FD BPF_REG_1 0;
    BPF_EMIT_CALL BPF_FUNC_map_lookup_elem; BPF_JMP_IMM BPF_JEQ BPF_REG_0 0 2;
    BPF_ALU64_IMM BPF_AND BPF_REG_0 8; BPF_ST_MEM BPF_DW BPF_REG_0 0 22; BPF_EXIT_INSN];
  _fixup fixup_map_hash_48b [3];
  _errstr "R0 bitwise operator &= on pointer";
  _result REJECT].

Definition value_illegal_alu_2 : bpf_test := TEST "map element value illegal alu op, 2" [
  _insns
   [BPF_MOV64_REG BPF_REG_2 BPF_REG_10; BPF_ALU64_IMM BPF_ADD BPF_REG_2 (-8);
    BPF_ST_MEM BPF_DW BPF_REG_2 0 0; BPF_LD_MAP_FD BPF_REG_1 0;
    BPF_EMIT_CALL BPF_FUNC_map_lookup_elem; BPF_JMP_IMM BPF_JEQ BPF_REG_0 0 2;
    BPF_ALU32_IMM BPF_ADD BPF_REG_0 0; BPF_ST_MEM BPF_DW BPF_REG_0 0 22; BPF_EXIT_INSN];
  _fixup fixup_map_hash_48b [3];
  _errstr "R0 32-bit pointer arithmetic prohibited";
  _result REJECT].

Definition value_illegal_alu_3 : bpf_test := TEST "map element value illegal alu op, 3" [
  _insns
   [BPF_MOV64_REG BPF_REG_2 BPF_REG_10; BPF_ALU64_IMM BPF_ADD BPF_REG_2 (-8);
    BPF_ST_MEM BPF_DW BPF_REG_2 0 0; BPF_LD_MAP_FD BPF_REG_1 0;
    BPF_EMIT_CALL BPF_FUNC_map_lookup_elem; BPF_JMP_IMM BPF_JEQ BPF_REG_0 0 2;
    BPF_ALU64_IMM BPF_DIV BPF_REG_0 42; BPF_ST_MEM BPF_DW BPF_REG_0 0 22; BPF_EXIT_INSN];
  _fixup fixup_map_hash_48b [3];
  _errstr "R0 pointer arithmetic with /= operator";
  _result REJECT].

Definition value_illegal_alu_4 : bpf_test := TEST "map element value illegal alu op, 4" [
  _insns
   [BPF_MOV64_REG BPF_REG_2 BPF_REG_10; BPF_ALU64_IMM BPF_ADD BPF_REG_2 (-8);
    BPF_ST_MEM BPF_DW BPF_REG_2 0 0; BPF_LD_MAP_FD BPF_REG_1 0;
    BPF_EMIT_CALL BPF_FUNC_map_lookup_elem; BPF_JMP_IMM BPF_JEQ BPF_REG_0 0 2;
    BPF_ENDIAN BPF_FROM_BE BPF_REG_0 64; BPF_ST_MEM BPF_DW BPF_REG_0 0 22; BPF_EXIT_INSN];
  _fixup fixup_map_hash_48b [3];
  _errstr_unpriv "R0 pointer arithmetic prohibited";
  _errstr "invalid mem access 'inv'";
  _result REJECT;
  _result_unpriv REJECT;
  _flags F_NEEDS_EFFICIENT_UNALIGNED_ACCESS].

Definition value_illegal_alu_5 : bpf_test := TEST "map element value illegal alu op, 5" [
  _insns
   [BPF_MOV64_REG BPF_REG_2 BPF_REG_10; BPF_ALU64_IMM BPF_ADD BPF_REG_2 (-8);
    BPF_ST_MEM BPF_DW BPF_REG_2 0 0; BPF_LD_MAP_FD BPF_REG_1 0;
    BPF_EMIT_CALL BPF_FUNC_map_lookup_elem; BPF_JMP_IMM BPF_JEQ BPF_REG_0 0 7;
    BPF_MOV64_IMM BPF_REG_3 4096; BPF_MOV64_REG BPF_REG_2 BPF_REG_10;
    BPF_ALU64_IMM BPF_ADD BPF_REG_2 (-8); BPF_STX_MEM BPF_DW BPF_REG_2 BPF_REG_0 0;
    BPF_ATOMIC_OP BPF_DW BPF_ADD BPF_REG_2 BPF_REG_3 0;
    BPF_LDX_MEM BPF_DW BPF_REG_0 BPF_REG_2 0; BPF_ST_MEM BPF_DW BPF_REG_0 0 22; BPF_EXIT_INSN];
  _fixup fixup_map_hash_48b [3];
  _errstr_unpriv "leaking pointer from stack off -8";
  _errstr "R0 invalid mem access 'inv'";
  _result REJECT;
  _flags F_NEEDS_EFFICIENT_UNALIGNED_ACCESS].

Definition value_illegal_alu_tests : list bpf_test := [value_illegal_alu_1; value_illegal_alu_2;
  value_illegal_alu_3; value_illegal_alu_4; value_illegal_alu_5].

(** * [value_or_null.c] *)

Definition value_or_null_1 : bpf_test := TEST "multiple registers share map_lookup_elem result" [
  _insns
   [BPF_MOV64_IMM BPF_REG_1 10; BPF_STX_MEM BPF_DW BPF_REG_10 BPF_REG_1 (-8);
    BPF_MOV64_REG BPF_REG_2 BPF_REG_10; BPF_ALU64_IMM BPF_ADD BPF_REG_2 (-8);
    BPF_LD_MAP_FD BPF_REG_1 0;
    BPF_RAW_INSN (BPF_JMP .| BPF_CALL) 0 0 0 BPF_FUNC_map_lookup_elem;
    BPF_MOV64_REG BPF_REG_4 BPF_REG_0; BPF_JMP_IMM BPF_JEQ BPF_REG_0 0 1;
    BPF_ST_MEM BPF_DW BPF_REG_4 0 0; BPF_EXIT_INSN];
  _fixup fixup_map_hash_8b [4];
  _result ACCEPT;
  _prog_type BPF_PROG_TYPE_SCHED_CLS].

Definition value_or_null_2 : bpf_test := TEST "alu ops on ptr_to_map_value_or_null, 1" [
  _insns
   [BPF_MOV64_IMM BPF_REG_1 10; BPF_STX_MEM BPF_DW BPF_REG_10 BPF_REG_1 (-8);
    BPF_MOV64_REG BPF_REG_2 BPF_REG_10; BPF_ALU64_IMM BPF_ADD BPF_REG_2 (-8);
    BPF_LD_MAP_FD BPF_REG_1 0;
    BPF_RAW_INSN (BPF_JMP .| BPF_CALL) 0 0 0 BPF_FUNC_map_lookup_elem;
    BPF_MOV64_REG BPF_REG_4 BPF_REG_0; BPF_ALU64_IMM BPF_ADD BPF_REG_4 (-2);
    BPF_ALU64_IMM BPF_ADD BPF_REG_4 2; BPF_JMP_IMM BPF_JEQ BPF_REG_0 0 1;
    BPF_ST_MEM BPF_DW BPF_REG_4 0 0; BPF_EXIT_INSN];
  _fixup fixup_map_hash_8b [4];
  _errstr "R4 pointer arithmetic on map_value_or_null";
  _result REJECT;
  _prog_type BPF_PROG_TYPE_SCHED_CLS].

Definition value_or_null_3 : bpf_test := TEST "alu ops on ptr_to_map_value_or_null, 2" [
  _insns
   [BPF_MOV64_IMM BPF_REG_1 10; BPF_STX_MEM BPF_DW BPF_REG_10 BPF_REG_1 (-8);
    BPF_MOV64_REG BPF_REG_2 BPF_REG_10; BPF_ALU64_IMM BPF_ADD BPF_REG_2 (-8);
    BPF_LD_MAP_FD BPF_REG_1 0;
    BPF_RAW_INSN (BPF_JMP .| BPF_CALL) 0 0 0 BPF_FUNC_map_lookup_elem;
    BPF_MOV64_REG BPF_REG_4 BPF_REG_0; BPF_ALU64_IMM BPF_AND BPF_REG_4 (-1);
    BPF_JMP_IMM BPF_JEQ BPF_REG_0 0 1; BPF_ST_MEM BPF_DW BPF_REG_4 0 0; BPF_EXIT_INSN];
  _fixup fixup_map_hash_8b [4];
  _errstr "R4 pointer arithmetic on map_value_or_null";
  _result REJECT;
  _prog_type BPF_PROG_TYPE_SCHED_CLS].

Definition value_or_null_4 : bpf_test := TEST "alu ops on ptr_to_map_value_or_null, 3" [
  _insns
   [BPF_MOV64_IMM BPF_REG_1 10; BPF_STX_MEM BPF_DW BPF_REG_10 BPF_REG_1 (-8);
    BPF_MOV64_REG BPF_REG_2 BPF_REG_10; BPF_ALU64_IMM BPF_ADD BPF_REG_2 (-8);
    BPF_LD_MAP_FD BPF_REG_1 0;
    BPF_RAW_INSN (BPF_JMP .| BPF_CALL) 0 0 0 BPF_FUNC_map_lookup_elem;
    BPF_MOV64_REG BPF_REG_4 BPF_REG_0; BPF_ALU64_IMM BPF_LSH BPF_REG_4 1;
    BPF_JMP_IMM BPF_JEQ BPF_REG_0 0 1; BPF_ST_MEM BPF_DW BPF_REG_4 0 0; BPF_EXIT_INSN];
  _fixup fixup_map_hash_8b [4];
  _errstr "R4 pointer arithmetic on map_value_or_null";
  _result REJECT;
  _prog_type BPF_PROG_TYPE_SCHED_CLS].

Definition value_or_null_5 : bpf_test := TEST "invalid memory access with multiple map_lookup_elem calls" [
  _insns
   [BPF_MOV64_IMM BPF_REG_1 10; BPF_STX_MEM BPF_DW BPF_REG_10 BPF_REG_1 (-8);
    BPF_MOV64_REG BPF_REG_2 BPF_REG_10; BPF_ALU64_IMM BPF_ADD BPF_REG_2 (-8);
    BPF_LD_MAP_FD BPF_REG_1 0; BPF_MOV64_REG BPF_REG_8 BPF_REG_1;
    BPF_MOV64_REG BPF_REG_7 BPF_REG_2;
    BPF_RAW_INSN (BPF_JMP .| BPF_CALL) 0 0 0 BPF_FUNC_map_lookup_elem;
    BPF_MOV64_REG BPF_REG_4 BPF_REG_0; BPF_MOV64_REG BPF_REG_1 BPF_REG_8;
    BPF_MOV64_REG BPF_REG_2 BPF_REG_7;
    BPF_RAW_INSN (BPF_JMP .| BPF_CALL) 0 0 0 BPF_FUNC_map_lookup_elem;
    BPF_JMP_IMM BPF_JEQ BPF_REG_0 0 1; BPF_ST_MEM BPF_DW BPF_REG_4 0 0; BPF_EXIT_INSN];
  _fixup fixup_map_hash_8b [4];
  _result REJECT;
  _errstr "R4 !read_ok";
  _prog_type BPF_PROG_TYPE_SCHED_CLS].

Definition value_or_null_6 : bpf_test := TEST "valid indirect map_lookup_elem access with 2nd lookup in branch" [
  _insns
   [BPF_MOV64_IMM BPF_REG_1 10; BPF_STX_MEM BPF_DW BPF_REG_10 BPF_REG_1 (-8);
    BPF_MOV64_REG BPF_REG_2 BPF_REG_10; BPF_ALU64_IMM BPF_ADD BPF_REG_2 (-8);
    BPF_LD_MAP_FD BPF_REG_1 0; BPF_MOV64_REG BPF_REG_8 BPF_REG_1;
    BPF_MOV64_REG BPF_REG_7 BPF_REG_2;
    BPF_RAW_INSN (BPF_JMP .| BPF_CALL) 0 0 0 BPF_FUNC_map_lookup_elem;
    BPF_MOV64_IMM BPF_REG_2 10; BPF_JMP_IMM BPF_JNE BPF_REG_2 0 3;
    BPF_MOV64_REG BPF_REG_1 BPF_REG_8; BPF_MOV64_REG BPF_REG_2 BPF_REG_7;
    BPF_RAW_INSN (BPF_JMP .| BPF_CALL) 0 0 0 BPF_FUNC_map_lookup_elem;
    BPF_MOV64_REG BPF_REG_4 BPF_REG_0; BPF_JMP_IMM BPF_JEQ BPF_REG_0 0 1;
    BPF_ST_MEM BPF_DW BPF_REG_4 0 0; BPF_EXIT_INSN];
  _fixup fixup_map_hash_8b [4];
  _result ACCEPT;
  _prog_type BPF_PROG_TYPE_SCHED_CLS].

Definition value_or_null_7 : bpf_test := TEST "invalid map access from else condition" [
  _insns
   [BPF_ST_MEM BPF_DW BPF_REG_10 (-8) 0; BPF_MOV64_REG BPF_REG_2 BPF_REG_10;
    BPF_ALU64_IMM BPF_ADD BPF_REG_2 (-8); BPF_LD_MAP_FD BPF_REG_1 0;
    BPF_RAW_INSN (BPF_JMP .| BPF_CALL) 0 0 0 BPF_FUNC_map_lookup_elem;
    BPF_JMP_IMM BPF_JEQ BPF_REG_0 0 6; BPF_LDX_MEM BPF_W BPF_REG_1 BPF_REG_0 0;
    BPF_JMP_IMM BPF_JGE BPF_REG_1 (MAX_ENTRIES - 1) 1; BPF_ALU64_IMM BPF_ADD BPF_REG_1 1;
    BPF_ALU64_IMM BPF_LSH BPF_REG_1 2; BPF_ALU64_REG BPF_ADD BPF_REG_0 BPF_REG_1;
    BPF_ST_MEM BPF_DW BPF_REG_0 0 (offsetof test_val "foo"); BPF_EXIT_INSN];
  _fixup fixup_map_hash_48b [3];
  _errstr "R0 unbounded memory access";
  _result REJECT;
  _errstr_unpriv "R0 leaks addr";
  _result_unpriv REJECT;
  _flags F_NEEDS_EFFICIENT_UNALIGNED_ACCESS].

Definition value_or_null_8 : bpf_test := TEST "map lookup and null branch prediction" [
  _insns
   [BPF_MOV64_IMM BPF_REG_1 10; BPF_STX_MEM BPF_DW BPF_REG_10 BPF_REG_1 (-8);
    BPF_MOV64_REG BPF_REG_2 BPF_REG_10; BPF_ALU64_IMM BPF_ADD BPF_REG_2 (-8);
    BPF_LD_MAP_FD BPF_REG_1 0;
    BPF_RAW_INSN (BPF_JMP .| BPF_CALL) 0 0 0 BPF_FUNC_map_lookup_elem;
    BPF_MOV64_REG BPF_REG_6 BPF_REG_0; BPF_JMP_IMM BPF_JEQ BPF_REG_6 0 2;
    BPF_JMP_IMM BPF_JNE BPF_REG_6 0 1; BPF_ALU64_IMM BPF_ADD BPF_REG_10 10; BPF_EXIT_INSN];
  _fixup fixup_map_hash_8b [4];
  _prog_type BPF_PROG_TYPE_SCHED_CLS;
  _result ACCEPT].

Definition value_or_null_tests : list bpf_test := [value_or_null_1; value_or_null_2;
  value_or_null_3; value_or_null_4; value_or_null_5; value_or_null_6; value_or_null_7;
  value_or_null_8].

(** * [value_ptr_arith.c] *)

Definition value_ptr_arith_1 : bpf_test := TEST "map access: known scalar += value_ptr unknown vs const" [
  _insns
   [BPF_LDX_MEM BPF_W BPF_REG_0 BPF_REG_1 (offsetof __sk_buff "len");
    BPF_ST_MEM BPF_DW BPF_REG_10 (-8) 0; BPF_MOV64_REG BPF_REG_2 BPF_REG_10;
    BPF_ALU64_IMM BPF_ADD BPF_REG_2 (-8); BPF_JMP_IMM BPF_JEQ BPF_REG_0 1 3;
    BPF_LD_MAP_FD BPF_REG_1 0; BPF_JMP_IMM BPF_JNE BPF_REG_0 1 2; BPF_LD_MAP_FD BPF_REG_1 0;
    BPF_RAW_INSN (BPF_JMP .| BPF_CALL) 0 0 0 BPF_FUNC_map_lookup_elem;
    BPF_JMP_IMM BPF_JEQ BPF_REG_0 0 9; BPF_LDX_MEM BPF_B BPF_REG_4 BPF_REG_0 0;
    BPF_JMP_IMM BPF_JEQ BPF_REG_4 1 4; BPF_MOV64_IMM BPF_REG_1 6;
    BPF_ALU64_IMM BPF_NEG BPF_REG_1 0; BPF_ALU64_IMM BPF_AND BPF_REG_1 0x7;
    BPF_JMP_IMM BPF_JA 0 0 1; BPF_MOV64_IMM BPF_REG_1 3;
    BPF_ALU64_REG BPF_ADD BPF_REG_1 BPF_REG_0; BPF_LDX_MEM BPF_B BPF_REG_0 BPF_REG_1 0;
    BPF_MOV64_IMM BPF_REG_0 1; BPF_EXIT_INSN];
  _fixup fixup_map_hash_16b [5];
  _fixup fixup_map_array_48b [8];
  _result_unpriv REJECT;
  _errstr_unpriv "R1 tried to add from different maps, paths or scalars";
  _result ACCEPT;
  _retval 1].

Definition value_ptr_arith_2 : bpf_test := TEST "map access: known scalar += value_ptr const vs unknown" [
  _insns
   [BPF_LDX_MEM BPF_W BPF_REG_0 BPF_REG_1 (offsetof __sk_buff "len");
    BPF_ST_MEM BPF_DW BPF_REG_10 (-8) 0; BPF_MOV64_REG BPF_REG_2 BPF_REG_10;
    BPF_ALU64_IMM BPF_ADD BPF_REG_2 (-8); BPF_JMP_IMM BPF_JEQ BPF_REG_0 1 3;
    BPF_LD_MAP_FD BPF_REG_1 0; BPF_JMP_IMM BPF_JNE BPF_REG_0 1 2; BPF_LD_MAP_FD BPF_REG_1 0;
    BPF_RAW_INSN (BPF_JMP .| BPF_CALL) 0 0 0 BPF_FUNC_map_lookup_elem;
    BPF_JMP_IMM BPF_JEQ BPF_REG_0 0 9; BPF_LDX_MEM BPF_B BPF_REG_4 BPF_REG_0 0;
    BPF_JMP_IMM BPF_JEQ BPF_REG_4 1 2; BPF_MOV64_IMM BPF_REG_1 3; BPF_JMP_IMM BPF_JA 0 0 3;
    BPF_MOV64_IMM BPF_REG_1 6; BPF_ALU64_IMM BPF_NEG BPF_REG_1 0;
    BPF_ALU64_IMM BPF_AND BPF_REG_1 0x7; BPF_ALU64_REG BPF_ADD BPF_REG_1 BPF_REG_0;
    BPF_LDX_MEM BPF_B BPF_REG_0 BPF_REG_1 0; BPF_MOV64_IMM BPF_REG_0 1; BPF_EXIT_INSN];
  _fixup fixup_map_hash_16b [5];
  _fixup fixup_map_array_48b [8];
  _result_unpriv REJECT;
  _errstr_unpriv "R1 tried to add from different maps, paths or scalars";
  _result ACCEPT;
  _retval 1].

Definition value_ptr_arith_3 : bpf_test := TEST "map access: known scalar += value_ptr const vs const (ne)" [
  _insns
   [BPF_LDX_MEM BPF_W BPF_REG_0 BPF_REG_1 (offsetof __sk_buff "len");
    BPF_ST_MEM BPF_DW BPF_REG_10 (-8) 0; BPF_MOV64_REG BPF_REG_2 BPF_REG_10;
    BPF_ALU64_IMM BPF_ADD BPF_REG_2 (-8); BPF_JMP_IMM BPF_JEQ BPF_REG_0 1 3;
    BPF_LD_MAP_FD BPF_REG_1 0; BPF_JMP_IMM BPF_JNE BPF_REG_0 1 2; BPF_LD_MAP_FD BPF_REG_1 0;
    BPF_RAW_INSN (BPF_JMP .| BPF_CALL) 0 0 0 BPF_FUNC_map_lookup_elem;
    BPF_JMP_IMM BPF_JEQ BPF_REG_0 0 7; BPF_LDX_MEM BPF_B BPF_REG_4 BPF_REG_0 0;
    BPF_JMP_IMM BPF_JEQ BPF_REG_4 1 2; BPF_MOV64_IMM BPF_REG_1 3; BPF_JMP_IMM BPF_JA 0 0 1;
    BPF_MOV64_IMM BPF_REG_1 5; BPF_ALU64_REG BPF_ADD BPF_REG_1 BPF_REG_0;
    BPF_LDX_MEM BPF_B BPF_REG_0 BPF_REG_1 0; BPF_MOV64_IMM BPF_REG_0 1; BPF_EXIT_INSN];
  _fixup fixup_map_hash_16b [5];
  _fixup fixup_map_array_48b [8];
  _result_unpriv REJECT;
  _errstr_unpriv "R1 tried to add from different maps, paths or scalars";
  _result ACCEPT;
  _retval 1].

Definition value_ptr_arith_4 : bpf_test := TEST "map access: known scalar += value_ptr const vs const (eq)" [
  _insns
   [BPF_LDX_MEM BPF_W BPF_REG_0 BPF_REG_1 (offsetof __sk_buff "len");
    BPF_ST_MEM BPF_DW BPF_REG_10 (-8) 0; BPF_MOV64_REG BPF_REG_2 BPF_REG_10;
    BPF_ALU64_IMM BPF_ADD BPF_REG_2 (-8); BPF_JMP_IMM BPF_JEQ BPF_REG_0 1 3;
    BPF_LD_MAP_FD BPF_REG_1 0; BPF_JMP_IMM BPF_JNE BPF_REG_0 1 2; BPF_LD_MAP_FD BPF_REG_1 0;
    BPF_RAW_INSN (BPF_JMP .| BPF_CALL) 0 0 0 BPF_FUNC_map_lookup_elem;
    BPF_JMP_IMM BPF_JEQ BPF_REG_0 0 7; BPF_LDX_MEM BPF_B BPF_REG_4 BPF_REG_0 0;
    BPF_JMP_IMM BPF_JEQ BPF_REG_4 1 2; BPF_MOV64_IMM BPF_REG_1 5; BPF_JMP_IMM BPF_JA 0 0 1;
    BPF_MOV64_IMM BPF_REG_1 5; BPF_ALU64_REG BPF_ADD BPF_REG_1 BPF_REG_0;
    BPF_LDX_MEM BPF_B BPF_REG_0 BPF_REG_1 0; BPF_MOV64_IMM BPF_REG_0 1; BPF_EXIT_INSN];
  _fixup fixup_map_hash_16b [5];
  _fixup fixup_map_array_48b [8];
  _result ACCEPT;
  _retval 1].

Definition value_ptr_arith_5 : bpf_test := TEST "map access: known scalar += value_ptr unknown vs unknown (eq)" [
  _insns
   [BPF_LDX_MEM BPF_W BPF_REG_0 BPF_REG_1 (offsetof __sk_buff "len");
    BPF_ST_MEM BPF_DW BPF_REG_10 (-8) 0; BPF_MOV64_REG BPF_REG_2 BPF_REG_10;
    BPF_ALU64_IMM BPF_ADD BPF_REG_2 (-8); BPF_JMP_IMM BPF_JEQ BPF_REG_0 1 3;
    BPF_LD_MAP_FD BPF_REG_1 0; BPF_JMP_IMM BPF_JNE BPF_REG_0 1 2; BPF_LD_MAP_FD BPF_REG_1 0;
    BPF_RAW_INSN (BPF_JMP .| BPF_CALL) 0 0 0 BPF_FUNC_map_lookup_elem;
    BPF_JMP_IMM BPF_JEQ BPF_REG_0 0 11; BPF_LDX_MEM BPF_B BPF_REG_4 BPF_REG_0 0;
    BPF_JMP_IMM BPF_JEQ BPF_REG_4 1 4; BPF_MOV64_IMM BPF_REG_1 6;
    BPF_ALU64_IMM BPF_NEG BPF_REG_1 0; BPF_ALU64_IMM BPF_AND BPF_REG_1 0x7;
    BPF_JMP_IMM BPF_JA 0 0 3; BPF_MOV64_IMM BPF_REG_1 6; BPF_ALU64_IMM BPF_NEG BPF_REG_1 0;
    BPF_ALU64_IMM BPF_AND BPF_REG_1 0x7; BPF_ALU64_REG BPF_ADD BPF_REG_1 BPF_REG_0;
    BPF_LDX_MEM BPF_B BPF_REG_0 BPF_REG_1 0; BPF_MOV64_IMM BPF_REG_0 1; BPF_EXIT_INSN];
  _fixup fixup_map_hash_16b [5];
  _fixup fixup_map_array_48b [8];
  _result ACCEPT;
  _retval 1].

Definition value_ptr_arith_6 : bpf_test := TEST "map access: known scalar += value_ptr unknown vs unknown (lt)" [
  _insns
   [BPF_LDX_MEM BPF_W BPF_REG_0 BPF_REG_1 (offsetof __sk_buff "len");
    BPF_ST_MEM BPF_DW BPF_REG_10 (-8) 0; BPF_MOV64_REG BPF_REG_2 BPF_REG_10;
    BPF_ALU64_IMM BPF_ADD BPF_REG_2 (-8); BPF_JMP_IMM BPF_JEQ BPF_REG_0 1 3;
    BPF_LD_MAP_FD BPF_REG_1 0; BPF_JMP_IMM BPF_JNE BPF_REG_0 1 2; BPF_LD_MAP_FD BPF_REG_1 0;
    BPF_RAW_INSN (BPF_JMP .| BPF_CALL) 0 0 0 BPF_FUNC_map_lookup_elem;
    BPF_JMP_IMM BPF_JEQ BPF_REG_0 0 11; BPF_LDX_MEM BPF_B BPF_REG_4 BPF_REG_0 0;
    BPF_JMP_IMM BPF_JEQ BPF_REG_4 1 4; BPF_MOV64_IMM BPF_REG_1 6;
    BPF_ALU64_IMM BPF_NEG BPF_REG_1 0; BPF_ALU64_IMM BPF_AND BPF_REG_1 0x3;
    BPF_JMP_IMM BPF_JA 0 0 3; BPF_MOV64_IMM BPF_REG_1 6; BPF_ALU64_IMM BPF_NEG BPF_REG_1 0;
    BPF_ALU64_IMM BPF_AND BPF_REG_1 0x7; BPF_ALU64_REG BPF_ADD BPF_REG_1 BPF_REG_0;
    BPF_LDX_MEM BPF_B BPF_REG_0 BPF_REG_1 0; BPF_MOV64_IMM BPF_REG_0 1; BPF_EXIT_INSN];
  _fixup fixup_map_hash_16b [5];
  _fixup fixup_map_array_48b [8];
  _result_unpriv REJECT;
  _errstr_unpriv "R1 tried to add from different maps, paths or scalars";
  _result ACCEPT;
  _retval 1].

Definition value_ptr_arith_7 : bpf_test := TEST "map access: known scalar += value_ptr unknown vs unknown (gt)" [
  _insns
   [BPF_LDX_MEM BPF_W BPF_REG_0 BPF_REG_1 (offsetof __sk_buff "len");
    BPF_ST_MEM BPF_DW BPF_REG_10 (-8) 0; BPF_MOV64_REG BPF_REG_2 BPF_REG_10;
    BPF_ALU64_IMM BPF_ADD BPF_REG_2 (-8); BPF_JMP_IMM BPF_JEQ BPF_REG_0 1 3;
    BPF_LD_MAP_FD BPF_REG_1 0; BPF_JMP_IMM BPF_JNE BPF_REG_0 1 2; BPF_LD_MAP_FD BPF_REG_1 0;
    BPF_RAW_INSN (BPF_JMP .| BPF_CALL) 0 0 0 BPF_FUNC_map_lookup_elem;
    BPF_JMP_IMM BPF_JEQ BPF_REG_0 0 11; BPF_LDX_MEM BPF_B BPF_REG_4 BPF_REG_0 0;
    BPF_JMP_IMM BPF_JEQ BPF_REG_4 1 4; BPF_MOV64_IMM BPF_REG_1 6;
    BPF_ALU64_IMM BPF_NEG BPF_REG_1 0; BPF_ALU64_IMM BPF_AND BPF_REG_1 0x7;
    BPF_JMP_IMM BPF_JA 0 0 3; BPF_MOV64_IMM BPF_REG_1 6; BPF_ALU64_IMM BPF_NEG BPF_REG_1 0;
    BPF_ALU64_IMM BPF_AND BPF_REG_1 0x3; BPF_ALU64_REG BPF_ADD BPF_REG_1 BPF_REG_0;
    BPF_LDX_MEM BPF_B BPF_REG_0 BPF_REG_1 0; BPF_MOV64_IMM BPF_REG_0 1; BPF_EXIT_INSN];
  _fixup fixup_map_hash_16b [5];
  _fixup fixup_map_array_48b [8];
  _result_unpriv REJECT;
  _errstr_unpriv "R1 tried to add from different maps, paths or scalars";
  _result ACCEPT;
  _retval 1].

Definition value_ptr_arith_8 : bpf_test := TEST "map access: known scalar += value_ptr from different maps" [
  _insns
   [BPF_LDX_MEM BPF_W BPF_REG_0 BPF_REG_1 (offsetof __sk_buff "len");
    BPF_ST_MEM BPF_DW BPF_REG_10 (-8) 0; BPF_MOV64_REG BPF_REG_2 BPF_REG_10;
    BPF_ALU64_IMM BPF_ADD BPF_REG_2 (-8); BPF_JMP_IMM BPF_JEQ BPF_REG_0 1 3;
    BPF_LD_MAP_FD BPF_REG_1 0; BPF_JMP_IMM BPF_JNE BPF_REG_0 1 2; BPF_LD_MAP_FD BPF_REG_1 0;
    BPF_RAW_INSN (BPF_JMP .| BPF_CALL) 0 0 0 BPF_FUNC_map_lookup_elem;
    BPF_JMP_IMM BPF_JEQ BPF_REG_0 0 3; BPF_MOV64_IMM BPF_REG_1 4;
    BPF_ALU64_REG BPF_ADD BPF_REG_1 BPF_REG_0; BPF_LDX_MEM BPF_B BPF_REG_0 BPF_REG_1 0;
    BPF_MOV64_IMM BPF_REG_0 1; BPF_EXIT_INSN];
  _fixup fixup_map_hash_16b [5];
  _fixup fixup_map_array_48b [8];
  _result ACCEPT;
  _retval 1].

Definition value_ptr_arith_9 : bpf_test := TEST "map access: value_ptr -= known scalar from different maps" [
  _insns
   [BPF_LDX_MEM BPF_W BPF_REG_0 BPF_REG_1 (offsetof __sk_buff "len");
    BPF_ST_MEM BPF_DW BPF_REG_10 (-8) 0; BPF_MOV64_REG BPF_REG_2 BPF_REG_10;
    BPF_ALU64_IMM BPF_ADD BPF_REG_2 (-8); BPF_JMP_IMM BPF_JEQ BPF_REG_0 1 3;
    BPF_LD_MAP_FD BPF_REG_1 0; BPF_JMP_IMM BPF_JNE BPF_REG_0 1 2; BPF_LD_MAP_FD BPF_REG_1 0;
    BPF_RAW_INSN (BPF_JMP .| BPF_CALL) 0 0 0 BPF_FUNC_map_lookup_elem;
    BPF_JMP_IMM BPF_JEQ BPF_REG_0 0 4; BPF_MOV64_IMM BPF_REG_1 4;
    BPF_ALU64_REG BPF_SUB BPF_REG_0 BPF_REG_1; BPF_ALU64_REG BPF_ADD BPF_REG_0 BPF_REG_1;
    BPF_LDX_MEM BPF_B BPF_REG_0 BPF_REG_0 0; BPF_MOV64_IMM BPF_REG_0 1; BPF_EXIT_INSN];
  _fixup fixup_map_hash_16b [5];
  _fixup fixup_map_array_48b [8];
  _result ACCEPT;
  _result_unpriv REJECT;
  _errstr_unpriv "R0 min value is outside of the allowed memory range";
  _retval 1].

Definition value_ptr_arith_10 : bpf_test := TEST "map access: known scalar += value_ptr from different maps, but same value properties" [
  _insns
   [BPF_LDX_MEM BPF_W BPF_REG_0 BPF_REG_1 (offsetof __sk_buff "len");
    BPF_ST_MEM BPF_DW BPF_REG_10 (-8) 0; BPF_MOV64_REG BPF_REG_2 BPF_REG_10;
    BPF_ALU64_IMM BPF_ADD BPF_REG_2 (-8); BPF_JMP_IMM BPF_JEQ BPF_REG_0 1 3;
    BPF_LD_MAP_FD BPF_REG_1 0; BPF_JMP_IMM BPF_JNE BPF_REG_0 1 2; BPF_LD_MAP_FD BPF_REG_1 0;
    BPF_RAW_INSN (BPF_JMP .| BPF_CALL) 0 0 0 BPF_FUNC_map_lookup_elem;
    BPF_JMP_IMM BPF_JEQ BPF_REG_0 0 3; BPF_MOV64_IMM BPF_REG_1 4;
    BPF_ALU64_REG BPF_ADD BPF_REG_1 BPF_REG_0; BPF_LDX_MEM BPF_B BPF_REG_0 BPF_REG_1 0;
    BPF_MOV64_IMM BPF_REG_0 1; BPF_EXIT_INSN];
  _fixup fixup_map_hash_48b [5];
  _fixup fixup_map_array_48b [8];
  _result ACCEPT;
  _retval 1].

Definition value_ptr_arith_11 : bpf_test := TEST "map access: mixing value pointer and scalar, 1" [
  _insns
   [BPF_MOV64_IMM BPF_REG_0 1; BPF_LD_MAP_FD BPF_REG_ARG1 0;
    BPF_MOV64_REG BPF_REG_ARG2 BPF_REG_FP; BPF_ALU64_IMM BPF_ADD BPF_REG_ARG2 (-16);
    BPF_ST_MEM BPF_DW BPF_REG_FP (-16) 0; BPF_EMIT_CALL BPF_FUNC_map_lookup_elem;
    BPF_JMP_IMM BPF_JNE BPF_REG_0 0 1; BPF_EXIT_INSN; BPF_LDX_MEM BPF_B BPF_REG_1 BPF_REG_0 0;
    BPF_JMP_IMM BPF_JNE BPF_REG_1 0 3; BPF_MOV64_REG BPF_REG_2 BPF_REG_0;
    BPF_MOV64_IMM BPF_REG_3 0; BPF_JMP_A 2; BPF_MOV64_IMM BPF_REG_2 0;
    BPF_MOV64_IMM BPF_REG_3 0x100000; BPF_ALU64_REG BPF_ADD BPF_REG_2 BPF_REG_3;
    BPF_JMP_IMM BPF_JNE BPF_REG_1 0 1; BPF_JMP_A 4; BPF_MOV64_IMM BPF_REG_0 0x13371337;
    BPF_JMP_IMM BPF_JNE BPF_REG_2 0x100000 2; BPF_MOV64_IMM BPF_REG_0 0; BPF_EXIT_INSN;
    BPF_LDX_MEM BPF_B BPF_REG_0 BPF_REG_0 0; BPF_MOV64_IMM BPF_REG_0 0; BPF_EXIT_INSN];
  _fixup fixup_map_array_48b [1];
  _result ACCEPT;
  _result_unpriv REJECT;
  _errstr_unpriv "R2 pointer comparison prohibited";
  _retval 0].

Definition value_ptr_arith_12 : bpf_test := TEST "map access: mixing value pointer and scalar, 2" [
  _insns
   [BPF_MOV64_IMM BPF_REG_0 1; BPF_LD_MAP_FD BPF_REG_ARG1 0;
    BPF_MOV64_REG BPF_REG_ARG2 BPF_REG_FP; BPF_ALU64_IMM BPF_ADD BPF_REG_ARG2 (-16);
    BPF_ST_MEM BPF_DW BPF_REG_FP (-16) 0; BPF_EMIT_CALL BPF_FUNC_map_lookup_elem;
    BPF_JMP_IMM BPF_JNE BPF_REG_0 0 1; BPF_EXIT_INSN; BPF_LDX_MEM BPF_B BPF_REG_1 BPF_REG_0 0;
    BPF_JMP_IMM BPF_JEQ BPF_REG_1 0 3; BPF_MOV64_IMM BPF_REG_2 0;
    BPF_MOV64_IMM BPF_REG_3 0x100000; BPF_JMP_A 2; BPF_MOV64_REG BPF_REG_2 BPF_REG_0;
    BPF_MOV64_IMM BPF_REG_3 0; BPF_ALU64_REG BPF_ADD BPF_REG_2 BPF_REG_3;
    BPF_JMP_IMM BPF_JNE BPF_REG_1 0 1; BPF_JMP_A 4; BPF_MOV64_IMM BPF_REG_0 0x13371337;
    BPF_JMP_IMM BPF_JNE BPF_REG_2 0x100000 2; BPF_MOV64_IMM BPF_REG_0 0; BPF_EXIT_INSN;
    BPF_LDX_MEM BPF_B BPF_REG_0 BPF_REG_0 0; BPF_MOV64_IMM BPF_REG_0 0; BPF_EXIT_INSN];
  _fixup fixup_map_array_48b [1];
  _result ACCEPT;
  _result_unpriv REJECT;
  _errstr_unpriv "R0 invalid mem access 'inv'";
  _retval 0].

Definition value_ptr_arith_13 : bpf_test := TEST "sanitation: alu with different scalars 1" [
  _insns
   [BPF_MOV64_IMM BPF_REG_0 1; BPF_LD_MAP_FD BPF_REG_ARG1 0;
    BPF_MOV64_REG BPF_REG_ARG2 BPF_REG_FP; BPF_ALU64_IMM BPF_ADD BPF_REG_ARG2 (-16);
    BPF_ST_MEM BPF_DW BPF_REG_FP (-16) 0; BPF_EMIT_CALL BPF_FUNC_map_lookup_elem;
    BPF_JMP_IMM BPF_JNE BPF_REG_0 0 1; BPF_EXIT_INSN; BPF_LDX_MEM BPF_W BPF_REG_1 BPF_REG_0 0;
    BPF_JMP_IMM BPF_JEQ BPF_REG_1 0 3; BPF_MOV64_IMM BPF_REG_2 0;
    BPF_MOV64_IMM BPF_REG_3 0x100000; BPF_JMP_A 2; BPF_MOV64_IMM BPF_REG_2 42;
    BPF_MOV64_IMM BPF_REG_3 0x100001; BPF_ALU64_REG BPF_ADD BPF_REG_2 BPF_REG_3;
    BPF_MOV64_REG BPF_REG_0 BPF_REG_2; BPF_EXIT_INSN];
  _fixup fixup_map_array_48b [1];
  _result ACCEPT;
  _retval 0x100000].

Definition value_ptr_arith_14 : bpf_test := TEST "sanitation: alu with different scalars 2" [
  _insns
   [BPF_MOV64_IMM BPF_REG_0 1; BPF_LD_MAP_FD BPF_REG_1 0; BPF_MOV64_REG BPF_REG_6 BPF_REG_1;
    BPF_MOV64_REG BPF_REG_2 BPF_REG_FP; BPF_ALU64_IMM BPF_ADD BPF_REG_2 (-16);
    BPF_ST_MEM BPF_DW BPF_REG_FP (-16) 0; BPF_EMIT_CALL BPF_FUNC_map_delete_elem;
    BPF_MOV64_REG BPF_REG_7 BPF_REG_0; BPF_MOV64_REG BPF_REG_1 BPF_REG_6;
    BPF_MOV64_REG BPF_REG_2 BPF_REG_FP; BPF_ALU64_IMM BPF_ADD BPF_REG_2 (-16);
    BPF_EMIT_CALL BPF_FUNC_map_delete_elem; BPF_MOV64_REG BPF_REG_6 BPF_REG_0;
    BPF_MOV64_REG BPF_REG_8 BPF_REG_6; BPF_ALU64_REG BPF_ADD BPF_REG_8 BPF_REG_7;
    BPF_MOV64_REG BPF_REG_0 BPF_REG_8; BPF_EXIT_INSN];
  _fixup fixup_map_array_48b [1];
  _result ACCEPT;
  _retval ((-22) * 2)].

Definition value_ptr_arith_15 : bpf_test := TEST "sanitation: alu with different scalars 3" [
  _insns
   [BPF_MOV64_IMM BPF_REG_0 22; BPF_ALU64_IMM BPF_MUL BPF_REG_0 (-1);
    BPF_MOV64_REG BPF_REG_7 BPF_REG_0; BPF_MOV64_IMM BPF_REG_0 22;
    BPF_ALU64_IMM BPF_MUL BPF_REG_0 (-1); BPF_MOV64_REG BPF_REG_6 BPF_REG_0;
    BPF_MOV64_REG BPF_REG_8 BPF_REG_6; BPF_ALU64_REG BPF_ADD BPF_REG_8 BPF_REG_7;
    BPF_MOV64_REG BPF_REG_0 BPF_REG_8; BPF_EXIT_INSN];
  _result ACCEPT;
  _retval ((-22) * 2)].

Definition value_ptr_arith_16 : bpf_test := TEST "map access: value_ptr += known scalar, upper oob arith, test 1" [
  _insns
   [BPF_ST_MEM BPF_DW BPF_REG_10 (-8) 0; BPF_MOV64_REG BPF_REG_2 BPF_REG_10;
    BPF_ALU64_IMM BPF_ADD BPF_REG_2 (-8); BPF_LD_MAP_FD BPF_REG_1 0;
    BPF_RAW_INSN (BPF_JMP .| BPF_CALL) 0 0 0 BPF_FUNC_map_lookup_elem;
    BPF_JMP_IMM BPF_JEQ BPF_REG_0 0 4; BPF_MOV64_IMM BPF_REG_1 48;
    BPF_ALU64_REG BPF_ADD BPF_REG_0 BPF_REG_1; BPF_ALU64_REG BPF_SUB BPF_REG_0 BPF_REG_1;
    BPF_LDX_MEM BPF_B BPF_REG_0 BPF_REG_0 0; BPF_MOV64_IMM BPF_REG_0 1; BPF_EXIT_INSN];
  _fixup fixup_map_array_48b [3];
  _result ACCEPT;
  _result_unpriv REJECT;
  _errstr_unpriv "R0 pointer arithmetic of map value goes out of range";
  _retval 1].

Definition value_ptr_arith_17 : bpf_test := TEST "map access: value_ptr += known scalar, upper oob arith, test 2" [
  _insns
   [BPF_ST_MEM BPF_DW BPF_REG_10 (-8) 0; BPF_MOV64_REG BPF_REG_2 BPF_REG_10;
    BPF_ALU64_IMM BPF_ADD BPF_REG_2 (-8); BPF_LD_MAP_FD BPF_REG_1 0;
    BPF_RAW_INSN (BPF_JMP .| BPF_CALL) 0 0 0 BPF_FUNC_map_lookup_elem;
    BPF_JMP_IMM BPF_JEQ BPF_REG_0 0 4; BPF_MOV64_IMM BPF_REG_1 49;
    BPF_ALU64_REG BPF_ADD BPF_REG_0 BPF_REG_1; BPF_ALU64_REG BPF_SUB BPF_REG_0 BPF_REG_1;
    BPF_LDX_MEM BPF_B BPF_REG_0 BPF_REG_0 0; BPF_MOV64_IMM BPF_REG_0 1; BPF_EXIT_INSN];
  _fixup fixup_map_array_48b [3];
  _result ACCEPT;
  _result_unpriv REJECT;
  _errstr_unpriv "R0 pointer arithmetic of map value goes out of range";
  _retval 1].

Definition value_ptr_arith_18 : bpf_test := TEST "map access: value_ptr += known scalar, upper oob arith, test 3" [
  _insns
   [BPF_ST_MEM BPF_DW BPF_REG_10 (-8) 0; BPF_MOV64_REG BPF_REG_2 BPF_REG_10;
    BPF_ALU64_IMM BPF_ADD BPF_REG_2 (-8); BPF_LD_MAP_FD BPF_REG_1 0;
    BPF_RAW_INSN (BPF_JMP .| BPF_CALL) 0 0 0 BPF_FUNC_map_lookup_elem;
    BPF_JMP_IMM BPF_JEQ BPF_REG_0 0 4; BPF_MOV64_IMM BPF_REG_1 47;
    BPF_ALU64_REG BPF_ADD BPF_REG_0 BPF_REG_1; BPF_ALU64_REG BPF_SUB BPF_REG_0 BPF_REG_1;
    BPF_LDX_MEM BPF_B BPF_REG_0 BPF_REG_0 0; BPF_MOV64_IMM BPF_REG_0 1; BPF_EXIT_INSN];
  _fixup fixup_map_array_48b [3];
  _result ACCEPT;
  _retval 1].

Definition value_ptr_arith_19 : bpf_test := TEST "map access: value_ptr -= known scalar, lower oob arith, test 1" [
  _insns
   [BPF_ST_MEM BPF_DW BPF_REG_10 (-8) 0; BPF_MOV64_REG BPF_REG_2 BPF_REG_10;
    BPF_ALU64_IMM BPF_ADD BPF_REG_2 (-8); BPF_LD_MAP_FD BPF_REG_1 0;
    BPF_RAW_INSN (BPF_JMP .| BPF_CALL) 0 0 0 BPF_FUNC_map_lookup_elem;
    BPF_JMP_IMM BPF_JEQ BPF_REG_0 0 5; BPF_MOV64_IMM BPF_REG_1 47;
    BPF_ALU64_REG BPF_ADD BPF_REG_0 BPF_REG_1; BPF_MOV64_IMM BPF_REG_1 48;
    BPF_ALU64_REG BPF_SUB BPF_REG_0 BPF_REG_1; BPF_LDX_MEM BPF_B BPF_REG_0 BPF_REG_0 0;
    BPF_MOV64_IMM BPF_REG_0 1; BPF_EXIT_INSN];
  _fixup fixup_map_array_48b [3];
  _result REJECT;
  _errstr "R0 min value is outside of the allowed memory range";
  _result_unpriv REJECT;
  _errstr_unpriv "R0 pointer arithmetic of map value goes out of range"].

Definition value_ptr_arith_20 : bpf_test := TEST "map access: value_ptr -= known scalar, lower oob arith, test 2" [
  _insns
   [BPF_ST_MEM BPF_DW BPF_REG_10 (-8) 0; BPF_MOV64_REG BPF_REG_2 BPF_REG_10;
    BPF_ALU64_IMM BPF_ADD BPF_REG_2 (-8); BPF_LD_MAP_FD BPF_REG_1 0;
    BPF_RAW_INSN (BPF_JMP .| BPF_CALL) 0 0 0 BPF_FUNC_map_lookup_elem;
    BPF_JMP_IMM BPF_JEQ BPF_REG_0 0 7; BPF_MOV64_IMM BPF_REG_1 47;
    BPF_ALU64_REG BPF_ADD BPF_REG_0 BPF_REG_1; BPF_MOV64_IMM BPF_REG_1 48;
    BPF_ALU64_REG BPF_SUB BPF_REG_0 BPF_REG_1; BPF_MOV64_IMM BPF_REG_1 1;
    BPF_ALU64_REG BPF_ADD BPF_REG_0 BPF_REG_1; BPF_LDX_MEM BPF_B BPF_REG_0 BPF_REG_0 0;
    BPF_MOV64_IMM BPF_REG_0 1; BPF_EXIT_INSN];
  _fixup fixup_map_array_48b [3];
  _result ACCEPT;
  _result_unpriv REJECT;
  _errstr_unpriv "R0 pointer arithmetic of map value goes out of range";
  _retval 1].

Definition value_ptr_arith_21 : bpf_test := TEST "map access: value_ptr -= known scalar, lower oob arith, test 3" [
  _insns
   [BPF_ST_MEM BPF_DW BPF_REG_10 (-8) 0; BPF_MOV64_REG BPF_REG_2 BPF_REG_10;
    BPF_ALU64_IMM BPF_ADD BPF_REG_2 (-8); BPF_LD_MAP_FD BPF_REG_1 0;
    BPF_RAW_INSN (BPF_JMP .| BPF_CALL) 0 0 0 BPF_FUNC_map_lookup_elem;
    BPF_JMP_IMM BPF_JEQ BPF_REG_0 0 5; BPF_MOV64_IMM BPF_REG_1 47;
    BPF_ALU64_REG BPF_ADD BPF_REG_0 BPF_REG_1; BPF_MOV64_IMM BPF_REG_1 47;
    BPF_ALU64_REG BPF_SUB BPF_REG_0 BPF_REG_1; BPF_LDX_MEM BPF_B BPF_REG_0 BPF_REG_0 0;
    BPF_MOV64_IMM BPF_REG_0 1; BPF_EXIT_INSN];
  _fixup fixup_map_array_48b [3];
  _result ACCEPT;
  _retval 1].

Definition value_ptr_arith_22 : bpf_test := TEST "map access: known scalar += value_ptr" [
  _insns
   [BPF_ST_MEM BPF_DW BPF_REG_10 (-8) 0; BPF_MOV64_REG BPF_REG_2 BPF_REG_10;
    BPF_ALU64_IMM BPF_ADD BPF_REG_2 (-8); BPF_LD_MAP_FD BPF_REG_1 0;
    BPF_RAW_INSN (BPF_JMP .| BPF_CALL) 0 0 0 BPF_FUNC_map_lookup_elem;
    BPF_JMP_IMM BPF_JEQ BPF_REG_0 0 3; BPF_MOV64_IMM BPF_REG_1 4;
    BPF_ALU64_REG BPF_ADD BPF_REG_1 BPF_REG_0; BPF_LDX_MEM BPF_B BPF_REG_0 BPF_REG_1 0;
    BPF_MOV64_IMM BPF_REG_0 1; BPF_EXIT_INSN];
  _fixup fixup_map_array_48b [3];
  _result ACCEPT;
  _retval 1].

Definition value_ptr_arith_23 : bpf_test := TEST "map access: value_ptr += known scalar, 1" [
  _insns
   [BPF_ST_MEM BPF_DW BPF_REG_10 (-8) 0; BPF_MOV64_REG BPF_REG_2 BPF_REG_10;
    BPF_ALU64_IMM BPF_ADD BPF_REG_2 (-8); BPF_LD_MAP_FD BPF_REG_1 0;
    BPF_RAW_INSN (BPF_JMP .| BPF_CALL) 0 0 0 BPF_FUNC_map_lookup_elem;
    BPF_JMP_IMM BPF_JEQ BPF_REG_0 0 3; BPF_MOV64_IMM BPF_REG_1 4;
    BPF_ALU64_REG BPF_ADD BPF_REG_0 BPF_REG_1; BPF_LDX_MEM BPF_B BPF_REG_1 BPF_REG_0 0;
    BPF_MOV64_IMM BPF_REG_0 1; BPF_EXIT_INSN];
  _fixup fixup_map_array_48b [3];
  _result ACCEPT;
  _retval 1].

Definition value_ptr_arith_24 : bpf_test := TEST "map access: value_ptr += known scalar, 2" [
  _insns
   [BPF_ST_MEM BPF_DW BPF_REG_10 (-8) 0; BPF_MOV64_REG BPF_REG_2 BPF_REG_10;
    BPF_ALU64_IMM BPF_ADD BPF_REG_2 (-8); BPF_LD_MAP_FD BPF_REG_1 0;
    BPF_RAW_INSN (BPF_JMP .| BPF_CALL) 0 0 0 BPF_FUNC_map_lookup_elem;
    BPF_JMP_IMM BPF_JEQ BPF_REG_0 0 3; BPF_MOV64_IMM BPF_REG_1 49;
    BPF_ALU64_REG BPF_ADD BPF_REG_0 BPF_REG_1; BPF_LDX_MEM BPF_B BPF_REG_1 BPF_REG_0 0;
    BPF_MOV64_IMM BPF_REG_0 1; BPF_EXIT_INSN];
  _fixup fixup_map_array_48b [3];
  _result REJECT;
  _errstr "invalid access to map value"].

Definition value_ptr_arith_25 : bpf_test := TEST "map access: value_ptr += known scalar, 3" [
  _insns
   [BPF_ST_MEM BPF_DW BPF_REG_10 (-8) 0; BPF_MOV64_REG BPF_REG_2 BPF_REG_10;
    BPF_ALU64_IMM BPF_ADD BPF_REG_2 (-8); BPF_LD_MAP_FD BPF_REG_1 0;
    BPF_RAW_INSN (BPF_JMP .| BPF_CALL) 0 0 0 BPF_FUNC_map_lookup_elem;
    BPF_JMP_IMM BPF_JEQ BPF_REG_0 0 3; BPF_MOV64_IMM BPF_REG_1 (-1);
    BPF_ALU64_REG BPF_ADD BPF_REG_0 BPF_REG_1; BPF_LDX_MEM BPF_B BPF_REG_1 BPF_REG_0 0;
    BPF_MOV64_IMM BPF_REG_0 1; BPF_EXIT_INSN];
  _fixup fixup_map_array_48b [3];
  _result REJECT;
  _errstr "invalid access to map value"].

Definition value_ptr_arith_26 : bpf_test := TEST "map access: value_ptr += known scalar, 4" [
  _insns
   [BPF_ST_MEM BPF_DW BPF_REG_10 (-8) 0; BPF_MOV64_REG BPF_REG_2 BPF_REG_10;
    BPF_ALU64_IMM BPF_ADD BPF_REG_2 (-8); BPF_LD_MAP_FD BPF_REG_1 0;
    BPF_RAW_INSN (BPF_JMP .| BPF_CALL) 0 0 0 BPF_FUNC_map_lookup_elem;
    BPF_JMP_IMM BPF_JEQ BPF_REG_0 0 7; BPF_MOV64_IMM BPF_REG_1 5;
    BPF_ALU64_REG BPF_ADD BPF_REG_0 BPF_REG_1; BPF_MOV64_IMM BPF_REG_1 (-2);
    BPF_ALU64_REG BPF_ADD BPF_REG_0 BPF_REG_1; BPF_MOV64_IMM BPF_REG_1 (-1);
    BPF_ALU64_REG BPF_ADD BPF_REG_0 BPF_REG_1; BPF_LDX_MEM BPF_B BPF_REG_1 BPF_REG_0 0;
    BPF_MOV64_IMM BPF_REG_0 1; BPF_EXIT_INSN];
  _fixup fixup_map_array_48b [3];
  _result ACCEPT;
  _retval 1].

Definition value_ptr_arith_27 : bpf_test := TEST "map access: value_ptr += known scalar, 5" [
  _insns
   [BPF_ST_MEM BPF_DW BPF_REG_10 (-8) 0; BPF_MOV64_REG BPF_REG_2 BPF_REG_10;
    BPF_ALU64_IMM BPF_ADD BPF_REG_2 (-8); BPF_LD_MAP_FD BPF_REG_1 0;
    BPF_RAW_INSN (BPF_JMP .| BPF_CALL) 0 0 0 BPF_FUNC_map_lookup_elem;
    BPF_JMP_IMM BPF_JEQ BPF_REG_0 0 3; BPF_MOV64_IMM BPF_REG_1 ((6 + 1) * 4);
    BPF_ALU64_REG BPF_ADD BPF_REG_1 BPF_REG_0; BPF_LDX_MEM BPF_W BPF_REG_0 BPF_REG_1 0;
    BPF_EXIT_INSN];
  _fixup fixup_map_array_48b [3];
  _result ACCEPT;
  _retval 0xabcdef12].

Definition value_ptr_arith_28 : bpf_test := TEST "map access: value_ptr += known scalar, 6" [
  _insns
   [BPF_ST_MEM BPF_DW BPF_REG_10 (-8) 0; BPF_MOV64_REG BPF_REG_2 BPF_REG_10;
    BPF_ALU64_IMM BPF_ADD BPF_REG_2 (-8); BPF_LD_MAP_FD BPF_REG_1 0;
    BPF_RAW_INSN (BPF_JMP .| BPF_CALL) 0 0 0 BPF_FUNC_map_lookup_elem;
    BPF_JMP_IMM BPF_JEQ BPF_REG_0 0 5; BPF_MOV64_IMM BPF_REG_1 ((3 + 1) * 4);
    BPF_ALU64_REG BPF_ADD BPF_REG_0 BPF_REG_1; BPF_MOV64_IMM BPF_REG_1 (3 * 4);
    BPF_ALU64_REG BPF_ADD BPF_REG_0 BPF_REG_1; BPF_LDX_MEM BPF_W BPF_REG_0 BPF_REG_0 0;
    BPF_EXIT_INSN];
  _fixup fixup_map_array_48b [3];
  _result ACCEPT;
  _retval 0xabcdef12].

Definition value_ptr_arith_29 : bpf_test := TEST "map access: value_ptr += N, value_ptr -= N known scalar" [
  _insns
   [BPF_ST_MEM BPF_DW BPF_REG_10 (-8) 0; BPF_MOV64_REG BPF_REG_2 BPF_REG_10;
    BPF_ALU64_IMM BPF_ADD BPF_REG_2 (-8); BPF_LD_MAP_FD BPF_REG_1 0;
    BPF_RAW_INSN (BPF_JMP .| BPF_CALL) 0 0 0 BPF_FUNC_map_lookup_elem;
    BPF_JMP_IMM BPF_JEQ BPF_REG_0 0 6; BPF_MOV32_IMM BPF_REG_1 0x12345678;
    BPF_STX_MEM BPF_W BPF_REG_0 BPF_REG_1 0; BPF_ALU64_IMM BPF_ADD BPF_REG_0 2;
    BPF_MOV64_IMM BPF_REG_1 2; BPF_ALU64_REG BPF_SUB BPF_REG_0 BPF_REG_1;
    BPF_LDX_MEM BPF_W BPF_REG_0 BPF_REG_0 0; BPF_EXIT_INSN];
  _fixup fixup_map_array_48b [3];
  _result ACCEPT;
  _retval 0x12345678].

Definition value_ptr_arith_30 : bpf_test := TEST "map access: unknown scalar += value_ptr, 1" [
  _insns
   [BPF_ST_MEM BPF_DW BPF_REG_10 (-8) 0; BPF_MOV64_REG BPF_REG_2 BPF_REG_10;
    BPF_ALU64_IMM BPF_ADD BPF_REG_2 (-8); BPF_LD_MAP_FD BPF_REG_1 0;
    BPF_RAW_INSN (BPF_JMP .| BPF_CALL) 0 0 0 BPF_FUNC_map_lookup_elem;
    BPF_JMP_IMM BPF_JEQ BPF_REG_0 0 4; BPF_LDX_MEM BPF_B BPF_REG_1 BPF_REG_0 0;
    BPF_ALU64_IMM BPF_AND BPF_REG_1 0xf; BPF_ALU64_REG BPF_ADD BPF_REG_1 BPF_REG_0;
    BPF_LDX_MEM BPF_B BPF_REG_0 BPF_REG_1 0; BPF_MOV64_IMM BPF_REG_0 1; BPF_EXIT_INSN];
  _fixup fixup_map_array_48b [3];
  _result ACCEPT;
  _retval 1].

Definition value_ptr_arith_31 : bpf_test := TEST "map access: unknown scalar += value_ptr, 2" [
  _insns
   [BPF_ST_MEM BPF_DW BPF_REG_10 (-8) 0; BPF_MOV64_REG BPF_REG_2 BPF_REG_10;
    BPF_ALU64_IMM BPF_ADD BPF_REG_2 (-8); BPF_LD_MAP_FD BPF_REG_1 0;
    BPF_RAW_INSN (BPF_JMP .| BPF_CALL) 0 0 0 BPF_FUNC_map_lookup_elem;
    BPF_JMP_IMM BPF_JEQ BPF_REG_0 0 4; BPF_LDX_MEM BPF_W BPF_REG_1 BPF_REG_0 0;
    BPF_ALU64_IMM BPF_AND BPF_REG_1 31; BPF_ALU64_REG BPF_ADD BPF_REG_1 BPF_REG_0;
    BPF_LDX_MEM BPF_W BPF_REG_0 BPF_REG_1 0; BPF_EXIT_INSN];
  _fixup fixup_map_array_48b [3];
  _result ACCEPT;
  _retval 0xabcdef12;
  _flags F_NEEDS_EFFICIENT_UNALIGNED_ACCESS].

Definition value_ptr_arith_32 : bpf_test := TEST "map access: unknown scalar += value_ptr, 3" [
  _insns
   [BPF_ST_MEM BPF_DW BPF_REG_10 (-8) 0; BPF_MOV64_REG BPF_REG_2 BPF_REG_10;
    BPF_ALU64_IMM BPF_ADD BPF_REG_2 (-8); BPF_LD_MAP_FD BPF_REG_1 0;
    BPF_RAW_INSN (BPF_JMP .| BPF_CALL) 0 0 0 BPF_FUNC_map_lookup_elem;
    BPF_JMP_IMM BPF_JEQ BPF_REG_0 0 8; BPF_MOV64_IMM BPF_REG_1 (-1);
    BPF_ALU64_REG BPF_ADD BPF_REG_0 BPF_REG_1; BPF_MOV64_IMM BPF_REG_1 1;
    BPF_ALU64_REG BPF_ADD BPF_REG_0 BPF_REG_1; BPF_LDX_MEM BPF_W BPF_REG_1 BPF_REG_0 0;
    BPF_ALU64_IMM BPF_AND BPF_REG_1 31; BPF_ALU64_REG BPF_ADD BPF_REG_1 BPF_REG_0;
    BPF_LDX_MEM BPF_W BPF_REG_0 BPF_REG_1 0; BPF_EXIT_INSN];
  _fixup fixup_map_array_48b [3];
  _result ACCEPT;
  _result_unpriv REJECT;
  _errstr_unpriv "R0 pointer arithmetic of map value goes out of range";
  _retval 0xabcdef12;
  _flags F_NEEDS_EFFICIENT_UNALIGNED_ACCESS].

Definition value_ptr_arith_33 : bpf_test := TEST "map access: unknown scalar += value_ptr, 4" [
  _insns
   [BPF_ST_MEM BPF_DW BPF_REG_10 (-8) 0; BPF_MOV64_REG BPF_REG_2 BPF_REG_10;
    BPF_ALU64_IMM BPF_ADD BPF_REG_2 (-8); BPF_LD_MAP_FD BPF_REG_1 0;
    BPF_RAW_INSN (BPF_JMP .| BPF_CALL) 0 0 0 BPF_FUNC_map_lookup_elem;
    BPF_JMP_IMM BPF_JEQ BPF_REG_0 0 6; BPF_MOV64_IMM BPF_REG_1 19;
    BPF_ALU64_REG BPF_ADD BPF_REG_0 BPF_REG_1; BPF_LDX_MEM BPF_W BPF_REG_1 BPF_REG_0 0;
    BPF_ALU64_IMM BPF_AND BPF_REG_1 31; BPF_ALU64_REG BPF_ADD BPF_REG_1 BPF_REG_0;
    BPF_LDX_MEM BPF_W BPF_REG_0 BPF_REG_1 0; BPF_EXIT_INSN];
  _fixup fixup_map_array_48b [3];
  _result REJECT;
  _errstr "R1 max value is outside of the allowed memory range";
  _errstr_unpriv "R1 pointer arithmetic of map value goes out of range";
  _flags F_NEEDS_EFFICIENT_UNALIGNED_ACCESS].

Definition value_ptr_arith_34 : bpf_test := TEST "map access: value_ptr += unknown scalar, 1" [
  _insns
   [BPF_ST_MEM BPF_DW BPF_REG_10 (-8) 0; BPF_MOV64_REG BPF_REG_2 BPF_REG_10;
    BPF_ALU64_IMM BPF_ADD BPF_REG_2 (-8); BPF_LD_MAP_FD BPF_REG_1 0;
    BPF_RAW_INSN (BPF_JMP .| BPF_CALL) 0 0 0 BPF_FUNC_map_lookup_elem;
    BPF_JMP_IMM BPF_JEQ BPF_REG_0 0 4; BPF_LDX_MEM BPF_B BPF_REG_1 BPF_REG_0 0;
    BPF_ALU64_IMM BPF_AND BPF_REG_1 0xf; BPF_ALU64_REG BPF_ADD BPF_REG_0 BPF_REG_1;
    BPF_LDX_MEM BPF_B BPF_REG_1 BPF_REG_0 0; BPF_MOV64_IMM BPF_REG_0 1; BPF_EXIT_INSN];
  _fixup fixup_map_array_48b [3];
  _result ACCEPT;
  _retval 1].

Definition value_ptr_arith_35 : bpf_test := TEST "map access: value_ptr += unknown scalar, 2" [
  _insns
   [BPF_ST_MEM BPF_DW BPF_REG_10 (-8) 0; BPF_MOV64_REG BPF_REG_2 BPF_REG_10;
    BPF_ALU64_IMM BPF_ADD BPF_REG_2 (-8); BPF_LD_MAP_FD BPF_REG_1 0;
    BPF_RAW_INSN (BPF_JMP .| BPF_CALL) 0 0 0 BPF_FUNC_map_lookup_elem;
    BPF_JMP_IMM BPF_JEQ BPF_REG_0 0 4; BPF_LDX_MEM BPF_W BPF_REG_1 BPF_REG_0 0;
    BPF_ALU64_IMM BPF_AND BPF_REG_1 31; BPF_ALU64_REG BPF_ADD BPF_REG_0 BPF_REG_1;
    BPF_LDX_MEM BPF_W BPF_REG_0 BPF_REG_0 0; BPF_EXIT_INSN];
  _fixup fixup_map_array_48b [3];
  _result ACCEPT;
  _retval 0xabcdef12;
  _flags F_NEEDS_EFFICIENT_UNALIGNED_ACCESS].

Definition value_ptr_arith_36 : bpf_test := TEST "map access: value_ptr += unknown scalar, 3" [
  _insns
   [BPF_ST_MEM BPF_DW BPF_REG_10 (-8) 0; BPF_MOV64_REG BPF_REG_2 BPF_REG_10;
    BPF_ALU64_IMM BPF_ADD BPF_REG_2 (-8); BPF_LD_MAP_FD BPF_REG_1 0;
    BPF_RAW_INSN (BPF_JMP .| BPF_CALL) 0 0 0 BPF_FUNC_map_lookup_elem;
    BPF_JMP_IMM BPF_JEQ BPF_REG_0 0 11; BPF_LDX_MEM BPF_DW BPF_REG_1 BPF_REG_0 0;
    BPF_LDX_MEM BPF_DW BPF_REG_2 BPF_REG_0 8; BPF_LDX_MEM BPF_DW BPF_REG_3 BPF_REG_0 16;
    BPF_ALU64_IMM BPF_AND BPF_REG_1 0xf; BPF_ALU64_IMM BPF_AND BPF_REG_3 1;
    BPF_ALU64_IMM BPF_OR BPF_REG_3 1; BPF_JMP_REG BPF_JGT BPF_REG_2 BPF_REG_3 4;
    BPF_ALU64_REG BPF_ADD BPF_REG_0 BPF_REG_3; BPF_LDX_MEM BPF_B BPF_REG_0 BPF_REG_0 0;
    BPF_MOV64_IMM BPF_REG_0 1; BPF_EXIT_INSN; BPF_MOV64_IMM BPF_REG_0 2;
    BPF_JMP_IMM BPF_JA 0 0 (-3)];
  _fixup fixup_map_array_48b [3];
  _result ACCEPT;
  _retval 1].

Definition value_ptr_arith_37 : bpf_test := TEST "map access: value_ptr += value_ptr" [
  _insns
   [BPF_ST_MEM BPF_DW BPF_REG_10 (-8) 0; BPF_MOV64_REG BPF_REG_2 BPF_REG_10;
    BPF_ALU64_IMM BPF_ADD BPF_REG_2 (-8); BPF_LD_MAP_FD BPF_REG_1 0;
    BPF_RAW_INSN (BPF_JMP .| BPF_CALL) 0 0 0 BPF_FUNC_map_lookup_elem;
    BPF_JMP_IMM BPF_JEQ BPF_REG_0 0 2; BPF_ALU64_REG BPF_ADD BPF_REG_0 BPF_REG_0;
    BPF_LDX_MEM BPF_B BPF_REG_1 BPF_REG_0 0; BPF_MOV64_IMM BPF_REG_0 1; BPF_EXIT_INSN];
  _fixup fixup_map_array_48b [3];
  _result REJECT;
  _errstr "R0 pointer += pointer prohibited"].

Definition value_ptr_arith_38 : bpf_test := TEST "map access: known scalar -= value_ptr" [
  _insns
   [BPF_ST_MEM BPF_DW BPF_REG_10 (-8) 0; BPF_MOV64_REG BPF_REG_2 BPF_REG_10;
    BPF_ALU64_IMM BPF_ADD BPF_REG_2 (-8); BPF_LD_MAP_FD BPF_REG_1 0;
    BPF_RAW_INSN (BPF_JMP .| BPF_CALL) 0 0 0 BPF_FUNC_map_lookup_elem;
    BPF_JMP_IMM BPF_JEQ BPF_REG_0 0 3; BPF_MOV64_IMM BPF_REG_1 4;
    BPF_ALU64_REG BPF_SUB BPF_REG_1 BPF_REG_0; BPF_LDX_MEM BPF_B BPF_REG_0 BPF_REG_1 0;
    BPF_MOV64_IMM BPF_REG_0 1; BPF_EXIT_INSN];
  _fixup fixup_map_array_48b [3];
  _result REJECT;
  _errstr "R1 tried to subtract pointer from scalar"].

Definition value_ptr_arith_39 : bpf_test := TEST "map access: value_ptr -= known scalar" [
  _insns
   [BPF_ST_MEM BPF_DW BPF_REG_10 (-8) 0; BPF_MOV64_REG BPF_REG_2 BPF_REG_10;
    BPF_ALU64_IMM BPF_ADD BPF_REG_2 (-8); BPF_LD_MAP_FD BPF_REG_1 0;
    BPF_RAW_INSN (BPF_JMP .| BPF_CALL) 0 0 0 BPF_FUNC_map_lookup_elem;
    BPF_JMP_IMM BPF_JEQ BPF_REG_0 0 3; BPF_MOV64_IMM BPF_REG_1 4;
    BPF_ALU64_REG BPF_SUB BPF_REG_0 BPF_REG_1; BPF_LDX_MEM BPF_B BPF_REG_1 BPF_REG_0 0;
    BPF_MOV64_IMM BPF_REG_0 1; BPF_EXIT_INSN];
  _fixup fixup_map_array_48b [3];
  _result REJECT;
  _errstr "R0 min value is outside of the allowed memory range"].

Definition value_ptr_arith_40 : bpf_test := TEST "map access: value_ptr -= known scalar, 2" [
  _insns
   [BPF_ST_MEM BPF_DW BPF_REG_10 (-8) 0; BPF_MOV64_REG BPF_REG_2 BPF_REG_10;
    BPF_ALU64_IMM BPF_ADD BPF_REG_2 (-8); BPF_LD_MAP_FD BPF_REG_1 0;
    BPF_RAW_INSN (BPF_JMP .| BPF_CALL) 0 0 0 BPF_FUNC_map_lookup_elem;
    BPF_JMP_IMM BPF_JEQ BPF_REG_0 0 5; BPF_MOV64_IMM BPF_REG_1 6; BPF_MOV64_IMM BPF_REG_2 4;
    BPF_ALU64_REG BPF_ADD BPF_REG_0 BPF_REG_1; BPF_ALU64_REG BPF_SUB BPF_REG_0 BPF_REG_2;
    BPF_LDX_MEM BPF_B BPF_REG_1 BPF_REG_0 0; BPF_MOV64_IMM BPF_REG_0 1; BPF_EXIT_INSN];
  _fixup fixup_map_array_48b [3];
  _result ACCEPT;
  _retval 1].

Definition value_ptr_arith_41 : bpf_test := TEST "map access: unknown scalar -= value_ptr" [
  _insns
   [BPF_ST_MEM BPF_DW BPF_REG_10 (-8) 0; BPF_MOV64_REG BPF_REG_2 BPF_REG_10;
    BPF_ALU64_IMM BPF_ADD BPF_REG_2 (-8); BPF_LD_MAP_FD BPF_REG_1 0;
    BPF_RAW_INSN (BPF_JMP .| BPF_CALL) 0 0 0 BPF_FUNC_map_lookup_elem;
    BPF_JMP_IMM BPF_JEQ BPF_REG_0 0 4; BPF_LDX_MEM BPF_B BPF_REG_1 BPF_REG_0 0;
    BPF_ALU64_IMM BPF_AND BPF_REG_1 0xf; BPF_ALU64_REG BPF_SUB BPF_REG_1 BPF_REG_0;
    BPF_LDX_MEM BPF_B BPF_REG_0 BPF_REG_1 0; BPF_MOV64_IMM BPF_REG_0 1; BPF_EXIT_INSN];
  _fixup fixup_map_array_48b [3];
  _result REJECT;
  _errstr "R1 tried to subtract pointer from scalar"].

Definition value_ptr_arith_42 : bpf_test := TEST "map access: value_ptr -= unknown scalar" [
  _insns
   [BPF_ST_MEM BPF_DW BPF_REG_10 (-8) 0; BPF_MOV64_REG BPF_REG_2 BPF_REG_10;
    BPF_ALU64_IMM BPF_ADD BPF_REG_2 (-8); BPF_LD_MAP_FD BPF_REG_1 0;
    BPF_RAW_INSN (BPF_JMP .| BPF_CALL) 0 0 0 BPF_FUNC_map_lookup_elem;
    BPF_JMP_IMM BPF_JEQ BPF_REG_0 0 4; BPF_LDX_MEM BPF_B BPF_REG_1 BPF_REG_0 0;
    BPF_ALU64_IMM BPF_AND BPF_REG_1 0xf; BPF_ALU64_REG BPF_SUB BPF_REG_0 BPF_REG_1;
    BPF_LDX_MEM BPF_B BPF_REG_1 BPF_REG_0 0; BPF_MOV64_IMM BPF_REG_0 1; BPF_EXIT_INSN];
  _fixup fixup_map_array_48b [3];
  _result REJECT;
  _errstr "R0 min value is negative"].

Definition value_ptr_arith_43 : bpf_test := TEST "map access: value_ptr -= unknown scalar, 2" [
  _insns
   [BPF_ST_MEM BPF_DW BPF_REG_10 (-8) 0; BPF_MOV64_REG BPF_REG_2 BPF_REG_10;
    BPF_ALU64_IMM BPF_ADD BPF_REG_2 (-8); BPF_LD_MAP_FD BPF_REG_1 0;
    BPF_RAW_INSN (BPF_JMP .| BPF_CALL) 0 0 0 BPF_FUNC_map_lookup_elem;
    BPF_JMP_IMM BPF_JEQ BPF_REG_0 0 8; BPF_LDX_MEM BPF_B BPF_REG_1 BPF_REG_0 0;
    BPF_ALU64_IMM BPF_AND BPF_REG_1 0xf; BPF_ALU64_IMM BPF_OR BPF_REG_1 0x7;
    BPF_ALU64_REG BPF_ADD BPF_REG_0 BPF_REG_1; BPF_LDX_MEM BPF_B BPF_REG_1 BPF_REG_0 0;
    BPF_ALU64_IMM BPF_AND BPF_REG_1 0x7; BPF_ALU64_REG BPF_SUB BPF_REG_0 BPF_REG_1;
    BPF_LDX_MEM BPF_B BPF_REG_1 BPF_REG_0 0; BPF_MOV64_IMM BPF_REG_0 1; BPF_EXIT_INSN];
  _fixup fixup_map_array_48b [3];
  _result ACCEPT;
  _result_unpriv REJECT;
  _errstr_unpriv "R0 pointer arithmetic of map value goes out of range";
  _retval 1].

Definition value_ptr_arith_44 : bpf_test := TEST "map access: value_ptr -= value_ptr" [
  _insns
   [BPF_ST_MEM BPF_DW BPF_REG_10 (-8) 0; BPF_MOV64_REG BPF_REG_2 BPF_REG_10;
    BPF_ALU64_IMM BPF_ADD BPF_REG_2 (-8); BPF_LD_MAP_FD BPF_REG_1 0;
    BPF_RAW_INSN (BPF_JMP .| BPF_CALL) 0 0 0 BPF_FUNC_map_lookup_elem;
    BPF_JMP_IMM BPF_JEQ BPF_REG_0 0 2; BPF_ALU64_REG BPF_SUB BPF_REG_0 BPF_REG_0;
    BPF_LDX_MEM BPF_B BPF_REG_1 BPF_REG_0 0; BPF_MOV64_IMM BPF_REG_0 1; BPF_EXIT_INSN];
  _fixup fixup_map_array_48b [3];
  _result REJECT;
  _errstr "R0 invalid mem access 'inv'";
  _errstr_unpriv "R0 pointer -= pointer prohibited"].

Definition value_ptr_arith_45 : bpf_test := TEST "map access: trying to leak tained dst reg" [
  _insns
   [BPF_MOV64_IMM BPF_REG_0 0; BPF_ST_MEM BPF_DW BPF_REG_10 (-8) 0;
    BPF_MOV64_REG BPF_REG_2 BPF_REG_10; BPF_ALU64_IMM BPF_ADD BPF_REG_2 (-8);
    BPF_LD_MAP_FD BPF_REG_1 0;
    BPF_RAW_INSN (BPF_JMP .| BPF_CALL) 0 0 0 BPF_FUNC_map_lookup_elem;
    BPF_JMP_IMM BPF_JNE BPF_REG_0 0 1; BPF_EXIT_INSN; BPF_MOV64_REG BPF_REG_2 BPF_REG_0;
    BPF_MOV32_IMM BPF_REG_1 0xffffffff; BPF_MOV32_REG BPF_REG_1 BPF_REG_1;
    BPF_ALU64_REG BPF_SUB BPF_REG_2 BPF_REG_1; BPF_STX_MEM BPF_DW BPF_REG_0 BPF_REG_2 0;
    BPF_MOV64_IMM BPF_REG_0 0; BPF_EXIT_INSN];
  _fixup fixup_map_array_48b [4];
  _result REJECT;
  _errstr "math between map_value pointer and 4294967295 is not allowed"].

Definition value_ptr_arith_46 : bpf_test := TEST "32bit pkt_ptr -= scalar" [
  _insns
   [BPF_LDX_MEM BPF_W BPF_REG_8 BPF_REG_1 (offsetof __sk_buff "data_end");
    BPF_LDX_MEM BPF_W BPF_REG_7 BPF_REG_1 (offsetof __sk_buff "data");
    BPF_MOV64_REG BPF_REG_6 BPF_REG_7; BPF_ALU64_IMM BPF_ADD BPF_REG_6 40;
    BPF_JMP_REG BPF_JGT BPF_REG_6 BPF_REG_8 2; BPF_ALU32_REG BPF_MOV BPF_REG_4 BPF_REG_7;
    BPF_ALU32_REG BPF_SUB BPF_REG_6 BPF_REG_4; BPF_MOV64_IMM BPF_REG_0 0; BPF_EXIT_INSN];
  _prog_type BPF_PROG_TYPE_SCHED_CLS;
  _result ACCEPT;
  _flags F_NEEDS_EFFICIENT_UNALIGNED_ACCESS].

Definition value_ptr_arith_47 : bpf_test := TEST "32bit scalar -= pkt_ptr" [
  _insns
   [BPF_LDX_MEM BPF_W BPF_REG_8 BPF_REG_1 (offsetof __sk_buff "data_end");
    BPF_LDX_MEM BPF_W BPF_REG_7 BPF_REG_1 (offsetof __sk_buff "data");
    BPF_MOV64_REG BPF_REG_6 BPF_REG_7; BPF_ALU64_IMM BPF_ADD BPF_REG_6 40;
    BPF_JMP_REG BPF_JGT BPF_REG_6 BPF_REG_8 2; BPF_ALU32_REG BPF_MOV BPF_REG_4 BPF_REG_6;
    BPF_ALU32_REG BPF_SUB BPF_REG_4 BPF_REG_7; BPF_MOV64_IMM BPF_REG_0 0; BPF_EXIT_INSN];
  _prog_type BPF_PROG_TYPE_SCHED_CLS;
  _result ACCEPT;
  _flags F_NEEDS_EFFICIENT_UNALIGNED_ACCESS].

Definition value_ptr_arith_tests : list bpf_test := [value_ptr_arith_1; value_ptr_arith_2;
  value_ptr_arith_3; value_ptr_arith_4; value_ptr_arith_5; value_ptr_arith_6; value_ptr_arith_7;
  value_ptr_arith_8; value_ptr_arith_9; value_ptr_arith_10; value_ptr_arith_11; value_ptr_arith_12;
  value_ptr_arith_13; value_ptr_arith_14; value_ptr_arith_15; value_ptr_arith_16;
  value_ptr_arith_17; value_ptr_arith_18; value_ptr_arith_19; value_ptr_arith_20;
  value_ptr_arith_21; value_ptr_arith_22; value_ptr_arith_23; value_ptr_arith_24;
  value_ptr_arith_25; value_ptr_arith_26; value_ptr_arith_27; value_ptr_arith_28;
  value_ptr_arith_29; value_ptr_arith_30; value_ptr_arith_31; value_ptr_arith_32;
  value_ptr_arith_33; value_ptr_arith_34; value_ptr_arith_35; value_ptr_arith_36;
  value_ptr_arith_37; value_ptr_arith_38; value_ptr_arith_39; value_ptr_arith_40;
  value_ptr_arith_41; value_ptr_arith_42; value_ptr_arith_43; value_ptr_arith_44;
  value_ptr_arith_45; value_ptr_arith_46; value_ptr_arith_47].

End LegacyMap.
