(* ===== verification/LegacyBounds.v ===== *)
(** Verifier tests of the repository, bounds: ranges of scalars, variable offsets, state pruning.

    Each definition is one element of a file of [selftests/legacy/verifier],
    written with the macros of [BpfInsn] and the designators of [ConvertTests];
    a list per file gives them in the order of the file. *)

From S2P Require Import Prelude BpfInsn ConvertTests.
From Stdlib Require Import ZArith String.
From stdpp Require Import base strings list.
Import BpfInsn ConvertTests.
Open Scope Z_scope.

Module LegacyBounds.

(** * [basic_call.c] *)

Definition basic_call_1 : bpf_test := TEST "invalid call insn1" [
  _insns
   [BPF_RAW_INSN ((BPF_JMP .| BPF_CALL) .| BPF_X) 0 0 0 0; BPF_EXIT_INSN];
  _errstr "unknown opcode 8d";
  _result REJECT].

Definition basic_call_2 : bpf_test := TEST "invalid call insn2" [
  _insns
   [BPF_RAW_INSN (BPF_JMP .| BPF_CALL) 0 0 1 0; BPF_EXIT_INSN];
  _errstr "BPF_CALL uses reserved";
  _result REJECT].

Definition basic_call_3 : bpf_test := TEST "invalid function call" [
  _insns
   [BPF_RAW_INSN (BPF_JMP .| BPF_CALL) 0 0 0 1234567; BPF_EXIT_INSN];
  _errstr "invalid func unknown#1234567";
  _result REJECT].

Definition basic_call_4 : bpf_test := TEST "invalid argument register" [
  _insns
   [BPF_RAW_INSN (BPF_JMP .| BPF_CALL) 0 0 0 BPF_FUNC_get_cgroup_classid;
    BPF_RAW_INSN (BPF_JMP .| BPF_CALL) 0 0 0 BPF_FUNC_get_cgroup_classid; BPF_EXIT_INSN];
  _errstr "R1 !read_ok";
  _result REJECT;
  _prog_type BPF_PROG_TYPE_SCHED_CLS].

Definition basic_call_5 : bpf_test := TEST "non-invalid argument register" [
  _insns
   [BPF_ALU64_REG BPF_MOV BPF_REG_6 BPF_REG_1;
    BPF_RAW_INSN (BPF_JMP .| BPF_CALL) 0 0 0 BPF_FUNC_get_cgroup_classid;
    BPF_ALU64_REG BPF_MOV BPF_REG_1 BPF_REG_6;
    BPF_RAW_INSN (BPF_JMP .| BPF_CALL) 0 0 0 BPF_FUNC_get_cgroup_classid; BPF_EXIT_INSN];
  _result ACCEPT;
  _prog_type BPF_PROG_TYPE_SCHED_CLS].

Definition basic_call_tests : list bpf_test := [basic_call_1; basic_call_2; basic_call_3;
  basic_call_4; basic_call_5].

(** * [basic_instr.c] *)

Definition basic_instr_1 : bpf_test := TEST "add+sub+mul" [
  _insns
   [BPF_MOV64_IMM BPF_REG_1 1; BPF_ALU64_IMM BPF_ADD BPF_REG_1 2; BPF_MOV64_IMM BPF_REG_2 3;
    BPF_ALU64_REG BPF_SUB BPF_REG_1 BPF_REG_2; BPF_ALU64_IMM BPF_ADD BPF_REG_1 (-1);
    BPF_ALU64_IMM BPF_MUL BPF_REG_1 3; BPF_MOV64_REG BPF_REG_0 BPF_REG_1; BPF_EXIT_INSN];
  _result ACCEPT;
  _retval (-3)].

Definition basic_instr_2 : bpf_test := TEST "xor32 zero extend check" [
  _insns
   [BPF_MOV32_IMM BPF_REG_2 (-1); BPF_ALU64_IMM BPF_LSH BPF_REG_2 32;
    BPF_ALU64_IMM BPF_OR BPF_REG_2 0xffff; BPF_ALU32_REG BPF_XOR BPF_REG_2 BPF_REG_2;
    BPF_MOV32_IMM BPF_REG_0 2; BPF_JMP_IMM BPF_JNE BPF_REG_2 0 1; BPF_MOV32_IMM BPF_REG_0 1;
    BPF_EXIT_INSN];
  _prog_type BPF_PROG_TYPE_SCHED_CLS;
  _result ACCEPT;
  _retval 1].

Definition basic_instr_3 : bpf_test := TEST "arsh32 on imm" [
  _insns
   [BPF_MOV64_IMM BPF_REG_0 1; BPF_ALU32_IMM BPF_ARSH BPF_REG_0 5; BPF_EXIT_INSN];
  _result ACCEPT;
  _retval 0].

Definition basic_instr_4 : bpf_test := TEST "arsh32 on imm 2" [
  _insns
   [BPF_LD_IMM64 BPF_REG_0 0x1122334485667788; BPF_ALU32_IMM BPF_ARSH BPF_REG_0 7;
    BPF_EXIT_INSN];
  _result ACCEPT;
  _retval (-16069393)].

Definition basic_instr_5 : bpf_test := TEST "arsh32 on reg" [
  _insns
   [BPF_MOV64_IMM BPF_REG_0 1; BPF_MOV64_IMM BPF_REG_1 5;
    BPF_ALU32_REG BPF_ARSH BPF_REG_0 BPF_REG_1; BPF_EXIT_INSN];
  _result ACCEPT;
  _retval 0].

Definition basic_instr_6 : bpf_test := TEST "arsh32 on reg 2" [
  _insns
   [BPF_LD_IMM64 BPF_REG_0 0xffff55667788; BPF_MOV64_IMM BPF_REG_1 15;
    BPF_ALU32_REG BPF_ARSH BPF_REG_0 BPF_REG_1; BPF_EXIT_INSN];
  _result ACCEPT;
  _retval 43724].

Definition basic_instr_7 : bpf_test := TEST "arsh64 on imm" [
  _insns
   [BPF_MOV64_IMM BPF_REG_0 1; BPF_ALU64_IMM BPF_ARSH BPF_REG_0 5; BPF_EXIT_INSN];
  _result ACCEPT].

Definition basic_instr_8 : bpf_test := TEST "arsh64 on reg" [
  _insns
   [BPF_MOV64_IMM BPF_REG_0 1; BPF_MOV64_IMM BPF_REG_1 5;
    BPF_ALU64_REG BPF_ARSH BPF_REG_0 BPF_REG_1; BPF_EXIT_INSN];
  _result ACCEPT].

Definition basic_instr_9 : bpf_test := TEST "lsh64 by 0 imm" [
  _insns
   [BPF_LD_IMM64 BPF_REG_0 1; BPF_LD_IMM64 BPF_REG_1 1; BPF_ALU64_IMM BPF_LSH BPF_REG_1 0;
    BPF_JMP_IMM BPF_JEQ BPF_REG_1 1 1; BPF_MOV64_IMM BPF_REG_0 2; BPF_EXIT_INSN];
  _result ACCEPT;
  _retval 1].

Definition basic_instr_10 : bpf_test := TEST "rsh64 by 0 imm" [
  _insns
   [BPF_LD_IMM64 BPF_REG_0 1; BPF_LD_IMM64 BPF_REG_1 0x100000000;
    BPF_ALU64_REG BPF_MOV BPF_REG_2 BPF_REG_1; BPF_ALU64_IMM BPF_RSH BPF_REG_1 0;
    BPF_JMP_REG BPF_JEQ BPF_REG_1 BPF_REG_2 1; BPF_MOV64_IMM BPF_REG_0 2; BPF_EXIT_INSN];
  _result ACCEPT;
  _retval 1].

Definition basic_instr_11 : bpf_test := TEST "arsh64 by 0 imm" [
  _insns
   [BPF_LD_IMM64 BPF_REG_0 1; BPF_LD_IMM64 BPF_REG_1 0x100000000;
    BPF_ALU64_REG BPF_MOV BPF_REG_2 BPF_REG_1; BPF_ALU64_IMM BPF_ARSH BPF_REG_1 0;
    BPF_JMP_REG BPF_JEQ BPF_REG_1 BPF_REG_2 1; BPF_MOV64_IMM BPF_REG_0 2; BPF_EXIT_INSN];
  _result ACCEPT;
  _retval 1].

Definition basic_instr_12 : bpf_test := TEST "lsh64 by 0 reg" [
  _insns
   [BPF_LD_IMM64 BPF_REG_0 1; BPF_LD_IMM64 BPF_REG_1 1; BPF_LD_IMM64 BPF_REG_2 0;
    BPF_ALU64_REG BPF_LSH BPF_REG_1 BPF_REG_2; BPF_JMP_IMM BPF_JEQ BPF_REG_1 1 1;
    BPF_MOV64_IMM BPF_REG_0 2; BPF_EXIT_INSN];
  _result ACCEPT;
  _retval 1].

Definition basic_instr_13 : bpf_test := TEST "rsh64 by 0 reg" [
  _insns
   [BPF_LD_IMM64 BPF_REG_0 1; BPF_LD_IMM64 BPF_REG_1 0x100000000;
    BPF_ALU64_REG BPF_MOV BPF_REG_2 BPF_REG_1; BPF_LD_IMM64 BPF_REG_3 0;
    BPF_ALU64_REG BPF_RSH BPF_REG_1 BPF_REG_3; BPF_JMP_REG BPF_JEQ BPF_REG_1 BPF_REG_2 1;
    BPF_MOV64_IMM BPF_REG_0 2; BPF_EXIT_INSN];
  _result ACCEPT;
  _retval 1].

Definition basic_instr_14 : bpf_test := TEST "arsh64 by 0 reg" [
  _insns
   [BPF_LD_IMM64 BPF_REG_0 1; BPF_LD_IMM64 BPF_REG_1 0x100000000;
    BPF_ALU64_REG BPF_MOV BPF_REG_2 BPF_REG_1; BPF_LD_IMM64 BPF_REG_3 0;
    BPF_ALU64_REG BPF_ARSH BPF_REG_1 BPF_REG_3; BPF_JMP_REG BPF_JEQ BPF_REG_1 BPF_REG_2 1;
    BPF_MOV64_IMM BPF_REG_0 2; BPF_EXIT_INSN];
  _result ACCEPT;
  _retval 1].

Definition basic_instr_15 : bpf_test := TEST "invalid 64-bit BPF_END" [
  _insns
   [BPF_MOV32_IMM BPF_REG_0 0;
    BPF_RAW_INSN ((BPF_ALU64 .| BPF_END) .| BPF_TO_LE) BPF_REG_0 0 0 32; BPF_EXIT_INSN];
  _errstr "unknown opcode d7";
  _result REJECT].

Definition basic_instr_16 : bpf_test := TEST "mov64 src == dst" [
  _insns
   [BPF_MOV64_IMM BPF_REG_2 0; BPF_MOV64_REG BPF_REG_2 BPF_REG_2;
    BPF_ALU64_REG BPF_ADD BPF_REG_1 BPF_REG_2; BPF_MOV64_IMM BPF_REG_0 0; BPF_EXIT_INSN];
  _prog_type BPF_PROG_TYPE_SCHED_CLS;
  _result ACCEPT].

Definition basic_instr_17 : bpf_test := TEST "mov64 src != dst" [
  _insns
   [BPF_MOV64_IMM BPF_REG_3 0; BPF_MOV64_REG BPF_REG_2 BPF_REG_3;
    BPF_ALU64_REG BPF_ADD BPF_REG_1 BPF_REG_2; BPF_MOV64_IMM BPF_REG_0 0; BPF_EXIT_INSN];
  _prog_type BPF_PROG_TYPE_SCHED_CLS;
  _result ACCEPT].

Definition basic_instr_tests : list bpf_test := [basic_instr_1; basic_instr_2; basic_instr_3;
  basic_instr_4; basic_instr_5; basic_instr_6; basic_instr_7; basic_instr_8; basic_instr_9;
  basic_instr_10; basic_instr_11; basic_instr_12; basic_instr_13; basic_instr_14; basic_instr_15;
  basic_instr_16; basic_instr_17].

(** * [basic_stx_ldx.c] *)

Definition basic_stx_ldx_1 : bpf_test := TEST "invalid src register in STX" [
  _insns
   [BPF_STX_MEM BPF_B BPF_REG_10 (-1) (-1); BPF_EXIT_INSN];
  _errstr "R15 is invalid";
  _result REJECT].

Definition basic_stx_ldx_2 : bpf_test := TEST "invalid dst register in STX" [
  _insns
   [BPF_STX_MEM BPF_B 14 BPF_REG_10 (-1); BPF_EXIT_INSN];
  _errstr "R14 is invalid";
  _result REJECT].

Definition basic_stx_ldx_3 : bpf_test := TEST "invalid dst register in ST" [
  _insns
   [BPF_ST_MEM BPF_B 14 (-1) (-1); BPF_EXIT_INSN];
  _errstr "R14 is invalid";
  _result REJECT].

Definition basic_stx_ldx_4 : bpf_test := TEST "invalid src register in LDX" [
  _insns
   [BPF_LDX_MEM BPF_B BPF_REG_0 12 0; BPF_EXIT_INSN];
  _errstr "R12 is invalid";
  _result REJECT].

Definition basic_stx_ldx_5 : bpf_test := TEST "invalid dst register in LDX" [
  _insns
   [BPF_LDX_MEM BPF_B 11 BPF_REG_1 0; BPF_EXIT_INSN];
  _errstr "R11 is invalid";
  _result REJECT].

Definition basic_stx_ldx_tests : list bpf_test := [basic_stx_ldx_1; basic_stx_ldx_2;
  basic_stx_ldx_3; basic_stx_ldx_4; basic_stx_ldx_5].

(** * [bounds.c] *)

Definition bounds_1 : bpf_test := TEST "subtraction bounds (map value) variant 1" [
  _insns
   [BPF_ST_MEM BPF_DW BPF_REG_10 (-8) 0; BPF_MOV64_REG BPF_REG_2 BPF_REG_10;
    BPF_ALU64_IMM BPF_ADD BPF_REG_2 (-8); BPF_LD_MAP_FD BPF_REG_1 0;
    BPF_RAW_INSN (BPF_JMP .| BPF_CALL) 0 0 0 BPF_FUNC_map_lookup_elem;
    BPF_JMP_IMM BPF_JEQ BPF_REG_0 0 9; BPF_LDX_MEM BPF_B BPF_REG_1 BPF_REG_0 0;
    BPF_JMP_IMM BPF_JGT BPF_REG_1 0xff 7; BPF_LDX_MEM BPF_B BPF_REG_3 BPF_REG_0 1;
    BPF_JMP_IMM BPF_JGT BPF_REG_3 0xff 5; BPF_ALU64_REG BPF_SUB BPF_REG_1 BPF_REG_3;
    BPF_ALU64_IMM BPF_RSH BPF_REG_1 56; BPF_ALU64_REG BPF_ADD BPF_REG_0 BPF_REG_1;
    BPF_LDX_MEM BPF_B BPF_REG_0 BPF_REG_0 0; BPF_EXIT_INSN; BPF_MOV64_IMM BPF_REG_0 0;
    BPF_EXIT_INSN];
  _fixup fixup_map_hash_8b [3];
  _errstr "R0 max value is outside of the allowed memory range";
  _result REJECT].

Definition bounds_2 : bpf_test := TEST "subtraction bounds (map value) variant 2" [
  _insns
   [BPF_ST_MEM BPF_DW BPF_REG_10 (-8) 0; BPF_MOV64_REG BPF_REG_2 BPF_REG_10;
    BPF_ALU64_IMM BPF_ADD BPF_REG_2 (-8); BPF_LD_MAP_FD BPF_REG_1 0;
    BPF_RAW_INSN (BPF_JMP .| BPF_CALL) 0 0 0 BPF_FUNC_map_lookup_elem;
    BPF_JMP_IMM BPF_JEQ BPF_REG_0 0 8; BPF_LDX_MEM BPF_B BPF_REG_1 BPF_REG_0 0;
    BPF_JMP_IMM BPF_JGT BPF_REG_1 0xff 6; BPF_LDX_MEM BPF_B BPF_REG_3 BPF_REG_0 1;
    BPF_JMP_IMM BPF_JGT BPF_REG_3 0xff 4; BPF_ALU64_REG BPF_SUB BPF_REG_1 BPF_REG_3;
    BPF_ALU64_REG BPF_ADD BPF_REG_0 BPF_REG_1; BPF_LDX_MEM BPF_B BPF_REG_0 BPF_REG_0 0;
    BPF_EXIT_INSN; BPF_MOV64_IMM BPF_REG_0 0; BPF_EXIT_INSN];
  _fixup fixup_map_hash_8b [3];
  _errstr "R0 min value is negative, either use unsigned index or do a if (index >=0) check.";
  _errstr_unpriv "R1 has unknown scalar with mixed signed bounds";
  _result REJECT].

Definition bounds_3 : bpf_test := TEST "check subtraction on pointers for unpriv" [
  _insns
   [BPF_MOV64_IMM BPF_REG_0 0; BPF_LD_MAP_FD BPF_REG_ARG1 0;
    BPF_MOV64_REG BPF_REG_ARG2 BPF_REG_FP; BPF_ALU64_IMM BPF_ADD BPF_REG_ARG2 (-8);
    BPF_ST_MEM BPF_DW BPF_REG_ARG2 0 9;
    BPF_RAW_INSN (BPF_JMP .| BPF_CALL) 0 0 0 BPF_FUNC_map_lookup_elem;
    BPF_MOV64_REG BPF_REG_9 BPF_REG_FP; BPF_ALU64_REG BPF_SUB BPF_REG_9 BPF_REG_0;
    BPF_LD_MAP_FD BPF_REG_ARG1 0; BPF_MOV64_REG BPF_REG_ARG2 BPF_REG_FP;
    BPF_ALU64_IMM BPF_ADD BPF_REG_ARG2 (-8); BPF_ST_MEM BPF_DW BPF_REG_ARG2 0 0;
    BPF_RAW_INSN (BPF_JMP .| BPF_CALL) 0 0 0 BPF_FUNC_map_lookup_elem;
    BPF_JMP_IMM BPF_JNE BPF_REG_0 0 1; BPF_EXIT_INSN; BPF_STX_MEM BPF_DW BPF_REG_0 BPF_REG_9 0;
    BPF_MOV64_IMM BPF_REG_0 0; BPF_EXIT_INSN];
  _fixup fixup_map_hash_8b [1; 9];
  _result ACCEPT;
  _result_unpriv REJECT;
  _errstr_unpriv "R9 pointer -= pointer prohibited"].

Definition bounds_4 : bpf_test := TEST "bounds check based on zero-extended MOV" [
  _insns
   [BPF_ST_MEM BPF_DW BPF_REG_10 (-8) 0; BPF_MOV64_REG BPF_REG_2 BPF_REG_10;
    BPF_ALU64_IMM BPF_ADD BPF_REG_2 (-8); BPF_LD_MAP_FD BPF_REG_1 0;
    BPF_RAW_INSN (BPF_JMP .| BPF_CALL) 0 0 0 BPF_FUNC_map_lookup_elem;
    BPF_JMP_IMM BPF_JEQ BPF_REG_0 0 4; BPF_MOV32_IMM BPF_REG_2 0xffffffff;
    BPF_ALU64_IMM BPF_RSH BPF_REG_2 32; BPF_ALU64_REG BPF_ADD BPF_REG_0 BPF_REG_2;
    BPF_LDX_MEM BPF_B BPF_REG_0 BPF_REG_0 0; BPF_MOV64_IMM BPF_REG_0 0; BPF_EXIT_INSN];
  _fixup fixup_map_hash_8b [3];
  _result ACCEPT].

Definition bounds_5 : bpf_test := TEST "bounds check based on sign-extended MOV. test1" [
  _insns
   [BPF_ST_MEM BPF_DW BPF_REG_10 (-8) 0; BPF_MOV64_REG BPF_REG_2 BPF_REG_10;
    BPF_ALU64_IMM BPF_ADD BPF_REG_2 (-8); BPF_LD_MAP_FD BPF_REG_1 0;
    BPF_RAW_INSN (BPF_JMP .| BPF_CALL) 0 0 0 BPF_FUNC_map_lookup_elem;
    BPF_JMP_IMM BPF_JEQ BPF_REG_0 0 4; BPF_MOV64_IMM BPF_REG_2 0xffffffff;
    BPF_ALU64_IMM BPF_RSH BPF_REG_2 32; BPF_ALU64_REG BPF_ADD BPF_REG_0 BPF_REG_2;
    BPF_LDX_MEM BPF_B BPF_REG_0 BPF_REG_0 0; BPF_MOV64_IMM BPF_REG_0 0; BPF_EXIT_INSN];
  _fixup fixup_map_hash_8b [3];
  _errstr "map_value pointer and 4294967295";
  _result REJECT].

Definition bounds_6 : bpf_test := TEST "bounds check based on sign-extended MOV. test2" [
  _insns
   [BPF_ST_MEM BPF_DW BPF_REG_10 (-8) 0; BPF_MOV64_REG BPF_REG_2 BPF_REG_10;
    BPF_ALU64_IMM BPF_ADD BPF_REG_2 (-8); BPF_LD_MAP_FD BPF_REG_1 0;
    BPF_RAW_INSN (BPF_JMP .| BPF_CALL) 0 0 0 BPF_FUNC_map_lookup_elem;
    BPF_JMP_IMM BPF_JEQ BPF_REG_0 0 4; BPF_MOV64_IMM BPF_REG_2 0xffffffff;
    BPF_ALU64_IMM BPF_RSH BPF_REG_2 36; BPF_ALU64_REG BPF_ADD BPF_REG_0 BPF_REG_2;
    BPF_LDX_MEM BPF_B BPF_REG_0 BPF_REG_0 0; BPF_MOV64_IMM BPF_REG_0 0; BPF_EXIT_INSN];
  _fixup fixup_map_hash_8b [3];
  _errstr "R0 min value is outside of the allowed memory range";
  _result REJECT].

Definition bounds_7 : bpf_test := TEST "bounds check based on reg_off + var_off + insn_off. test1" [
  _insns
   [BPF_LDX_MEM BPF_W BPF_REG_6 BPF_REG_1 (offsetof __sk_buff "mark");
    BPF_ST_MEM BPF_DW BPF_REG_10 (-8) 0; BPF_MOV64_REG BPF_REG_2 BPF_REG_10;
    BPF_ALU64_IMM BPF_ADD BPF_REG_2 (-8); BPF_LD_MAP_FD BPF_REG_1 0;
    BPF_RAW_INSN (BPF_JMP .| BPF_CALL) 0 0 0 BPF_FUNC_map_lookup_elem;
    BPF_JMP_IMM BPF_JEQ BPF_REG_0 0 4; BPF_ALU64_IMM BPF_AND BPF_REG_6 1;
    BPF_ALU64_IMM BPF_ADD BPF_REG_6 ((Z.shiftl 1 29) - 1);
    BPF_ALU64_REG BPF_ADD BPF_REG_0 BPF_REG_6;
    BPF_ALU64_IMM BPF_ADD BPF_REG_0 ((Z.shiftl 1 29) - 1);
    BPF_LDX_MEM BPF_B BPF_REG_0 BPF_REG_0 3; BPF_MOV64_IMM BPF_REG_0 0; BPF_EXIT_INSN];
  _fixup fixup_map_hash_8b [4];
  _errstr "value_size=8 off=1073741825";
  _result REJECT;
  _prog_type BPF_PROG_TYPE_SCHED_CLS].

Definition bounds_8 : bpf_test := TEST "bounds check based on reg_off + var_off + insn_off. test2" [
  _insns
   [BPF_LDX_MEM BPF_W BPF_REG_6 BPF_REG_1 (offsetof __sk_buff "mark");
    BPF_ST_MEM BPF_DW BPF_REG_10 (-8) 0; BPF_MOV64_REG BPF_REG_2 BPF_REG_10;
    BPF_ALU64_IMM BPF_ADD BPF_REG_2 (-8); BPF_LD_MAP_FD BPF_REG_1 0;
    BPF_RAW_INSN (BPF_JMP .| BPF_CALL) 0 0 0 BPF_FUNC_map_lookup_elem;
    BPF_JMP_IMM BPF_JEQ BPF_REG_0 0 4; BPF_ALU64_IMM BPF_AND BPF_REG_6 1;
    BPF_ALU64_IMM BPF_ADD BPF_REG_6 ((Z.shiftl 1 30) - 1);
    BPF_ALU64_REG BPF_ADD BPF_REG_0 BPF_REG_6;
    BPF_ALU64_IMM BPF_ADD BPF_REG_0 ((Z.shiftl 1 29) - 1);
    BPF_LDX_MEM BPF_B BPF_REG_0 BPF_REG_0 3; BPF_MOV64_IMM BPF_REG_0 0; BPF_EXIT_INSN];
  _fixup fixup_map_hash_8b [4];
  _errstr "value 1073741823";
  _result REJECT;
  _prog_type BPF_PROG_TYPE_SCHED_CLS].

Definition bounds_9 : bpf_test := TEST "bounds check after truncation of non-boundary-crossing range" [
  _insns
   [BPF_ST_MEM BPF_DW BPF_REG_10 (-8) 0; BPF_MOV64_REG BPF_REG_2 BPF_REG_10;
    BPF_ALU64_IMM BPF_ADD BPF_REG_2 (-8); BPF_LD_MAP_FD BPF_REG_1 0;
    BPF_RAW_INSN (BPF_JMP .| BPF_CALL) 0 0 0 BPF_FUNC_map_lookup_elem;
    BPF_JMP_IMM BPF_JEQ BPF_REG_0 0 9; BPF_LDX_MEM BPF_B BPF_REG_1 BPF_REG_0 0;
    BPF_MOV64_IMM BPF_REG_2 1; BPF_ALU64_IMM BPF_LSH BPF_REG_2 36;
    BPF_ALU64_REG BPF_ADD BPF_REG_1 BPF_REG_2; BPF_ALU64_IMM BPF_ADD BPF_REG_1 0x7fffffff;
    BPF_ALU32_IMM BPF_SUB BPF_REG_1 0x7fffffff; BPF_ALU64_IMM BPF_RSH BPF_REG_1 8;
    BPF_ALU64_REG BPF_ADD BPF_REG_0 BPF_REG_1; BPF_LDX_MEM BPF_B BPF_REG_0 BPF_REG_0 0;
    BPF_MOV64_IMM BPF_REG_0 0; BPF_EXIT_INSN];
  _fixup fixup_map_hash_8b [3];
  _result ACCEPT].

Definition bounds_10 : bpf_test := TEST "bounds check after truncation of boundary-crossing range (1)" [
  _insns
   [BPF_ST_MEM BPF_DW BPF_REG_10 (-8) 0; BPF_MOV64_REG BPF_REG_2 BPF_REG_10;
    BPF_ALU64_IMM BPF_ADD BPF_REG_2 (-8); BPF_LD_MAP_FD BPF_REG_1 0;
    BPF_RAW_INSN (BPF_JMP .| BPF_CALL) 0 0 0 BPF_FUNC_map_lookup_elem;
    BPF_JMP_IMM BPF_JEQ BPF_REG_0 0 8; BPF_LDX_MEM BPF_B BPF_REG_1 BPF_REG_0 0;
    BPF_ALU64_IMM BPF_ADD BPF_REG_1 (Z.shiftr 0xffffff80 1);
    BPF_ALU64_IMM BPF_ADD BPF_REG_1 (Z.shiftr 0xffffff80 1); BPF_ALU32_IMM BPF_ADD BPF_REG_1 0;
    BPF_ALU64_IMM BPF_SUB BPF_REG_1 (Z.shiftr 0xffffff80 1);
    BPF_ALU64_IMM BPF_SUB BPF_REG_1 (Z.shiftr 0xffffff80 1);
    BPF_ALU64_REG BPF_ADD BPF_REG_0 BPF_REG_1; BPF_MOV64_IMM BPF_REG_0 0; BPF_EXIT_INSN];
  _fixup fixup_map_hash_8b [3];
  _errstr "value -4294967168 makes map_value pointer be out of bounds";
  _result REJECT].

Definition bounds_11 : bpf_test := TEST "bounds check after truncation of boundary-crossing range (2)" [
  _insns
   [BPF_ST_MEM BPF_DW BPF_REG_10 (-8) 0; BPF_MOV64_REG BPF_REG_2 BPF_REG_10;
    BPF_ALU64_IMM BPF_ADD BPF_REG_2 (-8); BPF_LD_MAP_FD BPF_REG_1 0;
    BPF_RAW_INSN (BPF_JMP .| BPF_CALL) 0 0 0 BPF_FUNC_map_lookup_elem;
    BPF_JMP_IMM BPF_JEQ BPF_REG_0 0 8; BPF_LDX_MEM BPF_B BPF_REG_1 BPF_REG_0 0;
    BPF_ALU64_IMM BPF_ADD BPF_REG_1 (Z.shiftr 0xffffff80 1);
    BPF_ALU64_IMM BPF_ADD BPF_REG_1 (Z.shiftr 0xffffff80 1); BPF_MOV32_REG BPF_REG_1 BPF_REG_1;
    BPF_ALU64_IMM BPF_SUB BPF_REG_1 (Z.shiftr 0xffffff80 1);
    BPF_ALU64_IMM BPF_SUB BPF_REG_1 (Z.shiftr 0xffffff80 1);
    BPF_ALU64_REG BPF_ADD BPF_REG_0 BPF_REG_1; BPF_MOV64_IMM BPF_REG_0 0; BPF_EXIT_INSN];
  _fixup fixup_map_hash_8b [3];
  _errstr "value -4294967168 makes map_value pointer be out of bounds";
  _result REJECT].

Definition bounds_12 : bpf_test := TEST "bounds check after wrapping 32-bit addition" [
  _insns
   [BPF_ST_MEM BPF_DW BPF_REG_10 (-8) 0; BPF_MOV64_REG BPF_REG_2 BPF_REG_10;
    BPF_ALU64_IMM BPF_ADD BPF_REG_2 (-8); BPF_LD_MAP_FD BPF_REG_1 0;
    BPF_RAW_INSN (BPF_JMP .| BPF_CALL) 0 0 0 BPF_FUNC_map_lookup_elem;
    BPF_JMP_IMM BPF_JEQ BPF_REG_0 0 5; BPF_MOV64_IMM BPF_REG_1 0x7fffffff;
    BPF_ALU64_IMM BPF_ADD BPF_REG_1 0x7fffffff; BPF_ALU32_IMM BPF_ADD BPF_REG_1 2;
    BPF_ALU64_REG BPF_ADD BPF_REG_0 BPF_REG_1; BPF_LDX_MEM BPF_B BPF_REG_0 BPF_REG_0 0;
    BPF_MOV64_IMM BPF_REG_0 0; BPF_EXIT_INSN];
  _fixup fixup_map_hash_8b [3];
  _result ACCEPT].

Definition bounds_13 : bpf_test := TEST "bounds check after shift with oversized count operand" [
  _insns
   [BPF_ST_MEM BPF_DW BPF_REG_10 (-8) 0; BPF_MOV64_REG BPF_REG_2 BPF_REG_10;
    BPF_ALU64_IMM BPF_ADD BPF_REG_2 (-8); BPF_LD_MAP_FD BPF_REG_1 0;
    BPF_RAW_INSN (BPF_JMP .| BPF_CALL) 0 0 0 BPF_FUNC_map_lookup_elem;
    BPF_JMP_IMM BPF_JEQ BPF_REG_0 0 6; BPF_MOV64_IMM BPF_REG_2 32; BPF_MOV64_IMM BPF_REG_1 1;
    BPF_ALU32_REG BPF_LSH BPF_REG_1 BPF_REG_2; BPF_ALU64_IMM BPF_AND BPF_REG_1 0xffff;
    BPF_ALU64_REG BPF_ADD BPF_REG_0 BPF_REG_1; BPF_LDX_MEM BPF_B BPF_REG_0 BPF_REG_0 0;
    BPF_MOV64_IMM BPF_REG_0 0; BPF_EXIT_INSN];
  _fixup fixup_map_hash_8b [3];
  _errstr "R0 max value is outside of the allowed memory range";
  _result REJECT].

Definition bounds_14 : bpf_test := TEST "bounds check after right shift of maybe-negative number" [
  _insns
   [BPF_ST_MEM BPF_DW BPF_REG_10 (-8) 0; BPF_MOV64_REG BPF_REG_2 BPF_REG_10;
    BPF_ALU64_IMM BPF_ADD BPF_REG_2 (-8); BPF_LD_MAP_FD BPF_REG_1 0;
    BPF_RAW_INSN (BPF_JMP .| BPF_CALL) 0 0 0 BPF_FUNC_map_lookup_elem;
    BPF_JMP_IMM BPF_JEQ BPF_REG_0 0 6; BPF_LDX_MEM BPF_B BPF_REG_1 BPF_REG_0 0;
    BPF_ALU64_IMM BPF_SUB BPF_REG_1 1; BPF_ALU64_IMM BPF_RSH BPF_REG_1 8;
    BPF_ALU64_IMM BPF_RSH BPF_REG_1 8; BPF_ALU64_REG BPF_ADD BPF_REG_0 BPF_REG_1;
    BPF_LDX_MEM BPF_B BPF_REG_0 BPF_REG_0 0; BPF_MOV64_IMM BPF_REG_0 0; BPF_EXIT_INSN];
  _fixup fixup_map_hash_8b [3];
  _errstr "R0 unbounded memory access";
  _result REJECT].

Definition bounds_15 : bpf_test := TEST "bounds check after 32-bit right shift with 64-bit input" [
  _insns
   [BPF_ST_MEM BPF_DW BPF_REG_10 (-8) 0; BPF_MOV64_REG BPF_REG_2 BPF_REG_10;
    BPF_ALU64_IMM BPF_ADD BPF_REG_2 (-8); BPF_LD_MAP_FD BPF_REG_1 0;
    BPF_RAW_INSN (BPF_JMP .| BPF_CALL) 0 0 0 BPF_FUNC_map_lookup_elem;
    BPF_JMP_IMM BPF_JEQ BPF_REG_0 0 6; BPF_MOV64_IMM BPF_REG_1 2;
    BPF_ALU64_IMM BPF_LSH BPF_REG_1 31; BPF_ALU32_IMM BPF_RSH BPF_REG_1 31;
    BPF_ALU32_IMM BPF_SUB BPF_REG_1 2; BPF_ALU64_REG BPF_ADD BPF_REG_0 BPF_REG_1;
    BPF_MOV64_IMM BPF_REG_0 0; BPF_EXIT_INSN];
  _fixup fixup_map_hash_8b [3];
  _errstr "math between map_value pointer and 4294967294 is not allowed";
  _result REJECT].

Definition bounds_16 : bpf_test := TEST "bounds check map access with off+size signed 32bit overflow. test1" [
  _insns
   [BPF_ST_MEM BPF_DW BPF_REG_10 (-8) 0; BPF_MOV64_REG BPF_REG_2 BPF_REG_10;
    BPF_ALU64_IMM BPF_ADD BPF_REG_2 (-8); BPF_LD_MAP_FD BPF_REG_1 0;
    BPF_RAW_INSN (BPF_JMP .| BPF_CALL) 0 0 0 BPF_FUNC_map_lookup_elem;
    BPF_JMP_IMM BPF_JNE BPF_REG_0 0 1; BPF_EXIT_INSN;
    BPF_ALU64_IMM BPF_ADD BPF_REG_0 0x7ffffffe; BPF_LDX_MEM BPF_DW BPF_REG_0 BPF_REG_0 0;
    BPF_JMP_A 0; BPF_EXIT_INSN];
  _fixup fixup_map_hash_8b [3];
  _errstr "map_value pointer and 2147483646";
  _result REJECT].

Definition bounds_17 : bpf_test := TEST "bounds check map access with off+size signed 32bit overflow. test2" [
  _insns
   [BPF_ST_MEM BPF_DW BPF_REG_10 (-8) 0; BPF_MOV64_REG BPF_REG_2 BPF_REG_10;
    BPF_ALU64_IMM BPF_ADD BPF_REG_2 (-8); BPF_LD_MAP_FD BPF_REG_1 0;
    BPF_RAW_INSN (BPF_JMP .| BPF_CALL) 0 0 0 BPF_FUNC_map_lookup_elem;
    BPF_JMP_IMM BPF_JNE BPF_REG_0 0 1; BPF_EXIT_INSN;
    BPF_ALU64_IMM BPF_ADD BPF_REG_0 0x1fffffff; BPF_ALU64_IMM BPF_ADD BPF_REG_0 0x1fffffff;
    BPF_ALU64_IMM BPF_ADD BPF_REG_0 0x1fffffff; BPF_LDX_MEM BPF_DW BPF_REG_0 BPF_REG_0 0;
    BPF_JMP_A 0; BPF_EXIT_INSN];
  _fixup fixup_map_hash_8b [3];
  _errstr "pointer offset 1073741822";
  _errstr_unpriv "R0 pointer arithmetic of map value goes out of range";
  _result REJECT].

Definition bounds_18 : bpf_test := TEST "bounds check map access with off+size signed 32bit overflow. test3" [
  _insns
   [BPF_ST_MEM BPF_DW BPF_REG_10 (-8) 0; BPF_MOV64_REG BPF_REG_2 BPF_REG_10;
    BPF_ALU64_IMM BPF_ADD BPF_REG_2 (-8); BPF_LD_MAP_FD BPF_REG_1 0;
    BPF_RAW_INSN (BPF_JMP .| BPF_CALL) 0 0 0 BPF_FUNC_map_lookup_elem;
    BPF_JMP_IMM BPF_JNE BPF_REG_0 0 1; BPF_EXIT_INSN;
    BPF_ALU64_IMM BPF_SUB BPF_REG_0 0x1fffffff; BPF_ALU64_IMM BPF_SUB BPF_REG_0 0x1fffffff;
    BPF_LDX_MEM BPF_DW BPF_REG_0 BPF_REG_0 2; BPF_JMP_A 0; BPF_EXIT_INSN];
  _fixup fixup_map_hash_8b [3];
  _errstr "pointer offset -1073741822";
  _errstr_unpriv "R0 pointer arithmetic of map value goes out of range";
  _result REJECT].

Definition bounds_19 : bpf_test := TEST "bounds check map access with off+size signed 32bit overflow. test4" [
  _insns
   [BPF_ST_MEM BPF_DW BPF_REG_10 (-8) 0; BPF_MOV64_REG BPF_REG_2 BPF_REG_10;
    BPF_ALU64_IMM BPF_ADD BPF_REG_2 (-8); BPF_LD_MAP_FD BPF_REG_1 0;
    BPF_RAW_INSN (BPF_JMP .| BPF_CALL) 0 0 0 BPF_FUNC_map_lookup_elem;
    BPF_JMP_IMM BPF_JNE BPF_REG_0 0 1; BPF_EXIT_INSN; BPF_MOV64_IMM BPF_REG_1 1000000;
    BPF_ALU64_IMM BPF_MUL BPF_REG_1 1000000; BPF_ALU64_REG BPF_ADD BPF_REG_0 BPF_REG_1;
    BPF_LDX_MEM BPF_DW BPF_REG_0 BPF_REG_0 2; BPF_JMP_A 0; BPF_EXIT_INSN];
  _fixup fixup_map_hash_8b [3];
  _errstr "map_value pointer and 1000000000000";
  _result REJECT].

Definition bounds_20 : bpf_test := TEST "bounds check mixed 32bit and 64bit arithmetic. test1" [
  _insns
   [BPF_MOV64_IMM BPF_REG_0 0; BPF_MOV64_IMM BPF_REG_1 (-1); BPF_ALU64_IMM BPF_LSH BPF_REG_1 32;
    BPF_ALU64_IMM BPF_ADD BPF_REG_1 1; BPF_JMP32_IMM BPF_JGT BPF_REG_1 1 3;
    BPF_ALU64_IMM BPF_ADD BPF_REG_1 1; BPF_JMP32_IMM BPF_JGT BPF_REG_1 2 1; BPF_JMP_A 1;
    BPF_LDX_MEM BPF_DW BPF_REG_0 BPF_REG_0 (-1); BPF_EXIT_INSN];
  _errstr_unpriv "R0 invalid mem access 'inv'";
  _result_unpriv REJECT;
  _result ACCEPT].

Definition bounds_21 : bpf_test := TEST "bounds check mixed 32bit and 64bit arithmetic. test2" [
  _insns
   [BPF_MOV64_IMM BPF_REG_0 0; BPF_MOV64_IMM BPF_REG_1 (-1); BPF_ALU64_IMM BPF_LSH BPF_REG_1 32;
    BPF_ALU64_IMM BPF_ADD BPF_REG_1 1; BPF_MOV64_IMM BPF_REG_2 3;
    BPF_ALU32_IMM BPF_ADD BPF_REG_1 1; BPF_JMP_REG BPF_JGT BPF_REG_1 BPF_REG_2 1; BPF_JMP_A 1;
    BPF_LDX_MEM BPF_DW BPF_REG_0 BPF_REG_0 (-1); BPF_EXIT_INSN];
  _errstr_unpriv "R0 invalid mem access 'inv'";
  _result_unpriv REJECT;
  _result ACCEPT].

Definition bounds_22 : bpf_test := TEST "assigning 32bit bounds to 64bit for wA = 0, wB = wA" [
  _insns
   [BPF_LDX_MEM BPF_W BPF_REG_8 BPF_REG_1 (offsetof __sk_buff "data_end");
    BPF_LDX_MEM BPF_W BPF_REG_7 BPF_REG_1 (offsetof __sk_buff "data");
    BPF_MOV32_IMM BPF_REG_9 0; BPF_MOV32_REG BPF_REG_2 BPF_REG_9;
    BPF_MOV64_REG BPF_REG_6 BPF_REG_7; BPF_ALU64_REG BPF_ADD BPF_REG_6 BPF_REG_2;
    BPF_MOV64_REG BPF_REG_3 BPF_REG_6; BPF_ALU64_IMM BPF_ADD BPF_REG_3 8;
    BPF_JMP_REG BPF_JGT BPF_REG_3 BPF_REG_8 1; BPF_LDX_MEM BPF_W BPF_REG_5 BPF_REG_6 0;
    BPF_MOV64_IMM BPF_REG_0 0; BPF_EXIT_INSN];
  _prog_type BPF_PROG_TYPE_SCHED_CLS;
  _result ACCEPT;
  _flags F_NEEDS_EFFICIENT_UNALIGNED_ACCESS].

Definition bounds_23 : bpf_test := TEST "bounds check for reg = 0, reg xor 1" [
  _insns
   [BPF_ST_MEM BPF_DW BPF_REG_10 (-8) 0; BPF_MOV64_REG BPF_REG_2 BPF_REG_10;
    BPF_ALU64_IMM BPF_ADD BPF_REG_2 (-8); BPF_LD_MAP_FD BPF_REG_1 0;
    BPF_RAW_INSN (BPF_JMP .| BPF_CALL) 0 0 0 BPF_FUNC_map_lookup_elem;
    BPF_JMP_IMM BPF_JNE BPF_REG_0 0 1; BPF_EXIT_INSN; BPF_MOV64_IMM BPF_REG_1 0;
    BPF_ALU64_IMM BPF_XOR BPF_REG_1 1; BPF_JMP_IMM BPF_JNE BPF_REG_1 0 1;
    BPF_LDX_MEM BPF_DW BPF_REG_0 BPF_REG_0 8; BPF_MOV64_IMM BPF_REG_0 0; BPF_EXIT_INSN];
  _errstr_unpriv "R0 min value is outside of the allowed memory range";
  _result_unpriv REJECT;
  _fixup fixup_map_hash_8b [3];
  _result ACCEPT].

Definition bounds_24 : bpf_test := TEST "bounds check for reg32 = 0, reg32 xor 1" [
  _insns
   [BPF_ST_MEM BPF_DW BPF_REG_10 (-8) 0; BPF_MOV64_REG BPF_REG_2 BPF_REG_10;
    BPF_ALU64_IMM BPF_ADD BPF_REG_2 (-8); BPF_LD_MAP_FD BPF_REG_1 0;
    BPF_RAW_INSN (BPF_JMP .| BPF_CALL) 0 0 0 BPF_FUNC_map_lookup_elem;
    BPF_JMP_IMM BPF_JNE BPF_REG_0 0 1; BPF_EXIT_INSN; BPF_MOV32_IMM BPF_REG_1 0;
    BPF_ALU32_IMM BPF_XOR BPF_REG_1 1; BPF_JMP32_IMM BPF_JNE BPF_REG_1 0 1;
    BPF_LDX_MEM BPF_DW BPF_REG_0 BPF_REG_0 8; BPF_MOV64_IMM BPF_REG_0 0; BPF_EXIT_INSN];
  _errstr_unpriv "R0 min value is outside of the allowed memory range";
  _result_unpriv REJECT;
  _fixup fixup_map_hash_8b [3];
  _result ACCEPT].

Definition bounds_25 : bpf_test := TEST "bounds check for reg = 2, reg xor 3" [
  _insns
   [BPF_ST_MEM BPF_DW BPF_REG_10 (-8) 0; BPF_MOV64_REG BPF_REG_2 BPF_REG_10;
    BPF_ALU64_IMM BPF_ADD BPF_REG_2 (-8); BPF_LD_MAP_FD BPF_REG_1 0;
    BPF_RAW_INSN (BPF_JMP .| BPF_CALL) 0 0 0 BPF_FUNC_map_lookup_elem;
    BPF_JMP_IMM BPF_JNE BPF_REG_0 0 1; BPF_EXIT_INSN; BPF_MOV64_IMM BPF_REG_1 2;
    BPF_ALU64_IMM BPF_XOR BPF_REG_1 3; BPF_JMP_IMM BPF_JGT BPF_REG_1 0 1;
    BPF_LDX_MEM BPF_DW BPF_REG_0 BPF_REG_0 8; BPF_MOV64_IMM BPF_REG_0 0; BPF_EXIT_INSN];
  _errstr_unpriv "R0 min value is outside of the allowed memory range";
  _result_unpriv REJECT;
  _fixup fixup_map_hash_8b [3];
  _result ACCEPT].

Definition bounds_26 : bpf_test := TEST "bounds check for reg = any, reg xor 3" [
  _insns
   [BPF_ST_MEM BPF_DW BPF_REG_10 (-8) 0; BPF_MOV64_REG BPF_REG_2 BPF_REG_10;
    BPF_ALU64_IMM BPF_ADD BPF_REG_2 (-8); BPF_LD_MAP_FD BPF_REG_1 0;
    BPF_RAW_INSN (BPF_JMP .| BPF_CALL) 0 0 0 BPF_FUNC_map_lookup_elem;
    BPF_JMP_IMM BPF_JNE BPF_REG_0 0 1; BPF_EXIT_INSN; BPF_LDX_MEM BPF_DW BPF_REG_1 BPF_REG_0 0;
    BPF_ALU64_IMM BPF_XOR BPF_REG_1 3; BPF_JMP_IMM BPF_JNE BPF_REG_1 0 1;
    BPF_LDX_MEM BPF_DW BPF_REG_0 BPF_REG_0 8; BPF_MOV64_IMM BPF_REG_0 0; BPF_EXIT_INSN];
  _fixup fixup_map_hash_8b [3];
  _result REJECT;
  _errstr "invalid access to map value";
  _errstr_unpriv "invalid access to map value"].

Definition bounds_27 : bpf_test := TEST "bounds check for reg32 = any, reg32 xor 3" [
  _insns
   [BPF_ST_MEM BPF_DW BPF_REG_10 (-8) 0; BPF_MOV64_REG BPF_REG_2 BPF_REG_10;
    BPF_ALU64_IMM BPF_ADD BPF_REG_2 (-8); BPF_LD_MAP_FD BPF_REG_1 0;
    BPF_RAW_INSN (BPF_JMP .| BPF_CALL) 0 0 0 BPF_FUNC_map_lookup_elem;
    BPF_JMP_IMM BPF_JNE BPF_REG_0 0 1; BPF_EXIT_INSN; BPF_LDX_MEM BPF_DW BPF_REG_1 BPF_REG_0 0;
    BPF_ALU32_IMM BPF_XOR BPF_REG_1 3; BPF_JMP32_IMM BPF_JNE BPF_REG_1 0 1;
    BPF_LDX_MEM BPF_DW BPF_REG_0 BPF_REG_0 8; BPF_MOV64_IMM BPF_REG_0 0; BPF_EXIT_INSN];
  _fixup fixup_map_hash_8b [3];
  _result REJECT;
  _errstr "invalid access to map value";
  _errstr_unpriv "invalid access to map value"].

Definition bounds_28 : bpf_test := TEST "bounds check for reg > 0, reg xor 3" [
  _insns
   [BPF_ST_MEM BPF_DW BPF_REG_10 (-8) 0; BPF_MOV64_REG BPF_REG_2 BPF_REG_10;
    BPF_ALU64_IMM BPF_ADD BPF_REG_2 (-8); BPF_LD_MAP_FD BPF_REG_1 0;
    BPF_RAW_INSN (BPF_JMP .| BPF_CALL) 0 0 0 BPF_FUNC_map_lookup_elem;
    BPF_JMP_IMM BPF_JNE BPF_REG_0 0 1; BPF_EXIT_INSN; BPF_LDX_MEM BPF_DW BPF_REG_1 BPF_REG_0 0;
    BPF_JMP_IMM BPF_JLE BPF_REG_1 0 3; BPF_ALU64_IMM BPF_XOR BPF_REG_1 3;
    BPF_JMP_IMM BPF_JGE BPF_REG_1 0 1; BPF_LDX_MEM BPF_DW BPF_REG_0 BPF_REG_0 8;
    BPF_MOV64_IMM BPF_REG_0 0; BPF_EXIT_INSN];
  _errstr_unpriv "R0 min value is outside of the allowed memory range";
  _result_unpriv REJECT;
  _fixup fixup_map_hash_8b [3];
  _result ACCEPT].

Definition bounds_29 : bpf_test := TEST "bounds check for reg32 > 0, reg32 xor 3" [
  _insns
   [BPF_ST_MEM BPF_DW BPF_REG_10 (-8) 0; BPF_MOV64_REG BPF_REG_2 BPF_REG_10;
    BPF_ALU64_IMM BPF_ADD BPF_REG_2 (-8); BPF_LD_MAP_FD BPF_REG_1 0;
    BPF_RAW_INSN (BPF_JMP .| BPF_CALL) 0 0 0 BPF_FUNC_map_lookup_elem;
    BPF_JMP_IMM BPF_JNE BPF_REG_0 0 1; BPF_EXIT_INSN; BPF_LDX_MEM BPF_DW BPF_REG_1 BPF_REG_0 0;
    BPF_JMP32_IMM BPF_JLE BPF_REG_1 0 3; BPF_ALU32_IMM BPF_XOR BPF_REG_1 3;
    BPF_JMP32_IMM BPF_JGE BPF_REG_1 0 1; BPF_LDX_MEM BPF_DW BPF_REG_0 BPF_REG_0 8;
    BPF_MOV64_IMM BPF_REG_0 0; BPF_EXIT_INSN];
  _errstr_unpriv "R0 min value is outside of the allowed memory range";
  _result_unpriv REJECT;
  _fixup fixup_map_hash_8b [3];
  _result ACCEPT].

Definition bounds_30 : bpf_test := TEST "bounds checks after 32-bit truncation. test 1" [
  _insns
   [BPF_ST_MEM BPF_DW BPF_REG_10 (-8) 0; BPF_MOV64_REG BPF_REG_2 BPF_REG_10;
    BPF_ALU64_IMM BPF_ADD BPF_REG_2 (-8); BPF_LD_MAP_FD BPF_REG_1 0;
    BPF_RAW_INSN (BPF_JMP .| BPF_CALL) 0 0 0 BPF_FUNC_map_lookup_elem;
    BPF_JMP_IMM BPF_JEQ BPF_REG_0 0 4; BPF_LDX_MEM BPF_W BPF_REG_1 BPF_REG_0 0;
    BPF_JMP_IMM BPF_JEQ BPF_REG_1 0 1; BPF_JMP_IMM BPF_JGT BPF_REG_1 0x7fffffff 1;
    BPF_MOV64_IMM BPF_REG_0 0; BPF_EXIT_INSN];
  _fixup fixup_map_hash_8b [3];
  _errstr_unpriv "R0 leaks addr";
  _result_unpriv REJECT;
  _result ACCEPT].

Definition bounds_31 : bpf_test := TEST "bounds checks after 32-bit truncation. test 2" [
  _insns
   [BPF_ST_MEM BPF_DW BPF_REG_10 (-8) 0; BPF_MOV64_REG BPF_REG_2 BPF_REG_10;
    BPF_ALU64_IMM BPF_ADD BPF_REG_2 (-8); BPF_LD_MAP_FD BPF_REG_1 0;
    BPF_RAW_INSN (BPF_JMP .| BPF_CALL) 0 0 0 BPF_FUNC_map_lookup_elem;
    BPF_JMP_IMM BPF_JEQ BPF_REG_0 0 4; BPF_LDX_MEM BPF_W BPF_REG_1 BPF_REG_0 0;
    BPF_JMP_IMM BPF_JSLT BPF_REG_1 1 1; BPF_JMP32_IMM BPF_JSLT BPF_REG_1 0 1;
    BPF_MOV64_IMM BPF_REG_0 0; BPF_EXIT_INSN];
  _fixup fixup_map_hash_8b [3];
  _errstr_unpriv "R0 leaks addr";
  _result_unpriv REJECT;
  _result ACCEPT].

Definition bounds_tests : list bpf_test := [bounds_1; bounds_2; bounds_3; bounds_4; bounds_5;
  bounds_6; bounds_7; bounds_8; bounds_9; bounds_10; bounds_11; bounds_12; bounds_13; bounds_14;
  bounds_15; bounds_16; bounds_17; bounds_18; bounds_19; bounds_20; bounds_21; bounds_22; bounds_23;
  bounds_24; bounds_25; bounds_26; bounds_27; bounds_28; bounds_29; bounds_30; bounds_31].

(** * [bounds_mix_sign_unsign.c] *)

Definition bounds_mix_sign_unsign_1 : bpf_test := TEST "bounds checks mixing signed and unsigned, positive bounds" [
  _insns
   [BPF_EMIT_CALL BPF_FUNC_ktime_get_ns; BPF_STX_MEM BPF_DW BPF_REG_10 BPF_REG_0 (-16);
    BPF_ST_MEM BPF_DW BPF_REG_10 (-8) 0; BPF_MOV64_REG BPF_REG_2 BPF_REG_10;
    BPF_ALU64_IMM BPF_ADD BPF_REG_2 (-8); BPF_LD_MAP_FD BPF_REG_1 0;
    BPF_RAW_INSN (BPF_JMP .| BPF_CALL) 0 0 0 BPF_FUNC_map_lookup_elem;
    BPF_JMP_IMM BPF_JEQ BPF_REG_0 0 6; BPF_LDX_MEM BPF_DW BPF_REG_1 BPF_REG_10 (-16);
    BPF_MOV64_IMM BPF_REG_2 2; BPF_JMP_REG BPF_JGE BPF_REG_2 BPF_REG_1 3;
    BPF_JMP_IMM BPF_JSGT BPF_REG_1 4 2; BPF_ALU64_REG BPF_ADD BPF_REG_0 BPF_REG_1;
    BPF_ST_MEM BPF_B BPF_REG_0 0 0; BPF_MOV64_IMM BPF_REG_0 0; BPF_EXIT_INSN];
  _fixup fixup_map_hash_8b [5];
  _errstr "unbounded min value";
  _result REJECT].

Definition bounds_mix_sign_unsign_2 : bpf_test := TEST "bounds checks mixing signed and unsigned" [
  _insns
   [BPF_EMIT_CALL BPF_FUNC_ktime_get_ns; BPF_STX_MEM BPF_DW BPF_REG_10 BPF_REG_0 (-16);
    BPF_ST_MEM BPF_DW BPF_REG_10 (-8) 0; BPF_MOV64_REG BPF_REG_2 BPF_REG_10;
    BPF_ALU64_IMM BPF_ADD BPF_REG_2 (-8); BPF_LD_MAP_FD BPF_REG_1 0;
    BPF_RAW_INSN (BPF_JMP .| BPF_CALL) 0 0 0 BPF_FUNC_map_lookup_elem;
    BPF_JMP_IMM BPF_JEQ BPF_REG_0 0 6; BPF_LDX_MEM BPF_DW BPF_REG_1 BPF_REG_10 (-16);
    BPF_MOV64_IMM BPF_REG_2 (-1); BPF_JMP_REG BPF_JGT BPF_REG_1 BPF_REG_2 3;
    BPF_JMP_IMM BPF_JSGT BPF_REG_1 1 2; BPF_ALU64_REG BPF_ADD BPF_REG_0 BPF_REG_1;
    BPF_ST_MEM BPF_B BPF_REG_0 0 0; BPF_MOV64_IMM BPF_REG_0 0; BPF_EXIT_INSN];
  _fixup fixup_map_hash_8b [5];
  _errstr "unbounded min value";
  _result REJECT].

Definition bounds_mix_sign_unsign_3 : bpf_test := TEST "bounds checks mixing signed and unsigned, variant 2" [
  _insns
   [BPF_EMIT_CALL BPF_FUNC_ktime_get_ns; BPF_STX_MEM BPF_DW BPF_REG_10 BPF_REG_0 (-16);
    BPF_ST_MEM BPF_DW BPF_REG_10 (-8) 0; BPF_MOV64_REG BPF_REG_2 BPF_REG_10;
    BPF_ALU64_IMM BPF_ADD BPF_REG_2 (-8); BPF_LD_MAP_FD BPF_REG_1 0;
    BPF_RAW_INSN (BPF_JMP .| BPF_CALL) 0 0 0 BPF_FUNC_map_lookup_elem;
    BPF_JMP_IMM BPF_JEQ BPF_REG_0 0 8; BPF_LDX_MEM BPF_DW BPF_REG_1 BPF_REG_10 (-16);
    BPF_MOV64_IMM BPF_REG_2 (-1); BPF_JMP_REG BPF_JGT BPF_REG_1 BPF_REG_2 5;
    BPF_MOV64_IMM BPF_REG_8 0; BPF_ALU64_REG BPF_ADD BPF_REG_8 BPF_REG_1;
    BPF_JMP_IMM BPF_JSGT BPF_REG_8 1 2; BPF_ALU64_REG BPF_ADD BPF_REG_0 BPF_REG_8;
    BPF_ST_MEM BPF_B BPF_REG_8 0 0; BPF_MOV64_IMM BPF_REG_0 0; BPF_EXIT_INSN];
  _fixup fixup_map_hash_8b [5];
  _errstr "unbounded min value";
  _result REJECT].

Definition bounds_mix_sign_unsign_4 : bpf_test := TEST "bounds checks mixing signed and unsigned, variant 3" [
  _insns
   [BPF_EMIT_CALL BPF_FUNC_ktime_get_ns; BPF_STX_MEM BPF_DW BPF_REG_10 BPF_REG_0 (-16);
    BPF_ST_MEM BPF_DW BPF_REG_10 (-8) 0; BPF_MOV64_REG BPF_REG_2 BPF_REG_10;
    BPF_ALU64_IMM BPF_ADD BPF_REG_2 (-8); BPF_LD_MAP_FD BPF_REG_1 0;
    BPF_RAW_INSN (BPF_JMP .| BPF_CALL) 0 0 0 BPF_FUNC_map_lookup_elem;
    BPF_JMP_IMM BPF_JEQ BPF_REG_0 0 7; BPF_LDX_MEM BPF_DW BPF_REG_1 BPF_REG_10 (-16);
    BPF_MOV64_IMM BPF_REG_2 (-1); BPF_JMP_REG BPF_JGT BPF_REG_1 BPF_REG_2 4;
    BPF_MOV64_REG BPF_REG_8 BPF_REG_1; BPF_JMP_IMM BPF_JSGT BPF_REG_8 1 2;
    BPF_ALU64_REG BPF_ADD BPF_REG_0 BPF_REG_8; BPF_ST_MEM BPF_B BPF_REG_8 0 0;
    BPF_MOV64_IMM BPF_REG_0 0; BPF_EXIT_INSN];
  _fixup fixup_map_hash_8b [5];
  _errstr "unbounded min value";
  _result REJECT].

Definition bounds_mix_sign_unsign_5 : bpf_test := TEST "bounds checks mixing signed and unsigned, variant 4" [
  _insns
   [BPF_EMIT_CALL BPF_FUNC_ktime_get_ns; BPF_STX_MEM BPF_DW BPF_REG_10 BPF_REG_0 (-16);
    BPF_ST_MEM BPF_DW BPF_REG_10 (-8) 0; BPF_MOV64_REG BPF_REG_2 BPF_REG_10;
    BPF_ALU64_IMM BPF_ADD BPF_REG_2 (-8); BPF_LD_MAP_FD BPF_REG_1 0;
    BPF_RAW_INSN (BPF_JMP .| BPF_CALL) 0 0 0 BPF_FUNC_map_lookup_elem;
    BPF_JMP_IMM BPF_JEQ BPF_REG_0 0 6; BPF_LDX_MEM BPF_DW BPF_REG_1 BPF_REG_10 (-16);
    BPF_MOV64_IMM BPF_REG_2 1; BPF_ALU64_REG BPF_AND BPF_REG_1 BPF_REG_2;
    BPF_JMP_IMM BPF_JSGT BPF_REG_1 1 2; BPF_ALU64_REG BPF_ADD BPF_REG_0 BPF_REG_1;
    BPF_ST_MEM BPF_B BPF_REG_0 0 0; BPF_MOV64_IMM BPF_REG_0 0; BPF_EXIT_INSN];
  _fixup fixup_map_hash_8b [5];
  _result ACCEPT].

Definition bounds_mix_sign_unsign_6 : bpf_test := TEST "bounds checks mixing signed and unsigned, variant 5" [
  _insns
   [BPF_EMIT_CALL BPF_FUNC_ktime_get_ns; BPF_STX_MEM BPF_DW BPF_REG_10 BPF_REG_0 (-16);
    BPF_ST_MEM BPF_DW BPF_REG_10 (-8) 0; BPF_MOV64_REG BPF_REG_2 BPF_REG_10;
    BPF_ALU64_IMM BPF_ADD BPF_REG_2 (-8); BPF_LD_MAP_FD BPF_REG_1 0;
    BPF_RAW_INSN (BPF_JMP .| BPF_CALL) 0 0 0 BPF_FUNC_map_lookup_elem;
    BPF_JMP_IMM BPF_JEQ BPF_REG_0 0 8; BPF_LDX_MEM BPF_DW BPF_REG_1 BPF_REG_10 (-16);
    BPF_MOV64_IMM BPF_REG_2 (-1); BPF_JMP_REG BPF_JGT BPF_REG_1 BPF_REG_2 5;
    BPF_JMP_IMM BPF_JSGT BPF_REG_1 1 4; BPF_ALU64_IMM BPF_ADD BPF_REG_0 4;
    BPF_ALU64_REG BPF_SUB BPF_REG_0 BPF_REG_1; BPF_ST_MEM BPF_B BPF_REG_0 0 0;
    BPF_MOV64_IMM BPF_REG_0 0; BPF_EXIT_INSN];
  _fixup fixup_map_hash_8b [5];
  _errstr "unbounded min value";
  _result REJECT].

Definition bounds_mix_sign_unsign_7 : bpf_test := TEST "bounds checks mixing signed and unsigned, variant 6" [
  _insns
   [BPF_MOV64_REG BPF_REG_9 BPF_REG_1; BPF_EMIT_CALL BPF_FUNC_ktime_get_ns;
    BPF_STX_MEM BPF_DW BPF_REG_10 BPF_REG_0 (-16); BPF_MOV64_REG BPF_REG_1 BPF_REG_9;
    BPF_MOV64_IMM BPF_REG_2 0; BPF_MOV64_REG BPF_REG_3 BPF_REG_10;
    BPF_ALU64_IMM BPF_ADD BPF_REG_3 (-512); BPF_LDX_MEM BPF_DW BPF_REG_4 BPF_REG_10 (-16);
    BPF_MOV64_IMM BPF_REG_6 (-1); BPF_JMP_REG BPF_JGT BPF_REG_4 BPF_REG_6 5;
    BPF_JMP_IMM BPF_JSGT BPF_REG_4 1 4; BPF_ALU64_IMM BPF_ADD BPF_REG_4 1;
    BPF_MOV64_IMM BPF_REG_5 0; BPF_ST_MEM BPF_H BPF_REG_10 (-512) 0;
    BPF_RAW_INSN (BPF_JMP .| BPF_CALL) 0 0 0 BPF_FUNC_skb_load_bytes; BPF_MOV64_IMM BPF_REG_0 0;
    BPF_EXIT_INSN];
  _errstr "R4 min value is negative, either use unsigned";
  _result REJECT].

Definition bounds_mix_sign_unsign_8 : bpf_test := TEST "bounds checks mixing signed and unsigned, variant 7" [
  _insns
   [BPF_EMIT_CALL BPF_FUNC_ktime_get_ns; BPF_STX_MEM BPF_DW BPF_REG_10 BPF_REG_0 (-16);
    BPF_ST_MEM BPF_DW BPF_REG_10 (-8) 0; BPF_MOV64_REG BPF_REG_2 BPF_REG_10;
    BPF_ALU64_IMM BPF_ADD BPF_REG_2 (-8); BPF_LD_MAP_FD BPF_REG_1 0;
    BPF_RAW_INSN (BPF_JMP .| BPF_CALL) 0 0 0 BPF_FUNC_map_lookup_elem;
    BPF_JMP_IMM BPF_JEQ BPF_REG_0 0 6; BPF_LDX_MEM BPF_DW BPF_REG_1 BPF_REG_10 (-16);
    BPF_MOV64_IMM BPF_REG_2 ((1024 * 1024) * 1024); BPF_JMP_REG BPF_JGT BPF_REG_1 BPF_REG_2 3;
    BPF_JMP_IMM BPF_JSGT BPF_REG_1 1 2; BPF_ALU64_REG BPF_ADD BPF_REG_0 BPF_REG_1;
    BPF_ST_MEM BPF_B BPF_REG_0 0 0; BPF_MOV64_IMM BPF_REG_0 0; BPF_EXIT_INSN];
  _fixup fixup_map_hash_8b [5];
  _result ACCEPT].

Definition bounds_mix_sign_unsign_9 : bpf_test := TEST "bounds checks mixing signed and unsigned, variant 8" [
  _insns
   [BPF_EMIT_CALL BPF_FUNC_ktime_get_ns; BPF_STX_MEM BPF_DW BPF_REG_10 BPF_REG_0 (-16);
    BPF_ST_MEM BPF_DW BPF_REG_10 (-8) 0; BPF_MOV64_REG BPF_REG_2 BPF_REG_10;
    BPF_ALU64_IMM BPF_ADD BPF_REG_2 (-8); BPF_LD_MAP_FD BPF_REG_1 0;
    BPF_RAW_INSN (BPF_JMP .| BPF_CALL) 0 0 0 BPF_FUNC_map_lookup_elem;
    BPF_JMP_IMM BPF_JEQ BPF_REG_0 0 8; BPF_LDX_MEM BPF_DW BPF_REG_1 BPF_REG_10 (-16);
    BPF_MOV64_IMM BPF_REG_2 (-1); BPF_JMP_REG BPF_JGT BPF_REG_2 BPF_REG_1 2;
    BPF_MOV64_IMM BPF_REG_0 0; BPF_EXIT_INSN; BPF_JMP_IMM BPF_JSGT BPF_REG_1 1 2;
    BPF_ALU64_REG BPF_ADD BPF_REG_0 BPF_REG_1; BPF_ST_MEM BPF_B BPF_REG_0 0 0;
    BPF_MOV64_IMM BPF_REG_0 0; BPF_EXIT_INSN];
  _fixup fixup_map_hash_8b [5];
  _errstr "unbounded min value";
  _result REJECT].

Definition bounds_mix_sign_unsign_10 : bpf_test := TEST "bounds checks mixing signed and unsigned, variant 9" [
  _insns
   [BPF_EMIT_CALL BPF_FUNC_ktime_get_ns; BPF_STX_MEM BPF_DW BPF_REG_10 BPF_REG_0 (-16);
    BPF_ST_MEM BPF_DW BPF_REG_10 (-8) 0; BPF_MOV64_REG BPF_REG_2 BPF_REG_10;
    BPF_ALU64_IMM BPF_ADD BPF_REG_2 (-8); BPF_LD_MAP_FD BPF_REG_1 0;
    BPF_RAW_INSN (BPF_JMP .| BPF_CALL) 0 0 0 BPF_FUNC_map_lookup_elem;
    BPF_JMP_IMM BPF_JEQ BPF_REG_0 0 9; BPF_LDX_MEM BPF_DW BPF_REG_1 BPF_REG_10 (-16);
    BPF_LD_IMM64 BPF_REG_2 (-9223372036854775808); BPF_JMP_REG BPF_JGT BPF_REG_2 BPF_REG_1 2;
    BPF_MOV64_IMM BPF_REG_0 0; BPF_EXIT_INSN; BPF_JMP_IMM BPF_JSGT BPF_REG_1 1 2;
    BPF_ALU64_REG BPF_ADD BPF_REG_0 BPF_REG_1; BPF_ST_MEM BPF_B BPF_REG_0 0 0;
    BPF_MOV64_IMM BPF_REG_0 0; BPF_EXIT_INSN];
  _fixup fixup_map_hash_8b [5];
  _result ACCEPT].

Definition bounds_mix_sign_unsign_11 : bpf_test := TEST "bounds checks mixing signed and unsigned, variant 10" [
  _insns
   [BPF_EMIT_CALL BPF_FUNC_ktime_get_ns; BPF_STX_MEM BPF_DW BPF_REG_10 BPF_REG_0 (-16);
    BPF_ST_MEM BPF_DW BPF_REG_10 (-8) 0; BPF_MOV64_REG BPF_REG_2 BPF_REG_10;
    BPF_ALU64_IMM BPF_ADD BPF_REG_2 (-8); BPF_LD_MAP_FD BPF_REG_1 0;
    BPF_RAW_INSN (BPF_JMP .| BPF_CALL) 0 0 0 BPF_FUNC_map_lookup_elem;
    BPF_JMP_IMM BPF_JEQ BPF_REG_0 0 8; BPF_LDX_MEM BPF_DW BPF_REG_1 BPF_REG_10 (-16);
    BPF_MOV64_IMM BPF_REG_2 0; BPF_JMP_REG BPF_JGT BPF_REG_2 BPF_REG_1 2;
    BPF_MOV64_IMM BPF_REG_0 0; BPF_EXIT_INSN; BPF_JMP_IMM BPF_JSGT BPF_REG_1 1 2;
    BPF_ALU64_REG BPF_ADD BPF_REG_0 BPF_REG_1; BPF_ST_MEM BPF_B BPF_REG_0 0 0;
    BPF_MOV64_IMM BPF_REG_0 0; BPF_EXIT_INSN];
  _fixup fixup_map_hash_8b [5];
  _errstr "unbounded min value";
  _result REJECT].

Definition bounds_mix_sign_unsign_12 : bpf_test := TEST "bounds checks mixing signed and unsigned, variant 11" [
  _insns
   [BPF_EMIT_CALL BPF_FUNC_ktime_get_ns; BPF_STX_MEM BPF_DW BPF_REG_10 BPF_REG_0 (-16);
    BPF_ST_MEM BPF_DW BPF_REG_10 (-8) 0; BPF_MOV64_REG BPF_REG_2 BPF_REG_10;
    BPF_ALU64_IMM BPF_ADD BPF_REG_2 (-8); BPF_LD_MAP_FD BPF_REG_1 0;
    BPF_RAW_INSN (BPF_JMP .| BPF_CALL) 0 0 0 BPF_FUNC_map_lookup_elem;
    BPF_JMP_IMM BPF_JEQ BPF_REG_0 0 8; BPF_LDX_MEM BPF_DW BPF_REG_1 BPF_REG_10 (-16);
    BPF_MOV64_IMM BPF_REG_2 (-1); BPF_JMP_REG BPF_JGE BPF_REG_2 BPF_REG_1 2;
    BPF_MOV64_IMM BPF_REG_0 0; BPF_EXIT_INSN; BPF_JMP_IMM BPF_JSGT BPF_REG_1 1 2;
    BPF_ALU64_REG BPF_ADD BPF_REG_0 BPF_REG_1; BPF_ST_MEM BPF_B BPF_REG_0 0 0;
    BPF_MOV64_IMM BPF_REG_0 0; BPF_EXIT_INSN];
  _fixup fixup_map_hash_8b [5];
  _errstr "unbounded min value";
  _result REJECT].

Definition bounds_mix_sign_unsign_13 : bpf_test := TEST "bounds checks mixing signed and unsigned, variant 12" [
  _insns
   [BPF_EMIT_CALL BPF_FUNC_ktime_get_ns; BPF_STX_MEM BPF_DW BPF_REG_10 BPF_REG_0 (-16);
    BPF_ST_MEM BPF_DW BPF_REG_10 (-8) 0; BPF_MOV64_REG BPF_REG_2 BPF_REG_10;
    BPF_ALU64_IMM BPF_ADD BPF_REG_2 (-8); BPF_LD_MAP_FD BPF_REG_1 0;
    BPF_RAW_INSN (BPF_JMP .| BPF_CALL) 0 0 0 BPF_FUNC_map_lookup_elem;
    BPF_JMP_IMM BPF_JEQ BPF_REG_0 0 8; BPF_LDX_MEM BPF_DW BPF_REG_1 BPF_REG_10 (-16);
    BPF_MOV64_IMM BPF_REG_2 (-6); BPF_JMP_REG BPF_JGE BPF_REG_2 BPF_REG_1 2;
    BPF_MOV64_IMM BPF_REG_0 0; BPF_EXIT_INSN; BPF_JMP_IMM BPF_JSGT BPF_REG_1 1 2;
    BPF_ALU64_REG BPF_ADD BPF_REG_0 BPF_REG_1; BPF_ST_MEM BPF_B BPF_REG_0 0 0;
    BPF_MOV64_IMM BPF_REG_0 0; BPF_EXIT_INSN];
  _fixup fixup_map_hash_8b [5];
  _errstr "unbounded min value";
  _result REJECT].

Definition bounds_mix_sign_unsign_14 : bpf_test := TEST "bounds checks mixing signed and unsigned, variant 13" [
  _insns
   [BPF_EMIT_CALL BPF_FUNC_ktime_get_ns; BPF_STX_MEM BPF_DW BPF_REG_10 BPF_REG_0 (-16);
    BPF_ST_MEM BPF_DW BPF_REG_10 (-8) 0; BPF_MOV64_REG BPF_REG_2 BPF_REG_10;
    BPF_ALU64_IMM BPF_ADD BPF_REG_2 (-8); BPF_LD_MAP_FD BPF_REG_1 0;
    BPF_RAW_INSN (BPF_JMP .| BPF_CALL) 0 0 0 BPF_FUNC_map_lookup_elem;
    BPF_JMP_IMM BPF_JEQ BPF_REG_0 0 5; BPF_LDX_MEM BPF_DW BPF_REG_1 BPF_REG_10 (-16);
    BPF_MOV64_IMM BPF_REG_2 2; BPF_JMP_REG BPF_JGE BPF_REG_2 BPF_REG_1 2;
    BPF_MOV64_IMM BPF_REG_7 1; BPF_JMP_IMM BPF_JSGT BPF_REG_7 0 2; BPF_MOV64_IMM BPF_REG_0 0;
    BPF_EXIT_INSN; BPF_ALU64_REG BPF_ADD BPF_REG_7 BPF_REG_1;
    BPF_JMP_IMM BPF_JSGT BPF_REG_7 4 2; BPF_ALU64_REG BPF_ADD BPF_REG_0 BPF_REG_7;
    BPF_ST_MEM BPF_B BPF_REG_0 0 0; BPF_MOV64_IMM BPF_REG_0 0; BPF_EXIT_INSN];
  _fixup fixup_map_hash_8b [5];
  _errstr "unbounded min value";
  _result REJECT].

Definition bounds_mix_sign_unsign_15 : bpf_test := TEST "bounds checks mixing signed and unsigned, variant 14" [
  _insns
   [BPF_LDX_MEM BPF_W BPF_REG_9 BPF_REG_1 (offsetof __sk_buff "mark");
    BPF_EMIT_CALL BPF_FUNC_ktime_get_ns; BPF_STX_MEM BPF_DW BPF_REG_10 BPF_REG_0 (-16);
    BPF_ST_MEM BPF_DW BPF_REG_10 (-8) 0; BPF_MOV64_REG BPF_REG_2 BPF_REG_10;
    BPF_ALU64_IMM BPF_ADD BPF_REG_2 (-8); BPF_LD_MAP_FD BPF_REG_1 0;
    BPF_RAW_INSN (BPF_JMP .| BPF_CALL) 0 0 0 BPF_FUNC_map_lookup_elem;
    BPF_JMP_IMM BPF_JEQ BPF_REG_0 0 7; BPF_LDX_MEM BPF_DW BPF_REG_1 BPF_REG_10 (-16);
    BPF_MOV64_IMM BPF_REG_2 (-1); BPF_MOV64_IMM BPF_REG_8 2; BPF_JMP_IMM BPF_JEQ BPF_REG_9 42 6;
    BPF_JMP_REG BPF_JSGT BPF_REG_8 BPF_REG_1 3; BPF_JMP_IMM BPF_JSGT BPF_REG_1 1 2;
    BPF_ALU64_REG BPF_ADD BPF_REG_0 BPF_REG_1; BPF_ST_MEM BPF_B BPF_REG_0 0 0;
    BPF_MOV64_IMM BPF_REG_0 0; BPF_EXIT_INSN; BPF_JMP_REG BPF_JGT BPF_REG_1 BPF_REG_2 (-3);
    BPF_JMP_IMM BPF_JA 0 0 (-7)];
  _fixup fixup_map_hash_8b [6];
  _errstr "unbounded min value";
  _result REJECT].

Definition bounds_mix_sign_unsign_16 : bpf_test := TEST "bounds checks mixing signed and unsigned, variant 15" [
  _insns
   [BPF_EMIT_CALL BPF_FUNC_ktime_get_ns; BPF_STX_MEM BPF_DW BPF_REG_10 BPF_REG_0 (-16);
    BPF_ST_MEM BPF_DW BPF_REG_10 (-8) 0; BPF_MOV64_REG BPF_REG_2 BPF_REG_10;
    BPF_ALU64_IMM BPF_ADD BPF_REG_2 (-8); BPF_LD_MAP_FD BPF_REG_1 0;
    BPF_RAW_INSN (BPF_JMP .| BPF_CALL) 0 0 0 BPF_FUNC_map_lookup_elem;
    BPF_JMP_IMM BPF_JEQ BPF_REG_0 0 3; BPF_LDX_MEM BPF_DW BPF_REG_1 BPF_REG_10 (-16);
    BPF_MOV64_IMM BPF_REG_2 (-6); BPF_JMP_REG BPF_JGE BPF_REG_2 BPF_REG_1 2;
    BPF_MOV64_IMM BPF_REG_0 0; BPF_EXIT_INSN; BPF_ALU64_REG BPF_ADD BPF_REG_0 BPF_REG_1;
    BPF_JMP_IMM BPF_JGT BPF_REG_0 1 2; BPF_MOV64_IMM BPF_REG_0 0; BPF_EXIT_INSN;
    BPF_ST_MEM BPF_B BPF_REG_0 0 0; BPF_MOV64_IMM BPF_REG_0 0; BPF_EXIT_INSN];
  _fixup fixup_map_hash_8b [5];
  _errstr "unbounded min value";
  _result REJECT].

Definition bounds_mix_sign_unsign_tests : list bpf_test := [bounds_mix_sign_unsign_1;
  bounds_mix_sign_unsign_2; bounds_mix_sign_unsign_3; bounds_mix_sign_unsign_4;
  bounds_mix_sign_unsign_5; bounds_mix_sign_unsign_6; bounds_mix_sign_unsign_7;
  bounds_mix_sign_unsign_8; bounds_mix_sign_unsign_9; bounds_mix_sign_unsign_10;
  bounds_mix_sign_unsign_11; bounds_mix_sign_unsign_12; bounds_mix_sign_unsign_13;
  bounds_mix_sign_unsign_14; bounds_mix_sign_unsign_15; bounds_mix_sign_unsign_16].

(** * [direct_stack_access_wraparound.c] *)

Definition direct_stack_access_wraparound_1 : bpf_test := TEST "direct stack access with 32-bit wraparound. test1" [
  _insns
   [BPF_MOV64_REG BPF_REG_1 BPF_REG_10; BPF_ALU64_IMM BPF_ADD BPF_REG_1 0x7fffffff;
    BPF_ALU64_IMM BPF_ADD BPF_REG_1 0x7fffffff; BPF_MOV32_IMM BPF_REG_0 0;
    BPF_STX_MEM BPF_B BPF_REG_1 BPF_REG_0 0; BPF_EXIT_INSN];
  _errstr "fp pointer and 2147483647";
  _result REJECT].

Definition direct_stack_access_wraparound_2 : bpf_test := TEST "direct stack access with 32-bit wraparound. test2" [
  _insns
   [BPF_MOV64_REG BPF_REG_1 BPF_REG_10; BPF_ALU64_IMM BPF_ADD BPF_REG_1 0x3fffffff;
    BPF_ALU64_IMM BPF_ADD BPF_REG_1 0x3fffffff; BPF_MOV32_IMM BPF_REG_0 0;
    BPF_STX_MEM BPF_B BPF_REG_1 BPF_REG_0 0; BPF_EXIT_INSN];
  _errstr "fp pointer and 1073741823";
  _result REJECT].

Definition direct_stack_access_wraparound_3 : bpf_test := TEST "direct stack access with 32-bit wraparound. test3" [
  _insns
   [BPF_MOV64_REG BPF_REG_1 BPF_REG_10; BPF_ALU64_IMM BPF_ADD BPF_REG_1 0x1fffffff;
    BPF_ALU64_IMM BPF_ADD BPF_REG_1 0x1fffffff; BPF_MOV32_IMM BPF_REG_0 0;
    BPF_STX_MEM BPF_B BPF_REG_1 BPF_REG_0 0; BPF_EXIT_INSN];
  _errstr "fp pointer offset 1073741822";
  _errstr_unpriv "R1 stack pointer arithmetic goes out of range";
  _result REJECT].

Definition direct_stack_access_wraparound_tests : list bpf_test :=
  [direct_stack_access_wraparound_1; direct_stack_access_wraparound_2;
  direct_stack_access_wraparound_3].

(** * [int_ptr.c] *)

Definition int_ptr_1 : bpf_test := TEST "ARG_PTR_TO_LONG uninitialized" [
  _insns
   [BPF_MOV64_REG BPF_REG_7 BPF_REG_10; BPF_ALU64_IMM BPF_ADD BPF_REG_7 (-8);
    BPF_MOV64_IMM BPF_REG_0 0x00303036; BPF_STX_MEM BPF_DW BPF_REG_7 BPF_REG_0 0;
    BPF_MOV64_REG BPF_REG_1 BPF_REG_7; BPF_MOV64_IMM BPF_REG_2 4; BPF_MOV64_IMM BPF_REG_3 0;
    BPF_ALU64_IMM BPF_ADD BPF_REG_7 (-8); BPF_MOV64_REG BPF_REG_4 BPF_REG_7;
    BPF_EMIT_CALL BPF_FUNC_strtoul; BPF_MOV64_IMM BPF_REG_0 1; BPF_EXIT_INSN];
  _result REJECT;
  _prog_type BPF_PROG_TYPE_CGROUP_SYSCTL;
  _errstr "invalid indirect read from stack R4 off -16+0 size 8"].

Definition int_ptr_2 : bpf_test := TEST "ARG_PTR_TO_LONG half-uninitialized" [
  _insns
   [BPF_MOV64_REG BPF_REG_7 BPF_REG_10; BPF_ALU64_IMM BPF_ADD BPF_REG_7 (-8);
    BPF_MOV64_IMM BPF_REG_0 0x00303036; BPF_STX_MEM BPF_DW BPF_REG_7 BPF_REG_0 0;
    BPF_MOV64_REG BPF_REG_1 BPF_REG_7; BPF_MOV64_IMM BPF_REG_2 4; BPF_MOV64_IMM BPF_REG_3 0;
    BPF_ALU64_IMM BPF_ADD BPF_REG_7 (-8); BPF_STX_MEM BPF_W BPF_REG_7 BPF_REG_0 0;
    BPF_MOV64_REG BPF_REG_4 BPF_REG_7; BPF_EMIT_CALL BPF_FUNC_strtoul;
    BPF_MOV64_IMM BPF_REG_0 0; BPF_EXIT_INSN];
  _result_unpriv REJECT;
  _errstr_unpriv "invalid indirect read from stack R4 off -16+4 size 8";
  _result ACCEPT].

Definition int_ptr_3 : bpf_test := TEST "ARG_PTR_TO_LONG misaligned" [
  _insns
   [BPF_MOV64_REG BPF_REG_7 BPF_REG_10; BPF_ALU64_IMM BPF_ADD BPF_REG_7 (-8);
    BPF_MOV64_IMM BPF_REG_0 0x00303036; BPF_STX_MEM BPF_DW BPF_REG_7 BPF_REG_0 0;
    BPF_MOV64_REG BPF_REG_1 BPF_REG_7; BPF_MOV64_IMM BPF_REG_2 4; BPF_MOV64_IMM BPF_REG_3 0;
    BPF_ALU64_IMM BPF_ADD BPF_REG_7 (-12); BPF_MOV64_IMM BPF_REG_0 0;
    BPF_STX_MEM BPF_W BPF_REG_7 BPF_REG_0 0; BPF_STX_MEM BPF_DW BPF_REG_7 BPF_REG_0 4;
    BPF_MOV64_REG BPF_REG_4 BPF_REG_7; BPF_EMIT_CALL BPF_FUNC_strtoul;
    BPF_MOV64_IMM BPF_REG_0 1; BPF_EXIT_INSN];
  _result REJECT;
  _prog_type BPF_PROG_TYPE_CGROUP_SYSCTL;
  _errstr "misaligned stack access off (0x0; 0x0)+-20+0 size 8"].

Definition int_ptr_4 : bpf_test := TEST "ARG_PTR_TO_LONG size < sizeof(long)" [
  _insns
   [BPF_MOV64_REG BPF_REG_7 BPF_REG_10; BPF_ALU64_IMM BPF_ADD BPF_REG_7 (-16);
    BPF_MOV64_IMM BPF_REG_0 0x00303036; BPF_STX_MEM BPF_DW BPF_REG_7 BPF_REG_0 0;
    BPF_MOV64_REG BPF_REG_1 BPF_REG_7; BPF_MOV64_IMM BPF_REG_2 4; BPF_MOV64_IMM BPF_REG_3 0;
    BPF_ALU64_IMM BPF_ADD BPF_REG_7 12; BPF_STX_MEM BPF_W BPF_REG_7 BPF_REG_0 0;
    BPF_MOV64_REG BPF_REG_4 BPF_REG_7; BPF_EMIT_CALL BPF_FUNC_strtoul;
    BPF_MOV64_IMM BPF_REG_0 1; BPF_EXIT_INSN];
  _result REJECT;
  _prog_type BPF_PROG_TYPE_CGROUP_SYSCTL;
  _errstr "invalid indirect access to stack R4 off=-4 size=8"].

Definition int_ptr_5 : bpf_test := TEST "ARG_PTR_TO_LONG initialized" [
  _insns
   [BPF_MOV64_REG BPF_REG_7 BPF_REG_10; BPF_ALU64_IMM BPF_ADD BPF_REG_7 (-8);
    BPF_MOV64_IMM BPF_REG_0 0x00303036; BPF_STX_MEM BPF_DW BPF_REG_7 BPF_REG_0 0;
    BPF_MOV64_REG BPF_REG_1 BPF_REG_7; BPF_MOV64_IMM BPF_REG_2 4; BPF_MOV64_IMM BPF_REG_3 0;
    BPF_ALU64_IMM BPF_ADD BPF_REG_7 (-8); BPF_STX_MEM BPF_DW BPF_REG_7 BPF_REG_0 0;
    BPF_MOV64_REG BPF_REG_4 BPF_REG_7; BPF_EMIT_CALL BPF_FUNC_strtoul;
    BPF_MOV64_IMM BPF_REG_0 1; BPF_EXIT_INSN];
  _result ACCEPT;
  _prog_type BPF_PROG_TYPE_CGROUP_SYSCTL].

Definition int_ptr_tests : list bpf_test := [int_ptr_1; int_ptr_2; int_ptr_3; int_ptr_4; int_ptr_5].

(** * [precise.c] *)

Definition precise_1 : bpf_test := TEST "precise: test 1" [
  _insns
   [BPF_MOV64_IMM BPF_REG_0 1; BPF_LD_MAP_FD BPF_REG_6 0; BPF_MOV64_REG BPF_REG_1 BPF_REG_6;
    BPF_MOV64_REG BPF_REG_2 BPF_REG_FP; BPF_ALU64_IMM BPF_ADD BPF_REG_2 (-8);
    BPF_ST_MEM BPF_DW BPF_REG_FP (-8) 0; BPF_EMIT_CALL BPF_FUNC_map_lookup_elem;
    BPF_JMP_IMM BPF_JNE BPF_REG_0 0 1; BPF_EXIT_INSN; BPF_MOV64_REG BPF_REG_9 BPF_REG_0;
    BPF_MOV64_REG BPF_REG_1 BPF_REG_6; BPF_MOV64_REG BPF_REG_2 BPF_REG_FP;
    BPF_ALU64_IMM BPF_ADD BPF_REG_2 (-8); BPF_EMIT_CALL BPF_FUNC_map_lookup_elem;
    BPF_JMP_IMM BPF_JNE BPF_REG_0 0 1; BPF_EXIT_INSN; BPF_MOV64_REG BPF_REG_8 BPF_REG_0;
    BPF_ALU64_REG BPF_SUB BPF_REG_9 BPF_REG_8; BPF_MOV64_REG BPF_REG_2 BPF_REG_9;
    BPF_JMP_IMM BPF_JLT BPF_REG_2 8 1; BPF_EXIT_INSN; BPF_ALU64_IMM BPF_ADD BPF_REG_2 1;
    BPF_MOV64_REG BPF_REG_1 BPF_REG_FP; BPF_ALU64_IMM BPF_ADD BPF_REG_1 (-8);
    BPF_MOV64_IMM BPF_REG_3 0; BPF_EMIT_CALL BPF_FUNC_probe_read_kernel; BPF_EXIT_INSN];
  _prog_type BPF_PROG_TYPE_TRACEPOINT;
  _fixup fixup_map_array_48b [1];
  _result VERBOSE_ACCEPT;
  _errstr
   "26: (85) call bpf_probe_read_kernel#113	last_idx 26 first_idx 20	regs=4 stack=0 before 25	regs=4 stack=0 before 24	regs=4 stack=0 before 23	regs=4 stack=0 before 22	regs=4 stack=0 before 20	parent didn't have regs=4 stack=0 marks	last_idx 19 first_idx 10	regs=4 stack=0 before 19	regs=200 stack=0 before 18	regs=300 stack=0 before 17	regs=201 stack=0 before 15	regs=201 stack=0 before 14	regs=200 stack=0 before 13	regs=200 stack=0 before 12	regs=200 stack=0 before 11	regs=200 stack=0 before 10	parent already had regs=0 stack=0 marks"].

Definition precise_2 : bpf_test := TEST "precise: test 2" [
  _insns
   [BPF_MOV64_IMM BPF_REG_0 1; BPF_LD_MAP_FD BPF_REG_6 0; BPF_MOV64_REG BPF_REG_1 BPF_REG_6;
    BPF_MOV64_REG BPF_REG_2 BPF_REG_FP; BPF_ALU64_IMM BPF_ADD BPF_REG_2 (-8);
    BPF_ST_MEM BPF_DW BPF_REG_FP (-8) 0; BPF_EMIT_CALL BPF_FUNC_map_lookup_elem;
    BPF_JMP_IMM BPF_JNE BPF_REG_0 0 1; BPF_EXIT_INSN; BPF_MOV64_REG BPF_REG_9 BPF_REG_0;
    BPF_MOV64_REG BPF_REG_1 BPF_REG_6; BPF_MOV64_REG BPF_REG_2 BPF_REG_FP;
    BPF_ALU64_IMM BPF_ADD BPF_REG_2 (-8); BPF_EMIT_CALL BPF_FUNC_map_lookup_elem;
    BPF_JMP_IMM BPF_JNE BPF_REG_0 0 1; BPF_EXIT_INSN; BPF_MOV64_REG BPF_REG_8 BPF_REG_0;
    BPF_ALU64_REG BPF_SUB BPF_REG_9 BPF_REG_8; BPF_MOV64_REG BPF_REG_2 BPF_REG_9;
    BPF_JMP_IMM BPF_JLT BPF_REG_2 8 1; BPF_EXIT_INSN; BPF_ALU64_IMM BPF_ADD BPF_REG_2 1;
    BPF_MOV64_REG BPF_REG_1 BPF_REG_FP; BPF_ALU64_IMM BPF_ADD BPF_REG_1 (-8);
    BPF_MOV64_IMM BPF_REG_3 0; BPF_EMIT_CALL BPF_FUNC_probe_read_kernel; BPF_EXIT_INSN];
  _prog_type BPF_PROG_TYPE_TRACEPOINT;
  _fixup fixup_map_array_48b [1];
  _result VERBOSE_ACCEPT;
  _flags BPF_F_TEST_STATE_FREQ;
  _errstr
   "26: (85) call bpf_probe_read_kernel#113	last_idx 26 first_idx 22	regs=4 stack=0 before 25	regs=4 stack=0 before 24	regs=4 stack=0 before 23	regs=4 stack=0 before 22	parent didn't have regs=4 stack=0 marks	last_idx 20 first_idx 20	regs=4 stack=0 before 20	parent didn't have regs=4 stack=0 marks	last_idx 19 first_idx 17	regs=4 stack=0 before 19	regs=200 stack=0 before 18	regs=300 stack=0 before 17	parent already had regs=0 stack=0 marks"].

Definition precise_3 : bpf_test := TEST "precise: cross frame pruning" [
  _insns
   [BPF_RAW_INSN (BPF_JMP .| BPF_CALL) 0 0 0 BPF_FUNC_get_prandom_u32;
    BPF_MOV64_IMM BPF_REG_8 0; BPF_JMP_IMM BPF_JNE BPF_REG_0 0 1; BPF_MOV64_IMM BPF_REG_8 1;
    BPF_RAW_INSN (BPF_JMP .| BPF_CALL) 0 0 0 BPF_FUNC_get_prandom_u32;
    BPF_MOV64_IMM BPF_REG_9 0; BPF_JMP_IMM BPF_JNE BPF_REG_0 0 1; BPF_MOV64_IMM BPF_REG_9 1;
    BPF_MOV64_REG BPF_REG_1 BPF_REG_0; BPF_RAW_INSN (BPF_JMP .| BPF_CALL) 0 1 0 4;
    BPF_JMP_IMM BPF_JEQ BPF_REG_8 1 1; BPF_LDX_MEM BPF_B BPF_REG_1 BPF_REG_2 0;
    BPF_MOV64_IMM BPF_REG_0 0; BPF_EXIT_INSN; BPF_JMP_IMM BPF_JEQ BPF_REG_1 0 0; BPF_EXIT_INSN];
  _prog_type BPF_PROG_TYPE_XDP;
  _flags BPF_F_TEST_STATE_FREQ;
  _errstr "!read_ok";
  _result REJECT].

Definition precise_4 : bpf_test := TEST "precise: ST insn causing spi > allocated_stack" [
  _insns
   [BPF_MOV64_REG BPF_REG_3 BPF_REG_10; BPF_JMP_IMM BPF_JNE BPF_REG_3 123 0;
    BPF_ST_MEM BPF_DW BPF_REG_3 (-8) 0; BPF_LDX_MEM BPF_DW BPF_REG_4 BPF_REG_10 (-8);
    BPF_MOV64_IMM BPF_REG_0 (-1); BPF_JMP_REG BPF_JGT BPF_REG_4 BPF_REG_0 0; BPF_EXIT_INSN];
  _prog_type BPF_PROG_TYPE_XDP;
  _flags BPF_F_TEST_STATE_FREQ;
  _errstr
   "5: (2d) if r4 > r0 goto pc+0	last_idx 5 first_idx 5	parent didn't have regs=10 stack=0 marks	last_idx 4 first_idx 2	regs=10 stack=0 before 4	regs=10 stack=0 before 3	regs=0 stack=1 before 2	last_idx 5 first_idx 5	parent didn't have regs=1 stack=0 marks";
  _result VERBOSE_ACCEPT;
  _retval (-1)].

Definition precise_5 : bpf_test := TEST "precise: STX insn causing spi > allocated_stack" [
  _insns
   [BPF_RAW_INSN (BPF_JMP .| BPF_CALL) 0 0 0 BPF_FUNC_get_prandom_u32;
    BPF_MOV64_REG BPF_REG_3 BPF_REG_10; BPF_JMP_IMM BPF_JNE BPF_REG_3 123 0;
    BPF_STX_MEM BPF_DW BPF_REG_3 BPF_REG_0 (-8); BPF_LDX_MEM BPF_DW BPF_REG_4 BPF_REG_10 (-8);
    BPF_MOV64_IMM BPF_REG_0 (-1); BPF_JMP_REG BPF_JGT BPF_REG_4 BPF_REG_0 0; BPF_EXIT_INSN];
  _prog_type BPF_PROG_TYPE_XDP;
  _flags BPF_F_TEST_STATE_FREQ;
  _errstr
   "last_idx 6 first_idx 6	parent didn't have regs=10 stack=0 marks	last_idx 5 first_idx 3	regs=10 stack=0 before 5	regs=10 stack=0 before 4	regs=0 stack=1 before 3	last_idx 6 first_idx 6	parent didn't have regs=1 stack=0 marks	last_idx 5 first_idx 3	regs=1 stack=0 before 5";
  _result VERBOSE_ACCEPT;
  _retval (-1)].

Definition precise_tests : list bpf_test := [precise_1; precise_2; precise_3; precise_4; precise_5].

(** * [raw_stack.c] *)

Definition raw_stack_1 : bpf_test := TEST "raw_stack: no skb_load_bytes" [
  _insns
   [BPF_MOV64_IMM BPF_REG_2 4; BPF_ALU64_REG BPF_MOV BPF_REG_6 BPF_REG_10;
    BPF_ALU64_IMM BPF_ADD BPF_REG_6 (-8); BPF_MOV64_REG BPF_REG_3 BPF_REG_6;
    BPF_MOV64_IMM BPF_REG_4 8; BPF_LDX_MEM BPF_DW BPF_REG_0 BPF_REG_6 0; BPF_EXIT_INSN];
  _result REJECT;
  _errstr "invalid read from stack R6 off=-8 size=8";
  _prog_type BPF_PROG_TYPE_SCHED_CLS].

Definition raw_stack_2 : bpf_test := TEST "raw_stack: skb_load_bytes, negative len" [
  _insns
   [BPF_MOV64_IMM BPF_REG_2 4; BPF_ALU64_REG BPF_MOV BPF_REG_6 BPF_REG_10;
    BPF_ALU64_IMM BPF_ADD BPF_REG_6 (-8); BPF_MOV64_REG BPF_REG_3 BPF_REG_6;
    BPF_MOV64_IMM BPF_REG_4 (-8);
    BPF_RAW_INSN (BPF_JMP .| BPF_CALL) 0 0 0 BPF_FUNC_skb_load_bytes;
    BPF_LDX_MEM BPF_DW BPF_REG_0 BPF_REG_6 0; BPF_EXIT_INSN];
  _result REJECT;
  _errstr "R4 min value is negative";
  _prog_type BPF_PROG_TYPE_SCHED_CLS].

Definition raw_stack_3 : bpf_test := TEST "raw_stack: skb_load_bytes, negative len 2" [
  _insns
   [BPF_MOV64_IMM BPF_REG_2 4; BPF_ALU64_REG BPF_MOV BPF_REG_6 BPF_REG_10;
    BPF_ALU64_IMM BPF_ADD BPF_REG_6 (-8); BPF_MOV64_REG BPF_REG_3 BPF_REG_6;
    BPF_MOV64_IMM BPF_REG_4 (Z.lnot 0);
    BPF_RAW_INSN (BPF_JMP .| BPF_CALL) 0 0 0 BPF_FUNC_skb_load_bytes;
    BPF_LDX_MEM BPF_DW BPF_REG_0 BPF_REG_6 0; BPF_EXIT_INSN];
  _result REJECT;
  _errstr "R4 min value is negative";
  _prog_type BPF_PROG_TYPE_SCHED_CLS].

Definition raw_stack_4 : bpf_test := TEST "raw_stack: skb_load_bytes, zero len" [
  _insns
   [BPF_MOV64_IMM BPF_REG_2 4; BPF_ALU64_REG BPF_MOV BPF_REG_6 BPF_REG_10;
    BPF_ALU64_IMM BPF_ADD BPF_REG_6 (-8); BPF_MOV64_REG BPF_REG_3 BPF_REG_6;
    BPF_MOV64_IMM BPF_REG_4 0; BPF_RAW_INSN (BPF_JMP .| BPF_CALL) 0 0 0 BPF_FUNC_skb_load_bytes;
    BPF_LDX_MEM BPF_DW BPF_REG_0 BPF_REG_6 0; BPF_EXIT_INSN];
  _result REJECT;
  _errstr "invalid zero-sized read";
  _prog_type BPF_PROG_TYPE_SCHED_CLS].

Definition raw_stack_5 : bpf_test := TEST "raw_stack: skb_load_bytes, no init" [
  _insns
   [BPF_MOV64_IMM BPF_REG_2 4; BPF_ALU64_REG BPF_MOV BPF_REG_6 BPF_REG_10;
    BPF_ALU64_IMM BPF_ADD BPF_REG_6 (-8); BPF_MOV64_REG BPF_REG_3 BPF_REG_6;
    BPF_MOV64_IMM BPF_REG_4 8; BPF_RAW_INSN (BPF_JMP .| BPF_CALL) 0 0 0 BPF_FUNC_skb_load_bytes;
    BPF_LDX_MEM BPF_DW BPF_REG_0 BPF_REG_6 0; BPF_EXIT_INSN];
  _result ACCEPT;
  _prog_type BPF_PROG_TYPE_SCHED_CLS].

Definition raw_stack_6 : bpf_test := TEST "raw_stack: skb_load_bytes, init" [
  _insns
   [BPF_MOV64_IMM BPF_REG_2 4; BPF_ALU64_REG BPF_MOV BPF_REG_6 BPF_REG_10;
    BPF_ALU64_IMM BPF_ADD BPF_REG_6 (-8); BPF_ST_MEM BPF_DW BPF_REG_6 0 0xcafe;
    BPF_MOV64_REG BPF_REG_3 BPF_REG_6; BPF_MOV64_IMM BPF_REG_4 8;
    BPF_RAW_INSN (BPF_JMP .| BPF_CALL) 0 0 0 BPF_FUNC_skb_load_bytes;
    BPF_LDX_MEM BPF_DW BPF_REG_0 BPF_REG_6 0; BPF_EXIT_INSN];
  _result ACCEPT;
  _prog_type BPF_PROG_TYPE_SCHED_CLS].

Definition raw_stack_7 : bpf_test := TEST "raw_stack: skb_load_bytes, spilled regs around bounds" [
  _insns
   [BPF_MOV64_IMM BPF_REG_2 4; BPF_ALU64_REG BPF_MOV BPF_REG_6 BPF_REG_10;
    BPF_ALU64_IMM BPF_ADD BPF_REG_6 (-16); BPF_STX_MEM BPF_DW BPF_REG_6 BPF_REG_1 (-8);
    BPF_STX_MEM BPF_DW BPF_REG_6 BPF_REG_1 8; BPF_MOV64_REG BPF_REG_3 BPF_REG_6;
    BPF_MOV64_IMM BPF_REG_4 8; BPF_RAW_INSN (BPF_JMP .| BPF_CALL) 0 0 0 BPF_FUNC_skb_load_bytes;
    BPF_LDX_MEM BPF_DW BPF_REG_0 BPF_REG_6 (-8); BPF_LDX_MEM BPF_DW BPF_REG_2 BPF_REG_6 8;
    BPF_LDX_MEM BPF_W BPF_REG_0 BPF_REG_0 (offsetof __sk_buff "mark");
    BPF_LDX_MEM BPF_W BPF_REG_2 BPF_REG_2 (offsetof __sk_buff "priority");
    BPF_ALU64_REG BPF_ADD BPF_REG_0 BPF_REG_2; BPF_EXIT_INSN];
  _result ACCEPT;
  _prog_type BPF_PROG_TYPE_SCHED_CLS].

Definition raw_stack_8 : bpf_test := TEST "raw_stack: skb_load_bytes, spilled regs corruption" [
  _insns
   [BPF_MOV64_IMM BPF_REG_2 4; BPF_ALU64_REG BPF_MOV BPF_REG_6 BPF_REG_10;
    BPF_ALU64_IMM BPF_ADD BPF_REG_6 (-8); BPF_STX_MEM BPF_DW BPF_REG_6 BPF_REG_1 0;
    BPF_MOV64_REG BPF_REG_3 BPF_REG_6; BPF_MOV64_IMM BPF_REG_4 8;
    BPF_RAW_INSN (BPF_JMP .| BPF_CALL) 0 0 0 BPF_FUNC_skb_load_bytes;
    BPF_LDX_MEM BPF_DW BPF_REG_0 BPF_REG_6 0;
    BPF_LDX_MEM BPF_W BPF_REG_0 BPF_REG_0 (offsetof __sk_buff "mark"); BPF_EXIT_INSN];
  _result REJECT;
  _errstr "R0 invalid mem access 'inv'";
  _prog_type BPF_PROG_TYPE_SCHED_CLS;
  _flags F_NEEDS_EFFICIENT_UNALIGNED_ACCESS].

Definition raw_stack_9 : bpf_test := TEST "raw_stack: skb_load_bytes, spilled regs corruption 2" [
  _insns
   [BPF_MOV64_IMM BPF_REG_2 4; BPF_ALU64_REG BPF_MOV BPF_REG_6 BPF_REG_10;
    BPF_ALU64_IMM BPF_ADD BPF_REG_6 (-16); BPF_STX_MEM BPF_DW BPF_REG_6 BPF_REG_1 (-8);
    BPF_STX_MEM BPF_DW BPF_REG_6 BPF_REG_1 0; BPF_STX_MEM BPF_DW BPF_REG_6 BPF_REG_1 8;
    BPF_MOV64_REG BPF_REG_3 BPF_REG_6; BPF_MOV64_IMM BPF_REG_4 8;
    BPF_RAW_INSN (BPF_JMP .| BPF_CALL) 0 0 0 BPF_FUNC_skb_load_bytes;
    BPF_LDX_MEM BPF_DW BPF_REG_0 BPF_REG_6 (-8); BPF_LDX_MEM BPF_DW BPF_REG_2 BPF_REG_6 8;
    BPF_LDX_MEM BPF_DW BPF_REG_3 BPF_REG_6 0;
    BPF_LDX_MEM BPF_W BPF_REG_0 BPF_REG_0 (offsetof __sk_buff "mark");
    BPF_LDX_MEM BPF_W BPF_REG_2 BPF_REG_2 (offsetof __sk_buff "priority");
    BPF_ALU64_REG BPF_ADD BPF_REG_0 BPF_REG_2;
    BPF_LDX_MEM BPF_W BPF_REG_3 BPF_REG_3 (offsetof __sk_buff "pkt_type");
    BPF_ALU64_REG BPF_ADD BPF_REG_0 BPF_REG_3; BPF_EXIT_INSN];
  _result REJECT;
  _errstr "R3 invalid mem access 'inv'";
  _prog_type BPF_PROG_TYPE_SCHED_CLS;
  _flags F_NEEDS_EFFICIENT_UNALIGNED_ACCESS].

Definition raw_stack_10 : bpf_test := TEST "raw_stack: skb_load_bytes, spilled regs + data" [
  _insns
   [BPF_MOV64_IMM BPF_REG_2 4; BPF_ALU64_REG BPF_MOV BPF_REG_6 BPF_REG_10;
    BPF_ALU64_IMM BPF_ADD BPF_REG_6 (-16); BPF_STX_MEM BPF_DW BPF_REG_6 BPF_REG_1 (-8);
    BPF_STX_MEM BPF_DW BPF_REG_6 BPF_REG_1 0; BPF_STX_MEM BPF_DW BPF_REG_6 BPF_REG_1 8;
    BPF_MOV64_REG BPF_REG_3 BPF_REG_6; BPF_MOV64_IMM BPF_REG_4 8;
    BPF_RAW_INSN (BPF_JMP .| BPF_CALL) 0 0 0 BPF_FUNC_skb_load_bytes;
    BPF_LDX_MEM BPF_DW BPF_REG_0 BPF_REG_6 (-8); BPF_LDX_MEM BPF_DW BPF_REG_2 BPF_REG_6 8;
    BPF_LDX_MEM BPF_DW BPF_REG_3 BPF_REG_6 0;
    BPF_LDX_MEM BPF_W BPF_REG_0 BPF_REG_0 (offsetof __sk_buff "mark");
    BPF_LDX_MEM BPF_W BPF_REG_2 BPF_REG_2 (offsetof __sk_buff "priority");
    BPF_ALU64_REG BPF_ADD BPF_REG_0 BPF_REG_2; BPF_ALU64_REG BPF_ADD BPF_REG_0 BPF_REG_3;
    BPF_EXIT_INSN];
  _result ACCEPT;
  _prog_type BPF_PROG_TYPE_SCHED_CLS].

Definition raw_stack_11 : bpf_test := TEST "raw_stack: skb_load_bytes, invalid access 1" [
  _insns
   [BPF_MOV64_IMM BPF_REG_2 4; BPF_ALU64_REG BPF_MOV BPF_REG_6 BPF_REG_10;
    BPF_ALU64_IMM BPF_ADD BPF_REG_6 (-513); BPF_MOV64_REG BPF_REG_3 BPF_REG_6;
    BPF_MOV64_IMM BPF_REG_4 8; BPF_RAW_INSN (BPF_JMP .| BPF_CALL) 0 0 0 BPF_FUNC_skb_load_bytes;
    BPF_LDX_MEM BPF_DW BPF_REG_0 BPF_REG_6 0; BPF_EXIT_INSN];
  _result REJECT;
  _errstr "invalid indirect access to stack R3 off=-513 size=8";
  _prog_type BPF_PROG_TYPE_SCHED_CLS].

Definition raw_stack_12 : bpf_test := TEST "raw_stack: skb_load_bytes, invalid access 2" [
  _insns
   [BPF_MOV64_IMM BPF_REG_2 4; BPF_ALU64_REG BPF_MOV BPF_REG_6 BPF_REG_10;
    BPF_ALU64_IMM BPF_ADD BPF_REG_6 (-1); BPF_MOV64_REG BPF_REG_3 BPF_REG_6;
    BPF_MOV64_IMM BPF_REG_4 8; BPF_RAW_INSN (BPF_JMP .| BPF_CALL) 0 0 0 BPF_FUNC_skb_load_bytes;
    BPF_LDX_MEM BPF_DW BPF_REG_0 BPF_REG_6 0; BPF_EXIT_INSN];
  _result REJECT;
  _errstr "invalid indirect access to stack R3 off=-1 size=8";
  _prog_type BPF_PROG_TYPE_SCHED_CLS].

Definition raw_stack_13 : bpf_test := TEST "raw_stack: skb_load_bytes, invalid access 3" [
  _insns
   [BPF_MOV64_IMM BPF_REG_2 4; BPF_ALU64_REG BPF_MOV BPF_REG_6 BPF_REG_10;
    BPF_ALU64_IMM BPF_ADD BPF_REG_6 0xffffffff; BPF_MOV64_REG BPF_REG_3 BPF_REG_6;
    BPF_MOV64_IMM BPF_REG_4 0xffffffff;
    BPF_RAW_INSN (BPF_JMP .| BPF_CALL) 0 0 0 BPF_FUNC_skb_load_bytes;
    BPF_LDX_MEM BPF_DW BPF_REG_0 BPF_REG_6 0; BPF_EXIT_INSN];
  _result REJECT;
  _errstr "R4 min value is negative";
  _prog_type BPF_PROG_TYPE_SCHED_CLS].

Definition raw_stack_14 : bpf_test := TEST "raw_stack: skb_load_bytes, invalid access 4" [
  _insns
   [BPF_MOV64_IMM BPF_REG_2 4; BPF_ALU64_REG BPF_MOV BPF_REG_6 BPF_REG_10;
    BPF_ALU64_IMM BPF_ADD BPF_REG_6 (-1); BPF_MOV64_REG BPF_REG_3 BPF_REG_6;
    BPF_MOV64_IMM BPF_REG_4 0x7fffffff;
    BPF_RAW_INSN (BPF_JMP .| BPF_CALL) 0 0 0 BPF_FUNC_skb_load_bytes;
    BPF_LDX_MEM BPF_DW BPF_REG_0 BPF_REG_6 0; BPF_EXIT_INSN];
  _result REJECT;
  _errstr "R4 unbounded memory access, use 'var &= const' or 'if (var < const)'";
  _prog_type BPF_PROG_TYPE_SCHED_CLS].

Definition raw_stack_15 : bpf_test := TEST "raw_stack: skb_load_bytes, invalid access 5" [
  _insns
   [BPF_MOV64_IMM BPF_REG_2 4; BPF_ALU64_REG BPF_MOV BPF_REG_6 BPF_REG_10;
    BPF_ALU64_IMM BPF_ADD BPF_REG_6 (-512); BPF_MOV64_REG BPF_REG_3 BPF_REG_6;
    BPF_MOV64_IMM BPF_REG_4 0x7fffffff;
    BPF_RAW_INSN (BPF_JMP .| BPF_CALL) 0 0 0 BPF_FUNC_skb_load_bytes;
    BPF_LDX_MEM BPF_DW BPF_REG_0 BPF_REG_6 0; BPF_EXIT_INSN];
  _result REJECT;
  _errstr "R4 unbounded memory access, use 'var &= const' or 'if (var < const)'";
  _prog_type BPF_PROG_TYPE_SCHED_CLS].

Definition raw_stack_16 : bpf_test := TEST "raw_stack: skb_load_bytes, invalid access 6" [
  _insns
   [BPF_MOV64_IMM BPF_REG_2 4; BPF_ALU64_REG BPF_MOV BPF_REG_6 BPF_REG_10;
    BPF_ALU64_IMM BPF_ADD BPF_REG_6 (-512); BPF_MOV64_REG BPF_REG_3 BPF_REG_6;
    BPF_MOV64_IMM BPF_REG_4 0; BPF_RAW_INSN (BPF_JMP .| BPF_CALL) 0 0 0 BPF_FUNC_skb_load_bytes;
    BPF_LDX_MEM BPF_DW BPF_REG_0 BPF_REG_6 0; BPF_EXIT_INSN];
  _result REJECT;
  _errstr "invalid zero-sized read";
  _prog_type BPF_PROG_TYPE_SCHED_CLS].

Definition raw_stack_17 : bpf_test := TEST "raw_stack: skb_load_bytes, large access" [
  _insns
   [BPF_MOV64_IMM BPF_REG_2 4; BPF_ALU64_REG BPF_MOV BPF_REG_6 BPF_REG_10;
    BPF_ALU64_IMM BPF_ADD BPF_REG_6 (-512); BPF_MOV64_REG BPF_REG_3 BPF_REG_6;
    BPF_MOV64_IMM BPF_REG_4 512;
    BPF_RAW_INSN (BPF_JMP .| BPF_CALL) 0 0 0 BPF_FUNC_skb_load_bytes;
    BPF_LDX_MEM BPF_DW BPF_REG_0 BPF_REG_6 0; BPF_EXIT_INSN];
  _result ACCEPT;
  _prog_type BPF_PROG_TYPE_SCHED_CLS].

Definition raw_stack_tests : list bpf_test := [raw_stack_1; raw_stack_2; raw_stack_3; raw_stack_4;
  raw_stack_5; raw_stack_6; raw_stack_7; raw_stack_8; raw_stack_9; raw_stack_10; raw_stack_11;
  raw_stack_12; raw_stack_13; raw_stack_14; raw_stack_15; raw_stack_16; raw_stack_17].

(** * [regalloc.c] *)

Definition regalloc_1 : bpf_test := TEST "regalloc basic" [
  _insns
   [BPF_MOV64_REG BPF_REG_6 BPF_REG_1; BPF_ST_MEM BPF_DW BPF_REG_10 (-8) 0;
    BPF_MOV64_REG BPF_REG_2 BPF_REG_10; BPF_ALU64_IMM BPF_ADD BPF_REG_2 (-8);
    BPF_LD_MAP_FD BPF_REG_1 0; BPF_EMIT_CALL BPF_FUNC_map_lookup_elem;
    BPF_JMP_IMM BPF_JEQ BPF_REG_0 0 8; BPF_MOV64_REG BPF_REG_7 BPF_REG_0;
    BPF_EMIT_CALL BPF_FUNC_get_prandom_u32; BPF_MOV64_REG BPF_REG_2 BPF_REG_0;
    BPF_JMP_IMM BPF_JSGT BPF_REG_0 20 4; BPF_JMP_IMM BPF_JSLT BPF_REG_2 0 3;
    BPF_ALU64_REG BPF_ADD BPF_REG_7 BPF_REG_0; BPF_ALU64_REG BPF_ADD BPF_REG_7 BPF_REG_2;
    BPF_LDX_MEM BPF_DW BPF_REG_0 BPF_REG_7 0; BPF_EXIT_INSN];
  _fixup fixup_map_hash_48b [4];
  _result ACCEPT;
  _prog_type BPF_PROG_TYPE_TRACEPOINT;
  _flags F_NEEDS_EFFICIENT_UNALIGNED_ACCESS].

Definition regalloc_2 : bpf_test := TEST "regalloc negative" [
  _insns
   [BPF_MOV64_REG BPF_REG_6 BPF_REG_1; BPF_ST_MEM BPF_DW BPF_REG_10 (-8) 0;
    BPF_MOV64_REG BPF_REG_2 BPF_REG_10; BPF_ALU64_IMM BPF_ADD BPF_REG_2 (-8);
    BPF_LD_MAP_FD BPF_REG_1 0; BPF_EMIT_CALL BPF_FUNC_map_lookup_elem;
    BPF_JMP_IMM BPF_JEQ BPF_REG_0 0 8; BPF_MOV64_REG BPF_REG_7 BPF_REG_0;
    BPF_EMIT_CALL BPF_FUNC_get_prandom_u32; BPF_MOV64_REG BPF_REG_2 BPF_REG_0;
    BPF_JMP_IMM BPF_JSGT BPF_REG_0 24 4; BPF_JMP_IMM BPF_JSLT BPF_REG_2 0 3;
    BPF_ALU64_REG BPF_ADD BPF_REG_7 BPF_REG_0; BPF_ALU64_REG BPF_ADD BPF_REG_7 BPF_REG_2;
    BPF_LDX_MEM BPF_B BPF_REG_0 BPF_REG_7 0; BPF_EXIT_INSN];
  _fixup fixup_map_hash_48b [4];
  _result REJECT;
  _errstr "invalid access to map value, value_size=48 off=48 size=1";
  _prog_type BPF_PROG_TYPE_TRACEPOINT].

Definition regalloc_3 : bpf_test := TEST "regalloc src_reg mark" [
  _insns
   [BPF_MOV64_REG BPF_REG_6 BPF_REG_1; BPF_ST_MEM BPF_DW BPF_REG_10 (-8) 0;
    BPF_MOV64_REG BPF_REG_2 BPF_REG_10; BPF_ALU64_IMM BPF_ADD BPF_REG_2 (-8);
    BPF_LD_MAP_FD BPF_REG_1 0; BPF_EMIT_CALL BPF_FUNC_map_lookup_elem;
    BPF_JMP_IMM BPF_JEQ BPF_REG_0 0 9; BPF_MOV64_REG BPF_REG_7 BPF_REG_0;
    BPF_EMIT_CALL BPF_FUNC_get_prandom_u32; BPF_MOV64_REG BPF_REG_2 BPF_REG_0;
    BPF_JMP_IMM BPF_JSGT BPF_REG_0 20 5; BPF_MOV64_IMM BPF_REG_3 0;
    BPF_JMP_REG BPF_JSGE BPF_REG_3 BPF_REG_2 3; BPF_ALU64_REG BPF_ADD BPF_REG_7 BPF_REG_0;
    BPF_ALU64_REG BPF_ADD BPF_REG_7 BPF_REG_2; BPF_LDX_MEM BPF_DW BPF_REG_0 BPF_REG_7 0;
    BPF_EXIT_INSN];
  _fixup fixup_map_hash_48b [4];
  _result ACCEPT;
  _prog_type BPF_PROG_TYPE_TRACEPOINT;
  _flags F_NEEDS_EFFICIENT_UNALIGNED_ACCESS].

Definition regalloc_4 : bpf_test := TEST "regalloc src_reg negative" [
  _insns
   [BPF_MOV64_REG BPF_REG_6 BPF_REG_1; BPF_ST_MEM BPF_DW BPF_REG_10 (-8) 0;
    BPF_MOV64_REG BPF_REG_2 BPF_REG_10; BPF_ALU64_IMM BPF_ADD BPF_REG_2 (-8);
    BPF_LD_MAP_FD BPF_REG_1 0; BPF_EMIT_CALL BPF_FUNC_map_lookup_elem;
    BPF_JMP_IMM BPF_JEQ BPF_REG_0 0 9; BPF_MOV64_REG BPF_REG_7 BPF_REG_0;
    BPF_EMIT_CALL BPF_FUNC_get_prandom_u32; BPF_MOV64_REG BPF_REG_2 BPF_REG_0;
    BPF_JMP_IMM BPF_JSGT BPF_REG_0 22 5; BPF_MOV64_IMM BPF_REG_3 0;
    BPF_JMP_REG BPF_JSGE BPF_REG_3 BPF_REG_2 3; BPF_ALU64_REG BPF_ADD BPF_REG_7 BPF_REG_0;
    BPF_ALU64_REG BPF_ADD BPF_REG_7 BPF_REG_2; BPF_LDX_MEM BPF_DW BPF_REG_0 BPF_REG_7 0;
    BPF_EXIT_INSN];
  _fixup fixup_map_hash_48b [4];
  _result REJECT;
  _errstr "invalid access to map value, value_size=48 off=44 size=8";
  _prog_type BPF_PROG_TYPE_TRACEPOINT;
  _flags F_NEEDS_EFFICIENT_UNALIGNED_ACCESS].

Definition regalloc_5 : bpf_test := TEST "regalloc and spill" [
  _insns
   [BPF_MOV64_REG BPF_REG_6 BPF_REG_1; BPF_ST_MEM BPF_DW BPF_REG_10 (-8) 0;
    BPF_MOV64_REG BPF_REG_2 BPF_REG_10; BPF_ALU64_IMM BPF_ADD BPF_REG_2 (-8);
    BPF_LD_MAP_FD BPF_REG_1 0; BPF_EMIT_CALL BPF_FUNC_map_lookup_elem;
    BPF_JMP_IMM BPF_JEQ BPF_REG_0 0 11; BPF_MOV64_REG BPF_REG_7 BPF_REG_0;
    BPF_EMIT_CALL BPF_FUNC_get_prandom_u32; BPF_MOV64_REG BPF_REG_2 BPF_REG_0;
    BPF_JMP_IMM BPF_JSGT BPF_REG_0 20 7; BPF_STX_MEM BPF_DW BPF_REG_10 BPF_REG_2 (-8);
    BPF_MOV64_IMM BPF_REG_0 0; BPF_MOV64_IMM BPF_REG_2 0;
    BPF_LDX_MEM BPF_DW BPF_REG_3 BPF_REG_10 (-8); BPF_JMP_REG BPF_JSGE BPF_REG_0 BPF_REG_3 2;
    BPF_ALU64_REG BPF_ADD BPF_REG_7 BPF_REG_3; BPF_LDX_MEM BPF_DW BPF_REG_0 BPF_REG_7 0;
    BPF_EXIT_INSN];
  _fixup fixup_map_hash_48b [4];
  _result ACCEPT;
  _prog_type BPF_PROG_TYPE_TRACEPOINT;
  _flags F_NEEDS_EFFICIENT_UNALIGNED_ACCESS].

Definition regalloc_6 : bpf_test := TEST "regalloc and spill negative" [
  _insns
   [BPF_MOV64_REG BPF_REG_6 BPF_REG_1; BPF_ST_MEM BPF_DW BPF_REG_10 (-8) 0;
    BPF_MOV64_REG BPF_REG_2 BPF_REG_10; BPF_ALU64_IMM BPF_ADD BPF_REG_2 (-8);
    BPF_LD_MAP_FD BPF_REG_1 0; BPF_EMIT_CALL BPF_FUNC_map_lookup_elem;
    BPF_JMP_IMM BPF_JEQ BPF_REG_0 0 11; BPF_MOV64_REG BPF_REG_7 BPF_REG_0;
    BPF_EMIT_CALL BPF_FUNC_get_prandom_u32; BPF_MOV64_REG BPF_REG_2 BPF_REG_0;
    BPF_JMP_IMM BPF_JSGT BPF_REG_0 48 7; BPF_STX_MEM BPF_DW BPF_REG_10 BPF_REG_2 (-8);
    BPF_MOV64_IMM BPF_REG_0 0; BPF_MOV64_IMM BPF_REG_2 0;
    BPF_LDX_MEM BPF_DW BPF_REG_3 BPF_REG_10 (-8); BPF_JMP_REG BPF_JSGE BPF_REG_0 BPF_REG_3 2;
    BPF_ALU64_REG BPF_ADD BPF_REG_7 BPF_REG_3; BPF_LDX_MEM BPF_DW BPF_REG_0 BPF_REG_7 0;
    BPF_EXIT_INSN];
  _fixup fixup_map_hash_48b [4];
  _result REJECT;
  _errstr "invalid access to map value, value_size=48 off=48 size=8";
  _prog_type BPF_PROG_TYPE_TRACEPOINT;
  _flags F_NEEDS_EFFICIENT_UNALIGNED_ACCESS].

Definition regalloc_7 : bpf_test := TEST "regalloc three regs" [
  _insns
   [BPF_MOV64_REG BPF_REG_6 BPF_REG_1; BPF_ST_MEM BPF_DW BPF_REG_10 (-8) 0;
    BPF_MOV64_REG BPF_REG_2 BPF_REG_10; BPF_ALU64_IMM BPF_ADD BPF_REG_2 (-8);
    BPF_LD_MAP_FD BPF_REG_1 0; BPF_EMIT_CALL BPF_FUNC_map_lookup_elem;
    BPF_JMP_IMM BPF_JEQ BPF_REG_0 0 10; BPF_MOV64_REG BPF_REG_7 BPF_REG_0;
    BPF_EMIT_CALL BPF_FUNC_get_prandom_u32; BPF_MOV64_REG BPF_REG_2 BPF_REG_0;
    BPF_MOV64_REG BPF_REG_4 BPF_REG_2; BPF_JMP_IMM BPF_JSGT BPF_REG_0 12 5;
    BPF_JMP_IMM BPF_JSLT BPF_REG_2 0 4; BPF_ALU64_REG BPF_ADD BPF_REG_7 BPF_REG_0;
    BPF_ALU64_REG BPF_ADD BPF_REG_7 BPF_REG_2; BPF_ALU64_REG BPF_ADD BPF_REG_7 BPF_REG_4;
    BPF_LDX_MEM BPF_DW BPF_REG_0 BPF_REG_7 0; BPF_EXIT_INSN];
  _fixup fixup_map_hash_48b [4];
  _result ACCEPT;
  _prog_type BPF_PROG_TYPE_TRACEPOINT;
  _flags F_NEEDS_EFFICIENT_UNALIGNED_ACCESS].

Definition regalloc_8 : bpf_test := TEST "regalloc after call" [
  _insns
   [BPF_MOV64_REG BPF_REG_6 BPF_REG_1; BPF_ST_MEM BPF_DW BPF_REG_10 (-8) 0;
    BPF_MOV64_REG BPF_REG_2 BPF_REG_10; BPF_ALU64_IMM BPF_ADD BPF_REG_2 (-8);
    BPF_LD_MAP_FD BPF_REG_1 0; BPF_EMIT_CALL BPF_FUNC_map_lookup_elem;
    BPF_JMP_IMM BPF_JEQ BPF_REG_0 0 10; BPF_MOV64_REG BPF_REG_7 BPF_REG_0;
    BPF_EMIT_CALL BPF_FUNC_get_prandom_u32; BPF_MOV64_REG BPF_REG_8 BPF_REG_0;
    BPF_MOV64_REG BPF_REG_9 BPF_REG_0; BPF_RAW_INSN (BPF_JMP .| BPF_CALL) 0 1 0 6;
    BPF_JMP_IMM BPF_JSGT BPF_REG_8 20 4; BPF_JMP_IMM BPF_JSLT BPF_REG_9 0 3;
    BPF_ALU64_REG BPF_ADD BPF_REG_7 BPF_REG_8; BPF_ALU64_REG BPF_ADD BPF_REG_7 BPF_REG_9;
    BPF_LDX_MEM BPF_DW BPF_REG_0 BPF_REG_7 0; BPF_EXIT_INSN; BPF_MOV64_IMM BPF_REG_0 0;
    BPF_EXIT_INSN];
  _fixup fixup_map_hash_48b [4];
  _result ACCEPT;
  _prog_type BPF_PROG_TYPE_TRACEPOINT;
  _flags F_NEEDS_EFFICIENT_UNALIGNED_ACCESS].

Definition regalloc_9 : bpf_test := TEST "regalloc in callee" [
  _insns
   [BPF_MOV64_REG BPF_REG_6 BPF_REG_1; BPF_ST_MEM BPF_DW BPF_REG_10 (-8) 0;
    BPF_MOV64_REG BPF_REG_2 BPF_REG_10; BPF_ALU64_IMM BPF_ADD BPF_REG_2 (-8);
    BPF_LD_MAP_FD BPF_REG_1 0; BPF_EMIT_CALL BPF_FUNC_map_lookup_elem;
    BPF_JMP_IMM BPF_JEQ BPF_REG_0 0 6; BPF_MOV64_REG BPF_REG_7 BPF_REG_0;
    BPF_EMIT_CALL BPF_FUNC_get_prandom_u32; BPF_MOV64_REG BPF_REG_1 BPF_REG_0;
    BPF_MOV64_REG BPF_REG_2 BPF_REG_0; BPF_MOV64_REG BPF_REG_3 BPF_REG_7;
    BPF_RAW_INSN (BPF_JMP .| BPF_CALL) 0 1 0 1; BPF_EXIT_INSN;
    BPF_JMP_IMM BPF_JSGT BPF_REG_1 20 5; BPF_JMP_IMM BPF_JSLT BPF_REG_2 0 4;
    BPF_ALU64_REG BPF_ADD BPF_REG_3 BPF_REG_1; BPF_ALU64_REG BPF_ADD BPF_REG_3 BPF_REG_2;
    BPF_LDX_MEM BPF_DW BPF_REG_0 BPF_REG_3 0; BPF_EXIT_INSN; BPF_MOV64_IMM BPF_REG_0 0;
    BPF_EXIT_INSN];
  _fixup fixup_map_hash_48b [4];
  _result ACCEPT;
  _prog_type BPF_PROG_TYPE_TRACEPOINT;
  _flags F_NEEDS_EFFICIENT_UNALIGNED_ACCESS].

Definition regalloc_10 : bpf_test := TEST "regalloc, spill, JEQ" [
  _insns
   [BPF_MOV64_REG BPF_REG_6 BPF_REG_1; BPF_ST_MEM BPF_DW BPF_REG_10 (-8) 0;
    BPF_MOV64_REG BPF_REG_2 BPF_REG_10; BPF_ALU64_IMM BPF_ADD BPF_REG_2 (-8);
    BPF_LD_MAP_FD BPF_REG_1 0; BPF_EMIT_CALL BPF_FUNC_map_lookup_elem;
    BPF_STX_MEM BPF_DW BPF_REG_10 BPF_REG_0 (-8); BPF_JMP_IMM BPF_JEQ BPF_REG_0 0 0;
    BPF_EMIT_CALL BPF_FUNC_get_prandom_u32; BPF_MOV64_REG BPF_REG_2 BPF_REG_0;
    BPF_JMP_IMM BPF_JEQ BPF_REG_2 20 0; BPF_LDX_MEM BPF_DW BPF_REG_3 BPF_REG_10 (-8);
    BPF_JMP_IMM BPF_JEQ BPF_REG_3 0 1; BPF_LDX_MEM BPF_DW BPF_REG_0 BPF_REG_3 0; BPF_EXIT_INSN];
  _fixup fixup_map_hash_48b [4];
  _result ACCEPT;
  _prog_type BPF_PROG_TYPE_TRACEPOINT].

Definition regalloc_tests : list bpf_test := [regalloc_1; regalloc_2; regalloc_3; regalloc_4;
  regalloc_5; regalloc_6; regalloc_7; regalloc_8; regalloc_9; regalloc_10].

(** * [search_pruning.c] *)

Definition search_pruning_1 : bpf_test := TEST "pointer/scalar confusion in state equality check (way 1)" [
  _insns
   [BPF_ST_MEM BPF_DW BPF_REG_10 (-8) 0; BPF_MOV64_REG BPF_REG_2 BPF_REG_10;
    BPF_ALU64_IMM BPF_ADD BPF_REG_2 (-8); BPF_LD_MAP_FD BPF_REG_1 0;
    BPF_RAW_INSN (BPF_JMP .| BPF_CALL) 0 0 0 BPF_FUNC_map_lookup_elem;
    BPF_JMP_IMM BPF_JEQ BPF_REG_0 0 2; BPF_LDX_MEM BPF_DW BPF_REG_0 BPF_REG_0 0; BPF_JMP_A 1;
    BPF_MOV64_REG BPF_REG_0 BPF_REG_10; BPF_JMP_A 0; BPF_EXIT_INSN];
  _fixup fixup_map_hash_8b [3];
  _result ACCEPT;
  _retval POINTER_VALUE;
  _result_unpriv REJECT;
  _errstr_unpriv "R0 leaks addr as return value"].

Definition search_pruning_2 : bpf_test := TEST "pointer/scalar confusion in state equality check (way 2)" [
  _insns
   [BPF_ST_MEM BPF_DW BPF_REG_10 (-8) 0; BPF_MOV64_REG BPF_REG_2 BPF_REG_10;
    BPF_ALU64_IMM BPF_ADD BPF_REG_2 (-8); BPF_LD_MAP_FD BPF_REG_1 0;
    BPF_RAW_INSN (BPF_JMP .| BPF_CALL) 0 0 0 BPF_FUNC_map_lookup_elem;
    BPF_JMP_IMM BPF_JNE BPF_REG_0 0 2; BPF_MOV64_REG BPF_REG_0 BPF_REG_10; BPF_JMP_A 1;
    BPF_LDX_MEM BPF_DW BPF_REG_0 BPF_REG_0 0; BPF_EXIT_INSN];
  _fixup fixup_map_hash_8b [3];
  _result ACCEPT;
  _retval POINTER_VALUE;
  _result_unpriv REJECT;
  _errstr_unpriv "R0 leaks addr as return value"].

Definition search_pruning_3 : bpf_test := TEST "liveness pruning and write screening" [
  _insns
   [BPF_LDX_MEM BPF_W BPF_REG_2 BPF_REG_1 0; BPF_JMP_IMM BPF_JGE BPF_REG_2 0 1;
    BPF_MOV64_IMM BPF_REG_0 0; BPF_JMP_IMM BPF_JGE BPF_REG_2 0 1; BPF_MOV64_IMM BPF_REG_0 0;
    BPF_EXIT_INSN];
  _errstr "R0 !read_ok";
  _result REJECT;
  _prog_type BPF_PROG_TYPE_LWT_IN].

Definition search_pruning_4 : bpf_test := TEST "varlen_map_value_access pruning" [
  _insns
   [BPF_ST_MEM BPF_DW BPF_REG_10 (-8) 0; BPF_MOV64_REG BPF_REG_2 BPF_REG_10;
    BPF_ALU64_IMM BPF_ADD BPF_REG_2 (-8); BPF_LD_MAP_FD BPF_REG_1 0;
    BPF_RAW_INSN (BPF_JMP .| BPF_CALL) 0 0 0 BPF_FUNC_map_lookup_elem;
    BPF_JMP_IMM BPF_JEQ BPF_REG_0 0 8; BPF_LDX_MEM BPF_DW BPF_REG_1 BPF_REG_0 0;
    BPF_MOV32_IMM BPF_REG_2 MAX_ENTRIES; BPF_JMP_REG BPF_JSGT BPF_REG_2 BPF_REG_1 1;
    BPF_MOV32_IMM BPF_REG_1 0; BPF_ALU32_IMM BPF_LSH BPF_REG_1 2;
    BPF_ALU64_REG BPF_ADD BPF_REG_0 BPF_REG_1; BPF_JMP_IMM BPF_JA 0 0 0;
    BPF_ST_MEM BPF_DW BPF_REG_0 0 (offsetof test_val "foo"); BPF_EXIT_INSN];
  _fixup fixup_map_hash_48b [3];
  _errstr_unpriv "R0 leaks addr";
  _errstr "R0 unbounded memory access";
  _result_unpriv REJECT;
  _result REJECT;
  _flags F_NEEDS_EFFICIENT_UNALIGNED_ACCESS].

Definition search_pruning_5 : bpf_test := TEST "search pruning: all branches should be verified (nop operation)" [
  _insns
   [BPF_MOV64_REG BPF_REG_2 BPF_REG_10; BPF_ALU64_IMM BPF_ADD BPF_REG_2 (-8);
    BPF_ST_MEM BPF_DW BPF_REG_2 0 0; BPF_LD_MAP_FD BPF_REG_1 0;
    BPF_EMIT_CALL BPF_FUNC_map_lookup_elem; BPF_JMP_IMM BPF_JEQ BPF_REG_0 0 11;
    BPF_LDX_MEM BPF_DW BPF_REG_3 BPF_REG_0 0; BPF_JMP_IMM BPF_JEQ BPF_REG_3 0xbeef 2;
    BPF_MOV64_IMM BPF_REG_4 0; BPF_JMP_A 1; BPF_MOV64_IMM BPF_REG_4 1;
    BPF_STX_MEM BPF_DW BPF_REG_10 BPF_REG_4 (-16); BPF_EMIT_CALL BPF_FUNC_ktime_get_ns;
    BPF_LDX_MEM BPF_DW BPF_REG_5 BPF_REG_10 (-16); BPF_JMP_IMM BPF_JEQ BPF_REG_5 0 2;
    BPF_MOV64_IMM BPF_REG_6 0; BPF_ST_MEM BPF_DW BPF_REG_6 0 0xdead; BPF_EXIT_INSN];
  _fixup fixup_map_hash_8b [3];
  _errstr "R6 invalid mem access 'inv'";
  _result REJECT;
  _prog_type BPF_PROG_TYPE_TRACEPOINT].

Definition search_pruning_6 : bpf_test := TEST "search pruning: all branches should be verified (invalid stack access)" [
  _insns
   [BPF_MOV64_REG BPF_REG_2 BPF_REG_10; BPF_ALU64_IMM BPF_ADD BPF_REG_2 (-8);
    BPF_ST_MEM BPF_DW BPF_REG_2 0 0; BPF_LD_MAP_FD BPF_REG_1 0;
    BPF_EMIT_CALL BPF_FUNC_map_lookup_elem; BPF_JMP_IMM BPF_JEQ BPF_REG_0 0 8;
    BPF_LDX_MEM BPF_DW BPF_REG_3 BPF_REG_0 0; BPF_MOV64_IMM BPF_REG_4 0;
    BPF_JMP_IMM BPF_JEQ BPF_REG_3 0xbeef 2; BPF_STX_MEM BPF_DW BPF_REG_10 BPF_REG_4 (-16);
    BPF_JMP_A 1; BPF_STX_MEM BPF_DW BPF_REG_10 BPF_REG_4 (-24);
    BPF_EMIT_CALL BPF_FUNC_ktime_get_ns; BPF_LDX_MEM BPF_DW BPF_REG_5 BPF_REG_10 (-16);
    BPF_EXIT_INSN];
  _fixup fixup_map_hash_8b [3];
  _errstr_unpriv "invalid read from stack off -16+0 size 8";
  _result_unpriv REJECT;
  _result ACCEPT].

Definition search_pruning_7 : bpf_test := TEST "allocated_stack" [
  _insns
   [BPF_ALU64_REG BPF_MOV BPF_REG_6 BPF_REG_1;
    BPF_RAW_INSN (BPF_JMP .| BPF_CALL) 0 0 0 BPF_FUNC_get_prandom_u32;
    BPF_ALU64_REG BPF_MOV BPF_REG_7 BPF_REG_0; BPF_JMP_IMM BPF_JEQ BPF_REG_0 0 5;
    BPF_MOV64_IMM BPF_REG_0 0; BPF_STX_MEM BPF_DW BPF_REG_10 BPF_REG_6 (-8);
    BPF_LDX_MEM BPF_DW BPF_REG_6 BPF_REG_10 (-8); BPF_STX_MEM BPF_B BPF_REG_10 BPF_REG_7 (-9);
    BPF_LDX_MEM BPF_B BPF_REG_7 BPF_REG_10 (-9); BPF_JMP_IMM BPF_JNE BPF_REG_0 0 0;
    BPF_JMP_IMM BPF_JNE BPF_REG_0 0 0; BPF_JMP_IMM BPF_JNE BPF_REG_0 0 0;
    BPF_JMP_IMM BPF_JNE BPF_REG_0 0 0; BPF_EXIT_INSN];
  _result ACCEPT;
  _result_unpriv ACCEPT;
  _insn_processed 15].

Definition search_pruning_8 : bpf_test := TEST "write tracking and register parent chain bug" [
  _insns
   [BPF_EMIT_CALL BPF_FUNC_ktime_get_ns; BPF_MOV64_REG BPF_REG_6 BPF_REG_0;
    BPF_EMIT_CALL BPF_FUNC_ktime_get_ns; BPF_JMP_REG BPF_JGT BPF_REG_0 BPF_REG_6 1;
    BPF_ST_MEM BPF_DW BPF_REG_FP (-8) 0xdeadbeef; BPF_MOV64_IMM BPF_REG_1 42;
    BPF_STX_MEM BPF_B BPF_REG_FP BPF_REG_1 (-8); BPF_LDX_MEM BPF_DW BPF_REG_2 BPF_REG_FP (-8);
    BPF_MOV64_IMM BPF_REG_0 0; BPF_EXIT_INSN];
  _flags BPF_F_TEST_STATE_FREQ;
  _errstr_unpriv "invalid read from stack off -8+1 size 8";
  _result_unpriv REJECT;
  _result ACCEPT].

Definition search_pruning_tests : list bpf_test := [search_pruning_1; search_pruning_2;
  search_pruning_3; search_pruning_4; search_pruning_5; search_pruning_6; search_pruning_7;
  search_pruning_8].

(** * [var_off.c] *)

Definition var_off_1 : bpf_test := TEST "variable-offset ctx access" [
  _insns
   [BPF_LDX_MEM BPF_W BPF_REG_2 BPF_REG_1 0; BPF_ALU64_IMM BPF_AND BPF_REG_2 4;
    BPF_ALU64_REG BPF_ADD BPF_REG_1 BPF_REG_2; BPF_LDX_MEM BPF_W BPF_REG_0 BPF_REG_1 0;
    BPF_EXIT_INSN];
  _errstr "variable ctx access var_off=(0x0; 0x4)";
  _result REJECT;
  _prog_type BPF_PROG_TYPE_LWT_IN].

Definition var_off_2 : bpf_test := TEST "variable-offset stack read, priv vs unpriv" [
  _insns
   [BPF_ST_MEM BPF_DW BPF_REG_10 (-8) 0; BPF_LDX_MEM BPF_W BPF_REG_2 BPF_REG_1 0;
    BPF_ALU64_IMM BPF_AND BPF_REG_2 4; BPF_ALU64_IMM BPF_SUB BPF_REG_2 8;
    BPF_ALU64_REG BPF_ADD BPF_REG_2 BPF_REG_10; BPF_LDX_MEM BPF_W BPF_REG_0 BPF_REG_2 0;
    BPF_MOV64_IMM BPF_REG_0 0; BPF_EXIT_INSN];
  _result ACCEPT;
  _result_unpriv REJECT;
  _errstr_unpriv "R2 variable stack access prohibited for !root";
  _prog_type BPF_PROG_TYPE_CGROUP_SKB].

Definition var_off_3 : bpf_test := TEST "variable-offset stack read, uninitialized" [
  _insns
   [BPF_LDX_MEM BPF_W BPF_REG_2 BPF_REG_1 0; BPF_ALU64_IMM BPF_AND BPF_REG_2 4;
    BPF_ALU64_IMM BPF_SUB BPF_REG_2 8; BPF_ALU64_REG BPF_ADD BPF_REG_2 BPF_REG_10;
    BPF_LDX_MEM BPF_W BPF_REG_0 BPF_REG_2 0; BPF_MOV64_IMM BPF_REG_0 0; BPF_EXIT_INSN];
  _result REJECT;
  _errstr "invalid variable-offset read from stack R2";
  _prog_type BPF_PROG_TYPE_LWT_IN].

Definition var_off_4 : bpf_test := TEST "variable-offset stack write, priv vs unpriv" [
  _insns
   [BPF_LDX_MEM BPF_W BPF_REG_2 BPF_REG_1 0; BPF_ALU64_IMM BPF_AND BPF_REG_2 8;
    BPF_ALU64_IMM BPF_SUB BPF_REG_2 16; BPF_ALU64_REG BPF_ADD BPF_REG_2 BPF_REG_10;
    BPF_ST_MEM BPF_DW BPF_REG_2 0 0; BPF_LDX_MEM BPF_DW BPF_REG_3 BPF_REG_2 0;
    BPF_MOV64_IMM BPF_REG_0 0; BPF_EXIT_INSN];
  _errstr_unpriv "R2 variable stack access prohibited for !root";
  _result_unpriv REJECT;
  _result ACCEPT].

Definition var_off_5 : bpf_test := TEST "variable-offset stack write clobbers spilled regs" [
  _insns
   [BPF_MOV64_IMM BPF_REG_6 0; BPF_LD_MAP_FD BPF_REG_0 0;
    BPF_LDX_MEM BPF_W BPF_REG_2 BPF_REG_1 0; BPF_ALU64_IMM BPF_AND BPF_REG_2 8;
    BPF_ALU64_IMM BPF_SUB BPF_REG_2 16; BPF_ALU64_REG BPF_ADD BPF_REG_2 BPF_REG_10;
    BPF_STX_MEM BPF_DW BPF_REG_10 BPF_REG_0 (-8); BPF_ST_MEM BPF_DW BPF_REG_2 0 0;
    BPF_LDX_MEM BPF_DW BPF_REG_2 BPF_REG_10 (-8); BPF_LDX_MEM BPF_DW BPF_REG_0 BPF_REG_2 8;
    BPF_EXIT_INSN];
  _fixup fixup_map_hash_8b [1];
  _errstr_unpriv "R2 variable stack access prohibited for !root";
  _result_unpriv REJECT;
  _errstr "R2 invalid mem access 'inv'";
  _result REJECT].

Definition var_off_6 : bpf_test := TEST "indirect variable-offset stack access, unbounded" [
  _insns
   [BPF_MOV64_IMM BPF_REG_2 6; BPF_MOV64_IMM BPF_REG_3 28; BPF_ST_MEM BPF_DW BPF_REG_10 (-16) 0;
    BPF_ST_MEM BPF_DW BPF_REG_10 (-8) 0;
    BPF_LDX_MEM BPF_DW BPF_REG_4 BPF_REG_1 (offsetof bpf_sock_ops "bytes_received");
    BPF_JMP_IMM BPF_JSLT BPF_REG_4 0 4; BPF_ALU64_IMM BPF_SUB BPF_REG_4 16;
    BPF_ALU64_REG BPF_ADD BPF_REG_4 BPF_REG_10; BPF_MOV64_IMM BPF_REG_5 8;
    BPF_EMIT_CALL BPF_FUNC_getsockopt; BPF_MOV64_IMM BPF_REG_0 0; BPF_EXIT_INSN];
  _errstr "invalid unbounded variable-offset indirect access to stack R4";
  _result REJECT;
  _prog_type BPF_PROG_TYPE_SOCK_OPS].

Definition var_off_7 : bpf_test := TEST "indirect variable-offset stack access, max out of bound" [
  _insns
   [BPF_ST_MEM BPF_DW BPF_REG_10 (-8) 0; BPF_LDX_MEM BPF_W BPF_REG_2 BPF_REG_1 0;
    BPF_ALU64_IMM BPF_AND BPF_REG_2 4; BPF_ALU64_IMM BPF_SUB BPF_REG_2 8;
    BPF_ALU64_REG BPF_ADD BPF_REG_2 BPF_REG_10; BPF_LD_MAP_FD BPF_REG_1 0;
    BPF_RAW_INSN (BPF_JMP .| BPF_CALL) 0 0 0 BPF_FUNC_map_lookup_elem;
    BPF_MOV64_IMM BPF_REG_0 0; BPF_EXIT_INSN];
  _fixup fixup_map_hash_8b [5];
  _errstr "invalid variable-offset indirect access to stack R2";
  _result REJECT;
  _prog_type BPF_PROG_TYPE_LWT_IN].

Definition var_off_8 : bpf_test := TEST "indirect variable-offset stack access, min out of bound" [
  _insns
   [BPF_ST_MEM BPF_DW BPF_REG_10 (-8) 0; BPF_LDX_MEM BPF_W BPF_REG_2 BPF_REG_1 0;
    BPF_ALU64_IMM BPF_AND BPF_REG_2 4; BPF_ALU64_IMM BPF_SUB BPF_REG_2 516;
    BPF_ALU64_REG BPF_ADD BPF_REG_2 BPF_REG_10; BPF_LD_MAP_FD BPF_REG_1 0;
    BPF_RAW_INSN (BPF_JMP .| BPF_CALL) 0 0 0 BPF_FUNC_map_lookup_elem;
    BPF_MOV64_IMM BPF_REG_0 0; BPF_EXIT_INSN];
  _fixup fixup_map_hash_8b [5];
  _errstr "invalid variable-offset indirect access to stack R2";
  _result REJECT;
  _prog_type BPF_PROG_TYPE_LWT_IN].

Definition var_off_9 : bpf_test := TEST "indirect variable-offset stack access, min_off < min_initialized" [
  _insns
   [BPF_ST_MEM BPF_DW BPF_REG_10 (-8) 0; BPF_LDX_MEM BPF_W BPF_REG_2 BPF_REG_1 0;
    BPF_ALU64_IMM BPF_AND BPF_REG_2 4; BPF_ALU64_IMM BPF_SUB BPF_REG_2 16;
    BPF_ALU64_REG BPF_ADD BPF_REG_2 BPF_REG_10; BPF_LD_MAP_FD BPF_REG_1 0;
    BPF_EMIT_CALL BPF_FUNC_map_lookup_elem; BPF_MOV64_IMM BPF_REG_0 0; BPF_EXIT_INSN];
  _fixup fixup_map_hash_8b [5];
  _errstr "invalid indirect read from stack R2 var_off";
  _result REJECT;
  _prog_type BPF_PROG_TYPE_LWT_IN].

Definition var_off_10 : bpf_test := TEST "indirect variable-offset stack access, priv vs unpriv" [
  _insns
   [BPF_ST_MEM BPF_DW BPF_REG_10 (-16) 0; BPF_ST_MEM BPF_DW BPF_REG_10 (-8) 0;
    BPF_LDX_MEM BPF_W BPF_REG_2 BPF_REG_1 0; BPF_ALU64_IMM BPF_AND BPF_REG_2 4;
    BPF_ALU64_IMM BPF_SUB BPF_REG_2 16; BPF_ALU64_REG BPF_ADD BPF_REG_2 BPF_REG_10;
    BPF_LD_MAP_FD BPF_REG_1 0; BPF_EMIT_CALL BPF_FUNC_map_lookup_elem;
    BPF_MOV64_IMM BPF_REG_0 0; BPF_EXIT_INSN];
  _fixup fixup_map_hash_8b [6];
  _errstr_unpriv "R2 variable stack access prohibited for !root";
  _result_unpriv REJECT;
  _result ACCEPT;
  _prog_type BPF_PROG_TYPE_CGROUP_SKB].

Definition var_off_11 : bpf_test := TEST "indirect variable-offset stack access, ok" [
  _insns
   [BPF_ST_MEM BPF_DW BPF_REG_10 (-16) 0; BPF_ST_MEM BPF_DW BPF_REG_10 (-8) 0;
    BPF_LDX_MEM BPF_W BPF_REG_2 BPF_REG_1 0; BPF_ALU64_IMM BPF_AND BPF_REG_2 4;
    BPF_ALU64_IMM BPF_SUB BPF_REG_2 16; BPF_ALU64_REG BPF_ADD BPF_REG_2 BPF_REG_10;
    BPF_LD_MAP_FD BPF_REG_1 0; BPF_EMIT_CALL BPF_FUNC_map_lookup_elem;
    BPF_MOV64_IMM BPF_REG_0 0; BPF_EXIT_INSN];
  _fixup fixup_map_hash_8b [6];
  _result ACCEPT;
  _prog_type BPF_PROG_TYPE_LWT_IN].

Definition var_off_tests : list bpf_test := [var_off_1; var_off_2; var_off_3; var_off_4; var_off_5;
  var_off_6; var_off_7; var_off_8; var_off_9; var_off_10; var_off_11].

End LegacyBounds.
