(* ===== verification/LegacyHelper.v ===== *)
(** Verifier tests of the repository, helpers: memory arguments, locks, pointer leaks.

    Each definition is one element of a file of [selftests/legacy/verifier],
    written with the macros of [BpfInsn] and the designators of [ConvertTests];
    a list per file gives them in the order of the file. *)

From S2P Require Import Prelude BpfInsn ConvertTests.
From Stdlib Require Import ZArith String.
From stdpp Require Import base strings list.
Import BpfInsn ConvertTests.
Open Scope Z_scope.

Module LegacyHelper.

(** * [bpf_get_stack.c] *)

Definition bpf_get_stack_1 : bpf_test := TEST "bpf_get_stack return R0 within range" [
  _insns
   [BPF_MOV64_REG BPF_REG_6 BPF_REG_1; BPF_ST_MEM BPF_DW BPF_REG_10 (-8) 0;
    BPF_MOV64_REG BPF_REG_2 BPF_REG_10; BPF_ALU64_IMM BPF_ADD BPF_REG_2 (-8);
    BPF_LD_MAP_FD BPF_REG_1 0;
    BPF_RAW_INSN (BPF_JMP .| BPF_CALL) 0 0 0 BPF_FUNC_map_lookup_elem;
    BPF_JMP_IMM BPF_JEQ BPF_REG_0 0 28; BPF_MOV64_REG BPF_REG_7 BPF_REG_0;
    BPF_MOV64_IMM BPF_REG_9 ((sizeof test_val) / 2); BPF_MOV64_REG BPF_REG_1 BPF_REG_6;
    BPF_MOV64_REG BPF_REG_2 BPF_REG_7; BPF_MOV64_IMM BPF_REG_3 ((sizeof test_val) / 2);
    BPF_MOV64_IMM BPF_REG_4 256; BPF_EMIT_CALL BPF_FUNC_get_stack; BPF_MOV64_IMM BPF_REG_1 0;
    BPF_MOV64_REG BPF_REG_8 BPF_REG_0; BPF_ALU64_IMM BPF_LSH BPF_REG_8 32;
    BPF_ALU64_IMM BPF_ARSH BPF_REG_8 32; BPF_JMP_REG BPF_JSGT BPF_REG_1 BPF_REG_8 16;
    BPF_ALU64_REG BPF_SUB BPF_REG_9 BPF_REG_8; BPF_MOV64_REG BPF_REG_2 BPF_REG_7;
    BPF_ALU64_REG BPF_ADD BPF_REG_2 BPF_REG_8; BPF_MOV64_REG BPF_REG_1 BPF_REG_9;
    BPF_ALU64_IMM BPF_LSH BPF_REG_1 32; BPF_ALU64_IMM BPF_ARSH BPF_REG_1 32;
    BPF_MOV64_REG BPF_REG_3 BPF_REG_2; BPF_ALU64_REG BPF_ADD BPF_REG_3 BPF_REG_1;
    BPF_MOV64_REG BPF_REG_1 BPF_REG_7; BPF_MOV64_IMM BPF_REG_5 ((sizeof test_val) / 2);
    BPF_ALU64_REG BPF_ADD BPF_REG_1 BPF_REG_5; BPF_JMP_REG BPF_JGE BPF_REG_3 BPF_REG_1 4;
    BPF_MOV64_REG BPF_REG_1 BPF_REG_6; BPF_MOV64_REG BPF_REG_3 BPF_REG_9;
    BPF_MOV64_IMM BPF_REG_4 0; BPF_EMIT_CALL BPF_FUNC_get_stack; BPF_EXIT_INSN];
  _fixup fixup_map_hash_48b [4];
  _result ACCEPT;
  _prog_type BPF_PROG_TYPE_TRACEPOINT].

Definition bpf_get_stack_2 : bpf_test := TEST "bpf_get_task_stack return R0 range is refined" [
  _insns
   [BPF_LDX_MEM BPF_DW BPF_REG_6 BPF_REG_1 0; BPF_LDX_MEM BPF_DW BPF_REG_6 BPF_REG_6 0;
    BPF_LDX_MEM BPF_DW BPF_REG_7 BPF_REG_1 8; BPF_LD_MAP_FD BPF_REG_1 0;
    BPF_ST_MEM BPF_DW BPF_REG_10 (-8) 0; BPF_MOV64_REG BPF_REG_2 BPF_REG_10;
    BPF_ALU64_IMM BPF_ADD BPF_REG_2 (-8);
    BPF_RAW_INSN (BPF_JMP .| BPF_CALL) 0 0 0 BPF_FUNC_map_lookup_elem;
    BPF_JMP_IMM BPF_JNE BPF_REG_0 0 2; BPF_MOV64_IMM BPF_REG_0 0; BPF_EXIT_INSN;
    BPF_JMP_IMM BPF_JNE BPF_REG_7 0 2; BPF_MOV64_IMM BPF_REG_0 0; BPF_EXIT_INSN;
    BPF_MOV64_REG BPF_REG_1 BPF_REG_7; BPF_MOV64_REG BPF_REG_2 BPF_REG_0;
    BPF_MOV64_REG BPF_REG_9 BPF_REG_0; BPF_MOV64_IMM BPF_REG_3 48; BPF_MOV64_IMM BPF_REG_4 0;
    BPF_EMIT_CALL BPF_FUNC_get_task_stack; BPF_JMP_IMM BPF_JSGT BPF_REG_0 0 2;
    BPF_MOV64_IMM BPF_REG_0 0; BPF_EXIT_INSN; BPF_MOV64_REG BPF_REG_1 BPF_REG_6;
    BPF_MOV64_REG BPF_REG_2 BPF_REG_9; BPF_MOV64_REG BPF_REG_3 BPF_REG_0;
    BPF_EMIT_CALL BPF_FUNC_seq_write; BPF_MOV64_IMM BPF_REG_0 0; BPF_EXIT_INSN];
  _result ACCEPT;
  _prog_type BPF_PROG_TYPE_TRACING;
  _expected_attach_type BPF_TRACE_ITER;
  _kfunc "task";
  _runs (-1);
  _fixup fixup_map_array_48b [3]].

Definition bpf_get_stack_tests : list bpf_test := [bpf_get_stack_1; bpf_get_stack_2].

(** * [d_path.c] *)

Definition d_path_1 : bpf_test := TEST "d_path accept" [
  _insns
   [BPF_LDX_MEM BPF_W BPF_REG_1 BPF_REG_1 0; BPF_MOV64_REG BPF_REG_2 BPF_REG_10;
    BPF_ALU64_IMM BPF_ADD BPF_REG_2 (-8); BPF_MOV64_IMM BPF_REG_6 0;
    BPF_STX_MEM BPF_DW BPF_REG_2 BPF_REG_6 0; BPF_LD_IMM64 BPF_REG_3 8;
    BPF_RAW_INSN (BPF_JMP .| BPF_CALL) 0 0 0 BPF_FUNC_d_path; BPF_MOV64_IMM BPF_REG_0 0;
    BPF_EXIT_INSN];
  _result ACCEPT;
  _prog_type BPF_PROG_TYPE_TRACING;
  _expected_attach_type BPF_TRACE_FENTRY;
  _kfunc "dentry_open"].

Definition d_path_2 : bpf_test := TEST "d_path reject" [
  _insns
   [BPF_LDX_MEM BPF_W BPF_REG_1 BPF_REG_1 0; BPF_MOV64_REG BPF_REG_2 BPF_REG_10;
    BPF_ALU64_IMM BPF_ADD BPF_REG_2 (-8); BPF_MOV64_IMM BPF_REG_6 0;
    BPF_STX_MEM BPF_DW BPF_REG_2 BPF_REG_6 0; BPF_LD_IMM64 BPF_REG_3 8;
    BPF_RAW_INSN (BPF_JMP .| BPF_CALL) 0 0 0 BPF_FUNC_d_path; BPF_MOV64_IMM BPF_REG_0 0;
    BPF_EXIT_INSN];
  _errstr "helper call is not allowed in probe";
  _result REJECT;
  _prog_type BPF_PROG_TYPE_TRACING;
  _expected_attach_type BPF_TRACE_FENTRY;
  _kfunc "d_path"].

Definition d_path_tests : list bpf_test := [d_path_1; d_path_2].

(** * [helper_access_var_len.c] *)

Definition helper_access_var_len_1 : bpf_test := TEST "helper access to variable memory: stack, bitwise AND + JMP, correct bounds" [
  _insns
   [BPF_MOV64_REG BPF_REG_1 BPF_REG_10; BPF_ALU64_IMM BPF_ADD BPF_REG_1 (-64);
    BPF_MOV64_IMM BPF_REG_0 0; BPF_STX_MEM BPF_DW BPF_REG_10 BPF_REG_0 (-64);
    BPF_STX_MEM BPF_DW BPF_REG_10 BPF_REG_0 (-56);
    BPF_STX_MEM BPF_DW BPF_REG_10 BPF_REG_0 (-48);
    BPF_STX_MEM BPF_DW BPF_REG_10 BPF_REG_0 (-40);
    BPF_STX_MEM BPF_DW BPF_REG_10 BPF_REG_0 (-32);
    BPF_STX_MEM BPF_DW BPF_REG_10 BPF_REG_0 (-24);
    BPF_STX_MEM BPF_DW BPF_REG_10 BPF_REG_0 (-16); BPF_STX_MEM BPF_DW BPF_REG_10 BPF_REG_0 (-8);
    BPF_MOV64_IMM BPF_REG_2 16; BPF_STX_MEM BPF_DW BPF_REG_1 BPF_REG_2 (-128);
    BPF_LDX_MEM BPF_DW BPF_REG_2 BPF_REG_1 (-128); BPF_ALU64_IMM BPF_AND BPF_REG_2 64;
    BPF_MOV64_IMM BPF_REG_4 0; BPF_JMP_REG BPF_JGE BPF_REG_4 BPF_REG_2 2;
    BPF_MOV64_IMM BPF_REG_3 0; BPF_EMIT_CALL BPF_FUNC_probe_read_kernel;
    BPF_MOV64_IMM BPF_REG_0 0; BPF_EXIT_INSN];
  _result ACCEPT;
  _prog_type BPF_PROG_TYPE_TRACEPOINT].

Definition helper_access_var_len_2 : bpf_test := TEST "helper access to variable memory: stack, bitwise AND, zero included" [
  _insns
   [BPF_ST_MEM BPF_DW BPF_REG_10 (-128) 0; BPF_EMIT_CALL BPF_FUNC_get_prandom_u32;
    BPF_MOV64_REG BPF_REG_3 BPF_REG_0; BPF_ALU64_IMM BPF_AND BPF_REG_3 64;
    BPF_LD_MAP_FD BPF_REG_1 0; BPF_MOV64_REG BPF_REG_2 BPF_REG_10;
    BPF_ALU64_IMM BPF_ADD BPF_REG_2 (-64); BPF_MOV64_IMM BPF_REG_4 0;
    BPF_EMIT_CALL BPF_FUNC_ringbuf_output; BPF_EXIT_INSN];
  _fixup fixup_map_ringbuf [4];
  _errstr_unpriv "invalid indirect read from stack R2 off -64+0 size 64";
  _result_unpriv REJECT;
  _result ACCEPT].

Definition helper_access_var_len_3 : bpf_test := TEST "helper access to variable memory: stack, bitwise AND + JMP, wrong max" [
  _insns
   [BPF_LDX_MEM BPF_DW BPF_REG_2 BPF_REG_1 8; BPF_MOV64_REG BPF_REG_1 BPF_REG_10;
    BPF_ALU64_IMM BPF_ADD BPF_REG_1 (-64); BPF_STX_MEM BPF_DW BPF_REG_1 BPF_REG_2 (-128);
    BPF_LDX_MEM BPF_DW BPF_REG_2 BPF_REG_1 (-128); BPF_ALU64_IMM BPF_AND BPF_REG_2 65;
    BPF_MOV64_IMM BPF_REG_4 0; BPF_JMP_REG BPF_JGE BPF_REG_4 BPF_REG_2 2;
    BPF_MOV64_IMM BPF_REG_3 0; BPF_EMIT_CALL BPF_FUNC_probe_read_kernel;
    BPF_MOV64_IMM BPF_REG_0 0; BPF_EXIT_INSN];
  _errstr "invalid indirect access to stack R1 off=-64 size=65";
  _result REJECT;
  _prog_type BPF_PROG_TYPE_TRACEPOINT].

Definition helper_access_var_len_4 : bpf_test := TEST "helper access to variable memory: stack, JMP, correct bounds" [
  _insns
   [BPF_MOV64_REG BPF_REG_1 BPF_REG_10; BPF_ALU64_IMM BPF_ADD BPF_REG_1 (-64);
    BPF_MOV64_IMM BPF_REG_0 0; BPF_STX_MEM BPF_DW BPF_REG_10 BPF_REG_0 (-64);
    BPF_STX_MEM BPF_DW BPF_REG_10 BPF_REG_0 (-56);
    BPF_STX_MEM BPF_DW BPF_REG_10 BPF_REG_0 (-48);
    BPF_STX_MEM BPF_DW BPF_REG_10 BPF_REG_0 (-40);
    BPF_STX_MEM BPF_DW BPF_REG_10 BPF_REG_0 (-32);
    BPF_STX_MEM BPF_DW BPF_REG_10 BPF_REG_0 (-24);
    BPF_STX_MEM BPF_DW BPF_REG_10 BPF_REG_0 (-16); BPF_STX_MEM BPF_DW BPF_REG_10 BPF_REG_0 (-8);
    BPF_MOV64_IMM BPF_REG_2 16; BPF_STX_MEM BPF_DW BPF_REG_1 BPF_REG_2 (-128);
    BPF_LDX_MEM BPF_DW BPF_REG_2 BPF_REG_1 (-128); BPF_JMP_IMM BPF_JGT BPF_REG_2 64 4;
    BPF_MOV64_IMM BPF_REG_4 0; BPF_JMP_REG BPF_JGE BPF_REG_4 BPF_REG_2 2;
    BPF_MOV64_IMM BPF_REG_3 0; BPF_EMIT_CALL BPF_FUNC_probe_read_kernel;
    BPF_MOV64_IMM BPF_REG_0 0; BPF_EXIT_INSN];
  _result ACCEPT;
  _prog_type BPF_PROG_TYPE_TRACEPOINT].

Definition helper_access_var_len_5 : bpf_test := TEST "helper access to variable memory: stack, JMP (signed), correct bounds" [
  _insns
   [BPF_MOV64_REG BPF_REG_1 BPF_REG_10; BPF_ALU64_IMM BPF_ADD BPF_REG_1 (-64);
    BPF_MOV64_IMM BPF_REG_0 0; BPF_STX_MEM BPF_DW BPF_REG_10 BPF_REG_0 (-64);
    BPF_STX_MEM BPF_DW BPF_REG_10 BPF_REG_0 (-56);
    BPF_STX_MEM BPF_DW BPF_REG_10 BPF_REG_0 (-48);
    BPF_STX_MEM BPF_DW BPF_REG_10 BPF_REG_0 (-40);
    BPF_STX_MEM BPF_DW BPF_REG_10 BPF_REG_0 (-32);
    BPF_STX_MEM BPF_DW BPF_REG_10 BPF_REG_0 (-24);
    BPF_STX_MEM BPF_DW BPF_REG_10 BPF_REG_0 (-16); BPF_STX_MEM BPF_DW BPF_REG_10 BPF_REG_0 (-8);
    BPF_MOV64_IMM BPF_REG_2 16; BPF_STX_MEM BPF_DW BPF_REG_1 BPF_REG_2 (-128);
    BPF_LDX_MEM BPF_DW BPF_REG_2 BPF_REG_1 (-128); BPF_JMP_IMM BPF_JSGT BPF_REG_2 64 4;
    BPF_MOV64_IMM BPF_REG_4 0; BPF_JMP_REG BPF_JSGE BPF_REG_4 BPF_REG_2 2;
    BPF_MOV64_IMM BPF_REG_3 0; BPF_EMIT_CALL BPF_FUNC_probe_read_kernel;
    BPF_MOV64_IMM BPF_REG_0 0; BPF_EXIT_INSN];
  _result ACCEPT;
  _prog_type BPF_PROG_TYPE_TRACEPOINT].

Definition helper_access_var_len_6 : bpf_test := TEST "helper access to variable memory: stack, JMP, bounds + offset" [
  _insns
   [BPF_LDX_MEM BPF_DW BPF_REG_2 BPF_REG_1 8; BPF_MOV64_REG BPF_REG_1 BPF_REG_10;
    BPF_ALU64_IMM BPF_ADD BPF_REG_1 (-64); BPF_STX_MEM BPF_DW BPF_REG_1 BPF_REG_2 (-128);
    BPF_LDX_MEM BPF_DW BPF_REG_2 BPF_REG_1 (-128); BPF_JMP_IMM BPF_JGT BPF_REG_2 64 5;
    BPF_MOV64_IMM BPF_REG_4 0; BPF_JMP_REG BPF_JGE BPF_REG_4 BPF_REG_2 3;
    BPF_ALU64_IMM BPF_ADD BPF_REG_2 1; BPF_MOV64_IMM BPF_REG_3 0;
    BPF_EMIT_CALL BPF_FUNC_probe_read_kernel; BPF_MOV64_IMM BPF_REG_0 0; BPF_EXIT_INSN];
  _errstr "invalid indirect access to stack R1 off=-64 size=65";
  _result REJECT;
  _prog_type BPF_PROG_TYPE_TRACEPOINT].

Definition helper_access_var_len_7 : bpf_test := TEST "helper access to variable memory: stack, JMP, wrong max" [
  _insns
   [BPF_LDX_MEM BPF_DW BPF_REG_2 BPF_REG_1 8; BPF_MOV64_REG BPF_REG_1 BPF_REG_10;
    BPF_ALU64_IMM BPF_ADD BPF_REG_1 (-64); BPF_STX_MEM BPF_DW BPF_REG_1 BPF_REG_2 (-128);
    BPF_LDX_MEM BPF_DW BPF_REG_2 BPF_REG_1 (-128); BPF_JMP_IMM BPF_JGT BPF_REG_2 65 4;
    BPF_MOV64_IMM BPF_REG_4 0; BPF_JMP_REG BPF_JGE BPF_REG_4 BPF_REG_2 2;
    BPF_MOV64_IMM BPF_REG_3 0; BPF_EMIT_CALL BPF_FUNC_probe_read_kernel;
    BPF_MOV64_IMM BPF_REG_0 0; BPF_EXIT_INSN];
  _errstr "invalid indirect access to stack R1 off=-64 size=65";
  _result REJECT;
  _prog_type BPF_PROG_TYPE_TRACEPOINT].

Definition helper_access_var_len_8 : bpf_test := TEST "helper access to variable memory: stack, JMP, no max check" [
  _insns
   [BPF_LDX_MEM BPF_DW BPF_REG_2 BPF_REG_1 8; BPF_MOV64_REG BPF_REG_1 BPF_REG_10;
    BPF_ALU64_IMM BPF_ADD BPF_REG_1 (-64); BPF_STX_MEM BPF_DW BPF_REG_1 BPF_REG_2 (-128);
    BPF_LDX_MEM BPF_DW BPF_REG_2 BPF_REG_1 (-128); BPF_MOV64_IMM BPF_REG_4 0;
    BPF_JMP_REG BPF_JGE BPF_REG_4 BPF_REG_2 2; BPF_MOV64_IMM BPF_REG_3 0;
    BPF_EMIT_CALL BPF_FUNC_probe_read_kernel; BPF_MOV64_IMM BPF_REG_0 0; BPF_EXIT_INSN];
  _errstr "R2 min value is negative, either use unsigned or 'var &= const'";
  _result REJECT;
  _prog_type BPF_PROG_TYPE_TRACEPOINT].

Definition helper_access_var_len_9 : bpf_test := TEST "helper access to variable memory: stack, JMP, no min check" [
  _insns
   [BPF_ST_MEM BPF_DW BPF_REG_10 (-128) 0; BPF_EMIT_CALL BPF_FUNC_get_prandom_u32;
    BPF_MOV64_REG BPF_REG_3 BPF_REG_0; BPF_JMP_IMM BPF_JGT BPF_REG_3 64 6;
    BPF_LD_MAP_FD BPF_REG_1 0; BPF_MOV64_REG BPF_REG_2 BPF_REG_10;
    BPF_ALU64_IMM BPF_ADD BPF_REG_2 (-64); BPF_MOV64_IMM BPF_REG_4 0;
    BPF_EMIT_CALL BPF_FUNC_ringbuf_output; BPF_MOV64_IMM BPF_REG_0 0; BPF_EXIT_INSN];
  _fixup fixup_map_ringbuf [4];
  _errstr_unpriv "invalid indirect read from stack R2 off -64+0 size 64";
  _result_unpriv REJECT;
  _result ACCEPT].

Definition helper_access_var_len_10 : bpf_test := TEST "helper access to variable memory: stack, JMP (signed), no min check" [
  _insns
   [BPF_LDX_MEM BPF_DW BPF_REG_2 BPF_REG_1 8; BPF_MOV64_REG BPF_REG_1 BPF_REG_10;
    BPF_ALU64_IMM BPF_ADD BPF_REG_1 (-64); BPF_STX_MEM BPF_DW BPF_REG_1 BPF_REG_2 (-128);
    BPF_LDX_MEM BPF_DW BPF_REG_2 BPF_REG_1 (-128); BPF_JMP_IMM BPF_JSGT BPF_REG_2 64 3;
    BPF_MOV64_IMM BPF_REG_3 0; BPF_EMIT_CALL BPF_FUNC_probe_read_kernel;
    BPF_MOV64_IMM BPF_REG_0 0; BPF_EXIT_INSN];
  _errstr "R2 min value is negative";
  _result REJECT;
  _prog_type BPF_PROG_TYPE_TRACEPOINT].

Definition helper_access_var_len_11 : bpf_test := TEST "helper access to variable memory: map, JMP, correct bounds" [
  _insns
   [BPF_MOV64_REG BPF_REG_2 BPF_REG_10; BPF_ALU64_IMM BPF_ADD BPF_REG_2 (-8);
    BPF_ST_MEM BPF_DW BPF_REG_2 0 0; BPF_LD_MAP_FD BPF_REG_1 0;
    BPF_EMIT_CALL BPF_FUNC_map_lookup_elem; BPF_JMP_IMM BPF_JEQ BPF_REG_0 0 10;
    BPF_MOV64_REG BPF_REG_1 BPF_REG_0; BPF_MOV64_IMM BPF_REG_2 (sizeof test_val);
    BPF_STX_MEM BPF_DW BPF_REG_10 BPF_REG_2 (-128);
    BPF_LDX_MEM BPF_DW BPF_REG_2 BPF_REG_10 (-128);
    BPF_JMP_IMM BPF_JSGT BPF_REG_2 (sizeof test_val) 4; BPF_MOV64_IMM BPF_REG_4 0;
    BPF_JMP_REG BPF_JSGE BPF_REG_4 BPF_REG_2 2; BPF_MOV64_IMM BPF_REG_3 0;
    BPF_EMIT_CALL BPF_FUNC_probe_read_kernel; BPF_MOV64_IMM BPF_REG_0 0; BPF_EXIT_INSN];
  _fixup fixup_map_hash_48b [3];
  _result ACCEPT;
  _prog_type BPF_PROG_TYPE_TRACEPOINT].

Definition helper_access_var_len_12 : bpf_test := TEST "helper access to variable memory: map, JMP, wrong max" [
  _insns
   [BPF_LDX_MEM BPF_DW BPF_REG_6 BPF_REG_1 8; BPF_MOV64_REG BPF_REG_2 BPF_REG_10;
    BPF_ALU64_IMM BPF_ADD BPF_REG_2 (-8); BPF_ST_MEM BPF_DW BPF_REG_2 0 0;
    BPF_LD_MAP_FD BPF_REG_1 0; BPF_EMIT_CALL BPF_FUNC_map_lookup_elem;
    BPF_JMP_IMM BPF_JEQ BPF_REG_0 0 10; BPF_MOV64_REG BPF_REG_1 BPF_REG_0;
    BPF_MOV64_REG BPF_REG_2 BPF_REG_6; BPF_STX_MEM BPF_DW BPF_REG_10 BPF_REG_2 (-128);
    BPF_LDX_MEM BPF_DW BPF_REG_2 BPF_REG_10 (-128);
    BPF_JMP_IMM BPF_JSGT BPF_REG_2 ((sizeof test_val) + 1) 4; BPF_MOV64_IMM BPF_REG_4 0;
    BPF_JMP_REG BPF_JSGE BPF_REG_4 BPF_REG_2 2; BPF_MOV64_IMM BPF_REG_3 0;
    BPF_EMIT_CALL BPF_FUNC_probe_read_kernel; BPF_MOV64_IMM BPF_REG_0 0; BPF_EXIT_INSN];
  _fixup fixup_map_hash_48b [4];
  _errstr "invalid access to map value, value_size=48 off=0 size=49";
  _result REJECT;
  _prog_type BPF_PROG_TYPE_TRACEPOINT].

Definition helper_access_var_len_13 : bpf_test := TEST "helper access to variable memory: map adjusted, JMP, correct bounds" [
  _insns
   [BPF_MOV64_REG BPF_REG_2 BPF_REG_10; BPF_ALU64_IMM BPF_ADD BPF_REG_2 (-8);
    BPF_ST_MEM BPF_DW BPF_REG_2 0 0; BPF_LD_MAP_FD BPF_REG_1 0;
    BPF_EMIT_CALL BPF_FUNC_map_lookup_elem; BPF_JMP_IMM BPF_JEQ BPF_REG_0 0 11;
    BPF_MOV64_REG BPF_REG_1 BPF_REG_0; BPF_ALU64_IMM BPF_ADD BPF_REG_1 20;
    BPF_MOV64_IMM BPF_REG_2 (sizeof test_val); BPF_STX_MEM BPF_DW BPF_REG_10 BPF_REG_2 (-128);
    BPF_LDX_MEM BPF_DW BPF_REG_2 BPF_REG_10 (-128);
    BPF_JMP_IMM BPF_JSGT BPF_REG_2 ((sizeof test_val) - 20) 4; BPF_MOV64_IMM BPF_REG_4 0;
    BPF_JMP_REG BPF_JSGE BPF_REG_4 BPF_REG_2 2; BPF_MOV64_IMM BPF_REG_3 0;
    BPF_EMIT_CALL BPF_FUNC_probe_read_kernel; BPF_MOV64_IMM BPF_REG_0 0; BPF_EXIT_INSN];
  _fixup fixup_map_hash_48b [3];
  _result ACCEPT;
  _prog_type BPF_PROG_TYPE_TRACEPOINT].

Definition helper_access_var_len_14 : bpf_test := TEST "helper access to variable memory: map adjusted, JMP, wrong max" [
  _insns
   [BPF_LDX_MEM BPF_DW BPF_REG_6 BPF_REG_1 8; BPF_MOV64_REG BPF_REG_2 BPF_REG_10;
    BPF_ALU64_IMM BPF_ADD BPF_REG_2 (-8); BPF_ST_MEM BPF_DW BPF_REG_2 0 0;
    BPF_LD_MAP_FD BPF_REG_1 0; BPF_EMIT_CALL BPF_FUNC_map_lookup_elem;
    BPF_JMP_IMM BPF_JEQ BPF_REG_0 0 11; BPF_MOV64_REG BPF_REG_1 BPF_REG_0;
    BPF_ALU64_IMM BPF_ADD BPF_REG_1 20; BPF_MOV64_REG BPF_REG_2 BPF_REG_6;
    BPF_STX_MEM BPF_DW BPF_REG_10 BPF_REG_2 (-128);
    BPF_LDX_MEM BPF_DW BPF_REG_2 BPF_REG_10 (-128);
    BPF_JMP_IMM BPF_JSGT BPF_REG_2 ((sizeof test_val) - 19) 4; BPF_MOV64_IMM BPF_REG_4 0;
    BPF_JMP_REG BPF_JSGE BPF_REG_4 BPF_REG_2 2; BPF_MOV64_IMM BPF_REG_3 0;
    BPF_EMIT_CALL BPF_FUNC_probe_read_kernel; BPF_MOV64_IMM BPF_REG_0 0; BPF_EXIT_INSN];
  _fixup fixup_map_hash_48b [4];
  _errstr "R1 min value is outside of the allowed memory range";
  _result REJECT;
  _prog_type BPF_PROG_TYPE_TRACEPOINT].

Definition helper_access_var_len_15 : bpf_test := TEST "helper access to variable memory: size = 0 allowed on NULL (ARG_PTR_TO_MEM_OR_NULL)" [
  _insns
   [BPF_MOV64_IMM BPF_REG_1 0; BPF_MOV64_IMM BPF_REG_2 0; BPF_MOV64_IMM BPF_REG_3 0;
    BPF_MOV64_IMM BPF_REG_4 0; BPF_MOV64_IMM BPF_REG_5 0; BPF_EMIT_CALL BPF_FUNC_csum_diff;
    BPF_EXIT_INSN];
  _result ACCEPT;
  _prog_type BPF_PROG_TYPE_SCHED_CLS].

Definition helper_access_var_len_16 : bpf_test := TEST "helper access to variable memory: size > 0 not allowed on NULL (ARG_PTR_TO_MEM_OR_NULL)" [
  _insns
   [BPF_LDX_MEM BPF_W BPF_REG_2 BPF_REG_1 0; BPF_MOV64_IMM BPF_REG_1 0;
    BPF_STX_MEM BPF_DW BPF_REG_10 BPF_REG_2 (-128);
    BPF_LDX_MEM BPF_DW BPF_REG_2 BPF_REG_10 (-128); BPF_ALU64_IMM BPF_AND BPF_REG_2 64;
    BPF_MOV64_IMM BPF_REG_3 0; BPF_MOV64_IMM BPF_REG_4 0; BPF_MOV64_IMM BPF_REG_5 0;
    BPF_EMIT_CALL BPF_FUNC_csum_diff; BPF_EXIT_INSN];
  _errstr "R1 type=inv expected=fp";
  _result REJECT;
  _prog_type BPF_PROG_TYPE_SCHED_CLS].

Definition helper_access_var_len_17 : bpf_test := TEST "helper access to variable memory: size = 0 allowed on != NULL stack pointer (ARG_PTR_TO_MEM_OR_NULL)" [
  _insns
   [BPF_MOV64_REG BPF_REG_1 BPF_REG_10; BPF_ALU64_IMM BPF_ADD BPF_REG_1 (-8);
    BPF_MOV64_IMM BPF_REG_2 0; BPF_STX_MEM BPF_DW BPF_REG_1 BPF_REG_2 0;
    BPF_ALU64_IMM BPF_AND BPF_REG_2 8; BPF_MOV64_IMM BPF_REG_3 0; BPF_MOV64_IMM BPF_REG_4 0;
    BPF_MOV64_IMM BPF_REG_5 0; BPF_EMIT_CALL BPF_FUNC_csum_diff; BPF_EXIT_INSN];
  _result ACCEPT;
  _prog_type BPF_PROG_TYPE_SCHED_CLS].

Definition helper_access_var_len_18 : bpf_test := TEST "helper access to variable memory: size = 0 allowed on != NULL map pointer (ARG_PTR_TO_MEM_OR_NULL)" [
  _insns
   [BPF_ST_MEM BPF_DW BPF_REG_10 (-8) 0; BPF_MOV64_REG BPF_REG_2 BPF_REG_10;
    BPF_ALU64_IMM BPF_ADD BPF_REG_2 (-8); BPF_LD_MAP_FD BPF_REG_1 0;
    BPF_RAW_INSN (BPF_JMP .| BPF_CALL) 0 0 0 BPF_FUNC_map_lookup_elem;
    BPF_JMP_IMM BPF_JEQ BPF_REG_0 0 6; BPF_MOV64_REG BPF_REG_1 BPF_REG_0;
    BPF_MOV64_IMM BPF_REG_2 0; BPF_MOV64_IMM BPF_REG_3 0; BPF_MOV64_IMM BPF_REG_4 0;
    BPF_MOV64_IMM BPF_REG_5 0; BPF_EMIT_CALL BPF_FUNC_csum_diff; BPF_EXIT_INSN];
  _fixup fixup_map_hash_8b [3];
  _result ACCEPT;
  _prog_type BPF_PROG_TYPE_SCHED_CLS].

Definition helper_access_var_len_19 : bpf_test := TEST "helper access to variable memory: size possible = 0 allowed on != NULL stack pointer (ARG_PTR_TO_MEM_OR_NULL)" [
  _insns
   [BPF_ST_MEM BPF_DW BPF_REG_10 (-8) 0; BPF_MOV64_REG BPF_REG_2 BPF_REG_10;
    BPF_ALU64_IMM BPF_ADD BPF_REG_2 (-8); BPF_LD_MAP_FD BPF_REG_1 0;
    BPF_RAW_INSN (BPF_JMP .| BPF_CALL) 0 0 0 BPF_FUNC_map_lookup_elem;
    BPF_JMP_IMM BPF_JEQ BPF_REG_0 0 9; BPF_LDX_MEM BPF_DW BPF_REG_2 BPF_REG_0 0;
    BPF_JMP_IMM BPF_JGT BPF_REG_2 8 7; BPF_MOV64_REG BPF_REG_1 BPF_REG_10;
    BPF_ALU64_IMM BPF_ADD BPF_REG_1 (-8); BPF_STX_MEM BPF_DW BPF_REG_1 BPF_REG_2 0;
    BPF_MOV64_IMM BPF_REG_3 0; BPF_MOV64_IMM BPF_REG_4 0; BPF_MOV64_IMM BPF_REG_5 0;
    BPF_EMIT_CALL BPF_FUNC_csum_diff; BPF_EXIT_INSN];
  _fixup fixup_map_hash_8b [3];
  _result ACCEPT;
  _prog_type BPF_PROG_TYPE_SCHED_CLS].

Definition helper_access_var_len_20 : bpf_test := TEST "helper access to variable memory: size possible = 0 allowed on != NULL map pointer (ARG_PTR_TO_MEM_OR_NULL)" [
  _insns
   [BPF_ST_MEM BPF_DW BPF_REG_10 (-8) 0; BPF_MOV64_REG BPF_REG_2 BPF_REG_10;
    BPF_ALU64_IMM BPF_ADD BPF_REG_2 (-8); BPF_LD_MAP_FD BPF_REG_1 0;
    BPF_RAW_INSN (BPF_JMP .| BPF_CALL) 0 0 0 BPF_FUNC_map_lookup_elem;
    BPF_JMP_IMM BPF_JEQ BPF_REG_0 0 7; BPF_MOV64_REG BPF_REG_1 BPF_REG_0;
    BPF_LDX_MEM BPF_DW BPF_REG_2 BPF_REG_0 0; BPF_JMP_IMM BPF_JGT BPF_REG_2 8 4;
    BPF_MOV64_IMM BPF_REG_3 0; BPF_MOV64_IMM BPF_REG_4 0; BPF_MOV64_IMM BPF_REG_5 0;
    BPF_EMIT_CALL BPF_FUNC_csum_diff; BPF_EXIT_INSN];
  _fixup fixup_map_hash_8b [3];
  _result ACCEPT;
  _prog_type BPF_PROG_TYPE_SCHED_CLS].

Definition helper_access_var_len_21 : bpf_test := TEST "helper access to variable memory: size possible = 0 allowed on != NULL packet pointer (ARG_PTR_TO_MEM_OR_NULL)" [
  _insns
   [BPF_LDX_MEM BPF_W BPF_REG_6 BPF_REG_1 (offsetof __sk_buff "data");
    BPF_LDX_MEM BPF_W BPF_REG_3 BPF_REG_1 (offsetof __sk_buff "data_end");
    BPF_MOV64_REG BPF_REG_0 BPF_REG_6; BPF_ALU64_IMM BPF_ADD BPF_REG_0 8;
    BPF_JMP_REG BPF_JGT BPF_REG_0 BPF_REG_3 7; BPF_MOV64_REG BPF_REG_1 BPF_REG_6;
    BPF_LDX_MEM BPF_DW BPF_REG_2 BPF_REG_6 0; BPF_JMP_IMM BPF_JGT BPF_REG_2 8 4;
    BPF_MOV64_IMM BPF_REG_3 0; BPF_MOV64_IMM BPF_REG_4 0; BPF_MOV64_IMM BPF_REG_5 0;
    BPF_EMIT_CALL BPF_FUNC_csum_diff; BPF_EXIT_INSN];
  _result ACCEPT;
  _prog_type BPF_PROG_TYPE_SCHED_CLS;
  _retval 0;
  _flags F_NEEDS_EFFICIENT_UNALIGNED_ACCESS].

Definition helper_access_var_len_22 : bpf_test := TEST "helper access to variable memory: size = 0 not allowed on NULL (!ARG_PTR_TO_MEM_OR_NULL)" [
  _insns
   [BPF_MOV64_IMM BPF_REG_1 0; BPF_MOV64_IMM BPF_REG_2 0; BPF_MOV64_IMM BPF_REG_3 0;
    BPF_EMIT_CALL BPF_FUNC_probe_read_kernel; BPF_EXIT_INSN];
  _errstr "R1 type=inv expected=fp";
  _result REJECT;
  _prog_type BPF_PROG_TYPE_TRACEPOINT].

Definition helper_access_var_len_23 : bpf_test := TEST "helper access to variable memory: size > 0 not allowed on NULL (!ARG_PTR_TO_MEM_OR_NULL)" [
  _insns
   [BPF_MOV64_IMM BPF_REG_1 0; BPF_MOV64_IMM BPF_REG_2 1; BPF_MOV64_IMM BPF_REG_3 0;
    BPF_EMIT_CALL BPF_FUNC_probe_read_kernel; BPF_EXIT_INSN];
  _errstr "R1 type=inv expected=fp";
  _result REJECT;
  _prog_type BPF_PROG_TYPE_TRACEPOINT].

Definition helper_access_var_len_24 : bpf_test := TEST "helper access to variable memory: size = 0 allowed on != NULL stack pointer (!ARG_PTR_TO_MEM_OR_NULL)" [
  _insns
   [BPF_MOV64_REG BPF_REG_1 BPF_REG_10; BPF_ALU64_IMM BPF_ADD BPF_REG_1 (-8);
    BPF_MOV64_IMM BPF_REG_2 0; BPF_MOV64_IMM BPF_REG_3 0;
    BPF_EMIT_CALL BPF_FUNC_probe_read_kernel; BPF_EXIT_INSN];
  _result ACCEPT;
  _prog_type BPF_PROG_TYPE_TRACEPOINT].

Definition helper_access_var_len_25 : bpf_test := TEST "helper access to variable memory: size = 0 allowed on != NULL map pointer (!ARG_PTR_TO_MEM_OR_NULL)" [
  _insns
   [BPF_ST_MEM BPF_DW BPF_REG_10 (-8) 0; BPF_MOV64_REG BPF_REG_2 BPF_REG_10;
    BPF_ALU64_IMM BPF_ADD BPF_REG_2 (-8); BPF_LD_MAP_FD BPF_REG_1 0;
    BPF_EMIT_CALL BPF_FUNC_map_lookup_elem; BPF_JMP_IMM BPF_JEQ BPF_REG_0 0 4;
    BPF_MOV64_REG BPF_REG_1 BPF_REG_0; BPF_MOV64_IMM BPF_REG_2 0; BPF_MOV64_IMM BPF_REG_3 0;
    BPF_EMIT_CALL BPF_FUNC_probe_read_kernel; BPF_EXIT_INSN];
  _fixup fixup_map_hash_8b [3];
  _result ACCEPT;
  _prog_type BPF_PROG_TYPE_TRACEPOINT].

Definition helper_access_var_len_26 : bpf_test := TEST "helper access to variable memory: size possible = 0 allowed on != NULL stack pointer (!ARG_PTR_TO_MEM_OR_NULL)" [
  _insns
   [BPF_ST_MEM BPF_DW BPF_REG_10 (-8) 0; BPF_MOV64_REG BPF_REG_2 BPF_REG_10;
    BPF_ALU64_IMM BPF_ADD BPF_REG_2 (-8); BPF_LD_MAP_FD BPF_REG_1 0;
    BPF_EMIT_CALL BPF_FUNC_map_lookup_elem; BPF_JMP_IMM BPF_JEQ BPF_REG_0 0 6;
    BPF_LDX_MEM BPF_DW BPF_REG_2 BPF_REG_0 0; BPF_JMP_IMM BPF_JGT BPF_REG_2 8 4;
    BPF_MOV64_REG BPF_REG_1 BPF_REG_10; BPF_ALU64_IMM BPF_ADD BPF_REG_1 (-8);
    BPF_MOV64_IMM BPF_REG_3 0; BPF_EMIT_CALL BPF_FUNC_probe_read_kernel; BPF_EXIT_INSN];
  _fixup fixup_map_hash_8b [3];
  _result ACCEPT;
  _prog_type BPF_PROG_TYPE_TRACEPOINT].

Definition helper_access_var_len_27 : bpf_test := TEST "helper access to variable memory: size possible = 0 allowed on != NULL map pointer (!ARG_PTR_TO_MEM_OR_NULL)" [
  _insns
   [BPF_ST_MEM BPF_DW BPF_REG_10 (-8) 0; BPF_MOV64_REG BPF_REG_2 BPF_REG_10;
    BPF_ALU64_IMM BPF_ADD BPF_REG_2 (-8); BPF_LD_MAP_FD BPF_REG_1 0;
    BPF_EMIT_CALL BPF_FUNC_map_lookup_elem; BPF_JMP_IMM BPF_JEQ BPF_REG_0 0 5;
    BPF_MOV64_REG BPF_REG_1 BPF_REG_0; BPF_LDX_MEM BPF_DW BPF_REG_2 BPF_REG_0 0;
    BPF_JMP_IMM BPF_JGT BPF_REG_2 8 2; BPF_MOV64_IMM BPF_REG_3 0;
    BPF_EMIT_CALL BPF_FUNC_probe_read_kernel; BPF_EXIT_INSN];
  _fixup fixup_map_hash_8b [3];
  _result ACCEPT;
  _prog_type BPF_PROG_TYPE_TRACEPOINT].

Definition helper_access_var_len_28 : bpf_test := TEST "helper access to variable memory: 8 bytes leak" [
  _insns
   [BPF_ST_MEM BPF_DW BPF_REG_10 (-128) 0; BPF_EMIT_CALL BPF_FUNC_get_prandom_u32;
    BPF_MOV64_REG BPF_REG_3 BPF_REG_0; BPF_LD_MAP_FD BPF_REG_1 0;
    BPF_MOV64_REG BPF_REG_2 BPF_REG_10; BPF_ALU64_IMM BPF_ADD BPF_REG_2 (-64);
    BPF_MOV64_IMM BPF_REG_0 0; BPF_STX_MEM BPF_DW BPF_REG_10 BPF_REG_0 (-64);
    BPF_STX_MEM BPF_DW BPF_REG_10 BPF_REG_0 (-56);
    BPF_STX_MEM BPF_DW BPF_REG_10 BPF_REG_0 (-48);
    BPF_STX_MEM BPF_DW BPF_REG_10 BPF_REG_0 (-40);
    BPF_STX_MEM BPF_DW BPF_REG_10 BPF_REG_0 (-24);
    BPF_STX_MEM BPF_DW BPF_REG_10 BPF_REG_0 (-16); BPF_STX_MEM BPF_DW BPF_REG_10 BPF_REG_0 (-8);
    BPF_ALU64_IMM BPF_AND BPF_REG_3 63; BPF_ALU64_IMM BPF_ADD BPF_REG_3 1;
    BPF_MOV64_IMM BPF_REG_4 0; BPF_EMIT_CALL BPF_FUNC_ringbuf_output; BPF_MOV64_IMM BPF_REG_0 0;
    BPF_EXIT_INSN];
  _fixup fixup_map_ringbuf [3];
  _errstr_unpriv "invalid indirect read from stack R2 off -64+32 size 64";
  _result_unpriv REJECT;
  _result ACCEPT].

Definition helper_access_var_len_29 : bpf_test := TEST "helper access to variable memory: 8 bytes no leak (init memory)" [
  _insns
   [BPF_MOV64_REG BPF_REG_1 BPF_REG_10; BPF_MOV64_IMM BPF_REG_0 0; BPF_MOV64_IMM BPF_REG_0 0;
    BPF_STX_MEM BPF_DW BPF_REG_10 BPF_REG_0 (-64);
    BPF_STX_MEM BPF_DW BPF_REG_10 BPF_REG_0 (-56);
    BPF_STX_MEM BPF_DW BPF_REG_10 BPF_REG_0 (-48);
    BPF_STX_MEM BPF_DW BPF_REG_10 BPF_REG_0 (-40);
    BPF_STX_MEM BPF_DW BPF_REG_10 BPF_REG_0 (-32);
    BPF_STX_MEM BPF_DW BPF_REG_10 BPF_REG_0 (-24);
    BPF_STX_MEM BPF_DW BPF_REG_10 BPF_REG_0 (-16); BPF_STX_MEM BPF_DW BPF_REG_10 BPF_REG_0 (-8);
    BPF_ALU64_IMM BPF_ADD BPF_REG_1 (-64); BPF_MOV64_IMM BPF_REG_2 0;
    BPF_ALU64_IMM BPF_AND BPF_REG_2 32; BPF_ALU64_IMM BPF_ADD BPF_REG_2 32;
    BPF_MOV64_IMM BPF_REG_3 0; BPF_EMIT_CALL BPF_FUNC_probe_read_kernel;
    BPF_LDX_MEM BPF_DW BPF_REG_1 BPF_REG_10 (-16); BPF_EXIT_INSN];
  _result ACCEPT;
  _prog_type BPF_PROG_TYPE_TRACEPOINT].

Definition helper_access_var_len_tests : list bpf_test := [helper_access_var_len_1;
  helper_access_var_len_2; helper_access_var_len_3; helper_access_var_len_4;
  helper_access_var_len_5; helper_access_var_len_6; helper_access_var_len_7;
  helper_access_var_len_8; helper_access_var_len_9; helper_access_var_len_10;
  helper_access_var_len_11; helper_access_var_len_12; helper_access_var_len_13;
  helper_access_var_len_14; helper_access_var_len_15; helper_access_var_len_16;
  helper_access_var_len_17; helper_access_var_len_18; helper_access_var_len_19;
  helper_access_var_len_20; helper_access_var_len_21; helper_access_var_len_22;
  helper_access_var_len_23; helper_access_var_len_24; helper_access_var_len_25;
  helper_access_var_len_26; helper_access_var_len_27; helper_access_var_len_28;
  helper_access_var_len_29].

(** * [helper_value_access.c] *)

Definition helper_value_access_1 : bpf_test := TEST "helper access to map: full range" [
  _insns
   [BPF_MOV64_REG BPF_REG_2 BPF_REG_10; BPF_ALU64_IMM BPF_ADD BPF_REG_2 (-8);
    BPF_ST_MEM BPF_DW BPF_REG_2 0 0; BPF_LD_MAP_FD BPF_REG_1 0;
    BPF_EMIT_CALL BPF_FUNC_map_lookup_elem; BPF_JMP_IMM BPF_JEQ BPF_REG_0 0 4;
    BPF_MOV64_REG BPF_REG_1 BPF_REG_0; BPF_MOV64_IMM BPF_REG_2 (sizeof test_val);
    BPF_MOV64_IMM BPF_REG_3 0; BPF_EMIT_CALL BPF_FUNC_probe_read_kernel; BPF_EXIT_INSN];
  _fixup fixup_map_hash_48b [3];
  _result ACCEPT;
  _prog_type BPF_PROG_TYPE_TRACEPOINT].

Definition helper_value_access_2 : bpf_test := TEST "helper access to map: partial range" [
  _insns
   [BPF_MOV64_REG BPF_REG_2 BPF_REG_10; BPF_ALU64_IMM BPF_ADD BPF_REG_2 (-8);
    BPF_ST_MEM BPF_DW BPF_REG_2 0 0; BPF_LD_MAP_FD BPF_REG_1 0;
    BPF_EMIT_CALL BPF_FUNC_map_lookup_elem; BPF_JMP_IMM BPF_JEQ BPF_REG_0 0 4;
    BPF_MOV64_REG BPF_REG_1 BPF_REG_0; BPF_MOV64_IMM BPF_REG_2 8; BPF_MOV64_IMM BPF_REG_3 0;
    BPF_EMIT_CALL BPF_FUNC_probe_read_kernel; BPF_EXIT_INSN];
  _fixup fixup_map_hash_48b [3];
  _result ACCEPT;
  _prog_type BPF_PROG_TYPE_TRACEPOINT].

Definition helper_value_access_3 : bpf_test := TEST "helper access to map: empty range" [
  _insns
   [BPF_MOV64_REG BPF_REG_2 BPF_REG_10; BPF_ALU64_IMM BPF_ADD BPF_REG_2 (-8);
    BPF_ST_MEM BPF_DW BPF_REG_2 0 0; BPF_LD_MAP_FD BPF_REG_1 0;
    BPF_EMIT_CALL BPF_FUNC_map_lookup_elem; BPF_JMP_IMM BPF_JEQ BPF_REG_0 0 3;
    BPF_MOV64_REG BPF_REG_1 BPF_REG_0; BPF_MOV64_IMM BPF_REG_2 0;
    BPF_EMIT_CALL BPF_FUNC_trace_printk; BPF_EXIT_INSN];
  _fixup fixup_map_hash_48b [3];
  _errstr "invalid access to map value, value_size=48 off=0 size=0";
  _result REJECT;
  _prog_type BPF_PROG_TYPE_TRACEPOINT].

Definition helper_value_access_4 : bpf_test := TEST "helper access to map: out-of-bound range" [
  _insns
   [BPF_MOV64_REG BPF_REG_2 BPF_REG_10; BPF_ALU64_IMM BPF_ADD BPF_REG_2 (-8);
    BPF_ST_MEM BPF_DW BPF_REG_2 0 0; BPF_LD_MAP_FD BPF_REG_1 0;
    BPF_EMIT_CALL BPF_FUNC_map_lookup_elem; BPF_JMP_IMM BPF_JEQ BPF_REG_0 0 4;
    BPF_MOV64_REG BPF_REG_1 BPF_REG_0; BPF_MOV64_IMM BPF_REG_2 ((sizeof test_val) + 8);
    BPF_MOV64_IMM BPF_REG_3 0; BPF_EMIT_CALL BPF_FUNC_probe_read_kernel; BPF_EXIT_INSN];
  _fixup fixup_map_hash_48b [3];
  _errstr "invalid access to map value, value_size=48 off=0 size=56";
  _result REJECT;
  _prog_type BPF_PROG_TYPE_TRACEPOINT].

Definition helper_value_access_5 : bpf_test := TEST "helper access to map: negative range" [
  _insns
   [BPF_MOV64_REG BPF_REG_2 BPF_REG_10; BPF_ALU64_IMM BPF_ADD BPF_REG_2 (-8);
    BPF_ST_MEM BPF_DW BPF_REG_2 0 0; BPF_LD_MAP_FD BPF_REG_1 0;
    BPF_EMIT_CALL BPF_FUNC_map_lookup_elem; BPF_JMP_IMM BPF_JEQ BPF_REG_0 0 4;
    BPF_MOV64_REG BPF_REG_1 BPF_REG_0; BPF_MOV64_IMM BPF_REG_2 (-8); BPF_MOV64_IMM BPF_REG_3 0;
    BPF_EMIT_CALL BPF_FUNC_probe_read_kernel; BPF_EXIT_INSN];
  _fixup fixup_map_hash_48b [3];
  _errstr "R2 min value is negative";
  _result REJECT;
  _prog_type BPF_PROG_TYPE_TRACEPOINT].

Definition helper_value_access_6 : bpf_test := TEST "helper access to adjusted map (via const imm): full range" [
  _insns
   [BPF_MOV64_REG BPF_REG_2 BPF_REG_10; BPF_ALU64_IMM BPF_ADD BPF_REG_2 (-8);
    BPF_ST_MEM BPF_DW BPF_REG_2 0 0; BPF_LD_MAP_FD BPF_REG_1 0;
    BPF_EMIT_CALL BPF_FUNC_map_lookup_elem; BPF_JMP_IMM BPF_JEQ BPF_REG_0 0 5;
    BPF_MOV64_REG BPF_REG_1 BPF_REG_0;
    BPF_ALU64_IMM BPF_ADD BPF_REG_1 (offsetof test_val "foo");
    BPF_MOV64_IMM BPF_REG_2 ((sizeof test_val) - (offsetof test_val "foo"));
    BPF_MOV64_IMM BPF_REG_3 0; BPF_EMIT_CALL BPF_FUNC_probe_read_kernel; BPF_EXIT_INSN];
  _fixup fixup_map_hash_48b [3];
  _result ACCEPT;
  _prog_type BPF_PROG_TYPE_TRACEPOINT].

Definition helper_value_access_7 : bpf_test := TEST "helper access to adjusted map (via const imm): partial range" [
  _insns
   [BPF_MOV64_REG BPF_REG_2 BPF_REG_10; BPF_ALU64_IMM BPF_ADD BPF_REG_2 (-8);
    BPF_ST_MEM BPF_DW BPF_REG_2 0 0; BPF_LD_MAP_FD BPF_REG_1 0;
    BPF_EMIT_CALL BPF_FUNC_map_lookup_elem; BPF_JMP_IMM BPF_JEQ BPF_REG_0 0 5;
    BPF_MOV64_REG BPF_REG_1 BPF_REG_0;
    BPF_ALU64_IMM BPF_ADD BPF_REG_1 (offsetof test_val "foo"); BPF_MOV64_IMM BPF_REG_2 8;
    BPF_MOV64_IMM BPF_REG_3 0; BPF_EMIT_CALL BPF_FUNC_probe_read_kernel; BPF_EXIT_INSN];
  _fixup fixup_map_hash_48b [3];
  _result ACCEPT;
  _prog_type BPF_PROG_TYPE_TRACEPOINT].

Definition helper_value_access_8 : bpf_test := TEST "helper access to adjusted map (via const imm): empty range" [
  _insns
   [BPF_MOV64_REG BPF_REG_2 BPF_REG_10; BPF_ALU64_IMM BPF_ADD BPF_REG_2 (-8);
    BPF_ST_MEM BPF_DW BPF_REG_2 0 0; BPF_LD_MAP_FD BPF_REG_1 0;
    BPF_EMIT_CALL BPF_FUNC_map_lookup_elem; BPF_JMP_IMM BPF_JEQ BPF_REG_0 0 4;
    BPF_MOV64_REG BPF_REG_1 BPF_REG_0;
    BPF_ALU64_IMM BPF_ADD BPF_REG_1 (offsetof test_val "foo"); BPF_MOV64_IMM BPF_REG_2 0;
    BPF_EMIT_CALL BPF_FUNC_trace_printk; BPF_EXIT_INSN];
  _fixup fixup_map_hash_48b [3];
  _errstr "invalid access to map value, value_size=48 off=4 size=0";
  _result REJECT;
  _prog_type BPF_PROG_TYPE_TRACEPOINT].

Definition helper_value_access_9 : bpf_test := TEST "helper access to adjusted map (via const imm): out-of-bound range" [
  _insns
   [BPF_MOV64_REG BPF_REG_2 BPF_REG_10; BPF_ALU64_IMM BPF_ADD BPF_REG_2 (-8);
    BPF_ST_MEM BPF_DW BPF_REG_2 0 0; BPF_LD_MAP_FD BPF_REG_1 0;
    BPF_EMIT_CALL BPF_FUNC_map_lookup_elem; BPF_JMP_IMM BPF_JEQ BPF_REG_0 0 5;
    BPF_MOV64_REG BPF_REG_1 BPF_REG_0;
    BPF_ALU64_IMM BPF_ADD BPF_REG_1 (offsetof test_val "foo");
    BPF_MOV64_IMM BPF_REG_2 (((sizeof test_val) - (offsetof test_val "foo")) + 8);
    BPF_MOV64_IMM BPF_REG_3 0; BPF_EMIT_CALL BPF_FUNC_probe_read_kernel; BPF_EXIT_INSN];
  _fixup fixup_map_hash_48b [3];
  _errstr "invalid access to map value, value_size=48 off=4 size=52";
  _result REJECT;
  _prog_type BPF_PROG_TYPE_TRACEPOINT].

Definition helper_value_access_10 : bpf_test := TEST "helper access to adjusted map (via const imm): negative range (> adjustment)" [
  _insns
   [BPF_MOV64_REG BPF_REG_2 BPF_REG_10; BPF_ALU64_IMM BPF_ADD BPF_REG_2 (-8);
    BPF_ST_MEM BPF_DW BPF_REG_2 0 0; BPF_LD_MAP_FD BPF_REG_1 0;
    BPF_EMIT_CALL BPF_FUNC_map_lookup_elem; BPF_JMP_IMM BPF_JEQ BPF_REG_0 0 5;
    BPF_MOV64_REG BPF_REG_1 BPF_REG_0;
    BPF_ALU64_IMM BPF_ADD BPF_REG_1 (offsetof test_val "foo"); BPF_MOV64_IMM BPF_REG_2 (-8);
    BPF_MOV64_IMM BPF_REG_3 0; BPF_EMIT_CALL BPF_FUNC_probe_read_kernel; BPF_EXIT_INSN];
  _fixup fixup_map_hash_48b [3];
  _errstr "R2 min value is negative";
  _result REJECT;
  _prog_type BPF_PROG_TYPE_TRACEPOINT].

Definition helper_value_access_11 : bpf_test := TEST "helper access to adjusted map (via const imm): negative range (< adjustment)" [
  _insns
   [BPF_MOV64_REG BPF_REG_2 BPF_REG_10; BPF_ALU64_IMM BPF_ADD BPF_REG_2 (-8);
    BPF_ST_MEM BPF_DW BPF_REG_2 0 0; BPF_LD_MAP_FD BPF_REG_1 0;
    BPF_EMIT_CALL BPF_FUNC_map_lookup_elem; BPF_JMP_IMM BPF_JEQ BPF_REG_0 0 5;
    BPF_MOV64_REG BPF_REG_1 BPF_REG_0;
    BPF_ALU64_IMM BPF_ADD BPF_REG_1 (offsetof test_val "foo"); BPF_MOV64_IMM BPF_REG_2 (-1);
    BPF_MOV64_IMM BPF_REG_3 0; BPF_EMIT_CALL BPF_FUNC_probe_read_kernel; BPF_EXIT_INSN];
  _fixup fixup_map_hash_48b [3];
  _errstr "R2 min value is negative";
  _result REJECT;
  _prog_type BPF_PROG_TYPE_TRACEPOINT].

Definition helper_value_access_12 : bpf_test := TEST "helper access to adjusted map (via const reg): full range" [
  _insns
   [BPF_MOV64_REG BPF_REG_2 BPF_REG_10; BPF_ALU64_IMM BPF_ADD BPF_REG_2 (-8);
    BPF_ST_MEM BPF_DW BPF_REG_2 0 0; BPF_LD_MAP_FD BPF_REG_1 0;
    BPF_EMIT_CALL BPF_FUNC_map_lookup_elem; BPF_JMP_IMM BPF_JEQ BPF_REG_0 0 6;
    BPF_MOV64_REG BPF_REG_1 BPF_REG_0; BPF_MOV64_IMM BPF_REG_3 (offsetof test_val "foo");
    BPF_ALU64_REG BPF_ADD BPF_REG_1 BPF_REG_3;
    BPF_MOV64_IMM BPF_REG_2 ((sizeof test_val) - (offsetof test_val "foo"));
    BPF_MOV64_IMM BPF_REG_3 0; BPF_EMIT_CALL BPF_FUNC_probe_read_kernel; BPF_EXIT_INSN];
  _fixup fixup_map_hash_48b [3];
  _result ACCEPT;
  _prog_type BPF_PROG_TYPE_TRACEPOINT].

Definition helper_value_access_13 : bpf_test := TEST "helper access to adjusted map (via const reg): partial range" [
  _insns
   [BPF_MOV64_REG BPF_REG_2 BPF_REG_10; BPF_ALU64_IMM BPF_ADD BPF_REG_2 (-8);
    BPF_ST_MEM BPF_DW BPF_REG_2 0 0; BPF_LD_MAP_FD BPF_REG_1 0;
    BPF_EMIT_CALL BPF_FUNC_map_lookup_elem; BPF_JMP_IMM BPF_JEQ BPF_REG_0 0 6;
    BPF_MOV64_REG BPF_REG_1 BPF_REG_0; BPF_MOV64_IMM BPF_REG_3 (offsetof test_val "foo");
    BPF_ALU64_REG BPF_ADD BPF_REG_1 BPF_REG_3; BPF_MOV64_IMM BPF_REG_2 8;
    BPF_MOV64_IMM BPF_REG_3 0; BPF_EMIT_CALL BPF_FUNC_probe_read_kernel; BPF_EXIT_INSN];
  _fixup fixup_map_hash_48b [3];
  _result ACCEPT;
  _prog_type BPF_PROG_TYPE_TRACEPOINT].

Definition helper_value_access_14 : bpf_test := TEST "helper access to adjusted map (via const reg): empty range" [
  _insns
   [BPF_MOV64_REG BPF_REG_2 BPF_REG_10; BPF_ALU64_IMM BPF_ADD BPF_REG_2 (-8);
    BPF_ST_MEM BPF_DW BPF_REG_2 0 0; BPF_LD_MAP_FD BPF_REG_1 0;
    BPF_EMIT_CALL BPF_FUNC_map_lookup_elem; BPF_JMP_IMM BPF_JEQ BPF_REG_0 0 5;
    BPF_MOV64_REG BPF_REG_1 BPF_REG_0; BPF_MOV64_IMM BPF_REG_3 0;
    BPF_ALU64_REG BPF_ADD BPF_REG_1 BPF_REG_3; BPF_MOV64_IMM BPF_REG_2 0;
    BPF_EMIT_CALL BPF_FUNC_trace_printk; BPF_EXIT_INSN];
  _fixup fixup_map_hash_48b [3];
  _errstr "R1 min value is outside of the allowed memory range";
  _result REJECT;
  _prog_type BPF_PROG_TYPE_TRACEPOINT].

Definition helper_value_access_15 : bpf_test := TEST "helper access to adjusted map (via const reg): out-of-bound range" [
  _insns
   [BPF_MOV64_REG BPF_REG_2 BPF_REG_10; BPF_ALU64_IMM BPF_ADD BPF_REG_2 (-8);
    BPF_ST_MEM BPF_DW BPF_REG_2 0 0; BPF_LD_MAP_FD BPF_REG_1 0;
    BPF_EMIT_CALL BPF_FUNC_map_lookup_elem; BPF_JMP_IMM BPF_JEQ BPF_REG_0 0 6;
    BPF_MOV64_REG BPF_REG_1 BPF_REG_0; BPF_MOV64_IMM BPF_REG_3 (offsetof test_val "foo");
    BPF_ALU64_REG BPF_ADD BPF_REG_1 BPF_REG_3;
    BPF_MOV64_IMM BPF_REG_2 (((sizeof test_val) - (offsetof test_val "foo")) + 8);
    BPF_MOV64_IMM BPF_REG_3 0; BPF_EMIT_CALL BPF_FUNC_probe_read_kernel; BPF_EXIT_INSN];
  _fixup fixup_map_hash_48b [3];
  _errstr "invalid access to map value, value_size=48 off=4 size=52";
  _result REJECT;
  _prog_type BPF_PROG_TYPE_TRACEPOINT].

Definition helper_value_access_16 : bpf_test := TEST "helper access to adjusted map (via const reg): negative range (> adjustment)" [
  _insns
   [BPF_MOV64_REG BPF_REG_2 BPF_REG_10; BPF_ALU64_IMM BPF_ADD BPF_REG_2 (-8);
    BPF_ST_MEM BPF_DW BPF_REG_2 0 0; BPF_LD_MAP_FD BPF_REG_1 0;
    BPF_EMIT_CALL BPF_FUNC_map_lookup_elem; BPF_JMP_IMM BPF_JEQ BPF_REG_0 0 6;
    BPF_MOV64_REG BPF_REG_1 BPF_REG_0; BPF_MOV64_IMM BPF_REG_3 (offsetof test_val "foo");
    BPF_ALU64_REG BPF_ADD BPF_REG_1 BPF_REG_3; BPF_MOV64_IMM BPF_REG_2 (-8);
    BPF_MOV64_IMM BPF_REG_3 0; BPF_EMIT_CALL BPF_FUNC_probe_read_kernel; BPF_EXIT_INSN];
  _fixup fixup_map_hash_48b [3];
  _errstr "R2 min value is negative";
  _result REJECT;
  _prog_type BPF_PROG_TYPE_TRACEPOINT].

Definition helper_value_access_17 : bpf_test := TEST "helper access to adjusted map (via const reg): negative range (< adjustment)" [
  _insns
   [BPF_MOV64_REG BPF_REG_2 BPF_REG_10; BPF_ALU64_IMM BPF_ADD BPF_REG_2 (-8);
    BPF_ST_MEM BPF_DW BPF_REG_2 0 0; BPF_LD_MAP_FD BPF_REG_1 0;
    BPF_EMIT_CALL BPF_FUNC_map_lookup_elem; BPF_JMP_IMM BPF_JEQ BPF_REG_0 0 6;
    BPF_MOV64_REG BPF_REG_1 BPF_REG_0; BPF_MOV64_IMM BPF_REG_3 (offsetof test_val "foo");
    BPF_ALU64_REG BPF_ADD BPF_REG_1 BPF_REG_3; BPF_MOV64_IMM BPF_REG_2 (-1);
    BPF_MOV64_IMM BPF_REG_3 0; BPF_EMIT_CALL BPF_FUNC_probe_read_kernel; BPF_EXIT_INSN];
  _fixup fixup_map_hash_48b [3];
  _errstr "R2 min value is negative";
  _result REJECT;
  _prog_type BPF_PROG_TYPE_TRACEPOINT].

Definition helper_value_access_18 : bpf_test := TEST "helper access to adjusted map (via variable): full range" [
  _insns
   [BPF_MOV64_REG BPF_REG_2 BPF_REG_10; BPF_ALU64_IMM BPF_ADD BPF_REG_2 (-8);
    BPF_ST_MEM BPF_DW BPF_REG_2 0 0; BPF_LD_MAP_FD BPF_REG_1 0;
    BPF_EMIT_CALL BPF_FUNC_map_lookup_elem; BPF_JMP_IMM BPF_JEQ BPF_REG_0 0 7;
    BPF_MOV64_REG BPF_REG_1 BPF_REG_0; BPF_LDX_MEM BPF_W BPF_REG_3 BPF_REG_0 0;
    BPF_JMP_IMM BPF_JGT BPF_REG_3 (offsetof test_val "foo") 4;
    BPF_ALU64_REG BPF_ADD BPF_REG_1 BPF_REG_3;
    BPF_MOV64_IMM BPF_REG_2 ((sizeof test_val) - (offsetof test_val "foo"));
    BPF_MOV64_IMM BPF_REG_3 0; BPF_EMIT_CALL BPF_FUNC_probe_read_kernel; BPF_EXIT_INSN];
  _fixup fixup_map_hash_48b [3];
  _result ACCEPT;
  _prog_type BPF_PROG_TYPE_TRACEPOINT].

Definition helper_value_access_19 : bpf_test := TEST "helper access to adjusted map (via variable): partial range" [
  _insns
   [BPF_MOV64_REG BPF_REG_2 BPF_REG_10; BPF_ALU64_IMM BPF_ADD BPF_REG_2 (-8);
    BPF_ST_MEM BPF_DW BPF_REG_2 0 0; BPF_LD_MAP_FD BPF_REG_1 0;
    BPF_EMIT_CALL BPF_FUNC_map_lookup_elem; BPF_JMP_IMM BPF_JEQ BPF_REG_0 0 7;
    BPF_MOV64_REG BPF_REG_1 BPF_REG_0; BPF_LDX_MEM BPF_W BPF_REG_3 BPF_REG_0 0;
    BPF_JMP_IMM BPF_JGT BPF_REG_3 (offsetof test_val "foo") 4;
    BPF_ALU64_REG BPF_ADD BPF_REG_1 BPF_REG_3; BPF_MOV64_IMM BPF_REG_2 8;
    BPF_MOV64_IMM BPF_REG_3 0; BPF_EMIT_CALL BPF_FUNC_probe_read_kernel; BPF_EXIT_INSN];
  _fixup fixup_map_hash_48b [3];
  _result ACCEPT;
  _prog_type BPF_PROG_TYPE_TRACEPOINT].

Definition helper_value_access_20 : bpf_test := TEST "helper access to adjusted map (via variable): empty range" [
  _insns
   [BPF_MOV64_REG BPF_REG_2 BPF_REG_10; BPF_ALU64_IMM BPF_ADD BPF_REG_2 (-8);
    BPF_ST_MEM BPF_DW BPF_REG_2 0 0; BPF_LD_MAP_FD BPF_REG_1 0;
    BPF_EMIT_CALL BPF_FUNC_map_lookup_elem; BPF_JMP_IMM BPF_JEQ BPF_REG_0 0 6;
    BPF_MOV64_REG BPF_REG_1 BPF_REG_0; BPF_LDX_MEM BPF_W BPF_REG_3 BPF_REG_0 0;
    BPF_JMP_IMM BPF_JGT BPF_REG_3 (offsetof test_val "foo") 3;
    BPF_ALU64_REG BPF_ADD BPF_REG_1 BPF_REG_3; BPF_MOV64_IMM BPF_REG_2 0;
    BPF_EMIT_CALL BPF_FUNC_trace_printk; BPF_EXIT_INSN];
  _fixup fixup_map_hash_48b [3];
  _errstr "R1 min value is outside of the allowed memory range";
  _result REJECT;
  _prog_type BPF_PROG_TYPE_TRACEPOINT].

Definition helper_value_access_21 : bpf_test := TEST "helper access to adjusted map (via variable): no max check" [
  _insns
   [BPF_MOV64_REG BPF_REG_2 BPF_REG_10; BPF_ALU64_IMM BPF_ADD BPF_REG_2 (-8);
    BPF_ST_MEM BPF_DW BPF_REG_2 0 0; BPF_LD_MAP_FD BPF_REG_1 0;
    BPF_EMIT_CALL BPF_FUNC_map_lookup_elem; BPF_JMP_IMM BPF_JEQ BPF_REG_0 0 6;
    BPF_MOV64_REG BPF_REG_1 BPF_REG_0; BPF_LDX_MEM BPF_W BPF_REG_3 BPF_REG_0 0;
    BPF_ALU64_REG BPF_ADD BPF_REG_1 BPF_REG_3; BPF_MOV64_IMM BPF_REG_2 1;
    BPF_MOV64_IMM BPF_REG_3 0; BPF_EMIT_CALL BPF_FUNC_probe_read_kernel; BPF_EXIT_INSN];
  _fixup fixup_map_hash_48b [3];
  _errstr "R1 unbounded memory access";
  _result REJECT;
  _prog_type BPF_PROG_TYPE_TRACEPOINT].

Definition helper_value_access_22 : bpf_test := TEST "helper access to adjusted map (via variable): wrong max check" [
  _insns
   [BPF_MOV64_REG BPF_REG_2 BPF_REG_10; BPF_ALU64_IMM BPF_ADD BPF_REG_2 (-8);
    BPF_ST_MEM BPF_DW BPF_REG_2 0 0; BPF_LD_MAP_FD BPF_REG_1 0;
    BPF_EMIT_CALL BPF_FUNC_map_lookup_elem; BPF_JMP_IMM BPF_JEQ BPF_REG_0 0 7;
    BPF_MOV64_REG BPF_REG_1 BPF_REG_0; BPF_LDX_MEM BPF_W BPF_REG_3 BPF_REG_0 0;
    BPF_JMP_IMM BPF_JGT BPF_REG_3 (offsetof test_val "foo") 4;
    BPF_ALU64_REG BPF_ADD BPF_REG_1 BPF_REG_3;
    BPF_MOV64_IMM BPF_REG_2 (((sizeof test_val) - (offsetof test_val "foo")) + 1);
    BPF_MOV64_IMM BPF_REG_3 0; BPF_EMIT_CALL BPF_FUNC_probe_read_kernel; BPF_EXIT_INSN];
  _fixup fixup_map_hash_48b [3];
  _errstr "invalid access to map value, value_size=48 off=4 size=45";
  _result REJECT;
  _prog_type BPF_PROG_TYPE_TRACEPOINT].

Definition helper_value_access_23 : bpf_test := TEST "helper access to map: bounds check using <, good access" [
  _insns
   [BPF_MOV64_REG BPF_REG_2 BPF_REG_10; BPF_ALU64_IMM BPF_ADD BPF_REG_2 (-8);
    BPF_ST_MEM BPF_DW BPF_REG_2 0 0; BPF_LD_MAP_FD BPF_REG_1 0;
    BPF_EMIT_CALL BPF_FUNC_map_lookup_elem; BPF_JMP_IMM BPF_JEQ BPF_REG_0 0 4;
    BPF_MOV64_REG BPF_REG_1 BPF_REG_0; BPF_LDX_MEM BPF_W BPF_REG_3 BPF_REG_0 0;
    BPF_JMP_IMM BPF_JLT BPF_REG_3 32 2; BPF_MOV64_IMM BPF_REG_0 0; BPF_EXIT_INSN;
    BPF_ALU64_REG BPF_ADD BPF_REG_1 BPF_REG_3; BPF_ST_MEM BPF_B BPF_REG_1 0 0;
    BPF_MOV64_IMM BPF_REG_0 0; BPF_EXIT_INSN];
  _fixup fixup_map_hash_48b [3];
  _result ACCEPT;
  _prog_type BPF_PROG_TYPE_TRACEPOINT].

Definition helper_value_access_24 : bpf_test := TEST "helper access to map: bounds check using <, bad access" [
  _insns
   [BPF_MOV64_REG BPF_REG_2 BPF_REG_10; BPF_ALU64_IMM BPF_ADD BPF_REG_2 (-8);
    BPF_ST_MEM BPF_DW BPF_REG_2 0 0; BPF_LD_MAP_FD BPF_REG_1 0;
    BPF_EMIT_CALL BPF_FUNC_map_lookup_elem; BPF_JMP_IMM BPF_JEQ BPF_REG_0 0 4;
    BPF_MOV64_REG BPF_REG_1 BPF_REG_0; BPF_LDX_MEM BPF_W BPF_REG_3 BPF_REG_0 0;
    BPF_JMP_IMM BPF_JLT BPF_REG_3 32 4; BPF_ALU64_REG BPF_ADD BPF_REG_1 BPF_REG_3;
    BPF_ST_MEM BPF_B BPF_REG_1 0 0; BPF_MOV64_IMM BPF_REG_0 0; BPF_EXIT_INSN;
    BPF_MOV64_IMM BPF_REG_0 0; BPF_EXIT_INSN];
  _fixup fixup_map_hash_48b [3];
  _result REJECT;
  _errstr "R1 unbounded memory access";
  _prog_type BPF_PROG_TYPE_TRACEPOINT].

Definition helper_value_access_25 : bpf_test := TEST "helper access to map: bounds check using <=, good access" [
  _insns
   [BPF_MOV64_REG BPF_REG_2 BPF_REG_10; BPF_ALU64_IMM BPF_ADD BPF_REG_2 (-8);
    BPF_ST_MEM BPF_DW BPF_REG_2 0 0; BPF_LD_MAP_FD BPF_REG_1 0;
    BPF_EMIT_CALL BPF_FUNC_map_lookup_elem; BPF_JMP_IMM BPF_JEQ BPF_REG_0 0 4;
    BPF_MOV64_REG BPF_REG_1 BPF_REG_0; BPF_LDX_MEM BPF_W BPF_REG_3 BPF_REG_0 0;
    BPF_JMP_IMM BPF_JLE BPF_REG_3 32 2; BPF_MOV64_IMM BPF_REG_0 0; BPF_EXIT_INSN;
    BPF_ALU64_REG BPF_ADD BPF_REG_1 BPF_REG_3; BPF_ST_MEM BPF_B BPF_REG_1 0 0;
    BPF_MOV64_IMM BPF_REG_0 0; BPF_EXIT_INSN];
  _fixup fixup_map_hash_48b [3];
  _result ACCEPT;
  _prog_type BPF_PROG_TYPE_TRACEPOINT].

Definition helper_value_access_26 : bpf_test := TEST "helper access to map: bounds check using <=, bad access" [
  _insns
   [BPF_MOV64_REG BPF_REG_2 BPF_REG_10; BPF_ALU64_IMM BPF_ADD BPF_REG_2 (-8);
    BPF_ST_MEM BPF_DW BPF_REG_2 0 0; BPF_LD_MAP_FD BPF_REG_1 0;
    BPF_EMIT_CALL BPF_FUNC_map_lookup_elem; BPF_JMP_IMM BPF_JEQ BPF_REG_0 0 4;
    BPF_MOV64_REG BPF_REG_1 BPF_REG_0; BPF_LDX_MEM BPF_W BPF_REG_3 BPF_REG_0 0;
    BPF_JMP_IMM BPF_JLE BPF_REG_3 32 4; BPF_ALU64_REG BPF_ADD BPF_REG_1 BPF_REG_3;
    BPF_ST_MEM BPF_B BPF_REG_1 0 0; BPF_MOV64_IMM BPF_REG_0 0; BPF_EXIT_INSN;
    BPF_MOV64_IMM BPF_REG_0 0; BPF_EXIT_INSN];
  _fixup fixup_map_hash_48b [3];
  _result REJECT;
  _errstr "R1 unbounded memory access";
  _prog_type BPF_PROG_TYPE_TRACEPOINT].

Definition helper_value_access_27 : bpf_test := TEST "helper access to map: bounds check using s<, good access" [
  _insns
   [BPF_MOV64_REG BPF_REG_2 BPF_REG_10; BPF_ALU64_IMM BPF_ADD BPF_REG_2 (-8);
    BPF_ST_MEM BPF_DW BPF_REG_2 0 0; BPF_LD_MAP_FD BPF_REG_1 0;
    BPF_EMIT_CALL BPF_FUNC_map_lookup_elem; BPF_JMP_IMM BPF_JEQ BPF_REG_0 0 4;
    BPF_MOV64_REG BPF_REG_1 BPF_REG_0; BPF_LDX_MEM BPF_W BPF_REG_3 BPF_REG_0 0;
    BPF_JMP_IMM BPF_JSLT BPF_REG_3 32 2; BPF_MOV64_IMM BPF_REG_0 0; BPF_EXIT_INSN;
    BPF_JMP_IMM BPF_JSLT BPF_REG_3 0 (-3); BPF_ALU64_REG BPF_ADD BPF_REG_1 BPF_REG_3;
    BPF_ST_MEM BPF_B BPF_REG_1 0 0; BPF_MOV64_IMM BPF_REG_0 0; BPF_EXIT_INSN];
  _fixup fixup_map_hash_48b [3];
  _result ACCEPT;
  _prog_type BPF_PROG_TYPE_TRACEPOINT].

Definition helper_value_access_28 : bpf_test := TEST "helper access to map: bounds check using s<, good access 2" [
  _insns
   [BPF_MOV64_REG BPF_REG_2 BPF_REG_10; BPF_ALU64_IMM BPF_ADD BPF_REG_2 (-8);
    BPF_ST_MEM BPF_DW BPF_REG_2 0 0; BPF_LD_MAP_FD BPF_REG_1 0;
    BPF_EMIT_CALL BPF_FUNC_map_lookup_elem; BPF_JMP_IMM BPF_JEQ BPF_REG_0 0 4;
    BPF_MOV64_REG BPF_REG_1 BPF_REG_0; BPF_LDX_MEM BPF_W BPF_REG_3 BPF_REG_0 0;
    BPF_JMP_IMM BPF_JSLT BPF_REG_3 32 2; BPF_MOV64_IMM BPF_REG_0 0; BPF_EXIT_INSN;
    BPF_JMP_IMM BPF_JSLT BPF_REG_3 (-3) (-3); BPF_ALU64_REG BPF_ADD BPF_REG_1 BPF_REG_3;
    BPF_ST_MEM BPF_B BPF_REG_1 0 0; BPF_MOV64_IMM BPF_REG_0 0; BPF_EXIT_INSN];
  _fixup fixup_map_hash_48b [3];
  _result ACCEPT;
  _prog_type BPF_PROG_TYPE_TRACEPOINT].

Definition helper_value_access_29 : bpf_test := TEST "helper access to map: bounds check using s<, bad access" [
  _insns
   [BPF_MOV64_REG BPF_REG_2 BPF_REG_10; BPF_ALU64_IMM BPF_ADD BPF_REG_2 (-8);
    BPF_ST_MEM BPF_DW BPF_REG_2 0 0; BPF_LD_MAP_FD BPF_REG_1 0;
    BPF_EMIT_CALL BPF_FUNC_map_lookup_elem; BPF_JMP_IMM BPF_JEQ BPF_REG_0 0 4;
    BPF_MOV64_REG BPF_REG_1 BPF_REG_0; BPF_LDX_MEM BPF_DW BPF_REG_3 BPF_REG_0 0;
    BPF_JMP_IMM BPF_JSLT BPF_REG_3 32 2; BPF_MOV64_IMM BPF_REG_0 0; BPF_EXIT_INSN;
    BPF_JMP_IMM BPF_JSLT BPF_REG_3 (-3) (-3); BPF_ALU64_REG BPF_ADD BPF_REG_1 BPF_REG_3;
    BPF_ST_MEM BPF_B BPF_REG_1 0 0; BPF_MOV64_IMM BPF_REG_0 0; BPF_EXIT_INSN];
  _fixup fixup_map_hash_48b [3];
  _result REJECT;
  _errstr "R1 min value is negative";
  _prog_type BPF_PROG_TYPE_TRACEPOINT].

Definition helper_value_access_30 : bpf_test := TEST "helper access to map: bounds check using s<=, good access" [
  _insns
   [BPF_MOV64_REG BPF_REG_2 BPF_REG_10; BPF_ALU64_IMM BPF_ADD BPF_REG_2 (-8);
    BPF_ST_MEM BPF_DW BPF_REG_2 0 0; BPF_LD_MAP_FD BPF_REG_1 0;
    BPF_EMIT_CALL BPF_FUNC_map_lookup_elem; BPF_JMP_IMM BPF_JEQ BPF_REG_0 0 4;
    BPF_MOV64_REG BPF_REG_1 BPF_REG_0; BPF_LDX_MEM BPF_W BPF_REG_3 BPF_REG_0 0;
    BPF_JMP_IMM BPF_JSLE BPF_REG_3 32 2; BPF_MOV64_IMM BPF_REG_0 0; BPF_EXIT_INSN;
    BPF_JMP_IMM BPF_JSLE BPF_REG_3 0 (-3); BPF_ALU64_REG BPF_ADD BPF_REG_1 BPF_REG_3;
    BPF_ST_MEM BPF_B BPF_REG_1 0 0; BPF_MOV64_IMM BPF_REG_0 0; BPF_EXIT_INSN];
  _fixup fixup_map_hash_48b [3];
  _result ACCEPT;
  _prog_type BPF_PROG_TYPE_TRACEPOINT].

Definition helper_value_access_31 : bpf_test := TEST "helper access to map: bounds check using s<=, good access 2" [
  _insns
   [BPF_MOV64_REG BPF_REG_2 BPF_REG_10; BPF_ALU64_IMM BPF_ADD BPF_REG_2 (-8);
    BPF_ST_MEM BPF_DW BPF_REG_2 0 0; BPF_LD_MAP_FD BPF_REG_1 0;
    BPF_EMIT_CALL BPF_FUNC_map_lookup_elem; BPF_JMP_IMM BPF_JEQ BPF_REG_0 0 4;
    BPF_MOV64_REG BPF_REG_1 BPF_REG_0; BPF_LDX_MEM BPF_W BPF_REG_3 BPF_REG_0 0;
    BPF_JMP_IMM BPF_JSLE BPF_REG_3 32 2; BPF_MOV64_IMM BPF_REG_0 0; BPF_EXIT_INSN;
    BPF_JMP_IMM BPF_JSLE BPF_REG_3 (-3) (-3); BPF_ALU64_REG BPF_ADD BPF_REG_1 BPF_REG_3;
    BPF_ST_MEM BPF_B BPF_REG_1 0 0; BPF_MOV64_IMM BPF_REG_0 0; BPF_EXIT_INSN];
  _fixup fixup_map_hash_48b [3];
  _result ACCEPT;
  _prog_type BPF_PROG_TYPE_TRACEPOINT].

Definition helper_value_access_32 : bpf_test := TEST "helper access to map: bounds check using s<=, bad access" [
  _insns
   [BPF_MOV64_REG BPF_REG_2 BPF_REG_10; BPF_ALU64_IMM BPF_ADD BPF_REG_2 (-8);
    BPF_ST_MEM BPF_DW BPF_REG_2 0 0; BPF_LD_MAP_FD BPF_REG_1 0;
    BPF_EMIT_CALL BPF_FUNC_map_lookup_elem; BPF_JMP_IMM BPF_JEQ BPF_REG_0 0 4;
    BPF_MOV64_REG BPF_REG_1 BPF_REG_0; BPF_LDX_MEM BPF_DW BPF_REG_3 BPF_REG_0 0;
    BPF_JMP_IMM BPF_JSLE BPF_REG_3 32 2; BPF_MOV64_IMM BPF_REG_0 0; BPF_EXIT_INSN;
    BPF_JMP_IMM BPF_JSLE BPF_REG_3 (-3) (-3); BPF_ALU64_REG BPF_ADD BPF_REG_1 BPF_REG_3;
    BPF_ST_MEM BPF_B BPF_REG_1 0 0; BPF_MOV64_IMM BPF_REG_0 0; BPF_EXIT_INSN];
  _fixup fixup_map_hash_48b [3];
  _result REJECT;
  _errstr "R1 min value is negative";
  _prog_type BPF_PROG_TYPE_TRACEPOINT].

Definition helper_value_access_33 : bpf_test := TEST "map lookup helper access to map" [
  _insns
   [BPF_MOV64_REG BPF_REG_2 BPF_REG_10; BPF_ALU64_IMM BPF_ADD BPF_REG_2 (-8);
    BPF_ST_MEM BPF_DW BPF_REG_2 0 0; BPF_LD_MAP_FD BPF_REG_1 0;
    BPF_EMIT_CALL BPF_FUNC_map_lookup_elem; BPF_JMP_IMM BPF_JEQ BPF_REG_0 0 4;
    BPF_MOV64_REG BPF_REG_2 BPF_REG_0; BPF_LD_MAP_FD BPF_REG_1 0;
    BPF_EMIT_CALL BPF_FUNC_map_lookup_elem; BPF_EXIT_INSN];
  _fixup fixup_map_hash_16b [3; 8];
  _result ACCEPT;
  _prog_type BPF_PROG_TYPE_TRACEPOINT].

Definition helper_value_access_34 : bpf_test := TEST "map update helper access to map" [
  _insns
   [BPF_MOV64_REG BPF_REG_2 BPF_REG_10; BPF_ALU64_IMM BPF_ADD BPF_REG_2 (-8);
    BPF_ST_MEM BPF_DW BPF_REG_2 0 0; BPF_LD_MAP_FD BPF_REG_1 0;
    BPF_EMIT_CALL BPF_FUNC_map_lookup_elem; BPF_JMP_IMM BPF_JEQ BPF_REG_0 0 6;
    BPF_MOV64_IMM BPF_REG_4 0; BPF_MOV64_REG BPF_REG_3 BPF_REG_0;
    BPF_MOV64_REG BPF_REG_2 BPF_REG_0; BPF_LD_MAP_FD BPF_REG_1 0;
    BPF_EMIT_CALL BPF_FUNC_map_update_elem; BPF_EXIT_INSN];
  _fixup fixup_map_hash_16b [3; 10];
  _result ACCEPT;
  _prog_type BPF_PROG_TYPE_TRACEPOINT].

Definition helper_value_access_35 : bpf_test := TEST "map update helper access to map: wrong size" [
  _insns
   [BPF_MOV64_REG BPF_REG_2 BPF_REG_10; BPF_ALU64_IMM BPF_ADD BPF_REG_2 (-8);
    BPF_ST_MEM BPF_DW BPF_REG_2 0 0; BPF_LD_MAP_FD BPF_REG_1 0;
    BPF_EMIT_CALL BPF_FUNC_map_lookup_elem; BPF_JMP_IMM BPF_JEQ BPF_REG_0 0 6;
    BPF_MOV64_IMM BPF_REG_4 0; BPF_MOV64_REG BPF_REG_3 BPF_REG_0;
    BPF_MOV64_REG BPF_REG_2 BPF_REG_0; BPF_LD_MAP_FD BPF_REG_1 0;
    BPF_EMIT_CALL BPF_FUNC_map_update_elem; BPF_EXIT_INSN];
  _fixup fixup_map_hash_8b [3];
  _fixup fixup_map_hash_16b [10];
  _result REJECT;
  _errstr "invalid access to map value, value_size=8 off=0 size=16";
  _prog_type BPF_PROG_TYPE_TRACEPOINT].

Definition helper_value_access_36 : bpf_test := TEST "map helper access to adjusted map (via const imm)" [
  _insns
   [BPF_MOV64_REG BPF_REG_2 BPF_REG_10; BPF_ALU64_IMM BPF_ADD BPF_REG_2 (-8);
    BPF_ST_MEM BPF_DW BPF_REG_2 0 0; BPF_LD_MAP_FD BPF_REG_1 0;
    BPF_EMIT_CALL BPF_FUNC_map_lookup_elem; BPF_JMP_IMM BPF_JEQ BPF_REG_0 0 5;
    BPF_MOV64_REG BPF_REG_2 BPF_REG_0;
    BPF_ALU64_IMM BPF_ADD BPF_REG_2 (offsetof other_val "bar"); BPF_LD_MAP_FD BPF_REG_1 0;
    BPF_EMIT_CALL BPF_FUNC_map_lookup_elem; BPF_EXIT_INSN];
  _fixup fixup_map_hash_16b [3; 9];
  _result ACCEPT;
  _prog_type BPF_PROG_TYPE_TRACEPOINT].

Definition helper_value_access_37 : bpf_test := TEST "map helper access to adjusted map (via const imm): out-of-bound 1" [
  _insns
   [BPF_MOV64_REG BPF_REG_2 BPF_REG_10; BPF_ALU64_IMM BPF_ADD BPF_REG_2 (-8);
    BPF_ST_MEM BPF_DW BPF_REG_2 0 0; BPF_LD_MAP_FD BPF_REG_1 0;
    BPF_EMIT_CALL BPF_FUNC_map_lookup_elem; BPF_JMP_IMM BPF_JEQ BPF_REG_0 0 5;
    BPF_MOV64_REG BPF_REG_2 BPF_REG_0; BPF_ALU64_IMM BPF_ADD BPF_REG_2 ((sizeof other_val) - 4);
    BPF_LD_MAP_FD BPF_REG_1 0; BPF_EMIT_CALL BPF_FUNC_map_lookup_elem; BPF_EXIT_INSN];
  _fixup fixup_map_hash_16b [3; 9];
  _result REJECT;
  _errstr "invalid access to map value, value_size=16 off=12 size=8";
  _prog_type BPF_PROG_TYPE_TRACEPOINT].

Definition helper_value_access_38 : bpf_test := TEST "map helper access to adjusted map (via const imm): out-of-bound 2" [
  _insns
   [BPF_MOV64_REG BPF_REG_2 BPF_REG_10; BPF_ALU64_IMM BPF_ADD BPF_REG_2 (-8);
    BPF_ST_MEM BPF_DW BPF_REG_2 0 0; BPF_LD_MAP_FD BPF_REG_1 0;
    BPF_EMIT_CALL BPF_FUNC_map_lookup_elem; BPF_JMP_IMM BPF_JEQ BPF_REG_0 0 5;
    BPF_MOV64_REG BPF_REG_2 BPF_REG_0; BPF_ALU64_IMM BPF_ADD BPF_REG_2 (-4);
    BPF_LD_MAP_FD BPF_REG_1 0; BPF_EMIT_CALL BPF_FUNC_map_lookup_elem; BPF_EXIT_INSN];
  _fixup fixup_map_hash_16b [3; 9];
  _result REJECT;
  _errstr "invalid access to map value, value_size=16 off=-4 size=8";
  _prog_type BPF_PROG_TYPE_TRACEPOINT].

Definition helper_value_access_39 : bpf_test := TEST "map helper access to adjusted map (via const reg)" [
  _insns
   [BPF_MOV64_REG BPF_REG_2 BPF_REG_10; BPF_ALU64_IMM BPF_ADD BPF_REG_2 (-8);
    BPF_ST_MEM BPF_DW BPF_REG_2 0 0; BPF_LD_MAP_FD BPF_REG_1 0;
    BPF_EMIT_CALL BPF_FUNC_map_lookup_elem; BPF_JMP_IMM BPF_JEQ BPF_REG_0 0 6;
    BPF_MOV64_REG BPF_REG_2 BPF_REG_0; BPF_MOV64_IMM BPF_REG_3 (offsetof other_val "bar");
    BPF_ALU64_REG BPF_ADD BPF_REG_2 BPF_REG_3; BPF_LD_MAP_FD BPF_REG_1 0;
    BPF_EMIT_CALL BPF_FUNC_map_lookup_elem; BPF_EXIT_INSN];
  _fixup fixup_map_hash_16b [3; 10];
  _result ACCEPT;
  _prog_type BPF_PROG_TYPE_TRACEPOINT].

Definition helper_value_access_40 : bpf_test := TEST "map helper access to adjusted map (via const reg): out-of-bound 1" [
  _insns
   [BPF_MOV64_REG BPF_REG_2 BPF_REG_10; BPF_ALU64_IMM BPF_ADD BPF_REG_2 (-8);
    BPF_ST_MEM BPF_DW BPF_REG_2 0 0; BPF_LD_MAP_FD BPF_REG_1 0;
    BPF_EMIT_CALL BPF_FUNC_map_lookup_elem; BPF_JMP_IMM BPF_JEQ BPF_REG_0 0 6;
    BPF_MOV64_REG BPF_REG_2 BPF_REG_0; BPF_MOV64_IMM BPF_REG_3 ((sizeof other_val) - 4);
    BPF_ALU64_REG BPF_ADD BPF_REG_2 BPF_REG_3; BPF_LD_MAP_FD BPF_REG_1 0;
    BPF_EMIT_CALL BPF_FUNC_map_lookup_elem; BPF_EXIT_INSN];
  _fixup fixup_map_hash_16b [3; 10];
  _result REJECT;
  _errstr "invalid access to map value, value_size=16 off=12 size=8";
  _prog_type BPF_PROG_TYPE_TRACEPOINT].

Definition helper_value_access_41 : bpf_test := TEST "map helper access to adjusted map (via const reg): out-of-bound 2" [
  _insns
   [BPF_MOV64_REG BPF_REG_2 BPF_REG_10; BPF_ALU64_IMM BPF_ADD BPF_REG_2 (-8);
    BPF_ST_MEM BPF_DW BPF_REG_2 0 0; BPF_LD_MAP_FD BPF_REG_1 0;
    BPF_EMIT_CALL BPF_FUNC_map_lookup_elem; BPF_JMP_IMM BPF_JEQ BPF_REG_0 0 6;
    BPF_MOV64_REG BPF_REG_2 BPF_REG_0; BPF_MOV64_IMM BPF_REG_3 (-4);
    BPF_ALU64_REG BPF_ADD BPF_REG_2 BPF_REG_3; BPF_LD_MAP_FD BPF_REG_1 0;
    BPF_EMIT_CALL BPF_FUNC_map_lookup_elem; BPF_EXIT_INSN];
  _fixup fixup_map_hash_16b [3; 10];
  _result REJECT;
  _errstr "invalid access to map value, value_size=16 off=-4 size=8";
  _prog_type BPF_PROG_TYPE_TRACEPOINT].

Definition helper_value_access_42 : bpf_test := TEST "map helper access to adjusted map (via variable)" [
  _insns
   [BPF_MOV64_REG BPF_REG_2 BPF_REG_10; BPF_ALU64_IMM BPF_ADD BPF_REG_2 (-8);
    BPF_ST_MEM BPF_DW BPF_REG_2 0 0; BPF_LD_MAP_FD BPF_REG_1 0;
    BPF_EMIT_CALL BPF_FUNC_map_lookup_elem; BPF_JMP_IMM BPF_JEQ BPF_REG_0 0 7;
    BPF_MOV64_REG BPF_REG_2 BPF_REG_0; BPF_LDX_MEM BPF_W BPF_REG_3 BPF_REG_0 0;
    BPF_JMP_IMM BPF_JGT BPF_REG_3 (offsetof other_val "bar") 4;
    BPF_ALU64_REG BPF_ADD BPF_REG_2 BPF_REG_3; BPF_LD_MAP_FD BPF_REG_1 0;
    BPF_EMIT_CALL BPF_FUNC_map_lookup_elem; BPF_EXIT_INSN];
  _fixup fixup_map_hash_16b [3; 11];
  _result ACCEPT;
  _prog_type BPF_PROG_TYPE_TRACEPOINT].

Definition helper_value_access_43 : bpf_test := TEST "map helper access to adjusted map (via variable): no max check" [
  _insns
   [BPF_MOV64_REG BPF_REG_2 BPF_REG_10; BPF_ALU64_IMM BPF_ADD BPF_REG_2 (-8);
    BPF_ST_MEM BPF_DW BPF_REG_2 0 0; BPF_LD_MAP_FD BPF_REG_1 0;
    BPF_EMIT_CALL BPF_FUNC_map_lookup_elem; BPF_JMP_IMM BPF_JEQ BPF_REG_0 0 6;
    BPF_MOV64_REG BPF_REG_2 BPF_REG_0; BPF_LDX_MEM BPF_W BPF_REG_3 BPF_REG_0 0;
    BPF_ALU64_REG BPF_ADD BPF_REG_2 BPF_REG_3; BPF_LD_MAP_FD BPF_REG_1 0;
    BPF_EMIT_CALL BPF_FUNC_map_lookup_elem; BPF_EXIT_INSN];
  _fixup fixup_map_hash_16b [3; 10];
  _result REJECT;
  _errstr "R2 unbounded memory access, make sure to bounds check any such access";
  _prog_type BPF_PROG_TYPE_TRACEPOINT].

Definition helper_value_access_44 : bpf_test := TEST "map helper access to adjusted map (via variable): wrong max check" [
  _insns
   [BPF_MOV64_REG BPF_REG_2 BPF_REG_10; BPF_ALU64_IMM BPF_ADD BPF_REG_2 (-8);
    BPF_ST_MEM BPF_DW BPF_REG_2 0 0; BPF_LD_MAP_FD BPF_REG_1 0;
    BPF_EMIT_CALL BPF_FUNC_map_lookup_elem; BPF_JMP_IMM BPF_JEQ BPF_REG_0 0 7;
    BPF_MOV64_REG BPF_REG_2 BPF_REG_0; BPF_LDX_MEM BPF_W BPF_REG_3 BPF_REG_0 0;
    BPF_JMP_IMM BPF_JGT BPF_REG_3 ((offsetof other_val "bar") + 1) 4;
    BPF_ALU64_REG BPF_ADD BPF_REG_2 BPF_REG_3; BPF_LD_MAP_FD BPF_REG_1 0;
    BPF_EMIT_CALL BPF_FUNC_map_lookup_elem; BPF_EXIT_INSN];
  _fixup fixup_map_hash_16b [3; 11];
  _result REJECT;
  _errstr "invalid access to map value, value_size=16 off=9 size=8";
  _prog_type BPF_PROG_TYPE_TRACEPOINT].

Definition helper_value_access_tests : list bpf_test := [helper_value_access_1;
  helper_value_access_2; helper_value_access_3; helper_value_access_4; helper_value_access_5;
  helper_value_access_6; helper_value_access_7; helper_value_access_8; helper_value_access_9;
  helper_value_access_10; helper_value_access_11; helper_value_access_12; helper_value_access_13;
  helper_value_access_14; helper_value_access_15; helper_value_access_16; helper_value_access_17;
  helper_value_access_18; helper_value_access_19; helper_value_access_20; helper_value_access_21;
  helper_value_access_22; helper_value_access_23; helper_value_access_24; helper_value_access_25;
  helper_value_access_26; helper_value_access_27; helper_value_access_28; helper_value_access_29;
  helper_value_access_30; helper_value_access_31; helper_value_access_32; helper_value_access_33;
  helper_value_access_34; helper_value_access_35; helper_value_access_36; helper_value_access_37;
  helper_value_access_38; helper_value_access_39; helper_value_access_40; helper_value_access_41;
  helper_value_access_42; helper_value_access_43; helper_value_access_44].

(** * [leak_ptr.c] *)

Definition leak_ptr_1 : bpf_test := TEST "leak pointer into ctx 1" [
  _insns
   [BPF_MOV64_IMM BPF_REG_0 0;
    BPF_STX_MEM BPF_DW BPF_REG_1 BPF_REG_0 (offsetof_idx __sk_buff "cb" 0);
    BPF_LD_MAP_FD BPF_REG_2 0;
    BPF_ATOMIC_OP BPF_DW BPF_ADD BPF_REG_1 BPF_REG_2 (offsetof_idx __sk_buff "cb" 0);
    BPF_EXIT_INSN];
  _fixup fixup_map_hash_8b [2];
  _errstr_unpriv "R2 leaks addr into mem";
  _result_unpriv REJECT;
  _result REJECT;
  _errstr "BPF_ATOMIC stores into R1 ctx is not allowed"].

Definition leak_ptr_2 : bpf_test := TEST "leak pointer into ctx 2" [
  _insns
   [BPF_MOV64_IMM BPF_REG_0 0;
    BPF_STX_MEM BPF_DW BPF_REG_1 BPF_REG_0 (offsetof_idx __sk_buff "cb" 0);
    BPF_ATOMIC_OP BPF_DW BPF_ADD BPF_REG_1 BPF_REG_10 (offsetof_idx __sk_buff "cb" 0);
    BPF_EXIT_INSN];
  _errstr_unpriv "R10 leaks addr into mem";
  _result_unpriv REJECT;
  _result REJECT;
  _errstr "BPF_ATOMIC stores into R1 ctx is not allowed"].

Definition leak_ptr_3 : bpf_test := TEST "leak pointer into ctx 3" [
  _insns
   [BPF_MOV64_IMM BPF_REG_0 0; BPF_LD_MAP_FD BPF_REG_2 0;
    BPF_STX_MEM BPF_DW BPF_REG_1 BPF_REG_2 (offsetof_idx __sk_buff "cb" 0); BPF_EXIT_INSN];
  _fixup fixup_map_hash_8b [1];
  _errstr_unpriv "R2 leaks addr into ctx";
  _result_unpriv REJECT;
  _result ACCEPT].

Definition leak_ptr_4 : bpf_test := TEST "leak pointer into map val" [
  _insns
   [BPF_MOV64_REG BPF_REG_6 BPF_REG_1; BPF_ST_MEM BPF_DW BPF_REG_10 (-8) 0;
    BPF_MOV64_REG BPF_REG_2 BPF_REG_10; BPF_ALU64_IMM BPF_ADD BPF_REG_2 (-8);
    BPF_LD_MAP_FD BPF_REG_1 0;
    BPF_RAW_INSN (BPF_JMP .| BPF_CALL) 0 0 0 BPF_FUNC_map_lookup_elem;
    BPF_JMP_IMM BPF_JEQ BPF_REG_0 0 3; BPF_MOV64_IMM BPF_REG_3 0;
    BPF_STX_MEM BPF_DW BPF_REG_0 BPF_REG_3 0;
    BPF_ATOMIC_OP BPF_DW BPF_ADD BPF_REG_0 BPF_REG_6 0; BPF_MOV64_IMM BPF_REG_0 0;
    BPF_EXIT_INSN];
  _fixup fixup_map_hash_8b [4];
  _errstr_unpriv "R6 leaks addr into mem";
  _result_unpriv REJECT;
  _result ACCEPT].

Definition leak_ptr_tests : list bpf_test := [leak_ptr_1; leak_ptr_2; leak_ptr_3; leak_ptr_4].

(** * [perf_event_sample_period.c] *)

Definition perf_event_sample_period_1 : bpf_test := TEST "check bpf_perf_event_data->sample_period byte load permitted" [
  _insns
   [BPF_MOV64_IMM BPF_REG_0 0;
    BPF_LDX_MEM BPF_B BPF_REG_0 BPF_REG_1 (offsetof bpf_perf_event_data "sample_period");
    BPF_EXIT_INSN];
  _result ACCEPT;
  _prog_type BPF_PROG_TYPE_PERF_EVENT].

Definition perf_event_sample_period_2 : bpf_test := TEST "check bpf_perf_event_data->sample_period half load permitted" [
  _insns
   [BPF_MOV64_IMM BPF_REG_0 0;
    BPF_LDX_MEM BPF_H BPF_REG_0 BPF_REG_1 (offsetof bpf_perf_event_data "sample_period");
    BPF_EXIT_INSN];
  _result ACCEPT;
  _prog_type BPF_PROG_TYPE_PERF_EVENT].

Definition perf_event_sample_period_3 : bpf_test := TEST "check bpf_perf_event_data->sample_period word load permitted" [
  _insns
   [BPF_MOV64_IMM BPF_REG_0 0;
    BPF_LDX_MEM BPF_W BPF_REG_0 BPF_REG_1 (offsetof bpf_perf_event_data "sample_period");
    BPF_EXIT_INSN];
  _result ACCEPT;
  _prog_type BPF_PROG_TYPE_PERF_EVENT].

Definition perf_event_sample_period_4 : bpf_test := TEST "check bpf_perf_event_data->sample_period dword load permitted" [
  _insns
   [BPF_MOV64_IMM BPF_REG_0 0;
    BPF_LDX_MEM BPF_DW BPF_REG_0 BPF_REG_1 (offsetof bpf_perf_event_data "sample_period");
    BPF_EXIT_INSN];
  _result ACCEPT;
  _prog_type BPF_PROG_TYPE_PERF_EVENT].

Definition perf_event_sample_period_tests : list bpf_test := [perf_event_sample_period_1;
  perf_event_sample_period_2; perf_event_sample_period_3; perf_event_sample_period_4].

(** * [raw_tp_writable.c] *)

Definition raw_tp_writable_1 : bpf_test := TEST "raw_tracepoint_writable: reject variable offset" [
  _insns
   [BPF_LDX_MEM BPF_DW BPF_REG_6 BPF_REG_1 0; BPF_LD_MAP_FD BPF_REG_1 0;
    BPF_MOV32_IMM BPF_REG_0 0; BPF_MOV64_REG BPF_REG_2 BPF_REG_10;
    BPF_ALU64_IMM BPF_ADD BPF_REG_2 (-8); BPF_STX_MEM BPF_DW BPF_REG_2 BPF_REG_0 0;
    BPF_RAW_INSN (BPF_JMP .| BPF_CALL) 0 0 0 BPF_FUNC_map_lookup_elem;
    BPF_JMP_IMM BPF_JNE BPF_REG_0 0 1; BPF_EXIT_INSN; BPF_LDX_MEM BPF_W BPF_REG_0 BPF_REG_0 0;
    BPF_ALU64_REG BPF_ADD BPF_REG_6 BPF_REG_0; BPF_MOV64_IMM BPF_REG_7 4242;
    BPF_STX_MEM BPF_DW BPF_REG_6 BPF_REG_7 0; BPF_MOV64_IMM BPF_REG_0 0; BPF_EXIT_INSN];
  _fixup fixup_map_hash_8b [1];
  _prog_type BPF_PROG_TYPE_RAW_TRACEPOINT_WRITABLE;
  _errstr "R6 invalid variable buffer offset: off=0, var_off=(0x0; 0xffffffff)";
  _flags F_NEEDS_EFFICIENT_UNALIGNED_ACCESS].

Definition raw_tp_writable_tests : list bpf_test := [raw_tp_writable_1].

(** * [spin_lock.c] *)

Definition spin_lock_1 : bpf_test := TEST "spin_lock: test1 success" [
  _insns
   [BPF_ST_MEM BPF_W BPF_REG_10 (-4) 0; BPF_MOV64_REG BPF_REG_2 BPF_REG_10;
    BPF_ALU64_IMM BPF_ADD BPF_REG_2 (-4); BPF_LD_MAP_FD BPF_REG_1 0;
    BPF_RAW_INSN (BPF_JMP .| BPF_CALL) 0 0 0 BPF_FUNC_map_lookup_elem;
    BPF_JMP_IMM BPF_JNE BPF_REG_0 0 1; BPF_EXIT_INSN; BPF_MOV64_REG BPF_REG_6 BPF_REG_0;
    BPF_MOV64_REG BPF_REG_1 BPF_REG_0; BPF_ALU64_IMM BPF_ADD BPF_REG_1 4;
    BPF_RAW_INSN (BPF_JMP .| BPF_CALL) 0 0 0 BPF_FUNC_spin_lock;
    BPF_MOV64_REG BPF_REG_1 BPF_REG_6; BPF_ALU64_IMM BPF_ADD BPF_REG_1 4;
    BPF_LDX_MEM BPF_W BPF_REG_0 BPF_REG_6 0;
    BPF_RAW_INSN (BPF_JMP .| BPF_CALL) 0 0 0 BPF_FUNC_spin_unlock; BPF_MOV64_IMM BPF_REG_0 0;
    BPF_EXIT_INSN];
  _fixup fixup_map_spin_lock [3];
  _result ACCEPT;
  _result_unpriv REJECT;
  _errstr_unpriv "";
  _prog_type BPF_PROG_TYPE_CGROUP_SKB].

Definition spin_lock_2 : bpf_test := TEST "spin_lock: test2 direct ld/st" [
  _insns
   [BPF_ST_MEM BPF_W BPF_REG_10 (-4) 0; BPF_MOV64_REG BPF_REG_2 BPF_REG_10;
    BPF_ALU64_IMM BPF_ADD BPF_REG_2 (-4); BPF_LD_MAP_FD BPF_REG_1 0;
    BPF_RAW_INSN (BPF_JMP .| BPF_CALL) 0 0 0 BPF_FUNC_map_lookup_elem;
    BPF_JMP_IMM BPF_JNE BPF_REG_0 0 1; BPF_EXIT_INSN; BPF_MOV64_REG BPF_REG_6 BPF_REG_0;
    BPF_MOV64_REG BPF_REG_1 BPF_REG_0; BPF_ALU64_IMM BPF_ADD BPF_REG_1 4;
    BPF_RAW_INSN (BPF_JMP .| BPF_CALL) 0 0 0 BPF_FUNC_spin_lock;
    BPF_MOV64_REG BPF_REG_1 BPF_REG_6; BPF_ALU64_IMM BPF_ADD BPF_REG_1 4;
    BPF_LDX_MEM BPF_W BPF_REG_0 BPF_REG_1 0;
    BPF_RAW_INSN (BPF_JMP .| BPF_CALL) 0 0 0 BPF_FUNC_spin_unlock; BPF_MOV64_IMM BPF_REG_0 0;
    BPF_EXIT_INSN];
  _fixup fixup_map_spin_lock [3];
  _result REJECT;
  _errstr "cannot be accessed directly";
  _result_unpriv REJECT;
  _errstr_unpriv "";
  _prog_type BPF_PROG_TYPE_CGROUP_SKB].

Definition spin_lock_3 : bpf_test := TEST "spin_lock: test3 direct ld/st" [
  _insns
   [BPF_ST_MEM BPF_W BPF_REG_10 (-4) 0; BPF_MOV64_REG BPF_REG_2 BPF_REG_10;
    BPF_ALU64_IMM BPF_ADD BPF_REG_2 (-4); BPF_LD_MAP_FD BPF_REG_1 0;
    BPF_RAW_INSN (BPF_JMP .| BPF_CALL) 0 0 0 BPF_FUNC_map_lookup_elem;
    BPF_JMP_IMM BPF_JNE BPF_REG_0 0 1; BPF_EXIT_INSN; BPF_MOV64_REG BPF_REG_6 BPF_REG_0;
    BPF_MOV64_REG BPF_REG_1 BPF_REG_0; BPF_ALU64_IMM BPF_ADD BPF_REG_1 4;
    BPF_RAW_INSN (BPF_JMP .| BPF_CALL) 0 0 0 BPF_FUNC_spin_lock;
    BPF_MOV64_REG BPF_REG_1 BPF_REG_6; BPF_ALU64_IMM BPF_ADD BPF_REG_1 4;
    BPF_LDX_MEM BPF_W BPF_REG_0 BPF_REG_6 1;
    BPF_RAW_INSN (BPF_JMP .| BPF_CALL) 0 0 0 BPF_FUNC_spin_unlock; BPF_MOV64_IMM BPF_REG_0 0;
    BPF_EXIT_INSN];
  _fixup fixup_map_spin_lock [3];
  _result REJECT;
  _errstr "cannot be accessed directly";
  _result_unpriv REJECT;
  _errstr_unpriv "";
  _prog_type BPF_PROG_TYPE_CGROUP_SKB;
  _flags F_NEEDS_EFFICIENT_UNALIGNED_ACCESS].

Definition spin_lock_4 : bpf_test := TEST "spin_lock: test4 direct ld/st" [
  _insns
   [BPF_ST_MEM BPF_W BPF_REG_10 (-4) 0; BPF_MOV64_REG BPF_REG_2 BPF_REG_10;
    BPF_ALU64_IMM BPF_ADD BPF_REG_2 (-4); BPF_LD_MAP_FD BPF_REG_1 0;
    BPF_RAW_INSN (BPF_JMP .| BPF_CALL) 0 0 0 BPF_FUNC_map_lookup_elem;
    BPF_JMP_IMM BPF_JNE BPF_REG_0 0 1; BPF_EXIT_INSN; BPF_MOV64_REG BPF_REG_6 BPF_REG_0;
    BPF_MOV64_REG BPF_REG_1 BPF_REG_0; BPF_ALU64_IMM BPF_ADD BPF_REG_1 4;
    BPF_RAW_INSN (BPF_JMP .| BPF_CALL) 0 0 0 BPF_FUNC_spin_lock;
    BPF_MOV64_REG BPF_REG_1 BPF_REG_6; BPF_ALU64_IMM BPF_ADD BPF_REG_1 4;
    BPF_LDX_MEM BPF_H BPF_REG_0 BPF_REG_6 3;
    BPF_RAW_INSN (BPF_JMP .| BPF_CALL) 0 0 0 BPF_FUNC_spin_unlock; BPF_MOV64_IMM BPF_REG_0 0;
    BPF_EXIT_INSN];
  _fixup fixup_map_spin_lock [3];
  _result REJECT;
  _errstr "cannot be accessed directly";
  _result_unpriv REJECT;
  _errstr_unpriv "";
  _prog_type BPF_PROG_TYPE_CGROUP_SKB;
  _flags F_NEEDS_EFFICIENT_UNALIGNED_ACCESS].

Definition spin_lock_5 : bpf_test := TEST "spin_lock: test5 call within a locked region" [
  _insns
   [BPF_ST_MEM BPF_W BPF_REG_10 (-4) 0; BPF_MOV64_REG BPF_REG_2 BPF_REG_10;
    BPF_ALU64_IMM BPF_ADD BPF_REG_2 (-4); BPF_LD_MAP_FD BPF_REG_1 0;
    BPF_RAW_INSN (BPF_JMP .| BPF_CALL) 0 0 0 BPF_FUNC_map_lookup_elem;
    BPF_JMP_IMM BPF_JNE BPF_REG_0 0 1; BPF_EXIT_INSN; BPF_MOV64_REG BPF_REG_6 BPF_REG_0;
    BPF_MOV64_REG BPF_REG_1 BPF_REG_0; BPF_ALU64_IMM BPF_ADD BPF_REG_1 4;
    BPF_RAW_INSN (BPF_JMP .| BPF_CALL) 0 0 0 BPF_FUNC_spin_lock;
    BPF_RAW_INSN (BPF_JMP .| BPF_CALL) 0 0 0 BPF_FUNC_get_prandom_u32;
    BPF_MOV64_REG BPF_REG_1 BPF_REG_6; BPF_ALU64_IMM BPF_ADD BPF_REG_1 4;
    BPF_RAW_INSN (BPF_JMP .| BPF_CALL) 0 0 0 BPF_FUNC_spin_unlock; BPF_MOV64_IMM BPF_REG_0 0;
    BPF_EXIT_INSN];
  _fixup fixup_map_spin_lock [3];
  _result REJECT;
  _errstr "calls are not allowed";
  _result_unpriv REJECT;
  _errstr_unpriv "";
  _prog_type BPF_PROG_TYPE_CGROUP_SKB].

Definition spin_lock_6 : bpf_test := TEST "spin_lock: test6 missing unlock" [
  _insns
   [BPF_ST_MEM BPF_W BPF_REG_10 (-4) 0; BPF_MOV64_REG BPF_REG_2 BPF_REG_10;
    BPF_ALU64_IMM BPF_ADD BPF_REG_2 (-4); BPF_LD_MAP_FD BPF_REG_1 0;
    BPF_RAW_INSN (BPF_JMP .| BPF_CALL) 0 0 0 BPF_FUNC_map_lookup_elem;
    BPF_JMP_IMM BPF_JNE BPF_REG_0 0 1; BPF_EXIT_INSN; BPF_MOV64_REG BPF_REG_6 BPF_REG_0;
    BPF_MOV64_REG BPF_REG_1 BPF_REG_0; BPF_ALU64_IMM BPF_ADD BPF_REG_1 4;
    BPF_RAW_INSN (BPF_JMP .| BPF_CALL) 0 0 0 BPF_FUNC_spin_lock;
    BPF_MOV64_REG BPF_REG_1 BPF_REG_6; BPF_ALU64_IMM BPF_ADD BPF_REG_1 4;
    BPF_LDX_MEM BPF_W BPF_REG_0 BPF_REG_6 0; BPF_JMP_IMM BPF_JNE BPF_REG_0 0 1;
    BPF_RAW_INSN (BPF_JMP .| BPF_CALL) 0 0 0 BPF_FUNC_spin_unlock; BPF_MOV64_IMM BPF_REG_0 0;
    BPF_EXIT_INSN];
  _fixup fixup_map_spin_lock [3];
  _result REJECT;
  _errstr "unlock is missing";
  _result_unpriv REJECT;
  _errstr_unpriv "";
  _prog_type BPF_PROG_TYPE_CGROUP_SKB].

Definition spin_lock_7 : bpf_test := TEST "spin_lock: test7 unlock without lock" [
  _insns
   [BPF_ST_MEM BPF_W BPF_REG_10 (-4) 0; BPF_MOV64_REG BPF_REG_2 BPF_REG_10;
    BPF_ALU64_IMM BPF_ADD BPF_REG_2 (-4); BPF_LD_MAP_FD BPF_REG_1 0;
    BPF_RAW_INSN (BPF_JMP .| BPF_CALL) 0 0 0 BPF_FUNC_map_lookup_elem;
    BPF_JMP_IMM BPF_JNE BPF_REG_0 0 1; BPF_EXIT_INSN; BPF_MOV64_REG BPF_REG_6 BPF_REG_0;
    BPF_MOV64_REG BPF_REG_1 BPF_REG_0; BPF_ALU64_IMM BPF_ADD BPF_REG_1 4;
    BPF_JMP_IMM BPF_JNE BPF_REG_1 0 1;
    BPF_RAW_INSN (BPF_JMP .| BPF_CALL) 0 0 0 BPF_FUNC_spin_lock;
    BPF_MOV64_REG BPF_REG_1 BPF_REG_6; BPF_ALU64_IMM BPF_ADD BPF_REG_1 4;
    BPF_LDX_MEM BPF_W BPF_REG_0 BPF_REG_6 0;
    BPF_RAW_INSN (BPF_JMP .| BPF_CALL) 0 0 0 BPF_FUNC_spin_unlock; BPF_MOV64_IMM BPF_REG_0 0;
    BPF_EXIT_INSN];
  _fixup fixup_map_spin_lock [3];
  _result REJECT;
  _errstr "without taking a lock";
  _result_unpriv REJECT;
  _errstr_unpriv "";
  _prog_type BPF_PROG_TYPE_CGROUP_SKB].

Definition spin_lock_8 : bpf_test := TEST "spin_lock: test8 double lock" [
  _insns
   [BPF_ST_MEM BPF_W BPF_REG_10 (-4) 0; BPF_MOV64_REG BPF_REG_2 BPF_REG_10;
    BPF_ALU64_IMM BPF_ADD BPF_REG_2 (-4); BPF_LD_MAP_FD BPF_REG_1 0;
    BPF_RAW_INSN (BPF_JMP .| BPF_CALL) 0 0 0 BPF_FUNC_map_lookup_elem;
    BPF_JMP_IMM BPF_JNE BPF_REG_0 0 1; BPF_EXIT_INSN; BPF_MOV64_REG BPF_REG_6 BPF_REG_0;
    BPF_MOV64_REG BPF_REG_1 BPF_REG_0; BPF_ALU64_IMM BPF_ADD BPF_REG_1 4;
    BPF_RAW_INSN (BPF_JMP .| BPF_CALL) 0 0 0 BPF_FUNC_spin_lock;
    BPF_MOV64_REG BPF_REG_1 BPF_REG_6; BPF_ALU64_IMM BPF_ADD BPF_REG_1 4;
    BPF_RAW_INSN (BPF_JMP .| BPF_CALL) 0 0 0 BPF_FUNC_spin_lock;
    BPF_MOV64_REG BPF_REG_1 BPF_REG_6; BPF_ALU64_IMM BPF_ADD BPF_REG_1 4;
    BPF_LDX_MEM BPF_W BPF_REG_0 BPF_REG_6 0;
    BPF_RAW_INSN (BPF_JMP .| BPF_CALL) 0 0 0 BPF_FUNC_spin_unlock; BPF_MOV64_IMM BPF_REG_0 0;
    BPF_EXIT_INSN];
  _fixup fixup_map_spin_lock [3];
  _result REJECT;
  _errstr "calls are not allowed";
  _result_unpriv REJECT;
  _errstr_unpriv "";
  _prog_type BPF_PROG_TYPE_CGROUP_SKB].

Definition spin_lock_9 : bpf_test := TEST "spin_lock: test9 different lock" [
  _insns
   [BPF_ST_MEM BPF_W BPF_REG_10 (-4) 0; BPF_MOV64_REG BPF_REG_2 BPF_REG_10;
    BPF_ALU64_IMM BPF_ADD BPF_REG_2 (-4); BPF_LD_MAP_FD BPF_REG_1 0;
    BPF_RAW_INSN (BPF_JMP .| BPF_CALL) 0 0 0 BPF_FUNC_map_lookup_elem;
    BPF_JMP_IMM BPF_JNE BPF_REG_0 0 1; BPF_EXIT_INSN; BPF_MOV64_REG BPF_REG_6 BPF_REG_0;
    BPF_MOV64_REG BPF_REG_2 BPF_REG_10; BPF_ALU64_IMM BPF_ADD BPF_REG_2 (-4);
    BPF_LD_MAP_FD BPF_REG_1 0;
    BPF_RAW_INSN (BPF_JMP .| BPF_CALL) 0 0 0 BPF_FUNC_map_lookup_elem;
    BPF_JMP_IMM BPF_JNE BPF_REG_0 0 1; BPF_EXIT_INSN; BPF_MOV64_REG BPF_REG_7 BPF_REG_0;
    BPF_MOV64_REG BPF_REG_1 BPF_REG_6; BPF_ALU64_IMM BPF_ADD BPF_REG_1 4;
    BPF_RAW_INSN (BPF_JMP .| BPF_CALL) 0 0 0 BPF_FUNC_spin_lock;
    BPF_MOV64_REG BPF_REG_1 BPF_REG_7; BPF_ALU64_IMM BPF_ADD BPF_REG_1 4;
    BPF_RAW_INSN (BPF_JMP .| BPF_CALL) 0 0 0 BPF_FUNC_spin_unlock; BPF_MOV64_IMM BPF_REG_0 0;
    BPF_EXIT_INSN];
  _fixup fixup_map_spin_lock [3; 11];
  _result REJECT;
  _errstr "unlock of different lock";
  _result_unpriv REJECT;
  _errstr_unpriv "";
  _prog_type BPF_PROG_TYPE_CGROUP_SKB].

Definition spin_lock_10 : bpf_test := TEST "spin_lock: test10 lock in subprog without unlock" [
  _insns
   [BPF_ST_MEM BPF_W BPF_REG_10 (-4) 0; BPF_MOV64_REG BPF_REG_2 BPF_REG_10;
    BPF_ALU64_IMM BPF_ADD BPF_REG_2 (-4); BPF_LD_MAP_FD BPF_REG_1 0;
    BPF_RAW_INSN (BPF_JMP .| BPF_CALL) 0 0 0 BPF_FUNC_map_lookup_elem;
    BPF_JMP_IMM BPF_JNE BPF_REG_0 0 1; BPF_EXIT_INSN; BPF_MOV64_REG BPF_REG_6 BPF_REG_0;
    BPF_MOV64_REG BPF_REG_1 BPF_REG_0; BPF_ALU64_IMM BPF_ADD BPF_REG_1 4;
    BPF_RAW_INSN (BPF_JMP .| BPF_CALL) 0 1 0 5; BPF_MOV64_REG BPF_REG_1 BPF_REG_6;
    BPF_ALU64_IMM BPF_ADD BPF_REG_1 4;
    BPF_RAW_INSN (BPF_JMP .| BPF_CALL) 0 0 0 BPF_FUNC_spin_unlock; BPF_MOV64_IMM BPF_REG_0 1;
    BPF_EXIT_INSN; BPF_RAW_INSN (BPF_JMP .| BPF_CALL) 0 0 0 BPF_FUNC_spin_lock;
    BPF_MOV64_IMM BPF_REG_0 0; BPF_EXIT_INSN];
  _fixup fixup_map_spin_lock [3];
  _result REJECT;
  _errstr "unlock is missing";
  _result_unpriv REJECT;
  _errstr_unpriv "";
  _prog_type BPF_PROG_TYPE_CGROUP_SKB].

Definition spin_lock_11 : bpf_test := TEST "spin_lock: test11 ld_abs under lock" [
  _insns
   [BPF_MOV64_REG BPF_REG_6 BPF_REG_1; BPF_ST_MEM BPF_W BPF_REG_10 (-4) 0;
    BPF_MOV64_REG BPF_REG_2 BPF_REG_10; BPF_ALU64_IMM BPF_ADD BPF_REG_2 (-4);
    BPF_LD_MAP_FD BPF_REG_1 0;
    BPF_RAW_INSN (BPF_JMP .| BPF_CALL) 0 0 0 BPF_FUNC_map_lookup_elem;
    BPF_JMP_IMM BPF_JNE BPF_REG_0 0 1; BPF_EXIT_INSN; BPF_MOV64_REG BPF_REG_7 BPF_REG_0;
    BPF_MOV64_REG BPF_REG_1 BPF_REG_0; BPF_ALU64_IMM BPF_ADD BPF_REG_1 4;
    BPF_RAW_INSN (BPF_JMP .| BPF_CALL) 0 0 0 BPF_FUNC_spin_lock; BPF_LD_ABS BPF_B 0;
    BPF_MOV64_REG BPF_REG_1 BPF_REG_7; BPF_ALU64_IMM BPF_ADD BPF_REG_1 4;
    BPF_RAW_INSN (BPF_JMP .| BPF_CALL) 0 0 0 BPF_FUNC_spin_unlock; BPF_MOV64_IMM BPF_REG_0 0;
    BPF_EXIT_INSN];
  _fixup fixup_map_spin_lock [4];
  _result REJECT;
  _errstr "inside bpf_spin_lock";
  _prog_type BPF_PROG_TYPE_SCHED_CLS].

Definition spin_lock_tests : list bpf_test := [spin_lock_1; spin_lock_2; spin_lock_3; spin_lock_4;
  spin_lock_5; spin_lock_6; spin_lock_7; spin_lock_8; spin_lock_9; spin_lock_10; spin_lock_11].

End LegacyHelper.
