(* ===== verification/LegacyCtx.v ===== *)
(** Verifier tests of the repository, contexts: fields of the context structures, unprivileged programs.

    Each definition is one element of a file of [selftests/legacy/verifier],
    written with the macros of [BpfInsn] and the designators of [ConvertTests];
    a list per file gives them in the order of the file. *)

From S2P Require Import Prelude BpfInsn ConvertTests.
From Stdlib Require Import ZArith String.
From stdpp Require Import base strings list.
Import BpfInsn ConvertTests.
Open Scope Z_scope.

Module LegacyCtx.

(** * [cgroup_inv_retcode.c] *)

Definition cgroup_inv_retcode_1 : bpf_test := TEST "bpf_exit with invalid return code. test1" [
  _insns
   [BPF_LDX_MEM BPF_W BPF_REG_0 BPF_REG_1 0; BPF_EXIT_INSN];
  _errstr "R0 has value (0x0; 0xffffffff)";
  _result REJECT;
  _prog_type BPF_PROG_TYPE_CGROUP_SOCK].

Definition cgroup_inv_retcode_2 : bpf_test := TEST "bpf_exit with invalid return code. test2" [
  _insns
   [BPF_LDX_MEM BPF_W BPF_REG_0 BPF_REG_1 0; BPF_ALU64_IMM BPF_AND BPF_REG_0 1; BPF_EXIT_INSN];
  _result ACCEPT;
  _prog_type BPF_PROG_TYPE_CGROUP_SOCK].

Definition cgroup_inv_retcode_3 : bpf_test := TEST "bpf_exit with invalid return code. test3" [
  _insns
   [BPF_LDX_MEM BPF_W BPF_REG_0 BPF_REG_1 0; BPF_ALU64_IMM BPF_AND BPF_REG_0 3; BPF_EXIT_INSN];
  _errstr "R0 has value (0x0; 0x3)";
  _result REJECT;
  _prog_type BPF_PROG_TYPE_CGROUP_SOCK].

Definition cgroup_inv_retcode_4 : bpf_test := TEST "bpf_exit with invalid return code. test4" [
  _insns
   [BPF_MOV64_IMM BPF_REG_0 1; BPF_EXIT_INSN];
  _result ACCEPT;
  _prog_type BPF_PROG_TYPE_CGROUP_SOCK].

Definition cgroup_inv_retcode_5 : bpf_test := TEST "bpf_exit with invalid return code. test5" [
  _insns
   [BPF_MOV64_IMM BPF_REG_0 2; BPF_EXIT_INSN];
  _errstr "R0 has value (0x2; 0x0)";
  _result REJECT;
  _prog_type BPF_PROG_TYPE_CGROUP_SOCK].

Definition cgroup_inv_retcode_6 : bpf_test := TEST "bpf_exit with invalid return code. test6" [
  _insns
   [BPF_MOV64_REG BPF_REG_0 BPF_REG_1; BPF_EXIT_INSN];
  _errstr "R0 is not a known value (ctx)";
  _result REJECT;
  _prog_type BPF_PROG_TYPE_CGROUP_SOCK].

Definition cgroup_inv_retcode_7 : bpf_test := TEST "bpf_exit with invalid return code. test7" [
  _insns
   [BPF_LDX_MEM BPF_W BPF_REG_0 BPF_REG_1 0; BPF_LDX_MEM BPF_W BPF_REG_2 BPF_REG_1 4;
    BPF_ALU64_REG BPF_MUL BPF_REG_0 BPF_REG_2; BPF_EXIT_INSN];
  _errstr "R0 has unknown scalar value";
  _result REJECT;
  _prog_type BPF_PROG_TYPE_CGROUP_SOCK].

Definition cgroup_inv_retcode_tests : list bpf_test := [cgroup_inv_retcode_1; cgroup_inv_retcode_2;
  cgroup_inv_retcode_3; cgroup_inv_retcode_4; cgroup_inv_retcode_5; cgroup_inv_retcode_6;
  cgroup_inv_retcode_7].

(** * [cgroup_skb.c] *)

Definition cgroup_skb_1 : bpf_test := TEST "direct packet read test#1 for CGROUP_SKB" [
  _insns
   [BPF_LDX_MEM BPF_W BPF_REG_2 BPF_REG_1 (offsetof __sk_buff "data");
    BPF_LDX_MEM BPF_W BPF_REG_3 BPF_REG_1 (offsetof __sk_buff "data_end");
    BPF_LDX_MEM BPF_W BPF_REG_4 BPF_REG_1 (offsetof __sk_buff "len");
    BPF_LDX_MEM BPF_W BPF_REG_5 BPF_REG_1 (offsetof __sk_buff "pkt_type");
    BPF_LDX_MEM BPF_W BPF_REG_6 BPF_REG_1 (offsetof __sk_buff "mark");
    BPF_STX_MEM BPF_W BPF_REG_1 BPF_REG_6 (offsetof __sk_buff "mark");
    BPF_LDX_MEM BPF_W BPF_REG_7 BPF_REG_1 (offsetof __sk_buff "queue_mapping");
    BPF_LDX_MEM BPF_W BPF_REG_8 BPF_REG_1 (offsetof __sk_buff "protocol");
    BPF_LDX_MEM BPF_W BPF_REG_9 BPF_REG_1 (offsetof __sk_buff "vlan_present");
    BPF_MOV64_REG BPF_REG_0 BPF_REG_2; BPF_ALU64_IMM BPF_ADD BPF_REG_0 8;
    BPF_JMP_REG BPF_JGT BPF_REG_0 BPF_REG_3 1; BPF_LDX_MEM BPF_B BPF_REG_0 BPF_REG_2 0;
    BPF_MOV64_IMM BPF_REG_0 0; BPF_EXIT_INSN];
  _result ACCEPT;
  _result_unpriv REJECT;
  _errstr_unpriv "invalid bpf_context access off=76 size=4";
  _prog_type BPF_PROG_TYPE_CGROUP_SKB].

Definition cgroup_skb_2 : bpf_test := TEST "direct packet read test#2 for CGROUP_SKB" [
  _insns
   [BPF_LDX_MEM BPF_W BPF_REG_4 BPF_REG_1 (offsetof __sk_buff "vlan_tci");
    BPF_LDX_MEM BPF_W BPF_REG_5 BPF_REG_1 (offsetof __sk_buff "vlan_proto");
    BPF_LDX_MEM BPF_W BPF_REG_6 BPF_REG_1 (offsetof __sk_buff "priority");
    BPF_STX_MEM BPF_W BPF_REG_1 BPF_REG_6 (offsetof __sk_buff "priority");
    BPF_LDX_MEM BPF_W BPF_REG_7 BPF_REG_1 (offsetof __sk_buff "ingress_ifindex");
    BPF_LDX_MEM BPF_W BPF_REG_8 BPF_REG_1 (offsetof __sk_buff "tc_index");
    BPF_LDX_MEM BPF_W BPF_REG_9 BPF_REG_1 (offsetof __sk_buff "hash");
    BPF_MOV64_IMM BPF_REG_0 0; BPF_EXIT_INSN];
  _result ACCEPT;
  _prog_type BPF_PROG_TYPE_CGROUP_SKB].

Definition cgroup_skb_3 : bpf_test := TEST "direct packet read test#3 for CGROUP_SKB" [
  _insns
   [BPF_LDX_MEM BPF_W BPF_REG_4 BPF_REG_1 (offsetof_idx __sk_buff "cb" 0);
    BPF_LDX_MEM BPF_W BPF_REG_5 BPF_REG_1 (offsetof_idx __sk_buff "cb" 1);
    BPF_LDX_MEM BPF_W BPF_REG_6 BPF_REG_1 (offsetof_idx __sk_buff "cb" 2);
    BPF_LDX_MEM BPF_W BPF_REG_7 BPF_REG_1 (offsetof_idx __sk_buff "cb" 3);
    BPF_LDX_MEM BPF_W BPF_REG_8 BPF_REG_1 (offsetof_idx __sk_buff "cb" 4);
    BPF_LDX_MEM BPF_W BPF_REG_9 BPF_REG_1 (offsetof __sk_buff "napi_id");
    BPF_STX_MEM BPF_W BPF_REG_1 BPF_REG_4 (offsetof_idx __sk_buff "cb" 0);
    BPF_STX_MEM BPF_W BPF_REG_1 BPF_REG_5 (offsetof_idx __sk_buff "cb" 1);
    BPF_STX_MEM BPF_W BPF_REG_1 BPF_REG_6 (offsetof_idx __sk_buff "cb" 2);
    BPF_STX_MEM BPF_W BPF_REG_1 BPF_REG_7 (offsetof_idx __sk_buff "cb" 3);
    BPF_STX_MEM BPF_W BPF_REG_1 BPF_REG_8 (offsetof_idx __sk_buff "cb" 4);
    BPF_MOV64_IMM BPF_REG_0 0; BPF_EXIT_INSN];
  _result ACCEPT;
  _prog_type BPF_PROG_TYPE_CGROUP_SKB].

Definition cgroup_skb_4 : bpf_test := TEST "direct packet read test#4 for CGROUP_SKB" [
  _insns
   [BPF_LDX_MEM BPF_W BPF_REG_2 BPF_REG_1 (offsetof __sk_buff "family");
    BPF_LDX_MEM BPF_W BPF_REG_3 BPF_REG_1 (offsetof __sk_buff "remote_ip4");
    BPF_LDX_MEM BPF_W BPF_REG_4 BPF_REG_1 (offsetof __sk_buff "local_ip4");
    BPF_LDX_MEM BPF_W BPF_REG_5 BPF_REG_1 (offsetof_idx __sk_buff "remote_ip6" 0);
    BPF_LDX_MEM BPF_W BPF_REG_5 BPF_REG_1 (offsetof_idx __sk_buff "remote_ip6" 1);
    BPF_LDX_MEM BPF_W BPF_REG_5 BPF_REG_1 (offsetof_idx __sk_buff "remote_ip6" 2);
    BPF_LDX_MEM BPF_W BPF_REG_5 BPF_REG_1 (offsetof_idx __sk_buff "remote_ip6" 3);
    BPF_LDX_MEM BPF_W BPF_REG_6 BPF_REG_1 (offsetof_idx __sk_buff "local_ip6" 0);
    BPF_LDX_MEM BPF_W BPF_REG_6 BPF_REG_1 (offsetof_idx __sk_buff "local_ip6" 1);
    BPF_LDX_MEM BPF_W BPF_REG_6 BPF_REG_1 (offsetof_idx __sk_buff "local_ip6" 2);
    BPF_LDX_MEM BPF_W BPF_REG_6 BPF_REG_1 (offsetof_idx __sk_buff "local_ip6" 3);
    BPF_LDX_MEM BPF_W BPF_REG_7 BPF_REG_1 (offsetof __sk_buff "remote_port");
    BPF_LDX_MEM BPF_W BPF_REG_8 BPF_REG_1 (offsetof __sk_buff "local_port");
    BPF_MOV64_IMM BPF_REG_0 0; BPF_EXIT_INSN];
  _result ACCEPT;
  _prog_type BPF_PROG_TYPE_CGROUP_SKB].

Definition cgroup_skb_5 : bpf_test := TEST "invalid access of tc_classid for CGROUP_SKB" [
  _insns
   [BPF_LDX_MEM BPF_W BPF_REG_0 BPF_REG_1 (offsetof __sk_buff "tc_classid");
    BPF_MOV64_IMM BPF_REG_0 0; BPF_EXIT_INSN];
  _result REJECT;
  _errstr "invalid bpf_context access";
  _prog_type BPF_PROG_TYPE_CGROUP_SKB].

Definition cgroup_skb_6 : bpf_test := TEST "invalid access of data_meta for CGROUP_SKB" [
  _insns
   [BPF_LDX_MEM BPF_W BPF_REG_0 BPF_REG_1 (offsetof __sk_buff "data_meta");
    BPF_MOV64_IMM BPF_REG_0 0; BPF_EXIT_INSN];
  _result REJECT;
  _errstr "invalid bpf_context access";
  _prog_type BPF_PROG_TYPE_CGROUP_SKB].

Definition cgroup_skb_7 : bpf_test := TEST "invalid access of flow_keys for CGROUP_SKB" [
  _insns
   [BPF_LDX_MEM BPF_W BPF_REG_0 BPF_REG_1 (offsetof __sk_buff "flow_keys");
    BPF_MOV64_IMM BPF_REG_0 0; BPF_EXIT_INSN];
  _result REJECT;
  _errstr "invalid bpf_context access";
  _prog_type BPF_PROG_TYPE_CGROUP_SKB].

Definition cgroup_skb_8 : bpf_test := TEST "invalid write access to napi_id for CGROUP_SKB" [
  _insns
   [BPF_LDX_MEM BPF_W BPF_REG_9 BPF_REG_1 (offsetof __sk_buff "napi_id");
    BPF_STX_MEM BPF_W BPF_REG_1 BPF_REG_9 (offsetof __sk_buff "napi_id");
    BPF_MOV64_IMM BPF_REG_0 0; BPF_EXIT_INSN];
  _result REJECT;
  _errstr "invalid bpf_context access";
  _prog_type BPF_PROG_TYPE_CGROUP_SKB].

Definition cgroup_skb_9 : bpf_test := TEST "write tstamp from CGROUP_SKB" [
  _insns
   [BPF_MOV64_IMM BPF_REG_0 0;
    BPF_STX_MEM BPF_DW BPF_REG_1 BPF_REG_0 (offsetof __sk_buff "tstamp");
    BPF_MOV64_IMM BPF_REG_0 0; BPF_EXIT_INSN];
  _result ACCEPT;
  _result_unpriv REJECT;
  _errstr_unpriv "invalid bpf_context access off=152 size=8";
  _prog_type BPF_PROG_TYPE_CGROUP_SKB].

Definition cgroup_skb_10 : bpf_test := TEST "read tstamp from CGROUP_SKB" [
  _insns
   [BPF_LDX_MEM BPF_DW BPF_REG_0 BPF_REG_1 (offsetof __sk_buff "tstamp");
    BPF_MOV64_IMM BPF_REG_0 0; BPF_EXIT_INSN];
  _result ACCEPT;
  _prog_type BPF_PROG_TYPE_CGROUP_SKB].

Definition cgroup_skb_tests : list bpf_test := [cgroup_skb_1; cgroup_skb_2; cgroup_skb_3;
  cgroup_skb_4; cgroup_skb_5; cgroup_skb_6; cgroup_skb_7; cgroup_skb_8; cgroup_skb_9;
  cgroup_skb_10].

(** * [cgroup_storage.c] *)

Definition cgroup_storage_1 : bpf_test := TEST "valid cgroup storage access" [
  _insns
   [BPF_MOV64_IMM BPF_REG_2 0; BPF_LD_MAP_FD BPF_REG_1 0;
    BPF_RAW_INSN (BPF_JMP .| BPF_CALL) 0 0 0 BPF_FUNC_get_local_storage;
    BPF_LDX_MEM BPF_W BPF_REG_1 BPF_REG_0 0; BPF_MOV64_REG BPF_REG_0 BPF_REG_1;
    BPF_ALU64_IMM BPF_AND BPF_REG_0 1; BPF_EXIT_INSN];
  _fixup fixup_cgroup_storage [1];
  _result ACCEPT;
  _prog_type BPF_PROG_TYPE_CGROUP_SKB].

Definition cgroup_storage_2 : bpf_test := TEST "invalid cgroup storage access 1" [
  _insns
   [BPF_MOV64_IMM BPF_REG_2 0; BPF_LD_MAP_FD BPF_REG_1 0;
    BPF_RAW_INSN (BPF_JMP .| BPF_CALL) 0 0 0 BPF_FUNC_get_local_storage;
    BPF_LDX_MEM BPF_W BPF_REG_1 BPF_REG_0 0; BPF_MOV64_REG BPF_REG_0 BPF_REG_1;
    BPF_ALU64_IMM BPF_AND BPF_REG_0 1; BPF_EXIT_INSN];
  _fixup fixup_map_hash_8b [1];
  _result REJECT;
  _errstr "cannot pass map_type 1 into func bpf_get_local_storage";
  _prog_type BPF_PROG_TYPE_CGROUP_SKB].

Definition cgroup_storage_3 : bpf_test := TEST "invalid cgroup storage access 2" [
  _insns
   [BPF_MOV64_IMM BPF_REG_2 0; BPF_LD_MAP_FD BPF_REG_1 1;
    BPF_RAW_INSN (BPF_JMP .| BPF_CALL) 0 0 0 BPF_FUNC_get_local_storage;
    BPF_ALU64_IMM BPF_AND BPF_REG_0 1; BPF_EXIT_INSN];
  _result REJECT;
  _errstr "fd 1 is not pointing to valid bpf_map";
  _prog_type BPF_PROG_TYPE_CGROUP_SKB].

Definition cgroup_storage_4 : bpf_test := TEST "invalid cgroup storage access 3" [
  _insns
   [BPF_MOV64_IMM BPF_REG_2 0; BPF_LD_MAP_FD BPF_REG_1 0;
    BPF_RAW_INSN (BPF_JMP .| BPF_CALL) 0 0 0 BPF_FUNC_get_local_storage;
    BPF_LDX_MEM BPF_W BPF_REG_1 BPF_REG_0 256; BPF_ALU64_IMM BPF_ADD BPF_REG_1 1;
    BPF_MOV64_IMM BPF_REG_0 0; BPF_EXIT_INSN];
  _fixup fixup_cgroup_storage [1];
  _result REJECT;
  _errstr "invalid access to map value, value_size=64 off=256 size=4";
  _prog_type BPF_PROG_TYPE_CGROUP_SKB].

Definition cgroup_storage_5 : bpf_test := TEST "invalid cgroup storage access 4" [
  _insns
   [BPF_MOV64_IMM BPF_REG_2 0; BPF_LD_MAP_FD BPF_REG_1 0;
    BPF_RAW_INSN (BPF_JMP .| BPF_CALL) 0 0 0 BPF_FUNC_get_local_storage;
    BPF_LDX_MEM BPF_W BPF_REG_1 BPF_REG_0 (-2); BPF_MOV64_REG BPF_REG_0 BPF_REG_1;
    BPF_ALU64_IMM BPF_ADD BPF_REG_1 1; BPF_EXIT_INSN];
  _fixup fixup_cgroup_storage [1];
  _result REJECT;
  _errstr "invalid access to map value, value_size=64 off=-2 size=4";
  _prog_type BPF_PROG_TYPE_CGROUP_SKB;
  _flags F_NEEDS_EFFICIENT_UNALIGNED_ACCESS].

Definition cgroup_storage_6 : bpf_test := TEST "invalid cgroup storage access 5" [
  _insns
   [BPF_MOV64_IMM BPF_REG_2 7; BPF_LD_MAP_FD BPF_REG_1 0;
    BPF_RAW_INSN (BPF_JMP .| BPF_CALL) 0 0 0 BPF_FUNC_get_local_storage;
    BPF_LDX_MEM BPF_W BPF_REG_1 BPF_REG_0 0; BPF_MOV64_REG BPF_REG_0 BPF_REG_1;
    BPF_ALU64_IMM BPF_AND BPF_REG_0 1; BPF_EXIT_INSN];
  _fixup fixup_cgroup_storage [1];
  _result REJECT;
  _errstr "get_local_storage() doesn't support non-zero flags";
  _prog_type BPF_PROG_TYPE_CGROUP_SKB].

Definition cgroup_storage_7 : bpf_test := TEST "invalid cgroup storage access 6" [
  _insns
   [BPF_MOV64_REG BPF_REG_2 BPF_REG_1; BPF_LD_MAP_FD BPF_REG_1 0;
    BPF_RAW_INSN (BPF_JMP .| BPF_CALL) 0 0 0 BPF_FUNC_get_local_storage;
    BPF_LDX_MEM BPF_W BPF_REG_1 BPF_REG_0 0; BPF_MOV64_REG BPF_REG_0 BPF_REG_1;
    BPF_ALU64_IMM BPF_AND BPF_REG_0 1; BPF_EXIT_INSN];
  _fixup fixup_cgroup_storage [1];
  _result REJECT;
  _errstr "get_local_storage() doesn't support non-zero flags";
  _errstr_unpriv "R2 leaks addr into helper function";
  _prog_type BPF_PROG_TYPE_CGROUP_SKB].

Definition cgroup_storage_8 : bpf_test := TEST "valid per-cpu cgroup storage access" [
  _insns
   [BPF_MOV64_IMM BPF_REG_2 0; BPF_LD_MAP_FD BPF_REG_1 0;
    BPF_RAW_INSN (BPF_JMP .| BPF_CALL) 0 0 0 BPF_FUNC_get_local_storage;
    BPF_LDX_MEM BPF_W BPF_REG_1 BPF_REG_0 0; BPF_MOV64_REG BPF_REG_0 BPF_REG_1;
    BPF_ALU64_IMM BPF_AND BPF_REG_0 1; BPF_EXIT_INSN];
  _fixup fixup_percpu_cgroup_storage [1];
  _result ACCEPT;
  _prog_type BPF_PROG_TYPE_CGROUP_SKB].

Definition cgroup_storage_9 : bpf_test := TEST "invalid per-cpu cgroup storage access 1" [
  _insns
   [BPF_MOV64_IMM BPF_REG_2 0; BPF_LD_MAP_FD BPF_REG_1 0;
    BPF_RAW_INSN (BPF_JMP .| BPF_CALL) 0 0 0 BPF_FUNC_get_local_storage;
    BPF_LDX_MEM BPF_W BPF_REG_1 BPF_REG_0 0; BPF_MOV64_REG BPF_REG_0 BPF_REG_1;
    BPF_ALU64_IMM BPF_AND BPF_REG_0 1; BPF_EXIT_INSN];
  _fixup fixup_map_hash_8b [1];
  _result REJECT;
  _errstr "cannot pass map_type 1 into func bpf_get_local_storage";
  _prog_type BPF_PROG_TYPE_CGROUP_SKB].

Definition cgroup_storage_10 : bpf_test := TEST "invalid per-cpu cgroup storage access 2" [
  _insns
   [BPF_MOV64_IMM BPF_REG_2 0; BPF_LD_MAP_FD BPF_REG_1 1;
    BPF_RAW_INSN (BPF_JMP .| BPF_CALL) 0 0 0 BPF_FUNC_get_local_storage;
    BPF_ALU64_IMM BPF_AND BPF_REG_0 1; BPF_EXIT_INSN];
  _result REJECT;
  _errstr "fd 1 is not pointing to valid bpf_map";
  _prog_type BPF_PROG_TYPE_CGROUP_SKB].

Definition cgroup_storage_11 : bpf_test := TEST "invalid per-cpu cgroup storage access 3" [
  _insns
   [BPF_MOV64_IMM BPF_REG_2 0; BPF_LD_MAP_FD BPF_REG_1 0;
    BPF_RAW_INSN (BPF_JMP .| BPF_CALL) 0 0 0 BPF_FUNC_get_local_storage;
    BPF_LDX_MEM BPF_W BPF_REG_1 BPF_REG_0 256; BPF_ALU64_IMM BPF_ADD BPF_REG_1 1;
    BPF_MOV64_IMM BPF_REG_0 0; BPF_EXIT_INSN];
  _fixup fixup_percpu_cgroup_storage [1];
  _result REJECT;
  _errstr "invalid access to map value, value_size=64 off=256 size=4";
  _prog_type BPF_PROG_TYPE_CGROUP_SKB].

Definition cgroup_storage_12 : bpf_test := TEST "invalid per-cpu cgroup storage access 4" [
  _insns
   [BPF_MOV64_IMM BPF_REG_2 0; BPF_LD_MAP_FD BPF_REG_1 0;
    BPF_RAW_INSN (BPF_JMP .| BPF_CALL) 0 0 0 BPF_FUNC_get_local_storage;
    BPF_LDX_MEM BPF_W BPF_REG_1 BPF_REG_0 (-2); BPF_MOV64_REG BPF_REG_0 BPF_REG_1;
    BPF_ALU64_IMM BPF_ADD BPF_REG_1 1; BPF_EXIT_INSN];
  _fixup fixup_cgroup_storage [1];
  _result REJECT;
  _errstr "invalid access to map value, value_size=64 off=-2 size=4";
  _prog_type BPF_PROG_TYPE_CGROUP_SKB;
  _flags F_NEEDS_EFFICIENT_UNALIGNED_ACCESS].

Definition cgroup_storage_13 : bpf_test := TEST "invalid per-cpu cgroup storage access 5" [
  _insns
   [BPF_MOV64_IMM BPF_REG_2 7; BPF_LD_MAP_FD BPF_REG_1 0;
    BPF_RAW_INSN (BPF_JMP .| BPF_CALL) 0 0 0 BPF_FUNC_get_local_storage;
    BPF_LDX_MEM BPF_W BPF_REG_1 BPF_REG_0 0; BPF_MOV64_REG BPF_REG_0 BPF_REG_1;
    BPF_ALU64_IMM BPF_AND BPF_REG_0 1; BPF_EXIT_INSN];
  _fixup fixup_percpu_cgroup_storage [1];
  _result REJECT;
  _errstr "get_local_storage() doesn't support non-zero flags";
  _prog_type BPF_PROG_TYPE_CGROUP_SKB].

Definition cgroup_storage_14 : bpf_test := TEST "invalid per-cpu cgroup storage access 6" [
  _insns
   [BPF_MOV64_REG BPF_REG_2 BPF_REG_1; BPF_LD_MAP_FD BPF_REG_1 0;
    BPF_RAW_INSN (BPF_JMP .| BPF_CALL) 0 0 0 BPF_FUNC_get_local_storage;
    BPF_LDX_MEM BPF_W BPF_REG_1 BPF_REG_0 0; BPF_MOV64_REG BPF_REG_0 BPF_REG_1;
    BPF_ALU64_IMM BPF_AND BPF_REG_0 1; BPF_EXIT_INSN];
  _fixup fixup_percpu_cgroup_storage [1];
  _result REJECT;
  _errstr "get_local_storage() doesn't support non-zero flags";
  _errstr_unpriv "R2 leaks addr into helper function";
  _prog_type BPF_PROG_TYPE_CGROUP_SKB].

Definition cgroup_storage_tests : list bpf_test := [cgroup_storage_1; cgroup_storage_2;
  cgroup_storage_3; cgroup_storage_4; cgroup_storage_5; cgroup_storage_6; cgroup_storage_7;
  cgroup_storage_8; cgroup_storage_9; cgroup_storage_10; cgroup_storage_11; cgroup_storage_12;
  cgroup_storage_13; cgroup_storage_14].

(** * [ctx.c] *)

Definition ctx_1 : bpf_test := TEST "context stores via ST" [
  _insns
   [BPF_MOV64_IMM BPF_REG_0 0; BPF_ST_MEM BPF_DW BPF_REG_1 (offsetof __sk_buff "mark") 0;
    BPF_EXIT_INSN];
  _errstr "BPF_ST stores into R1 ctx is not allowed";
  _result REJECT;
  _prog_type BPF_PROG_TYPE_SCHED_CLS].

Definition ctx_2 : bpf_test := TEST "context stores via BPF_ATOMIC" [
  _insns
   [BPF_MOV64_IMM BPF_REG_0 0;
    BPF_ATOMIC_OP BPF_W BPF_ADD BPF_REG_1 BPF_REG_0 (offsetof __sk_buff "mark"); BPF_EXIT_INSN];
  _errstr "BPF_ATOMIC stores into R1 ctx is not allowed";
  _result REJECT;
  _prog_type BPF_PROG_TYPE_SCHED_CLS].

Definition ctx_3 : bpf_test := TEST "arithmetic ops make PTR_TO_CTX unusable" [
  _insns
   [BPF_ALU64_IMM BPF_ADD BPF_REG_1 ((offsetof __sk_buff "data") - (offsetof __sk_buff "mark"));
    BPF_LDX_MEM BPF_W BPF_REG_0 BPF_REG_1 (offsetof __sk_buff "mark"); BPF_EXIT_INSN];
  _errstr "dereference of modified ctx ptr";
  _result REJECT;
  _prog_type BPF_PROG_TYPE_SCHED_CLS].

Definition ctx_4 : bpf_test := TEST "pass unmodified ctx pointer to helper" [
  _insns
   [BPF_MOV64_IMM BPF_REG_2 0; BPF_RAW_INSN (BPF_JMP .| BPF_CALL) 0 0 0 BPF_FUNC_csum_update;
    BPF_MOV64_IMM BPF_REG_0 0; BPF_EXIT_INSN];
  _prog_type BPF_PROG_TYPE_SCHED_CLS;
  _result ACCEPT].

Definition ctx_5 : bpf_test := TEST "pass modified ctx pointer to helper, 1" [
  _insns
   [BPF_ALU64_IMM BPF_ADD BPF_REG_1 (-612); BPF_MOV64_IMM BPF_REG_2 0;
    BPF_RAW_INSN (BPF_JMP .| BPF_CALL) 0 0 0 BPF_FUNC_csum_update; BPF_MOV64_IMM BPF_REG_0 0;
    BPF_EXIT_INSN];
  _prog_type BPF_PROG_TYPE_SCHED_CLS;
  _result REJECT;
  _errstr "dereference of modified ctx ptr"].

Definition ctx_6 : bpf_test := TEST "pass modified ctx pointer to helper, 2" [
  _insns
   [BPF_ALU64_IMM BPF_ADD BPF_REG_1 (-612);
    BPF_RAW_INSN (BPF_JMP .| BPF_CALL) 0 0 0 BPF_FUNC_get_socket_cookie;
    BPF_MOV64_IMM BPF_REG_0 0; BPF_EXIT_INSN];
  _result_unpriv REJECT;
  _result REJECT;
  _errstr_unpriv "dereference of modified ctx ptr";
  _errstr "dereference of modified ctx ptr"].

Definition ctx_7 : bpf_test := TEST "pass modified ctx pointer to helper, 3" [
  _insns
   [BPF_LDX_MEM BPF_W BPF_REG_3 BPF_REG_1 0; BPF_ALU64_IMM BPF_AND BPF_REG_3 4;
    BPF_ALU64_REG BPF_ADD BPF_REG_1 BPF_REG_3; BPF_MOV64_IMM BPF_REG_2 0;
    BPF_RAW_INSN (BPF_JMP .| BPF_CALL) 0 0 0 BPF_FUNC_csum_update; BPF_MOV64_IMM BPF_REG_0 0;
    BPF_EXIT_INSN];
  _prog_type BPF_PROG_TYPE_SCHED_CLS;
  _result REJECT;
  _errstr "variable ctx access var_off=(0x0; 0x4)"].

Definition ctx_8 : bpf_test := TEST "pass ctx or null check, 1: ctx" [
  _insns
   [BPF_RAW_INSN (BPF_JMP .| BPF_CALL) 0 0 0 BPF_FUNC_get_netns_cookie;
    BPF_MOV64_IMM BPF_REG_0 0; BPF_EXIT_INSN];
  _prog_type BPF_PROG_TYPE_CGROUP_SOCK_ADDR;
  _expected_attach_type BPF_CGROUP_UDP6_SENDMSG;
  _result ACCEPT].

Definition ctx_9 : bpf_test := TEST "pass ctx or null check, 2: null" [
  _insns
   [BPF_MOV64_IMM BPF_REG_1 0;
    BPF_RAW_INSN (BPF_JMP .| BPF_CALL) 0 0 0 BPF_FUNC_get_netns_cookie;
    BPF_MOV64_IMM BPF_REG_0 0; BPF_EXIT_INSN];
  _prog_type BPF_PROG_TYPE_CGROUP_SOCK_ADDR;
  _expected_attach_type BPF_CGROUP_UDP6_SENDMSG;
  _result ACCEPT].

Definition ctx_10 : bpf_test := TEST "pass ctx or null check, 3: 1" [
  _insns
   [BPF_MOV64_IMM BPF_REG_1 1;
    BPF_RAW_INSN (BPF_JMP .| BPF_CALL) 0 0 0 BPF_FUNC_get_netns_cookie;
    BPF_MOV64_IMM BPF_REG_0 0; BPF_EXIT_INSN];
  _prog_type BPF_PROG_TYPE_CGROUP_SOCK_ADDR;
  _expected_attach_type BPF_CGROUP_UDP6_SENDMSG;
  _result REJECT;
  _errstr "R1 type=inv expected=ctx"].

Definition ctx_11 : bpf_test := TEST "pass ctx or null check, 4: ctx - const" [
  _insns
   [BPF_ALU64_IMM BPF_ADD BPF_REG_1 (-612);
    BPF_RAW_INSN (BPF_JMP .| BPF_CALL) 0 0 0 BPF_FUNC_get_netns_cookie;
    BPF_MOV64_IMM BPF_REG_0 0; BPF_EXIT_INSN];
  _prog_type BPF_PROG_TYPE_CGROUP_SOCK_ADDR;
  _expected_attach_type BPF_CGROUP_UDP6_SENDMSG;
  _result REJECT;
  _errstr "dereference of modified ctx ptr"].

Definition ctx_12 : bpf_test := TEST "pass ctx or null check, 5: null (connect)" [
  _insns
   [BPF_MOV64_IMM BPF_REG_1 0;
    BPF_RAW_INSN (BPF_JMP .| BPF_CALL) 0 0 0 BPF_FUNC_get_netns_cookie;
    BPF_MOV64_IMM BPF_REG_0 0; BPF_EXIT_INSN];
  _prog_type BPF_PROG_TYPE_CGROUP_SOCK_ADDR;
  _expected_attach_type BPF_CGROUP_INET4_CONNECT;
  _result ACCEPT].

Definition ctx_13 : bpf_test := TEST "pass ctx or null check, 6: null (bind)" [
  _insns
   [BPF_MOV64_IMM BPF_REG_1 0;
    BPF_RAW_INSN (BPF_JMP .| BPF_CALL) 0 0 0 BPF_FUNC_get_netns_cookie;
    BPF_MOV64_IMM BPF_REG_0 0; BPF_EXIT_INSN];
  _prog_type BPF_PROG_TYPE_CGROUP_SOCK;
  _expected_attach_type BPF_CGROUP_INET4_POST_BIND;
  _result ACCEPT].

Definition ctx_14 : bpf_test := TEST "pass ctx or null check, 7: ctx (bind)" [
  _insns
   [BPF_RAW_INSN (BPF_JMP .| BPF_CALL) 0 0 0 BPF_FUNC_get_socket_cookie;
    BPF_MOV64_IMM BPF_REG_0 0; BPF_EXIT_INSN];
  _prog_type BPF_PROG_TYPE_CGROUP_SOCK;
  _expected_attach_type BPF_CGROUP_INET4_POST_BIND;
  _result ACCEPT].

Definition ctx_15 : bpf_test := TEST "pass ctx or null check, 8: null (bind)" [
  _insns
   [BPF_MOV64_IMM BPF_REG_1 0;
    BPF_RAW_INSN (BPF_JMP .| BPF_CALL) 0 0 0 BPF_FUNC_get_socket_cookie;
    BPF_MOV64_IMM BPF_REG_0 0; BPF_EXIT_INSN];
  _prog_type BPF_PROG_TYPE_CGROUP_SOCK;
  _expected_attach_type BPF_CGROUP_INET4_POST_BIND;
  _result REJECT;
  _errstr "R1 type=inv expected=ctx"].

Definition ctx_tests : list bpf_test := [ctx_1; ctx_2; ctx_3; ctx_4; ctx_5; ctx_6; ctx_7; ctx_8;
  ctx_9; ctx_10; ctx_11; ctx_12; ctx_13; ctx_14; ctx_15].

(** * [ctx_sk_lookup.c] *)

Definition ctx_sk_lookup_1 : bpf_test := TEST "valid 1,2,4,8-byte reads from bpf_sk_lookup" [
  _insns
   [BPF_LDX_MEM BPF_B BPF_REG_0 BPF_REG_1 (offsetof bpf_sk_lookup "family");
    BPF_LDX_MEM BPF_B BPF_REG_0 BPF_REG_1 ((offsetof bpf_sk_lookup "family") + 1);
    BPF_LDX_MEM BPF_B BPF_REG_0 BPF_REG_1 ((offsetof bpf_sk_lookup "family") + 2);
    BPF_LDX_MEM BPF_B BPF_REG_0 BPF_REG_1 ((offsetof bpf_sk_lookup "family") + 3);
    BPF_LDX_MEM BPF_H BPF_REG_0 BPF_REG_1 (offsetof bpf_sk_lookup "family");
    BPF_LDX_MEM BPF_H BPF_REG_0 BPF_REG_1 ((offsetof bpf_sk_lookup "family") + 2);
    BPF_LDX_MEM BPF_W BPF_REG_0 BPF_REG_1 (offsetof bpf_sk_lookup "family");
    BPF_LDX_MEM BPF_B BPF_REG_0 BPF_REG_1 (offsetof bpf_sk_lookup "protocol");
    BPF_LDX_MEM BPF_B BPF_REG_0 BPF_REG_1 ((offsetof bpf_sk_lookup "protocol") + 1);
    BPF_LDX_MEM BPF_B BPF_REG_0 BPF_REG_1 ((offsetof bpf_sk_lookup "protocol") + 2);
    BPF_LDX_MEM BPF_B BPF_REG_0 BPF_REG_1 ((offsetof bpf_sk_lookup "protocol") + 3);
    BPF_LDX_MEM BPF_H BPF_REG_0 BPF_REG_1 (offsetof bpf_sk_lookup "protocol");
    BPF_LDX_MEM BPF_H BPF_REG_0 BPF_REG_1 ((offsetof bpf_sk_lookup "protocol") + 2);
    BPF_LDX_MEM BPF_W BPF_REG_0 BPF_REG_1 (offsetof bpf_sk_lookup "protocol");
    BPF_LDX_MEM BPF_B BPF_REG_0 BPF_REG_1 (offsetof bpf_sk_lookup "remote_ip4");
    BPF_LDX_MEM BPF_B BPF_REG_0 BPF_REG_1 ((offsetof bpf_sk_lookup "remote_ip4") + 1);
    BPF_LDX_MEM BPF_B BPF_REG_0 BPF_REG_1 ((offsetof bpf_sk_lookup "remote_ip4") + 2);
    BPF_LDX_MEM BPF_B BPF_REG_0 BPF_REG_1 ((offsetof bpf_sk_lookup "remote_ip4") + 3);
    BPF_LDX_MEM BPF_H BPF_REG_0 BPF_REG_1 (offsetof bpf_sk_lookup "remote_ip4");
    BPF_LDX_MEM BPF_H BPF_REG_0 BPF_REG_1 ((offsetof bpf_sk_lookup "remote_ip4") + 2);
    BPF_LDX_MEM BPF_W BPF_REG_0 BPF_REG_1 (offsetof bpf_sk_lookup "remote_ip4");
    BPF_LDX_MEM BPF_B BPF_REG_0 BPF_REG_1 (offsetof bpf_sk_lookup "remote_ip6");
    BPF_LDX_MEM BPF_B BPF_REG_0 BPF_REG_1 ((offsetof bpf_sk_lookup "remote_ip6") + 1);
    BPF_LDX_MEM BPF_B BPF_REG_0 BPF_REG_1 ((offsetof bpf_sk_lookup "remote_ip6") + 2);
    BPF_LDX_MEM BPF_B BPF_REG_0 BPF_REG_1 ((offsetof bpf_sk_lookup "remote_ip6") + 3);
    BPF_LDX_MEM BPF_B BPF_REG_0 BPF_REG_1 ((offsetof bpf_sk_lookup "remote_ip6") + 4);
    BPF_LDX_MEM BPF_B BPF_REG_0 BPF_REG_1 ((offsetof bpf_sk_lookup "remote_ip6") + 5);
    BPF_LDX_MEM BPF_B BPF_REG_0 BPF_REG_1 ((offsetof bpf_sk_lookup "remote_ip6") + 6);
    BPF_LDX_MEM BPF_B BPF_REG_0 BPF_REG_1 ((offsetof bpf_sk_lookup "remote_ip6") + 7);
    BPF_LDX_MEM BPF_B BPF_REG_0 BPF_REG_1 ((offsetof bpf_sk_lookup "remote_ip6") + 8);
    BPF_LDX_MEM BPF_B BPF_REG_0 BPF_REG_1 ((offsetof bpf_sk_lookup "remote_ip6") + 9);
    BPF_LDX_MEM BPF_B BPF_REG_0 BPF_REG_1 ((offsetof bpf_sk_lookup "remote_ip6") + 10);
    BPF_LDX_MEM BPF_B BPF_REG_0 BPF_REG_1 ((offsetof bpf_sk_lookup "remote_ip6") + 11);
    BPF_LDX_MEM BPF_B BPF_REG_0 BPF_REG_1 ((offsetof bpf_sk_lookup "remote_ip6") + 12);
    BPF_LDX_MEM BPF_B BPF_REG_0 BPF_REG_1 ((offsetof bpf_sk_lookup "remote_ip6") + 13);
    BPF_LDX_MEM BPF_B BPF_REG_0 BPF_REG_1 ((offsetof bpf_sk_lookup "remote_ip6") + 14);
    BPF_LDX_MEM BPF_B BPF_REG_0 BPF_REG_1 ((offsetof bpf_sk_lookup "remote_ip6") + 15);
    BPF_LDX_MEM BPF_H BPF_REG_0 BPF_REG_1 (offsetof bpf_sk_lookup "remote_ip6");
    BPF_LDX_MEM BPF_H BPF_REG_0 BPF_REG_1 ((offsetof bpf_sk_lookup "remote_ip6") + 2);
    BPF_LDX_MEM BPF_H BPF_REG_0 BPF_REG_1 ((offsetof bpf_sk_lookup "remote_ip6") + 4);
    BPF_LDX_MEM BPF_H BPF_REG_0 BPF_REG_1 ((offsetof bpf_sk_lookup "remote_ip6") + 6);
    BPF_LDX_MEM BPF_H BPF_REG_0 BPF_REG_1 ((offsetof bpf_sk_lookup "remote_ip6") + 8);
    BPF_LDX_MEM BPF_H BPF_REG_0 BPF_REG_1 ((offsetof bpf_sk_lookup "remote_ip6") + 10);
    BPF_LDX_MEM BPF_H BPF_REG_0 BPF_REG_1 ((offsetof bpf_sk_lookup "remote_ip6") + 12);
    BPF_LDX_MEM BPF_H BPF_REG_0 BPF_REG_1 ((offsetof bpf_sk_lookup "remote_ip6") + 14);
    BPF_LDX_MEM BPF_W BPF_REG_0 BPF_REG_1 (offsetof bpf_sk_lookup "remote_ip6");
    BPF_LDX_MEM BPF_W BPF_REG_0 BPF_REG_1 ((offsetof bpf_sk_lookup "remote_ip6") + 4);
    BPF_LDX_MEM BPF_W BPF_REG_0 BPF_REG_1 ((offsetof bpf_sk_lookup "remote_ip6") + 8);
    BPF_LDX_MEM BPF_W BPF_REG_0 BPF_REG_1 ((offsetof bpf_sk_lookup "remote_ip6") + 12);
    BPF_LDX_MEM BPF_B BPF_REG_0 BPF_REG_1 (offsetof bpf_sk_lookup "remote_port");
    BPF_LDX_MEM BPF_B BPF_REG_0 BPF_REG_1 ((offsetof bpf_sk_lookup "remote_port") + 1);
    BPF_LDX_MEM BPF_B BPF_REG_0 BPF_REG_1 ((offsetof bpf_sk_lookup "remote_port") + 2);
    BPF_LDX_MEM BPF_B BPF_REG_0 BPF_REG_1 ((offsetof bpf_sk_lookup "remote_port") + 3);
    BPF_LDX_MEM BPF_H BPF_REG_0 BPF_REG_1 (offsetof bpf_sk_lookup "remote_port");
    BPF_LDX_MEM BPF_H BPF_REG_0 BPF_REG_1 ((offsetof bpf_sk_lookup "remote_port") + 2);
    BPF_LDX_MEM BPF_W BPF_REG_0 BPF_REG_1 (offsetof bpf_sk_lookup "remote_port");
    BPF_LDX_MEM BPF_B BPF_REG_0 BPF_REG_1 (offsetof bpf_sk_lookup "local_ip4");
    BPF_LDX_MEM BPF_B BPF_REG_0 BPF_REG_1 ((offsetof bpf_sk_lookup "local_ip4") + 1);
    BPF_LDX_MEM BPF_B BPF_REG_0 BPF_REG_1 ((offsetof bpf_sk_lookup "local_ip4") + 2);
    BPF_LDX_MEM BPF_B BPF_REG_0 BPF_REG_1 ((offsetof bpf_sk_lookup "local_ip4") + 3);
    BPF_LDX_MEM BPF_H BPF_REG_0 BPF_REG_1 (offsetof bpf_sk_lookup "local_ip4");
    BPF_LDX_MEM BPF_H BPF_REG_0 BPF_REG_1 ((offsetof bpf_sk_lookup "local_ip4") + 2);
    BPF_LDX_MEM BPF_W BPF_REG_0 BPF_REG_1 (offsetof bpf_sk_lookup "local_ip4");
    BPF_LDX_MEM BPF_B BPF_REG_0 BPF_REG_1 (offsetof bpf_sk_lookup "local_ip6");
    BPF_LDX_MEM BPF_B BPF_REG_0 BPF_REG_1 ((offsetof bpf_sk_lookup "local_ip6") + 1);
    BPF_LDX_MEM BPF_B BPF_REG_0 BPF_REG_1 ((offsetof bpf_sk_lookup "local_ip6") + 2);
    BPF_LDX_MEM BPF_B BPF_REG_0 BPF_REG_1 ((offsetof bpf_sk_lookup "local_ip6") + 3);
    BPF_LDX_MEM BPF_B BPF_REG_0 BPF_REG_1 ((offsetof bpf_sk_lookup "local_ip6") + 4);
    BPF_LDX_MEM BPF_B BPF_REG_0 BPF_REG_1 ((offsetof bpf_sk_lookup "local_ip6") + 5);
    BPF_LDX_MEM BPF_B BPF_REG_0 BPF_REG_1 ((offsetof bpf_sk_lookup "local_ip6") + 6);
    BPF_LDX_MEM BPF_B BPF_REG_0 BPF_REG_1 ((offsetof bpf_sk_lookup "local_ip6") + 7);
    BPF_LDX_MEM BPF_B BPF_REG_0 BPF_REG_1 ((offsetof bpf_sk_lookup "local_ip6") + 8);
    BPF_LDX_MEM BPF_B BPF_REG_0 BPF_REG_1 ((offsetof bpf_sk_lookup "local_ip6") + 9);
    BPF_LDX_MEM BPF_B BPF_REG_0 BPF_REG_1 ((offsetof bpf_sk_lookup "local_ip6") + 10);
    BPF_LDX_MEM BPF_B BPF_REG_0 BPF_REG_1 ((offsetof bpf_sk_lookup "local_ip6") + 11);
    BPF_LDX_MEM BPF_B BPF_REG_0 BPF_REG_1 ((offsetof bpf_sk_lookup "local_ip6") + 12);
    BPF_LDX_MEM BPF_B BPF_REG_0 BPF_REG_1 ((offsetof bpf_sk_lookup "local_ip6") + 13);
    BPF_LDX_MEM BPF_B BPF_REG_0 BPF_REG_1 ((offsetof bpf_sk_lookup "local_ip6") + 14);
    BPF_LDX_MEM BPF_B BPF_REG_0 BPF_REG_1 ((offsetof bpf_sk_lookup "local_ip6") + 15);
    BPF_LDX_MEM BPF_H BPF_REG_0 BPF_REG_1 (offsetof bpf_sk_lookup "local_ip6");
    BPF_LDX_MEM BPF_H BPF_REG_0 BPF_REG_1 ((offsetof bpf_sk_lookup "local_ip6") + 2);
    BPF_LDX_MEM BPF_H BPF_REG_0 BPF_REG_1 ((offsetof bpf_sk_lookup "local_ip6") + 4);
    BPF_LDX_MEM BPF_H BPF_REG_0 BPF_REG_1 ((offsetof bpf_sk_lookup "local_ip6") + 6);
    BPF_LDX_MEM BPF_H BPF_REG_0 BPF_REG_1 ((offsetof bpf_sk_lookup "local_ip6") + 8);
    BPF_LDX_MEM BPF_H BPF_REG_0 BPF_REG_1 ((offsetof bpf_sk_lookup "local_ip6") + 10);
    BPF_LDX_MEM BPF_H BPF_REG_0 BPF_REG_1 ((offsetof bpf_sk_lookup "local_ip6") + 12);
    BPF_LDX_MEM BPF_H BPF_REG_0 BPF_REG_1 ((offsetof bpf_sk_lookup "local_ip6") + 14);
    BPF_LDX_MEM BPF_W BPF_REG_0 BPF_REG_1 (offsetof bpf_sk_lookup "local_ip6");
    BPF_LDX_MEM BPF_W BPF_REG_0 BPF_REG_1 ((offsetof bpf_sk_lookup "local_ip6") + 4);
    BPF_LDX_MEM BPF_W BPF_REG_0 BPF_REG_1 ((offsetof bpf_sk_lookup "local_ip6") + 8);
    BPF_LDX_MEM BPF_W BPF_REG_0 BPF_REG_1 ((offsetof bpf_sk_lookup "local_ip6") + 12);
    BPF_LDX_MEM BPF_B BPF_REG_0 BPF_REG_1 (offsetof bpf_sk_lookup "local_port");
    BPF_LDX_MEM BPF_B BPF_REG_0 BPF_REG_1 ((offsetof bpf_sk_lookup "local_port") + 1);
    BPF_LDX_MEM BPF_B BPF_REG_0 BPF_REG_1 ((offsetof bpf_sk_lookup "local_port") + 2);
    BPF_LDX_MEM BPF_B BPF_REG_0 BPF_REG_1 ((offsetof bpf_sk_lookup "local_port") + 3);
    BPF_LDX_MEM BPF_H BPF_REG_0 BPF_REG_1 (offsetof bpf_sk_lookup "local_port");
    BPF_LDX_MEM BPF_H BPF_REG_0 BPF_REG_1 ((offsetof bpf_sk_lookup "local_port") + 2);
    BPF_LDX_MEM BPF_W BPF_REG_0 BPF_REG_1 (offsetof bpf_sk_lookup "local_port");
    BPF_LDX_MEM BPF_DW BPF_REG_0 BPF_REG_1 (offsetof bpf_sk_lookup "sk");
    BPF_MOV32_IMM BPF_REG_0 0; BPF_EXIT_INSN];
  _result ACCEPT;
  _prog_type BPF_PROG_TYPE_SK_LOOKUP;
  _expected_attach_type BPF_SK_LOOKUP;
  _runs (-1)].

Definition ctx_sk_lookup_2 : bpf_test := TEST "invalid 8-byte read from bpf_sk_lookup family field" [
  _insns
   [BPF_LDX_MEM BPF_DW BPF_REG_0 BPF_REG_1 (offsetof bpf_sk_lookup "family");
    BPF_MOV32_IMM BPF_REG_0 0; BPF_EXIT_INSN];
  _errstr "invalid bpf_context access";
  _result REJECT;
  _prog_type BPF_PROG_TYPE_SK_LOOKUP;
  _expected_attach_type BPF_SK_LOOKUP].

Definition ctx_sk_lookup_3 : bpf_test := TEST "invalid 8-byte read from bpf_sk_lookup protocol field" [
  _insns
   [BPF_LDX_MEM BPF_DW BPF_REG_0 BPF_REG_1 (offsetof bpf_sk_lookup "protocol");
    BPF_MOV32_IMM BPF_REG_0 0; BPF_EXIT_INSN];
  _errstr "invalid bpf_context access";
  _result REJECT;
  _prog_type BPF_PROG_TYPE_SK_LOOKUP;
  _expected_attach_type BPF_SK_LOOKUP;
  _flags F_NEEDS_EFFICIENT_UNALIGNED_ACCESS].

Definition ctx_sk_lookup_4 : bpf_test := TEST "invalid 8-byte read from bpf_sk_lookup remote_ip4 field" [
  _insns
   [BPF_LDX_MEM BPF_DW BPF_REG_0 BPF_REG_1 (offsetof bpf_sk_lookup "remote_ip4");
    BPF_MOV32_IMM BPF_REG_0 0; BPF_EXIT_INSN];
  _errstr "invalid bpf_context access";
  _result REJECT;
  _prog_type BPF_PROG_TYPE_SK_LOOKUP;
  _expected_attach_type BPF_SK_LOOKUP].

Definition ctx_sk_lookup_5 : bpf_test := TEST "invalid 8-byte read from bpf_sk_lookup remote_ip6 field" [
  _insns
   [BPF_LDX_MEM BPF_DW BPF_REG_0 BPF_REG_1 (offsetof bpf_sk_lookup "remote_ip6");
    BPF_MOV32_IMM BPF_REG_0 0; BPF_EXIT_INSN];
  _errstr "invalid bpf_context access";
  _result REJECT;
  _prog_type BPF_PROG_TYPE_SK_LOOKUP;
  _expected_attach_type BPF_SK_LOOKUP;
  _flags F_NEEDS_EFFICIENT_UNALIGNED_ACCESS].

Definition ctx_sk_lookup_6 : bpf_test := TEST "invalid 8-byte read from bpf_sk_lookup remote_port field" [
  _insns
   [BPF_LDX_MEM BPF_DW BPF_REG_0 BPF_REG_1 (offsetof bpf_sk_lookup "remote_port");
    BPF_MOV32_IMM BPF_REG_0 0; BPF_EXIT_INSN];
  _errstr "invalid bpf_context access";
  _result REJECT;
  _prog_type BPF_PROG_TYPE_SK_LOOKUP;
  _expected_attach_type BPF_SK_LOOKUP;
  _flags F_NEEDS_EFFICIENT_UNALIGNED_ACCESS].

Definition ctx_sk_lookup_7 : bpf_test := TEST "invalid 8-byte read from bpf_sk_lookup local_ip4 field" [
  _insns
   [BPF_LDX_MEM BPF_DW BPF_REG_0 BPF_REG_1 (offsetof bpf_sk_lookup "local_ip4");
    BPF_MOV32_IMM BPF_REG_0 0; BPF_EXIT_INSN];
  _errstr "invalid bpf_context access";
  _result REJECT;
  _prog_type BPF_PROG_TYPE_SK_LOOKUP;
  _expected_attach_type BPF_SK_LOOKUP].

Definition ctx_sk_lookup_8 : bpf_test := TEST "invalid 8-byte read from bpf_sk_lookup local_ip6 field" [
  _insns
   [BPF_LDX_MEM BPF_DW BPF_REG_0 BPF_REG_1 (offsetof bpf_sk_lookup "local_ip6");
    BPF_MOV32_IMM BPF_REG_0 0; BPF_EXIT_INSN];
  _errstr "invalid bpf_context access";
  _result REJECT;
  _prog_type BPF_PROG_TYPE_SK_LOOKUP;
  _expected_attach_type BPF_SK_LOOKUP;
  _flags F_NEEDS_EFFICIENT_UNALIGNED_ACCESS].

Definition ctx_sk_lookup_9 : bpf_test := TEST "invalid 8-byte read from bpf_sk_lookup local_port field" [
  _insns
   [BPF_LDX_MEM BPF_DW BPF_REG_0 BPF_REG_1 (offsetof bpf_sk_lookup "local_port");
    BPF_MOV32_IMM BPF_REG_0 0; BPF_EXIT_INSN];
  _errstr "invalid bpf_context access";
  _result REJECT;
  _prog_type BPF_PROG_TYPE_SK_LOOKUP;
  _expected_attach_type BPF_SK_LOOKUP;
  _flags F_NEEDS_EFFICIENT_UNALIGNED_ACCESS].

Definition ctx_sk_lookup_10 : bpf_test := TEST "invalid 4-byte read from bpf_sk_lookup sk field" [
  _insns
   [BPF_LDX_MEM BPF_W BPF_REG_0 BPF_REG_1 (offsetof bpf_sk_lookup "sk");
    BPF_MOV32_IMM BPF_REG_0 0; BPF_EXIT_INSN];
  _errstr "invalid bpf_context access";
  _result REJECT;
  _prog_type BPF_PROG_TYPE_SK_LOOKUP;
  _expected_attach_type BPF_SK_LOOKUP].

Definition ctx_sk_lookup_11 : bpf_test := TEST "invalid 2-byte read from bpf_sk_lookup sk field" [
  _insns
   [BPF_LDX_MEM BPF_H BPF_REG_0 BPF_REG_1 (offsetof bpf_sk_lookup "sk");
    BPF_MOV32_IMM BPF_REG_0 0; BPF_EXIT_INSN];
  _errstr "invalid bpf_context access";
  _result REJECT;
  _prog_type BPF_PROG_TYPE_SK_LOOKUP;
  _expected_attach_type BPF_SK_LOOKUP].

Definition ctx_sk_lookup_12 : bpf_test := TEST "invalid 1-byte read from bpf_sk_lookup sk field" [
  _insns
   [BPF_LDX_MEM BPF_B BPF_REG_0 BPF_REG_1 (offsetof bpf_sk_lookup "sk");
    BPF_MOV32_IMM BPF_REG_0 0; BPF_EXIT_INSN];
  _errstr "invalid bpf_context access";
  _result REJECT;
  _prog_type BPF_PROG_TYPE_SK_LOOKUP;
  _expected_attach_type BPF_SK_LOOKUP].

Definition ctx_sk_lookup_13 : bpf_test := TEST "invalid 4-byte read past end of bpf_sk_lookup" [
  _insns
   [BPF_LDX_MEM BPF_W BPF_REG_0 BPF_REG_1 (sizeof bpf_sk_lookup); BPF_MOV32_IMM BPF_REG_0 0;
    BPF_EXIT_INSN];
  _errstr "invalid bpf_context access";
  _result REJECT;
  _prog_type BPF_PROG_TYPE_SK_LOOKUP;
  _expected_attach_type BPF_SK_LOOKUP].

Definition ctx_sk_lookup_14 : bpf_test := TEST "invalid 4-byte unaligned read from bpf_sk_lookup at odd offset" [
  _insns
   [BPF_LDX_MEM BPF_W BPF_REG_0 BPF_REG_1 1; BPF_MOV32_IMM BPF_REG_0 0; BPF_EXIT_INSN];
  _errstr "invalid bpf_context access";
  _result REJECT;
  _prog_type BPF_PROG_TYPE_SK_LOOKUP;
  _expected_attach_type BPF_SK_LOOKUP;
  _flags F_NEEDS_EFFICIENT_UNALIGNED_ACCESS].

Definition ctx_sk_lookup_15 : bpf_test := TEST "invalid 4-byte unaligned read from bpf_sk_lookup at even offset" [
  _insns
   [BPF_LDX_MEM BPF_W BPF_REG_0 BPF_REG_1 2; BPF_MOV32_IMM BPF_REG_0 0; BPF_EXIT_INSN];
  _errstr "invalid bpf_context access";
  _result REJECT;
  _prog_type BPF_PROG_TYPE_SK_LOOKUP;
  _expected_attach_type BPF_SK_LOOKUP;
  _flags F_NEEDS_EFFICIENT_UNALIGNED_ACCESS].

Definition ctx_sk_lookup_16 : bpf_test := TEST "invalid 8-byte write to bpf_sk_lookup" [
  _insns
   [BPF_MOV64_IMM BPF_REG_0 0xcafe4a11; BPF_STX_MEM BPF_DW BPF_REG_1 BPF_REG_0 0;
    BPF_MOV32_IMM BPF_REG_0 0; BPF_EXIT_INSN];
  _errstr "invalid bpf_context access";
  _result REJECT;
  _prog_type BPF_PROG_TYPE_SK_LOOKUP;
  _expected_attach_type BPF_SK_LOOKUP].

Definition ctx_sk_lookup_17 : bpf_test := TEST "invalid 4-byte write to bpf_sk_lookup" [
  _insns
   [BPF_MOV64_IMM BPF_REG_0 0xcafe4a11; BPF_STX_MEM BPF_W BPF_REG_1 BPF_REG_0 0;
    BPF_MOV32_IMM BPF_REG_0 0; BPF_EXIT_INSN];
  _errstr "invalid bpf_context access";
  _result REJECT;
  _prog_type BPF_PROG_TYPE_SK_LOOKUP;
  _expected_attach_type BPF_SK_LOOKUP].

Definition ctx_sk_lookup_18 : bpf_test := TEST "invalid 2-byte write to bpf_sk_lookup" [
  _insns
   [BPF_MOV64_IMM BPF_REG_0 0xcafe4a11; BPF_STX_MEM BPF_H BPF_REG_1 BPF_REG_0 0;
    BPF_MOV32_IMM BPF_REG_0 0; BPF_EXIT_INSN];
  _errstr "invalid bpf_context access";
  _result REJECT;
  _prog_type BPF_PROG_TYPE_SK_LOOKUP;
  _expected_attach_type BPF_SK_LOOKUP].

Definition ctx_sk_lookup_19 : bpf_test := TEST "invalid 1-byte write to bpf_sk_lookup" [
  _insns
   [BPF_MOV64_IMM BPF_REG_0 0xcafe4a11; BPF_STX_MEM BPF_B BPF_REG_1 BPF_REG_0 0;
    BPF_MOV32_IMM BPF_REG_0 0; BPF_EXIT_INSN];
  _errstr "invalid bpf_context access";
  _result REJECT;
  _prog_type BPF_PROG_TYPE_SK_LOOKUP;
  _expected_attach_type BPF_SK_LOOKUP].

Definition ctx_sk_lookup_20 : bpf_test := TEST "invalid 4-byte write past end of bpf_sk_lookup" [
  _insns
   [BPF_MOV64_IMM BPF_REG_0 0xcafe4a11;
    BPF_STX_MEM BPF_W BPF_REG_1 BPF_REG_0 (sizeof bpf_sk_lookup); BPF_MOV32_IMM BPF_REG_0 0;
    BPF_EXIT_INSN];
  _errstr "invalid bpf_context access";
  _result REJECT;
  _prog_type BPF_PROG_TYPE_SK_LOOKUP;
  _expected_attach_type BPF_SK_LOOKUP].

Definition ctx_sk_lookup_tests : list bpf_test := [ctx_sk_lookup_1; ctx_sk_lookup_2;
  ctx_sk_lookup_3; ctx_sk_lookup_4; ctx_sk_lookup_5; ctx_sk_lookup_6; ctx_sk_lookup_7;
  ctx_sk_lookup_8; ctx_sk_lookup_9; ctx_sk_lookup_10; ctx_sk_lookup_11; ctx_sk_lookup_12;
  ctx_sk_lookup_13; ctx_sk_lookup_14; ctx_sk_lookup_15; ctx_sk_lookup_16; ctx_sk_lookup_17;
  ctx_sk_lookup_18; ctx_sk_lookup_19; ctx_sk_lookup_20].

(** * [ctx_sk_msg.c] *)

Definition ctx_sk_msg_1 : bpf_test := TEST "valid access family in SK_MSG" [
  _insns
   [BPF_LDX_MEM BPF_W BPF_REG_0 BPF_REG_1 (offsetof sk_msg_md "family"); BPF_EXIT_INSN];
  _result ACCEPT;
  _prog_type BPF_PROG_TYPE_SK_MSG].

Definition ctx_sk_msg_2 : bpf_test := TEST "valid access remote_ip4 in SK_MSG" [
  _insns
   [BPF_LDX_MEM BPF_W BPF_REG_0 BPF_REG_1 (offsetof sk_msg_md "remote_ip4"); BPF_EXIT_INSN];
  _result ACCEPT;
  _prog_type BPF_PROG_TYPE_SK_MSG].

Definition ctx_sk_msg_3 : bpf_test := TEST "valid access local_ip4 in SK_MSG" [
  _insns
   [BPF_LDX_MEM BPF_W BPF_REG_0 BPF_REG_1 (offsetof sk_msg_md "local_ip4"); BPF_EXIT_INSN];
  _result ACCEPT;
  _prog_type BPF_PROG_TYPE_SK_MSG].

Definition ctx_sk_msg_4 : bpf_test := TEST "valid access remote_port in SK_MSG" [
  _insns
   [BPF_LDX_MEM BPF_W BPF_REG_0 BPF_REG_1 (offsetof sk_msg_md "remote_port"); BPF_EXIT_INSN];
  _result ACCEPT;
  _prog_type BPF_PROG_TYPE_SK_MSG].

Definition ctx_sk_msg_5 : bpf_test := TEST "valid access local_port in SK_MSG" [
  _insns
   [BPF_LDX_MEM BPF_W BPF_REG_0 BPF_REG_1 (offsetof sk_msg_md "local_port"); BPF_EXIT_INSN];
  _result ACCEPT;
  _prog_type BPF_PROG_TYPE_SK_MSG].

Definition ctx_sk_msg_6 : bpf_test := TEST "valid access remote_ip6 in SK_MSG" [
  _insns
   [BPF_LDX_MEM BPF_W BPF_REG_0 BPF_REG_1 (offsetof_idx sk_msg_md "remote_ip6" 0);
    BPF_LDX_MEM BPF_W BPF_REG_0 BPF_REG_1 (offsetof_idx sk_msg_md "remote_ip6" 1);
    BPF_LDX_MEM BPF_W BPF_REG_0 BPF_REG_1 (offsetof_idx sk_msg_md "remote_ip6" 2);
    BPF_LDX_MEM BPF_W BPF_REG_0 BPF_REG_1 (offsetof_idx sk_msg_md "remote_ip6" 3);
    BPF_EXIT_INSN];
  _result ACCEPT;
  _prog_type BPF_PROG_TYPE_SK_SKB].

Definition ctx_sk_msg_7 : bpf_test := TEST "valid access local_ip6 in SK_MSG" [
  _insns
   [BPF_LDX_MEM BPF_W BPF_REG_0 BPF_REG_1 (offsetof_idx sk_msg_md "local_ip6" 0);
    BPF_LDX_MEM BPF_W BPF_REG_0 BPF_REG_1 (offsetof_idx sk_msg_md "local_ip6" 1);
    BPF_LDX_MEM BPF_W BPF_REG_0 BPF_REG_1 (offsetof_idx sk_msg_md "local_ip6" 2);
    BPF_LDX_MEM BPF_W BPF_REG_0 BPF_REG_1 (offsetof_idx sk_msg_md "local_ip6" 3); BPF_EXIT_INSN];
  _result ACCEPT;
  _prog_type BPF_PROG_TYPE_SK_SKB].

Definition ctx_sk_msg_8 : bpf_test := TEST "valid access size in SK_MSG" [
  _insns
   [BPF_LDX_MEM BPF_W BPF_REG_0 BPF_REG_1 (offsetof sk_msg_md "size"); BPF_EXIT_INSN];
  _result ACCEPT;
  _prog_type BPF_PROG_TYPE_SK_MSG].

Definition ctx_sk_msg_9 : bpf_test := TEST "invalid 64B read of size in SK_MSG" [
  _insns
   [BPF_LDX_MEM BPF_DW BPF_REG_2 BPF_REG_1 (offsetof sk_msg_md "size"); BPF_EXIT_INSN];
  _errstr "invalid bpf_context access";
  _result REJECT;
  _prog_type BPF_PROG_TYPE_SK_MSG;
  _flags F_NEEDS_EFFICIENT_UNALIGNED_ACCESS].

Definition ctx_sk_msg_10 : bpf_test := TEST "invalid read past end of SK_MSG" [
  _insns
   [BPF_LDX_MEM BPF_W BPF_REG_2 BPF_REG_1 ((offsetof sk_msg_md "size") + 4); BPF_EXIT_INSN];
  _errstr "invalid bpf_context access";
  _result REJECT;
  _prog_type BPF_PROG_TYPE_SK_MSG].

Definition ctx_sk_msg_11 : bpf_test := TEST "invalid read offset in SK_MSG" [
  _insns
   [BPF_LDX_MEM BPF_W BPF_REG_2 BPF_REG_1 ((offsetof sk_msg_md "family") + 1); BPF_EXIT_INSN];
  _errstr "invalid bpf_context access";
  _result REJECT;
  _prog_type BPF_PROG_TYPE_SK_MSG;
  _flags F_NEEDS_EFFICIENT_UNALIGNED_ACCESS].

Definition ctx_sk_msg_12 : bpf_test := TEST "direct packet read for SK_MSG" [
  _insns
   [BPF_LDX_MEM BPF_DW BPF_REG_2 BPF_REG_1 (offsetof sk_msg_md "data");
    BPF_LDX_MEM BPF_DW BPF_REG_3 BPF_REG_1 (offsetof sk_msg_md "data_end");
    BPF_MOV64_REG BPF_REG_0 BPF_REG_2; BPF_ALU64_IMM BPF_ADD BPF_REG_0 8;
    BPF_JMP_REG BPF_JGT BPF_REG_0 BPF_REG_3 1; BPF_LDX_MEM BPF_B BPF_REG_0 BPF_REG_2 0;
    BPF_MOV64_IMM BPF_REG_0 0; BPF_EXIT_INSN];
  _result ACCEPT;
  _prog_type BPF_PROG_TYPE_SK_MSG].

Definition ctx_sk_msg_13 : bpf_test := TEST "direct packet write for SK_MSG" [
  _insns
   [BPF_LDX_MEM BPF_DW BPF_REG_2 BPF_REG_1 (offsetof sk_msg_md "data");
    BPF_LDX_MEM BPF_DW BPF_REG_3 BPF_REG_1 (offsetof sk_msg_md "data_end");
    BPF_MOV64_REG BPF_REG_0 BPF_REG_2; BPF_ALU64_IMM BPF_ADD BPF_REG_0 8;
    BPF_JMP_REG BPF_JGT BPF_REG_0 BPF_REG_3 1; BPF_STX_MEM BPF_B BPF_REG_2 BPF_REG_2 0;
    BPF_MOV64_IMM BPF_REG_0 0; BPF_EXIT_INSN];
  _result ACCEPT;
  _prog_type BPF_PROG_TYPE_SK_MSG].

Definition ctx_sk_msg_14 : bpf_test := TEST "overlapping checks for direct packet access SK_MSG" [
  _insns
   [BPF_LDX_MEM BPF_DW BPF_REG_2 BPF_REG_1 (offsetof sk_msg_md "data");
    BPF_LDX_MEM BPF_DW BPF_REG_3 BPF_REG_1 (offsetof sk_msg_md "data_end");
    BPF_MOV64_REG BPF_REG_0 BPF_REG_2; BPF_ALU64_IMM BPF_ADD BPF_REG_0 8;
    BPF_JMP_REG BPF_JGT BPF_REG_0 BPF_REG_3 4; BPF_MOV64_REG BPF_REG_1 BPF_REG_2;
    BPF_ALU64_IMM BPF_ADD BPF_REG_1 6; BPF_JMP_REG BPF_JGT BPF_REG_1 BPF_REG_3 1;
    BPF_LDX_MEM BPF_H BPF_REG_0 BPF_REG_2 6; BPF_MOV64_IMM BPF_REG_0 0; BPF_EXIT_INSN];
  _result ACCEPT;
  _prog_type BPF_PROG_TYPE_SK_MSG].

Definition ctx_sk_msg_tests : list bpf_test := [ctx_sk_msg_1; ctx_sk_msg_2; ctx_sk_msg_3;
  ctx_sk_msg_4; ctx_sk_msg_5; ctx_sk_msg_6; ctx_sk_msg_7; ctx_sk_msg_8; ctx_sk_msg_9; ctx_sk_msg_10;
  ctx_sk_msg_11; ctx_sk_msg_12; ctx_sk_msg_13; ctx_sk_msg_14].

(** * [ctx_skb.c] *)

Definition ctx_skb_1 : bpf_test := TEST "access skb fields ok" [
  _insns
   [BPF_LDX_MEM BPF_W BPF_REG_0 BPF_REG_1 (offsetof __sk_buff "len");
    BPF_JMP_IMM BPF_JGE BPF_REG_0 0 1;
    BPF_LDX_MEM BPF_W BPF_REG_0 BPF_REG_1 (offsetof __sk_buff "mark");
    BPF_JMP_IMM BPF_JGE BPF_REG_0 0 1;
    BPF_LDX_MEM BPF_W BPF_REG_0 BPF_REG_1 (offsetof __sk_buff "pkt_type");
    BPF_JMP_IMM BPF_JGE BPF_REG_0 0 1;
    BPF_LDX_MEM BPF_W BPF_REG_0 BPF_REG_1 (offsetof __sk_buff "queue_mapping");
    BPF_JMP_IMM BPF_JGE BPF_REG_0 0 0;
    BPF_LDX_MEM BPF_W BPF_REG_0 BPF_REG_1 (offsetof __sk_buff "protocol");
    BPF_JMP_IMM BPF_JGE BPF_REG_0 0 0;
    BPF_LDX_MEM BPF_W BPF_REG_0 BPF_REG_1 (offsetof __sk_buff "vlan_present");
    BPF_JMP_IMM BPF_JGE BPF_REG_0 0 0;
    BPF_LDX_MEM BPF_W BPF_REG_0 BPF_REG_1 (offsetof __sk_buff "vlan_tci");
    BPF_JMP_IMM BPF_JGE BPF_REG_0 0 0;
    BPF_LDX_MEM BPF_W BPF_REG_0 BPF_REG_1 (offsetof __sk_buff "napi_id");
    BPF_JMP_IMM BPF_JGE BPF_REG_0 0 0; BPF_EXIT_INSN];
  _result ACCEPT].

Definition ctx_skb_2 : bpf_test := TEST "access skb fields bad1" [
  _insns
   [BPF_LDX_MEM BPF_W BPF_REG_0 BPF_REG_1 (-4); BPF_EXIT_INSN];
  _errstr "invalid bpf_context access";
  _result REJECT].

Definition ctx_skb_3 : bpf_test := TEST "access skb fields bad2" [
  _insns
   [BPF_JMP_IMM BPF_JGE BPF_REG_1 0 9; BPF_ST_MEM BPF_DW BPF_REG_10 (-8) 0;
    BPF_MOV64_REG BPF_REG_2 BPF_REG_10; BPF_ALU64_IMM BPF_ADD BPF_REG_2 (-8);
    BPF_LD_MAP_FD BPF_REG_1 0;
    BPF_RAW_INSN (BPF_JMP .| BPF_CALL) 0 0 0 BPF_FUNC_map_lookup_elem;
    BPF_JMP_IMM BPF_JNE BPF_REG_0 0 1; BPF_EXIT_INSN; BPF_MOV64_REG BPF_REG_1 BPF_REG_0;
    BPF_LDX_MEM BPF_W BPF_REG_0 BPF_REG_1 (offsetof __sk_buff "pkt_type"); BPF_EXIT_INSN];
  _fixup fixup_map_hash_8b [4];
  _errstr "different pointers";
  _errstr_unpriv "R1 pointer comparison";
  _result REJECT].

Definition ctx_skb_4 : bpf_test := TEST "access skb fields bad3" [
  _insns
   [BPF_JMP_IMM BPF_JGE BPF_REG_1 0 2;
    BPF_LDX_MEM BPF_W BPF_REG_0 BPF_REG_1 (offsetof __sk_buff "pkt_type"); BPF_EXIT_INSN;
    BPF_ST_MEM BPF_DW BPF_REG_10 (-8) 0; BPF_MOV64_REG BPF_REG_2 BPF_REG_10;
    BPF_ALU64_IMM BPF_ADD BPF_REG_2 (-8); BPF_LD_MAP_FD BPF_REG_1 0;
    BPF_RAW_INSN (BPF_JMP .| BPF_CALL) 0 0 0 BPF_FUNC_map_lookup_elem;
    BPF_JMP_IMM BPF_JNE BPF_REG_0 0 1; BPF_EXIT_INSN; BPF_MOV64_REG BPF_REG_1 BPF_REG_0;
    BPF_JMP_IMM BPF_JA 0 0 (-12)];
  _fixup fixup_map_hash_8b [6];
  _errstr "different pointers";
  _errstr_unpriv "R1 pointer comparison";
  _result REJECT].

Definition ctx_skb_5 : bpf_test := TEST "access skb fields bad4" [
  _insns
   [BPF_JMP_IMM BPF_JGE BPF_REG_1 0 3;
    BPF_LDX_MEM BPF_W BPF_REG_1 BPF_REG_1 (offsetof __sk_buff "len"); BPF_MOV64_IMM BPF_REG_0 0;
    BPF_EXIT_INSN; BPF_ST_MEM BPF_DW BPF_REG_10 (-8) 0; BPF_MOV64_REG BPF_REG_2 BPF_REG_10;
    BPF_ALU64_IMM BPF_ADD BPF_REG_2 (-8); BPF_LD_MAP_FD BPF_REG_1 0;
    BPF_RAW_INSN (BPF_JMP .| BPF_CALL) 0 0 0 BPF_FUNC_map_lookup_elem;
    BPF_JMP_IMM BPF_JNE BPF_REG_0 0 1; BPF_EXIT_INSN; BPF_MOV64_REG BPF_REG_1 BPF_REG_0;
    BPF_JMP_IMM BPF_JA 0 0 (-13)];
  _fixup fixup_map_hash_8b [7];
  _errstr "different pointers";
  _errstr_unpriv "R1 pointer comparison";
  _result REJECT].

Definition ctx_skb_6 : bpf_test := TEST "invalid access __sk_buff family" [
  _insns
   [BPF_LDX_MEM BPF_W BPF_REG_0 BPF_REG_1 (offsetof __sk_buff "family"); BPF_EXIT_INSN];
  _errstr "invalid bpf_context access";
  _result REJECT].

Definition ctx_skb_7 : bpf_test := TEST "invalid access __sk_buff remote_ip4" [
  _insns
   [BPF_LDX_MEM BPF_W BPF_REG_0 BPF_REG_1 (offsetof __sk_buff "remote_ip4"); BPF_EXIT_INSN];
  _errstr "invalid bpf_context access";
  _result REJECT].

Definition ctx_skb_8 : bpf_test := TEST "invalid access __sk_buff local_ip4" [
  _insns
   [BPF_LDX_MEM BPF_W BPF_REG_0 BPF_REG_1 (offsetof __sk_buff "local_ip4"); BPF_EXIT_INSN];
  _errstr "invalid bpf_context access";
  _result REJECT].

Definition ctx_skb_9 : bpf_test := TEST "invalid access __sk_buff remote_ip6" [
  _insns
   [BPF_LDX_MEM BPF_W BPF_REG_0 BPF_REG_1 (offsetof __sk_buff "remote_ip6"); BPF_EXIT_INSN];
  _errstr "invalid bpf_context access";
  _result REJECT].

Definition ctx_skb_10 : bpf_test := TEST "invalid access __sk_buff local_ip6" [
  _insns
   [BPF_LDX_MEM BPF_W BPF_REG_0 BPF_REG_1 (offsetof __sk_buff "local_ip6"); BPF_EXIT_INSN];
  _errstr "invalid bpf_context access";
  _result REJECT].

Definition ctx_skb_11 : bpf_test := TEST "invalid access __sk_buff remote_port" [
  _insns
   [BPF_LDX_MEM BPF_W BPF_REG_0 BPF_REG_1 (offsetof __sk_buff "remote_port"); BPF_EXIT_INSN];
  _errstr "invalid bpf_context access";
  _result REJECT].

Definition ctx_skb_12 : bpf_test := TEST "invalid access __sk_buff remote_port" [
  _insns
   [BPF_LDX_MEM BPF_W BPF_REG_0 BPF_REG_1 (offsetof __sk_buff "local_port"); BPF_EXIT_INSN];
  _errstr "invalid bpf_context access";
  _result REJECT].

Definition ctx_skb_13 : bpf_test := TEST "valid access __sk_buff family" [
  _insns
   [BPF_LDX_MEM BPF_W BPF_REG_0 BPF_REG_1 (offsetof __sk_buff "family"); BPF_EXIT_INSN];
  _result ACCEPT;
  _prog_type BPF_PROG_TYPE_SK_SKB].

Definition ctx_skb_14 : bpf_test := TEST "valid access __sk_buff remote_ip4" [
  _insns
   [BPF_LDX_MEM BPF_W BPF_REG_0 BPF_REG_1 (offsetof __sk_buff "remote_ip4"); BPF_EXIT_INSN];
  _result ACCEPT;
  _prog_type BPF_PROG_TYPE_SK_SKB].

Definition ctx_skb_15 : bpf_test := TEST "valid access __sk_buff local_ip4" [
  _insns
   [BPF_LDX_MEM BPF_W BPF_REG_0 BPF_REG_1 (offsetof __sk_buff "local_ip4"); BPF_EXIT_INSN];
  _result ACCEPT;
  _prog_type BPF_PROG_TYPE_SK_SKB].

Definition ctx_skb_16 : bpf_test := TEST "valid access __sk_buff remote_ip6" [
  _insns
   [BPF_LDX_MEM BPF_W BPF_REG_0 BPF_REG_1 (offsetof_idx __sk_buff "remote_ip6" 0);
    BPF_LDX_MEM BPF_W BPF_REG_0 BPF_REG_1 (offsetof_idx __sk_buff "remote_ip6" 1);
    BPF_LDX_MEM BPF_W BPF_REG_0 BPF_REG_1 (offsetof_idx __sk_buff "remote_ip6" 2);
    BPF_LDX_MEM BPF_W BPF_REG_0 BPF_REG_1 (offsetof_idx __sk_buff "remote_ip6" 3);
    BPF_EXIT_INSN];
  _result ACCEPT;
  _prog_type BPF_PROG_TYPE_SK_SKB].

Definition ctx_skb_17 : bpf_test := TEST "valid access __sk_buff local_ip6" [
  _insns
   [BPF_LDX_MEM BPF_W BPF_REG_0 BPF_REG_1 (offsetof_idx __sk_buff "local_ip6" 0);
    BPF_LDX_MEM BPF_W BPF_REG_0 BPF_REG_1 (offsetof_idx __sk_buff "local_ip6" 1);
    BPF_LDX_MEM BPF_W BPF_REG_0 BPF_REG_1 (offsetof_idx __sk_buff "local_ip6" 2);
    BPF_LDX_MEM BPF_W BPF_REG_0 BPF_REG_1 (offsetof_idx __sk_buff "local_ip6" 3); BPF_EXIT_INSN];
  _result ACCEPT;
  _prog_type BPF_PROG_TYPE_SK_SKB].

Definition ctx_skb_18 : bpf_test := TEST "valid access __sk_buff remote_port" [
  _insns
   [BPF_LDX_MEM BPF_W BPF_REG_0 BPF_REG_1 (offsetof __sk_buff "remote_port"); BPF_EXIT_INSN];
  _result ACCEPT;
  _prog_type BPF_PROG_TYPE_SK_SKB].

Definition ctx_skb_19 : bpf_test := TEST "valid access __sk_buff remote_port" [
  _insns
   [BPF_LDX_MEM BPF_W BPF_REG_0 BPF_REG_1 (offsetof __sk_buff "local_port"); BPF_EXIT_INSN];
  _result ACCEPT;
  _prog_type BPF_PROG_TYPE_SK_SKB].

Definition ctx_skb_20 : bpf_test := TEST "invalid access of tc_classid for SK_SKB" [
  _insns
   [BPF_LDX_MEM BPF_W BPF_REG_0 BPF_REG_1 (offsetof __sk_buff "tc_classid"); BPF_EXIT_INSN];
  _result REJECT;
  _prog_type BPF_PROG_TYPE_SK_SKB;
  _errstr "invalid bpf_context access"].

Definition ctx_skb_21 : bpf_test := TEST "invalid access of skb->mark for SK_SKB" [
  _insns
   [BPF_LDX_MEM BPF_W BPF_REG_0 BPF_REG_1 (offsetof __sk_buff "mark"); BPF_EXIT_INSN];
  _result REJECT;
  _prog_type BPF_PROG_TYPE_SK_SKB;
  _errstr "invalid bpf_context access"].

Definition ctx_skb_22 : bpf_test := TEST "check skb->mark is not writeable by SK_SKB" [
  _insns
   [BPF_MOV64_IMM BPF_REG_0 0;
    BPF_STX_MEM BPF_W BPF_REG_1 BPF_REG_0 (offsetof __sk_buff "mark"); BPF_EXIT_INSN];
  _result REJECT;
  _prog_type BPF_PROG_TYPE_SK_SKB;
  _errstr "invalid bpf_context access"].

Definition ctx_skb_23 : bpf_test := TEST "check skb->tc_index is writeable by SK_SKB" [
  _insns
   [BPF_MOV64_IMM BPF_REG_0 0;
    BPF_STX_MEM BPF_W BPF_REG_1 BPF_REG_0 (offsetof __sk_buff "tc_index"); BPF_EXIT_INSN];
  _result ACCEPT;
  _prog_type BPF_PROG_TYPE_SK_SKB].

Definition ctx_skb_24 : bpf_test := TEST "check skb->priority is writeable by SK_SKB" [
  _insns
   [BPF_MOV64_IMM BPF_REG_0 0;
    BPF_STX_MEM BPF_W BPF_REG_1 BPF_REG_0 (offsetof __sk_buff "priority"); BPF_EXIT_INSN];
  _result ACCEPT;
  _prog_type BPF_PROG_TYPE_SK_SKB].

Definition ctx_skb_25 : bpf_test := TEST "direct packet read for SK_SKB" [
  _insns
   [BPF_LDX_MEM BPF_W BPF_REG_2 BPF_REG_1 (offsetof __sk_buff "data");
    BPF_LDX_MEM BPF_W BPF_REG_3 BPF_REG_1 (offsetof __sk_buff "data_end");
    BPF_MOV64_REG BPF_REG_0 BPF_REG_2; BPF_ALU64_IMM BPF_ADD BPF_REG_0 8;
    BPF_JMP_REG BPF_JGT BPF_REG_0 BPF_REG_3 1; BPF_LDX_MEM BPF_B BPF_REG_0 BPF_REG_2 0;
    BPF_MOV64_IMM BPF_REG_0 0; BPF_EXIT_INSN];
  _result ACCEPT;
  _prog_type BPF_PROG_TYPE_SK_SKB].

Definition ctx_skb_26 : bpf_test := TEST "direct packet write for SK_SKB" [
  _insns
   [BPF_LDX_MEM BPF_W BPF_REG_2 BPF_REG_1 (offsetof __sk_buff "data");
    BPF_LDX_MEM BPF_W BPF_REG_3 BPF_REG_1 (offsetof __sk_buff "data_end");
    BPF_MOV64_REG BPF_REG_0 BPF_REG_2; BPF_ALU64_IMM BPF_ADD BPF_REG_0 8;
    BPF_JMP_REG BPF_JGT BPF_REG_0 BPF_REG_3 1; BPF_STX_MEM BPF_B BPF_REG_2 BPF_REG_2 0;
    BPF_MOV64_IMM BPF_REG_0 0; BPF_EXIT_INSN];
  _result ACCEPT;
  _prog_type BPF_PROG_TYPE_SK_SKB].

Definition ctx_skb_27 : bpf_test := TEST "overlapping checks for direct packet access SK_SKB" [
  _insns
   [BPF_LDX_MEM BPF_W BPF_REG_2 BPF_REG_1 (offsetof __sk_buff "data");
    BPF_LDX_MEM BPF_W BPF_REG_3 BPF_REG_1 (offsetof __sk_buff "data_end");
    BPF_MOV64_REG BPF_REG_0 BPF_REG_2; BPF_ALU64_IMM BPF_ADD BPF_REG_0 8;
    BPF_JMP_REG BPF_JGT BPF_REG_0 BPF_REG_3 4; BPF_MOV64_REG BPF_REG_1 BPF_REG_2;
    BPF_ALU64_IMM BPF_ADD BPF_REG_1 6; BPF_JMP_REG BPF_JGT BPF_REG_1 BPF_REG_3 1;
    BPF_LDX_MEM BPF_H BPF_REG_0 BPF_REG_2 6; BPF_MOV64_IMM BPF_REG_0 0; BPF_EXIT_INSN];
  _result ACCEPT;
  _prog_type BPF_PROG_TYPE_SK_SKB].

Definition ctx_skb_28 : bpf_test := TEST "check skb->mark is not writeable by sockets" [
  _insns
   [BPF_STX_MEM BPF_W BPF_REG_1 BPF_REG_1 (offsetof __sk_buff "mark"); BPF_EXIT_INSN];
  _errstr "invalid bpf_context access";
  _errstr_unpriv "R1 leaks addr";
  _result REJECT].

Definition ctx_skb_29 : bpf_test := TEST "check skb->tc_index is not writeable by sockets" [
  _insns
   [BPF_STX_MEM BPF_W BPF_REG_1 BPF_REG_1 (offsetof __sk_buff "tc_index"); BPF_EXIT_INSN];
  _errstr "invalid bpf_context access";
  _errstr_unpriv "R1 leaks addr";
  _result REJECT].

Definition ctx_skb_30 : bpf_test := TEST "check cb access: byte" [
  _insns
   [BPF_MOV64_IMM BPF_REG_0 0;
    BPF_STX_MEM BPF_B BPF_REG_1 BPF_REG_0 (offsetof_idx __sk_buff "cb" 0);
    BPF_STX_MEM BPF_B BPF_REG_1 BPF_REG_0 ((offsetof_idx __sk_buff "cb" 0) + 1);
    BPF_STX_MEM BPF_B BPF_REG_1 BPF_REG_0 ((offsetof_idx __sk_buff "cb" 0) + 2);
    BPF_STX_MEM BPF_B BPF_REG_1 BPF_REG_0 ((offsetof_idx __sk_buff "cb" 0) + 3);
    BPF_STX_MEM BPF_B BPF_REG_1 BPF_REG_0 (offsetof_idx __sk_buff "cb" 1);
    BPF_STX_MEM BPF_B BPF_REG_1 BPF_REG_0 ((offsetof_idx __sk_buff "cb" 1) + 1);
    BPF_STX_MEM BPF_B BPF_REG_1 BPF_REG_0 ((offsetof_idx __sk_buff "cb" 1) + 2);
    BPF_STX_MEM BPF_B BPF_REG_1 BPF_REG_0 ((offsetof_idx __sk_buff "cb" 1) + 3);
    BPF_STX_MEM BPF_B BPF_REG_1 BPF_REG_0 (offsetof_idx __sk_buff "cb" 2);
    BPF_STX_MEM BPF_B BPF_REG_1 BPF_REG_0 ((offsetof_idx __sk_buff "cb" 2) + 1);
    BPF_STX_MEM BPF_B BPF_REG_1 BPF_REG_0 ((offsetof_idx __sk_buff "cb" 2) + 2);
    BPF_STX_MEM BPF_B BPF_REG_1 BPF_REG_0 ((offsetof_idx __sk_buff "cb" 2) + 3);
    BPF_STX_MEM BPF_B BPF_REG_1 BPF_REG_0 (offsetof_idx __sk_buff "cb" 3);
    BPF_STX_MEM BPF_B BPF_REG_1 BPF_REG_0 ((offsetof_idx __sk_buff "cb" 3) + 1);
    BPF_STX_MEM BPF_B BPF_REG_1 BPF_REG_0 ((offsetof_idx __sk_buff "cb" 3) + 2);
    BPF_STX_MEM BPF_B BPF_REG_1 BPF_REG_0 ((offsetof_idx __sk_buff "cb" 3) + 3);
    BPF_STX_MEM BPF_B BPF_REG_1 BPF_REG_0 (offsetof_idx __sk_buff "cb" 4);
    BPF_STX_MEM BPF_B BPF_REG_1 BPF_REG_0 ((offsetof_idx __sk_buff "cb" 4) + 1);
    BPF_STX_MEM BPF_B BPF_REG_1 BPF_REG_0 ((offsetof_idx __sk_buff "cb" 4) + 2);
    BPF_STX_MEM BPF_B BPF_REG_1 BPF_REG_0 ((offsetof_idx __sk_buff "cb" 4) + 3);
    BPF_LDX_MEM BPF_B BPF_REG_0 BPF_REG_1 (offsetof_idx __sk_buff "cb" 0);
    BPF_LDX_MEM BPF_B BPF_REG_0 BPF_REG_1 ((offsetof_idx __sk_buff "cb" 0) + 1);
    BPF_LDX_MEM BPF_B BPF_REG_0 BPF_REG_1 ((offsetof_idx __sk_buff "cb" 0) + 2);
    BPF_LDX_MEM BPF_B BPF_REG_0 BPF_REG_1 ((offsetof_idx __sk_buff "cb" 0) + 3);
    BPF_LDX_MEM BPF_B BPF_REG_0 BPF_REG_1 (offsetof_idx __sk_buff "cb" 1);
    BPF_LDX_MEM BPF_B BPF_REG_0 BPF_REG_1 ((offsetof_idx __sk_buff "cb" 1) + 1);
    BPF_LDX_MEM BPF_B BPF_REG_0 BPF_REG_1 ((offsetof_idx __sk_buff "cb" 1) + 2);
    BPF_LDX_MEM BPF_B BPF_REG_0 BPF_REG_1 ((offsetof_idx __sk_buff "cb" 1) + 3);
    BPF_LDX_MEM BPF_B BPF_REG_0 BPF_REG_1 (offsetof_idx __sk_buff "cb" 2);
    BPF_LDX_MEM BPF_B BPF_REG_0 BPF_REG_1 ((offsetof_idx __sk_buff "cb" 2) + 1);
    BPF_LDX_MEM BPF_B BPF_REG_0 BPF_REG_1 ((offsetof_idx __sk_buff "cb" 2) + 2);
    BPF_LDX_MEM BPF_B BPF_REG_0 BPF_REG_1 ((offsetof_idx __sk_buff "cb" 2) + 3);
    BPF_LDX_MEM BPF_B BPF_REG_0 BPF_REG_1 (offsetof_idx __sk_buff "cb" 3);
    BPF_LDX_MEM BPF_B BPF_REG_0 BPF_REG_1 ((offsetof_idx __sk_buff "cb" 3) + 1);
    BPF_LDX_MEM BPF_B BPF_REG_0 BPF_REG_1 ((offsetof_idx __sk_buff "cb" 3) + 2);
    BPF_LDX_MEM BPF_B BPF_REG_0 BPF_REG_1 ((offsetof_idx __sk_buff "cb" 3) + 3);
    BPF_LDX_MEM BPF_B BPF_REG_0 BPF_REG_1 (offsetof_idx __sk_buff "cb" 4);
    BPF_LDX_MEM BPF_B BPF_REG_0 BPF_REG_1 ((offsetof_idx __sk_buff "cb" 4) + 1);
    BPF_LDX_MEM BPF_B BPF_REG_0 BPF_REG_1 ((offsetof_idx __sk_buff "cb" 4) + 2);
    BPF_LDX_MEM BPF_B BPF_REG_0 BPF_REG_1 ((offsetof_idx __sk_buff "cb" 4) + 3); BPF_EXIT_INSN];
  _result ACCEPT].

Definition ctx_skb_31 : bpf_test := TEST "__sk_buff->hash, offset 0, byte store not permitted" [
  _insns
   [BPF_MOV64_IMM BPF_REG_0 0;
    BPF_STX_MEM BPF_B BPF_REG_1 BPF_REG_0 (offsetof __sk_buff "hash"); BPF_EXIT_INSN];
  _errstr "invalid bpf_context access";
  _result REJECT].

Definition ctx_skb_32 : bpf_test := TEST "__sk_buff->tc_index, offset 3, byte store not permitted" [
  _insns
   [BPF_MOV64_IMM BPF_REG_0 0;
    BPF_STX_MEM BPF_B BPF_REG_1 BPF_REG_0 ((offsetof __sk_buff "tc_index") + 3); BPF_EXIT_INSN];
  _errstr "invalid bpf_context access";
  _result REJECT].

Definition ctx_skb_33 : bpf_test := TEST "check skb->hash byte load permitted" [
  _insns
   [BPF_MOV64_IMM BPF_REG_0 0;
    BPF_LDX_MEM BPF_B BPF_REG_0 BPF_REG_1 (offsetof __sk_buff "hash"); BPF_EXIT_INSN];
  _result ACCEPT].

Definition ctx_skb_34 : bpf_test := TEST "check skb->hash byte load permitted 1" [
  _insns
   [BPF_MOV64_IMM BPF_REG_0 0;
    BPF_LDX_MEM BPF_B BPF_REG_0 BPF_REG_1 ((offsetof __sk_buff "hash") + 1); BPF_EXIT_INSN];
  _result ACCEPT].

Definition ctx_skb_35 : bpf_test := TEST "check skb->hash byte load permitted 2" [
  _insns
   [BPF_MOV64_IMM BPF_REG_0 0;
    BPF_LDX_MEM BPF_B BPF_REG_0 BPF_REG_1 ((offsetof __sk_buff "hash") + 2); BPF_EXIT_INSN];
  _result ACCEPT].

Definition ctx_skb_36 : bpf_test := TEST "check skb->hash byte load permitted 3" [
  _insns
   [BPF_MOV64_IMM BPF_REG_0 0;
    BPF_LDX_MEM BPF_B BPF_REG_0 BPF_REG_1 ((offsetof __sk_buff "hash") + 3); BPF_EXIT_INSN];
  _result ACCEPT].

Definition ctx_skb_37 : bpf_test := TEST "check cb access: byte, wrong type" [
  _insns
   [BPF_MOV64_IMM BPF_REG_0 0;
    BPF_STX_MEM BPF_B BPF_REG_1 BPF_REG_0 (offsetof_idx __sk_buff "cb" 0); BPF_EXIT_INSN];
  _errstr "invalid bpf_context access";
  _result REJECT;
  _prog_type BPF_PROG_TYPE_CGROUP_SOCK].

Definition ctx_skb_38 : bpf_test := TEST "check cb access: half" [
  _insns
   [BPF_MOV64_IMM BPF_REG_0 0;
    BPF_STX_MEM BPF_H BPF_REG_1 BPF_REG_0 (offsetof_idx __sk_buff "cb" 0);
    BPF_STX_MEM BPF_H BPF_REG_1 BPF_REG_0 ((offsetof_idx __sk_buff "cb" 0) + 2);
    BPF_STX_MEM BPF_H BPF_REG_1 BPF_REG_0 (offsetof_idx __sk_buff "cb" 1);
    BPF_STX_MEM BPF_H BPF_REG_1 BPF_REG_0 ((offsetof_idx __sk_buff "cb" 1) + 2);
    BPF_STX_MEM BPF_H BPF_REG_1 BPF_REG_0 (offsetof_idx __sk_buff "cb" 2);
    BPF_STX_MEM BPF_H BPF_REG_1 BPF_REG_0 ((offsetof_idx __sk_buff "cb" 2) + 2);
    BPF_STX_MEM BPF_H BPF_REG_1 BPF_REG_0 (offsetof_idx __sk_buff "cb" 3);
    BPF_STX_MEM BPF_H BPF_REG_1 BPF_REG_0 ((offsetof_idx __sk_buff "cb" 3) + 2);
    BPF_STX_MEM BPF_H BPF_REG_1 BPF_REG_0 (offsetof_idx __sk_buff "cb" 4);
    BPF_STX_MEM BPF_H BPF_REG_1 BPF_REG_0 ((offsetof_idx __sk_buff "cb" 4) + 2);
    BPF_LDX_MEM BPF_H BPF_REG_0 BPF_REG_1 (offsetof_idx __sk_buff "cb" 0);
    BPF_LDX_MEM BPF_H BPF_REG_0 BPF_REG_1 ((offsetof_idx __sk_buff "cb" 0) + 2);
    BPF_LDX_MEM BPF_H BPF_REG_0 BPF_REG_1 (offsetof_idx __sk_buff "cb" 1);
    BPF_LDX_MEM BPF_H BPF_REG_0 BPF_REG_1 ((offsetof_idx __sk_buff "cb" 1) + 2);
    BPF_LDX_MEM BPF_H BPF_REG_0 BPF_REG_1 (offsetof_idx __sk_buff "cb" 2);
    BPF_LDX_MEM BPF_H BPF_REG_0 BPF_REG_1 ((offsetof_idx __sk_buff "cb" 2) + 2);
    BPF_LDX_MEM BPF_H BPF_REG_0 BPF_REG_1 (offsetof_idx __sk_buff "cb" 3);
    BPF_LDX_MEM BPF_H BPF_REG_0 BPF_REG_1 ((offsetof_idx __sk_buff "cb" 3) + 2);
    BPF_LDX_MEM BPF_H BPF_REG_0 BPF_REG_1 (offsetof_idx __sk_buff "cb" 4);
    BPF_LDX_MEM BPF_H BPF_REG_0 BPF_REG_1 ((offsetof_idx __sk_buff "cb" 4) + 2); BPF_EXIT_INSN];
  _result ACCEPT].

Definition ctx_skb_39 : bpf_test := TEST "check cb access: half, unaligned" [
  _insns
   [BPF_MOV64_IMM BPF_REG_0 0;
    BPF_STX_MEM BPF_H BPF_REG_1 BPF_REG_0 ((offsetof_idx __sk_buff "cb" 0) + 1); BPF_EXIT_INSN];
  _errstr "misaligned context access";
  _result REJECT;
  _flags F_LOAD_WITH_STRICT_ALIGNMENT].

Definition ctx_skb_40 : bpf_test := TEST "check __sk_buff->hash, offset 0, half store not permitted" [
  _insns
   [BPF_MOV64_IMM BPF_REG_0 0;
    BPF_STX_MEM BPF_H BPF_REG_1 BPF_REG_0 (offsetof __sk_buff "hash"); BPF_EXIT_INSN];
  _errstr "invalid bpf_context access";
  _result REJECT].

Definition ctx_skb_41 : bpf_test := TEST "check __sk_buff->tc_index, offset 2, half store not permitted" [
  _insns
   [BPF_MOV64_IMM BPF_REG_0 0;
    BPF_STX_MEM BPF_H BPF_REG_1 BPF_REG_0 ((offsetof __sk_buff "tc_index") + 2); BPF_EXIT_INSN];
  _errstr "invalid bpf_context access";
  _result REJECT].

Definition ctx_skb_42 : bpf_test := TEST "check skb->hash half load permitted" [
  _insns
   [BPF_MOV64_IMM BPF_REG_0 0;
    BPF_LDX_MEM BPF_H BPF_REG_0 BPF_REG_1 (offsetof __sk_buff "hash"); BPF_EXIT_INSN];
  _result ACCEPT].

Definition ctx_skb_43 : bpf_test := TEST "check skb->hash half load permitted 2" [
  _insns
   [BPF_MOV64_IMM BPF_REG_0 0;
    BPF_LDX_MEM BPF_H BPF_REG_0 BPF_REG_1 ((offsetof __sk_buff "hash") + 2); BPF_EXIT_INSN];
  _result ACCEPT].

Definition ctx_skb_44 : bpf_test := TEST "check skb->hash half load not permitted, unaligned 1" [
  _insns
   [BPF_MOV64_IMM BPF_REG_0 0;
    BPF_LDX_MEM BPF_H BPF_REG_0 BPF_REG_1 ((offsetof __sk_buff "hash") + 1); BPF_EXIT_INSN];
  _errstr "invalid bpf_context access";
  _result REJECT;
  _flags F_NEEDS_EFFICIENT_UNALIGNED_ACCESS].

Definition ctx_skb_45 : bpf_test := TEST "check skb->hash half load not permitted, unaligned 3" [
  _insns
   [BPF_MOV64_IMM BPF_REG_0 0;
    BPF_LDX_MEM BPF_H BPF_REG_0 BPF_REG_1 ((offsetof __sk_buff "hash") + 3); BPF_EXIT_INSN];
  _errstr "invalid bpf_context access";
  _result REJECT;
  _flags F_NEEDS_EFFICIENT_UNALIGNED_ACCESS].

Definition ctx_skb_46 : bpf_test := TEST "check cb access: half, wrong type" [
  _insns
   [BPF_MOV64_IMM BPF_REG_0 0;
    BPF_STX_MEM BPF_H BPF_REG_1 BPF_REG_0 (offsetof_idx __sk_buff "cb" 0); BPF_EXIT_INSN];
  _errstr "invalid bpf_context access";
  _result REJECT;
  _prog_type BPF_PROG_TYPE_CGROUP_SOCK].

Definition ctx_skb_47 : bpf_test := TEST "check cb access: word" [
  _insns
   [BPF_MOV64_IMM BPF_REG_0 0;
    BPF_STX_MEM BPF_W BPF_REG_1 BPF_REG_0 (offsetof_idx __sk_buff "cb" 0);
    BPF_STX_MEM BPF_W BPF_REG_1 BPF_REG_0 (offsetof_idx __sk_buff "cb" 1);
    BPF_STX_MEM BPF_W BPF_REG_1 BPF_REG_0 (offsetof_idx __sk_buff "cb" 2);
    BPF_STX_MEM BPF_W BPF_REG_1 BPF_REG_0 (offsetof_idx __sk_buff "cb" 3);
    BPF_STX_MEM BPF_W BPF_REG_1 BPF_REG_0 (offsetof_idx __sk_buff "cb" 4);
    BPF_LDX_MEM BPF_W BPF_REG_0 BPF_REG_1 (offsetof_idx __sk_buff "cb" 0);
    BPF_LDX_MEM BPF_W BPF_REG_0 BPF_REG_1 (offsetof_idx __sk_buff "cb" 1);
    BPF_LDX_MEM BPF_W BPF_REG_0 BPF_REG_1 (offsetof_idx __sk_buff "cb" 2);
    BPF_LDX_MEM BPF_W BPF_REG_0 BPF_REG_1 (offsetof_idx __sk_buff "cb" 3);
    BPF_LDX_MEM BPF_W BPF_REG_0 BPF_REG_1 (offsetof_idx __sk_buff "cb" 4); BPF_EXIT_INSN];
  _result ACCEPT].

Definition ctx_skb_48 : bpf_test := TEST "check cb access: word, unaligned 1" [
  _insns
   [BPF_MOV64_IMM BPF_REG_0 0;
    BPF_STX_MEM BPF_W BPF_REG_1 BPF_REG_0 ((offsetof_idx __sk_buff "cb" 0) + 2); BPF_EXIT_INSN];
  _errstr "misaligned context access";
  _result REJECT;
  _flags F_LOAD_WITH_STRICT_ALIGNMENT].

Definition ctx_skb_49 : bpf_test := TEST "check cb access: word, unaligned 2" [
  _insns
   [BPF_MOV64_IMM BPF_REG_0 0;
    BPF_STX_MEM BPF_W BPF_REG_1 BPF_REG_0 ((offsetof_idx __sk_buff "cb" 4) + 1); BPF_EXIT_INSN];
  _errstr "misaligned context access";
  _result REJECT;
  _flags F_LOAD_WITH_STRICT_ALIGNMENT].

Definition ctx_skb_50 : bpf_test := TEST "check cb access: word, unaligned 3" [
  _insns
   [BPF_MOV64_IMM BPF_REG_0 0;
    BPF_STX_MEM BPF_W BPF_REG_1 BPF_REG_0 ((offsetof_idx __sk_buff "cb" 4) + 2); BPF_EXIT_INSN];
  _errstr "misaligned context access";
  _result REJECT;
  _flags F_LOAD_WITH_STRICT_ALIGNMENT].

Definition ctx_skb_51 : bpf_test := TEST "check cb access: word, unaligned 4" [
  _insns
   [BPF_MOV64_IMM BPF_REG_0 0;
    BPF_STX_MEM BPF_W BPF_REG_1 BPF_REG_0 ((offsetof_idx __sk_buff "cb" 4) + 3); BPF_EXIT_INSN];
  _errstr "misaligned context access";
  _result REJECT;
  _flags F_LOAD_WITH_STRICT_ALIGNMENT].

Definition ctx_skb_52 : bpf_test := TEST "check cb access: double" [
  _insns
   [BPF_MOV64_IMM BPF_REG_0 0;
    BPF_STX_MEM BPF_DW BPF_REG_1 BPF_REG_0 (offsetof_idx __sk_buff "cb" 0);
    BPF_STX_MEM BPF_DW BPF_REG_1 BPF_REG_0 (offsetof_idx __sk_buff "cb" 2);
    BPF_LDX_MEM BPF_DW BPF_REG_0 BPF_REG_1 (offsetof_idx __sk_buff "cb" 0);
    BPF_LDX_MEM BPF_DW BPF_REG_0 BPF_REG_1 (offsetof_idx __sk_buff "cb" 2); BPF_EXIT_INSN];
  _result ACCEPT].

Definition ctx_skb_53 : bpf_test := TEST "check cb access: double, unaligned 1" [
  _insns
   [BPF_MOV64_IMM BPF_REG_0 0;
    BPF_STX_MEM BPF_DW BPF_REG_1 BPF_REG_0 (offsetof_idx __sk_buff "cb" 1); BPF_EXIT_INSN];
  _errstr "misaligned context access";
  _result REJECT;
  _flags F_LOAD_WITH_STRICT_ALIGNMENT].

Definition ctx_skb_54 : bpf_test := TEST "check cb access: double, unaligned 2" [
  _insns
   [BPF_MOV64_IMM BPF_REG_0 0;
    BPF_STX_MEM BPF_DW BPF_REG_1 BPF_REG_0 (offsetof_idx __sk_buff "cb" 3); BPF_EXIT_INSN];
  _errstr "misaligned context access";
  _result REJECT;
  _flags F_LOAD_WITH_STRICT_ALIGNMENT].

Definition ctx_skb_55 : bpf_test := TEST "check cb access: double, oob 1" [
  _insns
   [BPF_MOV64_IMM BPF_REG_0 0;
    BPF_STX_MEM BPF_DW BPF_REG_1 BPF_REG_0 (offsetof_idx __sk_buff "cb" 4); BPF_EXIT_INSN];
  _errstr "invalid bpf_context access";
  _result REJECT].

Definition ctx_skb_56 : bpf_test := TEST "check cb access: double, oob 2" [
  _insns
   [BPF_MOV64_IMM BPF_REG_0 0;
    BPF_LDX_MEM BPF_DW BPF_REG_0 BPF_REG_1 (offsetof_idx __sk_buff "cb" 4); BPF_EXIT_INSN];
  _errstr "invalid bpf_context access";
  _result REJECT].

Definition ctx_skb_57 : bpf_test := TEST "check __sk_buff->ifindex dw store not permitted" [
  _insns
   [BPF_MOV64_IMM BPF_REG_0 0;
    BPF_STX_MEM BPF_DW BPF_REG_1 BPF_REG_0 (offsetof __sk_buff "ifindex"); BPF_EXIT_INSN];
  _errstr "invalid bpf_context access";
  _result REJECT].

Definition ctx_skb_58 : bpf_test := TEST "check __sk_buff->ifindex dw load not permitted" [
  _insns
   [BPF_MOV64_IMM BPF_REG_0 0;
    BPF_LDX_MEM BPF_DW BPF_REG_0 BPF_REG_1 (offsetof __sk_buff "ifindex"); BPF_EXIT_INSN];
  _errstr "invalid bpf_context access";
  _result REJECT].

Definition ctx_skb_59 : bpf_test := TEST "check cb access: double, wrong type" [
  _insns
   [BPF_MOV64_IMM BPF_REG_0 0;
    BPF_STX_MEM BPF_DW BPF_REG_1 BPF_REG_0 (offsetof_idx __sk_buff "cb" 0); BPF_EXIT_INSN];
  _errstr "invalid bpf_context access";
  _result REJECT;
  _prog_type BPF_PROG_TYPE_CGROUP_SOCK].

Definition ctx_skb_60 : bpf_test := TEST "check out of range skb->cb access" [
  _insns
   [BPF_LDX_MEM BPF_W BPF_REG_0 BPF_REG_1 ((offsetof_idx __sk_buff "cb" 0) + 256);
    BPF_EXIT_INSN];
  _errstr "invalid bpf_context access";
  _errstr_unpriv "";
  _result REJECT;
  _prog_type BPF_PROG_TYPE_SCHED_ACT].

Definition ctx_skb_61 : bpf_test := TEST "write skb fields from socket prog" [
  _insns
   [BPF_LDX_MEM BPF_W BPF_REG_0 BPF_REG_1 (offsetof_idx __sk_buff "cb" 4);
    BPF_JMP_IMM BPF_JGE BPF_REG_0 0 1;
    BPF_LDX_MEM BPF_W BPF_REG_0 BPF_REG_1 (offsetof __sk_buff "mark");
    BPF_LDX_MEM BPF_W BPF_REG_0 BPF_REG_1 (offsetof __sk_buff "tc_index");
    BPF_JMP_IMM BPF_JGE BPF_REG_0 0 1;
    BPF_STX_MEM BPF_W BPF_REG_1 BPF_REG_1 (offsetof_idx __sk_buff "cb" 0);
    BPF_STX_MEM BPF_W BPF_REG_1 BPF_REG_1 (offsetof_idx __sk_buff "cb" 2); BPF_EXIT_INSN];
  _result ACCEPT;
  _errstr_unpriv "R1 leaks addr";
  _result_unpriv REJECT].

Definition ctx_skb_62 : bpf_test := TEST "write skb fields from tc_cls_act prog" [
  _insns
   [BPF_LDX_MEM BPF_W BPF_REG_0 BPF_REG_1 (offsetof_idx __sk_buff "cb" 0);
    BPF_STX_MEM BPF_W BPF_REG_1 BPF_REG_0 (offsetof __sk_buff "mark");
    BPF_LDX_MEM BPF_W BPF_REG_0 BPF_REG_1 (offsetof __sk_buff "tc_index");
    BPF_STX_MEM BPF_W BPF_REG_1 BPF_REG_0 (offsetof __sk_buff "tc_index");
    BPF_STX_MEM BPF_W BPF_REG_1 BPF_REG_0 (offsetof_idx __sk_buff "cb" 3);
    BPF_LDX_MEM BPF_DW BPF_REG_0 BPF_REG_1 (offsetof __sk_buff "tstamp");
    BPF_STX_MEM BPF_DW BPF_REG_1 BPF_REG_0 (offsetof __sk_buff "tstamp"); BPF_EXIT_INSN];
  _errstr_unpriv "";
  _result_unpriv REJECT;
  _result ACCEPT;
  _prog_type BPF_PROG_TYPE_SCHED_CLS].

Definition ctx_skb_63 : bpf_test := TEST "check skb->data half load not permitted" [
  _insns
   [BPF_MOV64_IMM BPF_REG_0 0;
    BPF_LDX_MEM BPF_H BPF_REG_0 BPF_REG_1 (offsetof __sk_buff "data"); BPF_EXIT_INSN];
  _result REJECT;
  _errstr "invalid bpf_context access"].

Definition ctx_skb_64 : bpf_test := TEST "read gso_segs from CGROUP_SKB" [
  _insns
   [BPF_LDX_MEM BPF_W BPF_REG_0 BPF_REG_1 (offsetof __sk_buff "gso_segs");
    BPF_MOV64_IMM BPF_REG_0 0; BPF_EXIT_INSN];
  _result ACCEPT;
  _prog_type BPF_PROG_TYPE_CGROUP_SKB].

Definition ctx_skb_65 : bpf_test := TEST "read gso_segs from CGROUP_SKB" [
  _insns
   [BPF_LDX_MEM BPF_W BPF_REG_1 BPF_REG_1 (offsetof __sk_buff "gso_segs");
    BPF_MOV64_IMM BPF_REG_0 0; BPF_EXIT_INSN];
  _result ACCEPT;
  _prog_type BPF_PROG_TYPE_CGROUP_SKB].

Definition ctx_skb_66 : bpf_test := TEST "write gso_segs from CGROUP_SKB" [
  _insns
   [BPF_MOV64_IMM BPF_REG_0 0;
    BPF_STX_MEM BPF_W BPF_REG_1 BPF_REG_0 (offsetof __sk_buff "gso_segs");
    BPF_MOV64_IMM BPF_REG_0 0; BPF_EXIT_INSN];
  _result REJECT;
  _result_unpriv REJECT;
  _errstr "invalid bpf_context access off=164 size=4";
  _prog_type BPF_PROG_TYPE_CGROUP_SKB].

Definition ctx_skb_67 : bpf_test := TEST "read gso_segs from CLS" [
  _insns
   [BPF_LDX_MEM BPF_W BPF_REG_0 BPF_REG_1 (offsetof __sk_buff "gso_segs");
    BPF_MOV64_IMM BPF_REG_0 0; BPF_EXIT_INSN];
  _result ACCEPT;
  _prog_type BPF_PROG_TYPE_SCHED_CLS].

Definition ctx_skb_68 : bpf_test := TEST "read gso_size from CGROUP_SKB" [
  _insns
   [BPF_LDX_MEM BPF_W BPF_REG_0 BPF_REG_1 (offsetof __sk_buff "gso_size");
    BPF_MOV64_IMM BPF_REG_0 0; BPF_EXIT_INSN];
  _result ACCEPT;
  _prog_type BPF_PROG_TYPE_CGROUP_SKB].

Definition ctx_skb_69 : bpf_test := TEST "read gso_size from CGROUP_SKB" [
  _insns
   [BPF_LDX_MEM BPF_W BPF_REG_1 BPF_REG_1 (offsetof __sk_buff "gso_size");
    BPF_MOV64_IMM BPF_REG_0 0; BPF_EXIT_INSN];
  _result ACCEPT;
  _prog_type BPF_PROG_TYPE_CGROUP_SKB].

Definition ctx_skb_70 : bpf_test := TEST "write gso_size from CGROUP_SKB" [
  _insns
   [BPF_MOV64_IMM BPF_REG_0 0;
    BPF_STX_MEM BPF_W BPF_REG_1 BPF_REG_0 (offsetof __sk_buff "gso_size");
    BPF_MOV64_IMM BPF_REG_0 0; BPF_EXIT_INSN];
  _result REJECT;
  _result_unpriv REJECT;
  _errstr "invalid bpf_context access off=176 size=4";
  _prog_type BPF_PROG_TYPE_CGROUP_SKB].

Definition ctx_skb_71 : bpf_test := TEST "read gso_size from CLS" [
  _insns
   [BPF_LDX_MEM BPF_W BPF_REG_0 BPF_REG_1 (offsetof __sk_buff "gso_size");
    BPF_MOV64_IMM BPF_REG_0 0; BPF_EXIT_INSN];
  _result ACCEPT;
  _prog_type BPF_PROG_TYPE_SCHED_CLS].

Definition ctx_skb_72 : bpf_test := TEST "check wire_len is not readable by sockets" [
  _insns
   [BPF_LDX_MEM BPF_W BPF_REG_0 BPF_REG_1 (offsetof __sk_buff "wire_len"); BPF_EXIT_INSN];
  _errstr "invalid bpf_context access";
  _result REJECT].

Definition ctx_skb_73 : bpf_test := TEST "check wire_len is readable by tc classifier" [
  _insns
   [BPF_LDX_MEM BPF_W BPF_REG_0 BPF_REG_1 (offsetof __sk_buff "wire_len"); BPF_EXIT_INSN];
  _prog_type BPF_PROG_TYPE_SCHED_CLS;
  _result ACCEPT].

Definition ctx_skb_74 : bpf_test := TEST "check wire_len is not writable by tc classifier" [
  _insns
   [BPF_STX_MEM BPF_W BPF_REG_1 BPF_REG_1 (offsetof __sk_buff "wire_len"); BPF_EXIT_INSN];
  _prog_type BPF_PROG_TYPE_SCHED_CLS;
  _errstr "invalid bpf_context access";
  _errstr_unpriv "R1 leaks addr";
  _result REJECT].

Definition ctx_skb_75 : bpf_test := TEST "pkt > pkt_end taken check" [
  _insns
   [BPF_LDX_MEM BPF_W BPF_REG_2 BPF_REG_1 (offsetof __sk_buff "data_end");
    BPF_LDX_MEM BPF_W BPF_REG_4 BPF_REG_1 (offsetof __sk_buff "data");
    BPF_MOV64_REG BPF_REG_3 BPF_REG_4; BPF_ALU64_IMM BPF_ADD BPF_REG_3 42;
    BPF_MOV64_IMM BPF_REG_1 0; BPF_JMP_REG BPF_JGT BPF_REG_3 BPF_REG_2 2;
    BPF_ALU64_IMM BPF_ADD BPF_REG_4 14; BPF_MOV64_REG BPF_REG_1 BPF_REG_4;
    BPF_JMP_REG BPF_JGT BPF_REG_3 BPF_REG_2 1; BPF_LDX_MEM BPF_H BPF_REG_2 BPF_REG_1 9;
    BPF_MOV64_IMM BPF_REG_0 0; BPF_EXIT_INSN];
  _result ACCEPT;
  _prog_type BPF_PROG_TYPE_SK_SKB].

Definition ctx_skb_76 : bpf_test := TEST "pkt_end < pkt taken check" [
  _insns
   [BPF_LDX_MEM BPF_W BPF_REG_2 BPF_REG_1 (offsetof __sk_buff "data_end");
    BPF_LDX_MEM BPF_W BPF_REG_4 BPF_REG_1 (offsetof __sk_buff "data");
    BPF_MOV64_REG BPF_REG_3 BPF_REG_4; BPF_ALU64_IMM BPF_ADD BPF_REG_3 42;
    BPF_MOV64_IMM BPF_REG_1 0; BPF_JMP_REG BPF_JGT BPF_REG_3 BPF_REG_2 2;
    BPF_ALU64_IMM BPF_ADD BPF_REG_4 14; BPF_MOV64_REG BPF_REG_1 BPF_REG_4;
    BPF_JMP_REG BPF_JLT BPF_REG_2 BPF_REG_3 1; BPF_LDX_MEM BPF_H BPF_REG_2 BPF_REG_1 9;
    BPF_MOV64_IMM BPF_REG_0 0; BPF_EXIT_INSN];
  _result ACCEPT;
  _prog_type BPF_PROG_TYPE_SK_SKB].

Definition ctx_skb_tests : list bpf_test := [ctx_skb_1; ctx_skb_2; ctx_skb_3; ctx_skb_4; ctx_skb_5;
  ctx_skb_6; ctx_skb_7; ctx_skb_8; ctx_skb_9; ctx_skb_10; ctx_skb_11; ctx_skb_12; ctx_skb_13;
  ctx_skb_14; ctx_skb_15; ctx_skb_16; ctx_skb_17; ctx_skb_18; ctx_skb_19; ctx_skb_20; ctx_skb_21;
  ctx_skb_22; ctx_skb_23; ctx_skb_24; ctx_skb_25; ctx_skb_26; ctx_skb_27; ctx_skb_28; ctx_skb_29;
  ctx_skb_30; ctx_skb_31; ctx_skb_32; ctx_skb_33; ctx_skb_34; ctx_skb_35; ctx_skb_36; ctx_skb_37;
  ctx_skb_38; ctx_skb_39; ctx_skb_40; ctx_skb_41; ctx_skb_42; ctx_skb_43; ctx_skb_44; ctx_skb_45;
  ctx_skb_46; ctx_skb_47; ctx_skb_48; ctx_skb_49; ctx_skb_50; ctx_skb_51; ctx_skb_52; ctx_skb_53;
  ctx_skb_54; ctx_skb_55; ctx_skb_56; ctx_skb_57; ctx_skb_58; ctx_skb_59; ctx_skb_60; ctx_skb_61;
  ctx_skb_62; ctx_skb_63; ctx_skb_64; ctx_skb_65; ctx_skb_66; ctx_skb_67; ctx_skb_68; ctx_skb_69;
  ctx_skb_70; ctx_skb_71; ctx_skb_72; ctx_skb_73; ctx_skb_74; ctx_skb_75; ctx_skb_76].

(** * [unpriv.c] *)

Definition unpriv_1 : bpf_test := TEST "unpriv: return pointer" [
  _insns
   [BPF_MOV64_REG BPF_REG_0 BPF_REG_10; BPF_EXIT_INSN];
  _result ACCEPT;
  _result_unpriv REJECT;
  _errstr_unpriv "R0 leaks addr";
  _retval POINTER_VALUE].

Definition unpriv_2 : bpf_test := TEST "unpriv: add const to pointer" [
  _insns
   [BPF_ALU64_IMM BPF_ADD BPF_REG_1 8; BPF_MOV64_IMM BPF_REG_0 0; BPF_EXIT_INSN];
  _result ACCEPT].

Definition unpriv_3 : bpf_test := TEST "unpriv: add pointer to pointer" [
  _insns
   [BPF_ALU64_REG BPF_ADD BPF_REG_1 BPF_REG_10; BPF_MOV64_IMM BPF_REG_0 0; BPF_EXIT_INSN];
  _result REJECT;
  _errstr "R1 pointer += pointer"].

Definition unpriv_4 : bpf_test := TEST "unpriv: neg pointer" [
  _insns
   [BPF_ALU64_IMM BPF_NEG BPF_REG_1 0; BPF_MOV64_IMM BPF_REG_0 0; BPF_EXIT_INSN];
  _result ACCEPT;
  _result_unpriv REJECT;
  _errstr_unpriv "R1 pointer arithmetic"].

Definition unpriv_5 : bpf_test := TEST "unpriv: cmp pointer with const" [
  _insns
   [BPF_JMP_IMM BPF_JEQ BPF_REG_1 0 0; BPF_MOV64_IMM BPF_REG_0 0; BPF_EXIT_INSN];
  _result ACCEPT;
  _result_unpriv REJECT;
  _errstr_unpriv "R1 pointer comparison"].

Definition unpriv_6 : bpf_test := TEST "unpriv: cmp pointer with pointer" [
  _insns
   [BPF_JMP_REG BPF_JEQ BPF_REG_1 BPF_REG_10 0; BPF_MOV64_IMM BPF_REG_0 0; BPF_EXIT_INSN];
  _result ACCEPT;
  _result_unpriv REJECT;
  _errstr_unpriv "R10 pointer comparison"].

Definition unpriv_7 : bpf_test := TEST "unpriv: check that printk is disallowed" [
  _insns
   [BPF_ST_MEM BPF_DW BPF_REG_10 (-8) 0; BPF_MOV64_REG BPF_REG_1 BPF_REG_10;
    BPF_ALU64_IMM BPF_ADD BPF_REG_1 (-8); BPF_MOV64_IMM BPF_REG_2 8;
    BPF_MOV64_REG BPF_REG_3 BPF_REG_1;
    BPF_RAW_INSN (BPF_JMP .| BPF_CALL) 0 0 0 BPF_FUNC_trace_printk; BPF_MOV64_IMM BPF_REG_0 0;
    BPF_EXIT_INSN];
  _errstr_unpriv "unknown func bpf_trace_printk#6";
  _result_unpriv REJECT;
  _result ACCEPT;
  _prog_type BPF_PROG_TYPE_TRACEPOINT].

Definition unpriv_8 : bpf_test := TEST "unpriv: pass pointer to helper function" [
  _insns
   [BPF_ST_MEM BPF_DW BPF_REG_10 (-8) 0; BPF_MOV64_REG BPF_REG_2 BPF_REG_10;
    BPF_ALU64_IMM BPF_ADD BPF_REG_2 (-8); BPF_LD_MAP_FD BPF_REG_1 0;
    BPF_MOV64_REG BPF_REG_3 BPF_REG_2; BPF_MOV64_REG BPF_REG_4 BPF_REG_2;
    BPF_RAW_INSN (BPF_JMP .| BPF_CALL) 0 0 0 BPF_FUNC_map_update_elem;
    BPF_MOV64_IMM BPF_REG_0 0; BPF_EXIT_INSN];
  _fixup fixup_map_hash_8b [3];
  _errstr_unpriv "R4 leaks addr";
  _result_unpriv REJECT;
  _result ACCEPT].

Definition unpriv_9 : bpf_test := TEST "unpriv: indirectly pass pointer on stack to helper function" [
  _insns
   [BPF_STX_MEM BPF_DW BPF_REG_10 BPF_REG_10 (-8); BPF_MOV64_REG BPF_REG_2 BPF_REG_10;
    BPF_ALU64_IMM BPF_ADD BPF_REG_2 (-8); BPF_LD_MAP_FD BPF_REG_1 0;
    BPF_RAW_INSN (BPF_JMP .| BPF_CALL) 0 0 0 BPF_FUNC_map_lookup_elem;
    BPF_MOV64_IMM BPF_REG_0 0; BPF_EXIT_INSN];
  _fixup fixup_map_hash_8b [3];
  _errstr_unpriv "invalid indirect read from stack R2 off -8+0 size 8";
  _result_unpriv REJECT;
  _result ACCEPT].

Definition unpriv_10 : bpf_test := TEST "unpriv: mangle pointer on stack 1" [
  _insns
   [BPF_STX_MEM BPF_DW BPF_REG_10 BPF_REG_10 (-8); BPF_ST_MEM BPF_W BPF_REG_10 (-8) 0;
    BPF_MOV64_IMM BPF_REG_0 0; BPF_EXIT_INSN];
  _errstr_unpriv "attempt to corrupt spilled";
  _result_unpriv REJECT;
  _result ACCEPT].

Definition unpriv_11 : bpf_test := TEST "unpriv: mangle pointer on stack 2" [
  _insns
   [BPF_STX_MEM BPF_DW BPF_REG_10 BPF_REG_10 (-8); BPF_ST_MEM BPF_B BPF_REG_10 (-1) 0;
    BPF_MOV64_IMM BPF_REG_0 0; BPF_EXIT_INSN];
  _errstr_unpriv "attempt to corrupt spilled";
  _result_unpriv REJECT;
  _result ACCEPT].

Definition unpriv_12 : bpf_test := TEST "unpriv: read pointer from stack in small chunks" [
  _insns
   [BPF_STX_MEM BPF_DW BPF_REG_10 BPF_REG_10 (-8); BPF_LDX_MEM BPF_W BPF_REG_0 BPF_REG_10 (-8);
    BPF_MOV64_IMM BPF_REG_0 0; BPF_EXIT_INSN];
  _errstr "invalid size";
  _result REJECT].

Definition unpriv_13 : bpf_test := TEST "unpriv: write pointer into ctx" [
  _insns
   [BPF_STX_MEM BPF_DW BPF_REG_1 BPF_REG_1 0; BPF_MOV64_IMM BPF_REG_0 0; BPF_EXIT_INSN];
  _errstr_unpriv "R1 leaks addr";
  _result_unpriv REJECT;
  _errstr "invalid bpf_context access";
  _result REJECT].

Definition unpriv_14 : bpf_test := TEST "unpriv: spill/fill of ctx" [
  _insns
   [BPF_ALU64_REG BPF_MOV BPF_REG_6 BPF_REG_10; BPF_ALU64_IMM BPF_ADD BPF_REG_6 (-8);
    BPF_STX_MEM BPF_DW BPF_REG_6 BPF_REG_1 0; BPF_LDX_MEM BPF_DW BPF_REG_1 BPF_REG_6 0;
    BPF_MOV64_IMM BPF_REG_0 0; BPF_EXIT_INSN];
  _result ACCEPT].

Definition unpriv_15 : bpf_test := TEST "unpriv: spill/fill of ctx 2" [
  _insns
   [BPF_ALU64_REG BPF_MOV BPF_REG_6 BPF_REG_10; BPF_ALU64_IMM BPF_ADD BPF_REG_6 (-8);
    BPF_STX_MEM BPF_DW BPF_REG_6 BPF_REG_1 0; BPF_LDX_MEM BPF_DW BPF_REG_1 BPF_REG_6 0;
    BPF_RAW_INSN (BPF_JMP .| BPF_CALL) 0 0 0 BPF_FUNC_get_hash_recalc;
    BPF_MOV64_IMM BPF_REG_0 0; BPF_EXIT_INSN];
  _result ACCEPT;
  _prog_type BPF_PROG_TYPE_SCHED_CLS].

Definition unpriv_16 : bpf_test := TEST "unpriv: spill/fill of ctx 3" [
  _insns
   [BPF_ALU64_REG BPF_MOV BPF_REG_6 BPF_REG_10; BPF_ALU64_IMM BPF_ADD BPF_REG_6 (-8);
    BPF_STX_MEM BPF_DW BPF_REG_6 BPF_REG_1 0; BPF_STX_MEM BPF_DW BPF_REG_6 BPF_REG_10 0;
    BPF_LDX_MEM BPF_DW BPF_REG_1 BPF_REG_6 0;
    BPF_RAW_INSN (BPF_JMP .| BPF_CALL) 0 0 0 BPF_FUNC_get_hash_recalc; BPF_EXIT_INSN];
  _result REJECT;
  _errstr "R1 type=fp expected=ctx";
  _prog_type BPF_PROG_TYPE_SCHED_CLS].

Definition unpriv_17 : bpf_test := TEST "unpriv: spill/fill of ctx 4" [
  _insns
   [BPF_ALU64_REG BPF_MOV BPF_REG_6 BPF_REG_10; BPF_ALU64_IMM BPF_ADD BPF_REG_6 (-8);
    BPF_STX_MEM BPF_DW BPF_REG_6 BPF_REG_1 0; BPF_MOV64_IMM BPF_REG_0 1;
    BPF_RAW_INSN ((BPF_STX .| BPF_ATOMIC) .| BPF_DW) BPF_REG_10 BPF_REG_0 (-8) BPF_ADD;
    BPF_LDX_MEM BPF_DW BPF_REG_1 BPF_REG_6 0;
    BPF_RAW_INSN (BPF_JMP .| BPF_CALL) 0 0 0 BPF_FUNC_get_hash_recalc; BPF_EXIT_INSN];
  _result REJECT;
  _errstr "R1 type=inv expected=ctx";
  _prog_type BPF_PROG_TYPE_SCHED_CLS].

Definition unpriv_18 : bpf_test := TEST "unpriv: spill/fill of different pointers stx" [
  _insns
   [BPF_MOV64_IMM BPF_REG_3 42; BPF_ALU64_REG BPF_MOV BPF_REG_6 BPF_REG_10;
    BPF_ALU64_IMM BPF_ADD BPF_REG_6 (-8); BPF_JMP_IMM BPF_JEQ BPF_REG_1 0 3;
    BPF_MOV64_REG BPF_REG_2 BPF_REG_10; BPF_ALU64_IMM BPF_ADD BPF_REG_2 (-16);
    BPF_STX_MEM BPF_DW BPF_REG_6 BPF_REG_2 0; BPF_JMP_IMM BPF_JNE BPF_REG_1 0 1;
    BPF_STX_MEM BPF_DW BPF_REG_6 BPF_REG_1 0; BPF_LDX_MEM BPF_DW BPF_REG_1 BPF_REG_6 0;
    BPF_STX_MEM BPF_W BPF_REG_1 BPF_REG_3 (offsetof __sk_buff "mark");
    BPF_MOV64_IMM BPF_REG_0 0; BPF_EXIT_INSN];
  _result REJECT;
  _errstr "same insn cannot be used with different pointers";
  _prog_type BPF_PROG_TYPE_SCHED_CLS].

Definition unpriv_19 : bpf_test := TEST "unpriv: spill/fill of different pointers stx - ctx and sock" [
  _insns
   [BPF_MOV64_REG BPF_REG_8 BPF_REG_1; BPF_SK_LOOKUP_insns BPF_FUNC_sk_lookup_tcp;
    BPF_MOV64_REG BPF_REG_2 BPF_REG_0; BPF_ALU64_REG BPF_MOV BPF_REG_6 BPF_REG_10;
    BPF_ALU64_IMM BPF_ADD BPF_REG_6 (-8); BPF_MOV64_REG BPF_REG_1 BPF_REG_8;
    BPF_JMP_IMM BPF_JEQ BPF_REG_1 0 1; BPF_STX_MEM BPF_DW BPF_REG_6 BPF_REG_2 0;
    BPF_JMP_IMM BPF_JNE BPF_REG_1 0 1; BPF_STX_MEM BPF_DW BPF_REG_6 BPF_REG_1 0;
    BPF_LDX_MEM BPF_DW BPF_REG_1 BPF_REG_6 0; BPF_MOV64_IMM BPF_REG_3 42;
    BPF_STX_MEM BPF_W BPF_REG_1 BPF_REG_3 (offsetof __sk_buff "mark");
    BPF_JMP_IMM BPF_JEQ BPF_REG_1 0 1; BPF_EMIT_CALL BPF_FUNC_sk_release;
    BPF_MOV64_IMM BPF_REG_0 0; BPF_EXIT_INSN];
  _result REJECT;
  _errstr "type=ctx expected=sock";
  _prog_type BPF_PROG_TYPE_SCHED_CLS].

Definition unpriv_20 : bpf_test := TEST "unpriv: spill/fill of different pointers stx - leak sock" [
  _insns
   [BPF_MOV64_REG BPF_REG_8 BPF_REG_1; BPF_SK_LOOKUP_insns BPF_FUNC_sk_lookup_tcp;
    BPF_MOV64_REG BPF_REG_2 BPF_REG_0; BPF_ALU64_REG BPF_MOV BPF_REG_6 BPF_REG_10;
    BPF_ALU64_IMM BPF_ADD BPF_REG_6 (-8); BPF_MOV64_REG BPF_REG_1 BPF_REG_8;
    BPF_JMP_IMM BPF_JEQ BPF_REG_1 0 1; BPF_STX_MEM BPF_DW BPF_REG_6 BPF_REG_2 0;
    BPF_JMP_IMM BPF_JNE BPF_REG_1 0 1; BPF_STX_MEM BPF_DW BPF_REG_6 BPF_REG_1 0;
    BPF_LDX_MEM BPF_DW BPF_REG_1 BPF_REG_6 0; BPF_MOV64_IMM BPF_REG_3 42;
    BPF_STX_MEM BPF_W BPF_REG_1 BPF_REG_3 (offsetof __sk_buff "mark"); BPF_EXIT_INSN];
  _result REJECT;
  _errstr "Unreleased reference";
  _prog_type BPF_PROG_TYPE_SCHED_CLS].

Definition unpriv_21 : bpf_test := TEST "unpriv: spill/fill of different pointers stx - sock and ctx (read)" [
  _insns
   [BPF_MOV64_REG BPF_REG_8 BPF_REG_1; BPF_SK_LOOKUP_insns BPF_FUNC_sk_lookup_tcp;
    BPF_MOV64_REG BPF_REG_2 BPF_REG_0; BPF_ALU64_REG BPF_MOV BPF_REG_6 BPF_REG_10;
    BPF_ALU64_IMM BPF_ADD BPF_REG_6 (-8); BPF_MOV64_REG BPF_REG_1 BPF_REG_8;
    BPF_JMP_IMM BPF_JEQ BPF_REG_1 0 1; BPF_STX_MEM BPF_DW BPF_REG_6 BPF_REG_1 0;
    BPF_JMP_IMM BPF_JNE BPF_REG_1 0 1; BPF_STX_MEM BPF_DW BPF_REG_6 BPF_REG_2 0;
    BPF_LDX_MEM BPF_DW BPF_REG_1 BPF_REG_6 0; BPF_JMP_IMM BPF_JEQ BPF_REG_1 0 2;
    BPF_LDX_MEM BPF_W BPF_REG_3 BPF_REG_1 (offsetof bpf_sock "mark");
    BPF_EMIT_CALL BPF_FUNC_sk_release; BPF_MOV64_IMM BPF_REG_0 0; BPF_EXIT_INSN];
  _result REJECT;
  _errstr "same insn cannot be used with different pointers";
  _prog_type BPF_PROG_TYPE_SCHED_CLS].

Definition unpriv_22 : bpf_test := TEST "unpriv: spill/fill of different pointers stx - sock and ctx (write)" [
  _insns
   [BPF_MOV64_REG BPF_REG_8 BPF_REG_1; BPF_SK_LOOKUP_insns BPF_FUNC_sk_lookup_tcp;
    BPF_MOV64_REG BPF_REG_2 BPF_REG_0; BPF_ALU64_REG BPF_MOV BPF_REG_6 BPF_REG_10;
    BPF_ALU64_IMM BPF_ADD BPF_REG_6 (-8); BPF_MOV64_REG BPF_REG_1 BPF_REG_8;
    BPF_JMP_IMM BPF_JEQ BPF_REG_1 0 1; BPF_STX_MEM BPF_DW BPF_REG_6 BPF_REG_1 0;
    BPF_JMP_IMM BPF_JNE BPF_REG_1 0 1; BPF_STX_MEM BPF_DW BPF_REG_6 BPF_REG_2 0;
    BPF_LDX_MEM BPF_DW BPF_REG_1 BPF_REG_6 0; BPF_JMP_IMM BPF_JEQ BPF_REG_1 0 3;
    BPF_MOV64_IMM BPF_REG_3 42;
    BPF_STX_MEM BPF_W BPF_REG_1 BPF_REG_3 (offsetof bpf_sock "mark");
    BPF_EMIT_CALL BPF_FUNC_sk_release; BPF_MOV64_IMM BPF_REG_0 0; BPF_EXIT_INSN];
  _result REJECT;
  _errstr "cannot write into sock";
  _prog_type BPF_PROG_TYPE_SCHED_CLS].

Definition unpriv_23 : bpf_test := TEST "unpriv: spill/fill of different pointers ldx" [
  _insns
   [BPF_ALU64_REG BPF_MOV BPF_REG_6 BPF_REG_10; BPF_ALU64_IMM BPF_ADD BPF_REG_6 (-8);
    BPF_JMP_IMM BPF_JEQ BPF_REG_1 0 3; BPF_MOV64_REG BPF_REG_2 BPF_REG_10;
    BPF_ALU64_IMM BPF_ADD BPF_REG_2 ((- (s32 (offsetof bpf_perf_event_data "sample_period"))) - 8);
    BPF_STX_MEM BPF_DW BPF_REG_6 BPF_REG_2 0; BPF_JMP_IMM BPF_JNE BPF_REG_1 0 1;
    BPF_STX_MEM BPF_DW BPF_REG_6 BPF_REG_1 0; BPF_LDX_MEM BPF_DW BPF_REG_1 BPF_REG_6 0;
    BPF_LDX_MEM BPF_DW BPF_REG_1 BPF_REG_1 (offsetof bpf_perf_event_data "sample_period");
    BPF_MOV64_IMM BPF_REG_0 0; BPF_EXIT_INSN];
  _result REJECT;
  _errstr "same insn cannot be used with different pointers";
  _prog_type BPF_PROG_TYPE_PERF_EVENT].

Definition unpriv_24 : bpf_test := TEST "unpriv: write pointer into map elem value" [
  _insns
   [BPF_ST_MEM BPF_DW BPF_REG_10 (-8) 0; BPF_MOV64_REG BPF_REG_2 BPF_REG_10;
    BPF_ALU64_IMM BPF_ADD BPF_REG_2 (-8); BPF_LD_MAP_FD BPF_REG_1 0;
    BPF_RAW_INSN (BPF_JMP .| BPF_CALL) 0 0 0 BPF_FUNC_map_lookup_elem;
    BPF_JMP_IMM BPF_JEQ BPF_REG_0 0 1; BPF_STX_MEM BPF_DW BPF_REG_0 BPF_REG_0 0; BPF_EXIT_INSN];
  _fixup fixup_map_hash_8b [3];
  _errstr_unpriv "R0 leaks addr";
  _result_unpriv REJECT;
  _result ACCEPT].

Definition unpriv_25 : bpf_test := TEST "alu32: mov u32 const" [
  _insns
   [BPF_MOV32_IMM BPF_REG_7 0; BPF_ALU32_IMM BPF_AND BPF_REG_7 1;
    BPF_MOV32_REG BPF_REG_0 BPF_REG_7; BPF_JMP_IMM BPF_JEQ BPF_REG_0 0 1;
    BPF_LDX_MEM BPF_DW BPF_REG_0 BPF_REG_7 0; BPF_EXIT_INSN];
  _errstr_unpriv "R7 invalid mem access 'inv'";
  _result_unpriv REJECT;
  _result ACCEPT;
  _retval 0].

Definition unpriv_26 : bpf_test := TEST "unpriv: partial copy of pointer" [
  _insns
   [BPF_MOV32_REG BPF_REG_1 BPF_REG_10; BPF_MOV64_IMM BPF_REG_0 0; BPF_EXIT_INSN];
  _errstr_unpriv "R10 partial copy";
  _result_unpriv REJECT;
  _result ACCEPT].

Definition unpriv_27 : bpf_test := TEST "unpriv: pass pointer to tail_call" [
  _insns
   [BPF_MOV64_REG BPF_REG_3 BPF_REG_1; BPF_LD_MAP_FD BPF_REG_2 0;
    BPF_RAW_INSN (BPF_JMP .| BPF_CALL) 0 0 0 BPF_FUNC_tail_call; BPF_MOV64_IMM BPF_REG_0 0;
    BPF_EXIT_INSN];
  _fixup fixup_prog1 [1];
  _errstr_unpriv "R3 leaks addr into helper";
  _result_unpriv REJECT;
  _result ACCEPT].

Definition unpriv_28 : bpf_test := TEST "unpriv: cmp map pointer with zero" [
  _insns
   [BPF_MOV64_IMM BPF_REG_1 0; BPF_LD_MAP_FD BPF_REG_1 0; BPF_JMP_IMM BPF_JEQ BPF_REG_1 0 0;
    BPF_MOV64_IMM BPF_REG_0 0; BPF_EXIT_INSN];
  _fixup fixup_map_hash_8b [1];
  _errstr_unpriv "R1 pointer comparison";
  _result_unpriv REJECT;
  _result ACCEPT].

Definition unpriv_29 : bpf_test := TEST "unpriv: write into frame pointer" [
  _insns
   [BPF_MOV64_REG BPF_REG_10 BPF_REG_1; BPF_MOV64_IMM BPF_REG_0 0; BPF_EXIT_INSN];
  _errstr "frame pointer is read only";
  _result REJECT].

Definition unpriv_30 : bpf_test := TEST "unpriv: spill/fill frame pointer" [
  _insns
   [BPF_ALU64_REG BPF_MOV BPF_REG_6 BPF_REG_10; BPF_ALU64_IMM BPF_ADD BPF_REG_6 (-8);
    BPF_STX_MEM BPF_DW BPF_REG_6 BPF_REG_10 0; BPF_LDX_MEM BPF_DW BPF_REG_10 BPF_REG_6 0;
    BPF_MOV64_IMM BPF_REG_0 0; BPF_EXIT_INSN];
  _errstr "frame pointer is read only";
  _result REJECT].

Definition unpriv_31 : bpf_test := TEST "unpriv: cmp of frame pointer" [
  _insns
   [BPF_JMP_IMM BPF_JEQ BPF_REG_10 0 0; BPF_MOV64_IMM BPF_REG_0 0; BPF_EXIT_INSN];
  _errstr_unpriv "R10 pointer comparison";
  _result_unpriv REJECT;
  _result ACCEPT].

Definition unpriv_32 : bpf_test := TEST "unpriv: adding of fp, reg" [
  _insns
   [BPF_MOV64_IMM BPF_REG_0 0; BPF_MOV64_IMM BPF_REG_1 0;
    BPF_ALU64_REG BPF_ADD BPF_REG_1 BPF_REG_10; BPF_STX_MEM BPF_DW BPF_REG_1 BPF_REG_0 (-8);
    BPF_EXIT_INSN];
  _errstr_unpriv "R1 stack pointer arithmetic goes out of range";
  _result_unpriv REJECT;
  _result ACCEPT].

Definition unpriv_33 : bpf_test := TEST "unpriv: adding of fp, imm" [
  _insns
   [BPF_MOV64_IMM BPF_REG_0 0; BPF_MOV64_REG BPF_REG_1 BPF_REG_10;
    BPF_ALU64_IMM BPF_ADD BPF_REG_1 0; BPF_STX_MEM BPF_DW BPF_REG_1 BPF_REG_0 (-8);
    BPF_EXIT_INSN];
  _errstr_unpriv "R1 stack pointer arithmetic goes out of range";
  _result_unpriv REJECT;
  _result ACCEPT].

Definition unpriv_34 : bpf_test := TEST "unpriv: cmp of stack pointer" [
  _insns
   [BPF_MOV64_REG BPF_REG_2 BPF_REG_10; BPF_ALU64_IMM BPF_ADD BPF_REG_2 (-8);
    BPF_JMP_IMM BPF_JEQ BPF_REG_2 0 0; BPF_MOV64_IMM BPF_REG_0 0; BPF_EXIT_INSN];
  _errstr_unpriv "R2 pointer comparison";
  _result_unpriv REJECT;
  _result ACCEPT].

Definition unpriv_tests : list bpf_test := [unpriv_1; unpriv_2; unpriv_3; unpriv_4; unpriv_5;
  unpriv_6; unpriv_7; unpriv_8; unpriv_9; unpriv_10; unpriv_11; unpriv_12; unpriv_13; unpriv_14;
  unpriv_15; unpriv_16; unpriv_17; unpriv_18; unpriv_19; unpriv_20; unpriv_21; unpriv_22; unpriv_23;
  unpriv_24; unpriv_25; unpriv_26; unpriv_27; unpriv_28; unpriv_29; unpriv_30; unpriv_31; unpriv_32;
  unpriv_33; unpriv_34].

End LegacyCtx.
