(* ===== verification/LegacyCall.v ===== *)
(** Verifier tests of the repository, calls: subprograms, references, tail calls, sockets.

    Each definition is one element of a file of [selftests/legacy/verifier],
    written with the macros of [BpfInsn] and the designators of [ConvertTests];
    a list per file gives them in the order of the file. *)

From S2P Require Import Prelude BpfInsn ConvertTests.
From Stdlib Require Import ZArith String.
From stdpp Require Import base strings list.
Import BpfInsn ConvertTests.
Open Scope Z_scope.

Module LegacyCall.

(** * [calls.c] *)

Definition calls_1 : bpf_test := TEST "calls: basic sanity" [
  _insns
   [BPF_RAW_INSN (BPF_JMP .| BPF_CALL) 0 1 0 2; BPF_MOV64_IMM BPF_REG_0 1; BPF_EXIT_INSN;
    BPF_MOV64_IMM BPF_REG_0 2; BPF_EXIT_INSN];
  _prog_type BPF_PROG_TYPE_TRACEPOINT;
  _result ACCEPT].

Definition calls_2 : bpf_test := TEST "calls: not on unpriviledged" [
  _insns
   [BPF_RAW_INSN (BPF_JMP .| BPF_CALL) 0 1 0 2; BPF_MOV64_IMM BPF_REG_0 1; BPF_EXIT_INSN;
    BPF_MOV64_IMM BPF_REG_0 2; BPF_EXIT_INSN];
  _errstr_unpriv "loading/calling other bpf or kernel functions are allowed for";
  _result_unpriv REJECT;
  _result ACCEPT;
  _retval 1].

Definition calls_3 : bpf_test := TEST "calls: div by 0 in subprog" [
  _insns
   [BPF_MOV64_REG BPF_REG_6 BPF_REG_1; BPF_RAW_INSN (BPF_JMP .| BPF_CALL) 0 1 0 8;
    BPF_MOV64_REG BPF_REG_1 BPF_REG_6;
    BPF_LDX_MEM BPF_W BPF_REG_1 BPF_REG_1 (offsetof __sk_buff "data_end");
    BPF_MOV64_REG BPF_REG_2 BPF_REG_0; BPF_ALU64_IMM BPF_ADD BPF_REG_2 8;
    BPF_JMP_REG BPF_JGT BPF_REG_2 BPF_REG_1 1; BPF_LDX_MEM BPF_B BPF_REG_0 BPF_REG_0 0;
    BPF_MOV64_IMM BPF_REG_0 1; BPF_EXIT_INSN; BPF_MOV32_IMM BPF_REG_2 0;
    BPF_MOV32_IMM BPF_REG_3 1; BPF_ALU32_REG BPF_DIV BPF_REG_3 BPF_REG_2;
    BPF_LDX_MEM BPF_W BPF_REG_0 BPF_REG_1 (offsetof __sk_buff "data"); BPF_EXIT_INSN];
  _prog_type BPF_PROG_TYPE_SCHED_CLS;
  _result ACCEPT;
  _retval 1].

Definition calls_4 : bpf_test := TEST "calls: multiple ret types in subprog 1" [
  _insns
   [BPF_MOV64_REG BPF_REG_6 BPF_REG_1; BPF_RAW_INSN (BPF_JMP .| BPF_CALL) 0 1 0 8;
    BPF_MOV64_REG BPF_REG_1 BPF_REG_6;
    BPF_LDX_MEM BPF_W BPF_REG_1 BPF_REG_1 (offsetof __sk_buff "data_end");
    BPF_MOV64_REG BPF_REG_2 BPF_REG_0; BPF_ALU64_IMM BPF_ADD BPF_REG_2 8;
    BPF_JMP_REG BPF_JGT BPF_REG_2 BPF_REG_1 1; BPF_LDX_MEM BPF_B BPF_REG_0 BPF_REG_0 0;
    BPF_MOV64_IMM BPF_REG_0 1; BPF_EXIT_INSN;
    BPF_LDX_MEM BPF_W BPF_REG_0 BPF_REG_1 (offsetof __sk_buff "data");
    BPF_JMP_IMM BPF_JNE BPF_REG_0 0 1; BPF_MOV32_IMM BPF_REG_0 42; BPF_EXIT_INSN];
  _prog_type BPF_PROG_TYPE_SCHED_CLS;
  _result REJECT;
  _errstr "R0 invalid mem access 'inv'"].

Definition calls_5 : bpf_test := TEST "calls: multiple ret types in subprog 2" [
  _insns
   [BPF_MOV64_REG BPF_REG_6 BPF_REG_1; BPF_RAW_INSN (BPF_JMP .| BPF_CALL) 0 1 0 8;
    BPF_MOV64_REG BPF_REG_1 BPF_REG_6;
    BPF_LDX_MEM BPF_W BPF_REG_1 BPF_REG_1 (offsetof __sk_buff "data_end");
    BPF_MOV64_REG BPF_REG_2 BPF_REG_0; BPF_ALU64_IMM BPF_ADD BPF_REG_2 8;
    BPF_JMP_REG BPF_JGT BPF_REG_2 BPF_REG_1 1; BPF_LDX_MEM BPF_B BPF_REG_0 BPF_REG_0 0;
    BPF_MOV64_IMM BPF_REG_0 1; BPF_EXIT_INSN;
    BPF_LDX_MEM BPF_W BPF_REG_0 BPF_REG_1 (offsetof __sk_buff "data");
    BPF_MOV64_REG BPF_REG_6 BPF_REG_1; BPF_JMP_IMM BPF_JNE BPF_REG_0 0 9;
    BPF_ST_MEM BPF_DW BPF_REG_10 (-8) 0; BPF_MOV64_REG BPF_REG_2 BPF_REG_10;
    BPF_ALU64_IMM BPF_ADD BPF_REG_2 (-8); BPF_LD_MAP_FD BPF_REG_1 0;
    BPF_RAW_INSN (BPF_JMP .| BPF_CALL) 0 0 0 BPF_FUNC_map_lookup_elem;
    BPF_JMP_IMM BPF_JNE BPF_REG_0 0 1;
    BPF_LDX_MEM BPF_W BPF_REG_0 BPF_REG_6 (offsetof __sk_buff "data");
    BPF_ALU64_IMM BPF_ADD BPF_REG_0 64; BPF_EXIT_INSN];
  _prog_type BPF_PROG_TYPE_SCHED_CLS;
  _fixup fixup_map_hash_8b [16];
  _result REJECT;
  _errstr "R0 min value is outside of the allowed memory range"].

Definition calls_6 : bpf_test := TEST "calls: trigger reg2btf_ids[reg->type] for reg->type > __BPF_REG_TYPE_MAX" [
  _insns
   [BPF_MOV64_REG BPF_REG_1 BPF_REG_10; BPF_ALU64_IMM BPF_ADD BPF_REG_1 (-8);
    BPF_ST_MEM BPF_DW BPF_REG_1 0 0;
    BPF_RAW_INSN (BPF_JMP .| BPF_CALL) 0 BPF_PSEUDO_KFUNC_CALL 0 0;
    BPF_MOV64_REG BPF_REG_1 BPF_REG_0;
    BPF_RAW_INSN (BPF_JMP .| BPF_CALL) 0 BPF_PSEUDO_KFUNC_CALL 0 0; BPF_EXIT_INSN];
  _prog_type BPF_PROG_TYPE_SCHED_CLS;
  _result REJECT;
  _errstr "arg#0 pointer type STRUCT prog_test_ref_kfunc must point";
  _fixup_kfunc_btf_id [("bpf_kfunc_call_test_acquire", 3); ("bpf_kfunc_call_test_release", 5)]%string].

Definition calls_7 : bpf_test := TEST "calls: overlapping caller/callee" [
  _insns
   [BPF_RAW_INSN (BPF_JMP .| BPF_CALL) 0 1 0 0; BPF_MOV64_IMM BPF_REG_0 1; BPF_EXIT_INSN];
  _prog_type BPF_PROG_TYPE_TRACEPOINT;
  _errstr "last insn is not an exit or jmp";
  _result REJECT].

Definition calls_8 : bpf_test := TEST "calls: wrong recursive calls" [
  _insns
   [BPF_JMP_IMM BPF_JA 0 0 4; BPF_JMP_IMM BPF_JA 0 0 4;
    BPF_RAW_INSN (BPF_JMP .| BPF_CALL) 0 1 0 (-2);
    BPF_RAW_INSN (BPF_JMP .| BPF_CALL) 0 1 0 (-2);
    BPF_RAW_INSN (BPF_JMP .| BPF_CALL) 0 1 0 (-2); BPF_MOV64_IMM BPF_REG_0 1; BPF_EXIT_INSN];
  _prog_type BPF_PROG_TYPE_TRACEPOINT;
  _errstr "jump out of range";
  _result REJECT].

Definition calls_9 : bpf_test := TEST "calls: wrong src reg" [
  _insns
   [BPF_RAW_INSN (BPF_JMP .| BPF_CALL) 0 3 0 0; BPF_MOV64_IMM BPF_REG_0 1; BPF_EXIT_INSN];
  _prog_type BPF_PROG_TYPE_TRACEPOINT;
  _errstr "BPF_CALL uses reserved fields";
  _result REJECT].

Definition calls_10 : bpf_test := TEST "calls: wrong off value" [
  _insns
   [BPF_RAW_INSN (BPF_JMP .| BPF_CALL) 0 1 (-1) 2; BPF_MOV64_IMM BPF_REG_0 1; BPF_EXIT_INSN;
    BPF_MOV64_IMM BPF_REG_0 2; BPF_EXIT_INSN];
  _prog_type BPF_PROG_TYPE_TRACEPOINT;
  _errstr "BPF_CALL uses reserved fields";
  _result REJECT].

Definition calls_11 : bpf_test := TEST "calls: jump back loop" [
  _insns
   [BPF_RAW_INSN (BPF_JMP .| BPF_CALL) 0 1 0 (-1); BPF_MOV64_IMM BPF_REG_0 1; BPF_EXIT_INSN];
  _prog_type BPF_PROG_TYPE_TRACEPOINT;
  _errstr "back-edge from insn 0 to 0";
  _result REJECT].

Definition calls_12 : bpf_test := TEST "calls: conditional call" [
  _insns
   [BPF_LDX_MEM BPF_W BPF_REG_0 BPF_REG_1 (offsetof __sk_buff "mark");
    BPF_JMP_IMM BPF_JEQ BPF_REG_0 0 3; BPF_RAW_INSN (BPF_JMP .| BPF_CALL) 0 1 0 2;
    BPF_MOV64_IMM BPF_REG_0 1; BPF_EXIT_INSN; BPF_MOV64_IMM BPF_REG_0 2; BPF_EXIT_INSN];
  _prog_type BPF_PROG_TYPE_TRACEPOINT;
  _errstr "jump out of range";
  _result REJECT].

Definition calls_13 : bpf_test := TEST "calls: conditional call 2" [
  _insns
   [BPF_LDX_MEM BPF_W BPF_REG_0 BPF_REG_1 (offsetof __sk_buff "mark");
    BPF_JMP_IMM BPF_JEQ BPF_REG_0 0 3; BPF_RAW_INSN (BPF_JMP .| BPF_CALL) 0 1 0 4;
    BPF_MOV64_IMM BPF_REG_0 1; BPF_EXIT_INSN; BPF_MOV64_IMM BPF_REG_0 2; BPF_EXIT_INSN;
    BPF_MOV64_IMM BPF_REG_0 3; BPF_EXIT_INSN];
  _prog_type BPF_PROG_TYPE_TRACEPOINT;
  _result ACCEPT].

Definition calls_14 : bpf_test := TEST "calls: conditional call 3" [
  _insns
   [BPF_LDX_MEM BPF_W BPF_REG_0 BPF_REG_1 (offsetof __sk_buff "mark");
    BPF_JMP_IMM BPF_JEQ BPF_REG_0 0 3; BPF_JMP_IMM BPF_JA 0 0 4; BPF_MOV64_IMM BPF_REG_0 1;
    BPF_EXIT_INSN; BPF_MOV64_IMM BPF_REG_0 1; BPF_JMP_IMM BPF_JA 0 0 (-6);
    BPF_MOV64_IMM BPF_REG_0 3; BPF_JMP_IMM BPF_JA 0 0 (-6)];
  _prog_type BPF_PROG_TYPE_SOCKET_FILTER;
  _errstr_unpriv "back-edge from insn";
  _result_unpriv REJECT;
  _result ACCEPT;
  _retval 1].

Definition calls_15 : bpf_test := TEST "calls: conditional call 4" [
  _insns
   [BPF_LDX_MEM BPF_W BPF_REG_0 BPF_REG_1 (offsetof __sk_buff "mark");
    BPF_JMP_IMM BPF_JEQ BPF_REG_0 0 3; BPF_RAW_INSN (BPF_JMP .| BPF_CALL) 0 1 0 4;
    BPF_MOV64_IMM BPF_REG_0 1; BPF_EXIT_INSN; BPF_MOV64_IMM BPF_REG_0 1;
    BPF_JMP_IMM BPF_JA 0 0 (-5); BPF_MOV64_IMM BPF_REG_0 3; BPF_EXIT_INSN];
  _prog_type BPF_PROG_TYPE_TRACEPOINT;
  _result ACCEPT].

Definition calls_16 : bpf_test := TEST "calls: conditional call 5" [
  _insns
   [BPF_LDX_MEM BPF_W BPF_REG_0 BPF_REG_1 (offsetof __sk_buff "mark");
    BPF_JMP_IMM BPF_JEQ BPF_REG_0 0 3; BPF_RAW_INSN (BPF_JMP .| BPF_CALL) 0 1 0 4;
    BPF_MOV64_IMM BPF_REG_0 1; BPF_EXIT_INSN; BPF_MOV64_IMM BPF_REG_0 1;
    BPF_JMP_IMM BPF_JA 0 0 (-6); BPF_MOV64_IMM BPF_REG_0 3; BPF_EXIT_INSN];
  _prog_type BPF_PROG_TYPE_SCHED_CLS;
  _result ACCEPT;
  _retval 1].

Definition calls_17 : bpf_test := TEST "calls: conditional call 6" [
  _insns
   [BPF_MOV64_REG BPF_REG_6 BPF_REG_1; BPF_MOV64_REG BPF_REG_1 BPF_REG_6;
    BPF_RAW_INSN (BPF_JMP .| BPF_CALL) 0 1 0 2; BPF_JMP_IMM BPF_JEQ BPF_REG_0 0 (-3);
    BPF_EXIT_INSN; BPF_LDX_MEM BPF_W BPF_REG_0 BPF_REG_1 (offsetof __sk_buff "mark");
    BPF_EXIT_INSN];
  _prog_type BPF_PROG_TYPE_SCHED_CLS;
  _errstr "infinite loop detected";
  _result REJECT].

Definition calls_18 : bpf_test := TEST "calls: using r0 returned by callee" [
  _insns
   [BPF_RAW_INSN (BPF_JMP .| BPF_CALL) 0 1 0 1; BPF_EXIT_INSN; BPF_MOV64_IMM BPF_REG_0 2;
    BPF_EXIT_INSN];
  _prog_type BPF_PROG_TYPE_TRACEPOINT;
  _result ACCEPT].

Definition calls_19 : bpf_test := TEST "calls: using uninit r0 from callee" [
  _insns
   [BPF_RAW_INSN (BPF_JMP .| BPF_CALL) 0 1 0 1; BPF_EXIT_INSN; BPF_EXIT_INSN];
  _prog_type BPF_PROG_TYPE_TRACEPOINT;
  _errstr "!read_ok";
  _result REJECT].

Definition calls_20 : bpf_test := TEST "calls: callee is using r1" [
  _insns
   [BPF_RAW_INSN (BPF_JMP .| BPF_CALL) 0 1 0 1; BPF_EXIT_INSN;
    BPF_LDX_MEM BPF_W BPF_REG_0 BPF_REG_1 (offsetof __sk_buff "len"); BPF_EXIT_INSN];
  _prog_type BPF_PROG_TYPE_SCHED_ACT;
  _result ACCEPT;
  _retval TEST_DATA_LEN].

Definition calls_21 : bpf_test := TEST "calls: callee using args1" [
  _insns
   [BPF_RAW_INSN (BPF_JMP .| BPF_CALL) 0 1 0 1; BPF_EXIT_INSN;
    BPF_MOV64_REG BPF_REG_0 BPF_REG_1; BPF_EXIT_INSN];
  _errstr_unpriv "allowed for";
  _result_unpriv REJECT;
  _result ACCEPT;
  _retval POINTER_VALUE].

Definition calls_22 : bpf_test := TEST "calls: callee using wrong args2" [
  _insns
   [BPF_RAW_INSN (BPF_JMP .| BPF_CALL) 0 1 0 1; BPF_EXIT_INSN;
    BPF_MOV64_REG BPF_REG_0 BPF_REG_2; BPF_EXIT_INSN];
  _prog_type BPF_PROG_TYPE_TRACEPOINT;
  _errstr "R2 !read_ok";
  _result REJECT].

Definition calls_23 : bpf_test := TEST "calls: callee using two args" [
  _insns
   [BPF_MOV64_REG BPF_REG_6 BPF_REG_1;
    BPF_LDX_MEM BPF_W BPF_REG_1 BPF_REG_6 (offsetof __sk_buff "len");
    BPF_LDX_MEM BPF_W BPF_REG_2 BPF_REG_6 (offsetof __sk_buff "len");
    BPF_RAW_INSN (BPF_JMP .| BPF_CALL) 0 1 0 1; BPF_EXIT_INSN;
    BPF_MOV64_REG BPF_REG_0 BPF_REG_1; BPF_ALU64_REG BPF_ADD BPF_REG_0 BPF_REG_2; BPF_EXIT_INSN];
  _errstr_unpriv "allowed for";
  _result_unpriv REJECT;
  _result ACCEPT;
  _retval (((TEST_DATA_LEN + TEST_DATA_LEN) - ETH_HLEN) - ETH_HLEN)].

Definition calls_24 : bpf_test := TEST "calls: callee changing pkt pointers" [
  _insns
   [BPF_LDX_MEM BPF_W BPF_REG_6 BPF_REG_1 (offsetof xdp_md "data");
    BPF_LDX_MEM BPF_W BPF_REG_7 BPF_REG_1 (offsetof xdp_md "data_end");
    BPF_MOV64_REG BPF_REG_8 BPF_REG_6; BPF_ALU64_IMM BPF_ADD BPF_REG_8 8;
    BPF_JMP_REG BPF_JGT BPF_REG_8 BPF_REG_7 2; BPF_RAW_INSN (BPF_JMP .| BPF_CALL) 0 1 0 3;
    BPF_LDX_MEM BPF_DW BPF_REG_0 BPF_REG_6 0; BPF_MOV32_IMM BPF_REG_0 0; BPF_EXIT_INSN;
    BPF_MOV64_IMM BPF_REG_2 0;
    BPF_RAW_INSN (BPF_JMP .| BPF_CALL) 0 0 0 BPF_FUNC_xdp_adjust_head; BPF_EXIT_INSN];
  _result REJECT;
  _errstr "R6 invalid mem access 'inv'";
  _prog_type BPF_PROG_TYPE_XDP;
  _flags F_NEEDS_EFFICIENT_UNALIGNED_ACCESS].

Definition calls_25 : bpf_test := TEST "calls: ptr null check in subprog" [
  _insns
   [BPF_ST_MEM BPF_DW BPF_REG_10 (-8) 0; BPF_MOV64_REG BPF_REG_2 BPF_REG_10;
    BPF_ALU64_IMM BPF_ADD BPF_REG_2 (-8); BPF_LD_MAP_FD BPF_REG_1 0;
    BPF_EMIT_CALL BPF_FUNC_map_lookup_elem; BPF_MOV64_REG BPF_REG_1 BPF_REG_0;
    BPF_MOV64_REG BPF_REG_6 BPF_REG_0; BPF_RAW_INSN (BPF_JMP .| BPF_CALL) 0 1 0 3;
    BPF_JMP_IMM BPF_JEQ BPF_REG_0 0 1; BPF_LDX_MEM BPF_B BPF_REG_0 BPF_REG_6 0; BPF_EXIT_INSN;
    BPF_MOV64_IMM BPF_REG_0 0; BPF_JMP_IMM BPF_JEQ BPF_REG_1 0 1; BPF_MOV64_IMM BPF_REG_0 1;
    BPF_EXIT_INSN];
  _errstr_unpriv "loading/calling other bpf or kernel functions are allowed for";
  _fixup fixup_map_hash_48b [3];
  _result_unpriv REJECT;
  _result ACCEPT;
  _retval 0].

Definition calls_26 : bpf_test := TEST "calls: two calls with args" [
  _insns
   [BPF_RAW_INSN (BPF_JMP .| BPF_CALL) 0 1 0 1; BPF_EXIT_INSN;
    BPF_MOV64_REG BPF_REG_6 BPF_REG_1; BPF_RAW_INSN (BPF_JMP .| BPF_CALL) 0 1 0 6;
    BPF_MOV64_REG BPF_REG_7 BPF_REG_0; BPF_MOV64_REG BPF_REG_1 BPF_REG_6;
    BPF_RAW_INSN (BPF_JMP .| BPF_CALL) 0 1 0 3; BPF_ALU64_REG BPF_ADD BPF_REG_7 BPF_REG_0;
    BPF_MOV64_REG BPF_REG_0 BPF_REG_7; BPF_EXIT_INSN;
    BPF_LDX_MEM BPF_W BPF_REG_0 BPF_REG_1 (offsetof __sk_buff "len"); BPF_EXIT_INSN];
  _prog_type BPF_PROG_TYPE_SCHED_CLS;
  _result ACCEPT;
  _retval (TEST_DATA_LEN + TEST_DATA_LEN)].

Definition calls_27 : bpf_test := TEST "calls: calls with stack arith" [
  _insns
   [BPF_MOV64_REG BPF_REG_2 BPF_REG_10; BPF_ALU64_IMM BPF_ADD BPF_REG_2 (-64);
    BPF_RAW_INSN (BPF_JMP .| BPF_CALL) 0 1 0 1; BPF_EXIT_INSN;
    BPF_ALU64_IMM BPF_ADD BPF_REG_2 (-64); BPF_RAW_INSN (BPF_JMP .| BPF_CALL) 0 1 0 1;
    BPF_EXIT_INSN; BPF_ALU64_IMM BPF_ADD BPF_REG_2 (-64); BPF_MOV64_IMM BPF_REG_0 42;
    BPF_STX_MEM BPF_DW BPF_REG_2 BPF_REG_0 0; BPF_EXIT_INSN];
  _prog_type BPF_PROG_TYPE_SCHED_CLS;
  _result ACCEPT;
  _retval 42].

Definition calls_28 : bpf_test := TEST "calls: calls with misaligned stack access" [
  _insns
   [BPF_MOV64_REG BPF_REG_2 BPF_REG_10; BPF_ALU64_IMM BPF_ADD BPF_REG_2 (-63);
    BPF_RAW_INSN (BPF_JMP .| BPF_CALL) 0 1 0 1; BPF_EXIT_INSN;
    BPF_ALU64_IMM BPF_ADD BPF_REG_2 (-61); BPF_RAW_INSN (BPF_JMP .| BPF_CALL) 0 1 0 1;
    BPF_EXIT_INSN; BPF_ALU64_IMM BPF_ADD BPF_REG_2 (-63); BPF_MOV64_IMM BPF_REG_0 42;
    BPF_STX_MEM BPF_DW BPF_REG_2 BPF_REG_0 0; BPF_EXIT_INSN];
  _prog_type BPF_PROG_TYPE_SCHED_CLS;
  _flags F_LOAD_WITH_STRICT_ALIGNMENT;
  _errstr "misaligned stack access";
  _result REJECT].

Definition calls_29 : bpf_test := TEST "calls: calls control flow, jump test" [
  _insns
   [BPF_MOV64_IMM BPF_REG_0 42; BPF_JMP_IMM BPF_JA 0 0 2; BPF_MOV64_IMM BPF_REG_0 43;
    BPF_JMP_IMM BPF_JA 0 0 1; BPF_JMP_IMM BPF_JA 0 0 (-3); BPF_EXIT_INSN];
  _prog_type BPF_PROG_TYPE_SCHED_CLS;
  _result ACCEPT;
  _retval 43].

Definition calls_30 : bpf_test := TEST "calls: calls control flow, jump test 2" [
  _insns
   [BPF_MOV64_IMM BPF_REG_0 42; BPF_JMP_IMM BPF_JA 0 0 2; BPF_MOV64_IMM BPF_REG_0 43;
    BPF_JMP_IMM BPF_JA 0 0 1; BPF_RAW_INSN (BPF_JMP .| BPF_CALL) 0 1 0 (-3); BPF_EXIT_INSN];
  _prog_type BPF_PROG_TYPE_SCHED_CLS;
  _errstr "jump out of range from insn 1 to 4";
  _result REJECT].

Definition calls_31 : bpf_test := TEST "calls: two calls with bad jump" [
  _insns
   [BPF_RAW_INSN (BPF_JMP .| BPF_CALL) 0 1 0 1; BPF_EXIT_INSN;
    BPF_MOV64_REG BPF_REG_6 BPF_REG_1; BPF_RAW_INSN (BPF_JMP .| BPF_CALL) 0 1 0 6;
    BPF_MOV64_REG BPF_REG_7 BPF_REG_0; BPF_MOV64_REG BPF_REG_1 BPF_REG_6;
    BPF_RAW_INSN (BPF_JMP .| BPF_CALL) 0 1 0 3; BPF_ALU64_REG BPF_ADD BPF_REG_7 BPF_REG_0;
    BPF_MOV64_REG BPF_REG_0 BPF_REG_7; BPF_EXIT_INSN;
    BPF_LDX_MEM BPF_W BPF_REG_0 BPF_REG_1 (offsetof __sk_buff "len");
    BPF_JMP_IMM BPF_JEQ BPF_REG_0 0 (-3); BPF_EXIT_INSN];
  _prog_type BPF_PROG_TYPE_TRACEPOINT;
  _errstr "jump out of range from insn 11 to 9";
  _result REJECT].

Definition calls_32 : bpf_test := TEST "calls: recursive call. test1" [
  _insns
   [BPF_RAW_INSN (BPF_JMP .| BPF_CALL) 0 1 0 1; BPF_EXIT_INSN;
    BPF_RAW_INSN (BPF_JMP .| BPF_CALL) 0 1 0 (-1); BPF_EXIT_INSN];
  _prog_type BPF_PROG_TYPE_TRACEPOINT;
  _errstr "back-edge";
  _result REJECT].

Definition calls_33 : bpf_test := TEST "calls: recursive call. test2" [
  _insns
   [BPF_RAW_INSN (BPF_JMP .| BPF_CALL) 0 1 0 1; BPF_EXIT_INSN;
    BPF_RAW_INSN (BPF_JMP .| BPF_CALL) 0 1 0 (-3); BPF_EXIT_INSN];
  _prog_type BPF_PROG_TYPE_TRACEPOINT;
  _errstr "back-edge";
  _result REJECT].

Definition calls_34 : bpf_test := TEST "calls: unreachable code" [
  _insns
   [BPF_RAW_INSN (BPF_JMP .| BPF_CALL) 0 1 0 1; BPF_EXIT_INSN;
    BPF_RAW_INSN (BPF_JMP .| BPF_CALL) 0 1 0 1; BPF_EXIT_INSN; BPF_MOV64_IMM BPF_REG_0 0;
    BPF_EXIT_INSN; BPF_MOV64_IMM BPF_REG_0 0; BPF_EXIT_INSN];
  _prog_type BPF_PROG_TYPE_TRACEPOINT;
  _errstr "unreachable insn 6";
  _result REJECT].

Definition calls_35 : bpf_test := TEST "calls: invalid call" [
  _insns
   [BPF_RAW_INSN (BPF_JMP .| BPF_CALL) 0 1 0 1; BPF_EXIT_INSN;
    BPF_RAW_INSN (BPF_JMP .| BPF_CALL) 0 1 0 (-4); BPF_EXIT_INSN];
  _prog_type BPF_PROG_TYPE_TRACEPOINT;
  _errstr "invalid destination";
  _result REJECT].

Definition calls_36 : bpf_test := TEST "calls: invalid call 2" [
  _insns
   [BPF_RAW_INSN (BPF_JMP .| BPF_CALL) 0 1 0 1; BPF_EXIT_INSN;
    BPF_RAW_INSN (BPF_JMP .| BPF_CALL) 0 1 0 0x7fffffff; BPF_EXIT_INSN];
  _prog_type BPF_PROG_TYPE_TRACEPOINT;
  _errstr "invalid destination";
  _result REJECT].

Definition calls_37 : bpf_test := TEST "calls: jumping across function bodies. test1" [
  _insns
   [BPF_RAW_INSN (BPF_JMP .| BPF_CALL) 0 1 0 2; BPF_MOV64_IMM BPF_REG_0 0; BPF_EXIT_INSN;
    BPF_JMP_IMM BPF_JEQ BPF_REG_1 0 (-3); BPF_EXIT_INSN];
  _prog_type BPF_PROG_TYPE_TRACEPOINT;
  _errstr "jump out of range";
  _result REJECT].

Definition calls_38 : bpf_test := TEST "calls: jumping across function bodies. test2" [
  _insns
   [BPF_JMP_IMM BPF_JEQ BPF_REG_1 0 3; BPF_RAW_INSN (BPF_JMP .| BPF_CALL) 0 1 0 2;
    BPF_MOV64_IMM BPF_REG_0 0; BPF_EXIT_INSN; BPF_EXIT_INSN];
  _prog_type BPF_PROG_TYPE_TRACEPOINT;
  _errstr "jump out of range";
  _result REJECT].

Definition calls_39 : bpf_test := TEST "calls: call without exit" [
  _insns
   [BPF_RAW_INSN (BPF_JMP .| BPF_CALL) 0 1 0 1; BPF_EXIT_INSN;
    BPF_RAW_INSN (BPF_JMP .| BPF_CALL) 0 1 0 1; BPF_EXIT_INSN; BPF_MOV64_IMM BPF_REG_0 0;
    BPF_JMP_IMM BPF_JEQ BPF_REG_1 0 (-2)];
  _prog_type BPF_PROG_TYPE_TRACEPOINT;
  _errstr "not an exit";
  _result REJECT].

Definition calls_40 : bpf_test := TEST "calls: call into middle of ld_imm64" [
  _insns
   [BPF_RAW_INSN (BPF_JMP .| BPF_CALL) 0 1 0 3; BPF_RAW_INSN (BPF_JMP .| BPF_CALL) 0 1 0 3;
    BPF_MOV64_IMM BPF_REG_0 0; BPF_EXIT_INSN; BPF_LD_IMM64 BPF_REG_0 0; BPF_EXIT_INSN];
  _prog_type BPF_PROG_TYPE_TRACEPOINT;
  _errstr "last insn";
  _result REJECT].

Definition calls_41 : bpf_test := TEST "calls: call into middle of other call" [
  _insns
   [BPF_RAW_INSN (BPF_JMP .| BPF_CALL) 0 1 0 3; BPF_RAW_INSN (BPF_JMP .| BPF_CALL) 0 1 0 3;
    BPF_MOV64_IMM BPF_REG_0 0; BPF_EXIT_INSN; BPF_MOV64_IMM BPF_REG_0 0;
    BPF_MOV64_IMM BPF_REG_0 0; BPF_EXIT_INSN];
  _prog_type BPF_PROG_TYPE_TRACEPOINT;
  _errstr "last insn";
  _result REJECT].

Definition calls_42 : bpf_test := TEST "calls: subprog call with ld_abs in main prog" [
  _insns
   [BPF_MOV64_REG BPF_REG_6 BPF_REG_1; BPF_LD_ABS BPF_B 0; BPF_LD_ABS BPF_H 0;
    BPF_LD_ABS BPF_W 0; BPF_MOV64_REG BPF_REG_7 BPF_REG_6; BPF_MOV64_REG BPF_REG_1 BPF_REG_6;
    BPF_RAW_INSN (BPF_JMP .| BPF_CALL) 0 1 0 5; BPF_MOV64_REG BPF_REG_6 BPF_REG_7;
    BPF_LD_ABS BPF_B 0; BPF_LD_ABS BPF_H 0; BPF_LD_ABS BPF_W 0; BPF_EXIT_INSN;
    BPF_MOV64_IMM BPF_REG_2 1; BPF_MOV64_IMM BPF_REG_3 2;
    BPF_RAW_INSN (BPF_JMP .| BPF_CALL) 0 0 0 BPF_FUNC_skb_vlan_push; BPF_EXIT_INSN];
  _prog_type BPF_PROG_TYPE_SCHED_CLS;
  _result ACCEPT].

Definition calls_43 : bpf_test := TEST "calls: two calls with bad fallthrough" [
  _insns
   [BPF_RAW_INSN (BPF_JMP .| BPF_CALL) 0 1 0 1; BPF_EXIT_INSN;
    BPF_MOV64_REG BPF_REG_6 BPF_REG_1; BPF_RAW_INSN (BPF_JMP .| BPF_CALL) 0 1 0 6;
    BPF_MOV64_REG BPF_REG_7 BPF_REG_0; BPF_MOV64_REG BPF_REG_1 BPF_REG_6;
    BPF_RAW_INSN (BPF_JMP .| BPF_CALL) 0 1 0 3; BPF_ALU64_REG BPF_ADD BPF_REG_7 BPF_REG_0;
    BPF_MOV64_REG BPF_REG_0 BPF_REG_7; BPF_MOV64_REG BPF_REG_0 BPF_REG_0;
    BPF_LDX_MEM BPF_W BPF_REG_0 BPF_REG_1 (offsetof __sk_buff "len"); BPF_EXIT_INSN];
  _prog_type BPF_PROG_TYPE_TRACEPOINT;
  _errstr "not an exit";
  _result REJECT].

Definition calls_44 : bpf_test := TEST "calls: two calls with stack read" [
  _insns
   [BPF_ST_MEM BPF_DW BPF_REG_10 (-8) 0; BPF_MOV64_REG BPF_REG_1 BPF_REG_10;
    BPF_ALU64_IMM BPF_ADD BPF_REG_1 (-8); BPF_RAW_INSN (BPF_JMP .| BPF_CALL) 0 1 0 1;
    BPF_EXIT_INSN; BPF_MOV64_REG BPF_REG_6 BPF_REG_1;
    BPF_RAW_INSN (BPF_JMP .| BPF_CALL) 0 1 0 6; BPF_MOV64_REG BPF_REG_7 BPF_REG_0;
    BPF_MOV64_REG BPF_REG_1 BPF_REG_6; BPF_RAW_INSN (BPF_JMP .| BPF_CALL) 0 1 0 3;
    BPF_ALU64_REG BPF_ADD BPF_REG_7 BPF_REG_0; BPF_MOV64_REG BPF_REG_0 BPF_REG_7; BPF_EXIT_INSN;
    BPF_LDX_MEM BPF_W BPF_REG_0 BPF_REG_1 0; BPF_EXIT_INSN];
  _prog_type BPF_PROG_TYPE_XDP;
  _result ACCEPT].

Definition calls_45 : bpf_test := TEST "calls: two calls with stack write" [
  _insns
   [BPF_ST_MEM BPF_DW BPF_REG_10 (-8) 0; BPF_MOV64_REG BPF_REG_1 BPF_REG_10;
    BPF_ALU64_IMM BPF_ADD BPF_REG_1 (-8); BPF_MOV64_REG BPF_REG_2 BPF_REG_10;
    BPF_ALU64_IMM BPF_ADD BPF_REG_2 (-16); BPF_RAW_INSN (BPF_JMP .| BPF_CALL) 0 1 0 2;
    BPF_LDX_MEM BPF_DW BPF_REG_0 BPF_REG_10 (-16); BPF_EXIT_INSN;
    BPF_MOV64_REG BPF_REG_6 BPF_REG_1; BPF_MOV64_REG BPF_REG_7 BPF_REG_2;
    BPF_RAW_INSN (BPF_JMP .| BPF_CALL) 0 1 0 7; BPF_MOV64_REG BPF_REG_8 BPF_REG_0;
    BPF_MOV64_REG BPF_REG_1 BPF_REG_6; BPF_RAW_INSN (BPF_JMP .| BPF_CALL) 0 1 0 4;
    BPF_ALU64_REG BPF_ADD BPF_REG_8 BPF_REG_0; BPF_MOV64_REG BPF_REG_0 BPF_REG_8;
    BPF_STX_MEM BPF_DW BPF_REG_7 BPF_REG_0 0; BPF_EXIT_INSN;
    BPF_LDX_MEM BPF_W BPF_REG_0 BPF_REG_1 0; BPF_EXIT_INSN];
  _prog_type BPF_PROG_TYPE_XDP;
  _result ACCEPT].

Definition calls_46 : bpf_test := TEST "calls: stack overflow using two frames (pre-call access)" [
  _insns
   [BPF_ST_MEM BPF_B BPF_REG_10 (-300) 0; BPF_RAW_INSN (BPF_JMP .| BPF_CALL) 0 1 0 1;
    BPF_EXIT_INSN; BPF_ST_MEM BPF_B BPF_REG_10 (-300) 0; BPF_MOV64_IMM BPF_REG_0 0;
    BPF_EXIT_INSN];
  _prog_type BPF_PROG_TYPE_XDP;
  _errstr "combined stack size";
  _result REJECT].

Definition calls_47 : bpf_test := TEST "calls: stack overflow using two frames (post-call access)" [
  _insns
   [BPF_RAW_INSN (BPF_JMP .| BPF_CALL) 0 1 0 2; BPF_ST_MEM BPF_B BPF_REG_10 (-300) 0;
    BPF_EXIT_INSN; BPF_ST_MEM BPF_B BPF_REG_10 (-300) 0; BPF_MOV64_IMM BPF_REG_0 0;
    BPF_EXIT_INSN];
  _prog_type BPF_PROG_TYPE_XDP;
  _errstr "combined stack size";
  _result REJECT].

Definition calls_48 : bpf_test := TEST "calls: stack depth check using three frames. test1" [
  _insns
   [BPF_RAW_INSN (BPF_JMP .| BPF_CALL) 0 1 0 4; BPF_RAW_INSN (BPF_JMP .| BPF_CALL) 0 1 0 5;
    BPF_ST_MEM BPF_B BPF_REG_10 (-32) 0; BPF_MOV64_IMM BPF_REG_0 0; BPF_EXIT_INSN;
    BPF_ST_MEM BPF_B BPF_REG_10 (-256) 0; BPF_EXIT_INSN;
    BPF_RAW_INSN (BPF_JMP .| BPF_CALL) 0 1 0 (-3); BPF_ST_MEM BPF_B BPF_REG_10 (-64) 0;
    BPF_EXIT_INSN];
  _prog_type BPF_PROG_TYPE_XDP;
  _result ACCEPT].

Definition calls_49 : bpf_test := TEST "calls: stack depth check using three frames. test2" [
  _insns
   [BPF_RAW_INSN (BPF_JMP .| BPF_CALL) 0 1 0 4; BPF_RAW_INSN (BPF_JMP .| BPF_CALL) 0 1 0 5;
    BPF_ST_MEM BPF_B BPF_REG_10 (-32) 0; BPF_MOV64_IMM BPF_REG_0 0; BPF_EXIT_INSN;
    BPF_ST_MEM BPF_B BPF_REG_10 (-64) 0; BPF_EXIT_INSN;
    BPF_RAW_INSN (BPF_JMP .| BPF_CALL) 0 1 0 (-3); BPF_ST_MEM BPF_B BPF_REG_10 (-256) 0;
    BPF_EXIT_INSN];
  _prog_type BPF_PROG_TYPE_XDP;
  _result ACCEPT].

Definition calls_50 : bpf_test := TEST "calls: stack depth check using three frames. test3" [
  _insns
   [BPF_MOV64_REG BPF_REG_6 BPF_REG_1; BPF_RAW_INSN (BPF_JMP .| BPF_CALL) 0 1 0 6;
    BPF_MOV64_REG BPF_REG_1 BPF_REG_6; BPF_RAW_INSN (BPF_JMP .| BPF_CALL) 0 1 0 8;
    BPF_JMP_IMM BPF_JGE BPF_REG_6 0 1; BPF_ST_MEM BPF_B BPF_REG_10 (-64) 0;
    BPF_MOV64_IMM BPF_REG_0 0; BPF_EXIT_INSN; BPF_JMP_IMM BPF_JLT BPF_REG_1 10 1; BPF_EXIT_INSN;
    BPF_ST_MEM BPF_B BPF_REG_10 (-224) 0; BPF_JMP_IMM BPF_JA 0 0 (-3);
    BPF_JMP_IMM BPF_JGT BPF_REG_1 2 1; BPF_RAW_INSN (BPF_JMP .| BPF_CALL) 0 1 0 (-6);
    BPF_ST_MEM BPF_B BPF_REG_10 (-256) 0; BPF_EXIT_INSN];
  _prog_type BPF_PROG_TYPE_XDP;
  _errstr "combined stack";
  _result REJECT].

Definition calls_51 : bpf_test := TEST "calls: stack depth check using three frames. test4" [
  _insns
   [BPF_MOV64_IMM BPF_REG_1 0; BPF_RAW_INSN (BPF_JMP .| BPF_CALL) 0 1 0 6;
    BPF_MOV64_IMM BPF_REG_1 1; BPF_RAW_INSN (BPF_JMP .| BPF_CALL) 0 1 0 4;
    BPF_MOV64_IMM BPF_REG_1 1; BPF_RAW_INSN (BPF_JMP .| BPF_CALL) 0 1 0 7;
    BPF_MOV64_IMM BPF_REG_0 0; BPF_EXIT_INSN; BPF_JMP_IMM BPF_JEQ BPF_REG_1 0 2;
    BPF_ST_MEM BPF_B BPF_REG_10 (-300) 0; BPF_EXIT_INSN;
    BPF_RAW_INSN (BPF_JMP .| BPF_CALL) 0 1 0 1; BPF_EXIT_INSN;
    BPF_JMP_IMM BPF_JEQ BPF_REG_1 0 1; BPF_ST_MEM BPF_B BPF_REG_10 (-300) 0; BPF_EXIT_INSN];
  _prog_type BPF_PROG_TYPE_XDP;
  _result REJECT;
  _errstr "combined stack"].

Definition calls_52 : bpf_test := TEST "calls: stack depth check using three frames. test5" [
  _insns
   [BPF_RAW_INSN (BPF_JMP .| BPF_CALL) 0 1 0 1; BPF_EXIT_INSN;
    BPF_RAW_INSN (BPF_JMP .| BPF_CALL) 0 1 0 1; BPF_EXIT_INSN;
    BPF_RAW_INSN (BPF_JMP .| BPF_CALL) 0 1 0 1; BPF_EXIT_INSN;
    BPF_RAW_INSN (BPF_JMP .| BPF_CALL) 0 1 0 1; BPF_EXIT_INSN;
    BPF_RAW_INSN (BPF_JMP .| BPF_CALL) 0 1 0 1; BPF_EXIT_INSN;
    BPF_RAW_INSN (BPF_JMP .| BPF_CALL) 0 1 0 1; BPF_EXIT_INSN;
    BPF_RAW_INSN (BPF_JMP .| BPF_CALL) 0 1 0 1; BPF_EXIT_INSN;
    BPF_RAW_INSN (BPF_JMP .| BPF_CALL) 0 1 0 1; BPF_EXIT_INSN; BPF_MOV64_IMM BPF_REG_0 0;
    BPF_EXIT_INSN];
  _prog_type BPF_PROG_TYPE_XDP;
  _errstr "call stack";
  _result REJECT].

Definition calls_53 : bpf_test := TEST "calls: stack depth check in dead code" [
  _insns
   [BPF_MOV64_IMM BPF_REG_1 0; BPF_RAW_INSN (BPF_JMP .| BPF_CALL) 0 1 0 1; BPF_EXIT_INSN;
    BPF_JMP_IMM BPF_JEQ BPF_REG_1 0 1; BPF_RAW_INSN (BPF_JMP .| BPF_CALL) 0 1 0 2;
    BPF_MOV64_IMM BPF_REG_0 0; BPF_EXIT_INSN; BPF_RAW_INSN (BPF_JMP .| BPF_CALL) 0 1 0 1;
    BPF_EXIT_INSN; BPF_RAW_INSN (BPF_JMP .| BPF_CALL) 0 1 0 1; BPF_EXIT_INSN;
    BPF_RAW_INSN (BPF_JMP .| BPF_CALL) 0 1 0 1; BPF_EXIT_INSN;
    BPF_RAW_INSN (BPF_JMP .| BPF_CALL) 0 1 0 1; BPF_EXIT_INSN;
    BPF_RAW_INSN (BPF_JMP .| BPF_CALL) 0 1 0 1; BPF_EXIT_INSN;
    BPF_RAW_INSN (BPF_JMP .| BPF_CALL) 0 1 0 1; BPF_EXIT_INSN; BPF_MOV64_IMM BPF_REG_0 0;
    BPF_EXIT_INSN];
  _prog_type BPF_PROG_TYPE_XDP;
  _errstr "call stack";
  _result REJECT].

Definition calls_54 : bpf_test := TEST "calls: spill into caller stack frame" [
  _insns
   [BPF_ST_MEM BPF_DW BPF_REG_10 (-8) 0; BPF_MOV64_REG BPF_REG_1 BPF_REG_10;
    BPF_ALU64_IMM BPF_ADD BPF_REG_1 (-8); BPF_RAW_INSN (BPF_JMP .| BPF_CALL) 0 1 0 1;
    BPF_EXIT_INSN; BPF_STX_MEM BPF_DW BPF_REG_1 BPF_REG_1 0; BPF_MOV64_IMM BPF_REG_0 0;
    BPF_EXIT_INSN];
  _prog_type BPF_PROG_TYPE_XDP;
  _errstr "cannot spill";
  _result REJECT].

Definition calls_55 : bpf_test := TEST "calls: write into caller stack frame" [
  _insns
   [BPF_MOV64_REG BPF_REG_1 BPF_REG_10; BPF_ALU64_IMM BPF_ADD BPF_REG_1 (-8);
    BPF_MOV64_REG BPF_REG_6 BPF_REG_1; BPF_RAW_INSN (BPF_JMP .| BPF_CALL) 0 1 0 2;
    BPF_LDX_MEM BPF_DW BPF_REG_0 BPF_REG_6 0; BPF_EXIT_INSN; BPF_ST_MEM BPF_DW BPF_REG_1 0 42;
    BPF_MOV64_IMM BPF_REG_0 0; BPF_EXIT_INSN];
  _prog_type BPF_PROG_TYPE_XDP;
  _result ACCEPT;
  _retval 42].

Definition calls_56 : bpf_test := TEST "calls: write into callee stack frame" [
  _insns
   [BPF_RAW_INSN (BPF_JMP .| BPF_CALL) 0 1 0 2; BPF_ST_MEM BPF_DW BPF_REG_0 0 42; BPF_EXIT_INSN;
    BPF_MOV64_REG BPF_REG_0 BPF_REG_10; BPF_ALU64_IMM BPF_ADD BPF_REG_0 (-8); BPF_EXIT_INSN];
  _prog_type BPF_PROG_TYPE_XDP;
  _errstr "cannot return stack pointer";
  _result REJECT].

Definition calls_57 : bpf_test := TEST "calls: two calls with stack write and void return" [
  _insns
   [BPF_ST_MEM BPF_DW BPF_REG_10 (-8) 0; BPF_MOV64_REG BPF_REG_1 BPF_REG_10;
    BPF_ALU64_IMM BPF_ADD BPF_REG_1 (-8); BPF_MOV64_REG BPF_REG_2 BPF_REG_10;
    BPF_ALU64_IMM BPF_ADD BPF_REG_2 (-16); BPF_RAW_INSN (BPF_JMP .| BPF_CALL) 0 1 0 2;
    BPF_LDX_MEM BPF_DW BPF_REG_0 BPF_REG_10 (-16); BPF_EXIT_INSN;
    BPF_MOV64_REG BPF_REG_6 BPF_REG_1; BPF_MOV64_REG BPF_REG_7 BPF_REG_2;
    BPF_RAW_INSN (BPF_JMP .| BPF_CALL) 0 1 0 3; BPF_MOV64_REG BPF_REG_1 BPF_REG_7;
    BPF_RAW_INSN (BPF_JMP .| BPF_CALL) 0 1 0 1; BPF_EXIT_INSN; BPF_ST_MEM BPF_DW BPF_REG_1 0 0;
    BPF_EXIT_INSN];
  _prog_type BPF_PROG_TYPE_XDP;
  _result ACCEPT].

Definition calls_58 : bpf_test := TEST "calls: ambiguous return value" [
  _insns
   [BPF_MOV64_REG BPF_REG_6 BPF_REG_1; BPF_RAW_INSN (BPF_JMP .| BPF_CALL) 0 1 0 5;
    BPF_MOV64_REG BPF_REG_1 BPF_REG_0; BPF_MOV64_REG BPF_REG_1 BPF_REG_6;
    BPF_RAW_INSN (BPF_JMP .| BPF_CALL) 0 1 0 2; BPF_MOV64_REG BPF_REG_1 BPF_REG_0;
    BPF_EXIT_INSN; BPF_JMP_IMM BPF_JEQ BPF_REG_1 0 1; BPF_MOV64_IMM BPF_REG_0 0; BPF_EXIT_INSN];
  _errstr_unpriv "allowed for";
  _result_unpriv REJECT;
  _errstr "R0 !read_ok";
  _result REJECT].

Definition calls_59 : bpf_test := TEST "calls: two calls that return map_value" [
  _insns
   [BPF_MOV64_REG BPF_REG_1 BPF_REG_10; BPF_ALU64_IMM BPF_ADD BPF_REG_1 (-8);
    BPF_MOV64_REG BPF_REG_2 BPF_REG_10; BPF_ALU64_IMM BPF_ADD BPF_REG_2 (-16);
    BPF_RAW_INSN (BPF_JMP .| BPF_CALL) 0 1 0 8; BPF_LDX_MEM BPF_DW BPF_REG_0 BPF_REG_10 (-8);
    BPF_JMP_IMM BPF_JEQ BPF_REG_0 0 1; BPF_ST_MEM BPF_DW BPF_REG_0 0 0;
    BPF_LDX_MEM BPF_DW BPF_REG_0 BPF_REG_10 (-16); BPF_JMP_IMM BPF_JEQ BPF_REG_0 0 1;
    BPF_ST_MEM BPF_DW BPF_REG_0 0 0; BPF_MOV64_IMM BPF_REG_0 0; BPF_EXIT_INSN;
    BPF_MOV64_REG BPF_REG_6 BPF_REG_1; BPF_MOV64_REG BPF_REG_7 BPF_REG_2;
    BPF_RAW_INSN (BPF_JMP .| BPF_CALL) 0 1 0 3; BPF_MOV64_REG BPF_REG_1 BPF_REG_7;
    BPF_RAW_INSN (BPF_JMP .| BPF_CALL) 0 1 0 1; BPF_EXIT_INSN;
    BPF_MOV64_REG BPF_REG_6 BPF_REG_1; BPF_ST_MEM BPF_DW BPF_REG_10 (-8) 0;
    BPF_MOV64_REG BPF_REG_2 BPF_REG_10; BPF_ALU64_IMM BPF_ADD BPF_REG_2 (-8);
    BPF_LD_MAP_FD BPF_REG_1 0;
    BPF_RAW_INSN (BPF_JMP .| BPF_CALL) 0 0 0 BPF_FUNC_map_lookup_elem;
    BPF_STX_MEM BPF_DW BPF_REG_6 BPF_REG_0 0; BPF_MOV64_IMM BPF_REG_0 0; BPF_EXIT_INSN];
  _prog_type BPF_PROG_TYPE_XDP;
  _fixup fixup_map_hash_8b [23];
  _result ACCEPT].

Definition calls_60 : bpf_test := TEST "calls: two calls that return map_value with bool condition" [
  _insns
   [BPF_MOV64_REG BPF_REG_1 BPF_REG_10; BPF_ALU64_IMM BPF_ADD BPF_REG_1 (-8);
    BPF_MOV64_REG BPF_REG_2 BPF_REG_10; BPF_ALU64_IMM BPF_ADD BPF_REG_2 (-16);
    BPF_RAW_INSN (BPF_JMP .| BPF_CALL) 0 1 0 2; BPF_MOV64_IMM BPF_REG_0 0; BPF_EXIT_INSN;
    BPF_MOV64_REG BPF_REG_6 BPF_REG_1; BPF_MOV64_REG BPF_REG_7 BPF_REG_2;
    BPF_RAW_INSN (BPF_JMP .| BPF_CALL) 0 1 0 9; BPF_JMP_IMM BPF_JNE BPF_REG_0 1 2;
    BPF_LDX_MEM BPF_DW BPF_REG_0 BPF_REG_6 0; BPF_ST_MEM BPF_DW BPF_REG_0 0 0;
    BPF_MOV64_REG BPF_REG_1 BPF_REG_7; BPF_RAW_INSN (BPF_JMP .| BPF_CALL) 0 1 0 4;
    BPF_JMP_IMM BPF_JNE BPF_REG_0 1 2; BPF_LDX_MEM BPF_DW BPF_REG_0 BPF_REG_7 0;
    BPF_ST_MEM BPF_DW BPF_REG_0 0 0; BPF_EXIT_INSN; BPF_MOV64_REG BPF_REG_6 BPF_REG_1;
    BPF_ST_MEM BPF_DW BPF_REG_10 (-8) 0; BPF_MOV64_REG BPF_REG_2 BPF_REG_10;
    BPF_ALU64_IMM BPF_ADD BPF_REG_2 (-8); BPF_LD_MAP_FD BPF_REG_1 0;
    BPF_RAW_INSN (BPF_JMP .| BPF_CALL) 0 0 0 BPF_FUNC_map_lookup_elem;
    BPF_JMP_IMM BPF_JNE BPF_REG_0 0 2; BPF_MOV64_IMM BPF_REG_0 0; BPF_EXIT_INSN;
    BPF_STX_MEM BPF_DW BPF_REG_6 BPF_REG_0 0; BPF_MOV64_IMM BPF_REG_0 1; BPF_EXIT_INSN];
  _prog_type BPF_PROG_TYPE_XDP;
  _fixup fixup_map_hash_8b [23];
  _result ACCEPT].

Definition calls_61 : bpf_test := TEST "calls: two calls that return map_value with incorrect bool check" [
  _insns
   [BPF_MOV64_REG BPF_REG_1 BPF_REG_10; BPF_ALU64_IMM BPF_ADD BPF_REG_1 (-8);
    BPF_MOV64_REG BPF_REG_2 BPF_REG_10; BPF_ALU64_IMM BPF_ADD BPF_REG_2 (-16);
    BPF_RAW_INSN (BPF_JMP .| BPF_CALL) 0 1 0 2; BPF_MOV64_IMM BPF_REG_0 0; BPF_EXIT_INSN;
    BPF_MOV64_REG BPF_REG_6 BPF_REG_1; BPF_MOV64_REG BPF_REG_7 BPF_REG_2;
    BPF_RAW_INSN (BPF_JMP .| BPF_CALL) 0 1 0 9; BPF_JMP_IMM BPF_JNE BPF_REG_0 1 2;
    BPF_LDX_MEM BPF_DW BPF_REG_0 BPF_REG_6 0; BPF_ST_MEM BPF_DW BPF_REG_0 0 0;
    BPF_MOV64_REG BPF_REG_1 BPF_REG_7; BPF_RAW_INSN (BPF_JMP .| BPF_CALL) 0 1 0 4;
    BPF_JMP_IMM BPF_JNE BPF_REG_0 0 2; BPF_LDX_MEM BPF_DW BPF_REG_0 BPF_REG_7 0;
    BPF_ST_MEM BPF_DW BPF_REG_0 0 0; BPF_EXIT_INSN; BPF_MOV64_REG BPF_REG_6 BPF_REG_1;
    BPF_ST_MEM BPF_DW BPF_REG_10 (-8) 0; BPF_MOV64_REG BPF_REG_2 BPF_REG_10;
    BPF_ALU64_IMM BPF_ADD BPF_REG_2 (-8); BPF_LD_MAP_FD BPF_REG_1 0;
    BPF_RAW_INSN (BPF_JMP .| BPF_CALL) 0 0 0 BPF_FUNC_map_lookup_elem;
    BPF_JMP_IMM BPF_JNE BPF_REG_0 0 2; BPF_MOV64_IMM BPF_REG_0 0; BPF_EXIT_INSN;
    BPF_STX_MEM BPF_DW BPF_REG_6 BPF_REG_0 0; BPF_MOV64_IMM BPF_REG_0 1; BPF_EXIT_INSN];
  _prog_type BPF_PROG_TYPE_XDP;
  _fixup fixup_map_hash_8b [23];
  _result REJECT;
  _errstr "invalid read from stack R7 off=-16 size=8"].

Definition calls_62 : bpf_test := TEST "calls: two calls that receive map_value via arg=ptr_stack_of_caller. test1" [
  _insns
   [BPF_MOV64_REG BPF_REG_1 BPF_REG_10; BPF_ALU64_IMM BPF_ADD BPF_REG_1 (-8);
    BPF_MOV64_REG BPF_REG_2 BPF_REG_10; BPF_ALU64_IMM BPF_ADD BPF_REG_2 (-16);
    BPF_RAW_INSN (BPF_JMP .| BPF_CALL) 0 1 0 2; BPF_MOV64_IMM BPF_REG_0 0; BPF_EXIT_INSN;
    BPF_MOV64_REG BPF_REG_6 BPF_REG_1; BPF_MOV64_REG BPF_REG_7 BPF_REG_2;
    BPF_ST_MEM BPF_DW BPF_REG_10 (-8) 0; BPF_MOV64_REG BPF_REG_2 BPF_REG_10;
    BPF_ALU64_IMM BPF_ADD BPF_REG_2 (-8); BPF_LD_MAP_FD BPF_REG_1 0;
    BPF_RAW_INSN (BPF_JMP .| BPF_CALL) 0 0 0 BPF_FUNC_map_lookup_elem;
    BPF_JMP_IMM BPF_JNE BPF_REG_0 0 2; BPF_MOV64_IMM BPF_REG_8 0; BPF_JMP_IMM BPF_JA 0 0 2;
    BPF_STX_MEM BPF_DW BPF_REG_6 BPF_REG_0 0; BPF_MOV64_IMM BPF_REG_8 1;
    BPF_MOV64_REG BPF_REG_2 BPF_REG_10; BPF_ALU64_IMM BPF_ADD BPF_REG_2 (-8);
    BPF_LD_MAP_FD BPF_REG_1 0;
    BPF_RAW_INSN (BPF_JMP .| BPF_CALL) 0 0 0 BPF_FUNC_map_lookup_elem;
    BPF_JMP_IMM BPF_JNE BPF_REG_0 0 2; BPF_MOV64_IMM BPF_REG_9 0; BPF_JMP_IMM BPF_JA 0 0 2;
    BPF_STX_MEM BPF_DW BPF_REG_7 BPF_REG_0 0; BPF_MOV64_IMM BPF_REG_9 1;
    BPF_MOV64_REG BPF_REG_1 BPF_REG_6; BPF_MOV64_REG BPF_REG_2 BPF_REG_8;
    BPF_MOV64_REG BPF_REG_3 BPF_REG_7; BPF_MOV64_REG BPF_REG_4 BPF_REG_9;
    BPF_RAW_INSN (BPF_JMP .| BPF_CALL) 0 1 0 1; BPF_EXIT_INSN;
    BPF_JMP_IMM BPF_JNE BPF_REG_2 1 2; BPF_LDX_MEM BPF_DW BPF_REG_0 BPF_REG_1 0;
    BPF_ST_MEM BPF_DW BPF_REG_0 0 0; BPF_JMP_IMM BPF_JNE BPF_REG_4 1 2;
    BPF_LDX_MEM BPF_DW BPF_REG_0 BPF_REG_3 0; BPF_ST_MEM BPF_DW BPF_REG_0 2 0; BPF_EXIT_INSN];
  _prog_type BPF_PROG_TYPE_SCHED_CLS;
  _fixup fixup_map_hash_8b [12; 22];
  _result REJECT;
  _errstr "invalid access to map value, value_size=8 off=2 size=8";
  _flags F_NEEDS_EFFICIENT_UNALIGNED_ACCESS].

Definition calls_63 : bpf_test := TEST "calls: two calls that receive map_value via arg=ptr_stack_of_caller. test2" [
  _insns
   [BPF_MOV64_REG BPF_REG_1 BPF_REG_10; BPF_ALU64_IMM BPF_ADD BPF_REG_1 (-8);
    BPF_MOV64_REG BPF_REG_2 BPF_REG_10; BPF_ALU64_IMM BPF_ADD BPF_REG_2 (-16);
    BPF_RAW_INSN (BPF_JMP .| BPF_CALL) 0 1 0 2; BPF_MOV64_IMM BPF_REG_0 0; BPF_EXIT_INSN;
    BPF_MOV64_REG BPF_REG_6 BPF_REG_1; BPF_MOV64_REG BPF_REG_7 BPF_REG_2;
    BPF_ST_MEM BPF_DW BPF_REG_10 (-8) 0; BPF_MOV64_REG BPF_REG_2 BPF_REG_10;
    BPF_ALU64_IMM BPF_ADD BPF_REG_2 (-8); BPF_LD_MAP_FD BPF_REG_1 0;
    BPF_RAW_INSN (BPF_JMP .| BPF_CALL) 0 0 0 BPF_FUNC_map_lookup_elem;
    BPF_JMP_IMM BPF_JNE BPF_REG_0 0 2; BPF_MOV64_IMM BPF_REG_8 0; BPF_JMP_IMM BPF_JA 0 0 2;
    BPF_STX_MEM BPF_DW BPF_REG_6 BPF_REG_0 0; BPF_MOV64_IMM BPF_REG_8 1;
    BPF_MOV64_REG BPF_REG_2 BPF_REG_10; BPF_ALU64_IMM BPF_ADD BPF_REG_2 (-8);
    BPF_LD_MAP_FD BPF_REG_1 0;
    BPF_RAW_INSN (BPF_JMP .| BPF_CALL) 0 0 0 BPF_FUNC_map_lookup_elem;
    BPF_JMP_IMM BPF_JNE BPF_REG_0 0 2; BPF_MOV64_IMM BPF_REG_9 0; BPF_JMP_IMM BPF_JA 0 0 2;
    BPF_STX_MEM BPF_DW BPF_REG_7 BPF_REG_0 0; BPF_MOV64_IMM BPF_REG_9 1;
    BPF_MOV64_REG BPF_REG_1 BPF_REG_6; BPF_MOV64_REG BPF_REG_2 BPF_REG_8;
    BPF_MOV64_REG BPF_REG_3 BPF_REG_7; BPF_MOV64_REG BPF_REG_4 BPF_REG_9;
    BPF_RAW_INSN (BPF_JMP .| BPF_CALL) 0 1 0 1; BPF_EXIT_INSN;
    BPF_JMP_IMM BPF_JNE BPF_REG_2 1 2; BPF_LDX_MEM BPF_DW BPF_REG_0 BPF_REG_1 0;
    BPF_ST_MEM BPF_DW BPF_REG_0 0 0; BPF_JMP_IMM BPF_JNE BPF_REG_4 1 2;
    BPF_LDX_MEM BPF_DW BPF_REG_0 BPF_REG_3 0; BPF_ST_MEM BPF_DW BPF_REG_0 0 0; BPF_EXIT_INSN];
  _prog_type BPF_PROG_TYPE_SCHED_CLS;
  _fixup fixup_map_hash_8b [12; 22];
  _result ACCEPT].

Definition calls_64 : bpf_test := TEST "calls: two jumps that receive map_value via arg=ptr_stack_of_jumper. test3" [
  _insns
   [BPF_MOV64_REG BPF_REG_1 BPF_REG_10; BPF_ALU64_IMM BPF_ADD BPF_REG_1 (-8);
    BPF_MOV64_REG BPF_REG_2 BPF_REG_10; BPF_ALU64_IMM BPF_ADD BPF_REG_2 (-16);
    BPF_JMP_IMM BPF_JNE BPF_REG_1 0 2; BPF_MOV64_IMM BPF_REG_0 0; BPF_EXIT_INSN;
    BPF_MOV64_REG BPF_REG_6 BPF_REG_1; BPF_MOV64_REG BPF_REG_7 BPF_REG_2;
    BPF_ST_MEM BPF_DW BPF_REG_10 (-24) 0; BPF_MOV64_REG BPF_REG_2 BPF_REG_10;
    BPF_ALU64_IMM BPF_ADD BPF_REG_2 (-24); BPF_LD_MAP_FD BPF_REG_1 0;
    BPF_RAW_INSN (BPF_JMP .| BPF_CALL) 0 0 0 BPF_FUNC_map_lookup_elem;
    BPF_JMP_IMM BPF_JNE BPF_REG_0 0 2; BPF_MOV64_IMM BPF_REG_8 0; BPF_JMP_IMM BPF_JA 0 0 2;
    BPF_STX_MEM BPF_DW BPF_REG_6 BPF_REG_0 0; BPF_MOV64_IMM BPF_REG_8 1;
    BPF_MOV64_REG BPF_REG_2 BPF_REG_10; BPF_ALU64_IMM BPF_ADD BPF_REG_2 (-24);
    BPF_LD_MAP_FD BPF_REG_1 0;
    BPF_RAW_INSN (BPF_JMP .| BPF_CALL) 0 0 0 BPF_FUNC_map_lookup_elem;
    BPF_JMP_IMM BPF_JNE BPF_REG_0 0 2; BPF_MOV64_IMM BPF_REG_9 0; BPF_JMP_IMM BPF_JA 0 0 2;
    BPF_STX_MEM BPF_DW BPF_REG_7 BPF_REG_0 0; BPF_MOV64_IMM BPF_REG_9 1;
    BPF_MOV64_REG BPF_REG_1 BPF_REG_6; BPF_MOV64_REG BPF_REG_2 BPF_REG_8;
    BPF_MOV64_REG BPF_REG_3 BPF_REG_7; BPF_MOV64_REG BPF_REG_4 BPF_REG_9;
    BPF_JMP_IMM BPF_JNE BPF_REG_1 0 1; BPF_JMP_IMM BPF_JA 0 0 (-30);
    BPF_JMP_IMM BPF_JNE BPF_REG_2 1 2; BPF_LDX_MEM BPF_DW BPF_REG_0 BPF_REG_1 0;
    BPF_ST_MEM BPF_DW BPF_REG_0 0 0; BPF_JMP_IMM BPF_JNE BPF_REG_4 1 2;
    BPF_LDX_MEM BPF_DW BPF_REG_0 BPF_REG_3 0; BPF_ST_MEM BPF_DW BPF_REG_0 2 0;
    BPF_JMP_IMM BPF_JA 0 0 (-8)];
  _prog_type BPF_PROG_TYPE_SCHED_CLS;
  _fixup fixup_map_hash_8b [12; 22];
  _result REJECT;
  _errstr "invalid access to map value, value_size=8 off=2 size=8";
  _flags F_NEEDS_EFFICIENT_UNALIGNED_ACCESS].

Definition calls_65 : bpf_test := TEST "calls: two calls that receive map_value_ptr_or_null via arg. test1" [
  _insns
   [BPF_MOV64_REG BPF_REG_1 BPF_REG_10; BPF_ALU64_IMM BPF_ADD BPF_REG_1 (-8);
    BPF_MOV64_REG BPF_REG_2 BPF_REG_10; BPF_ALU64_IMM BPF_ADD BPF_REG_2 (-16);
    BPF_RAW_INSN (BPF_JMP .| BPF_CALL) 0 1 0 2; BPF_MOV64_IMM BPF_REG_0 0; BPF_EXIT_INSN;
    BPF_MOV64_REG BPF_REG_6 BPF_REG_1; BPF_MOV64_REG BPF_REG_7 BPF_REG_2;
    BPF_ST_MEM BPF_DW BPF_REG_10 (-8) 0; BPF_MOV64_REG BPF_REG_2 BPF_REG_10;
    BPF_ALU64_IMM BPF_ADD BPF_REG_2 (-8); BPF_LD_MAP_FD BPF_REG_1 0;
    BPF_RAW_INSN (BPF_JMP .| BPF_CALL) 0 0 0 BPF_FUNC_map_lookup_elem;
    BPF_STX_MEM BPF_DW BPF_REG_6 BPF_REG_0 0; BPF_JMP_IMM BPF_JNE BPF_REG_0 0 2;
    BPF_MOV64_IMM BPF_REG_8 0; BPF_JMP_IMM BPF_JA 0 0 1; BPF_MOV64_IMM BPF_REG_8 1;
    BPF_MOV64_REG BPF_REG_2 BPF_REG_10; BPF_ALU64_IMM BPF_ADD BPF_REG_2 (-8);
    BPF_LD_MAP_FD BPF_REG_1 0;
    BPF_RAW_INSN (BPF_JMP .| BPF_CALL) 0 0 0 BPF_FUNC_map_lookup_elem;
    BPF_STX_MEM BPF_DW BPF_REG_7 BPF_REG_0 0; BPF_JMP_IMM BPF_JNE BPF_REG_0 0 2;
    BPF_MOV64_IMM BPF_REG_9 0; BPF_JMP_IMM BPF_JA 0 0 1; BPF_MOV64_IMM BPF_REG_9 1;
    BPF_MOV64_REG BPF_REG_1 BPF_REG_6; BPF_MOV64_REG BPF_REG_2 BPF_REG_8;
    BPF_MOV64_REG BPF_REG_3 BPF_REG_7; BPF_MOV64_REG BPF_REG_4 BPF_REG_9;
    BPF_RAW_INSN (BPF_JMP .| BPF_CALL) 0 1 0 1; BPF_EXIT_INSN;
    BPF_JMP_IMM BPF_JNE BPF_REG_2 1 2; BPF_LDX_MEM BPF_DW BPF_REG_0 BPF_REG_1 0;
    BPF_ST_MEM BPF_DW BPF_REG_0 0 0; BPF_JMP_IMM BPF_JNE BPF_REG_4 1 2;
    BPF_LDX_MEM BPF_DW BPF_REG_0 BPF_REG_3 0; BPF_ST_MEM BPF_DW BPF_REG_0 0 0; BPF_EXIT_INSN];
  _prog_type BPF_PROG_TYPE_SCHED_CLS;
  _fixup fixup_map_hash_8b [12; 22];
  _result ACCEPT].

Definition calls_66 : bpf_test := TEST "calls: two calls that receive map_value_ptr_or_null via arg. test2" [
  _insns
   [BPF_MOV64_REG BPF_REG_1 BPF_REG_10; BPF_ALU64_IMM BPF_ADD BPF_REG_1 (-8);
    BPF_MOV64_REG BPF_REG_2 BPF_REG_10; BPF_ALU64_IMM BPF_ADD BPF_REG_2 (-16);
    BPF_RAW_INSN (BPF_JMP .| BPF_CALL) 0 1 0 2; BPF_MOV64_IMM BPF_REG_0 0; BPF_EXIT_INSN;
    BPF_MOV64_REG BPF_REG_6 BPF_REG_1; BPF_MOV64_REG BPF_REG_7 BPF_REG_2;
    BPF_ST_MEM BPF_DW BPF_REG_10 (-8) 0; BPF_MOV64_REG BPF_REG_2 BPF_REG_10;
    BPF_ALU64_IMM BPF_ADD BPF_REG_2 (-8); BPF_LD_MAP_FD BPF_REG_1 0;
    BPF_RAW_INSN (BPF_JMP .| BPF_CALL) 0 0 0 BPF_FUNC_map_lookup_elem;
    BPF_STX_MEM BPF_DW BPF_REG_6 BPF_REG_0 0; BPF_JMP_IMM BPF_JNE BPF_REG_0 0 2;
    BPF_MOV64_IMM BPF_REG_8 0; BPF_JMP_IMM BPF_JA 0 0 1; BPF_MOV64_IMM BPF_REG_8 1;
    BPF_MOV64_REG BPF_REG_2 BPF_REG_10; BPF_ALU64_IMM BPF_ADD BPF_REG_2 (-8);
    BPF_LD_MAP_FD BPF_REG_1 0;
    BPF_RAW_INSN (BPF_JMP .| BPF_CALL) 0 0 0 BPF_FUNC_map_lookup_elem;
    BPF_STX_MEM BPF_DW BPF_REG_7 BPF_REG_0 0; BPF_JMP_IMM BPF_JNE BPF_REG_0 0 2;
    BPF_MOV64_IMM BPF_REG_9 0; BPF_JMP_IMM BPF_JA 0 0 1; BPF_MOV64_IMM BPF_REG_9 1;
    BPF_MOV64_REG BPF_REG_1 BPF_REG_6; BPF_MOV64_REG BPF_REG_2 BPF_REG_8;
    BPF_MOV64_REG BPF_REG_3 BPF_REG_7; BPF_MOV64_REG BPF_REG_4 BPF_REG_9;
    BPF_RAW_INSN (BPF_JMP .| BPF_CALL) 0 1 0 1; BPF_EXIT_INSN;
    BPF_JMP_IMM BPF_JNE BPF_REG_2 1 2; BPF_LDX_MEM BPF_DW BPF_REG_0 BPF_REG_1 0;
    BPF_ST_MEM BPF_DW BPF_REG_0 0 0; BPF_JMP_IMM BPF_JNE BPF_REG_4 0 2;
    BPF_LDX_MEM BPF_DW BPF_REG_0 BPF_REG_3 0; BPF_ST_MEM BPF_DW BPF_REG_0 0 0; BPF_EXIT_INSN];
  _prog_type BPF_PROG_TYPE_SCHED_CLS;
  _fixup fixup_map_hash_8b [12; 22];
  _result REJECT;
  _errstr "R0 invalid mem access 'inv'"].

Definition calls_67 : bpf_test := TEST "calls: pkt_ptr spill into caller stack" [
  _insns
   [BPF_MOV64_REG BPF_REG_4 BPF_REG_10; BPF_ALU64_IMM BPF_ADD BPF_REG_4 (-8);
    BPF_RAW_INSN (BPF_JMP .| BPF_CALL) 0 1 0 1; BPF_EXIT_INSN;
    BPF_LDX_MEM BPF_W BPF_REG_2 BPF_REG_1 (offsetof __sk_buff "data");
    BPF_LDX_MEM BPF_W BPF_REG_3 BPF_REG_1 (offsetof __sk_buff "data_end");
    BPF_MOV64_REG BPF_REG_0 BPF_REG_2; BPF_ALU64_IMM BPF_ADD BPF_REG_0 8;
    BPF_STX_MEM BPF_DW BPF_REG_4 BPF_REG_2 0; BPF_JMP_REG BPF_JGT BPF_REG_0 BPF_REG_3 2;
    BPF_LDX_MEM BPF_DW BPF_REG_2 BPF_REG_4 0; BPF_ST_MEM BPF_W BPF_REG_2 0 0; BPF_EXIT_INSN];
  _result ACCEPT;
  _prog_type BPF_PROG_TYPE_SCHED_CLS;
  _retval POINTER_VALUE;
  _flags F_NEEDS_EFFICIENT_UNALIGNED_ACCESS].

Definition calls_68 : bpf_test := TEST "calls: pkt_ptr spill into caller stack 2" [
  _insns
   [BPF_MOV64_REG BPF_REG_4 BPF_REG_10; BPF_ALU64_IMM BPF_ADD BPF_REG_4 (-8);
    BPF_RAW_INSN (BPF_JMP .| BPF_CALL) 0 1 0 3; BPF_LDX_MEM BPF_DW BPF_REG_4 BPF_REG_10 (-8);
    BPF_ST_MEM BPF_W BPF_REG_4 0 0; BPF_EXIT_INSN;
    BPF_LDX_MEM BPF_W BPF_REG_2 BPF_REG_1 (offsetof __sk_buff "data");
    BPF_LDX_MEM BPF_W BPF_REG_3 BPF_REG_1 (offsetof __sk_buff "data_end");
    BPF_MOV64_REG BPF_REG_0 BPF_REG_2; BPF_ALU64_IMM BPF_ADD BPF_REG_0 8;
    BPF_STX_MEM BPF_DW BPF_REG_4 BPF_REG_2 0; BPF_JMP_REG BPF_JGT BPF_REG_0 BPF_REG_3 2;
    BPF_LDX_MEM BPF_DW BPF_REG_2 BPF_REG_4 0; BPF_ST_MEM BPF_W BPF_REG_2 0 0; BPF_EXIT_INSN];
  _prog_type BPF_PROG_TYPE_SCHED_CLS;
  _errstr "invalid access to packet";
  _result REJECT;
  _flags F_NEEDS_EFFICIENT_UNALIGNED_ACCESS].

Definition calls_69 : bpf_test := TEST "calls: pkt_ptr spill into caller stack 3" [
  _insns
   [BPF_MOV64_REG BPF_REG_4 BPF_REG_10; BPF_ALU64_IMM BPF_ADD BPF_REG_4 (-8);
    BPF_RAW_INSN (BPF_JMP .| BPF_CALL) 0 1 0 4; BPF_JMP_IMM BPF_JEQ BPF_REG_0 0 2;
    BPF_LDX_MEM BPF_DW BPF_REG_4 BPF_REG_10 (-8); BPF_ST_MEM BPF_W BPF_REG_4 0 0; BPF_EXIT_INSN;
    BPF_LDX_MEM BPF_W BPF_REG_2 BPF_REG_1 (offsetof __sk_buff "data");
    BPF_LDX_MEM BPF_W BPF_REG_3 BPF_REG_1 (offsetof __sk_buff "data_end");
    BPF_MOV64_REG BPF_REG_0 BPF_REG_2; BPF_ALU64_IMM BPF_ADD BPF_REG_0 8;
    BPF_STX_MEM BPF_DW BPF_REG_4 BPF_REG_2 0; BPF_MOV64_IMM BPF_REG_5 0;
    BPF_JMP_REG BPF_JGT BPF_REG_0 BPF_REG_3 3; BPF_MOV64_IMM BPF_REG_5 1;
    BPF_LDX_MEM BPF_DW BPF_REG_2 BPF_REG_4 0; BPF_ST_MEM BPF_W BPF_REG_2 0 0;
    BPF_MOV64_REG BPF_REG_0 BPF_REG_5; BPF_EXIT_INSN];
  _prog_type BPF_PROG_TYPE_SCHED_CLS;
  _result ACCEPT;
  _retval 1;
  _flags F_NEEDS_EFFICIENT_UNALIGNED_ACCESS].

Definition calls_70 : bpf_test := TEST "calls: pkt_ptr spill into caller stack 4" [
  _insns
   [BPF_MOV64_REG BPF_REG_4 BPF_REG_10; BPF_ALU64_IMM BPF_ADD BPF_REG_4 (-8);
    BPF_RAW_INSN (BPF_JMP .| BPF_CALL) 0 1 0 4; BPF_JMP_IMM BPF_JEQ BPF_REG_0 0 2;
    BPF_LDX_MEM BPF_DW BPF_REG_4 BPF_REG_10 (-8); BPF_ST_MEM BPF_W BPF_REG_4 0 0; BPF_EXIT_INSN;
    BPF_LDX_MEM BPF_W BPF_REG_2 BPF_REG_1 (offsetof __sk_buff "data");
    BPF_LDX_MEM BPF_W BPF_REG_3 BPF_REG_1 (offsetof __sk_buff "data_end");
    BPF_MOV64_REG BPF_REG_0 BPF_REG_2; BPF_ALU64_IMM BPF_ADD BPF_REG_0 8;
    BPF_STX_MEM BPF_DW BPF_REG_4 BPF_REG_2 0; BPF_MOV64_IMM BPF_REG_5 0;
    BPF_JMP_REG BPF_JGT BPF_REG_0 BPF_REG_3 2; BPF_MOV64_IMM BPF_REG_5 1;
    BPF_ST_MEM BPF_W BPF_REG_2 0 0; BPF_MOV64_REG BPF_REG_0 BPF_REG_5; BPF_EXIT_INSN];
  _prog_type BPF_PROG_TYPE_SCHED_CLS;
  _result ACCEPT;
  _retval 1;
  _flags F_NEEDS_EFFICIENT_UNALIGNED_ACCESS].

Definition calls_71 : bpf_test := TEST "calls: pkt_ptr spill into caller stack 5" [
  _insns
   [BPF_MOV64_REG BPF_REG_4 BPF_REG_10; BPF_ALU64_IMM BPF_ADD BPF_REG_4 (-8);
    BPF_STX_MEM BPF_DW BPF_REG_4 BPF_REG_1 0; BPF_RAW_INSN (BPF_JMP .| BPF_CALL) 0 1 0 3;
    BPF_LDX_MEM BPF_DW BPF_REG_4 BPF_REG_10 (-8); BPF_LDX_MEM BPF_W BPF_REG_0 BPF_REG_4 0;
    BPF_EXIT_INSN; BPF_LDX_MEM BPF_W BPF_REG_2 BPF_REG_1 (offsetof __sk_buff "data");
    BPF_LDX_MEM BPF_W BPF_REG_3 BPF_REG_1 (offsetof __sk_buff "data_end");
    BPF_MOV64_REG BPF_REG_0 BPF_REG_2; BPF_ALU64_IMM BPF_ADD BPF_REG_0 8;
    BPF_MOV64_IMM BPF_REG_5 0; BPF_JMP_REG BPF_JGT BPF_REG_0 BPF_REG_3 3;
    BPF_STX_MEM BPF_DW BPF_REG_4 BPF_REG_2 0; BPF_MOV64_IMM BPF_REG_5 1;
    BPF_ST_MEM BPF_W BPF_REG_2 0 0; BPF_MOV64_REG BPF_REG_0 BPF_REG_5; BPF_EXIT_INSN];
  _prog_type BPF_PROG_TYPE_SCHED_CLS;
  _errstr "same insn cannot be used with different";
  _result REJECT;
  _flags F_NEEDS_EFFICIENT_UNALIGNED_ACCESS].

Definition calls_72 : bpf_test := TEST "calls: pkt_ptr spill into caller stack 6" [
  _insns
   [BPF_LDX_MEM BPF_W BPF_REG_2 BPF_REG_1 (offsetof __sk_buff "data_end");
    BPF_MOV64_REG BPF_REG_4 BPF_REG_10; BPF_ALU64_IMM BPF_ADD BPF_REG_4 (-8);
    BPF_STX_MEM BPF_DW BPF_REG_4 BPF_REG_2 0; BPF_RAW_INSN (BPF_JMP .| BPF_CALL) 0 1 0 3;
    BPF_LDX_MEM BPF_DW BPF_REG_4 BPF_REG_10 (-8); BPF_LDX_MEM BPF_W BPF_REG_0 BPF_REG_4 0;
    BPF_EXIT_INSN; BPF_LDX_MEM BPF_W BPF_REG_2 BPF_REG_1 (offsetof __sk_buff "data");
    BPF_LDX_MEM BPF_W BPF_REG_3 BPF_REG_1 (offsetof __sk_buff "data_end");
    BPF_MOV64_REG BPF_REG_0 BPF_REG_2; BPF_ALU64_IMM BPF_ADD BPF_REG_0 8;
    BPF_MOV64_IMM BPF_REG_5 0; BPF_JMP_REG BPF_JGT BPF_REG_0 BPF_REG_3 3;
    BPF_STX_MEM BPF_DW BPF_REG_4 BPF_REG_2 0; BPF_MOV64_IMM BPF_REG_5 1;
    BPF_ST_MEM BPF_W BPF_REG_2 0 0; BPF_MOV64_REG BPF_REG_0 BPF_REG_5; BPF_EXIT_INSN];
  _prog_type BPF_PROG_TYPE_SCHED_CLS;
  _errstr "R4 invalid mem access";
  _result REJECT;
  _flags F_NEEDS_EFFICIENT_UNALIGNED_ACCESS].

Definition calls_73 : bpf_test := TEST "calls: pkt_ptr spill into caller stack 7" [
  _insns
   [BPF_MOV64_IMM BPF_REG_2 0; BPF_MOV64_REG BPF_REG_4 BPF_REG_10;
    BPF_ALU64_IMM BPF_ADD BPF_REG_4 (-8); BPF_STX_MEM BPF_DW BPF_REG_4 BPF_REG_2 0;
    BPF_RAW_INSN (BPF_JMP .| BPF_CALL) 0 1 0 3; BPF_LDX_MEM BPF_DW BPF_REG_4 BPF_REG_10 (-8);
    BPF_LDX_MEM BPF_W BPF_REG_0 BPF_REG_4 0; BPF_EXIT_INSN;
    BPF_LDX_MEM BPF_W BPF_REG_2 BPF_REG_1 (offsetof __sk_buff "data");
    BPF_LDX_MEM BPF_W BPF_REG_3 BPF_REG_1 (offsetof __sk_buff "data_end");
    BPF_MOV64_REG BPF_REG_0 BPF_REG_2; BPF_ALU64_IMM BPF_ADD BPF_REG_0 8;
    BPF_MOV64_IMM BPF_REG_5 0; BPF_JMP_REG BPF_JGT BPF_REG_0 BPF_REG_3 3;
    BPF_STX_MEM BPF_DW BPF_REG_4 BPF_REG_2 0; BPF_MOV64_IMM BPF_REG_5 1;
    BPF_ST_MEM BPF_W BPF_REG_2 0 0; BPF_MOV64_REG BPF_REG_0 BPF_REG_5; BPF_EXIT_INSN];
  _prog_type BPF_PROG_TYPE_SCHED_CLS;
  _errstr "R4 invalid mem access";
  _result REJECT;
  _flags F_NEEDS_EFFICIENT_UNALIGNED_ACCESS].

Definition calls_74 : bpf_test := TEST "calls: pkt_ptr spill into caller stack 8" [
  _insns
   [BPF_LDX_MEM BPF_W BPF_REG_2 BPF_REG_1 (offsetof __sk_buff "data");
    BPF_LDX_MEM BPF_W BPF_REG_3 BPF_REG_1 (offsetof __sk_buff "data_end");
    BPF_MOV64_REG BPF_REG_0 BPF_REG_2; BPF_ALU64_IMM BPF_ADD BPF_REG_0 8;
    BPF_JMP_REG BPF_JLE BPF_REG_0 BPF_REG_3 1; BPF_EXIT_INSN;
    BPF_MOV64_REG BPF_REG_4 BPF_REG_10; BPF_ALU64_IMM BPF_ADD BPF_REG_4 (-8);
    BPF_STX_MEM BPF_DW BPF_REG_4 BPF_REG_2 0; BPF_RAW_INSN (BPF_JMP .| BPF_CALL) 0 1 0 3;
    BPF_LDX_MEM BPF_DW BPF_REG_4 BPF_REG_10 (-8); BPF_LDX_MEM BPF_W BPF_REG_0 BPF_REG_4 0;
    BPF_EXIT_INSN; BPF_LDX_MEM BPF_W BPF_REG_2 BPF_REG_1 (offsetof __sk_buff "data");
    BPF_LDX_MEM BPF_W BPF_REG_3 BPF_REG_1 (offsetof __sk_buff "data_end");
    BPF_MOV64_REG BPF_REG_0 BPF_REG_2; BPF_ALU64_IMM BPF_ADD BPF_REG_0 8;
    BPF_MOV64_IMM BPF_REG_5 0; BPF_JMP_REG BPF_JGT BPF_REG_0 BPF_REG_3 3;
    BPF_STX_MEM BPF_DW BPF_REG_4 BPF_REG_2 0; BPF_MOV64_IMM BPF_REG_5 1;
    BPF_ST_MEM BPF_W BPF_REG_2 0 0; BPF_MOV64_REG BPF_REG_0 BPF_REG_5; BPF_EXIT_INSN];
  _prog_type BPF_PROG_TYPE_SCHED_CLS;
  _result ACCEPT;
  _flags F_NEEDS_EFFICIENT_UNALIGNED_ACCESS].

Definition calls_75 : bpf_test := TEST "calls: pkt_ptr spill into caller stack 9" [
  _insns
   [BPF_LDX_MEM BPF_W BPF_REG_2 BPF_REG_1 (offsetof __sk_buff "data");
    BPF_LDX_MEM BPF_W BPF_REG_3 BPF_REG_1 (offsetof __sk_buff "data_end");
    BPF_MOV64_REG BPF_REG_0 BPF_REG_2; BPF_ALU64_IMM BPF_ADD BPF_REG_0 8;
    BPF_JMP_REG BPF_JLE BPF_REG_0 BPF_REG_3 1; BPF_EXIT_INSN;
    BPF_MOV64_REG BPF_REG_4 BPF_REG_10; BPF_ALU64_IMM BPF_ADD BPF_REG_4 (-8);
    BPF_STX_MEM BPF_DW BPF_REG_4 BPF_REG_2 0; BPF_RAW_INSN (BPF_JMP .| BPF_CALL) 0 1 0 3;
    BPF_LDX_MEM BPF_DW BPF_REG_4 BPF_REG_10 (-8); BPF_LDX_MEM BPF_W BPF_REG_0 BPF_REG_4 0;
    BPF_EXIT_INSN; BPF_LDX_MEM BPF_W BPF_REG_2 BPF_REG_1 (offsetof __sk_buff "data");
    BPF_LDX_MEM BPF_W BPF_REG_3 BPF_REG_1 (offsetof __sk_buff "data_end");
    BPF_MOV64_REG BPF_REG_0 BPF_REG_2; BPF_ALU64_IMM BPF_ADD BPF_REG_0 8;
    BPF_MOV64_IMM BPF_REG_5 0; BPF_STX_MEM BPF_DW BPF_REG_4 BPF_REG_2 0;
    BPF_JMP_REG BPF_JGT BPF_REG_0 BPF_REG_3 2; BPF_MOV64_IMM BPF_REG_5 1;
    BPF_ST_MEM BPF_W BPF_REG_2 0 0; BPF_MOV64_REG BPF_REG_0 BPF_REG_5; BPF_EXIT_INSN];
  _prog_type BPF_PROG_TYPE_SCHED_CLS;
  _errstr "invalid access to packet";
  _result REJECT;
  _flags F_NEEDS_EFFICIENT_UNALIGNED_ACCESS].

Definition calls_76 : bpf_test := TEST "calls: caller stack init to zero or map_value_or_null" [
  _insns
   [BPF_MOV64_IMM BPF_REG_0 0; BPF_STX_MEM BPF_DW BPF_REG_10 BPF_REG_0 (-8);
    BPF_MOV64_REG BPF_REG_2 BPF_REG_10; BPF_ALU64_IMM BPF_ADD BPF_REG_2 (-8);
    BPF_RAW_INSN (BPF_JMP .| BPF_CALL) 0 1 0 4; BPF_LDX_MEM BPF_DW BPF_REG_0 BPF_REG_10 (-8);
    BPF_JMP_IMM BPF_JEQ BPF_REG_0 0 1; BPF_ST_MEM BPF_W BPF_REG_0 0 0; BPF_EXIT_INSN;
    BPF_JMP_IMM BPF_JEQ BPF_REG_1 0 8; BPF_MOV64_REG BPF_REG_6 BPF_REG_2;
    BPF_MOV64_REG BPF_REG_2 BPF_REG_10; BPF_ALU64_IMM BPF_ADD BPF_REG_2 (-8);
    BPF_LD_MAP_FD BPF_REG_1 0; BPF_ST_MEM BPF_DW BPF_REG_10 (-8) 0;
    BPF_RAW_INSN (BPF_JMP .| BPF_CALL) 0 0 0 BPF_FUNC_map_lookup_elem;
    BPF_STX_MEM BPF_DW BPF_REG_6 BPF_REG_0 0; BPF_EXIT_INSN];
  _fixup fixup_map_hash_8b [13];
  _result ACCEPT;
  _prog_type BPF_PROG_TYPE_XDP].

Definition calls_77 : bpf_test := TEST "calls: stack init to zero and pruning" [
  _insns
   [BPF_ST_MEM BPF_DW BPF_REG_10 (-16) 0; BPF_EMIT_CALL BPF_FUNC_get_prandom_u32;
    BPF_JMP_IMM BPF_JGT BPF_REG_0 2 2; BPF_ST_MEM BPF_DW BPF_REG_10 (-8) 0;
    BPF_JMP_IMM BPF_JA 0 0 0; BPF_MOV64_REG BPF_REG_2 BPF_REG_10;
    BPF_ALU64_IMM BPF_ADD BPF_REG_2 (-8); BPF_LD_MAP_FD BPF_REG_1 0;
    BPF_RAW_INSN (BPF_JMP .| BPF_CALL) 0 0 0 BPF_FUNC_map_lookup_elem;
    BPF_MOV64_IMM BPF_REG_0 0; BPF_EXIT_INSN];
  _fixup fixup_map_hash_48b [7];
  _errstr_unpriv "invalid indirect read from stack R2 off -8+0 size 8";
  _result_unpriv REJECT;
  _result ACCEPT].

Definition calls_78 : bpf_test := TEST "calls: ctx read at start of subprog" [
  _insns
   [BPF_MOV64_REG BPF_REG_6 BPF_REG_1; BPF_RAW_INSN (BPF_JMP .| BPF_CALL) 0 1 0 5;
    BPF_JMP_REG BPF_JSGT BPF_REG_0 BPF_REG_0 0; BPF_MOV64_REG BPF_REG_1 BPF_REG_6;
    BPF_RAW_INSN (BPF_JMP .| BPF_CALL) 0 1 0 2; BPF_MOV64_REG BPF_REG_1 BPF_REG_0;
    BPF_EXIT_INSN; BPF_LDX_MEM BPF_B BPF_REG_9 BPF_REG_1 0; BPF_MOV64_IMM BPF_REG_0 0;
    BPF_EXIT_INSN];
  _prog_type BPF_PROG_TYPE_SOCKET_FILTER;
  _errstr_unpriv "loading/calling other bpf or kernel functions are allowed for";
  _result_unpriv REJECT;
  _result ACCEPT].

Definition calls_79 : bpf_test := TEST "calls: cross frame pruning" [
  _insns
   [BPF_RAW_INSN (BPF_JMP .| BPF_CALL) 0 0 0 BPF_FUNC_get_prandom_u32;
    BPF_MOV64_IMM BPF_REG_8 0; BPF_JMP_IMM BPF_JNE BPF_REG_0 0 1; BPF_MOV64_IMM BPF_REG_8 1;
    BPF_MOV64_REG BPF_REG_1 BPF_REG_8; BPF_RAW_INSN (BPF_JMP .| BPF_CALL) 0 1 0 4;
    BPF_JMP_IMM BPF_JEQ BPF_REG_8 1 1; BPF_LDX_MEM BPF_B BPF_REG_9 BPF_REG_1 0;
    BPF_MOV64_IMM BPF_REG_0 0; BPF_EXIT_INSN; BPF_JMP_IMM BPF_JEQ BPF_REG_1 0 0; BPF_EXIT_INSN];
  _prog_type BPF_PROG_TYPE_SOCKET_FILTER;
  _errstr_unpriv "loading/calling other bpf or kernel functions are allowed for";
  _errstr "!read_ok";
  _result REJECT].

Definition calls_80 : bpf_test := TEST "calls: cross frame pruning - liveness propagation" [
  _insns
   [BPF_RAW_INSN (BPF_JMP .| BPF_CALL) 0 0 0 BPF_FUNC_get_prandom_u32;
    BPF_MOV64_IMM BPF_REG_8 0; BPF_JMP_IMM BPF_JNE BPF_REG_0 0 1; BPF_MOV64_IMM BPF_REG_8 1;
    BPF_RAW_INSN (BPF_JMP .| BPF_CALL) 0 0 0 BPF_FUNC_get_prandom_u32;
    BPF_MOV64_IMM BPF_REG_9 0; BPF_JMP_IMM BPF_JNE BPF_REG_0 0 1; BPF_MOV64_IMM BPF_REG_9 1;
    BPF_MOV64_REG BPF_REG_1 BPF_REG_0; BPF_RAW_INSN (BPF_JMP .| BPF_CALL) 0 1 0 4;
    BPF_JMP_IMM BPF_JEQ BPF_REG_8 1 1; BPF_LDX_MEM BPF_B BPF_REG_1 BPF_REG_2 0;
    BPF_MOV64_IMM BPF_REG_0 0; BPF_EXIT_INSN; BPF_JMP_IMM BPF_JEQ BPF_REG_1 0 0; BPF_EXIT_INSN];
  _prog_type BPF_PROG_TYPE_SOCKET_FILTER;
  _errstr_unpriv "loading/calling other bpf or kernel functions are allowed for";
  _errstr "!read_ok";
  _result REJECT].

Definition calls_tests : list bpf_test := [calls_1; calls_2; calls_3; calls_4; calls_5; calls_6;
  calls_7; calls_8; calls_9; calls_10; calls_11; calls_12; calls_13; calls_14; calls_15; calls_16;
  calls_17; calls_18; calls_19; calls_20; calls_21; calls_22; calls_23; calls_24; calls_25;
  calls_26; calls_27; calls_28; calls_29; calls_30; calls_31; calls_32; calls_33; calls_34;
  calls_35; calls_36; calls_37; calls_38; calls_39; calls_40; calls_41; calls_42; calls_43;
  calls_44; calls_45; calls_46; calls_47; calls_48; calls_49; calls_50; calls_51; calls_52;
  calls_53; calls_54; calls_55; calls_56; calls_57; calls_58; calls_59; calls_60; calls_61;
  calls_62; calls_63; calls_64; calls_65; calls_66; calls_67; calls_68; calls_69; calls_70;
  calls_71; calls_72; calls_73; calls_74; calls_75; calls_76; calls_77; calls_78; calls_79;
  calls_80].

(** * [ref_tracking.c] *)

Definition ref_tracking_1 : bpf_test := TEST "reference tracking: leak potential reference" [
  _insns
   [BPF_SK_LOOKUP_insns BPF_FUNC_sk_lookup_tcp; BPF_MOV64_REG BPF_REG_6 BPF_REG_0;
    BPF_EXIT_INSN];
  _prog_type BPF_PROG_TYPE_SCHED_CLS;
  _errstr "Unreleased reference";
  _result REJECT].

Definition ref_tracking_2 : bpf_test := TEST "reference tracking: leak potential reference to sock_common" [
  _insns
   [BPF_SK_LOOKUP_insns BPF_FUNC_skc_lookup_tcp; BPF_MOV64_REG BPF_REG_6 BPF_REG_0;
    BPF_EXIT_INSN];
  _prog_type BPF_PROG_TYPE_SCHED_CLS;
  _errstr "Unreleased reference";
  _result REJECT].

Definition ref_tracking_3 : bpf_test := TEST "reference tracking: leak potential reference on stack" [
  _insns
   [BPF_SK_LOOKUP_insns BPF_FUNC_sk_lookup_tcp; BPF_MOV64_REG BPF_REG_4 BPF_REG_10;
    BPF_ALU64_IMM BPF_ADD BPF_REG_4 (-8); BPF_STX_MEM BPF_DW BPF_REG_4 BPF_REG_0 0;
    BPF_MOV64_IMM BPF_REG_0 0; BPF_EXIT_INSN];
  _prog_type BPF_PROG_TYPE_SCHED_CLS;
  _errstr "Unreleased reference";
  _result REJECT].

Definition ref_tracking_4 : bpf_test := TEST "reference tracking: leak potential reference on stack 2" [
  _insns
   [BPF_SK_LOOKUP_insns BPF_FUNC_sk_lookup_tcp; BPF_MOV64_REG BPF_REG_4 BPF_REG_10;
    BPF_ALU64_IMM BPF_ADD BPF_REG_4 (-8); BPF_STX_MEM BPF_DW BPF_REG_4 BPF_REG_0 0;
    BPF_MOV64_IMM BPF_REG_0 0; BPF_ST_MEM BPF_DW BPF_REG_4 0 0; BPF_EXIT_INSN];
  _prog_type BPF_PROG_TYPE_SCHED_CLS;
  _errstr "Unreleased reference";
  _result REJECT].

Definition ref_tracking_5 : bpf_test := TEST "reference tracking: zero potential reference" [
  _insns
   [BPF_SK_LOOKUP_insns BPF_FUNC_sk_lookup_tcp; BPF_MOV64_IMM BPF_REG_0 0; BPF_EXIT_INSN];
  _prog_type BPF_PROG_TYPE_SCHED_CLS;
  _errstr "Unreleased reference";
  _result REJECT].

Definition ref_tracking_6 : bpf_test := TEST "reference tracking: zero potential reference to sock_common" [
  _insns
   [BPF_SK_LOOKUP_insns BPF_FUNC_skc_lookup_tcp; BPF_MOV64_IMM BPF_REG_0 0; BPF_EXIT_INSN];
  _prog_type BPF_PROG_TYPE_SCHED_CLS;
  _errstr "Unreleased reference";
  _result REJECT].

Definition ref_tracking_7 : bpf_test := TEST "reference tracking: copy and zero potential references" [
  _insns
   [BPF_SK_LOOKUP_insns BPF_FUNC_sk_lookup_tcp; BPF_MOV64_REG BPF_REG_7 BPF_REG_0;
    BPF_MOV64_IMM BPF_REG_0 0; BPF_MOV64_IMM BPF_REG_7 0; BPF_EXIT_INSN];
  _prog_type BPF_PROG_TYPE_SCHED_CLS;
  _errstr "Unreleased reference";
  _result REJECT].

Definition ref_tracking_8 : bpf_test := TEST "reference tracking: release reference without check" [
  _insns
   [BPF_SK_LOOKUP_insns BPF_FUNC_sk_lookup_tcp; BPF_MOV64_REG BPF_REG_1 BPF_REG_0;
    BPF_MOV64_IMM BPF_REG_2 0; BPF_EMIT_CALL BPF_FUNC_sk_release; BPF_EXIT_INSN];
  _prog_type BPF_PROG_TYPE_SCHED_CLS;
  _errstr "type=sock_or_null expected=sock";
  _result REJECT].

Definition ref_tracking_9 : bpf_test := TEST "reference tracking: release reference to sock_common without check" [
  _insns
   [BPF_SK_LOOKUP_insns BPF_FUNC_skc_lookup_tcp; BPF_MOV64_REG BPF_REG_1 BPF_REG_0;
    BPF_MOV64_IMM BPF_REG_2 0; BPF_EMIT_CALL BPF_FUNC_sk_release; BPF_EXIT_INSN];
  _prog_type BPF_PROG_TYPE_SCHED_CLS;
  _errstr "type=sock_common_or_null expected=sock";
  _result REJECT].

Definition ref_tracking_10 : bpf_test := TEST "reference tracking: release reference" [
  _insns
   [BPF_SK_LOOKUP_insns BPF_FUNC_sk_lookup_tcp; BPF_MOV64_REG BPF_REG_1 BPF_REG_0;
    BPF_JMP_IMM BPF_JEQ BPF_REG_0 0 1; BPF_EMIT_CALL BPF_FUNC_sk_release; BPF_EXIT_INSN];
  _prog_type BPF_PROG_TYPE_SCHED_CLS;
  _result ACCEPT].

Definition ref_tracking_11 : bpf_test := TEST "reference tracking: release reference to sock_common" [
  _insns
   [BPF_SK_LOOKUP_insns BPF_FUNC_skc_lookup_tcp; BPF_MOV64_REG BPF_REG_1 BPF_REG_0;
    BPF_JMP_IMM BPF_JEQ BPF_REG_0 0 1; BPF_EMIT_CALL BPF_FUNC_sk_release; BPF_EXIT_INSN];
  _prog_type BPF_PROG_TYPE_SCHED_CLS;
  _result ACCEPT].

Definition ref_tracking_12 : bpf_test := TEST "reference tracking: release reference 2" [
  _insns
   [BPF_SK_LOOKUP_insns BPF_FUNC_sk_lookup_tcp; BPF_MOV64_REG BPF_REG_1 BPF_REG_0;
    BPF_JMP_IMM BPF_JNE BPF_REG_0 0 1; BPF_EXIT_INSN; BPF_EMIT_CALL BPF_FUNC_sk_release;
    BPF_EXIT_INSN];
  _prog_type BPF_PROG_TYPE_SCHED_CLS;
  _result ACCEPT].

Definition ref_tracking_13 : bpf_test := TEST "reference tracking: release reference twice" [
  _insns
   [BPF_SK_LOOKUP_insns BPF_FUNC_sk_lookup_tcp; BPF_MOV64_REG BPF_REG_1 BPF_REG_0;
    BPF_MOV64_REG BPF_REG_6 BPF_REG_0; BPF_JMP_IMM BPF_JEQ BPF_REG_0 0 1;
    BPF_EMIT_CALL BPF_FUNC_sk_release; BPF_MOV64_REG BPF_REG_1 BPF_REG_6;
    BPF_EMIT_CALL BPF_FUNC_sk_release; BPF_EXIT_INSN];
  _prog_type BPF_PROG_TYPE_SCHED_CLS;
  _errstr "type=inv expected=sock";
  _result REJECT].

Definition ref_tracking_14 : bpf_test := TEST "reference tracking: release reference twice inside branch" [
  _insns
   [BPF_SK_LOOKUP_insns BPF_FUNC_sk_lookup_tcp; BPF_MOV64_REG BPF_REG_1 BPF_REG_0;
    BPF_MOV64_REG BPF_REG_6 BPF_REG_0; BPF_JMP_IMM BPF_JEQ BPF_REG_0 0 3;
    BPF_EMIT_CALL BPF_FUNC_sk_release; BPF_MOV64_REG BPF_REG_1 BPF_REG_6;
    BPF_EMIT_CALL BPF_FUNC_sk_release; BPF_EXIT_INSN];
  _prog_type BPF_PROG_TYPE_SCHED_CLS;
  _errstr "type=inv expected=sock";
  _result REJECT].

Definition ref_tracking_15 : bpf_test := TEST "reference tracking: alloc, check, free in one subbranch" [
  _insns
   [BPF_LDX_MEM BPF_W BPF_REG_2 BPF_REG_1 (offsetof __sk_buff "data");
    BPF_LDX_MEM BPF_W BPF_REG_3 BPF_REG_1 (offsetof __sk_buff "data_end");
    BPF_MOV64_REG BPF_REG_0 BPF_REG_2; BPF_ALU64_IMM BPF_ADD BPF_REG_0 16;
    BPF_JMP_REG BPF_JLE BPF_REG_0 BPF_REG_3 1; BPF_EXIT_INSN;
    BPF_LDX_MEM BPF_W BPF_REG_6 BPF_REG_2 (offsetof __sk_buff "mark");
    BPF_SK_LOOKUP_insns BPF_FUNC_sk_lookup_tcp; BPF_JMP_IMM BPF_JEQ BPF_REG_6 0 1;
    BPF_EXIT_INSN; BPF_JMP_IMM BPF_JEQ BPF_REG_0 0 2; BPF_MOV64_REG BPF_REG_1 BPF_REG_0;
    BPF_EMIT_CALL BPF_FUNC_sk_release; BPF_EXIT_INSN];
  _prog_type BPF_PROG_TYPE_SCHED_CLS;
  _errstr "Unreleased reference";
  _result REJECT;
  _flags F_NEEDS_EFFICIENT_UNALIGNED_ACCESS].

Definition ref_tracking_16 : bpf_test := TEST "reference tracking: alloc, check, free in both subbranches" [
  _insns
   [BPF_LDX_MEM BPF_W BPF_REG_2 BPF_REG_1 (offsetof __sk_buff "data");
    BPF_LDX_MEM BPF_W BPF_REG_3 BPF_REG_1 (offsetof __sk_buff "data_end");
    BPF_MOV64_REG BPF_REG_0 BPF_REG_2; BPF_ALU64_IMM BPF_ADD BPF_REG_0 16;
    BPF_JMP_REG BPF_JLE BPF_REG_0 BPF_REG_3 1; BPF_EXIT_INSN;
    BPF_LDX_MEM BPF_W BPF_REG_6 BPF_REG_2 (offsetof __sk_buff "mark");
    BPF_SK_LOOKUP_insns BPF_FUNC_sk_lookup_tcp; BPF_JMP_IMM BPF_JEQ BPF_REG_6 0 4;
    BPF_JMP_IMM BPF_JEQ BPF_REG_0 0 2; BPF_MOV64_REG BPF_REG_1 BPF_REG_0;
    BPF_EMIT_CALL BPF_FUNC_sk_release; BPF_EXIT_INSN; BPF_JMP_IMM BPF_JEQ BPF_REG_0 0 2;
    BPF_MOV64_REG BPF_REG_1 BPF_REG_0; BPF_EMIT_CALL BPF_FUNC_sk_release; BPF_EXIT_INSN];
  _prog_type BPF_PROG_TYPE_SCHED_CLS;
  _result ACCEPT;
  _flags F_NEEDS_EFFICIENT_UNALIGNED_ACCESS].

Definition ref_tracking_17 : bpf_test := TEST "reference tracking in call: free reference in subprog" [
  _insns
   [BPF_SK_LOOKUP_insns BPF_FUNC_sk_lookup_tcp; BPF_MOV64_REG BPF_REG_1 BPF_REG_0;
    BPF_RAW_INSN (BPF_JMP .| BPF_CALL) 0 1 0 2; BPF_MOV64_IMM BPF_REG_0 0; BPF_EXIT_INSN;
    BPF_MOV64_REG BPF_REG_2 BPF_REG_1; BPF_JMP_IMM BPF_JEQ BPF_REG_2 0 1;
    BPF_EMIT_CALL BPF_FUNC_sk_release; BPF_EXIT_INSN];
  _prog_type BPF_PROG_TYPE_SCHED_CLS;
  _result ACCEPT].

Definition ref_tracking_18 : bpf_test := TEST "reference tracking in call: free reference in subprog and outside" [
  _insns
   [BPF_SK_LOOKUP_insns BPF_FUNC_sk_lookup_tcp; BPF_MOV64_REG BPF_REG_1 BPF_REG_0;
    BPF_MOV64_REG BPF_REG_6 BPF_REG_0; BPF_RAW_INSN (BPF_JMP .| BPF_CALL) 0 1 0 3;
    BPF_MOV64_REG BPF_REG_1 BPF_REG_6; BPF_EMIT_CALL BPF_FUNC_sk_release; BPF_EXIT_INSN;
    BPF_MOV64_REG BPF_REG_2 BPF_REG_1; BPF_JMP_IMM BPF_JEQ BPF_REG_2 0 1;
    BPF_EMIT_CALL BPF_FUNC_sk_release; BPF_EXIT_INSN];
  _prog_type BPF_PROG_TYPE_SCHED_CLS;
  _errstr "type=inv expected=sock";
  _result REJECT].

Definition ref_tracking_19 : bpf_test := TEST "reference tracking in call: alloc & leak reference in subprog" [
  _insns
   [BPF_MOV64_REG BPF_REG_4 BPF_REG_10; BPF_ALU64_IMM BPF_ADD BPF_REG_4 (-8);
    BPF_RAW_INSN (BPF_JMP .| BPF_CALL) 0 1 0 3; BPF_MOV64_REG BPF_REG_1 BPF_REG_0;
    BPF_MOV64_IMM BPF_REG_0 0; BPF_EXIT_INSN; BPF_MOV64_REG BPF_REG_6 BPF_REG_4;
    BPF_SK_LOOKUP_insns BPF_FUNC_sk_lookup_tcp; BPF_STX_MEM BPF_DW BPF_REG_6 BPF_REG_0 0;
    BPF_MOV64_REG BPF_REG_1 BPF_REG_0; BPF_EXIT_INSN];
  _prog_type BPF_PROG_TYPE_SCHED_CLS;
  _errstr "Unreleased reference";
  _result REJECT].

Definition ref_tracking_20 : bpf_test := TEST "reference tracking in call: alloc in subprog, release outside" [
  _insns
   [BPF_MOV64_REG BPF_REG_4 BPF_REG_10; BPF_RAW_INSN (BPF_JMP .| BPF_CALL) 0 1 0 4;
    BPF_MOV64_REG BPF_REG_1 BPF_REG_0; BPF_JMP_IMM BPF_JEQ BPF_REG_0 0 1;
    BPF_EMIT_CALL BPF_FUNC_sk_release; BPF_EXIT_INSN;
    BPF_SK_LOOKUP_insns BPF_FUNC_sk_lookup_tcp; BPF_EXIT_INSN];
  _prog_type BPF_PROG_TYPE_SCHED_CLS;
  _retval POINTER_VALUE;
  _result ACCEPT].

Definition ref_tracking_21 : bpf_test := TEST "reference tracking in call: sk_ptr leak into caller stack" [
  _insns
   [BPF_MOV64_REG BPF_REG_4 BPF_REG_10; BPF_ALU64_IMM BPF_ADD BPF_REG_4 (-8);
    BPF_RAW_INSN (BPF_JMP .| BPF_CALL) 0 1 0 2; BPF_MOV64_IMM BPF_REG_0 0; BPF_EXIT_INSN;
    BPF_MOV64_REG BPF_REG_5 BPF_REG_10; BPF_ALU64_IMM BPF_ADD BPF_REG_5 (-8);
    BPF_STX_MEM BPF_DW BPF_REG_5 BPF_REG_4 0; BPF_RAW_INSN (BPF_JMP .| BPF_CALL) 0 1 0 5;
    BPF_MOV64_REG BPF_REG_5 BPF_REG_10; BPF_ALU64_IMM BPF_ADD BPF_REG_5 (-8);
    BPF_LDX_MEM BPF_DW BPF_REG_4 BPF_REG_5 0; BPF_STX_MEM BPF_DW BPF_REG_4 BPF_REG_0 0;
    BPF_EXIT_INSN; BPF_SK_LOOKUP_insns BPF_FUNC_sk_lookup_tcp; BPF_EXIT_INSN];
  _prog_type BPF_PROG_TYPE_SCHED_CLS;
  _errstr "Unreleased reference";
  _result REJECT].

Definition ref_tracking_22 : bpf_test := TEST "reference tracking in call: sk_ptr spill into caller stack" [
  _insns
   [BPF_MOV64_REG BPF_REG_4 BPF_REG_10; BPF_ALU64_IMM BPF_ADD BPF_REG_4 (-8);
    BPF_RAW_INSN (BPF_JMP .| BPF_CALL) 0 1 0 2; BPF_MOV64_IMM BPF_REG_0 0; BPF_EXIT_INSN;
    BPF_MOV64_REG BPF_REG_5 BPF_REG_10; BPF_ALU64_IMM BPF_ADD BPF_REG_5 (-8);
    BPF_STX_MEM BPF_DW BPF_REG_5 BPF_REG_4 0; BPF_RAW_INSN (BPF_JMP .| BPF_CALL) 0 1 0 8;
    BPF_MOV64_REG BPF_REG_5 BPF_REG_10; BPF_ALU64_IMM BPF_ADD BPF_REG_5 (-8);
    BPF_LDX_MEM BPF_DW BPF_REG_4 BPF_REG_5 0; BPF_STX_MEM BPF_DW BPF_REG_4 BPF_REG_0 0;
    BPF_JMP_IMM BPF_JEQ BPF_REG_0 0 2; BPF_LDX_MEM BPF_DW BPF_REG_1 BPF_REG_4 0;
    BPF_EMIT_CALL BPF_FUNC_sk_release; BPF_EXIT_INSN;
    BPF_SK_LOOKUP_insns BPF_FUNC_sk_lookup_tcp; BPF_EXIT_INSN];
  _prog_type BPF_PROG_TYPE_SCHED_CLS;
  _result ACCEPT].

Definition ref_tracking_23 : bpf_test := TEST "reference tracking: allow LD_ABS" [
  _insns
   [BPF_MOV64_REG BPF_REG_6 BPF_REG_1; BPF_SK_LOOKUP_insns BPF_FUNC_sk_lookup_tcp;
    BPF_MOV64_REG BPF_REG_1 BPF_REG_0; BPF_JMP_IMM BPF_JEQ BPF_REG_0 0 1;
    BPF_EMIT_CALL BPF_FUNC_sk_release; BPF_LD_ABS BPF_B 0; BPF_LD_ABS BPF_H 0;
    BPF_LD_ABS BPF_W 0; BPF_EXIT_INSN];
  _prog_type BPF_PROG_TYPE_SCHED_CLS;
  _result ACCEPT].

Definition ref_tracking_24 : bpf_test := TEST "reference tracking: forbid LD_ABS while holding reference" [
  _insns
   [BPF_MOV64_REG BPF_REG_6 BPF_REG_1; BPF_SK_LOOKUP_insns BPF_FUNC_sk_lookup_tcp;
    BPF_LD_ABS BPF_B 0; BPF_LD_ABS BPF_H 0; BPF_LD_ABS BPF_W 0;
    BPF_MOV64_REG BPF_REG_1 BPF_REG_0; BPF_JMP_IMM BPF_JEQ BPF_REG_0 0 1;
    BPF_EMIT_CALL BPF_FUNC_sk_release; BPF_EXIT_INSN];
  _prog_type BPF_PROG_TYPE_SCHED_CLS;
  _errstr "BPF_LD_[ABS|IND] cannot be mixed with socket references";
  _result REJECT].

Definition ref_tracking_25 : bpf_test := TEST "reference tracking: allow LD_IND" [
  _insns
   [BPF_MOV64_REG BPF_REG_6 BPF_REG_1; BPF_SK_LOOKUP_insns BPF_FUNC_sk_lookup_tcp;
    BPF_MOV64_REG BPF_REG_1 BPF_REG_0; BPF_JMP_IMM BPF_JEQ BPF_REG_0 0 1;
    BPF_EMIT_CALL BPF_FUNC_sk_release; BPF_MOV64_IMM BPF_REG_7 1;
    BPF_LD_IND BPF_W BPF_REG_7 (-0x200000); BPF_MOV64_REG BPF_REG_0 BPF_REG_7; BPF_EXIT_INSN];
  _prog_type BPF_PROG_TYPE_SCHED_CLS;
  _result ACCEPT;
  _retval 1].

Definition ref_tracking_26 : bpf_test := TEST "reference tracking: forbid LD_IND while holding reference" [
  _insns
   [BPF_MOV64_REG BPF_REG_6 BPF_REG_1; BPF_SK_LOOKUP_insns BPF_FUNC_sk_lookup_tcp;
    BPF_MOV64_REG BPF_REG_4 BPF_REG_0; BPF_MOV64_IMM BPF_REG_7 1;
    BPF_LD_IND BPF_W BPF_REG_7 (-0x200000); BPF_MOV64_REG BPF_REG_0 BPF_REG_7;
    BPF_MOV64_REG BPF_REG_1 BPF_REG_4; BPF_JMP_IMM BPF_JEQ BPF_REG_1 0 1;
    BPF_EMIT_CALL BPF_FUNC_sk_release; BPF_EXIT_INSN];
  _prog_type BPF_PROG_TYPE_SCHED_CLS;
  _errstr "BPF_LD_[ABS|IND] cannot be mixed with socket references";
  _result REJECT].

Definition ref_tracking_27 : bpf_test := TEST "reference tracking: check reference or tail call" [
  _insns
   [BPF_MOV64_REG BPF_REG_7 BPF_REG_1; BPF_SK_LOOKUP_insns BPF_FUNC_sk_lookup_tcp;
    BPF_MOV64_REG BPF_REG_1 BPF_REG_0; BPF_JMP_IMM BPF_JNE BPF_REG_1 0 7;
    BPF_MOV64_IMM BPF_REG_3 3; BPF_LD_MAP_FD BPF_REG_2 0; BPF_MOV64_REG BPF_REG_1 BPF_REG_7;
    BPF_RAW_INSN (BPF_JMP .| BPF_CALL) 0 0 0 BPF_FUNC_tail_call; BPF_MOV64_IMM BPF_REG_0 0;
    BPF_EXIT_INSN; BPF_EMIT_CALL BPF_FUNC_sk_release; BPF_EXIT_INSN];
  _fixup fixup_prog1 [17];
  _prog_type BPF_PROG_TYPE_SCHED_CLS;
  _result ACCEPT].

Definition ref_tracking_28 : bpf_test := TEST "reference tracking: release reference then tail call" [
  _insns
   [BPF_MOV64_REG BPF_REG_7 BPF_REG_1; BPF_SK_LOOKUP_insns BPF_FUNC_sk_lookup_tcp;
    BPF_MOV64_REG BPF_REG_1 BPF_REG_0; BPF_JMP_IMM BPF_JEQ BPF_REG_1 0 1;
    BPF_EMIT_CALL BPF_FUNC_sk_release; BPF_MOV64_IMM BPF_REG_3 3; BPF_LD_MAP_FD BPF_REG_2 0;
    BPF_MOV64_REG BPF_REG_1 BPF_REG_7;
    BPF_RAW_INSN (BPF_JMP .| BPF_CALL) 0 0 0 BPF_FUNC_tail_call; BPF_MOV64_IMM BPF_REG_0 0;
    BPF_EXIT_INSN];
  _fixup fixup_prog1 [18];
  _prog_type BPF_PROG_TYPE_SCHED_CLS;
  _result ACCEPT].

Definition ref_tracking_29 : bpf_test := TEST "reference tracking: leak possible reference over tail call" [
  _insns
   [BPF_MOV64_REG BPF_REG_7 BPF_REG_1; BPF_SK_LOOKUP_insns BPF_FUNC_sk_lookup_tcp;
    BPF_MOV64_REG BPF_REG_6 BPF_REG_0; BPF_MOV64_IMM BPF_REG_3 3; BPF_LD_MAP_FD BPF_REG_2 0;
    BPF_MOV64_REG BPF_REG_1 BPF_REG_7;
    BPF_RAW_INSN (BPF_JMP .| BPF_CALL) 0 0 0 BPF_FUNC_tail_call; BPF_MOV64_IMM BPF_REG_0 0;
    BPF_MOV64_REG BPF_REG_1 BPF_REG_6; BPF_JMP_IMM BPF_JEQ BPF_REG_1 0 1;
    BPF_EMIT_CALL BPF_FUNC_sk_release; BPF_EXIT_INSN];
  _fixup fixup_prog1 [16];
  _prog_type BPF_PROG_TYPE_SCHED_CLS;
  _errstr "tail_call would lead to reference leak";
  _result REJECT].

Definition ref_tracking_30 : bpf_test := TEST "reference tracking: leak checked reference over tail call" [
  _insns
   [BPF_MOV64_REG BPF_REG_7 BPF_REG_1; BPF_SK_LOOKUP_insns BPF_FUNC_sk_lookup_tcp;
    BPF_MOV64_REG BPF_REG_6 BPF_REG_0; BPF_JMP_IMM BPF_JEQ BPF_REG_0 0 7;
    BPF_MOV64_IMM BPF_REG_3 0; BPF_LD_MAP_FD BPF_REG_2 0; BPF_MOV64_REG BPF_REG_1 BPF_REG_7;
    BPF_RAW_INSN (BPF_JMP .| BPF_CALL) 0 0 0 BPF_FUNC_tail_call; BPF_MOV64_IMM BPF_REG_0 0;
    BPF_MOV64_REG BPF_REG_1 BPF_REG_6; BPF_EMIT_CALL BPF_FUNC_sk_release; BPF_EXIT_INSN];
  _fixup fixup_prog1 [17];
  _prog_type BPF_PROG_TYPE_SCHED_CLS;
  _errstr "tail_call would lead to reference leak";
  _result REJECT].

Definition ref_tracking_31 : bpf_test := TEST "reference tracking: mangle and release sock_or_null" [
  _insns
   [BPF_SK_LOOKUP_insns BPF_FUNC_sk_lookup_tcp; BPF_MOV64_REG BPF_REG_1 BPF_REG_0;
    BPF_ALU64_IMM BPF_ADD BPF_REG_1 5; BPF_JMP_IMM BPF_JEQ BPF_REG_0 0 1;
    BPF_EMIT_CALL BPF_FUNC_sk_release; BPF_EXIT_INSN];
  _prog_type BPF_PROG_TYPE_SCHED_CLS;
  _errstr "R1 pointer arithmetic on sock_or_null prohibited";
  _result REJECT].

Definition ref_tracking_32 : bpf_test := TEST "reference tracking: mangle and release sock" [
  _insns
   [BPF_SK_LOOKUP_insns BPF_FUNC_sk_lookup_tcp; BPF_MOV64_REG BPF_REG_1 BPF_REG_0;
    BPF_JMP_IMM BPF_JEQ BPF_REG_0 0 2; BPF_ALU64_IMM BPF_ADD BPF_REG_1 5;
    BPF_EMIT_CALL BPF_FUNC_sk_release; BPF_EXIT_INSN];
  _prog_type BPF_PROG_TYPE_SCHED_CLS;
  _errstr "R1 pointer arithmetic on sock prohibited";
  _result REJECT].

Definition ref_tracking_33 : bpf_test := TEST "reference tracking: access member" [
  _insns
   [BPF_SK_LOOKUP_insns BPF_FUNC_sk_lookup_tcp; BPF_MOV64_REG BPF_REG_6 BPF_REG_0;
    BPF_JMP_IMM BPF_JEQ BPF_REG_0 0 3; BPF_LDX_MEM BPF_W BPF_REG_2 BPF_REG_0 4;
    BPF_MOV64_REG BPF_REG_1 BPF_REG_6; BPF_EMIT_CALL BPF_FUNC_sk_release; BPF_EXIT_INSN];
  _prog_type BPF_PROG_TYPE_SCHED_CLS;
  _result ACCEPT].

Definition ref_tracking_34 : bpf_test := TEST "reference tracking: write to member" [
  _insns
   [BPF_SK_LOOKUP_insns BPF_FUNC_sk_lookup_tcp; BPF_MOV64_REG BPF_REG_6 BPF_REG_0;
    BPF_JMP_IMM BPF_JEQ BPF_REG_0 0 5; BPF_MOV64_REG BPF_REG_1 BPF_REG_6;
    BPF_LD_IMM64 BPF_REG_2 42; BPF_STX_MEM BPF_W BPF_REG_1 BPF_REG_2 (offsetof bpf_sock "mark");
    BPF_MOV64_REG BPF_REG_1 BPF_REG_6; BPF_EMIT_CALL BPF_FUNC_sk_release;
    BPF_LD_IMM64 BPF_REG_0 0; BPF_EXIT_INSN];
  _prog_type BPF_PROG_TYPE_SCHED_CLS;
  _errstr "cannot write into sock";
  _result REJECT].

Definition ref_tracking_35 : bpf_test := TEST "reference tracking: invalid 64-bit access of member" [
  _insns
   [BPF_SK_LOOKUP_insns BPF_FUNC_sk_lookup_tcp; BPF_MOV64_REG BPF_REG_6 BPF_REG_0;
    BPF_JMP_IMM BPF_JEQ BPF_REG_0 0 3; BPF_LDX_MEM BPF_DW BPF_REG_2 BPF_REG_0 0;
    BPF_MOV64_REG BPF_REG_1 BPF_REG_6; BPF_EMIT_CALL BPF_FUNC_sk_release; BPF_EXIT_INSN];
  _prog_type BPF_PROG_TYPE_SCHED_CLS;
  _errstr "invalid sock access off=0 size=8";
  _result REJECT].

Definition ref_tracking_36 : bpf_test := TEST "reference tracking: access after release" [
  _insns
   [BPF_SK_LOOKUP_insns BPF_FUNC_sk_lookup_tcp; BPF_MOV64_REG BPF_REG_1 BPF_REG_0;
    BPF_JMP_IMM BPF_JEQ BPF_REG_0 0 2; BPF_EMIT_CALL BPF_FUNC_sk_release;
    BPF_LDX_MEM BPF_W BPF_REG_2 BPF_REG_1 0; BPF_EXIT_INSN];
  _prog_type BPF_PROG_TYPE_SCHED_CLS;
  _errstr "!read_ok";
  _result REJECT].

Definition ref_tracking_37 : bpf_test := TEST "reference tracking: direct access for lookup" [
  _insns
   [BPF_LDX_MEM BPF_W BPF_REG_2 BPF_REG_1 (offsetof __sk_buff "data");
    BPF_LDX_MEM BPF_W BPF_REG_3 BPF_REG_1 (offsetof __sk_buff "data_end");
    BPF_MOV64_REG BPF_REG_0 BPF_REG_2; BPF_ALU64_IMM BPF_ADD BPF_REG_0 64;
    BPF_JMP_REG BPF_JGT BPF_REG_0 BPF_REG_3 9; BPF_MOV64_IMM BPF_REG_3 (sizeof bpf_sock_tuple);
    BPF_MOV64_IMM BPF_REG_4 0; BPF_MOV64_IMM BPF_REG_5 0; BPF_EMIT_CALL BPF_FUNC_sk_lookup_tcp;
    BPF_MOV64_REG BPF_REG_6 BPF_REG_0; BPF_JMP_IMM BPF_JEQ BPF_REG_0 0 3;
    BPF_LDX_MEM BPF_W BPF_REG_2 BPF_REG_0 4; BPF_MOV64_REG BPF_REG_1 BPF_REG_6;
    BPF_EMIT_CALL BPF_FUNC_sk_release; BPF_EXIT_INSN];
  _prog_type BPF_PROG_TYPE_SCHED_CLS;
  _result ACCEPT].

Definition ref_tracking_38 : bpf_test := TEST "reference tracking: use ptr from bpf_tcp_sock() after release" [
  _insns
   [BPF_SK_LOOKUP_insns BPF_FUNC_sk_lookup_tcp; BPF_JMP_IMM BPF_JNE BPF_REG_0 0 1;
    BPF_EXIT_INSN; BPF_MOV64_REG BPF_REG_6 BPF_REG_0; BPF_MOV64_REG BPF_REG_1 BPF_REG_0;
    BPF_EMIT_CALL BPF_FUNC_tcp_sock; BPF_JMP_IMM BPF_JNE BPF_REG_0 0 3;
    BPF_MOV64_REG BPF_REG_1 BPF_REG_6; BPF_EMIT_CALL BPF_FUNC_sk_release; BPF_EXIT_INSN;
    BPF_MOV64_REG BPF_REG_7 BPF_REG_0; BPF_MOV64_REG BPF_REG_1 BPF_REG_6;
    BPF_EMIT_CALL BPF_FUNC_sk_release;
    BPF_LDX_MEM BPF_W BPF_REG_0 BPF_REG_7 (offsetof bpf_tcp_sock "snd_cwnd"); BPF_EXIT_INSN];
  _prog_type BPF_PROG_TYPE_SCHED_CLS;
  _result REJECT;
  _errstr "invalid mem access";
  _flags F_NEEDS_EFFICIENT_UNALIGNED_ACCESS].

Definition ref_tracking_39 : bpf_test := TEST "reference tracking: use ptr from bpf_sk_fullsock() after release" [
  _insns
   [BPF_SK_LOOKUP_insns BPF_FUNC_sk_lookup_tcp; BPF_JMP_IMM BPF_JNE BPF_REG_0 0 1;
    BPF_EXIT_INSN; BPF_MOV64_REG BPF_REG_6 BPF_REG_0; BPF_MOV64_REG BPF_REG_1 BPF_REG_0;
    BPF_EMIT_CALL BPF_FUNC_sk_fullsock; BPF_JMP_IMM BPF_JNE BPF_REG_0 0 3;
    BPF_MOV64_REG BPF_REG_1 BPF_REG_6; BPF_EMIT_CALL BPF_FUNC_sk_release; BPF_EXIT_INSN;
    BPF_MOV64_REG BPF_REG_7 BPF_REG_0; BPF_MOV64_REG BPF_REG_1 BPF_REG_6;
    BPF_EMIT_CALL BPF_FUNC_sk_release;
    BPF_LDX_MEM BPF_W BPF_REG_0 BPF_REG_7 (offsetof bpf_sock "type"); BPF_EXIT_INSN];
  _prog_type BPF_PROG_TYPE_SCHED_CLS;
  _result REJECT;
  _errstr "invalid mem access";
  _flags F_NEEDS_EFFICIENT_UNALIGNED_ACCESS].

Definition ref_tracking_40 : bpf_test := TEST "reference tracking: use ptr from bpf_sk_fullsock(tp) after release" [
  _insns
   [BPF_SK_LOOKUP_insns BPF_FUNC_sk_lookup_tcp; BPF_JMP_IMM BPF_JNE BPF_REG_0 0 1;
    BPF_EXIT_INSN; BPF_MOV64_REG BPF_REG_6 BPF_REG_0; BPF_MOV64_REG BPF_REG_1 BPF_REG_0;
    BPF_EMIT_CALL BPF_FUNC_tcp_sock; BPF_JMP_IMM BPF_JNE BPF_REG_0 0 3;
    BPF_MOV64_REG BPF_REG_1 BPF_REG_6; BPF_EMIT_CALL BPF_FUNC_sk_release; BPF_EXIT_INSN;
    BPF_MOV64_REG BPF_REG_1 BPF_REG_0; BPF_EMIT_CALL BPF_FUNC_sk_fullsock;
    BPF_MOV64_REG BPF_REG_1 BPF_REG_6; BPF_MOV64_REG BPF_REG_6 BPF_REG_0;
    BPF_EMIT_CALL BPF_FUNC_sk_release; BPF_JMP_IMM BPF_JNE BPF_REG_6 0 1; BPF_EXIT_INSN;
    BPF_LDX_MEM BPF_W BPF_REG_0 BPF_REG_6 (offsetof bpf_sock "type"); BPF_EXIT_INSN];
  _prog_type BPF_PROG_TYPE_SCHED_CLS;
  _result REJECT;
  _errstr "invalid mem access";
  _flags F_NEEDS_EFFICIENT_UNALIGNED_ACCESS].

Definition ref_tracking_41 : bpf_test := TEST "reference tracking: use sk after bpf_sk_release(tp)" [
  _insns
   [BPF_SK_LOOKUP_insns BPF_FUNC_sk_lookup_tcp; BPF_JMP_IMM BPF_JNE BPF_REG_0 0 1;
    BPF_EXIT_INSN; BPF_MOV64_REG BPF_REG_6 BPF_REG_0; BPF_MOV64_REG BPF_REG_1 BPF_REG_0;
    BPF_EMIT_CALL BPF_FUNC_tcp_sock; BPF_JMP_IMM BPF_JNE BPF_REG_0 0 3;
    BPF_MOV64_REG BPF_REG_1 BPF_REG_6; BPF_EMIT_CALL BPF_FUNC_sk_release; BPF_EXIT_INSN;
    BPF_MOV64_REG BPF_REG_1 BPF_REG_0; BPF_EMIT_CALL BPF_FUNC_sk_release;
    BPF_LDX_MEM BPF_W BPF_REG_0 BPF_REG_6 (offsetof bpf_sock "type"); BPF_EXIT_INSN];
  _prog_type BPF_PROG_TYPE_SCHED_CLS;
  _result REJECT;
  _errstr "invalid mem access";
  _flags F_NEEDS_EFFICIENT_UNALIGNED_ACCESS].

Definition ref_tracking_42 : bpf_test := TEST "reference tracking: use ptr from bpf_get_listener_sock() after bpf_sk_release(sk)" [
  _insns
   [BPF_SK_LOOKUP_insns BPF_FUNC_sk_lookup_tcp; BPF_JMP_IMM BPF_JNE BPF_REG_0 0 1;
    BPF_EXIT_INSN; BPF_MOV64_REG BPF_REG_6 BPF_REG_0; BPF_MOV64_REG BPF_REG_1 BPF_REG_0;
    BPF_EMIT_CALL BPF_FUNC_get_listener_sock; BPF_JMP_IMM BPF_JNE BPF_REG_0 0 3;
    BPF_MOV64_REG BPF_REG_1 BPF_REG_6; BPF_EMIT_CALL BPF_FUNC_sk_release; BPF_EXIT_INSN;
    BPF_MOV64_REG BPF_REG_1 BPF_REG_6; BPF_MOV64_REG BPF_REG_6 BPF_REG_0;
    BPF_EMIT_CALL BPF_FUNC_sk_release;
    BPF_LDX_MEM BPF_W BPF_REG_0 BPF_REG_6 (offsetof bpf_sock "src_port"); BPF_EXIT_INSN];
  _prog_type BPF_PROG_TYPE_SCHED_CLS;
  _result ACCEPT].

Definition ref_tracking_43 : bpf_test := TEST "reference tracking: bpf_sk_release(listen_sk)" [
  _insns
   [BPF_SK_LOOKUP_insns BPF_FUNC_sk_lookup_tcp; BPF_JMP_IMM BPF_JNE BPF_REG_0 0 1;
    BPF_EXIT_INSN; BPF_MOV64_REG BPF_REG_6 BPF_REG_0; BPF_MOV64_REG BPF_REG_1 BPF_REG_0;
    BPF_EMIT_CALL BPF_FUNC_get_listener_sock; BPF_JMP_IMM BPF_JNE BPF_REG_0 0 3;
    BPF_MOV64_REG BPF_REG_1 BPF_REG_6; BPF_EMIT_CALL BPF_FUNC_sk_release; BPF_EXIT_INSN;
    BPF_MOV64_REG BPF_REG_1 BPF_REG_0; BPF_EMIT_CALL BPF_FUNC_sk_release;
    BPF_LDX_MEM BPF_W BPF_REG_0 BPF_REG_6 (offsetof bpf_sock "type");
    BPF_MOV64_REG BPF_REG_1 BPF_REG_6; BPF_EMIT_CALL BPF_FUNC_sk_release; BPF_EXIT_INSN];
  _prog_type BPF_PROG_TYPE_SCHED_CLS;
  _result REJECT;
  _errstr "reference has not been acquired before"].

Definition ref_tracking_44 : bpf_test := TEST "reference tracking: tp->snd_cwnd after bpf_sk_fullsock(sk) and bpf_tcp_sock(sk)" [
  _insns
   [BPF_SK_LOOKUP_insns BPF_FUNC_sk_lookup_tcp; BPF_JMP_IMM BPF_JNE BPF_REG_0 0 1;
    BPF_EXIT_INSN; BPF_MOV64_REG BPF_REG_6 BPF_REG_0; BPF_MOV64_REG BPF_REG_1 BPF_REG_0;
    BPF_EMIT_CALL BPF_FUNC_sk_fullsock; BPF_MOV64_REG BPF_REG_7 BPF_REG_0;
    BPF_MOV64_REG BPF_REG_1 BPF_REG_6; BPF_EMIT_CALL BPF_FUNC_tcp_sock;
    BPF_MOV64_REG BPF_REG_8 BPF_REG_0; BPF_JMP_IMM BPF_JNE BPF_REG_7 0 3;
    BPF_MOV64_REG BPF_REG_1 BPF_REG_6; BPF_EMIT_CALL BPF_FUNC_sk_release; BPF_EXIT_INSN;
    BPF_LDX_MEM BPF_W BPF_REG_0 BPF_REG_8 (offsetof bpf_tcp_sock "snd_cwnd");
    BPF_MOV64_REG BPF_REG_1 BPF_REG_6; BPF_EMIT_CALL BPF_FUNC_sk_release; BPF_EXIT_INSN];
  _prog_type BPF_PROG_TYPE_SCHED_CLS;
  _result REJECT;
  _errstr "invalid mem access"].

Definition ref_tracking_45 : bpf_test := TEST "reference tracking: branch tracking valid pointer null comparison" [
  _insns
   [BPF_SK_LOOKUP_insns BPF_FUNC_sk_lookup_tcp; BPF_MOV64_REG BPF_REG_6 BPF_REG_0;
    BPF_MOV64_IMM BPF_REG_3 1; BPF_JMP_IMM BPF_JNE BPF_REG_6 0 1; BPF_MOV64_IMM BPF_REG_3 0;
    BPF_JMP_IMM BPF_JEQ BPF_REG_6 0 2; BPF_MOV64_REG BPF_REG_1 BPF_REG_6;
    BPF_EMIT_CALL BPF_FUNC_sk_release; BPF_EXIT_INSN];
  _prog_type BPF_PROG_TYPE_SCHED_CLS;
  _result ACCEPT].

Definition ref_tracking_46 : bpf_test := TEST "reference tracking: branch tracking valid pointer value comparison" [
  _insns
   [BPF_SK_LOOKUP_insns BPF_FUNC_sk_lookup_tcp; BPF_MOV64_REG BPF_REG_6 BPF_REG_0;
    BPF_MOV64_IMM BPF_REG_3 1; BPF_JMP_IMM BPF_JEQ BPF_REG_6 0 4; BPF_MOV64_IMM BPF_REG_3 0;
    BPF_JMP_IMM BPF_JEQ BPF_REG_6 1234 2; BPF_MOV64_REG BPF_REG_1 BPF_REG_6;
    BPF_EMIT_CALL BPF_FUNC_sk_release; BPF_EXIT_INSN];
  _prog_type BPF_PROG_TYPE_SCHED_CLS;
  _errstr "Unreleased reference";
  _result REJECT].

Definition ref_tracking_47 : bpf_test := TEST "reference tracking: bpf_sk_release(btf_tcp_sock)" [
  _insns
   [BPF_SK_LOOKUP_insns BPF_FUNC_sk_lookup_tcp; BPF_JMP_IMM BPF_JNE BPF_REG_0 0 1;
    BPF_EXIT_INSN; BPF_MOV64_REG BPF_REG_6 BPF_REG_0; BPF_MOV64_REG BPF_REG_1 BPF_REG_0;
    BPF_EMIT_CALL BPF_FUNC_skc_to_tcp_sock; BPF_JMP_IMM BPF_JNE BPF_REG_0 0 3;
    BPF_MOV64_REG BPF_REG_1 BPF_REG_6; BPF_EMIT_CALL BPF_FUNC_sk_release; BPF_EXIT_INSN;
    BPF_MOV64_REG BPF_REG_1 BPF_REG_0; BPF_EMIT_CALL BPF_FUNC_sk_release; BPF_EXIT_INSN];
  _prog_type BPF_PROG_TYPE_SCHED_CLS;
  _result ACCEPT;
  _result_unpriv REJECT;
  _errstr_unpriv "unknown func"].

Definition ref_tracking_48 : bpf_test := TEST "reference tracking: use ptr from bpf_skc_to_tcp_sock() after release" [
  _insns
   [BPF_SK_LOOKUP_insns BPF_FUNC_sk_lookup_tcp; BPF_JMP_IMM BPF_JNE BPF_REG_0 0 1;
    BPF_EXIT_INSN; BPF_MOV64_REG BPF_REG_6 BPF_REG_0; BPF_MOV64_REG BPF_REG_1 BPF_REG_0;
    BPF_EMIT_CALL BPF_FUNC_skc_to_tcp_sock; BPF_JMP_IMM BPF_JNE BPF_REG_0 0 3;
    BPF_MOV64_REG BPF_REG_1 BPF_REG_6; BPF_EMIT_CALL BPF_FUNC_sk_release; BPF_EXIT_INSN;
    BPF_MOV64_REG BPF_REG_7 BPF_REG_0; BPF_MOV64_REG BPF_REG_1 BPF_REG_6;
    BPF_EMIT_CALL BPF_FUNC_sk_release; BPF_LDX_MEM BPF_B BPF_REG_0 BPF_REG_7 0; BPF_EXIT_INSN];
  _prog_type BPF_PROG_TYPE_SCHED_CLS;
  _result REJECT;
  _errstr "invalid mem access";
  _result_unpriv REJECT;
  _errstr_unpriv "unknown func"].

Definition ref_tracking_49 : bpf_test := TEST "reference tracking: try to leak released ptr reg" [
  _insns
   [BPF_MOV64_IMM BPF_REG_0 0; BPF_STX_MEM BPF_W BPF_REG_10 BPF_REG_0 (-4);
    BPF_MOV64_REG BPF_REG_2 BPF_REG_10; BPF_ALU64_IMM BPF_ADD BPF_REG_2 (-4);
    BPF_LD_MAP_FD BPF_REG_1 0; BPF_EMIT_CALL BPF_FUNC_map_lookup_elem;
    BPF_JMP_IMM BPF_JNE BPF_REG_0 0 1; BPF_EXIT_INSN; BPF_MOV64_REG BPF_REG_9 BPF_REG_0;
    BPF_MOV64_IMM BPF_REG_0 0; BPF_LD_MAP_FD BPF_REG_1 0; BPF_MOV64_IMM BPF_REG_2 8;
    BPF_MOV64_IMM BPF_REG_3 0; BPF_EMIT_CALL BPF_FUNC_ringbuf_reserve;
    BPF_JMP_IMM BPF_JNE BPF_REG_0 0 1; BPF_EXIT_INSN; BPF_MOV64_REG BPF_REG_8 BPF_REG_0;
    BPF_MOV64_REG BPF_REG_1 BPF_REG_8; BPF_MOV64_IMM BPF_REG_2 0;
    BPF_EMIT_CALL BPF_FUNC_ringbuf_discard; BPF_MOV64_IMM BPF_REG_0 0;
    BPF_STX_MEM BPF_DW BPF_REG_9 BPF_REG_8 0; BPF_EXIT_INSN];
  _fixup fixup_map_array_48b [4];
  _fixup fixup_map_ringbuf [11];
  _result ACCEPT;
  _result_unpriv REJECT;
  _errstr_unpriv "R8 !read_ok"].

Definition ref_tracking_tests : list bpf_test := [ref_tracking_1; ref_tracking_2; ref_tracking_3;
  ref_tracking_4; ref_tracking_5; ref_tracking_6; ref_tracking_7; ref_tracking_8; ref_tracking_9;
  ref_tracking_10; ref_tracking_11; ref_tracking_12; ref_tracking_13; ref_tracking_14;
  ref_tracking_15; ref_tracking_16; ref_tracking_17; ref_tracking_18; ref_tracking_19;
  ref_tracking_20; ref_tracking_21; ref_tracking_22; ref_tracking_23; ref_tracking_24;
  ref_tracking_25; ref_tracking_26; ref_tracking_27; ref_tracking_28; ref_tracking_29;
  ref_tracking_30; ref_tracking_31; ref_tracking_32; ref_tracking_33; ref_tracking_34;
  ref_tracking_35; ref_tracking_36; ref_tracking_37; ref_tracking_38; ref_tracking_39;
  ref_tracking_40; ref_tracking_41; ref_tracking_42; ref_tracking_43; ref_tracking_44;
  ref_tracking_45; ref_tracking_46; ref_tracking_47; ref_tracking_48; ref_tracking_49].

(** * [runtime_jit.c] *)

Definition runtime_jit_1 : bpf_test := TEST "runtime/jit: tail_call within bounds, prog once" [
  _insns
   [BPF_MOV64_IMM BPF_REG_3 0; BPF_LD_MAP_FD BPF_REG_2 0;
    BPF_RAW_INSN (BPF_JMP .| BPF_CALL) 0 0 0 BPF_FUNC_tail_call; BPF_MOV64_IMM BPF_REG_0 1;
    BPF_EXIT_INSN];
  _fixup fixup_prog1 [1];
  _result ACCEPT;
  _retval 42].

Definition runtime_jit_2 : bpf_test := TEST "runtime/jit: tail_call within bounds, prog loop" [
  _insns
   [BPF_MOV64_IMM BPF_REG_3 1; BPF_LD_MAP_FD BPF_REG_2 0;
    BPF_RAW_INSN (BPF_JMP .| BPF_CALL) 0 0 0 BPF_FUNC_tail_call; BPF_MOV64_IMM BPF_REG_0 1;
    BPF_EXIT_INSN];
  _fixup fixup_prog1 [1];
  _result ACCEPT;
  _retval 41].

Definition runtime_jit_3 : bpf_test := TEST "runtime/jit: tail_call within bounds, no prog" [
  _insns
   [BPF_MOV64_IMM BPF_REG_3 3; BPF_LD_MAP_FD BPF_REG_2 0;
    BPF_RAW_INSN (BPF_JMP .| BPF_CALL) 0 0 0 BPF_FUNC_tail_call; BPF_MOV64_IMM BPF_REG_0 1;
    BPF_EXIT_INSN];
  _fixup fixup_prog1 [1];
  _result ACCEPT;
  _retval 1].

Definition runtime_jit_4 : bpf_test := TEST "runtime/jit: tail_call within bounds, key 2" [
  _insns
   [BPF_MOV64_IMM BPF_REG_3 2; BPF_LD_MAP_FD BPF_REG_2 0;
    BPF_RAW_INSN (BPF_JMP .| BPF_CALL) 0 0 0 BPF_FUNC_tail_call; BPF_MOV64_IMM BPF_REG_0 1;
    BPF_EXIT_INSN];
  _fixup fixup_prog1 [1];
  _result ACCEPT;
  _retval 24].

Definition runtime_jit_5 : bpf_test := TEST "runtime/jit: tail_call within bounds, key 2 / key 2, first branch" [
  _insns
   [BPF_MOV64_IMM BPF_REG_0 13;
    BPF_STX_MEM BPF_B BPF_REG_1 BPF_REG_0 (offsetof_idx __sk_buff "cb" 0);
    BPF_LDX_MEM BPF_B BPF_REG_0 BPF_REG_1 (offsetof_idx __sk_buff "cb" 0);
    BPF_JMP_IMM BPF_JEQ BPF_REG_0 13 4; BPF_MOV64_IMM BPF_REG_3 2; BPF_LD_MAP_FD BPF_REG_2 0;
    BPF_JMP_IMM BPF_JA 0 0 3; BPF_MOV64_IMM BPF_REG_3 2; BPF_LD_MAP_FD BPF_REG_2 0;
    BPF_RAW_INSN (BPF_JMP .| BPF_CALL) 0 0 0 BPF_FUNC_tail_call; BPF_MOV64_IMM BPF_REG_0 1;
    BPF_EXIT_INSN];
  _fixup fixup_prog1 [5; 9];
  _result ACCEPT;
  _retval 24].

Definition runtime_jit_6 : bpf_test := TEST "runtime/jit: tail_call within bounds, key 2 / key 2, second branch" [
  _insns
   [BPF_MOV64_IMM BPF_REG_0 14;
    BPF_STX_MEM BPF_B BPF_REG_1 BPF_REG_0 (offsetof_idx __sk_buff "cb" 0);
    BPF_LDX_MEM BPF_B BPF_REG_0 BPF_REG_1 (offsetof_idx __sk_buff "cb" 0);
    BPF_JMP_IMM BPF_JEQ BPF_REG_0 13 4; BPF_MOV64_IMM BPF_REG_3 2; BPF_LD_MAP_FD BPF_REG_2 0;
    BPF_JMP_IMM BPF_JA 0 0 3; BPF_MOV64_IMM BPF_REG_3 2; BPF_LD_MAP_FD BPF_REG_2 0;
    BPF_RAW_INSN (BPF_JMP .| BPF_CALL) 0 0 0 BPF_FUNC_tail_call; BPF_MOV64_IMM BPF_REG_0 1;
    BPF_EXIT_INSN];
  _fixup fixup_prog1 [5; 9];
  _result ACCEPT;
  _retval 24].

Definition runtime_jit_7 : bpf_test := TEST "runtime/jit: tail_call within bounds, key 0 / key 2, first branch" [
  _insns
   [BPF_MOV64_IMM BPF_REG_0 13;
    BPF_STX_MEM BPF_B BPF_REG_1 BPF_REG_0 (offsetof_idx __sk_buff "cb" 0);
    BPF_LDX_MEM BPF_B BPF_REG_0 BPF_REG_1 (offsetof_idx __sk_buff "cb" 0);
    BPF_JMP_IMM BPF_JEQ BPF_REG_0 13 4; BPF_MOV64_IMM BPF_REG_3 0; BPF_LD_MAP_FD BPF_REG_2 0;
    BPF_JMP_IMM BPF_JA 0 0 3; BPF_MOV64_IMM BPF_REG_3 2; BPF_LD_MAP_FD BPF_REG_2 0;
    BPF_RAW_INSN (BPF_JMP .| BPF_CALL) 0 0 0 BPF_FUNC_tail_call; BPF_MOV64_IMM BPF_REG_0 1;
    BPF_EXIT_INSN];
  _fixup fixup_prog1 [5; 9];
  _result ACCEPT;
  _retval 24].

Definition runtime_jit_8 : bpf_test := TEST "runtime/jit: tail_call within bounds, key 0 / key 2, second branch" [
  _insns
   [BPF_MOV64_IMM BPF_REG_0 14;
    BPF_STX_MEM BPF_B BPF_REG_1 BPF_REG_0 (offsetof_idx __sk_buff "cb" 0);
    BPF_LDX_MEM BPF_B BPF_REG_0 BPF_REG_1 (offsetof_idx __sk_buff "cb" 0);
    BPF_JMP_IMM BPF_JEQ BPF_REG_0 13 4; BPF_MOV64_IMM BPF_REG_3 0; BPF_LD_MAP_FD BPF_REG_2 0;
    BPF_JMP_IMM BPF_JA 0 0 3; BPF_MOV64_IMM BPF_REG_3 2; BPF_LD_MAP_FD BPF_REG_2 0;
    BPF_RAW_INSN (BPF_JMP .| BPF_CALL) 0 0 0 BPF_FUNC_tail_call; BPF_MOV64_IMM BPF_REG_0 1;
    BPF_EXIT_INSN];
  _fixup fixup_prog1 [5; 9];
  _result ACCEPT;
  _retval 42].

Definition runtime_jit_9 : bpf_test := TEST "runtime/jit: tail_call within bounds, different maps, first branch" [
  _insns
   [BPF_MOV64_IMM BPF_REG_0 13;
    BPF_STX_MEM BPF_B BPF_REG_1 BPF_REG_0 (offsetof_idx __sk_buff "cb" 0);
    BPF_LDX_MEM BPF_B BPF_REG_0 BPF_REG_1 (offsetof_idx __sk_buff "cb" 0);
    BPF_JMP_IMM BPF_JEQ BPF_REG_0 13 4; BPF_MOV64_IMM BPF_REG_3 0; BPF_LD_MAP_FD BPF_REG_2 0;
    BPF_JMP_IMM BPF_JA 0 0 3; BPF_MOV64_IMM BPF_REG_3 0; BPF_LD_MAP_FD BPF_REG_2 0;
    BPF_RAW_INSN (BPF_JMP .| BPF_CALL) 0 0 0 BPF_FUNC_tail_call; BPF_MOV64_IMM BPF_REG_0 1;
    BPF_EXIT_INSN];
  _fixup fixup_prog1 [5];
  _fixup fixup_prog2 [9];
  _result_unpriv REJECT;
  _errstr_unpriv "tail_call abusing map_ptr";
  _result ACCEPT;
  _retval 1].

Definition runtime_jit_10 : bpf_test := TEST "runtime/jit: tail_call within bounds, different maps, second branch" [
  _insns
   [BPF_MOV64_IMM BPF_REG_0 14;
    BPF_STX_MEM BPF_B BPF_REG_1 BPF_REG_0 (offsetof_idx __sk_buff "cb" 0);
    BPF_LDX_MEM BPF_B BPF_REG_0 BPF_REG_1 (offsetof_idx __sk_buff "cb" 0);
    BPF_JMP_IMM BPF_JEQ BPF_REG_0 13 4; BPF_MOV64_IMM BPF_REG_3 0; BPF_LD_MAP_FD BPF_REG_2 0;
    BPF_JMP_IMM BPF_JA 0 0 3; BPF_MOV64_IMM BPF_REG_3 0; BPF_LD_MAP_FD BPF_REG_2 0;
    BPF_RAW_INSN (BPF_JMP .| BPF_CALL) 0 0 0 BPF_FUNC_tail_call; BPF_MOV64_IMM BPF_REG_0 1;
    BPF_EXIT_INSN];
  _fixup fixup_prog1 [5];
  _fixup fixup_prog2 [9];
  _result_unpriv REJECT;
  _errstr_unpriv "tail_call abusing map_ptr";
  _result ACCEPT;
  _retval 42].

Definition runtime_jit_11 : bpf_test := TEST "runtime/jit: tail_call out of bounds" [
  _insns
   [BPF_MOV64_IMM BPF_REG_3 256; BPF_LD_MAP_FD BPF_REG_2 0;
    BPF_RAW_INSN (BPF_JMP .| BPF_CALL) 0 0 0 BPF_FUNC_tail_call; BPF_MOV64_IMM BPF_REG_0 2;
    BPF_EXIT_INSN];
  _fixup fixup_prog1 [1];
  _result ACCEPT;
  _retval 2].

Definition runtime_jit_12 : bpf_test := TEST "runtime/jit: pass negative index to tail_call" [
  _insns
   [BPF_MOV64_IMM BPF_REG_3 (-1); BPF_LD_MAP_FD BPF_REG_2 0;
    BPF_RAW_INSN (BPF_JMP .| BPF_CALL) 0 0 0 BPF_FUNC_tail_call; BPF_MOV64_IMM BPF_REG_0 2;
    BPF_EXIT_INSN];
  _fixup fixup_prog1 [1];
  _result ACCEPT;
  _retval 2].

Definition runtime_jit_13 : bpf_test := TEST "runtime/jit: pass > 32bit index to tail_call" [
  _insns
   [BPF_LD_IMM64 BPF_REG_3 0x100000000; BPF_LD_MAP_FD BPF_REG_2 0;
    BPF_RAW_INSN (BPF_JMP .| BPF_CALL) 0 0 0 BPF_FUNC_tail_call; BPF_MOV64_IMM BPF_REG_0 2;
    BPF_EXIT_INSN];
  _fixup fixup_prog1 [2];
  _result ACCEPT;
  _retval 42;
  _retval_unpriv 2].

Definition runtime_jit_tests : list bpf_test := [runtime_jit_1; runtime_jit_2; runtime_jit_3;
  runtime_jit_4; runtime_jit_5; runtime_jit_6; runtime_jit_7; runtime_jit_8; runtime_jit_9;
  runtime_jit_10; runtime_jit_11; runtime_jit_12; runtime_jit_13].

(** * [sock.c] *)

Definition sock_1 : bpf_test := TEST "skb->sk: no NULL check" [
  _insns
   [BPF_LDX_MEM BPF_DW BPF_REG_1 BPF_REG_1 (offsetof __sk_buff "sk");
    BPF_LDX_MEM BPF_W BPF_REG_0 BPF_REG_1 0; BPF_MOV64_IMM BPF_REG_0 0; BPF_EXIT_INSN];
  _prog_type BPF_PROG_TYPE_CGROUP_SKB;
  _result REJECT;
  _errstr "invalid mem access 'sock_common_or_null'"].

Definition sock_2 : bpf_test := TEST "skb->sk: sk->family [non fullsock field]" [
  _insns
   [BPF_LDX_MEM BPF_DW BPF_REG_1 BPF_REG_1 (offsetof __sk_buff "sk");
    BPF_JMP_IMM BPF_JNE BPF_REG_1 0 2; BPF_MOV64_IMM BPF_REG_0 0; BPF_EXIT_INSN;
    BPF_LDX_MEM BPF_W BPF_REG_0 BPF_REG_1 (offsetof bpf_sock "family");
    BPF_MOV64_IMM BPF_REG_0 0; BPF_EXIT_INSN];
  _prog_type BPF_PROG_TYPE_CGROUP_SKB;
  _result ACCEPT].

Definition sock_3 : bpf_test := TEST "skb->sk: sk->type [fullsock field]" [
  _insns
   [BPF_LDX_MEM BPF_DW BPF_REG_1 BPF_REG_1 (offsetof __sk_buff "sk");
    BPF_JMP_IMM BPF_JNE BPF_REG_1 0 2; BPF_MOV64_IMM BPF_REG_0 0; BPF_EXIT_INSN;
    BPF_LDX_MEM BPF_W BPF_REG_0 BPF_REG_1 (offsetof bpf_sock "type"); BPF_MOV64_IMM BPF_REG_0 0;
    BPF_EXIT_INSN];
  _prog_type BPF_PROG_TYPE_CGROUP_SKB;
  _result REJECT;
  _errstr "invalid sock_common access"].

Definition sock_4 : bpf_test := TEST "bpf_sk_fullsock(skb->sk): no !skb->sk check" [
  _insns
   [BPF_LDX_MEM BPF_DW BPF_REG_1 BPF_REG_1 (offsetof __sk_buff "sk");
    BPF_EMIT_CALL BPF_FUNC_sk_fullsock; BPF_MOV64_IMM BPF_REG_0 0; BPF_EXIT_INSN];
  _prog_type BPF_PROG_TYPE_CGROUP_SKB;
  _result REJECT;
  _errstr "type=sock_common_or_null expected=sock_common"].

Definition sock_5 : bpf_test := TEST "sk_fullsock(skb->sk): no NULL check on ret" [
  _insns
   [BPF_LDX_MEM BPF_DW BPF_REG_1 BPF_REG_1 (offsetof __sk_buff "sk");
    BPF_JMP_IMM BPF_JNE BPF_REG_1 0 2; BPF_MOV64_IMM BPF_REG_0 0; BPF_EXIT_INSN;
    BPF_EMIT_CALL BPF_FUNC_sk_fullsock;
    BPF_LDX_MEM BPF_W BPF_REG_0 BPF_REG_0 (offsetof bpf_sock "type"); BPF_MOV64_IMM BPF_REG_0 0;
    BPF_EXIT_INSN];
  _prog_type BPF_PROG_TYPE_CGROUP_SKB;
  _result REJECT;
  _errstr "invalid mem access 'sock_or_null'"].

Definition sock_6 : bpf_test := TEST "sk_fullsock(skb->sk): sk->type [fullsock field]" [
  _insns
   [BPF_LDX_MEM BPF_DW BPF_REG_1 BPF_REG_1 (offsetof __sk_buff "sk");
    BPF_JMP_IMM BPF_JNE BPF_REG_1 0 2; BPF_MOV64_IMM BPF_REG_0 0; BPF_EXIT_INSN;
    BPF_EMIT_CALL BPF_FUNC_sk_fullsock; BPF_JMP_IMM BPF_JNE BPF_REG_0 0 2;
    BPF_MOV64_IMM BPF_REG_0 0; BPF_EXIT_INSN;
    BPF_LDX_MEM BPF_W BPF_REG_0 BPF_REG_0 (offsetof bpf_sock "type"); BPF_MOV64_IMM BPF_REG_0 0;
    BPF_EXIT_INSN];
  _prog_type BPF_PROG_TYPE_CGROUP_SKB;
  _result ACCEPT].

Definition sock_7 : bpf_test := TEST "sk_fullsock(skb->sk): sk->family [non fullsock field]" [
  _insns
   [BPF_LDX_MEM BPF_DW BPF_REG_1 BPF_REG_1 (offsetof __sk_buff "sk");
    BPF_JMP_IMM BPF_JNE BPF_REG_1 0 2; BPF_MOV64_IMM BPF_REG_0 0; BPF_EXIT_INSN;
    BPF_EMIT_CALL BPF_FUNC_sk_fullsock; BPF_JMP_IMM BPF_JNE BPF_REG_0 0 1; BPF_EXIT_INSN;
    BPF_LDX_MEM BPF_W BPF_REG_0 BPF_REG_0 (offsetof bpf_sock "family");
    BPF_MOV64_IMM BPF_REG_0 0; BPF_EXIT_INSN];
  _prog_type BPF_PROG_TYPE_CGROUP_SKB;
  _result ACCEPT].

Definition sock_8 : bpf_test := TEST "sk_fullsock(skb->sk): sk->state [narrow load]" [
  _insns
   [BPF_LDX_MEM BPF_DW BPF_REG_1 BPF_REG_1 (offsetof __sk_buff "sk");
    BPF_JMP_IMM BPF_JNE BPF_REG_1 0 2; BPF_MOV64_IMM BPF_REG_0 0; BPF_EXIT_INSN;
    BPF_EMIT_CALL BPF_FUNC_sk_fullsock; BPF_JMP_IMM BPF_JNE BPF_REG_0 0 2;
    BPF_MOV64_IMM BPF_REG_0 0; BPF_EXIT_INSN;
    BPF_LDX_MEM BPF_B BPF_REG_0 BPF_REG_0 (offsetof bpf_sock "state");
    BPF_MOV64_IMM BPF_REG_0 0; BPF_EXIT_INSN];
  _prog_type BPF_PROG_TYPE_CGROUP_SKB;
  _result ACCEPT].

Definition sock_9 : bpf_test := TEST "sk_fullsock(skb->sk): sk->dst_port [word load] (backward compatibility)" [
  _insns
   [BPF_LDX_MEM BPF_DW BPF_REG_1 BPF_REG_1 (offsetof __sk_buff "sk");
    BPF_JMP_IMM BPF_JNE BPF_REG_1 0 2; BPF_MOV64_IMM BPF_REG_0 0; BPF_EXIT_INSN;
    BPF_EMIT_CALL BPF_FUNC_sk_fullsock; BPF_JMP_IMM BPF_JNE BPF_REG_0 0 2;
    BPF_MOV64_IMM BPF_REG_0 0; BPF_EXIT_INSN;
    BPF_LDX_MEM BPF_W BPF_REG_0 BPF_REG_0 (offsetof bpf_sock "dst_port");
    BPF_MOV64_IMM BPF_REG_0 0; BPF_EXIT_INSN];
  _prog_type BPF_PROG_TYPE_CGROUP_SKB;
  _result ACCEPT].

Definition sock_10 : bpf_test := TEST "sk_fullsock(skb->sk): sk->dst_port [half load]" [
  _insns
   [BPF_LDX_MEM BPF_DW BPF_REG_1 BPF_REG_1 (offsetof __sk_buff "sk");
    BPF_JMP_IMM BPF_JNE BPF_REG_1 0 2; BPF_MOV64_IMM BPF_REG_0 0; BPF_EXIT_INSN;
    BPF_EMIT_CALL BPF_FUNC_sk_fullsock; BPF_JMP_IMM BPF_JNE BPF_REG_0 0 2;
    BPF_MOV64_IMM BPF_REG_0 0; BPF_EXIT_INSN;
    BPF_LDX_MEM BPF_H BPF_REG_0 BPF_REG_0 (offsetof bpf_sock "dst_port");
    BPF_MOV64_IMM BPF_REG_0 0; BPF_EXIT_INSN];
  _prog_type BPF_PROG_TYPE_CGROUP_SKB;
  _result ACCEPT].

Definition sock_11 : bpf_test := TEST "sk_fullsock(skb->sk): sk->dst_port [half load] (invalid)" [
  _insns
   [BPF_LDX_MEM BPF_DW BPF_REG_1 BPF_REG_1 (offsetof __sk_buff "sk");
    BPF_JMP_IMM BPF_JNE BPF_REG_1 0 2; BPF_MOV64_IMM BPF_REG_0 0; BPF_EXIT_INSN;
    BPF_EMIT_CALL BPF_FUNC_sk_fullsock; BPF_JMP_IMM BPF_JNE BPF_REG_0 0 2;
    BPF_MOV64_IMM BPF_REG_0 0; BPF_EXIT_INSN;
    BPF_LDX_MEM BPF_H BPF_REG_0 BPF_REG_0 ((offsetof bpf_sock "dst_port") + 2);
    BPF_MOV64_IMM BPF_REG_0 0; BPF_EXIT_INSN];
  _prog_type BPF_PROG_TYPE_CGROUP_SKB;
  _result REJECT;
  _errstr "invalid sock access"].

Definition sock_12 : bpf_test := TEST "sk_fullsock(skb->sk): sk->dst_port [byte load]" [
  _insns
   [BPF_LDX_MEM BPF_DW BPF_REG_1 BPF_REG_1 (offsetof __sk_buff "sk");
    BPF_JMP_IMM BPF_JNE BPF_REG_1 0 2; BPF_MOV64_IMM BPF_REG_0 0; BPF_EXIT_INSN;
    BPF_EMIT_CALL BPF_FUNC_sk_fullsock; BPF_JMP_IMM BPF_JNE BPF_REG_0 0 2;
    BPF_MOV64_IMM BPF_REG_0 0; BPF_EXIT_INSN;
    BPF_LDX_MEM BPF_B BPF_REG_2 BPF_REG_0 (offsetof bpf_sock "dst_port");
    BPF_LDX_MEM BPF_B BPF_REG_2 BPF_REG_0 ((offsetof bpf_sock "dst_port") + 1);
    BPF_MOV64_IMM BPF_REG_0 0; BPF_EXIT_INSN];
  _prog_type BPF_PROG_TYPE_CGROUP_SKB;
  _result ACCEPT].

Definition sock_13 : bpf_test := TEST "sk_fullsock(skb->sk): sk->dst_port [byte load] (invalid)" [
  _insns
   [BPF_LDX_MEM BPF_DW BPF_REG_1 BPF_REG_1 (offsetof __sk_buff "sk");
    BPF_JMP_IMM BPF_JNE BPF_REG_1 0 2; BPF_MOV64_IMM BPF_REG_0 0; BPF_EXIT_INSN;
    BPF_EMIT_CALL BPF_FUNC_sk_fullsock; BPF_JMP_IMM BPF_JNE BPF_REG_0 0 2;
    BPF_MOV64_IMM BPF_REG_0 0; BPF_EXIT_INSN;
    BPF_LDX_MEM BPF_B BPF_REG_0 BPF_REG_0 ((offsetof bpf_sock "dst_port") + 2);
    BPF_MOV64_IMM BPF_REG_0 0; BPF_EXIT_INSN];
  _prog_type BPF_PROG_TYPE_CGROUP_SKB;
  _result REJECT;
  _errstr "invalid sock access"].

Definition sock_14 : bpf_test := TEST "sk_fullsock(skb->sk): past sk->dst_port [half load] (invalid)" [
  _insns
   [BPF_LDX_MEM BPF_DW BPF_REG_1 BPF_REG_1 (offsetof __sk_buff "sk");
    BPF_JMP_IMM BPF_JNE BPF_REG_1 0 2; BPF_MOV64_IMM BPF_REG_0 0; BPF_EXIT_INSN;
    BPF_EMIT_CALL BPF_FUNC_sk_fullsock; BPF_JMP_IMM BPF_JNE BPF_REG_0 0 2;
    BPF_MOV64_IMM BPF_REG_0 0; BPF_EXIT_INSN;
    BPF_LDX_MEM BPF_H BPF_REG_0 BPF_REG_0 (offsetofend bpf_sock "dst_port");
    BPF_MOV64_IMM BPF_REG_0 0; BPF_EXIT_INSN];
  _prog_type BPF_PROG_TYPE_CGROUP_SKB;
  _result REJECT;
  _errstr "invalid sock access"].

Definition sock_15 : bpf_test := TEST "sk_fullsock(skb->sk): sk->dst_ip6 [load 2nd byte]" [
  _insns
   [BPF_LDX_MEM BPF_DW BPF_REG_1 BPF_REG_1 (offsetof __sk_buff "sk");
    BPF_JMP_IMM BPF_JNE BPF_REG_1 0 2; BPF_MOV64_IMM BPF_REG_0 0; BPF_EXIT_INSN;
    BPF_EMIT_CALL BPF_FUNC_sk_fullsock; BPF_JMP_IMM BPF_JNE BPF_REG_0 0 2;
    BPF_MOV64_IMM BPF_REG_0 0; BPF_EXIT_INSN;
    BPF_LDX_MEM BPF_B BPF_REG_0 BPF_REG_0 ((offsetof_idx bpf_sock "dst_ip6" 0) + 1);
    BPF_MOV64_IMM BPF_REG_0 0; BPF_EXIT_INSN];
  _prog_type BPF_PROG_TYPE_CGROUP_SKB;
  _result ACCEPT].

Definition sock_16 : bpf_test := TEST "sk_fullsock(skb->sk): sk->type [narrow load]" [
  _insns
   [BPF_LDX_MEM BPF_DW BPF_REG_1 BPF_REG_1 (offsetof __sk_buff "sk");
    BPF_JMP_IMM BPF_JNE BPF_REG_1 0 2; BPF_MOV64_IMM BPF_REG_0 0; BPF_EXIT_INSN;
    BPF_EMIT_CALL BPF_FUNC_sk_fullsock; BPF_JMP_IMM BPF_JNE BPF_REG_0 0 2;
    BPF_MOV64_IMM BPF_REG_0 0; BPF_EXIT_INSN;
    BPF_LDX_MEM BPF_B BPF_REG_0 BPF_REG_0 (offsetof bpf_sock "type"); BPF_MOV64_IMM BPF_REG_0 0;
    BPF_EXIT_INSN];
  _prog_type BPF_PROG_TYPE_CGROUP_SKB;
  _result ACCEPT].

Definition sock_17 : bpf_test := TEST "sk_fullsock(skb->sk): sk->protocol [narrow load]" [
  _insns
   [BPF_LDX_MEM BPF_DW BPF_REG_1 BPF_REG_1 (offsetof __sk_buff "sk");
    BPF_JMP_IMM BPF_JNE BPF_REG_1 0 2; BPF_MOV64_IMM BPF_REG_0 0; BPF_EXIT_INSN;
    BPF_EMIT_CALL BPF_FUNC_sk_fullsock; BPF_JMP_IMM BPF_JNE BPF_REG_0 0 2;
    BPF_MOV64_IMM BPF_REG_0 0; BPF_EXIT_INSN;
    BPF_LDX_MEM BPF_B BPF_REG_0 BPF_REG_0 (offsetof bpf_sock "protocol");
    BPF_MOV64_IMM BPF_REG_0 0; BPF_EXIT_INSN];
  _prog_type BPF_PROG_TYPE_CGROUP_SKB;
  _result ACCEPT].

Definition sock_18 : bpf_test := TEST "sk_fullsock(skb->sk): beyond last field" [
  _insns
   [BPF_LDX_MEM BPF_DW BPF_REG_1 BPF_REG_1 (offsetof __sk_buff "sk");
    BPF_JMP_IMM BPF_JNE BPF_REG_1 0 2; BPF_MOV64_IMM BPF_REG_0 0; BPF_EXIT_INSN;
    BPF_EMIT_CALL BPF_FUNC_sk_fullsock; BPF_JMP_IMM BPF_JNE BPF_REG_0 0 2;
    BPF_MOV64_IMM BPF_REG_0 0; BPF_EXIT_INSN;
    BPF_LDX_MEM BPF_W BPF_REG_0 BPF_REG_0 (offsetofend bpf_sock "rx_queue_mapping");
    BPF_MOV64_IMM BPF_REG_0 0; BPF_EXIT_INSN];
  _prog_type BPF_PROG_TYPE_CGROUP_SKB;
  _result REJECT;
  _errstr "invalid sock access"].

Definition sock_19 : bpf_test := TEST "bpf_tcp_sock(skb->sk): no !skb->sk check" [
  _insns
   [BPF_LDX_MEM BPF_DW BPF_REG_1 BPF_REG_1 (offsetof __sk_buff "sk");
    BPF_EMIT_CALL BPF_FUNC_tcp_sock; BPF_MOV64_IMM BPF_REG_0 0; BPF_EXIT_INSN];
  _prog_type BPF_PROG_TYPE_CGROUP_SKB;
  _result REJECT;
  _errstr "type=sock_common_or_null expected=sock_common"].

Definition sock_20 : bpf_test := TEST "bpf_tcp_sock(skb->sk): no NULL check on ret" [
  _insns
   [BPF_LDX_MEM BPF_DW BPF_REG_1 BPF_REG_1 (offsetof __sk_buff "sk");
    BPF_JMP_IMM BPF_JNE BPF_REG_1 0 2; BPF_MOV64_IMM BPF_REG_0 0; BPF_EXIT_INSN;
    BPF_EMIT_CALL BPF_FUNC_tcp_sock;
    BPF_LDX_MEM BPF_W BPF_REG_0 BPF_REG_0 (offsetof bpf_tcp_sock "snd_cwnd");
    BPF_MOV64_IMM BPF_REG_0 0; BPF_EXIT_INSN];
  _prog_type BPF_PROG_TYPE_CGROUP_SKB;
  _result REJECT;
  _errstr "invalid mem access 'tcp_sock_or_null'"].

Definition sock_21 : bpf_test := TEST "bpf_tcp_sock(skb->sk): tp->snd_cwnd" [
  _insns
   [BPF_LDX_MEM BPF_DW BPF_REG_1 BPF_REG_1 (offsetof __sk_buff "sk");
    BPF_JMP_IMM BPF_JNE BPF_REG_1 0 2; BPF_MOV64_IMM BPF_REG_0 0; BPF_EXIT_INSN;
    BPF_EMIT_CALL BPF_FUNC_tcp_sock; BPF_JMP_IMM BPF_JNE BPF_REG_0 0 1; BPF_EXIT_INSN;
    BPF_LDX_MEM BPF_W BPF_REG_0 BPF_REG_0 (offsetof bpf_tcp_sock "snd_cwnd");
    BPF_MOV64_IMM BPF_REG_0 0; BPF_EXIT_INSN];
  _prog_type BPF_PROG_TYPE_CGROUP_SKB;
  _result ACCEPT].

Definition sock_22 : bpf_test := TEST "bpf_tcp_sock(skb->sk): tp->bytes_acked" [
  _insns
   [BPF_LDX_MEM BPF_DW BPF_REG_1 BPF_REG_1 (offsetof __sk_buff "sk");
    BPF_JMP_IMM BPF_JNE BPF_REG_1 0 2; BPF_MOV64_IMM BPF_REG_0 0; BPF_EXIT_INSN;
    BPF_EMIT_CALL BPF_FUNC_tcp_sock; BPF_JMP_IMM BPF_JNE BPF_REG_0 0 1; BPF_EXIT_INSN;
    BPF_LDX_MEM BPF_DW BPF_REG_0 BPF_REG_0 (offsetof bpf_tcp_sock "bytes_acked");
    BPF_MOV64_IMM BPF_REG_0 0; BPF_EXIT_INSN];
  _prog_type BPF_PROG_TYPE_CGROUP_SKB;
  _result ACCEPT].

Definition sock_23 : bpf_test := TEST "bpf_tcp_sock(skb->sk): beyond last field" [
  _insns
   [BPF_LDX_MEM BPF_DW BPF_REG_1 BPF_REG_1 (offsetof __sk_buff "sk");
    BPF_JMP_IMM BPF_JNE BPF_REG_1 0 2; BPF_MOV64_IMM BPF_REG_0 0; BPF_EXIT_INSN;
    BPF_EMIT_CALL BPF_FUNC_tcp_sock; BPF_JMP_IMM BPF_JNE BPF_REG_0 0 1; BPF_EXIT_INSN;
    BPF_LDX_MEM BPF_DW BPF_REG_0 BPF_REG_0 (offsetofend bpf_tcp_sock "bytes_acked");
    BPF_MOV64_IMM BPF_REG_0 0; BPF_EXIT_INSN];
  _prog_type BPF_PROG_TYPE_CGROUP_SKB;
  _result REJECT;
  _errstr "invalid tcp_sock access"].

Definition sock_24 : bpf_test := TEST "bpf_tcp_sock(bpf_sk_fullsock(skb->sk)): tp->snd_cwnd" [
  _insns
   [BPF_LDX_MEM BPF_DW BPF_REG_1 BPF_REG_1 (offsetof __sk_buff "sk");
    BPF_JMP_IMM BPF_JNE BPF_REG_1 0 2; BPF_MOV64_IMM BPF_REG_0 0; BPF_EXIT_INSN;
    BPF_EMIT_CALL BPF_FUNC_sk_fullsock; BPF_JMP_IMM BPF_JNE BPF_REG_0 0 1; BPF_EXIT_INSN;
    BPF_MOV64_REG BPF_REG_1 BPF_REG_0; BPF_EMIT_CALL BPF_FUNC_tcp_sock;
    BPF_JMP_IMM BPF_JNE BPF_REG_0 0 1; BPF_EXIT_INSN;
    BPF_LDX_MEM BPF_W BPF_REG_0 BPF_REG_0 (offsetof bpf_tcp_sock "snd_cwnd");
    BPF_MOV64_IMM BPF_REG_0 0; BPF_EXIT_INSN];
  _prog_type BPF_PROG_TYPE_CGROUP_SKB;
  _result ACCEPT].

Definition sock_25 : bpf_test := TEST "bpf_sk_release(skb->sk)" [
  _insns
   [BPF_LDX_MEM BPF_DW BPF_REG_1 BPF_REG_1 (offsetof __sk_buff "sk");
    BPF_JMP_IMM BPF_JEQ BPF_REG_1 0 1; BPF_EMIT_CALL BPF_FUNC_sk_release;
    BPF_MOV64_IMM BPF_REG_0 0; BPF_EXIT_INSN];
  _prog_type BPF_PROG_TYPE_SCHED_CLS;
  _result REJECT;
  _errstr "reference has not been acquired before"].

Definition sock_26 : bpf_test := TEST "bpf_sk_release(bpf_sk_fullsock(skb->sk))" [
  _insns
   [BPF_LDX_MEM BPF_DW BPF_REG_1 BPF_REG_1 (offsetof __sk_buff "sk");
    BPF_JMP_IMM BPF_JNE BPF_REG_1 0 2; BPF_MOV64_IMM BPF_REG_0 0; BPF_EXIT_INSN;
    BPF_EMIT_CALL BPF_FUNC_sk_fullsock; BPF_JMP_IMM BPF_JNE BPF_REG_0 0 1; BPF_EXIT_INSN;
    BPF_MOV64_REG BPF_REG_1 BPF_REG_0; BPF_EMIT_CALL BPF_FUNC_sk_release;
    BPF_MOV64_IMM BPF_REG_0 1; BPF_EXIT_INSN];
  _prog_type BPF_PROG_TYPE_SCHED_CLS;
  _result REJECT;
  _errstr "reference has not been acquired before"].

Definition sock_27 : bpf_test := TEST "bpf_sk_release(bpf_tcp_sock(skb->sk))" [
  _insns
   [BPF_LDX_MEM BPF_DW BPF_REG_1 BPF_REG_1 (offsetof __sk_buff "sk");
    BPF_JMP_IMM BPF_JNE BPF_REG_1 0 2; BPF_MOV64_IMM BPF_REG_0 0; BPF_EXIT_INSN;
    BPF_EMIT_CALL BPF_FUNC_tcp_sock; BPF_JMP_IMM BPF_JNE BPF_REG_0 0 1; BPF_EXIT_INSN;
    BPF_MOV64_REG BPF_REG_1 BPF_REG_0; BPF_EMIT_CALL BPF_FUNC_sk_release;
    BPF_MOV64_IMM BPF_REG_0 1; BPF_EXIT_INSN];
  _prog_type BPF_PROG_TYPE_SCHED_CLS;
  _result REJECT;
  _errstr "reference has not been acquired before"].

Definition sock_28 : bpf_test := TEST "sk_storage_get(map, skb->sk, NULL, 0): value == NULL" [
  _insns
   [BPF_LDX_MEM BPF_DW BPF_REG_1 BPF_REG_1 (offsetof __sk_buff "sk");
    BPF_JMP_IMM BPF_JNE BPF_REG_1 0 2; BPF_MOV64_IMM BPF_REG_0 0; BPF_EXIT_INSN;
    BPF_EMIT_CALL BPF_FUNC_sk_fullsock; BPF_JMP_IMM BPF_JNE BPF_REG_0 0 2;
    BPF_MOV64_IMM BPF_REG_0 0; BPF_EXIT_INSN; BPF_MOV64_IMM BPF_REG_4 0;
    BPF_MOV64_IMM BPF_REG_3 0; BPF_MOV64_REG BPF_REG_2 BPF_REG_0; BPF_LD_MAP_FD BPF_REG_1 0;
    BPF_EMIT_CALL BPF_FUNC_sk_storage_get; BPF_MOV64_IMM BPF_REG_0 0; BPF_EXIT_INSN];
  _fixup fixup_sk_storage_map [11];
  _prog_type BPF_PROG_TYPE_SCHED_CLS;
  _result ACCEPT].

Definition sock_29 : bpf_test := TEST "sk_storage_get(map, skb->sk, 1, 1): value == 1" [
  _insns
   [BPF_LDX_MEM BPF_DW BPF_REG_1 BPF_REG_1 (offsetof __sk_buff "sk");
    BPF_JMP_IMM BPF_JNE BPF_REG_1 0 2; BPF_MOV64_IMM BPF_REG_0 0; BPF_EXIT_INSN;
    BPF_EMIT_CALL BPF_FUNC_sk_fullsock; BPF_JMP_IMM BPF_JNE BPF_REG_0 0 2;
    BPF_MOV64_IMM BPF_REG_0 0; BPF_EXIT_INSN; BPF_MOV64_IMM BPF_REG_4 1;
    BPF_MOV64_IMM BPF_REG_3 1; BPF_MOV64_REG BPF_REG_2 BPF_REG_0; BPF_LD_MAP_FD BPF_REG_1 0;
    BPF_EMIT_CALL BPF_FUNC_sk_storage_get; BPF_MOV64_IMM BPF_REG_0 0; BPF_EXIT_INSN];
  _fixup fixup_sk_storage_map [11];
  _prog_type BPF_PROG_TYPE_SCHED_CLS;
  _result REJECT;
  _errstr "R3 type=inv expected=fp"].

Definition sock_30 : bpf_test := TEST "sk_storage_get(map, skb->sk, &stack_value, 1): stack_value" [
  _insns
   [BPF_MOV64_IMM BPF_REG_2 0; BPF_STX_MEM BPF_DW BPF_REG_10 BPF_REG_2 (-8);
    BPF_LDX_MEM BPF_DW BPF_REG_1 BPF_REG_1 (offsetof __sk_buff "sk");
    BPF_JMP_IMM BPF_JNE BPF_REG_1 0 2; BPF_MOV64_IMM BPF_REG_0 0; BPF_EXIT_INSN;
    BPF_EMIT_CALL BPF_FUNC_sk_fullsock; BPF_JMP_IMM BPF_JNE BPF_REG_0 0 2;
    BPF_MOV64_IMM BPF_REG_0 0; BPF_EXIT_INSN; BPF_MOV64_IMM BPF_REG_4 1;
    BPF_MOV64_REG BPF_REG_3 BPF_REG_10; BPF_ALU64_IMM BPF_ADD BPF_REG_3 (-8);
    BPF_MOV64_REG BPF_REG_2 BPF_REG_0; BPF_LD_MAP_FD BPF_REG_1 0;
    BPF_EMIT_CALL BPF_FUNC_sk_storage_get; BPF_MOV64_IMM BPF_REG_0 0; BPF_EXIT_INSN];
  _fixup fixup_sk_storage_map [14];
  _prog_type BPF_PROG_TYPE_SCHED_CLS;
  _result ACCEPT].

Definition sock_31 : bpf_test := TEST "bpf_map_lookup_elem(smap, &key)" [
  _insns
   [BPF_ST_MEM BPF_W BPF_REG_10 (-4) 0; BPF_MOV64_REG BPF_REG_2 BPF_REG_10;
    BPF_ALU64_IMM BPF_ADD BPF_REG_2 (-4); BPF_LD_MAP_FD BPF_REG_1 0;
    BPF_EMIT_CALL BPF_FUNC_map_lookup_elem; BPF_MOV64_IMM BPF_REG_0 0; BPF_EXIT_INSN];
  _fixup fixup_sk_storage_map [3];
  _prog_type BPF_PROG_TYPE_SCHED_CLS;
  _result REJECT;
  _errstr "cannot pass map_type 24 into func bpf_map_lookup_elem"].

Definition sock_32 : bpf_test := TEST "bpf_map_lookup_elem(xskmap, &key); xs->queue_id" [
  _insns
   [BPF_ST_MEM BPF_W BPF_REG_10 (-8) 0; BPF_MOV64_REG BPF_REG_2 BPF_REG_10;
    BPF_ALU64_IMM BPF_ADD BPF_REG_2 (-8); BPF_LD_MAP_FD BPF_REG_1 0;
    BPF_EMIT_CALL BPF_FUNC_map_lookup_elem; BPF_JMP_IMM BPF_JNE BPF_REG_0 0 1; BPF_EXIT_INSN;
    BPF_LDX_MEM BPF_W BPF_REG_0 BPF_REG_0 (offsetof bpf_xdp_sock "queue_id");
    BPF_MOV64_IMM BPF_REG_0 0; BPF_EXIT_INSN];
  _fixup fixup_map_xskmap [3];
  _prog_type BPF_PROG_TYPE_XDP;
  _result ACCEPT].

Definition sock_33 : bpf_test := TEST "bpf_map_lookup_elem(sockmap, &key)" [
  _insns
   [BPF_ST_MEM BPF_W BPF_REG_10 (-4) 0; BPF_MOV64_REG BPF_REG_2 BPF_REG_10;
    BPF_ALU64_IMM BPF_ADD BPF_REG_2 (-4); BPF_LD_MAP_FD BPF_REG_1 0;
    BPF_EMIT_CALL BPF_FUNC_map_lookup_elem; BPF_MOV64_IMM BPF_REG_0 0; BPF_EXIT_INSN];
  _fixup fixup_map_sockmap [3];
  _prog_type BPF_PROG_TYPE_SK_SKB;
  _result REJECT;
  _errstr "Unreleased reference id=2 alloc_insn=5"].

Definition sock_34 : bpf_test := TEST "bpf_map_lookup_elem(sockhash, &key)" [
  _insns
   [BPF_ST_MEM BPF_W BPF_REG_10 (-4) 0; BPF_MOV64_REG BPF_REG_2 BPF_REG_10;
    BPF_ALU64_IMM BPF_ADD BPF_REG_2 (-4); BPF_LD_MAP_FD BPF_REG_1 0;
    BPF_EMIT_CALL BPF_FUNC_map_lookup_elem; BPF_MOV64_IMM BPF_REG_0 0; BPF_EXIT_INSN];
  _fixup fixup_map_sockhash [3];
  _prog_type BPF_PROG_TYPE_SK_SKB;
  _result REJECT;
  _errstr "Unreleased reference id=2 alloc_insn=5"].

Definition sock_35 : bpf_test := TEST "bpf_map_lookup_elem(sockmap, &key); sk->type [fullsock field]; bpf_sk_release(sk)" [
  _insns
   [BPF_ST_MEM BPF_W BPF_REG_10 (-4) 0; BPF_MOV64_REG BPF_REG_2 BPF_REG_10;
    BPF_ALU64_IMM BPF_ADD BPF_REG_2 (-4); BPF_LD_MAP_FD BPF_REG_1 0;
    BPF_EMIT_CALL BPF_FUNC_map_lookup_elem; BPF_JMP_IMM BPF_JNE BPF_REG_0 0 1; BPF_EXIT_INSN;
    BPF_MOV64_REG BPF_REG_1 BPF_REG_0;
    BPF_LDX_MEM BPF_W BPF_REG_0 BPF_REG_0 (offsetof bpf_sock "type");
    BPF_EMIT_CALL BPF_FUNC_sk_release; BPF_EXIT_INSN];
  _fixup fixup_map_sockmap [3];
  _prog_type BPF_PROG_TYPE_SK_SKB;
  _result ACCEPT].

Definition sock_36 : bpf_test := TEST "bpf_map_lookup_elem(sockhash, &key); sk->type [fullsock field]; bpf_sk_release(sk)" [
  _insns
   [BPF_ST_MEM BPF_W BPF_REG_10 (-4) 0; BPF_MOV64_REG BPF_REG_2 BPF_REG_10;
    BPF_ALU64_IMM BPF_ADD BPF_REG_2 (-4); BPF_LD_MAP_FD BPF_REG_1 0;
    BPF_EMIT_CALL BPF_FUNC_map_lookup_elem; BPF_JMP_IMM BPF_JNE BPF_REG_0 0 1; BPF_EXIT_INSN;
    BPF_MOV64_REG BPF_REG_1 BPF_REG_0;
    BPF_LDX_MEM BPF_W BPF_REG_0 BPF_REG_0 (offsetof bpf_sock "type");
    BPF_EMIT_CALL BPF_FUNC_sk_release; BPF_EXIT_INSN];
  _fixup fixup_map_sockhash [3];
  _prog_type BPF_PROG_TYPE_SK_SKB;
  _result ACCEPT].

Definition sock_37 : bpf_test := TEST "bpf_sk_select_reuseport(ctx, reuseport_array, &key, flags)" [
  _insns
   [BPF_MOV64_IMM BPF_REG_4 0; BPF_ST_MEM BPF_W BPF_REG_10 (-4) 0;
    BPF_MOV64_REG BPF_REG_3 BPF_REG_10; BPF_ALU64_IMM BPF_ADD BPF_REG_3 (-4);
    BPF_LD_MAP_FD BPF_REG_2 0; BPF_EMIT_CALL BPF_FUNC_sk_select_reuseport; BPF_EXIT_INSN];
  _fixup fixup_map_reuseport_array [4];
  _prog_type BPF_PROG_TYPE_SK_REUSEPORT;
  _result ACCEPT].

Definition sock_38 : bpf_test := TEST "bpf_sk_select_reuseport(ctx, sockmap, &key, flags)" [
  _insns
   [BPF_MOV64_IMM BPF_REG_4 0; BPF_ST_MEM BPF_W BPF_REG_10 (-4) 0;
    BPF_MOV64_REG BPF_REG_3 BPF_REG_10; BPF_ALU64_IMM BPF_ADD BPF_REG_3 (-4);
    BPF_LD_MAP_FD BPF_REG_2 0; BPF_EMIT_CALL BPF_FUNC_sk_select_reuseport; BPF_EXIT_INSN];
  _fixup fixup_map_sockmap [4];
  _prog_type BPF_PROG_TYPE_SK_REUSEPORT;
  _result ACCEPT].

Definition sock_39 : bpf_test := TEST "bpf_sk_select_reuseport(ctx, sockhash, &key, flags)" [
  _insns
   [BPF_MOV64_IMM BPF_REG_4 0; BPF_ST_MEM BPF_W BPF_REG_10 (-4) 0;
    BPF_MOV64_REG BPF_REG_3 BPF_REG_10; BPF_ALU64_IMM BPF_ADD BPF_REG_3 (-4);
    BPF_LD_MAP_FD BPF_REG_2 0; BPF_EMIT_CALL BPF_FUNC_sk_select_reuseport; BPF_EXIT_INSN];
  _fixup fixup_map_sockmap [4];
  _prog_type BPF_PROG_TYPE_SK_REUSEPORT;
  _result ACCEPT].

Definition sock_40 : bpf_test := TEST "mark null check on return value of bpf_skc_to helpers" [
  _insns
   [BPF_LDX_MEM BPF_DW BPF_REG_1 BPF_REG_1 (offsetof __sk_buff "sk");
    BPF_JMP_IMM BPF_JNE BPF_REG_1 0 2; BPF_MOV64_IMM BPF_REG_0 0; BPF_EXIT_INSN;
    BPF_MOV64_REG BPF_REG_6 BPF_REG_1; BPF_EMIT_CALL BPF_FUNC_skc_to_tcp_sock;
    BPF_MOV64_REG BPF_REG_7 BPF_REG_0; BPF_MOV64_REG BPF_REG_1 BPF_REG_6;
    BPF_EMIT_CALL BPF_FUNC_skc_to_tcp_request_sock; BPF_MOV64_REG BPF_REG_8 BPF_REG_0;
    BPF_JMP_IMM BPF_JNE BPF_REG_8 0 2; BPF_MOV64_IMM BPF_REG_0 0; BPF_EXIT_INSN;
    BPF_LDX_MEM BPF_B BPF_REG_0 BPF_REG_7 0; BPF_EXIT_INSN];
  _prog_type BPF_PROG_TYPE_SCHED_CLS;
  _result REJECT;
  _errstr "invalid mem access";
  _result_unpriv REJECT;
  _errstr_unpriv "unknown func"].

Definition sock_tests : list bpf_test := [sock_1; sock_2; sock_3; sock_4; sock_5; sock_6; sock_7;
  sock_8; sock_9; sock_10; sock_11; sock_12; sock_13; sock_14; sock_15; sock_16; sock_17; sock_18;
  sock_19; sock_20; sock_21; sock_22; sock_23; sock_24; sock_25; sock_26; sock_27; sock_28; sock_29;
  sock_30; sock_31; sock_32; sock_33; sock_34; sock_35; sock_36; sock_37; sock_38; sock_39;
  sock_40].

End LegacyCall.
