(* ===== verification/LegacyBackport.v ===== *)
(** Verifier tests of the repository, newer instructions: sign extension, long jumps, acquire and release, iterators.

    Each definition is one element of a file of [selftests/legacy/verifier_backport],
    written with the macros of [BpfInsn] and the designators of [ConvertTests];
    a list per file gives them in the order of the file. *)

From S2P Require Import Prelude BpfInsn ConvertTests.
From Stdlib Require Import ZArith String.
From stdpp Require Import base strings list.
Import BpfInsn ConvertTests.
Open Scope Z_scope.

Module LegacyBackport.

(** * [exceptions.c] *)

Definition exceptions_1 : bpf_test := TEST "bpf_throw terminates the program" [
  _insns
   [BPF_MOV64_IMM BPF_REG_1 0; BPF_RAW_INSN (BPF_JMP .| BPF_CALL) 0 2 0 112;
    BPF_MOV64_IMM BPF_REG_0 0; BPF_EXIT_INSN];
  _result ACCEPT;
  _prog_type BPF_PROG_TYPE_TRACING].

Definition exceptions_2 : bpf_test := TEST "bpf_set_exception_callback accepted as no-op" [
  _insns
   [BPF_MOV64_IMM BPF_REG_1 0; BPF_RAW_INSN (BPF_JMP .| BPF_CALL) 0 2 0 113;
    BPF_MOV64_IMM BPF_REG_0 0; BPF_EXIT_INSN];
  _result ACCEPT;
  _prog_type BPF_PROG_TYPE_TRACING].

Definition exceptions_3 : bpf_test := TEST "set_exception_callback then throw" [
  _insns
   [BPF_MOV64_IMM BPF_REG_1 0; BPF_RAW_INSN (BPF_JMP .| BPF_CALL) 0 2 0 113;
    BPF_MOV64_IMM BPF_REG_1 7; BPF_RAW_INSN (BPF_JMP .| BPF_CALL) 0 2 0 112;
    BPF_MOV64_IMM BPF_REG_0 0; BPF_EXIT_INSN];
  _result ACCEPT;
  _prog_type BPF_PROG_TYPE_TRACING].

Definition exceptions_tests : list bpf_test := [exceptions_1; exceptions_2; exceptions_3].

(** * [gotol.c] *)

Definition gotol_1 : bpf_test := TEST "gotol, small_imm" [
  _insns
   [BPF_RAW_INSN (BPF_JMP .| BPF_CALL) 0 0 0 BPF_FUNC_ktime_get_ns;
    BPF_JMP_IMM BPF_JEQ BPF_REG_0 0 4; BPF_RAW_INSN 0x06 0 0 0 1; BPF_RAW_INSN 0x06 0 0 0 3;
    BPF_MOV64_IMM BPF_REG_0 1; BPF_RAW_INSN 0x06 0 0 0 (-3); BPF_MOV64_IMM BPF_REG_0 2;
    BPF_EXIT_INSN];
  _result ACCEPT].

Definition gotol_tests : list bpf_test := [gotol_1].

(** * [iters.c] *)

Definition iters_1 : bpf_test := TEST "iter_num basic new+destroy" [
  _insns
   [BPF_MOV64_REG BPF_REG_1 BPF_REG_10; BPF_ALU64_IMM BPF_ADD BPF_REG_1 (-8);
    BPF_RAW_INSN (BPF_JMP .| BPF_CALL) 0 2 0 100; BPF_MOV64_REG BPF_REG_1 BPF_REG_10;
    BPF_ALU64_IMM BPF_ADD BPF_REG_1 (-8); BPF_RAW_INSN (BPF_JMP .| BPF_CALL) 0 2 0 102;
    BPF_MOV64_IMM BPF_REG_0 0; BPF_EXIT_INSN];
  _result ACCEPT;
  _prog_type BPF_PROG_TYPE_TRACING].

Definition iters_2 : bpf_test := TEST "iter_num missing destroy" [
  _insns
   [BPF_MOV64_REG BPF_REG_1 BPF_REG_10; BPF_ALU64_IMM BPF_ADD BPF_REG_1 (-8);
    BPF_RAW_INSN (BPF_JMP .| BPF_CALL) 0 2 0 100; BPF_MOV64_IMM BPF_REG_0 0; BPF_EXIT_INSN];
  _result REJECT;
  _prog_type BPF_PROG_TYPE_TRACING].

Definition iters_3 : bpf_test := TEST "iter_num destroy without init" [
  _insns
   [BPF_MOV64_REG BPF_REG_1 BPF_REG_10; BPF_ALU64_IMM BPF_ADD BPF_REG_1 (-8);
    BPF_RAW_INSN (BPF_JMP .| BPF_CALL) 0 2 0 102; BPF_MOV64_IMM BPF_REG_0 0; BPF_EXIT_INSN];
  _result REJECT;
  _prog_type BPF_PROG_TYPE_TRACING].

Definition iters_4 : bpf_test := TEST "iter_num double init" [
  _insns
   [BPF_MOV64_REG BPF_REG_1 BPF_REG_10; BPF_ALU64_IMM BPF_ADD BPF_REG_1 (-8);
    BPF_RAW_INSN (BPF_JMP .| BPF_CALL) 0 2 0 100; BPF_MOV64_REG BPF_REG_1 BPF_REG_10;
    BPF_ALU64_IMM BPF_ADD BPF_REG_1 (-8); BPF_RAW_INSN (BPF_JMP .| BPF_CALL) 0 2 0 100;
    BPF_MOV64_REG BPF_REG_1 BPF_REG_10; BPF_ALU64_IMM BPF_ADD BPF_REG_1 (-8);
    BPF_RAW_INSN (BPF_JMP .| BPF_CALL) 0 2 0 102; BPF_MOV64_IMM BPF_REG_0 0; BPF_EXIT_INSN];
  _result REJECT;
  _prog_type BPF_PROG_TYPE_TRACING].

Definition iters_5 : bpf_test := TEST "iter_task basic new+destroy" [
  _insns
   [BPF_MOV64_REG BPF_REG_1 BPF_REG_10; BPF_ALU64_IMM BPF_ADD BPF_REG_1 (-40);
    BPF_RAW_INSN (BPF_JMP .| BPF_CALL) 0 2 0 103; BPF_MOV64_REG BPF_REG_1 BPF_REG_10;
    BPF_ALU64_IMM BPF_ADD BPF_REG_1 (-40); BPF_RAW_INSN (BPF_JMP .| BPF_CALL) 0 2 0 105;
    BPF_MOV64_IMM BPF_REG_0 0; BPF_EXIT_INSN];
  _result ACCEPT;
  _prog_type BPF_PROG_TYPE_TRACING].

Definition iters_6 : bpf_test := TEST "iter_css basic new+destroy" [
  _insns
   [BPF_MOV64_REG BPF_REG_1 BPF_REG_10; BPF_ALU64_IMM BPF_ADD BPF_REG_1 (-24);
    BPF_RAW_INSN (BPF_JMP .| BPF_CALL) 0 2 0 106; BPF_MOV64_REG BPF_REG_1 BPF_REG_10;
    BPF_ALU64_IMM BPF_ADD BPF_REG_1 (-24); BPF_RAW_INSN (BPF_JMP .| BPF_CALL) 0 2 0 108;
    BPF_MOV64_IMM BPF_REG_0 0; BPF_EXIT_INSN];
  _result ACCEPT;
  _prog_type BPF_PROG_TYPE_TRACING].

Definition iters_7 : bpf_test := TEST "iter_bits basic new+destroy" [
  _insns
   [BPF_MOV64_REG BPF_REG_1 BPF_REG_10; BPF_ALU64_IMM BPF_ADD BPF_REG_1 (-16);
    BPF_RAW_INSN (BPF_JMP .| BPF_CALL) 0 2 0 109; BPF_MOV64_REG BPF_REG_1 BPF_REG_10;
    BPF_ALU64_IMM BPF_ADD BPF_REG_1 (-16); BPF_RAW_INSN (BPF_JMP .| BPF_CALL) 0 2 0 111;
    BPF_MOV64_IMM BPF_REG_0 0; BPF_EXIT_INSN];
  _result ACCEPT;
  _prog_type BPF_PROG_TYPE_TRACING].

Definition iters_tests : list bpf_test := [iters_1; iters_2; iters_3; iters_4; iters_5; iters_6;
  iters_7].

(** * [ldsx.c] *)

Definition ldsx_1 : bpf_test := TEST "LDSX, S8" [
  _insns
   [BPF_MOV64_IMM BPF_REG_1 0x3fe; BPF_STX_MEM BPF_DW BPF_REG_10 BPF_REG_1 (-8);
    BPF_RAW_INSN 0x91 BPF_REG_0 BPF_REG_10 (-8) 0; BPF_EXIT_INSN];
  _result ACCEPT].

Definition ldsx_2 : bpf_test := TEST "LDSX, S16" [
  _insns
   [BPF_MOV64_IMM BPF_REG_1 0x3fffe; BPF_STX_MEM BPF_DW BPF_REG_10 BPF_REG_1 (-8);
    BPF_RAW_INSN 0x89 BPF_REG_0 BPF_REG_10 (-8) 0; BPF_EXIT_INSN];
  _result ACCEPT].

Definition ldsx_3 : bpf_test := TEST "LDSX, S32" [
  _insns
   [BPF_MOV64_IMM BPF_REG_1 0xfffffffe; BPF_STX_MEM BPF_DW BPF_REG_10 BPF_REG_1 (-8);
    BPF_RAW_INSN 0x81 BPF_REG_0 BPF_REG_10 (-8) 0; BPF_ALU64_IMM BPF_RSH BPF_REG_0 1;
    BPF_EXIT_INSN];
  _result ACCEPT].

Definition ldsx_4 : bpf_test := TEST "LDSX, S8 range checking, privileged" [
  _insns
   [BPF_RAW_INSN (BPF_JMP .| BPF_CALL) 0 0 0 BPF_FUNC_get_prandom_u32;
    BPF_STX_MEM BPF_DW BPF_REG_10 BPF_REG_0 (-8); BPF_RAW_INSN 0x91 BPF_REG_1 BPF_REG_10 (-8) 0;
    BPF_JMP_IMM BPF_JSGT BPF_REG_1 0x7f 4; BPF_JMP_IMM BPF_JSLT BPF_REG_1 (-0x80) 3;
    BPF_MOV64_IMM BPF_REG_0 1; BPF_EXIT_INSN; BPF_MOV64_IMM BPF_REG_0 2; BPF_EXIT_INSN];
  _result ACCEPT].

Definition ldsx_5 : bpf_test := TEST "LDSX, S16 range checking" [
  _insns
   [BPF_RAW_INSN (BPF_JMP .| BPF_CALL) 0 0 0 BPF_FUNC_get_prandom_u32;
    BPF_STX_MEM BPF_DW BPF_REG_10 BPF_REG_0 (-8); BPF_RAW_INSN 0x89 BPF_REG_1 BPF_REG_10 (-8) 0;
    BPF_JMP_IMM BPF_JSGT BPF_REG_1 0x7fff 4; BPF_JMP_IMM BPF_JSLT BPF_REG_1 (-0x8000) 3;
    BPF_MOV64_IMM BPF_REG_0 1; BPF_EXIT_INSN; BPF_MOV64_IMM BPF_REG_0 2; BPF_EXIT_INSN];
  _result ACCEPT].

Definition ldsx_6 : bpf_test := TEST "LDSX, S32 range checking" [
  _insns
   [BPF_RAW_INSN (BPF_JMP .| BPF_CALL) 0 0 0 BPF_FUNC_get_prandom_u32;
    BPF_STX_MEM BPF_DW BPF_REG_10 BPF_REG_0 (-8); BPF_RAW_INSN 0x81 BPF_REG_1 BPF_REG_10 (-8) 0;
    BPF_JMP_IMM BPF_JSGT BPF_REG_1 0x7fffffff 4; BPF_JMP_IMM BPF_JSLT BPF_REG_1 (-0x80000000) 3;
    BPF_MOV64_IMM BPF_REG_0 1; BPF_EXIT_INSN; BPF_MOV64_IMM BPF_REG_0 2; BPF_EXIT_INSN];
  _result ACCEPT].

Definition ldsx_7 : bpf_test := TEST "LDSX, xdp s32 xdp_md->data" [
  _insns
   [BPF_RAW_INSN 0x81 BPF_REG_2 BPF_REG_1 0 0; BPF_MOV64_IMM BPF_REG_0 0; BPF_EXIT_INSN];
  _result REJECT;
  _errstr "invalid bpf_context access";
  _prog_type BPF_PROG_TYPE_XDP].

Definition ldsx_8 : bpf_test := TEST "LDSX, xdp s32 xdp_md->data_end" [
  _insns
   [BPF_RAW_INSN 0x81 BPF_REG_2 BPF_REG_1 4 0; BPF_MOV64_IMM BPF_REG_0 0; BPF_EXIT_INSN];
  _result REJECT;
  _errstr "invalid bpf_context access";
  _prog_type BPF_PROG_TYPE_XDP].

Definition ldsx_9 : bpf_test := TEST "LDSX, xdp s32 xdp_md->data_meta" [
  _insns
   [BPF_RAW_INSN 0x81 BPF_REG_2 BPF_REG_1 8 0; BPF_MOV64_IMM BPF_REG_0 0; BPF_EXIT_INSN];
  _result REJECT;
  _errstr "invalid bpf_context access";
  _prog_type BPF_PROG_TYPE_XDP].

Definition ldsx_10 : bpf_test := TEST "LDSX, tcx s32 __sk_buff->data" [
  _insns
   [BPF_RAW_INSN 0x81 BPF_REG_2 BPF_REG_1 76 0; BPF_MOV64_IMM BPF_REG_0 0; BPF_EXIT_INSN];
  _result REJECT;
  _errstr "invalid bpf_context access";
  _prog_type BPF_PROG_TYPE_SCHED_CLS].

Definition ldsx_11 : bpf_test := TEST "LDSX, tcx s32 __sk_buff->data_end" [
  _insns
   [BPF_RAW_INSN 0x81 BPF_REG_2 BPF_REG_1 80 0; BPF_MOV64_IMM BPF_REG_0 0; BPF_EXIT_INSN];
  _result REJECT;
  _errstr "invalid bpf_context access";
  _prog_type BPF_PROG_TYPE_SCHED_CLS].

Definition ldsx_12 : bpf_test := TEST "LDSX, tcx s32 __sk_buff->data_meta" [
  _insns
   [BPF_RAW_INSN 0x81 BPF_REG_2 BPF_REG_1 84 0; BPF_MOV64_IMM BPF_REG_0 0; BPF_EXIT_INSN];
  _result REJECT;
  _errstr "invalid bpf_context access";
  _prog_type BPF_PROG_TYPE_SCHED_CLS].

Definition ldsx_13 : bpf_test := TEST "LDSX, flow_dissector s32 __sk_buff->data" [
  _insns
   [BPF_RAW_INSN 0x81 BPF_REG_2 BPF_REG_1 76 0; BPF_MOV64_IMM BPF_REG_0 0; BPF_EXIT_INSN];
  _result REJECT;
  _errstr "invalid bpf_context access";
  _prog_type BPF_PROG_TYPE_FLOW_DISSECTOR].

Definition ldsx_14 : bpf_test := TEST "LDSX, flow_dissector s32 __sk_buff->data_end" [
  _insns
   [BPF_RAW_INSN 0x81 BPF_REG_2 BPF_REG_1 80 0; BPF_MOV64_IMM BPF_REG_0 0; BPF_EXIT_INSN];
  _result REJECT;
  _errstr "invalid bpf_context access";
  _prog_type BPF_PROG_TYPE_FLOW_DISSECTOR].

Definition ldsx_tests : list bpf_test := [ldsx_1; ldsx_2; ldsx_3; ldsx_4; ldsx_5; ldsx_6; ldsx_7;
  ldsx_8; ldsx_9; ldsx_10; ldsx_11; ldsx_12; ldsx_13; ldsx_14].

(** * [load_acquire.c] *)

Definition load_acquire_1 : bpf_test := TEST "load-acquire, 8-bit" [
  _insns
   [BPF_MOV32_IMM BPF_REG_1 0x12; BPF_STX_MEM BPF_B BPF_REG_10 BPF_REG_1 (-1);
    BPF_RAW_INSN 0xd3 BPF_REG_0 BPF_REG_10 (-1) 0x100; BPF_EXIT_INSN];
  _result ACCEPT].

Definition load_acquire_2 : bpf_test := TEST "load-acquire, 16-bit" [
  _insns
   [BPF_MOV32_IMM BPF_REG_1 0x1234; BPF_STX_MEM BPF_H BPF_REG_10 BPF_REG_1 (-2);
    BPF_RAW_INSN 0xcb BPF_REG_0 BPF_REG_10 (-2) 0x100; BPF_EXIT_INSN];
  _result ACCEPT].

Definition load_acquire_3 : bpf_test := TEST "load-acquire, 32-bit" [
  _insns
   [BPF_MOV32_IMM BPF_REG_1 0x12345678; BPF_STX_MEM BPF_W BPF_REG_10 BPF_REG_1 (-4);
    BPF_RAW_INSN 0xc3 BPF_REG_0 BPF_REG_10 (-4) 0x100; BPF_EXIT_INSN];
  _result ACCEPT].

Definition load_acquire_4 : bpf_test := TEST "load-acquire, 64-bit" [
  _insns
   [BPF_LD_IMM64 BPF_REG_1 0x1234567890abcdef; BPF_STX_MEM BPF_DW BPF_REG_10 BPF_REG_1 (-8);
    BPF_RAW_INSN 0xdb BPF_REG_0 BPF_REG_10 (-8) 0x100; BPF_EXIT_INSN];
  _result ACCEPT].

Definition load_acquire_5 : bpf_test := TEST "load-acquire with uninitialized src_reg" [
  _insns
   [BPF_RAW_INSN 0xdb BPF_REG_0 BPF_REG_2 0 0x100; BPF_EXIT_INSN];
  _result REJECT;
  _errstr "R2 !read_ok"].

Definition load_acquire_6 : bpf_test := TEST "load-acquire with non-pointer src_reg" [
  _insns
   [BPF_MOV64_IMM BPF_REG_1 0; BPF_RAW_INSN 0xdb BPF_REG_0 BPF_REG_1 0 0x100; BPF_EXIT_INSN];
  _result REJECT;
  _errstr "R1 invalid mem access 'scalar'"].

Definition load_acquire_7 : bpf_test := TEST "load-acquire with invalid register R15" [
  _insns
   [BPF_RAW_INSN 0xdb BPF_REG_0 15 0 0x100; BPF_EXIT_INSN];
  _result REJECT;
  _errstr "R15 is invalid"].

Definition load_acquire_8 : bpf_test := TEST "load-acquire from ctx pointer" [
  _insns
   [BPF_RAW_INSN 0xd3 BPF_REG_0 BPF_REG_1 0 0x100; BPF_EXIT_INSN];
  _result REJECT;
  _errstr "BPF_ATOMIC loads from R1 ctx is not allowed"].

Definition load_acquire_9 : bpf_test := TEST "load-acquire from pkt pointer" [
  _insns
   [BPF_LDX_MEM BPF_W BPF_REG_2 BPF_REG_1 0; BPF_LDX_MEM BPF_W BPF_REG_3 BPF_REG_1 4;
    BPF_MOV64_REG BPF_REG_1 BPF_REG_2; BPF_ALU64_IMM BPF_ADD BPF_REG_1 8;
    BPF_JMP_REG BPF_JGE BPF_REG_1 BPF_REG_3 1; BPF_RAW_INSN 0xd3 BPF_REG_0 BPF_REG_2 0 0x100;
    BPF_MOV64_IMM BPF_REG_0 0; BPF_EXIT_INSN];
  _result REJECT;
  _errstr "BPF_ATOMIC loads from R2 pkt is not allowed";
  _prog_type BPF_PROG_TYPE_XDP].

Definition load_acquire_10 : bpf_test := TEST "load-acquire from flow_keys pointer" [
  _insns
   [BPF_LDX_MEM BPF_DW BPF_REG_2 BPF_REG_1 144; BPF_RAW_INSN 0xd3 BPF_REG_0 BPF_REG_2 0 0x100;
    BPF_EXIT_INSN];
  _result REJECT;
  _errstr "BPF_ATOMIC loads from R2 flow_keys is not allowed";
  _prog_type BPF_PROG_TYPE_FLOW_DISSECTOR].

Definition load_acquire_tests : list bpf_test := [load_acquire_1; load_acquire_2; load_acquire_3;
  load_acquire_4; load_acquire_5; load_acquire_6; load_acquire_7; load_acquire_8; load_acquire_9;
  load_acquire_10].

(** * [may_goto.c] *)

Definition may_goto_1 : bpf_test := TEST "may_goto 0" [
  _insns
   [BPF_RAW_INSN 0xe5 0 0 0 0; BPF_MOV64_IMM BPF_REG_0 1; BPF_RAW_INSN 0xe5 0 0 0 0;
    BPF_EXIT_INSN];
  _result ACCEPT;
  _prog_type BPF_PROG_TYPE_RAW_TRACEPOINT].

Definition may_goto_2 : bpf_test := TEST "batch 2 of may_goto 0" [
  _insns
   [BPF_RAW_INSN 0xe5 0 0 0 0; BPF_RAW_INSN 0xe5 0 0 0 0; BPF_MOV64_IMM BPF_REG_0 1;
    BPF_RAW_INSN 0xe5 0 0 0 0; BPF_RAW_INSN 0xe5 0 0 0 0; BPF_EXIT_INSN];
  _result ACCEPT;
  _prog_type BPF_PROG_TYPE_RAW_TRACEPOINT].

Definition may_goto_3 : bpf_test := TEST "may_goto batch with offsets 2/1/0" [
  _insns
   [BPF_RAW_INSN 0xe5 0 0 2 0; BPF_RAW_INSN 0xe5 0 0 1 0; BPF_RAW_INSN 0xe5 0 0 0 0;
    BPF_MOV64_IMM BPF_REG_0 1; BPF_RAW_INSN 0xe5 0 0 2 0; BPF_RAW_INSN 0xe5 0 0 1 0;
    BPF_RAW_INSN 0xe5 0 0 0 0; BPF_EXIT_INSN];
  _result ACCEPT;
  _prog_type BPF_PROG_TYPE_RAW_TRACEPOINT].

Definition may_goto_4 : bpf_test := TEST "may_goto batch with offsets 2/0" [
  _insns
   [BPF_RAW_INSN 0xe5 0 0 2 0; BPF_RAW_INSN 0xe5 0 0 0 0; BPF_MOV64_IMM BPF_REG_0 1;
    BPF_MOV64_IMM BPF_REG_0 2; BPF_EXIT_INSN];
  _result ACCEPT;
  _prog_type BPF_PROG_TYPE_RAW_TRACEPOINT].

Definition may_goto_tests : list bpf_test := [may_goto_1; may_goto_2; may_goto_3; may_goto_4].

(** * [movsx.c] *)

Definition movsx_1 : bpf_test := TEST "MOV32SX, S8" [
  _insns
   [BPF_MOV32_IMM BPF_REG_0 0xff23; BPF_RAW_INSN 0xbc BPF_REG_0 BPF_REG_0 8 0; BPF_EXIT_INSN];
  _result ACCEPT].

Definition movsx_2 : bpf_test := TEST "MOV32SX, S16" [
  _insns
   [BPF_MOV32_IMM BPF_REG_0 0xff23; BPF_RAW_INSN 0xbc BPF_REG_0 BPF_REG_0 16 0; BPF_EXIT_INSN];
  _result ACCEPT].

Definition movsx_3 : bpf_test := TEST "MOV64SX, S8" [
  _insns
   [BPF_MOV64_IMM BPF_REG_0 0x1fe; BPF_RAW_INSN 0xbf BPF_REG_0 BPF_REG_0 8 0; BPF_EXIT_INSN];
  _result ACCEPT].

Definition movsx_4 : bpf_test := TEST "MOV64SX, S16" [
  _insns
   [BPF_MOV64_IMM BPF_REG_0 0xf0f23; BPF_RAW_INSN 0xbf BPF_REG_0 BPF_REG_0 16 0; BPF_EXIT_INSN];
  _result ACCEPT].

Definition movsx_5 : bpf_test := TEST "MOV64SX, S32" [
  _insns
   [BPF_MOV64_IMM BPF_REG_0 0xfffffffe; BPF_RAW_INSN 0xbf BPF_REG_0 BPF_REG_0 32 0;
    BPF_ALU64_IMM BPF_RSH BPF_REG_0 1; BPF_EXIT_INSN];
  _result ACCEPT].

Definition movsx_6 : bpf_test := TEST "MOV32SX, S8, range_check" [
  _insns
   [BPF_RAW_INSN (BPF_JMP .| BPF_CALL) 0 0 0 BPF_FUNC_get_prandom_u32;
    BPF_RAW_INSN 0xbc BPF_REG_1 BPF_REG_0 8 0; BPF_JMP32_IMM BPF_JSGT BPF_REG_1 0x7f 4;
    BPF_JMP32_IMM BPF_JSLT BPF_REG_1 (-0x80) 3; BPF_MOV64_IMM BPF_REG_0 1; BPF_EXIT_INSN;
    BPF_MOV64_IMM BPF_REG_0 2; BPF_EXIT_INSN];
  _result ACCEPT].

Definition movsx_7 : bpf_test := TEST "MOV32SX, S16, range_check" [
  _insns
   [BPF_RAW_INSN (BPF_JMP .| BPF_CALL) 0 0 0 BPF_FUNC_get_prandom_u32;
    BPF_RAW_INSN 0xbc BPF_REG_1 BPF_REG_0 16 0; BPF_JMP32_IMM BPF_JSGT BPF_REG_1 0x7fff 4;
    BPF_JMP32_IMM BPF_JSLT BPF_REG_1 (-0x80ff) 3; BPF_MOV64_IMM BPF_REG_0 1; BPF_EXIT_INSN;
    BPF_MOV64_IMM BPF_REG_0 2; BPF_EXIT_INSN];
  _result ACCEPT].

Definition movsx_8 : bpf_test := TEST "MOV32SX, S16, range_check 2" [
  _insns
   [BPF_MOV64_IMM BPF_REG_1 65535; BPF_RAW_INSN 0xbc BPF_REG_2 BPF_REG_1 16 0;
    BPF_ALU64_IMM BPF_RSH BPF_REG_2 1; BPF_JMP_IMM BPF_JNE BPF_REG_2 0x7fffffff 2;
    BPF_MOV64_IMM BPF_REG_0 1; BPF_EXIT_INSN; BPF_MOV64_IMM BPF_REG_0 0; BPF_EXIT_INSN];
  _result ACCEPT].

Definition movsx_9 : bpf_test := TEST "MOV64SX, S8, range_check" [
  _insns
   [BPF_RAW_INSN (BPF_JMP .| BPF_CALL) 0 0 0 BPF_FUNC_get_prandom_u32;
    BPF_RAW_INSN 0xbf BPF_REG_1 BPF_REG_0 8 0; BPF_JMP_IMM BPF_JSGT BPF_REG_1 0x7f 4;
    BPF_JMP_IMM BPF_JSLT BPF_REG_1 (-0x80) 3; BPF_MOV64_IMM BPF_REG_0 1; BPF_EXIT_INSN;
    BPF_MOV64_IMM BPF_REG_0 2; BPF_EXIT_INSN];
  _result ACCEPT].

Definition movsx_10 : bpf_test := TEST "MOV64SX, S16, range_check" [
  _insns
   [BPF_RAW_INSN (BPF_JMP .| BPF_CALL) 0 0 0 BPF_FUNC_get_prandom_u32;
    BPF_RAW_INSN 0xbf BPF_REG_1 BPF_REG_0 16 0; BPF_JMP_IMM BPF_JSGT BPF_REG_1 0x7fff 4;
    BPF_JMP_IMM BPF_JSLT BPF_REG_1 (-0x8000) 3; BPF_MOV64_IMM BPF_REG_0 1; BPF_EXIT_INSN;
    BPF_MOV64_IMM BPF_REG_0 2; BPF_EXIT_INSN];
  _result ACCEPT].

Definition movsx_11 : bpf_test := TEST "MOV64SX, S32, range_check" [
  _insns
   [BPF_RAW_INSN (BPF_JMP .| BPF_CALL) 0 0 0 BPF_FUNC_get_prandom_u32;
    BPF_RAW_INSN 0xbf BPF_REG_1 BPF_REG_0 32 0; BPF_JMP_IMM BPF_JSGT BPF_REG_1 0x7fffffff 4;
    BPF_JMP_IMM BPF_JSLT BPF_REG_1 (-0x80000000) 3; BPF_MOV64_IMM BPF_REG_0 1; BPF_EXIT_INSN;
    BPF_MOV64_IMM BPF_REG_0 2; BPF_EXIT_INSN];
  _result ACCEPT].

Definition movsx_12 : bpf_test := TEST "MOV64SX, S16, R10 Sign Extension" [
  _insns
   [BPF_MOV64_IMM BPF_REG_1 553656332; BPF_STX_MEM BPF_W BPF_REG_10 BPF_REG_1 (-8);
    BPF_RAW_INSN 0xbf BPF_REG_1 BPF_REG_10 16 0; BPF_ALU64_IMM BPF_ADD BPF_REG_1 (-8);
    BPF_MOV64_IMM BPF_REG_2 3; BPF_JMP_REG BPF_JLE BPF_REG_2 BPF_REG_1 0;
    BPF_RAW_INSN (BPF_JMP .| BPF_CALL) 0 0 0 BPF_FUNC_trace_printk; BPF_MOV64_IMM BPF_REG_0 0;
    BPF_EXIT_INSN];
  _result REJECT;
  _errstr "R1 type=scalar expected="].

Definition movsx_13 : bpf_test := TEST "MOV32SX, S8, var_off u32_max" [
  _insns
   [BPF_LDX_MEM BPF_B BPF_REG_3 BPF_REG_10 (-387); BPF_RAW_INSN 0xbc BPF_REG_7 BPF_REG_3 8 0;
    BPF_JMP32_IMM BPF_JGE BPF_REG_7 0x2533823b (-3); BPF_MOV32_IMM BPF_REG_0 0; BPF_EXIT_INSN];
  _result REJECT;
  _errstr "infinite loop detected"].

Definition movsx_14 : bpf_test := TEST "MOV32SX, S8, var_off not u32_max, positive after s8 extension" [
  _insns
   [BPF_RAW_INSN (BPF_JMP .| BPF_CALL) 0 0 0 BPF_FUNC_get_prandom_u32;
    BPF_MOV64_REG BPF_REG_3 BPF_REG_0; BPF_ALU64_IMM BPF_AND BPF_REG_3 0xf;
    BPF_RAW_INSN 0xbc BPF_REG_7 BPF_REG_3 8 0; BPF_JMP32_IMM BPF_JSGE BPF_REG_7 16 2;
    BPF_MOV32_IMM BPF_REG_0 0; BPF_EXIT_INSN; BPF_MOV64_IMM BPF_REG_10 1; BPF_EXIT_INSN];
  _result ACCEPT].

Definition movsx_15 : bpf_test := TEST "MOV32SX, S8, var_off not u32_max, negative after s8 extension" [
  _insns
   [BPF_RAW_INSN (BPF_JMP .| BPF_CALL) 0 0 0 BPF_FUNC_get_prandom_u32;
    BPF_MOV64_REG BPF_REG_3 BPF_REG_0; BPF_ALU64_IMM BPF_AND BPF_REG_3 0xf;
    BPF_ALU64_IMM BPF_OR BPF_REG_3 0x80; BPF_RAW_INSN 0xbc BPF_REG_7 BPF_REG_3 8 0;
    BPF_JMP32_IMM BPF_JSGE BPF_REG_7 (-5) 2; BPF_MOV32_IMM BPF_REG_0 0; BPF_EXIT_INSN;
    BPF_MOV64_IMM BPF_REG_10 1; BPF_EXIT_INSN];
  _result ACCEPT].

Definition movsx_16 : bpf_test := TEST "MOV64SX, S8, unsigned range_check" [
  _insns
   [BPF_RAW_INSN (BPF_JMP .| BPF_CALL) 0 0 0 BPF_FUNC_get_prandom_u32;
    BPF_ALU64_IMM BPF_AND BPF_REG_0 0x1; BPF_ALU64_IMM BPF_ADD BPF_REG_0 0xfe;
    BPF_RAW_INSN 0xbf BPF_REG_0 BPF_REG_0 8 0; BPF_JMP_IMM BPF_JLT BPF_REG_0 (-2) 2;
    BPF_MOV64_IMM BPF_REG_0 0; BPF_EXIT_INSN; BPF_EXIT_INSN];
  _result ACCEPT].

Definition movsx_17 : bpf_test := TEST "MOV32SX, S8, unsigned range_check" [
  _insns
   [BPF_RAW_INSN (BPF_JMP .| BPF_CALL) 0 0 0 BPF_FUNC_get_prandom_u32;
    BPF_ALU32_IMM BPF_AND BPF_REG_0 0x1; BPF_ALU32_IMM BPF_ADD BPF_REG_0 0xfe;
    BPF_RAW_INSN 0xbc BPF_REG_0 BPF_REG_0 8 0; BPF_JMP32_IMM BPF_JLT BPF_REG_0 0xfffffffe 2;
    BPF_MOV64_IMM BPF_REG_0 0; BPF_EXIT_INSN; BPF_EXIT_INSN];
  _result ACCEPT].

Definition movsx_tests : list bpf_test := [movsx_1; movsx_2; movsx_3; movsx_4; movsx_5; movsx_6;
  movsx_7; movsx_8; movsx_9; movsx_10; movsx_11; movsx_12; movsx_13; movsx_14; movsx_15; movsx_16;
  movsx_17].

(** * [store_release.c] *)

Definition store_release_1 : bpf_test := TEST "store-release, 8-bit" [
  _insns
   [BPF_MOV32_IMM BPF_REG_1 0x12; BPF_RAW_INSN 0xd3 BPF_REG_10 BPF_REG_1 (-1) 0x110;
    BPF_LDX_MEM BPF_B BPF_REG_0 BPF_REG_10 (-1); BPF_EXIT_INSN];
  _result ACCEPT].

Definition store_release_2 : bpf_test := TEST "store-release, 16-bit" [
  _insns
   [BPF_MOV32_IMM BPF_REG_1 0x1234; BPF_RAW_INSN 0xcb BPF_REG_10 BPF_REG_1 (-2) 0x110;
    BPF_LDX_MEM BPF_H BPF_REG_0 BPF_REG_10 (-2); BPF_EXIT_INSN];
  _result ACCEPT].

Definition store_release_3 : bpf_test := TEST "store-release, 32-bit" [
  _insns
   [BPF_MOV32_IMM BPF_REG_1 0x12345678; BPF_RAW_INSN 0xc3 BPF_REG_10 BPF_REG_1 (-4) 0x110;
    BPF_LDX_MEM BPF_W BPF_REG_0 BPF_REG_10 (-4); BPF_EXIT_INSN];
  _result ACCEPT].

Definition store_release_4 : bpf_test := TEST "store-release, 64-bit" [
  _insns
   [BPF_LD_IMM64 BPF_REG_1 0x1234567890abcdef;
    BPF_RAW_INSN 0xdb BPF_REG_10 BPF_REG_1 (-8) 0x110;
    BPF_LDX_MEM BPF_DW BPF_REG_0 BPF_REG_10 (-8); BPF_EXIT_INSN];
  _result ACCEPT].

Definition store_release_5 : bpf_test := TEST "store-release with uninitialized src_reg" [
  _insns
   [BPF_RAW_INSN 0xdb BPF_REG_10 BPF_REG_2 (-8) 0x110; BPF_EXIT_INSN];
  _result REJECT;
  _errstr "R2 !read_ok"].

Definition store_release_6 : bpf_test := TEST "store-release with uninitialized dst_reg" [
  _insns
   [BPF_MOV64_IMM BPF_REG_1 0; BPF_RAW_INSN 0xdb BPF_REG_2 BPF_REG_1 (-8) 0x110; BPF_EXIT_INSN];
  _result REJECT;
  _errstr "R2 !read_ok"].

Definition store_release_7 : bpf_test := TEST "store-release with non-pointer dst_reg" [
  _insns
   [BPF_MOV64_IMM BPF_REG_1 0; BPF_RAW_INSN 0xdb BPF_REG_1 BPF_REG_1 0 0x110; BPF_EXIT_INSN];
  _result REJECT;
  _errstr "R1 invalid mem access 'scalar'"].

Definition store_release_8 : bpf_test := TEST "store-release with invalid register R15" [
  _insns
   [BPF_RAW_INSN 0xdb 15 BPF_REG_1 0 0x110; BPF_EXIT_INSN];
  _result REJECT;
  _errstr "R15 is invalid"].

Definition store_release_9 : bpf_test := TEST "store-release to ctx pointer" [
  _insns
   [BPF_MOV32_IMM BPF_REG_0 0; BPF_RAW_INSN 0xd3 BPF_REG_1 BPF_REG_0 48 0x110; BPF_EXIT_INSN];
  _result REJECT;
  _errstr "BPF_ATOMIC stores into R1 ctx is not allowed"].

Definition store_release_10 : bpf_test := TEST "store-release to pkt pointer" [
  _insns
   [BPF_MOV32_IMM BPF_REG_0 0; BPF_LDX_MEM BPF_W BPF_REG_2 BPF_REG_1 0;
    BPF_LDX_MEM BPF_W BPF_REG_3 BPF_REG_1 4; BPF_MOV64_REG BPF_REG_1 BPF_REG_2;
    BPF_ALU64_IMM BPF_ADD BPF_REG_1 8; BPF_JMP_REG BPF_JGE BPF_REG_1 BPF_REG_3 1;
    BPF_RAW_INSN 0xd3 BPF_REG_2 BPF_REG_0 0 0x110; BPF_MOV64_IMM BPF_REG_0 0; BPF_EXIT_INSN];
  _result REJECT;
  _errstr "BPF_ATOMIC stores into R2 pkt is not allowed";
  _prog_type BPF_PROG_TYPE_XDP].

Definition store_release_11 : bpf_test := TEST "store-release to flow_keys pointer" [
  _insns
   [BPF_MOV32_IMM BPF_REG_0 0; BPF_LDX_MEM BPF_DW BPF_REG_2 BPF_REG_1 144;
    BPF_RAW_INSN 0xd3 BPF_REG_2 BPF_REG_0 0 0x110; BPF_EXIT_INSN];
  _result REJECT;
  _errstr "BPF_ATOMIC stores into R2 flow_keys is not allowed";
  _prog_type BPF_PROG_TYPE_FLOW_DISSECTOR].

Definition store_release_12 : bpf_test := TEST "store-release, leak pointer to stack" [
  _insns
   [BPF_RAW_INSN 0xdb BPF_REG_10 BPF_REG_1 (-8) 0x110; BPF_MOV64_IMM BPF_REG_0 0; BPF_EXIT_INSN];
  _result ACCEPT].

Definition store_release_13 : bpf_test := TEST "store-release, leak pointer to map" [
  _insns
   [BPF_MOV64_REG BPF_REG_6 BPF_REG_1; BPF_LD_MAP_FD BPF_REG_1 0; BPF_MOV64_IMM BPF_REG_2 0;
    BPF_STX_MEM BPF_DW BPF_REG_10 BPF_REG_2 (-8); BPF_MOV64_REG BPF_REG_2 BPF_REG_10;
    BPF_ALU64_IMM BPF_ADD BPF_REG_2 (-8);
    BPF_RAW_INSN (BPF_JMP .| BPF_CALL) 0 0 0 BPF_FUNC_map_lookup_elem;
    BPF_JMP_IMM BPF_JEQ BPF_REG_0 0 1; BPF_RAW_INSN 0xdb BPF_REG_0 BPF_REG_6 0 0x110;
    BPF_MOV64_IMM BPF_REG_0 0; BPF_EXIT_INSN];
  _fixup fixup_map_hash_8b [1];
  _result ACCEPT].

Definition store_release_tests : list bpf_test := [store_release_1; store_release_2;
  store_release_3; store_release_4; store_release_5; store_release_6; store_release_7;
  store_release_8; store_release_9; store_release_10; store_release_11; store_release_12;
  store_release_13].

End LegacyBackport.
