(* ===== verification/LegacyMisc.v ===== *)
(** Verifier tests of the repository whose files define macros of their own: event output and wide
    accesses to a context.

    Each definition is a macro or one element of a file of [selftests/legacy/verifier]; a list per
    file gives the tests in the order of the file. *)

From S2P Require Import Prelude BpfInsn ConvertTests.
From Stdlib Require Import ZArith String.
From stdpp Require Import base strings list pretty.
Import BpfInsn ConvertTests.
Open Scope Z_scope.

Module LegacyMisc.

(** * [event_output.c] *)

Definition __PERF_EVENT_INSNS__ : list (list bpf_insn) :=
  [BPF_MOV64_IMM BPF_REG_2 5; BPF_STX_MEM BPF_DW BPF_REG_10 BPF_REG_2 (-8);
   BPF_MOV64_REG BPF_REG_4 BPF_REG_10; BPF_ALU64_IMM BPF_ADD BPF_REG_4 (-8);
   BPF_LD_MAP_FD BPF_REG_2 0; BPF_MOV64_IMM BPF_REG_3 0; BPF_MOV64_IMM BPF_REG_5 8;
   BPF_RAW_INSN (BPF_JMP .| BPF_CALL) 0 0 0 BPF_FUNC_perf_event_output;
   BPF_MOV64_IMM BPF_REG_0 1; BPF_EXIT_INSN].

Definition event_output_1 : bpf_test := TEST "perfevent for sockops" [
  _insns __PERF_EVENT_INSNS__;
  _prog_type BPF_PROG_TYPE_SOCK_OPS;
  _fixup fixup_map_event_output [4];
  _result ACCEPT;
  _retval 1].

Definition event_output_2 : bpf_test := TEST "perfevent for tc" [
  _insns __PERF_EVENT_INSNS__;
  _prog_type BPF_PROG_TYPE_SCHED_CLS;
  _fixup fixup_map_event_output [4];
  _result ACCEPT;
  _retval 1].

Definition event_output_3 : bpf_test := TEST "perfevent for lwt out" [
  _insns __PERF_EVENT_INSNS__;
  _prog_type BPF_PROG_TYPE_LWT_OUT;
  _fixup fixup_map_event_output [4];
  _result ACCEPT;
  _retval 1].

Definition event_output_4 : bpf_test := TEST "perfevent for xdp" [
  _insns __PERF_EVENT_INSNS__;
  _prog_type BPF_PROG_TYPE_XDP;
  _fixup fixup_map_event_output [4];
  _result ACCEPT;
  _retval 1].

Definition event_output_5 : bpf_test := TEST "perfevent for socket filter" [
  _insns __PERF_EVENT_INSNS__;
  _prog_type BPF_PROG_TYPE_SOCKET_FILTER;
  _fixup fixup_map_event_output [4];
  _result ACCEPT;
  _retval 1].

Definition event_output_6 : bpf_test := TEST "perfevent for sk_skb" [
  _insns __PERF_EVENT_INSNS__;
  _prog_type BPF_PROG_TYPE_SK_SKB;
  _fixup fixup_map_event_output [4];
  _result ACCEPT;
  _retval 1].

Definition event_output_7 : bpf_test := TEST "perfevent for cgroup skb" [
  _insns __PERF_EVENT_INSNS__;
  _prog_type BPF_PROG_TYPE_CGROUP_SKB;
  _fixup fixup_map_event_output [4];
  _result ACCEPT;
  _retval 1].

Definition event_output_8 : bpf_test := TEST "perfevent for cgroup dev" [
  _insns __PERF_EVENT_INSNS__;
  _prog_type BPF_PROG_TYPE_CGROUP_DEVICE;
  _fixup fixup_map_event_output [4];
  _result ACCEPT;
  _retval 1].

Definition event_output_9 : bpf_test := TEST "perfevent for cgroup sysctl" [
  _insns __PERF_EVENT_INSNS__;
  _prog_type BPF_PROG_TYPE_CGROUP_SYSCTL;
  _fixup fixup_map_event_output [4];
  _result ACCEPT;
  _retval 1].

Definition event_output_10 : bpf_test := TEST "perfevent for cgroup sockopt" [
  _insns __PERF_EVENT_INSNS__;
  _prog_type BPF_PROG_TYPE_CGROUP_SOCKOPT;
  _expected_attach_type BPF_CGROUP_SETSOCKOPT;
  _fixup fixup_map_event_output [4];
  _result ACCEPT;
  _retval 1].

Definition event_output_tests : list bpf_test := [event_output_1; event_output_2; event_output_3;
  event_output_4; event_output_5; event_output_6; event_output_7; event_output_8; event_output_9;
  event_output_10].

(** * [wide_access.c] *)

(** A string or [NULL]. *)
Definition errstr_init (err : option string) : list (bpf_test -> bpf_test) :=
  match err with Some e => [_errstr e] | None => [] end.

Definition BPF_SOCK_ADDR_STORE (field : string) (off res : Z) (err : option string) (flgs : Z) : bpf_test :=
  TEST ("wide store to bpf_sock_addr." +:+ field +:+ "[" +:+ pretty off +:+ "]")
    ([_insns
       [BPF_MOV64_IMM BPF_REG_0 1;
        BPF_STX_MEM BPF_DW BPF_REG_1 BPF_REG_0 (offsetof_idx bpf_sock_addr field off); BPF_EXIT_INSN];
      _result res; _prog_type BPF_PROG_TYPE_CGROUP_SOCK_ADDR;
      _expected_attach_type BPF_CGROUP_UDP6_SENDMSG] ++ errstr_init err ++ [_flags flgs]).

Definition BPF_SOCK_ADDR_LOAD (field : string) (off res : Z) (err : option string) (flgs : Z) : bpf_test :=
  TEST ("wide load from bpf_sock_addr." +:+ field +:+ "[" +:+ pretty off +:+ "]")
    ([_insns
       [BPF_LDX_MEM BPF_DW BPF_REG_0 BPF_REG_1 (offsetof_idx bpf_sock_addr field off);
        BPF_MOV64_IMM BPF_REG_0 1; BPF_EXIT_INSN];
      _result res; _prog_type BPF_PROG_TYPE_CGROUP_SOCK_ADDR;
      _expected_attach_type BPF_CGROUP_UDP6_SENDMSG] ++ errstr_init err ++ [_flags flgs]).

Definition wide_access_1 : bpf_test := BPF_SOCK_ADDR_STORE "user_ip6" 0 ACCEPT None 0.
Definition wide_access_2 : bpf_test := BPF_SOCK_ADDR_STORE "user_ip6" 1 REJECT (Some
  "invalid bpf_context access off=12 size=8"%string) F_NEEDS_EFFICIENT_UNALIGNED_ACCESS.
Definition wide_access_3 : bpf_test := BPF_SOCK_ADDR_STORE "user_ip6" 2 ACCEPT None 0.
Definition wide_access_4 : bpf_test := BPF_SOCK_ADDR_STORE "user_ip6" 3 REJECT (Some
  "invalid bpf_context access off=20 size=8"%string) F_NEEDS_EFFICIENT_UNALIGNED_ACCESS.
Definition wide_access_5 : bpf_test := BPF_SOCK_ADDR_STORE "msg_src_ip6" 0 REJECT (Some
  "invalid bpf_context access off=44 size=8"%string) F_NEEDS_EFFICIENT_UNALIGNED_ACCESS.
Definition wide_access_6 : bpf_test := BPF_SOCK_ADDR_STORE "msg_src_ip6" 1 ACCEPT None 0.
Definition wide_access_7 : bpf_test := BPF_SOCK_ADDR_STORE "msg_src_ip6" 2 REJECT (Some
  "invalid bpf_context access off=52 size=8"%string) F_NEEDS_EFFICIENT_UNALIGNED_ACCESS.
Definition wide_access_8 : bpf_test := BPF_SOCK_ADDR_STORE "msg_src_ip6" 3 REJECT (Some
  "invalid bpf_context access off=56 size=8"%string) 0.
Definition wide_access_9 : bpf_test := BPF_SOCK_ADDR_LOAD "user_ip6" 0 ACCEPT None 0.
Definition wide_access_10 : bpf_test := BPF_SOCK_ADDR_LOAD "user_ip6" 1 REJECT (Some
  "invalid bpf_context access off=12 size=8"%string) F_NEEDS_EFFICIENT_UNALIGNED_ACCESS.
Definition wide_access_11 : bpf_test := BPF_SOCK_ADDR_LOAD "user_ip6" 2 ACCEPT None 0.
Definition wide_access_12 : bpf_test := BPF_SOCK_ADDR_LOAD "user_ip6" 3 REJECT (Some
  "invalid bpf_context access off=20 size=8"%string) F_NEEDS_EFFICIENT_UNALIGNED_ACCESS.
Definition wide_access_13 : bpf_test := BPF_SOCK_ADDR_LOAD "msg_src_ip6" 0 REJECT (Some
  "invalid bpf_context access off=44 size=8"%string) F_NEEDS_EFFICIENT_UNALIGNED_ACCESS.
Definition wide_access_14 : bpf_test := BPF_SOCK_ADDR_LOAD "msg_src_ip6" 1 ACCEPT None 0.
Definition wide_access_15 : bpf_test := BPF_SOCK_ADDR_LOAD "msg_src_ip6" 2 REJECT (Some
  "invalid bpf_context access off=52 size=8"%string) F_NEEDS_EFFICIENT_UNALIGNED_ACCESS.
Definition wide_access_16 : bpf_test := BPF_SOCK_ADDR_LOAD "msg_src_ip6" 3 REJECT (Some
  "invalid bpf_context access off=56 size=8"%string) 0.

Definition wide_access_tests : list bpf_test := [wide_access_1; wide_access_2; wide_access_3;
  wide_access_4; wide_access_5; wide_access_6; wide_access_7; wide_access_8; wide_access_9;
  wide_access_10; wide_access_11; wide_access_12; wide_access_13; wide_access_14; wide_access_15;
  wide_access_16].

End LegacyMisc.
