(* ===== verification/LegacyTests.v ===== *)
(** The verifier tests of the repository against the reference semantics: which accepted tests can be
    executed, that the tests of [subreg.c] return what they declare, and that rejected tests that
    misbehave do fault. *)

From S2P Require Import Prelude Json BpfInsn ConvertTests BpfSem ConvertJson ConvertProgs Tnum TnumRun.
From S2P Require Import LegacyAlu LegacyJmp LegacyMem LegacyPkt LegacyXdp LegacyMap LegacyBounds LegacyHelper.
From S2P Require Import LegacyCtx LegacyCall LegacyBackport LegacyMisc.
From Stdlib Require Import ZArith Lia String.
From stdpp Require Import base numbers strings gmap list.
Import Json BpfInsn ConvertTests BpfSem ConvertJson ConvertProgs LegacyAlu LegacyJmp LegacyMem LegacyPkt.
Import LegacyXdp LegacyMap LegacyBounds LegacyHelper LegacyCtx LegacyCall LegacyBackport LegacyMisc.
Open Scope Z_scope.

Module LegacyTests.

(** * Accepted tests *)

Definition accepted (t : bpf_test) : bool := (result t =? ACCEPT) || (result t =? VERBOSE_ACCEPT).

Definition calls_helper (x : bpf_insn) : bool := (code x =? BPF_JMP .| BPF_CALL) && (src_reg x =? 0).

(** A load of ancillary data, at a negative offset. *)
Definition ancillary (x : bpf_insn) : bool :=
  (Z.land (code x) 7 =? BPF_LD) && negb (Z.land (code x) 0xe0 =? BPF_IMM) && (imm x <? 0).

Definition no_fixups (t : bpf_test) : bool := match fixups t with [] => true | _ => false end.
Definition no_fill (t : bpf_test) : bool := match fill_helper t with None => true | _ => false end.

(** Types whose programs the test runner can execute on a packet. *)
Definition runs_on_packets (ty : Z) : bool :=
  negb ((ty =? BPF_PROG_TYPE_TRACEPOINT) || (ty =? BPF_PROG_TYPE_KPROBE) || (ty =? BPF_PROG_TYPE_PERF_EVENT) ||
        (ty =? BPF_PROG_TYPE_RAW_TRACEPOINT)).

(** Accepted tests that are executed, declare a value (not just some pointer) and need neither
    helpers, maps nor ancillary data. *)
Definition executable (t : bpf_test) : bool :=
  accepted t && no_fill t && no_fixups t && runs_on_packets (prog_type t) && negb (retval t =? POINTER_VALUE) &&
  forallb (fun x => negb (calls_helper x || ancillary x)) (insns t).

Definition arithmetic_files : list (list bpf_test) :=
  [div0_tests; div_overflow_tests; masking_tests; jit_tests; ld_imm64_tests].
Definition control_files : list (list bpf_test) :=
  [jmp32_tests; jset_tests; jump_tests; dead_code_tests; loops1_tests; cfg_tests; bounds_deduction_tests].
Definition memory_files : list (list bpf_test) :=
  [atomic_and_tests; atomic_bounds_tests; atomic_cmpxchg_tests; atomic_fetch_add_tests; atomic_or_tests;
   atomic_xchg_tests; atomic_xor_tests; xadd_tests; stack_ptr_tests; basic_stack_tests].
Definition packet_files : list (list bpf_test) := [direct_packet_access_tests; ld_abs_tests; lwt_tests].
Definition scalar_files : list (list bpf_test) :=
  [basic_instr_tests; bounds_tests; precise_tests; var_off_tests; calls_tests; unpriv_tests; value_ptr_arith_tests].
Definition executed_files : list (list bpf_test) :=
  arithmetic_files ++ control_files ++ memory_files ++ packet_files ++ scalar_files.

(** * Zero extension *)

(** The abstract run of the test ends in the constant the test declares. *)
Definition abstractly_returns (t : bpf_test) : bool :=
  (runs t =? 0) && bool_decide (in_u 32 (retval t)) &&
  match TnumRun.arun (insns t) (Z.to_nat 20000) 0 TnumRun.entry_regs with
  | Some r => bool_decide (Tnum.const_value r = Some (retval t))
  | None => false
  end.

Lemma abstract_test_returns rand t : abstractly_returns t = true -> check_test rand t = true.
Proof.
  unfold abstractly_returns, check_test, test_runs. intros [[Hr Hrv]%andb_prop Hrun]%andb_prop.
  rewrite Hr. cbn [forallb res_data res_retval]. rewrite andb_true_r. unfold run_program.
  destruct (TnumRun.arun _ _ _ _) as [r|] eqn:E; [|done]. apply bool_decide_eq_true in Hrun.
  set (p := take 64 (data t ++ replicate 64 0)).
  destruct (TnumRun.arun_sound (insns t) rand _ _ _ _ _ (TnumRun.entry_rel (prog_type t) p) E) as (v & -> & Hv).
  cbn [returns]. rewrite (TnumRun.member_const _ _ _ Hv Hrun). apply Z.eqb_eq, uwrap_small.
  by apply bool_decide_eq_true in Hrv.
Qed.

(** Every 32-bit operation tested by [subreg.c] clears the upper half of its
    destination: the 32 tests return 0 for all random words they draw. *)
Theorem subreg_tests_return rand t : In t subreg_tests -> check_test rand t = true.
Proof.
  assert (Hall : forallb (fun t => abstractly_returns t || check_test rand t) subreg_tests = true)
    by (vm_compute; reflexivity).
  rewrite forallb_forall in Hall. intros Ht. specialize (Hall t Ht).
  apply orb_true_iff in Hall as [Hall|Hall]; [by apply abstract_test_returns|done].
Qed.

Lemma subreg_tests_return_witness : check_test (fun n => Z.of_nat n * 77) subreg_1 = true.
Proof. apply subreg_tests_return. by left. Defined.

(** * Rejected tests *)

Definition faults (rand : nat -> Z) (t : bpf_test) : bool :=
  forallb (fun r =>
    match run_program rand (insns t) (prog_type t) (res_data r) with Some Fault => true | _ => false end)
    (test_runs t).

(** Tests the verifier must reject and whose program goes wrong on its own input:
    junk opcodes, uninitialised registers and memory, jumps out of the program,
    broken two-slot loads, accesses outside the stack, registers that do not exist, writes
    to the frame pointer. *)
Definition misbehaving : list bpf_test :=
  junk_insn_tests ++ uninit_tests ++ basic_stx_ldx_tests ++ direct_stack_access_wraparound_tests ++
  [cfg_3; cfg_4; jump_10; ld_imm64_3; ld_imm64_4; ld_imm64_12; jset_4;
   atomic_cmpxchg_3; atomic_cmpxchg_4; atomic_fetch_add_4; atomic_fetch_add_5;
   stack_ptr_4; stack_ptr_5; stack_ptr_9; stack_ptr_10; stack_ptr_11; stack_ptr_17; stack_ptr_18;
   basic_stack_1; basic_stack_3; raw_stack_1; var_off_3; basic_instr_15; basic_call_1; search_pruning_3;
   unpriv_29; unpriv_30].

(** The rejections of these tests are justified: each of them is declared
    [REJECT], and its program faults under the reference semantics. *)
Theorem rejected_tests_fault rand t :
  In t misbehaving -> result t = REJECT /\ faults rand t = true.
Proof.
  assert (Hall : forallb (fun t => (result t =? REJECT) && faults rand t) misbehaving = true)
    by (vm_compute; reflexivity).
  rewrite forallb_forall in Hall. intros Ht. specialize (Hall t Ht).
  apply andb_prop in Hall as [?%Z.eqb_eq ?]. done.
Qed.

Lemma rejected_tests_fault_witness : result uninit_1 = REJECT /\ faults (fun _ => 0) uninit_1 = true.
Proof. apply (rejected_tests_fault (fun _ => 0) uninit_1). do 5 right. by left. Defined.

(** * Conversion *)

(** All translated files without generated programs, but for the one with a zero opcode. *)
Definition static_files : list (list bpf_test) :=
  [div0_tests; div_overflow_tests; masking_tests; subreg_tests; ld_imm64_tests] ++ control_files ++
  memory_files ++ [uninit_tests; spill_fill_tests; direct_packet_access_tests; ld_ind_tests; lwt_tests] ++
  [xdp_direct_packet_access_tests; xdp_tests; meta_access_tests; helper_packet_access_tests] ++
  [and_tests; array_access_tests; const_or_tests; map_in_map_tests; map_ptr_tests; map_ptr_mixing_tests;
   map_ret_val_tests; prevent_map_lookup_tests; value_tests; value_adj_spill_tests; value_illegal_alu_tests;
   value_or_null_tests; value_ptr_arith_tests] ++
  [basic_call_tests; basic_instr_tests; basic_stx_ldx_tests; bounds_tests; bounds_mix_sign_unsign_tests;
   direct_stack_access_wraparound_tests; int_ptr_tests; precise_tests; raw_stack_tests; regalloc_tests;
   search_pruning_tests; var_off_tests] ++
  [bpf_get_stack_tests; d_path_tests; helper_access_var_len_tests; helper_value_access_tests; leak_ptr_tests;
   perf_event_sample_period_tests; raw_tp_writable_tests; spin_lock_tests] ++
  [cgroup_inv_retcode_tests; cgroup_skb_tests; cgroup_storage_tests; ctx_tests; ctx_sk_lookup_tests;
   ctx_sk_msg_tests; ctx_skb_tests; unpriv_tests] ++
  [calls_tests; ref_tracking_tests; runtime_jit_tests; sock_tests] ++
  [exceptions_tests; gotol_tests; iters_tests; ldsx_tests; load_acquire_tests; may_goto_tests; movsx_tests;
   store_release_tests; event_output_tests; wide_access_tests].

(** The counter stops at the zero opcode of the test [junk insn]: its two
    instructions are printed as an empty program. *)
Theorem junk_insn_truncated calloc_ok :
  length (insns junk_insn_1) = 2%nat /\
  exists out, main calloc_ok [junk_insn_1] = Some out /\
  parse out = Some (JArr [json_of_test junk_insn_1 []]).
Proof.
  split; [done|]. eexists. split; [done|].
  rewrite (main_json calloc_ok [junk_insn_1]); [by vm_compute|by vm_compute|done].
Qed.

End LegacyTests.
