(* ===== verification/XdpTests.v ===== *)
(** The packet tests of the repository: small inputs on which the rejected tests of
    [xdp_direct_packet_access.c] are run, and the tests on metadata whose accesses are justified by the
    sizes of the areas alone. *)

From S2P Require Import Prelude BpfInsn ConvertTests BpfSem Zone ZoneRun LegacyXdp.
From Stdlib Require Import ZArith Lia String.
From stdpp Require Import base numbers strings gmap list.
Import BpfInsn ConvertTests BpfSem ZoneRun LegacyXdp.
Open Scope Z_scope.

Module XdpTests.

Definition zeros (n : nat) : list Z := replicate n 0.

(** Small inputs, as lengths of the metadata and of the packet. *)
Definition small_inputs : list (nat * nat) :=
  flat_map (fun m => map (pair m) [0; 7; 8]%nat) [0; 7; 8]%nat.

Definition faults_on (rand : nat -> Z) (prog : list bpf_insn) (i : nat * nat) : bool :=
  match packet_run XDP rand prog (zeros i.1) (zeros i.2) with Some Fault => true | _ => false end.

Lemma zeros_input m n : (m <= 8)%nat -> (n <= 8)%nat -> packet_input (zeros m) (zeros n).
Proof.
  intros Hm Hn. unfold packet_input, zeros. rewrite !length_replicate. split_and!; [lia|lia|].
  apply Forall_app. split; apply Forall_replicate; by split.
Qed.

(** Some small input makes the program fault. *)
Lemma faulting_input rand prog :
  existsb (faults_on rand prog) small_inputs = true ->
  exists meta packet, packet_input meta packet /\ packet_run XDP rand prog meta packet = Some Fault.
Proof.
  intros ([m n] & Hin & Hf)%existsb_exists. exists (zeros m), (zeros n). split.
  - apply zeros_input; simpl in Hin; repeat (destruct Hin as [[= <- <-]|Hin]; [lia|]); done.
  - unfold faults_on in Hf. simpl in Hf. by destruct (packet_run _ _ _ _ _) as [[]|].
Qed.

(** This test is rejected for its arithmetic on [data_end]; its access is in range. *)
Definition no_bad_access (t : bpf_test) : bool := String.eqb (descr t) "XDP pkt read, pkt_end mangling, bad access 2".

(** Metadata: the tests whose accesses the two anchors of the metadata area justify. *)
Definition meta_accepted : list bpf_test := [meta_access_1; meta_access_7; meta_access_8; meta_access_12].

End XdpTests.
