(* ===== verification/PccExamples.v ===== *)
(** The sample programs for proof-carrying code ([pcc-tests]): packet accesses at a variable offset.

    [pcc_examples.c] holds four tests in the format of the verifier tests;
    [pcc_snapshot_examples.c] is a C function on a packet, translated as a function on the bytes
    between [data] and [data_end] in which a read outside of them has no result. *)

From S2P Require Import Prelude BpfInsn ConvertTests BpfSem Zone ZoneOps ZoneRun.
From Stdlib Require Import ZArith Lia String.
From stdpp Require Import base numbers strings gmap list.
Import BpfInsn ConvertTests BpfSem ZoneRun.
Open Scope Z_scope.

Module PccExamples.

(** * [pcc_examples.c] *)

Definition pcc_examples_1 : bpf_test := TEST "pcc motivating: var add packet access (zone ok, kernel reject)" [
  _insns
   [BPF_LDX_MEM BPF_W BPF_REG_2 BPF_REG_1 (offsetof __sk_buff "data");
    BPF_LDX_MEM BPF_W BPF_REG_3 BPF_REG_1 (offsetof __sk_buff "data_end");
    BPF_MOV64_REG BPF_REG_6 BPF_REG_2; BPF_MOV64_REG BPF_REG_0 BPF_REG_6;
    BPF_ALU64_IMM BPF_ADD BPF_REG_0 8; BPF_JMP_REG BPF_JGT BPF_REG_0 BPF_REG_3 7;
    BPF_LDX_MEM BPF_B BPF_REG_4 BPF_REG_6 0; BPF_ALU64_IMM BPF_AND BPF_REG_4 3;
    BPF_MOV64_REG BPF_REG_5 BPF_REG_6; BPF_ALU64_REG BPF_ADD BPF_REG_5 BPF_REG_4;
    BPF_LDX_MEM BPF_W BPF_REG_0 BPF_REG_5 0; BPF_MOV64_IMM BPF_REG_0 0; BPF_EXIT_INSN;
    BPF_MOV64_IMM BPF_REG_0 0; BPF_EXIT_INSN];
  _result ACCEPT;
  _prog_type BPF_PROG_TYPE_SCHED_CLS].

Definition pcc_examples_2 : bpf_test := TEST "pcc: var add + constant skip (add-imm, zone ok, interval reject)" [
  _insns
   [BPF_LDX_MEM BPF_W BPF_REG_2 BPF_REG_1 (offsetof __sk_buff "data");
    BPF_LDX_MEM BPF_W BPF_REG_3 BPF_REG_1 (offsetof __sk_buff "data_end");
    BPF_MOV64_REG BPF_REG_0 BPF_REG_2; BPF_ALU64_IMM BPF_ADD BPF_REG_0 8;
    BPF_JMP_REG BPF_JGT BPF_REG_0 BPF_REG_3 8; BPF_LDX_MEM BPF_B BPF_REG_4 BPF_REG_2 0;
    BPF_ALU64_IMM BPF_AND BPF_REG_4 3; BPF_MOV64_REG BPF_REG_5 BPF_REG_2;
    BPF_ALU64_REG BPF_ADD BPF_REG_5 BPF_REG_4; BPF_ALU64_IMM BPF_ADD BPF_REG_5 1;
    BPF_LDX_MEM BPF_W BPF_REG_0 BPF_REG_5 0; BPF_MOV64_IMM BPF_REG_0 0; BPF_EXIT_INSN;
    BPF_MOV64_IMM BPF_REG_0 0; BPF_EXIT_INSN];
  _result ACCEPT;
  _prog_type BPF_PROG_TYPE_SCHED_CLS].

Definition pcc_examples_3 : bpf_test := TEST "pcc: var add + mov rename (mov-rename, zone ok, interval reject)" [
  _insns
   [BPF_LDX_MEM BPF_W BPF_REG_2 BPF_REG_1 (offsetof __sk_buff "data");
    BPF_LDX_MEM BPF_W BPF_REG_3 BPF_REG_1 (offsetof __sk_buff "data_end");
    BPF_MOV64_REG BPF_REG_0 BPF_REG_2; BPF_ALU64_IMM BPF_ADD BPF_REG_0 7;
    BPF_JMP_REG BPF_JGT BPF_REG_0 BPF_REG_3 8; BPF_LDX_MEM BPF_B BPF_REG_4 BPF_REG_2 0;
    BPF_ALU64_IMM BPF_AND BPF_REG_4 3; BPF_MOV64_REG BPF_REG_5 BPF_REG_2;
    BPF_ALU64_REG BPF_ADD BPF_REG_5 BPF_REG_4; BPF_MOV64_REG BPF_REG_6 BPF_REG_5;
    BPF_LDX_MEM BPF_W BPF_REG_0 BPF_REG_6 0; BPF_MOV64_IMM BPF_REG_0 0; BPF_EXIT_INSN;
    BPF_MOV64_IMM BPF_REG_0 0; BPF_EXIT_INSN];
  _result ACCEPT;
  _prog_type BPF_PROG_TYPE_SCHED_CLS].

Definition pcc_examples_4 : bpf_test := TEST "pcc: double var add (3-step chain, zone ok, interval reject)" [
  _insns
   [BPF_LDX_MEM BPF_W BPF_REG_2 BPF_REG_1 (offsetof __sk_buff "data");
    BPF_LDX_MEM BPF_W BPF_REG_3 BPF_REG_1 (offsetof __sk_buff "data_end");
    BPF_MOV64_REG BPF_REG_0 BPF_REG_2; BPF_ALU64_IMM BPF_ADD BPF_REG_0 11;
    BPF_JMP_REG BPF_JGT BPF_REG_0 BPF_REG_3 10; BPF_LDX_MEM BPF_B BPF_REG_4 BPF_REG_2 0;
    BPF_ALU64_IMM BPF_AND BPF_REG_4 3; BPF_LDX_MEM BPF_B BPF_REG_7 BPF_REG_2 1;
    BPF_ALU64_IMM BPF_AND BPF_REG_7 3; BPF_MOV64_REG BPF_REG_5 BPF_REG_2;
    BPF_ALU64_REG BPF_ADD BPF_REG_5 BPF_REG_4; BPF_ALU64_REG BPF_ADD BPF_REG_5 BPF_REG_7;
    BPF_LDX_MEM BPF_W BPF_REG_0 BPF_REG_5 0; BPF_MOV64_IMM BPF_REG_0 0; BPF_EXIT_INSN;
    BPF_MOV64_IMM BPF_REG_0 0; BPF_EXIT_INSN];
  _result ACCEPT;
  _prog_type BPF_PROG_TYPE_SCHED_CLS].

Definition pcc_examples_tests : list bpf_test :=
  [pcc_examples_1; pcc_examples_2; pcc_examples_3; pcc_examples_4].

(** * [pcc_snapshot_examples.c] *)

Section Packet.
Context (packet : list Z).

(** The bytes at an offset from [data]; [None] for a read outside the packet. *)
Definition read_bytes (ptr : Z) (n : nat) : option (list Z) :=
  if (0 <=? ptr) && (ptr + Z.of_nat n <=? Z.of_nat (List.length packet))
  then Some (take n (drop (Z.to_nat ptr) packet)) else None.

(** The body after a bounds check for [need] bytes; [data] is offset 0. *)
Definition var_opts (need : Z) : option Z :=
  let data := 0 in
  let data_end := Z.of_nat (List.length packet) in
  if data_end <? data + need then Some 0
  else
    b ← read_bytes data 1;
    let opt_bytes := u32 (Z.shiftl (Z.land (le_val b) 3) 2) in
    let ptr := data + 4 in
    let snap := ptr in
    let ptr := ptr + opt_bytes in
    w ← read_bytes ptr 4;
    Some (Z.land (le_val w) 1).

Definition pcc_var_opts_header : option Z := var_opts 20.
End Packet.

Lemma read_bytes_some packet ptr n : 0 <= ptr -> ptr + Z.of_nat n <= Z.of_nat (List.length packet) ->
  exists l, read_bytes packet ptr n = Some l.
Proof.
  intros H1 H2. unfold read_bytes. rewrite (proj2 (Z.leb_le _ _) H1), (proj2 (Z.leb_le _ _) H2). simpl. eauto.
Qed.

Lemma opt_bytes_range x : 0 <= u32 (Z.shiftl (Z.land x 3) 2) <= 12.
Proof.
  pose proof (ZoneOps.land_le_mask x 3 ltac:(lia)). rewrite Z.shiftl_mul_pow2 by lia. change (2 ^ 2) with 4. rewrite uwrap_small; [lia|]. unfold in_u. change (2 ^ 32) with 4294967296. lia.
Qed.

(** The function reads inside the packet, for every packet: it always returns, with 0 or 1.  The
    comment calls its bounds check exactly tight, and it is: with one byte less there is a packet
    for which the last read lies outside. *)
Theorem pcc_var_opts_header_safe packet :
  (exists r, pcc_var_opts_header packet = Some r /\ (r = 0 \/ r = 1)) /\
  (exists short, Forall is_byte short /\ var_opts short 19 = None).
Proof.
  split.
  - unfold pcc_var_opts_header, var_opts. cbv zeta. destruct (Z.ltb_spec (Z.of_nat (List.length packet)) (0 + 20)) as [_|Hlen]; [eauto|].
    destruct (read_bytes_some packet 0 1) as [b ->]; [lia|lia|]. cbn [mbind option_bind]. pose proof (opt_bytes_range (le_val b)) as Ho.
    destruct (read_bytes_some packet (0 + 4 + u32 (Z.shiftl (Z.land (le_val b) 3) 2)) 4) as [w ->]; [lia|lia|]. cbn [mbind option_bind].
    eexists. split; [done|]. pose proof (ZoneOps.land_le_mask (le_val w) 1 ltac:(lia)). lia.
  - exists (3 :: replicate 18 0). split; [repeat constructor; discriminate|]. by vm_compute.
Qed.

End PccExamples.
