(* ===== verification/TestRunner.v ===== *)
(** The runner of the selftests ([src/testing/legacy_selftest.rs]): it reads the JSON files that
    [convert_tests.c] prints, lowers the instructions of each test, runs the analysis and compares the
    verdict with the declared one.

    The JSON library and the analysis are parameters.  Of the library ([serde_json::from_str] with
    derived deserialisation) the runner relies on its data model ([read_tests]): a structure is an
    object with each field at most once, other keys are ignored, an [Option] is absent or [null] or a
    value, an integer is in the range of its type. *)

From S2P Require Import Prelude Json BpfInsn ConvertTests ConvertJson ConvertProgs Lower.
From Stdlib Require Import ZArith Lia Ascii String.
From stdpp Require Import base numbers strings pretty gmap list.
Import Json ConvertJson ConvertProgs.
Open Scope Z_scope.

Module TestRunner.

Record JsonInsn : Type := MkJsonInsn { j_code : Z; j_dst : Z; j_src : Z; j_off : Z; j_imm : Z }.

Record JsonTestCase : Type := MkCase {
  name : string;
  result : string;
  result_unpriv : option string;
  errstr : option string;
  errstr_unpriv : option string;
  prog_type : option Z;
  expected_attach_type : option Z;
  flags : option Z;
  kfunc : option string;
  fixups : option (gmap string (list Z));
  insns : list JsonInsn }.

(** [From<&JsonInsn> for RawBpfInsn]. *)
Definition from_json (j : JsonInsn) : Lower.RawBpfInsn :=
  Lower.MkRaw (j_code j) (j_dst j) (j_src j) (j_off j) (j_imm j).

(** * The data model of the JSON library *)

Definition keyed (k : string) (l : list (string * json)) : list json :=
  omap (fun e => if String.eqb e.1 k then Some e.2 else None) l.

Definition as_int (lo hi : Z) (j : json) : option Z :=
  match j with JNum z => if (lo <=? z) && (z <=? hi) then Some z else None | _ => None end.
Definition as_u (w : Z) : json -> option Z := as_int 0 (2 ^ w - 1).
Definition as_s (w : Z) : json -> option Z := as_int (- 2 ^ (w - 1)) (2 ^ (w - 1) - 1).
Definition as_string (j : json) : option string := match j with JStr s => Some s | _ => None end.
Definition as_vec {A} (f : json -> option A) (j : json) : option (list A) :=
  match j with JArr l => mapM f l | _ => None end.
(** A key that occurs twice keeps its last value. *)
Definition add_entry {A} (f : json -> option A) (m : option (gmap string A)) (e : string * json) : option (gmap string A) :=
  m ← m; v ← f e.2; Some (<[e.1 := v]> m).
Definition as_map {A} (f : json -> option A) (j : json) : option (gmap string A) :=
  match j with
  | JObj l => foldl (add_entry f) (Some ∅) l
  | _ => None
  end.

Definition field {A} (f : json -> option A) (k : string) (l : list (string * json)) : option A :=
  match keyed k l with [j] => f j | _ => None end.
Definition opt_value {A} (f : json -> option A) (l : list json) : option (option A) :=
  match l with
  | [] | [JNull] => Some None
  | [j] => Some <$> f j
  | _ => None
  end.
Definition opt_field {A} (f : json -> option A) (k : string) (l : list (string * json)) : option (option A) :=
  opt_value f (keyed k l).

Definition read_insn (j : json) : option JsonInsn :=
  match j with
  | JObj l =>
      c ← field (as_u 8) "code" l; d ← field (as_u 8) "dst" l; s ← field (as_u 8) "src" l;
      o ← field (as_s 16) "off" l; i ← field (as_s 32) "imm" l; Some (MkJsonInsn c d s o i)
  | _ => None
  end.

Definition read_test (j : json) : option JsonTestCase :=
  match j with
  | JObj l =>
      n ← field as_string "name" l; r ← field as_string "result" l;
      ru ← opt_field as_string "result_unpriv" l; e ← opt_field as_string "errstr" l;
      eu ← opt_field as_string "errstr_unpriv" l; pt ← opt_field (as_u 32) "prog_type" l;
      at_ ← opt_field (as_u 32) "expected_attach_type" l; fl ← opt_field (as_u 32) "flags" l;
      kf ← opt_field as_string "kfunc" l; fx ← opt_field (as_map (as_vec (as_u 64))) "fixups" l;
      ins ← field (as_vec read_insn) "insns" l;
      Some (MkCase n r ru e eu pt at_ fl kf fx ins)
  | _ => None
  end.

Definition read_tests : json -> option (list JsonTestCase) := as_vec read_test.

(** * Running tests *)

Definition contains (s sub : string) : bool :=
  match String.index 0 sub s with Some _ => true | None => false end.

(** An error of the lowering that the test announces. *)
Definition lowering_expected (s : string) (k : Lower.LowerErrorKind) : bool :=
  let has := contains s in
  match k with
  | Lower.UnknownOpcode => has "unknown op"
  | Lower.InvalidLDIMM64 =>
      has "invalid bpf_ld_imm64 insn" || has "expected continuation instruction after LDDW" ||
      has "uses reserved fields" || has "unrecognized bpf_ld_imm64 insn" || has "unknown opcode 00"
  | Lower.CallTargetOutOfBounds => has "invalid destination"
  | Lower.CallUsedReservedFields => has "reserved fields" || has "BPF_CALL uses reserved"
  | Lower.InvalidSrcReg =>
      has "reserved fields" || has "BPF_CALL uses reserved" || has "R15" || has "arg#0"
  | Lower.BranchTargetOutOfRange => has "jump out of range"
  | Lower.InvalidRegister => true
  | Lower.UnknownAtomicOp => false
  end%string.

(** The fixups for which [map_def_for_fixup] has a map. *)
Definition known_fixups : list string :=
  ["fixup_map_hash_8b"; "fixup_map_hash_16b"; "fixup_map_hash_48b"; "fixup_map_array_48b"; "fixup_map_array_ro";
   "fixup_map_array_wo"; "fixup_map_array_small"; "fixup_map_in_map"; "fixup_map_spin_lock"; "fixup_map_timer";
   "fixup_map_graph"; "fixup_map_sockmap"; "fixup_map_sockhash"; "fixup_map_xskmap"; "fixup_map_reuseport_array";
   "fixup_map_stacktrace"; "fixup_map_event_output"; "fixup_map_ringbuf"; "fixup_map_arena";
   "fixup_cgroup_storage"; "fixup_percpu_cgroup_storage"; "fixup_sk_storage_map"]%string.

(** The flag that [build_exec_context] returns. *)
Definition has_unsupported_fixup (t : JsonTestCase) : bool :=
  match fixups t with
  | Some m => negb (forallb (fun e => bool_decide (e.1 ∈ known_fixups)) (map_to_list m))
  | None => false
  end.

Inductive TestOutcome : Type :=
| Pass | FalsePositive | FalseNegative | Skipped | Error (e : Lower.LowerError).

Record FileResult : Type := MkFile {
  total : Z; passed : Z; false_positives : Z; false_negatives : Z; skipped : Z; errors : Z;
  tests : list TestOutcome }.

Section Runner.
(** [serde_json::from_str] at [Vec<JsonTestCase>], and whether the analysis of the lowered program in
    the context of the test succeeds. *)
Context (from_str : string -> option (list JsonTestCase)).
Context (analyze_program : JsonTestCase -> Lower.LProgram -> bool).

Definition run_test (t : JsonTestCase) : TestOutcome :=
  match Lower.lower_raw_to_program (map from_json (insns t)) with
  | Lower.Err e =>
      match errstr t with
      | Some s => if lowering_expected s (Lower.kind e) then Pass else Error e
      | None => Error e
      end
  | Lower.Ok program =>
      if has_unsupported_fixup t then Skipped
      else
        let actual := (if analyze_program t program then "ACCEPT" else "REJECT")%string in
        let expected := (if String.eqb (result t) "VERBOSE_ACCEPT" then "ACCEPT" else result t)%string in
        if String.eqb actual expected then Pass
        else if String.eqb expected "ACCEPT" && String.eqb actual "REJECT" then FalsePositive
        else FalseNegative
  end.

(** The body of the loop over the tests. *)
Definition count (r : FileResult) (t : JsonTestCase) : FileResult :=
  let '(MkFile n p fp fn sk er ts) := r in
  let o := run_test t in
  match o with
  | Pass => MkFile n (p + 1) fp fn sk er (ts ++ [o])
  | FalsePositive => MkFile n p (fp + 1) fn sk er (ts ++ [o])
  | FalseNegative => MkFile n p fp (fn + 1) sk er (ts ++ [o])
  | Skipped => MkFile n p fp fn (sk + 1) er (ts ++ [o])
  | Error _ => MkFile n p fp fn sk (er + 1) (ts ++ [o])
  end.

(** [content] is the text of the file. *)
Definition run_test_file (content : string) : option FileResult :=
  cases ← from_str content;
  Some (foldl count (MkFile (Z.of_nat (length cases)) 0 0 0 0 0 []) cases).

End Runner.

(** * What the runner reads of a converted test *)

Definition nonzero (z : Z) : option Z := if z =? 0 then None else Some z.

Definition case_insn (x : BpfInsn.bpf_insn) : JsonInsn :=
  MkJsonInsn (BpfInsn.code x) (BpfInsn.dst_reg x) (BpfInsn.src_reg x) (BpfInsn.off x) (BpfInsn.imm x).

Definition add_fixup (t : ConvertTests.bpf_test) (m : gmap string (list Z)) (f : ConvertTests.fixup) : gmap string (list Z) :=
  <[ConvertTests.fixup_name f := ConvertTests.fixup_elems (ConvertTests.fixup_array t f)]> m.

Definition case_fixups (t : ConvertTests.bpf_test) (fs : list ConvertTests.fixup) : option (gmap string (list Z)) :=
  match fs with [] => None | _ => Some (foldl (add_fixup t) ∅ fs) end.

(** The test of the C source, as a value of the runner. *)
Definition case_of (t : ConvertTests.bpf_test) : JsonTestCase :=
  MkCase (ConvertTests.descr t) (ConvertTests.result_str (ConvertTests.result t)) (ConvertTests.result_str <$> nonzero (ConvertTests.result_unpriv t))
    (ConvertTests.errstr t) (ConvertTests.errstr_unpriv t) (nonzero (ConvertTests.prog_type t)) (nonzero (ConvertTests.expected_attach_type t))
    (nonzero (ConvertTests.flags t)) (ConvertTests.kfunc t)
    (case_fixups t (used_fixups t))
    (map case_insn (ConvertTests.insns t)).

(** The fields of a test have the types of the C structure; fixups are positions. *)
Definition insn_typed (x : BpfInsn.bpf_insn) : bool :=
  bool_decide (in_u 8 (BpfInsn.code x)) && bool_decide (in_u 8 (BpfInsn.dst_reg x)) &&
  bool_decide (in_u 8 (BpfInsn.src_reg x)) && bool_decide (in_s 16 (BpfInsn.off x)) &&
  bool_decide (in_s 32 (BpfInsn.imm x)).
Definition positions (t : ConvertTests.bpf_test) (f : ConvertTests.fixup) : bool :=
  forallb (fun z => bool_decide (in_u 64 z)) (ConvertTests.fixup_elems (ConvertTests.fixup_array t f)).
Definition typed (t : ConvertTests.bpf_test) : bool :=
  bool_decide (in_u 32 (ConvertTests.prog_type t)) && bool_decide (in_u 32 (ConvertTests.expected_attach_type t)) &&
  bool_decide (in_u 32 (ConvertTests.flags t)) && forallb insn_typed (ConvertTests.insns t) &&
  forallb (positions t) ConvertTests.all_fixups.

Lemma as_u_ok w z : in_u w z -> as_u w (JNum z) = Some z.
Proof. intros Hz. unfold as_u, as_int, in_u in *. rewrite (proj2 (Z.leb_le 0 z)), (proj2 (Z.leb_le z _)) by lia. done. Qed.
Lemma as_s_ok w z : in_s w z -> as_s w (JNum z) = Some z.
Proof. intros Hz. unfold as_s, as_int, in_s in *. rewrite (proj2 (Z.leb_le _ z)), (proj2 (Z.leb_le z _)) by lia. done. Qed.

Lemma mapM_map {A B C} (f : B -> option C) (g : A -> B) (h : A -> C) l :
  (forall x, In x l -> f (g x) = Some (h x)) -> mapM f (map g l) = Some (map h l).
Proof.
  induction l as [|x l IH]; intros H; [done|]. cbn. rewrite (H x) by (by left). cbn.
  rewrite IH by (intros y Hy; apply H; by right). done.
Qed.

Lemma read_insn_ok x : insn_typed x = true -> read_insn (json_of_insn x) = Some (case_insn x).
Proof.
  unfold insn_typed. rewrite !andb_true_iff, !bool_decide_eq_true. intros ((((Hc & Hd) & Hs) & Ho) & Hi).
  unfold read_insn, json_of_insn, field. cbn [keyed omap list_omap fst snd String.eqb Ascii.eqb Bool.eqb].
  by rewrite !as_u_ok, !as_s_ok by done.
Qed.

Definition json_fixups (t : ConvertTests.bpf_test) (fs : list ConvertTests.fixup) : list json :=
  match fs with [] => [] | _ => [JObj (map (json_of_fixup t) fs)] end.

(** Members of other keys are not seen. *)
Lemma keyed_app k l l' : keyed k (l ++ l') = keyed k l ++ keyed k l'.
Proof. apply omap_app. Qed.
Lemma keyed_str k k' o : keyed k (opt_str k' o) = if String.eqb k' k then match o with Some s => [JStr s] | None => [] end else [].
Proof. destruct o; cbn; by destruct (String.eqb k' k). Qed.
Lemma keyed_num k k' z : keyed k (opt_num k' z) = if String.eqb k' k then match nonzero z with Some z => [JNum z] | None => [] end else [].
Proof. unfold opt_num, nonzero. destruct (z =? 0); cbn; by destruct (String.eqb k' k). Qed.
Lemma keyed_res k z : keyed k (if z =? 0 then [] else [("result_unpriv"%string, JStr (ConvertTests.result_str z))]) =
  if String.eqb "result_unpriv" k then match nonzero z with Some z => [JStr (ConvertTests.result_str z)] | None => [] end else [].
Proof. unfold nonzero, keyed. destruct (z =? 0); cbn [omap list_omap fst snd]; by destruct (String.eqb _ k). Qed.
Lemma keyed_fix k t : keyed k (json_of_fixups t) =
  if String.eqb "fixups" k then json_fixups t (used_fixups t) else [].
Proof. unfold json_of_fixups, keyed. destruct (used_fixups t); cbn [omap list_omap fst snd]; by destruct (String.eqb _ k). Qed.

Lemma fixups_ok t fs (m : gmap string (list Z)) : forallb (positions t) fs = true ->
  foldl (add_entry (as_vec (as_u 64))) (Some m) (map (json_of_fixup t) fs) = Some (foldl (add_fixup t) m fs).
Proof.
  revert m. induction fs as [|f fs IH]; intros m; [done|]. cbn [forallb map foldl]. intros [Hf Hfs]%andb_prop.
  unfold add_entry at 2. cbn [json_of_fixup fst snd as_vec mbind option_bind]. rewrite (mapM_map _ _ (fun z => z)), map_id; [by apply IH|].
  intros z Hz. unfold positions in Hf. rewrite forallb_forall in Hf. specialize (Hf z Hz). apply as_u_ok. by apply bool_decide_eq_true in Hf.
Qed.

Lemma opt_str_ok o : opt_value as_string (match o with Some s => [JStr s] | None => [] end ++ []) = Some o.
Proof. by destruct o. Qed.
Lemma opt_res_ok z : opt_value as_string
  (match nonzero z with Some z => [JStr (ConvertTests.result_str z)] | None => [] end ++ []) =
  Some (ConvertTests.result_str <$> nonzero z).
Proof. by destruct (nonzero z). Qed.
Lemma opt_num_ok z : in_u 32 z ->
  opt_value (as_u 32) (match nonzero z with Some z => [JNum z] | None => [] end ++ []) = Some (nonzero z).
Proof. intros Hz. unfold nonzero. destruct (z =? 0); [done|]. cbn [app opt_value]. by rewrite as_u_ok. Qed.

Definition members (t : ConvertTests.bpf_test) (prog : list BpfInsn.bpf_insn) : list (string * json) :=
  match json_of_test t prog with JObj l => l | _ => [] end.

Lemma keyed_members k t prog : keyed k (members t prog) =
  let at_key k' (l : list json) := if String.eqb k' k then l else [] in
  let str o := match o with Some s => [JStr s] | None => [] end in
  let num z := match nonzero z with Some z => [JNum z] | None => [] end in
  at_key "name" [JStr (ConvertTests.descr t)] ++ at_key "result" [JStr (ConvertTests.result_str (ConvertTests.result t))] ++
  at_key "result_unpriv" (match nonzero (ConvertTests.result_unpriv t) with
                          | Some z => [JStr (ConvertTests.result_str z)] | None => [] end) ++
  at_key "errstr" (str (ConvertTests.errstr t)) ++ at_key "errstr_unpriv" (str (ConvertTests.errstr_unpriv t)) ++
  at_key "prog_type" (num (ConvertTests.prog_type t)) ++
  at_key "expected_attach_type" (num (ConvertTests.expected_attach_type t)) ++
  at_key "kfunc" (str (ConvertTests.kfunc t)) ++ at_key "flags" (num (ConvertTests.flags t)) ++
  at_key "fixups" (json_fixups t (used_fixups t)) ++
  at_key "insns" [JArr (map json_of_insn prog)].
Proof.
  unfold members, json_of_test. rewrite !keyed_app, keyed_res, !keyed_str, !keyed_num, keyed_fix.
  unfold keyed. cbn [omap list_omap fst snd]. cbv zeta.
  by destruct (String.eqb "name" k), (String.eqb "result" k), (String.eqb "insns" k).
Qed.

Ltac at_key := rewrite keyed_members; cbv beta zeta; cbn [String.eqb Ascii.eqb Bool.eqb app].

Lemma str_field k t prog o :
  keyed k (members t prog) = match o with Some s => [JStr s] | None => [] end ++ [] ->
  opt_field as_string k (members t prog) = Some o.
Proof. intros E. unfold opt_field. rewrite E. apply opt_str_ok. Qed.
Lemma num_field k t prog z : in_u 32 z ->
  keyed k (members t prog) = match nonzero z with Some z => [JNum z] | None => [] end ++ [] ->
  opt_field (as_u 32) k (members t prog) = Some (nonzero z).
Proof. intros Hz E. unfold opt_field. rewrite E. by apply opt_num_ok. Qed.

Lemma opt_map_value {A} (f : json -> option A) l :
  opt_value (as_map f) [JObj l] = Some <$> foldl (add_entry f) (Some ∅) l.
Proof. done. Qed.

Lemma opt_map_ok t fs m :
  foldl (add_entry (as_vec (as_u 64))) (Some ∅) (map (json_of_fixup t) fs) = Some m ->
  opt_value (as_map (as_vec (as_u 64))) [JObj (map (json_of_fixup t) fs)] = Some (Some m).
Proof. intros H. by rewrite opt_map_value, H. Qed.

Lemma opt_fix_ok t fs : forallb (positions t) fs = true ->
  opt_value (as_map (as_vec (as_u 64))) (json_fixups t fs) = Some (case_fixups t fs).
Proof.
  intros Hu. pose proof (opt_map_ok t fs _ (fixups_ok t fs ∅ Hu)) as H. unfold json_fixups, case_fixups.
  destruct fs; [reflexivity|exact H].
Qed.

Lemma used_typed t P : forallb P ConvertTests.all_fixups = true -> forallb P (used_fixups t) = true.
Proof.
  unfold used_fixups. generalize ConvertTests.all_fixups. intros l. rewrite !forallb_forall.
  intros Hx f [Hin _]%filter_In. exact (Hx f Hin).
Qed.

Lemma keyed_fixups t prog : keyed "fixups" (members t prog) = json_fixups t (used_fixups t).
Proof.
  rewrite keyed_members. cbv beta zeta. generalize (json_fixups t (used_fixups t)). intros l.
  cbn [String.eqb Ascii.eqb Bool.eqb app]. apply app_nil_r.
Qed.

Lemma fixups_field t prog : forallb (positions t) ConvertTests.all_fixups = true ->
  opt_field (as_map (as_vec (as_u 64))) "fixups" (members t prog) = Some (case_fixups t (used_fixups t)).
Proof. intros Hx. unfold opt_field. rewrite keyed_fixups. exact (opt_fix_ok t _ (used_typed t _ Hx)). Qed.

Lemma insns_field t : forallb insn_typed (ConvertTests.insns t) = true ->
  field (as_vec read_insn) "insns" (members t (ConvertTests.insns t)) = Some (map case_insn (ConvertTests.insns t)).
Proof.
  intros Hi. unfold field. at_key. cbn [as_vec]. apply mapM_map. intros x Hx'. apply read_insn_ok.
  rewrite forallb_forall in Hi. auto.
Qed.

Lemma name_fields t prog :
  field as_string "name" (members t prog) = Some (ConvertTests.descr t) /\
  field as_string "result" (members t prog) = Some (ConvertTests.result_str (ConvertTests.result t)) /\
  opt_field as_string "result_unpriv" (members t prog) = Some (ConvertTests.result_str <$> nonzero (ConvertTests.result_unpriv t)).
Proof. unfold field, opt_field. split_and!; at_key; [done|done|apply opt_res_ok]. Qed.

Lemma read_members l n r ru e eu pt at_ fl kf fx ins :
  field as_string "name" l = Some n -> field as_string "result" l = Some r ->
  opt_field as_string "result_unpriv" l = Some ru -> opt_field as_string "errstr" l = Some e ->
  opt_field as_string "errstr_unpriv" l = Some eu -> opt_field (as_u 32) "prog_type" l = Some pt ->
  opt_field (as_u 32) "expected_attach_type" l = Some at_ -> opt_field (as_u 32) "flags" l = Some fl ->
  opt_field as_string "kfunc" l = Some kf -> opt_field (as_map (as_vec (as_u 64))) "fixups" l = Some fx ->
  field (as_vec read_insn) "insns" l = Some ins ->
  read_test (JObj l) = Some (MkCase n r ru e eu pt at_ fl kf fx ins).
Proof. intros. unfold read_test. by simplify_option_eq. Qed.

Lemma read_test_ok t : typed t = true -> read_test (json_of_test t (ConvertTests.insns t)) = Some (case_of t).
Proof.
  unfold typed. rewrite !andb_true_iff, !bool_decide_eq_true. intros ((((Hp & Ha) & Hf) & Hi) & Hx).
  destruct (name_fields t (ConvertTests.insns t)) as (H1 & H2 & H3).
  apply (read_members (members t (ConvertTests.insns t))); try done;
    try (apply str_field; by at_key); try (apply num_field; [done|]; by at_key).
  - exact (fixups_field t _ Hx).
  - by apply insns_field.
Qed.

(** * The text is ASCII *)

Fixpoint is_ascii (s : string) : bool :=
  match s with
  | EmptyString => true
  | String c s => (nat_of_ascii c <? 128)%nat && is_ascii s
  end.
Definition ascii_opt (s : option string) : bool := match s with Some s => is_ascii s | None => true end.
Definition ascii_test (t : ConvertTests.bpf_test) : bool :=
  is_ascii (ConvertTests.descr t) && ascii_opt (ConvertTests.errstr t) && ascii_opt (ConvertTests.errstr_unpriv t) &&
  ascii_opt (ConvertTests.kfunc t).

Lemma ascii_app a b : is_ascii (a +:+ b) = is_ascii a && is_ascii b.
Proof.
  induction a as [|c a IH]; [done|].
  change (is_ascii (String c a +:+ b)) with ((nat_of_ascii c <? 128)%nat && is_ascii (a +:+ b)).
  by rewrite IH, andb_assoc.
Qed.

Lemma ascii_join sep l : is_ascii sep = true -> forallb is_ascii l = true -> is_ascii (ConvertTests.join sep l) = true.
Proof.
  intros Hs. induction l as [|s l IH]; [done|]. cbn [forallb]. intros [H1 H2]%andb_prop.
  destruct l as [|s' l]; [done|]. cbn [ConvertTests.join]. rewrite !ascii_app, H1, Hs. by apply IH.
Qed.

Lemma ascii_digit x : (x < 10)%N -> (nat_of_ascii (pretty_N_char x) <? 128)%nat = true.
Proof. destruct x as [|p]; [done|]. do 4 (try destruct p as [p|p|]); done || lia. Qed.

Lemma ascii_pretty_go x s : is_ascii s = true -> is_ascii (pretty_N_go x s) = true.
Proof.
  revert s. induction (N.lt_wf_0 x) as [x _ IH]. intros s Hs.
  destruct (decide (x = 0)%N) as [->|Hx]; [by rewrite pretty_N_go_0|].
  rewrite pretty_N_go_step by lia. apply IH; [apply N.div_lt; lia|]. cbn [is_ascii].
  rewrite ascii_digit by (apply N.mod_lt; lia). done.
Qed.

Lemma ascii_pretty (z : Z) : is_ascii (pretty z) = true.
Proof.
  destruct z as [|p|p]; [done|apply (ascii_pretty_go (N.pos p) ""); done|].
  change (pretty (Z.neg p)) with ("-" +:+ pretty_N_go (N.pos p) ""). rewrite ascii_app. by apply ascii_pretty_go.
Qed.

Lemma ascii_json_char c : (nat_of_ascii c <? 128)%nat = true -> is_ascii (ConvertTests.json_char c) = true.
Proof. destruct c as [[] [] [] [] [] [] [] []]; vm_compute; congruence. Qed.

Lemma ascii_json_chars s : is_ascii s = true -> is_ascii (ConvertTests.json_chars s) = true.
Proof.
  induction s as [|c s IH]; [done|]. cbn [is_ascii ConvertTests.json_chars]. intros [Hc Hs]%andb_prop.
  destruct (_ =? 0)%nat; [done|]. rewrite ascii_app, ascii_json_char by done. by apply IH.
Qed.

Lemma ascii_json_string s : ascii_opt s = true -> is_ascii (ConvertTests.print_json_string s) = true.
Proof.
  destruct s as [s|]; [|done]. cbn. intros Hs. rewrite !ascii_app. by rewrite ascii_json_chars.
Qed.

Lemma ascii_key k : is_ascii k = true -> is_ascii (ConvertTests.json_key k) = true.
Proof. intros Hk. unfold ConvertTests.json_key. by rewrite !ascii_app, Hk. Qed.

Lemma ascii_result r : is_ascii (ConvertTests.result_str r) = true.
Proof. unfold ConvertTests.result_str. by repeat case_match. Qed.

Lemma ascii_insn x : is_ascii (ConvertTests.print_insn x) = true.
Proof. unfold ConvertTests.print_insn. cbv zeta. by rewrite !ascii_app, !ascii_pretty. Qed.

Lemma ascii_fixups t : is_ascii (ConvertTests.print_fixups t) = true.
Proof.
  unfold ConvertTests.print_fixups. generalize (List.filter (fun f => ConvertTests.has_fixup (ConvertTests.fixup_array t f)) ConvertTests.all_fixups).
  intros fs. assert (is_ascii (ConvertTests.join "," (map (fun f => ConvertTests.print_fixup f (ConvertTests.fixup_array t f)) fs)) = true) as H.
  { apply ascii_join; [done|]. apply forallb_forall. intros y (f & <- & _)%in_map_iff. unfold ConvertTests.print_fixup.
    rewrite !ascii_app. rewrite (ascii_join ", "); [by destruct f|done|].
    apply forallb_forall. intros y (z & <- & _)%in_map_iff. apply ascii_pretty. }
  destruct fs; [done|]. by rewrite !ascii_app, H.
Qed.

Lemma ascii_print t prog : ascii_test t = true -> is_ascii (ConvertTests.print_test t prog) = true.
Proof.
  unfold ascii_test. intros [[[Hd He]%andb_prop Hu]%andb_prop Hk]%andb_prop. unfold ConvertTests.print_test.
  rewrite !ascii_app, !ascii_key, ascii_fixups, ascii_result, ascii_json_string by done.
  rewrite (ascii_join "," (map ConvertTests.print_insn prog)); [|done|].
  2: { apply forallb_forall. intros y (x & <- & _)%in_map_iff. apply ascii_insn. }
  repeat match goal with
  | |- context [is_ascii (if ?b then _ else _)] => destruct b
  | |- context [is_ascii (match ?o with Some _ => _ | None => _ end)] => destruct o eqn:?
  end; rewrite ?ascii_app, ?ascii_key, ?ascii_pretty, ?ascii_result, ?ascii_json_string by done; done.
Qed.

Lemma main_ascii calloc_ok tests out : forallb static tests = true -> forallb ascii_test tests = true ->
  ConvertTests.main calloc_ok tests = Some out -> is_ascii out = true.
Proof.
  intros Hs Ha. unfold ConvertTests.main.
  destruct (ConvertTests.convert_all calloc_ok 0 tests _) as [cs|] eqn:E; [|done]. cbn [mbind option_bind].
  intros [= <-]. rewrite (convert_all_objects _ _ _ _ _ E), printed_static, map_map by done. cbn [fst snd].
  rewrite !ascii_app. rewrite ascii_join; [done|done|]. apply forallb_forall. intros y (t & <- & Ht)%in_map_iff.
  rewrite forallb_forall in Ha. apply ascii_print. auto.
Qed.

(** * Counting *)

Definition tally (p : TestOutcome -> bool) (l : list TestOutcome) : Z := Z.of_nat (length (List.filter p l)).
Definition is_pass (o : TestOutcome) : bool := match o with Pass => true | _ => false end.
Definition is_false_positive (o : TestOutcome) : bool := match o with FalsePositive => true | _ => false end.
Definition is_false_negative (o : TestOutcome) : bool := match o with FalseNegative => true | _ => false end.
Definition is_skipped (o : TestOutcome) : bool := match o with Skipped => true | _ => false end.
Definition is_error (o : TestOutcome) : bool := match o with Error _ => true | _ => false end.

Lemma tally_snoc p l o : tally p (l ++ [o]) = tally p l + (if p o then 1 else 0).
Proof.
  unfold tally. rewrite List.filter_app, length_app. cbn [List.filter]. destruct (p o); cbn [length]; lia.
Qed.

Definition file_of (os : list TestOutcome) : FileResult :=
  MkFile (Z.of_nat (length os)) (tally is_pass os) (tally is_false_positive os) (tally is_false_negative os)
    (tally is_skipped os) (tally is_error os) os.

Lemma count_all analyze_program n cases os :
  foldl (count analyze_program) (MkFile n (tally is_pass os) (tally is_false_positive os) (tally is_false_negative os)
    (tally is_skipped os) (tally is_error os) os) cases =
  let os := os ++ map (run_test analyze_program) cases in
  MkFile n (tally is_pass os) (tally is_false_positive os) (tally is_false_negative os) (tally is_skipped os) (tally is_error os) os.
Proof.
  revert os. induction cases as [|c cases IH]; intros os; cbn [map foldl]; [by rewrite app_nil_r|].
  rewrite cons_middle, app_assoc. rewrite <- IH. f_equal. unfold count.
  destruct (run_test analyze_program c) eqn:E; rewrite !tally_snoc; cbn; f_equal; lia.
Qed.

Lemma read_converted from_str calloc_ok tests :
  (forall text j, is_ascii text = true -> parse text = Some j -> from_str text = read_tests j) ->
  forallb static tests = true -> forallb c_strings tests = true -> forallb ascii_test tests = true ->
  forallb typed tests = true ->
  exists out, ConvertTests.main calloc_ok tests = Some out /\ from_str out = Some (map case_of tests) /\
    forall analyze_program, run_test_file from_str analyze_program out =
      Some (file_of (map (fun t => run_test analyze_program (case_of t)) tests)).
Proof.
  intros Hserde Hs Hc Ha Ht. destruct (static_json calloc_ok tests Hs Hc) as (out & Ho & Hj).
  assert (from_str out = Some (map case_of tests)) as Hf.
  { rewrite (Hserde out _ (main_ascii calloc_ok tests out Hs Ha Ho) Hj). unfold read_tests. cbn [as_vec].
    apply mapM_map. intros t Hin. apply read_test_ok. rewrite forallb_forall in Ht. auto. }
  exists out. split; [done|]. split; [done|]. intros analyze_program.
  unfold run_test_file. rewrite Hf. cbn [mbind option_bind]. f_equal.
  rewrite (count_all analyze_program _ (map case_of tests) []). cbn [app]. unfold file_of.
  by rewrite map_map, !length_map.
Qed.


(** The reader of the data model. *)
Definition from_str_model (text : string) : option (list JsonTestCase) := j ← parse text; read_tests j.


End TestRunner.
