(* ===== verification/TestPipeline.v ===== *)
(** The selftests of the repository through the whole tool chain: printed by the converter, read by
    the runner, lowered by the front end, and run.

    The programs run are those the lowering produces, in the semantics of [LowerSem]; the zone run of
    [ZoneRun] serves as a proof that accepted packet programs are safe for all packets. *)

From S2P Require Import Prelude Json BpfInsn ConvertTests BpfSem ConvertJson ConvertProgs Zone ZoneRun.
From S2P Require Import LegacyXdp LegacyAlu LegacyTests XdpTests PccExamples Lower LowerProps LowerSem TestRunner.
From Stdlib Require Import ZArith Lia String.
From stdpp Require Import base numbers strings gmap list.
Import Json BpfInsn ConvertTests BpfSem ConvertJson ConvertProgs LowerSem ZoneRun LegacyXdp LegacyAlu LegacyTests XdpTests PccExamples.
Open Scope Z_scope.

Module TestPipeline.

(** The JSON library follows its data model. *)
Definition serde (from_str : string -> option (list TestRunner.JsonTestCase)) : Prop :=
  forall text j, TestRunner.is_ascii text = true -> parse text = Some j -> from_str text = TestRunner.read_tests j.

Lemma serde_model : serde TestRunner.from_str_model.
Proof. intros text j _ Hj. unfold TestRunner.from_str_model. by rewrite Hj. Qed.

(** What the theorem on the tool chain asks of a test. *)
Definition convertible (t : bpf_test) : bool :=
  static t && c_strings t && TestRunner.ascii_test t && TestRunner.typed t.

Definition raws (t : bpf_test) : list Lower.RawBpfInsn :=
  map TestRunner.from_json (TestRunner.insns (TestRunner.case_of t)).

Lemma converted_read from_str calloc_ok tests : serde from_str -> forallb convertible tests = true ->
  exists out, main calloc_ok tests = Some out /\ from_str out = Some (map TestRunner.case_of tests) /\
    forall analyze, TestRunner.run_test_file from_str analyze out =
      Some (TestRunner.file_of (map (fun t => TestRunner.run_test analyze (TestRunner.case_of t)) tests)).
Proof.
  intros Hs Hc.
  assert (forallb static tests = true /\ forallb c_strings tests = true /\ forallb TestRunner.ascii_test tests = true /\
    forallb TestRunner.typed tests = true) as (H1 & H2 & H3 & H4).
  { rewrite !forallb_forall in *. unfold convertible in Hc. split_and!; intros t Ht; specialize (Hc t Ht);
      rewrite !andb_true_iff in Hc; tauto. }
  by apply TestRunner.read_converted.
Qed.

(** * Lowering *)

(** The lowering succeeds, or the test announces its error. *)
Definition lowering_ok (t : bpf_test) : bool :=
  match Lower.lower_raw_to_program (raws t) with
  | Lower.Ok _ => true
  | Lower.Err e =>
      (result t =? REJECT) &&
      match errstr t with Some s => TestRunner.lowering_expected s (Lower.kind e) | None => false end
  end.

Lemma lowering_ok_spec analyze t : lowering_ok t = true ->
  let o := TestRunner.run_test analyze (TestRunner.case_of t) in
  TestRunner.is_error o = false /\
  forall e, Lower.lower_raw_to_program (raws t) = Lower.Err e -> result t = REJECT /\ o = TestRunner.Pass.
Proof.
  unfold lowering_ok. intros H. unfold TestRunner.run_test. fold (raws t).
  destruct (Lower.lower_raw_to_program (raws t)) as [p|e].
  - split; [|done]. by repeat case_match.
  - apply andb_prop in H as [Hr%Z.eqb_eq He]. cbn [TestRunner.case_of TestRunner.errstr].
    destruct (errstr t) as [s|]; [|done]. rewrite He. naive_solver.
Qed.

Lemma tally_none p l : (forall o, In o l -> p o = false) -> TestRunner.tally p l = 0.
Proof.
  unfold TestRunner.tally. intros H. induction l as [|o l IH]; [done|]. cbn [List.filter].
  rewrite (H o) by (by left). apply IH. intros o' Ho. apply H. by right.
Qed.



(** * Results *)

(** The lowered program runs as the instructions of the test do. *)
Definition classic (x : bpf_insn) : bool :=
  match ext_step (init_state 0 []) x with Some _ => false | None => true end.

Lemma classic_step s x : classic x = true -> ext_step s x = None.
Proof. unfold classic, ext_step. intros H. by repeat case_match. Qed.

Definition insn_ok (x : bpf_insn) : bool :=
  bool_decide (LowerProps.raw_ok (TestRunner.from_json (TestRunner.case_insn x))) &&
  kept (TestRunner.from_json (TestRunner.case_insn x)) && classic x.

Lemma raws_insns t : to_insn <$> raws t = insns t.
Proof.
  unfold raws. cbn [TestRunner.case_of TestRunner.insns]. change (fmap to_insn) with (map to_insn). rewrite !map_map.
  rewrite <- (map_id (insns t)) at 2. apply map_ext. by intros [].
Qed.

Lemma lowered_run t p rand fuel s : forallb insn_ok (insns t) = true -> Lower.lower_raw_to_program (raws t) = Lower.Ok p ->
  steps (exec p rand) fuel s = run (insns t) rand fuel s.
Proof.
  intros Hi Hp. rewrite forallb_forall in Hi.
  assert (forall k x, raws t !! k = Some x -> LowerProps.raw_ok x /\ kept x = true /\ classic (to_insn x) = true) as H.
  { intros k x Hx. unfold raws in Hx. cbn [TestRunner.case_of TestRunner.insns] in Hx. rewrite map_map in Hx.
    apply list_elem_of_lookup_2, list_elem_of_In, in_map_iff in Hx as (y & <- & Hy). specialize (Hi y Hy).
    unfold insn_ok in Hi. rewrite !andb_true_iff, bool_decide_eq_true in Hi. destruct y. cbn in *. tauto. }
  revert s. induction fuel as [|fuel IH]; intros s; [done|]. cbn [steps run].
  rewrite (lower_step (raws t) p rand s);
    [|apply Forall_lookup; intros k x Hx; apply (H k x Hx)|exact Hp|intros x Hx; apply (H _ x Hx)].
  assert (isa_step (to_insn <$> raws t) rand s = step (insns t) rand s) as ->.
  { rewrite raws_insns. unfold isa_step. destruct (pc s <? 0) eqn:En; [unfold step; by rewrite En|].
    destruct (insns t !! Z.to_nat (pc s)) as [x|] eqn:Ex; [|unfold step; by rewrite En, Ex].
    rewrite classic_step; [done|]. rewrite <- raws_insns, list_lookup_fmap in Ex.
    destruct (raws t !! Z.to_nat (pc s)) as [y|] eqn:Ey; [|done]. injection Ex as <-. by apply (H _ _ Ey). }
  destruct (step (insns t) rand s); auto.
Qed.

(** The test comes out of the tool chain as the program [p]. *)
Definition lowered_to (from_str : string -> option (list TestRunner.JsonTestCase)) (calloc_ok : nat -> bool)
  (t : bpf_test) (p : Lower.LProgram) : Prop :=
  exists out c, main calloc_ok [t] = Some out /\ from_str out = Some [c] /\
    Lower.lower_raw_to_program (map TestRunner.from_json (TestRunner.insns c)) = Lower.Ok p.

Definition lowers (t : bpf_test) : bool :=
  match Lower.lower_raw_to_program (raws t) with Lower.Ok _ => true | Lower.Err _ => false end.

Lemma tool_chain from_str calloc_ok t : serde from_str -> convertible t && lowers t = true ->
  exists p, lowered_to from_str calloc_ok t p /\ Lower.lower_raw_to_program (raws t) = Lower.Ok p.
Proof.
  intros Hs [Hc Hl]%andb_prop. unfold lowers in Hl.
  destruct (Lower.lower_raw_to_program (raws t)) as [p|] eqn:Ep; [|done]. exists p. split; [|done].
  destruct (converted_read from_str calloc_ok [t] Hs) as (out & Ho & Hf & _); [cbn; by rewrite Hc|].
  by exists out, (TestRunner.case_of t).
Qed.

Definition returns_value (rand : nat -> Z) (t : bpf_test) (p : Lower.LProgram) : bool :=
  forallb (fun r => returns (steps (exec p rand) (Z.to_nat 20000) (init_state (prog_type t) (res_data r))) (res_retval r))
    (test_runs t).



(** ** Packet tests *)

(** All tests on direct accesses to XDP packets, those on metadata that the anchors of the metadata area
    justify, and the samples with accesses at variable offsets. *)
Definition packet_suite : list (layout * bpf_test) :=
  map (pair XDP) (xdp_direct_packet_access_tests ++ meta_accepted) ++ map (pair SKB) pcc_examples_tests.

#[local] Instance layout_eq_dec : EqDecision layout.
Proof. solve_decision. Defined.

Definition packet_ok (e : layout * bpf_test) : bool :=
  let t := e.2 in
  convertible t && lowers t && layout_ok e.1 && forallb insn_ok (insns t) &&
  (if result t =? ACCEPT then zone_safe e.1 (insns t) (retval t) else bool_decide (e.1 = XDP)).



End TestPipeline.
